(* ===== verification/_CoqProject ===== *)
-Q . S2P
Prelude.v
Binary.v
GoStrings.v
GoPath.v
Strconv.v
Filemode.v
ObjectID.v
Reference.v
Storer.v
Memory.v
Objects.v
ObjectsProofs.v
Trees.v
TreesProofs.v
History.v
HistoryWalks.v
HistoryProofs.v
Revlist.v
RevlistProofs.v
Merkletrie.v
MerkletrieProofs.v
WorktreeIndex.v
IndexMatch.v
IndexMatchProofs.v
Filepath.v
WorktreeIndexProofs.v
Transactional.v
RefSpec.v
Revision.v
RevisionProofs.v
RevisionRoundtrip.v
Resolve.v
ResolveProofs.v
DeltaIndex.v
Delta.v
DeltaProofs.v
PackEncoder.v
PackScanner.v
PackProofs.v
PackEncoderProofs.v
PackParser.v
PackParserProofs.v
PackSelector.v
PackSelectorProofs.v
Cache.v
Packfile.v
PackfileProofs.v
PktLine.v
Sideband.v
Capability.v
Packp.v
AdvRefsProofs.v
PackpMessages.v
DotGit.v
DotGitProofs.v
DotGitPacked.v
DotGitTheorems.v
PackpDecoders.v
UlreqProofs.v
PackpProofs.v
Idxfile.v
IdxfileTables.v
IdxfileProofs.v
PackPipeline.v
CommitGraph.v
CommitGraphProofs.v
CommitGraphEncoding.v
Gitignore.v
GitignoreProofs.v
Gitattributes.v
GitattributesProofs.v
ConfigFormat.v
ConfigText.v
Config.v
ConfigProofs.v
ConfigRoundtrip.v
ConfigTheorems.v
Objfile.v
LooseObjects.v
LooseProofs.v
