(* ===== verification/Prelude.v ===== *)
(** * A verification of go-git

    go-git is an implementation of Git in Go.  This development models the parts
    of it that carry their own algorithms and data formats, as executable
    definitions translated function by function from the Go source, and proves
    what makes each part correct.  Paths below are relative to [src/].

    ** The program and its parts

    Objects (commits, trees, blobs, tags) are kept one per file, or together in
    packfiles, in which an object may be stored as a delta against another one
    and which an index makes searchable.  Objects and references are kept in
    storages behind the interfaces of [plumbing/storer]: in memory, in the file
    system, or in a transaction over two other storages; caches of bounded size
    keep hot objects.  References have names with rules, may be symbolic, are
    mapped between repositories by refspecs and are found by revisions.  The
    history of commits is walked, in memory or through a commit-graph file, to
    find ancestors, merge bases and the objects to send.  The two ends of a
    transfer speak pkt-lines, with messages of the protocol over them, and with
    packfile, progress and error channels multiplexed into a sideband.  The work
    tree is compared with the index by the difference of two Merkle tries, with
    patterns that say what is ignored; a configuration file says the rest.

    ** Files and what they model

    Shared by all files:
    - [Prelude]: bytes, machine integers with their wrap-around, outcomes
      (value, error, panic), Go's indexing and slicing, readers, big-endian
      numbers, and the lemmas and automation all files share.
    - [GoStrings], [GoPath], [Strconv], [Filepath]: what the code calls of Go's
      [strings], [unicode/utf8], [path], [strconv], [fmt] and [path/filepath],
      and slices of strings that share their arrays.
    - [Binary]: [utils/binary].

    Objects and history:
    - [ObjectID]: [plumbing/objectid.go], [hash.go] and the object formats of
      [plumbing/format/config/format.go].
    - [Filemode]: [plumbing/filemode].
    - [Objects], [ObjectsProofs]: signatures, commits and tags of
      [plumbing/object]; [Trees], [TreesProofs]: its trees, blobs and files.
    - [History], [HistoryWalks], [HistoryProofs]: the commit iterators,
      [merge_base.go] and the limits of a log, against reachability.
    - [Revlist], [RevlistProofs]: [plumbing/revlist].
    - [CommitGraph], [CommitGraphProofs], [CommitGraphEncoding]:
      [plumbing/format/commitgraph].

    References and storages:
    - [Reference]: [plumbing/reference.go].
    - [Storer]: [plumbing/storer/reference.go], the reference storage as the
      class [ReferenceStorer] with [ReferenceStorerLaws] and [ReferenceIterLaw].
    - [Memory]: [storage/memory] and [plumbing/object.go], an instance of them.
    - [Transactional]: [storage/transactional], over any two instances.
    - [RefSpec]: [config/refspec.go] and [pruneRemotes] of [remote.go].
    - [Revision], [RevisionProofs], [RevisionRoundtrip]:
      [internal/revision]; [Resolve], [ResolveProofs]: [ResolveRevision] of
      [repository.go].
    - [DotGit], [DotGitProofs], [DotGitPacked], [DotGitTheorems]:
      the references of [storage/filesystem], over any file system that keeps
      [FilesystemLaws], with an instance in memory.
    - [Objfile]: [plumbing/format/objfile]; [LooseObjects], [LooseProofs]: the
      loose objects of [storage/filesystem].

    Packfiles:
    - [DeltaIndex], [Delta], [DeltaProofs]: [delta_index.go], [diff_delta.go]
      and the three decoders of [patch_delta.go], all of
      [plumbing/format/packfile] as are the next.
    - [PackEncoder], [PackScanner], [PackProofs], [PackEncoderProofs]:
      [object_pack.go], [encoder.go], [types.go], [scanner.go].
    - [PackParser], [PackParserProofs]: [parser.go], [parser_cache.go].
    - [PackSelector], [PackSelectorProofs]: [delta_selector.go].
    - [Packfile], [PackfileProofs]: [packfile.go].
    - [Idxfile], [IdxfileTables], [IdxfileProofs]: [plumbing/format/idxfile].
    - [PackPipeline]: encoder, parser, index and packfile put together.
    - [Cache]: [plumbing/cache]; [LRULaws] is what both caches promise.

    Protocol:
    - [PktLine]: [plumbing/format/pktline]; [Sideband]:
      [plumbing/protocol/packp/sideband]; [Capability]:
      [plumbing/protocol/packp/capability].
    - [Packp], [PackpMessages], [PackpDecoders] with [AdvRefsProofs],
      [UlreqProofs], [PackpProofs]: the messages of [plumbing/protocol/packp].

    Work tree and configuration:
    - [Merkletrie], [MerkletrieProofs]: [utils/merkletrie].
    - [WorktreeIndex], [IndexMatch], [WorktreeIndexProofs],
      [IndexMatchProofs]: [plumbing/format/index].
    - [Gitignore], [GitignoreProofs], [Gitattributes], [GitattributesProofs]:
      [plumbing/format/gitignore] and [gitattributes].
    - [ConfigFormat], [ConfigText]: [plumbing/format/config]; [Config],
      [ConfigProofs], [ConfigRoundtrip], [ConfigTheorems]:
      [config] and [plumbing/protocol/version.go].

    A Go struct is a record, an interface a class or a record of operations, a
    map a [gmap], a slice or string a list of bytes; an [int], [int64] or [uint]
    is a [Z] and arithmetic that can wrap is wrapped explicitly.  State is passed
    and returned.  An [error] result is [Err], a run-time panic is [Panic].
    Where the code mutates what others point to (objects to pack, headers of a
    parser, slices that share an array, the pool of buffers), there is a store
    and a pointer is a position in it.

    ** What the theorems show

    - Packfiles: the objects named to the encoder, whichever deltas are reused
      or chosen, come back from the scanner, from the parser and, through the
      index and its file, from random access in any order and with any lawful
      cache; the parser tells each with the checksum of the bytes of its entry.
      The encoder breaks a cycle of deltas at one object; where the storage gives
      none of the originals of a cycle, it does not end.
    - Deltas: decoding an encoded delta gives the target, for the slice decoder
      and the streaming decoder; the slice decoder terminates without a panic on
      any input and a success has the announced size.
    - Packfile index: the index built from any observed objects, and the one
      decoded from its file, find exactly these objects by hash and by offset,
      and iterate over all of them; decoding settles on any bytes.
    - Objects: commits, tags and trees come back from their encodings; looking up
      a path with the cache of sub-trees is looking it up without; a walk gives
      every entry once.
    - History: each iterator visits what is reached through the parents it
      follows, once; ancestors, independent commits and merge bases are those of
      reachability; a revision list has exactly the objects reachable from one
      set and not from the other; a commit-graph file answers as the graph did.
    - References: [Validate] is git-check-ref-format on the whole name;
      [ResolveReference] terminates and follows links exactly; refspecs match and
      map as their text says.  Every revision is parsed, the names in it are
      reference names, what is written is parsed back, and a revision resolves
      to the commit its suffixes lead to, without a nil dereference; the prefix of
      a hash stands for the objects whose text begins with it.
    - Storages: the memory storage's maps agree; a transaction is isolated and
      commits as a whole; the references in files are a map from names to
      references for reading, setting, comparing, removing and listing, and for
      packing where no reference is symbolic;
      a loose object that is stored is found, sized and read back, and the
      objects with a prefix are found by halving as by looking at all of them.
    - Caches: any sequence of operations refines the list of values ordered by
      use, with the size bound kept and no panic.
    - Wire formats: round trips for variable-width integers, packets, sideband
      messages under any sequence of read sizes, advertised references, requests
      and replies; the decoders end on every input.
    - Work tree: the difference of two tries is that of their files; the index
      round trips in versions 2 to 4; glob matching agrees with the usual
      relation; patterns of gitignore of literals and wildcards agree with the
      documented meaning where the theorem says, and depart from it where the
      examples do.
    - Configuration: the text of a configuration file is read back, a
      configuration survives marshalling and unmarshalling, options that are not
      known are kept, and a submodule that is read has a path that stays inside
      the work tree.
    Known departures of the code from what it means to do are theorems too.

    ** Parameters

    What is not in the repository is an argument with laws that its documentation
    states, and every theorem with such laws is applied to an instance: zlib,
    SHA-1, SHA-256 and CRC-32; the tables of package unicode, case folding,
    regular expressions and the parsing of times; the reader of gcfg; the file
    system of go-billy; the environment; the order in which a map is ranged over,
    in which [sort.Sort] leaves equal elements and in which goroutines run; and,
    for a component that another part of the program implements, its interface
    (object storers, observers, caches, indexes).

    ** Fuel and bounds

    Loops that are not structural take fuel, and running out is the separate
    outcome [NoFuel].  The callers pass the length of the remaining input (every
    round of a decoder consumes a byte or ends), the number of elements left
    (eviction, iteration, halving an interval), ten rounds for a variable-width
    [int64], or 1027 for [ResolveReference], whose own limit is 1024 recursions;
    a binary search gets one round per name, an entry iterator 257 for the 256
    buckets.  A walk over a history is given its fuel, and its theorems say how
    much is enough.  The theorems state [Ok] or a listed error, so they include
    that the fuel is enough.  The theorems on packfile indexes are for fewer than
    2^27 objects, which keeps the 32-bit products of counts and identifier sizes
    from wrapping; sizes of objects are below 2^63.

    ** Not modelled

    - The network transports, the servers of [backend] and the commands of
      [repository.go], [remote.go] and [worktree.go] other than those named
      above: orchestration of the parts above around input and output.
    - Rename detection and patches, which rest on a third-party text difference,
      and the commit nodes over a graph, whose walks repeat those of
      [plumbing/object].
    - In [storage/filesystem], the cache of open packfiles, the goroutine that
      indexes a packfile while it is written, and alternates.
    - Locks, contexts that are cancelled, tracing and signature verification:
      each modelled operation holds its lock throughout.

    ** What is left to do

    The packfile side of [storage/filesystem/object.go] over [Packfile] and
    [Idxfile], the negotiation of [plumbing/transport] over [PackpMessages] and
    [Revlist], and the status of a work tree over [Merkletrie] and
    [WorktreeIndex]. *)
From Stdlib Require Export ZArith Lia Strings.Byte String List Sorted.
From stdpp Require Export base list numbers gmap strings.

#[global] Set Default Goal Selector "!".

Declare Scope git_scope.
Delimit Scope git_scope with git.
Open Scope Z_scope.
Open Scope git_scope.

(** ** Bytes

    Go's [byte] is [Init.Byte.byte]; [[]byte] and [string] are lists of them.
    [b2z] is the numeric value and [z2b] the truncating conversion [byte(z)]. *)

Abbreviation byte := Init.Byte.byte.
Abbreviation bytes := (list Init.Byte.byte).

Definition b2z (b : byte) : Z := Z.of_N (Byte.to_N b).

Definition z2b (z : Z) : byte :=
  match Byte.of_N (Z.to_N (z mod 256)) with Some b => b | None => x00 end.

(** A Go string literal. *)
Definition bs (s : string) : bytes := String.list_byte_of_string s.

#[global] Instance byte_eq_decision : EqDecision byte := Byte.byte_eq_dec.

Lemma byte_countable_law (b : byte) : Byte.of_N (Byte.to_N b) = Some b.
Proof. apply Byte.of_to_N. Qed.

#[global] Instance byte_countable : Countable byte :=
  inj_countable Byte.to_N Byte.of_N byte_countable_law.

Lemma b2z_range b : 0 <= b2z b < 256.
Proof.
  unfold b2z. pose proof (Byte.to_N_bounded b) as H. lia.
Qed.

Lemma b2z_z2b z : b2z (z2b z) = z mod 256.
Proof.
  unfold b2z, z2b. pose proof (Z.mod_pos_bound z 256 ltac:(lia)) as Hz.
  destruct (Byte.of_N (Z.to_N (z mod 256))) as [b|] eqn:E.
  - apply Byte.to_of_N in E. rewrite E. lia.
  - apply Byte.of_N_None_iff in E. lia.
Qed.

Lemma z2b_b2z b : z2b (b2z b) = b.
Proof.
  unfold z2b. pose proof (b2z_range b) as Hb. rewrite Z.mod_small by lia.
  unfold b2z. rewrite N2Z.id, Byte.of_to_N. reflexivity.
Qed.

Lemma b2z_inj a b : b2z a = b2z b -> a = b.
Proof. intros H. rewrite <- (z2b_b2z a), H. apply z2b_b2z. Qed.

Lemma z2b_small z : 0 <= z < 256 -> b2z (z2b z) = z.
Proof. intros. rewrite b2z_z2b. apply Z.mod_small. lia. Qed.

(** ** Lengths and machine integers *)

Definition len {A} (l : list A) : Z := Z.of_nat (length l).

Lemma len_nonneg {A} (l : list A) : 0 <= len l.
Proof. unfold len. lia. Qed.

Lemma len_nil {A} : len (@nil A) = 0.
Proof. reflexivity. Qed.

Lemma len_cons {A} (x : A) l : len (x :: l) = 1 + len l.
Proof. unfold len. cbn [length]. lia. Qed.

Lemma len_app {A} (l k : list A) : len (l ++ k) = len l + len k.
Proof. unfold len. rewrite length_app. lia. Qed.

(** Go's fixed-width integers: [uint], [uint64], [uint32] wrap modulo a power
    of two; [int] and [int64] wrap into the symmetric range. *)
Definition u64 (z : Z) : Z := z mod 2 ^ 64.
Definition u32 (z : Z) : Z := z mod 2 ^ 32.
Definition u16 (z : Z) : Z := z mod 2 ^ 16.
Definition i64 (z : Z) : Z := (z + 2 ^ 63) mod 2 ^ 64 - 2 ^ 63.

Lemma u64_small z : 0 <= z < 2 ^ 64 -> u64 z = z.
Proof. apply Z.mod_small. Qed.
Lemma u32_small z : 0 <= z < 2 ^ 32 -> u32 z = z.
Proof. apply Z.mod_small. Qed.
Lemma u16_small z : 0 <= z < 2 ^ 16 -> u16 z = z.
Proof. apply Z.mod_small. Qed.
Lemma i64_small z : - 2 ^ 63 <= z < 2 ^ 63 -> i64 z = z.
Proof. intros. unfold i64. rewrite Z.mod_small; lia. Qed.
Lemma u64_range z : 0 <= u64 z < 2 ^ 64.
Proof. apply Z.mod_pos_bound. reflexivity. Qed.
Lemma u32_range z : 0 <= u32 z < 2 ^ 32.
Proof. apply Z.mod_pos_bound. reflexivity. Qed.

(** ** Outcomes

    A Go function that can fail returns [Ok], [Err] with the error value, or
    [Panic] for a run-time panic (index or slice bounds out of range).
    [NoFuel] is not a Go outcome: it marks that the fuel of a modelled loop ran
    out, so that termination is a theorem ("the result is never [NoFuel]"). *)

(** The error values of the modelled packages: the sentinels by their Go names,
    and the errors built with [fmt.Errorf] by what they report. *)
Inductive error :=
  (* strconv *)
  | ErrSyntax | ErrRange
  (* io, bufio *)
  | EOF | ErrUnexpectedEOF | ErrBufferFull
  (* plumbing/storer *)
  | ErrStop | ErrMaxResolveRecursion
  (* storage/memory *)
  | ErrUnsupportedObjectType | ErrNotSupported
  (* plumbing/format/pktline *)
  | ErrPayloadTooLong | ErrInvalidPktLen | ErrInvalidErrorLine | ErrorLine (text : bytes)
  (* plumbing/protocol/packp/sideband *)
  | ErrMaxPackedExceeded | ErrInvalidSideband (content : bytes)
  | ErrSidebandMessage (text : bytes) | ErrUnknownChannel (content : bytes)
  (* plumbing, config *)
  | ErrReferenceNotFound | ErrInvalidReferenceName | ErrObjectNotFound | ErrInvalidType
  | ErrRefSpecMalformedSeparator | ErrRefSpecMalformedWildcard | ErrReferenceHasChanged
  (* plumbing/filemode *)
  | ErrNoGitMode | ErrMalformedMode
  (* plumbing/object *)
  | ErrEmptyFileName | ErrUnsupportedObject | ErrParentNotFound | ErrMaxTreeDepth | ErrFileNotFound | ErrDirectoryNotFound | ErrEntryNotFound
  | ErrEntriesNotSorted | ErrMalformedFilename | errIsReachable
  (* plumbing/protocol/packp/capability *)
  | ErrArgumentsRequired | ErrArguments | ErrEmptyArgument | ErrMultipleArguments
  (* plumbing/protocol/packp; the errors built with a format by their format text *)
  | ErrUnexpectedData (msg : bytes) | ErrPackp (msg : bytes) | ErrEmptyAdvRefs | ErrEmptyInput
  | ErrEmptyCommands | ErrMalformedCommand | ErrEmptyRequest | errNoCommands | errMissingCapabilitiesDelimiter | errNoFlush
  | UnpackStatusErr (status : bytes) | CommandStatusErr (name status : bytes)
  | ErrInvalidGitProtoRequest | ErrInvalidSmartReply | ErrUnsupportedObjectFilterType | ErrTooLong | UnexpectedError (err : bytes)
  (* os; plumbing/format/gitattributes *)
  | ErrNotExist | ErrMacroNotAllowed | ErrInvalidAttributeName
  (* plumbing/format/index *)
  | ErrInvalidTimestamp | ErrInvalidSignatureLength | ErrMalformedSignature | ErrInvalidChecksum | ErrUnknownExtension | ErrBadPattern
  (* plumbing/format/idxfile *)
  | ErrUnsupportedVersion | ErrMalformedIdxFile | ErrIndexNotFinished
  (* plumbing/format/packfile *)
  | ErrInvalidDelta | ErrDeltaCmd | ErrLazyWriteHeader (msg : bytes)
  | ErrEmptyPackfile | ErrBadSignature | ErrMalformedPackfile | ErrUnsupportedPackfileVersion | ErrSeekNotSupported
  | ErrReferenceDeltaNotFound | ErrInvalidObject | ErrBadDeltaOffset (offset : Z) | ErrZlibReset | ErrZLib | ErrFileNotSet | ErrIndexNotSet | ErrSeekNegative
  (* internal/revision, repository.go *)
  | ErrInvalidRevision (s : bytes) | ErrNoCommitMatch (re : bytes)
  (* storage/filesystem/dotgit *)
  | ErrPackedRefsBadFormat | ErrIsDir | ErrEmptyRefFile | ErrReferenceChangedConcurrently
  (* config *)
  | ErrInvalid | ErrRemoteConfigEmptyURL | ErrRemoteConfigEmptyName | errBranchEmptyName | errBranchInvalidMerge | errBranchInvalidRebase
  | ErrModuleEmptyURL | ErrModuleEmptyPath | ErrModuleBadPath | errURLEmptyInsteadOf | ErrInvalidObjectFormat | ErrUnknownProtocol | ErrLocalScope
  (* plumbing/format/objfile *)
  | ErrClosed | ErrHeader | ErrNegativeSize | ErrOverflow
  (* plumbing/format/commitgraph *)
  | ErrUnsupportedHash | ErrMalformedCommitGraphFile.

#[global] Instance error_eq_decision : EqDecision error.
Proof. solve_decision. Defined.

Inductive res (A : Type) : Type :=
  | Ok (a : A)
  | Err (e : error)
  | Panic
  | NoFuel.
Arguments Ok {A} a.
Arguments Err {A} e.
Arguments Panic {A}.
Arguments NoFuel {A}.

#[global] Instance res_eq_decision {A} `{EqDecision A} : EqDecision (res A).
Proof. solve_decision. Defined.

Definition res_bind {A B} (m : res A) (k : A -> res B) : res B :=
  match m with
  | Ok a => k a
  | Err e => Err e
  | Panic => Panic
  | NoFuel => NoFuel
  end.

Notation "'let*' x ':=' m 'in' k" := (res_bind m (fun x => k))
  (at level 10, x pattern, m at level 100, k at level 200,
   format "'[v' 'let*'  x  ':='  m  'in' '/' k ']'") : git_scope.

Lemma res_bind_ok {A B} (m : res A) (k : A -> res B) b :
  res_bind m k = Ok b -> exists a, m = Ok a /\ k a = Ok b.
Proof. destruct m; cbn; intros; try discriminate. eauto. Qed.

(** [injection] without computing. *)
Lemma Ok_inj {A} (x y : A) : Ok x = Ok y -> x = y.
Proof. congruence. Qed.

(** Destructs a successful bind in hypothesis [H]. *)
Ltac inv_bind H :=
  let a := fresh "v" in let E := fresh "E" in
  apply res_bind_ok in H; destruct H as (a & E & H).

(** ** Indexing and slicing with Go's bounds checks *)

(** [l[i]] *)
Definition index {A} (l : list A) (i : Z) : res A :=
  if i <? 0 then Panic else
  match l !! Z.to_nat i with Some x => Ok x | None => Panic end.

(** [l[i] = x] *)
Definition set_index {A} (l : list A) (i : Z) (x : A) : res (list A) :=
  if (i <? 0) || (len l <=? i) then Panic else Ok (<[Z.to_nat i := x]> l).

(** The elements [lo <= i < hi] of [l], for bounds already checked. *)
Definition seg {A} (l : list A) (lo hi : Z) : list A :=
  take (Z.to_nat (hi - lo)) (drop (Z.to_nat lo) l).

(** [l[lo:hi]] *)
Definition slice {A} (l : list A) (lo hi : Z) : res (list A) :=
  if (0 <=? lo) && (lo <=? hi) && (hi <=? len l) then Ok (seg l lo hi) else Panic.

Lemma index_ok {A} (l : list A) i :
  0 <= i < len l -> exists x, index l i = Ok x /\ l !! Z.to_nat i = Some x.
Proof.
  intros Hi. unfold index, len in *. destruct (Z.ltb_spec i 0); [lia|].
  destruct (lookup_lt_is_Some_2 l (Z.to_nat i)) as [x Hx]; [lia|].
  exists x. rewrite Hx. auto.
Qed.

Lemma index_lookup {A} (l : list A) i x :
  0 <= i -> l !! Z.to_nat i = Some x -> index l i = Ok x.
Proof. intros Hi H. unfold index. destruct (Z.ltb_spec i 0); [lia|]. rewrite H. reflexivity. Qed.

Lemma index_inv {A} (l : list A) i x :
  index l i = Ok x -> 0 <= i < len l /\ l !! Z.to_nat i = Some x.
Proof.
  unfold index, len. destruct (Z.ltb_spec i 0); [discriminate|].
  destruct (l !! Z.to_nat i) eqn:E; [|discriminate]. intros [= ->].
  apply lookup_lt_Some in E as ?. split; [lia|done].
Qed.

Lemma set_index_ok {A} (l : list A) i x :
  0 <= i < len l -> set_index l i x = Ok (<[Z.to_nat i := x]> l).
Proof.
  intros. unfold set_index.
  destruct (Z.ltb_spec i 0), (Z.leb_spec (len l) i); try lia. reflexivity.
Qed.

Lemma set_index_inv {A} (l : list A) i x l' :
  set_index l i x = Ok l' -> 0 <= i < len l /\ l' = <[Z.to_nat i := x]> l.
Proof.
  unfold set_index. destruct (Z.ltb_spec i 0), (Z.leb_spec (len l) i); cbn; try discriminate.
  intros [= <-]. split; [lia|done].
Qed.

Lemma slice_ok {A} (l : list A) lo hi :
  0 <= lo <= hi -> hi <= len l -> slice l lo hi = Ok (seg l lo hi).
Proof.
  intros. unfold slice.
  destruct (Z.leb_spec 0 lo), (Z.leb_spec lo hi), (Z.leb_spec hi (len l)); try lia. reflexivity.
Qed.

Lemma slice_inv {A} (l : list A) lo hi k :
  slice l lo hi = Ok k -> 0 <= lo <= hi /\ hi <= len l /\ k = seg l lo hi.
Proof.
  unfold slice.
  destruct (Z.leb_spec 0 lo), (Z.leb_spec lo hi), (Z.leb_spec hi (len l)); cbn; try discriminate.
  intros [= <-]. auto with lia.
Qed.

Lemma slice_app_l (a b : bytes) : slice (a ++ b) 0 (len a) = Ok a.
Proof.
  pose proof (len_nonneg a). pose proof (len_nonneg b). pose proof (len_app a b). rewrite slice_ok by lia. f_equal. unfold seg, len.
  rewrite Z.sub_0_r, Nat2Z.id. change (Z.to_nat 0) with 0%nat. by rewrite drop_0, take_app_length.
Qed.

Lemma slice_app_r (a b : bytes) n m : n = len a -> m = len (a ++ b) -> slice (a ++ b) n m = Ok b.
Proof.
  intros -> ->. pose proof (len_nonneg a). pose proof (len_nonneg b). pose proof (len_app a b). rewrite slice_ok by lia.
  f_equal. unfold seg, len. rewrite Nat2Z.id, drop_app_length. apply take_ge. rewrite length_app. lia.
Qed.

Lemma slice_app_m (a b c : bytes) n m : n = len a -> m = len (a ++ b) -> slice (a ++ b ++ c) n m = Ok b.
Proof.
  intros -> ->. pose proof (len_nonneg a). pose proof (len_nonneg b). pose proof (len_nonneg c).
  pose proof (len_app a b). pose proof (len_app a (b ++ c)). pose proof (len_app b c). rewrite slice_ok by lia. f_equal. unfold seg. rewrite len_app. unfold len.
  rewrite Nat2Z.id, drop_app_length. replace (Z.to_nat _) with (length b) by lia. by rewrite take_app_length.
Qed.

Lemma slice_total (b : bytes) lo hi : 0 <= lo <= hi -> hi <= len b -> exists x, slice b lo hi = Ok x /\ len x = hi - lo.
Proof.
  intros H1 H2. rewrite slice_ok by done. eexists. split; [done|]. unfold seg, len in *. rewrite length_take, length_drop. lia.
Qed.

(** Closed decidable goals. *)
Ltac by_decision := apply (bool_decide_unpack _); vm_compute; exact I.

Ltac take_slice := match goal with |- context [slice ?b ?lo ?hi] =>
  let x := fresh "x" in let E := fresh "E" in let L := fresh "L" in
  destruct (slice_total b lo hi ltac:(lia) ltac:(lia)) as (x & E & L); rewrite E; cbn [res_bind] end.

Lemma len_take {A} (l : list A) n : len (take n l) = Z.min (Z.of_nat n) (len l).
Proof. unfold len. rewrite length_take. lia. Qed.

Lemma len_drop {A} (l : list A) n : len (drop n l) = Z.max 0 (len l - Z.of_nat n).
Proof. unfold len. rewrite length_drop. lia. Qed.

Lemma len_insert {A} (l : list A) i x : len (<[i := x]> l) = len l.
Proof. unfold len. rewrite length_insert. reflexivity. Qed.

Lemma len_replicate {A} n (x : A) : len (replicate n x) = Z.of_nat n.
Proof. unfold len. rewrite length_replicate. reflexivity. Qed.

Lemma len_seg {A} (l : list A) lo hi :
  0 <= lo <= hi -> hi <= len l -> len (seg l lo hi) = hi - lo.
Proof. intros. unfold seg. rewrite len_take, len_drop. lia. Qed.

Lemma seg_app {A} (l : list A) a b c :
  0 <= a <= b -> b <= c -> seg l a b ++ seg l b c = seg l a c.
Proof.
  intros. unfold seg.
  replace (Z.to_nat (c - a)) with (Z.to_nat (b - a) + Z.to_nat (c - b))%nat by lia.
  rewrite <- take_take_drop. f_equal. rewrite drop_drop. do 2 f_equal. lia.
Qed.

Lemma seg_full {A} (l : list A) : seg l 0 (len l) = l.
Proof. unfold seg, len. rewrite drop_0. apply take_ge. lia. Qed.

Lemma seg_empty {A} (l : list A) a b : b <= a -> seg l a b = [].
Proof. intros. unfold seg. replace (Z.to_nat (b - a)) with 0%nat by lia. apply take_0. Qed.

Lemma seg_one {A} (l : list A) i x :
  0 <= i -> l !! Z.to_nat i = Some x -> seg l i (i + 1) = [x].
Proof.
  intros Hi H. unfold seg. replace (Z.to_nat (i + 1 - i)) with 1%nat by lia.
  rewrite (drop_S _ _ _ H). reflexivity.
Qed.

Lemma seg_prefix_drop {A} (l : list A) n : 0 <= n -> seg l 0 n ++ drop (Z.to_nat n) l = l.
Proof. intros. unfold seg. rewrite drop_0, Z.sub_0_r. apply take_drop. Qed.

Lemma Forall_index {A} (P : A -> Prop) l i x : Forall P l -> index l i = Ok x -> P x.
Proof. intros H [_ E]%index_inv. eapply Forall_lookup_1; eauto. Qed.

(** ** Bit ranges *)

Lemma below_pow2 k x :
  0 <= k -> 0 <= x -> (forall n, k <= n -> Z.testbit x n = false) -> x < 2 ^ k.
Proof. intros Hk Hx H. apply Z.bounded_iff_bits_nonneg; auto. Qed.

Lemma testbit_above k x n : 0 <= x < 2 ^ k -> 0 <= k <= n -> Z.testbit x n = false.
Proof.
  intros Hx Hn. apply (Z.bounded_iff_bits_nonneg k x); lia.
Qed.

Lemma lor_below k x y : 0 <= k -> 0 <= x < 2 ^ k -> 0 <= y < 2 ^ k -> 0 <= Z.lor x y < 2 ^ k.
Proof.
  intros Hk Hx Hy. assert (0 <= Z.lor x y) by (apply Z.lor_nonneg; lia).
  split; [done|]. apply below_pow2; [done..|]. intros n Hn.
  rewrite Z.lor_spec, (testbit_above k x), (testbit_above k y) by lia. done.
Qed.

Lemma land_ff b : Z.land (b2z b) 0xff = b2z b.
Proof.
  change 255 with (Z.ones 8). rewrite Z.land_ones by lia.
  apply Z.mod_small. pose proof (b2z_range b). lia.
Qed.

Lemma land_mask_range key p : 0 <= p -> 0 <= Z.land key (2 ^ p - 1) < 2 ^ p.
Proof.
  intros. replace (2 ^ p - 1) with (Z.ones p) by (rewrite Z.ones_equiv; lia).
  rewrite Z.land_ones by done. apply Z.mod_pos_bound, Z.pow_pos_nonneg; lia.
Qed.

Lemma land_pow2_testbit x k : 0 <= k -> negb (Z.land x (2 ^ k) =? 0) = Z.testbit x k.
Proof.
  intros Hk. destruct (Z.testbit x k) eqn:E.
  - destruct (Z.eqb_spec (Z.land x (2 ^ k)) 0) as [H|]; [|done].
    assert (Z.testbit (Z.land x (2 ^ k)) k = true) as H'.
    { rewrite Z.land_spec, E, Z.pow2_bits_true by lia. done. }
    rewrite H, Z.bits_0 in H'. done.
  - replace (Z.land x (2 ^ k)) with 0; [done|]. symmetry. apply Z.bits_inj'. intros n Hn.
    rewrite Z.land_spec, Z.bits_0, Z.pow2_bits_eqb by lia.
    destruct (Z.eqb_spec k n) as [->|]; [by rewrite E | apply andb_false_r].
Qed.

Lemma land_low_mask x k : 0 <= k -> 0 <= x < 2 ^ k -> Z.land x (2 ^ k - 1) = x.
Proof.
  intros. replace (2 ^ k - 1) with (Z.ones k) by (rewrite Z.ones_equiv; lia).
  rewrite Z.land_ones by done. by apply Z.mod_small.
Qed.

Lemma lor_shiftl_add num x k : 0 <= k -> 0 <= num < 2 ^ k -> Z.lor num (Z.shiftl x k) = num + x * 2 ^ k.
Proof.
  intros Hk Hn. rewrite <- Z.shiftl_mul_pow2 by done.
  assert (Z.land num (Z.shiftl x k) = 0) as H0.
  { apply Z.bits_inj'. intros n Hn'. rewrite Z.land_spec, Z.bits_0, Z.shiftl_spec by done.
    destruct (Z.lt_ge_cases n k).
    - rewrite (Z.testbit_neg_r x) by lia. apply andb_false_r.
    - rewrite (testbit_above k num) by lia. done. }
  rewrite Z.add_nocarry_lxor by done. by rewrite Z.lxor_lor.
Qed.

(** ** Readers and big-endian integers

    An [io.Reader] is the list of bytes it still has to deliver; what a reader
    does after it returned an error is not modelled. *)

(** [io.ReadFull] into a buffer of [n] bytes: the bytes and the rest. *)
Definition readFull (n : Z) (r : bytes) : res (bytes * bytes) :=
  if n <=? 0 then Ok ([], r)
  else if len r =? 0 then Err EOF
  else if len r <? n then Err ErrUnexpectedEOF
  else Ok (take (Z.to_nat n) r, drop (Z.to_nat n) r).

(** The [n]-byte big-endian representation of [z], and its value. *)
Fixpoint be_encode (n : nat) (z : Z) : bytes :=
  match n with
  | O => []
  | S n => be_encode n (z / 256) ++ [z2b z]
  end.

Definition be_decode (b : bytes) : Z := foldl (fun a c => a * 256 + b2z c) 0 b.

Lemma be_encode_length n z : length (be_encode n z) = n.
Proof. revert z. induction n; intros; cbn; [done|]. rewrite length_app, IHn. cbn. lia. Qed.

Lemma be_encode_len n z : len (be_encode n z) = Z.of_nat n.
Proof. unfold len. by rewrite be_encode_length. Qed.

Lemma be_decode_snoc l b : be_decode (l ++ [b]) = be_decode l * 256 + b2z b.
Proof. unfold be_decode. by rewrite foldl_app. Qed.

Lemma be_decode_encode n z : be_decode (be_encode n z) = z mod 2 ^ (8 * Z.of_nat n).
Proof.
  revert z. induction n as [|n IH]; intros z.
  - cbn. by rewrite Z.mod_1_r.
  - cbn [be_encode]. rewrite be_decode_snoc, IH, b2z_z2b.
    replace (8 * Z.of_nat (S n)) with (8 + 8 * Z.of_nat n) by lia.
    rewrite Z.pow_add_r by lia. change (2 ^ 8) with 256.
    rewrite (Z.rem_mul_r z 256) by (try apply Z.pow_nonzero; lia). lia.
Qed.

Lemma be_decode_range b : 0 <= be_decode b < 2 ^ (8 * len b).
Proof.
  induction b as [|x b IH] using rev_ind; [vm_compute; split; congruence|].
  rewrite be_decode_snoc, len_app. change (len [x]) with 1. pose proof (b2z_range x).
  replace (8 * (len b + 1)) with (8 * len b + 8) by lia.
  rewrite Z.pow_add_r by (pose proof (len_nonneg b); lia). change (2 ^ 8) with 256. lia.
Qed.

Lemma be_encode_decode b : be_encode (length b) (be_decode b) = b.
Proof.
  induction b as [|x b IH] using rev_ind; [done|].
  rewrite length_app. cbn [length]. rewrite Nat.add_1_r. cbn [be_encode].
  rewrite be_decode_snoc. pose proof (b2z_range x).
  replace ((be_decode b * 256 + b2z x) / 256) with (be_decode b).
  2: { rewrite Z.div_add_l, Z.div_small by lia. lia. }
  rewrite IH. f_equal. f_equal. apply b2z_inj. rewrite b2z_z2b.
  rewrite Z.add_comm, Z.mod_add by lia. by apply Z.mod_small.
Qed.

Lemma readFull_app n b r : len b = n -> readFull n (b ++ r) = Ok (b, r).
Proof.
  intros <-. unfold readFull. pose proof (len_nonneg b). pose proof (len_nonneg r).
  destruct (Z.leb_spec (len b) 0).
  - destruct b as [|x b]; [done|]. rewrite len_cons in *. pose proof (len_nonneg b). lia.
  - rewrite len_app. destruct (Z.eqb_spec (len b + len r) 0), (Z.ltb_spec (len b + len r) (len b)); try lia.
    unfold len. rewrite Nat2Z.id, take_app_length, drop_app_length. done.
Qed.

Lemma readFull_cases n r :
  0 < n ->
  (exists a b, readFull n r = Ok (a, b) /\ r = a ++ b /\ len a = n) \/
  (readFull n r = Err EOF /\ r = []) \/
  (readFull n r = Err ErrUnexpectedEOF /\ 0 < len r < n).
Proof.
  intros Hn. unfold readFull. pose proof (len_nonneg r).
  destruct (Z.leb_spec n 0); [lia|]. destruct (Z.eqb_spec (len r) 0) as [E|E].
  - right; left. split; [done|]. destruct r; [done|]. rewrite len_cons in E. pose proof (len_nonneg r). lia.
  - destruct (Z.ltb_spec (len r) n); [right; right; split; [done|lia]|].
    left. do 2 eexists. split; [reflexivity|]. split; [by rewrite take_drop|].
    rewrite len_take. lia.
Qed.

(** ** Maps built from values that carry their key *)
Section KeyedValues.
Context {K V : Type} `{Countable K} (keyOf : V -> K).
Implicit Types (m : gmap K V) (l : list V).

Lemma foldl_insert_lookup l : forall m, NoDup (map keyOf l) ->
  forall k, foldl (fun m v => <[keyOf v := v]> m) m l !! k =
    match List.find (fun v => bool_decide (keyOf v = k)) l with Some v => Some v | None => m !! k end.
Proof.
  induction l as [|x l IH]; intros m Hnd k; [done|]. cbn [map foldl List.find] in *.
  apply NoDup_cons in Hnd as [Hx Hnd]. rewrite IH by done. case_bool_decide as E.
  - subst k. rewrite lookup_insert_eq.
    destruct (List.find _ l) as [y|] eqn:F; [|done]. exfalso. apply find_some in F as [Hy Ey]. apply bool_decide_eq_true in Ey.
    apply Hx. rewrite <- Ey. apply (list_elem_of_fmap_2 keyOf). by apply list_elem_of_In.
  - by rewrite lookup_insert_ne.
Qed.

(** Inserting all values of a map, in any order. *)
Lemma foldl_insert_values (w m : gmap K V) l :
  map_Forall (fun k x => keyOf x = k) w -> l ≡ₚ map snd (map_to_list w) ->
  foldl (fun m v => <[keyOf v := v]> m) m l = w ∪ m.
Proof.
  intros Hw Hl. apply map_eq. intros k.
  assert (map keyOf (map snd (map_to_list w)) = map fst (map_to_list w)) as Hkeys.
  { rewrite map_map. apply map_ext_in. intros [k' x] Hin. apply list_elem_of_In, elem_of_map_to_list in Hin. by apply (Hw k' x). }
  assert (NoDup (map keyOf l)) as Hnd. { rewrite Hl, Hkeys. apply NoDup_fst_map_to_list. }
  assert (forall x, x ∈ l <-> exists k, w !! k = Some x) as Hin.
  { intros x. rewrite Hl, list_elem_of_fmap. split.
    - intros ([k' y] & -> & Hx). exists k'. by apply elem_of_map_to_list in Hx.
    - intros [k' E]. exists (k', x). split; [done|]. by apply elem_of_map_to_list. }
  assert (forall y, List.find (fun v => bool_decide (keyOf v = k)) l = Some y -> w !! k = Some y) as Hfind.
  { intros y [Hy Ey]%find_some. apply bool_decide_eq_true in Ey. apply list_elem_of_In, Hin in Hy as [k' Hk].
    pose proof (Hw _ _ Hk) as E'. cbn in E'. congruence. }
  rewrite foldl_insert_lookup by done. destruct (List.find _ l) as [y|] eqn:F.
  - symmetry. by apply lookup_union_Some_l, Hfind.
  - symmetry. apply lookup_union_r. destruct (w !! k) as [x|] eqn:E; [|done]. exfalso.
    pose proof (find_none _ _ F x (proj1 (list_elem_of_In _ _) (proj2 (Hin x) (ex_intro _ k E)))) as Hn.
    cbn in Hn. apply bool_decide_eq_false in Hn. by destruct Hn; apply (Hw k x).
Qed.
End KeyedValues.

Create HintDb git.
Create Rewrite HintDb git.
#[export] Hint Rewrite @len_nil @len_cons @len_app @len_insert @len_replicate : git.
#[export] Hint Resolve len_nonneg b2z_range u64_range u32_range : git.

(** Length arithmetic: normalises [len], adds the non-negativity facts, then [lia]. *)
Ltac len_lia :=
  autorewrite with git in *;
  repeat match goal with
  | |- context [len ?l] => lazymatch goal with H : 0 <= len l |- _ => fail | _ => pose proof (len_nonneg l) end
  | _ : context [len ?l] |- _ => lazymatch goal with H : 0 <= len l |- _ => fail | _ => pose proof (len_nonneg l) end
  end;
  lia.

(** ** Results that are values or errors: no panic, and every loop has ended *)
Definition settled {A} (m : res A) : Prop := match m with Ok _ | Err _ => True | Panic | NoFuel => False end.

Lemma settled_bind {A B} (m : res A) (k : A -> res B) :
  settled m -> (forall a, m = Ok a -> settled (k a)) -> settled (res_bind m k).
Proof. destruct m; cbn; auto. Qed.

Lemma settled_readFull n r : settled (readFull n r).
Proof. unfold readFull. repeat case_match; done. Qed.

(** A reader that ends, by a panic only under [P], and on success has consumed at least [k] bytes from the front. *)
Definition reads {A} (P : Prop) (k : nat) (r : bytes) (m : res (A * bytes)) : Prop :=
  match m with
  | Ok (_, r') => exists pre, r = pre ++ r' /\ (k <= length pre)%nat
  | Err _ => True
  | Panic => P
  | NoFuel => False
  end.

Lemma reads_ret {A} P (a : A) r : reads P 0 r (Ok (a, r)).
Proof. by exists []. Qed.

Lemma reads_bind {A B} P k j n r (m : res (A * bytes)) (f : A * bytes -> res (B * bytes)) :
  reads P k r m -> (forall a r', m = Ok (a, r') -> reads P j r' (f (a, r'))) -> (n <= k + j)%nat -> reads P n r (res_bind m f).
Proof.
  intros Hm Hf Hn. destruct m as [[a r']|e| |]; try done. destruct Hm as (pre & -> & Hk). specialize (Hf a r' eq_refl). cbn [res_bind].
  destruct (f (a, r')) as [[b r'']|e| |]; try done. destruct Hf as (pre' & -> & Hj). exists (pre ++ pre'). rewrite <- app_assoc.
  split; [done|]. rewrite length_app. lia.
Qed.

Lemma reads_pure {A B} P n r (m : res A) (f : A -> res (B * bytes)) :
  settled m \/ P /\ m = Panic -> (forall a, m = Ok a -> reads P n r (f a)) -> reads P n r (res_bind m f).
Proof. intros [Hm|[HP ->]] Hf; [|done]. destruct m as [a| | |]; try done. by apply Hf. Qed.

Lemma reads_settled {A} n r (m : res (A * bytes)) : reads False n r m -> settled m.
Proof. by destruct m as [[]| | |]. Qed.

Lemma reads_weaken {A} (P Q : Prop) k n r (m : res (A * bytes)) : reads P k r m -> (P -> Q) -> (n <= k)%nat -> reads Q n r m.
Proof. intros Hm HPQ Hn. destruct m as [[a r']| | |]; try done; [|by apply HPQ]. destruct Hm as (pre & -> & ?). exists pre. split; [done|lia]. Qed.

Lemma reads_readFull P n r : reads P (Z.to_nat n) r (readFull n r).
Proof.
  destruct (Z.leb_spec n 0) as [Hn|Hn].
  - unfold readFull. destruct (Z.leb_spec n 0); [|lia]. exists []. split; [done|]. cbn. lia.
  - destruct (readFull_cases n r Hn) as [(a & b & -> & -> & Ha)|[[-> _]|[-> _]]]; try done. exists a. unfold len in Ha. split; [done|lia].
Qed.

(** ** Filters *)

(** A stricter test keeps fewer elements when one of them fails it. *)
Lemma filter_length_le {A} (P Q : A -> Prop) `{!forall x, Decision (P x), !forall x, Decision (Q x)} l :
  (forall x, P x -> Q x) -> (length (filter P l) <= length (filter Q l))%nat.
Proof.
  intros Himp. induction l as [|y l IH]; [done|]. rewrite !filter_cons. repeat case_decide; cbn [length]; try lia. exfalso. auto.
Qed.
Lemma filter_length_lt {A} (P Q : A -> Prop) `{!forall x, Decision (P x), !forall x, Decision (Q x)} l x :
  (forall x, P x -> Q x) -> x ∈ l -> Q x -> ~ P x -> (length (filter P l) < length (filter Q l))%nat.
Proof.
  intros Himp Hx HQ HP. induction l as [|y l IH]; [by apply not_elem_of_nil in Hx|]. rewrite !filter_cons. apply elem_of_cons in Hx as [<-|Hx].
  - rewrite decide_False, decide_True by done. cbn [length]. pose proof (filter_length_le P Q l Himp). lia.
  - specialize (IH Hx). repeat case_decide; cbn [length]; try lia. exfalso. auto.
Qed.

(** ** Insertion sort

    A sort that is not stable is a parameter of the models; this one shows that its laws can hold. *)
Fixpoint insertBy {A} (less : A -> A -> bool) (x : A) (l : list A) : list A :=
  match l with
  | [] => [x]
  | y :: l => if less y x then y :: insertBy less x l else x :: y :: l
  end.
Definition insertionSort {A} (less : A -> A -> bool) (l : list A) : list A := fold_right (insertBy less) [] l.

Lemma insertBy_perm {A} (less : A -> A -> bool) x l : insertBy less x l ≡ₚ x :: l.
Proof. induction l as [|y l IH]; [done|]. cbn. destruct (less y x); [|done]. rewrite IH. apply Permutation_swap. Qed.
Lemma insertionSort_perm {A} (less : A -> A -> bool) l : insertionSort less l ≡ₚ l.
Proof. induction l as [|x l IH]; [done|]. cbn. by rewrite insertBy_perm, IH. Qed.

Lemma insertionSort_sorted {A} (less : A -> A -> bool) (R : relation A) `{!Transitive R} l :
  (forall x y, less x y = true -> R x y) -> (forall x y, less x y = false -> R y x) -> StronglySorted R (insertionSort less l).
Proof.
  intros Hlt Hge. induction l as [|x l IH]; cbn; [constructor|]. fold (insertionSort less l).
  induction IH as [|y k Hk IHk Hy]; cbn; [repeat constructor|]. destruct (less y x) eqn:E.
  - constructor; [done|]. rewrite insertBy_perm. constructor; auto.
  - constructor; [by constructor|]. constructor; [auto|]. eapply Forall_impl; [exact Hy|]. intros z Hz. etrans; eauto.
Qed.

Ltac app_norm := repeat first [rewrite <- app_assoc | progress cbn [app]].
