(* ===== verification/Binary.v ===== *)
(** * utils/binary

    Model of [utils/binary/read.go] and [write.go]: fixed-width big-endian
    integers, Git's offset variable-width integers, delimited reads and the
    binary-content sniffer. *)
From S2P Require Import Prelude.

Definition maskContinue : Z := 128.
Definition maskLength : Z := 127.
Definition lengthBits : Z := 7.
Definition sniffLen : Z := 8000.

(** [binary.Read(r, binary.BigEndian, &v)] for an unsigned [v] of [n] bytes. *)
Definition readBE (n : Z) (r : bytes) : res (Z * bytes) :=
  let* (b, r) := readFull n r in Ok (be_decode b, r).

Definition ReadUint64 (r : bytes) : res (Z * bytes) := readBE 8 r.
Definition ReadUint32 (r : bytes) : res (Z * bytes) := readBE 4 r.
Definition ReadUint16 (r : bytes) : res (Z * bytes) := readBE 2 r.

Definition WriteUint64 (value : Z) : bytes := be_encode 8 value.
Definition WriteUint32 (value : Z) : bytes := be_encode 4 value.
Definition WriteUint16 (value : Z) : bytes := be_encode 2 value.

(** [ReadUntil] (read.go:25) on a reader that is not a [*bufio.Reader]. *)
Fixpoint ReadUntil_loop (r : bytes) (delim : byte) (value : bytes) : res (bytes * bytes) :=
  match r with
  | [] => Err EOF
  | b :: r => if bool_decide (b = delim) then Ok (value, r)
              else ReadUntil_loop r delim (value ++ [b])
  end.

Definition ReadUntil (r : bytes) (delim : byte) : res (bytes * bytes) :=
  ReadUntil_loop r delim [].

(** [ReadBytes] of a buffered reader: everything up to and including the delimiter. *)
Fixpoint ReadBytes (r : bytes) (delim : byte) : res (bytes * bytes) :=
  match r with
  | [] => Err EOF
  | b :: r => if bool_decide (b = delim) then Ok ([b], r)
              else let* (v, r) := ReadBytes r delim in Ok (b :: v, r)
  end.

Definition ReadUntilFromBufioReader (r : bytes) (delim : byte) : res (bytes * bytes) :=
  let* (value, r) := ReadBytes r delim in
  if len value =? 0 then Ok ([], r)
  else let* v := slice value 0 (len value - 1) in Ok (v, r).

(** The loop of [ReadVariableWidthInt] (read.go:91), after the first byte. *)
Fixpoint ReadVariableWidthInt_loop (r : bytes) (c : byte) (v : Z) : res (Z * bytes) :=
  if Z.land (b2z c) maskContinue >? 0 then
    match r with
    | [] => Err EOF
    | c :: r =>
      ReadVariableWidthInt_loop r c
        (i64 (i64 (Z.shiftl (i64 (v + 1)) lengthBits) + Z.land (b2z c) maskLength))
    end
  else Ok (v, r).

Definition ReadVariableWidthInt (r : bytes) : res (Z * bytes) :=
  match r with
  | [] => Err EOF
  | c :: r => ReadVariableWidthInt_loop r c (Z.land (b2z c) maskLength)
  end.

(** The loop of [WriteVariableWidthInt] (write.go:23). *)
Fixpoint WriteVariableWidthInt_loop (fuel : nat) (n : Z) (buf : bytes) : res bytes :=
  match fuel with
  | O => NoFuel
  | S fuel =>
    if n =? 0 then Ok buf
    else
      let n := n - 1 in
      WriteVariableWidthInt_loop fuel (Z.shiftr n 7)
        (z2b (Z.lor 0x80 (b2z (z2b (Z.land n 0x7f)))) :: buf)
  end.

(** [WriteVariableWidthInt] (write.go:20); ten rounds cover every non-negative
    [int64]. *)
Definition WriteVariableWidthInt (n : Z) : res bytes :=
  WriteVariableWidthInt_loop 10 (Z.shiftr n 7) [z2b (Z.land n 0x7f)].

(** [IsBinary] (read.go:143): a NUL among the first [sniffLen] bytes. *)
Fixpoint IsBinary_loop (r : bytes) (c : Z) : bool :=
  if c =? sniffLen then false
  else match r with
  | [] => false
  | b :: r => if b2z b =? 0 then true else IsBinary_loop r (c + 1)
  end.

Definition IsBinary (r : bytes) : bool := IsBinary_loop r 0.

(** ** Facts *)

Lemma readBE_app n z r :
  0 <= z < 2 ^ (8 * Z.of_nat n) -> readBE (Z.of_nat n) (be_encode n z ++ r) = Ok (z, r).
Proof.
  intros Hz. unfold readBE. rewrite readFull_app by apply be_encode_len. cbn [res_bind].
  by rewrite be_decode_encode, Z.mod_small by lia.
Qed.

Lemma ReadUint32_app z r : 0 <= z < 2 ^ 32 -> ReadUint32 (WriteUint32 z ++ r) = Ok (z, r).
Proof. apply (readBE_app 4). Qed.

Lemma ReadUint16_app z r : 0 <= z < 2 ^ 16 -> ReadUint16 (WriteUint16 z ++ r) = Ok (z, r).
Proof. apply (readBE_app 2). Qed.

Lemma ReadUint64_app z r : 0 <= z < 2 ^ 64 -> ReadUint64 (WriteUint64 z ++ r) = Ok (z, r).
Proof. apply (readBE_app 8). Qed.

#[export] Hint Rewrite be_encode_len : git.

(** [ReadUntil] splits at the first delimiter. *)
Lemma ReadUntil_loop_spec r delim acc :
  ReadUntil_loop r delim acc =
  match ReadBytes r delim with
  | Ok (v, r') => Ok (acc ++ take (length v - 1) v, r')
  | Err e => Err e | Panic => Panic | NoFuel => NoFuel
  end.
Proof.
  revert acc. induction r as [|b r IH]; intros acc; cbn [ReadUntil_loop ReadBytes]; [done|].
  case_bool_decide; [cbn; by rewrite app_nil_r|]. rewrite IH.
  destruct (ReadBytes r delim) as [[v r']| | |] eqn:E; cbn [res_bind]; try done.
  destruct v as [|x v].
  { exfalso. clear -E. destruct r as [|y r]; [done|]. cbn in E. case_bool_decide; [done|].
    destruct (ReadBytes r delim) as [[]| | |]; done. }
  cbn [length]. rewrite <- app_assoc. do 2 f_equal. cbn [app].
  replace (S (S (length v)) - 1)%nat with (S (S (length v) - 1)) by lia. reflexivity.
Qed.

Lemma ReadUntil_app v delim r :
  ~ In delim v -> ReadUntil (v ++ delim :: r) delim = Ok (v, r).
Proof.
  unfold ReadUntil. intros Hv. change (Ok (v, r)) with (Ok ([] ++ v, r)).
  generalize (@nil byte) as acc. induction v as [|b v IH]; intros acc; cbn [app ReadUntil_loop].
  - rewrite bool_decide_eq_true_2 by done. by rewrite app_nil_r.
  - rewrite bool_decide_eq_false_2 by (intros ->; apply Hv; left; done).
    rewrite IH by (intros ?; apply Hv; right; done). by rewrite <- app_assoc.
Qed.

(** The continuation bytes [WriteVariableWidthInt] puts before the last one: those
    that make [ReadVariableWidthInt] reach the base value [m]. *)
Inductive vwi_prefix : Z -> bytes -> Prop :=
  | vwi_zero : vwi_prefix 0 []
  | vwi_snoc q r pre : 0 <= q -> 0 <= r < 128 -> vwi_prefix q pre ->
      vwi_prefix (q * 128 + r + 1) (pre ++ [z2b (128 + r)]).

Lemma vwi_prefix_nonneg m pre : vwi_prefix m pre -> 0 <= m.
Proof. induction 1; lia. Qed.

Lemma vwi_prefix_det m p1 p2 : vwi_prefix m p1 -> vwi_prefix m p2 -> p1 = p2.
Proof.
  intros H. revert p2. induction H as [|q r pre Hq Hr Hp IH]; intros p2 H2.
  - inversion H2 as [|q r pre Hq Hr Hp E]; [done|]. lia.
  - inversion H2 as [E|q' r' pre' Hq' Hr' Hp' E]; [lia|].
    assert (q = q' /\ r = r') as [-> ->] by lia. by rewrite (IH _ Hp').
Qed.

Lemma lor_128 r : 0 <= r < 128 -> Z.lor 0x80 r = 128 + r.
Proof.
  intros. rewrite Z.lor_comm. pose proof (lor_shiftl_add r 1 7 ltac:(lia) ltac:(lia)) as E.
  change (Z.shiftl 1 7) with 0x80 in E. lia.
Qed.

Lemma WriteVariableWidthInt_loop_eq fuel n buf :
  WriteVariableWidthInt_loop (S fuel) n buf =
  if n =? 0 then Ok buf
  else WriteVariableWidthInt_loop fuel (Z.shiftr (n - 1) 7)
         (z2b (Z.lor 0x80 (b2z (z2b (Z.land (n - 1) 0x7f)))) :: buf).
Proof. reflexivity. Qed.

Lemma WriteVariableWidthInt_loop_spec fuel m buf :
  0 <= m < 2 ^ (7 * Z.of_nat fuel) ->
  exists pre, WriteVariableWidthInt_loop (S fuel) m buf = Ok (pre ++ buf) /\ vwi_prefix m pre.
Proof.
  revert m buf. induction fuel as [|fuel IH]; intros m buf Hm; rewrite WriteVariableWidthInt_loop_eq;
    (destruct (Z.eqb_spec m 0) as [->|]; [exists []; split; [done|apply vwi_zero]|]).
  { cbn in Hm. lia. }
  rewrite Z.shiftr_div_pow2 by lia. change 0x7f with (Z.ones 7). rewrite Z.land_ones by lia.
  pose proof (Z.mod_pos_bound (m - 1) (2 ^ 7) ltac:(lia)) as Hr.
  pose proof (Z.div_mod (m - 1) (2 ^ 7) ltac:(lia)) as Hdm.
  rewrite z2b_small, lor_128 by lia. set (r := (m - 1) mod 2 ^ 7) in *. set (q := (m - 1) / 2 ^ 7) in *.
  assert (0 <= q) as Hq0 by (apply Z.div_pos; lia).
  destruct (IH q (z2b (128 + r) :: buf)) as (pre & E & Hp).
  - split; [done|]. apply Z.div_lt_upper_bound; [lia|]. rewrite <- Z.pow_add_r by lia.
    replace (7 + 7 * Z.of_nat fuel) with (7 * Z.of_nat (S fuel)) by lia. lia.
  - exists (pre ++ [z2b (128 + r)]). rewrite <- app_assoc. split; [exact E|].
    replace m with (q * 128 + r + 1) by lia. by constructor.
Qed.

Lemma continuation_byte r : 0 <= r < 128 ->
  (Z.land (b2z (z2b (128 + r))) maskContinue >? 0) = true /\
  Z.land (b2z (z2b (128 + r))) maskLength = r.
Proof.
  intros. unfold maskContinue, maskLength. rewrite z2b_small by lia. split.
  - pose proof (land_pow2_testbit (128 + r) 7 ltac:(lia)) as Hb. change (2 ^ 7) with 128 in Hb.
    rewrite <- lor_128 in Hb at 2 by lia. rewrite Z.lor_spec in Hb. cbn [orb] in Hb.
    change (Z.testbit 128 7) with true in Hb. cbn [orb] in Hb.
    assert (0 <= Z.land (128 + r) 128) by (apply Z.land_nonneg; lia).
    destruct (Z.eqb_spec (Z.land (128 + r) 128) 0); [done|]. lia.
  - change 127 with (Z.ones 7). rewrite Z.land_ones by lia.
    rewrite Z.add_comm. change 128 with (1 * 2 ^ 7). rewrite Z.mod_add by lia. apply Z.mod_small. lia.
Qed.

(** Reading a prefix of base [m] leaves the loop at [m * 128] plus the next digit. *)
Lemma ReadVariableWidthInt_prefix m pre c r :
  vwi_prefix m pre -> m * 128 + 127 < 2 ^ 63 ->
  ReadVariableWidthInt (pre ++ c :: r) =
  ReadVariableWidthInt_loop r c (m * 128 + Z.land (b2z c) maskLength).
Proof.
  intros Hp. revert c r. induction Hp as [|q d pre Hq Hd Hp IH]; intros c r Hm; [done|].
  rewrite <- app_assoc. cbn [app]. rewrite IH by lia. cbn [ReadVariableWidthInt_loop].
  destruct (continuation_byte d Hd) as [-> ->]. unfold lengthBits.
  rewrite Z.shiftl_mul_pow2 by lia. change (2 ^ 7) with 128.
  assert (0 <= Z.land (b2z c) maskLength < 128) as Hc.
  { unfold maskLength. change 127 with (Z.ones 7). rewrite Z.land_ones by lia. apply Z.mod_pos_bound. lia. }
  rewrite (i64_small (q * 128 + d + 1)) by lia.
  rewrite (i64_small ((q * 128 + d + 1) * 128)) by lia. by rewrite i64_small by lia.
Qed.

Lemma last_byte d : 0 <= d < 128 ->
  (Z.land (b2z (z2b d)) maskContinue >? 0) = false /\ Z.land (b2z (z2b d)) maskLength = d.
Proof.
  intros. unfold maskContinue, maskLength. rewrite z2b_small by lia. split.
  - pose proof (land_pow2_testbit d 7 ltac:(lia)) as Hb. change (2 ^ 7) with 128 in Hb.
    rewrite (testbit_above 7 d) in Hb by lia. destruct (Z.eqb_spec (Z.land d 128) 0) as [->|]; done.
  - change 127 with (Z.ones 7). rewrite Z.land_ones by lia. apply Z.mod_small. lia.
Qed.

Lemma ReadVariableWidthInt_loop_last r c v :
  (Z.land (b2z c) maskContinue >? 0) = false -> ReadVariableWidthInt_loop r c v = Ok (v, r).
Proof. intros H. destruct r; cbn [ReadVariableWidthInt_loop]; by rewrite H. Qed.

(** A byte is its continuation flag and its seven bits. *)
Lemma byte_split c :
  let d := Z.land (b2z c) maskLength in
  0 <= d < 128 /\ c = z2b (if Z.land (b2z c) maskContinue >? 0 then 128 + d else d).
Proof.
  cbv zeta. destruct c; vm_compute; (split; [split; congruence|reflexivity]).
Qed.

Lemma ReadVariableWidthInt_loop_length r c v v' rest :
  ReadVariableWidthInt_loop r c v = Ok (v', rest) -> len rest <= len r.
Proof.
  revert c v. induction r as [|c' r IH]; intros c v; cbn [ReadVariableWidthInt_loop]; destruct (_ >? 0).
  - discriminate.
  - intros [= <- <-]. lia.
  - intros E%IH. rewrite len_cons. lia.
  - intros [= <- <-]. lia.
Qed.

(** The loop, started after a prefix of base [m], consumes what
    [WriteVariableWidthInt] would have written. *)
Lemma ReadVariableWidthInt_loop_canonical r : forall c m pre v rest,
  vwi_prefix m pre -> m + 2 <= 2 * 128 ^ len pre -> len pre + 1 + (len r - len rest) <= 8 ->
  ReadVariableWidthInt_loop r c (m * 128 + Z.land (b2z c) maskLength) = Ok (v, rest) ->
  exists m' pre' d, vwi_prefix m' pre' /\ 0 <= d < 128 /\ v = m' * 128 + d /\ v < 2 ^ 57 /\
    pre ++ c :: r = pre' ++ z2b d :: rest.
Proof.
  induction r as [|c' r IH]; intros c m pre v rest Hp Hm Hlen; cbn [ReadVariableWidthInt_loop];
    destruct (byte_split c) as [Hd Hc]; set (d := Z.land (b2z c) maskLength) in *;
    pose proof (len_nonneg pre); pose proof (vwi_prefix_nonneg _ _ Hp);
    (assert (128 ^ len pre <= 128 ^ 7 \/ 7 < len pre) as Hpow
       by (destruct (Z.le_gt_cases (len pre) 7); [left; apply Z.pow_le_mono_r; lia|right; lia]));
    destruct (Z.land (b2z c) maskContinue >? 0) eqn:Ec.
  - discriminate.
  - intros [= <- <-]. exists m, pre, d.
    split; [done|]. split; [done|]. split; [done|]. split; [lia|]. by rewrite <- Hc.
  - intros E. pose proof (ReadVariableWidthInt_loop_length _ _ _ _ _ E) as Hl. rewrite len_cons in *.
    unfold lengthBits in E. rewrite Z.shiftl_mul_pow2 in E by lia. change (2 ^ 7) with 128 in E.
    destruct (byte_split c') as [Hd' _].
    assert (128 ^ len pre <= 128 ^ 6) by (apply Z.pow_le_mono_r; lia).
    rewrite (i64_small (m * 128 + d + 1)) in E by lia.
    rewrite (i64_small ((m * 128 + d + 1) * 128)) in E by lia. rewrite i64_small in E by lia.
    destruct (IH c' (m * 128 + d + 1) (pre ++ [c]) v rest) as (m' & pre' & d' & G1 & G2 & G3 & G4 & G5).
    + rewrite Hc. by constructor.
    + rewrite len_app. change (len [c]) with 1. rewrite Z.pow_add_r by lia. lia.
    + rewrite len_app. change (len [c]) with 1. lia.
    + exact E.
    + rewrite <- app_assoc in G5. eauto 10.
  - intros [= <- <-]. exists m, pre, d. split; [done|]. split; [done|]. split; [done|].
    split; [lia|]. by rewrite <- Hc.
Qed.

Lemma reads_readBE P n r : reads P (Z.to_nat n) r (readBE n r).
Proof. unfold readBE. apply (reads_bind P (Z.to_nat n) 0); [apply reads_readFull| |lia]. intros a r' _. apply reads_ret. Qed.

Lemma reads_ReadUntil P r delim : reads P 1 r (ReadUntil r delim).
Proof.
  unfold ReadUntil. generalize (@nil byte). induction r as [|b r IH]; intros acc; cbn; [done|].
  case_bool_decide; [by exists [b]|]. specialize (IH (acc ++ [b])). destruct (ReadUntil_loop r delim _) as [[v r']| | |]; try done.
  destruct IH as (pre & -> & Hl). exists (b :: pre). split; [done|cbn; lia].
Qed.

Lemma reads_ReadVariableWidthInt P r : reads P 1 r (ReadVariableWidthInt r).
Proof.
  destruct r as [|c r]; [done|]. cbn [ReadVariableWidthInt].
  assert (forall c v, reads P 0 r (ReadVariableWidthInt_loop r c v)) as H.
  { induction r as [|d r IH]; intros c' v; cbn [ReadVariableWidthInt_loop]; (destruct (_ >? 0); [|apply reads_ret]); [done|].
    specialize (IH d). destruct (ReadVariableWidthInt_loop r d _) as [[v' r']| | |] eqn:E in |- *.
    all: specialize (IH (i64 (i64 (Z.shiftl (i64 (v + 1)) lengthBits) + Z.land (b2z d) maskLength))); rewrite E in IH; try done.
    destruct IH as (pre & -> & _). exists (d :: pre). split; [done|lia]. }
  specialize (H c (Z.land (b2z c) maskLength)). destruct (ReadVariableWidthInt_loop r c _) as [[v r']| | |]; try done.
  destruct H as (pre & -> & _). exists (c :: pre). split; [done|cbn; lia].
Qed.

(** Reading back what was written. *)
Lemma ReadVariableWidthInt_app n rest :
  0 <= n < 2 ^ 63 ->
  exists e, WriteVariableWidthInt n = Ok e /\ ReadVariableWidthInt (e ++ rest) = Ok (n, rest).
Proof.
  intros Hn. unfold WriteVariableWidthInt. rewrite Z.shiftr_div_pow2 by lia.
  change 0x7f with (Z.ones 7). rewrite Z.land_ones by lia.
  pose proof (Z.mod_pos_bound n (2 ^ 7) ltac:(lia)). pose proof (Z.div_mod n (2 ^ 7) ltac:(lia)).
  assert (0 <= n / 2 ^ 7) by (apply Z.div_pos; lia).
  assert (n / 2 ^ 7 < 2 ^ 56) by (apply Z.div_lt_upper_bound; lia).
  destruct (WriteVariableWidthInt_loop_spec 9 (n / 2 ^ 7) [z2b (n mod 2 ^ 7)]) as (pre & -> & Hp); [cbn; lia|].
  eexists. split; [reflexivity|]. rewrite <- app_assoc. cbn [app].
  rewrite (ReadVariableWidthInt_prefix _ _ _ _ Hp) by lia.
  destruct (last_byte (n mod 2 ^ 7)) as [Hl ->]; [lia|].
  rewrite ReadVariableWidthInt_loop_last by done. do 2 f_equal. lia.
Qed.

(** ** Properties *)

(** C29: Git's offset variable-width integers round trip: reading what
    [WriteVariableWidthInt] wrote gives the number back and leaves the rest of the
    stream, for every non-negative [int64]. *)
Theorem vwi_roundtrip n rest :
  0 <= n < 2 ^ 63 ->
  exists e, WriteVariableWidthInt n = Ok e /\ ReadVariableWidthInt (e ++ rest) = Ok (n, rest).
Proof. apply ReadVariableWidthInt_app. Qed.

Lemma vwi_roundtrip_witness :
  exists e, WriteVariableWidthInt 16512 = Ok e /\ ReadVariableWidthInt (e ++ [x00]) = Ok (16512, [x00]).
Proof. apply vwi_roundtrip. lia. Defined.

(** The encoding is canonical, as its documentation claims: a number read
    from at most eight bytes has no other encoding, the bytes consumed are the ones
    [WriteVariableWidthInt] produces for it. *)
Theorem vwi_canonical input v rest :
  len input - len rest <= 8 -> ReadVariableWidthInt input = Ok (v, rest) ->
  exists e, WriteVariableWidthInt v = Ok e /\ input = e ++ rest.
Proof.
  intros Hlen. destruct input as [|c r]; [discriminate|]. cbn [ReadVariableWidthInt]. intros E.
  rewrite len_cons in Hlen.
  destruct (ReadVariableWidthInt_loop_canonical r c 0 [] v rest) as (m & pre & d & Hp & Hd & -> & Hv & Hin);
    [apply vwi_zero|vm_compute; congruence|rewrite len_nil; lia|exact E|].
  cbn [app] in Hin. rewrite Hin. unfold WriteVariableWidthInt.
  rewrite Z.shiftr_div_pow2 by lia. change 0x7f with (Z.ones 7). rewrite Z.land_ones by lia.
  change (2 ^ 7) with 128. rewrite Z.div_add_l, (Z.div_small d) by lia.
  rewrite (Z.add_comm _ d), Z.mod_add, Z.mod_small by lia. rewrite Z.add_0_r.
  pose proof (vwi_prefix_nonneg _ _ Hp).
  destruct (WriteVariableWidthInt_loop_spec 9 m [z2b d]) as (pre' & -> & Hp'); [cbn; lia|].
  exists (pre' ++ [z2b d]). rewrite <- app_assoc. split; [done|].
  by rewrite (vwi_prefix_det _ _ _ Hp Hp').
Qed.

Lemma vwi_canonical_witness :
  exists e, WriteVariableWidthInt 128 = Ok e /\ [x80; x00; x05] = e ++ [x05].
Proof. apply vwi_canonical; [vm_compute; congruence|vm_compute; reflexivity]. Defined.

(** [ReadUntil] on an arbitrary reader and on a buffered one are the same
    function: same value, same rest, same error. *)
Theorem ReadUntil_bufio r delim : ReadUntil r delim = ReadUntilFromBufioReader r delim.
Proof.
  unfold ReadUntil, ReadUntilFromBufioReader. rewrite ReadUntil_loop_spec.
  destruct (ReadBytes r delim) as [[v r']| | |] eqn:E; cbn [res_bind]; try done.
  destruct (Z.eqb_spec (len v) 0) as [H|H].
  - destruct v; [done|]. rewrite len_cons in H. pose proof (len_nonneg v). lia.
  - pose proof (len_nonneg v). rewrite slice_ok by lia. cbn [res_bind app]. unfold seg, len in *.
    rewrite drop_0. do 2 f_equal. f_equal. lia.
Qed.

Lemma IsBinary_loop_spec r c :
  0 <= c <= sniffLen -> IsBinary_loop r c = true <-> In x00 (take (Z.to_nat (sniffLen - c)) r).
Proof.
  revert c. induction r as [|b r IH]; intros c Hc; cbn [IsBinary_loop].
  - destruct (c =? sniffLen); rewrite take_nil; done.
  - destruct (Z.eqb_spec c sniffLen) as [->|Hne]; [rewrite Z.sub_diag; done|].
    replace (Z.to_nat (sniffLen - c)) with (S (Z.to_nat (sniffLen - (c + 1)))) by lia.
    cbn [take In]. destruct (Z.eqb_spec (b2z b) 0) as [E|E].
    + split; [|done]. intros _. left. apply b2z_inj. done.
    + rewrite IH by lia. split; [auto|]. intros [->|]; [done|auto].
Qed.

(** [IsBinary] looks for a NUL in the first [sniffLen] bytes and nowhere else. *)
Theorem IsBinary_spec r : IsBinary r = true <-> In x00 (take (Z.to_nat sniffLen) r).
Proof. apply (IsBinary_loop_spec r 0). unfold sniffLen. lia. Qed.
