(* ===== verification/GoStrings.v ===== *)
(** * Go's strings, bytes and unicode/utf8 packages

    The functions of Go's standard [strings] and [bytes] packages that the
    modelled code calls, on byte strings: prefixes, suffixes, searching,
    splitting and trimming; and the runes of a text.  Substrings that are one byte long in every call
    of the modelled code are given as that byte. *)
From S2P Require Import Prelude.

Definition HasPrefix (s prefix : bytes) : bool := bool_decide (take (length prefix) s = prefix).

(** [strings.TrimPrefix] *)
Definition TrimPrefix (s prefix : bytes) : bytes := if HasPrefix s prefix then drop (length prefix) s else s.

Definition HasSuffix (s suffix : bytes) : bool :=
  bool_decide (length suffix <= length s)%nat &&
  bool_decide (drop (length s - length suffix) s = suffix).

(** [strings.Index] of a one-byte substring: its first position, or -1. *)
Fixpoint IndexByte (s : bytes) (c : byte) : Z :=
  match s with
  | [] => -1
  | x :: s' => if bool_decide (x = c) then 0
               else let i := IndexByte s' c in if i <? 0 then -1 else i + 1
  end.

(** [strings.Count] of a one-byte substring. *)
Fixpoint CountByte (s : bytes) (c : byte) : Z :=
  match s with
  | [] => 0
  | x :: s' => (if bool_decide (x = c) then 1 else 0) + CountByte s' c
  end.

Fixpoint Contains (s sub : bytes) : bool :=
  HasPrefix s sub || match s with [] => false | _ :: s' => Contains s' sub end.

Definition ContainsAny (s chars : bytes) : bool := existsb (fun c => bool_decide (c ∈ chars)) s.

(** [strings.Split] with a one-byte separator: the pieces, at least one. *)
Fixpoint Split (s : bytes) (sep : byte) : list bytes :=
  match s with
  | [] => [[]]
  | x :: s' =>
    if bool_decide (x = sep) then [] :: Split s' sep
    else match Split s' sep with
         | p :: ps => (x :: p) :: ps
         | [] => [[x]]
         end
  end.

(** [strings.Join] *)
Fixpoint Join (ps : list bytes) (sep : bytes) : bytes :=
  match ps with
  | [] => []
  | [p] => p
  | p :: ps => p ++ sep ++ Join ps sep
  end.

(** ** Runes: unicode/utf8 *)
Definition RuneError : Z := 0xFFFD.
Definition in_range (lo hi : Z) (b : byte) : bool := (lo <=? b2z b) && (b2z b <=? hi).
Definition cont (b : byte) : bool := in_range 0x80 0xBF b.
Definition low6 (b : byte) : Z := Z.land (b2z b) 0x3F.

(** [DecodeRune]: the rune and its width; anything that is no rune is one byte of [RuneError]. *)
Definition DecodeRune (r : bytes) : option (Z * nat) :=
  match r with
  | [] => None
  | b0 :: r =>
    let z := b2z b0 in
    if z <? 0x80 then Some (z, 1%nat)
    else
      match r with
      | b1 :: r1 =>
        if in_range 0xC2 0xDF b0 && cont b1 then Some (Z.lor (Z.shiftl (Z.land z 0x1F) 6) (low6 b1), 2%nat)
        else
          match r1 with
          | b2 :: r2 =>
            let first3 := (z =? 0xE0) && in_range 0xA0 0xBF b1 || in_range 0xE1 0xEC b0 && cont b1 || (z =? 0xED) && in_range 0x80 0x9F b1 || in_range 0xEE 0xEF b0 && cont b1 in
            if first3 && cont b2 then Some (Z.lor (Z.shiftl (Z.land z 0x0F) 12) (Z.lor (Z.shiftl (low6 b1) 6) (low6 b2)), 3%nat)
            else
              match r2 with
              | b3 :: _ =>
                let first4 := (z =? 0xF0) && in_range 0x90 0xBF b1 || in_range 0xF1 0xF3 b0 && cont b1 || (z =? 0xF4) && in_range 0x80 0x8F b1 in
                if first4 && cont b2 && cont b3
                then Some (Z.lor (Z.shiftl (Z.land z 0x07) 18) (Z.lor (Z.shiftl (low6 b1) 12) (Z.lor (Z.shiftl (low6 b2) 6) (low6 b3))), 4%nat)
                else Some (RuneError, 1%nat)
              | [] => Some (RuneError, 1%nat)
              end
          | [] => Some (RuneError, 1%nat)
          end
      | [] => Some (RuneError, 1%nat)
      end
  end.

(** [string(r)] of a rune *)
Definition EncodeRune (r : Z) : bytes :=
  let c x := z2b (Z.lor 0x80 (Z.land x 0x3F)) in
  if (r <? 0) || (0x10FFFF <? r) || (0xD800 <=? r) && (r <=? 0xDFFF) then map z2b [0xEF; 0xBF; 0xBD]
  else if r <? 0x80 then [z2b r]
  else if r <? 0x800 then [z2b (Z.lor 0xC0 (Z.shiftr r 6)); c r]
  else if r <? 0x10000 then [z2b (Z.lor 0xE0 (Z.shiftr r 12)); c (Z.shiftr r 6); c r]
  else [z2b (Z.lor 0xF0 (Z.shiftr r 18)); c (Z.shiftr r 12); c (Z.shiftr r 6); c r].

(** The white space [unicode.IsSpace] knows, in UTF-8: of one byte (space, tab, line
    feed, vertical tab, form feed, carriage return), of two bytes (next line,
    no-break space) and of three bytes. *)
Definition isSpace (b : byte) : bool :=
  let b := b2z b in (b =? 32) || ((9 <=? b) && (b <=? 13)).
Definition isSpace2 (b c : byte) : bool := (b2z b =? 0xc2) && ((b2z c =? 0x85) || (b2z c =? 0xa0)).
Definition isSpace3 (b c d : byte) : bool :=
  let b := b2z b in let c := b2z c in let d := b2z d in
  (b =? 0xe1) && (c =? 0x9a) && (d =? 0x80) ||
  (b =? 0xe2) && (c =? 0x80) && ((0x80 <=? d) && (d <=? 0x8a) || (d =? 0xa8) || (d =? 0xa9) || (d =? 0xaf)) ||
  (b =? 0xe2) && (c =? 0x81) && (d =? 0x9f) ||
  (b =? 0xe3) && (c =? 0x80) && (d =? 0x80).

(** White space is dropped at the start, of a text whose bytes are in order, or
    ([back]) of a text read backwards. *)
Fixpoint dropSpaces (back : bool) (l : bytes) : bytes :=
  match l with
  | [] => []
  | b :: l1 =>
    if isSpace b then dropSpaces back l1
    else match l1 with
         | [] => l
         | c :: l2 =>
           if (if back then isSpace2 c b else isSpace2 b c) then dropSpaces back l2
           else match l2 with
                | [] => l
                | d :: l3 => if (if back then isSpace3 d c b else isSpace3 b c d) then dropSpaces back l3 else l
                end
         end
  end.

Definition TrimSpace (l : bytes) : bytes := rev (dropSpaces true (rev (dropSpaces false l))).

(** [Trim], [TrimLeft] and [TrimRight] with a cutset of one byte, and [TrimSuffix]. *)
Fixpoint TrimLeft (l : bytes) (c : byte) : bytes :=
  match l with
  | x :: l' => if bool_decide (x = c) then TrimLeft l' c else l
  | [] => []
  end.
Definition TrimRight (l : bytes) (c : byte) : bytes := rev (TrimLeft (rev l) c).
Definition Trim (l : bytes) (c : byte) : bytes := TrimRight (TrimLeft l c) c.
Definition TrimSuffix (s suffix : bytes) : bytes :=
  if HasSuffix s suffix then take (length s - length suffix) s else s.

(** [LastIndexByte]: the last position, or -1. *)
Definition LastIndexByte (s : bytes) (c : byte) : Z :=
  let i := IndexByte (rev s) c in if i =? -1 then -1 else len s - 1 - i.

(** [SplitN(s, sep, 2)]: the text before and after the first separator. *)
Definition SplitN2 (s : bytes) (sep : byte) : bytes * option bytes :=
  let i := IndexByte s sep in
  if i =? -1 then (s, None) else (take (Z.to_nat i) s, Some (drop (S (Z.to_nat i)) s)).

(** [Fields]: the words between white space; [cur] is the word being read. *)
Definition flushWord (cur : bytes) (ws : list bytes) : list bytes := match cur with [] => ws | _ => cur :: ws end.
Fixpoint fields_loop (l cur : bytes) : list bytes :=
  match l with
  | [] => flushWord cur []
  | b :: l1 =>
    if isSpace b then flushWord cur (fields_loop l1 [])
    else match l1 with
         | [] => [cur ++ [b]]
         | c :: l2 =>
           if isSpace2 b c then flushWord cur (fields_loop l2 [])
           else match l2 with
                | [] => fields_loop l1 (cur ++ [b])
                | d :: l3 => if isSpace3 b c d then flushWord cur (fields_loop l3 []) else fields_loop l1 (cur ++ [b])
                end
         end
  end.
Definition Fields (l : bytes) : list bytes := fields_loop l [].

(** ** Prefixes and suffixes *)

(** A prefix test that the data alone decides. *)
Lemma HasPrefix_app data x pre :
  (length pre <= length data)%nat -> HasPrefix (data ++ x) pre = HasPrefix data pre.
Proof. intros. unfold HasPrefix. rewrite take_app_le by lia. done. Qed.

Lemma HasPrefix_true s p : HasPrefix s p = true <-> exists r, s = p ++ r.
Proof.
  unfold HasPrefix. rewrite bool_decide_eq_true. split.
  - intros E. exists (drop (length p) s). rewrite <- E at 1. by rewrite take_drop.
  - intros [r ->]. by rewrite take_app_length.
Qed.

Lemma HasPrefix_self p r : HasPrefix (p ++ r) p = true.
Proof. apply HasPrefix_true. by exists r. Qed.

Lemma HasSuffix_true s p : HasSuffix s p = true <-> exists r, s = r ++ p.
Proof.
  unfold HasSuffix. rewrite andb_true_iff, !bool_decide_eq_true. split.
  - intros [Hl E]. exists (take (length s - length p) s). rewrite <- E at 2. by rewrite take_drop.
  - intros [r ->]. rewrite length_app. split; [lia|]. by rewrite drop_app_length' by lia.
Qed.

Lemma HasPrefix_byte s c : HasPrefix s [c] = match s with x :: _ => bool_decide (x = c) | [] => false end.
Proof.
  unfold HasPrefix. destruct s as [|x s]; cbn; [done|]. rewrite take_0.
  apply bool_decide_ext. split; congruence.
Qed.

Lemma HasSuffix_byte s c : HasSuffix s [c] = true <-> last s = Some c.
Proof.
  rewrite HasSuffix_true, last_Some. done.
Qed.

(** ** Searching *)

Lemma IndexByte_split a c b : c ∉ a -> IndexByte (a ++ c :: b) c = len a.
Proof.
  induction a as [|x a IH]; intros Hc; cbn [IndexByte app].
  - by rewrite bool_decide_eq_true_2.
  - apply not_elem_of_cons in Hc as [Hx Hc]. rewrite bool_decide_eq_false_2 by done.
    rewrite IH by done. rewrite len_cons. pose proof (len_nonneg a).
    destruct (Z.ltb_spec (len a) 0); lia.
Qed.

Lemma IndexByte_none s c : c ∉ s -> IndexByte s c = -1.
Proof.
  induction s as [|x s IH]; intros Hc; cbn [IndexByte]; [done|].
  apply not_elem_of_cons in Hc as [Hx Hc]. by rewrite bool_decide_eq_false_2, IH by done.
Qed.

(** The first occurrence of a byte. *)
Lemma split_first (s : bytes) c : c ∈ s -> exists a b, s = a ++ c :: b /\ c ∉ a.
Proof.
  induction s as [|x s IH]; intros Hc; [by apply not_elem_of_nil in Hc|].
  destruct (decide (x = c)) as [->|Hx].
  - exists [], s. split; [done|apply not_elem_of_nil].
  - apply elem_of_cons in Hc as [->|Hc]; [done|]. destruct (IH Hc) as (a & b & -> & Ha).
    exists (x :: a), b. split; [done|]. by apply not_elem_of_cons.
Qed.

Lemma CountByte_app a b c : CountByte (a ++ b) c = CountByte a c + CountByte b c.
Proof. induction a; cbn [app CountByte]; lia. Qed.

Lemma CountByte_nonneg s c : 0 <= CountByte s c.
Proof. induction s; cbn [CountByte]; [lia|]. case_bool_decide; lia. Qed.

Lemma CountByte_zero s c : CountByte s c = 0 <-> c ∉ s.
Proof.
  induction s as [|x s IH]; cbn [CountByte]; [split; [intros _; apply not_elem_of_nil|done]|].
  pose proof (CountByte_nonneg s c). rewrite not_elem_of_cons. case_bool_decide as E; split; intros Hc; subst.
  - lia.
  - tauto.
  - split; [congruence|]. apply IH. lia.
  - cut (CountByte s c = 0); [lia|]. tauto.
Qed.

Lemma CountByte_one s c : CountByte s c = 1 -> exists a b, s = a ++ c :: b /\ c ∉ a /\ c ∉ b.
Proof.
  intros H1. destruct (decide (c ∈ s)) as [Hin|Hn].
  - destruct (split_first s c Hin) as (a & b & -> & Ha). exists a, b. split; [done|]. split; [done|].
    rewrite CountByte_app in H1. cbn [CountByte] in H1. rewrite bool_decide_eq_true_2 in H1 by done.
    rewrite (proj2 (CountByte_zero a c) Ha) in H1. apply CountByte_zero. lia.
  - apply CountByte_zero in Hn. lia.
Qed.

Lemma Contains_true s sub : Contains s sub = true <-> exists a b, s = a ++ sub ++ b.
Proof.
  induction s as [|x s IH].
  - cbn [Contains]. rewrite orb_false_r, HasPrefix_true. split.
    + intros [r E]. exists [], r. done.
    + intros (a & b & E). symmetry in E. apply app_eq_nil in E as [-> E]. exists b. by rewrite E.
  - cbn [Contains]. rewrite orb_true_iff, HasPrefix_true, IH. split.
    + intros [[r E]|(a & b & ->)]; [by exists [], r|by exists (x :: a), b].
    + intros (a & b & E). destruct a as [|y a]; [left; by exists b|].
      right. injection E as -> ->. by exists a, b.
Qed.

Lemma ContainsAny_true s chars : ContainsAny s chars = true <-> exists c, c ∈ s /\ c ∈ chars.
Proof.
  unfold ContainsAny. rewrite existsb_exists. split; intros (c & H1 & H2); exists c.
  - apply bool_decide_eq_true in H2. split; [by apply list_elem_of_In|done].
  - split; [by apply list_elem_of_In|by apply bool_decide_eq_true].
Qed.

(** ** Splitting *)

Lemma Split_nonempty s sep : Split s sep <> [].
Proof.
  destruct s as [|x s]; cbn [Split]; [done|]. case_bool_decide; [done|]. by destruct (Split s sep).
Qed.

Lemma Split_cons a sep b : sep ∉ a -> Split (a ++ sep :: b) sep = a :: Split b sep.
Proof.
  induction a as [|x a IH]; intros Hs; cbn [app Split].
  - by rewrite bool_decide_eq_true_2.
  - apply not_elem_of_cons in Hs as [Hx Hs]. rewrite bool_decide_eq_false_2 by done. by rewrite IH.
Qed.

Lemma Split_single a sep : sep ∉ a -> Split a sep = [a].
Proof.
  induction a as [|x a IH]; intros Hs; cbn [Split]; [done|].
  apply not_elem_of_cons in Hs as [Hx Hs]. rewrite bool_decide_eq_false_2 by done. by rewrite IH.
Qed.

Lemma Join_cons p ps sep : ps <> [] -> Join (p :: ps) sep = p ++ sep ++ Join ps sep.
Proof. destruct ps; done. Qed.

Lemma Join_Split s sep : Join (Split s sep) [sep] = s.
Proof.
  induction s as [|x s IH]; cbn [Split]; [done|]. case_bool_decide as E.
  - rewrite Join_cons by apply Split_nonempty. rewrite IH. by subst.
  - destruct (Split s sep) as [|p ps] eqn:Es; [by apply Split_nonempty in Es|].
    destruct ps as [|q ps]; cbn [Join] in *; [by rewrite IH|]. by rewrite <- IH.
Qed.

Lemma Split_pieces s sep : Forall (fun p => sep ∉ p) (Split s sep).
Proof.
  induction s as [|x s IH]; cbn [Split].
  - repeat constructor. apply not_elem_of_nil.
  - case_bool_decide as E.
    + constructor; [apply not_elem_of_nil|done].
    + destruct (Split s sep) as [|p ps]; [repeat constructor; set_solver|].
      apply Forall_cons in IH as [Hp Hps]. constructor; [|done]. apply not_elem_of_cons. split; congruence || done.
Qed.

Lemma Split_Join ps sep :
  ps <> [] -> Forall (fun p => sep ∉ p) ps -> Split (Join ps [sep]) sep = ps.
Proof.
  intros Hne Hps. induction Hps as [|p ps Hp Hps IH]; [done|]. destruct ps as [|q ps].
  - by apply Split_single.
  - rewrite Join_cons by done. cbn [app]. rewrite Split_cons by done. by rewrite IH.
Qed.

(** ** Pieces and the whole string

    Facts about the pieces of [Split], restated on the whole string. *)

Lemma first_sep_unique {A} (c : A) a a' b b' :
  c ∉ a -> c ∉ a' -> a ++ c :: b = a' ++ c :: b' -> a = a' /\ b = b'.
Proof.
  revert a'. induction a as [|x a IH]; intros [|y a'] Ha Ha' E; cbn in E.
  - by simplify_eq.
  - simplify_eq. set_solver.
  - simplify_eq. set_solver.
  - injection E as <- E. apply not_elem_of_cons in Ha as [_ Ha], Ha' as [_ Ha'].
    destruct (IH a' Ha Ha' E) as [-> ->]. done.
Qed.

(** A pattern with a separator in it, in a name with its first separator shown. *)
Lemma Contains_sep c a b u v :
  c ∉ a -> c ∉ u ->
  Contains (a ++ c :: b) (u ++ c :: v) = (HasSuffix a u && HasPrefix b v) || Contains b (u ++ c :: v).
Proof.
  intros Ha Hu. apply eq_true_iff_eq. rewrite orb_true_iff, andb_true_iff, !Contains_true, HasSuffix_true, HasPrefix_true.
  split.
  - intros (x & y & E). destruct (decide (c ∈ x)) as [Hx|Hx].
    + destruct (split_first x c Hx) as (x1 & x2 & -> & Hx1). rewrite <- app_assoc in E. cbn [app] in E.
      apply first_sep_unique in E as [_ ->]; [|done|done]. right. by exists x2, y.
    + replace (x ++ (u ++ c :: v) ++ y) with ((x ++ u) ++ c :: (v ++ y)) in E by (rewrite <- !app_assoc; done).
      apply first_sep_unique in E as [-> ->]; [|done|set_solver]. left. split; [by exists x|by exists y].
  - intros [[[r ->] [r' ->]]|(x & y & ->)].
    + exists r, r'. rewrite <- !app_assoc. done.
    + exists (a ++ c :: x), y. rewrite <- !app_assoc. done.
Qed.

(** A pattern without the separator does not cross one. *)
Lemma Contains_nosep c a b sub :
  c ∉ sub -> sub <> [] -> Contains (a ++ c :: b) sub = Contains a sub || Contains b sub.
Proof.
  intros Hs Hne. apply eq_true_iff_eq. rewrite orb_true_iff, !Contains_true. split.
  - intros (x & y & E). apply app_eq_app in E as (k & [[-> E] | [-> E]]).
    + (* the separator is in [sub ++ y] after the part [k] of a *)
      symmetry in E. apply app_eq_app in E as (k' & [[-> E] | [E1 E2]]).
      * left. by exists x, k'.
      * destruct k' as [|z k']; cbn in E2.
        -- rewrite app_nil_r in E1. subst. left. exists x, []. by rewrite app_nil_r.
        -- injection E2 as <- ->. subst sub. set_solver.
    + destruct k as [|z k]; cbn in E.
      * exfalso. destruct sub as [|w sub]; [done|]. injection E as -> ->. set_solver.
      * injection E as -> ->. right. by exists k, y.
  - intros [(x & y & ->)|(x & y & ->)].
    + exists x, (y ++ c :: b). rewrite <- !app_assoc. done.
    + exists (a ++ c :: x), y. rewrite <- !app_assoc. done.
Qed.

Lemma HasPrefix_nosep c a b p : c ∉ p -> HasPrefix (a ++ c :: b) p = HasPrefix a p.
Proof.
  intros Hp. apply eq_true_iff_eq. rewrite !HasPrefix_true. split.
  - intros [r E]. apply app_eq_app in E as (k & [[-> E] | [-> E]]); [by exists k|].
    destruct k as [|z k]; cbn in E; [exists []; by rewrite !app_nil_r|]. injection E as -> ->. set_solver.
  - intros [r ->]. exists (r ++ c :: b). by rewrite app_assoc.
Qed.

Lemma HasSuffix_nosep c a b p : c ∉ p -> HasSuffix (a ++ c :: b) p = HasSuffix b p.
Proof.
  intros Hp. apply eq_true_iff_eq. rewrite !HasSuffix_true. split.
  - intros [r E]. apply app_eq_app in E as (k & [[-> E] | [-> E]]).
    + subst p. set_solver.
    + destruct k as [|z k]; cbn in E; [subst p; set_solver|]. injection E as -> ->. by exists k.
  - intros [r ->]. exists (a ++ c :: r). rewrite <- app_assoc. done.
Qed.

(** Induction on the components of a string. *)
Lemma Split_ind c (P : bytes -> Prop) :
  (forall a, c ∉ a -> P a) -> (forall a b, c ∉ a -> P b -> P (a ++ c :: b)) -> forall s, P s.
Proof.
  intros H1 H2 s. remember (length s) as n eqn:Hn. revert s Hn.
  induction (lt_wf n) as [n _ IH]. intros s ->. destruct (decide (c ∈ s)) as [Hc|Hc]; [|by apply H1].
  destruct (split_first s c Hc) as (a & b & -> & Ha). apply H2; [done|].
  apply (IH (length b)); [|done]. rewrite length_app. cbn. lia.
Qed.

Lemma existsb_Split_Contains c s sub :
  c ∉ sub -> sub <> [] -> existsb (fun p => Contains p sub) (Split s c) = Contains s sub.
Proof.
  intros Hs Hne. revert s. apply (Split_ind c).
  - intros a Ha. rewrite Split_single by done. cbn. apply orb_false_r.
  - intros a b Ha IH. rewrite Split_cons, Contains_nosep by done. cbn [existsb]. by rewrite IH.
Qed.

Lemma existsb_Split_bytes c s f :
  f c = false -> existsb (fun p => existsb f p) (Split s c) = existsb f s.
Proof.
  intros Hf. revert s. apply (Split_ind c).
  - intros a Ha. rewrite Split_single by done. cbn. apply orb_false_r.
  - intros a b Ha IH. rewrite Split_cons by done. cbn [existsb]. rewrite IH, existsb_app. cbn [existsb]. by rewrite Hf.
Qed.

Lemma existsb_Split_HasPrefix c s p :
  c ∉ p -> existsb (fun q => HasPrefix q p) (Split s c) = HasPrefix s p || Contains s (c :: p).
Proof.
  intros Hp. revert s. apply (Split_ind c).
  - intros a Ha. rewrite Split_single by done. cbn [existsb].
    destruct (Contains a (c :: p)) eqn:E; [|done]. exfalso. apply Contains_true in E as (x & y & ->). set_solver.
  - intros a b Ha IH. rewrite Split_cons, HasPrefix_nosep by done. cbn [existsb]. rewrite IH.
    change (c :: p) with ([] ++ c :: p) at 2. rewrite Contains_sep by (done || apply not_elem_of_nil).
    replace (HasSuffix a []) with true; [done|]. symmetry. apply HasSuffix_true. exists a. by rewrite app_nil_r.
Qed.

Lemma existsb_Split_HasSuffix c s p :
  c ∉ p -> existsb (fun q => HasSuffix q p) (Split s c) = HasSuffix s p || Contains s (p ++ [c]).
Proof.
  intros Hp. revert s. apply (Split_ind c).
  - intros a Ha. rewrite Split_single by done. cbn [existsb].
    destruct (Contains a (p ++ [c])) eqn:E; [|done]. exfalso. apply Contains_true in E as (x & y & ->). set_solver.
  - intros a b Ha IH. rewrite Split_cons, HasSuffix_nosep by done. cbn [existsb]. rewrite IH.
    rewrite Contains_sep by done. change (HasPrefix b []) with true. rewrite andb_true_r.
    destruct (HasSuffix a p), (HasSuffix b p); done.
Qed.

Lemma existsb_Split_empty c s :
  existsb (fun q => len q =? 0) (Split s c) =
  (len s =? 0) || HasPrefix s [c] || HasSuffix s [c] || Contains s [c; c].
Proof.
  revert s. apply (Split_ind c).
  - intros a Ha. rewrite Split_single by done. cbn [existsb]. rewrite orb_false_r.
    destruct (Contains a [c; c]) eqn:E; [exfalso; apply Contains_true in E as (x & y & ->); set_solver|].
    destruct (HasSuffix a [c]) eqn:E'; [exfalso; apply HasSuffix_true in E' as (x & ->); set_solver|].
    destruct (HasPrefix a [c]) eqn:E''; [exfalso; apply HasPrefix_true in E'' as (x & ->); set_solver|].
    by rewrite !orb_false_r.
  - intros a b Ha IH. rewrite Split_cons by done. cbn [existsb]. rewrite IH.
    change [c; c] with ([] ++ c :: [c]) at 2. rewrite Contains_sep by (done || apply not_elem_of_nil). cbn [app].
    replace (HasSuffix a []) with true; [|symmetry; apply HasSuffix_true; exists a; by rewrite app_nil_r].
    replace (len (a ++ c :: b) =? 0) with false.
    2: { symmetry. apply Z.eqb_neq. rewrite len_app, len_cons. len_lia. }
    assert (HasPrefix (a ++ c :: b) [c] = (len a =? 0)) as ->.
    { rewrite HasPrefix_byte. destruct a as [|x a]; cbn [app]; [by rewrite bool_decide_eq_true_2|].
      rewrite bool_decide_eq_false_2 by set_solver. symmetry. apply Z.eqb_neq. len_lia. }
    assert (HasSuffix (a ++ c :: b) [c] = (len b =? 0) || HasSuffix b [c]) as ->.
    { apply eq_true_iff_eq. rewrite orb_true_iff, !HasSuffix_byte. destruct b as [|y b].
      - rewrite last_snoc. split; [by left|done].
      - replace (len (y :: b) =? 0) with false by (symmetry; apply Z.eqb_neq; len_lia).
        rewrite last_app_cons. change (c :: y :: b) with ([c] ++ y :: b). rewrite last_app_cons. split; [by right|by intros [|]]. }
    cbn [andb]. destruct (len a =? 0), (len b =? 0), (HasPrefix b [c]), (HasSuffix b [c]), (Contains b [c; c]); done.
Qed.

(** ** Trimming *)

Lemma dropSpaces_nonspace back b l : b2z b < 128 -> isSpace b = false -> dropSpaces back (b :: l) = b :: l.
Proof.
  intros Hb Hs. cbn [dropSpaces]. rewrite Hs. destruct l as [|c l]; [done|].
  assert (forall x y, b = x \/ b = y -> isSpace2 x y = false) as H2.
  { intros x y Hx. unfold isSpace2. destruct (Z.eqb_spec (b2z x) 0xc2), (Z.eqb_spec (b2z y) 0x85), (Z.eqb_spec (b2z y) 0xa0);
      try done; destruct Hx; subst; lia. }
  assert (forall x y, (b = x \/ b = y) -> forall z, isSpace3 x z y = false) as H3.
  { intros x y Hx z. unfold isSpace3.
    destruct Hx as [<-|<-].
    - destruct (Z.eqb_spec (b2z b) 0xe1), (Z.eqb_spec (b2z b) 0xe2), (Z.eqb_spec (b2z b) 0xe3); done || lia.
    - destruct (Z.eqb_spec (b2z b) 0x80), (Z.eqb_spec (b2z b) 0xa8), (Z.eqb_spec (b2z b) 0xa9), (Z.eqb_spec (b2z b) 0xaf),
        (Z.eqb_spec (b2z b) 0x9f), (Z.leb_spec 0x80 (b2z b)); lia. }
  replace (if back then isSpace2 c b else isSpace2 b c) with false by (destruct back; symmetry; apply H2; auto).
  destruct l as [|d l]; [done|].
  replace (if back then isSpace3 d c b else isSpace3 b c d) with false by (destruct back; symmetry; apply H3; auto). done.
Qed.

(** A text that begins and ends with an ASCII character that is no white space. *)
Lemma TrimSpace_id a m z : b2z a < 128 -> isSpace a = false -> b2z z < 128 -> isSpace z = false ->
  TrimSpace (a :: m ++ [z]) = a :: m ++ [z].
Proof.
  intros Ha Sa Hz Sz. unfold TrimSpace. rewrite dropSpaces_nonspace by done.
  change (a :: m ++ [z]) with ((a :: m) ++ [z]). rewrite rev_app_distr. cbn [rev app].
  rewrite dropSpaces_nonspace by done. cbn [rev]. by rewrite rev_app_distr, rev_involutive.
Qed.

Lemma dropSpaces_snoc l : dropSpaces false (l ++ [x0a]) = match dropSpaces false l with [] => [] | m => m ++ [x0a] end.
Proof.
  assert (forall n l, (length l <= n)%nat ->
    dropSpaces false (l ++ [x0a]) = match dropSpaces false l with [] => [] | m => m ++ [x0a] end) as Hn; [|by apply (Hn (length l))].
  clear l. induction n as [|n IH]; intros [|b l] Hl; try done; [cbn in Hl; lia|]. cbn in Hl. cbn [app dropSpaces].
  destruct (isSpace b); [apply IH; lia|]. destruct l as [|c l]; cbn [app].
  { assert (isSpace2 b x0a = false) as -> by (unfold isSpace2; apply andb_false_r). done. }
  destruct (isSpace2 b c); [apply IH; cbn in Hl; lia|]. destruct l as [|d l]; cbn [app].
  { assert (isSpace3 b c x0a = false) as -> by (unfold isSpace3; cbn; by rewrite !andb_false_r). done. }
  destruct (isSpace3 b c d); [apply IH; cbn in Hl; lia|]. done.
Qed.

Lemma TrimSpace_newline l : TrimSpace (l ++ [x0a]) = TrimSpace l.
Proof.
  unfold TrimSpace. rewrite dropSpaces_snoc. destruct (dropSpaces false l) as [|y m]; [done|].
  rewrite rev_app_distr. done.
Qed.

Lemma TrimLeft_nop l c : (forall l', l <> c :: l') -> TrimLeft l c = l.
Proof. destruct l as [|x l]; [done|]. intros H'. cbn [TrimLeft]. rewrite bool_decide_eq_false_2; [done|]. intros ->. by apply (H' l). Qed.

Lemma TrimRight_nop l c : last l <> Some c -> TrimRight l c = l.
Proof.
  intros Hl. unfold TrimRight. rewrite TrimLeft_nop; [apply rev_involutive|]. intros l' E. apply Hl.
  rewrite <- (rev_involutive l), E. cbn [rev]. apply last_snoc.
Qed.

Lemma TrimRight_snoc l c : TrimRight (l ++ [c]) c = TrimRight l c.
Proof. unfold TrimRight. rewrite rev_app_distr. cbn [rev app TrimLeft]. by rewrite bool_decide_eq_true_2. Qed.

Lemma TrimSuffix_snoc l x : TrimSuffix (l ++ [x]) [x] = l.
Proof.
  unfold TrimSuffix. assert (HasSuffix (l ++ [x]) [x] = true) as -> by (apply HasSuffix_true; by exists l).
  rewrite length_app. cbn [length]. replace (length l + 1 - 1)%nat with (length l) by lia. by rewrite take_app_length.
Qed.

Lemma LastIndexByte_split a c b : c ∉ b -> LastIndexByte (a ++ c :: b) c = len a.
Proof.
  intros Hb. unfold LastIndexByte. rewrite rev_app_distr. cbn [rev]. rewrite <- app_assoc. cbn [app].
  rewrite IndexByte_split by (by rewrite list_elem_of_In, <- in_rev, <- list_elem_of_In). rewrite len_app, len_cons.
  assert (len (rev b) = len b) as -> by (unfold len; by rewrite length_rev). pose proof (len_nonneg b).
  destruct (Z.eqb_spec (len b) (-1)); lia.
Qed.

Lemma SplitN2_app a sep b : sep ∉ a -> SplitN2 (a ++ sep :: b) sep = (a, Some b).
Proof.
  intros Ha. unfold SplitN2. rewrite IndexByte_split by done. destruct (Z.eqb_spec (len a) (-1)); [pose proof (len_nonneg a); lia|].
  unfold len. rewrite Nat2Z.id. rewrite take_app_length. f_equal. f_equal.
  replace (S (length a)) with (length (a ++ [sep])) by (rewrite length_app; cbn; lia).
  change (sep :: b) with ([sep] ++ b). by rewrite app_assoc, drop_app_length.
Qed.

Lemma SplitN2_none a sep : sep ∉ a -> SplitN2 a sep = (a, None).
Proof. intros Ha. unfold SplitN2. by rewrite IndexByte_none. Qed.

(** ** Positions *)
Lemma IndexByte_bounds s c : -1 <= IndexByte s c < len s \/ s = [] /\ IndexByte s c = -1.
Proof.
  induction s as [|x s IH]; [by right|left]. cbn [IndexByte]. rewrite len_cons. pose proof (len_nonneg s).
  destruct (bool_decide _); [lia|]. cbn zeta. destruct (Z.ltb_spec (IndexByte s c) 0); lia.
Qed.

Lemma LastIndexByte_bounds s c : -1 <= LastIndexByte s c /\ (LastIndexByte s c < len s \/ s = [] /\ LastIndexByte s c = -1).
Proof.
  unfold LastIndexByte. pose proof (IndexByte_bounds (rev s) c) as H. pose proof (len_nonneg s).
  assert (len (rev s) = len s) as El by (unfold len; by rewrite length_rev). rewrite El in H.
  destruct (Z.eqb_spec (IndexByte (rev s) c) (-1)) as [E|Hne].
  - destruct s as [|x s]; [split; [lia|by right]|]. rewrite len_cons. pose proof (len_nonneg s). lia.
  - lia.
Qed.

Lemma LastIndexByte_at s c : LastIndexByte s c <> -1 -> s !! Z.to_nat (LastIndexByte s c) = Some c.
Proof.
  intros Hne. destruct (decide (c ∈ rev s)) as [Hin|Hnin]; [|by unfold LastIndexByte in Hne; rewrite IndexByte_none in Hne].
  destruct (split_first _ _ Hin) as (a & b & E & Ha).
  assert (s = rev b ++ c :: rev a) as ->. { rewrite <- (rev_involutive s), E, rev_app_distr. cbn [rev]. by rewrite <- app_assoc. }
  rewrite LastIndexByte_split by (by rewrite list_elem_of_In, <- in_rev, <- list_elem_of_In).
  unfold len. rewrite Nat2Z.id. by apply list_lookup_middle.
Qed.

(** ** Runes: what is encoded is decoded *)
Definition scalar (r : Z) : Prop := 0 <= r < 0xD800 \/ 0xE000 <= r <= 0x10FFFF.

Lemma enumerate n (P : Z -> bool) : forallb P (map Z.of_nat (seq 0 n)) = true -> forall z, 0 <= z < Z.of_nat n -> P z = true.
Proof.
  rewrite forallb_forall. intros H z Hz. apply H, in_map_iff. exists (Z.to_nat z). split; [lia|]. apply in_seq. lia.
Qed.
(** The bytes that carry the bits of a rune: the marks of the first and of the others, and what they leave. *)
Lemma rune_byte mark size low z : (0 < size)%nat -> forallb (fun a => (Z.lor mark a =? mark + a) && (Z.land (mark + a) low =? a) && (mark + a <? 256)) (map Z.of_nat (seq 0 size)) = true ->
  0 <= mark -> 0 <= z < Z.of_nat size -> b2z (z2b (Z.lor mark z)) = mark + z /\ Z.land (mark + z) low = z.
Proof.
  intros Hs H Hm Hz. pose proof (enumerate _ _ H z Hz) as E. rewrite !andb_true_iff, !Z.eqb_eq, Z.ltb_lt in E. destruct E as [[-> E] Hlt].
  split; [apply z2b_small; lia|done].
Qed.
Lemma cont_low6 x : let b := z2b (Z.lor 0x80 (Z.land x 0x3F)) in b2z b = 0x80 + x mod 64 /\ cont b = true /\ low6 b = x mod 64.
Proof.
  cbv zeta. change 0x3F with (Z.ones 6). rewrite Z.land_ones by lia. change (2 ^ 6) with 64. pose proof (Z.mod_pos_bound x 64 ltac:(lia)) as Hx.
  destruct (rune_byte 0x80 64 0x3F (x mod 64)) as [E1 E2]; [lia|by vm_compute|lia|lia|]. unfold cont, in_range, low6. rewrite E1. split; [done|]. split; [lia|done].
Qed.
(** The bits of two parts *)
Lemma join_bits k x n : 0 <= k -> 0 <= n < 2 ^ k -> Z.lor (Z.shiftl x k) n = x * 2 ^ k + n.
Proof. intros Hk Hn. rewrite Z.lor_comm, lor_shiftl_add by lia. lia. Qed.

Lemma DecodeRune_Encode r s : scalar r -> DecodeRune (EncodeRune r ++ s) = Some (r, length (EncodeRune r)).
Proof.
  intros Hr. unfold EncodeRune, scalar in *. destruct (_ || _) eqn:E; [lia|]. clear E. rewrite !Z.shiftr_div_pow2 by lia.
  change (2 ^ 6) with 64. change (2 ^ 12) with 4096. change (2 ^ 18) with 262144.
  destruct (Z.ltb_spec r 0x80).
  { cbn [app DecodeRune length]. rewrite z2b_small by lia. destruct (Z.ltb_spec r 0x80); [done|lia]. }
  pose proof (cont_low6 r) as (B1 & C1 & L1). cbv zeta in *. pose proof (Z.mod_pos_bound r 64 ltac:(lia)). pose proof (Z.div_mod r 64 ltac:(lia)).
  destruct (Z.ltb_spec r 0x800).
  { destruct (rune_byte 0xC0 32 0x1F (r / 64)) as [E1 E2]; [lia|by vm_compute|lia|split; [apply Z.div_pos; lia|apply Z.div_lt_upper_bound; lia]|].
    cbn [app DecodeRune length]. rewrite C1, E1, E2, L1. destruct (Z.ltb_spec (0xC0 + r / 64) 0x80); [lia|]. unfold in_range at 1. rewrite E1.
    assert (2 <= r / 64 < 32) as Hq by (split; [apply Z.div_le_lower_bound; lia|apply Z.div_lt_upper_bound; lia]).
    destruct (Z.leb_spec 0xC2 (0xC0 + r / 64)); [|lia]. destruct (Z.leb_spec (0xC0 + r / 64) 0xDF); [|lia]. cbn [andb]. do 2 f_equal.
    rewrite join_bits by lia. lia. }
  pose proof (cont_low6 (r / 64)) as (B2 & C2 & L2). cbv zeta in *.
  pose proof (Z.mod_pos_bound (r / 64) 64 ltac:(lia)). pose proof (Z.div_mod (r / 64) 64 ltac:(lia)). rewrite Z.div_div in * by lia. change (64 * 64) with 4096 in *.
  destruct (Z.ltb_spec r 0x10000).
  {
    assert (0 <= r / 4096 < 16) as Hq by (split; [apply Z.div_pos; lia|apply Z.div_lt_upper_bound; lia]).
    destruct (rune_byte 0xE0 16 0x0F (r / 4096)) as [E1 E2]; [lia|by vm_compute|lia|lia|].
    cbn [app DecodeRune length]. unfold in_range. rewrite C2, C1, E1, E2, L1, L2, B2.
    destruct (Z.ltb_spec (0xE0 + r / 4096) 0x80); [lia|]. destruct (Z.leb_spec (0xE0 + r / 4096) 0xDF); [lia|]. rewrite andb_false_r. cbn [andb].
    match goal with |- (if ?c then _ else _) = _ => assert (c = true) as -> by lia end.
    do 2 f_equal. rewrite (join_bits 6) by lia. change (2 ^ 6) with 64. rewrite (join_bits 12) by (change (2 ^ 12) with 4096; lia). change (2 ^ 12) with 4096. lia. }
  pose proof (cont_low6 (r / 4096)) as (B3 & C3 & L3). cbv zeta in *.
  pose proof (Z.mod_pos_bound (r / 4096) 64 ltac:(lia)). pose proof (Z.div_mod (r / 4096) 64 ltac:(lia)). rewrite Z.div_div in * by lia. change (4096 * 64) with 262144 in *.
  assert (0 <= r / 262144 < 5) as Hq by (split; [apply Z.div_pos; lia|apply Z.div_lt_upper_bound; lia]).
  destruct (rune_byte 0xF0 8 0x07 (r / 262144)) as [E1 E2]; [lia|by vm_compute|lia|lia|].
  cbn [app DecodeRune length]. unfold in_range. rewrite C3, C2, C1, E1, E2, L1, L2, L3, B3.
  destruct (Z.ltb_spec (0xF0 + r / 262144) 0x80); [lia|]. destruct (Z.leb_spec (0xF0 + r / 262144) 0xDF); [lia|]. rewrite andb_false_r. cbn [andb].
  match goal with |- (if ?c then _ else _) = _ => assert (c = false) as -> by lia end.
  match goal with |- (if ?c then _ else _) = _ => assert (c = true) as -> by lia end.
  do 2 f_equal. rewrite (join_bits 6) by lia. change (2 ^ 6) with 64. rewrite (join_bits 12) by (change (2 ^ 12) with 4096; lia). change (2 ^ 12) with 4096.
  rewrite (join_bits 18) by (change (2 ^ 18) with 262144; lia). change (2 ^ 18) with 262144. lia.
Qed.
