(* ===== verification/GoPath.v ===== *)
(** * Go's path and path/filepath packages, on a Unix system

    [Clean], [Join] and [Split], with what they do to paths that are already clean. *)
From S2P Require Import Prelude GoStrings.

(** One component of a path after the components [out] (the last one first). *)
Definition cleanStep (rooted : bool) (out : list bytes) (c : bytes) : list bytes :=
  if bool_decide (c = []) || bool_decide (c = bs ".") then out
  else if bool_decide (c = bs "..") then
    match out with
    | top :: rest => if bool_decide (top = bs "..") then c :: out else rest
    | [] => if rooted then [] else [c]
    end
  else c :: out.

Definition Clean (path : bytes) : bytes :=
  let rooted := HasPrefix path [x2f] in
  let out := rev (foldl (cleanStep rooted) [] (Split path x2f)) in
  if rooted then x2f :: Join out [x2f]
  else match out with [] => bs "." | _ => Join out [x2f] end.

Fixpoint path_Join (elems : list bytes) : bytes :=
  match elems with
  | [] => []
  | e :: elems => if bool_decide (e = []) then path_Join elems else Clean (Join (e :: elems) [x2f])
  end.

(** [path.Split]: what is before the last slash, with it, and what is after. *)
Definition path_Split (path : bytes) : bytes * bytes :=
  let i := LastIndexByte path x2f in
  (take (Z.to_nat (i + 1)) path, drop (Z.to_nat (i + 1)) path).

(** [path.Dir] *)
Definition path_Dir (path : bytes) : bytes := Clean (path_Split path).1.

(** A name that can be a component of a path. *)
Definition component (c : bytes) : Prop := c <> [] /\ c <> bs "." /\ c <> bs ".." /\ x2f ∉ c.

Lemma cleanStep_component rooted out c : component c -> cleanStep rooted out c = c :: out.
Proof. intros (H1 & H2 & H3 & _). unfold cleanStep. by rewrite !bool_decide_eq_false_2. Qed.

Lemma cleanStep_components rooted cs : forall out, Forall component cs -> foldl (cleanStep rooted) out cs = rev cs ++ out.
Proof.
  induction cs as [|c cs IH]; intros out Hcs; [done|]. apply Forall_cons in Hcs as [Hc Hcs]. cbn [foldl rev].
  rewrite cleanStep_component, IH by done. by rewrite <- app_assoc.
Qed.

(** A path of components is clean. *)
Lemma Clean_Join cs : cs <> [] -> Forall component cs -> Clean (Join cs [x2f]) = Join cs [x2f].
Proof.
  intros Hne Hcs. unfold Clean. rewrite HasPrefix_byte.
  assert (match Join cs [x2f] with x :: _ => bool_decide (x = x2f) | [] => false end = false) as ->.
  { destruct cs as [|c cs]; [done|]. apply Forall_inv in Hcs as (Hc & _ & _ & Hs). destruct c as [|x c]; [done|].
    assert (exists r, Join ((x :: c) :: cs) [x2f] = x :: r) as [r ->] by (destruct cs; cbn [Join app]; by eexists).
    apply bool_decide_eq_false_2. intros ->. apply Hs. by left. }
  rewrite Split_Join; [|done|]. 2: { eapply Forall_impl; [exact Hcs|]. by intros c (_ & _ & _ & ?). }
  rewrite cleanStep_components by done. rewrite app_nil_r, rev_involutive. by destruct cs.
Qed.

Lemma path_Join_components cs : Forall component cs -> path_Join cs = Join cs [x2f].
Proof.
  intros Hcs. destruct cs as [|c cs]; [done|]. cbn [path_Join].
  rewrite bool_decide_eq_false_2 by (by apply Forall_inv in Hcs as (? & _)). by apply Clean_Join.
Qed.

(** One more component. *)
Lemma Join_snoc cs c sep : cs <> [] -> Join (cs ++ [c]) sep = Join cs sep ++ sep ++ c.
Proof.
  induction cs as [|d cs IH]; intros Hne; [done|]. destruct cs as [|e cs]; [done|].
  cbn [app]. rewrite Join_cons by done. change (e :: cs ++ [c]) with ((e :: cs) ++ [c]). rewrite IH by done.
  rewrite (Join_cons d (e :: cs)) by done. by rewrite <- !app_assoc.
Qed.

Lemma path_Join_snoc cs c : Forall component (cs ++ [c]) -> path_Join [Join cs [x2f]; c] = Join (cs ++ [c]) [x2f].
Proof.
  intros Hcs. destruct cs as [|d cs].
  - cbn [Join path_Join app]. rewrite bool_decide_eq_true_2 by done. apply Forall_inv in Hcs as Hc.
    rewrite bool_decide_eq_false_2 by (by destruct Hc). by apply (Clean_Join [c]).
  - cbn [path_Join]. rewrite bool_decide_eq_false_2.
    + change (Join [Join (d :: cs) [x2f]; c] [x2f]) with (Join (d :: cs) [x2f] ++ [x2f] ++ c). rewrite <- Join_snoc by done.
      by apply Clean_Join; [destruct cs|].
    + apply Forall_inv in Hcs as (Hd & _). destruct d as [|x d]; [done|]. by destruct cs.
Qed.

Lemma path_Split_name base name : x2f ∉ name -> path_Split (base ++ x2f :: name) = (base ++ [x2f], name).
Proof.
  intros Hn. unfold path_Split. rewrite LastIndexByte_split by done. unfold len. replace (Z.to_nat _) with (length (base ++ [x2f])) by (rewrite length_app; cbn; lia).
  change (x2f :: name) with ([x2f] ++ name). by rewrite app_assoc, take_app_length, drop_app_length.
Qed.

Lemma path_Split_none name : x2f ∉ name -> path_Split name = ([], name).
Proof.
  intros Hn. unfold path_Split, LastIndexByte. rewrite IndexByte_none by (by rewrite list_elem_of_In, <- in_rev, <- list_elem_of_In).
  by cbn; rewrite drop_0.
Qed.
