(* ===== verification/Strconv.v ===== *)
(** * Numbers as text: Go's [strconv] and the verbs of [fmt]

    [ParseUint] and [ParseInt] for a fixed base, and the text that [%d] and [%o]
    print, with the round trip between them. *)
From S2P Require Import Prelude.

(** The digit characters of bases up to ten. *)
Definition digitChar (d : Z) : byte := z2b (d + 48).
Definition digitValue (base : Z) (c : byte) : option Z :=
  let d := b2z c - 48 in if (0 <=? d) && (d <? base) then Some d else None.

(** The loop of [ParseUint]. *)
Fixpoint parseDigits (base maxVal : Z) (s : bytes) (n : Z) : res Z :=
  match s with
  | [] => Ok n
  | c :: s =>
    match digitValue base c with
    | None => Err ErrSyntax
    | Some d => if n * base + d >? maxVal then Err ErrRange else parseDigits base maxVal s (n * base + d)
    end
  end.

Definition ParseUint (s : bytes) (base bitSize : Z) : res Z :=
  match s with [] => Err ErrSyntax | _ => parseDigits base (2 ^ bitSize - 1) s 0 end.

Definition ParseInt (s : bytes) (base bitSize : Z) : res Z :=
  let '(neg, s') := match s with
                    | x2b :: s' => (false, s')
                    | x2d :: s' => (true, s')
                    | _ => (false, s)
                    end in
  let* un := ParseUint s' base bitSize in
  if neg then (if un >? 2 ^ (bitSize - 1) then Err ErrRange else Ok (- un))
  else if un >=? 2 ^ (bitSize - 1) then Err ErrRange else Ok un.

(** The digits of a non-negative number. *)
Fixpoint digits_loop (fuel : nat) (base n : Z) : bytes :=
  match fuel with
  | O => []
  | S fuel => if n <? base then [digitChar n] else digits_loop fuel base (n / base) ++ [digitChar (n mod base)]
  end.

Definition digits (base n : Z) : bytes := digits_loop (S (Z.to_nat (Z.log2 n))) base n.

(** [%d] and [%o] *)
Definition FormatInt (n : Z) : bytes := if n <? 0 then x2d :: digits 10 (- n) else digits 10 n.
Definition FormatOct (n : Z) : bytes := digits 8 n.

(** A text padded with zeros on the left to a width, as by [%07o]. *)
Definition padZeros (width : Z) (s : bytes) : bytes := replicate (Z.to_nat (width - len s)) x30 ++ s.

Section Base.
Context (base : Z).
Hypothesis Hbase : 2 <= base <= 10.

Lemma digitValue_char d : 0 <= d < base -> digitValue base (digitChar d) = Some d.
Proof.
  intros Hd. unfold digitValue, digitChar. rewrite z2b_small by lia. replace (d + 48 - 48) with d by lia.
  destruct (Z.leb_spec 0 d), (Z.ltb_spec d base); done || lia.
Qed.

Lemma parseDigits_app max a b : forall n, parseDigits base max (a ++ b) n =
  let* m := parseDigits base max a n in parseDigits base max b m.
Proof.
  induction a as [|c a IH]; intros n; [done|]. cbn [parseDigits app]. destruct (digitValue base c); [|done].
  destruct (_ >? max); [done|]. apply IH.
Qed.

Lemma parse_digits_loop max fuel : forall n, 0 <= n <= max -> n < 2 ^ Z.of_nat fuel -> (0 < fuel)%nat ->
  parseDigits base max (digits_loop fuel base n) 0 = Ok n.
Proof.
  induction fuel as [|fuel IH]; intros n Hn Hf H0; [lia|]. cbn [digits_loop]. destruct (Z.ltb_spec n base) as [Hlt|Hge].
  - cbn [parseDigits]. rewrite digitValue_char by lia. by destruct (Z.gtb_spec (0 * base + n) max); [lia|].
  - assert (0 <= n / base < n) as Hd by (split; [apply Z.div_pos; lia|apply Z.div_lt; lia]).
    assert (n / base < 2 ^ Z.of_nat fuel) as Hd2.
    { apply Z.div_lt_upper_bound; [lia|]. replace (Z.of_nat (S fuel)) with (1 + Z.of_nat fuel) in Hf by lia.
      rewrite Z.pow_add_r in Hf by lia. nia. }
    destruct fuel as [|fuel']; [cbn in Hf; lia|]. rewrite parseDigits_app, IH by lia. cbn [res_bind parseDigits]. pose proof (Z.mod_pos_bound n base ltac:(lia)) as Hm.
    rewrite digitValue_char by lia. pose proof (Z.div_mod n base ltac:(lia)).
    destruct (Z.gtb_spec (n / base * base + n mod base) max); [lia|]. f_equal. lia.
Qed.

Lemma digits_nonempty n : digits base n <> [].
Proof. unfold digits. cbn [digits_loop]. destruct (n <? base); [done|]. intros H'. by apply app_eq_nil in H' as [_ ?]. Qed.

Lemma ParseUint_digits n bits : 0 <= n < 2 ^ bits -> ParseUint (digits base n) base bits = Ok n.
Proof.
  intros Hn. unfold ParseUint. pose proof (digits_nonempty n) as Hne. destruct (digits base n) eqn:E; [done|]. rewrite <- E.
  apply parse_digits_loop; [lia| |lia]. destruct (Z.eq_dec n 0) as [->|Hz]; [done|].
  pose proof (Z.log2_spec n ltac:(lia)). pose proof (Z.log2_nonneg n).
  replace (Z.of_nat (S (Z.to_nat (Z.log2 n)))) with (Z.succ (Z.log2 n)) by lia. lia.
Qed.

(** The digits of a number are digits. *)
Lemma digits_loop_chars fuel : forall n, 0 <= n -> Forall (fun c => 48 <= b2z c < 48 + base) (digits_loop fuel base n).
Proof.
  induction fuel as [|fuel IH]; intros n Hn; cbn [digits_loop]; [constructor|].
  assert (forall d, 0 <= d < base -> 48 <= b2z (digitChar d) < 48 + base) as Hc.
  { intros d Hd. unfold digitChar. rewrite z2b_small by lia. lia. }
  destruct (Z.ltb_spec n base); [repeat constructor; apply Hc; lia|]. apply Forall_app. split.
  - apply IH. apply Z.div_pos; lia.
  - repeat constructor; apply Hc, Z.mod_pos_bound; lia.
Qed.

Lemma digits_chars n : 0 <= n -> Forall (fun c => 48 <= b2z c < 48 + base) (digits base n).
Proof. apply digits_loop_chars. Qed.

(** Leading zeros do not change the value. *)
Lemma parseDigits_zeros max k s : 0 <= max -> parseDigits base max (replicate k x30 ++ s) 0 = parseDigits base max s 0.
Proof.
  intros Hm. induction k as [|k IH]; [done|]. cbn [replicate app parseDigits].
  change (digitValue base x30) with (digitValue base (digitChar 0)). rewrite digitValue_char by lia.
  destruct (Z.gtb_spec (0 * base + 0) max); [lia|]. exact IH.
Qed.

Lemma ParseUint_zeros k s bits : s <> [] -> 0 <= bits -> ParseUint (replicate k x30 ++ s) base bits = ParseUint s base bits.
Proof.
  intros Hs Hb. assert (0 < 2 ^ bits) by (apply Z.pow_pos_nonneg; lia). unfold ParseUint. destruct s as [|c s]; [done|].
  pose proof (parseDigits_zeros (2 ^ bits - 1) k (c :: s) ltac:(lia)) as Hz. by destruct k.
Qed.
End Base.

Lemma ParseInt_FormatInt n : - 2 ^ 63 <= n < 2 ^ 63 -> ParseInt (FormatInt n) 10 64 = Ok n.
Proof.
  intros Hn. unfold FormatInt, ParseInt. change (64 - 1) with 63. destruct (Z.ltb_spec n 0).
  - rewrite (ParseUint_digits 10) by lia. cbn [res_bind]. destruct (Z.gtb_spec (- n) (2 ^ 63)); [lia|]. f_equal. lia.
  - assert (ParseUint (digits 10 n) 10 64 = Ok n) as Hp by (apply (ParseUint_digits 10); lia).
    pose proof (digits_chars 10 ltac:(lia) n ltac:(lia)) as Hc. destruct (digits 10 n) as [|c l] eqn:E; [by apply digits_nonempty in E|].
    apply Forall_inv in Hc. destruct (Z.geb_spec n (2 ^ 63)) as [?|Hlt]; [lia|].
    destruct c; try (cbn in Hc; lia); rewrite Hp; cbn [res_bind]; destruct (Z.geb_spec n (2 ^ 63)); done || lia.
Qed.

Lemma parseDigits_settled base m s : forall n, settled (parseDigits base m s n).
Proof. induction s as [|c s IH]; intros n; cbn; [done|]. destruct (digitValue base c); [|done]. by destruct (_ >? m). Qed.

Lemma ParseInt_settled s base bits : settled (ParseInt s base bits).
Proof.
  unfold ParseInt. destruct (match s with x2b :: s' => _ | x2d :: s' => _ | _ => _ end) as [neg s'].
  assert (settled (ParseUint s' base bits)) as Hu by (unfold ParseUint; destruct s'; [done|apply parseDigits_settled]).
  destruct (ParseUint s' base bits) as [u|e| |]; cbn; try done. destruct neg; [by destruct (u >? _)|by destruct (u >=? _)].
Qed.
