(* ===== verification/Filemode.v ===== *)
(** * plumbing/filemode/filemode.go

    The modes of tree entries: their octal text, and the translation from and to
    the modes of the file system ([os.FileMode], a [uint32] of flags). *)
From S2P Require Import Prelude Strconv.

(** [FileMode] is a [uint32]. *)
Abbreviation FileMode := Z (only parsing).
Definition Empty : FileMode := 0.
Definition Dir : FileMode := 0x4000.
Definition Regular : FileMode := 0x81a4.
Definition Deprecated : FileMode := 0x81b4.
Definition Executable : FileMode := 0x81ed.
Definition Symlink : FileMode := 0xa000.
Definition Submodule : FileMode := 0xe000.

(** The flags of [os.FileMode] (Go's standard library). *)
Definition ModeDir : Z := Z.shiftl 1 31.
Definition ModeTemporary : Z := Z.shiftl 1 28.
Definition ModeSymlink : Z := Z.shiftl 1 27.
Definition ModeDevice : Z := Z.shiftl 1 26.
Definition ModeNamedPipe : Z := Z.shiftl 1 25.
Definition ModeSocket : Z := Z.shiftl 1 24.
Definition ModeCharDevice : Z := Z.shiftl 1 21.
Definition ModeIrregular : Z := Z.shiftl 1 19.
Definition ModePerm : Z := 0x1ff.
Definition ModeType : Z :=
  Z.lor ModeDir (Z.lor ModeSymlink (Z.lor ModeNamedPipe (Z.lor ModeSocket (Z.lor ModeDevice (Z.lor ModeCharDevice ModeIrregular))))).
Definition os_IsRegular (m : Z) : bool := Z.land m ModeType =? 0.
Definition os_IsDir (m : Z) : bool := negb (Z.land m ModeDir =? 0).

(** [New] *)
Definition filemode_New (s : bytes) : res FileMode := ParseUint s 8 32.

Definition isSetCharDevice (m : Z) : bool := negb (Z.land m ModeCharDevice =? 0).
Definition isSetTemporary (m : Z) : bool := negb (Z.land m ModeTemporary =? 0).
Definition isSetUserExecutable (m : Z) : bool := negb (Z.land m 0x40 =? 0).
Definition isSetSymLink (m : Z) : bool := negb (Z.land m ModeSymlink =? 0).

Definition NewFromOSFileMode (m : Z) : res FileMode :=
  if os_IsRegular m then
    if isSetTemporary m then Err ErrNoGitMode
    else if isSetCharDevice m then Err ErrNoGitMode
    else if isSetUserExecutable m then Ok Executable
    else Ok Regular
  else if os_IsDir m then Ok Dir
  else if isSetSymLink m then Ok Symlink
  else Err ErrNoGitMode.

(** [Bytes]: little endian. *)
Definition FileMode_Bytes (m : FileMode) : bytes := rev (be_encode 4 m).

Definition IsMalformed (m : FileMode) : bool :=
  negb (m =? Dir) && negb (m =? Regular) && negb (m =? Deprecated) && negb (m =? Executable) &&
  negb (m =? Symlink) && negb (m =? Submodule).

Definition FileMode_String (m : FileMode) : bytes := padZeros 7 (FormatOct m).
Definition FileMode_IsRegular (m : FileMode) : bool := (m =? Regular) || (m =? Deprecated).
Definition IsFile (m : FileMode) : bool := (m =? Regular) || (m =? Deprecated) || (m =? Executable) || (m =? Symlink).

Definition ToOSFileMode (m : FileMode) : res Z :=
  if m =? Dir then Ok (Z.lor ModePerm ModeDir)
  else if m =? Submodule then Ok (Z.lor ModePerm ModeDir)
  else if m =? Regular then Ok 0x1a4
  else if m =? Deprecated then Ok 0x1a4
  else if m =? Executable then Ok 0x1ed
  else if m =? Symlink then Ok (Z.lor ModePerm ModeSymlink)
  else Err ErrMalformedMode.

(** ** Round trips *)

Lemma New_FormatOct m : 0 <= m < 2 ^ 32 -> filemode_New (FormatOct m) = Ok m.
Proof. intros Hm. apply (ParseUint_digits 8); lia. Qed.

(** Modes survive their text and the file system. [New] reads back the text of
    every mode, as [String] pads it and as trees store it. A mode has a file system
    mode exactly when it is not malformed, and coming back from the file system
    gives the mode again, except that a submodule comes back as a directory and a
    group-writable file as a regular one. *)
Theorem filemode_roundtrip m :
  0 <= m < 2 ^ 32 ->
  filemode_New (FileMode_String m) = Ok m /\ filemode_New (FormatOct m) = Ok m /\
  match ToOSFileMode m with
  | Ok os => IsMalformed m = false /\ NewFromOSFileMode os =
      Ok (if m =? Submodule then Dir else if m =? Deprecated then Regular else m)
  | Err e => e = ErrMalformedMode /\ IsMalformed m = true
  | _ => False
  end.
Proof.
  intros Hm. split; [|split; [by apply New_FormatOct|]].
  - unfold FileMode_String, filemode_New, padZeros. rewrite (ParseUint_zeros 8); [by apply New_FormatOct|lia|by apply digits_nonempty|lia].
  - unfold ToOSFileMode, IsMalformed.
    destruct (Z.eqb_spec m Dir) as [->|]; [done|]. destruct (Z.eqb_spec m Submodule) as [->|]; [done|].
    destruct (Z.eqb_spec m Regular) as [->|]; [done|]. destruct (Z.eqb_spec m Deprecated) as [->|]; [done|].
    destruct (Z.eqb_spec m Executable) as [->|]; [done|]. destruct (Z.eqb_spec m Symlink) as [->|]; done.
Qed.

(** The statement for the mode of executable files. *)
Lemma filemode_roundtrip_witness :
  filemode_New (FileMode_String Executable) = Ok Executable /\ filemode_New (FormatOct Executable) = Ok Executable /\
  match ToOSFileMode Executable with
  | Ok os => IsMalformed Executable = false /\ NewFromOSFileMode os =
      Ok (if Executable =? Submodule then Dir else if Executable =? Deprecated then Regular else Executable)
  | Err e => e = ErrMalformedMode /\ IsMalformed Executable = true
  | _ => False
  end.
Proof. apply (filemode_roundtrip Executable). split; vm_compute; congruence. Defined.
