(* ===== verification/ObjectID.v ===== *)
(** * plumbing/objectid.go, plumbing/hash.go and plumbing/format/config/format.go

    Object identifiers: a 32-byte array with the object format that says how
    many of its bytes count, and their hexadecimal form. *)
From S2P Require Import Prelude GoStrings.

(** ** Object formats (format.go) *)
Definition SHA1Size : Z := 20.
Definition SHA256Size : Z := 32.
Definition SHA1HexSize : Z := SHA1Size * 2.
Definition SHA256HexSize : Z := SHA256Size * 2.

(** [ObjectFormat] is an [int]; any other value has no name and no size. *)
Abbreviation ObjectFormat := Z (only parsing).
Definition SHA1 : ObjectFormat := 0.
Definition SHA256 : ObjectFormat := 1.

Definition format_String (f : ObjectFormat) : bytes :=
  if f =? SHA1 then bs "sha1" else if f =? SHA256 then bs "sha256" else [].
Definition format_Size (f : ObjectFormat) : Z :=
  if f =? SHA1 then SHA1Size else if f =? SHA256 then SHA256Size else 0.
Definition format_HexSize (f : ObjectFormat) : Z :=
  if f =? SHA1 then SHA1HexSize else if f =? SHA256 then SHA256HexSize else 0.

(** ** encoding/hex (Go's standard library) *)
Definition hexDigit (n : Z) : byte := z2b (if n <? 10 then n + 48 else n + 87).

Definition hexValue (b : byte) : option Z :=
  let c := b2z b in
  if (48 <=? c) && (c <=? 57) then Some (c - 48)
  else if (97 <=? c) && (c <=? 102) then Some (c - 87)
  else if (65 <=? c) && (c <=? 70) then Some (c - 55)
  else None.

Definition EncodeToString (b : bytes) : bytes :=
  flat_map (fun x => [hexDigit (Z.shiftr (b2z x) 4); hexDigit (Z.land (b2z x) 0xf)]) b.

(** [hex.DecodeString]; [None] for an error (an odd length or a bad digit). *)
Fixpoint DecodeString (s : bytes) : option bytes :=
  match s with
  | [] => Some []
  | [_] => None
  | p :: q :: s' =>
    match hexValue p, hexValue q with
    | Some a, Some b =>
      match DecodeString s' with
      | Some r => Some (z2b (Z.lor (Z.shiftl a 4) b) :: r)
      | None => None
      end
    | _, _ => None
    end
  end.

(** ** ObjectID *)
Record ObjectID := mkObjectID { hash : bytes; oformat : ObjectFormat }.

#[global] Instance ObjectID_eq_dec : EqDecision ObjectID.
Proof. solve_decision. Defined.

#[global] Instance ObjectID_countable : Countable ObjectID.
Proof.
  refine (inj_countable' (fun i => (hash i, oformat i)) (fun p => mkObjectID p.1 p.2) _).
  by intros [].
Defined.

Definition emptyHash : bytes := replicate (Z.to_nat SHA256Size) x00.   (* [empty] *)
Definition ZeroHash : ObjectID := mkObjectID emptyHash SHA1.

(** [copy(dst, src)] *)
Definition copyBytes (dst src : bytes) : bytes := take (length dst) src ++ drop (length src) dst.

Definition ObjectID_Write (s : ObjectID) (inp : bytes) : ObjectID :=
  mkObjectID (copyBytes (hash s) inp) (oformat s).

Definition FromHex (inp : bytes) : ObjectID * bool :=
  let id := if len inp =? SHA256HexSize then mkObjectID emptyHash SHA256 else ZeroHash in
  match DecodeString inp with
  | None => (id, false)
  | Some out => (ObjectID_Write id out, true)
  end.

Definition NewHash (s : bytes) : ObjectID := fst (FromHex s).

Definition FromBytes (inp : bytes) : ObjectID * bool :=
  if len inp =? SHA1Size then (mkObjectID (copyBytes emptyHash inp) SHA1, true)
  else if len inp =? SHA256Size then (mkObjectID (copyBytes emptyHash inp) SHA256, true)
  else (ZeroHash, false).

Definition ObjectID_HexSize (s : ObjectID) : Z := format_HexSize (oformat s).
Definition ObjectID_Size (s : ObjectID) : Z := format_Size (oformat s).

(** [Bytes]: the array always has 32 bytes, so its first branch is never taken. *)
Definition ObjectID_Bytes (s : ObjectID) : bytes := seg (hash s) 0 (ObjectID_Size s).

(** [bytes.Compare] *)
Fixpoint compareBytes (a b : bytes) : Z :=
  match a, b with
  | [], [] => 0
  | [], _ => -1
  | _, [] => 1
  | x :: a, y :: b => if b2z x <? b2z y then -1 else if b2z y <? b2z x then 1 else compareBytes a b
  end.

Definition ObjectID_Compare (s : ObjectID) (b : bytes) : Z := compareBytes (ObjectID_Bytes s) b.
Definition ObjectID_Equal (s inp : ObjectID) : bool := bool_decide (hash s = hash inp).
Definition ObjectID_HasPrefix (s : ObjectID) (prefix : bytes) : bool := HasPrefix (ObjectID_Bytes s) prefix.
Definition IsZero (s : ObjectID) : bool := bool_decide (hash s = emptyHash).
Definition ObjectID_String (s : ObjectID) : bytes := EncodeToString (ObjectID_Bytes s).

(** [ReadFrom]: the bytes past [Size()] are left as they are. *)
Definition ReadFrom (s : ObjectID) (r : bytes) : res (ObjectID * bytes) :=
  let* (b, r) := readFull (ObjectID_Size s) r in
  Ok (mkObjectID (copyBytes (hash s) b) (oformat s), r).

Definition WriteTo (s : ObjectID) : bytes := ObjectID_Bytes s.

(** [ResetBySize]: the copy is of an empty slice. *)
Definition ResetBySize (s : ObjectID) (idSize : Z) : ObjectID :=
  let f := if idSize =? SHA256Size then SHA256 else SHA1 in
  mkObjectID (copyBytes (hash s) (seg (hash s) 0 0)) f.

Definition IsHash (s : bytes) : bool :=
  if (len s =? SHA1HexSize) || (len s =? SHA256HexSize)
  then match DecodeString s with Some _ => true | None => false end
  else false.

(** [HashSlice.Less] on two identifiers. *)
Definition HashLess (a b : ObjectID) : bool := ObjectID_Compare a (ObjectID_Bytes b) <? 0.

(** ** The order on names *)

Lemma compareBytes_refl a : compareBytes a a = 0.
Proof. induction a as [|x a IH]; cbn [compareBytes]; [done|]. by rewrite Z.ltb_irrefl. Qed.

Lemma compareBytes_eq a b : compareBytes a b = 0 -> a = b.
Proof.
  revert b. induction a as [|x a IH]; intros [|y b]; cbn [compareBytes]; try lia; [done|].
  destruct (Z.ltb_spec (b2z x) (b2z y)); [lia|]. destruct (Z.ltb_spec (b2z y) (b2z x)); [lia|].
  intros H'. f_equal; [apply b2z_inj; lia|by apply IH].
Qed.

Lemma compareBytes_antisym a b : compareBytes b a = - compareBytes a b.
Proof.
  revert b. induction a as [|x a IH]; intros [|y b]; cbn [compareBytes]; try done.
  destruct (Z.ltb_spec (b2z x) (b2z y)), (Z.ltb_spec (b2z y) (b2z x)); try lia. apply IH.
Qed.

Lemma compareBytes_lt_trans a b c : compareBytes a b < 0 -> compareBytes b c < 0 -> compareBytes a c < 0.
Proof.
  revert b c. induction a as [|x a IH]; intros [|y b] [|z c]; cbn [compareBytes]; try lia.
  destruct (Z.ltb_spec (b2z x) (b2z y)), (Z.ltb_spec (b2z y) (b2z x)), (Z.ltb_spec (b2z y) (b2z z)),
    (Z.ltb_spec (b2z z) (b2z y)), (Z.ltb_spec (b2z x) (b2z z)), (Z.ltb_spec (b2z z) (b2z x)); try lia.
  apply IH.
Qed.

Lemma compareBytes_cases a b : compareBytes a b = -1 \/ compareBytes a b = 0 \/ compareBytes a b = 1.
Proof.
  revert b. induction a as [|x a IH]; intros [|y b]; cbn [compareBytes]; try lia.
  destruct (b2z x <? b2z y), (b2z y <? b2z x); try lia. apply IH.
Qed.

Definition ltName (a b : bytes) : Prop := compareBytes a b < 0.

(** ** Hexadecimal round trips *)

Lemma hexValue_digit n : 0 <= n < 16 -> hexValue (hexDigit n) = Some n.
Proof.
  intros Hn. unfold hexValue, hexDigit.
  destruct (Z.ltb_spec n 10); rewrite z2b_small by lia;
  repeat match goal with |- context [?a <=? ?b] => destruct (Z.leb_spec a b) end; cbn [andb]; try lia; f_equal; lia.
Qed.

Lemma nibbles b : 0 <= Z.shiftr (b2z b) 4 < 16 /\ 0 <= Z.land (b2z b) 0xf < 16 /\
  Z.lor (Z.shiftl (Z.shiftr (b2z b) 4) 4) (Z.land (b2z b) 0xf) = b2z b.
Proof.
  pose proof (b2z_range b) as Hb. rewrite Z.shiftr_div_pow2 by lia. change 0xf with (Z.ones 4).
  rewrite Z.land_ones by lia. change (2 ^ 4) with 16.
  pose proof (Z.mod_pos_bound (b2z b) 16 ltac:(lia)). pose proof (Z.div_mod (b2z b) 16 ltac:(lia)).
  split; [lia|]. split; [lia|]. rewrite Z.lor_comm, lor_shiftl_add by lia. change (2 ^ 4) with 16. lia.
Qed.

Lemma DecodeString_EncodeToString b : DecodeString (EncodeToString b) = Some b.
Proof.
  induction b as [|x b IH]; [done|]. cbn [EncodeToString flat_map app DecodeString].
  destruct (nibbles x) as (H1 & H2 & H3). rewrite !hexValue_digit by done.
  fold (EncodeToString b). rewrite IH, H3, z2b_b2z. done.
Qed.

Lemma EncodeToString_len b : len (EncodeToString b) = 2 * len b.
Proof.
  induction b as [|x b IH]; [done|]. cbn [EncodeToString flat_map app].
  fold (EncodeToString b). rewrite !len_cons. lia.
Qed.

Lemma copyBytes_prefix dst src :
  (length src <= length dst)%nat -> copyBytes dst src = src ++ drop (length src) dst.
Proof. intros Hl. unfold copyBytes. by rewrite take_ge. Qed.

(** An identifier whose unused bytes are zero, of one of the two formats. *)
Definition wf_id (s : ObjectID) : Prop :=
  len (hash s) = SHA256Size /\
  (oformat s = SHA256 \/ oformat s = SHA1 /\ drop (Z.to_nat SHA1Size) (hash s) = replicate 12 x00).

Lemma wf_bytes s : wf_id s ->
  len (ObjectID_Bytes s) = ObjectID_Size s /\
  copyBytes emptyHash (ObjectID_Bytes s) = hash s /\ ObjectID_Size s = format_Size (oformat s).
Proof.
  intros [Hl Hf]. change SHA256Size with 32 in Hl. assert (length (hash s) = 32%nat) as Hl' by (unfold len in Hl; lia).
  unfold ObjectID_Bytes, ObjectID_Size. destruct Hf as [->|[-> Hz]].
  - change (format_Size SHA256) with 32. rewrite len_seg by lia. split; [lia|]. split; [|done].
    rewrite <- Hl, seg_full. rewrite copyBytes_prefix by (rewrite Hl'; vm_compute; lia).
    rewrite Hl'. change (drop 32 emptyHash) with (@nil byte). apply app_nil_r.
  - change (format_Size SHA1) with 20. rewrite len_seg by lia. split; [lia|]. split; [|done].
    unfold seg. change (Z.to_nat (20 - 0)) with 20%nat. change (Z.to_nat 0) with 0%nat. rewrite drop_0.
    rewrite copyBytes_prefix by (rewrite length_take, Hl'; vm_compute; lia).
    rewrite length_take, Hl'. change (drop (20 `min` 32) emptyHash) with (replicate 12 x00).
    rewrite <- Hz. change (Z.to_nat SHA1Size) with 20%nat. apply take_drop.
Qed.

Lemma FromHex_String s : wf_id s -> FromHex (ObjectID_String s) = (s, true).
Proof.
  intros Hwf. destruct (wf_bytes s Hwf) as (Hl & Hc & Hsz). pose proof Hwf as [_ Hf].
  unfold FromHex, ObjectID_String. rewrite EncodeToString_len, DecodeString_EncodeToString, Hl, Hsz.
  destruct s as [h f]. cbn [hash oformat] in *.
  assert (f = SHA256 \/ f = SHA1) as [-> | ->] by tauto.
  - change (2 * format_Size SHA256 =? SHA256HexSize) with true. cbn match. unfold ObjectID_Write. cbn [hash oformat]. by rewrite Hc.
  - change (2 * format_Size SHA1 =? SHA256HexSize) with false. cbn match. unfold ObjectID_Write. cbn [hash oformat ZeroHash]. by rewrite Hc.
Qed.

(** Hexadecimal text identifies an object identifier: [FromHex] of the
    [String] of an identifier succeeds and gives that identifier, format
    included, and so does [FromBytes] of its [Bytes]; [ReadFrom] a fresh
    identifier of its size gives back what [WriteTo] wrote. *)
Theorem objectid_roundtrip s r :
  wf_id s ->
  FromHex (ObjectID_String s) = (s, true) /\ FromBytes (ObjectID_Bytes s) = (s, true) /\
  IsHash (ObjectID_String s) = true /\
  ReadFrom (ResetBySize ZeroHash (ObjectID_Size s)) (WriteTo s ++ r) = Ok (s, r).
Proof.
  intros Hwf. split; [by apply FromHex_String|].
  destruct (wf_bytes s Hwf) as (Hl & Hc & Hsz). pose proof Hwf as [_ Hf].
  unfold FromBytes, IsHash, ObjectID_String, ReadFrom, WriteTo in *.
  rewrite EncodeToString_len, DecodeString_EncodeToString, Hl, Hsz. destruct s as [h f]. cbn [hash oformat] in *.
  assert (f = SHA256 \/ f = SHA1) as [-> | ->] by tauto; split_and!; try done.
  - change (format_Size SHA256 =? SHA1Size) with false. cbn match. change (format_Size SHA256 =? SHA256Size) with true. cbn match. by rewrite Hc.
  - change (ObjectID_Size (ResetBySize _ _)) with 32. rewrite readFull_app by done. cbn [res_bind].
    change (hash (ResetBySize ZeroHash (format_Size SHA256))) with emptyHash. by rewrite Hc.
  - change (format_Size SHA1 =? SHA1Size) with true. cbn match. by rewrite Hc.
  - change (ObjectID_Size (ResetBySize _ _)) with 20. rewrite readFull_app by done. cbn [res_bind].
    change (hash (ResetBySize ZeroHash (format_Size SHA1))) with emptyHash. by rewrite Hc.
Qed.

(** The statement at the SHA-1 identifier with the bytes 1 to 20. *)
Lemma objectid_roundtrip_witness :
  let s := fst (FromBytes (map (fun i => z2b (Z.of_nat i)) (seq 1 20))) in
  FromHex (ObjectID_String s) = (s, true) /\ FromBytes (ObjectID_Bytes s) = (s, true) /\
  IsHash (ObjectID_String s) = true /\
  ReadFrom (ResetBySize ZeroHash (ObjectID_Size s)) (WriteTo s ++ bs "rest") = Ok (s, bs "rest").
Proof.
  apply (objectid_roundtrip (fst (FromBytes (map (fun i => z2b (Z.of_nat i)) (seq 1 20)))) (bs "rest")).
  split; [reflexivity|]. right. split; reflexivity.
Defined.

(** [ResetBySize] does not reset the hash: it copies no byte, so an
    identifier keeps the hash it had. An identifier reused for SHA-1 after it held a
    SHA-256 hash reads the same twenty bytes as a fresh one and prints the same
    text, and yet is not [Equal] to it, nor [IsZero] when those bytes are zero. *)
Theorem ResetBySize_keeps_hash :
  (forall s n, hash (ResetBySize s n) = hash s) /\
  exists used b, let reused := ReadFrom (ResetBySize used SHA1Size) b in
    let fresh := ReadFrom (ResetBySize ZeroHash SHA1Size) b in
    match reused, fresh with
    | Ok (x, _), Ok (y, _) => ObjectID_String x = ObjectID_String y /\
        ObjectID_Equal x y = false /\ IsZero y = true /\ IsZero x = false
    | _, _ => False
    end.
Proof.
  split.
  - intros s n. unfold ResetBySize. cbn [hash]. rewrite seg_empty by lia. unfold copyBytes.
    cbn [length]. rewrite take_nil, drop_0. done.
  - exists (fst (FromBytes (replicate 32 x01))), (replicate 20 x00). vm_compute. done.
Qed.
