(* ===== verification/Reference.v ===== *)
(** * plumbing/reference.go

    Reference names, the rules of [Validate], [Short], and references with
    their textual form. *)
From S2P Require Import Prelude GoStrings ObjectID.

Definition refPrefix : bytes := bs "refs/".
Definition refHeadPrefix : bytes := refPrefix ++ bs "heads/".
Definition refTagPrefix : bytes := refPrefix ++ bs "tags/".
Definition refRemotePrefix : bytes := refPrefix ++ bs "remotes/".
Definition refNotePrefix : bytes := refPrefix ++ bs "notes/".
Definition symrefPrefix : bytes := bs "ref: ".

Abbreviation ReferenceName := bytes (only parsing).

Definition HEAD : ReferenceName := bs "HEAD".
Definition Master : ReferenceName := bs "refs/heads/master".
Definition Main : ReferenceName := bs "refs/heads/main".

(** A rule of [RefRevParseRules]: what its format has before and after [%s]. *)
Definition RefRevParseRules : list (bytes * bytes) :=
  [(bs "", bs ""); (bs "refs/", bs ""); (bs "refs/tags/", bs ""); (bs "refs/heads/", bs "");
   (bs "refs/remotes/", bs ""); (bs "refs/remotes/", bs "/HEAD")].

Definition NewBranchReferenceName (name : bytes) : ReferenceName := refHeadPrefix ++ name.
Definition NewNoteReferenceName (name : bytes) : ReferenceName := refNotePrefix ++ name.
Definition NewRemoteReferenceName (remote name : bytes) : ReferenceName := refRemotePrefix ++ remote ++ bs "/" ++ name.
Definition NewRemoteHEADReferenceName (remote : bytes) : ReferenceName := refRemotePrefix ++ remote ++ bs "/" ++ HEAD.
Definition NewTagReferenceName (name : bytes) : ReferenceName := refTagPrefix ++ name.

Definition IsBranch (r : ReferenceName) : bool := HasPrefix r refHeadPrefix.
Definition IsNote (r : ReferenceName) : bool := HasPrefix r refNotePrefix.
Definition IsRemote (r : ReferenceName) : bool := HasPrefix r refRemotePrefix.
Definition IsTag (r : ReferenceName) : bool := HasPrefix r refTagPrefix.

(** ** [Short]

    [fmt.Sscanf] with a format that is literal text, one [%s] and literal text:
    the operand is assigned as soon as [%s] has matched, also when the text
    after it then does not; a failure before that leaves the operand alone.
    The text is read by runes, and bytes that are none are written to the
    operand as [RuneError]. *)

(** The table [space] of package fmt *)
Definition fmt_isSpace (r : Z) : bool :=
  (9 <=? r) && (r <=? 13) || (r =? 0x20) || (r =? 0x85) || (r =? 0xa0) || (r =? 0x1680) || (0x2000 <=? r) && (r <=? 0x200a) ||
  (0x2028 <=? r) && (r <=? 0x2029) || (r =? 0x202f) || (r =? 0x205f) || (r =? 0x3000).

(** [SkipSpace]: a newline is an error. *)
Fixpoint skipSpace_loop (fuel : nat) (s : bytes) : option bytes :=
  match fuel, DecodeRune s with
  | S fuel, Some (r, n) => if r =? 10 then None else if fmt_isSpace r then skipSpace_loop fuel (drop n s) else Some s
  | _, _ => Some s
  end.
Definition skipSpace (s : bytes) : option bytes := skipSpace_loop (length s) s.

(** [token] with [notSpace]: the word, and what is left. *)
Fixpoint token_loop (fuel : nat) (s : bytes) : bytes * bytes :=
  match fuel, DecodeRune s with
  | S fuel, Some (r, n) =>
    if fmt_isSpace r then ([], s) else let (t, rest) := token_loop fuel (drop n s) in (EncodeRune r ++ t, rest)
  | _, _ => ([], s)
  end.
Definition token (s : bytes) : bytes * bytes := token_loop (length s) s.

Definition Sscanf (s : bytes) (format : bytes * bytes) (operand : bytes) : bytes :=
  if HasPrefix s (fst format) then
    match skipSpace (drop (length (fst format)) s) with
    | None | Some [] => operand
    | Some t => (token t).1
    end
  else operand.

Definition Short (r : ReferenceName) : bytes :=
  foldl (fun operand format => Sscanf r format operand) r (drop 1 RefRevParseRules).

(** ** [Validate] *)

(** The regular expression [ctrlSeqs]. *)
Definition ctrlSeqs (s : bytes) : bool := existsb (fun b => (b2z b <? 32) || (b2z b =? 127)) s.

Definition badPart (part : bytes) : bool :=
  HasPrefix part (bs ".") || Contains part (bs "..") || ctrlSeqs part ||
  ContainsAny part (bs "~^:?*[ " ++ [x09; x0a]) || Contains part (bs "@{") ||
  bool_decide (part = bs "@") || Contains part (bs "\") || HasSuffix part (bs ".lock").

Fixpoint Validate_loop (isBranch isTag : bool) (i : Z) (parts : list bytes) : option error :=
  match parts with
  | [] => None
  | part :: parts =>
    if len part =? 0 then Some ErrInvalidReferenceName
    else if badPart part then Some ErrInvalidReferenceName
    else if (isBranch || isTag) && HasPrefix part (bs "-") && (i =? 2) then Some ErrInvalidReferenceName
    else Validate_loop isBranch isTag (i + 1) parts
  end.

Definition Validate (r : ReferenceName) : option error :=
  if len r =? 0 then Some ErrInvalidReferenceName
  else if bool_decide (r = HEAD) then None
  else if HasSuffix r (bs ".") then Some ErrInvalidReferenceName
  else
    let parts := Split r x2f in
    if len parts <? 2 then Some ErrInvalidReferenceName
    else Validate_loop (IsBranch r) (IsTag r) 0 parts.

(** ** References *)
Inductive ReferenceType := InvalidReference | HashReference | SymbolicReference.

Definition ReferenceType_String (t : ReferenceType) : bytes :=
  match t with
  | InvalidReference => bs "invalid-reference"
  | HashReference => bs "hash-reference"
  | SymbolicReference => bs "symbolic-reference"
  end.

Record Reference := mkReference { rtype : ReferenceType; rname : ReferenceName; rhash : ObjectID; rtarget : ReferenceName }.

Definition NewSymbolicReference (n target : ReferenceName) : Reference := mkReference SymbolicReference n ZeroHash target.
Definition NewHashReference (n : ReferenceName) (h : ObjectID) : Reference := mkReference HashReference n h [].

Definition NewReferenceFromStrings (name target : bytes) : Reference :=
  if HasPrefix target symrefPrefix
  then NewSymbolicReference name (drop (length symrefPrefix) target)
  else NewHashReference name (NewHash target).

Definition Reference_Strings (r : Reference) : bytes * bytes :=
  (rname r, match rtype r with
            | HashReference => ObjectID_String (rhash r)
            | SymbolicReference => symrefPrefix ++ rtarget r
            | InvalidReference => []
            end).

Definition Reference_String (r : Reference) : bytes :=
  match rtype r with
  | HashReference => ObjectID_String (rhash r) ++ bs " " ++ rname r
  | SymbolicReference => (symrefPrefix ++ rtarget r) ++ bs " " ++ rname r
  | InvalidReference => []
  end.

(** ** [Validate] against the rules of git-check-ref-format *)

(** A byte that rules 4, 5 and 10 forbid: a control character, DEL, space, or one of
    tilde, caret, colon, question mark, asterisk, open bracket and backslash. *)
Definition forbiddenByte (b : byte) : bool :=
  (b2z b <? 32) || (b2z b =? 127) || bool_decide (b ∈ bs " ~^:?*[\").

(** The ten rules in the comment of [Validate], on the whole name, but for rule 9. *)
Definition git_ref_format (s : ReferenceName) : bool :=
  negb (HasPrefix s (bs ".")) && negb (Contains s (bs "/."))                       (* 1 *)
  && negb (HasSuffix s (bs ".lock")) && negb (Contains s (bs ".lock/"))            (* 1 *)
  && Contains s (bs "/")                                                           (* 2 *)
  && negb (Contains s (bs ".."))                                                   (* 3 *)
  && negb (existsb forbiddenByte s)                                                (* 4, 5, 10 *)
  && negb (HasPrefix s (bs "/")) && negb (HasSuffix s (bs "/")) && negb (Contains s (bs "//"))  (* 6 *)
  && negb (HasSuffix s (bs "."))                                                   (* 7 *)
  && negb (Contains s (bs "@{")).                                                  (* 8 *)

(** What the code adds: no component is "@", and the short name of a branch or a
    tag does not begin with a dash. *)
Definition at_component (s : ReferenceName) : bool := existsb (fun p => bool_decide (p = bs "@")) (Split s x2f).
Definition dash_name (s : ReferenceName) : bool :=
  HasPrefix s (bs "refs/heads/-") || HasPrefix s (bs "refs/tags/-").

(** The loop as a conjunction over the components. *)
Lemma Validate_loop_none isBranch isTag parts : forall i,
  Validate_loop isBranch isTag i parts = None <->
  existsb (fun q => len q =? 0) parts = false /\ existsb badPart parts = false /\
  (isBranch || isTag = true -> forall j p, parts !! j = Some p -> i + Z.of_nat j = 2 -> HasPrefix p (bs "-") = false).
Proof.
  induction parts as [|p parts IH]; intros i; cbn [Validate_loop existsb]; [split; [by intros|done]|].
  destruct (len p =? 0); cbn [orb]; [split; [discriminate|by intros [? _]]|].
  destruct (badPart p); cbn [orb]; [split; [discriminate|by intros (_ & ? & _)]|].
  destruct ((isBranch || isTag) && HasPrefix p (bs "-") && (i =? 2)) eqn:E.
  - split; [discriminate|]. intros (_ & _ & H). apply andb_true_iff in E as [[E1 E2]%andb_true_iff E3].
    apply Z.eqb_eq in E3. rewrite (H E1 0%nat p) in E2; [discriminate|done|lia].
  - rewrite IH. split; intros (H1 & H2 & H3); (split; [done|]); (split; [done|]).
    + intros Hb [|j] q Hq Hj; cbn in Hq; [|apply (H3 Hb j q Hq); lia].
      injection Hq as <-. rewrite Hb in E. cbn [andb] in E. replace (i =? 2) with true in E by lia.
      by rewrite andb_true_r in E.
    + intros Hb j q Hq Hj. apply (H3 Hb (S j) q Hq). lia.
Qed.

Lemma existsb_orb {A} (f g : A -> bool) l :
  existsb (fun x => f x || g x) l = existsb f l || existsb g l.
Proof.
  induction l as [|x l IH]; cbn; [done|]. rewrite IH. destruct (f x), (g x), (existsb f l), (existsb g l); done.
Qed.

Lemma existsb_ext' {A} (f g : A -> bool) l : (forall x, f x = g x) -> existsb f l = existsb g l.
Proof. intros H. induction l as [|x l IH]; cbn; [done|]. by rewrite H, IH. Qed.

Lemma bytes_Contains_one s c : Contains s [c] = existsb (fun b => bool_decide (b = c)) s.
Proof.
  induction s as [|x s IH]; [done|]. cbn [Contains existsb]. by rewrite IH, HasPrefix_byte.
Qed.

(** The byte tests of a component together. *)
Lemma forbidden_parts p :
  ctrlSeqs p || ContainsAny p (bs "~^:?*[ " ++ [x09; x0a]) || Contains p (bs "\") = existsb forbiddenByte p.
Proof.
  unfold ctrlSeqs, ContainsAny. change (bs "\") with [x5c]. rewrite bytes_Contains_one, <- !existsb_orb.
  apply existsb_ext'. intros b. unfold forbiddenByte. destruct b; reflexivity.
Qed.

Lemma no_slash (l : bytes) : forallb (fun b => negb (bool_decide (b = x2f))) l = true -> x2f ∉ l.
Proof.
  intros H Hin. rewrite forallb_forall in H. apply list_elem_of_In, H in Hin. by rewrite bool_decide_eq_true_2 in Hin.
Qed.

Lemma badPart_parts s :
  existsb badPart (Split s x2f) =
  (HasPrefix s (bs ".") || Contains s (bs "/.")) || Contains s (bs "..") || existsb forbiddenByte s ||
  Contains s (bs "@{") || at_component s || (HasSuffix s (bs ".lock") || Contains s (bs ".lock/")).
Proof.
  rewrite (existsb_ext' badPart (fun p => HasPrefix p (bs ".") || Contains p (bs "..") || existsb forbiddenByte p ||
    Contains p (bs "@{") || bool_decide (p = bs "@") || HasSuffix p (bs ".lock"))).
  2: { intros p. unfold badPart. rewrite <- forbidden_parts.
       destruct (HasPrefix p (bs ".")), (Contains p (bs "..")), (ctrlSeqs p), (ContainsAny p _), (Contains p (bs "@{")),
         (bool_decide (p = bs "@")), (Contains p (bs "\")), (HasSuffix p (bs ".lock")); done. }
  rewrite !existsb_orb. unfold at_component.
  rewrite existsb_Split_HasPrefix by by apply no_slash.
  rewrite !existsb_Split_Contains by (done || by apply no_slash).
  rewrite existsb_Split_bytes by done. rewrite existsb_Split_HasSuffix by by apply no_slash. done.
Qed.

Lemma Split_two s : (len (Split s x2f) <? 2) = negb (Contains s (bs "/")).
Proof.
  change (bs "/") with [x2f]. destruct (decide (x2f ∈ s)) as [H|H].
  - destruct (split_first s x2f H) as (a & b & -> & Ha). rewrite Split_cons by done.
    replace (Contains (a ++ x2f :: b) [x2f]) with true.
    2: { symmetry. apply Contains_true. by exists a, b. }
    pose proof (Split_nonempty b x2f). destruct (Split b x2f) as [|p ps]; [done|]. rewrite !len_cons.
    pose proof (len_nonneg ps). apply Z.ltb_ge. lia.
  - rewrite Split_single by done. destruct (Contains s [x2f]) eqn:E; [|done].
    apply Contains_true in E as (a & b & ->). set_solver.
Qed.

(** The third component of a name in one of the two directories. *)
Lemma third_component dir s :
  x2f ∉ dir ->
  HasPrefix s (bs "refs/" ++ dir ++ bs "/") = true ->
  (HasPrefix s (bs "refs/" ++ dir ++ bs "/-") = false <->
   forall p, Split s x2f !! 2%nat = Some p -> HasPrefix p (bs "-") = false).
Proof.
  intros Hd [r ->]%HasPrefix_true. rewrite <- !app_assoc. change (bs "refs/") with (bs "refs" ++ [x2f]).
  change (bs "/-") with ([x2f] ++ bs "-"). change (bs "/") with [x2f]. rewrite <- !app_assoc. cbn [app].
  rewrite Split_cons by by apply no_slash. rewrite Split_cons by done. cbn [lookup list_lookup].
  assert (HasPrefix (bs "refs" ++ x2f :: dir ++ x2f :: r) (bs "refs" ++ x2f :: dir ++ x2f :: bs "-") = HasPrefix r (bs "-")) as ->.
  { apply eq_true_iff_eq. rewrite !HasPrefix_true. split; intros [k E]; exists k.
    - rewrite <- !app_assoc in E. apply app_inv_head in E. injection E as E. rewrite <- app_assoc in E.
      apply app_inv_head in E. by injection E as ->.
    - subst r. rewrite <- !app_assoc. cbn [app]. by rewrite <- !app_assoc. }
  assert (HasPrefix r (bs "-") = match Split r x2f with p :: _ => HasPrefix p (bs "-") | [] => false end) as ->.
  { destruct (decide (x2f ∈ r)) as [Hr|Hr].
    - destruct (split_first r x2f Hr) as (a & b & -> & Ha). rewrite Split_cons by done. apply HasPrefix_nosep.
      by apply no_slash.
    - by rewrite Split_single. }
  pose proof (Split_nonempty r x2f). destruct (Split r x2f) as [|p ps]; [done|]. cbn.
  split; [by intros H' q [= <-]|intros H'; by apply H'].
Qed.

Lemma dash_component s :
  dash_name s = false <->
  (IsBranch s || IsTag s = true -> forall j p, Split s x2f !! j = Some p -> 0 + Z.of_nat j = 2 -> HasPrefix p (bs "-") = false).
Proof.
  unfold dash_name. rewrite orb_false_iff. unfold IsBranch, IsTag.
  pose proof (third_component (bs "heads") s) as Hh. pose proof (third_component (bs "tags") s) as Ht.
  change (bs "refs/" ++ bs "heads" ++ bs "/") with refHeadPrefix in Hh.
  change (bs "refs/" ++ bs "tags" ++ bs "/") with refTagPrefix in Ht.
  change (bs "refs/" ++ bs "heads" ++ bs "/-") with (bs "refs/heads/-") in Hh.
  change (bs "refs/" ++ bs "tags" ++ bs "/-") with (bs "refs/tags/-") in Ht.
  specialize (Hh (no_slash (bs "heads") eq_refl)). specialize (Ht (no_slash (bs "tags") eq_refl)).
  assert (forall d x, HasPrefix s (d ++ x) = true -> HasPrefix s d = true) as Hmono.
  { intros d x [r ->]%HasPrefix_true. rewrite <- app_assoc. apply HasPrefix_self. }
  split.
  - intros [H1 H2] Hb j p Hp Hj. assert (j = 2%nat) as -> by lia.
    apply orb_true_iff in Hb as [Hb|Hb]; [by apply (proj1 (Hh Hb) H1)|by apply (proj1 (Ht Hb) H2)].
  - intros H. split; apply not_true_is_false; intros E.
    + assert (HasPrefix s refHeadPrefix = true) as Hb by (by apply (Hmono refHeadPrefix (bs "-"))).
      rewrite (proj2 (Hh Hb)) in E; [done|]. intros p Hp. apply (H ltac:(by rewrite Hb) 2%nat p Hp). lia.
    + assert (HasPrefix s refTagPrefix = true) as Hb by (by apply (Hmono refTagPrefix (bs "-"))).
      rewrite (proj2 (Ht Hb)) in E; [done|]. intros p Hp. apply (H ltac:(rewrite Hb; apply orb_true_r) 2%nat p Hp). lia.
Qed.

(** [Validate] accepts a name exactly when it is [HEAD], or follows rules 1 to 8 and 10
    of git-check-ref-format, stated on the whole name, has no component "@", and
    is not a branch or a tag whose short name begins with a dash. *)
Theorem Validate_spec r :
  Validate r = None <->
  r = HEAD \/ git_ref_format r = true /\ at_component r = false /\ dash_name r = false.
Proof.
  unfold Validate. destruct (Z.eqb_spec (len r) 0) as [E0|E0].
  { split; [discriminate|]. destruct r; [|len_lia]. intros [H|[H _]]; discriminate H. }
  case_bool_decide as EH; [split; auto|].
  assert (git_ref_format r = true <-> HasSuffix r (bs ".") = false /\ Contains r (bs "/") = true /\
    existsb (fun q => len q =? 0) (Split r x2f) = false /\ existsb forbiddenByte r = false /\
    (HasPrefix r (bs ".") || Contains r (bs "/.")) = false /\ Contains r (bs "..") = false /\
    Contains r (bs "@{") = false /\ (HasSuffix r (bs ".lock") || Contains r (bs ".lock/")) = false) as ->.
  { rewrite existsb_Split_empty. replace (len r =? 0) with false by (symmetry; by apply Z.eqb_neq).
    unfold git_ref_format. change [x2f] with (bs "/"). change [x2f; x2f] with (bs "//").
    rewrite !andb_true_iff, !negb_true_iff, !orb_false_iff. tauto. }
  destruct (HasSuffix r (bs ".")) eqn:E7; [split; [discriminate|by intros [?|((? & _) & _)]]|].
  rewrite Split_two. destruct (Contains r (bs "/")) eqn:E2; cbn [negb]; [|split; [discriminate|by intros [?|((_ & ? & _) & _)]]].
  rewrite Validate_loop_none, badPart_parts, <- dash_component, !orb_false_iff. tauto.
Qed.

(** Rule 9, as the comment of [Validate] and git state it, forbids only the name that is the single
    character "@". The code forbids it as any component: "refs/heads/@", which
    follows all ten rules, is refused. *)
Theorem Validate_refuses_at_component :
  git_ref_format (bs "refs/heads/@") = true /\ bs "refs/heads/@" <> bs "@" /\
  Validate (bs "refs/heads/@") = Some ErrInvalidReferenceName.
Proof. split_and!; vm_compute; congruence. Qed.

(** A reference and its two strings determine each other: reading back the
    [Strings] of a symbolic reference, or of a hash reference with a
    well-formed identifier, gives the same reference. *)
Theorem reference_strings_roundtrip n h target :
  wf_id h ->
  let back r := NewReferenceFromStrings (fst (Reference_Strings r)) (snd (Reference_Strings r)) in
  back (NewHashReference n h) = NewHashReference n h /\
  back (NewSymbolicReference n target) = NewSymbolicReference n target.
Proof.
  intros Hw. destruct (wf_bytes h Hw) as (Hl & Hc & Hsz).
  assert (FromHex (ObjectID_String h) = (h, true)) as HF by (by apply FromHex_String).
  cbv zeta. unfold NewReferenceFromStrings, Reference_Strings.
  cbn [fst snd rtype rname rhash rtarget NewHashReference NewSymbolicReference]. split.
  - replace (HasPrefix (ObjectID_String h) symrefPrefix) with false; [unfold NewHash; by rewrite HF|].
    symmetry. apply not_true_is_false. intros [k E]%HasPrefix_true.
    assert (DecodeString (ObjectID_String h) = Some (ObjectID_Bytes h)) as HD by apply DecodeString_EncodeToString.
    rewrite E in HD. discriminate HD.
  - rewrite HasPrefix_self. by rewrite drop_app_length.
Qed.

Lemma reference_strings_roundtrip_witness :
  let h := fst (FromBytes (replicate 20 xab)) in
  let back r := NewReferenceFromStrings (fst (Reference_Strings r)) (snd (Reference_Strings r)) in
  back (NewHashReference Master h) = NewHashReference Master h /\
  back (NewSymbolicReference HEAD Master) = NewSymbolicReference HEAD Master.
Proof.
  split.
  - apply (reference_strings_roundtrip Master (fst (FromBytes (replicate 20 xab))) []).
    split; [reflexivity|]. right. split; reflexivity.
  - apply (reference_strings_roundtrip HEAD ZeroHash Master). split; [reflexivity|]. right. split; reflexivity.
Defined.

(** ** [Short] *)

(** Text without white space that is UTF-8: it is the runes it is made of. *)
Definition word_rune (r : Z) : Prop := scalar r /\ fmt_isSpace r = false.
Definition nospace (s : bytes) : Prop := exists rs, s = flat_map EncodeRune rs /\ Forall word_rune rs.

Lemma nospace_nil : nospace [].
Proof. by exists []. Qed.
Lemma nospace_app a b : nospace a -> nospace b -> nospace (a ++ b).
Proof. intros (ra & -> & Ha) (rb & -> & Hb). exists (ra ++ rb). by rewrite flat_map_app, Forall_app. Qed.
Lemma nospace_ascii s : Forall (fun b => b2z b < 128 /\ isSpace b = false) s -> nospace s.
Proof.
  intros Hs. exists (map b2z s). induction Hs as [|b s [Hb Hsp] _ IH]; [done|]. pose proof (b2z_range b) as Hr. destruct IH as [IH1 IH2]. cbn [map flat_map]. split.
  - rewrite <- IH1. unfold EncodeRune. destruct (_ || _) eqn:E; [lia|]. rewrite (proj2 (Z.ltb_lt _ 128)) by lia. by rewrite z2b_b2z.
  - constructor; [|done]. unfold isSpace in Hsp. cbv zeta in Hsp. split; [unfold scalar; lia|]. unfold fmt_isSpace. lia.
Qed.
Lemma word_rune_nonempty r : word_rune r -> (0 < length (EncodeRune r))%nat.
Proof. intros _. unfold EncodeRune. repeat case_match; cbn; lia. Qed.

(** A word that the end or white space follows is the token. *)
Definition ends_word (s : bytes) : Prop := match DecodeRune s with Some (r, _) => fmt_isSpace r = true | None => True end.
Lemma token_runes rs r : Forall word_rune rs -> ends_word r -> forall fuel, (length (flat_map EncodeRune rs) <= fuel)%nat ->
  token_loop fuel (flat_map EncodeRune rs ++ r) = (flat_map EncodeRune rs, r).
Proof.
  intros Hrs Hr. induction Hrs as [|x rs Hx _ IH]; intros fuel Hf; cbn [flat_map app].
  - unfold ends_word in Hr. destruct fuel as [|fuel]; cbn [token_loop]; [done|]. destruct (DecodeRune r) as [[c n]|]; [|done]. by rewrite Hr.
  - cbn [flat_map] in Hf. rewrite length_app in Hf. pose proof (word_rune_nonempty x Hx). destruct fuel as [|fuel]; [lia|]. cbn [token_loop]. rewrite <- app_assoc.
    destruct Hx as [Hs Hsp]. rewrite DecodeRune_Encode by done. rewrite Hsp, drop_app_length. by rewrite IH by lia.
Qed.
Lemma token_word a r : nospace a -> ends_word r -> token (a ++ r) = (a, r).
Proof. intros (rs & -> & Hrs) Hr. apply token_runes; [done|done|]. rewrite length_app. lia. Qed.
Lemma nospace_head a r : nospace a -> a <> [] -> exists x n, DecodeRune (a ++ r) = Some (x, n) /\ fmt_isSpace x = false.
Proof.
  intros ([|x rs] & -> & Hrs) Hn; [done|]. apply Forall_cons in Hrs as [[Hs Hsp] _]. cbn [flat_map]. rewrite <- app_assoc.
  exists x. eexists. by rewrite DecodeRune_Encode.
Qed.
Lemma skipSpace_word a r : nospace a -> a <> [] -> skipSpace (a ++ r) = Some (a ++ r).
Proof.
  intros Ha Hn. destruct (nospace_head a r Ha Hn) as (x & n & E & Hx). unfold skipSpace. destruct (length (a ++ r)); cbn [skipSpace_loop]; [done|].
  rewrite E, Hx. destruct (Z.eqb_spec x 10) as [->|]; [done|]. done.
Qed.

Lemma Sscanf_match pre post n old : n <> [] -> nospace n -> Sscanf (pre ++ n) (pre, post) old = n.
Proof.
  intros Hne Hn. unfold Sscanf. cbn [fst]. rewrite HasPrefix_self, drop_app_length.
  pose proof (skipSpace_word n [] Hn Hne) as Hs. pose proof (token_word n [] Hn I) as Ht. rewrite app_nil_r in Hs, Ht. rewrite Hs. destruct n; [done|]. by rewrite Ht.
Qed.

Lemma Sscanf_mismatch s pre post old : HasPrefix s pre = false -> Sscanf s (pre, post) old = old.
Proof. intros H. unfold Sscanf. cbn [fst]. by rewrite H. Qed.

(** A name without the literal text in front of a rule's [%s]. *)
Ltac no_prefix := apply not_true_is_false; intros [? E]%HasPrefix_true; discriminate E.

(** [Short] removes the directory of a branch, a tag or a remote branch and returns the name
    it was made of, for every name in UTF-8 without white space; of a note only "refs/" is
    removed; and the rule for the HEAD of a remote has no effect: the short name of
    "refs/remotes/origin/HEAD" is "origin/HEAD". *)
Theorem Short_spec n remote :
  n <> [] -> nospace n -> nospace remote ->
  Short (NewBranchReferenceName n) = n /\ Short (NewTagReferenceName n) = n /\
  Short (NewRemoteReferenceName remote n) = remote ++ bs "/" ++ n /\
  Short (NewNoteReferenceName n) = bs "notes/" ++ n /\
  Short (NewRemoteHEADReferenceName remote) = remote ++ bs "/HEAD".
Proof.
  intros Hne Hn Hr.
  assert (forall a, Forall (fun b => b2z b < 128 /\ isSpace b = false) a -> nospace a) as Hascii by apply nospace_ascii.
  assert (nospace (bs "/") /\ nospace (bs "/HEAD") /\ nospace (bs "notes/")) as (S1 & S2 & S3) by (split_and!; apply Hascii; by_decision).
  unfold Short. cbn [drop RefRevParseRules foldl]. split_and!.
  - change (NewBranchReferenceName n) with (bs "refs/heads/" ++ n).
    rewrite !(Sscanf_mismatch _ (bs "refs/remotes/")) by no_prefix. by apply Sscanf_match.
  - change (NewTagReferenceName n) with (bs "refs/tags/" ++ n).
    rewrite !(Sscanf_mismatch _ (bs "refs/remotes/")), (Sscanf_mismatch _ (bs "refs/heads/")) by no_prefix.
    by apply Sscanf_match.
  - change (NewRemoteReferenceName remote n) with (bs "refs/remotes/" ++ (remote ++ bs "/" ++ n)).
    apply Sscanf_match; [by destruct remote|]. by repeat apply nospace_app.
  - change (NewNoteReferenceName n) with (bs "refs/" ++ (bs "notes/" ++ n)).
    rewrite !(Sscanf_mismatch _ (bs "refs/remotes/")), (Sscanf_mismatch _ (bs "refs/heads/")),
      (Sscanf_mismatch _ (bs "refs/tags/")) by no_prefix. apply Sscanf_match; [done|]. by apply nospace_app.
  - change (NewRemoteHEADReferenceName remote) with (bs "refs/remotes/" ++ (remote ++ bs "/HEAD")).
    apply Sscanf_match; [by destruct remote|]. by apply nospace_app.
Qed.

(** The statement at the branch, tag, remote branch and note "feature/x". *)
Lemma Short_spec_witness :
  let n := bs "feature/x" in
  Short (NewBranchReferenceName n) = n /\ Short (NewTagReferenceName n) = n /\
  Short (NewRemoteReferenceName (bs "origin") n) = bs "origin" ++ bs "/" ++ n /\
  Short (NewNoteReferenceName n) = bs "notes/" ++ n /\
  Short (NewRemoteHEADReferenceName (bs "origin")) = bs "origin" ++ bs "/HEAD".
Proof. apply (Short_spec (bs "feature/x") (bs "origin")); [done|apply nospace_ascii; by_decision..]. Defined.
