(* ===== verification/Storer.v ===== *)
(** * plumbing/storer/reference.go

    The interface of a reference storage as a class with its laws, the
    iterators over references, and the resolution of symbolic references. *)
From S2P Require Import Prelude GoStrings ObjectID Reference.

#[global] Instance ReferenceType_eq_dec : EqDecision ReferenceType.
Proof. solve_decision. Defined.
#[global] Instance Reference_eq_dec : EqDecision Reference.
Proof. solve_decision. Defined.

(** ** Iterators *)
Inductive ReferenceIter :=
  | ReferenceSliceIter (series : list Reference) (pos : Z)
  | MultiReferenceIter (iters : list ReferenceIter)
  | referenceFilteredIter (ff : Reference -> bool) (iter : ReferenceIter).

Definition NewReferenceSliceIter (series : list Reference) : ReferenceIter := ReferenceSliceIter series 0.
Definition NewMultiReferenceIter (iters : list ReferenceIter) : ReferenceIter := MultiReferenceIter iters.
Definition NewReferenceFilteredIter (ff : Reference -> bool) (iter : ReferenceIter) : ReferenceIter :=
  referenceFilteredIter ff iter.

(** [Next] of the three iterators; the error is [io.EOF] at the end. The loop of
    the filtered iterator and the recursion of the multi iterator use fuel. *)
Fixpoint Next (fuel : nat) (iter : ReferenceIter) : res (Reference * ReferenceIter) :=
  match fuel with
  | O => NoFuel
  | S fuel =>
    match iter with
    | ReferenceSliceIter series pos =>
      if pos >=? len series then Err EOF
      else let* obj := index series pos in Ok (obj, ReferenceSliceIter series (pos + 1))
    | MultiReferenceIter iters =>
      match iters with
      | [] => Err EOF
      | i :: rest =>
        match Next fuel i with
        | Ok (obj, i) => Ok (obj, MultiReferenceIter (i :: rest))
        | Err EOF => Next fuel (MultiReferenceIter rest)
        | Err e => Err e
        | Panic => Panic
        | NoFuel => NoFuel
        end
      end
    | referenceFilteredIter ff i =>
      let* (r, i) := Next fuel i in
      if ff r then Ok (r, referenceFilteredIter ff i) else Next fuel (referenceFilteredIter ff i)
    end
  end.

(** A bound on the fuel of [Next] and on the number of elements left. *)
Fixpoint iterSize (iter : ReferenceIter) : nat :=
  match iter with
  | ReferenceSliceIter series pos => S (Z.to_nat (len series - pos))
  | MultiReferenceIter iters => S (sum_list (map (fun i => S (iterSize i)) iters))
  | referenceFilteredIter _ i => S (iterSize i)
  end.

(** [ForEach], for a callback that changes a state and may return an error;
    [ErrStop] ends the iteration without an error. *)
Fixpoint forEachReferenceIter {St} (fuel : nat) (iter : ReferenceIter)
    (cb : St -> Reference -> St * option error) (st : St) : res (St * option error) :=
  match fuel with
  | O => NoFuel
  | S fuel =>
    match Next (S (iterSize iter)) iter with
    | Err EOF => Ok (st, None)
    | Err e => Ok (st, Some e)
    | Ok (obj, iter) =>
      match cb st obj with
      | (st, None) => forEachReferenceIter fuel iter cb st
      | (st, Some ErrStop) => Ok (st, None)
      | (st, Some e) => Ok (st, Some e)
      end
    | Panic => Panic
    | NoFuel => NoFuel
    end
  end.

Definition ForEach {St} (iter : ReferenceIter) (cb : St -> Reference -> St * option error) (st : St) :=
  forEachReferenceIter (S (iterSize iter)) iter cb st.

(** ** The interface [ReferenceStorer]

    A nil [*Reference] is [None]. *)
Class ReferenceStorer (S : Type) := {
  SetReference : S -> option Reference -> res S;
  CheckAndSetReference : S -> option Reference -> option Reference -> res S;
  Reference_ : S -> ReferenceName -> res Reference;
  IterReferences : S -> res ReferenceIter;
  RemoveReference : S -> ReferenceName -> res S;
  CountLooseRefs : S -> res Z }.

(** What an implementation promises: a map from names to references that its
    operations read and update.  Listing is a law of its own. *)
Class ReferenceStorerLaws (S : Type) `{ReferenceStorer S} := {
  refs_inv : S -> Prop;
  refs_view : S -> gmap ReferenceName Reference;
  refs_names s n r : refs_inv s -> refs_view s !! n = Some r -> rname r = n;
  refs_set s r : refs_inv s ->
    exists s', SetReference s (Some r) = Ok s' /\ refs_inv s' /\ refs_view s' = <[rname r := r]> (refs_view s);
  refs_get s n : refs_inv s ->
    Reference_ s n = match refs_view s !! n with Some r => Ok r | None => Err ErrReferenceNotFound end;
  refs_remove s n : refs_inv s ->
    exists s', RemoveReference s n = Ok s' /\ refs_inv s' /\ refs_view s' = delete n (refs_view s) }.

(** The references an iterator has left. *)
Fixpoint iterList (iter : ReferenceIter) : list Reference :=
  match iter with
  | ReferenceSliceIter series pos => drop (Z.to_nat pos) series
  | MultiReferenceIter iters => flat_map iterList iters
  | referenceFilteredIter ff i => List.filter ff (iterList i)
  end.

Fixpoint iterOk (iter : ReferenceIter) : Prop :=
  match iter with
  | ReferenceSliceIter series pos => 0 <= pos
  | MultiReferenceIter iters => foldr (fun i P => iterOk i /\ P) True iters
  | referenceFilteredIter ff i => iterOk i
  end.

Class ReferenceIterLaw (S : Type) `{ReferenceStorerLaws S} :=
  refs_iter s : refs_inv s -> exists it, IterReferences s = Ok it /\ iterOk it /\
    iterList it ≡ₚ map snd (map_to_list (refs_view s)).

(** ** [ResolveReference] *)
Definition MaxResolveRecursion : Z := 1024.

Fixpoint resolveReference (fuel : nat) {S} `{ReferenceStorer S} (s : S) (r : Reference) (recursion : Z) : res Reference :=
  match fuel with
  | O => NoFuel
  | Datatypes.S fuel =>
    if negb (bool_decide (rtype r = SymbolicReference)) then Ok r
    else if recursion >? MaxResolveRecursion then Err ErrMaxResolveRecursion
    else let* t := Reference_ s (rtarget r) in resolveReference fuel s t (recursion + 1)
  end.

Definition ResolveReference {S} `{ReferenceStorer S} (s : S) (n : ReferenceName) : res Reference :=
  let* r := Reference_ s n in resolveReference (Z.to_nat (MaxResolveRecursion + 2) + 1) s r 0.

(** ** Iterators deliver their list *)

Lemma Next_spec fuel : forall it, iterOk it -> (iterSize it < fuel)%nat ->
  match iterList it with
  | [] => Next fuel it = Err EOF
  | r :: rest => exists it', Next fuel it = Ok (r, it') /\ iterList it' = rest /\ iterOk it' /\ (iterSize it' < iterSize it)%nat
  end.
Proof.
  induction fuel as [|fuel IH]; intros it Hok Hf; [lia|].
  destruct it as [series pos|iters|ff i]; cbn [Next].
  - cbn [iterList iterOk] in *. rewrite Z.geb_leb. destruct (Z.leb_spec (len series) pos) as [Hl|Hl].
    + rewrite drop_ge by (unfold len in *; lia). done.
    + destruct (index_ok series pos) as (r & -> & Hr); [lia|]. rewrite (drop_S _ _ _ Hr). cbn [res_bind].
      eexists. split; [reflexivity|]. cbn [iterList iterOk iterSize].
      replace (Z.to_nat (pos + 1)) with (S (Z.to_nat pos)) by lia. split; [done|]. split; lia.
  - destruct iters as [|i rest]; cbn [iterList flat_map]; [done|]. cbn [iterOk foldr] in Hok. destruct Hok as [Hi Hrest].
    cbn [iterSize map sum_list sum_list_with] in Hf.
    pose proof (IH i Hi ltac:(cbn in Hf; lia)) as Hn. destruct (iterList i) as [|r l]; cbn [app].
    + rewrite Hn. specialize (IH (MultiReferenceIter rest) Hrest ltac:(cbn in *; lia)).
      cbn [iterList] in IH. fold (flat_map iterList rest) in IH.
      destruct (flat_map iterList rest) as [|r l]; [done|].
      destruct IH as (it' & E & Hl & Ho & Hs). exists it'. split; [done|]. split; [done|]. split; [done|]. cbn in *. lia.
    + destruct Hn as (i' & -> & Hl & Ho & Hs). eexists. split; [reflexivity|].
      cbn [iterList flat_map iterOk foldr]. rewrite Hl. split; [done|]. split; [done|]. cbn. lia.
  - cbn [iterList iterOk iterSize] in *. pose proof (IH i Hok ltac:(lia)) as Hn.
    destruct (iterList i) as [|r l]; cbn [List.filter]; [by rewrite Hn|].
    destruct Hn as (i' & -> & Hl & Ho & Hs). cbn [res_bind]. destruct (ff r).
    + eexists. split; [reflexivity|]. cbn [iterList iterOk iterSize]. rewrite Hl. split; [done|]. split; [done|]. lia.
    + specialize (IH (referenceFilteredIter ff i') Ho ltac:(cbn [iterSize]; lia)). cbn [iterList] in IH. rewrite Hl in IH.
      destruct (List.filter ff l) as [|r' l']; [done|].
      destruct IH as (it' & E & Hl' & Ho' & Hs'). exists it'. split; [done|]. split; [done|]. split; [done|]. cbn [iterSize] in Hs'. lia.
Qed.

(** [ForEach] with a callback that keeps an invariant [P], never returns an error
    and acts on the view [abs] of the state as [f], folds [f] over the list. *)
Lemma ForEach_inv {St A} (P : St -> Prop) (abs : St -> A) (f : A -> Reference -> A)
    (cb : St -> Reference -> St * option error) it st :
  (forall st r, P st -> exists st', cb st r = (st', None) /\ P st' /\ abs st' = f (abs st) r) ->
  iterOk it -> P st ->
  exists st', ForEach it cb st = Ok (st', None) /\ P st' /\ abs st' = foldl f (abs st) (iterList it).
Proof.
  intros Hcb. unfold ForEach. intros Hok HP. remember (S (iterSize it)) as fuel eqn:Hf.
  assert (iterSize it < fuel)%nat as Hlt by lia. clear Hf. revert it st Hok HP Hlt.
  induction fuel as [|fuel IH]; intros it st Hok HP Hlt; [lia|]. cbn [forEachReferenceIter].
  pose proof (Next_spec (S (iterSize it)) it Hok ltac:(lia)) as Hn.
  destruct (iterList it) as [|r l]; [rewrite Hn; by exists st|]. destruct Hn as (it' & -> & Hl & Ho & Hs).
  destruct (Hcb st r HP) as (st1 & -> & HP1 & Ha). cbn [foldl]. rewrite <- Ha, <- Hl. apply IH; done || lia.
Qed.

(** ** Resolution follows symbolic links *)

Definition isSymbolic (r : Reference) : bool := bool_decide (rtype r = SymbolicReference).

(** [hops view k r t]: following [k] symbolic references from [r] leads to [t]. *)
Inductive hops (view : gmap ReferenceName Reference) : nat -> Reference -> Reference -> Prop :=
  | hops_here r : hops view 0 r r
  | hops_next k r t u : isSymbolic r = true -> view !! rtarget r = Some t -> hops view k t u -> hops view (S k) r u.

(** What each outcome of a resolution that starts at [r] says, with [k] hops left. *)
Definition resolve_outcome (view : gmap ReferenceName Reference) (k : nat) (r : Reference) (o : res Reference) : Prop :=
  match o with
  | Ok t => exists j, (j <= k)%nat /\ hops view j r t /\ isSymbolic t = false
  | Err ErrMaxResolveRecursion => exists t, hops view k r t /\ isSymbolic t = true
  | Err ErrReferenceNotFound => exists j t, (j < k)%nat /\ hops view j r t /\ isSymbolic t = true /\ view !! rtarget t = None
  | _ => False
  end.

Section Resolve.
Context {S : Type} `{ReferenceStorerLaws S}.

Lemma resolveReference_outcome (s : S) k : forall fuel r,
  refs_inv s -> (k < fuel)%nat ->
  resolve_outcome (refs_view s) k r (resolveReference fuel s r (MaxResolveRecursion + 1 - Z.of_nat k)).
Proof.
  induction k as [|k IH]; intros fuel r Hi Hf; (destruct fuel as [|fuel]; [lia|]); cbn [resolveReference];
    fold (isSymbolic r); destruct (isSymbolic r) eqn:Es; cbn [negb].
  - unfold MaxResolveRecursion. destruct (Z.gtb_spec (1024 + 1 - Z.of_nat 0) 1024); [|lia].
    exists r. split; [constructor|done].
  - exists 0%nat. split; [lia|]. split; [constructor|done].
  - unfold MaxResolveRecursion. destruct (Z.gtb_spec (1024 + 1 - Z.of_nat (Datatypes.S k)) 1024); [lia|].
    rewrite refs_get by done. destruct (refs_view s !! rtarget r) as [t|] eqn:Et; cbn [res_bind].
    + replace (1024 + 1 - Z.of_nat (Datatypes.S k) + 1) with (MaxResolveRecursion + 1 - Z.of_nat k) by (unfold MaxResolveRecursion; lia).
      specialize (IH fuel t Hi ltac:(lia)). destruct (resolveReference _ _ _ _) as [u|e| |]; cbn [resolve_outcome] in *; try done.
      * destruct IH as (j & Hj & Hh & Hn). exists (Datatypes.S j). split; [lia|]. split; [by econstructor|done].
      * destruct e; try done.
        -- destruct IH as (u & Hh & Hn). exists u. split; [by econstructor|done].
        -- destruct IH as (j & u & Hj & Hh & Hn). exists (Datatypes.S j), u. split; [lia|]. split; [by econstructor|done].
    + exists 0%nat, r. split; [lia|]. split; [constructor|]. split; [done|]. exact Et.
  - exists 0%nat. split; [lia|]. split; [constructor|done].
Qed.

Lemma hops_end view i r t : hops view i r t -> isSymbolic t = false ->
  forall j u, hops view j r u -> isSymbolic u = false -> u = t.
Proof.
  induction 1 as [r|i r w t Hs Hw Ht IH]; intros Hn j u Hu Hu'.
  - by destruct Hu as [|j r w u Hs _ _]; [|congruence].
  - destruct Hu as [r|j r w' u Hs' Hw' Hu]; [congruence|]. assert (w' = w) as -> by congruence. by apply (IH Hn j).
Qed.

Lemma hops_stuck view i r t : hops view i r t -> isSymbolic t = false ->
  forall j u, hops view j r u -> isSymbolic u = true -> (j < i)%nat /\ is_Some (view !! rtarget u).
Proof.
  induction 1 as [r|i r w t Hs Hw Ht IH]; intros Hn j u Hu Hu'.
  - destruct Hu as [|j r w u Hs _ _]; congruence.
  - destruct Hu as [r|j r w' u Hs' Hw' Hu]; [split; [lia|by eexists]|]. assert (w' = w) as -> by congruence.
    destruct (IH Hn j u Hu Hu'). split; [lia|done].
Qed.

(** [ResolveReference] over any lawful storage terminates and follows symbolic
    references exactly: a result is a reference that is not symbolic, reached in at most
    1025 hops; "not found" means a link on the way is dangling;
    [ErrMaxResolveRecursion] means the link reached after 1025 hops is still
    symbolic. Conversely a chain of at most 1025 hops that ends is resolved to
    its end, so only longer chains and cycles are refused. *)
Theorem ResolveReference_spec (s : S) n :
  refs_inv s ->
  match refs_view s !! n with
  | None => ResolveReference s n = Err ErrReferenceNotFound
  | Some r => resolve_outcome (refs_view s) 1025 r (ResolveReference s n) /\
      forall k t, (k <= 1025)%nat -> hops (refs_view s) k r t -> isSymbolic t = false -> ResolveReference s n = Ok t
  end.
Proof.
  intros Hi. unfold ResolveReference. rewrite refs_get by done.
  destruct (refs_view s !! n) as [r|]; cbn [res_bind]; [|done].
  pose proof (resolveReference_outcome s 1025 (Z.to_nat (MaxResolveRecursion + 2) + 1) r Hi) as Ho.
  change (MaxResolveRecursion + 1 - Z.of_nat 1025) with 0 in Ho. specialize (Ho ltac:(unfold MaxResolveRecursion; lia)).
  split; [exact Ho|]. intros k t Hk Hh Hn.
  destruct (resolveReference _ _ _ _) as [u|e| |]; cbn [resolve_outcome] in Ho; try done.
  - destruct Ho as (j & _ & Hu & Hun). f_equal. by apply (hops_end _ k r t Hh Hn j).
  - destruct e; try done.
    + destruct Ho as (u & Hu & Hus). destruct (hops_stuck _ _ _ _ Hh Hn _ _ Hu Hus) as [? _]. lia.
    + destruct Ho as (j & u & _ & Hu & Hus & Hnone). destruct (hops_stuck _ _ _ _ Hh Hn _ _ Hu Hus) as [_ [x Hx]]. congruence.
Qed.
End Resolve.
