(* ===== verification/Memory.v ===== *)
(** * storage/memory/storage.go and plumbing/object.go

    The storage backend in memory.  A Go map is a [gmap]; where the code ranges
    over a map, the order is that of [map_to_list], or an argument when the
    outcome depends on it. *)
From S2P Require Import Prelude GoStrings ObjectID Reference Storer.

(** ** Object types (plumbing/object.go); an [int8] *)
Abbreviation ObjectType := Z (only parsing).
Definition InvalidObject : ObjectType := 0.
Definition CommitObject : ObjectType := 1.
Definition TreeObject : ObjectType := 2.
Definition BlobObject : ObjectType := 3.
Definition TagObject : ObjectType := 4.
Definition OFSDeltaObject : ObjectType := 6.
Definition REFDeltaObject : ObjectType := 7.
Definition AnyObject : ObjectType := -127.

Definition ObjectType_String (t : ObjectType) : bytes :=
  if t =? CommitObject then bs "commit" else if t =? TreeObject then bs "tree"
  else if t =? BlobObject then bs "blob" else if t =? TagObject then bs "tag"
  else if t =? OFSDeltaObject then bs "ofs-delta" else if t =? REFDeltaObject then bs "ref-delta"
  else if t =? AnyObject then bs "any" else bs "unknown".

Definition ObjectType_Valid (t : ObjectType) : bool := (t >=? CommitObject) && (t <=? REFDeltaObject).
Definition IsDelta (t : ObjectType) : bool := (t =? REFDeltaObject) || (t =? OFSDeltaObject).

Definition ParseObjectType (value : bytes) : res ObjectType :=
  if bool_decide (value = bs "commit") then Ok CommitObject
  else if bool_decide (value = bs "tree") then Ok TreeObject
  else if bool_decide (value = bs "blob") then Ok BlobObject
  else if bool_decide (value = bs "tag") then Ok TagObject
  else if bool_decide (value = bs "ofs-delta") then Ok OFSDeltaObject
  else if bool_decide (value = bs "ref-delta") then Ok REFDeltaObject
  else Err ErrInvalidType.

(** ** Objects *)
Section Objects.
(** The [EncodedObject] interface: hash, type and size of an object. *)
Context {Obj : Type} (objHash : Obj -> ObjectID) (objType : Obj -> ObjectType) (objSize : Obj -> Z).

Abbreviation objmap := (gmap ObjectID Obj).

Record ObjectStorage := mkObjectStorage {
  Objects : objmap; Commits : objmap; Trees : objmap; Blobs : objmap; Tags : objmap }.

Definition NewObjectStorage : ObjectStorage := mkObjectStorage ∅ ∅ ∅ ∅ ∅.

Definition SetEncodedObject (o : ObjectStorage) (obj : Obj) : ObjectID * option error * ObjectStorage :=
  let h := objHash obj in
  let '(mkObjectStorage objects commits trees blobs tags) := o in
  let objects := <[h := obj]> objects in
  if objType obj =? CommitObject then (h, None, mkObjectStorage objects (<[h := obj]> commits) trees blobs tags)
  else if objType obj =? TreeObject then (h, None, mkObjectStorage objects commits (<[h := obj]> trees) blobs tags)
  else if objType obj =? BlobObject then (h, None, mkObjectStorage objects commits trees (<[h := obj]> blobs) tags)
  else if objType obj =? TagObject then (h, None, mkObjectStorage objects commits trees blobs (<[h := obj]> tags))
  else (h, Some ErrUnsupportedObjectType, mkObjectStorage objects commits trees blobs tags).

Definition HasEncodedObject (o : ObjectStorage) (h : ObjectID) : option error :=
  match Objects o !! h with Some _ => None | None => Some ErrObjectNotFound end.

Definition EncodedObjectSize (o : ObjectStorage) (h : ObjectID) : res Z :=
  match Objects o !! h with Some obj => Ok (objSize obj) | None => Err ErrObjectNotFound end.

(** The lookup of [EncodedObject], in a storage or a transaction. *)
Definition lookupObject (m : objmap) (t : ObjectType) (h : ObjectID) : res Obj :=
  match m !! h with
  | None => Err ErrObjectNotFound
  | Some obj => if negb (AnyObject =? t) && negb (objType obj =? t) then Err ErrObjectNotFound else Ok obj
  end.

Definition EncodedObject (o : ObjectStorage) (t : ObjectType) (h : ObjectID) : res Obj :=
  lookupObject (Objects o) t h.

Definition flattenObjectMap (m : objmap) : list Obj := map snd (map_to_list m).

(** The objects [IterEncodedObjects] iterates over. *)
Definition IterEncodedObjects (o : ObjectStorage) (t : ObjectType) : list Obj :=
  if t =? AnyObject then flattenObjectMap (Objects o)
  else if t =? CommitObject then flattenObjectMap (Commits o)
  else if t =? TreeObject then flattenObjectMap (Trees o)
  else if t =? BlobObject then flattenObjectMap (Blobs o)
  else if t =? TagObject then flattenObjectMap (Tags o)
  else [].

(** *** Transactions: the objects set so far *)
Record TxObjectStorage := mkTx { txStorage : ObjectStorage; txObjects : objmap }.

Definition Begin (o : ObjectStorage) : TxObjectStorage := mkTx o ∅.

Definition Tx_SetEncodedObject (tx : TxObjectStorage) (obj : Obj) : ObjectID * TxObjectStorage :=
  (objHash obj, mkTx (txStorage tx) (<[objHash obj := obj]> (txObjects tx))).

Definition Tx_EncodedObject (tx : TxObjectStorage) (t : ObjectType) (h : ObjectID) : res Obj :=
  lookupObject (txObjects tx) t h.

(** The loop of [Commit] over the objects in the order [ord]. *)
Fixpoint Commit_loop (tx : TxObjectStorage) (ord : list (ObjectID * Obj)) : option error * TxObjectStorage :=
  match ord with
  | [] => (None, tx)
  | (h, obj) :: ord =>
    let objects := delete h (txObjects tx) in
    let '(_, err, st) := SetEncodedObject (txStorage tx) obj in
    match err with
    | Some e => (Some e, mkTx st objects)
    | None => Commit_loop (mkTx st objects) ord
    end
  end.

Definition Rollback (tx : TxObjectStorage) : TxObjectStorage := mkTx (txStorage tx) ∅.
End Objects.

(** ** References: a map by name *)
Abbreviation refmap := (gmap ReferenceName Reference).

Definition mem_SetReference (r : refmap) (ref : option Reference) : res refmap :=
  match ref with Some ref => Ok (<[rname ref := ref]> r) | None => Ok r end.

Definition mem_CheckAndSetReference (r : refmap) (ref old : option Reference) : res refmap :=
  match ref with
  | None => Ok r
  | Some ref =>
    let changed := match old with
                   | None => false
                   | Some old => match r !! rname ref with
                                 | Some tmp => negb (bool_decide (rhash tmp = rhash old))
                                 | None => false
                                 end
                   end in
    if changed then Err ErrReferenceHasChanged else Ok (<[rname ref := ref]> r)
  end.

Definition mem_Reference (r : refmap) (n : ReferenceName) : res Reference :=
  match r !! n with Some ref => Ok ref | None => Err ErrReferenceNotFound end.

Definition mem_IterReferences (r : refmap) : res ReferenceIter :=
  Ok (NewReferenceSliceIter (map snd (map_to_list r))).

Definition mem_CountLooseRefs (r : refmap) : res Z := Ok (Z.of_nat (size r)).
Definition mem_RemoveReference (r : refmap) (n : ReferenceName) : res refmap := Ok (delete n r).

#[global] Instance memory_ReferenceStorer : ReferenceStorer refmap := {
  SetReference := mem_SetReference; CheckAndSetReference := mem_CheckAndSetReference;
  Reference_ := mem_Reference; IterReferences := mem_IterReferences;
  RemoveReference := mem_RemoveReference; CountLooseRefs := mem_CountLooseRefs }.

(** ** Index, shallow commits and configuration *)
Section Single.
Context {A : Type} (Validate : A -> option error) (New : A).

(** [IndexStorage] and [ConfigStorage]: one value, created at the first read;
    only a valid configuration is stored. *)
Definition SetIndex (c : option A) (idx : A) : option A := Some idx.
Definition Index (c : option A) : A * option A :=
  match c with Some v => (v, c) | None => (New, Some New) end.

Definition SetConfig (c : option A) (cfg : A) : option error * option A :=
  match Validate cfg with Some e => (Some e, c) | None => (None, Some cfg) end.
Definition Config (c : option A) : A * option A :=
  match c with Some v => (v, c) | None => (New, Some New) end.
End Single.

Definition SetShallow (s commits : list ObjectID) : list ObjectID := commits.
Definition Shallow (s : list ObjectID) : list ObjectID := s.

(** ** The reference storage is lawful *)

Definition names_ok (r : refmap) : Prop := map_Forall (fun n ref => rname ref = n) r.

Lemma names_ok_insert r ref : names_ok r -> names_ok (<[rname ref := ref]> r).
Proof. intros H. by apply map_Forall_insert_2. Qed.

Lemma names_ok_delete r n : names_ok r -> names_ok (delete n r).
Proof. apply map_Forall_delete. Qed.

#[global] Program Instance memory_laws : ReferenceStorerLaws refmap := {
  refs_inv := names_ok; refs_view := fun r => r }.
Next Obligation. intros s n r H Hl. by apply (H n r). Qed.
Next Obligation. intros s r H. eexists. split; [reflexivity|]. split; [by apply names_ok_insert|done]. Qed.
Next Obligation. done. Qed.
Next Obligation. intros s n H. eexists. split; [reflexivity|]. split; [by apply names_ok_delete|done]. Qed.

#[global] Instance memory_iter_law : ReferenceIterLaw refmap.
Proof. intros s H. eexists. split; [reflexivity|]. split; [cbn; lia|]. cbn [iterList NewReferenceSliceIter]. by rewrite drop_0. Qed.

(** ** Objects *)
Section ObjectProofs.
Context {Obj : Type} (objHash : Obj -> ObjectID) (objType : Obj -> ObjectType).
Abbreviation ObjectStorage := (@ObjectStorage Obj).
Abbreviation set := (SetEncodedObject objHash objType).
Implicit Types (o : ObjectStorage) (obj : Obj).

(** The types a storage takes. *)
Definition supported obj : bool := (1 <=? objType obj) && (objType obj <=? 4).

Definition ofType (t : ObjectType) (m : gmap ObjectID Obj) : gmap ObjectID Obj :=
  filter (fun p => objType p.2 = t) m.

(** Objects are under their hash, and the map of a type is the part of all
    objects that have it. *)
Record storage_ok o : Prop := {
  so_hash : map_Forall (fun h obj => objHash obj = h) (Objects o);
  so_commits : Commits o = ofType CommitObject (Objects o);
  so_trees : Trees o = ofType TreeObject (Objects o);
  so_blobs : Blobs o = ofType BlobObject (Objects o);
  so_tags : Tags o = ofType TagObject (Objects o) }.

(** The hash of an object covers its type. *)
Definition hash_covers_type : Prop := forall a b, objHash a = objHash b -> objType a = objType b.

Lemma ofType_insert t m obj :
  hash_covers_type -> map_Forall (fun h obj => objHash obj = h) m ->
  ofType t (<[objHash obj := obj]> m) = if objType obj =? t then <[objHash obj := obj]> (ofType t m) else ofType t m.
Proof.
  intros Hc Hm. unfold ofType. destruct (Z.eqb_spec (objType obj) t) as [E|E].
  - by rewrite map_filter_insert_True.
  - rewrite map_filter_insert_not'; [done|done|]. intros old Ho Ht. cbn in Ht.
    apply E. rewrite <- Ht. apply Hc. by rewrite (Hm _ _ Ho).
Qed.

Lemma set_spec o obj :
  snd (fst (set o obj)) = (if supported obj then None else Some ErrUnsupportedObjectType) /\
  Objects (snd (set o obj)) = <[objHash obj := obj]> (Objects o).
Proof.
  unfold SetEncodedObject, supported, CommitObject, TreeObject, BlobObject, TagObject. destruct o as [objects c t b g].
  destruct (Z.leb_spec 1 (objType obj)), (Z.leb_spec (objType obj) 4),
    (Z.eqb_spec (objType obj) 1), (Z.eqb_spec (objType obj) 2), (Z.eqb_spec (objType obj) 3), (Z.eqb_spec (objType obj) 4);
    cbn; split; reflexivity || lia.
Qed.

Lemma set_ok o obj : hash_covers_type -> storage_ok o -> storage_ok (snd (set o obj)).
Proof.
  intros Hc [Hh H1 H2 H3 H4]. destruct (set_spec o obj) as [_ Ho].
  assert (map_Forall (fun h obj => objHash obj = h) (Objects (snd (set o obj)))) as Hh'.
  { rewrite Ho. by apply map_Forall_insert_2. }
  constructor; [exact Hh'|..]; rewrite Ho, ofType_insert by done.
  all: unfold SetEncodedObject, CommitObject, TreeObject, BlobObject, TagObject in *; destruct o as [objects c t b g];
    cbn [Objects Commits Trees Blobs Tags] in *;
    destruct (Z.eqb_spec (objType obj) 1), (Z.eqb_spec (objType obj) 2), (Z.eqb_spec (objType obj) 3), (Z.eqb_spec (objType obj) 4);
    cbn [snd Commits Trees Blobs Tags]; congruence || (exfalso; lia).
Qed.

Definition storeAll o (objs : list Obj) : ObjectStorage := foldl (fun o obj => snd (set o obj)) o objs.

Lemma NewObjectStorage_ok : storage_ok NewObjectStorage.
Proof. by constructor. Qed.

Lemma storeAll_ok o objs : hash_covers_type -> storage_ok o -> storage_ok (storeAll o objs).
Proof.
  intros Hc. revert o. induction objs as [|obj objs IH]; intros o Ho; [done|].
  apply IH, set_ok; done.
Qed.

Lemma storeAll_Objects o objs h :
  match Objects (storeAll o objs) !! h with
  | Some obj => obj ∈ objs /\ objHash obj = h \/ Objects o !! h = Some obj
  | None => Objects o !! h = None /\ forall obj, obj ∈ objs -> objHash obj <> h
  end.
Proof.
  revert o. induction objs as [|x objs IH]; intros o.
  - cbn. destruct (Objects o !! h); [by right|]. split; [done|]. intros obj Ho. by apply not_elem_of_nil in Ho.
  - specialize (IH (snd (set o x))). destruct (set_spec o x) as [_ E]. cbn [storeAll foldl].
    fold (storeAll (snd (set o x)) objs). destruct (Objects (storeAll (snd (set o x)) objs) !! h) as [obj|].
    + destruct IH as [[Hin Hh]|IH]; [left; split; [by right|done]|]. rewrite E in IH.
      destruct (decide (objHash x = h)) as [Hx|Hx].
      * rewrite <- Hx, lookup_insert_eq in IH. injection IH as <-. left. split; [left|done].
      * rewrite lookup_insert_ne in IH by done. by right.
    + destruct IH as [IH Hall]. rewrite E in IH. apply lookup_insert_None in IH as [Hn Hx]. split; [done|].
      intros obj [->|Hin]%elem_of_cons; [done|]. by apply Hall.
Qed.

Lemma IterEncodedObjects_in o t obj :
  storage_ok o -> t ∈ [AnyObject; CommitObject; TreeObject; BlobObject; TagObject] ->
  (obj ∈ IterEncodedObjects o t <-> EncodedObject objType o t (objHash obj) = Ok obj).
Proof.
  intros [Hh H1 H2 H3 H4] Ht.
  assert (forall m, obj ∈ flattenObjectMap m <-> exists h, m !! h = Some obj) as Hflat.
  { intros m. unfold flattenObjectMap. rewrite list_elem_of_fmap. split.
    - intros ([h x] & -> & Hin). exists h. by apply elem_of_map_to_list in Hin.
    - intros [h E]. exists (h, obj). split; [done|]. by apply elem_of_map_to_list. }
  unfold EncodedObject, lookupObject.
  assert (forall h, Objects o !! h = Some obj <-> h = objHash obj /\ Objects o !! objHash obj = Some obj) as Hkey.
  { intros h. split; [|by intros [-> ?]]. intros E. pose proof (Hh _ _ E) as E'. cbn in E'. by subst h. }
  assert (forall t', (exists h, ofType t' (Objects o) !! h = Some obj) <-> objType obj = t' /\ Objects o !! objHash obj = Some obj) as Hof.
  { intros t'. unfold ofType. setoid_rewrite map_lookup_filter_Some. cbn [snd]. split.
    - intros (h & E & Et). apply Hkey in E as [-> E]. done.
    - intros [Et E]. by exists (objHash obj). }
  repeat (apply elem_of_cons in Ht as [-> |Ht]); [| | | | |by apply not_elem_of_nil in Ht];
    unfold IterEncodedObjects; cbn [Z.eqb]; cbn; rewrite Hflat, ?H1, ?H2, ?H3, ?H4, ?Hof.
  1: { split.
       - intros [h E]. apply Hkey in E as [-> ->]. done.
       - intros E. destruct (Objects o !! objHash obj) as [x|] eqn:Eo; [|done]. exists (objHash obj). congruence. }
  all: destruct (Objects o !! objHash obj) as [x|]; [|split; [by intros [_ ?]|done]];
    split; [intros [Et [= ->]]; by rewrite Et|].
  all: match goal with |- context [objType ?y =? ?t] => destruct (Z.eqb_spec (objType y) t) as [Et|] end;
    cbn [negb]; [intros [= ->]; done|discriminate].
Qed.
End ObjectProofs.

Section ObjectProperties.
Context {Obj : Type} (objHash : Obj -> ObjectID) (objType : Obj -> ObjectType).

(** The object storage in memory is a lookup by hash and type. After any
    sequence of objects is set, [EncodedObject] of a type and a hash returns an
    object that was set, with that hash and, unless [AnyObject] is asked for,
    that type, and reports "not found" only when there is none; and
    [IterEncodedObjects] of a type iterates over exactly the objects that
    [EncodedObject] finds, so the five maps agree. *)
Theorem memory_objects_spec objs t h :
  hash_covers_type objHash objType ->
  let o := storeAll objHash objType NewObjectStorage objs in
  match EncodedObject objType o t h with
  | Ok obj => obj ∈ objs /\ objHash obj = h /\ (t = AnyObject \/ objType obj = t)
  | Err e => e = ErrObjectNotFound /\
      forall obj, obj ∈ objs -> objHash obj = h -> t <> AnyObject /\ objType obj <> t
  | _ => False
  end /\
  (t ∈ [AnyObject; CommitObject; TreeObject; BlobObject; TagObject] ->
   forall obj, obj ∈ IterEncodedObjects o t <-> EncodedObject objType o t (objHash obj) = Ok obj).
Proof.
  intros Hc. cbv zeta. pose proof (storeAll_ok objHash objType NewObjectStorage objs Hc (NewObjectStorage_ok objHash objType)) as Hok.
  split; [|intros Ht obj; by apply IterEncodedObjects_in].
  pose proof (storeAll_Objects objHash objType NewObjectStorage objs h) as Ho.
  unfold EncodedObject, lookupObject. destruct (Objects _ !! h) as [x|].
  - destruct Ho as [[Hin Hh]|Ho]; [|cbn in Ho; by rewrite lookup_empty in Ho].
    destruct (Z.eqb_spec AnyObject t) as [E|E]; cbn [negb andb]; [split_and!; auto|].
    destruct (Z.eqb_spec (objType x) t) as [E'|E']; cbn [negb]; [split_and!; auto|]. split; [done|].
    intros obj Hin' Hh'. split; [congruence|]. rewrite (Hc obj x); congruence.
  - destruct Ho as [_ Hall]. split; [done|]. intros obj Hin Hh. by apply Hall in Hin.
Qed.

Lemma Commit_loop_ok ord : forall tx,
  Forall (fun p => objHash p.2 = p.1 /\ supported objType p.2 = true) ord -> NoDup (map fst ord) ->
  exists st, Commit_loop objHash objType tx ord = (None, mkTx st (foldr (fun p m => delete p.1 m) (txObjects tx) ord)) /\
    Objects st = list_to_map ord ∪ Objects (txStorage tx).
Proof.
  induction ord as [|[h obj] ord IH]; intros tx Hall Hnd; cbn [Commit_loop foldr].
  - exists (txStorage tx). destruct tx. cbn. split; [done|]. by rewrite map_empty_union.
  - apply Forall_cons in Hall as [[Hh Hs] Hall]. cbn [fst snd map] in *. apply NoDup_cons in Hnd as [Hn Hnd].
    destruct (set_spec objHash objType (txStorage tx) obj) as [He Ho]. rewrite Hs in He.
    destruct (SetEncodedObject objHash objType (txStorage tx) obj) as [[h' err] st]. cbn [fst snd] in *. subst err.
    destruct (IH (mkTx st (delete h (txObjects tx))) Hall Hnd) as (st' & -> & Ho'). exists st'. cbn [txObjects txStorage] in *.
    split.
    + do 2 f_equal. clear. revert h. induction ord as [|p ord IH]; intros h; [done|]. cbn. rewrite IH. apply delete_delete.
    + rewrite Ho', Ho, Hh. cbn. rewrite <- insert_union_l, <- insert_union_r; [done|].
      apply not_elem_of_list_to_map_1. done.
Qed.

(** Committing a transaction of supported objects adds exactly its objects, whatever
    the order in which the runtime iterates over them: the storage then has
    every object of the transaction and, elsewhere, what it had; the
    transaction is empty. *)
Theorem tx_commit_adds_objects tx ord :
  map_Forall (fun h obj => objHash obj = h /\ supported objType obj = true) (txObjects tx) ->
  ord ≡ₚ map_to_list (txObjects tx) ->
  exists tx', Commit_loop objHash objType tx ord = (None, tx') /\ txObjects tx' = ∅ /\
    Objects (txStorage tx') = txObjects tx ∪ Objects (txStorage tx).
Proof.
  intros Hall Hord.
  assert (NoDup (map fst ord)) as Hnd. { rewrite Hord. apply NoDup_fst_map_to_list. }
  assert (list_to_map ord = txObjects tx) as Hmap.
  { rewrite (list_to_map_proper _ _ Hnd Hord). apply list_to_map_to_list. }
  destruct (Commit_loop_ok ord tx) as (st & E & Ho); [|done|].
  - apply Forall_forall. intros [h obj] Hin. rewrite Hord in Hin. apply elem_of_map_to_list in Hin. by apply (Hall h obj).
  - exists (mkTx st (foldr (fun p m => delete p.1 m) (txObjects tx) ord)). split; [done|]. cbn. rewrite Hmap in Ho. split; [|done].
    apply map_empty. intros h. destruct (txObjects tx !! h) as [obj|] eqn:Eh.
    + assert ((h, obj) ∈ ord) as Hin by (rewrite Hord; by apply elem_of_map_to_list).
      clear - Hin. induction ord as [|p ord IH]; [by apply not_elem_of_nil in Hin|]. cbn.
      apply elem_of_cons in Hin as [<-|Hin]; [by rewrite lookup_delete_eq|].
      destruct (decide (p.1 = h)) as [->|]; [by rewrite lookup_delete_eq|rewrite lookup_delete_ne by done; auto].
    + clear - Eh. induction ord as [|p ord IH]; [done|]. cbn.
      destruct (decide (p.1 = h)) as [->|]; [by rewrite lookup_delete_eq|rewrite lookup_delete_ne by done; auto].
Qed.
End ObjectProperties.

(** The objects of the witnesses: an identifier whose first byte is the type. *)
Definition demoType (o : ObjectID) : ObjectType := match hash o with b :: _ => b2z b | [] => 0 end.
Definition demoObject (t : byte) : ObjectID := mkObjectID (t :: replicate 31 x07) SHA256.

Lemma memory_objects_spec_witness :
  let o := storeAll id demoType NewObjectStorage [demoObject x01; demoObject x03] in
  match EncodedObject demoType o BlobObject (demoObject x03) with
  | Ok obj => obj ∈ [demoObject x01; demoObject x03] /\ id obj = demoObject x03 /\ (BlobObject = AnyObject \/ demoType obj = BlobObject)
  | Err e => e = ErrObjectNotFound /\
      forall obj, obj ∈ [demoObject x01; demoObject x03] -> id obj = demoObject x03 -> BlobObject <> AnyObject /\ demoType obj <> BlobObject
  | _ => False
  end /\
  (BlobObject ∈ [AnyObject; CommitObject; TreeObject; BlobObject; TagObject] ->
   forall obj, obj ∈ IterEncodedObjects o BlobObject <-> EncodedObject demoType o BlobObject (id obj) = Ok obj).
Proof.
  apply (memory_objects_spec id demoType [demoObject x01; demoObject x03] BlobObject (demoObject x03)).
  intros a b. unfold id. congruence.
Defined.

Lemma tx_commit_adds_objects_witness :
  let tx := snd (Tx_SetEncodedObject id (Begin NewObjectStorage) (demoObject x01)) in
  exists tx', Commit_loop id demoType tx [(demoObject x01, demoObject x01)] = (None, tx') /\ txObjects tx' = ∅ /\
    Objects (txStorage tx') = txObjects tx ∪ Objects (txStorage tx).
Proof.
  apply (tx_commit_adds_objects id demoType).
  - intros h obj. cbn. intros [[<- <-]|[_ E]]%lookup_insert_Some; [done|by rewrite lookup_empty in E].
  - cbn. rewrite insert_empty, map_to_list_singleton. done.
Defined.

(** [ErrUnsupportedObjectType] comes too late: the storage keeps the object it
    refuses, and a transaction that meets one is committed in part. *)
Theorem unsupported_object_is_stored :
  let bad := demoObject x06 in
  let '(_, err, st) := SetEncodedObject id demoType NewObjectStorage bad in
  err = Some ErrUnsupportedObjectType /\ EncodedObject demoType st AnyObject bad = Ok bad /\
  let tx := mkTx NewObjectStorage {[ demoObject x01 := demoObject x01; bad := bad; demoObject x03 := demoObject x03 ]} in
  let '(err, tx') := Commit_loop id demoType tx
    [(demoObject x01, demoObject x01); (bad, bad); (demoObject x03, demoObject x03)] in
  err = Some ErrUnsupportedObjectType /\
  EncodedObject demoType (txStorage tx') AnyObject (demoObject x01) = Ok (demoObject x01) /\
  EncodedObject demoType (txStorage tx') AnyObject bad = Ok bad /\
  EncodedObject demoType (txStorage tx') AnyObject (demoObject x03) = Err ErrObjectNotFound.
Proof. vm_compute. split_and!; reflexivity. Qed.

(** [ResolveReference] at a storage with HEAD, a symbolic reference to a branch. *)
Definition demoRefs : refmap :=
  <[HEAD := NewSymbolicReference HEAD Master]> {[ Master := NewHashReference Master ZeroHash ]}.

Lemma ResolveReference_spec_witness :
  match refs_view demoRefs !! HEAD with
  | None => ResolveReference demoRefs HEAD = Err ErrReferenceNotFound
  | Some r => resolve_outcome (refs_view demoRefs) 1025 r (ResolveReference demoRefs HEAD) /\
      forall k t, (k <= 1025)%nat -> hops (refs_view demoRefs) k r t -> isSymbolic t = false -> ResolveReference demoRefs HEAD = Ok t
  end.
Proof.
  apply (ResolveReference_spec demoRefs HEAD).
  intros n r H. unfold demoRefs in H. apply lookup_insert_Some in H as [[<- <-]|[_ [<- <-]%lookup_singleton_Some]]; reflexivity.
Defined.
