(* ===== verification/Objects.v ===== *)
(** * plumbing/object: signatures, commits and tags

    Model of object.go ([Signature]), commit.go, tag.go and signature.go: the text
    of commits and tags and how it is read back.  An encoded object is its type,
    its hash and its content; readers and writers of it do not fail. *)
From S2P Require Import Prelude GoStrings Strconv ObjectID Memory.

(** What the interface [plumbing.EncodedObject] gives of an object. *)
Record EncodedObj := mkEncoded { oType : ObjectType; oHash : ObjectID; oContent : bytes }.

(** ** Times (Go's [time.Time]): seconds and nanoseconds since 1970, and the offset
    of the zone in seconds *)
Record Time := mkTime { tSec : Z; tNsec : Z; tZone : Z }.

(** The zero value: the first of January of year 1. *)
Definition zeroTime : Time := mkTime (-62135596800) 0 0.

Definition time_Before (t u : Time) : bool := (tSec t <? tSec u) || (tSec t =? tSec u) && (tNsec t <? tNsec u).
Definition time_After (t u : Time) : bool := time_Before u t.
Definition time_Equal (t u : Time) : bool := (tSec t =? tSec u) && (tNsec t =? tNsec u).

(** [Format("-0700")] *)
Definition formatZone (zone : Z) : bytes :=
  let m := Z.quot zone 60 in
  let a := Z.abs m in
  (if m <? 0 then x2d else x2b) :: padZeros 2 (digits 10 (Z.quot a 60)) ++ padZeros 2 (digits 10 (Z.rem a 60)).

(** ** object.go: signatures *)
Record Signature := mkSignature { sName : bytes; sEmail : bytes; sWhen : Time }.

Definition zeroSignature : Signature := mkSignature [] [] zeroTime.

Definition timeZoneLength : Z := 5.

Definition decodeTimeAndTimeZone (s : Signature) (b : bytes) : res Signature :=
  let space := let i := IndexByte b x20 in if i =? -1 then len b else i in
  let* digs := slice b 0 space in
  match ParseInt digs 10 64 with
  | Err _ => Ok s
  | Ok ts =>
    let s := mkSignature (sName s) (sEmail s) (mkTime ts 0 0) in
    let tzStart := space + 1 in
    if (tzStart >=? len b) || (tzStart + timeZoneLength >? len b) then Ok s
    else
      let* timezone := slice b tzStart (tzStart + timeZoneLength) in
      let* h := slice timezone 0 3 in
      let* m := slice timezone 3 (len timezone) in
      match ParseInt h 10 64, ParseInt m 10 64 with
      | Ok tzhours, Ok tzmins =>
        let tzmins := if tzhours <? 0 then tzmins * -1 else tzmins in
        Ok (mkSignature (sName s) (sEmail s) (mkTime ts 0 (tzhours * 60 * 60 + tzmins * 60)))
      | _, _ => Ok s
      end
  | Panic => Panic
  | NoFuel => NoFuel
  end.

(** [Signature.Decode] *)
Definition Signature_Decode (s : Signature) (b : bytes) : res Signature :=
  let open := LastIndexByte b x3c in
  let close := LastIndexByte b x3e in
  if (open =? -1) || (close =? -1) then Ok s
  else if close <? open then Ok s
  else
    let* name := slice b 0 open in
    let* email := slice b (open + 1) close in
    let s := mkSignature (Trim name x20) email (sWhen s) in
    if close + 2 <? len b then
      let* t := slice b (close + 2) (len b) in decodeTimeAndTimeZone s t
    else Ok s.

Definition encodeTimeAndTimeZone (s : Signature) : bytes :=
  let u := if tSec (sWhen s) <? 0 then 0 else tSec (sWhen s) in
  FormatInt u ++ [x20] ++ formatZone (tZone (sWhen s)).

(** [Signature.Encode]: what is written. *)
Definition Signature_Encode (s : Signature) : bytes :=
  sName s ++ bs " <" ++ sEmail s ++ bs "> " ++ encodeTimeAndTimeZone s.

Definition Signature_String (s : Signature) : bytes := sName s ++ bs " <" ++ sEmail s ++ bs ">".

(** ** commit.go *)
Record ExtraHeader := mkExtra { xKey : bytes; xValue : bytes }.

Record Commit := mkCommit {
  cHash : ObjectID; cAuthor : Signature; cCommitter : Signature; cMergeTag : bytes; cPGPSignature : bytes;
  cMessage : bytes; cTreeHash : ObjectID; cParentHashes : list ObjectID; cEncoding : bytes;
  cExtraHeaders : list ExtraHeader }.

(** The value [&Commit{}] *)
Definition newCommit : Commit := mkCommit ZeroHash zeroSignature zeroSignature [] [] [] ZeroHash [] [] [].

Definition headerpgp : bytes := bs "gpgsig".
Definition headerencoding : bytes := bs "encoding".
Definition headermergetag : bytes := bs "mergetag".
Definition defaultUtf8CommitMessageEncoding : bytes := bs "UTF-8".

(** The lines of a multi-line header: without its last newline, and with a space
    after every other one. *)
Definition continued (v : bytes) : bytes := Join (Split (TrimSuffix v [x0a]) x0a) [x0a; x20].

(** [ExtraHeader.Format] with the verb [%s] *)
Definition ExtraHeader_Format (h : ExtraHeader) : bytes :=
  xKey h ++ (if len (xValue h) >? 0 then [x20] ++ continued (xValue h) else []).

Definition parseExtraHeader (line : bytes) : ExtraHeader * bool :=
  let '(k, v) := SplitN2 line x20 in
  match v with
  | Some v => (mkExtra (TrimRight k x0a) v, true)
  | None => (mkExtra (TrimRight k x0a) [], false)
  end.

(** [ReadBytes] of a buffered reader up to a newline: the line, the rest, and whether the
    input ended before. *)
Fixpoint readLine (r : bytes) : bytes * bytes * bool :=
  match r with
  | [] => ([], [], true)
  | b :: r => if bool_decide (b = x0a) then ([b], r, false)
              else let '(line, r, eof) := readLine r in (b :: line, r, eof)
  end.

(** The variables of the loop of [Decode]. *)
Record decoding := mkDecoding {
  dCommit : Commit; dMessage : bool; dMergetag : bool; dPgpsig : bool; dMsgbuf : bytes; dExtra : option ExtraHeader }.

Definition setTree c h := mkCommit (cHash c) (cAuthor c) (cCommitter c) (cMergeTag c) (cPGPSignature c) (cMessage c) h (cParentHashes c) (cEncoding c) (cExtraHeaders c).
Definition addParent c h := mkCommit (cHash c) (cAuthor c) (cCommitter c) (cMergeTag c) (cPGPSignature c) (cMessage c) (cTreeHash c) (cParentHashes c ++ [h]) (cEncoding c) (cExtraHeaders c).
Definition setAuthor c s := mkCommit (cHash c) s (cCommitter c) (cMergeTag c) (cPGPSignature c) (cMessage c) (cTreeHash c) (cParentHashes c) (cEncoding c) (cExtraHeaders c).
Definition setCommitter c s := mkCommit (cHash c) (cAuthor c) s (cMergeTag c) (cPGPSignature c) (cMessage c) (cTreeHash c) (cParentHashes c) (cEncoding c) (cExtraHeaders c).
Definition addMergeTag c x := mkCommit (cHash c) (cAuthor c) (cCommitter c) (cMergeTag c ++ x) (cPGPSignature c) (cMessage c) (cTreeHash c) (cParentHashes c) (cEncoding c) (cExtraHeaders c).
Definition addPGP c x := mkCommit (cHash c) (cAuthor c) (cCommitter c) (cMergeTag c) (cPGPSignature c ++ x) (cMessage c) (cTreeHash c) (cParentHashes c) (cEncoding c) (cExtraHeaders c).
Definition setMessage c x := mkCommit (cHash c) (cAuthor c) (cCommitter c) (cMergeTag c) (cPGPSignature c) x (cTreeHash c) (cParentHashes c) (cEncoding c) (cExtraHeaders c).
Definition setEncoding c x := mkCommit (cHash c) (cAuthor c) (cCommitter c) (cMergeTag c) (cPGPSignature c) (cMessage c) (cTreeHash c) (cParentHashes c) x (cExtraHeaders c).
Definition addExtra c x := mkCommit (cHash c) (cAuthor c) (cCommitter c) (cMergeTag c) (cPGPSignature c) (cMessage c) (cTreeHash c) (cParentHashes c) (cEncoding c) (cExtraHeaders c ++ [x]).
Definition setHash c h := mkCommit h (cAuthor c) (cCommitter c) (cMergeTag c) (cPGPSignature c) (cMessage c) (cTreeHash c) (cParentHashes c) (cEncoding c) (cExtraHeaders c).

Definition startsWithSpace (line : bytes) : bool := match line with x20 :: _ => true | _ => false end.

(** A header line, trimmed and as it was read. *)
Definition decodeHeader (st : decoding) (line original : bytes) : res decoding :=
  let c := dCommit st in
  let set c := mkDecoding c (dMessage st) (dMergetag st) (dPgpsig st) (dMsgbuf st) (dExtra st) in
  let '(key, rest) := SplitN2 line x20 in
  let data := default [] rest in
  if bool_decide (key = bs "tree") then Ok (set (setTree c (NewHash data)))
  else if bool_decide (key = bs "parent") then Ok (set (addParent c (NewHash data)))
  else if bool_decide (key = bs "author") then let* s := Signature_Decode (cAuthor c) data in Ok (set (setAuthor c s))
  else if bool_decide (key = bs "committer") then let* s := Signature_Decode (cCommitter c) data in Ok (set (setCommitter c s))
  else if bool_decide (key = headermergetag) then
    Ok (mkDecoding (addMergeTag c (data ++ [x0a])) (dMessage st) true (dPgpsig st) (dMsgbuf st) (dExtra st))
  else if bool_decide (key = headerencoding) then Ok (set (setEncoding c data))
  else if bool_decide (key = headerpgp) then
    Ok (mkDecoding (addPGP c (data ++ [x0a])) (dMessage st) (dMergetag st) true (dMsgbuf st) (dExtra st))
  else
    let '(h, maybecontinued) := parseExtraHeader original in
    if maybecontinued then Ok (mkDecoding c (dMessage st) (dMergetag st) (dPgpsig st) (dMsgbuf st) (Some h))
    else Ok (set (addExtra c h)).

(** One round of the loop; [true] for [continue]. *)
Definition decodeCommit_line (st : decoding) (line : bytes) : res (decoding * bool) :=
  if dMergetag st && startsWithSpace line then
    Ok (mkDecoding (addMergeTag (dCommit st) (TrimLeft line x20)) (dMessage st) true (dPgpsig st) (dMsgbuf st) (dExtra st), true)
  else
    let st := mkDecoding (dCommit st) (dMessage st) false (dPgpsig st) (dMsgbuf st) (dExtra st) in
    if dPgpsig st && startsWithSpace line then
      Ok (mkDecoding (addPGP (dCommit st) (TrimLeft line x20)) (dMessage st) (dMergetag st) true (dMsgbuf st) (dExtra st), true)
    else
      let st := mkDecoding (dCommit st) (dMessage st) (dMergetag st) false (dMsgbuf st) (dExtra st) in
      match dExtra st, startsWithSpace line with
      | Some h, true =>
        Ok (mkDecoding (dCommit st) (dMessage st) (dMergetag st) (dPgpsig st) (dMsgbuf st)
              (Some (mkExtra (xKey h) (xValue h ++ drop 1 line))), true)
      | _, _ =>
        let st := match dExtra st with
                  | Some h => mkDecoding (addExtra (dCommit st) (mkExtra (xKey h) (TrimRight (xValue h) x0a)))
                                (dMessage st) (dMergetag st) (dPgpsig st) (dMsgbuf st) None
                  | None => st
                  end in
        if negb (dMessage st) then
          let trimmed := TrimSpace line in
          if len trimmed =? 0 then
            Ok (mkDecoding (dCommit st) true (dMergetag st) (dPgpsig st) (dMsgbuf st) (dExtra st), true)
          else let* st := decodeHeader st trimmed line in Ok (st, false)
        else Ok (mkDecoding (dCommit st) (dMessage st) (dMergetag st) (dPgpsig st) (dMsgbuf st ++ line) (dExtra st), false)
      end.

Fixpoint decodeCommit_loop (fuel : nat) (st : decoding) (r : bytes) : res decoding :=
  match fuel with
  | O => NoFuel
  | S fuel =>
    let '(line, r, eof) := readLine r in
    let* (st, continue) := decodeCommit_line st line in
    if negb continue && eof then Ok st else decodeCommit_loop fuel st r
  end.

(** [Commit.Decode] into the value [c].  Every round but the last four reads a byte. *)
Definition Commit_Decode (c : Commit) (o : EncodedObj) : res Commit :=
  if negb (oType o =? CommitObject) then Err ErrUnsupportedObject
  else
    let c := setEncoding (setHash c (oHash o)) defaultUtf8CommitMessageEncoding in
    let* st := decodeCommit_loop (length (oContent o) + 4) (mkDecoding c false false false [] None) (oContent o) in
    Ok (setMessage (dCommit st) (dMsgbuf st)).

Definition DecodeCommit (o : EncodedObj) : res Commit := Commit_Decode newCommit o.

(** [Commit.encode]: what is written. *)
Definition encodeCommit (c : Commit) (includeSig : bool) : bytes :=
  bs "tree " ++ ObjectID_String (cTreeHash c) ++ [x0a] ++
  flat_map (fun parent => bs "parent " ++ ObjectID_String parent ++ [x0a]) (cParentHashes c) ++
  bs "author " ++ Signature_Encode (cAuthor c) ++ [x0a] ++ bs "committer " ++ Signature_Encode (cCommitter c) ++
  (if negb (bool_decide (cMergeTag c = [])) then [x0a] ++ headermergetag ++ [x20] ++ continued (cMergeTag c) else []) ++
  (if negb (bool_decide (cEncoding c = [])) && negb (bool_decide (cEncoding c = defaultUtf8CommitMessageEncoding))
   then [x0a] ++ headerencoding ++ [x20] ++ cEncoding c else []) ++
  flat_map (fun h => [x0a] ++ ExtraHeader_Format h) (cExtraHeaders c) ++
  (if negb (bool_decide (cPGPSignature c = [])) && includeSig
   then [x0a] ++ headerpgp ++ [x20] ++ continued (cPGPSignature c) else []) ++
  [x0a; x0a] ++ cMessage c.

(** [Commit.Encode] and [Commit.EncodeWithoutSignature] *)
Definition Commit_Encode (c : Commit) : ObjectType * bytes := (CommitObject, encodeCommit c true).
Definition Commit_EncodeWithoutSignature (c : Commit) : ObjectType * bytes := (CommitObject, encodeCommit c false).

Definition NumParents (c : Commit) : Z := len (cParentHashes c).

(** [Commit.Less] *)
Definition Commit_Less (c rhs : Commit) : bool :=
  time_Before (sWhen (cCommitter c)) (sWhen (cCommitter rhs)) ||
  time_Equal (sWhen (cCommitter c)) (sWhen (cCommitter rhs)) &&
  (time_Before (sWhen (cAuthor c)) (sWhen (cAuthor rhs)) ||
   time_Equal (sWhen (cAuthor c)) (sWhen (cAuthor rhs)) && (ObjectID_Compare (cHash c) (ObjectID_Bytes (cHash rhs)) <? 0)).

(** [indent] *)
Definition indent (t : bytes) : bytes :=
  Join (map (fun line => if negb (len line =? 0) then bs "    " ++ line else line) (Split t x0a)) [x0a].

(** ** signature.go *)
Definition signatureTypeUnknown : Z := 0.
Definition signatureTypeOpenPGP : Z := 1.
Definition signatureTypeX509 : Z := 2.
Definition signatureTypeSSH : Z := 3.

(** [knownSignatureFormats]; a text has at most one of these beginnings, so that the order
    in which the map is iterated does not matter. *)
Definition knownSignatureFormats : list (Z * list bytes) :=
  [(signatureTypeOpenPGP, [bs "-----BEGIN PGP SIGNATURE-----"; bs "-----BEGIN PGP MESSAGE-----"]);
   (signatureTypeX509, [bs "-----BEGIN CERTIFICATE-----"; bs "-----BEGIN SIGNED MESSAGE-----"]);
   (signatureTypeSSH, [bs "-----BEGIN SSH SIGNATURE-----"])].

Definition typeForSignature (b : bytes) : Z :=
  match List.find (fun e => existsb (HasPrefix b) (snd e)) knownSignatureFormats with
  | Some e => fst e
  | None => signatureTypeUnknown
  end.

(** The loop of [parseSignedBytes]: [b] from position [n] on. *)
Fixpoint parseSigned_loop (fuel : nat) (i : bytes) (n m t : Z) : Z * Z :=
  match fuel with
  | O => (m, t)
  | S fuel =>
    match i with
    | [] => (m, t)
    | _ =>
      let st := typeForSignature i in
      let (m, t) := if negb (st =? signatureTypeUnknown) then (n, st) else (m, t) in
      let eol := IndexByte i x0a in
      if eol >=? 0 then parseSigned_loop fuel (drop (S (Z.to_nat eol)) i) (n + eol + 1) m t else (m, t)
    end
  end.

Definition parseSignedBytes (b : bytes) : Z * Z := parseSigned_loop (S (length b)) b 0 (-1) signatureTypeUnknown.

(** ** tag.go *)
Record Tag := mkTag {
  gHash : ObjectID; gName : bytes; gTagger : Signature; gMessage : bytes; gPGPSignature : bytes;
  gTargetType : ObjectType; gTarget : ObjectID }.

Definition newTag : Tag := mkTag ZeroHash [] zeroSignature [] [] InvalidObject ZeroHash.

(** [split[1]] *)
Definition second (rest : option bytes) : res bytes := match rest with Some d => Ok d | None => Panic end.

(** One header line of a tag. *)
Definition decodeTagHeader (t : Tag) (line : bytes) : res Tag :=
  let '(key, rest) := SplitN2 line x20 in
  if bool_decide (key = bs "object") then
    let* d := second rest in
    Ok (mkTag (gHash t) (gName t) (gTagger t) (gMessage t) (gPGPSignature t) (gTargetType t) (NewHash d))
  else if bool_decide (key = bs "type") then
    let* d := second rest in
    let* ty := ParseObjectType d in
    Ok (mkTag (gHash t) (gName t) (gTagger t) (gMessage t) (gPGPSignature t) ty (gTarget t))
  else if bool_decide (key = bs "tag") then
    let* d := second rest in
    Ok (mkTag (gHash t) d (gTagger t) (gMessage t) (gPGPSignature t) (gTargetType t) (gTarget t))
  else if bool_decide (key = bs "tagger") then
    let* d := second rest in
    let* s := Signature_Decode (gTagger t) d in
    Ok (mkTag (gHash t) (gName t) s (gMessage t) (gPGPSignature t) (gTargetType t) (gTarget t))
  else Ok t.

(** The loop over the headers: the tag and, unless the input ended in them, the rest of the
    input.  [type] replaces the [EOF] of the last line by its own nil error; the loop
    then goes on. *)
Fixpoint decodeTag_loop (fuel : nat) (t : Tag) (r : bytes) : res (Tag * option bytes) :=
  match fuel with
  | O => NoFuel
  | S fuel =>
    let '(line, r, eof) := readLine r in
    let line := TrimSpace line in
    if len line =? 0 then Ok (t, Some r)
    else
      let* t := decodeTagHeader t line in
      let isType := bool_decide (fst (SplitN2 line x20) = bs "type") in
      if eof && negb isType then Ok (t, None) else decodeTag_loop fuel t r
  end.

(** [Tag.Decode] into the value [t]. *)
Definition Tag_Decode (t : Tag) (o : EncodedObj) : res Tag :=
  if negb (oType o =? TagObject) then Err ErrUnsupportedObject
  else
    let t := mkTag (oHash o) (gName t) (gTagger t) (gMessage t) (gPGPSignature t) (gTargetType t) (gTarget t) in
    let* (t, data) := decodeTag_loop (length (oContent o) + 2) t (oContent o) in
    match data with
    | None => Ok t
    | Some data =>
      let (sm, _) := parseSignedBytes data in
      if sm >=? 0 then
        let* sig := slice data sm (len data) in
        let* msg := slice data 0 sm in
        Ok (mkTag (gHash t) (gName t) (gTagger t) msg sig (gTargetType t) (gTarget t))
      else Ok (mkTag (gHash t) (gName t) (gTagger t) data (gPGPSignature t) (gTargetType t) (gTarget t))
    end.

Definition DecodeTag (o : EncodedObj) : res Tag := Tag_Decode newTag o.

Definition encodeTag (t : Tag) (includeSig : bool) : bytes :=
  bs "object " ++ ObjectID_String (gTarget t) ++ [x0a] ++ bs "type " ++ ObjectType_String (gTargetType t) ++ [x0a] ++
  bs "tag " ++ gName t ++ [x0a] ++ bs "tagger " ++ Signature_Encode (gTagger t) ++ [x0a; x0a] ++ gMessage t ++
  (if includeSig then gPGPSignature t else []).

Definition Tag_Encode (t : Tag) : ObjectType * bytes := (TagObject, encodeTag t true).
Definition Tag_EncodeWithoutSignature (t : Tag) : ObjectType * bytes := (TagObject, encodeTag t false).
