(* ===== verification/ObjectsProofs.v ===== *)
(** * Commits and tags: what is written is read back

    The text of signatures, commits and tags determines them ([commit_roundtrip],
    [tag_roundtrip]) for the values the text can say; reading a commit always
    ends in a value ([commit_decode_total]), and reading a tag panics on a header
    without a space ([tag_decode_panics]). *)
From S2P Require Import Prelude GoStrings Strconv ObjectID Memory Objects.

(** ** Text *)

(** An ASCII character that is no white space. *)
Definition solid (b : byte) : Prop := b2z b < 128 /\ isSpace b = false.

Lemma isSpace2_high b c : isSpace2 b c = true -> 128 <= b2z b /\ 128 <= b2z c.
Proof. unfold isSpace2. lia. Qed.

Lemma isSpace3_high b c d : isSpace3 b c d = true -> 128 <= b2z b /\ 128 <= b2z c /\ 128 <= b2z d.
Proof. unfold isSpace3. lia. Qed.

(** White space is dropped up to a solid character at most. *)
Lemma dropSpaces_upto back k b : solid k -> forall a, exists p a', a = p ++ a' /\ dropSpaces back (a ++ k :: b) = a' ++ k :: b.
Proof.
  intros [Hk Sk].
  assert (forall n a, (length a <= n)%nat -> exists p a', a = p ++ a' /\ dropSpaces back (a ++ k :: b) = a' ++ k :: b) as Hn;
    [|intros a; by apply (Hn (length a))].
  induction n as [|n IH]; intros a Ha.
  { destruct a; [|cbn in Ha; lia]. exists [], []. split; [done|]. by apply dropSpaces_nonspace. }
  destruct a as [|x a]; [exists [], []; split; [done|]; by apply dropSpaces_nonspace|]. cbn [app dropSpaces]. cbn in Ha.
  assert (forall p a', a = p ++ a' -> x :: a = (x :: p) ++ a') as Hc by (by intros p a' ->).
  destruct (isSpace x) eqn:Sx.
  { destruct (IH a) as (p & a' & Ep & Ed); [lia|]. exists (x :: p), a'. rewrite Ed. auto. }
  destruct a as [|y a]; cbn [app].
  { assert ((if back then isSpace2 k x else isSpace2 x k) = false) as ->.
    { destruct back; [destruct (isSpace2 k x) eqn:E|destruct (isSpace2 x k) eqn:E]; try done; apply isSpace2_high in E; lia. }
    exists [], [x]. split; [done|]. destruct b as [|d b]; [done|].
    assert ((if back then isSpace3 d k x else isSpace3 x k d) = false) as ->; [|done].
    destruct back; [destruct (isSpace3 d k x) eqn:E|destruct (isSpace3 x k d) eqn:E]; try done; apply isSpace3_high in E; lia. }
  destruct (if back then isSpace2 y x else isSpace2 x y) eqn:S2.
  { destruct (IH a) as (p & a' & Ep & Ed); [cbn in Ha; lia|]. exists (x :: y :: p), a'. rewrite Ed, Ep. done. }
  destruct a as [|z a]; cbn [app].
  { assert ((if back then isSpace3 k y x else isSpace3 x y k) = false) as ->; [|by exists [], [x; y]].
    destruct back; [destruct (isSpace3 k y x) eqn:E|destruct (isSpace3 x y k) eqn:E]; try done; apply isSpace3_high in E; lia. }
  destruct (if back then isSpace3 z y x else isSpace3 x y z) eqn:S3.
  { destruct (IH a) as (p & a' & Ep & Ed); [cbn in Ha; lia|]. exists (x :: y :: z :: p), a'. rewrite Ed, Ep. done. }
  by exists [], (x :: y :: z :: a).
Qed.

(** Trimming a text that begins with a solid word keeps the word. *)
Lemma TrimSpace_word key d : key <> [] -> Forall solid key ->
  exists d' p, TrimSpace (key ++ d) = key ++ d' /\ d = d' ++ p.
Proof.
  intros Hne Hall. destruct (exists_last Hne) as (k0 & k & ->). apply Forall_app in Hall as [Hk0 Hk]. apply Forall_inv in Hk.
  unfold TrimSpace. assert (dropSpaces false ((k0 ++ [k]) ++ d) = (k0 ++ [k]) ++ d) as ->.
  { destruct k0 as [|a k0]; cbn [app]; [by apply dropSpaces_nonspace; apply Hk|]. apply Forall_inv in Hk0. by apply dropSpaces_nonspace; apply Hk0. }
  rewrite rev_app_distr, rev_app_distr. cbn [rev app].
  destruct (dropSpaces_upto true k (rev k0) Hk (rev d)) as (p & a' & Ep & ->).
  exists (rev a'), (rev p). rewrite rev_app_distr. cbn [rev]. rewrite rev_involutive. split; [done|].
  by rewrite <- rev_app_distr, <- Ep, rev_involutive.
Qed.

(** A text between solid characters is not trimmed. *)
Lemma TrimSpace_solid a m z : solid a -> solid z -> TrimSpace ((a :: m ++ [z]) ++ [x0a]) = a :: m ++ [z].
Proof. intros [? ?] [? ?]. rewrite TrimSpace_newline. by apply TrimSpace_id. Qed.

Lemma readLine_line l r : x0a ∉ l -> readLine (l ++ x0a :: r) = (l ++ [x0a], r, false).
Proof.
  induction l as [|x l IH]; intros Hl; cbn [app readLine]; [by rewrite bool_decide_eq_true_2|].
  apply not_elem_of_cons in Hl as [Hx Hl]. rewrite bool_decide_eq_false_2 by done. by rewrite IH.
Qed.

Lemma readLine_end l : x0a ∉ l -> readLine l = (l, [], true).
Proof.
  induction l as [|x l IH]; intros Hl; cbn [readLine]; [done|].
  apply not_elem_of_cons in Hl as [Hx Hl]. rewrite bool_decide_eq_false_2 by done. by rewrite IH.
Qed.

(** Every input is a line and a rest, or a last line. *)
Lemma readLine_cases r : (exists l r', r = l ++ x0a :: r' /\ x0a ∉ l) \/ x0a ∉ r.
Proof.
  destruct (decide (x0a ∈ r)) as [Hin|]; [left|by right]. by destruct (split_first r x0a Hin) as (a & b & -> & ?); exists a, b.
Qed.

(** ** Zones *)

Definition two (n : Z) : bytes := padZeros 2 (digits 10 n).

Lemma two_facts n : 0 <= n < 100 ->
  len (two n) = 2 /\ ParseInt (two n) 10 64 = Ok n /\ ParseInt (x2b :: two n) 10 64 = Ok n /\ ParseInt (x2d :: two n) 10 64 = Ok (- n).
Proof.
  intros Hn.
  assert (forallb (fun n => bool_decide (len (two n) = 2 /\ ParseInt (two n) 10 64 = Ok n /\
    ParseInt (x2b :: two n) 10 64 = Ok n /\ ParseInt (x2d :: two n) 10 64 = Ok (- n))) (seqZ 0 100) = true) as Hall by (vm_compute; reflexivity).
  rewrite forallb_forall in Hall. specialize (Hall n). rewrite bool_decide_eq_true in Hall. apply Hall.
  apply list_elem_of_In, elem_of_seqZ. lia.
Qed.

(** ** Signatures *)

(** A zone the text can say: whole minutes, under a hundred hours, and an hour at
    least when it is west. *)
Definition zone_ok (z : Z) : Prop := exists h m, 0 <= h < 100 /\ 0 <= m < 60 /\
  (z = h * 3600 + m * 60 \/ 1 <= h /\ z = - (h * 3600 + m * 60)).

(** A signature the text can say: a name without spaces at its ends, an address without an
    opening bracket, both on one line, and a time from 1970 on, in seconds. *)
Record sig_ok (s : Signature) : Prop := {
  sg_name : Trim (sName s ++ [x20]) x20 = sName s;
  sg_lines : x0a ∉ sName s /\ x0a ∉ sEmail s;
  sg_email : x3c ∉ sEmail s;
  sg_sec : 0 <= tSec (sWhen s) < 2 ^ 63;
  sg_nsec : tNsec (sWhen s) = 0;
  sg_zone : zone_ok (tZone (sWhen s)) }.

(** The text of a zone: a sign, two digits and two digits. *)
Lemma formatZone_ok z : zone_ok z -> exists h m sgn, 0 <= h < 100 /\ 0 <= m < 60 /\
  formatZone z = sgn :: two h ++ two m /\
  (sgn = x2b /\ z = h * 3600 + m * 60 \/ sgn = x2d /\ 1 <= h /\ z = - (h * 3600 + m * 60)).
Proof.
  intros (h & m & Hh & Hm & Hz). exists h, m. unfold formatZone. fold (two (Z.quot (Z.abs (Z.quot z 60)) 60)).
  fold (two (Z.rem (Z.abs (Z.quot z 60)) 60)).
  assert (Z.abs (Z.quot z 60) = h * 60 + m) as Ea.
  { destruct Hz as [->|[_ ->]].
    - replace (h * 3600 + m * 60) with ((h * 60 + m) * 60) by lia. rewrite Z.quot_mul by lia. lia.
    - replace (- (h * 3600 + m * 60)) with ((- (h * 60 + m)) * 60) by lia. rewrite Z.quot_mul by lia. lia. }
  rewrite Ea. replace (Z.quot (h * 60 + m) 60) with h by (rewrite Z.quot_div_nonneg by lia; rewrite Z.div_add_l, Z.div_small by lia; lia).
  replace (Z.rem (h * 60 + m) 60) with m by (rewrite Z.rem_mod_nonneg by lia; rewrite Z.add_comm, Z.mod_add, Z.mod_small by lia; lia).
  destruct Hz as [->|[H1 ->]].
  - exists x2b. replace (h * 3600 + m * 60) with ((h * 60 + m) * 60) by lia. rewrite Z.quot_mul by lia.
    destruct (Z.ltb_spec (h * 60 + m) 0); [lia|]. split_and!; try done; try lia. left. split; [done|lia].
  - exists x2d. replace (- (h * 3600 + m * 60)) with ((- (h * 60 + m)) * 60) by lia. rewrite Z.quot_mul by lia.
    destruct (Z.ltb_spec (- (h * 60 + m)) 0); [|lia]. split_and!; try done; try lia. right. split; [done|lia].
Qed.

(** The digits of a number: no space, bracket or newline, and a solid end. *)
Definition plain (c : byte) : Prop := solid c /\ c <> x20 /\ c <> x3c /\ c <> x3e /\ c <> x0a.

Lemma plain_range c : 43 <= b2z c < 58 \/ 97 <= b2z c < 127 -> plain c.
Proof.
  intros H'. split; [split; [lia|unfold isSpace; lia]|]. split_and!; intros ->; cbn in H'; lia.
Qed.

Lemma plain_notin c l : Forall plain l -> ~ plain c -> c ∉ l.
Proof. intros Hall Hc Hin. rewrite Forall_forall in Hall. by apply Hc, Hall. Qed.

Lemma digits_plain n : 0 <= n -> Forall plain (digits 10 n).
Proof.
  intros Hn. eapply Forall_impl; [exact (digits_chars 10 ltac:(lia) n Hn)|]. cbn. intros c Hc. apply plain_range. lia.
Qed.

Lemma two_plain n : 0 <= n -> Forall plain (two n).
Proof.
  intros Hn. unfold two, padZeros. apply Forall_app. split; [|by apply digits_plain].
  apply Forall_replicate. apply plain_range. cbn. lia.
Qed.

Lemma decodeTime_encode s n e : sig_ok s ->
  decodeTimeAndTimeZone (mkSignature n e zeroTime) (encodeTimeAndTimeZone s) = Ok (mkSignature n e (sWhen s)).
Proof.
  intros [_ _ _ Hs Hns Hz]. unfold encodeTimeAndTimeZone, decodeTimeAndTimeZone.
  destruct (Z.ltb_spec (tSec (sWhen s)) 0); [lia|].
  destruct (formatZone_ok _ Hz) as (h & m & sgn & Hh & Hm & Ef & Hsgn). rewrite Ef.
  destruct (two_facts h Hh) as (Lh & _ & Ph1 & Ph2). destruct (two_facts m ltac:(lia)) as (Lm & Pm & _ & _).
  set (ds := FormatInt (tSec (sWhen s))).
  assert (Forall plain ds) as Hds by (unfold ds, FormatInt; destruct (Z.ltb_spec (tSec (sWhen s)) 0); [lia|apply digits_plain; lia]).
  cbn [app]. rewrite IndexByte_split by (apply (plain_notin _ _ Hds); intros (_ & H' & _); done).
  pose proof (len_nonneg ds). destruct (Z.eqb_spec (len ds) (-1)); [lia|].
  rewrite slice_app_l. cbn [res_bind]. unfold ds at 1. rewrite ParseInt_FormatInt by lia. cbn zeta. cbn [sName sEmail].
  assert (len (sgn :: two h ++ two m) = 5) as L5 by (rewrite len_cons, len_app; lia).
  assert (len (ds ++ x20 :: sgn :: two h ++ two m) = len ds + 6) as Ll by (rewrite len_app, len_cons, L5; lia).
  rewrite Ll. unfold timeZoneLength. destruct (Z.geb_spec (len ds + 1) (len ds + 6)); [lia|].
  destruct (Z.gtb_spec (len ds + 1 + 5) (len ds + 6)); [lia|]. cbn [orb].
  change (ds ++ x20 :: sgn :: two h ++ two m) with (ds ++ [x20] ++ sgn :: two h ++ two m). rewrite app_assoc.
  rewrite slice_app_r; [|rewrite len_app; done|rewrite len_app, L5, len_app; done]. cbn [res_bind].
  change (sgn :: two h ++ two m) with ((sgn :: two h) ++ two m).
  assert (len (sgn :: two h) = 3) as L3 by (rewrite len_cons; lia). rewrite <- L3, slice_app_l. cbn [res_bind].
  rewrite slice_app_r by done. cbn [res_bind]. rewrite Pm.
  destruct Hsgn as [[-> Ez]|[-> [Hh1 Ez]]].
  - rewrite Ph1. destruct (Z.ltb_spec h 0); [lia|]. destruct (sWhen s) as [sec nsec zone]. cbn in *. subst. do 3 f_equal. lia.
  - rewrite Ph2. destruct (Z.ltb_spec (- h) 0); [|lia]. destruct (sWhen s) as [sec nsec zone]. cbn in *. subst. do 3 f_equal. lia.
Qed.

Lemma encodeTime_plain s : sig_ok s -> exists a z, encodeTimeAndTimeZone s = a ++ [z] /\ solid z /\ x3c ∉ a ++ [z] /\ x3e ∉ a ++ [z] /\ x0a ∉ a ++ [z].
Proof.
  intros [_ _ _ Hs Hns Hz]. unfold encodeTimeAndTimeZone. destruct (Z.ltb_spec (tSec (sWhen s)) 0); [lia|].
  destruct (formatZone_ok _ Hz) as (h & m & sgn & Hh & Hm & -> & Hsgn).
  set (ds := FormatInt (tSec (sWhen s))).
  assert (Forall plain ds) as Hds by (unfold ds, FormatInt; destruct (Z.ltb_spec (tSec (sWhen s)) 0); [lia|apply digits_plain; lia]).
  assert (Forall plain (sgn :: two h ++ two m)) as Hall.
  { constructor; [destruct Hsgn as [[-> _]|[-> _]]; apply plain_range; cbn; lia|]. apply Forall_app. split; apply two_plain; lia. }
  destruct (exists_last (l := two m)) as (q & z & Em). { destruct (two_facts m ltac:(lia)) as (Lm & _). intros E. by rewrite E in Lm. }
  exists (ds ++ [x20] ++ sgn :: two h ++ q), z.
  assert ((ds ++ [x20] ++ sgn :: two h ++ q) ++ [z] = ds ++ [x20] ++ sgn :: two h ++ two m) as ->.
  { rewrite Em. by app_norm. }
  split; [done|]. split.
  - rewrite Forall_forall in Hall. apply (Hall z). rewrite Em. set_solver.
  - assert (forall c, ~ plain c -> c <> x20 -> c ∉ ds ++ [x20] ++ sgn :: two h ++ two m) as Hn.
    { intros c Hc Hsp. rewrite !not_elem_of_app. split_and!; [by apply (plain_notin _ _ Hds)|set_solver|by apply (plain_notin _ _ Hall)]. }
    split_and!; apply Hn; try done; intros (_ & ? & ? & ? & ?); done.
Qed.

(** Decoding an encoded signature, whatever name and address there were before. *)
Lemma Signature_roundtrip s n e : sig_ok s -> Signature_Decode (mkSignature n e zeroTime) (Signature_Encode s) = Ok s.
Proof.
  intros Hok. destruct (encodeTime_plain s Hok) as (a & z & Et & _ & Hlt & Hgt & _). rewrite <- Et in Hlt, Hgt.
  pose proof (decodeTime_encode s (sName s) (sEmail s) Hok) as Hdt. pose proof Hok as [Hn _ He _ _ _].
  unfold Signature_Encode. set (t := encodeTimeAndTimeZone s) in *.
  assert (sName s ++ bs " <" ++ sEmail s ++ bs "> " ++ t = (sName s ++ [x20]) ++ x3c :: sEmail s ++ x3e :: x20 :: t) as ->.
  { change (bs " <") with [x20; x3c]. change (bs "> ") with [x3e; x20]. by app_norm. }
  unfold Signature_Decode. rewrite LastIndexByte_split by (rewrite not_elem_of_app, !not_elem_of_cons; done).
  assert (LastIndexByte ((sName s ++ [x20]) ++ x3c :: sEmail s ++ x3e :: x20 :: t) x3e = len (sName s ++ [x20]) + 1 + len (sEmail s)) as ->.
  { rewrite app_comm_cons, app_assoc. rewrite LastIndexByte_split by (rewrite not_elem_of_cons; done). rewrite len_app, len_cons. lia. }
  pose proof (len_nonneg (sName s ++ [x20])). pose proof (len_nonneg (sEmail s)).
  destruct (Z.eqb_spec (len (sName s ++ [x20])) (-1)); [lia|]. destruct (Z.eqb_spec (len (sName s ++ [x20]) + 1 + len (sEmail s)) (-1)); [lia|]. cbn [orb].
  destruct (Z.ltb_spec (len (sName s ++ [x20]) + 1 + len (sEmail s)) (len (sName s ++ [x20]))); [lia|].
  rewrite slice_app_l. cbn [res_bind].
  assert ((sName s ++ [x20]) ++ x3c :: sEmail s ++ x3e :: x20 :: t = ((sName s ++ [x20]) ++ [x3c]) ++ sEmail s ++ x3e :: x20 :: t) as Ec by (by app_norm).
  rewrite Ec at 1. rewrite slice_app_m; [|rewrite !len_app; change (len [x3c]) with 1; lia|rewrite !len_app; change (len [x3c]) with 1; lia]. cbn [res_bind]. rewrite Hn.
  assert ((sName s ++ [x20]) ++ x3c :: sEmail s ++ x3e :: x20 :: t = ((sName s ++ [x20]) ++ x3c :: sEmail s ++ [x3e; x20]) ++ t) as Ed.
  { by app_norm. }
  rewrite Ed. assert (len ((sName s ++ [x20]) ++ x3c :: sEmail s ++ [x3e; x20]) = len (sName s ++ [x20]) + 1 + len (sEmail s) + 2) as El.
  { rewrite ?len_app, ?len_cons, ?len_app. change (len [x20]) with 1. change (len [x3e; x20]) with 2. lia. }
  assert (0 < len t) as Ht. { rewrite Et, len_app. pose proof (len_nonneg a). change (len [z]) with 1. lia. }
  destruct (Z.ltb_spec (len (sName s ++ [x20]) + 1 + len (sEmail s) + 2) (len (((sName s ++ [x20]) ++ x3c :: sEmail s ++ [x3e; x20]) ++ t))) as [_|Hge];
    [|rewrite len_app, El in Hge; lia].
  rewrite slice_app_r by done. cbn [res_bind sWhen]. rewrite Hdt. by destruct s.
Qed.

(** ** Reading a commit line by line *)

(** The loop ends in [st'] from [st] on the input [r], with any fuel that its length bounds. *)
Definition runs (st : decoding) (r : bytes) (st' : decoding) : Prop :=
  forall fuel, (length r + 3 <= fuel)%nat -> decodeCommit_loop fuel st r = Ok st'.

Lemma runs_line st l r k st1 st' : x0a ∉ l -> decodeCommit_line st (l ++ [x0a]) = Ok (st1, k) -> runs st1 r st' ->
  runs st (l ++ x0a :: r) st'.
Proof.
  intros Hl Hline Hr fuel Hf. rewrite length_app in Hf. cbn [length] in Hf. destruct fuel as [|fuel]; [lia|].
  cbn [decodeCommit_loop]. rewrite readLine_line by done. rewrite Hline. cbn [res_bind]. rewrite andb_false_r. apply Hr. lia.
Qed.

(** A state between headers, and what is left of a state when the next line does not continue its header. *)
Definition at_header (c : Commit) : decoding := mkDecoding c false false false [] None.

Definition settle (st : decoding) : decoding :=
  mkDecoding (match dExtra st with
              | Some h => addExtra (dCommit st) (mkExtra (xKey h) (TrimRight (xValue h) x0a))
              | None => dCommit st
              end) (dMessage st) false false (dMsgbuf st) None.

Lemma line_settle st line : startsWithSpace line = false -> decodeCommit_line st line = decodeCommit_line (settle st) line.
Proof.
  intros Hs. unfold decodeCommit_line. rewrite Hs. cbn [andb settle dMergetag dPgpsig dExtra dCommit dMessage dMsgbuf].
  rewrite !andb_false_r. cbn [dPgpsig dExtra dCommit dMessage dMsgbuf dMergetag]. by destruct (dExtra st) as [h|].
Qed.

Lemma startsWithSpace_app l r : l <> [] -> startsWithSpace (l ++ r) = startsWithSpace l.
Proof. by destruct l. Qed.

(** A header line is taken by [decodeHeader]. *)
Lemma header_line c t st' : startsWithSpace (t ++ [x0a]) = false -> TrimSpace (t ++ [x0a]) <> [] ->
  decodeHeader (at_header c) (TrimSpace (t ++ [x0a])) (t ++ [x0a]) = Ok st' ->
  decodeCommit_line (at_header c) (t ++ [x0a]) = Ok (st', false).
Proof.
  intros Hs Hne Hd. unfold decodeCommit_line. cbn [at_header dMergetag dPgpsig dExtra dCommit dMessage dMsgbuf andb negb].
  fold (at_header c). destruct (Z.eqb_spec (len (TrimSpace (t ++ [x0a]))) 0) as [E|_].
  { exfalso. apply Hne. destruct (TrimSpace (t ++ [x0a])) as [|x l]; [done|]. rewrite len_cons in E. pose proof (len_nonneg l). lia. }
  by rewrite Hd.
Qed.

(** The header [t] turns the commit [c] into [c']: the input goes on with something that
    does not continue a header. *)
Definition block (c : Commit) (t : bytes) (c' : Commit) : Prop :=
  forall st r st', settle st = at_header c -> startsWithSpace r = false ->
    (forall st1, settle st1 = at_header c' -> runs st1 r st') -> runs st (t ++ x0a :: r) st'.

(** A header on one line. *)
Lemma block_line c t st1 : x0a ∉ t -> t <> [] -> startsWithSpace t = false -> TrimSpace (t ++ [x0a]) <> [] ->
  decodeHeader (at_header c) (TrimSpace (t ++ [x0a])) (t ++ [x0a]) = Ok st1 ->
  forall c', settle st1 = at_header c' -> block c t c'.
Proof.
  intros Hnl Hne Hs Ht Hd c' Hc' st r st' Hst Hr Hrun.
  assert (startsWithSpace (t ++ [x0a]) = false) as Hs' by (by rewrite startsWithSpace_app).
  eapply runs_line; [done| |by apply Hrun]. rewrite line_settle, Hst by done. by apply header_line.
Qed.

(** The common case: a key, a space and data that ends in a solid character. *)
Lemma word_trim key d z : key <> [] -> Forall solid key -> solid z ->
  TrimSpace ((key ++ x20 :: d ++ [z]) ++ [x0a]) = key ++ x20 :: d ++ [z].
Proof.
  intros Hne Hk Hz. destruct key as [|a key]; [done|]. apply Forall_inv in Hk.
  change ((a :: key) ++ x20 :: d ++ [z]) with (a :: (key ++ x20 :: d ++ [z])).
  assert (key ++ x20 :: d ++ [z] = (key ++ x20 :: d) ++ [z]) as -> by (by app_norm). by apply TrimSpace_solid.
Qed.

Lemma solid_nospace key : Forall solid key -> x20 ∉ key.
Proof. intros Hk Hin. rewrite Forall_forall in Hk. destruct (Hk _ Hin) as [_ H']. done. Qed.

Lemma solid_nonewline key : Forall solid key -> x0a ∉ key.
Proof. intros Hk Hin. rewrite Forall_forall in Hk. destruct (Hk _ Hin) as [_ H']. done. Qed.

Lemma solid_start key r : key <> [] -> Forall solid key -> startsWithSpace (key ++ r) = false.
Proof.
  intros Hne Hk. destruct key as [|a key]; [done|]. apply Forall_inv in Hk as [_ Ha]. cbn. destruct a; done.
Qed.

Lemma block_word c key d z c' st1 : key <> [] -> Forall solid key -> solid z -> x0a ∉ d ->
  decodeHeader (at_header c) (key ++ x20 :: d ++ [z]) ((key ++ x20 :: d ++ [z]) ++ [x0a]) = Ok st1 ->
  settle st1 = at_header c' -> block c (key ++ x20 :: d ++ [z]) c'.
Proof.
  intros Hne Hk Hz Hd Hdec Hc'. pose proof (word_trim key d z Hne Hk Hz) as Et.
  eapply block_line; [| |by apply solid_start|by rewrite Et; destruct key|rewrite Et; exact Hdec|done].
  - rewrite not_elem_of_app, not_elem_of_cons, not_elem_of_app. split; [by apply solid_nonewline|]. split; [done|]. split; [done|].
    intros Hin. apply list_elem_of_singleton in Hin. subst z. by destruct Hz.
  - by destruct key.
Qed.

(** Splitting a header line. *)
Lemma SplitN2_word key d z : Forall solid key -> SplitN2 (key ++ x20 :: d ++ [z]) x20 = (key, Some (d ++ [z])).
Proof. intros Hk. apply SplitN2_app. by apply solid_nospace. Qed.

(** Blocks one after the other, each after a newline, then the blank line. *)
Fixpoint blocks (c : Commit) (ts : list bytes) (c' : Commit) : Prop :=
  match ts with
  | [] => c = c'
  | t :: ts => exists c1, block c t c1 /\ startsWithSpace (t ++ [x0a]) = false /\ blocks c1 ts c'
  end.

Lemma blocks_app c ts c1 us c' : blocks c ts c1 -> blocks c1 us c' -> blocks c (ts ++ us) c'.
Proof.
  revert c. induction ts as [|t ts IH]; intros c; cbn [blocks app]; [by intros ->|].
  intros (c2 & H1 & H2 & H3) Hu. exists c2. split; [done|]. split; [done|]. by apply IH.
Qed.

Definition lines_of (ts : list bytes) : bytes := flat_map (fun t => t ++ [x0a]) ts.

(** After the blank line everything is the message. *)
Lemma runs_message c msg : forall buf, runs (mkDecoding c true false false buf None) msg (mkDecoding c true false false (buf ++ msg) None).
Proof.
  assert (forall n msg buf, (length msg <= n)%nat ->
    runs (mkDecoding c true false false buf None) msg (mkDecoding c true false false (buf ++ msg) None)) as Hn; [|intros buf; by apply (Hn (length msg))].
  clear msg. induction n as [|n IH]; intros msg buf Hl.
  { destruct msg; [|cbn in Hl; lia]. intros [|fuel] Hf; [cbn in Hf; lia|]. done. }
  destruct (readLine_cases msg) as [(l & r & -> & Hnl)|Hnl].
  - rewrite length_app in Hl. cbn in Hl. eapply runs_line; [done|done|].
    assert (buf ++ l ++ x0a :: r = (buf ++ l ++ [x0a]) ++ r) as -> by (by app_norm). apply IH. lia.
  - intros [|fuel] Hf; [lia|]. cbn [decodeCommit_loop]. rewrite readLine_end by done. cbn. done.
Qed.

Lemma runs_blocks c ts c' msg : blocks c ts c' -> forall st, settle st = at_header c ->
  runs st (lines_of ts ++ x0a :: msg) (mkDecoding c' true false false msg None).
Proof.
  revert c. induction ts as [|t ts IH]; intros c; cbn [blocks lines_of flat_map].
  - intros -> st Hst. cbn [app]. eapply (runs_line st []); [by apply not_elem_of_nil| |apply (runs_message c' msg [])].
    cbn [app]. rewrite line_settle, Hst by done. done.
  - intros (c1 & Hb & Hs & Hbs) st Hst. fold (lines_of ts). rewrite <- app_assoc, <- app_assoc. cbn [app].
    apply Hb; [done| |intros st1 Hst1; by apply (IH c1)].
    destruct ts as [|t' ts]; [done|]. cbn [blocks] in Hbs. destruct Hbs as (_ & _ & Hs' & _).
    cbn [lines_of flat_map]. rewrite <- app_assoc, startsWithSpace_app; [done|]. by destruct t'.
Qed.

(** ** Headers of several lines *)

Lemma Join_flat l0 ls sep : Join (l0 :: ls) sep = l0 ++ flat_map (fun l => sep ++ l) ls.
Proof.
  revert l0. induction ls as [|l ls IH]; intros l0; [by rewrite app_nil_r|].
  rewrite Join_cons by done. rewrite IH. cbn [flat_map]. by rewrite <- !app_assoc.
Qed.

Lemma Join_lines l0 ls : Join (l0 :: ls) [x0a] ++ [x0a] = lines_of (l0 :: ls).
Proof.
  rewrite Join_flat. unfold lines_of. cbn [flat_map]. rewrite <- !app_assoc. f_equal.
  induction ls as [|l ls IH]; [done|]. cbn [flat_map]. rewrite <- !app_assoc, IH. done.
Qed.

(** The lines after the first, as they are written. *)
Definition cont_lines (ls : list bytes) : bytes := flat_map (fun l => x20 :: l ++ [x0a]) ls.

Lemma cont_lines_cons l ls r : cont_lines (l :: ls) ++ r = (x20 :: l) ++ x0a :: cont_lines ls ++ r.
Proof. unfold cont_lines. cbn [flat_map]. by app_norm. Qed.

Lemma cont_newline l0 ls : (l0 ++ flat_map (fun l => [x0a; x20] ++ l) ls) ++ [x0a] = l0 ++ x0a :: cont_lines ls.
Proof.
  rewrite <- app_assoc. f_equal. induction ls as [|l ls IH]; [done|]. cbn [flat_map].
  rewrite <- app_assoc, IH. unfold cont_lines. cbn [flat_map app]. by rewrite <- app_assoc.
Qed.

Lemma continued_lines l0 ls : Forall (fun l => x0a ∉ l) (l0 :: ls) ->
  continued (lines_of (l0 :: ls)) = l0 ++ flat_map (fun l => [x0a; x20] ++ l) ls.
Proof. intros Hnl. unfold continued. rewrite <- Join_lines, TrimSuffix_snoc, Split_Join by done. apply Join_flat. Qed.

Lemma lines_of_app a b : lines_of (a ++ b) = lines_of a ++ lines_of b.
Proof. apply flat_map_app. Qed.

(** Merge tags and signatures. *)
Section Multi.
Context (key : bytes) (add : Commit -> bytes -> Commit) (mk : Commit -> decoding).
Hypothesis Hkey : key <> [] /\ Forall solid key.
Hypothesis Hhead : forall c d orig, decodeHeader (at_header c) (key ++ x20 :: d) orig = Ok (mk (add c (d ++ [x0a]))).
Hypothesis Hcont : forall c l, decodeCommit_line (mk c) (x20 :: l) = Ok (mk (add c (TrimLeft (x20 :: l) x20)), true).
Hypothesis Hsettle : forall c, settle (mk c) = at_header c.
Hypothesis Hadd : forall c a b, add (add c a) b = add c (a ++ b).

(** Lines a multi-line header can say: the first one ends in a solid character, the
    others do not begin with a space. *)
Definition multi_ok (v : bytes) : Prop := exists l0 z ls, v = lines_of ((l0 ++ [z]) :: ls) /\ solid z /\ x0a ∉ l0 /\
  Forall (fun l => x0a ∉ l /\ startsWithSpace l = false) ls.

Lemma runs_cont ls : Forall (fun l => x0a ∉ l /\ startsWithSpace l = false) ls -> forall c r st',
  runs (mk (add c (lines_of ls))) r st' -> add c [] = c -> runs (mk c) (cont_lines ls ++ r) st'.
Proof.
  induction 1 as [|l ls [Hl Hs] _ IH]; intros c r st' Hr Hnil; [cbn in Hr; by rewrite Hnil in Hr|]. rewrite cont_lines_cons.
  eapply runs_line; [rewrite not_elem_of_cons; done|cbn [app]; apply Hcont|].
  assert (TrimLeft (x20 :: l ++ [x0a]) x20 = l ++ [x0a]) as ->.
  { cbn [TrimLeft]. rewrite bool_decide_eq_true_2 by done. apply TrimLeft_nop. intros l' El. destruct l as [|y l]; [done|].
    injection El as -> _. done. }
  apply IH; [|rewrite Hadd; by rewrite app_nil_r]. rewrite Hadd. exact Hr.
Qed.

Lemma block_multi c v : multi_ok v -> (forall c, add c [] = c) -> block c (key ++ x20 :: continued v) (add c v).
Proof.
  intros (l0 & z & ls & -> & Hz & Hl0 & Hls) Hnil st r st' Hst Hr Hrun. destruct Hkey as [Hne Hk].
  assert (x0a ∉ l0 ++ [z]) as Hl0z. { rewrite not_elem_of_app. split; [done|]. intros Hin. apply list_elem_of_singleton in Hin. subst z. by destruct Hz. }
  rewrite continued_lines by (constructor; [done|]; eapply Forall_impl; [exact Hls|]; by intros l [? _]).
  assert ((key ++ x20 :: (l0 ++ [z]) ++ flat_map (fun l => [x0a; x20] ++ l) ls) ++ x0a :: r =
    (key ++ x20 :: l0 ++ [z]) ++ x0a :: cont_lines ls ++ r) as ->.
  { pose proof (cont_newline (l0 ++ [z]) ls) as E. transitivity ((key ++ [x20]) ++ (((l0 ++ [z]) ++ flat_map (fun l => [x0a; x20] ++ l) ls) ++ [x0a]) ++ r).
    - by app_norm.
    - rewrite E. by app_norm. }
  eapply runs_line.
  - rewrite not_elem_of_app, not_elem_of_cons. split; [by apply solid_nonewline|]. done.
  - rewrite line_settle, Hst by (rewrite <- app_assoc; by apply solid_start). apply header_line.
    + rewrite <- app_assoc. by apply solid_start.
    + rewrite word_trim by done. by destruct key.
    + rewrite word_trim by done. apply Hhead.
  - apply runs_cont; [done| |done]. rewrite Hadd. apply Hrun. rewrite Hsettle. done.
Qed.
End Multi.

Lemma block_mergetag c v : multi_ok v -> block c (headermergetag ++ x20 :: continued v) (addMergeTag c v).
Proof.
  intros Hv. apply (block_multi headermergetag addMergeTag (fun c => mkDecoding c false true false [] None)); try done.
  - split; [done|]. unfold headermergetag. apply (bool_decide_unpack _). vm_compute. exact I.
  - intros c0 a b. unfold addMergeTag. cbn. by rewrite app_assoc.
  - intros [???? ?????]. unfold addMergeTag. cbn. by rewrite app_nil_r.
Qed.

Lemma block_gpgsig c v : multi_ok v -> block c (headerpgp ++ x20 :: continued v) (addPGP c v).
Proof.
  intros Hv. apply (block_multi headerpgp addPGP (fun c => mkDecoding c false false true [] None)); try done.
  - split; [done|]. unfold headerpgp. apply (bool_decide_unpack _). vm_compute. exact I.
  - intros c0 a b. unfold addPGP. cbn. by rewrite app_assoc.
  - intros [???? ?????]. unfold addPGP. cbn. by rewrite app_nil_r.
Qed.

(** ** Extra headers *)
Definition reserved : list bytes :=
  [bs "tree"; bs "parent"; bs "author"; bs "committer"; headermergetag; headerencoding; headerpgp].

(** An extra header the text can say: a solid key that is not one of the headers
    above, and a value that does not end in a newline. *)
Record extra_ok (h : ExtraHeader) : Prop := {
  ex_key : xKey h <> [] /\ Forall solid (xKey h) /\ xKey h ∉ reserved;
  ex_value : last (xValue h) <> Some x0a }.

Lemma decodeHeader_extra c line orig key rest : SplitN2 line x20 = (key, rest) -> key ∉ reserved ->
  decodeHeader (at_header c) line orig =
    (let '(h, cont) := parseExtraHeader orig in
     if cont then Ok (mkDecoding c false false false [] (Some h)) else Ok (at_header (addExtra c h))).
Proof.
  intros E Hr. unfold decodeHeader. rewrite E. unfold reserved in Hr. rewrite !not_elem_of_cons in Hr.
  destruct Hr as (H1 & H2 & H3 & H4 & H5 & H6 & H7 & _). rewrite !bool_decide_eq_false_2 by done.
  by destruct (parseExtraHeader orig) as [h []].
Qed.

Lemma runs_extra c h ls r st' : Forall (fun l => x0a ∉ l) ls ->
  runs (mkDecoding c false false false [] (Some (mkExtra (xKey h) (xValue h ++ lines_of ls)))) r st' ->
  runs (mkDecoding c false false false [] (Some h)) (cont_lines ls ++ r) st'.
Proof.
  intros Hls. revert h. induction Hls as [|l ls Hl _ IH]; intros h Hr.
  { cbn in Hr. rewrite app_nil_r in Hr. by destruct h. }
  rewrite cont_lines_cons. eapply runs_line; [rewrite not_elem_of_cons; done|reflexivity|]. cbn [app].
  apply IH. cbn [xKey xValue]. cbn [lines_of flat_map] in Hr. fold (lines_of ls) in Hr. rewrite <- app_assoc. exact Hr.
Qed.

Lemma TrimSpace_key key d : key <> [] -> Forall solid key ->
  exists rest, SplitN2 (TrimSpace (key ++ x20 :: d)) x20 = (key, rest) /\ TrimSpace (key ++ x20 :: d) <> [].
Proof.
  intros Hne Hk. destruct (TrimSpace_word key (x20 :: d) Hne Hk) as (d' & p & -> & Ep). destruct d' as [|x d'].
  - exists None. rewrite app_nil_r. split; [|done]. apply SplitN2_none. by apply solid_nospace.
  - injection Ep as <- _. exists (Some d'). split; [|by destruct key]. apply SplitN2_app. by apply solid_nospace.
Qed.

Lemma block_extra c h : extra_ok h -> block c (ExtraHeader_Format h) (addExtra c h).
Proof.
  intros [(Hne & Hk & Hres) Hlast]. unfold ExtraHeader_Format. destruct h as [key v]. cbn [xKey xValue] in *.
  pose proof (solid_nonewline key Hk) as Hknl.
  assert (TrimRight key x0a = key) as Htr. { apply TrimRight_nop. intros Hl. apply Hknl. apply last_Some in Hl as [l' ->]; set_solver. }
  destruct (Z.gtb_spec (len v) 0) as [Hv|Hv].
  - (* a value *)
    pose proof (Split_pieces v x0a) as Hpieces. pose proof (Join_Split v x0a) as Hjoin.
    assert (continued v = Join (Split v x0a) [x0a; x20]) as Ec.
    { unfold continued, TrimSuffix. destruct (HasSuffix v [x0a]) eqn:E; [|done]. by apply HasSuffix_byte in E. }
    rewrite Ec. destruct (Split v x0a) as [|l0 ls] eqn:Es; [by apply Split_nonempty in Es|]. rewrite Join_flat.
    apply Forall_cons in Hpieces as [Hl0 Hls].
    intros st r st' Hst Hr Hrun.
    assert ((key ++ [x20] ++ l0 ++ flat_map (fun l => [x0a; x20] ++ l) ls) ++ x0a :: r = (key ++ x20 :: l0) ++ x0a :: cont_lines ls ++ r) as ->.
    { pose proof (cont_newline l0 ls) as E. transitivity ((key ++ [x20]) ++ ((l0 ++ flat_map (fun l => [x0a; x20] ++ l) ls) ++ [x0a]) ++ r).
      - by app_norm.
      - rewrite E. by app_norm. }
    eapply (runs_line _ _ _ false (mkDecoding c false false false [] (Some (mkExtra key (l0 ++ [x0a]))))).
    + rewrite not_elem_of_app, not_elem_of_cons. done.
    + rewrite line_settle, Hst by (rewrite <- app_assoc; by apply solid_start).
      assert ((key ++ x20 :: l0) ++ [x0a] = key ++ x20 :: l0 ++ [x0a]) as El by (by app_norm).
      destruct (TrimSpace_key key (l0 ++ [x0a]) Hne Hk) as (rest & Esp & Hnn).
      apply header_line; [rewrite <- app_assoc; by apply solid_start|by rewrite El|]. rewrite El.
      rewrite (decodeHeader_extra c _ _ key rest Esp Hres). unfold parseExtraHeader. rewrite SplitN2_app by (by apply solid_nospace).
      by rewrite Htr.
    + apply runs_extra; [done|]. apply Hrun. unfold settle. cbn [dExtra dCommit dMessage dMsgbuf xKey xValue].
      assert ((l0 ++ [x0a]) ++ lines_of ls = v ++ [x0a]) as ->.
      { change ((l0 ++ [x0a]) ++ lines_of ls) with (lines_of (l0 :: ls)). by rewrite <- Join_lines, Hjoin. }
      by rewrite TrimRight_snoc, TrimRight_nop.
  - (* no value *)
    assert (v = []) as ->. { destruct v; [done|]. rewrite len_cons in Hv. pose proof (len_nonneg v). lia. }
    rewrite app_nil_r. destruct (TrimSpace_word key [] Hne Hk) as (d' & p & Et & Ep). symmetry in Ep. apply app_eq_nil in Ep as [-> _].
    rewrite !app_nil_r in Et.
    eapply block_line; [done|done| |by rewrite TrimSpace_newline, Et|rewrite TrimSpace_newline, Et|].
    + rewrite <- (app_nil_r key). by apply solid_start.
    + erewrite decodeHeader_extra; [|apply SplitN2_none; by apply solid_nospace|done].
      unfold parseExtraHeader. rewrite SplitN2_none; [reflexivity|]. rewrite not_elem_of_app. split; [by apply solid_nospace|set_solver].
    + cbn. by rewrite TrimRight_snoc, Htr.
Qed.

(** ** The fixed headers *)

Lemma hex_plain b : Forall plain (EncodeToString b).
Proof.
  induction b as [|x b IH]; [constructor|]. cbn [EncodeToString flat_map app]. fold (EncodeToString b).
  destruct (nibbles x) as (H1 & H2 & _).
  assert (forall n, 0 <= n < 16 -> plain (hexDigit n)) as Hd.
  { intros n Hn. apply plain_range. unfold hexDigit. destruct (Z.ltb_spec n 10); rewrite z2b_small by lia; lia. }
  repeat constructor; try apply Hd; done.
Qed.

(** The text of an identifier ends in a solid character. *)
Lemma id_text s : wf_id s -> exists a z, ObjectID_String s = a ++ [z] /\ solid z /\ x0a ∉ a.
Proof.
  intros Hwf. pose proof (hex_plain (ObjectID_Bytes s)) as Hp. unfold ObjectID_String.
  destruct (exists_last (l := EncodeToString (ObjectID_Bytes s))) as (a & z & E).
  { intros E. pose proof (EncodeToString_len (ObjectID_Bytes s)) as El. rewrite E in El. destruct (wf_bytes s Hwf) as (Hl & _ & Hs).
    rewrite Hl, Hs in El. destruct Hwf as [_ [E1|[E1 _]]]; rewrite E1 in El; discriminate El. }
  exists a, z. rewrite E in *. apply Forall_app in Hp as [Ha Hz]. apply Forall_inv in Hz. split; [done|]. split; [apply Hz|].
  apply (plain_notin _ _ Ha). by intros (_ & _ & _ & _ & ?).
Qed.

Lemma NewHash_String s : wf_id s -> NewHash (ObjectID_String s) = s.
Proof. intros Hwf. unfold NewHash. by rewrite FromHex_String. Qed.

#[global] Instance solid_dec b : Decision (solid b).
Proof. unfold solid. apply _. Defined.

Lemma block_tree c s : wf_id s -> block c (bs "tree " ++ ObjectID_String s) (setTree c s).
Proof.
  intros Hs. destruct (id_text s Hs) as (a & z & E & Hz & Ha). rewrite E.
  apply (block_word c (bs "tree") a z _ (at_header (setTree c s))); try done; [by_decision|].
  rewrite <- E. unfold decodeHeader. rewrite (SplitN2_app (bs "tree")) by by_decision.
  cbn [default from_option id]. rewrite (NewHash_String s Hs). done.
Qed.

Lemma block_parent c s : wf_id s -> block c (bs "parent " ++ ObjectID_String s) (addParent c s).
Proof.
  intros Hs. destruct (id_text s Hs) as (a & z & E & Hz & Ha). rewrite E.
  apply (block_word c (bs "parent") a z _ (at_header (addParent c s))); try done; [by_decision|].
  rewrite <- E. unfold decodeHeader. rewrite (SplitN2_app (bs "parent")) by by_decision.
  cbn [default from_option id]. rewrite (NewHash_String s Hs). done.
Qed.

(** The text of a signature ends in a solid character. *)
Lemma sig_text s : sig_ok s -> exists a z, Signature_Encode s = a ++ [z] /\ solid z /\ x0a ∉ a.
Proof.
  intros Hok. destruct (encodeTime_plain s Hok) as (a & z & Et & Hz & _ & _ & Hnl). destruct (sg_lines s Hok) as [Hn He].
  unfold Signature_Encode. rewrite Et. exists (sName s ++ bs " <" ++ sEmail s ++ bs "> " ++ a), z. split; [by app_norm|]. split; [done|].
  rewrite !not_elem_of_app in *. split_and!; try done; try tauto; by_decision.
Qed.

Lemma block_author c s : sig_ok s -> sWhen (cAuthor c) = zeroTime -> block c (bs "author " ++ Signature_Encode s) (setAuthor c s).
Proof.
  intros Hs Hw. destruct (sig_text s Hs) as (a & z & E & Hz & Ha). rewrite E.
  apply (block_word c (bs "author") a z _ (at_header (setAuthor c s))); try done; [by_decision|].
  rewrite <- E. unfold decodeHeader. rewrite (SplitN2_app (bs "author")) by by_decision. cbn [default from_option id at_header dCommit].
  pose proof (Signature_roundtrip s (sName (cAuthor c)) (sEmail (cAuthor c)) Hs) as Hr. rewrite <- Hw in Hr.
  assert (mkSignature (sName (cAuthor c)) (sEmail (cAuthor c)) (sWhen (cAuthor c)) = cAuthor c) as Eta by (by destruct (cAuthor c)).
  rewrite Eta in Hr. cbn. by rewrite Hr.
Qed.

Lemma block_committer c s : sig_ok s -> sWhen (cCommitter c) = zeroTime -> block c (bs "committer " ++ Signature_Encode s) (setCommitter c s).
Proof.
  intros Hs Hw. destruct (sig_text s Hs) as (a & z & E & Hz & Ha). rewrite E.
  apply (block_word c (bs "committer") a z _ (at_header (setCommitter c s))); try done; [by_decision|].
  rewrite <- E. unfold decodeHeader. rewrite (SplitN2_app (bs "committer")) by by_decision. cbn [default from_option id at_header dCommit].
  pose proof (Signature_roundtrip s (sName (cCommitter c)) (sEmail (cCommitter c)) Hs) as Hr. rewrite <- Hw in Hr.
  assert (mkSignature (sName (cCommitter c)) (sEmail (cCommitter c)) (sWhen (cCommitter c)) = cCommitter c) as Eta by (by destruct (cCommitter c)).
  rewrite Eta in Hr. cbn. by rewrite Hr.
Qed.

Lemma block_encoding c d z : solid z -> x0a ∉ d -> block c (headerencoding ++ x20 :: d ++ [z]) (setEncoding c (d ++ [z])).
Proof.
  intros Hz Hd. apply (block_word c headerencoding d z _ (at_header (setEncoding c (d ++ [z])))); try done. by_decision.
Qed.

(** ** Commits *)

(** A commit the text can say. *)
Record commit_ok (c : Commit) : Prop := {
  co_tree : wf_id (cTreeHash c);
  co_parents : Forall wf_id (cParentHashes c);
  co_author : sig_ok (cAuthor c);
  co_committer : sig_ok (cCommitter c);
  co_mergetag : cMergeTag c = [] \/ multi_ok (cMergeTag c);
  co_pgp : cPGPSignature c = [] \/ multi_ok (cPGPSignature c);
  co_encoding : cEncoding c = defaultUtf8CommitMessageEncoding \/ exists d z, cEncoding c = d ++ [z] /\ solid z /\ x0a ∉ d;
  co_extra : Forall extra_ok (cExtraHeaders c) }.

(** The headers of a commit, in order. *)
Definition headers (c : Commit) (includeSig : bool) : list bytes :=
  [bs "tree " ++ ObjectID_String (cTreeHash c)] ++
  map (fun p => bs "parent " ++ ObjectID_String p) (cParentHashes c) ++
  [bs "author " ++ Signature_Encode (cAuthor c); bs "committer " ++ Signature_Encode (cCommitter c)] ++
  (if negb (bool_decide (cMergeTag c = [])) then [headermergetag ++ x20 :: continued (cMergeTag c)] else []) ++
  (if negb (bool_decide (cEncoding c = [])) && negb (bool_decide (cEncoding c = defaultUtf8CommitMessageEncoding))
   then [headerencoding ++ x20 :: cEncoding c] else []) ++
  map ExtraHeader_Format (cExtraHeaders c) ++
  (if negb (bool_decide (cPGPSignature c = [])) && includeSig then [headerpgp ++ x20 :: continued (cPGPSignature c)] else []).

Lemma newline_lines ts r : flat_map (fun t => x0a :: t) ts ++ x0a :: r = x0a :: lines_of ts ++ r.
Proof.
  induction ts as [|t ts IH]; [done|]. unfold lines_of in *. cbn [flat_map app]. rewrite <- app_assoc, IH. by app_norm.
Qed.

Lemma flat_map_map {A B C} (f : A -> B) (g : B -> list C) l : flat_map g (map f l) = flat_map (fun x => g (f x)) l.
Proof. induction l as [|x l IH]; [done|]. cbn [map flat_map]. by rewrite IH. Qed.

Lemma encodeCommit_headers c sig : encodeCommit c sig = lines_of (headers c sig) ++ x0a :: cMessage c.
Proof.
  unfold encodeCommit, headers. rewrite !lines_of_app.
  set (mt := if negb (bool_decide (cMergeTag c = [])) then [headermergetag ++ x20 :: continued (cMergeTag c)] else []).
  set (en := if negb (bool_decide (cEncoding c = [])) && _ then [headerencoding ++ x20 :: cEncoding c] else []).
  set (pg := if negb (bool_decide (cPGPSignature c = [])) && sig then [headerpgp ++ x20 :: continued (cPGPSignature c)] else []).
  assert ((if negb (bool_decide (cMergeTag c = [])) then [x0a] ++ headermergetag ++ [x20] ++ continued (cMergeTag c) else []) =
    flat_map (fun t => x0a :: t) mt) as -> by (unfold mt; destruct (negb _); cbn [flat_map]; by rewrite ?app_nil_r).
  assert ((if negb (bool_decide (cEncoding c = [])) && negb (bool_decide (cEncoding c = defaultUtf8CommitMessageEncoding))
    then [x0a] ++ headerencoding ++ [x20] ++ cEncoding c else []) = flat_map (fun t => x0a :: t) en) as ->
    by (unfold en; destruct (negb _ && _); cbn [flat_map]; by rewrite ?app_nil_r).
  assert ((if negb (bool_decide (cPGPSignature c = [])) && sig then [x0a] ++ headerpgp ++ [x20] ++ continued (cPGPSignature c) else []) =
    flat_map (fun t => x0a :: t) pg) as ->
    by (unfold pg; destruct (negb (bool_decide (cPGPSignature c = [])) && sig); [cbn [flat_map]; by rewrite app_nil_r|done]).
  assert (flat_map (fun h => [x0a] ++ ExtraHeader_Format h) (cExtraHeaders c) =
    flat_map (fun t => x0a :: t) (map ExtraHeader_Format (cExtraHeaders c))) as -> by (by rewrite flat_map_map).
  assert (flat_map (fun parent => bs "parent " ++ ObjectID_String parent ++ [x0a]) (cParentHashes c) =
    lines_of (map (fun p => bs "parent " ++ ObjectID_String p) (cParentHashes c))) as ->.
  { unfold lines_of. rewrite flat_map_map. apply flat_map_ext. intros p. by rewrite <- app_assoc. }
  change ([x0a; x0a] ++ cMessage c) with (x0a :: x0a :: cMessage c).
  pose proof (newline_lines (mt ++ en ++ map ExtraHeader_Format (cExtraHeaders c) ++ pg) (x0a :: cMessage c)) as E.
  rewrite !flat_map_app, !lines_of_app, <- !app_assoc in E.
  rewrite E. set (tail := lines_of mt ++ _).
  assert (forall a b, lines_of [a; b] = a ++ [x0a] ++ b ++ [x0a]) as L2 by (intros a b; unfold lines_of; cbn [flat_map]; by rewrite app_nil_r, <- !app_assoc).
  assert (forall a, lines_of [a] = a ++ [x0a]) as L1 by (intros a; unfold lines_of; cbn [flat_map]; by rewrite app_nil_r).
  rewrite L1, L2, <- !app_assoc. done.
Qed.

Lemma blocks_parents ps c : Forall wf_id ps -> blocks c (map (fun p => bs "parent " ++ ObjectID_String p) ps) (foldl addParent c ps).
Proof.
  intros Hps. revert c. induction Hps as [|p ps Hp _ IH]; intros c; cbn [map blocks foldl]; [done|].
  exists (addParent c p). split; [by apply block_parent|]. split; [done|]. apply IH.
Qed.

Lemma foldl_addParent ps c : foldl addParent c ps =
  mkCommit (cHash c) (cAuthor c) (cCommitter c) (cMergeTag c) (cPGPSignature c) (cMessage c) (cTreeHash c) (cParentHashes c ++ ps) (cEncoding c) (cExtraHeaders c).
Proof.
  revert c. induction ps as [|p ps IH]; intros c; cbn [foldl]; [rewrite app_nil_r; by destruct c|].
  rewrite IH. cbn. by rewrite <- app_assoc.
Qed.

Lemma blocks_extras hs c : Forall extra_ok hs -> blocks c (map ExtraHeader_Format hs) (foldl addExtra c hs).
Proof.
  intros Hhs. revert c. induction Hhs as [|h hs Hh _ IH]; intros c; cbn [map blocks foldl]; [done|].
  exists (addExtra c h). split; [by apply block_extra|]. split; [|apply IH].
  destruct Hh as [(Hne & Hk & _) _]. unfold ExtraHeader_Format. rewrite <- app_assoc. by apply solid_start.
Qed.

Lemma foldl_addExtra hs c : foldl addExtra c hs =
  mkCommit (cHash c) (cAuthor c) (cCommitter c) (cMergeTag c) (cPGPSignature c) (cMessage c) (cTreeHash c) (cParentHashes c) (cEncoding c) (cExtraHeaders c ++ hs).
Proof.
  revert c. induction hs as [|h hs IH]; intros c; cbn [foldl]; [rewrite app_nil_r; by destruct c|].
  rewrite IH. cbn. by rewrite <- app_assoc.
Qed.

Lemma blocks_one c t c' : block c t c' -> startsWithSpace (t ++ [x0a]) = false -> blocks c [t] c'.
Proof. intros Hb Hs. exists c'. done. Qed.

(** The headers rebuild the commit. *)
Lemma blocks_headers c sig h : commit_ok c ->
  blocks (setEncoding (setHash newCommit h) defaultUtf8CommitMessageEncoding) (headers c sig)
    (mkCommit h (cAuthor c) (cCommitter c) (cMergeTag c) (if sig then cPGPSignature c else []) [] (cTreeHash c) (cParentHashes c)
       (cEncoding c) (cExtraHeaders c)).
Proof.
  intros [H1 H2 H3 H4 H5 H6 H7 H8]. unfold headers.
  eapply blocks_app; [apply blocks_one; [by apply block_tree|done]|].
  eapply blocks_app; [by apply blocks_parents|]. rewrite foldl_addParent.
  cbn [setTree setEncoding setHash newCommit cHash cAuthor cCommitter cMergeTag cPGPSignature cMessage cTreeHash cParentHashes cEncoding cExtraHeaders app].
  eapply (blocks_app _ [_; _]).
  { eexists. split; [by apply block_author|]. split; [done|]. apply blocks_one; [by apply block_committer|done]. }
  eapply (blocks_app _ _ (mkCommit h (cAuthor c) (cCommitter c) (cMergeTag c) [] [] (cTreeHash c) (cParentHashes c) defaultUtf8CommitMessageEncoding [])).
  { destruct H5 as [E|Hm]; [by rewrite E|]. rewrite bool_decide_eq_false_2.
    - cbn [negb]. apply blocks_one; [|done]. exact (block_mergetag _ _ Hm).
    - intros E. destruct Hm as (l0 & z & ls & Em & _). rewrite E in Em. cbn in Em. by destruct l0. }
  eapply (blocks_app _ _ (mkCommit h (cAuthor c) (cCommitter c) (cMergeTag c) [] [] (cTreeHash c) (cParentHashes c) (cEncoding c) [])).
  { destruct (decide (cEncoding c = defaultUtf8CommitMessageEncoding)) as [E|Hne].
    - rewrite (bool_decide_eq_true_2 _ E). cbn [negb]. rewrite andb_false_r. cbn [blocks]. by rewrite E.
    - destruct H7 as [E|(d & z & E & Hz & Hd)]; [done|]. rewrite (bool_decide_eq_false_2 _ Hne).
      rewrite bool_decide_eq_false_2 by (rewrite E; by destruct d). cbn [negb andb]. rewrite E.
      apply blocks_one; [|done]. exact (block_encoding _ d z Hz Hd). }
  eapply blocks_app; [by apply blocks_extras|]. rewrite foldl_addExtra.
  cbn [cHash cAuthor cCommitter cMergeTag cPGPSignature cMessage cTreeHash cParentHashes cEncoding cExtraHeaders app].
  destruct sig; [|by rewrite andb_false_r]. rewrite andb_true_r. destruct H6 as [E|Hm]; [by rewrite E|].
  rewrite bool_decide_eq_false_2.
  - cbn [negb]. apply blocks_one; [|done]. exact (block_gpgsig _ _ Hm).
  - intros E. destruct Hm as (l0 & z & ls & Em & _). rewrite E in Em. cbn in Em. by destruct l0.
Qed.

Lemma Decode_encodeCommit c sig h : commit_ok c ->
  DecodeCommit (mkEncoded CommitObject h (encodeCommit c sig)) =
    Ok (mkCommit h (cAuthor c) (cCommitter c) (cMergeTag c) (if sig then cPGPSignature c else []) (cMessage c) (cTreeHash c)
          (cParentHashes c) (cEncoding c) (cExtraHeaders c)).
Proof.
  intros Hok. unfold DecodeCommit, Commit_Decode. cbn [oType oHash oContent]. change (CommitObject =? CommitObject) with true. cbn [negb].
  rewrite encodeCommit_headers.
  rewrite (runs_blocks _ _ _ (cMessage c) (blocks_headers c sig h Hok) (mkDecoding _ false false false [] None)); [done|done|lia].
Qed.

(** ** Reading ends *)

Lemma decodeTime_total s b : exists s', decodeTimeAndTimeZone s b = Ok s'.
Proof.
  unfold decodeTimeAndTimeZone. set (sp := if IndexByte b x20 =? -1 then len b else IndexByte b x20).
  pose proof (len_nonneg b).
  assert (0 <= sp <= len b) as Hsp. { unfold sp. pose proof (IndexByte_bounds b x20) as H'. destruct (Z.eqb_spec (IndexByte b x20) (-1)); lia. }
  take_slice. pose proof (ParseInt_settled x 10 64) as Hs. destruct (ParseInt x 10 64) as [ts|e| |]; try done; [|by eexists].
  destruct (Z.geb_spec (sp + 1) (len b)); [by eexists|]. destruct (Z.gtb_spec (sp + 1 + timeZoneLength) (len b)); [by eexists|].
  cbn [orb]. unfold timeZoneLength in *. do 3 take_slice.
  pose proof (ParseInt_settled x1 10 64). pose proof (ParseInt_settled x2 10 64).
  destruct (ParseInt x1 10 64), (ParseInt x2 10 64); try done; by eexists.
Qed.

Lemma Signature_Decode_total s b : exists s', Signature_Decode s b = Ok s'.
Proof.
  unfold Signature_Decode. destruct (LastIndexByte_bounds b x3c) as [Ho1 Ho2], (LastIndexByte_bounds b x3e) as [Hc1 Hc2].
  destruct (Z.eqb_spec (LastIndexByte b x3c) (-1)); [by eexists|]. destruct (Z.eqb_spec (LastIndexByte b x3e) (-1)); [by eexists|]. cbn [orb].
  destruct (Z.ltb_spec (LastIndexByte b x3e) (LastIndexByte b x3c)); [by eexists|].
  destruct (decide (LastIndexByte b x3c = LastIndexByte b x3e)) as [Eq|Hne].
  { (* the two brackets are different characters *)
    pose proof (LastIndexByte_at b x3c ltac:(done)) as E1. pose proof (LastIndexByte_at b x3e ltac:(done)) as E2.
    rewrite Eq, E2 in E1. discriminate E1. }
  do 2 take_slice. destruct (Z.ltb_spec (LastIndexByte b x3e + 2) (len b)); [|by eexists]. take_slice. apply decodeTime_total.
Qed.

Lemma decodeHeader_total st line orig : exists st', decodeHeader st line orig = Ok st' /\ cHash (dCommit st') = cHash (dCommit st) /\ dMessage st' = dMessage st.
Proof.
  unfold decodeHeader. destruct (SplitN2 line x20) as [key rest].
  destruct (Signature_Decode_total (cAuthor (dCommit st)) (default [] rest)) as [s1 E1].
  destruct (Signature_Decode_total (cCommitter (dCommit st)) (default [] rest)) as [s2 E2]. rewrite E1, E2. cbn [res_bind].
  destruct (parseExtraHeader orig) as [h []]; repeat case_bool_decide; eexists; done.
Qed.

Lemma decodeLine_total st line : exists st' k, decodeCommit_line st line = Ok (st', k) /\ cHash (dCommit st') = cHash (dCommit st) /\
  (dMessage st = true -> dMessage st' = true) /\ (line = [] -> k = true -> dMessage st = false /\ dMessage st' = true).
Proof.
  unfold decodeCommit_line. destruct line as [|b line].
  - cbn [startsWithSpace]. rewrite !andb_false_r. cbn [dPgpsig dExtra dMessage].
    destruct (dExtra st) as [h|]; cbn; destruct (dMessage st) eqn:Em; cbn; do 2 eexists; split_and!; try done.
  - assert (forall st', cHash (dCommit st') = cHash (dCommit st) -> dMessage st' = dMessage st -> forall P : decoding -> bool -> Prop,
      exists st0 k0, (let* st'' := decodeHeader st' (TrimSpace (b :: line)) (b :: line) in Ok (st'', false)) = Ok (st0, k0) /\ cHash (dCommit st0) = cHash (dCommit st) /\
        (dMessage st = true -> dMessage st0 = true) /\ (b :: line = [] -> P st0 k0)) as Hh.
    { intros st' Hst' Hm P. destruct (decodeHeader_total st' (TrimSpace (b :: line)) (b :: line)) as (st0 & E & Ec & Em). rewrite E. cbn.
      do 2 eexists. split_and!; [done|congruence|congruence|done]. }
    destruct (dMergetag st && _); [do 2 eexists; by split_and!|]. cbn [dPgpsig dExtra dMessage dMergetag dMsgbuf dCommit].
    destruct (dPgpsig st && _); [do 2 eexists; by split_and!|]. cbn [dPgpsig dExtra dMessage dMergetag dMsgbuf dCommit].
    destruct (dExtra st) as [h|]; [destruct (startsWithSpace (b :: line)); [do 2 eexists; by split_and!|]|];
      cbn [dPgpsig dExtra dMessage dMergetag dMsgbuf dCommit]; (destruct (negb (dMessage st)); [|do 2 eexists; by split_and!]);
      (destruct (len _ =? 0); [do 2 eexists; by split_and!|by apply (fun st' H H' => Hh st' H H' (fun st0 k0 => k0 = true -> dMessage st = false /\ dMessage st0 = true))]).
Qed.

(** The loop ends within its fuel. *)
Lemma decodeLoop_total fuel : forall st r, (length r + 1 + (if dMessage st then 0 else 1) < fuel)%nat ->
  exists st', decodeCommit_loop fuel st r = Ok st' /\ cHash (dCommit st') = cHash (dCommit st).
Proof.
  induction fuel as [|fuel IH]; intros st r Hf; [lia|]. cbn [decodeCommit_loop].
  destruct (readLine_cases r) as [(l & r' & -> & Hl)|Hr].
  - rewrite readLine_line by done. destruct (decodeLine_total st (l ++ [x0a])) as (st1 & k & E & Ec & Hm & _). rewrite E. cbn [res_bind].
    rewrite andb_false_r. destruct (IH st1 r') as (st' & Ed & Ec'); [|exists st'; split; [done|congruence]].
    rewrite length_app in Hf. cbn [length] in Hf. destruct (dMessage st1), (dMessage st); try lia; by specialize (Hm eq_refl).
  - rewrite readLine_end by done. destruct (decodeLine_total st r) as (st1 & k & E & Ec & Hm & Hnil). rewrite E. cbn [res_bind].
    rewrite andb_true_r. destruct k; cbn [negb]; [|by exists st1].
    destruct (IH st1 []) as (st' & Ed & Ec'); [|exists st'; split; [done|congruence]].
    destruct r as [|b r]; [|cbn in *; destruct (dMessage st1), (dMessage st); try lia; by specialize (Hm eq_refl)].
    destruct (Hnil eq_refl eq_refl) as [H1 H2]. rewrite H1 in Hf. rewrite H2. cbn in *. lia.
Qed.

Lemma DecodeCommit_total o : oType o = CommitObject -> exists c, DecodeCommit o = Ok c /\ cHash c = oHash o.
Proof.
  intros Ho. unfold DecodeCommit, Commit_Decode. rewrite Ho. change (CommitObject =? CommitObject) with true. cbn [negb].
  destruct (decodeLoop_total (length (oContent o) + 4) (mkDecoding (setEncoding (setHash newCommit (oHash o)) defaultUtf8CommitMessageEncoding) false false false [] None) (oContent o)) as (st' & E & Ec);
    [cbn; lia|]. rewrite E. cbn [res_bind]. eexists. split; [done|]. exact Ec.
Qed.

(** ** Signed messages *)

Lemma parseSigned_fuel fuel : forall fuel' i n m t, (length i < fuel)%nat -> (length i < fuel')%nat ->
  parseSigned_loop fuel i n m t = parseSigned_loop fuel' i n m t.
Proof.
  induction fuel as [|fuel IH]; intros [|fuel'] i n m t H1 H2; [lia..|]. cbn [parseSigned_loop]. destruct i as [|b i]; [done|].
  destruct (if negb (typeForSignature (b :: i) =? signatureTypeUnknown) then _ else _) as [m' t'].
  destruct (Z.geb_spec (IndexByte (b :: i) x0a) 0); [|done]. apply IH; rewrite length_drop; cbn [length] in *; lia.
Qed.

(** What was found before is kept when nothing is found, and the positions are relative. *)
Lemma parseSigned_shift fuel n m t : forall i k m1 t1 m0 t0, 0 <= k -> (m0 = -1 /\ (m1, t1) = (m, t) \/ 0 <= m0 /\ (m1, t1) = (n + m0, t0)) ->
  let r := parseSigned_loop fuel i k m0 t0 in
  (fst r = -1 /\ parseSigned_loop fuel i (n + k) m1 t1 = (m, t) \/ 0 <= fst r /\ parseSigned_loop fuel i (n + k) m1 t1 = (n + fst r, snd r)).
Proof.
  induction fuel as [|fuel IH]; intros i k m1 t1 m0 t0 Hk HR; cbn zeta; cbn [parseSigned_loop]; [exact HR|].
  destruct i as [|b i]; [exact HR|]. destruct (typeForSignature (b :: i) =? signatureTypeUnknown) eqn:Et; cbn [negb].
  - destruct (Z.geb_spec (IndexByte (b :: i) x0a) 0); [|exact HR].
    replace (n + k + IndexByte (b :: i) x0a + 1) with (n + (k + IndexByte (b :: i) x0a + 1)) by lia. apply IH; [lia|done].
  - destruct (Z.geb_spec (IndexByte (b :: i) x0a) 0); [|right; cbn; done].
    replace (n + k + IndexByte (b :: i) x0a + 1) with (n + (k + IndexByte (b :: i) x0a + 1)) by lia. apply IH; [lia|by right].
Qed.

(** Whole lines before the text. *)
Lemma parseSigned_lines ls b : Forall (fun l => x0a ∉ l) ls -> forall fuel n m t, (length (lines_of ls ++ b) < fuel)%nat ->
  exists m' t', parseSigned_loop fuel (lines_of ls ++ b) n m t = parseSigned_loop fuel b (n + len (lines_of ls)) m' t'.
Proof.
  induction 1 as [|l ls Hl _ IH]; intros fuel n m t Hf.
  { exists m, t. cbn. by rewrite Z.add_0_r. }
  cbn [lines_of flat_map] in *. fold (lines_of ls) in *. rewrite <- !app_assoc in *. cbn [app] in *. destruct fuel as [|fuel]; [lia|].
  assert (forall x, parseSigned_loop (S fuel) (l ++ x0a :: x) n m t =
    let (m', t') := if negb (typeForSignature (l ++ x0a :: x) =? signatureTypeUnknown) then (n, typeForSignature (l ++ x0a :: x)) else (m, t) in
    parseSigned_loop fuel x (n + len l + 1) m' t') as ->.
  { intros x. pose proof (IndexByte_split l x0a x Hl) as Ei. pose proof (len_nonneg l). cbn [parseSigned_loop].
    destruct (l ++ x0a :: x) as [|y z] eqn:E; [by destruct l|]. rewrite Ei, <- E.
    destruct (if negb _ then _ else _) as [m' t']. destruct (Z.geb_spec (len l) 0); [|lia]. f_equal.
    unfold len. rewrite Nat2Z.id. change (x0a :: x) with ([x0a] ++ x). rewrite app_assoc. 
    replace (S (length l)) with (length (l ++ [x0a])) by (rewrite length_app; cbn; lia). apply drop_app_length. }
  destruct (if negb _ then _ else _) as [m' t']. rewrite length_app in Hf. cbn [length] in Hf.
  destruct (IH fuel (n + len l + 1) m' t' ltac:(lia)) as (m'' & t'' & ->). exists m'', t''.
  rewrite length_app in Hf. rewrite (parseSigned_fuel fuel (S fuel)) by lia. f_equal. rewrite len_app, len_cons. lia.
Qed.

(** A text of whole lines. *)
Definition whole_lines (a : bytes) : Prop := a = [] \/ last a = Some x0a.

Lemma whole_lines_of a : whole_lines a -> exists ls, a = lines_of ls /\ Forall (fun l => x0a ∉ l) ls.
Proof.
  intros [->|Hl]; [by exists []|]. apply last_Some in Hl as [a' ->]. exists (Split a' x0a).
  pose proof (Split_pieces a' x0a) as Hp. pose proof (Join_Split a' x0a) as Hj.
  destruct (Split a' x0a) as [|l0 ls] eqn:E; [by apply Split_nonempty in E|]. split; [|done]. by rewrite <- Join_lines, Hj.
Qed.

Lemma parseSigned_app msg sig t : whole_lines msg -> parseSignedBytes sig = (0, t) -> parseSignedBytes (msg ++ sig) = (len msg, t).
Proof.
  intros Hw Hs. destruct (whole_lines_of msg Hw) as (ls & -> & Hls). unfold parseSignedBytes in *.
  destruct (parseSigned_lines ls sig Hls (S (length (lines_of ls ++ sig))) 0 (-1) signatureTypeUnknown) as (m' & t' & ->); [lia|].
  rewrite (parseSigned_fuel _ (S (length sig))); [|rewrite length_app; lia|lia].
  destruct (parseSigned_shift (S (length sig)) (len (lines_of ls)) m' t' sig 0 m' t' (-1) signatureTypeUnknown) as [[H' _]|[_ H']]; [lia|by left|..];
    rewrite Hs in H'; cbn [fst snd] in H'; [lia|]. replace (0 + len (lines_of ls)) with (len (lines_of ls) + 0) by lia. rewrite H'. f_equal. lia.
Qed.

(** ** Tags *)

(** The types [ParseObjectType] reads. *)
Definition named_type (t : ObjectType) : Prop := t ∈ [CommitObject; TreeObject; BlobObject; TagObject; OFSDeltaObject; REFDeltaObject].

(** A tag the text can say. *)
Record tag_ok (t : Tag) : Prop := {
  to_target : wf_id (gTarget t);
  to_type : named_type (gTargetType t);
  to_name : exists d z, gName t = d ++ [z] /\ solid z /\ x0a ∉ d;
  to_tagger : sig_ok (gTagger t);
  to_message : gPGPSignature t = [] /\ fst (parseSignedBytes (gMessage t)) = -1 \/
               whole_lines (gMessage t) /\ fst (parseSignedBytes (gPGPSignature t)) = 0 }.

Lemma tag_word fuel t key d z r t' : key <> [] -> Forall solid key -> solid z -> x0a ∉ d ->
  decodeTagHeader t (key ++ x20 :: d ++ [z]) = Ok t' ->
  decodeTag_loop (S fuel) t ((key ++ x20 :: d ++ [z]) ++ x0a :: r) = decodeTag_loop fuel t' r.
Proof.
  intros Hne Hk Hz Hd Hdec. cbn [decodeTag_loop]. rewrite readLine_line.
  - rewrite word_trim by done. rewrite len_app. destruct key as [|a key]; [done|]. rewrite len_cons. pose proof (len_nonneg key).
    pose proof (len_nonneg (x20 :: d ++ [z])). destruct (Z.eqb_spec (len key + 1 + len (x20 :: d ++ [z])) 0); [lia|].
    destruct (Z.eqb_spec (1 + len key + len (x20 :: d ++ [z])) 0); [lia|]. rewrite Hdec. cbn [res_bind andb]. done.
  - rewrite not_elem_of_app, not_elem_of_cons, not_elem_of_app. split; [by apply solid_nonewline|]. split; [done|]. split; [done|].
    intros Hin. apply list_elem_of_singleton in Hin. subst z. by destruct Hz.
Qed.

Lemma type_text ty : named_type ty -> exists d z, ObjectType_String ty = d ++ [z] /\ solid z /\ x0a ∉ d /\ ParseObjectType (d ++ [z]) = Ok ty.
Proof.
  intros Hty. assert (Forall (fun ty => exists d z, ObjectType_String ty = d ++ [z] /\ solid z /\ x0a ∉ d /\ ParseObjectType (d ++ [z]) = Ok ty)
    [CommitObject; TreeObject; BlobObject; TagObject; OFSDeltaObject; REFDeltaObject]) as Hall; [|rewrite Forall_forall in Hall; by apply Hall].
  clear Hty ty.
  assert (forall ty d z, bool_decide (ObjectType_String ty = d ++ [z] /\ solid z /\ x0a ∉ d /\ ParseObjectType (d ++ [z]) = Ok ty) = true ->
    exists d z, ObjectType_String ty = d ++ [z] /\ solid z /\ x0a ∉ d /\ ParseObjectType (d ++ [z]) = Ok ty) as Hb.
  { intros ty d z Hb. exists d, z. by apply bool_decide_eq_true in Hb. }
  repeat constructor.
  - apply (Hb _ (bs "commi") x74). vm_compute. reflexivity.
  - apply (Hb _ (bs "tre") x65). vm_compute. reflexivity.
  - apply (Hb _ (bs "blo") x62). vm_compute. reflexivity.
  - apply (Hb _ (bs "ta") x67). vm_compute. reflexivity.
  - apply (Hb _ (bs "ofs-delt") x61). vm_compute. reflexivity.
  - apply (Hb _ (bs "ref-delt") x61). vm_compute. reflexivity.
Qed.

(** The headers of a tag are read back. *)
Lemma decodeTag_headers t h body fuel : tag_ok t -> (5 <= fuel)%nat ->
  decodeTag_loop fuel (mkTag h [] zeroSignature [] [] InvalidObject ZeroHash)
    (bs "object " ++ ObjectID_String (gTarget t) ++ [x0a] ++ bs "type " ++ ObjectType_String (gTargetType t) ++ [x0a] ++
     bs "tag " ++ gName t ++ [x0a] ++ bs "tagger " ++ Signature_Encode (gTagger t) ++ [x0a; x0a] ++ body) =
  Ok (mkTag h (gName t) (gTagger t) [] [] (gTargetType t) (gTarget t), Some body).
Proof.
  intros [H1 H2 (dn & zn & En & Hzn & Hdn) H4 _] Hf. do 5 (destruct fuel as [|fuel]; [lia|]). clear Hf.
  destruct (id_text _ H1) as (d1 & z1 & E1 & Hz1 & Hd1). destruct (type_text _ H2) as (d2 & z2 & E2 & Hz2 & Hd2 & Hp).
  destruct (sig_text _ H4) as (d4 & z4 & E4 & Hz4 & Hd4).
  rewrite E1, E2, En, E4.
  transitivity (decodeTag_loop (S (S (S (S (S fuel))))) (mkTag h [] zeroSignature [] [] InvalidObject ZeroHash)
    ((bs "object" ++ x20 :: d1 ++ [z1]) ++ x0a :: (bs "type" ++ x20 :: d2 ++ [z2]) ++ x0a ::
     (bs "tag" ++ x20 :: dn ++ [zn]) ++ x0a :: (bs "tagger" ++ x20 :: d4 ++ [z4]) ++ x0a :: x0a :: body)).
  { reflexivity. }
  erewrite tag_word; [|done|by_decision|done|done|].
  2: { unfold decodeTagHeader. rewrite SplitN2_app by by_decision. cbn [second res_bind]. rewrite <- E1, (NewHash_String _ H1). reflexivity. }
  erewrite tag_word; [|done|by_decision|done|done|].
  2: { unfold decodeTagHeader. rewrite SplitN2_app by by_decision. cbn [second res_bind]. rewrite Hp. reflexivity. }
  erewrite tag_word; [|done|by_decision|done|done|].
  2: { unfold decodeTagHeader. rewrite SplitN2_app by by_decision. reflexivity. }
  erewrite tag_word; [|done|by_decision|done|done|].
  2: { unfold decodeTagHeader. rewrite SplitN2_app by by_decision. cbn [second res_bind gTagger]. rewrite <- E4.
       pose proof (Signature_roundtrip (gTagger t) [] [] H4) as Hs. fold zeroSignature in Hs. cbn. rewrite Hs. reflexivity. }
  reflexivity.
Qed.

Lemma DecodeTag_encode t h : tag_ok t ->
  DecodeTag (mkEncoded TagObject h (encodeTag t true)) =
    Ok (mkTag h (gName t) (gTagger t) (gMessage t) (gPGPSignature t) (gTargetType t) (gTarget t)).
Proof.
  intros Hok. unfold DecodeTag, Tag_Decode. cbn [oType oHash oContent]. change (TagObject =? TagObject) with true. cbn [negb].
  unfold encodeTag. unfold newTag. cbn [gName gTagger gMessage gPGPSignature gTargetType gTarget].
  rewrite decodeTag_headers by (done || (rewrite !length_app; cbn; lia)). cbn [res_bind gName gTagger gMessage gPGPSignature gTargetType gTarget gHash].
  destruct (to_message t Hok) as [[E Hm]|[Hw Hs]].
  - rewrite E, app_nil_r. destruct (parseSignedBytes (gMessage t)) as [sm ty]. cbn in Hm. subst sm. reflexivity.
  - destruct (parseSignedBytes (gPGPSignature t)) as [sm ty] eqn:Ep. cbn in Hs. subst sm.
    rewrite (parseSigned_app _ _ ty Hw Ep). pose proof (len_nonneg (gMessage t)). destruct (Z.geb_spec (len (gMessage t)) 0); [|lia].
    rewrite slice_app_r by done. cbn [res_bind]. by rewrite slice_app_l.
Qed.

(** A header without a space: index out of range. *)
Lemma DecodeTag_panics key r : key ∈ [bs "object"; bs "type"; bs "tag"; bs "tagger"] -> forall h,
  DecodeTag (mkEncoded TagObject h (key ++ x0a :: r)) = Panic.
Proof.
  intros Hk h. unfold DecodeTag, Tag_Decode. cbn [oType oHash oContent]. change (TagObject =? TagObject) with true. cbn [negb].
  rewrite Nat.add_comm. cbn [Nat.add decodeTag_loop].
  assert (Forall (fun key => x0a ∉ key /\ TrimSpace (key ++ [x0a]) = key /\ (len key =? 0) = false /\ SplitN2 key x20 = (key, None))
    [bs "object"; bs "type"; bs "tag"; bs "tagger"]) as Hall by (apply (bool_decide_unpack _); vm_compute; exact I).
  rewrite Forall_forall in Hall. destruct (Hall key Hk) as (Hn & Ht & Hl & Hs). rewrite readLine_line by done. rewrite Ht, Hl.
  unfold decodeTagHeader. rewrite Hs.
  rewrite !elem_of_cons in Hk. destruct Hk as [-> | [-> | [-> | [-> | Hk]]]]; try reflexivity. by apply not_elem_of_nil in Hk.
Qed.

(** ** The theorems *)

(** C26: a commit is read back from what [Commit.Encode] writes, with the hash of the object, and
    from what [EncodeWithoutSignature] writes, without its signature: for commits whose
    identifiers are well formed, whose signatures keep to what their text can say (zones of
    whole minutes, and west of Greenwich of an hour at least), whose merge tag and
    signature are whole lines that do not begin with a space, and whose extra headers do
    not end in a newline. *)
Theorem commit_roundtrip c h : commit_ok c ->
  DecodeCommit (mkEncoded (fst (Commit_Encode c)) h (snd (Commit_Encode c))) = Ok (setHash c h) /\
  DecodeCommit (mkEncoded CommitObject h (snd (Commit_EncodeWithoutSignature c))) =
    Ok (mkCommit h (cAuthor c) (cCommitter c) (cMergeTag c) [] (cMessage c) (cTreeHash c) (cParentHashes c) (cEncoding c) (cExtraHeaders c)).
Proof. intros Hok. split; [exact (Decode_encodeCommit c true h Hok)|exact (Decode_encodeCommit c false h Hok)]. Qed.

(** A commit with everything in it. *)
Definition sample_signature : Signature := mkSignature (bs "A U Thor") (bs "author@example.com") (mkTime 1257894000 0 (-19800)).
Definition sample_commit : Commit :=
  mkCommit ZeroHash sample_signature sample_signature (bs "object 1" ++ [x0a] ++ bs "type commit" ++ [x0a])
    (bs "-----BEGIN PGP SIGNATURE-----" ++ [x0a; x0a] ++ bs "iQ" ++ [x0a]) (bs "Message" ++ [x0a])
    (NewHash (bs "8dcef98b1d52143e1e2dbc458ffe38f925786bf2")) [ZeroHash; ZeroHash] (bs "ISO-8859-1")
    [mkExtra (bs "foo") (bs "bar" ++ [x0a] ++ bs "  baz"); mkExtra (bs "empty") []].

Lemma sample_signature_ok : sig_ok sample_signature.
Proof.
  split; [vm_compute; reflexivity|by_decision|by_decision|vm_compute; split; [intros H; discriminate H|reflexivity]|reflexivity|].
  exists 5, 30. split; [lia|]. split; [lia|]. right. split; [lia|]. vm_compute. reflexivity.
Qed.

Lemma sample_commit_ok : commit_ok sample_commit.
Proof.
  split; try exact sample_signature_ok.
  - split; [vm_compute; reflexivity|right; vm_compute; split; reflexivity].
  - repeat constructor; right; split; reflexivity.
  - right. exists (bs "object "), x31, [bs "type commit"]. split; [reflexivity|]. by_decision.
  - right. exists (bs "-----BEGIN PGP SIGNATURE----"), x2d, [[]; bs "iQ"]. split; [reflexivity|]. by_decision.
  - right. exists (bs "ISO-8859-"), x31. split; [reflexivity|]. by_decision.
  - constructor; [|constructor; [|constructor]]; split; by_decision.
Qed.

Lemma commit_roundtrip_witness :
  commit_ok sample_commit /\ DecodeCommit (mkEncoded CommitObject ZeroHash (encodeCommit sample_commit true)) = Ok sample_commit.
Proof. split; [exact sample_commit_ok|]. exact (proj1 (commit_roundtrip sample_commit ZeroHash sample_commit_ok)). Defined.

(** Reading a commit never fails, panics or runs on: an object of another type is refused, and
    any bytes at all give a commit with the hash of the object. *)
Theorem commit_decode_total o :
  (oType o <> CommitObject -> DecodeCommit o = Err ErrUnsupportedObject) /\
  (oType o = CommitObject -> exists c, DecodeCommit o = Ok c /\ cHash c = oHash o).
Proof.
  split; [|apply DecodeCommit_total]. intros Ho. unfold DecodeCommit, Commit_Decode. by rewrite (proj2 (Z.eqb_neq _ _) Ho).
Qed.

Lemma commit_decode_total_witness : exists c, DecodeCommit (mkEncoded CommitObject ZeroHash (bs "author")) = Ok c /\ cHash c = ZeroHash.
Proof. apply (proj2 (commit_decode_total (mkEncoded CommitObject ZeroHash (bs "author")))). reflexivity. Defined.

(** A tag is read back from what [Tag.Encode] writes, with the hash of the object and the
    signature apart from the message: for a well-formed target of a known type, a name
    that ends in a visible character, and a message of whole lines before a signature. *)
Theorem tag_roundtrip t h : tag_ok t ->
  DecodeTag (mkEncoded (fst (Tag_Encode t)) h (snd (Tag_Encode t))) =
    Ok (mkTag h (gName t) (gTagger t) (gMessage t) (gPGPSignature t) (gTargetType t) (gTarget t)).
Proof. apply DecodeTag_encode. Qed.

Definition sample_tag : Tag :=
  mkTag ZeroHash (bs "v1.0") sample_signature (bs "release" ++ [x0a]) (bs "-----BEGIN SSH SIGNATURE-----" ++ [x0a]) CommitObject ZeroHash.

Lemma sample_tag_ok : tag_ok sample_tag.
Proof.
  split; [split; [reflexivity|right; split; reflexivity]|by_decision| |exact sample_signature_ok|].
  - exists (bs "v1."), x30. split; [reflexivity|]. by_decision.
  - right. split; [right; reflexivity|vm_compute; reflexivity].
Qed.

Lemma tag_roundtrip_witness : tag_ok sample_tag /\ DecodeTag (mkEncoded TagObject ZeroHash (encodeTag sample_tag true)) = Ok sample_tag.
Proof. split; [exact sample_tag_ok|]. exact (tag_roundtrip sample_tag ZeroHash sample_tag_ok). Defined.

Lemma DecodeCommit_nopanic o : DecodeCommit o <> Panic.
Proof.
  destruct (decide (oType o = CommitObject)) as [E|E]; [by destruct (DecodeCommit_total o E) as (c & -> & _)|].
  unfold DecodeCommit, Commit_Decode. by rewrite (proj2 (Z.eqb_neq _ _) E).
Qed.

(** ** The headers of a tag that are read without a panic *)

(** The header lines of a text: its lines without the white space around them, up to the first blank one. *)
Fixpoint up_to_blank (ls : list bytes) : list bytes :=
  match ls with
  | [] => []
  | l :: ls => if bool_decide (TrimSpace l = []) then [] else TrimSpace l :: up_to_blank ls
  end.
Definition header_lines (content : bytes) : list bytes := up_to_blank (Split content x0a).
Definition tag_keywords : list bytes := [bs "object"; bs "type"; bs "tag"; bs "tagger"].

(** No header line is a keyword alone. *)
Definition tag_headers_ok (content : bytes) : Prop := Forall (fun l => l ∉ tag_keywords) (header_lines content).

Lemma decodeTagHeader_nopanic t line : line ∉ tag_keywords -> decodeTagHeader t line <> Panic.
Proof.
  intros Hl. unfold decodeTagHeader. destruct (decide (x20 ∈ line)) as [Hin|Hno].
  - destruct (split_first line x20 Hin) as (a & b & -> & Ha). rewrite SplitN2_app by done. cbn [second res_bind].
    destruct (Signature_Decode_total (gTagger t) b) as [s ->]. repeat case_bool_decide; try done. unfold ParseObjectType. by repeat case_bool_decide.
  - rewrite SplitN2_none by done. unfold tag_keywords in Hl. rewrite !not_elem_of_cons in Hl. destruct_and!. by rewrite !bool_decide_eq_false_2.
Qed.

Lemma decodeTag_loop_nopanic fuel : forall t r, tag_headers_ok r -> decodeTag_loop fuel t r <> Panic.
Proof.
  unfold tag_headers_ok, header_lines. induction fuel as [|fuel IH]; intros t r Hr; cbn [decodeTag_loop]; [done|].
  destruct (readLine_cases r) as [(l & r' & -> & Hl)|Hr'].
  - rewrite Split_cons in Hr by done. rewrite readLine_line, TrimSpace_newline by done. cbn [up_to_blank] in Hr.
    destruct (Z.eqb_spec (len (TrimSpace l)) 0) as [|Hne]; [done|]. rewrite bool_decide_eq_false_2 in Hr by (by intros E; rewrite E in Hne).
    apply Forall_cons in Hr as [Hk Hr]. pose proof (decodeTagHeader_nopanic t _ Hk) as Hd. destruct (decodeTagHeader t (TrimSpace l)); try done. by apply IH.
  - rewrite Split_single in Hr by done. rewrite readLine_end by done. cbn [up_to_blank] in Hr.
    destruct (Z.eqb_spec (len (TrimSpace r)) 0) as [|Hne]; [done|]. rewrite bool_decide_eq_false_2 in Hr by (by intros E; rewrite E in Hne).
    apply Forall_cons in Hr as [Hk Hr]. pose proof (decodeTagHeader_nopanic t _ Hk) as Hd. destruct (decodeTagHeader t (TrimSpace r)); try done.
    cbn [res_bind andb]. destruct (negb _); [done|]. apply IH. by cbn.
Qed.

Lemma parseSigned_bounds fuel b : forall n m t, 0 <= n -> m <= n -> (parseSigned_loop fuel b n m t).1 <= n + len b.
Proof.
  revert b. induction fuel as [|fuel IH]; intros b n m t Hn Hm; pose proof (len_nonneg b); cbn [parseSigned_loop]; [cbn; lia|].
  destruct b as [|x b]; [cbn; lia|]. set (i := x :: b) in *.
  assert (forall m t, m <= n -> (if IndexByte i x0a >=? 0 then parseSigned_loop fuel (drop (S (Z.to_nat (IndexByte i x0a))) i) (n + IndexByte i x0a + 1) m t else (m, t)).1 <= n + len i) as Hi;
    [|by destruct (negb _); apply Hi].
  clear m t Hm. intros m t Hm. rewrite Z.geb_leb. destruct (decide (x0a ∈ i)) as [Hin|Hno].
  - destruct (split_first i x0a Hin) as (u & v & E & Hu). rewrite E, IndexByte_split by done. pose proof (len_nonneg u). rewrite (proj2 (Z.leb_le 0 _)) by done.
    rewrite len_app, len_cons. replace (drop _ _) with v.
    + specialize (IH v (n + len u + 1) m t ltac:(lia) ltac:(lia)). lia.
    + unfold len. rewrite Nat2Z.id. replace (S (length u)) with (length (u ++ [x0a])) by (rewrite length_app; cbn; lia).
      change (x0a :: v) with ([x0a] ++ v). by rewrite app_assoc, drop_app_length.
  - rewrite IndexByte_none by done. cbn. lia.
Qed.

(** Reading a tag panics on no other header than a keyword alone. *)
Lemma DecodeTag_nopanic o : (oType o = TagObject -> tag_headers_ok (oContent o)) -> DecodeTag o <> Panic.
Proof.
  intros Ho. unfold DecodeTag, Tag_Decode. destruct (Z.eqb_spec (oType o) TagObject) as [Et|]; [|done]. specialize (Ho Et). cbn [negb].
  set (t0 := mkTag _ _ _ _ _ _ _). clearbody t0. pose proof (decodeTag_loop_nopanic (length (oContent o) + 2) t0 _ Ho) as Hl.
  destruct (decodeTag_loop _ _ _) as [[t [data|]]|e| |]; try done. cbn [res_bind].
  pose proof (parseSigned_bounds (S (length data)) data 0 (-1) signatureTypeUnknown) as Hb. unfold parseSignedBytes. destruct (parseSigned_loop _ _ _ _ _) as [sm ty].
  cbn [fst] in Hb. rewrite Z.geb_leb. destruct (Z.leb_spec 0 sm); [|done]. rewrite !slice_ok by (pose proof (len_nonneg data); lia). done.
Qed.

(** A tag with a header line that has no space after its keyword is not refused: the code
    panics, whatever follows; so does the text [Encode] writes for a tag without a name. *)
Theorem tag_decode_panics key r h : key ∈ [bs "object"; bs "type"; bs "tag"; bs "tagger"] ->
  DecodeTag (mkEncoded TagObject h (key ++ x0a :: r)) = Panic.
Proof. intros Hk. by apply DecodeTag_panics. Qed.

Lemma tag_decode_panics_witness : DecodeTag (mkEncoded TagObject ZeroHash (bs "object" ++ [x0a])) = Panic.
Proof. apply (tag_decode_panics (bs "object") [] ZeroHash). by left. Defined.
