(* ===== verification/Trees.v ===== *)
(** * plumbing/object: trees, blobs and files

    Model of tree.go, blob.go, file.go and the object switch of object.go: the
    binary form of trees, looking up paths with the cache of sub-trees, the walk
    over a tree and its sub-trees, and the files it finds.  The object storer is a
    function from a type and a hash to an encoded object. *)
From S2P Require Import Prelude Binary GoStrings GoPath Strconv Filemode ObjectID Memory Objects.

Definition maxTreeDepth : Z := 1024.

Record TreeEntry := mkEntry { teName : bytes; teMode : FileMode; teHash : ObjectID }.

(** The entries and the hash.  The map [m] from names to entries is [buildMap] of the entries
    wherever it is used; the path cache [t] is given apart. *)
Record Tree := mkTree { trEntries : list TreeEntry; trHash : ObjectID }.

Definition zeroEntry : TreeEntry := mkEntry [] Empty ZeroHash.

(** ** Decode *)
Fixpoint decodeTree_loop (fuel : nat) (entries : list TreeEntry) (r : bytes) : res (list TreeEntry) :=
  match fuel with
  | O => NoFuel
  | S fuel =>
    match ReadBytes r x20 with
    | Err e => if bool_decide (e = EOF) then Ok entries else Err e
    | Ok (str, r) =>
      let* str := slice str 0 (len str - 1) in
      let* mode := filemode_New str in
      let* (name, r) := match ReadBytes r x00 with
                        | Err e => if bool_decide (e = EOF) then Ok (r, []) else Err e
                        | x => x
                        end in
      let* (hash, r) := ReadFrom ZeroHash r in
      let* baseName := slice name 0 (len name - 1) in
      decodeTree_loop fuel (entries ++ [mkEntry baseName mode hash]) r
    | Panic => Panic
    | NoFuel => NoFuel
    end
  end.

(** [Tree.Decode] into the value [t]. *)
Definition Tree_Decode (t : Tree) (o : EncodedObj) : res Tree :=
  if negb (oType o =? TreeObject) then Err ErrUnsupportedObject
  else if len (oContent o) =? 0 then Ok (mkTree (trEntries t) (oHash o))
  else let* entries := decodeTree_loop (S (length (oContent o))) [] (oContent o) in Ok (mkTree entries (oHash o)).

Definition DecodeTree (o : EncodedObj) : res Tree := Tree_Decode (mkTree [] ZeroHash) o.

(** ** Encode *)

(** [TreeEntrySorter.Less] on two entries. *)
Definition sortName (e : TreeEntry) : bytes := if teMode e =? Dir then teName e ++ bs "/" else teName e.
Definition entry_Less (e1 e2 : TreeEntry) : bool := compareBytes (sortName e1) (sortName e2) <? 0.

(** [sort.IsSorted] *)
Fixpoint IsSorted (l : list TreeEntry) : bool :=
  match l with
  | e1 :: (e2 :: _) as l' => negb (entry_Less e2 e1) && IsSorted l'
  | _ => true
  end.

(** The loop of [Encode]: what is written, and the error. *)
Fixpoint encodeEntries (l : list TreeEntry) (w : bytes) : bytes * option error :=
  match l with
  | [] => (w, None)
  | e :: l =>
    if negb (IndexByte (teName e) x00 =? -1) then (w, Some ErrMalformedFilename)
    else encodeEntries l (w ++ FormatOct (teMode e) ++ [x20] ++ teName e ++ [x00] ++ WriteTo (teHash e))
  end.

Definition Tree_Encode (t : Tree) : bytes * option error :=
  if negb (IsSorted (trEntries t)) then ([], Some ErrEntriesNotSorted) else encodeEntries (trEntries t) [].

(** ** Blobs *)
Record Blob := mkBlob { bHash : ObjectID; bSize : Z; bObj : EncodedObj }.

Definition DecodeBlob (o : EncodedObj) : res Blob :=
  if negb (oType o =? BlobObject) then Err ErrUnsupportedObject else Ok (mkBlob (oHash o) (len (oContent o)) o).

Definition Blob_Encode (b : Blob) : ObjectType * bytes := (BlobObject, oContent (bObj b)).

(** The [Object] interface *)
Inductive Object :=
  | OCommit (c : Commit)
  | OTree (t : Tree)
  | OBlob (b : Blob)
  | OTag (t : Tag).

Definition DecodeObject (o : EncodedObj) : res Object :=
  if oType o =? CommitObject then let* c := DecodeCommit o in Ok (OCommit c)
  else if oType o =? TreeObject then let* t := DecodeTree o in Ok (OTree t)
  else if oType o =? BlobObject then let* b := DecodeBlob o in Ok (OBlob b)
  else if oType o =? TagObject then let* t := DecodeTag o in Ok (OTag t)
  else Err ErrInvalidType.

Definition Object_ID (o : Object) : ObjectID :=
  match o with OCommit c => cHash c | OTree t => trHash t | OBlob b => bHash b | OTag t => gHash t end.

Definition Object_Type (o : Object) : ObjectType :=
  match o with OCommit _ => CommitObject | OTree _ => TreeObject | OBlob _ => BlobObject | OTag _ => TagObject end.

(** *** Iterators over the encoded objects of a slice *)
Fixpoint TreeIter_Next (objs : list EncodedObj) : res Tree * list EncodedObj :=
  match objs with
  | [] => (Err EOF, [])
  | o :: objs => if negb (oType o =? TreeObject) then TreeIter_Next objs else (DecodeTree o, objs)
  end.

Fixpoint BlobIter_Next (objs : list EncodedObj) : res Blob * list EncodedObj :=
  match objs with
  | [] => (Err EOF, [])
  | o :: objs => if negb (oType o =? BlobObject) then BlobIter_Next objs else (DecodeBlob o, objs)
  end.

Definition TagIter_Next (objs : list EncodedObj) : res Tag * list EncodedObj :=
  match objs with
  | [] => (Err EOF, [])
  | o :: objs => (DecodeTag o, objs)
  end.

Definition toObject (o : EncodedObj) : res Object :=
  if oType o =? BlobObject then let* b := DecodeBlob o in Ok (OBlob b)
  else if oType o =? TreeObject then let* t := DecodeTree o in Ok (OTree t)
  else if oType o =? CommitObject then let* c := DecodeCommit o in Ok (OCommit c)
  else if oType o =? TagObject then let* t := DecodeTag o in Ok (OTag t)
  else Err ErrInvalidType.

(** A tag whose target type is unknown is skipped like an object of an unknown type. *)
Fixpoint ObjectIter_Next (objs : list EncodedObj) : res Object * list EncodedObj :=
  match objs with
  | [] => (Err EOF, [])
  | o :: objs =>
    match toObject o with
    | Err e => if bool_decide (e = ErrInvalidType) then ObjectIter_Next objs else (Err e, objs)
    | r => (r, objs)
    end
  end.

(** ** Files *)
Record File := mkFile { fName : bytes; fMode : FileMode; fBlob : Blob }.

Definition NewFile (name : bytes) (m : FileMode) (b : Blob) : File := mkFile name m b.
Definition Contents (f : File) : bytes := oContent (bObj (fBlob f)).
Definition Lines (f : File) : res (list bytes) :=
  let splits := Split (Contents f) x0a in
  let* l := index splits (len splits - 1) in
  if bool_decide (l = []) then slice splits 0 (len splits - 1) else Ok splits.

Definition simpleJoin (parent child : bytes) : bytes :=
  if len parent >? 0 then parent ++ bs "/" ++ child else child.

(** [treeEntryIter] *)
Record treeEntryIter := mkIter { iTree : Tree; iPos : Z }.

Definition iter_Next (it : treeEntryIter) : res (TreeEntry * treeEntryIter) :=
  if iPos it >=? len (trEntries (iTree it)) then Err EOF
  else let* e := index (trEntries (iTree it)) (iPos it) in Ok (e, mkIter (iTree it) (iPos it + 1)).

Definition buildMap (t : Tree) : gmap bytes TreeEntry :=
  foldl (fun m e => <[teName e := e]> m) ∅ (trEntries t).

(** [Tree.entry] *)
Definition tree_entry (t : Tree) (baseName : bytes) : res TreeEntry :=
  match buildMap t !! baseName with Some e => Ok e | None => Err ErrEntryNotFound end.

(** ** With an object storer *)
Section Storer.
Context (encodedObject : ObjectType -> ObjectID -> res EncodedObj).

Definition GetTree (h : ObjectID) : res Tree := let* o := encodedObject TreeObject h in DecodeTree o.
Definition GetBlob (h : ObjectID) : res Blob := let* o := encodedObject BlobObject h in DecodeBlob o.
Definition GetObject (h : ObjectID) : res Object := let* o := encodedObject AnyObject h in DecodeObject o.
Definition GetCommit (h : ObjectID) : res Commit := let* o := encodedObject CommitObject h in DecodeCommit o.
Definition GetTag (h : ObjectID) : res Tag := let* o := encodedObject TagObject h in DecodeTag o.

(** [Tree.dir] *)
Definition tree_dir (t : Tree) (baseName : bytes) : res Tree :=
  match tree_entry t baseName with
  | Err _ => Err ErrDirectoryNotFound
  | Ok entry => let* obj := encodedObject TreeObject (teHash entry) in DecodeTree obj
  | Panic => Panic
  | NoFuel => NoFuel
  end.

(** [FindEntry]: the longest cached prefix of at least two names, tried from [i] names on down. *)
Fixpoint findCached (cache : gmap bytes Tree) (parts : list bytes) (i : nat) : option (Tree * list bytes * bytes) :=
  match i with
  | S (S _ as i') =>
    let path := path_Join (take i parts) in
    match cache !! path with
    | Some tree => Some (tree, drop i parts, path)
    | None => findCached cache parts i'
    end
  | _ => None
  end.

(** The walk down the names that are left; the last one is the entry's. *)
Fixpoint findDown (tree : Tree) (pathCurrent : bytes) (cache : gmap bytes Tree) (parts : list bytes) : res TreeEntry * gmap bytes Tree :=
  match parts with
  | [] => (Panic, cache)
  | [p] => (tree_entry tree p, cache)
  | p :: parts =>
    match tree_dir tree p with
    | Ok tree =>
      let pathCurrent := path_Join [pathCurrent; p] in
      findDown tree pathCurrent (<[pathCurrent := tree]> cache) parts
    | Err e => (Err e, cache)
    | Panic => (Panic, cache)
    | NoFuel => (NoFuel, cache)
    end
  end.

Definition FindEntry (t : Tree) (cache : gmap bytes Tree) (path : bytes) : res TreeEntry * gmap bytes Tree :=
  let parts := Split path x2f in
  match findCached cache parts (length parts - 1) with
  | Some (tree, parts, pathCurrent) => findDown tree pathCurrent cache parts
  | None => findDown t [] cache parts
  end.

(** [Tree.File], [Tree.Tree] and [Tree.TreeEntryFile] *)
Definition Tree_File (t : Tree) (cache : gmap bytes Tree) (path : bytes) : res File * gmap bytes Tree :=
  let (e, cache) := FindEntry t cache path in
  (match e with
   | Err _ => Err ErrFileNotFound
   | Ok e =>
     match GetBlob (teHash e) with
     | Err err => if bool_decide (err = ErrObjectNotFound) then Err ErrFileNotFound else Err err
     | Ok blob => Ok (NewFile path (teMode e) blob)
     | Panic => Panic
     | NoFuel => NoFuel
     end
   | Panic => Panic
   | NoFuel => NoFuel
   end, cache).

Definition Tree_Tree (t : Tree) (cache : gmap bytes Tree) (path : bytes) : res Tree * gmap bytes Tree :=
  let (e, cache) := FindEntry t cache path in
  (match e with
   | Err _ => Err ErrDirectoryNotFound
   | Ok e =>
     match GetTree (teHash e) with
     | Err err => if bool_decide (err = ErrObjectNotFound) then Err ErrDirectoryNotFound else Err err
     | x => x
     end
   | Panic => Panic
   | NoFuel => NoFuel
   end, cache).

Definition TreeEntryFile (e : TreeEntry) : res File :=
  let* blob := GetBlob (teHash e) in Ok (NewFile (teName e) (teMode e) blob).

(** ** Walking: the top of the stack is its first element *)
Record TreeWalker := mkWalker { wStack : list treeEntryIter; wBase : bytes; wRecursive : bool }.

Definition NewTreeWalker (t : Tree) (recursive : bool) : TreeWalker := mkWalker [mkIter t 0] [] recursive.

(** [TreeWalker.Next]; [seen] is the map that is shared with the caller.  Every round of the loop takes
    an entry or a tree off the stack. *)
Fixpoint walker_loop (fuel : nat) (seen : gset ObjectID) (w : TreeWalker) : res (bytes * TreeEntry) * TreeWalker :=
  match fuel with
  | O => (NoFuel, w)
  | S fuel =>
    match wStack w with
    | [] => (Err EOF, w)
    | top :: rest =>
      if len (wStack w) - 1 >? maxTreeDepth then (Err ErrMaxTreeDepth, w)
      else
        match iter_Next top with
        | Err _ => walker_loop fuel seen (mkWalker rest (TrimSuffix (fst (path_Split (wBase w))) (bs "/")) (wRecursive w))
        | Ok (entry, top) =>
          let w := mkWalker (top :: rest) (wBase w) (wRecursive w) in
          if bool_decide (teHash entry ∈ seen) then walker_loop fuel seen w
          else
            let name := simpleJoin (wBase w) (teName entry) in
            if teMode entry =? Dir then
              match GetTree (teHash entry) with
              | Err _ => (Err EOF, w)
              | Ok obj =>
                (Ok (name, entry),
                 if wRecursive w then mkWalker (mkIter obj 0 :: wStack w) (simpleJoin (wBase w) (teName entry)) (wRecursive w) else w)
              | Panic => (Panic, w)
              | NoFuel => (NoFuel, w)
              end
            else (Ok (name, entry), w)
        | Panic => (Panic, w)
        | NoFuel => (NoFuel, w)
        end
    end
  end.

Definition remaining (it : treeEntryIter) : nat := Z.to_nat (len (trEntries (iTree it)) - iPos it).
Definition walker_fuel (w : TreeWalker) : nat := S (sum_list_with (fun it => S (remaining it)) (wStack w)).
Definition walker_Next (seen : gset ObjectID) (w : TreeWalker) : res (bytes * TreeEntry) * TreeWalker :=
  walker_loop (walker_fuel w) seen w.

(** [TreeWalker.Tree] *)
Definition walker_Tree (w : TreeWalker) : res (option Tree) :=
  match wStack w with
  | [] => Panic
  | top :: rest =>
    if iPos top =? 0 then match rest with [] => Ok None | next :: _ => Ok (Some (iTree next)) end
    else Ok (Some (iTree top))
  end.

(** [FileIter]: [Next] of the walk up to a file. *)
Fixpoint FileIter_Next (fuel : nat) (w : TreeWalker) : res File * TreeWalker :=
  match fuel with
  | O => (NoFuel, w)
  | S fuel =>
    let (r, w) := walker_Next ∅ w in
    match r with
    | Ok (name, entry) =>
      if (teMode entry =? Dir) || (teMode entry =? Submodule) then FileIter_Next fuel w
      else (match GetBlob (teHash entry) with
            | Ok blob => Ok (NewFile name (teMode entry) blob)
            | Err e => Err e
            | Panic => Panic
            | NoFuel => NoFuel
            end, w)
    | Err e => (Err e, w)
    | Panic => (Panic, w)
    | NoFuel => (NoFuel, w)
    end
  end.

Definition NewFileIter (t : Tree) : TreeWalker := NewTreeWalker t true.

(** [FileIter.ForEach] with a callback over a state; its error [ErrStop] ends the loop. *)
Fixpoint FileIter_ForEach {A} (fuel : nat) (cb : A -> File -> A * option error) (a : A) (w : TreeWalker) : A * option error * bool :=
  match fuel with
  | O => (a, None, false)
  | S fuel' =>
    let (r, w) := FileIter_Next fuel w in
    match r with
    | Err e => (a, if bool_decide (e = EOF) then None else Some e, true)
    | Ok f =>
      let (a, err) := cb a f in
      match err with
      | None => FileIter_ForEach fuel' cb a w
      | Some e => (a, if bool_decide (e = ErrStop) then None else Some e, true)
      end
    | Panic | NoFuel => (a, None, false)
    end
  end.

(** The loop over a walk that its clients run: the names and entries up to the end. *)
Fixpoint walkAll (fuel : nat) (seen : gset ObjectID) (w : TreeWalker) : res (list (bytes * TreeEntry)) :=
  match fuel with
  | O => NoFuel
  | S fuel =>
    let (r, w) := walker_Next seen w in
    match r with
    | Ok x => let* l := walkAll fuel seen w in Ok (x :: l)
    | Err e => if bool_decide (e = EOF) then Ok [] else Err e
    | Panic => Panic
    | NoFuel => NoFuel
    end
  end.

(** ** What commits and tags point to *)
Definition Commit_File (c : Commit) (path : bytes) : res File :=
  let* tree := GetTree (cTreeHash c) in fst (Tree_File tree ∅ path).

Definition Commit_Files (c : Commit) : res TreeWalker :=
  let* tree := GetTree (cTreeHash c) in Ok (NewFileIter tree).

Definition Tag_Commit (t : Tag) : res Commit :=
  if negb (gTargetType t =? CommitObject) then Err ErrUnsupportedObject
  else let* o := encodedObject CommitObject (gTarget t) in DecodeCommit o.

Definition Tag_Tree (t : Tag) : res Tree :=
  if gTargetType t =? CommitObject then let* c := Tag_Commit t in GetTree (cTreeHash c)
  else if gTargetType t =? TreeObject then GetTree (gTarget t)
  else Err ErrUnsupportedObject.

Definition Tag_Blob (t : Tag) : res Blob :=
  if negb (gTargetType t =? BlobObject) then Err ErrUnsupportedObject else GetBlob (gTarget t).

Definition Tag_Object (t : Tag) : res Object :=
  let* o := encodedObject (gTargetType t) (gTarget t) in DecodeObject o.

(** ** treenoder.go: the nodes of a tree that differences are computed on *)
Record treeNoder := mkNoder { nParent : Tree; nName : bytes; nMode : FileMode; nHash : ObjectID }.

Definition NewTreeRootNode (t : option Tree) : treeNoder :=
  match t with
  | None => mkNoder (mkTree [] ZeroHash) [] Empty ZeroHash
  | Some t => mkNoder t [] Dir (trHash t)
  end.

Definition isRoot (t : treeNoder) : bool := bool_decide (nName t = []).
Definition noder_Hash (t : treeNoder) : bytes :=
  if nMode t =? Deprecated then ObjectID_Bytes (nHash t) ++ FileMode_Bytes Regular
  else ObjectID_Bytes (nHash t) ++ FileMode_Bytes (nMode t).
Definition noder_IsDir (t : treeNoder) : bool := nMode t =? Dir.

(** The loop of [transformChildren]: it has as many rounds as the tree has entries, and one more. *)
Fixpoint transform_loop (fuel : nat) (t : Tree) (w : TreeWalker) (ret : list treeNoder) : res (list treeNoder) :=
  match fuel with
  | O => NoFuel
  | S fuel =>
    let (r, w) := walker_Next ∅ w in
    match r with
    | Err e => if bool_decide (e = EOF) then Ok ret else Err e
    | Ok (_, e) => transform_loop fuel t w (ret ++ [mkNoder t (teName e) (teMode e) (teHash e)])
    | Panic => Panic
    | NoFuel => NoFuel
    end
  end.

Definition transformChildren (t : Tree) : res (list treeNoder) :=
  transform_loop (S (length (trEntries t))) t (NewTreeWalker t false) [].

(** [Children]; the list is kept after the first call. *)
Definition noder_Children (t : treeNoder) : res (list treeNoder) :=
  if negb (nMode t =? Dir) then Ok []
  else
    let* parent := if negb (isRoot t) then fst (Tree_Tree (nParent t) ∅ (nName t)) else Ok (nParent t) in
    transformChildren parent.

Definition noder_NumChildren (t : treeNoder) : res Z := let* children := noder_Children t in Ok (len children).

End Storer.
