(* ===== verification/TreesProofs.v ===== *)
(** * Trees: what is written is read back, paths are found, walks are complete

    The binary form of a tree determines its entries ([tree_roundtrip]); the
    cache of sub-trees does not change what [FindEntry] finds ([find_entry_refines]);
    a walk gives every entry of a complete tree once, under its path
    ([tree_walk_complete]), and the files are those entries' blobs
    ([files_complete]); the children of a node end at the first sub-tree that is
    missing ([children_stop_at_missing]). *)
From S2P Require Import Prelude Binary GoStrings GoPath Strconv Filemode ObjectID Memory Objects ObjectsProofs Trees.

(** ** The binary form *)

Lemma ReadBytes_app a c r : c ∉ a -> ReadBytes (a ++ c :: r) c = Ok (a ++ [c], r).
Proof.
  induction a as [|x a IH]; intros Ha; cbn [app ReadBytes]; [by rewrite bool_decide_eq_true_2|].
  apply not_elem_of_cons in Ha as [Hx Ha]. rewrite bool_decide_eq_false_2 by done. by rewrite IH.
Qed.

Lemma ReadBytes_none a c : c ∉ a -> ReadBytes a c = Err EOF.
Proof.
  induction a as [|x a IH]; intros Ha; cbn [ReadBytes]; [done|].
  apply not_elem_of_cons in Ha as [Hx Ha]. rewrite bool_decide_eq_false_2 by done. by rewrite IH.
Qed.

(** An entry the binary form can say. *)
Record entry_ok (e : TreeEntry) : Prop := {
  en_name : x00 ∉ teName e;
  en_mode : 0 <= teMode e < 2 ^ 32;
  en_hash : wf_id (teHash e) /\ oformat (teHash e) = SHA1 }.

Definition entryBytes (e : TreeEntry) : bytes :=
  FormatOct (teMode e) ++ [x20] ++ teName e ++ [x00] ++ WriteTo (teHash e).

Lemma encodeEntries_ok l : Forall entry_ok l -> forall w, encodeEntries l w = (w ++ flat_map entryBytes l, None).
Proof.
  induction 1 as [|e l [Hn _ _] _ IH]; intros w; cbn [encodeEntries flat_map]; [by rewrite app_nil_r|].
  rewrite IndexByte_none by done. cbn [negb]. change (negb (-1 =? -1)) with false. cbn iota. rewrite IH. f_equal.
  unfold entryBytes. by app_norm.
Qed.

Lemma slice_init (a : bytes) x : slice (a ++ [x]) 0 (len (a ++ [x]) - 1) = Ok a.
Proof. rewrite len_app. change (len [x]) with 1. replace (len a + 1 - 1) with (len a) by lia. apply slice_app_l. Qed.

Lemma ReadFrom_WriteTo h r : wf_id h -> oformat h = SHA1 -> ReadFrom ZeroHash (WriteTo h ++ r) = Ok (h, r).
Proof.
  intros Hwf Hf. destruct (wf_bytes h Hwf) as (Hl & Hc & Hs). unfold ReadFrom, WriteTo.
  rewrite readFull_app by (rewrite Hl; unfold ObjectID_Size; by rewrite Hf). cbn [res_bind hash oformat ZeroHash].
  rewrite Hc. destruct h as [hb f]. cbn [oformat] in Hf. by subst f.
Qed.

Lemma octal_nospace n : 0 <= n -> x20 ∉ FormatOct n.
Proof.
  intros Hn Hin. pose proof (digits_chars 8 ltac:(lia) n Hn) as Hc. rewrite Forall_forall in Hc. specialize (Hc _ Hin).
  cbn in Hc. lia.
Qed.

Lemma decodeTree_entry fuel acc e r : entry_ok e ->
  decodeTree_loop (S fuel) acc (entryBytes e ++ r) = decodeTree_loop fuel (acc ++ [e]) r.
Proof.
  intros [Hn Hm [Hwf Hf]]. unfold entryBytes. cbn [decodeTree_loop].
  assert ((FormatOct (teMode e) ++ [x20] ++ teName e ++ [x00] ++ WriteTo (teHash e)) ++ r =
    FormatOct (teMode e) ++ x20 :: (teName e ++ x00 :: (WriteTo (teHash e) ++ r))) as -> by (by app_norm).
  rewrite ReadBytes_app by (apply octal_nospace; lia). rewrite slice_init. cbn [res_bind]. rewrite New_FormatOct by done. cbn [res_bind].
  rewrite ReadBytes_app by done. cbn [res_bind]. rewrite ReadFrom_WriteTo by done. cbn [res_bind]. rewrite slice_init. cbn [res_bind].
  by destruct e.
Qed.

Lemma decodeTree_entries l : Forall entry_ok l -> forall fuel acc, (length l < fuel)%nat ->
  decodeTree_loop fuel acc (flat_map entryBytes l) = Ok (acc ++ l).
Proof.
  induction 1 as [|e l He _ IH]; intros fuel acc Hf; (destruct fuel as [|fuel]; [lia|]).
  - cbn. by rewrite app_nil_r.
  - cbn [flat_map]. rewrite decodeTree_entry by done. rewrite IH by (cbn in Hf; lia). by rewrite <- app_assoc.
Qed.

Lemma entries_length l : (length l <= length (flat_map entryBytes l))%nat.
Proof.
  induction l as [|e l IH]; [done|]. cbn [flat_map length]. rewrite length_app.
  assert (1 <= length (entryBytes e))%nat by (unfold entryBytes; rewrite !length_app; cbn [length]; lia). lia.
Qed.

Lemma DecodeTree_encode l h h' : Forall entry_ok l -> IsSorted l = true ->
  Tree_Encode (mkTree l h) = (flat_map entryBytes l, None) /\
  DecodeTree (mkEncoded TreeObject h' (flat_map entryBytes l)) = Ok (mkTree l h').
Proof.
  intros Hok Hs. unfold Tree_Encode. cbn [trEntries]. rewrite Hs. cbn [negb]. rewrite encodeEntries_ok by done. split; [done|].
  unfold DecodeTree, Tree_Decode. cbn [oType oContent oHash]. change (TreeObject =? TreeObject) with true. cbn [negb trEntries].
  pose proof (entries_length l). destruct (Z.eqb_spec (len (flat_map entryBytes l)) 0) as [E|_].
  - unfold len in E. destruct l; [done|]. cbn [length] in *. lia.
  - rewrite decodeTree_entries by (done || lia). done.
Qed.

(** ** Reading ends *)

Lemma ReadBytes_split r c v r' : ReadBytes r c = Ok (v, r') -> exists a, v = a ++ [c] /\ r = a ++ c :: r' /\ c ∉ a.
Proof.
  revert v r'. induction r as [|x r IH]; intros v r'; cbn [ReadBytes]; [done|]. case_bool_decide as E.
  - intros [= <- <-]. exists []. subst x. split; [done|]. split; [done|]. by apply not_elem_of_nil.
  - destruct (ReadBytes r c) as [[v0 r0]| | |]; cbn; try done. intros [= <- <-].
    destruct (IH _ _ eq_refl) as (a & -> & -> & Ha). exists (x :: a). split; [done|]. split; [done|]. by rewrite not_elem_of_cons.
Qed.

Lemma ReadBytes_settled r c : settled (ReadBytes r c).
Proof. induction r as [|x r IH]; cbn; [done|]. case_bool_decide; [done|]. by destruct (ReadBytes r c) as [[]| | |]. Qed.

Lemma ReadBytes_Err r c e : ReadBytes r c = Err e -> e = EOF.
Proof.
  induction r as [|x r IH]; cbn; [by intros [= <-]|]. case_bool_decide; [done|].
  by destruct (ReadBytes r c) as [[]| | |].
Qed.

Lemma readFull_split n r b r' : readFull n r = Ok (b, r') -> r = b ++ r'.
Proof.
  unfold readFull. repeat case_match; try done; intros [= <- <-]; [done|]. by rewrite take_drop.
Qed.

Lemma format_Size_nonneg f : 0 <= format_Size f.
Proof. unfold format_Size, SHA1Size, SHA256Size. repeat case_match; lia. Qed.

Lemma ReadFrom_inv h r h' r' : ReadFrom h r = Ok (h', r') -> exists b, r = b ++ r' /\ len b = ObjectID_Size h.
Proof.
  unfold ReadFrom. destruct (readFull (ObjectID_Size h) r) as [[b r0]| | |] eqn:E; cbn; try done. intros [= _ <-].
  exists b. split; [by eapply readFull_split|]. unfold readFull in E. pose proof (format_Size_nonneg (oformat h)).
  destruct (Z.leb_spec (ObjectID_Size h) 0); simplify_eq; [unfold ObjectID_Size in *; change (len []) with 0; lia|].
  repeat case_match; simplify_eq. rewrite len_take. lia.
Qed.

(** Every round of the loop reads at least the hash. *)
Lemma decodeTree_settled fuel : forall acc r, (length r < fuel)%nat -> settled (decodeTree_loop fuel acc r).
Proof.
  induction fuel as [|fuel IH]; intros acc r Hf; [lia|]. cbn [decodeTree_loop].
  pose proof (ReadBytes_settled r x20) as Hs. destruct (ReadBytes r x20) as [[str r1]|e| |] eqn:E1; try done; [|by case_bool_decide].
  apply ReadBytes_split in E1 as (a & -> & -> & _). rewrite slice_init. cbn [res_bind]. rewrite length_app in Hf. cbn [length] in Hf.
  apply settled_bind. { unfold filemode_New, ParseUint. destruct a; [done|]. apply parseDigits_settled. }
  intros mode _.
  assert (exists name r2, (match ReadBytes r1 x00 with Err e => if bool_decide (e = EOF) then Ok (r1, []) else Err e | x => x end) = Ok (name, r2) /\
    (length r2 <= length r1)%nat /\ (r2 <> [] -> name <> [])) as (name & r2 & E2 & Hl & Hn).
  { pose proof (ReadBytes_settled r1 x00) as Hs1. destruct (ReadBytes r1 x00) as [[name r2]|e| |] eqn:E2; try done.
    - exists name, r2. apply ReadBytes_split in E2 as (b & -> & -> & _). split; [done|]. rewrite length_app. cbn. split; [lia|]. by destruct b.
    - apply ReadBytes_Err in E2 as ->. exists r1, []. split; [done|]. cbn. split; [lia|done]. }
  rewrite E2. cbn [res_bind]. pose proof (settled_readFull (ObjectID_Size ZeroHash) r2) as Hs2.
  destruct (ReadFrom ZeroHash r2) as [[h r3]|e| |] eqn:E3; cbn [res_bind]; try done;
    [|by unfold ReadFrom in E3; destruct (readFull (ObjectID_Size ZeroHash) r2) as [[]| | |]..].
  apply ReadFrom_inv in E3 as (b & -> & Hb). assert (name <> []) as Hne. { apply Hn. destruct b; [discriminate Hb|done]. }
  destruct (exists_last Hne) as (n0 & z & ->). rewrite slice_init. cbn [res_bind]. apply IH. rewrite length_app in Hl. lia.
Qed.

Lemma DecodeTree_settled o : settled (DecodeTree o).
Proof.
  unfold DecodeTree, Tree_Decode. destruct (negb _); [done|]. destruct (_ =? 0); [done|].
  apply settled_bind; [apply decodeTree_settled; lia|done].
Qed.

(** ** Looking up paths *)
Section Lookup.
Context (encodedObject : ObjectType -> ObjectID -> res EncodedObj).

(** The tree down a path of names, and the entry at its end: what the cache must not change. *)
Fixpoint descend (t : Tree) (names : list bytes) : res Tree :=
  match names with
  | [] => Ok t
  | n :: names => let* t := tree_dir encodedObject t n in descend t names
  end.

Definition lookupPath (t : Tree) (names : list bytes) (last : bytes) : res TreeEntry :=
  let* t := descend t names in tree_entry t last.

(** Every tree of the cache is the one down its path. *)
Definition cache_ok (root : Tree) (cache : gmap bytes Tree) : Prop :=
  forall names t, Forall component names -> names <> [] -> cache !! Join names [x2f] = Some t -> descend root names = Ok t.

Lemma descend_app t a b : descend t (a ++ b) = (let* u := descend t a in descend u b).
Proof.
  revert t. induction a as [|n a IH]; intros t; [done|]. cbn [app descend].
  destruct (tree_dir encodedObject t n); cbn [res_bind]; [apply IH|done..].
Qed.

Lemma Join_inj a b : a <> [] -> b <> [] -> Forall component a -> Forall component b -> Join a [x2f] = Join b [x2f] -> a = b.
Proof.
  intros Ha Hb Ca Cb E. rewrite <- (Split_Join a x2f), E, (Split_Join b x2f); try done;
    (eapply Forall_impl; [eassumption|]; by intros c (_ & _ & _ & ?)).
Qed.

Lemma cache_ok_insert root cache names t : Forall component names -> names <> [] -> descend root names = Ok t ->
  cache_ok root cache -> cache_ok root (<[Join names [x2f] := t]> cache).
Proof.
  intros Hn Hne Hd Hok names' t' Hn' Hne' E. apply lookup_insert_Some in E as [[E ->]|[_ E]]; [|by eapply Hok].
  apply Join_inj in E; [|done..]. by subst names'.
Qed.

(** Walking down from a tree that is the one down the names [done_]. *)
Lemma findDown_ok root names : forall done_ t cache last, Forall component (done_ ++ names) -> descend root done_ = Ok t -> cache_ok root cache ->
  let (r, cache') := findDown encodedObject t (Join done_ [x2f]) cache (names ++ [last]) in
  r = lookupPath root (done_ ++ names) last /\ cache_ok root cache'.
Proof.
  induction names as [|n names IH]; intros done_ t cache last Hc Hd Hok.
  { cbn [app findDown]. rewrite app_nil_r. unfold lookupPath. by rewrite Hd. }
  assert (descend root (done_ ++ [n]) = tree_dir encodedObject t n) as Hstep.
  { rewrite descend_app, Hd. cbn [res_bind descend]. by destruct (tree_dir encodedObject t n). }
  assert (Forall component (done_ ++ [n])) as Hc1. { rewrite !Forall_app in *. destruct Hc as [? Hc]. apply Forall_cons in Hc as [? _]. auto. }
  assert (done_ ++ n :: names = (done_ ++ [n]) ++ names) as Eapp by (by rewrite <- app_assoc).
  assert (findDown encodedObject t (Join done_ [x2f]) cache ((n :: names) ++ [last]) =
    match tree_dir encodedObject t n with
    | Ok tree => findDown encodedObject tree (path_Join [Join done_ [x2f]; n]) (<[path_Join [Join done_ [x2f]; n] := tree]> cache) (names ++ [last])
    | Err e => (Err e, cache) | Panic => (Panic, cache) | NoFuel => (NoFuel, cache)
    end) as ->.
  { cbn [app findDown]. destruct (names ++ [last]) eqn:E; [by destruct names|done]. }
  rewrite path_Join_snoc by done.
  destruct (tree_dir encodedObject t n) as [t'| | |] eqn:Ed;
    [|split; [unfold lookupPath; by rewrite Eapp, descend_app, Hstep|done]..].
  rewrite Eapp. apply IH; [by rewrite <- Eapp|by rewrite Hstep|]. apply cache_ok_insert; [done|by destruct done_|by rewrite Hstep|done].
Qed.

Lemma findCached_Some cache parts i t rest p : findCached cache parts i = Some (t, rest, p) ->
  exists j, (2 <= j <= i)%nat /\ rest = drop j parts /\ p = path_Join (take j parts) /\ cache !! p = Some t.
Proof.
  induction i as [|[|i] IH]; cbn [findCached]; try discriminate.
  destruct (cache !! path_Join (take (S (S i)) parts)) as [t'|] eqn:E.
  - intros [= -> <- <-]. exists (S (S i)). split; [lia|]. done.
  - intros Hf. destruct (IH Hf) as (j & Hj & ?). exists j. split; [lia|done].
Qed.

Lemma FindEntry_ok root cache names last : Forall component names -> x2f ∉ last -> cache_ok root cache ->
  let (r, cache') := FindEntry encodedObject root cache (Join (names ++ [last]) [x2f]) in
  r = lookupPath root names last /\ cache_ok root cache'.
Proof.
  intros Hc Hl Hok. unfold FindEntry. rewrite Split_Join; [|by destruct names|].
  2: { apply Forall_app. split; [|by constructor]. eapply Forall_impl; [exact Hc|]. by intros c (_ & _ & _ & ?). }
  rewrite length_app. cbn [length]. replace (length names + 1 - 1)%nat with (length names) by lia.
  destruct (findCached cache (names ++ [last]) (length names)) as [[[t rest] p]|] eqn:E.
  - apply findCached_Some in E as (j & Hj & -> & -> & Ep). rewrite drop_app_le by lia. rewrite take_app_le in Ep |- * by lia.
    assert (Forall component (take j names)) as Hcj by (by apply Forall_take). rewrite path_Join_components in Ep |- * by done.
    pose proof (findDown_ok root (drop j names) (take j names) t cache last) as Hf. rewrite take_drop in Hf.
    apply Hf; [done| |done]. apply Hok; [done| |done]. intros E. apply (f_equal length) in E. rewrite length_take in E. cbn in E. lia.
  - by apply (findDown_ok root names []).
Qed.

(** A sequence of lookups in one tree. *)
Fixpoint lookups (t : Tree) (cache : gmap bytes Tree) (paths : list (list bytes * bytes)) : list (res TreeEntry) :=
  match paths with
  | [] => []
  | (names, last) :: paths =>
    let (r, cache) := FindEntry encodedObject t cache (Join (names ++ [last]) [x2f]) in r :: lookups t cache paths
  end.

Lemma lookups_ok t paths : Forall (fun p => Forall component (fst p) /\ x2f ∉ snd p) paths -> forall cache, cache_ok t cache ->
  lookups t cache paths = map (fun p => lookupPath t (fst p) (snd p)) paths.
Proof.
  induction 1 as [|[names last] paths [Hn Hl] _ IH]; intros cache Hok; [done|]. cbn [lookups map fst snd].
  pose proof (FindEntry_ok t cache names last Hn Hl Hok) as Hf. destruct (FindEntry _ _ _ _) as [r cache'].
  destruct Hf as [-> Hok']. by rewrite IH.
Qed.

Lemma cache_ok_empty t : cache_ok t ∅.
Proof. intros names t' _ _ E. by rewrite lookup_empty in E. Qed.

(** The entry [tree_entry] finds: the last one with the name. *)
Lemma tree_entry_spec t name : tree_entry t name =
  match List.find (fun e => bool_decide (teName e = name)) (rev (trEntries t)) with Some e => Ok e | None => Err ErrEntryNotFound end.
Proof.
  unfold tree_entry, buildMap.
  assert (foldl (fun m e => <[teName e := e]> m) ∅ (trEntries t) !! name =
    List.find (fun e => bool_decide (teName e = name)) (rev (trEntries t))) as ->; [|done].
  induction (trEntries t) as [|e l IH] using rev_ind; [done|]. rewrite foldl_snoc, rev_unit. cbn [List.find].
  case_bool_decide as E; [subst; by rewrite lookup_insert_eq|by rewrite lookup_insert_ne].
Qed.
End Lookup.

(** ** Walking *)
Section Walk.
Context (encodedObject : ObjectType -> ObjectID -> res EncodedObj).
Abbreviation GetTree := (GetTree encodedObject).
Abbreviation walker_loop := (walker_loop encodedObject).
Abbreviation walker_Next := (walker_Next encodedObject).

(** The entries of a tree and of its sub-trees, each before what is below it, down to the depth [d]. *)
Fixpoint listing (d : nat) (base : bytes) (es : list TreeEntry) : list (bytes * TreeEntry) :=
  flat_map (fun e => (simpleJoin base (teName e), e) ::
    (if teMode e =? Dir then
       match d, GetTree (teHash e) with
       | S d, Ok t => listing d (simpleJoin base (teName e)) (trEntries t)
       | _, _ => []
       end
     else [])) es.

(** All sub-trees are there, [d] deep at most, and names are names. *)
Fixpoint complete (d : nat) (es : list TreeEntry) : Prop :=
  Forall (fun e => teName e <> [] /\ x2f ∉ teName e /\
    (teMode e = Dir -> match d with S d => exists t, GetTree (teHash e) = Ok t /\ complete d (trEntries t) | O => False end)) es.

Lemma walker_fuel_cons it rest b r : walker_fuel (mkWalker (it :: rest) b r) = (S (remaining it) + walker_fuel (mkWalker rest b r))%nat.
Proof. unfold walker_fuel. cbn. lia. Qed.

Lemma iter_Next_inv it e it' : iter_Next it = Ok (e, it') -> iTree it' = iTree it /\ iPos it' = iPos it + 1 /\
  trEntries (iTree it) !! Z.to_nat (iPos it) = Some e /\ 0 <= iPos it < len (trEntries (iTree it)).
Proof.
  unfold iter_Next. destruct (Z.geb_spec (iPos it) (len (trEntries (iTree it)))); [done|].
  destruct (index (trEntries (iTree it)) (iPos it)) as [e0| | |] eqn:E; cbn [res_bind]; try done. intros [= -> <-]. cbn.
  apply index_inv in E as [? ?]. done.
Qed.

Lemma loop_fuel seen f1 : forall f2 w, (walker_fuel w <= f1)%nat -> (walker_fuel w <= f2)%nat -> walker_loop f1 seen w = walker_loop f2 seen w.
Proof.
  induction f1 as [|f1 IH]; intros [|f2] [st b r] H1 H2; [done|unfold walker_fuel in *; lia..|]. cbn [Trees.walker_loop wStack wBase wRecursive].
  destruct st as [|top rest]; [done|]. destruct (_ >? _); [done|]. rewrite walker_fuel_cons in H1, H2.
  destruct (iter_Next top) as [[e top']| | |] eqn:En; try done.
  - case_bool_decide; [|done]. apply iter_Next_inv in En as (Ht & Hp & _ & Hr).
    assert (remaining top = S (remaining top')) by (unfold remaining; rewrite Ht, Hp; lia).
    apply IH; rewrite walker_fuel_cons; lia.
  - apply IH; change (walker_fuel (mkWalker rest _ r)) with (walker_fuel (mkWalker rest b r)); lia.
Qed.

(** What one step of a walk gives. *)
Definition shallow (w : TreeWalker) : Prop := len (wStack w) - 1 <= maxTreeDepth.

Lemma Next_pop seen top rest b r : shallow (mkWalker (top :: rest) b r) -> len (trEntries (iTree top)) <= iPos top ->
  walker_Next seen (mkWalker (top :: rest) b r) = walker_Next seen (mkWalker rest (TrimSuffix (fst (path_Split b)) (bs "/")) r).
Proof.
  intros Hd Hp. unfold Trees.walker_Next at 1. rewrite walker_fuel_cons. cbn [Nat.add Trees.walker_loop wStack wBase wRecursive].
  unfold shallow in Hd. cbn [wStack] in Hd. destruct (Z.gtb_spec (len (top :: rest) - 1) maxTreeDepth); [lia|].
  assert (iter_Next top = Err EOF) as -> by (unfold iter_Next; destruct (Z.geb_spec (iPos top) (len (trEntries (iTree top)))); [done|lia]).
  apply loop_fuel; change (walker_fuel (mkWalker rest (TrimSuffix _ _) r)) with (walker_fuel (mkWalker rest b r)); lia.
Qed.

Lemma Next_entry top rest b r e top' : shallow (mkWalker (top :: rest) b r) -> iter_Next top = Ok (e, top') ->
  walker_Next ∅ (mkWalker (top :: rest) b r) =
    if teMode e =? Dir then
      match GetTree (teHash e) with
      | Ok t => (Ok (simpleJoin b (teName e), e), if r then mkWalker (mkIter t 0 :: top' :: rest) (simpleJoin b (teName e)) r else mkWalker (top' :: rest) b r)
      | Err _ => (Err EOF, mkWalker (top' :: rest) b r)
      | Panic => (Panic, mkWalker (top' :: rest) b r)
      | NoFuel => (NoFuel, mkWalker (top' :: rest) b r)
      end
    else (Ok (simpleJoin b (teName e), e), mkWalker (top' :: rest) b r).
Proof.
  intros Hd He. unfold Trees.walker_Next. rewrite walker_fuel_cons. cbn [Nat.add Trees.walker_loop wStack wBase wRecursive].
  unfold shallow in Hd. cbn [wStack] in Hd. destruct (Z.gtb_spec (len (top :: rest) - 1) maxTreeDepth); [lia|].
  rewrite He. rewrite bool_decide_eq_false_2 by set_solver. done.
Qed.

(** The walk of [w] gives the list [l] and ends. *)
Definition walks (w : TreeWalker) (l : list (bytes * TreeEntry)) : Prop :=
  forall fuel, (length l < fuel)%nat -> walkAll encodedObject fuel ∅ w = Ok l.

Lemma walks_end b r : walks (mkWalker [] b r) [].
Proof. intros [|fuel] Hf; [lia|]. done. Qed.

Lemma walks_same w w' l : walker_Next ∅ w = walker_Next ∅ w' -> walks w' l -> walks w l.
Proof. intros E Hw [|fuel] Hf; [lia|]. specialize (Hw (S fuel) Hf). cbn [walkAll] in *. by rewrite E. Qed.

Lemma walks_step w x w' l : walker_Next ∅ w = (Ok x, w') -> walks w' l -> walks w (x :: l).
Proof. intros E Hw [|fuel] Hf; [lia|]. cbn [walkAll]. rewrite E, Hw by (cbn in Hf; lia). done. Qed.

(** The base of the parent, from the base of a sub-tree. *)
Lemma base_up b name : name <> [] -> x2f ∉ name -> TrimSuffix (fst (path_Split (simpleJoin b name))) (bs "/") = b.
Proof.
  intros Hne Hn. unfold simpleJoin. destruct (Z.gtb_spec (len b) 0).
  - change (b ++ bs "/" ++ name) with (b ++ x2f :: name). rewrite path_Split_name by done. cbn [fst]. apply TrimSuffix_snoc.
  - assert (b = []) as -> by (destruct b as [|x b]; [done|]; rewrite len_cons in *; pose proof (len_nonneg b); lia). by rewrite path_Split_none.
Qed.

Lemma iter_at t pre e post : trEntries t = pre ++ e :: post -> iter_Next (mkIter t (len pre)) = Ok (e, mkIter t (len (pre ++ [e]))).
Proof.
  intros E. unfold iter_Next. cbn [iTree iPos]. rewrite E. pose proof (len_nonneg post). pose proof (len_nonneg pre).
  destruct (Z.geb_spec (len pre) (len (pre ++ e :: post))); [rewrite len_app, len_cons in *; lia|].
  destruct (index_ok (pre ++ e :: post) (len pre)) as (e' & -> & El); [lia|]. cbn [res_bind].
  unfold len in El at 1. rewrite Nat2Z.id, list_lookup_middle in El by done. injection El as <-. do 3 f_equal. rewrite len_app. done.
Qed.

(** A whole tree on the top of the stack, from the entries [es] on. *)
Lemma walks_tree d : forall es t pre rest b l, trEntries t = pre ++ es -> complete d es ->
  len rest + Z.of_nat d <= maxTreeDepth -> (forall b', TrimSuffix (fst (path_Split b)) (bs "/") = b' -> walks (mkWalker rest b' true) l) ->
  walks (mkWalker (mkIter t (len pre) :: rest) b true) (listing d b es ++ l).
Proof.
  induction d as [d IHd] using lt_wf_ind. induction es as [|e es IHes]; intros t pre rest b l Ht Hc Hd Hrest.
  { destruct d; cbn [listing flat_map app]; (eapply walks_same; [apply Next_pop; [unfold shallow; cbn [wStack]; rewrite len_cons; lia|]|by apply Hrest];
      cbn [iTree iPos]; rewrite Ht, app_nil_r; lia). }
  assert (walks (mkWalker (mkIter t (len (pre ++ [e])) :: rest) b true) (listing d b es ++ l)) as Hes.
  { apply IHes; [by rewrite <- app_assoc|destruct d; by apply Forall_cons in Hc as [_ ?]|done|done]. }
  assert (shallow (mkWalker (mkIter t (len pre) :: rest) b true)) as Hsh by (unfold shallow; cbn [wStack]; rewrite len_cons; lia).
  pose proof (Next_entry _ _ b true _ _ Hsh (iter_at t pre e es Ht)) as Hn.
  assert (teName e <> [] /\ x2f ∉ teName e /\
    (teMode e = Dir -> match d with S d => exists t, GetTree (teHash e) = Ok t /\ complete d (trEntries t) | O => False end)) as (Hne & Hns & Hdir)
    by (destruct d; by apply Forall_cons in Hc as [? _]).
  destruct (Z.eqb_spec (teMode e) Dir) as [Em|Em].
  - destruct d as [|d]; [by apply Hdir in Em|]. destruct (Hdir Em) as (t' & Et & Hc').
    rewrite Et in Hn. cbn [listing flat_map]. rewrite (proj2 (Z.eqb_eq _ _) Em), Et. rewrite <- app_assoc. cbn [app]. eapply walks_step; [exact Hn|].
    change 0 with (len (@nil TreeEntry)). apply (IHd d ltac:(lia)); [done|done|rewrite len_cons; lia|]. intros b' <-. rewrite base_up by done. exact Hes.
  - assert (listing d b (e :: es) = (simpleJoin b (teName e), e) :: listing d b es) as ->.
    { destruct d; cbn [listing flat_map]; by rewrite (proj2 (Z.eqb_neq _ _) Em). }
    cbn [app]. eapply walks_step; [exact Hn|exact Hes].
Qed.

Lemma walk_lists_tree d t fuel : complete d (trEntries t) -> (Z.of_nat d <= maxTreeDepth) -> (length (listing d [] (trEntries t)) < fuel)%nat ->
  walkAll encodedObject fuel ∅ (NewTreeWalker t true) = Ok (listing d [] (trEntries t)).
Proof.
  intros Hc Hd. rewrite <- (app_nil_r (listing d [] (trEntries t))). apply (walks_tree d _ t [] [] []); [done|done|done|].
  intros b' _. apply walks_end.
Qed.
End Walk.

(** ** Children *)
Section Children.
Context (encodedObject : ObjectType -> ObjectID -> res EncodedObj).
Hypothesis storer_settled : forall t h, settled (encodedObject t h).

(** The entries before the first directory whose tree cannot be read. *)
Fixpoint readable (es : list TreeEntry) : list TreeEntry :=
  match es with
  | [] => []
  | e :: es => if teMode e =? Dir then match GetTree encodedObject (teHash e) with Ok _ => e :: readable es | _ => [] end
               else e :: readable es
  end.

Definition noder_of (t : Tree) (e : TreeEntry) : treeNoder := mkNoder t (teName e) (teMode e) (teHash e).

Lemma GetTree_settled h : settled (GetTree encodedObject h).
Proof. apply settled_bind; [apply storer_settled|]. intros o _. apply DecodeTree_settled. Qed.

Lemma transform_spec t es : forall pre fuel acc, trEntries t = pre ++ es -> (length es < fuel)%nat ->
  transform_loop encodedObject fuel t (mkWalker [mkIter t (len pre)] [] false) acc = Ok (acc ++ map (noder_of t) (readable es)).
Proof.
  induction es as [|e es IH]; intros pre [|fuel] acc Ht Hf; [cbn in Hf; lia| |cbn in Hf; lia|].
  - cbn [transform_loop]. rewrite Next_pop; [cbn; by rewrite app_nil_r|unfold shallow, maxTreeDepth, len; cbn [wStack length]; lia|]. cbn [iTree iPos]. rewrite Ht, app_nil_r. lia.
  - cbn [transform_loop]. assert (shallow (mkWalker [mkIter t (len pre)] [] false)) as Hsh by (unfold shallow, maxTreeDepth, len; cbn [wStack length]; lia).
    rewrite (Next_entry _ _ _ [] false _ _ Hsh (iter_at t pre e es Ht)). cbn [readable]. pose proof (GetTree_settled (teHash e)) as Hg.
    assert (forall acc, transform_loop encodedObject fuel t (mkWalker [mkIter t (len (pre ++ [e]))] [] false) acc =
      Ok (acc ++ map (noder_of t) (readable es))) as IH' by (intros acc'; apply IH; [by rewrite <- app_assoc|cbn in Hf; lia]).
    destruct (teMode e =? Dir); [destruct (GetTree encodedObject (teHash e)); try done|].
    + rewrite IH'. cbn [map]. by rewrite <- app_assoc.
    + cbn. by rewrite app_nil_r.
    + rewrite IH'. cbn [map]. by rewrite <- app_assoc.
Qed.

Lemma transformChildren_spec t : transformChildren encodedObject t = Ok (map (noder_of t) (readable (trEntries t))).
Proof. unfold transformChildren, NewTreeWalker. apply (transform_spec t (trEntries t) []); [done|lia]. Qed.

Lemma readable_all es : (forall e, e ∈ es -> teMode e = Dir -> exists t, GetTree encodedObject (teHash e) = Ok t) -> readable es = es.
Proof.
  induction es as [|e es IH]; intros Hall; [done|]. cbn [readable]. rewrite IH by (intros; apply Hall; [by right|done]).
  destruct (Z.eqb_spec (teMode e) Dir) as [E|]; [|done]. destruct (Hall e ltac:(by left) E) as [t' ->]. done.
Qed.

Lemma readable_missing pre e post : teMode e = Dir -> (forall t', GetTree encodedObject (teHash e) <> Ok t') ->
  exists n, readable (pre ++ e :: post) = take n pre.
Proof.
  intros Hd Hn. induction pre as [|x pre [n IH]]; cbn [app readable].
  - exists 0%nat. rewrite (proj2 (Z.eqb_eq _ _) Hd). destruct (GetTree encodedObject (teHash e)) as [t'| | |] eqn:E; [by destruct (Hn t')|done..].
  - destruct (teMode x =? Dir); [destruct (GetTree encodedObject (teHash x))|]; [exists (S n); by rewrite IH|by exists 0%nat..|exists (S n); by rewrite IH].
Qed.
End Children.

(** ** Files *)
Section Files.
Context (encodedObject : ObjectType -> ObjectID -> res EncodedObj).
Abbreviation walks := (walks encodedObject).

Lemma walks_cons w x l : walks w (x :: l) -> exists w', walker_Next encodedObject ∅ w = (Ok x, w') /\ walks w' l.
Proof.
  intros Hw. destruct (walker_Next encodedObject ∅ w) as [r w'] eqn:E.
  pose proof (Hw (S (S (length l))) ltac:(cbn; lia)) as H1. remember (S (length l)) as n eqn:En. cbn [walkAll] in H1. rewrite E in H1.
  destruct r as [y|e| |]; try discriminate H1; [|by case_bool_decide].
  exists w'. assert (y = x) as ->. { destruct (walkAll encodedObject n ∅ w') as [l'| | |]; try discriminate H1. cbn in H1. congruence. }
  split; [done|]. intros fuel Hf. pose proof (Hw (S fuel) ltac:(cbn; lia)) as H2. cbn [walkAll] in H2. rewrite E in H2.
  destruct (walkAll encodedObject fuel ∅ w') as [l'| | |]; try discriminate H2. cbn in H2. congruence.
Qed.

Lemma walks_nil w : walks w [] -> exists w', walker_Next encodedObject ∅ w = (Err EOF, w').
Proof.
  intros Hw. specialize (Hw 1%nat ltac:(cbn; lia)). cbn [walkAll] in Hw. destruct (walker_Next encodedObject ∅ w) as [[x|e| |] w']; try discriminate Hw.
  case_bool_decide; [|discriminate Hw]. subst e. by exists w'.
Qed.

(** The entries of a listing that are files. *)
Definition isFileEntry (x : bytes * TreeEntry) : bool := negb ((teMode (snd x) =? Dir) || (teMode (snd x) =? Submodule)).

(** What the walk makes of an entry. *)
Definition fileOf (x : bytes * TreeEntry) : res File :=
  let* blob := GetBlob encodedObject (teHash (snd x)) in Ok (NewFile (fst x) (teMode (snd x)) blob).

Lemma FileIter_Next_skip w x w' fuel : walker_Next encodedObject ∅ w = (Ok x, w') -> isFileEntry x = false ->
  FileIter_Next encodedObject (S fuel) w = FileIter_Next encodedObject fuel w'.
Proof. intros E Hx. cbn [FileIter_Next]. rewrite E. destruct x as [n e]. unfold isFileEntry in Hx. cbn [snd] in Hx. apply negb_false_iff in Hx. by rewrite Hx. Qed.

Lemma FileIter_Next_file w x w' fuel : walker_Next encodedObject ∅ w = (Ok x, w') -> isFileEntry x = true ->
  FileIter_Next encodedObject (S fuel) w = (fileOf x, w').
Proof.
  intros E Hx. cbn [FileIter_Next]. rewrite E. destruct x as [n e]. unfold isFileEntry in Hx. cbn [snd] in Hx. apply negb_true_iff in Hx. rewrite Hx.
  unfold fileOf. cbn [fst snd]. by destruct (GetBlob encodedObject (teHash e)).
Qed.

Lemma FileIter_Next_walks l : forall w fuel, walks w l -> (length l < fuel)%nat ->
  match List.find isFileEntry l with
  | Some x => exists w' l', FileIter_Next encodedObject fuel w = (fileOf x, w') /\ walks w' l' /\ (length l' < length l)%nat /\
                List.filter isFileEntry l = x :: List.filter isFileEntry l'
  | None => exists w', FileIter_Next encodedObject fuel w = (Err EOF, w') /\ List.filter isFileEntry l = []
  end.
Proof.
  induction l as [|x l IH]; intros w [|fuel] Hw Hf; try (cbn in Hf; lia).
  - apply walks_nil in Hw as [w' E]. cbn [List.find FileIter_Next]. rewrite E. by exists w'.
  - apply walks_cons in Hw as (w' & E & Hw). cbn [List.find List.filter]. destruct (isFileEntry x) eqn:Ex.
    + exists w', l. rewrite (FileIter_Next_file w x w' fuel E Ex). cbn [length]. split; [done|]. split; [done|]. split; [lia|done].
    + rewrite (FileIter_Next_skip w x w' fuel E Ex). specialize (IH w' fuel Hw ltac:(cbn in Hf; lia)).
      destruct (List.find isFileEntry l) as [y|]; [|exact IH]. destruct IH as (w2 & l2 & H1 & H2 & H3 & H4).
      exists w2, l2. split; [done|]. split; [done|]. split; [cbn; lia|done].
Qed.

(** [ForEach] calls the callback on the files of the listing, in order. *)
Lemma ForEach_files {A} (cb : A -> File -> A) n : forall l w a files fuel, (length l <= n)%nat -> walks w l -> (length l < fuel)%nat ->
  map fileOf (List.filter isFileEntry l) = map Ok files ->
  FileIter_ForEach encodedObject fuel (fun a f => (cb a f, None)) a w = (foldl cb a files, None, true).
Proof.
  induction n as [n IH] using lt_wf_ind. intros l w a files [|fuel] Hn Hw Hf Hfiles; [lia|].
  pose proof (FileIter_Next_walks l w (S fuel) Hw Hf) as Hnext. cbn [FileIter_ForEach].
  destruct (List.find isFileEntry l) as [x|].
  - destruct Hnext as (w' & l' & -> & Hw' & Hlt & Hfil). rewrite Hfil in Hfiles. cbn [map] in Hfiles.
    destruct files as [|f files]; [discriminate Hfiles|]. injection Hfiles as -> Hfiles.
    cbn beta iota. apply (IH (length l') ltac:(lia) l' w' (cb a f) files fuel); [lia|done|lia|done].
  - destruct Hnext as (w' & -> & Hfil). rewrite Hfil in Hfiles. destruct files; [|discriminate Hfiles].
    rewrite bool_decide_eq_true_2 by done. done.
Qed.
End Files.

(** ** The theorems *)

(** C27: [Tree.Encode] refuses entries that are not sorted, and otherwise writes, for every tree of
    SHA-1 hashes and names without a zero byte, what [Decode] reads back: the
    same entries in the same order, with the hash of the object.  Whatever the bytes, [Decode]
    ends with a tree or an error. *)
Theorem tree_roundtrip l h h' : Forall entry_ok l ->
  match Tree_Encode (mkTree l h) with
  | (b, None) => IsSorted l = true /\ DecodeTree (mkEncoded TreeObject h' b) = Ok (mkTree l h')
  | (b, Some e) => IsSorted l = false /\ e = ErrEntriesNotSorted /\ b = []
  end /\ forall o, settled (DecodeTree o).
Proof.
  intros Hok. split; [|apply DecodeTree_settled]. destruct (IsSorted l) eqn:Es.
  - destruct (DecodeTree_encode l h h' Hok Es) as [-> Hd]. done.
  - unfold Tree_Encode. cbn [trEntries]. by rewrite Es.
Qed.

Lemma tree_roundtrip_witness :
  IsSorted [mkEntry (bs "a.txt") Regular ZeroHash; mkEntry (bs "a") Dir ZeroHash] = true /\
  DecodeTree (mkEncoded TreeObject ZeroHash (fst (Tree_Encode (mkTree [mkEntry (bs "a.txt") Regular ZeroHash; mkEntry (bs "a") Dir ZeroHash] ZeroHash)))) =
    Ok (mkTree [mkEntry (bs "a.txt") Regular ZeroHash; mkEntry (bs "a") Dir ZeroHash] ZeroHash).
Proof.
  apply (proj1 (tree_roundtrip [mkEntry (bs "a.txt") Regular ZeroHash; mkEntry (bs "a") Dir ZeroHash] ZeroHash ZeroHash
    ltac:(repeat constructor; try (right; split; reflexivity); try (vm_compute; congruence); by_decision))).
Defined.

(** Any sequence of lookups in one tree gives what walking down the path from the root each
    time would give, although [FindEntry] starts from the longest cached prefix and adds
    the sub-trees it passes to the cache: for paths whose directories are proper names. *)
Theorem find_entry_refines encodedObject t paths :
  Forall (fun p => Forall component (fst p) /\ x2f ∉ snd p) paths ->
  lookups encodedObject t ∅ paths = map (fun p => lookupPath encodedObject t (fst p) (snd p)) paths.
Proof. intros Hp. apply lookups_ok; [done|]. apply cache_ok_empty. Qed.

(** A storer of three trees, one below the other. *)
Definition id_of (n : Z) : ObjectID := mkObjectID (z2b n :: replicate 31 x00) SHA1.
Definition tree_bytes (l : list TreeEntry) : bytes := fst (Tree_Encode (mkTree l ZeroHash)).
Definition sample_store (t : ObjectType) (h : ObjectID) : res EncodedObj :=
  if bool_decide (h = id_of 1) then Ok (mkEncoded TreeObject h (tree_bytes [mkEntry (bs "b") Dir (id_of 2); mkEntry (bs "x") Regular (id_of 3)]))
  else if bool_decide (h = id_of 2) then Ok (mkEncoded TreeObject h (tree_bytes [mkEntry (bs "c") Regular (id_of 3)]))
  else if bool_decide (h = id_of 3) then (if (t =? BlobObject) then Ok (mkEncoded BlobObject h (bs "data")) else Err ErrObjectNotFound)
  else Err ErrObjectNotFound.
Definition sample_tree : Tree := mkTree [mkEntry (bs "a") Dir (id_of 1); mkEntry (bs "f") Regular (id_of 3)] ZeroHash.

Lemma find_entry_refines_witness :
  lookups sample_store sample_tree ∅ [([bs "a"; bs "b"], bs "c"); ([bs "a"; bs "b"], bs "d"); ([bs "a"], bs "x")] =
    [Ok (mkEntry (bs "c") Regular (id_of 3)); Err ErrEntryNotFound; Ok (mkEntry (bs "x") Regular (id_of 3))].
Proof.
  rewrite (find_entry_refines sample_store sample_tree
    [([bs "a"; bs "b"], bs "c"); ([bs "a"; bs "b"], bs "d"); ([bs "a"], bs "x")] ltac:(unfold component; by_decision)).
  vm_compute. reflexivity.
Defined.

(** A recursive walk of a tree whose sub-trees are all there, 1024 deep at most, gives every
    entry of the tree and of its sub-trees under its full path, a directory before
    what is in it, and then ends. *)
Theorem tree_walk_complete encodedObject d t fuel :
  complete encodedObject d (trEntries t) -> Z.of_nat d <= maxTreeDepth ->
  (length (listing encodedObject d [] (trEntries t)) < fuel)%nat ->
  walkAll encodedObject fuel ∅ (NewTreeWalker t true) = Ok (listing encodedObject d [] (trEntries t)).
Proof. apply walk_lists_tree. Qed.

Lemma sample_complete : complete sample_store 2 (trEntries sample_tree).
Proof.
  cbn [complete sample_tree trEntries]. repeat (constructor; [split; [discriminate|split; [by_decision|intros E]]|]); try discriminate E; try constructor.
  exists (mkTree [mkEntry (bs "b") Dir (id_of 2); mkEntry (bs "x") Regular (id_of 3)] (id_of 1)). split; [vm_compute; reflexivity|].
  cbn [complete trEntries]. repeat (constructor; [split; [discriminate|split; [by_decision|intros E']]|]); try discriminate E'; try constructor.
  exists (mkTree [mkEntry (bs "c") Regular (id_of 3)] (id_of 2)). split; [vm_compute; reflexivity|].
  cbn [complete trEntries]. repeat (constructor; [split; [discriminate|split; [by_decision|intros E'']]|]); try discriminate E''; try constructor.
Qed.

Lemma tree_walk_complete_witness :
  walkAll sample_store 6 ∅ (NewTreeWalker sample_tree true) = Ok (listing sample_store 2 [] (trEntries sample_tree)) /\
  map fst (listing sample_store 2 [] (trEntries sample_tree)) = [bs "a"; bs "a/b"; bs "a/b/c"; bs "a/x"; bs "f"].
Proof.
  split; [|vm_compute; reflexivity].
  apply (tree_walk_complete sample_store 2 sample_tree 6 sample_complete ltac:(unfold maxTreeDepth; lia)). vm_compute. lia.
Defined.

(** [FileIter.ForEach] calls its callback on the files of a complete tree, with their full paths
    and their blobs, in the order of the walk and on nothing else, when all the blobs are there. *)
Theorem files_complete {A} encodedObject (cb : A -> File -> A) d t a files fuel :
  complete encodedObject d (trEntries t) -> Z.of_nat d <= maxTreeDepth ->
  (length (listing encodedObject d [] (trEntries t)) < fuel)%nat ->
  map (fileOf encodedObject) (List.filter isFileEntry (listing encodedObject d [] (trEntries t))) = map Ok files ->
  FileIter_ForEach encodedObject fuel (fun a f => (cb a f, None)) a (NewFileIter t) = (foldl cb a files, None, true).
Proof.
  intros Hc Hd Hf Hfiles. apply (ForEach_files _ cb _ (listing encodedObject d [] (trEntries t)) _ a files fuel (Nat.le_refl _)); [|done|done].
  intros fuel' Hf'. by apply walk_lists_tree.
Qed.

Lemma files_complete_witness :
  FileIter_ForEach sample_store 6 (fun a f => (a ++ [fName f], None)) [] (NewFileIter sample_tree) = ([bs "a/b/c"; bs "a/x"; bs "f"], None, true).
Proof.
  apply (files_complete sample_store (fun a f => a ++ [fName f]) 2 sample_tree []
    (map (fun n => mkFile n Regular (mkBlob (id_of 3) 4 (mkEncoded BlobObject (id_of 3) (bs "data")))) [bs "a/b/c"; bs "a/x"; bs "f"]) 6 sample_complete);
    [unfold maxTreeDepth; lia|vm_compute; lia|vm_compute; reflexivity].
Defined.

(** The children of a tree node are its entries when every sub-tree can be read; otherwise they
    are only the entries before the first directory whose tree cannot be read, and no error is
    given: the walk reports the failure as the end of the tree. *)
Theorem children_stop_at_missing encodedObject t : (forall ty h, settled (encodedObject ty h)) ->
  transformChildren encodedObject t = Ok (map (noder_of t) (readable encodedObject (trEntries t))) /\
  ((forall e, e ∈ trEntries t -> teMode e = Dir -> exists t', GetTree encodedObject (teHash e) = Ok t') ->
   readable encodedObject (trEntries t) = trEntries t) /\
  (forall pre e post, trEntries t = pre ++ e :: post -> teMode e = Dir -> (forall t', GetTree encodedObject (teHash e) <> Ok t') ->
   exists n, readable encodedObject (trEntries t) = take n pre).
Proof.
  intros Hs. split; [by apply transformChildren_spec|]. split; [apply readable_all|]. intros pre e post -> Hd Hn. by apply readable_missing.
Qed.

Lemma children_stop_at_missing_witness :
  transformChildren sample_store (mkTree [mkEntry (bs "a") Regular (id_of 3); mkEntry (bs "d") Dir (id_of 9); mkEntry (bs "z") Regular (id_of 3)] ZeroHash) =
    Ok [mkNoder (mkTree [mkEntry (bs "a") Regular (id_of 3); mkEntry (bs "d") Dir (id_of 9); mkEntry (bs "z") Regular (id_of 3)] ZeroHash) (bs "a") Regular (id_of 3)].
Proof.
  rewrite (proj1 (children_stop_at_missing sample_store
    (mkTree [mkEntry (bs "a") Regular (id_of 3); mkEntry (bs "d") Dir (id_of 9); mkEntry (bs "z") Regular (id_of 3)] ZeroHash)
    ltac:(intros ty h; unfold sample_store; repeat case_match; exact I))).
  vm_compute. reflexivity.
Defined.
