(* ===== verification/History.v ===== *)
(** * plumbing/object: walking the history

    Model of commit_walker.go, commit_walker_bfs.go, commit_walker_bfs_filtered.go,
    commit_walker_ctime.go, commit_walker_limit.go and merge_base.go, and of the
    parents in commit.go.  An iterator is its state and a function to the next commit and state;
    the maps [seenExternal] and [seen] that iterators share with their callers are arguments.
    Loops inside [Next] have the fuel their stack or queue needs; loops over [Next]
    are given it. *)
From S2P Require Import Prelude GoStrings ObjectID Reference Memory Objects Trees.

Section Storer.
Context (encodedObject : ObjectType -> ObjectID -> res EncodedObj).
Abbreviation GetCommit := (GetCommit encodedObject).

(** ** Parents: [storerCommitIter] over an [EncodedObjectLookupIter], the hashes that are left *)
Definition lookup_Next (hashes : list ObjectID) : res Commit * list ObjectID :=
  match hashes with
  | [] => (Err EOF, [])
  | h :: rest =>
    match encodedObject CommitObject h with
    | Ok o => (DecodeCommit o, rest)
    | Err e => (Err e, hashes)
    | Panic => (Panic, hashes)
    | NoFuel => (NoFuel, hashes)
    end
  end.

(** [Commit.Parents].[ForEach] with a callback that appends some of the parents to a stack. *)
Fixpoint parents_ForEach (keep : Commit -> bool) (hashes : list ObjectID) (stack : list Commit) : res (list Commit * option error) :=
  match hashes with
  | [] => Ok (stack, None)
  | h :: rest =>
    match encodedObject CommitObject h with
    | Ok o =>
      match DecodeCommit o with
      | Ok p => parents_ForEach keep rest (if keep p then p :: stack else stack)
      | Err e => Ok (stack, if bool_decide (e = ErrStop) then None else Some e)
      | Panic => Panic
      | NoFuel => NoFuel
      end
    | Err e => Ok (stack, if bool_decide (e = EOF) then None else Some e)
    | Panic => Panic
    | NoFuel => NoFuel
    end
  end.

(** [Commit.Parent] *)
Definition Commit_Parent (c : Commit) (i : Z) : res Commit :=
  if (len (cParentHashes c) =? 0) || (i >? len (cParentHashes c) - 1) then Err ErrParentNotFound
  else let* h := index (cParentHashes c) i in GetCommit h.

Definition Commit_Tree (c : Commit) : res Tree := GetTree encodedObject (cTreeHash c).

(** ** [forEachCommit]: the callback over a state *)
Section ForEach.
Context {St A : Type} (next : A -> St -> res Commit * St) (cb : A -> Commit -> A * option error).

Fixpoint forEachCommit (fuel : nat) (a : A) (s : St) : res (A * option error) :=
  match fuel with
  | O => NoFuel
  | S fuel =>
    let (r, s) := next a s in
    match r with
    | Err e => Ok (a, if bool_decide (e = EOF) then None else Some e)
    | Ok c =>
      let (a, err) := cb a c in
      match err with
      | Some e => Ok (a, if bool_decide (e = ErrStop) then None else Some e)
      | None => forEachCommit fuel a s
      end
    | Panic => Panic
    | NoFuel => NoFuel
    end
  end.
End ForEach.

(** The commits an iterator gives, up to its end. *)
Fixpoint collect {St} (next : St -> res Commit * St) (fuel : nat) (s : St) : res (list Commit) :=
  match fuel with
  | O => NoFuel
  | S fuel =>
    let (r, s) := next s in
    match r with
    | Ok c => let* l := collect next fuel s in Ok (c :: l)
    | Err e => if bool_decide (e = EOF) then Ok [] else Err e
    | Panic => Panic
    | NoFuel => NoFuel
    end
  end.

(** ** Pre-order *)
Record preIter := mkPre { pSeen : gset ObjectID; pStack : list (list ObjectID); pStart : option Commit }.

Definition NewCommitPreorderIter (c : Commit) (ignore : list ObjectID) : preIter :=
  mkPre (list_to_set ignore) [] (Some c).

Definition filteredParentIter (c : Commit) (seen : gset ObjectID) : list ObjectID :=
  List.filter (fun h => negb (bool_decide (h ∈ seen))) (cParentHashes c).

(** A commit the walk comes upon: [None] when it was seen. *)
Definition pre_visit (ext seen : gset ObjectID) (stack : list (list ObjectID)) (c : Commit) : option preIter :=
  if bool_decide (cHash c ∈ seen) || bool_decide (cHash c ∈ ext) then None
  else
    let seen := {[cHash c]} ∪ seen in
    Some (mkPre seen (if NumParents c >? 0 then filteredParentIter c seen :: stack else stack) None).

Fixpoint pre_loop (fuel : nat) (ext : gset ObjectID) (w : preIter) : res Commit * preIter :=
  match fuel with
  | O => (NoFuel, w)
  | S fuel =>
    match pStart w with
    | Some c =>
      match pre_visit ext (pSeen w) (pStack w) c with
      | Some w => (Ok c, w)
      | None => pre_loop fuel ext (mkPre (pSeen w) (pStack w) None)
      end
    | None =>
      match pStack w with
      | [] => (Err EOF, w)
      | top :: rest =>
        let (r, top) := lookup_Next top in
        match r with
        | Err e => if bool_decide (e = EOF) then pre_loop fuel ext (mkPre (pSeen w) rest None)
                   else (Err e, mkPre (pSeen w) (top :: rest) None)
        | Ok c =>
          match pre_visit ext (pSeen w) (top :: rest) c with
          | Some w => (Ok c, w)
          | None => pre_loop fuel ext (mkPre (pSeen w) (top :: rest) None)
          end
        | Panic => (Panic, w)
        | NoFuel => (NoFuel, w)
        end
      end
    end
  end.

Definition pre_fuel (w : preIter) : nat := S (S (sum_list_with (fun l => S (length l)) (pStack w))).
Definition pre_Next (ext : gset ObjectID) (w : preIter) : res Commit * preIter := pre_loop (pre_fuel w) ext w.

(** ** Post-order: the top of the stack first *)
Record postIter := mkPost { oStack : list Commit; oSeen : gset ObjectID }.

Definition NewCommitPostorderIter (c : Commit) (ignore : list ObjectID) : postIter := mkPost [c] (list_to_set ignore).

(** [Next]; [keep c] says which parents of [c] go on the stack.  With an error the code also returns the
    commit, which its callers do not use. *)
Fixpoint post_loop (keep : Commit -> Commit -> bool) (stack : list Commit) (seen : gset ObjectID) : res Commit * postIter :=
  match stack with
  | [] => (Err EOF, mkPost [] seen)
  | c :: stack =>
    if bool_decide (cHash c ∈ seen) then post_loop keep stack seen
    else
      let seen := {[cHash c]} ∪ seen in
      match parents_ForEach (keep c) (cParentHashes c) stack with
      | Ok (stack, None) => (Ok c, mkPost stack seen)
      | Ok (stack, Some e) => (Err e, mkPost stack seen)
      | Err e => (Err e, mkPost stack seen)
      | Panic => (Panic, mkPost stack seen)
      | NoFuel => (NoFuel, mkPost stack seen)
      end
  end.

Definition post_Next (w : postIter) : res Commit * postIter := post_loop (fun _ _ => true) (oStack w) (oSeen w).

(** [commitPostIteratorFirstParent] *)
Definition isFirstParent (c p : Commit) : bool :=
  match cParentHashes c with h :: _ => bool_decide (cHash p = h) | [] => false end.
Definition postFirst_Next (w : postIter) : res Commit * postIter := post_loop isFirstParent (oStack w) (oSeen w).

(** ** Breadth first *)
Record bfsIter := mkBfs { bSeen : gset ObjectID; bQueue : list Commit }.

Definition NewCommitIterBSF (c : Commit) (ignore : list ObjectID) : bfsIter := mkBfs (list_to_set ignore) [c].

(** [appendHash] on the hashes of the parents *)
Fixpoint appendHashes (ext seen : gset ObjectID) (hashes : list ObjectID) (queue : list Commit) : list Commit * option (res Commit) :=
  match hashes with
  | [] => (queue, None)
  | h :: hashes =>
    if bool_decide (h ∈ seen) || bool_decide (h ∈ ext) then appendHashes ext seen hashes queue
    else match GetCommit h with
         | Ok c => appendHashes ext seen hashes (queue ++ [c])
         | r => (queue, Some r)
         end
  end.

Fixpoint bfs_loop (fuel : nat) (ext : gset ObjectID) (w : bfsIter) : res Commit * bfsIter :=
  match fuel with
  | O => (NoFuel, w)
  | S fuel =>
    match bQueue w with
    | [] => (Err EOF, w)
    | c :: queue =>
      if bool_decide (cHash c ∈ bSeen w) || bool_decide (cHash c ∈ ext) then bfs_loop fuel ext (mkBfs (bSeen w) queue)
      else
        let seen := {[cHash c]} ∪ bSeen w in
        match appendHashes ext seen (cParentHashes c) queue with
        | (queue, None) => (Ok c, mkBfs seen queue)
        | (queue, Some r) => (r, mkBfs seen queue)
        end
    end
  end.

Definition bfs_Next (ext : gset ObjectID) (w : bfsIter) : res Commit * bfsIter := bfs_loop (S (length (bQueue w))) ext w.

(** ** Breadth first, filtered *)
Record filterIter := mkFilter { fVisited : gset ObjectID; fQueue : list Commit; fLastErr : option error }.

Definition NewFilterCommitIter (from : Commit) : filterIter := mkFilter ∅ [from] None.

(** [close]: the filters are dropped too, but an empty queue never asks them. *)
Definition filter_close (err : error) : filterIter := mkFilter ∅ [] (Some err).

(** [popNewFromQueue] *)
Fixpoint popNew (visited : gset ObjectID) (queue : list Commit) : option (Commit * list Commit) :=
  match queue with
  | [] => None
  | c :: queue => if bool_decide (cHash c ∈ visited) then popNew visited queue else Some (c, queue)
  end.

Fixpoint addToQueue (visited : gset ObjectID) (hashes : list ObjectID) (queue : list Commit) : res (list Commit) :=
  match hashes with
  | [] => Ok queue
  | h :: hashes =>
    if bool_decide (h ∈ visited) then addToQueue visited hashes queue
    else let* c := GetCommit h in addToQueue visited hashes (queue ++ [c])
  end.

Section Filter.
Context (isValid isLimit : Commit -> bool).

Fixpoint filter_loop (fuel : nat) (w : filterIter) : res Commit * filterIter :=
  match fuel with
  | O => (NoFuel, w)
  | S fuel =>
    match popNew (fVisited w) (fQueue w) with
    | None => let e := default EOF (fLastErr w) in (Err e, filter_close e)
    | Some (c, queue) =>
      let visited := {[cHash c]} ∪ fVisited w in
      match (if negb (isLimit c) then addToQueue visited (cParentHashes c) queue else Ok queue) with
      | Ok queue =>
        let w := mkFilter visited queue (fLastErr w) in
        if isValid c then (Ok c, w) else filter_loop fuel w
      | Err e => (Err e, filter_close e)
      | Panic => (Panic, w)
      | NoFuel => (NoFuel, w)
      end
    end
  end.
End Filter.

(** ** By commit time, with a binary heap *)
Section CTime.
(** The heap (github.com/emirpasic/gods): what is in it, a push and a pop. *)
Context {Heap : Type} (heap_new : Heap) (heap_Push : Heap -> Commit -> Heap) (heap_Pop : Heap -> option (Commit * Heap)).

Record ctimeIter := mkCTime { tSeen : gset ObjectID; tHeap : Heap }.

(** The comparator: a commit goes after those that were committed later. *)
Definition ctime_compare (a b : Commit) : Z :=
  if time_Before (sWhen (cCommitter a)) (sWhen (cCommitter b)) then 1 else -1.

Definition NewCommitIterCTime (c : Commit) (ignore : list ObjectID) : ctimeIter :=
  mkCTime (list_to_set ignore) (heap_Push heap_new c).

Fixpoint pushParents (ext seen : gset ObjectID) (hashes : list ObjectID) (heap : Heap) : Heap * option (res Commit) :=
  match hashes with
  | [] => (heap, None)
  | h :: hashes =>
    if bool_decide (h ∈ seen) || bool_decide (h ∈ ext) then pushParents ext seen hashes heap
    else match GetCommit h with
         | Ok pc => pushParents ext seen hashes (heap_Push heap pc)
         | r => (heap, Some r)
         end
  end.

Fixpoint ctime_Next (fuel : nat) (ext : gset ObjectID) (w : ctimeIter) : res Commit * ctimeIter :=
  match fuel with
  | O => (NoFuel, w)
  | S fuel =>
    match heap_Pop (tHeap w) with
    | None => (Err EOF, w)
    | Some (c, heap) =>
      if bool_decide (cHash c ∈ tSeen w) || bool_decide (cHash c ∈ ext) then ctime_Next fuel ext (mkCTime (tSeen w) heap)
      else
        let seen := {[cHash c]} ∪ tSeen w in
        match pushParents ext seen (cParentHashes c) heap with
        | (heap, None) => (Ok c, mkCTime seen heap)
        | (heap, Some r) => (r, mkCTime seen heap)
        end
    end
  end.
End CTime.

(** ** Limits on another iterator *)
Record LogLimitOptions := mkLimit { Since : option Time; Until : option Time; TailHash : ObjectID }.

Section Limit.
Context {St : Type} (next : St -> res Commit * St) (opts : LogLimitOptions).

Definition outside (c : Commit) : bool :=
  match Since opts with Some t => time_Before (sWhen (cCommitter c)) t | None => false end ||
  match Until opts with Some t => time_After (sWhen (cCommitter c)) t | None => false end.

(** [Next]: the commit, and whether it comes with the error [ErrStop]. *)
Fixpoint limit_Next (fuel : nat) (s : St) : res (Commit * bool) * St :=
  match fuel with
  | O => (NoFuel, s)
  | S fuel =>
    let (r, s) := next s in
    match r with
    | Ok c => if outside c then limit_Next fuel s else (Ok (c, bool_decide (TailHash opts = cHash c)), s)
    | Err e => (Err e, s)
    | Panic => (Panic, s)
    | NoFuel => (NoFuel, s)
    end
  end.

(** [ForEach] *)
Fixpoint limit_ForEach {A} (fuel : nat) (cb : A -> Commit -> A * option error) (a : A) (s : St) : res (A * option error) :=
  match fuel with
  | O => NoFuel
  | S fuel' =>
    let (r, s) := limit_Next fuel s in
    match r with
    | Err e => Ok (a, if bool_decide (e = EOF) then None else Some e)
    | Ok (c, stop) =>
      let (a, err) := cb a c in
      match err with
      | Some e => if bool_decide (e = ErrStop) || stop then Ok (a, None) else Ok (a, Some e)
      | None => if stop then Ok (a, None) else limit_ForEach fuel' cb a s
      end
    | Panic => Panic
    | NoFuel => NoFuel
    end
  end.
End Limit.

(** ** All references: [commitsPath], whose hashes are the keys of [commitsLookup] *)
Section All.
Context {St : Type} (mk : Commit -> St) (next : St -> res Commit * St).

Definition listed (path : list Commit) (h : ObjectID) : bool := bool_decide (h ∈ map cHash path).

(** The loop that collects the commits of a reference: up to one that is listed, which is then
    given too, or to any error. *)
Fixpoint collectRef (fuel : nat) (path : list Commit) (s : St) (refCommits : list Commit) : option (list Commit * option ObjectID) :=
  match fuel with
  | O => None
  | S fuel =>
    let (r, s) := next s in
    match r with
    | Ok c => if listed path (cHash c) then Some (refCommits, Some (cHash c))
              else collectRef fuel path s (refCommits ++ [c])
    | _ => Some (refCommits, None)
    end
  end.

(** [InsertBefore] the element of a commit. *)
Fixpoint insertBefore (path : list Commit) (c : Commit) (mark : ObjectID) : list Commit :=
  match path with
  | [] => []
  | x :: path => if bool_decide (cHash x = mark) then c :: x :: path else x :: insertBefore path c mark
  end.

Definition insertAll (path : list Commit) (refCommits : list Commit) (parent : ObjectID) : list Commit :=
  fst (fold_right (fun c '(path, mark) => (insertBefore path c mark, cHash c)) (path, parent) refCommits).

Definition addReference (fuel : nat) (ref : Reference) (path : list Commit) : option (list Commit) :=
  if listed path (rhash ref) then Some path
  else match GetCommit (rhash ref) with
       | Ok refCommit =>
         match collectRef fuel path (mk refCommit) [] with
         | None => None
         | Some (refCommits, None) => Some (path ++ refCommits)
         | Some (refCommits, Some parent) => Some (insertAll path refCommits parent)
         end
       | _ => Some path
       end.

(** [NewCommitAllIter], with the result of resolving HEAD and the references of the storer. *)
Definition NewCommitAllIter (fuel : nat) (head : res Reference) (refs : list Reference) : res (list Commit) :=
  let* path := match head with
               | Ok h => match addReference fuel h [] with Some p => Ok p | None => NoFuel end
               | Err e => if bool_decide (e = ErrReferenceNotFound) then Ok [] else Err e
               | Panic => Panic
               | NoFuel => NoFuel
               end in
  foldl (fun acc ref => let* path := acc in
                        match addReference fuel ref path with Some p => Ok p | None => NoFuel end) (Ok path) refs.
End All.

(** ** merge_base.go *)
Definition indexOf (commits : list Commit) (target : Commit) : Z :=
  (fix go l i := match l with
                 | [] => -1
                 | c :: l => if bool_decide (cHash target = cHash c) then i else go l (i + 1)
                 end) commits 0.

Definition remove (commits : list Commit) (toDelete : Commit) : list Commit :=
  List.filter (fun c => negb (bool_decide (cHash c = cHash toDelete))) commits.

Fixpoint removeDuplicated_loop (seen : gset ObjectID) (commits : list Commit) : list Commit :=
  match commits with
  | [] => []
  | c :: commits => if bool_decide (cHash c ∈ seen) then removeDuplicated_loop seen commits
                    else c :: removeDuplicated_loop ({[cHash c]} ∪ seen) commits
  end.
Definition removeDuplicated (commits : list Commit) : list Commit := removeDuplicated_loop ∅ commits.

Definition isInIndexCommitFilter (index : gset ObjectID) (c : Commit) : bool := bool_decide (cHash c ∈ index).

(** [ancestorsIndex] *)
Definition ancestorsIndex (fuel : nat) (excluded starting : Commit) : res (gset ObjectID) :=
  if bool_decide (ObjectID_String (cHash excluded) = ObjectID_String (cHash starting)) then Err errIsReachable
  else
    let* (history, err) :=
      forEachCommit (fun _ => bfs_Next ∅)
        (fun history c => if bool_decide (cHash c = cHash excluded) then (history, Some errIsReachable)
                          else ({[cHash c]} ∪ history, None))
        fuel ∅ (NewCommitIterBSF starting []) in
    match err with Some e => Err e | None => Ok history end.

(** [IsAncestor] *)
Definition IsAncestor (fuel : nat) (c other : Commit) : res (bool * option error) :=
  forEachCommit (fun _ => pre_Next ∅)
    (fun found comm => if negb (bool_decide (cHash comm = cHash c)) then (found, None) else (true, Some ErrStop))
    fuel false (NewCommitPreorderIter other []).

Section MergeBase.
(** Go's [sort.Slice]: not stable, so what it does with equal elements is left open. *)
Context (sortSlice : (Commit -> Commit -> bool) -> list Commit -> list Commit).

Definition sortByCommitDateDesc (commits : list Commit) : list Commit :=
  sortSlice (fun a b => time_After (sWhen (cCommitter a)) (sWhen (cCommitter b))) commits.

(** The variables of [Independents] that its callback changes. *)
Record indep := mkIndep { iCandidates : list Commit; iOthers : list Commit; iSeen : gset ObjectID }.

(** The callback. *)
Definition indep_cb (a : indep) (fromAncestor : Commit) : indep * option error :=
  let '(candidates, others) :=
    foldl (fun '(candidates, others) other =>
             if bool_decide (cHash fromAncestor = cHash other) then (remove candidates other, remove others other)
             else (candidates, others)) (iCandidates a, iOthers a) (iOthers a) in
  if len candidates =? 1 then (mkIndep candidates others (iSeen a), Some ErrStop)
  else (mkIndep candidates others ({[cHash fromAncestor]} ∪ iSeen a), None).

(** The loop over the candidates; [walk] rounds for the history of each. *)
Fixpoint independents_loop (walk fuel : nat) (candidates : list Commit) (seen : gset ObjectID) (pos : Z) : res (list Commit) :=
  match fuel with
  | O => NoFuel
  | S fuel =>
    let* from := index candidates pos in
    let* (a, err) := forEachCommit (fun a => filter_loop (fun _ => true) (fun c => bool_decide (cHash c ∈ iSeen a)) 1) indep_cb
                       walk (mkIndep candidates (remove candidates from) seen) (NewFilterCommitIter from) in
    match err with
    | Some e => Err e
    | None =>
      let nextPos := indexOf (iCandidates a) from + 1 in
      if nextPos >=? len (iCandidates a) then Ok (iCandidates a)
      else independents_loop walk fuel (iCandidates a) (iSeen a) nextPos
    end
  end.

Definition Independents (walk : nat) (commits : list Commit) : res (list Commit) :=
  let candidates := removeDuplicated (sortByCommitDateDesc commits) in
  if len candidates <? 2 then Ok candidates
  else independents_loop walk (S (length candidates)) candidates ∅ 0.

(** [MergeBase]; the error of walking the older history is dropped. *)
Definition MergeBase (walk : nat) (c other : Commit) : res (list Commit) :=
  match sortByCommitDateDesc [c; other] with
  | newer :: older :: _ =>
    match ancestorsIndex walk older newer with
    | Err e => if bool_decide (e = errIsReachable) then Ok [older] else Err e
    | Ok newerHistory =>
      let inNewer := isInIndexCommitFilter newerHistory in
      let* (res, _) := forEachCommit (fun _ => filter_loop inNewer inNewer walk) (fun res c => (res ++ [c], None)) walk []
                         (NewFilterCommitIter older) in
      Independents walk res
    | Panic => Panic
    | NoFuel => NoFuel
    end
  | _ => Panic
  end.
End MergeBase.
End Storer.
