(* ===== verification/HistoryWalks.v ===== *)
(** * Walks over the history: what the iterators visit

    A walk keeps what it visited and what is pending ([covers]); every iterator of
    History.v is such a walk, so that on a history that is all there it visits what is
    reached through the parents it follows, each commit once. *)
From S2P Require Import Prelude GoStrings ObjectID Reference Memory Objects ObjectsProofs Trees History.
From Stdlib Require Import Sorted.

(** ** Histories *)
Section Histories.
Context (encodedObject : ObjectType -> ObjectID -> res EncodedObj).
Abbreviation GetCommit := (GetCommit encodedObject).

(** The commit stored under its own hash. *)
Definition stored (c : Commit) : Prop := GetCommit (cHash c) = Ok c.

(** A step to a commit that a walk follows, to some of the parents or to all. *)
Definition follows (follow : Commit -> list ObjectID) (h p : ObjectID) : Prop := exists c, GetCommit h = Ok c /\ p ∈ follow c.
Definition parent_of : ObjectID -> ObjectID -> Prop := follows cParentHashes.

(** A set of commits that are all there, with their parents. *)
Definition complete_history (U : gset ObjectID) : Prop :=
  forall h, h ∈ U -> exists c, GetCommit h = Ok c /\ cHash c = h /\ forall p, p ∈ cParentHashes c -> p ∈ U.

(** [h] is reached from [start] along the steps that are followed, without passing through [ign]. *)
Definition reachesBy (follow : Commit -> list ObjectID) (ign : gset ObjectID) (start h : ObjectID) : Prop :=
  start ∉ ign /\ rtc (fun a b => follows follow a b /\ b ∉ ign) start h.
Definition reaches : gset ObjectID -> ObjectID -> ObjectID -> Prop := reachesBy cParentHashes.

(** Ancestors, with the commit itself. *)
Definition ancestor (a h : ObjectID) : Prop := rtc parent_of h a.

Lemma reaches_empty start h : reaches ∅ start h <-> ancestor h start.
Proof.
  unfold reaches, ancestor. split.
  - intros [_ Hr]. induction Hr as [|a b c [Hab _] _ IH]; [done|]. by eapply rtc_l.
  - intros Hr. split; [set_solver|]. induction Hr as [|a b c Hab _ IH]; [done|]. eapply rtc_l; [split; [exact Hab|set_solver]|done].
Qed.

Section Follow.
Context (follow : Commit -> list ObjectID).
Hypothesis follow_parents : forall c p, p ∈ follow c -> p ∈ cParentHashes c.
Abbreviation follows := (follows follow).
Abbreviation reachesBy := (reachesBy follow).

Lemma reaches_step ign start v p : reachesBy ign start v -> follows v p -> p ∉ ign -> reachesBy ign start p.
Proof. intros [Hs Hr] Hp Hn. split; [done|]. by eapply rtc_r. Qed.

Lemma follows_iff c p : stored c -> follows (cHash c) p <-> p ∈ follow c.
Proof. intros Hc. split; [|by exists c]. intros (c' & E & Hp). rewrite Hc in E. congruence. Qed.

Lemma follows_in U h p : complete_history U -> h ∈ U -> follows h p -> p ∈ U.
Proof. intros HU Hh (c & Ec & Hp). destruct (HU h Hh) as (c' & Ec' & _ & Hall). rewrite Ec in Ec'. injection Ec' as <-. by apply Hall, follow_parents. Qed.

Lemma reaches_in U ign start h : complete_history U -> start ∈ U -> reachesBy ign start h -> h ∈ U.
Proof. intros HU Hs [_ Hr]. induction Hr as [|a b c [Hab _] _ IH]; [done|]. apply IH. by eapply follows_in. Qed.

(** *** Walks in general: what was visited and what is pending *)
Record covers (ign : gset ObjectID) (start : ObjectID) (vis pend : list ObjectID) : Prop := {
  cv_nodup : NoDup vis;
  cv_vis : forall h, h ∈ vis -> reachesBy ign start h;
  cv_pend : forall h, h ∈ pend -> h ∉ ign -> reachesBy ign start h;
  cv_start : start ∈ vis \/ start ∈ ign \/ start ∈ pend;
  cv_closed : forall v p, v ∈ vis -> follows v p -> p ∈ vis \/ p ∈ ign \/ p ∈ pend }.

Lemma covers_init ign start : covers ign start [] [start].
Proof.
  split; [constructor|intros h Hh; by apply not_elem_of_nil in Hh| | |intros v p Hv; by apply not_elem_of_nil in Hv].
  - intros h Hh%list_elem_of_singleton Hn. subst h. split; [done|]. apply rtc_refl.
  - right. right. by apply list_elem_of_singleton.
Qed.

Lemma covers_same ign start vis pend pend' : (forall h, h ∈ pend <-> h ∈ pend') -> covers ign start vis pend -> covers ign start vis pend'.
Proof.
  intros E [H1 H2 H3 H4 H5]. split; [done|done| | |].
  - intros h Hh. apply H3. by apply E.
  - rewrite <- E. done.
  - intros v p Hv Hp. rewrite <- E. by eapply H5.
Qed.

Lemma covers_skip ign start vis h pend : h ∈ vis \/ h ∈ ign -> covers ign start vis (h :: pend) -> covers ign start vis pend.
Proof.
  intros Hh [H1 H2 H3 H4 H5]. split; [done|done| | |].
  - intros x Hx. apply H3. by right.
  - rewrite elem_of_cons in H4. destruct H4 as [?|[?|[->|?]]]; tauto.
  - intros v p Hv Hp. specialize (H5 v p Hv Hp). rewrite elem_of_cons in H5. destruct H5 as [?|[?|[->|?]]]; tauto.
Qed.

Lemma covers_visit ign start vis h pend pend' : h ∉ vis -> h ∉ ign ->
  (forall p, p ∈ pend -> p ∈ pend') ->
  (forall p, follows h p -> p ∈ vis ++ [h] \/ p ∈ ign \/ p ∈ pend') ->
  (forall p, p ∈ pend' -> p ∈ pend \/ follows h p) ->
  covers ign start vis (h :: pend) -> covers ign start (vis ++ [h]) pend'.
Proof.
  intros Hv Hi Hp1 Hp2 Hp3 [H1 H2 H3 H4 H5]. assert (reachesBy ign start h) as Hr by (apply H3; [by left|done]). split.
  - apply NoDup_app. split; [done|]. split; [|apply NoDup_singleton]. intros x Hx Hx'. apply list_elem_of_singleton in Hx'. by subst x.
  - intros x Hx. apply elem_of_app in Hx as [Hx|Hx%list_elem_of_singleton]; [by apply H2|by subst x].
  - intros x Hx Hn. destruct (Hp3 x Hx) as [Hx'|Hx']; [apply H3; [by right|done]|by eapply reaches_step].
  - rewrite elem_of_cons in H4. rewrite elem_of_app, list_elem_of_singleton. destruct H4 as [?|[?|[->|?]]]; [tauto|tauto|tauto|]. right. right. by apply Hp1.
  - intros v p Hv' Hp. apply elem_of_app in Hv' as [Hv'|Hv'%list_elem_of_singleton]; [|subst v; by apply Hp2].
    specialize (H5 v p Hv' Hp). rewrite elem_of_cons in H5. rewrite elem_of_app, list_elem_of_singleton.
    destruct H5 as [?|[?|[->|?]]]; [tauto|tauto|tauto|]. right. right. by apply Hp1.
Qed.

Lemma covers_done ign start vis : covers ign start vis [] -> forall h, h ∈ vis <-> reachesBy ign start h.
Proof.
  intros [H1 H2 H3 H4 H5] h. split; [exact (H2 h)|]. intros [Hs Hr].
  assert (start ∈ vis) as Hst. { destruct H4 as [?|[?|?%not_elem_of_nil]]; done. }
  clear Hs H2 H3 H4. induction Hr as [|a b c [Hab Hb] _ IH]; [done|]. apply IH.
  destruct (H5 a b Hst Hab) as [?|[?|?%not_elem_of_nil]]; done.
Qed.

End Follow.

(** A NoDup list in a set is no longer than the set. *)
Lemma nodup_size (l : list ObjectID) (U : gset ObjectID) : NoDup l -> (forall h, h ∈ l -> h ∈ U) -> (length l <= size U)%nat.
Proof.
  intros Hnd Hin. rewrite <- (size_list_to_set (C := gset ObjectID) l Hnd). apply subseteq_size. intros h. rewrite elem_of_list_to_set. apply Hin.
Qed.

(** *** Iterators in general *)
Section Iterator.
Context {St : Type} (next : St -> res Commit * St) (Inv : St -> list ObjectID -> Prop) (Done : list ObjectID -> Prop) (U : gset ObjectID).
Hypothesis Inv_in : forall s vis, Inv s vis -> NoDup vis /\ forall h, h ∈ vis -> h ∈ U.
Hypothesis Inv_next : forall s vis, Inv s vis ->
  (exists s', next s = (Err EOF, s') /\ Done vis) \/ (exists c s', next s = (Ok c, s') /\ Inv s' (vis ++ [cHash c]) /\ stored c).

Lemma collect_all fuel : forall s vis, Inv s vis -> (size U < fuel + length vis)%nat ->
  exists l, collect next fuel s = Ok l /\ Done (vis ++ map cHash l) /\ Forall stored l.
Proof.
  induction fuel as [|fuel IH]; intros s vis HI Hf.
  { destruct (Inv_in s vis HI) as [Hnd Hin]. pose proof (nodup_size vis U Hnd Hin). lia. }
  cbn [collect]. destruct (Inv_next s vis HI) as [(s' & -> & Hd)|(c & s' & -> & HI' & Hc)].
  - exists []. rewrite bool_decide_eq_true_2 by done. cbn. rewrite app_nil_r. done.
  - destruct (IH s' (vis ++ [cHash c]) HI') as (l & -> & Hd & Hl). { rewrite length_app. cbn. lia. }
    exists (c :: l). cbn [map res_bind]. rewrite <- app_assoc in Hd. cbn in Hd. split; [done|]. split; [done|]. by constructor.
Qed.

(** With a callback that never fails, [forEachCommit] folds over the same commits. *)
Lemma forEach_all {A} (f : A -> Commit -> A) fuel : forall s vis a, Inv s vis -> (size U < fuel + length vis)%nat ->
  exists l, forEachCommit (fun _ => next) (fun a c => (f a c, None)) fuel a s = Ok (foldl f a l, None) /\ Done (vis ++ map cHash l) /\ Forall stored l.
Proof.
  induction fuel as [|fuel IH]; intros s vis a HI Hf.
  { destruct (Inv_in s vis HI) as [Hnd Hin]. pose proof (nodup_size vis U Hnd Hin). lia. }
  cbn [forEachCommit]. destruct (Inv_next s vis HI) as [(s' & -> & Hd)|(c & s' & -> & HI' & Hc)].
  - exists []. rewrite bool_decide_eq_true_2 by done. cbn. rewrite app_nil_r. done.
  - destruct (IH s' (vis ++ [cHash c]) (f a c) HI') as (l & -> & Hd & Hl). { rewrite length_app. cbn. lia. }
    exists (c :: l). cbn [map foldl]. rewrite <- app_assoc in Hd. cbn in Hd. split; [done|]. split; [done|]. by constructor.
Qed.

(** A callback that stops with an error at the commit [target], and folds otherwise. *)
Lemma forEach_until {A} (f : A -> Commit -> A) (g : A -> A) (target : ObjectID) (e : error) fuel : forall s vis a, Inv s vis -> (size U < fuel + length vis)%nat -> target ∉ vis ->
  exists l, Forall stored l /\
    ((forEachCommit (fun _ => next) (fun a c => if bool_decide (cHash c = target) then (g a, Some e) else (f a c, None)) fuel a s =
        Ok (foldl f a l, None) /\ Done (vis ++ map cHash l) /\ target ∉ map cHash l) \/
     (forEachCommit (fun _ => next) (fun a c => if bool_decide (cHash c = target) then (g a, Some e) else (f a c, None)) fuel a s =
        Ok (g (foldl f a l), if bool_decide (e = ErrStop) then None else Some e) /\ exists s', Inv s' (vis ++ map cHash l ++ [target]))).
Proof.
  induction fuel as [|fuel IH]; intros s vis a HI Hf Ht.
  { destruct (Inv_in s vis HI) as [Hnd Hin]. pose proof (nodup_size vis U Hnd Hin). lia. }
  cbn [forEachCommit]. destruct (Inv_next s vis HI) as [(s' & -> & Hd)|(c & s' & -> & HI' & Hc)].
  - exists []. split; [constructor|]. left. rewrite bool_decide_eq_true_2 by done. cbn. rewrite app_nil_r. split; [done|]. split; [done|]. by apply not_elem_of_nil.
  - destruct (decide (cHash c = target)) as [E|Hne].
    + exists []. split; [constructor|]. right. rewrite bool_decide_eq_true_2 by done. cbn. rewrite <- E. split; [done|]. by exists s'.
    + rewrite (bool_decide_eq_false_2 (cHash c = target)) by done.
      destruct (IH s' (vis ++ [cHash c]) (f a c) HI') as (l & Hl & Hcase).
      { rewrite length_app. cbn. lia. } { rewrite not_elem_of_app, list_elem_of_singleton. by split; [|intros ->]. }
      exists (c :: l). split; [by constructor|]. cbn [map foldl]. rewrite <- !app_assoc in Hcase. cbn [app] in Hcase. destruct Hcase as [(E1 & E2 & E3)|(E1 & E2)].
      * left. split; [done|]. split; [done|]. rewrite not_elem_of_cons. by split; [|done].
      * right. done.
Qed.
End Iterator.
End Histories.

(** ** The iterators visit what is reached *)
Section Walks.
Context (encodedObject : ObjectType -> ObjectID -> res EncodedObj).
Abbreviation GetCommit := (GetCommit encodedObject).
Abbreviation stored := (stored encodedObject).
Context (U : gset ObjectID) (HU : complete_history encodedObject U).

(** A commit of the history. *)
Definition known (c : Commit) : Prop := stored c /\ cHash c ∈ U.

Lemma known_parents c : known c -> Forall (fun h => h ∈ U) (cParentHashes c).
Proof.
  intros [Hc Hu]. apply Forall_forall. intros p Hp. destruct (HU _ Hu) as (c' & E & _ & Hall). rewrite Hc in E. injection E as <-. by apply Hall.
Qed.

Lemma known_get h : h ∈ U -> exists c o, encodedObject CommitObject h = Ok o /\ DecodeCommit o = Ok c /\ GetCommit h = Ok c /\ cHash c = h /\ known c.
Proof.
  intros Hh. destruct (HU h Hh) as (c & Ec & Eh & _). unfold Trees.GetCommit in Ec.
  destruct (encodedObject CommitObject h) as [o| | |] eqn:Eo; cbn in Ec; try discriminate Ec.
  exists c, o. unfold known, HistoryWalks.stored, Trees.GetCommit. rewrite Eh, Eo. cbn. done.
Qed.

(** What was seen: what is ignored and what was visited. *)
Definition seen_ok (ign seen : gset ObjectID) (vis : list ObjectID) : Prop := forall h, h ∈ seen <-> h ∈ ign \/ h ∈ vis.

Lemma seen_ok_add ign seen vis h : seen_ok ign seen vis -> seen_ok ign ({[h]} ∪ seen) (vis ++ [h]).
Proof. unfold seen_ok. intros Hs x. rewrite elem_of_union, elem_of_singleton, Hs, elem_of_app, list_elem_of_singleton. tauto. Qed.

Lemma seen_ok_init ign : seen_ok (list_to_set ign) (list_to_set ign) [].
Proof. intros x. rewrite elem_of_nil. tauto. Qed.

Section Start.
Context (follow : Commit -> list ObjectID) (ign ext : gset ObjectID) (start : Commit).
Hypothesis follow_parents : forall c p, p ∈ follow c -> p ∈ cParentHashes c.
Hypothesis Hstart : known start.
Abbreviation covers := (covers encodedObject follow (ign ∪ ext) (cHash start)).

Lemma covers_known vis pend : covers vis pend -> NoDup vis /\ forall h, h ∈ vis -> h ∈ U.
Proof.
  intros Hc. split; [apply Hc|]. intros h Hh. eapply reaches_in; [done|exact HU|apply Hstart|]. by apply (cv_vis _ _ _ _ _ _ Hc).
Qed.

(** A commit that is come upon: skipped, or visited with its parents. *)
Lemma covers_seen seen vis c pend : seen_ok ign seen vis ->
  bool_decide (cHash c ∈ seen) || bool_decide (cHash c ∈ ext) = true -> covers vis (cHash c :: pend) -> covers vis pend.
Proof.
  clear follow_parents Hstart HU. intros Hs Hb Hc. eapply covers_skip; [|exact Hc]. apply orb_true_iff in Hb as [Hb|Hb]; apply bool_decide_eq_true in Hb;
    [apply Hs in Hb|]; set_solver.
Qed.

Lemma covers_new seen vis c pend pend' : known c -> seen_ok ign seen vis ->
  bool_decide (cHash c ∈ seen) || bool_decide (cHash c ∈ ext) = false ->
  (forall p, p ∈ pend -> p ∈ pend') -> (forall p, p ∈ pend' -> p ∈ pend \/ p ∈ follow c) ->
  (forall p, p ∈ follow c -> p ∈ {[cHash c]} ∪ seen \/ p ∈ ext \/ p ∈ pend') ->
  covers vis (cHash c :: pend) -> covers (vis ++ [cHash c]) pend'.
Proof.
  clear follow_parents Hstart HU. intros [Hk _] Hs Hb Hp1 Hp2 Hp3 Hc. apply orb_false_iff in Hb as [Hb1 Hb2]. apply bool_decide_eq_false in Hb1, Hb2.
  pose proof (Hs (cHash c)) as Hsc. rewrite Hsc in Hb1.
  eapply covers_visit; [tauto|set_solver|exact Hp1| | |exact Hc].
  - intros p Hin. apply follows_iff in Hin; [|done]. destruct (Hp3 p Hin) as [Hi|[Hi|Hi]]; [|set_solver|by right; right].
    apply (seen_ok_add _ _ _ (cHash c) Hs p) in Hi. set_solver.
  - intros p Hin. apply Hp2 in Hin as [?|?]; [by left|right]. by apply follows_iff.
Qed.
End Start.

Section All.
Context (ign ext : gset ObjectID) (start : Commit) (Hstart : known start).
Abbreviation covers := (covers encodedObject cParentHashes (ign ∪ ext) (cHash start)).
Abbreviation reaches := (reaches encodedObject (ign ∪ ext) (cHash start)).

(** *** Breadth first *)
Lemma appendHashes_ok seen hashes : Forall (fun h => h ∈ U) hashes -> forall queue, exists q,
  appendHashes encodedObject ext seen hashes queue = (queue ++ q, None) /\ Forall known q /\
  (forall p, p ∈ map cHash q <-> p ∈ hashes /\ p ∉ seen /\ p ∉ ext).
Proof.
  induction 1 as [|h hashes Hh _ IH]; intros queue; cbn [appendHashes].
  { exists []. rewrite app_nil_r. split; [done|]. split; [constructor|]. intros p. cbn. rewrite !elem_of_nil. tauto. }
  destruct (bool_decide (h ∈ seen) || bool_decide (h ∈ ext)) eqn:Eb.
  - destruct (IH queue) as (q & -> & Hq & Hp). exists q. split; [done|]. split; [done|]. intros p. rewrite Hp, elem_of_cons.
    apply orb_true_iff in Eb as [Eb|Eb]; apply bool_decide_eq_true in Eb; split; [tauto|intros [[->|?] [? ?]]; tauto|tauto|intros [[->|?] [? ?]]; tauto].
  - destruct (known_get h Hh) as (c & o & _ & _ & Eg & Eh & Hk). rewrite Eg.
    destruct (IH (queue ++ [c])) as (q & -> & Hq & Hp). exists (c :: q). rewrite <- app_assoc. split; [done|]. split; [by constructor|].
    intros p. cbn [map]. rewrite !elem_of_cons, Hp, Eh. apply orb_false_iff in Eb as [Eb1 Eb2]. apply bool_decide_eq_false in Eb1, Eb2.
    split; [intros [->|?]; tauto|tauto].
Qed.

Definition bfs_inv (w : bfsIter) (vis : list ObjectID) : Prop :=
  seen_ok ign (bSeen w) vis /\ Forall known (bQueue w) /\ covers vis (map cHash (bQueue w)).

Lemma bfs_loop_ok vis fuel : forall w, (length (bQueue w) < fuel)%nat -> bfs_inv w vis ->
  (exists w', bfs_loop encodedObject fuel ext w = (Err EOF, w') /\ covers vis []) \/
  (exists c w', bfs_loop encodedObject fuel ext w = (Ok c, w') /\ bfs_inv w' (vis ++ [cHash c]) /\ stored c).
Proof.
  induction fuel as [|fuel IH]; intros [seen queue] Hf (Hs & Hk & Hc); [lia|]. cbn [bfs_loop bQueue bSeen] in *.
  destruct queue as [|c queue]; [left; by eexists|]. apply Forall_cons in Hk as [Hkc Hk]. cbn [map] in Hc.
  destruct (bool_decide (cHash c ∈ seen) || bool_decide (cHash c ∈ ext)) eqn:Eb.
  - apply (IH (mkBfs seen queue)); [cbn in *; lia|]. split; [done|]. split; [done|]. by eapply covers_seen.
  - right. destruct (appendHashes_ok ({[cHash c]} ∪ seen) (cParentHashes c) (known_parents c Hkc) queue) as (q & -> & Hq & Hp).
    eexists _, _. split; [reflexivity|]. split; [|apply Hkc]. split; [by apply seen_ok_add|]. split; [by apply Forall_app|].
    cbn [bQueue]. rewrite map_app. eapply covers_new; [done|done|done| | | |exact Hc].
    + intros p. rewrite elem_of_app. tauto.
    + intros p. rewrite elem_of_app, Hp. tauto.
    + intros p Hin. rewrite elem_of_app, Hp. destruct (decide (p ∈ {[cHash c]} ∪ seen)), (decide (p ∈ ext)); tauto.
Qed.

Lemma bfs_visits fuel : forall ignore, ign = list_to_set ignore -> (size U < fuel)%nat ->
  exists l, collect (bfs_Next encodedObject ext) fuel (NewCommitIterBSF start ignore) = Ok l /\ NoDup (map cHash l) /\ Forall stored l /\
    forall h, h ∈ map cHash l <-> reaches h.
Proof.
  intros ignore Hi Hf.
  destruct (collect_all encodedObject (bfs_Next encodedObject ext) bfs_inv (fun vis => covers vis []) U) with (fuel := fuel) (s := NewCommitIterBSF start ignore) (vis := @nil ObjectID) as (l & E & Hd & Hl).
  - intros w vis (_ & _ & Hc). by eapply covers_known.
  - intros w vis HI. by apply bfs_loop_ok; [lia|].
  - split; [|split; [by constructor|apply covers_init]]. cbn. rewrite Hi. apply seen_ok_init.
  - cbn. lia.
  - exists l. split; [done|]. split; [apply Hd|]. split; [done|]. by apply covers_done.
Qed.

(** *** Pre-order *)
Definition pre_pending (w : preIter) : list ObjectID := from_option (fun c => [cHash c]) [] (pStart w) ++ concat (pStack w).

Definition pre_inv (w : preIter) (vis : list ObjectID) : Prop :=
  seen_ok ign (pSeen w) vis /\ from_option known True (pStart w) /\ Forall (fun h => h ∈ U) (concat (pStack w)) /\
  covers vis (pre_pending w).

(** Coming upon a commit, with the rest of the stack. *)
Lemma pre_visit_ok seen stack c vis : known c -> seen_ok ign seen vis -> Forall (fun h => h ∈ U) (concat stack) ->
  covers vis (cHash c :: concat stack) ->
  match pre_visit ext seen stack c with
  | Some w => pre_inv w (vis ++ [cHash c])
  | None => pre_inv (mkPre seen stack None) vis
  end.
Proof.
  intros Hk Hs HU' Hc. unfold pre_visit. destruct (bool_decide (cHash c ∈ seen) || bool_decide (cHash c ∈ ext)) eqn:Eb.
  - split; [done|]. split; [done|]. split; [done|]. by eapply covers_seen.
  - assert (concat (if NumParents c >? 0 then filteredParentIter c ({[cHash c]} ∪ seen) :: stack else stack) =
      filteredParentIter c ({[cHash c]} ∪ seen) ++ concat stack) as Econ.
    { unfold NumParents, filteredParentIter. destruct (cParentHashes c) as [|p ps]; [done|]. rewrite len_cons. pose proof (len_nonneg ps).
      destruct (Z.gtb_spec (1 + len ps) 0); [done|lia]. }
    assert (forall p, p ∈ filteredParentIter c ({[cHash c]} ∪ seen) <-> p ∈ cParentHashes c /\ p ∉ {[cHash c]} ∪ seen) as Hfil.
    { intros p. unfold filteredParentIter. rewrite list_elem_of_In, filter_In, <- list_elem_of_In, negb_true_iff, bool_decide_eq_false. done. }
    split; [by apply seen_ok_add|]. split; [done|]. cbn [pStack]. rewrite Econ. split.
    + apply Forall_app. split; [|done]. apply Forall_forall. intros p Hp. apply Hfil in Hp as [Hp _].
      pose proof (known_parents c Hk) as Hall. rewrite Forall_forall in Hall. by apply Hall.
    + unfold pre_pending. cbn [pStart pStack from_option app]. rewrite Econ.
      eapply covers_new; [done|done|done| | | |exact Hc]; intros p; rewrite elem_of_app, ?Hfil; [tauto|tauto|].
      intros Hin. destruct (decide (p ∈ {[cHash c]} ∪ seen)); tauto.
Qed.

Lemma pre_loop_ok vis fuel : forall w, (length (from_option (fun _ => [tt]) [] (pStart w)) + sum_list_with (fun l => S (length l)) (pStack w) < fuel)%nat -> pre_inv w vis ->
  (exists w', pre_loop encodedObject fuel ext w = (Err EOF, w') /\ covers vis []) \/
  (exists c w', pre_loop encodedObject fuel ext w = (Ok c, w') /\ pre_inv w' (vis ++ [cHash c]) /\ stored c).
Proof.
  induction fuel as [|fuel IH]; intros [seen stack st] Hf (Hs & Hk & HU' & Hc); [lia|]. cbn [pre_loop pSeen pStack pStart] in *.
  unfold pre_pending in Hc. cbn [pStart pStack] in Hc. destruct st as [c|]; cbn [from_option app] in *.
  - pose proof (pre_visit_ok seen stack c vis Hk Hs HU' Hc) as Hv. destruct (pre_visit ext seen stack c) as [w|].
    + right. eexists _, _. split; [reflexivity|]. split; [done|apply Hk].
    + apply IH; [cbn in *; lia|done].
  - destruct stack as [|top rest]; [left; by eexists|]. cbn [concat] in *. destruct top as [|h top]; cbn [lookup_Next].
    + rewrite bool_decide_eq_true_2 by done. apply IH; [cbn in *; lia|]. split; [done|]. split; [done|]. done.
    + cbn [app] in *. apply Forall_cons in HU' as [Hh HU'].
      destruct (known_get h Hh) as (c & o & -> & -> & _ & Eh & Hkc). rewrite <- Eh in Hc.
      change (top ++ concat rest) with (concat (top :: rest)) in *.
      pose proof (pre_visit_ok seen (top :: rest) c vis Hkc Hs HU' Hc) as Hv. destruct (pre_visit ext seen (top :: rest) c) as [w|].
      * right. eexists _, _. split; [reflexivity|]. split; [done|apply Hkc].
      * apply IH; [cbn in *; lia|done].
Qed.

Lemma pre_Next_ok vis w : pre_inv w vis ->
  (exists w', pre_Next encodedObject ext w = (Err EOF, w') /\ covers vis []) \/
  (exists c w', pre_Next encodedObject ext w = (Ok c, w') /\ pre_inv w' (vis ++ [cHash c]) /\ stored c).
Proof. intros HI. apply pre_loop_ok; [|done]. unfold pre_fuel. destruct (pStart w); cbn; lia. Qed.

Lemma pre_init ignore : ign = list_to_set ignore -> pre_inv (NewCommitPreorderIter start ignore) [].
Proof. intros Hi. split; [cbn; rewrite Hi; apply seen_ok_init|]. split; [done|]. split; [constructor|]. apply covers_init. Qed.

Lemma pre_inv_in w vis : pre_inv w vis -> NoDup vis /\ forall h, h ∈ vis -> h ∈ U.
Proof. intros (_ & _ & _ & Hc). by eapply covers_known. Qed.

Lemma pre_visits fuel : forall ignore, ign = list_to_set ignore -> (size U < fuel)%nat ->
  exists l, collect (pre_Next encodedObject ext) fuel (NewCommitPreorderIter start ignore) = Ok l /\ NoDup (map cHash l) /\ Forall stored l /\
    forall h, h ∈ map cHash l <-> reaches h.
Proof.
  intros ignore Hi Hf.
  destruct (collect_all encodedObject (pre_Next encodedObject ext) pre_inv (fun vis => covers vis []) U pre_inv_in (fun w vis => pre_Next_ok vis w)
    fuel _ _ (pre_init ignore Hi)) as (l & E & Hd & Hl); [cbn; lia|].
  exists l. split; [done|]. split; [apply Hd|]. split; [done|]. by apply covers_done.
Qed.
End All.
End Walks.

Section Walks.
Context (encodedObject : ObjectType -> ObjectID -> res EncodedObj).
Abbreviation GetCommit := (GetCommit encodedObject).
Abbreviation stored := (stored encodedObject).
Context (U : gset ObjectID) (HU : complete_history encodedObject U).
Abbreviation known := (known encodedObject U).

(** *** Post-order *)
Section Post.
Context (ign : gset ObjectID) (start : Commit) (Hstart : known start).
(** Which parents of a commit are followed, by their hashes. *)
Context (keep : Commit -> Commit -> bool) (kept : Commit -> ObjectID -> bool) (follow : Commit -> list ObjectID).
Hypothesis keep_kept : forall c p, keep c p = kept c (cHash p).
Hypothesis follow_kept : forall c p, p ∈ follow c <-> p ∈ cParentHashes c /\ kept c p = true.
Abbreviation covers := (covers encodedObject follow (ign ∪ ∅) (cHash start)).

Lemma follow_sub c p : p ∈ follow c -> p ∈ cParentHashes c.
Proof. intros Hp. by apply follow_kept in Hp as [? _]. Qed.

Lemma parents_ok c hashes : Forall (fun h => h ∈ U) hashes -> forall stack, exists q,
  parents_ForEach encodedObject (keep c) hashes stack = Ok (q ++ stack, None) /\ Forall known q /\
  (forall p, p ∈ map cHash q <-> p ∈ hashes /\ kept c p = true).
Proof.
  induction 1 as [|h hashes Hh _ IH]; intros stack; cbn [parents_ForEach].
  { exists []. split; [done|]. split; [constructor|]. intros p. cbn. rewrite !elem_of_nil. tauto. }
  destruct (known_get encodedObject U HU h Hh) as (p & o & -> & -> & _ & Eh & Hk). rewrite keep_kept, Eh.
  destruct (kept c h) eqn:Ek.
  - destruct (IH (p :: stack)) as (q & -> & Hq & Hp). exists (q ++ [p]). rewrite <- app_assoc. split; [done|].
    split; [apply Forall_app; split; [done|by constructor]|]. intros x. rewrite map_app, elem_of_app, Hp. cbn [map].
    rewrite list_elem_of_singleton, elem_of_cons, Eh. split; [intros [?| ->]; tauto|intros [[->|?] ?]; tauto].
  - destruct (IH stack) as (q & -> & Hq & Hp). exists q. split; [done|]. split; [done|]. intros x. rewrite Hp, elem_of_cons.
    split; [tauto|intros [[->|?] ?]; [congruence|tauto]].
Qed.

Definition post_inv (w : postIter) (vis : list ObjectID) : Prop :=
  seen_ok ign (oSeen w) vis /\ Forall known (oStack w) /\ covers vis (map cHash (oStack w)).

Lemma post_loop_ok vis stack : forall seen, post_inv (mkPost stack seen) vis ->
  (exists w', post_loop encodedObject keep stack seen = (Err EOF, w') /\ covers vis []) \/
  (exists c w', post_loop encodedObject keep stack seen = (Ok c, w') /\ post_inv w' (vis ++ [cHash c]) /\ stored c).
Proof.
  induction stack as [|c stack IH]; intros seen (Hs & Hk & Hc); cbn [post_loop oSeen oStack map] in *; [left; by eexists|].
  apply Forall_cons in Hk as [Hkc Hk]. destruct (bool_decide (cHash c ∈ seen)) eqn:Eb.
  - apply IH. split; [done|]. split; [done|]. eapply covers_seen; [done| |exact Hc]. by rewrite Eb.
  - right. destruct (parents_ok c (cParentHashes c) (known_parents _ _ HU c Hkc) stack) as (q & -> & Hq & Hp).
    eexists _, _. split; [reflexivity|]. split; [|apply Hkc]. split; [by apply seen_ok_add|]. split; [by apply Forall_app|].
    cbn [oStack]. rewrite map_app. eapply covers_new; [done|done| | | | |exact Hc].
    + by rewrite Eb, bool_decide_eq_false_2 by set_solver.
    + intros p. rewrite elem_of_app. tauto.
    + intros p. rewrite elem_of_app, Hp, <- follow_kept. tauto.
    + intros p Hin. rewrite elem_of_app, Hp, <- follow_kept. tauto.
Qed.

Lemma post_visits fuel : forall ignore, ign = list_to_set ignore -> (size U < fuel)%nat ->
  exists l, collect (fun w => post_loop encodedObject keep (oStack w) (oSeen w)) fuel (NewCommitPostorderIter start ignore) = Ok l /\
    NoDup (map cHash l) /\ Forall stored l /\ forall h, h ∈ map cHash l <-> reachesBy encodedObject follow ign (cHash start) h.
Proof.
  intros ignore Hi Hf.
  destruct (collect_all encodedObject (fun w => post_loop encodedObject keep (oStack w) (oSeen w)) post_inv (fun vis => covers vis []) U)
    with (fuel := fuel) (s := NewCommitPostorderIter start ignore) (vis := @nil ObjectID) as (l & E & Hd & Hl).
  - intros w vis (_ & _ & Hc). eapply covers_known; [exact HU|apply follow_sub|exact Hstart|exact Hc].
  - intros [st seen] vis HI. by apply post_loop_ok.
  - split; [cbn; rewrite Hi; apply seen_ok_init|]. split; [by constructor|apply covers_init].
  - cbn. lia.
  - exists l. split; [done|]. split; [apply Hd|]. split; [done|]. intros h. rewrite (covers_done _ _ _ _ _ Hd h).
    by rewrite (right_id_L ∅ (∪) ign).
Qed.
End Post.

(** *** By commit time *)
Section CTime.
(** What the walk relies on in the heap: a pop takes an element of it that no other was committed
    after, and a push adds one. *)
Context {Heap : Type} (heap_new : Heap) (heap_Push : Heap -> Commit -> Heap) (heap_Pop : Heap -> option (Commit * Heap)) (elements : Heap -> list Commit).

Record heap_laws : Prop := {
  hp_new : elements heap_new = [];
  hp_push : forall h c, elements (heap_Push h c) ≡ₚ c :: elements h;
  hp_pop : forall h, match heap_Pop h with
                     | None => elements h = []
                     | Some (c, h') => elements h ≡ₚ c :: elements h' /\
                         Forall (fun d => time_After (sWhen (cCommitter d)) (sWhen (cCommitter c)) = false) (elements h')
                     end }.

Context (ign ext : gset ObjectID) (start : Commit) (Hstart : known start) (laws : heap_laws).
Abbreviation covers := (covers encodedObject cParentHashes (ign ∪ ext) (cHash start)).

Definition ctime_inv (w : ctimeIter) (vis : list ObjectID) : Prop :=
  seen_ok ign (tSeen w) vis /\ Forall known (elements (tHeap w)) /\ covers vis (map cHash (elements (tHeap w))).

Lemma pushParents_ok seen hashes : Forall (fun h => h ∈ U) hashes -> forall heap, exists heap' q,
  pushParents encodedObject heap_Push ext seen hashes heap = (heap', None) /\ elements heap' ≡ₚ q ++ elements heap /\ Forall known q /\
  (forall p, p ∈ map cHash q <-> p ∈ hashes /\ p ∉ seen /\ p ∉ ext).
Proof.
  induction 1 as [|h hashes Hh _ IH]; intros heap; cbn [pushParents].
  { exists heap, []. split; [done|]. split; [done|]. split; [constructor|]. intros p. cbn. rewrite !elem_of_nil. tauto. }
  destruct (bool_decide (h ∈ seen) || bool_decide (h ∈ ext)) eqn:Eb.
  - destruct (IH heap) as (heap' & q & -> & He & Hq & Hp). exists heap', q. split; [done|]. split; [done|]. split; [done|]. intros p. rewrite Hp, elem_of_cons.
    apply orb_true_iff in Eb as [Eb|Eb]; apply bool_decide_eq_true in Eb; (split; [tauto|intros [[->|?] [? ?]]; tauto]).
  - destruct (known_get encodedObject U HU h Hh) as (c & o & _ & _ & Eg & Eh & Hk). rewrite Eg.
    destruct (IH (heap_Push heap c)) as (heap' & q & -> & He & Hq & Hp). exists heap', (c :: q). split; [done|].
    split; [rewrite He, (hp_push laws); cbn; by rewrite Permutation_middle|]. split; [by constructor|].
    intros p. cbn [map]. rewrite !elem_of_cons, Hp, Eh. apply orb_false_iff in Eb as [Eb1 Eb2]. apply bool_decide_eq_false in Eb1, Eb2.
    split; [intros [->|?]; tauto|tauto].
Qed.

Lemma ctime_ok vis fuel : forall w, (length (elements (tHeap w)) < fuel)%nat -> ctime_inv w vis ->
  (exists w', ctime_Next encodedObject heap_Push heap_Pop fuel ext w = (Err EOF, w') /\ covers vis []) \/
  (exists c w', ctime_Next encodedObject heap_Push heap_Pop fuel ext w = (Ok c, w') /\ ctime_inv w' (vis ++ [cHash c]) /\ stored c).
Proof.
  induction fuel as [|fuel IH]; intros [seen heap] Hf (Hs & Hk & Hc); [lia|]. cbn [ctime_Next tHeap tSeen] in *.
  pose proof (hp_pop laws heap) as Hpop. destruct (heap_Pop heap) as [[c heap']|]; [|left; rewrite Hpop in Hc; by eexists].
  destruct Hpop as [Hpop _]. rewrite Hpop in Hk. apply Forall_cons in Hk as [Hkc Hk].
  assert (covers vis (cHash c :: map cHash (elements heap'))) as Hc'.
  { eapply covers_same; [|exact Hc]. intros h. change (cHash c :: map cHash (elements heap')) with (map cHash (c :: elements heap')). by rewrite Hpop. }
  destruct (bool_decide (cHash c ∈ seen) || bool_decide (cHash c ∈ ext)) eqn:Eb.
  - apply (IH (mkCTime seen heap')); [cbn in *; apply Permutation_length in Hpop; cbn in Hpop; lia|]. split; [done|]. split; [done|]. by eapply covers_seen.
  - right. destruct (pushParents_ok ({[cHash c]} ∪ seen) (cParentHashes c) (known_parents _ _ HU c Hkc) heap') as (heap2 & q & -> & He & Hq & Hp).
    eexists _, _. split; [reflexivity|]. split; [|apply Hkc]. split; [by apply seen_ok_add|]. cbn [tHeap].
    split; [rewrite He; by apply Forall_app|]. eapply covers_same with (pend := map cHash (q ++ elements heap')); [intros h; by rewrite He|].
    rewrite map_app. eapply covers_new; [done|done|done| | | |exact Hc'].
    + intros p. rewrite elem_of_app. tauto.
    + intros p. rewrite elem_of_app, Hp. tauto.
    + intros p Hin. rewrite elem_of_app, Hp. destruct (decide (p ∈ {[cHash c]} ∪ seen)), (decide (p ∈ ext)); tauto.
Qed.

Abbreviation ctime_next := (fun w => ctime_Next encodedObject heap_Push heap_Pop (S (length (elements (tHeap w)))) ext w).

Lemma ctime_init ignore : ign = list_to_set ignore -> ctime_inv (NewCommitIterCTime heap_new heap_Push start ignore) [].
Proof.
  intros Hi. assert (elements (heap_Push heap_new start) ≡ₚ [start]) as He by (by rewrite (hp_push laws), (hp_new laws)).
  split; [cbn; rewrite Hi; apply seen_ok_init|]. cbn [tHeap NewCommitIterCTime]. split; [rewrite He; by constructor|].
  eapply covers_same with (pend := [cHash start]); [|apply covers_init]. intros h. change [cHash start] with (map cHash [start]). by rewrite He.
Qed.

Lemma ctime_visits fuel : forall ignore, ign = list_to_set ignore -> (size U < fuel)%nat ->
  exists l, collect ctime_next fuel (NewCommitIterCTime heap_new heap_Push start ignore) = Ok l /\
    NoDup (map cHash l) /\ Forall stored l /\ forall h, h ∈ map cHash l <-> reaches encodedObject (ign ∪ ext) (cHash start) h.
Proof.
  intros ignore Hi Hf.
  destruct (collect_all encodedObject ctime_next ctime_inv (fun vis => covers vis []) U)
    with (fuel := fuel) (s := NewCommitIterCTime heap_new heap_Push start ignore) (vis := @nil ObjectID) as (l & E & Hd & Hl).
  - intros w vis (_ & _ & Hc). eapply covers_known; [exact HU|done|exact Hstart|exact Hc].
  - intros w vis HI. by apply ctime_ok; [lia|].
  - by apply ctime_init.
  - cbn. lia.
  - exists l. split; [done|]. split; [apply Hd|]. split; [done|]. by apply covers_done.
Qed.

(** *** The order: nothing that comes later was committed after *)
Definition no_later (d c : Commit) : Prop := time_After (sWhen (cCommitter d)) (sWhen (cCommitter c)) = false.

Lemma no_later_trans a b c : no_later a b -> no_later b c -> no_later a c.
Proof. unfold no_later, time_After, time_Before. lia. Qed.

(** Parents are not committed after their children. *)
Definition dated : Prop := forall h p c d, h ∈ U -> GetCommit h = Ok c -> p ∈ cParentHashes c -> GetCommit p = Ok d -> no_later d c.
Hypothesis Hdated : dated.

Lemma pushParents_later c hashes seen : (forall p d, p ∈ hashes -> GetCommit p = Ok d -> no_later d c) -> forall heap heap' r,
  Forall (fun d => no_later d c) (elements heap) -> pushParents encodedObject heap_Push ext seen hashes heap = (heap', r) ->
  Forall (fun d => no_later d c) (elements heap').
Proof.
  induction hashes as [|h hashes IH]; intros Hp heap heap' r Hh; cbn [pushParents]; [by intros [= <- _]|].
  destruct (bool_decide (h ∈ seen) || bool_decide (h ∈ ext)); [apply IH; [|done]; intros p d Hin; apply Hp; by right|].
  destruct (GetCommit h) as [pc| | |] eqn:Eg; try (by intros [= <- _]). apply IH; [intros p d Hin; apply Hp; by right|].
  rewrite (hp_push laws). constructor; [|done]. apply (Hp h); [by left|done].
Qed.

Lemma ctime_later fuel : forall w c w' b, Forall known (elements (tHeap w)) -> Forall (fun d => no_later d b) (elements (tHeap w)) ->
  ctime_Next encodedObject heap_Push heap_Pop fuel ext w = (Ok c, w') -> no_later c b /\ Forall (fun d => no_later d c) (elements (tHeap w')).
Proof.
  induction fuel as [|fuel IH]; intros [seen heap] c w' b Hk Hb; cbn [ctime_Next tHeap tSeen] in *; [by intros [= ]|].
  pose proof (hp_pop laws heap) as Hpop. destruct (heap_Pop heap) as [[c0 heap']|]; [|by intros [= ]]. destruct Hpop as [Hpop Hmax].
  rewrite Hpop in Hk, Hb. apply Forall_cons in Hk as [Hkc Hk]. apply Forall_cons in Hb as [Hbc Hb].
  destruct (bool_decide (cHash c0 ∈ seen) || bool_decide (cHash c0 ∈ ext)); [by apply (IH (mkCTime seen heap'))|].
  destruct (pushParents_ok ({[cHash c0]} ∪ seen) (cParentHashes c0) (known_parents _ _ HU c0 Hkc) heap') as (heap2 & q & E & _). rewrite E.
  intros [= <- <-]. split; [done|]. eapply pushParents_later; [|exact Hmax|exact E].
  intros p d Hin Hd. by apply (Hdated (cHash c0) p c0 d); [apply Hkc|apply Hkc| |].
Qed.

Lemma ctime_sorted fuel : forall w vis l b, ctime_inv w vis -> Forall (fun d => no_later d b) (elements (tHeap w)) ->
  collect ctime_next fuel w = Ok l -> Forall (fun d => no_later d b) l /\ StronglySorted (fun c d => no_later d c) l.
Proof.
  induction fuel as [|fuel IH]; intros w vis l b HI Hb; cbn [collect]; [by intros [= ]|].
  destruct (ctime_ok vis (S (length (elements (tHeap w)))) w) as [(w' & E & _)|(c & w' & E & HI' & _)]; [lia|done| |];
    remember (S (length (elements (tHeap w)))) as n eqn:En; rewrite E.
  - rewrite bool_decide_eq_true_2 by done. intros [= <-]. repeat constructor.
  - destruct (ctime_later _ _ _ _ b (proj1 (proj2 HI)) Hb E) as [Hcb Hc].
    destruct (collect ctime_next fuel w') as [l'| | |] eqn:El; cbn; try by intros [= ]. intros [= <-].
    destruct (IH w' _ l' c HI' Hc El) as [H1 H2]. split; [|by constructor]. constructor; [done|].
    eapply Forall_impl; [exact H1|]. intros d Hd. exact (no_later_trans d c b Hd Hcb).
Qed.
End CTime.
End Walks.

Section Filtered.
Context (encodedObject : ObjectType -> ObjectID -> res EncodedObj).
Abbreviation GetCommit := (GetCommit encodedObject).
Abbreviation stored := (stored encodedObject).
Context (U : gset ObjectID) (HU : complete_history encodedObject U).
Abbreviation known := (known encodedObject U).

(** *** Breadth first, not beyond the commits [limit] *)
Section Limit.
Context (start : Commit) (Hstart : known start) (limit : gset ObjectID).
Definition follow_limit (c : Commit) : list ObjectID := if bool_decide (cHash c ∈ limit) then [] else cParentHashes c.
Abbreviation covers := (covers encodedObject follow_limit (∅ ∪ ∅) (cHash start)).

Lemma follow_limit_sub c p : p ∈ follow_limit c -> p ∈ cParentHashes c.
Proof. unfold follow_limit. case_bool_decide; [|done]. intros Hp. by apply not_elem_of_nil in Hp. Qed.

Lemma popNew_ok vis visited queue : seen_ok ∅ visited vis -> Forall known queue -> covers vis (map cHash queue) ->
  match popNew visited queue with
  | None => covers vis []
  | Some (c, queue') => known c /\ Forall known queue' /\ cHash c ∉ vis /\ covers vis (cHash c :: map cHash queue')
  end.
Proof.
  intros Hs. induction queue as [|c queue IH]; intros Hk Hc; cbn [popNew map] in *; [done|]. apply Forall_cons in Hk as [Hkc Hk].
  case_bool_decide as E.
  - apply IH; [done|]. eapply covers_seen; [exact Hs| |exact Hc]. by rewrite bool_decide_eq_true_2.
  - split; [done|]. split; [done|]. split; [|done]. intros Hin. apply E. apply Hs. by right.
Qed.

Lemma addToQueue_ok visited hashes : Forall (fun h => h ∈ U) hashes -> forall queue, exists q,
  addToQueue encodedObject visited hashes queue = Ok (queue ++ q) /\ Forall known q /\ (forall p, p ∈ map cHash q <-> p ∈ hashes /\ p ∉ visited).
Proof.
  induction 1 as [|h hashes Hh _ IH]; intros queue; cbn [addToQueue].
  { exists []. rewrite app_nil_r. split; [done|]. split; [constructor|]. intros p. cbn. rewrite !elem_of_nil. tauto. }
  case_bool_decide as Eb.
  - destruct (IH queue) as (q & -> & Hq & Hp). exists q. split; [done|]. split; [done|]. intros p. rewrite Hp, elem_of_cons.
    split; [tauto|intros [[->|?] ?]; tauto].
  - destruct (known_get encodedObject U HU h Hh) as (c & o & _ & _ & Eg & Eh & Hk). rewrite Eg. cbn [res_bind].
    destruct (IH (queue ++ [c])) as (q & -> & Hq & Hp). exists (c :: q). rewrite <- app_assoc. split; [done|]. split; [by constructor|].
    intros p. cbn [map]. rewrite !elem_of_cons, Hp, Eh. split; [intros [->|?]; tauto|tauto].
Qed.

Definition filter_inv (w : filterIter) (vis : list ObjectID) : Prop :=
  seen_ok ∅ (fVisited w) vis /\ Forall known (fQueue w) /\ fLastErr w = None /\ covers vis (map cHash (fQueue w)).

Lemma filter_init : filter_inv (NewFilterCommitIter start) [].
Proof. split; [intros h; cbn; rewrite elem_of_nil; set_solver|]. split; [by constructor|]. split; [done|]. apply covers_init. Qed.

Lemma filter_inv_in w vis : filter_inv w vis -> NoDup vis /\ forall h, h ∈ vis -> h ∈ U.
Proof. intros (_ & _ & _ & Hc). eapply covers_known; [exact HU|apply follow_limit_sub|exact Hstart|exact Hc]. Qed.

(** The step of the loop: the end, or a new commit. *)
Lemma filter_step isValid isLimit vis w fuel : filter_inv w vis ->
  (forall c, cHash c ∉ vis -> isLimit c = bool_decide (cHash c ∈ limit)) ->
  (exists w', filter_loop encodedObject isValid isLimit (S fuel) w = (Err EOF, w') /\ covers vis []) \/
  (exists c w', filter_loop encodedObject isValid isLimit (S fuel) w = (if isValid c then (Ok c, w') else filter_loop encodedObject isValid isLimit fuel w') /\
     filter_inv w' (vis ++ [cHash c]) /\ stored c).
Proof.
  intros (Hs & Hk & He & Hc) Hlim. cbn [filter_loop]. pose proof (popNew_ok vis _ _ Hs Hk Hc) as Hp.
  destruct (popNew (fVisited w) (fQueue w)) as [[c queue]|]; [|left; rewrite He; by eexists].
  destruct Hp as (Hkc & Hk' & Hn & Hc'). right. exists c. rewrite Hlim by done.
  assert (bool_decide (cHash c ∈ fVisited w) || bool_decide (cHash c ∈ (∅ : gset ObjectID)) = false) as Eb.
  { rewrite !bool_decide_eq_false_2; [done|set_solver|]. intros Hin. apply Hs in Hin. set_solver. }
  destruct (addToQueue_ok ({[cHash c]} ∪ fVisited w) (cParentHashes c) (known_parents _ _ HU c Hkc) queue) as (q & Ea & Hq & Hp).
  destruct (decide (cHash c ∈ limit)) as [El|El]; [rewrite (bool_decide_eq_true_2 (cHash c ∈ limit)) by done|rewrite (bool_decide_eq_false_2 (cHash c ∈ limit)) by done]; cbn [negb].
  - eexists. split; [reflexivity|]. split; [|apply Hkc]. split; [by apply seen_ok_add|]. split; [done|]. split; [done|].
    cbn [fQueue]. eapply covers_new; [done|done|done| | | |exact Hc']; unfold follow_limit; rewrite ?bool_decide_eq_true_2 by done; intros p; rewrite ?elem_of_nil; tauto.
  - rewrite Ea. eexists. split; [reflexivity|]. split; [|apply Hkc]. split; [by apply seen_ok_add|]. split; [by apply Forall_app|]. split; [done|].
    cbn [fQueue]. rewrite map_app. eapply covers_new; [done|done|done| | | |exact Hc']; unfold follow_limit; rewrite ?bool_decide_eq_false_2 by done.
    + intros p. rewrite elem_of_app. tauto.
    + intros p. rewrite elem_of_app, Hp. tauto.
    + intros p Hin. rewrite elem_of_app, Hp. destruct (decide (p ∈ {[cHash c]} ∪ fVisited w)); tauto.
Qed.

(** With a filter on what is given. *)
Context (validH : gset ObjectID).
Abbreviation valid := (fun c => bool_decide (cHash c ∈ validH)).
Abbreviation islimit := (fun c => bool_decide (cHash c ∈ limit)).

Definition given (vis : list ObjectID) : list ObjectID := List.filter (fun h => bool_decide (h ∈ validH)) vis.

Definition filtered_inv (w : filterIter) (outs : list ObjectID) : Prop := exists vis, filter_inv w vis /\ outs = given vis.

Lemma given_app a b : given (a ++ b) = given a ++ given b.
Proof. apply List.filter_app. Qed.

Lemma given_in vis h : h ∈ given vis <-> h ∈ vis /\ h ∈ validH.
Proof. unfold given. by rewrite list_elem_of_In, filter_In, <- list_elem_of_In, bool_decide_eq_true. Qed.

Lemma given_NoDup vis : NoDup vis -> NoDup (given vis).
Proof. rewrite !NoDup_ListNoDup. apply List.NoDup_filter. Qed.

Lemma filtered_loop_ok n : forall fuel w vis, filter_inv w vis -> (size U < n + length vis)%nat -> (n <= fuel)%nat ->
  (exists w' vis', filter_loop encodedObject valid islimit fuel w = (Err EOF, w') /\ covers vis' [] /\ given vis' = given vis) \/
  (exists c w', filter_loop encodedObject valid islimit fuel w = (Ok c, w') /\ filtered_inv w' (given vis ++ [cHash c]) /\ stored c).
Proof.
  induction n as [|n IH]; intros fuel w vis HI Hn Hf.
  { destruct (filter_inv_in w vis HI) as [Hnd Hin]. pose proof (nodup_size vis U Hnd Hin). lia. }
  destruct fuel as [|fuel]; [lia|]. destruct (filter_step valid islimit vis w fuel HI ltac:(done)) as [(w' & E & Hd)|(c & w' & E & HI' & Hc)].
  { left. exists w', vis. done. }
  rewrite E. case_bool_decide as Ev.
  - right. exists c, w'. split; [done|]. split; [|done]. exists (vis ++ [cHash c]). split; [done|]. rewrite given_app. cbn. by rewrite bool_decide_eq_true_2.
  - assert (given (vis ++ [cHash c]) = given vis) as Eg by (rewrite given_app; cbn; rewrite bool_decide_eq_false_2 by done; by rewrite app_nil_r).
    rewrite <- Eg. apply (IH fuel w' (vis ++ [cHash c]) HI'); [rewrite length_app; cbn; lia|lia].
Qed.

Lemma filtered_visits {A} (f : A -> Commit -> A) fuel a : (size U < fuel)%nat ->
  exists l, forEachCommit (fun _ => filter_loop encodedObject valid islimit fuel) (fun a c => (f a c, None)) fuel a (NewFilterCommitIter start) =
      Ok (foldl f a l, None) /\ Forall stored l /\ NoDup (map cHash l) /\
    forall h, h ∈ map cHash l <-> reachesBy encodedObject follow_limit ∅ (cHash start) h /\ h ∈ validH.
Proof.
  intros Hf.
  destruct (forEach_all encodedObject (filter_loop encodedObject valid islimit fuel) filtered_inv
    (fun outs => exists vis, covers vis [] /\ outs = given vis) U) with (f := f) (fuel := fuel) (s := NewFilterCommitIter start) (vis := @nil ObjectID) (a := a)
    as (l & E & (vis & Hd & Eo) & Hl).
  - intros w outs (vis & HI & ->). destruct (filter_inv_in w vis HI) as [Hnd Hin]. split; [by apply given_NoDup|].
    intros h Hh. apply given_in in Hh as [Hh _]. by apply Hin.
  - intros w outs (vis & HI & ->). destruct (filtered_loop_ok fuel fuel w vis HI ltac:(lia) ltac:(lia)) as [(w' & vis' & E & Hd & Eg)|Hok]; [|by right].
    left. exists w'. split; [done|]. by exists vis'.
  - exists []. split; [apply filter_init|done].
  - cbn. lia.
  - exists l. split; [done|]. split; [done|]. cbn in Eo. rewrite Eo. split; [apply given_NoDup; apply Hd|].
    intros h. rewrite given_in, (covers_done _ _ _ _ _ Hd h). by rewrite (right_id_L ∅ (∪)).
Qed.
End Limit.
End Filtered.
