(* ===== verification/HistoryProofs.v ===== *)
(** * The history: ancestors, independent commits and merge bases

    [IsAncestor], [Independents] and [MergeBase] against reachability through parents,
    the limits of [log], and the theorems about the iterators, with a sample
    history of six commits. *)
From S2P Require Import Prelude GoStrings ObjectID Reference Memory Objects ObjectsProofs Trees TreesProofs History HistoryWalks.
From Stdlib Require Import Sorted.

(** ** Ancestors and merge bases *)
Section MergeBase.
Context (encodedObject : ObjectType -> ObjectID -> res EncodedObj).
Abbreviation GetCommit := (GetCommit encodedObject).
Abbreviation stored := (stored encodedObject).
Abbreviation R := (rtc (parent_of encodedObject)).
Context (U : gset ObjectID) (HU : complete_history encodedObject U).
Abbreviation known := (known encodedObject U).

Lemma forEach_ext {St A} (next : A -> St -> res Commit * St) cb cb' fuel : (forall a c, cb a c = cb' a c) ->
  forall a s, forEachCommit next cb fuel a s = forEachCommit next cb' fuel a s.
Proof.
  intros E. induction fuel as [|fuel IH]; intros a s; [done|]. cbn [forEachCommit]. destruct (next a s) as [[c| | |] s']; try done.
  rewrite E. destruct (cb' a c) as [a' [e|]]; [done|apply IH].
Qed.

Lemma ancestor_reaches (s h : ObjectID) : reaches encodedObject (∅ ∪ ∅) s h <-> R s h.
Proof. rewrite (right_id_L ∅ (∪)). apply reaches_empty. Qed.

Lemma foldl_id {A B} (l : list B) (a : A) : foldl (fun a _ => a) a l = a.
Proof. by induction l. Qed.

Lemma IsAncestor_ok fuel c other : known other -> (size U < fuel)%nat ->
  exists b, IsAncestor encodedObject fuel c other = Ok (b, None) /\ (b = true <-> R (cHash other) (cHash c)).
Proof.
  intros Ho Hf. unfold IsAncestor.
  erewrite forEach_ext with (cb' := fun (found : bool) comm => if bool_decide (cHash comm = cHash c) then (true, Some ErrStop) else (found, None)).
  2: { intros a d. by destruct (bool_decide (cHash d = cHash c)). }
  destruct (forEach_until encodedObject (pre_Next encodedObject ∅) (pre_inv encodedObject U ∅ ∅ other)
    (fun vis => covers encodedObject cParentHashes (∅ ∪ ∅) (cHash other) vis []) U (pre_inv_in _ U HU ∅ ∅ other Ho) (fun w vis => pre_Next_ok _ U HU ∅ ∅ other vis w)
    (fun found (_ : Commit) => found) (fun _ => true) (cHash c) ErrStop fuel _ _ false (pre_init _ U ∅ ∅ other Ho [] eq_refl)) as (l & _ & [(E & Hd & Hn)|(E & s' & HI)]).
  - cbn. lia.
  - by apply not_elem_of_nil.
  - exists false. rewrite E, foldl_id. split; [done|]. split; [done|]. intros Hr. exfalso. apply Hn. cbn in Hd.
    apply (covers_done _ _ _ _ _ Hd). by apply ancestor_reaches.
  - exists true. rewrite E. split; [done|]. split; [|done]. intros _. apply ancestor_reaches.
    destruct HI as (_ & _ & _ & Hc). apply (cv_vis _ _ _ _ _ _ Hc). cbn. apply elem_of_app. right. by apply list_elem_of_singleton.
Qed.

Lemma foldl_hashes (l : list Commit) (s : gset ObjectID) h : h ∈ foldl (fun s c => {[cHash c]} ∪ s) s l <-> h ∈ s \/ h ∈ map cHash l.
Proof.
  revert s. induction l as [|c l IH]; intros s; cbn [foldl map]; [rewrite elem_of_nil; tauto|]. rewrite IH, elem_of_cons. set_solver.
Qed.

Lemma ancestorsIndex_ok fuel excluded starting : known starting -> wf_id (cHash excluded) -> wf_id (cHash starting) -> (size U < fuel)%nat ->
  (ancestorsIndex encodedObject fuel excluded starting = Err errIsReachable /\ R (cHash starting) (cHash excluded)) \/
  (exists hs, ancestorsIndex encodedObject fuel excluded starting = Ok hs /\ ~ R (cHash starting) (cHash excluded) /\ forall h, h ∈ hs <-> R (cHash starting) h).
Proof.
  intros Hs Hw1 Hw2 Hf. unfold ancestorsIndex. case_bool_decide as Es.
  { left. split; [done|]. assert (cHash excluded = cHash starting) as ->; [|done].
    pose proof (FromHex_String _ Hw1) as E1. rewrite Es, (FromHex_String _ Hw2) in E1. congruence. }
  destruct (forEach_until encodedObject (bfs_Next encodedObject ∅) (bfs_inv encodedObject U ∅ ∅ starting)
    (fun vis => covers encodedObject cParentHashes (∅ ∪ ∅) (cHash starting) vis []) U) with
    (f := fun (hs : gset ObjectID) c => {[cHash c]} ∪ hs) (g := fun hs : gset ObjectID => hs) (target := cHash excluded) (e := errIsReachable) (fuel := fuel)
    (s := NewCommitIterBSF starting []) (vis := @nil ObjectID) (a := ∅ : gset ObjectID) as (l & _ & [(E & Hd & Hn)|(E & s' & HI)]).
  - intros w vis (_ & _ & Hc). eapply covers_known; [exact HU|done|exact Hs|exact Hc].
  - intros w vis HI. by apply bfs_loop_ok; [|lia|].
  - split; [apply seen_ok_init|]. split; [by constructor|]. apply covers_init.
  - cbn. lia.
  - by apply not_elem_of_nil.
  - right. rewrite E. cbn [res_bind]. eexists. split; [reflexivity|]. cbn in Hd. pose proof (covers_done _ _ _ _ _ Hd) as Hc.
    split; [intros Hr; apply Hn, Hc; by apply ancestor_reaches|]. intros h. rewrite foldl_hashes, (Hc h). rewrite (ancestor_reaches (cHash starting) h). set_solver.
  - left. rewrite E. split; [done|]. destruct HI as (_ & _ & Hc). apply ancestor_reaches. apply (cv_vis _ _ _ _ _ _ Hc). cbn. apply elem_of_app. right.
    by apply list_elem_of_singleton.
Qed.
End MergeBase.

(** ** Independents *)

Lemma filter_filter {A} (p q : A -> bool) l : List.filter p (List.filter q l) = List.filter (fun x => q x && p x) l.
Proof.
  induction l as [|x l IH]; [done|]. cbn [List.filter]. destruct (q x) eqn:Eq; cbn [List.filter andb]; [|exact IH]. rewrite IH. by destruct (p x).
Qed.

Lemma filter_all {A} (p : A -> bool) l : (forall x, x ∈ l -> p x = true) -> List.filter p l = l.
Proof. induction l as [|x l IH]; intros Hall; [done|]. cbn [List.filter]. rewrite Hall by (by left). f_equal. apply IH. intros y Hy. apply Hall. by right. Qed.

Lemma in_filter {A} (p : A -> bool) l x : x ∈ List.filter p l <-> x ∈ l /\ p x = true.
Proof. by rewrite list_elem_of_In, filter_In, <- list_elem_of_In. Qed.

Lemma filter_ext_on {A} (p q : A -> bool) l : (forall x, x ∈ l -> p x = q x) -> List.filter p l = List.filter q l.
Proof.
  induction l as [|x l IH]; intros E; [done|]. cbn [List.filter]. rewrite (E x) by (by left). rewrite IH by (intros y Hy; apply E; by right). done.
Qed.

Definition hashes (l : list Commit) : list ObjectID := map cHash l.

Lemma hashes_in (l : list Commit) h : h ∈ hashes l <-> exists c, c ∈ l /\ cHash c = h.
Proof. unfold hashes. rewrite list_elem_of_fmap. split; intros (c & ? & ?); exists c; done. Qed.

Lemma hashes_filter_NoDup p l : NoDup (hashes l) -> NoDup (hashes (List.filter p l)).
Proof.
  induction l as [|c l IH]; [done|]. cbn [hashes map List.filter]. rewrite NoDup_cons. intros [Hc Hl]. destruct (p c); [|by apply IH].
  cbn [map]. apply NoDup_cons. split; [|by apply IH]. intros Hin. apply Hc. apply hashes_in in Hin as (d & Hd & E). apply in_filter in Hd as [Hd _].
  rewrite <- E. apply hashes_in. by exists d.
Qed.

(** The inner fold of the callback removes the commit from both lists when it is one of the others. *)
Lemma indep_fold c others : forall cs os,
  foldl (fun '(candidates, others) other =>
           if bool_decide (cHash c = cHash other) then (remove candidates other, remove others other) else (candidates, others)) (cs, os) others =
  if bool_decide (cHash c ∈ hashes others) then (remove cs c, remove os c) else (cs, os).
Proof.
  assert (forall l o, cHash c = cHash o -> remove l o = remove l c) as Hsame by (intros l o E; unfold remove; by rewrite E).
  assert (forall l, remove (remove l c) c = remove l c) as Hidem.
  { intros l. unfold remove. rewrite filter_filter. apply filter_ext_on. intros x _. by destruct (negb _). }
  induction others as [|o others IH]; intros cs os; cbn [foldl]; [by rewrite bool_decide_eq_false_2 by apply not_elem_of_nil|].
  cbn [hashes map]. destruct (decide (cHash c = cHash o)) as [E|E]; [rewrite (bool_decide_eq_true_2 (cHash c = cHash o)) by done|rewrite (bool_decide_eq_false_2 (cHash c = cHash o)) by done].
  - rewrite !(Hsame _ o E), IH, !Hidem. rewrite (bool_decide_eq_true_2 (cHash c ∈ cHash o :: _)) by (rewrite E; by left). by destruct (bool_decide _).
  - rewrite IH. assert (bool_decide (cHash c ∈ hashes others) = bool_decide (cHash c ∈ cHash o :: map cHash others)) as ->; [|done].
    apply bool_decide_ext. rewrite elem_of_cons. unfold hashes. tauto.
Qed.

Section Independents.
Context (encodedObject : ObjectType -> ObjectID -> res EncodedObj).
Abbreviation stored := (stored encodedObject).
Abbreviation R := (rtc (parent_of encodedObject)).
Context (U : gset ObjectID) (HU : complete_history encodedObject U).
Abbreviation known := (known encodedObject U).

Lemma reachesBy_R follow ign s h : (forall c p, p ∈ follow c -> p ∈ cParentHashes c) -> reachesBy encodedObject follow ign s h -> R s h.
Proof.
  intros Hsub [_ Hr]. induction Hr as [|x y z [(d & Hd & Hy) _] _ IH]; [apply rtc_refl|]. eapply rtc_l; [|exact IH]. exists d. split; [done|]. by apply Hsub.
Qed.

(** The walk from [f] finds what is reached, except below what was seen. *)
Lemma walk_blocked S f : (forall h, R f h -> h ∈ U) -> forall r, R f r ->
  reachesBy encodedObject (follow_limit S) ∅ f r \/ exists s, s ∈ S /\ reachesBy encodedObject (follow_limit S) ∅ f s /\ R s r.
Proof.
  intros Hin. apply rtc_ind_r; [left; split; [set_solver|apply rtc_refl]|]. intros x y Hx Hxy IH.
  destruct IH as [IH|(s & Hs & Hv & Hr)]; [|right; exists s; split; [done|]; split; [done|by eapply rtc_r]].
  destruct (decide (x ∈ S)) as [Hs|Hn]; [right; exists x; split; [done|]; split; [done|by apply rtc_once]|]. left.
  destruct IH as [Ha Hr]. split; [done|]. eapply rtc_r; [exact Hr|]. split; [|set_solver]. destruct Hxy as (c & Ec & Hp).
  exists c. split; [done|]. unfold follow_limit. destruct (HU x (Hin x Hx)) as (c' & Ec' & Eh & _). rewrite Ec in Ec'. injection Ec' as <-.
  by rewrite Eh, bool_decide_eq_false_2.
Qed.

Lemma known_reach f h : known f -> R (cHash f) h -> h ∈ U.
Proof. intros [_ Hf] Hr. induction Hr as [|x y z Hxy _ IH]; [done|]. apply IH. destruct Hxy as (c & Ec & Hp). destruct (HU x Hf) as (c' & Ec' & _ & Hall). rewrite Ec in Ec'. injection Ec' as <-. by apply Hall. Qed.

(** No commit is a proper ancestor of itself. *)
Hypothesis acyclic : forall a b, R a b -> R b a -> a = b.

(** *** The history of one candidate *)
Section Inner.
Context (from : Commit) (Hfrom : known from) (C : list Commit) (HC : NoDup (hashes C)) (S0 : gset ObjectID).

(** The candidates that are left after the commits [vis]. *)
Definition left_after (vis : list ObjectID) : list Commit :=
  List.filter (fun c => bool_decide (cHash c ∉ vis \/ cHash c = cHash from)) C.

Definition inner_state (vis : list ObjectID) (a : indep) : Prop :=
  iCandidates a = left_after vis /\ iOthers a = remove (left_after vis) from /\ (forall h, h ∈ iSeen a <-> h ∈ S0 \/ h ∈ vis).

Lemma left_after_nil : left_after [] = C.
Proof. apply filter_all. intros c _. apply bool_decide_eq_true_2. left. by apply not_elem_of_nil. Qed.

Lemma left_after_step vis c :
  left_after (vis ++ [cHash c]) = (if bool_decide (cHash c ∈ hashes (remove (left_after vis) from)) then remove (left_after vis) c else left_after vis).
Proof.
  case_bool_decide as E.
  - unfold remove, left_after at 2. rewrite filter_filter. apply filter_ext_on. intros d Hd.
    apply hashes_in in E as (o & Ho & Eo). apply in_filter in Ho as [_ Ho]. apply negb_true_iff, bool_decide_eq_false in Ho. rewrite Eo in Ho.
    apply eq_true_iff_eq. rewrite andb_true_iff, negb_true_iff, !bool_decide_eq_true, bool_decide_eq_false.
    rewrite not_elem_of_app, list_elem_of_singleton. split; [intros [[? ?]|?]; [tauto|split; [tauto|congruence]]|tauto].
  - unfold left_after. apply filter_ext_on. intros d Hd. apply bool_decide_ext. rewrite not_elem_of_app, list_elem_of_singleton. split; [tauto|].
    intros [Hn|?]; [|by right]. destruct (decide (cHash d = cHash from)); [by right|left]. split; [done|]. intros Ed. apply E. rewrite <- Ed.
    apply hashes_in. exists d. split; [|done]. unfold remove. apply in_filter. split; [apply in_filter; split; [done|apply bool_decide_eq_true; by left]|].
    by apply negb_true_iff, bool_decide_eq_false.
Qed.

Lemma indep_cb_ok vis a c : inner_state vis a ->
  exists a', iCandidates a' = left_after (vis ++ [cHash c]) /\
    ((indep_cb a c = (a', Some ErrStop) /\ len (iCandidates a') = 1) \/ (indep_cb a c = (a', None) /\ inner_state (vis ++ [cHash c]) a')).
Proof.
  intros (H1 & H2 & H3). unfold indep_cb. rewrite indep_fold, H1, H2.
  assert ((if bool_decide (cHash c ∈ hashes (remove (left_after vis) from)) then (remove (left_after vis) c, remove (remove (left_after vis) from) c)
           else (left_after vis, remove (left_after vis) from)) = (left_after (vis ++ [cHash c]), remove (left_after (vis ++ [cHash c])) from)) as ->.
  { rewrite left_after_step. case_bool_decide; [|done]. f_equal. unfold remove. rewrite !filter_filter. apply filter_ext_on. intros x _. apply andb_comm. }
  destruct (Z.eqb_spec (len (left_after (vis ++ [cHash c]))) 1) as [E|_].
  - eexists. split; [|left; split; [reflexivity|exact E]]. done.
  - eexists. split; [|right; split; [reflexivity|]]; [done|]. split; [done|]. split; [done|]. intros h. cbn [iSeen].
    rewrite elem_of_union, elem_of_singleton, H3, elem_of_app, list_elem_of_singleton. tauto.
Qed.

Abbreviation covers := (covers encodedObject (follow_limit S0) (∅ ∪ ∅) (cHash from)).

Lemma inner_ok fuel : forall w vis a, filter_inv encodedObject U from S0 w vis -> inner_state vis a -> (size U < fuel + length vis)%nat ->
  exists a' vis', forEachCommit (fun a => filter_loop encodedObject (fun _ => true) (fun c => bool_decide (cHash c ∈ iSeen a)) 1) indep_cb fuel a w = Ok (a', None) /\
    iCandidates a' = left_after vis' /\ (forall h, h ∈ vis' -> R (cHash from) h) /\
    ((covers vis' [] /\ inner_state vis' a') \/ len (iCandidates a') = 1).
Proof.
  induction fuel as [|fuel IH]; intros w vis a HI Ha Hf.
  { destruct (filter_inv_in encodedObject U HU from Hfrom S0 w vis HI) as [Hnd Hin]. pose proof (nodup_size vis U Hnd Hin). lia. }
  assert (forall w vis, filter_inv encodedObject U from S0 w vis -> forall h, h ∈ vis -> R (cHash from) h) as Hreach.
  { intros w0 vis0 (_ & _ & _ & Hc) h Hh. apply (cv_vis _ _ _ _ _ _ Hc) in Hh. eapply reachesBy_R; [apply follow_limit_sub|exact Hh]. }
  cbn [forEachCommit].
  destruct (filter_step encodedObject U HU from Hfrom S0 (fun _ => true) (fun c => bool_decide (cHash c ∈ iSeen a)) vis w 0 HI) as [(w' & E & Hd)|(c & w' & E & HI' & Hc)].
  { intros c Hc. apply bool_decide_ext. destruct Ha as (_ & _ & H3). rewrite H3. tauto. }
  - rewrite E. rewrite bool_decide_eq_true_2 by done. exists a, vis. split; [done|]. split; [apply Ha|]. split; [by eapply Hreach|]. by left.
  - rewrite E. destruct (indep_cb_ok vis a c Ha) as (a' & Ec & [[-> Hl]|[-> Ha']]).
    + rewrite bool_decide_eq_true_2 by done. exists a', (vis ++ [cHash c]). split; [done|]. split; [done|]. split; [by eapply Hreach|]. by right.
    + apply (IH w' (vis ++ [cHash c]) a' HI' Ha'). rewrite length_app. cbn. lia.
Qed.
End Inner.

Lemma indexOf_at pre c post : cHash c ∉ hashes pre -> indexOf (pre ++ c :: post) c = len pre.
Proof.
  unfold indexOf. intros Hn. replace (len pre) with (0 + len pre) by lia. generalize 0 as i. revert Hn.
  induction pre as [|d pre IH]; intros Hn i; cbn [app].
  - rewrite bool_decide_eq_true_2 by done. change (len []) with 0. lia.
  - cbn [hashes map] in Hn. apply not_elem_of_cons in Hn as [Hd Hn]. rewrite bool_decide_eq_false_2 by done. rewrite IH by done. rewrite len_cons. lia.
Qed.

(** *** The loop over the candidates *)
Section Outer.
Context (D : list Commit) (HD : NoDup (hashes D)) (HDk : Forall known D).

Record outer_inv (C : list Commit) (S : gset ObjectID) (PR : gset ObjectID) : Prop := {
  ou_sub : exists p, C = List.filter p D;
  ou_removed : forall x, x ∈ hashes D -> x ∉ hashes C -> exists y, y ∈ hashes D /\ y <> x /\ R y x;
  ou_seen : forall h, h ∈ S <-> exists p, p ∈ PR /\ R p h;
  ou_apart : forall p r, p ∈ PR -> r ∈ hashes C -> R p r -> r = p }.

(** Every candidate is an ancestor of one that is left. *)
Lemma left_above C : (forall x, x ∈ hashes D -> x ∉ hashes C -> exists y, y ∈ hashes D /\ y <> x /\ R y x) ->
  forall x, x ∈ hashes D -> exists y, y ∈ hashes C /\ R y x.
Proof.
  intros Hrem x Hx.
  assert (forall n y L, NoDup (y :: L) -> (forall z, z ∈ y :: L -> z ∈ hashes D /\ R y z) -> R y x -> (length D < n + length (y :: L))%nat ->
    exists z, z ∈ hashes C /\ R z x) as Hn.
  { induction n as [|n IH]; intros y L Hnd Hall Hy Hlen.
    { exfalso. assert (length (y :: L) <= length (hashes D))%nat; [|unfold hashes in *; rewrite length_map in *; lia].
      apply submseteq_length, NoDup_submseteq; [done|]. intros z Hz. by apply Hall. }
    destruct (decide (y ∈ hashes C)) as [Hin|Hnin]; [by exists y|].
    destruct (Hrem y) as (y' & Hy' & Hne & Hr); [apply Hall; by left|done|].
    apply (IH y' (y :: L)); [| |by etrans|cbn in *; lia].
    - apply NoDup_cons. split; [|done]. intros Hin. apply Hne. apply acyclic; [done|]. by apply Hall.
    - intros z Hz. apply elem_of_cons in Hz as [->|Hz]; [split; [done|apply rtc_refl]|]. destruct (Hall z Hz) as [? ?]. split; [done|]. by etrans. }
  apply (Hn (S (length D)) x []); [apply NoDup_singleton| |apply rtc_refl|cbn; lia].
  intros z Hz%list_elem_of_singleton. subst z. split; [done|apply rtc_refl].
Qed.

(** What is left when every candidate left has been walked, or only one is left. *)
Lemma outer_done C : (forall x, x ∈ hashes D -> x ∉ hashes C -> exists y, y ∈ hashes D /\ y <> x /\ R y x) ->
  (forall y r, y ∈ hashes C -> r ∈ hashes C -> R y r -> r = y) ->
  forall r, r ∈ hashes D -> (r ∈ hashes C <-> forall x, x ∈ hashes D -> R x r -> x = r).
Proof.
  intros Hrem Hap r Hr. split.
  - intros Hc x Hx Hxr. destruct (left_above C Hrem x Hx) as (y & Hy & Hyx). assert (r = y) as -> by (apply Hap; [done|done|by etrans]).
    by apply acyclic.
  - intros Hmax. destruct (decide (r ∈ hashes C)) as [|Hn]; [done|]. destruct (Hrem r Hr Hn) as (y & Hy & Hne & Hyr). by destruct Hne; apply Hmax.
Qed.

(** What [independents_loop] must give. *)
Definition outcome (C : list Commit) : Prop :=
  (exists p, C = List.filter p D) /\
  (forall x, x ∈ hashes D -> x ∉ hashes C -> exists y, y ∈ hashes D /\ y <> x /\ R y x) /\
  (forall y r, y ∈ hashes C -> r ∈ hashes C -> R y r -> r = y).

Lemma split_candidates f P Q vis : cHash f ∉ hashes (P ++ Q) ->
  exists P' Q', left_after f (P ++ f :: Q) vis = P' ++ f :: Q' /\ (forall c, c ∈ P' -> c ∈ P) /\ (forall c, c ∈ Q' -> c ∈ Q) /\ (length Q' <= length Q)%nat.
Proof.
  intros Hn. unfold left_after. rewrite List.filter_app. cbn [List.filter]. rewrite (bool_decide_eq_true_2 (cHash f ∉ vis \/ _)) by (by right).
  eexists _, _. split; [reflexivity|]. split; [intros c Hc; by apply in_filter in Hc as [? _]|]. split; [intros c Hc; by apply in_filter in Hc as [? _]|]. apply List.filter_length_le.
Qed.

(** One round: the candidates after the history of [f]. *)
Lemma outer_step P f Q S PR vis a : outer_inv (P ++ f :: Q) S PR -> known f ->
  covers encodedObject (follow_limit S) (∅ ∪ ∅) (cHash f) vis [] -> inner_state f (P ++ f :: Q) S vis a ->
  outer_inv (left_after f (P ++ f :: Q) vis) (iSeen a) ({[cHash f]} ∪ PR).
Proof.
  intros [[q Hq] Hrem Hseen Hap] Hk Hcov (_ & _ & Hsn). set (C := P ++ f :: Q) in *.
  assert (forall h, h ∈ vis <-> reachesBy encodedObject (follow_limit S) ∅ (cHash f) h) as Hvis.
  { intros h. rewrite (covers_done _ _ _ _ _ Hcov h). by rewrite (right_id_L ∅ (∪)). }
  assert (forall h, h ∈ vis -> R (cHash f) h) as Hrv. { intros h Hh. apply Hvis in Hh. eapply reachesBy_R; [apply follow_limit_sub|exact Hh]. }
  assert (forall r, R (cHash f) r -> r ∈ vis \/ exists s, s ∈ S /\ s ∈ vis /\ R s r) as Hbl.
  { intros r Hr. destruct (walk_blocked S (cHash f) (fun h => known_reach f h Hk) r Hr) as [Hb|(s & Hs & Hb & Hr')]; [left; by apply Hvis|right].
    exists s. split; [done|]. split; [by apply Hvis|done]. }
  assert (cHash f ∈ hashes D) as HfD. { apply hashes_in. exists f. split; [|done]. assert (f ∈ C) as Hf by (apply elem_of_app; right; by left). rewrite Hq in Hf. by apply in_filter in Hf as [? _]. }
  split.
  - exists (fun c => q c && bool_decide (cHash c ∉ vis \/ cHash c = cHash f)). unfold left_after. rewrite Hq at 1. by rewrite filter_filter.
  - intros x Hx Hn. destruct (decide (x ∈ hashes C)) as [Hc|Hc]; [|by apply Hrem]. exists (cHash f). split; [done|].
    apply hashes_in in Hc as (c & Hc & <-). destruct (decide (cHash c ∉ vis \/ cHash c = cHash f)) as [Hd|Hd].
    { exfalso. apply Hn. apply hashes_in. exists c. split; [|done]. apply in_filter. split; [done|by apply bool_decide_eq_true]. }
    split; [intros E; apply Hd; by right|]. apply Hrv. destruct (decide (cHash c ∈ vis)); [done|]. destruct Hd. by left.
  - intros h. rewrite Hsn. split.
    + intros [Hh|Hh]; [apply Hseen in Hh as (p & Hp & Hr); exists p; split; [set_solver|done]|exists (cHash f); split; [set_solver|by apply Hrv]].
    + intros (p & Hp & Hr). apply elem_of_union in Hp as [Hp%elem_of_singleton|Hp]; [|left; apply Hseen; by exists p]. subst p.
      destruct (Hbl h Hr) as [?|(s & Hs & _ & Hr')]; [by right|left]. apply Hseen in Hs as (p & Hp & Hps). apply Hseen. exists p. split; [done|by etrans].
  - intros p r Hp Hr Hpr. apply hashes_in in Hr as (c & Hc & <-). apply in_filter in Hc as [Hc Hd]. apply bool_decide_eq_true in Hd.
    assert (cHash c ∈ hashes C) as HcC by (apply hashes_in; by exists c).
    apply elem_of_union in Hp as [Hp%elem_of_singleton|Hp]; [subst p|by apply Hap]. destruct Hd as [Hd|Hd]; [|done].
    destruct (Hbl _ Hpr) as [?|(s & Hs & Hsv & Hsr)]; [done|]. exfalso. apply Hd. apply Hseen in Hs as (p & Hp & Hps).
    assert (cHash c = p) as Ec by (apply Hap; [done|done|by etrans]). subst p. assert (s = cHash c) as ->; [|done]. by apply acyclic.
Qed.

Lemma independents_ok walk (Hwalk : (size U < walk)%nat) fuel : forall P f Q S PR, outer_inv (P ++ f :: Q) S PR ->
  (forall c, c ∈ P -> cHash c ∈ PR) -> (forall c, c ∈ f :: Q -> cHash c ∉ PR) -> (length Q < fuel)%nat ->
  exists C, independents_loop encodedObject walk fuel (P ++ f :: Q) S (len P) = Ok C /\ outcome C.
Proof.
  induction fuel as [|fuel IH]; intros P f Q S PR HI HP HQ Hf; [lia|]. cbn [independents_loop].
  destruct (index_ok (P ++ f :: Q) (len P)) as (f' & -> & Ef). { pose proof (len_nonneg P). pose proof (len_nonneg Q). rewrite len_app, len_cons. lia. }
  unfold len in Ef at 1. rewrite Nat2Z.id, list_lookup_middle in Ef by done. injection Ef as <-. cbn [res_bind].
  destruct (ou_sub _ _ _ HI) as [q Hq]. assert (NoDup (hashes (P ++ f :: Q))) as Hnd by (rewrite Hq; by apply hashes_filter_NoDup).
  assert (f ∈ D) as HfD. { assert (f ∈ P ++ f :: Q) as Hin by (apply elem_of_app; right; by left). rewrite Hq in Hin. by apply in_filter in Hin as [? _]. }
  assert (known f) as Hk by (by apply (proj1 (Forall_forall _ _) HDk)).
  assert (cHash f ∉ hashes (P ++ Q)) as HfPQ. { unfold hashes in *. rewrite map_app in *. cbn [map] in Hnd. rewrite <- Permutation_middle in Hnd. by apply NoDup_cons in Hnd as [? _]. }
  destruct (inner_ok f Hk (P ++ f :: Q) S walk (NewFilterCommitIter f) [] (mkIndep (P ++ f :: Q) (remove (P ++ f :: Q) f) S)) as (a & vis & -> & Ec & Hrv & Hcase).
  { by apply filter_init. } { split; [cbn; by rewrite left_after_nil|]. split; [cbn; by rewrite left_after_nil|]. intros h. cbn. rewrite elem_of_nil. tauto. } { cbn. lia. }
  cbn [res_bind]. rewrite Ec. destruct (split_candidates f P Q vis HfPQ) as (P' & Q' & Es & HP' & HQ' & Hlen). rewrite Es.
  assert (cHash f ∉ hashes P') as HfP'. { intros Hin. apply hashes_in in Hin as (c & Hc & E). apply HfPQ. apply hashes_in. exists c. split; [|done]. apply elem_of_app. left. by apply HP'. }
  rewrite indexOf_at by done.
  assert (forall x, x ∈ hashes D -> x ∉ hashes (P' ++ f :: Q') -> exists y, y ∈ hashes D /\ y <> x /\ R y x) as Hrem'.
  { intros x Hx Hn. destruct (decide (x ∈ hashes (P ++ f :: Q))) as [Hc|Hc]; [|by apply (ou_removed _ _ _ HI)]. exists (cHash f). split; [apply hashes_in; by exists f|].
    apply hashes_in in Hc as (c & Hc & <-). destruct (decide (cHash c ∉ vis \/ cHash c = cHash f)) as [Hd|Hd].
    { exfalso. apply Hn. apply hashes_in. exists c. split; [|done]. rewrite <- Es. apply in_filter. split; [done|by apply bool_decide_eq_true]. }
    split; [intros E; apply Hd; by right|]. apply Hrv. destruct (decide (cHash c ∈ vis)); [done|]. destruct Hd. by left. }
  assert (exists p, P' ++ f :: Q' = List.filter p D) as Hsub'.
  { exists (fun c => q c && bool_decide (cHash c ∉ vis \/ cHash c = cHash f)). rewrite <- Es. unfold left_after. rewrite Hq at 1. by rewrite filter_filter. }
  pose proof (len_nonneg P'). pose proof (len_nonneg Q').
  destruct Hcase as [[Hcov Hst]|Hone].
  - pose proof (outer_step P f Q S PR vis a HI Hk Hcov Hst) as HI'. rewrite Es in HI'.
    destruct (Z.geb_spec (len P' + 1) (len (P' ++ f :: Q'))) as [Hge|Hlt].
    + eexists. split; [reflexivity|]. split; [done|]. split; [done|]. assert (Q' = []) as -> by (destruct Q' as [|g Q']; [done|]; rewrite len_app, !len_cons in Hge; pose proof (len_nonneg Q'); lia).
      intros y r Hy Hr Hyr. apply (ou_apart _ _ _ HI'); [|done|done]. apply hashes_in in Hy as (c & Hc & <-). apply elem_of_app in Hc as [Hc|Hc%list_elem_of_singleton]; [|subst c; set_solver].
      apply elem_of_union. right. by apply HP, HP'.
    + destruct Q' as [|g Q']; [rewrite len_app in Hlt; change (len [f]) with 1 in Hlt; lia|].
      assert (P' ++ f :: g :: Q' = (P' ++ [f]) ++ g :: Q') as Eapp by (by rewrite <- app_assoc). rewrite Eapp in *.
      replace (len P' + 1) with (len (P' ++ [f])) by (by rewrite len_app). apply (IH (P' ++ [f]) g Q' (iSeen a) ({[cHash f]} ∪ PR) HI'); [| |cbn in Hlen; lia].
      * intros c Hc. apply elem_of_app in Hc as [Hc|Hc%list_elem_of_singleton]; [apply elem_of_union; right; by apply HP, HP'|subst c; set_solver].
      * intros c Hc Hin. apply elem_of_union in Hin as [E%elem_of_singleton|Hin].
        -- apply HfPQ. rewrite <- E. apply hashes_in. exists c. split; [|done]. apply elem_of_app. right. by apply HQ'.
        -- eapply (HQ c); [right; by apply HQ'|done].
  - rewrite Ec, Es in Hone. rewrite len_app, len_cons in Hone. rewrite (proj2 (Z.geb_le _ _)) by (rewrite len_app, len_cons; lia).
    eexists. split; [reflexivity|]. split; [done|]. split; [done|].
    assert (P' = []) as -> by (destruct P' as [|x P']; [done|]; rewrite len_cons in Hone; pose proof (len_nonneg P'); lia).
    assert (Q' = []) as -> by (destruct Q' as [|x Q']; [done|]; rewrite len_cons in Hone; pose proof (len_nonneg Q'); lia).
    intros y r Hy Hr _. cbn in Hy, Hr. apply list_elem_of_singleton in Hy, Hr. congruence.
Qed.
End Outer.
End Independents.

Lemma removeDuplicated_ok l : forall seen,
  NoDup (hashes (removeDuplicated_loop seen l)) /\ (forall c, c ∈ removeDuplicated_loop seen l -> c ∈ l) /\
  (forall h, h ∈ hashes (removeDuplicated_loop seen l) <-> h ∈ hashes l /\ h ∉ seen).
Proof.
  induction l as [|c l IH]; intros seen; cbn [removeDuplicated_loop].
  { split; [constructor|]. split; [done|]. intros h. cbn. rewrite elem_of_nil. tauto. }
  case_bool_decide as E.
  - destruct (IH seen) as (H1 & H2 & H3). split; [done|]. split; [intros d Hd; right; by apply H2|]. intros h. rewrite H3. cbn [hashes map]. rewrite elem_of_cons.
    split; [tauto|]. intros [[->|?] ?]; tauto.
  - destruct (IH ({[cHash c]} ∪ seen)) as (H1 & H2 & H3). cbn [hashes map]. split.
    + apply NoDup_cons. split; [|done]. intros Hin. apply H3 in Hin as [_ Hin]. set_solver.
    + split; [intros d Hd; apply elem_of_cons in Hd as [->|Hd]; [by left|right; by apply H2]|]. intros h. rewrite !elem_of_cons. fold (hashes (removeDuplicated_loop ({[cHash c]} ∪ seen) l)). fold (hashes l). rewrite H3.
      rewrite not_elem_of_union, not_elem_of_singleton. destruct (decide (h = cHash c)) as [->|]; tauto.
Qed.

Section MergeBase.
Context (encodedObject : ObjectType -> ObjectID -> res EncodedObj).
Abbreviation stored := (stored encodedObject).
Abbreviation R := (rtc (parent_of encodedObject)).
Context (U : gset ObjectID) (HU : complete_history encodedObject U).
Abbreviation known := (known encodedObject U).
Hypothesis acyclic : forall a b, R a b -> R b a -> a = b.
(** All that is used of sorting: it gives the same commits. *)
Context (sortSlice : (Commit -> Commit -> bool) -> list Commit -> list Commit).
Hypothesis sort_perm : forall less l, sortSlice less l ≡ₚ l.

Lemma Independents_ok walk commits : (size U < walk)%nat -> Forall known commits ->
  exists C, Independents encodedObject sortSlice walk commits = Ok C /\ NoDup (hashes C) /\ (forall c, c ∈ C -> c ∈ commits) /\
    forall r, r ∈ hashes C <-> r ∈ hashes commits /\ forall x, x ∈ hashes commits -> R x r -> x = r.
Proof.
  intros Hw Hk. unfold Independents. set (sorted := sortByCommitDateDesc sortSlice commits).
  assert (sorted ≡ₚ commits) as Hp by apply sort_perm.
  destruct (removeDuplicated_ok sorted ∅) as (H1 & H2 & H3). fold (removeDuplicated sorted) in *. set (D := removeDuplicated sorted) in *.
  assert (forall h, h ∈ hashes D <-> h ∈ hashes commits) as HD.
  { intros h. rewrite H3. unfold hashes. rewrite Hp. set_solver. }
  assert (forall c, c ∈ D -> c ∈ commits) as HDc by (intros c Hc; rewrite <- Hp; by apply H2).
  assert (Forall known D) as HDk by (apply Forall_forall; intros c Hc; by apply (proj1 (Forall_forall _ _) Hk), HDc).
  destruct D as [|f Q] eqn:ED.
  { exists []. split; [done|]. split; [constructor|]. split; [by intros c Hc%not_elem_of_nil|]. intros r. rewrite <- (HD r). cbn. rewrite !elem_of_nil. tauto. }
  destruct Q as [|g Q].
  { exists [f]. split; [done|]. split; [done|]. split; [done|]. intros r. rewrite <- (HD r). split; [|tauto]. intros Hr. split; [done|].
    intros x Hx _. apply HD in Hx. cbn in Hx, Hr. apply list_elem_of_singleton in Hx, Hr. congruence. }
  rewrite (proj2 (Z.ltb_ge _ _)) by (rewrite !len_cons; pose proof (len_nonneg Q); lia).
  destruct (independents_ok encodedObject U HU acyclic (f :: g :: Q) H1 HDk walk Hw (S (length (f :: g :: Q))) [] f (g :: Q) ∅ ∅) as (C & E & (q & Hq) & Hrem & Hap).
  - split; [exists (fun _ => true); symmetry; by apply filter_all|done| |]; [intros h; set_solver|intros p r Hp'; set_solver].
  - intros c Hc. by apply not_elem_of_nil in Hc.
  - intros c _. set_solver.
  - cbn. lia.
  - exists C. change (len []) with 0 in E. cbn [app] in E. rewrite E. split; [done|]. split; [rewrite Hq; by apply hashes_filter_NoDup|].
    split; [intros c Hc; rewrite Hq in Hc; apply in_filter in Hc as [Hc _]; by apply HDc|].
    intros r. assert (r ∈ hashes C -> r ∈ hashes (f :: g :: Q)) as Hsub.
    { intros Hr. apply hashes_in in Hr as (c & Hc & <-). rewrite Hq in Hc. apply in_filter in Hc as [Hc _]. apply hashes_in. by exists c. }
    rewrite <- (HD r). split.
    + intros Hr. split; [by apply Hsub|]. intros x Hx. apply HD in Hx. apply (outer_done _ acyclic _ C Hrem Hap r (Hsub Hr)); done.
    + intros [Hr Hmax]. apply (outer_done _ acyclic _ C Hrem Hap r Hr). intros x Hx. apply Hmax. by apply HD.
Qed.

(** The common ancestors that no other common ancestor reaches. *)
Definition common (c d : Commit) (h : ObjectID) : Prop := R (cHash c) h /\ R (cHash d) h.
Definition best_common (c d : Commit) (h : ObjectID) : Prop := common c d h /\ forall x, common c d x -> R x h -> x = h.

Lemma common_sym c d h : best_common c d h <-> best_common d c h.
Proof. unfold best_common, common. split; intros [H1 H2]; (split; [tauto|]); intros x Hx; apply H2; tauto. Qed.


Lemma stored_known l : Forall stored l -> (forall h, h ∈ hashes l -> h ∈ U) -> Forall known l.
Proof.
  intros Hs Hin. apply Forall_forall. intros c Hc. split; [by apply (proj1 (Forall_forall _ _) Hs)|]. apply Hin. apply hashes_in. by exists c.
Qed.

Lemma foldl_snoc_list (l acc : list Commit) : foldl (fun res c => res ++ [c]) acc l = acc ++ l.
Proof. revert acc. induction l as [|c l IH]; intros acc; cbn; [by rewrite app_nil_r|]. rewrite IH, <- app_assoc. done. Qed.

(** After the commits are sorted. *)
Lemma MergeBase_sorted walk newer older : (size U < walk)%nat -> known newer -> known older -> wf_id (cHash newer) -> wf_id (cHash older) ->
  exists C, (match ancestorsIndex encodedObject walk older newer with
             | Err e => if bool_decide (e = errIsReachable) then Ok [older] else Err e
             | Ok newerHistory =>
               let inNewer := isInIndexCommitFilter newerHistory in
               let* (res, _) := forEachCommit (fun _ => filter_loop encodedObject inNewer inNewer walk) (fun res c => (res ++ [c], None)) walk []
                                  (NewFilterCommitIter older) in
               Independents encodedObject sortSlice walk res
             | Panic => Panic
             | NoFuel => NoFuel
             end) = Ok C /\ NoDup (hashes C) /\ Forall stored C /\ forall h, h ∈ hashes C <-> best_common newer older h.
Proof.
  intros Hw Hn Ho Hwn Hwo.
  destruct (ancestorsIndex_ok encodedObject U HU walk older newer Hn Hwo Hwn Hw) as [[-> Hr]|(hs & -> & Hr & Hhs)].
  - rewrite bool_decide_eq_true_2 by done. exists [older]. split; [done|]. split; [apply NoDup_singleton|]. split; [constructor; [apply Ho|constructor]|].
    intros h. cbn. rewrite list_elem_of_singleton. split.
    + intros ->. split; [split; [done|apply rtc_refl]|]. intros x [_ Hx] Hx'. by apply acyclic.
    + intros [[_ Hh] Hmax]. symmetry. apply Hmax; [split; [done|apply rtc_refl]|done].
  - destruct (filtered_visits encodedObject U HU older Ho hs hs (fun res c => res ++ [c]) walk [] Hw) as (l & E & Hs & Hnd & Hl).
    unfold isInIndexCommitFilter. cbn zeta. rewrite E. cbn [res_bind]. rewrite foldl_snoc_list. cbn [app].
    assert (forall h, h ∈ hashes l -> common newer older h) as Hcom.
    { intros h Hh. apply Hl in Hh as [Hh Hin]. split; [by apply Hhs|]. eapply reachesBy_R; [apply follow_limit_sub|exact Hh]. }
    assert (Forall known l) as Hlk. { apply stored_known; [done|]. intros h Hh. apply (known_reach _ _ HU older); [done|]. by apply Hcom. }
    destruct (Independents_ok walk l Hw Hlk) as (C & -> & HC1 & HC2 & HC3). exists C. split; [done|]. split; [done|].
    split. { apply Forall_forall. intros c Hc. apply (proj1 (Forall_forall _ _) Hs). by apply HC2. }
    assert (forall h, common newer older h -> exists y, y ∈ hashes l /\ R y h) as Habove.
    { intros h [Hh1 Hh2]. destruct (walk_blocked _ _ HU hs (cHash older) (fun h => known_reach _ _ HU older h Ho) h Hh2) as [Hb|(s & Hs' & Hb & Hr')].
      - exists h. split; [|apply rtc_refl]. apply Hl. split; [done|by apply Hhs].
      - exists s. split; [|done]. by apply Hl. }
    intros h. rewrite HC3. split.
    + intros [Hh Hmax]. split; [by apply Hcom|]. intros x Hx Hxh. destruct (Habove x Hx) as (y & Hy & Hyx).
      assert (y = h) as -> by (apply Hmax; [done|by etrans]). by apply acyclic.
    + intros [Hh Hmax]. destruct (Habove h Hh) as (y & Hy & Hyh). assert (y = h) as -> by (apply Hmax; [by apply Hcom|done]).
      split; [done|]. intros x Hx. apply Hmax. by apply Hcom.
Qed.

Lemma MergeBase_ok walk c other : (size U < walk)%nat -> known c -> known other -> wf_id (cHash c) -> wf_id (cHash other) ->
  exists C, MergeBase encodedObject sortSlice walk c other = Ok C /\ NoDup (hashes C) /\ Forall stored C /\ forall h, h ∈ hashes C <-> best_common c other h.
Proof.
  intros Hw Hc Ho Hwc Hwo. unfold MergeBase. assert (sortByCommitDateDesc sortSlice [c; other] ≡ₚ [c; other]) as Hp by apply sort_perm.
  assert (sortByCommitDateDesc sortSlice [c; other] = [c; other] \/ sortByCommitDateDesc sortSlice [c; other] = [other; c]) as [-> | ->].
  { symmetry in Hp. apply Permutation_length_2_inv in Hp. tauto. }
  - by apply MergeBase_sorted.
  - destruct (MergeBase_sorted walk other c Hw Ho Hc Hwo Hwc) as (C & E & H1 & H2 & H3). exists C. split; [exact E|]. split; [done|]. split; [done|].
    intros h. rewrite H3. apply common_sym.
Qed.
End MergeBase.

(** ** Limits *)
Section Limits.
Context {St : Type} (next : St -> res Commit * St) (opts : LogLimitOptions).

(** The commits up to the tail, with it. *)
Fixpoint upto_tail (l : list Commit) : list Commit :=
  match l with
  | [] => []
  | c :: l => c :: (if bool_decide (TailHash opts = cHash c) then [] else upto_tail l)
  end.

Lemma limit_Next_collect n : forall fuel s l, collect next n s = Ok l -> (n <= fuel)%nat ->
  match List.filter (fun c => negb (outside opts c)) l with
  | [] => exists s', limit_Next next opts fuel s = (Err EOF, s')
  | c :: rest => exists s' l' n', limit_Next next opts fuel s = (Ok (c, bool_decide (TailHash opts = cHash c)), s') /\
                   collect next n' s' = Ok l' /\ (n' < n)%nat /\ List.filter (fun c => negb (outside opts c)) l' = rest
  end.
Proof.
  induction n as [|n IH]; intros [|fuel] s l; cbn [collect]; try done; [lia|]. intros E Hf. cbn [limit_Next].
  destruct (next s) as [[c|e| |] s']; try done.
  - destruct (collect next n s') as [l'| | |] eqn:El; cbn in E; try discriminate E. injection E as <-. cbn [List.filter].
    destruct (outside opts c) eqn:Eo; cbn [negb].
    + specialize (IH fuel s' l' El ltac:(lia)). destruct (List.filter _ l') as [|c' rest]; [exact IH|].
      destruct IH as (s2 & l2 & n2 & H1 & H2 & H3 & H4). exists s2, l2, n2. split; [done|]. split; [done|]. split; [lia|done].
    + exists s', l', n. split; [done|]. split; [done|]. split; [lia|done].
  - case_bool_decide; [|done]. injection E as <-. subst e. cbn. by exists s'.
Qed.

Lemma limit_ForEach_ok {A} (f : A -> Commit -> A) n : forall fuel s l a, collect next n s = Ok l -> (n <= fuel)%nat ->
  limit_ForEach next opts fuel (fun a c => (f a c, None)) a s = Ok (foldl f a (upto_tail (List.filter (fun c => negb (outside opts c)) l)), None).
Proof.
  induction n as [n IH] using lt_wf_ind. intros [|fuel] s l a E Hf; [destruct n; [discriminate E|lia]|].
  pose proof (limit_Next_collect n (S fuel) s l E Hf) as Hn. cbn [limit_ForEach].
  destruct (List.filter _ l) as [|c rest] eqn:Efil.
  - destruct Hn as (s' & ->). rewrite bool_decide_eq_true_2 by done. done.
  - destruct Hn as (s' & l' & n' & -> & El & Hlt & Er). cbn [upto_tail foldl]. destruct (bool_decide (TailHash opts = cHash c)); [done|].
    rewrite <- Er. apply (IH n' Hlt fuel s' l' (f a c) El). lia.
Qed.
End Limits.

(** ** A sample history: 1 is the root, 2 and 3 come after it, 4 and 5 merge them both ways *)
Definition sample_time (n : Z) : Signature := mkSignature (bs "A") (bs "a@b") (mkTime (1000 + n) 0 0).
Definition sample_history_commit (n : Z) (parents : list Z) : Commit :=
  mkCommit (id_of n) (sample_time n) (sample_time n) [] [] (bs "m") ZeroHash (map id_of parents) defaultUtf8CommitMessageEncoding [].

Definition sample_graph : list (Z * list Z) := [(1, []); (2, [1]); (3, [1]); (4, [2; 3]); (5, [3; 2]); (6, [])].

Definition graph_store (g : list (Z * list Z)) (t : ObjectType) (h : ObjectID) : res EncodedObj :=
  match List.find (fun e => bool_decide (id_of (fst e) = h)) g with
  | Some (n, ps) => Ok (mkEncoded CommitObject h (encodeCommit (sample_history_commit n ps) true))
  | None => Err ErrObjectNotFound
  end.

Definition c1 : Commit := sample_history_commit 1 [].
Definition c4 : Commit := sample_history_commit 4 [2; 3].
Definition c5 : Commit := sample_history_commit 5 [3; 2].

Definition sample_U : gset ObjectID := list_to_set (map (fun e => id_of (fst e)) sample_graph).

Lemma graph_get : Forall (fun e => GetCommit (graph_store sample_graph) (id_of (fst e)) = Ok (sample_history_commit (fst e) (snd e))) sample_graph.
Proof. repeat constructor; vm_compute; reflexivity. Qed.

Lemma sample_get h c : GetCommit (graph_store sample_graph) h = Ok c -> exists n ps, (n, ps) ∈ sample_graph /\ h = id_of n /\ c = sample_history_commit n ps.
Proof.
  intros E. destruct (List.find (fun e => bool_decide (id_of (fst e) = h)) sample_graph) as [[n ps]|] eqn:F.
  - apply find_some in F as [Hin Eh]. apply bool_decide_eq_true in Eh. cbn in Eh. exists n, ps. apply list_elem_of_In in Hin. split; [done|]. split; [done|].
    pose proof (proj1 (Forall_forall _ _) graph_get _ Hin) as Eg. cbn in Eg. rewrite Eh in Eg. congruence.
  - unfold GetCommit, graph_store in E. rewrite F in E. discriminate E.
Qed.

Lemma sample_complete_history : complete_history (graph_store sample_graph) sample_U.
Proof.
  intros h Hh. apply elem_of_list_to_set, list_elem_of_fmap in Hh as ([n ps] & -> & Hin).
  pose proof (proj1 (Forall_forall _ _) graph_get _ Hin) as Eg. exists (sample_history_commit n ps). split; [exact Eg|]. split; [done|].
  intros p Hp. cbn in Hp. apply list_elem_of_fmap in Hp as (m & -> & Hm). apply elem_of_list_to_set.
  assert (Forall (fun e => Forall (fun m => id_of m ∈ map (fun e => id_of (fst e)) sample_graph) (snd e)) sample_graph) as Hall
    by (apply (bool_decide_unpack _); vm_compute; exact I).
  apply (proj1 (Forall_forall _ _) (proj1 (Forall_forall _ _) Hall _ Hin)). exact Hm.
Qed.

(** Numbers go down along parents. *)
Definition rank (h : ObjectID) : Z := match hash h with b :: _ => b2z b | [] => 0 end.

Lemma rank_acyclic encodedObject : (forall h p, parent_of encodedObject h p -> rank p < rank h) ->
  forall a b, rtc (parent_of encodedObject) a b -> rtc (parent_of encodedObject) b a -> a = b.
Proof.
  intros Hr. assert (forall a b, rtc (parent_of encodedObject) a b -> a = b \/ rank b < rank a) as H.
  { intros a b. induction 1 as [|a b c Hab _ [->|IH]]; [by left|right; by apply Hr|right]. specialize (Hr _ _ Hab). lia. }
  intros a b H1 H2. destruct (H a b H1) as [|]; [done|]. destruct (H b a H2) as [|]; [done|]. lia.
Qed.

Lemma sample_acyclic : forall a b, rtc (parent_of (graph_store sample_graph)) a b -> rtc (parent_of (graph_store sample_graph)) b a -> a = b.
Proof.
  apply rank_acyclic. intros h p (c & Ec & Hp). apply sample_get in Ec as (n & ps & Hin & -> & ->). cbn in Hp. apply list_elem_of_fmap in Hp as (m & -> & Hm).
  assert (Forall (fun e => Forall (fun m => rank (id_of m) < rank (id_of (fst e))) (snd e)) sample_graph) as Hall by (apply (bool_decide_unpack _); vm_compute; exact I).
  exact (proj1 (Forall_forall _ _) (proj1 (Forall_forall _ _) Hall _ Hin) _ Hm).
Qed.

Lemma sample_known n ps : (n, ps) ∈ sample_graph -> known (graph_store sample_graph) sample_U (sample_history_commit n ps).
Proof.
  intros Hin. split; [exact (proj1 (Forall_forall _ _) graph_get _ Hin)|]. apply elem_of_list_to_set, list_elem_of_fmap. by exists (n, ps).
Qed.

Lemma sample_dated : dated (graph_store sample_graph) sample_U.
Proof.
  intros h p c d _ Ec Hp Ed. apply sample_get in Ec as (n & ps & Hin & -> & ->). apply sample_get in Ed as (m & qs & Hin' & -> & ->).
  cbn in Hp. apply list_elem_of_fmap in Hp as (k & Ek & Hk).
  assert (Forall (fun e => Forall (fun k => rank (id_of k) = k /\ k < fst e) (snd e)) sample_graph) as Hall by (apply (bool_decide_unpack _); vm_compute; exact I).
  destruct (proj1 (Forall_forall _ _) (proj1 (Forall_forall _ _) Hall _ Hin) _ Hk) as [Hr Hlt]. cbn in Hlt.
  assert (Forall (fun e => rank (id_of (fst e)) = fst e) sample_graph) as Hall2 by (apply (bool_decide_unpack _); vm_compute; exact I).
  unfold no_later, time_After, time_Before. cbn.
  assert (m = k) as ->; [|lia]. rewrite <- Hr, <- Ek. symmetry. exact (proj1 (Forall_forall _ _) Hall2 _ Hin').
Qed.

(** A list as a heap: a pop takes out the newest. *)
Fixpoint extractMax (best : Commit) (l : list Commit) : Commit * list Commit :=
  match l with
  | [] => (best, [])
  | d :: l => if ctime_compare best d >? 0 then let (m, r) := extractMax d l in (m, best :: r)
              else let (m, r) := extractMax best l in (m, d :: r)
  end.
Definition list_Push (l : list Commit) (c : Commit) : list Commit := c :: l.
Definition list_Pop (l : list Commit) : option (Commit * list Commit) :=
  match l with [] => None | c :: l => Some (extractMax c l) end.

Lemma extractMax_ok l : forall best, let (m, r) := extractMax best l in
  best :: l ≡ₚ m :: r /\ no_later best m /\ Forall (fun d => no_later d m) r.
Proof.
  unfold no_later. induction l as [|d l IH]; intros best; cbn [extractMax].
  { split; [done|]. split; [unfold time_After, time_Before; lia|constructor]. }
  assert ((ctime_compare best d >? 0) = time_Before (sWhen (cCommitter best)) (sWhen (cCommitter d))) as -> by (unfold ctime_compare; by destruct (time_Before _ _)).
  destruct (time_Before (sWhen (cCommitter best)) (sWhen (cCommitter d))) eqn:Eb.
  - specialize (IH d). destruct (extractMax d l) as [m r]. destruct IH as (H1 & H2 & H3). split; [rewrite H1; apply Permutation_swap|].
    assert (time_After (sWhen (cCommitter best)) (sWhen (cCommitter m)) = false) as Hb by (unfold time_After, time_Before in *; lia).
    split; [done|]. by constructor.
  - specialize (IH best). destruct (extractMax best l) as [m r]. destruct IH as (H1 & H2 & H3). split; [rewrite Permutation_swap, H1; apply Permutation_swap|].
    split; [done|]. constructor; [|done]. unfold time_After, time_Before in *. lia.
Qed.

Lemma list_heap_laws : heap_laws ([] : list Commit) list_Push list_Pop (fun l => l).
Proof.
  split; [done|done|]. intros [|c l]; [done|]. cbn [list_Pop]. pose proof (extractMax_ok l c) as H. destruct (extractMax c l) as [m r].
  destruct H as (H1 & _ & H3). done.
Qed.

(** ** The theorems *)

(** C13: on a history that is all there, the pre-order, breadth-first and post-order iterators each end, and
    give every commit that is reached from the start through parents without passing through
    an ignored one (or, for the first two, one of the set shared with the caller), each
    once and nothing else; the first-parent iterator gives the chain of first parents. *)
Theorem history_walks encodedObject U start ignore ext fuel :
  complete_history encodedObject U -> known encodedObject U start -> (size U < fuel)%nat ->
  let visits {St} (next : St -> res Commit * St) (s : St) follow ign :=
    exists l, collect next fuel s = Ok l /\ NoDup (map cHash l) /\ Forall (stored encodedObject) l /\
      forall h, h ∈ map cHash l <-> reachesBy encodedObject follow ign (cHash start) h in
  visits (pre_Next encodedObject ext) (NewCommitPreorderIter start ignore) cParentHashes (list_to_set ignore ∪ ext) /\
  visits (bfs_Next encodedObject ext) (NewCommitIterBSF start ignore) cParentHashes (list_to_set ignore ∪ ext) /\
  visits (post_Next encodedObject) (NewCommitPostorderIter start ignore) cParentHashes (list_to_set ignore) /\
  visits (postFirst_Next encodedObject) (NewCommitPostorderIter start ignore) (fun c => take 1 (cParentHashes c)) (list_to_set ignore).
Proof.
  intros HU Hs Hf visits. split; [|split; [|split]].
  - by apply (pre_visits encodedObject U HU (list_to_set ignore) ext start Hs fuel ignore).
  - by apply (bfs_visits encodedObject U HU (list_to_set ignore) ext start Hs fuel ignore).
  - apply (post_visits encodedObject U HU (list_to_set ignore) start Hs (fun _ _ => true) (fun _ _ => true) cParentHashes); [done|tauto|done|done].
  - apply (post_visits encodedObject U HU (list_to_set ignore) start Hs isFirstParent
      (fun c p => match cParentHashes c with h :: _ => bool_decide (p = h) | [] => false end)); [done| |done|done].
    intros c p. destruct (cParentHashes c) as [|h hs]; cbn; [rewrite !elem_of_nil; tauto|]. rewrite take_0, list_elem_of_singleton, elem_of_cons, bool_decide_eq_true. tauto.
Qed.

Lemma history_walks_witness :
  known (graph_store sample_graph) sample_U c4 /\
  exists l, collect (pre_Next (graph_store sample_graph) ∅) 10 (NewCommitPreorderIter c4 [id_of 2]) = Ok l /\ NoDup (map cHash l) /\
    Forall (stored (graph_store sample_graph)) l /\
    forall h, h ∈ map cHash l <-> reachesBy (graph_store sample_graph) cParentHashes (list_to_set [id_of 2] ∪ ∅) (id_of 4) h.
Proof.
  assert (known (graph_store sample_graph) sample_U c4) as Hk by (apply sample_known; apply (bool_decide_unpack _); vm_compute; exact I).
  split; [exact Hk|].
  exact (proj1 (history_walks (graph_store sample_graph) sample_U c4 [id_of 2] ∅ 10 sample_complete_history Hk ltac:(vm_compute; lia))).
Defined.

(** The iterator by commit time gives the same commits as the others; and when no parent was committed
    after its child, the commits come newest first.  The heap is only assumed to pop an
    element that no other is after. *)
Theorem ctime_walk {Heap} encodedObject U start ignore ext fuel (heap_new : Heap) heap_Push heap_Pop elements :
  complete_history encodedObject U -> known encodedObject U start -> (size U < fuel)%nat ->
  heap_laws heap_new heap_Push heap_Pop elements ->
  exists l, collect (fun w => ctime_Next encodedObject heap_Push heap_Pop (S (length (elements (tHeap w)))) ext w) fuel
              (NewCommitIterCTime heap_new heap_Push start ignore) = Ok l /\
    NoDup (map cHash l) /\ (forall h, h ∈ map cHash l <-> reaches encodedObject (list_to_set ignore ∪ ext) (cHash start) h) /\
    (dated encodedObject U -> StronglySorted (fun c d => no_later d c) l).
Proof.
  intros HU Hs Hf Hh. destruct (ctime_visits encodedObject U HU heap_new heap_Push heap_Pop elements (list_to_set ignore) ext start Hs Hh fuel ignore eq_refl Hf) as (l & E & H1 & _ & H3).
  exists l. split; [done|]. split; [done|]. split; [done|]. intros Hd.
  apply (ctime_sorted encodedObject U HU heap_new heap_Push heap_Pop elements (list_to_set ignore) ext start Hh Hd fuel _ [] l start
    (ctime_init encodedObject U heap_new heap_Push heap_Pop elements (list_to_set ignore) ext start Hs Hh ignore eq_refl)); [|exact E].
  cbn [tHeap NewCommitIterCTime]. rewrite (hp_push _ _ _ _ Hh), (hp_new _ _ _ _ Hh). constructor; [|constructor]. unfold no_later, time_After, time_Before. lia.
Qed.

Lemma ctime_walk_witness :
  exists l, collect (fun w => ctime_Next (graph_store sample_graph) list_Push list_Pop (S (length (tHeap w))) ∅ w) 10 (NewCommitIterCTime [] list_Push c4 []) = Ok l /\
    StronglySorted (fun c d => no_later d c) l.
Proof.
  destruct (ctime_walk (graph_store sample_graph) sample_U c4 [] ∅ 10 [] list_Push list_Pop (fun l => l) sample_complete_history) as (l & E & _ & _ & Hs);
    [apply sample_known; apply (bool_decide_unpack _); vm_compute; exact I|vm_compute; lia|exact list_heap_laws|].
  exists l. split; [exact E|exact (Hs sample_dated)].
Defined.

(** On a history that is all there, [IsAncestor] ends without an error and says whether the
    commit is the other one or is reached from it through parents. *)
Theorem is_ancestor_spec encodedObject U c other fuel :
  complete_history encodedObject U -> known encodedObject U other -> (size U < fuel)%nat ->
  exists b, IsAncestor encodedObject fuel c other = Ok (b, None) /\ (b = true <-> ancestor encodedObject (cHash c) (cHash other)).
Proof. intros HU Ho Hf. by apply IsAncestor_ok with (U := U). Qed.

Lemma is_ancestor_spec_witness :
  exists b, IsAncestor (graph_store sample_graph) 10 c1 c4 = Ok (b, None) /\ (b = true <-> ancestor (graph_store sample_graph) (cHash c1) (cHash c4)).
Proof.
  apply (is_ancestor_spec (graph_store sample_graph) sample_U c1 c4 10 sample_complete_history); [|vm_compute; lia].
  apply sample_known; apply (bool_decide_unpack _); vm_compute; exact I.
Defined.

(** C12: on a history that is all there and has no cycle, whatever the dates of the commits and whatever
    the sort does with equal ones, [MergeBase] ends without an error and gives exactly the common
    ancestors of the two commits that are not ancestors of another common ancestor, each
    once. *)
Theorem merge_base_spec encodedObject U sortSlice c other walk :
  complete_history encodedObject U ->
  (forall a b, ancestor encodedObject b a -> ancestor encodedObject a b -> a = b) ->
  (forall less l, sortSlice less l ≡ₚ l) ->
  known encodedObject U c -> known encodedObject U other -> wf_id (cHash c) -> wf_id (cHash other) -> (size U < walk)%nat ->
  exists C, MergeBase encodedObject sortSlice walk c other = Ok C /\ NoDup (map cHash C) /\ Forall (stored encodedObject) C /\
    forall h, h ∈ map cHash C <-> best_common encodedObject c other h.
Proof. intros HU Hac Hp Hc Ho Hwc Hwo Hw. by apply MergeBase_ok with (U := U). Qed.

Lemma merge_base_spec_witness :
  exists C, MergeBase (graph_store sample_graph) insertionSort 10 c4 c5 = Ok C /\ NoDup (map cHash C) /\ Forall (stored (graph_store sample_graph)) C /\
    forall h, h ∈ map cHash C <-> best_common (graph_store sample_graph) c4 c5 h.
Proof.
  apply (merge_base_spec (graph_store sample_graph) sample_U insertionSort c4 c5 10 sample_complete_history sample_acyclic insertionSort_perm);
    [apply sample_known; apply (bool_decide_unpack _); vm_compute; exact I..|split; [reflexivity|right; split; reflexivity]|split; [reflexivity|right; split; reflexivity]|vm_compute; lia].
Defined.

(** On commits that are all there, [Independents] gives those of them that are not ancestors of another
    one of them, each once. *)
Theorem independents_spec encodedObject U sortSlice commits walk :
  complete_history encodedObject U ->
  (forall a b, ancestor encodedObject b a -> ancestor encodedObject a b -> a = b) ->
  (forall less l, sortSlice less l ≡ₚ l) -> Forall (known encodedObject U) commits -> (size U < walk)%nat ->
  exists C, Independents encodedObject sortSlice walk commits = Ok C /\ NoDup (map cHash C) /\ (forall c, c ∈ C -> c ∈ commits) /\
    forall r, r ∈ map cHash C <-> r ∈ map cHash commits /\ forall x, x ∈ map cHash commits -> ancestor encodedObject r x -> x = r.
Proof. intros HU Hac Hp Hk Hw. by apply Independents_ok with (U := U). Qed.

Lemma independents_spec_witness :
  exists C, Independents (graph_store sample_graph) insertionSort 10 [c1; c4; c5; c4] = Ok C /\ NoDup (map cHash C) /\ (forall c, c ∈ C -> c ∈ [c1; c4; c5; c4]) /\
    forall r, r ∈ map cHash C <-> r ∈ map cHash [c1; c4; c5; c4] /\ forall x, x ∈ map cHash [c1; c4; c5; c4] -> ancestor (graph_store sample_graph) r x -> x = r.
Proof.
  apply (independents_spec (graph_store sample_graph) sample_U insertionSort [c1; c4; c5; c4] 10 sample_complete_history sample_acyclic insertionSort_perm); [|vm_compute; lia].
  repeat constructor; apply sample_known; apply (bool_decide_unpack _); vm_compute; exact I.
Defined.

(** [ForEach] of a limited iterator calls its callback on the commits of the source, in order, that were
    committed neither before [Since] nor after [Until], up to the tail commit, which is included. *)
Theorem log_limit_spec {St A} (next : St -> res Commit * St) opts (f : A -> Commit -> A) n fuel s l a :
  collect next n s = Ok l -> (n <= fuel)%nat ->
  limit_ForEach next opts fuel (fun a c => (f a c, None)) a s =
    Ok (foldl f a (upto_tail opts (List.filter (fun c => negb (outside opts c)) l)), None).
Proof. apply limit_ForEach_ok. Qed.

Lemma log_limit_spec_witness :
  limit_ForEach (pre_Next (graph_store sample_graph) ∅) (mkLimit (Some (mkTime 1002 0 0)) None (id_of 2)) 10 (fun a c => (a ++ [cHash c], None)) []
    (NewCommitPreorderIter c5 []) = Ok ([id_of 5; id_of 3; id_of 2], None).
Proof.
  rewrite (log_limit_spec (pre_Next (graph_store sample_graph) ∅) (mkLimit (Some (mkTime 1002 0 0)) None (id_of 2)) (fun a c => a ++ [cHash c]) 10 10
    (NewCommitPreorderIter c5 []) [c5; sample_history_commit 3 [1]; c1; sample_history_commit 2 [1]] []); [vm_compute; reflexivity|vm_compute; reflexivity|lia].
Defined.

(** The iterator over all references can lose commits: a reference is walked only up to the first commit that
    is already listed, so that the other parents of a merge before it are not walked.  Here
    HEAD is commit 1 and a branch merges 1 and 6: commit 6 is not given although it is
    reached from the branch. *)
Theorem all_iter_loses_commits :
  exists l, NewCommitAllIter (graph_store [(1, []); (6, []); (7, [1; 6])]) (fun c => NewCommitPreorderIter c []) (pre_Next (graph_store [(1, []); (6, []); (7, [1; 6])]) ∅) 10
              (Ok (mkReference HashReference (bs "HEAD") (id_of 1) [])) [mkReference HashReference (bs "refs/heads/b") (id_of 7) []] = Ok l /\
    map cHash l = [id_of 7; id_of 1] /\
    ancestor (graph_store [(1, []); (6, []); (7, [1; 6])]) (id_of 6) (id_of 7).
Proof.
  eexists. split; [vm_compute; reflexivity|]. split; [vm_compute; reflexivity|]. apply rtc_once. exists (sample_history_commit 7 [1; 6]).
  split; [vm_compute; reflexivity|]. cbn. right. by left.
Qed.

(** [MergeBase] hides that the history of the older commit cannot be read: with a parent of it missing it
    gives no merge base and no error, although the commits have a common ancestor. *)
Theorem merge_base_drops_errors :
  MergeBase (graph_store [(1, []); (2, [9; 1]); (3, [1])]) insertionSort 10 (sample_history_commit 2 [9; 1]) (sample_history_commit 3 [1]) = Ok [] /\
  common (graph_store [(1, []); (2, [9; 1]); (3, [1])]) (sample_history_commit 2 [9; 1]) (sample_history_commit 3 [1]) (id_of 1).
Proof.
  split; [vm_compute; reflexivity|]. split; (apply rtc_once; eexists; split; [vm_compute; reflexivity|]); [right; by left|by left].
Qed.
