(* ===== verification/Revlist.v ===== *)
(** * plumbing/revlist: the objects to send

    Model of revlist.go over the object, tree and history models: the objects reachable from some objects and not from others.
    The maps of hashes that Go ranges over are sets; [visited], which the code never
    writes, is a parameter of the functions that read it.  Go's callback and the [seen] map it shares with
    the iterators are a state: [seenOf] is the map, [cb] the callback. *)
From S2P Require Import Prelude GoStrings ObjectID Memory Filemode Objects Trees History.

Section Storer.
Context (encodedObject : ObjectType -> ObjectID -> res EncodedObj).

Section Callback.
Context {St : Type} (seenOf : St -> gset ObjectID) (cb : St -> ObjectID -> St).

Definition isSeen (st : St) (h : ObjectID) : bool := bool_decide (h ∈ seenOf st).

(** A state and the error that was returned, if any: what the callback did before an error stays. *)
Definition outcome : Type := res (St * option error).

(** Going on with the value of [r], or returning its error. *)
Definition attempt {A} (st : St) (r : res A) (k : A -> outcome) : outcome :=
  match r with Ok a => k a | Err e => Ok (st, Some e) | Panic => Panic | NoFuel => NoFuel end.

(** Going on when there was no error. *)
Definition andThen (r : outcome) (k : St -> outcome) : outcome :=
  let* (st, e) := r in match e with None => k st | Some e => Ok (st, Some e) end.

(** The loop of [iterateCommitTrees]. *)
Fixpoint iterateTrees_loop (fuel : nat) (w : TreeWalker) (st : St) : outcome :=
  match fuel with
  | O => NoFuel
  | S fuel =>
    let (r, w) := walker_Next encodedObject (seenOf st) w in
    match r with
    | Err e => Ok (st, if bool_decide (e = EOF) then None else Some e)
    | Ok (_, e) =>
      if teMode e =? Submodule then iterateTrees_loop fuel w st
      else if isSeen st (teHash e) then iterateTrees_loop fuel w st
      else iterateTrees_loop fuel w (cb st (teHash e))
    | Panic => Panic
    | NoFuel => NoFuel
    end
  end.

Definition iterateCommitTrees (fuel : nat) (tree : Tree) (st : St) : outcome :=
  if isSeen st (trHash tree) then Ok (st, None)
  else iterateTrees_loop fuel (NewTreeWalker tree true) (cb st (trHash tree)).

Definition addPendingParents (pending visited : gset ObjectID) (commit : Commit) : gset ObjectID :=
  pending ∪ list_to_set (List.filter (fun p => negb (bool_decide (p ∈ visited))) (cParentHashes commit)).

(** The loop of [reachableObjects]. *)
Fixpoint reachable_loop (walk fuel : nat) (visited pending : gset ObjectID) (i : preIter) (st : St) : outcome :=
  match fuel with
  | O => NoFuel
  | S fuel =>
    let (r, i) := pre_Next encodedObject (seenOf st) i in
    match r with
    | Err e => Ok (st, if bool_decide (e = EOF) then None else Some e)
    | Ok commit =>
      let pending := addPendingParents (pending ∖ {[cHash commit]}) visited commit in
      if bool_decide (cHash commit ∈ visited) && bool_decide (pending = ∅) then Ok (st, None)
      else if isSeen st (cHash commit) then reachable_loop walk fuel visited pending i st
      else
        let st := cb st (cHash commit) in
        attempt st (Commit_Tree encodedObject commit) (fun tree =>
          andThen (iterateCommitTrees walk tree st) (fun st => reachable_loop walk fuel visited pending i st))
    | Panic => Panic
    | NoFuel => NoFuel
    end
  end.

Definition reachableObjects (fuel : nat) (commit : Commit) (visited : gset ObjectID) (ignore : list ObjectID) (st : St) : outcome :=
  reachable_loop fuel fuel visited (addPendingParents ∅ visited commit) (NewCommitPreorderIter commit ignore) st.

(** [processObject]; [walk] is the fuel of the walks, [fuel] counts tags of tags. *)
Fixpoint processObject (walk fuel : nat) (h : ObjectID) (visited : gset ObjectID) (ignore : list ObjectID) (st : St) : outcome :=
  match fuel with
  | O => NoFuel
  | S fuel =>
    if isSeen st h then Ok (st, None)
    else
      attempt st (encodedObject AnyObject h) (fun o =>
      attempt st (DecodeObject o) (fun d =>
        match d with
        | OCommit c => reachableObjects walk c visited ignore st
        | OTree t => iterateCommitTrees walk t st
        | OTag t => processObject walk fuel (gTarget t) visited ignore (cb st (gHash t))
        | OBlob b => Ok (cb st (bHash b), None)
        end))
  end.
End Callback.

(** The callback of [objects]: what was seen, and what is new. *)
Record found := mkFound { fSeen : gset ObjectID; fResult : gset ObjectID }.
Definition walkerFunc (st : found) (h : ObjectID) : found :=
  if bool_decide (h ∈ fSeen st) then st else mkFound ({[h]} ∪ fSeen st) ({[h]} ∪ fResult st).

Definition hashListToSet (hashes : list ObjectID) : gset ObjectID := list_to_set hashes.

Fixpoint objects_loop (fuel : nat) (ignore : list ObjectID) (allowMissingObjects : bool) (hs : list ObjectID) (st : found) : res found :=
  match hs with
  | [] => Ok st
  | h :: hs =>
    let* (st, err) := processObject fSeen walkerFunc fuel fuel h ∅ ignore st in
    match err with
    | None => objects_loop fuel ignore allowMissingObjects hs st
    | Some e => if allowMissingObjects && bool_decide (e = ErrObjectNotFound) then objects_loop fuel ignore allowMissingObjects hs st else Err e
    end
  end.

Definition objects (fuel : nat) (hs ignore : list ObjectID) (allowMissingObjects : bool) : res (gset ObjectID) :=
  let* st := objects_loop fuel ignore allowMissingObjects hs (mkFound (hashListToSet ignore) ∅) in Ok (fResult st).

(** The callback of [ObjectsWithRef], which marks nothing as seen. *)
Definition refFunc (obj : ObjectID) (all : gmap ObjectID (list ObjectID)) (h : ObjectID) : gmap ObjectID (list ObjectID) :=
  <[h := default [] (all !! h) ++ [obj]]> all.

Fixpoint ObjectsWithRef_loop (fuel : nat) (ignore objs : list ObjectID) (all : gmap ObjectID (list ObjectID)) : res (gmap ObjectID (list ObjectID)) :=
  match objs with
  | [] => Ok all
  | obj :: objs =>
    let* (all, err) := processObject (fun _ => ∅) (refFunc obj) fuel fuel obj ∅ ignore all in
    match err with None => ObjectsWithRef_loop fuel ignore objs all | Some e => Err e end
  end.
Definition ObjectsWithRef (fuel : nat) (objs ignore : list ObjectID) : res (gmap ObjectID (list ObjectID)) :=
  ObjectsWithRef_loop fuel ignore objs ∅.
End Storer.

(** The order of the hashes that are ignored is not observed. *)
Definition ObjectsWithStorageForIgnores (s ignoreStore : ObjectType -> ObjectID -> res EncodedObj) (fuel : nat) (objs ignore : list ObjectID) : res (gset ObjectID) :=
  let* ignore := objects ignoreStore fuel ignore [] true in objects s fuel objs (elements ignore) false.

Definition revlist_Objects (s : ObjectType -> ObjectID -> res EncodedObj) (fuel : nat) (objs ignore : list ObjectID) : res (gset ObjectID) :=
  ObjectsWithStorageForIgnores s s fuel objs ignore.
