(* ===== verification/RevlistProofs.v ===== *)
(** * The objects to send are the reachable ones

    [Objects] against reachability over commits, trees and tags: a step of the tree walker and of the commit iterator with
    a shared map of what was seen, and the invariant that everything that seen objects point to is seen or
    pending. *)
From S2P Require Import Prelude GoStrings GoPath ObjectID Memory Filemode Objects ObjectsProofs Trees TreesProofs History HistoryWalks Revlist.

(** ** Repositories that are all there *)
Section Repository.
Context (encodedObject : ObjectType -> ObjectID -> res EncodedObj).
Abbreviation GetObject := (GetObject encodedObject).
Abbreviation GetTree := (GetTree encodedObject).
Abbreviation GetCommit := (GetCommit encodedObject).

(** What an object points to: a commit to its parents and its tree, a tree to its entries that are not submodules, a tag to its target. *)
Inductive edge (h : ObjectID) : ObjectID -> Prop :=
| edge_parent c p : GetObject h = Ok (OCommit c) -> p ∈ cParentHashes c -> edge h p
| edge_tree c : GetObject h = Ok (OCommit c) -> edge h (cTreeHash c)
| edge_entry t e : GetObject h = Ok (OTree t) -> e ∈ trEntries t -> teMode e <> Submodule -> edge h (teHash e)
| edge_target t : GetObject h = Ok (OTag t) -> edge h (gTarget t).

Definition reachable (hs : list ObjectID) (g : ObjectID) : Prop := exists h, h ∈ hs /\ rtc edge h g.

(** The storer gives an object under its own type as it gives it under any type. *)
Definition storer_typed : Prop := forall h o, encodedObject AnyObject h = Ok o -> encodedObject (oType o) h = Ok o.

Definition isCommit (h : ObjectID) : Prop := exists c, GetObject h = Ok (OCommit c).
Definition isTree (h : ObjectID) : Prop := exists t, GetObject h = Ok (OTree t).

(** A set of objects that are all there, each under its own hash, with what they point to, of the type it is used as;
    [rank] bounds the depth of trees. *)
Definition complete_repository (U : gset ObjectID) (rank : ObjectID -> nat) : Prop :=
  forall h, h ∈ U -> exists d, GetObject h = Ok d /\ Object_ID d = h /\
    match d with
    | OCommit c => (forall p, p ∈ cParentHashes c -> p ∈ U /\ isCommit p) /\ cTreeHash c ∈ U /\ isTree (cTreeHash c)
    | OTree t => Z.of_nat (rank h) <= maxTreeDepth /\ forall e, e ∈ trEntries t -> teMode e <> Submodule ->
        teHash e ∈ U /\ (teMode e = Dir -> isTree (teHash e) /\ (rank (teHash e) < rank h)%nat) /\
        (teMode e <> Dir -> exists b, GetObject (teHash e) = Ok (OBlob b))
    | OTag t => gTarget t ∈ U
    | OBlob _ => True
    end.

Context (U : gset ObjectID).

(** *** What is left to do *)

(** Everything that the seen objects point to is seen or pending. *)
Definition closedBut (S : gset ObjectID) (W : list ObjectID) : Prop := forall h g, h ∈ S -> edge h g -> g ∈ S \/ g ∈ W.

(** How much a walk over the unseen objects can take. *)
Definition weight (h : ObjectID) : nat := match GetObject h with Ok (OTree t) => S (length (trEntries t)) | _ => 1 end.
Definition unseen (S : gset ObjectID) : nat := sum_list_with weight (elements (U ∖ S)).

Lemma sum_perm l l' : l ≡ₚ l' -> sum_list_with weight l = sum_list_with weight l'.
Proof. intros E. induction E; cbn in *; lia. Qed.

Lemma unseen_add S h : h ∈ U -> h ∉ S -> unseen S = (weight h + unseen ({[h]} ∪ S))%nat.
Proof.
  intros Hh HS. unfold unseen.
  assert (elements (U ∖ S) ≡ₚ h :: elements (U ∖ ({[h]} ∪ S))) as E.
  { rewrite <- elements_union_singleton by set_solver. apply elements_proper. set_unfold. intros x. destruct (decide (x = h)) as [->|]; tauto. }
  by rewrite (sum_perm _ _ E).
Qed.

Lemma weight_pos h : (0 < weight h)%nat.
Proof. unfold weight. repeat case_match; lia. Qed.

Lemma unseen_mono S S' : S ⊆ S' -> (unseen S' <= unseen S)%nat.
Proof.
  intros Hs. unfold unseen. assert (elements (U ∖ S) ≡ₚ elements (U ∖ S') ++ elements (U ∩ S' ∖ S)) as E.
  { rewrite <- elements_disj_union by set_solver. apply elements_proper. intros x. set_unfold. destruct (decide (x ∈ S')); naive_solver. }
  rewrite (sum_perm _ _ E), sum_list_with_app. lia.
Qed.

Lemma size_unseen S : (size (U ∖ S) <= unseen S)%nat.
Proof.
  assert (forall l, (length l <= sum_list_with weight l)%nat) as H.
  { induction l as [|h l IH]; cbn; [lia|]. pose proof (weight_pos h). lia. }
  apply H.
Qed.

Context (rank : ObjectID -> nat).
Hypothesis Htyped : storer_typed.
Hypothesis HU : complete_repository U rank.

Lemma DecodeObject_type o d : DecodeObject o = Ok d -> match d with
  | OCommit c => oType o = CommitObject /\ DecodeCommit o = Ok c | OTree t => oType o = TreeObject /\ DecodeTree o = Ok t | _ => True end.
Proof.
  unfold DecodeObject. destruct (Z.eqb_spec (oType o) CommitObject).
  { destruct (DecodeCommit o); try done. by intros [= <-]. }
  destruct (Z.eqb_spec (oType o) TreeObject).
  { destruct (DecodeTree o); try done. by intros [= <-]. }
  destruct (oType o =? BlobObject); [destruct (DecodeBlob o); try done; by intros [= <-]|].
  destruct (oType o =? TagObject); [destruct (DecodeTag o); try done; by intros [= <-]|]. done.
Qed.

Lemma get_inv h d : GetObject h = Ok d -> exists o, encodedObject AnyObject h = Ok o /\ DecodeObject o = Ok d.
Proof. unfold Trees.GetObject. intros E. inv_bind E. eauto. Qed.

Lemma get_commit h c : GetObject h = Ok (OCommit c) -> exists o, encodedObject CommitObject h = Ok o /\ DecodeCommit o = Ok c.
Proof. intros (o & Eo & Ed)%get_inv. destruct (DecodeObject_type _ _ Ed) as [Et Ec]. apply Htyped in Eo. rewrite Et in Eo. eauto. Qed.
Lemma get_tree h t : GetObject h = Ok (OTree t) -> GetTree h = Ok t.
Proof.
  intros (o & Eo & Ed)%get_inv. destruct (DecodeObject_type _ _ Ed) as [Et Ec]. apply Htyped in Eo. rewrite Et in Eo.
  unfold Trees.GetTree. by rewrite Eo.
Qed.

Lemma in_commit h c : h ∈ U -> GetObject h = Ok (OCommit c) -> cHash c = h /\ (forall p, p ∈ cParentHashes c -> p ∈ U /\ isCommit p) /\ cTreeHash c ∈ U /\ isTree (cTreeHash c).
Proof. intros Hh E. destruct (HU h Hh) as (d & E' & Hid & Hd). rewrite E in E'. injection E' as <-. by split. Qed.
Lemma in_tree h t : h ∈ U -> GetObject h = Ok (OTree t) -> trHash t = h /\ Z.of_nat (rank h) <= maxTreeDepth /\ forall e, e ∈ trEntries t -> teMode e <> Submodule ->
  teHash e ∈ U /\ (teMode e = Dir -> isTree (teHash e) /\ (rank (teHash e) < rank h)%nat) /\ (teMode e <> Dir -> exists b, GetObject (teHash e) = Ok (OBlob b)).
Proof. intros Hh E. destruct (HU h Hh) as (d & E' & Hid & Hd). rewrite E in E'. injection E' as <-. by split. Qed.

(** *** Walks over trees with a shared map of what was seen *)
Definition left (it : treeEntryIter) : list TreeEntry := drop (Z.to_nat (iPos it)) (trEntries (iTree it)).
Definition pointed (es : list TreeEntry) : list ObjectID := map teHash (List.filter (fun e => negb (teMode e =? Submodule)) es).
Definition stackPending (stack : list treeEntryIter) : list ObjectID := flat_map (fun it => pointed (left it)) stack.
Definition stackLeft (stack : list treeEntryIter) : nat := sum_list_with (fun it => length (left it)) stack.

Lemma pointed_elem es h : h ∈ pointed es <-> exists e, e ∈ es /\ teMode e <> Submodule /\ h = teHash e.
Proof.
  unfold pointed. rewrite list_elem_of_fmap. split.
  - intros (e & -> & He). apply list_elem_of_In, filter_In in He as [He Hm]. apply negb_true_iff, Z.eqb_neq in Hm.
    exists e. split; [by apply list_elem_of_In|done].
  - intros (e & He & Hm & ->). exists e. split; [done|]. apply list_elem_of_In, filter_In. split; [by apply list_elem_of_In|].
    by apply negb_true_iff, Z.eqb_neq.
Qed.

(** A tree on the stack, with the depth that is left for it. *)
Definition frame_ok (root : ObjectID) (it : treeEntryIter) : Prop :=
  0 <= iPos it /\ trHash (iTree it) ∈ U /\ GetObject (trHash (iTree it)) = Ok (OTree (iTree it)) /\ rtc edge root (trHash (iTree it)).
Fixpoint stack_ok (root : ObjectID) (stack : list treeEntryIter) : Prop :=
  match stack with
  | [] => True
  | it :: rest => frame_ok root it /\ Z.of_nat (rank (trHash (iTree it))) + len rest <= maxTreeDepth /\ stack_ok root rest
  end.

Lemma iter_Next_left it : 0 <= iPos it ->
  match left it with
  | [] => iter_Next it = Err EOF
  | e :: es => exists it', iter_Next it = Ok (e, it') /\ iTree it' = iTree it /\ 0 <= iPos it' /\ left it' = es
  end.
Proof.
  intros Hp. unfold left, iter_Next. destruct (drop (Z.to_nat (iPos it)) (trEntries (iTree it))) as [|e es] eqn:E.
  - destruct (Z.geb_spec (iPos it) (len (trEntries (iTree it)))) as [|Hlt]; [done|]. exfalso. apply (f_equal length) in E. rewrite length_drop in E. unfold len in Hlt. cbn in E. lia.
  - pose proof (f_equal length E) as El. rewrite length_drop in El. cbn in El.
    destruct (Z.geb_spec (iPos it) (len (trEntries (iTree it)))) as [Hge|Hlt]; [unfold len in Hge; lia|].
    assert (trEntries (iTree it) !! Z.to_nat (iPos it) = Some e) as Hl.
    { rewrite <- (Nat.add_0_r (Z.to_nat (iPos it))), <- lookup_drop, E. done. }
    rewrite (index_lookup _ _ e Hp Hl). cbn [res_bind]. eexists. split; [done|]. cbn [iTree iPos]. split; [done|]. split; [lia|].
    replace (Z.to_nat (iPos it + 1)) with (S (Z.to_nat (iPos it))) by lia. by rewrite (drop_S _ e _ Hl) in E; injection E.
Qed.

Lemma edge_dir h t : GetObject h = Ok (OTree t) -> forall g, edge h g -> g ∈ pointed (trEntries t).
Proof.
  intros E g Hg. destruct Hg as [c p E'|c E'|t' e E' He Hm|t' E']; rewrite E in E'; try discriminate E'.
  injection E' as <-. apply pointed_elem. eauto.
Qed.
Lemma edge_blob h b g : GetObject h = Ok (OBlob b) -> edge h g -> False.
Proof. intros E Hg. destruct Hg as [c p E'|c E'|t' e E' He Hm|t' E']; rewrite E in E'; discriminate E'. Qed.

Lemma frame_entry root it e es : frame_ok root it -> left it = e :: es -> teMode e <> Submodule ->
  teHash e ∈ U /\ rtc edge root (teHash e) /\
  (teMode e = Dir -> (exists t, GetObject (teHash e) = Ok (OTree t) /\ trHash t = teHash e) /\ (rank (teHash e) < rank (trHash (iTree it)))%nat) /\
  (teMode e <> Dir -> exists b, GetObject (teHash e) = Ok (OBlob b)).
Proof.
  intros (Hp & Hin & Hg & Hr) Hl Hm. destruct (in_tree _ _ Hin Hg) as (_ & _ & Hes).
  assert (e ∈ trEntries (iTree it)) as He.
  { unfold left in Hl. rewrite <- (take_drop (Z.to_nat (iPos it)) (trEntries (iTree it))), Hl. set_solver. }
  destruct (Hes e He Hm) as (H1 & H2 & H3). split; [done|]. split; [eapply rtc_r; [done|by eapply edge_entry]|]. split; [|done].
  intros Hd. destruct (H2 Hd) as ((t & Et) & Hlt). split; [|done]. exists t. split; [done|]. by apply (in_tree (teHash e)).
Qed.

(** What a step leaves: the entry it gives is new, and what was pending is seen, is this entry, or is pending still. *)
Definition walker_gives (S : gset ObjectID) (root : ObjectID) (w w' : TreeWalker) (e : TreeEntry) : Prop :=
  stack_ok root (wStack w') /\ wRecursive w' = true /\ teHash e ∉ S /\
  (forall h, h ∈ stackPending (wStack w) -> h ∈ S \/ (teMode e <> Submodule /\ h = teHash e) \/ h ∈ stackPending (wStack w')) /\
  (teMode e = Submodule -> (stackLeft (wStack w') < stackLeft (wStack w))%nat) /\
  (teMode e <> Submodule -> teHash e ∈ U /\ rtc edge root (teHash e) /\ (forall g, edge (teHash e) g -> g ∈ stackPending (wStack w')) /\
    (stackLeft (wStack w') + 1 < stackLeft (wStack w) + weight (teHash e))%nat).

(** An entry that was not seen: its tree is pushed when it is a directory. *)
Lemma walker_fresh S root top top' rest b e es : frame_ok root top -> left top = e :: es -> stack_ok root (top' :: rest) ->
  Z.of_nat (rank (trHash (iTree top))) + len rest <= maxTreeDepth -> stackLeft (top :: rest) = (1 + stackLeft (top' :: rest))%nat ->
  (forall h, h ∈ stackPending (top :: rest) -> (teMode e <> Submodule /\ h = teHash e) \/ h ∈ stackPending (top' :: rest)) -> teHash e ∉ S ->
  exists nm e' w', (if teMode e =? Dir then
      match GetTree (teHash e) with
      | Ok obj => (Ok (simpleJoin b (teName e), e), mkWalker (mkIter obj 0 :: top' :: rest) (simpleJoin b (teName e)) true)
      | Err _ => (Err EOF, mkWalker (top' :: rest) b true)
      | Panic => (Panic, mkWalker (top' :: rest) b true)
      | NoFuel => (NoFuel, mkWalker (top' :: rest) b true)
      end
    else (Ok (simpleJoin b (teName e), e), mkWalker (top' :: rest) b true)) = (Ok (nm, e'), w') /\
    walker_gives S root (mkWalker (top :: rest) b true) w' e'.
Proof.
  intros Hframe El Hok' Hrank Hleft Hpend Hnin. destruct (Z.eqb_spec (teMode e) Dir) as [Hd|Hd].
  - assert (teMode e <> Submodule) as Hm by (rewrite Hd; done). destruct (frame_entry root top e es Hframe El Hm) as (F1 & F2 & F3 & _).
    destruct (F3 Hd) as ((t & Et & Eh) & Hlt). rewrite (get_tree _ _ Et). eexists _, e, _. split; [done|].
    split; [|split; [done|]]; cbn [wStack].
    { split; [unfold frame_ok; cbn [iTree iPos]; rewrite Eh; split_and!; [lia|done..]|]. split; [cbn [iTree]; rewrite Eh, len_cons; lia|done]. }
    assert (stackPending (mkIter t 0 :: top' :: rest) = pointed (trEntries t) ++ stackPending (top' :: rest)) as Ep by reflexivity.
    assert (stackLeft (mkIter t 0 :: top' :: rest) = (length (trEntries t) + stackLeft (top' :: rest))%nat) as Ez by reflexivity.
    split; [done|]. split; [|split; [done|]].
    { intros h Hh. right. destruct (Hpend h Hh) as [?|Hh']; [by left|]. right. rewrite Ep. apply elem_of_app. by right. }
    intros _. split; [done|]. split; [done|]. split; [intros g Hg; rewrite Ep; apply elem_of_app; left; by apply (edge_dir _ _ Et)|].
    unfold weight. rewrite Et, Hleft, Ez. lia.
  - eexists _, e, _. split; [done|]. split; [done|]. split; [done|]. split; [done|]. cbn [wStack]. split; [intros h Hh; right; by apply Hpend|]. split; [rewrite Hleft; lia|].
    intros Hm. destruct (frame_entry root top e es Hframe El Hm) as (F1 & F2 & _ & F4). destruct (F4 Hd) as (blob & Eb).
    split; [done|]. split; [done|]. split; [intros g Hg; by destruct (edge_blob _ _ _ Eb Hg)|]. rewrite Hleft. unfold weight. rewrite Eb. lia.
Qed.

Lemma walker_step S root fuel : forall w, (walker_fuel w <= fuel)%nat -> stack_ok root (wStack w) -> wRecursive w = true ->
  (exists w', walker_loop encodedObject fuel S w = (Err EOF, w') /\ forall h, h ∈ stackPending (wStack w) -> h ∈ S) \/
  (exists nm e w', walker_loop encodedObject fuel S w = (Ok (nm, e), w') /\ walker_gives S root w w' e).
Proof.
  induction fuel as [|fuel IH]; intros [stack b r] Hf Hok Hr; [unfold walker_fuel in Hf; lia|]. cbn [wStack wRecursive] in *. subst r.
  cbn [walker_loop wStack wBase wRecursive]. destruct stack as [|top rest]; [left; eexists; split; [done|]; intros h []%elem_of_nil|].
  cbn [stack_ok] in Hok. destruct Hok as (Hframe & Hrank & Hrest). rewrite walker_fuel_cons in Hf. pose proof Hframe as (Hp & _).
  destruct (Z.gtb_spec (len (top :: rest) - 1) maxTreeDepth); [rewrite len_cons in *; lia|].
  pose proof (iter_Next_left top Hp) as Hnext. destruct (left top) as [|e es] eqn:El.
  - rewrite Hnext.
    assert (stackPending (top :: rest) = stackPending rest /\ stackLeft (top :: rest) = stackLeft rest) as [E1 E2].
    { unfold stackPending, stackLeft. cbn [flat_map]. cbn. rewrite El. done. }
    set (w1 := mkWalker rest (TrimSuffix (path_Split b).1 (bs "/")) true).
    destruct (IH w1) as [(w' & E & Hall)|(nm & e & w' & E & Hg)]; [change (walker_fuel w1) with (walker_fuel (mkWalker rest b true)); lia|done|done| |].
    + left. exists w'. split; [done|]. by rewrite E1.
    + right. exists nm, e, w'. split; [done|]. unfold walker_gives in *. cbn [wStack] in *. by rewrite E1, E2.
  - destruct Hnext as (top' & -> & Ht & Hp' & El').
    assert (frame_ok root top') as Hframe' by (destruct Hframe as (_ & ? & ? & ?); unfold frame_ok; by rewrite Ht).
    assert (stack_ok root (top' :: rest)) as Hok' by (cbn [stack_ok]; rewrite Ht; done).
    assert (stackLeft (top :: rest) = (1 + stackLeft (top' :: rest))%nat) as Hleft by (unfold stackLeft; cbn; rewrite El, El'; done).
    assert (forall h, h ∈ stackPending (top :: rest) -> (teMode e <> Submodule /\ h = teHash e) \/ h ∈ stackPending (top' :: rest)) as Hpend.
    { unfold stackPending. cbn [flat_map]. rewrite El, El'. intros h [Hh|Hh]%elem_of_app; [|right; apply elem_of_app; by right].
      apply pointed_elem in Hh as (x & Hx & Hm & ->). apply elem_of_cons in Hx as [->|Hx]; [by left|]. right. apply elem_of_app. left. apply pointed_elem. eauto. }
    destruct (decide (teHash e ∈ S)) as [Hin|Hnin].
    + rewrite bool_decide_eq_true_2 by done. destruct (IH (mkWalker (top' :: rest) b true)) as [(w' & E & Hall)|(nm & e' & w' & E & Hg)]; [|done|done| |].
      { rewrite walker_fuel_cons. assert (remaining top = Datatypes.S (remaining top')); [|lia]. unfold remaining. unfold left in El, El'. rewrite Ht in *.
        apply (f_equal length) in El, El'. rewrite length_drop in El, El'. cbn in El. unfold len. lia. }
      * left. exists w'. split; [done|]. intros h Hh. destruct (Hpend h Hh) as [[_ ->]|Hh']; [done|by apply Hall].
      * right. exists nm, e', w'. split; [done|]. destruct Hg as (G1 & G2 & G3 & G4 & G5 & G6). unfold walker_gives. cbn [wStack] in *. split; [done|]. split; [done|]. split; [done|]. split; [|split].
        -- intros h Hh. destruct (Hpend h Hh) as [[_ ->]|Hh']; [by left|by apply G4].
        -- intros Hm. rewrite Hleft. specialize (G5 Hm). lia.
        -- intros Hm. rewrite Hleft. destruct (G6 Hm) as (? & ? & ? & ?). split; [done|]. split; [done|]. split; [done|lia].
    + rewrite bool_decide_eq_false_2 by done. right. by eapply walker_fresh.
Qed.
End Repository.

Section Walk.
Context (encodedObject : ObjectType -> ObjectID -> res EncodedObj) (U : gset ObjectID) (rank : ObjectID -> nat).
Hypothesis Htyped : storer_typed encodedObject.
Hypothesis HU : complete_repository encodedObject U rank.
Abbreviation GetObject := (GetObject encodedObject).
Abbreviation edge := (edge encodedObject).
Abbreviation closedBut := (closedBut encodedObject).
Abbreviation unseen := (unseen encodedObject U).
Abbreviation weight := (weight encodedObject).
Abbreviation stack_ok := (stack_ok encodedObject U rank).
Abbreviation isCommit := (isCommit encodedObject).

(** What an operation that starts at [root] does to the state, when [W] is pending elsewhere. *)
Record adds (root : ObjectID) (W : list ObjectID) (st st' : found) : Prop := {
  ad_seen : fSeen st ⊆ fSeen st';
  ad_closed : closedBut (fSeen st') W;
  ad_sound : forall x, x ∈ fSeen st' -> x ∈ fSeen st \/ rtc edge root x;
  ad_result : forall x, x ∈ fResult st' <-> x ∈ fResult st \/ (x ∈ fSeen st' /\ x ∉ fSeen st) }.

Lemma adds_refl root W st : closedBut (fSeen st) W -> adds root W st st.
Proof. intros Hc. split; [done|done|by left|]. intros x. tauto. Qed.

Lemma walkerFunc_new st h : h ∉ fSeen st -> fSeen (walkerFunc st h) = {[h]} ∪ fSeen st /\ fResult (walkerFunc st h) = {[h]} ∪ fResult st.
Proof. intros H. unfold walkerFunc. by rewrite bool_decide_eq_false_2. Qed.

(** Marking one object, then the rest. *)
Lemma adds_mark root W st st' h : h ∉ fSeen st -> rtc edge root h -> adds root W (walkerFunc st h) st' -> adds root W st st'.
Proof.
  intros Hn Hr [H1 H2 H3 H4]. destruct (walkerFunc_new st h Hn) as [Es Er]. rewrite Es, ?Er in *. split.
  - set_solver.
  - done.
  - intros x Hx. destruct (H3 x Hx) as [Hx'|?]; [|by right]. apply elem_of_union in Hx' as [->%elem_of_singleton|?]; [by right|by left].
  - intros x. rewrite H4. rewrite !elem_of_union, !elem_of_singleton. split; [|destruct (decide (x = h)) as [->|]; tauto].
    intros [[->|?]|[? ?]]; [|tauto|tauto]. right. split; [|done]. apply H1. set_solver.
Qed.

Lemma adds_trans root r2 W W2 st st2 st3 : adds root W2 st st2 -> rtc edge root r2 -> adds r2 W st2 st3 -> adds root W st st3.
Proof.
  intros [H1 H2 H3 H4] Hr [G1 G2 G3 G4]. split; [set_solver|done| |].
  - intros x Hx. destruct (G3 x Hx) as [Hx'|?]; [by apply H3|]. right. by etransitivity.
  - intros x. rewrite G4, H4. split.
    + intros [[?|[? ?]]|[? Hn]]; [tauto| |]; right; (split; [try done; by apply G1|]); [done|]. intros Hx. by apply Hn, H1.
    + intros [?|[? ?]]; [tauto|]. destruct (decide (x ∈ fSeen st2)); tauto.
Qed.

Lemma adds_root root r2 W st st' : rtc edge root r2 -> adds r2 W st st' -> adds root W st st'.
Proof. intros Hr [H1 H2 H3 H4]. split; [done|done| |done]. intros x Hx. destruct (H3 x Hx); [by left|right; by etransitivity]. Qed.

(** *** Trees *)
Lemma trees_loop_ok root W fuel : forall w st, stack_ok root (wStack w) -> wRecursive w = true ->
  closedBut (fSeen st) (stackPending (wStack w) ++ W) -> (unseen (fSeen st) + stackLeft (wStack w) < fuel)%nat ->
  exists st', iterateTrees_loop encodedObject fSeen walkerFunc fuel w st = Ok (st', None) /\ adds root W st st'.
Proof.
  induction fuel as [|fuel IH]; intros w st Hok Hr Hc Hf; [lia|]. cbn [iterateTrees_loop]. unfold walker_Next.
  destruct (walker_step encodedObject U rank Htyped HU (fSeen st) root _ w (le_n _) Hok Hr) as [(w' & -> & Hall)|(nm & e & w' & -> & Hg)].
  { exists st. rewrite bool_decide_eq_true_2 by done. split; [done|]. apply adds_refl. intros h g Hh Hg. destruct (Hc h g Hh Hg) as [?|[?|?]%elem_of_app]; auto. }
  destruct Hg as (G1 & G2 & G3 & G4 & G5 & G6). destruct (Z.eqb_spec (teMode e) Submodule) as [Hm|Hm].
  - apply IH; [done|done| |specialize (G5 Hm); lia]. intros h g Hh Hg. destruct (Hc h g Hh Hg) as [?|[Hp|?]%elem_of_app]; [by left| |right; apply elem_of_app; by right].
    destruct (G4 g Hp) as [?|[[? _]|?]]; [by left|done|right; apply elem_of_app; by left].
  - unfold isSeen. rewrite bool_decide_eq_false_2 by done. destruct (G6 Hm) as (F1 & F2 & F3 & F4). destruct (walkerFunc_new st _ G3) as [Es _].
    destruct (IH w' (walkerFunc st (teHash e)) G1 G2) as (st' & E & Ha); rewrite ?Es.
    + intros h g Hh Hg. rewrite elem_of_app. apply elem_of_union in Hh as [->%elem_of_singleton|Hh]; [right; left; by apply F3|].
      destruct (Hc h g Hh Hg) as [?|[Hp|?]%elem_of_app]; [left; set_solver| |tauto]. destruct (G4 g Hp) as [?|[[_ ->]|?]]; [left; set_solver|left; set_solver|tauto].
    + pose proof (unseen_add encodedObject U (fSeen st) (teHash e) F1 G3). lia.
    + exists st'. split; [done|]. by eapply adds_mark.
Qed.

Lemma iterateCommitTrees_ok root W fuel tree st : trHash tree ∈ U -> GetObject (trHash tree) = Ok (OTree tree) -> rtc edge root (trHash tree) ->
  closedBut (fSeen st) (trHash tree :: W) -> (unseen (fSeen st) <= fuel)%nat ->
  exists st', iterateCommitTrees encodedObject fSeen walkerFunc fuel tree st = Ok (st', None) /\ adds root W st st' /\ trHash tree ∈ fSeen st'.
Proof.
  intros Hin Hg Hr Hc Hf. unfold iterateCommitTrees, isSeen. destruct (decide (trHash tree ∈ fSeen st)) as [Hs|Hs].
  { rewrite bool_decide_eq_true_2 by done. exists st. split; [done|]. split; [|done]. apply adds_refl. intros h g Hh He.
    destruct (Hc h g Hh He) as [?|[->|?]%elem_of_cons]; auto. }
  rewrite bool_decide_eq_false_2 by done. destruct (walkerFunc_new st _ Hs) as [Es _].
  destruct (trees_loop_ok root W fuel (NewTreeWalker tree true) (walkerFunc st (trHash tree))) as (st' & E & Ha).
  - destruct (in_tree encodedObject U rank HU _ _ Hin Hg) as (_ & Hrank & _). change (wStack (NewTreeWalker tree true)) with [mkIter tree 0]. split; [|split; [cbn [iTree]; rewrite len_nil; lia|done]]. split; [done|]. by split.
  - done.
  - rewrite Es. change (stackPending (wStack (NewTreeWalker tree true))) with (pointed (trEntries tree) ++ []). rewrite app_nil_r.
    intros h g Hh He. rewrite elem_of_app. apply elem_of_union in Hh as [->%elem_of_singleton|Hh]; [right; left; by eapply edge_dir|].
    destruct (Hc h g Hh He) as [?|[->|?]%elem_of_cons]; [left; set_solver|left; set_solver|tauto].
  - rewrite Es. pose proof (unseen_add encodedObject U (fSeen st) _ Hin Hs) as Hu. unfold weight in Hu. rewrite Hg in Hu.
    change (stackLeft (wStack (NewTreeWalker tree true))) with (length (trEntries tree) + 0)%nat. lia.
  - exists st'. split; [done|]. split; [by eapply adds_mark|]. apply (ad_seen _ _ _ _ Ha). rewrite Es. set_solver.
Qed.

(** *** Commits *)
Definition prePending (w : preIter) : list ObjectID := from_option (fun c => [cHash c]) [] (pStart w) ++ concat (pStack w).

Record pre_ok (root : ObjectID) (S : gset ObjectID) (w : preIter) : Prop := {
  po_seen : pSeen w ⊆ S;
  po_start : from_option (fun c => GetObject (cHash c) = Ok (OCommit c)) True (pStart w);
  po_pending : forall h, h ∈ prePending w -> h ∈ U /\ isCommit h /\ rtc edge root h }.

Lemma pre_visit_dyn root S seen stack c : seen ⊆ S -> GetObject (cHash c) = Ok (OCommit c) ->
  (forall h, h ∈ cHash c :: concat stack -> h ∈ U /\ isCommit h /\ rtc edge root h) ->
  match pre_visit S seen stack c with
  | None => cHash c ∈ S
  | Some w => cHash c ∉ S /\ pre_ok root ({[cHash c]} ∪ S) w /\
      (forall h, h ∈ concat stack -> h ∈ prePending w) /\ (forall p, p ∈ cParentHashes c -> p ∈ {[cHash c]} ∪ S \/ p ∈ prePending w)
  end.
Proof.
  intros Hs Hg Hp. unfold pre_visit. destruct (decide (cHash c ∈ S)) as [Hin|Hnin]; [rewrite (bool_decide_eq_true_2 (cHash c ∈ S)), orb_true_r by done; done|].
  rewrite (bool_decide_eq_false_2 (cHash c ∈ seen)) by set_solver. rewrite (bool_decide_eq_false_2 (cHash c ∈ S)) by done. cbn [orb].
  assert (concat (if NumParents c >? 0 then filteredParentIter c ({[cHash c]} ∪ seen) :: stack else stack) =
      filteredParentIter c ({[cHash c]} ∪ seen) ++ concat stack) as Econ.
  { unfold NumParents, filteredParentIter. destruct (cParentHashes c) as [|p ps]; [done|]. rewrite len_cons. pose proof (len_nonneg ps).
    destruct (Z.gtb_spec (1 + len ps) 0); [done|lia]. }
  assert (forall p, p ∈ filteredParentIter c ({[cHash c]} ∪ seen) <-> p ∈ cParentHashes c /\ p ∉ {[cHash c]} ∪ seen) as Hfil.
  { intros p. unfold filteredParentIter. rewrite list_elem_of_In, filter_In, <- list_elem_of_In, negb_true_iff, bool_decide_eq_false. done. }
  destruct (Hp (cHash c) ltac:(by left)) as (Hin & _ & Hr). destruct (in_commit encodedObject U rank HU _ _ Hin Hg) as (_ & Hpar & _).
  split; [done|]. unfold prePending. cbn [pStart pStack from_option app]. rewrite Econ. split; [split|split].
  - cbn. set_solver.
  - done.
  - intros h. unfold prePending. cbn [pStart pStack from_option app]. rewrite Econ. intros [Hh|Hh]%elem_of_app.
    + apply Hfil in Hh as [Hh _]. destruct (Hpar h Hh). split; [done|]. split; [done|]. eapply rtc_r; [done|by eapply edge_parent].
    + apply Hp. by right.
  - intros h Hh. apply elem_of_app. by right.
  - intros p Hp'. rewrite elem_of_app, Hfil. destruct (decide (p ∈ {[cHash c]} ∪ seen)) as [Hi|]; [left; set_solver|right; by left].
Qed.

Lemma pre_step root S fuel : forall w, (length (from_option (fun _ => [tt]) [] (pStart w)) + sum_list_with (fun l => Datatypes.S (length l)) (pStack w) < fuel)%nat -> pre_ok root S w ->
  (exists w', pre_loop encodedObject fuel S w = (Err EOF, w') /\ forall h, h ∈ prePending w -> h ∈ S) \/
  (exists c w', pre_loop encodedObject fuel S w = (Ok c, w') /\ cHash c ∉ S /\ cHash c ∈ prePending w /\ GetObject (cHash c) = Ok (OCommit c) /\ pre_ok root ({[cHash c]} ∪ S) w' /\
     (forall h, h ∈ prePending w -> h ∈ {[cHash c]} ∪ S \/ h ∈ prePending w') /\ (forall p, p ∈ cParentHashes c -> p ∈ {[cHash c]} ∪ S \/ p ∈ prePending w')).
Proof.
  induction fuel as [|fuel IH]; intros [seen stack start] Hf [Hs Hst Hp]; [lia|]. cbn [pre_loop pSeen pStack pStart] in *.
  unfold prePending in Hp |- *. cbn [pStart pStack] in *. destruct start as [c|]; cbn [from_option app] in *.
  - pose proof (pre_visit_dyn root S seen stack c Hs Hst Hp) as Hv. destruct (pre_visit S seen stack c) as [w|].
    + right. destruct Hv as (V1 & V2 & V3 & V4). exists c, w. split; [done|]. split; [done|]. split; [by left|]. split; [done|]. split; [done|]. split; [|done].
      intros h [->|Hh]%elem_of_cons; [left; set_solver|right; by apply V3].
    + destruct (IH (mkPre seen stack None)) as [(w' & E & Hall)|(c' & w' & E & P1 & P2 & P3 & P4 & P5 & P6)]; [cbn in *; lia|split; [done|done|intros h Hh; apply Hp; by right]| |].
      * left. exists w'. split; [done|]. intros h [->|Hh]%elem_of_cons; [done|by apply Hall].
      * right. exists c', w'. split; [done|]. split; [done|]. split; [by right|]. split; [done|]. split; [done|]. split; [|done].
        intros h [->|Hh]%elem_of_cons; [left; set_solver|by apply P5].
  - destruct stack as [|top rest]; [left; eexists; split; [done|]; intros h []%elem_of_nil|]. cbn [concat] in *. destruct top as [|h0 top]; cbn [lookup_Next].
    + rewrite bool_decide_eq_true_2 by done. apply IH; [cbn in *; lia|by split].
    + cbn [app] in *. destruct (Hp h0 ltac:(by left)) as (Hin0 & (c & Ec) & Hr0). destruct (get_commit encodedObject Htyped _ _ Ec) as (o & -> & ->).
      destruct (in_commit encodedObject U rank HU _ _ Hin0 Ec) as (Eh & _). rewrite <- Eh in *.
      change (top ++ concat rest) with (concat (top :: rest)) in *.
      pose proof (pre_visit_dyn root S seen (top :: rest) c Hs Ec Hp) as Hv. destruct (pre_visit S seen (top :: rest) c) as [w|].
      * right. destruct Hv as (V1 & V2 & V3 & V4). exists c, w. split; [done|]. split; [done|]. split; [by left|]. split; [done|]. split; [done|]. split; [|done].
        intros h [->|Hh]%elem_of_cons; [left; set_solver|right; by apply V3].
      * destruct (IH (mkPre seen (top :: rest) None)) as [(w' & E & Hall)|(c' & w' & E & P1 & P2 & P3 & P4 & P5 & P6)]; [cbn in *; lia|split; [done|done|intros h Hh; apply Hp; by right]| |].
        -- left. exists w'. split; [done|]. intros h [->|Hh]%elem_of_cons; [done|by apply Hall].
        -- right. exists c', w'. split; [done|]. split; [done|]. split; [by right|]. split; [done|]. split; [done|]. split; [|done].
           intros h [->|Hh]%elem_of_cons; [left; set_solver|by apply P5].
Qed.

Lemma pre_Next_dyn root S w : pre_ok root S w ->
  (exists w', pre_Next encodedObject S w = (Err EOF, w') /\ forall h, h ∈ prePending w -> h ∈ S) \/
  (exists c w', pre_Next encodedObject S w = (Ok c, w') /\ cHash c ∉ S /\ cHash c ∈ prePending w /\ GetObject (cHash c) = Ok (OCommit c) /\ pre_ok root ({[cHash c]} ∪ S) w' /\
     (forall h, h ∈ prePending w -> h ∈ {[cHash c]} ∪ S \/ h ∈ prePending w') /\ (forall p, p ∈ cParentHashes c -> p ∈ {[cHash c]} ∪ S \/ p ∈ prePending w')).
Proof. intros Hw. apply pre_step; [|done]. unfold pre_fuel. destruct (pStart w); cbn; lia. Qed.

Lemma pre_ok_mono root S S' w : S ⊆ S' -> pre_ok root S w -> pre_ok root S' w.
Proof. intros Hs [H1 H2 H3]. split; [set_solver|done|done]. Qed.

Lemma edge_commit h c g : GetObject h = Ok (OCommit c) -> edge h g -> g ∈ cParentHashes c \/ g = cTreeHash c.
Proof. intros E Hg. destruct Hg as [c' p E'|c' E'|t' e E' He Hm|t' E']; rewrite E in E'; try discriminate E'; injection E' as <-; auto. Qed.

Lemma reachable_loop_ok root W walk fuel : forall pending w st, pre_ok root (fSeen st) w -> closedBut (fSeen st) (prePending w ++ W) ->
  (unseen (fSeen st) < fuel)%nat -> (unseen (fSeen st) <= walk)%nat ->
  exists st', reachable_loop encodedObject fSeen walkerFunc walk fuel ∅ pending w st = Ok (st', None) /\ adds root W st st' /\
    forall h, h ∈ prePending w -> h ∈ fSeen st'.
Proof.
  induction fuel as [|fuel IH]; intros pending w st Hok Hc Hf Hw; [lia|]. cbn [reachable_loop].
  destruct (pre_Next_dyn root (fSeen st) w Hok) as [(w' & -> & Hall)|(c & w' & -> & P1 & P2 & P3 & P4 & P5 & P6)].
  { exists st. rewrite bool_decide_eq_true_2 by done. split; [done|]. split; [|done]. apply adds_refl. intros h g Hh Hg.
    destruct (Hc h g Hh Hg) as [?|[?|?]%elem_of_app]; auto. }
  rewrite (bool_decide_eq_false_2 (cHash c ∈ ∅)) by set_solver. cbn [andb]. unfold isSeen. rewrite bool_decide_eq_false_2 by done.
  destruct (po_pending _ _ _ Hok _ P2) as (Hin & _ & Hr). destruct (in_commit encodedObject U rank HU _ _ Hin P3) as (_ & _ & Htin & (t & Et)).
  unfold Commit_Tree. rewrite (get_tree encodedObject Htyped _ _ Et). cbn [attempt].
  destruct (in_tree encodedObject U rank HU _ _ Htin Et) as (Eth & _). rewrite <- Eth in Htin, Et.
  assert (rtc edge root (trHash t)) as Hrt by (eapply rtc_r; [done|]; rewrite Eth; by eapply edge_tree).
  destruct (walkerFunc_new st _ P1) as [Es _]. set (st1 := walkerFunc st (cHash c)) in *.
  pose proof (unseen_add encodedObject U (fSeen st) _ Hin P1) as Hu. pose proof (weight_pos encodedObject (cHash c)).
  destruct (iterateCommitTrees_ok root (prePending w' ++ W) walk t st1 Htin Et Hrt) as (st2 & -> & Ha & Hts).
  { rewrite Es. intros h g Hh Hg. rewrite elem_of_cons, elem_of_app. apply elem_of_union in Hh as [->%elem_of_singleton|Hh].
    - destruct (edge_commit _ _ _ P3 Hg) as [Hpar| ->]; [destruct (P6 g Hpar); tauto|]. right. left. done.
    - destruct (Hc h g Hh Hg) as [?|[Hp|?]%elem_of_app]; [left; set_solver|destruct (P5 g Hp); tauto|tauto]. }
  { rewrite Es. lia. }
  cbn [andThen res_bind]. pose proof (ad_seen _ _ _ _ Ha) as Hsub.
  destruct (IH (addPendingParents (pending ∖ {[cHash c]}) ∅ c) w' st2) as (st3 & E & Ha3 & Hpend).
  - eapply pre_ok_mono; [|exact P4]. by rewrite <- Es.
  - apply (ad_closed _ _ _ _ Ha).
  - pose proof (unseen_mono encodedObject U _ _ Hsub). rewrite Es in *. lia.
  - pose proof (unseen_mono encodedObject U _ _ Hsub). rewrite Es in *. lia.
  - exists st3. split; [exact E|]. split.
    + eapply adds_mark; [done|exact Hr|]. fold st1. eapply adds_trans; [exact Ha|reflexivity|exact Ha3].
    + intros h Hh. destruct (P5 h Hh) as [Hi|Hi]; [|by apply Hpend]. apply (ad_seen _ _ _ _ Ha3), Hsub. by rewrite Es.
Qed.

(** *** Any object *)
Lemma processObject_ok W walk fuel ignore : forall h st, h ∈ U -> closedBut (fSeen st) (h :: W) -> list_to_set ignore ⊆ fSeen st ->
  (unseen (fSeen st) < fuel)%nat -> (unseen (fSeen st) < walk)%nat ->
  exists st', processObject encodedObject fSeen walkerFunc walk fuel h ∅ ignore st = Ok (st', None) /\ adds h W st st' /\ h ∈ fSeen st'.
Proof.
  induction fuel as [|fuel IH]; intros h st Hin Hc Hi Hf Hw; [lia|]. cbn [processObject]. unfold isSeen.
  destruct (decide (h ∈ fSeen st)) as [Hs|Hs].
  { rewrite bool_decide_eq_true_2 by done. exists st. split; [done|]. split; [|done]. apply adds_refl. intros x g Hx Hg.
    destruct (Hc x g Hx Hg) as [?|[->|?]%elem_of_cons]; auto. }
  rewrite bool_decide_eq_false_2 by done. destruct (HU h Hin) as (d & Eg & Hid & Hd).
  destruct (get_inv encodedObject _ _ Eg) as (o & -> & Ed). cbn [attempt]. rewrite Ed. cbn [attempt].
  destruct d as [c|t|b|t]; cbn [Object_ID] in Hid.
  - destruct (reachable_loop_ok h W walk walk (addPendingParents ∅ ∅ c) (NewCommitPreorderIter c ignore) st) as (st' & E & Ha & Hp).
    + split; [done|by cbn; rewrite Hid|]. intros x Hx. unfold prePending in Hx. cbn in Hx. apply list_elem_of_singleton in Hx as ->. rewrite Hid.
      split; [done|]. split; [by exists c|]. apply rtc_refl.
    + unfold prePending. cbn. by rewrite Hid.
    + lia.
    + lia.
    + exists st'. split; [exact E|]. split; [done|]. apply Hp. unfold prePending. cbn. rewrite Hid. by left.
  - rewrite <- Hid in *. apply (iterateCommitTrees_ok (trHash t) W walk t st); [done|done|apply rtc_refl|done|lia].
  - exists (walkerFunc st (bHash b)). split; [done|]. rewrite Hid. destruct (walkerFunc_new st h Hs) as [Es _]. split; [|rewrite Es; set_solver].
    apply (adds_mark h W st _ h Hs (rtc_refl _ _)). apply adds_refl. rewrite Es. intros x g Hx Hg.
    apply elem_of_union in Hx as [->%elem_of_singleton|Hx]; [by destruct (edge_blob encodedObject _ _ _ Eg Hg)|].
    destruct (Hc x g Hx Hg) as [?|[->|?]%elem_of_cons]; [left; set_solver|left; set_solver|tauto].
  - rewrite Hid. destruct (walkerFunc_new st h Hs) as [Es _]. pose proof (unseen_add encodedObject U (fSeen st) h Hin Hs) as Hu. pose proof (weight_pos encodedObject h).
    destruct (IH (gTarget t) (walkerFunc st h)) as (st' & E & Ha & Hp).
    + done.
    + rewrite Es. intros x g Hx Hg. rewrite elem_of_cons. apply elem_of_union in Hx as [->%elem_of_singleton|Hx].
      * destruct Hg as [c' p E'|c' E'|t' e E' He Hm|t' E']; rewrite Eg in E'; try discriminate E'. injection E' as <-. tauto.
      * destruct (Hc x g Hx Hg) as [?|[->|?]%elem_of_cons]; [left; set_solver|left; set_solver|tauto].
    + rewrite Es. set_solver.
    + rewrite Es. lia.
    + rewrite Es. lia.
    + exists st'. split; [exact E|]. split; [|apply (ad_seen _ _ _ _ Ha); rewrite Es; set_solver].
      eapply adds_mark; [done|apply rtc_refl|]. eapply adds_root; [|exact Ha]. eapply rtc_l; [by eapply edge_target|apply rtc_refl].
Qed.
End Walk.

Section All.
Context (encodedObject : ObjectType -> ObjectID -> res EncodedObj) (U : gset ObjectID) (rank : ObjectID -> nat).
Hypothesis Htyped : storer_typed encodedObject.
Hypothesis HU : complete_repository encodedObject U rank.
Abbreviation closedBut := (closedBut encodedObject).
Abbreviation edge := (edge encodedObject).

Lemma objects_loop_ok fuel ignore allow : (unseen encodedObject U ∅ < fuel)%nat -> forall hs st, (forall h, h ∈ hs -> h ∈ U) ->
  closedBut (fSeen st) [] -> list_to_set ignore ⊆ fSeen st ->
  exists st', objects_loop encodedObject fuel ignore allow hs st = Ok st' /\ closedBut (fSeen st') [] /\ fSeen st ⊆ fSeen st' /\
    (forall h, h ∈ hs -> h ∈ fSeen st') /\ (forall x, x ∈ fSeen st' -> x ∈ fSeen st \/ reachable encodedObject hs x) /\
    (forall x, x ∈ fResult st' <-> x ∈ fResult st \/ (x ∈ fSeen st' /\ x ∉ fSeen st)).
Proof.
  intros Hf. induction hs as [|h hs IH]; intros st Hhs Hc Hi.
  { exists st. split; [done|]. split; [done|]. split; [done|]. split; [intros h []%elem_of_nil|]. split; [by left|]. intros x. tauto. }
  cbn [objects_loop]. pose proof (unseen_mono encodedObject U _ (fSeen st) (empty_subseteq (C := gset ObjectID) _)) as Hu.
  destruct (processObject_ok encodedObject U rank Htyped HU [] fuel fuel ignore h st) as (st1 & -> & [A1 A2 A3 A4] & Hh);
    [apply Hhs; by left|intros x g Hx Hg; destruct (Hc x g Hx Hg) as [?|[]%elem_of_nil]; by left|done|exact (Nat.le_lt_trans _ _ _ Hu Hf)|exact (Nat.le_lt_trans _ _ _ Hu Hf)|]. cbn [res_bind].
  destruct (IH st1) as (st2 & E & B1 & B2 & B3 & B4 & B5); [intros x Hx; apply Hhs; by right|done|set_solver|].
  exists st2. split; [exact E|]. split; [done|]. split; [set_solver|]. split; [|split].
  - intros x [->|Hx]%elem_of_cons; [by apply B2|by apply B3].
  - intros x Hx. destruct (B4 x Hx) as [Hx'|(r & Hr & Hp)]; [|right; exists r; split; [by right|done]].
    destruct (A3 x Hx') as [?|?]; [by left|]. right. exists h. split; [by left|done].
  - intros x. rewrite B5, A4. split.
    + intros [[?|[? ?]]|[? Hn]]; [tauto|right; split; [by apply B2|done]|right; split; [done|intros Hx; by apply Hn, A1]].
    + intros [?|[? ?]]; [tauto|]. destruct (decide (x ∈ fSeen st1)); tauto.
Qed.

Lemma closed_rtc S h x : closedBut S [] -> h ∈ S -> rtc edge h x -> x ∈ S.
Proof. intros Hc Hh Hr. induction Hr as [|a b c Hab _ IH]; [done|]. apply IH. by destruct (Hc a b Hh Hab) as [?|[]%elem_of_nil]. Qed.

(** Starting from a closed set of ignored objects. *)
Lemma objects_ok fuel hs ignore allow : (unseen encodedObject U ∅ < fuel)%nat -> (forall h, h ∈ hs -> h ∈ U) -> closedBut (list_to_set ignore) [] ->
  exists R, objects encodedObject fuel hs ignore allow = Ok R /\ forall x, x ∈ R <-> reachable encodedObject hs x /\ x ∉ ignore.
Proof.
  intros Hf Hhs Hc. unfold objects. destruct (objects_loop_ok fuel ignore allow Hf hs (mkFound (hashListToSet ignore) ∅) Hhs Hc ltac:(done)) as (st & -> & B1 & _ & B3 & B4 & B5).
  cbn [res_bind]. exists (fResult st). split; [done|]. intros x. rewrite B5. cbn [fResult fSeen] in *. unfold hashListToSet in *. rewrite elem_of_list_to_set. split.
  - intros [Hx|[Hx Hn]]; [set_solver|]. split; [|done]. destruct (B4 x Hx) as [Hx'|?]; [|done]. by rewrite elem_of_list_to_set in Hx'.
  - intros [(h & Hh & Hr) Hn]. right. split; [|done]. eapply closed_rtc; [done|by apply B3|done].
Qed.

Lemma Objects_ok fuel objs ignore : (unseen encodedObject U ∅ < fuel)%nat -> (forall h, h ∈ objs ++ ignore -> h ∈ U) ->
  exists R, revlist_Objects encodedObject fuel objs ignore = Ok R /\ forall x, x ∈ R <-> reachable encodedObject objs x /\ ~ reachable encodedObject ignore x.
Proof.
  intros Hf Hin. unfold revlist_Objects, ObjectsWithStorageForIgnores.
  destruct (objects_ok fuel ignore [] true Hf) as (I & -> & HI); [intros h Hh; apply Hin, elem_of_app; by right|intros h g Hh; cbn in Hh; set_solver|]. cbn [res_bind].
  destruct (objects_ok fuel objs (elements I) false Hf) as (R & -> & HR); [intros h Hh; apply Hin, elem_of_app; by left| |].
  - intros h g Hh Hg. left. rewrite elem_of_list_to_set, elem_of_elements in *. apply HI in Hh as [(r & Hr & Hp) _]. apply HI. split; [|apply not_elem_of_nil].
    exists r. split; [done|]. by eapply rtc_r.
  - exists R. split; [done|]. intros x. rewrite HR, elem_of_elements, HI. split; [|intros [? Hn]; split; [done|]; by intros [? _]].
    intros [? Hn]. split; [done|]. intros Hr. apply Hn. split; [done|apply not_elem_of_nil].
Qed.
End All.

(** ** A sample repository: two commits, a tag, trees and blobs *)
Definition repoCommit (n tree : Z) (parents : list Z) : EncodedObj :=
  mkEncoded CommitObject (id_of n) (encodeCommit (mkCommit (id_of n) zeroSignature zeroSignature [] [] (bs "m") (id_of tree) (map id_of parents) [] []) true).
Definition sampleRepository : list EncodedObj :=
  [mkEncoded BlobObject (id_of 1) (bs "one"); mkEncoded BlobObject (id_of 2) (bs "two");
   mkEncoded TreeObject (id_of 3) (tree_bytes [mkEntry (bs "a") Regular (id_of 1)]);
   mkEncoded TreeObject (id_of 4) (tree_bytes [mkEntry (bs "d") Dir (id_of 3); mkEntry (bs "f") Regular (id_of 2); mkEntry (bs "s") Submodule (id_of 9)]);
   repoCommit 5 3 []; repoCommit 6 4 [5];
   mkEncoded TagObject (id_of 7) (encodeTag (mkTag (id_of 7) (bs "v1") zeroSignature (bs "m") [] CommitObject (id_of 6)) true)].

Definition repositoryStorer (objs : list EncodedObj) (t : ObjectType) (h : ObjectID) : res EncodedObj :=
  match List.find (fun o => bool_decide (oHash o = h)) objs with
  | Some o => if (t =? AnyObject) || (t =? oType o) then Ok o else Err ErrObjectNotFound
  | None => Err ErrObjectNotFound
  end.

Lemma repositoryStorer_typed objs : storer_typed (repositoryStorer objs).
Proof.
  intros h o. unfold repositoryStorer. destruct (List.find _ objs) as [o'|]; [|discriminate]. cbn [Z.eqb orb AnyObject Pos.eqb]. intros [= ->]. by rewrite Z.eqb_refl, orb_true_r.
Qed.

Definition sampleObjects : gset ObjectID := list_to_set (map oHash sampleRepository).
Definition sampleRank (h : ObjectID) : nat := if bool_decide (h = id_of 4) then 1 else 0.

Lemma sampleRepository_complete : complete_repository (repositoryStorer sampleRepository) sampleObjects sampleRank.
Proof.
  intros h Hh. unfold sampleObjects in Hh. rewrite elem_of_list_to_set in Hh.
  change (map oHash sampleRepository) with [id_of 1; id_of 2; id_of 3; id_of 4; id_of 5; id_of 6; id_of 7] in Hh.
  assert (forall n, 1 <= n <= 7 -> id_of n ∈ sampleObjects) as Hin.
  { intros n Hn. unfold sampleObjects. rewrite elem_of_list_to_set. change (map oHash sampleRepository) with (map id_of [1; 2; 3; 4; 5; 6; 7]).
    apply list_elem_of_fmap_2. assert (n = 1 \/ n = 2 \/ n = 3 \/ n = 4 \/ n = 5 \/ n = 6 \/ n = 7) as E by lia. set_solver. }
  repeat (apply elem_of_cons in Hh as [->|Hh]); [..|by apply elem_of_nil in Hh].
  - eexists. split; [vm_compute; reflexivity|]. done.
  - eexists. split; [vm_compute; reflexivity|]. done.
  - eexists. split; [vm_compute; reflexivity|]. split; [done|]. split; [vm_compute; congruence|]. intros e He Hm.
    apply list_elem_of_singleton in He as ->. split; [exact (Hin 1 ltac:(lia))|]. split; [done|]. intros _. eexists. vm_compute. reflexivity.
  - eexists. split; [vm_compute; reflexivity|]. split; [done|]. split; [vm_compute; congruence|]. intros e He Hm.
    apply elem_of_cons in He as [->|He]; [|apply elem_of_cons in He as [->|He]; [|apply list_elem_of_singleton in He as ->; done]].
    + split; [exact (Hin 3 ltac:(lia))|]. split; [|done]. intros _. split; [eexists; vm_compute; reflexivity|vm_compute; lia].
    + split; [exact (Hin 2 ltac:(lia))|]. split; [done|]. intros _. eexists. vm_compute. reflexivity.
  - eexists. split; [vm_compute; reflexivity|]. split; [done|]. split; [intros p []%elem_of_nil|]. split; [exact (Hin 3 ltac:(lia))|]. eexists. vm_compute. reflexivity.
  - eexists. split; [vm_compute; reflexivity|]. split; [done|]. split; [|split; [exact (Hin 4 ltac:(lia))|eexists; vm_compute; reflexivity]].
    intros p Hp. apply list_elem_of_singleton in Hp as ->. split; [exact (Hin 5 ltac:(lia))|]. eexists. vm_compute. reflexivity.
  - eexists. split; [vm_compute; reflexivity|]. split; [done|]. exact (Hin 6 ltac:(lia)).
Qed.

(** C5: The objects to send are the right ones.  On a repository in which everything that is pointed to is there, of the type it is used as, with trees no deeper
    than 1024, [Objects] gives exactly the objects that are reachable from [objs] (commits, their parents and trees, files, tags and what they name; not submodules)
    and are not reachable from [ignore]; a walk that
    stops at what was seen misses nothing.  As many rounds as the objects and their tree entries are enough. *)
Theorem revlist_objects_spec encodedObject U rank fuel objs ignore
    (typed : storer_typed encodedObject) (repository : complete_repository encodedObject U rank) :
  (forall h, h ∈ objs ++ ignore -> h ∈ U) -> (unseen encodedObject U ∅ < fuel)%nat ->
  exists R, revlist_Objects encodedObject fuel objs ignore = Ok R /\
    forall x, x ∈ R <-> reachable encodedObject objs x /\ ~ reachable encodedObject ignore x.
Proof. intros Hin Hf. by eapply Objects_ok. Qed.

Lemma revlist_objects_spec_witness :
  exists R, revlist_Objects (repositoryStorer sampleRepository) 20 [id_of 7] [id_of 5] = Ok R /\
    forall x, x ∈ R <-> reachable (repositoryStorer sampleRepository) [id_of 7] x /\ ~ reachable (repositoryStorer sampleRepository) [id_of 5] x.
Proof.
  apply (revlist_objects_spec (repositoryStorer sampleRepository) sampleObjects sampleRank 20 [id_of 7] [id_of 5]
    (repositoryStorer_typed _) sampleRepository_complete).
  - intros h Hh. apply (bool_decide_unpack _). revert h Hh. cut (Forall (fun h => bool_decide (h ∈ sampleObjects)) ([id_of 7] ++ [id_of 5])); [by rewrite Forall_forall|].
    by_decision.
  - vm_compute. lia.
Defined.

(** The sample in numbers: the tag, its commit, the tree and the blob that the older commit does not have. *)
Example revlist_sample :
  (let* R := revlist_Objects (repositoryStorer sampleRepository) 20 [id_of 7] [id_of 5] in Ok (bool_decide (R = list_to_set (map id_of [2; 4; 6; 7])))) = Ok true.
Proof. vm_compute. reflexivity. Qed.

(** A missing tree goes unnoticed: when the tree of a sub-directory is not there, [Objects] succeeds and leaves out this tree and everything after it in the walk,
    so that what is sent is not complete. *)
Theorem revlist_missing_tree :
  (let* R := revlist_Objects (repositoryStorer (List.filter (fun o => negb (bool_decide (oHash o = id_of 3))) sampleRepository)) 20 [id_of 4] [] in
   Ok (bool_decide (R = {[id_of 4]}))) = Ok true /\
  (let* R := revlist_Objects (repositoryStorer sampleRepository) 20 [id_of 4] [] in Ok (bool_decide (R = list_to_set (map id_of [1; 2; 3; 4])))) = Ok true.
Proof. vm_compute. split; reflexivity. Qed.
