(* ===== verification/Merkletrie.v ===== *)
(** * utils/merkletrie: the difference of two tries

    Model of noder/noder.go, noder/path.go, internal/frame/frame.go, iter.go,
    doubleiter.go, change.go and difftree.go.  A noder is what its methods
    answer, unfolded: its name, its hash, whether it is a directory, whether it is
    to be skipped, and its children, or the error of asking for them; [NumChildren] is
    their number.  The sort of the siblings is a parameter, and contexts that are cancelled
    are not modelled. *)
From S2P Require Import Prelude GoStrings ObjectID.

(** ** noder *)
Inductive Noder := mkNode (name hash : bytes) (isDir skip : bool) (children : res (list Noder)).

Definition node_Name (n : Noder) : bytes := let 'mkNode name _ _ _ _ := n in name.
Definition node_Hash (n : Noder) : bytes := let 'mkNode _ hash _ _ _ := n in hash.
Definition node_IsDir (n : Noder) : bool := let 'mkNode _ _ isDir _ _ := n in isDir.
Definition node_Skip (n : Noder) : bool := let 'mkNode _ _ _ skip _ := n in skip.
Definition node_Children (n : Noder) : res (list Noder) := let 'mkNode _ _ _ _ children := n in children.
Definition node_NumChildren (n : Noder) : res Z := let* c := node_Children n in Ok (len c).

(** Paths: the root first. *)
Abbreviation Path := (list Noder) (only parsing).

Definition path_String (p : Path) : bytes := Join (map node_Name p) [x2f].
(** [Last]: an index out of range on an empty path. *)
Definition path_Last (p : Path) : res Noder := index p (len p - 1).
Definition path_Skip (p : Path) : res bool := if len p >? 0 then let* n := path_Last p in Ok (node_Skip n) else Ok false.
Definition path_Name (p : Path) : res bytes := let* n := path_Last p in Ok (node_Name n).
Definition path_IsDir (p : Path) : res bool := let* n := path_Last p in Ok (node_IsDir n).
Definition path_Children (p : Path) : res (list Noder) := let* n := path_Last p in node_Children n.
Definition path_NumChildren (p : Path) : res Z := let* n := path_Last p in node_NumChildren n.
Definition path_Hash (p : Path) : res bytes := let* n := path_Last p in Ok (node_Hash n).

(** [Compare] from a position on. *)
Fixpoint path_Compare (p other : Path) : Z :=
  match p, other with
  | [], [] => 0
  | _, [] => 1
  | [], _ => -1
  | n :: p, m :: other =>
    let cmp := compareBytes (node_Name n) (node_Name m) in
    if negb (cmp =? 0) then cmp else path_Compare p other
  end.

(** ** change.go *)
Inductive Action := Insert | Delete | Modify.

Record Change := mkChange { From : option Path; To : option Path }.

Definition Change_Action (c : Change) : option Action :=
  match From c, To c with
  | None, None => None
  | None, Some _ => Some Insert
  | Some _, None => Some Delete
  | Some _, Some _ => Some Modify
  end.

Definition NewInsert (n : Path) : Change := mkChange None (Some n).
Definition NewDelete (n : Path) : Change := mkChange (Some n) None.
Definition NewModify (a b : Path) : Change := mkChange (Some a) (Some b).

Section Trie.
(** Sorting siblings by name (Go's [sort.Sort]). *)
Context (sortByName : list Noder -> list Noder).

(** ** frame.go: the siblings, the smallest name first *)
Definition frame_New (children : res (list Noder)) : res (list Noder) := let* c := children in Ok (sortByName c).

(** ** iter.go: the top frame first *)
Record Iter := mkIter { hasStarted : bool; frameStack : list (list Noder); base : Path }.

Definition newIter (root : option (res (list Noder))) (base : Path) : res Iter :=
  match root with
  | None => Ok (mkIter false [] base)
  | Some children => let* f := frame_New children in Ok (mkIter false [f] base)
  end.

Definition NewIter (n : Noder) : res Iter := newIter (Some (node_Children n)) [].
Definition NewIterFromPath (p : Path) : res Iter := newIter (Some (path_Children p)) p.

(** The first of every frame, from the bottom of the stack on; an empty frame panics. *)
Definition firsts (stack : list (list Noder)) : res Path :=
  fold_right (fun f acc => let* acc := acc in match f with [] => Panic | n :: _ => Ok (acc ++ [n]) end) (Ok []) stack.

Definition iter_current (it : Iter) : res Path :=
  match frameStack it with
  | [] => Err EOF
  | [] :: _ => Err EOF
  | _ => let* ret := firsts (frameStack it) in Ok (base it ++ ret)
  end.

(** [drop]: the current node, and the frames that become empty with their parents. *)
Fixpoint iter_drop (stack : list (list Noder)) : list (list Noder) :=
  match stack with
  | [] => []
  | f :: stack => match tail f with [] => iter_drop stack | f => f :: stack end
  end.

Definition advance (wantDescend : bool) (it : Iter) : res Path * Iter :=
  match iter_current it with
  | Ok current =>
    if negb (hasStarted it) then (Ok current, mkIter true (frameStack it) (base it))
    else
      match path_NumChildren current with
      | Ok numChildren =>
        if negb (numChildren =? 0) && wantDescend then
          match frame_New (path_Children current) with
          | Ok f => let it := mkIter true (f :: frameStack it) (base it) in (iter_current it, it)
          | Err e => (Err e, it) | Panic => (Panic, it) | NoFuel => (NoFuel, it)
          end
        else let it := mkIter true (iter_drop (frameStack it)) (base it) in (iter_current it, it)
      | Err e => (Err e, it) | Panic => (Panic, it) | NoFuel => (NoFuel, it)
      end
  | Err e => (Err e, it) | Panic => (Panic, it) | NoFuel => (NoFuel, it)
  end.

Definition Iter_Next (it : Iter) : res Path * Iter := advance false it.
Definition Iter_Step (it : Iter) : res Path * Iter := advance true it.

(** ** The rest of change.go *)

(** The loop of [addRecursive]. *)
Fixpoint addRecursive_loop (fuel : nat) (ctor : Path -> Change) (it : Iter) (l : list Change) : res (list Change) :=
  match fuel with
  | O => NoFuel
  | S fuel =>
    let (r, it) := Iter_Step it in
    match r with
    | Err e => if bool_decide (e = EOF) then Ok l else Err e
    | Ok current =>
      let* isDir := path_IsDir current in
      let* skip := path_Skip current in
      if isDir || skip then addRecursive_loop fuel ctor it l else addRecursive_loop fuel ctor it (l ++ [ctor current])
    | Panic => Panic
    | NoFuel => NoFuel
    end
  end.

Definition addRecursive (fuel : nat) (l : list Change) (root : Path) (ctor : Path -> Change) : res (list Change) :=
  if bool_decide (path_String root = []) then Err ErrEmptyFileName
  else
    let* isDir := path_IsDir root in
    if negb isDir then
      let* skip := path_Skip root in if negb skip then Ok (l ++ [ctor root]) else Ok l
    else let* it := NewIterFromPath root in addRecursive_loop fuel ctor it l.

Definition AddRecursiveInsert fuel l root := addRecursive fuel l root NewInsert.
Definition AddRecursiveDelete fuel l root := addRecursive fuel l root NewDelete.

(** ** doubleiter.go *)
Record doubleIter := mkDouble { dFrom : Iter; curFrom : option Path; dTo : Iter; curTo : option Path }.

(** The new current node, when the end of the trie is no error ([turnEOFIntoNil]). *)
Definition moved (r : res Path) : res (option Path) :=
  match r with
  | Ok p => Ok (Some p)
  | Err e => if bool_decide (e = EOF) then Ok None else Err e
  | Panic => Panic
  | NoFuel => NoFuel
  end.

Definition newDoubleIter (from to : Noder) : res doubleIter :=
  let* fi := NewIter from in
  let (r, fi) := Iter_Next fi in
  let* fc := moved r in
  let* ti := NewIter to in
  let (r, ti) := Iter_Next ti in
  let* tc := moved r in
  Ok (mkDouble fi fc ti tc).

Definition nextFrom (d : doubleIter) : res doubleIter :=
  let (r, it) := Iter_Next (dFrom d) in let* c := moved r in Ok (mkDouble it c (dTo d) (curTo d)).
Definition nextTo (d : doubleIter) : res doubleIter :=
  let (r, it) := Iter_Next (dTo d) in let* c := moved r in Ok (mkDouble (dFrom d) (curFrom d) it c).
Definition nextBoth (d : doubleIter) : res doubleIter := let* d := nextFrom d in nextTo d.
Definition stepBoth (d : doubleIter) : res doubleIter :=
  let (r, fi) := Iter_Step (dFrom d) in
  let* fc := moved r in
  let (r, ti) := Iter_Step (dTo d) in
  let* tc := moved r in
  Ok (mkDouble fi fc ti tc).

Record comparison := mkComparison {
  sameHash : bool; bothAreFiles : bool; fileAndDir : bool; bothAreDirs : bool; fromIsEmptyDir : bool; toIsEmptyDir : bool }.

Section Diff.
Context (hashEqual : bytes -> bytes -> bool).

Definition double_compare (from to : Path) : res comparison :=
  let* fh := path_Hash from in
  let* th := path_Hash to in
  let* fromIsDir := path_IsDir from in
  let* toIsDir := path_IsDir to in
  let bothAreDirs := fromIsDir && toIsDir in
  let bothAreFiles := negb fromIsDir && negb toIsDir in
  let* fromNumChildren := path_NumChildren from in
  let* toNumChildren := path_NumChildren to in
  Ok (mkComparison (hashEqual fh th) bothAreFiles (negb bothAreDirs && negb bothAreFiles) bothAreDirs
        (fromIsDir && (fromNumChildren =? 0)) (toIsDir && (toNumChildren =? 0))).

(** ** difftree.go; [walk] is the fuel of the walks below a node *)
Section Walk.
Context (walk : nat).

Definition diffDirs (changes : list Change) (ii : doubleIter) (from to : Path) : res (list Change * doubleIter) :=
  let* status := double_compare from to in
  if fromIsEmptyDir status then
    let* changes := AddRecursiveInsert walk changes to in let* ii := nextBoth ii in Ok (changes, ii)
  else if toIsEmptyDir status then
    let* changes := AddRecursiveDelete walk changes from in let* ii := nextBoth ii in Ok (changes, ii)
  else let* ii := stepBoth ii in Ok (changes, ii).

Definition diffNodesSameName (changes : list Change) (ii : doubleIter) (from to : Path) : res (list Change * doubleIter) :=
  let* status := double_compare from to in
  if sameHash status then let* ii := nextBoth ii in Ok (changes, ii)
  else if bothAreFiles status then let* ii := nextBoth ii in Ok (changes ++ [NewModify from to], ii)
  else if fileAndDir status then
    let* changes := AddRecursiveDelete walk changes from in
    let* changes := AddRecursiveInsert walk changes to in
    let* ii := nextBoth ii in Ok (changes, ii)
  else diffDirs changes ii from to.

Definition diffNodes (changes : list Change) (ii : doubleIter) (from to : Path) : res (list Change * doubleIter) :=
  let c := path_Compare from to in
  if c =? -1 then let* changes := AddRecursiveDelete walk changes from in let* ii := nextFrom ii in Ok (changes, ii)
  else if c =? 1 then let* changes := AddRecursiveInsert walk changes to in let* ii := nextTo ii in Ok (changes, ii)
  else diffNodesSameName changes ii from to.

(** One round of the loop of [DiffTreeContext]; [None] at the end. *)
Definition diffRound (changes : list Change) (ii : doubleIter) : option (res (list Change * doubleIter)) :=
  match curFrom ii, curTo ii with
  | None, None => None
  | Some from, None => Some (
      let* skip := path_Skip from in
      let* changes := if negb skip then AddRecursiveDelete walk changes from else Ok changes in
      let* ii := nextFrom ii in Ok (changes, ii))
  | None, Some to => Some (
      let* skip := path_Skip to in
      let* changes := if negb skip then AddRecursiveInsert walk changes to else Ok changes in
      let* ii := nextTo ii in Ok (changes, ii))
  | Some from, Some to => Some (
      let* fromSkip := path_Skip from in
      let* toSkip := path_Skip to in
      let* fromName := path_Name from in
      let* toName := path_Name to in
      if fromSkip then
        let* ii := if bool_decide (fromName = toName) then nextBoth ii else nextFrom ii in Ok (changes, ii)
      else if toSkip then
        let* ii := if bool_decide (fromName = toName) then nextBoth ii else nextTo ii in Ok (changes, ii)
      else diffNodes changes ii from to)
  end.

Fixpoint diff_loop (fuel : nat) (changes : list Change) (ii : doubleIter) : res (list Change) :=
  match fuel with
  | O => NoFuel
  | S fuel =>
    match diffRound changes ii with
    | None => Ok changes
    | Some r => let* (changes, ii) := r in diff_loop fuel changes ii
    end
  end.

Definition DiffTree (fromTree toTree : Noder) : res (list Change) :=
  let* ii := newDoubleIter fromTree toTree in diff_loop walk [] ii.
End Walk.
End Diff.
End Trie.

(** Insertion sort: what sorting gives when the names differ. *)
Definition sortNames : list Noder -> list Noder := insertionSort (fun m n => compareBytes (node_Name m) (node_Name n) <? 0).
