(* ===== verification/MerkletrieProofs.v ===== *)
(** * The difference of two tries is right and complete

    An iterator is the list of nodes it has still to visit ([pending]); the loop of
    [DiffTree] takes nodes off two such lists that are ordered and aligned, and what it adds is the
    difference of the files it takes off, so that the result is the reference
    [changesBetween] of the files of both tries. *)
From stdpp Require Import sorting.
From S2P Require Import Prelude GoStrings ObjectID Merkletrie.

(** ** Tries and their files *)

(** The files at or below a node, as paths that start at the node. *)
Fixpoint leaves (n : Noder) : list (list Noder) :=
  let 'mkNode _ _ isDir _ children := n in
  if isDir then match children with Ok cs => map (cons n) (flat_map leaves cs) | _ => [] end else [[n]].

(** The number of nodes at or below a node. *)
Fixpoint nodes (n : Noder) : nat :=
  let 'mkNode _ _ _ _ children := n in
  match children with Ok cs => S (list_sum (map nodes cs)) | _ => 1 end.

Definition names (p : list Noder) : list bytes := map node_Name p.

(** A node that answers, is not skipped, has a name, has children only when it is a directory, and they have different names. *)
Inductive trie : Noder -> Prop :=
| trie_node name hash isDir cs :
    name <> [] -> (isDir = false -> cs = []) -> NoDup (map node_Name cs) -> Forall trie cs ->
    trie (mkNode name hash isDir false (Ok cs)).

(** What a root has to be: its name is not looked at. *)
Definition trieRoot (n : Noder) : Prop :=
  exists cs, node_Children n = Ok cs /\ NoDup (map node_Name cs) /\ Forall trie cs.

(** The files of a trie, from its root. *)
Definition files (root : Noder) : list (list Noder) :=
  match node_Children root with Ok cs => flat_map leaves cs | _ => [] end.

(** The nodes below a root. *)
Inductive within (root : Noder) : Noder -> Prop :=
| within_child cs n : node_Children root = Ok cs -> n ∈ cs -> within root n
| within_below m cs n : within root m -> node_Children m = Ok cs -> n ∈ cs -> within root n.

(** ** Pending items: a node and the path to its parent *)
Definition item : Type := list Noder * Noder.
Definition itemPath (i : item) : list Noder := i.1 ++ [i.2].
Definition itemFiles (i : item) : list (list Noder) := map (app i.1) (leaves i.2).
Definition itemsFiles (l : list item) : list (list Noder) := flat_map itemFiles l.
Definition itemsNodes (l : list item) : nat := list_sum (map (fun i => nodes i.2) l).
Definition childItems (i : item) (cs : list Noder) : list item := map (pair (itemPath i)) cs.

Lemma itemPath_last i : index (itemPath i) (len (itemPath i) - 1) = Ok i.2.
Proof.
  unfold itemPath. apply index_lookup; unfold len; rewrite length_app; cbn [length]; [lia|].
  by apply list_lookup_middle; lia.
Qed.

Lemma path_Skip_item i : path_Skip (itemPath i) = Ok (node_Skip i.2).
Proof.
  unfold path_Skip, path_Last. rewrite itemPath_last. unfold itemPath, len. rewrite length_app. cbn [length].
  by destruct (Z.gtb_spec (Z.of_nat (length i.1 + 1)) 0); [|lia].
Qed.
Lemma path_Name_item i : path_Name (itemPath i) = Ok (node_Name i.2).
Proof. unfold path_Name, path_Last. by rewrite itemPath_last. Qed.
Lemma path_IsDir_item i : path_IsDir (itemPath i) = Ok (node_IsDir i.2).
Proof. unfold path_IsDir, path_Last. by rewrite itemPath_last. Qed.
Lemma path_Hash_item i : path_Hash (itemPath i) = Ok (node_Hash i.2).
Proof. unfold path_Hash, path_Last. by rewrite itemPath_last. Qed.
Lemma path_Children_item i : path_Children (itemPath i) = node_Children i.2.
Proof. unfold path_Children, path_Last. by rewrite itemPath_last. Qed.
Lemma path_NumChildren_item i : path_NumChildren (itemPath i) = node_NumChildren i.2.
Proof. unfold path_NumChildren, path_Last. by rewrite itemPath_last. Qed.

(** ** What an iterator has still to visit *)

(** The first nodes of the frames, from the bottom. *)
Fixpoint parents (stack : list (list Noder)) : list Noder :=
  match stack with [] => [] | f :: stack => parents stack ++ take 1 f end.
(** What is left once the current node is dropped. *)
Fixpoint rest (base : list Noder) (stack : list (list Noder)) : list item :=
  match stack with [] => [] | f :: stack => map (pair (base ++ parents stack)) (tail f) ++ rest base stack end.
Definition pending (base : list Noder) (stack : list (list Noder)) : list item :=
  match stack with [] => [] | f :: stack => map (pair (base ++ parents stack)) f ++ rest base stack end.

Definition full (stack : list (list Noder)) : Prop := Forall (fun f => f <> []) stack.

Record iterates (it : Iter) (l : list item) : Prop := {
  it_started : hasStarted it = true;
  it_full : full (frameStack it) \/ frameStack it = [[]];
  it_pending : pending (base it) (frameStack it) = l }.

Definition firstPath (l : list item) : res (list Noder) := match l with [] => Err EOF | i :: _ => Ok (itemPath i) end.

Lemma firsts_full stack : full stack -> firsts stack = Ok (parents stack).
Proof.
  induction 1 as [|f stack Hf _ IH]; [done|]. cbn [firsts fold_right parents]. fold (firsts stack). rewrite IH.
  by destruct f as [|n f].
Qed.

Lemma iter_current_pending it : full (frameStack it) \/ frameStack it = [[]] ->
  iter_current it = firstPath (pending (base it) (frameStack it)).
Proof.
  unfold iter_current. intros [Hf|E]; [|by rewrite E]. destruct (frameStack it) as [|f st] eqn:E; [done|].
  destruct f as [|n f]; [by inversion Hf|]. rewrite firsts_full by done.
  cbn [pending map app firstPath res_bind parents take]. unfold itemPath. cbn. by rewrite app_assoc.
Qed.

Lemma iter_drop_pending b stack : full stack -> pending b (iter_drop stack) = rest b stack /\ full (iter_drop stack).
Proof.
  induction 1 as [|f stack Hf Hs [IH1 IH2]]; [by split; constructor|]. cbn [iter_drop rest].
  destruct (tail f) as [|n f'] eqn:E; cbn [map app]; [by split|]. split; [done|]. by constructor.
Qed.

Section Iter.
Context (sortByName : list Noder -> list Noder).
Hypothesis Hperm : forall l, sortByName l ≡ₚ l.

Lemma sortByName_nil l : sortByName l = [] <-> l = [].
Proof.
  split; intros E.
  - apply (Permutation_nil_r l). by rewrite <- E, Hperm.
  - apply Permutation_nil_r. by rewrite Hperm, E.
Qed.

(** Going on, below the current node or not. *)
Lemma advance_started (wantDescend : bool) it i l cs :
  iterates it (i :: l) -> node_Children i.2 = Ok cs ->
  let l' := if wantDescend then childItems i (sortByName cs) ++ l else l in
  exists it', advance sortByName wantDescend it = (firstPath l', it') /\ iterates it' l'.
Proof.
  intros [Hst Hf Hp] Hcs. unfold advance.
  rewrite (iter_current_pending it Hf), Hp, Hst. cbn [firstPath negb].
  rewrite path_NumChildren_item. unfold node_NumChildren. rewrite Hcs. cbn [res_bind].
  assert (full (frameStack it)) as Hfull by (destruct Hf as [?|E]; [done|]; by rewrite E in Hp).
  destruct (frameStack it) as [|[|n f] st] eqn:E; [by discriminate Hp|by inversion Hfull|].
  injection Hp as Hi Hl.
  destruct (iter_drop_pending (base it) _ Hfull) as [Hd1 Hd2].
  destruct (decide (cs = [])) as [->|Hne].
  - assert (sortByName [] = []) as Es by by apply sortByName_nil. cbn [len length andb negb Z.eqb Z.of_nat].
    rewrite Es. cbn [childItems map app].
    eexists. split; [rewrite iter_current_pending; [f_equal|by left]|split; [done|by left|]]; cbn [frameStack base].
    + rewrite Hd1. cbn [rest tail]. rewrite Hl. by destruct wantDescend.
    + rewrite Hd1. cbn [rest tail]. rewrite Hl. by destruct wantDescend.
  - assert (len cs =? 0 = false) as -> by (apply Z.eqb_neq; unfold len; destruct cs; [done|cbn; lia]).
    cbn [negb andb]. destruct wantDescend.
    + rewrite path_Children_item, Hcs. cbn [frame_New res_bind].
      assert (full (sortByName cs :: (n :: f) :: st)) as Hfull'.
      { constructor; [by rewrite sortByName_nil|done]. }
      assert (pending (base it) (sortByName cs :: (n :: f) :: st) = childItems i (sortByName cs) ++ l) as Hp'.
      { cbn [pending parents take rest tail]. rewrite Hl. f_equal. unfold childItems. subst i. unfold itemPath. cbn [fst snd].
        by rewrite app_assoc. }
      eexists. split; [rewrite iter_current_pending; [f_equal|by left]|split; [done|by left|]]; cbn [frameStack base]; by rewrite Hp'.
    + eexists. split; [rewrite iter_current_pending; [f_equal|by left]|split; [done|by left|]]; cbn [frameStack base]; rewrite Hd1; cbn [rest tail]; by rewrite Hl.
Qed.

(** The first move of a new iterator. *)
Lemma advance_first wantDescend b cs :
  let it := mkIter false [sortByName cs] b in
  exists it', advance sortByName wantDescend it = (firstPath (map (pair b) (sortByName cs)), it') /\
    (cs <> [] -> iterates it' (map (pair b) (sortByName cs))).
Proof.
  intros it. unfold advance.
  assert (full (frameStack it) \/ frameStack it = [[]]) as Hf.
  { subst it. cbn. destruct (decide (cs = [])) as [->|Hne].
    - right. f_equal. by apply sortByName_nil.
    - left. constructor; [by rewrite sortByName_nil|constructor]. }
  assert (pending (base it) (frameStack it) = map (pair b) (sortByName cs)) as Hp.
  { subst it. cbn. by rewrite !app_nil_r. }
  rewrite (iter_current_pending it Hf), Hp. destruct (sortByName cs) as [|n f] eqn:E.
  - cbn [map firstPath]. eexists. split; [done|]. intros Hne. destruct (Hne (proj1 (sortByName_nil cs) E)).
  - cbn [map firstPath]. cbn [hasStarted negb it]. eexists. split; [done|]. intros _. split; [done|..]; cbn [frameStack base]; [|done].
    by left; repeat constructor.
Qed.
End Iter.

Lemma Join_not_nil l x sep : x <> [] -> Join (l ++ [x]) sep <> [].
Proof.
  intros Hx. induction l as [|a l IH]; [done|]. cbn [app].
  rewrite Join_cons by by destruct l. intros E. apply IH. by apply app_eq_nil in E as [_ [_ ?]%app_eq_nil].
Qed.

Definition tries (l : list item) : Prop := Forall (fun i => trie i.2) l.

Lemma trie_inv n : trie n -> exists cs, node_Children n = Ok cs /\ node_Skip n = false /\ node_Name n <> [] /\
  NoDup (map node_Name cs) /\ Forall trie cs /\ (node_IsDir n = false -> cs = []).
Proof. intros []. eauto 10. Qed.

Lemma itemsFiles_app l1 l2 : itemsFiles (l1 ++ l2) = itemsFiles l1 ++ itemsFiles l2.
Proof. apply flat_map_app. Qed.
Lemma itemsNodes_app l1 l2 : itemsNodes (l1 ++ l2) = (itemsNodes l1 + itemsNodes l2)%nat.
Proof. unfold itemsNodes. by rewrite map_app, list_sum_app. Qed.

Lemma childItems_perm i cs cs' : cs ≡ₚ cs' -> childItems i cs ≡ₚ childItems i cs'.
Proof. intros E. unfold childItems. by apply Permutation_map. Qed.
#[global] Instance itemsFiles_proper : Proper ((≡ₚ) ==> (≡ₚ)) itemsFiles.
Proof. intros l l' E. by apply Permutation_flat_map. Qed.
#[global] Instance itemsNodes_proper : Proper ((≡ₚ) ==> eq) itemsNodes.
Proof. intros l l' E. unfold itemsNodes, list_sum. induction E; cbn in *; lia. Qed.

(** The files of an item are itself when it is a file, and the files of its children. *)
Lemma itemFiles_split i cs : trie i.2 -> node_Children i.2 = Ok cs ->
  itemFiles i = (if node_IsDir i.2 then [] else [itemPath i]) ++ itemsFiles (childItems i cs) /\
  nodes i.2 = S (itemsNodes (childItems i cs)).
Proof.
  destruct i as [b n]. cbn [snd]. intros [name hash isDir cs' Hne Hf _ _]. cbn. intros [= ->]. split.
  - unfold itemFiles, itemPath. cbn [fst snd leaves]. destruct isDir; cbn [app].
    + rewrite map_map. unfold itemsFiles, childItems. generalize (mkNode name hash true false (Ok cs)). clear Hf Hne; intros m.
      induction cs as [|c cs IH]; [done|]. cbn [flat_map map]. rewrite map_app, IH by done. f_equal.
      unfold itemFiles, itemPath. cbn [fst snd]. apply map_ext. intros p. by rewrite <- app_assoc.
    + by rewrite Hf.
  - unfold itemsNodes, childItems. by rewrite map_map.
Qed.

Lemma tries_children i cs : Forall trie cs -> tries (childItems i cs).
Proof. intros H. unfold tries, childItems. rewrite Forall_map. eapply Forall_impl; [done|]. done. Qed.

Section Add.
Context (sortByName : list Noder -> list Noder).
Hypothesis Hperm : forall l, sortByName l ≡ₚ l.
Context (ctor : list Noder -> Change).

Lemma addRecursive_loop_ok fuel it it' l acc :
  advance sortByName true it = (firstPath l, it') -> (l <> [] -> iterates it' l) -> tries l -> (itemsNodes l < fuel)%nat ->
  exists ps, addRecursive_loop sortByName fuel ctor it acc = Ok (acc ++ map ctor ps) /\ ps ≡ₚ itemsFiles l.
Proof.
  revert it it' l acc. induction fuel as [|fuel IH]; intros it it' l acc Hadv Hit Ht Hfuel; [lia|].
  cbn [addRecursive_loop]. unfold Iter_Step. rewrite Hadv. destruct l as [|i l]; cbn [firstPath].
  { rewrite bool_decide_eq_true_2 by done. exists []. by rewrite app_nil_r. }
  inversion_clear Ht as [|? ? Hi Hl]. destruct (trie_inv _ Hi) as (cs & Hcs & Hskip & _ & _ & Hcst & _).
  destruct (itemFiles_split i cs Hi Hcs) as [Hfiles Hnodes].
  rewrite path_IsDir_item, path_Skip_item, Hskip. cbn [res_bind]. rewrite orb_false_r.
  specialize (Hit ltac:(done)). destruct (advance_started sortByName Hperm true it' i l cs Hit Hcs) as (it2 & Hadv2 & Hit2).
  assert (itemsNodes (i :: l) = S (itemsNodes (childItems i (sortByName cs) ++ l))) as Hn.
  { change (itemsNodes (i :: l)) with (nodes i.2 + itemsNodes l)%nat. rewrite Hnodes, itemsNodes_app.
    by rewrite (childItems_perm i (sortByName cs) cs) by apply Hperm. }
  assert (tries (childItems i (sortByName cs) ++ l)) as Ht.
  { apply Forall_app. split; [|done]. apply tries_children. by rewrite Hperm. }
  destruct (IH it' it2 _ (if node_IsDir i.2 then acc else acc ++ [ctor (itemPath i)]) Hadv2 ltac:(done) Ht ltac:(lia)) as (ps & E & Hps).
  exists ((if node_IsDir i.2 then [] else [itemPath i]) ++ ps). split.
  - destruct (node_IsDir i.2); rewrite E; [done|]. cbn. by rewrite <- app_assoc.
  - rewrite Hps. change (itemsFiles (i :: l)) with (itemFiles i ++ itemsFiles l).
    rewrite Hfiles, <- app_assoc, itemsFiles_app. by rewrite (childItems_perm i (sortByName cs) cs) by apply Hperm.
Qed.

(** [addRecursive] adds a change per file of the node. *)
Lemma addRecursive_ok fuel i acc : trie i.2 -> (nodes i.2 <= fuel)%nat ->
  exists ps, addRecursive sortByName fuel acc (itemPath i) ctor = Ok (acc ++ map ctor ps) /\ ps ≡ₚ itemFiles i.
Proof.
  intros Hi Hfuel. destruct (trie_inv _ Hi) as (cs & Hcs & Hskip & Hne & _ & Hcst & Hfile).
  destruct (itemFiles_split i cs Hi Hcs) as [Hfiles Hnodes].
  unfold addRecursive. rewrite bool_decide_eq_false_2.
  2:{ unfold path_String, itemPath. rewrite map_app. apply Join_not_nil. done. }
  rewrite path_IsDir_item, path_Skip_item, Hskip. cbn [res_bind negb].
  destruct (node_IsDir i.2); cbn [negb app] in *.
  - unfold NewIterFromPath, newIter, frame_New. rewrite path_Children_item, Hcs. cbn [res_bind].
    destruct (advance_first sortByName Hperm true (itemPath i) cs) as (it' & Hadv & Hit).
    destruct (addRecursive_loop_ok fuel _ it' _ acc Hadv) as (ps & E & Hps).
    + intros Hn. apply Hit. intros ->. apply Hn. by rewrite (proj2 (sortByName_nil sortByName Hperm []) eq_refl).
    + apply (tries_children i). by rewrite Hperm.
    + fold (childItems i (sortByName cs)). rewrite (childItems_perm i (sortByName cs) cs) by apply Hperm. lia.
    + exists ps. split; [done|]. rewrite Hps, Hfiles. fold (childItems i (sortByName cs)).
      by rewrite (childItems_perm i (sortByName cs) cs) by apply Hperm.
  - exists [itemPath i]. split; [done|]. rewrite Hfiles, Hfile by done. done.
Qed.
End Add.

Lemma filter_agree {A} (P Q : A -> Prop) `{!forall x, Decision (P x), !forall x, Decision (Q x)} (l : list A) :
  (forall x, x ∈ l -> P x <-> Q x) -> filter P l = filter Q l.
Proof.
  induction l as [|x l IH]; [done|]. intros HPQ. rewrite !filter_cons, IH by (intros; apply HPQ; set_solver).
  pose proof (HPQ x ltac:(set_solver)). destruct (decide (P x)), (decide (Q x)); tauto.
Qed.

(** ** The order of paths that do not contain each other *)
Fixpoint before (p q : list bytes) : Prop :=
  match p, q with
  | x :: p, y :: q => ltName x y \/ (x = y /\ before p q)
  | _, _ => False
  end.

Lemma before_app p q x y : before p q -> before (p ++ x) (q ++ y).
Proof.
  revert q. induction p as [|a p IH]; intros [|b q]; try done. cbn. intros [?|[-> ?]]; [by left|]. right. auto.
Qed.

Lemma before_prefix p x y : ltName x y -> before (p ++ [x]) (p ++ [y]).
Proof. intros H. induction p as [|a p IH]; cbn; auto. Qed.

Lemma ltName_trans x y z : ltName x y -> ltName y z -> ltName x z.
Proof. apply compareBytes_lt_trans. Qed.

Lemma before_trans p q r : before p q -> before q r -> before p r.
Proof.
  revert q r. induction p as [|a p IH]; intros [|b q] [|c r]; try done. cbn.
  intros [H1|[-> H1]] [H2|[-> H2]]; auto; [left; by eapply ltName_trans|]. right. split; [done|]. by eapply IH.
Qed.

Lemma before_irrefl p : ~ before p p.
Proof.
  induction p as [|a p IH]; [intros []|]. cbn. intros [H|[_ H]]; [|by apply IH]. unfold ltName in H. rewrite compareBytes_refl in H. lia.
Qed.

Lemma path_Compare_before p q : before (names p) (names q) -> path_Compare p q = -1 /\ path_Compare q p = 1.
Proof.
  revert q. induction p as [|a p IH]; intros [|b q]; try done. cbn [names map before path_Compare].
  rewrite (compareBytes_antisym (node_Name a) (node_Name b)).
  intros [H|[-> H]].
  - unfold ltName in H. destruct (compareBytes_cases (node_Name a) (node_Name b)) as [E|[E|E]]; rewrite E in *; [done|lia|lia].
  - rewrite compareBytes_refl. by apply IH.
Qed.

Lemma path_Compare_same p q : names p = names q -> path_Compare p q = 0.
Proof.
  revert q. induction p as [|a p IH]; intros [|b q]; try done. cbn [names map path_Compare]. intros [= -> E].
  rewrite compareBytes_refl. by apply IH.
Qed.

(** ** The reference: what changed between two lists of files *)
Section Spec.
Context (hashEqual : bytes -> bytes -> bool).

Definition hashOf (p : list Noder) : bytes := match last p with Some n => node_Hash n | None => [] end.

Definition modifies (p : list Noder) (B : list (list Noder)) : list Change :=
  flat_map (fun q => if bool_decide (names p = names q) && negb (hashEqual (hashOf p) (hashOf q)) then [NewModify p q] else []) B.

(** Files of [A] that [B] does not have are deleted, files of [B] that [A] does not have are inserted, and files of both
    are modified when their hashes are not equal. *)
Definition changesBetween (A B : list (list Noder)) : list Change :=
  map NewDelete (filter (fun p => names p ∉ map names B) A) ++
  map NewInsert (filter (fun q => names q ∉ map names A) B) ++
  flat_map (fun p => modifies p B) A.

Definition apartNames (A B : list (list Noder)) : Prop := forall p q, p ∈ A -> q ∈ B -> names p <> names q.

Lemma apart_not_elem A B p : apartNames A B -> p ∈ A -> names p ∉ map names B.
Proof. intros H Hp (q & E & Hq)%list_elem_of_fmap. by apply (H p q). Qed.
Lemma apart_sym A B : apartNames A B -> apartNames B A.
Proof. intros H p q Hp Hq E. by apply (H q p). Qed.

Lemma filter_names_app (A B D : list (list Noder)) : apartNames A B ->
  filter (fun p => names p ∉ map names (D ++ B)) A = filter (fun p => names p ∉ map names D) A.
Proof.
  intros H. apply filter_agree. intros p Hp. rewrite map_app, elem_of_app.
  pose proof (apart_not_elem A B p H Hp). tauto.
Qed.

Lemma modifies_app p D B : modifies p (D ++ B) = modifies p D ++ modifies p B.
Proof. apply flat_map_app. Qed.
Lemma modifies_apart p B : names p ∉ map names B -> modifies p B = [].
Proof.
  induction B as [|q B IH]; [done|]. cbn [map modifies flat_map]. intros H%not_elem_of_cons. destruct H as [H1 H2].
  rewrite bool_decide_eq_false_2 by done. by apply IH.
Qed.

Lemma flat_modifies_app A D B : apartNames A B ->
  flat_map (fun p => modifies p (D ++ B)) A = flat_map (fun p => modifies p D) A.
Proof.
  intros H. induction A as [|p A IH]; [done|]. cbn [flat_map]. rewrite IH.
  - rewrite modifies_app, (modifies_apart p B), app_nil_r; [done|]. apply (apart_not_elem (p :: A) B); [done|set_solver].
  - intros p' q Hp' Hq. apply H; [set_solver|done].
Qed.

(** Lists that share no names are compared piecewise. *)
Lemma changes_split C A D B : apartNames C B -> apartNames D A ->
  changesBetween (C ++ A) (D ++ B) ≡ₚ changesBetween C D ++ changesBetween A B.
Proof.
  intros HCB HDA. unfold changesBetween. rewrite !filter_app, !flat_map_app, !map_app, <- !map_app.
  rewrite (filter_names_app C B D HCB), (filter_names_app D A C HDA).
  rewrite (flat_modifies_app C D B HCB).
  assert (filter (fun p => names p ∉ map names (D ++ B)) A = filter (fun p => names p ∉ map names B) A) as ->.
  { rewrite <- (filter_names_app A D B) by by apply apart_sym. apply filter_agree. intros p _.
    by rewrite !map_app, !elem_of_app, (comm or). }
  assert (filter (fun q => names q ∉ map names (C ++ A)) B = filter (fun q => names q ∉ map names A) B) as ->.
  { rewrite <- (filter_names_app B C A) by by apply apart_sym. apply filter_agree. intros p _.
    by rewrite !map_app, !elem_of_app, (comm or). }
  assert (flat_map (fun p => modifies p (D ++ B)) A = flat_map (fun p => modifies p B) A) as ->.
  { clear HCB. induction A as [|p A IH]; [done|]. cbn [flat_map]. rewrite IH by (intros ? ? ? ?; apply HDA; set_solver).
    rewrite modifies_app, (modifies_apart p D); [done|]. apply (apart_not_elem (p :: A) D); [by apply apart_sym|set_solver]. }
  rewrite !map_app. solve_Permutation.
Qed.

Lemma filter_apart_nil (A : list (list Noder)) : filter (fun p => names p ∉ map names []) A = A.
Proof. induction A as [|p A IH]; [done|]. rewrite filter_cons_True by apply not_elem_of_nil. by rewrite IH. Qed.

Lemma changes_deleted A : changesBetween A [] = map NewDelete A.
Proof.
  unfold changesBetween. rewrite filter_apart_nil. cbn. rewrite <- (app_nil_r (map NewDelete A)) at 2. f_equal.
  induction A as [|p A IH]; done.
Qed.
Lemma changes_inserted B : changesBetween [] B = map NewInsert B.
Proof. unfold changesBetween. rewrite filter_apart_nil. cbn. by rewrite app_nil_r. Qed.

#[global] Instance changes_proper : Proper ((≡ₚ) ==> (≡ₚ) ==> (≡ₚ)) changesBetween.
Proof.
  intros A A' EA B B' EB. unfold changesBetween.
  assert (forall X X' Y Y' : list (list Noder), X ≡ₚ X' -> Y ≡ₚ Y' ->
    filter (fun p => names p ∉ map names X) Y ≡ₚ filter (fun p => names p ∉ map names X') Y') as Hf.
  { intros X X' Y Y' EX EY. rewrite <- EY. erewrite filter_agree; [reflexivity|]. intros p _. cbn.
    by rewrite (Permutation_map names EX). }
  rewrite (Hf _ _ _ _ EB EA), (Hf _ _ _ _ EA EB). do 2 f_equiv.
  rewrite EA. clear - EB. induction A' as [|p A IH]; [done|]. cbn [flat_map]. rewrite IH. f_equiv.
  unfold modifies. by apply Permutation_flat_map.
Qed.
End Spec.

(** ** Files of ordered items *)
Definition itemNames (i : item) : list bytes := names (itemPath i).

Lemma leaves_head n p : p ∈ leaves n -> exists p', p = n :: p'.
Proof.
  destruct n as [nm h d s cs]. cbn [leaves]. destruct d.
  - destruct cs as [cs| | |]; [|by intros ?%elem_of_nil..].
    intros (x & -> & _)%list_elem_of_fmap. eauto.
  - intros ->%list_elem_of_singleton. eauto.
Qed.

Lemma itemFiles_names i p : p ∈ itemFiles i -> exists x, names p = itemNames i ++ x.
Proof.
  unfold itemFiles. intros (q & -> & Hq)%list_elem_of_fmap. destruct (leaves_head _ _ Hq) as (q' & ->).
  exists (names q'). unfold itemNames, itemPath, names. rewrite !map_app. by rewrite <- app_assoc.
Qed.

Lemma itemsFiles_elem l p : p ∈ itemsFiles l <-> exists i, i ∈ l /\ p ∈ itemFiles i.
Proof. unfold itemsFiles. rewrite !list_elem_of_In, in_flat_map. by setoid_rewrite list_elem_of_In. Qed.

(** Items one of which comes before the other. *)
Definition apart (i j : item) : Prop := before (itemNames i) (itemNames j) \/ before (itemNames j) (itemNames i).

Lemma before_extend_neq p q x y : before p q -> p ++ x <> q ++ y.
Proof. intros H E. apply (before_app _ _ x y) in H. rewrite E in H. by apply before_irrefl in H. Qed.

Lemma apart_files l1 l2 : (forall i j, i ∈ l1 -> j ∈ l2 -> apart i j) -> apartNames (itemsFiles l1) (itemsFiles l2).
Proof.
  intros H p q (i & Hi & Hp)%itemsFiles_elem (j & Hj & Hq)%itemsFiles_elem.
  destruct (itemFiles_names _ _ Hp) as (x & ->), (itemFiles_names _ _ Hq) as (y & ->).
  destruct (H i j Hi Hj) as [Hb|Hb]; [by apply before_extend_neq|]. intros E. symmetry in E. revert E. by apply before_extend_neq.
Qed.

Definition ordered (l : list item) : Prop := StronglySorted (fun i j => before (itemNames i) (itemNames j)) l.
(** Items at the same path, or at paths of which none contains the other. *)
Definition aligned (l1 l2 : list item) : Prop :=
  forall i j, i ∈ l1 -> j ∈ l2 -> itemNames i = itemNames j \/ apart i j.

Lemma itemNames_child i n : itemNames (itemPath i, n) = itemNames i ++ [node_Name n].
Proof. unfold itemNames, names. unfold itemPath at 1. cbn [fst snd]. by rewrite map_app. Qed.

Lemma before_children i j cs c : before (itemNames i) (itemNames j) -> c ∈ childItems i cs -> before (itemNames c) (itemNames j).
Proof.
  intros H (n & -> & _)%list_elem_of_fmap. rewrite itemNames_child. rewrite <- (app_nil_r (itemNames j)). by apply before_app.
Qed.
Lemma before_children_r i j cs c : before (itemNames j) (itemNames i) -> c ∈ childItems i cs -> before (itemNames j) (itemNames c).
Proof.
  intros H (n & -> & _)%list_elem_of_fmap. rewrite itemNames_child. rewrite <- (app_nil_r (itemNames j)). by apply before_app.
Qed.

Lemma children_aligned i j cs ds : itemNames i = itemNames j -> aligned (childItems i cs) (childItems j ds).
Proof.
  intros E c d (n & -> & _)%list_elem_of_fmap (m & -> & _)%list_elem_of_fmap. unfold apart. rewrite !itemNames_child, E.
  destruct (Z.lt_total (compareBytes (node_Name n) (node_Name m)) 0) as [H|[H|H]].
  - right. left. by apply before_prefix.
  - left. by apply compareBytes_eq in H as ->.
  - right. right. apply before_prefix. unfold ltName. rewrite compareBytes_antisym. lia.
Qed.

Lemma aligned_step i j l1 l2 cs ds :
  ordered (i :: l1) -> ordered (j :: l2) -> aligned (i :: l1) (j :: l2) -> itemNames i = itemNames j ->
  aligned (childItems i cs ++ l1) (childItems j ds ++ l2).
Proof.
  intros Ho1 Ho2 Ha E. inversion_clear Ho1 as [|? ? _ Hall1]. inversion_clear Ho2 as [|? ? _ Hall2].
  rewrite Forall_forall in Hall1, Hall2.
  intros c d [Hc|Hc]%elem_of_app [Hd|Hd]%elem_of_app.
  - by apply (children_aligned i j cs ds E).
  - right. left. eapply before_children; [|done]. rewrite E. by apply Hall2.
  - right. right. eapply before_children; [|done]. rewrite <- E. by apply Hall1.
  - apply Ha; set_solver.
Qed.
Section Order.
Context (sortByName : list Noder -> list Noder).
Hypothesis Hperm : forall l, sortByName l ≡ₚ l.
Hypothesis Hsort : forall l, StronglySorted (fun n m => compareBytes (node_Name n) (node_Name m) <= 0) (sortByName l).

Lemma sorted_children i cs : NoDup (map node_Name cs) -> ordered (childItems i (sortByName cs)).
Proof.
  intros Hnd. assert (NoDup (map node_Name (sortByName cs))) as Hnd'.
  { by rewrite (Permutation_map node_Name (Hperm cs)). }
  pose proof (Hsort cs) as Hs. revert Hnd' Hs. generalize (sortByName cs). clear. intros l Hnd Hs. unfold ordered, childItems.
  induction Hs as [|n l Hs IH Hall]; [constructor|]. cbn in *. apply NoDup_cons in Hnd as [Hn Hnd].
  constructor; [by apply IH|]. apply Forall_map, Forall_forall. intros m Hm. rewrite Forall_forall in Hall. specialize (Hall m Hm).
  rewrite !itemNames_child. apply before_prefix. unfold ltName.
  destruct (Z.eq_dec (compareBytes (node_Name n) (node_Name m)) 0) as [E|]; [|lia].
  apply compareBytes_eq in E. exfalso. apply Hn. rewrite E. by apply list_elem_of_fmap_2.
Qed.

Lemma ordered_step i l cs : ordered (i :: l) -> NoDup (map node_Name cs) -> ordered (childItems i (sortByName cs) ++ l).
Proof.
  intros Ho Hnd. inversion_clear Ho as [|? ? Ho' Hall]. apply StronglySorted_app_2; [|by apply sorted_children|done].
  intros c j Hc Hj. eapply before_children; [|done]. by eapply Forall_forall in Hall.
Qed.

End Order.

Section Diff.
Context (sortByName : list Noder -> list Noder) (hashEqual : bytes -> bytes -> bool) (from to : Noder).
Hypothesis Hperm : forall l, sortByName l ≡ₚ l.
Hypothesis Hsort : forall l, StronglySorted (fun n m => compareBytes (node_Name n) (node_Name m) <= 0) (sortByName l).

(** Nodes with the same files, each with an equal hash. *)
Definition sameFiles (n m : Noder) : Prop :=
  map names (leaves n) ≡ₚ map names (leaves m) /\
  forall p q, p ∈ leaves n -> q ∈ leaves m -> names p = names q -> hashEqual (hashOf p) (hashOf q) = true.

(** What hashes of a Merkle trie are for. *)
Definition merkle : Prop := forall n m, within from n -> within to m -> node_Name n = node_Name m ->
  hashEqual (node_Hash n) (node_Hash m) = true -> sameFiles n m.
Hypothesis Hmerkle : merkle.

(** ** Both iterators *)
Definition headPath (l : list item) : option (list Noder) := match l with [] => None | i :: _ => Some (itemPath i) end.
Definition side (it : Iter) (c : option (list Noder)) (l : list item) : Prop :=
  c = headPath l /\ (l <> [] -> iterates it l).
Definition stands (d : doubleIter) (l1 l2 : list item) : Prop :=
  side (dFrom d) (curFrom d) l1 /\ side (dTo d) (curTo d) l2.

Lemma moved_first l : moved (firstPath l) = Ok (headPath l).
Proof. destruct l; cbn; [|done]. by rewrite bool_decide_eq_true_2. Qed.

Lemma side_advance (wantDescend : bool) it c i l cs : side it c (i :: l) -> node_Children i.2 = Ok cs ->
  let l' := if wantDescend then childItems i (sortByName cs) ++ l else l in
  exists it', advance sortByName wantDescend it = (firstPath l', it') /\ side it' (headPath l') l'.
Proof.
  intros [_ Hit] Hcs l'. destruct (advance_started sortByName Hperm wantDescend it i l cs (Hit ltac:(done)) Hcs) as (it' & E & Hit').
  exists it'. split; [exact E|]. split; [done|]. intros _. exact Hit'.
Qed.

Lemma nextFrom_stands d i l1 l2 : stands d (i :: l1) l2 -> trie i.2 -> exists d', nextFrom sortByName d = Ok d' /\ stands d' l1 l2.
Proof.
  intros [H1 H2] (cs & Hcs & _)%trie_inv. destruct (side_advance false _ _ _ _ _ H1 Hcs) as (it' & E & Hs).
  unfold nextFrom, Iter_Next. rewrite E, moved_first. cbn [res_bind]. eexists. by split; [done|split].
Qed.
Lemma nextTo_stands d l1 j l2 : stands d l1 (j :: l2) -> trie j.2 -> exists d', nextTo sortByName d = Ok d' /\ stands d' l1 l2.
Proof.
  intros [H1 H2] (cs & Hcs & _)%trie_inv. destruct (side_advance false _ _ _ _ _ H2 Hcs) as (it' & E & Hs).
  unfold nextTo, Iter_Next. rewrite E, moved_first. cbn [res_bind]. eexists. by split; [done|split].
Qed.
Lemma nextBoth_stands d i l1 j l2 : stands d (i :: l1) (j :: l2) -> trie i.2 -> trie j.2 ->
  exists d', nextBoth sortByName d = Ok d' /\ stands d' l1 l2.
Proof.
  intros H Hi Hj. destruct (nextFrom_stands _ _ _ _ H Hi) as (d1 & E1 & H1). destruct (nextTo_stands _ _ _ _ H1 Hj) as (d2 & E2 & H2).
  exists d2. unfold nextBoth. rewrite E1. by split.
Qed.
Lemma stepBoth_stands d i l1 j l2 cs ds : stands d (i :: l1) (j :: l2) -> node_Children i.2 = Ok cs -> node_Children j.2 = Ok ds ->
  exists d', stepBoth sortByName d = Ok d' /\ stands d' (childItems i (sortByName cs) ++ l1) (childItems j (sortByName ds) ++ l2).
Proof.
  intros [H1 H2] Hcs Hds. destruct (side_advance true _ _ _ _ _ H1 Hcs) as (it1 & E1 & Hs1).
  destruct (side_advance true _ _ _ _ _ H2 Hds) as (it2 & E2 & Hs2).
  unfold stepBoth, Iter_Step. rewrite E1, moved_first. cbn [res_bind]. rewrite E2, moved_first. cbn [res_bind]. eexists. by split; [done|split].
Qed.

(** ** The invariant of the loop *)
Record good (l1 l2 : list item) : Prop := {
  g_from : Forall (fun i => trie i.2 /\ within from i.2) l1;
  g_to : Forall (fun j => trie j.2 /\ within to j.2) l2;
  g_ord1 : ordered l1;
  g_ord2 : ordered l2;
  g_aligned : aligned l1 l2 }.

Lemma good_tail_l i l1 l2 : good (i :: l1) l2 -> good l1 l2.
Proof.
  intros [H1 H2 H3 H4 H5]. split; [by inversion H1|done|by inversion H3|done|]. intros a b Ha Hb. apply H5; set_solver.
Qed.
Lemma good_tail_r l1 j l2 : good l1 (j :: l2) -> good l1 l2.
Proof.
  intros [H1 H2 H3 H4 H5]. split; [done|by inversion H2|done|by inversion H4|]. intros a b Ha Hb. apply H5; set_solver.
Qed.

Lemma good_head_l i l1 l2 : good (i :: l1) l2 -> trie i.2 /\ within from i.2 /\ (forall k, k ∈ l1 -> before (itemNames i) (itemNames k)).
Proof.
  intros [H1 _ H3 _ _]. inversion_clear H1 as [|? ? [? ?]]. inversion_clear H3 as [|? ? _ Hall]. rewrite Forall_forall in Hall. auto.
Qed.
Lemma good_head_r l1 j l2 : good l1 (j :: l2) -> trie j.2 /\ within to j.2 /\ (forall k, k ∈ l2 -> before (itemNames j) (itemNames k)).
Proof.
  intros [_ H2 _ H4 _]. inversion_clear H2 as [|? ? [? ?]]. inversion_clear H4 as [|? ? _ Hall]. rewrite Forall_forall in Hall. auto.
Qed.

Lemma within_children root i cs : within root i.2 -> Forall trie cs -> node_Children i.2 = Ok cs ->
  Forall (fun c : item => trie c.2 /\ within root c.2) (childItems i (sortByName cs)).
Proof.
  intros Hw Ht Hcs. apply Forall_map. rewrite Hperm. apply Forall_forall. intros n Hn. cbn.
  split; [by eapply Forall_forall in Ht|by eapply within_below].
Qed.

Lemma good_step i l1 j l2 cs ds : good (i :: l1) (j :: l2) -> itemNames i = itemNames j ->
  node_Children i.2 = Ok cs -> node_Children j.2 = Ok ds ->
  good (childItems i (sortByName cs) ++ l1) (childItems j (sortByName ds) ++ l2).
Proof.
  intros Hg E Hcs Hds. destruct (good_head_l _ _ _ Hg) as (Hi & Hwi & _), (good_head_r _ _ _ Hg) as (Hj & Hwj & _).
  destruct (trie_inv _ Hi) as (cs' & Hcs' & _ & _ & Hn1 & Ht1 & _). rewrite Hcs in Hcs'. injection Hcs' as <-.
  destruct (trie_inv _ Hj) as (ds' & Hds' & _ & _ & Hn2 & Ht2 & _). rewrite Hds in Hds'. injection Hds' as <-.
  destruct Hg as [H1 H2 H3 H4 H5]. split.
  - apply Forall_app. split; [by apply within_children|by inversion H1].
  - apply Forall_app. split; [by apply within_children|by inversion H2].
  - by apply ordered_step.
  - by apply ordered_step.
  - by apply aligned_step.
Qed.

Definition spec (l1 l2 : list item) : list Change := changesBetween hashEqual (itemsFiles l1) (itemsFiles l2).

(** A round that adds what it takes off. *)
Definition progress (acc : list Change) (l1 l2 : list item) (r : res (list Change * doubleIter)) : Prop :=
  exists cs d l1' l2', r = Ok (acc ++ cs, d) /\ stands d l1' l2' /\ good l1' l2' /\
    (itemsNodes l1' + itemsNodes l2' < itemsNodes l1 + itemsNodes l2)%nat /\ spec l1 l2 ≡ₚ cs ++ spec l1' l2'.

Lemma nodes_pos n : (0 < nodes n)%nat.
Proof. destruct n as [? ? ? ? [ | | | ]]; cbn; lia. Qed.

Context (walk : nat).

Lemma round_delete acc d i l1 l2 :
  good (i :: l1) l2 -> stands d (i :: l1) l2 -> (forall j, j ∈ l2 -> apart i j) -> (itemsNodes (i :: l1) <= walk)%nat ->
  progress acc (i :: l1) l2 (let* changes := AddRecursiveDelete sortByName walk acc (itemPath i) in
                             let* ii := nextFrom sortByName d in Ok (changes, ii)).
Proof.
  intros Hg Hs Hap Hw. destruct (good_head_l _ _ _ Hg) as (Hi & _ & _). change (itemsNodes (i :: l1)) with (nodes i.2 + itemsNodes l1)%nat in *.
  destruct (addRecursive_ok sortByName Hperm NewDelete walk i acc Hi ltac:(lia)) as (ps & E & Hps).
  destruct (nextFrom_stands _ _ _ _ Hs Hi) as (d' & En & Hs'). unfold AddRecursiveDelete. rewrite E. cbn [res_bind]. rewrite En.
  exists (map NewDelete ps), d', l1, l2. split; [done|]. split; [done|]. split; [by eapply good_tail_l|].
  change (itemsNodes (i :: l1)) with (nodes i.2 + itemsNodes l1)%nat. split; [pose proof (nodes_pos i.2); lia|].
  unfold spec. change (itemsFiles (i :: l1)) with (itemFiles i ++ itemsFiles l1). change (itemsFiles l2) with ([] ++ itemsFiles l2) at 1.
  rewrite changes_split, changes_deleted, Hps; [done| |intros ? ? []%elem_of_nil].
  pose proof (apart_files [i] l2) as Ha. cbn in Ha. rewrite app_nil_r in Ha. apply Ha. intros ? j ->%list_elem_of_singleton. apply Hap.
Qed.

Lemma round_insert acc d l1 j l2 :
  good l1 (j :: l2) -> stands d l1 (j :: l2) -> (forall i, i ∈ l1 -> apart j i) -> (itemsNodes (j :: l2) <= walk)%nat ->
  progress acc l1 (j :: l2) (let* changes := AddRecursiveInsert sortByName walk acc (itemPath j) in
                             let* ii := nextTo sortByName d in Ok (changes, ii)).
Proof.
  intros Hg Hs Hap Hw. destruct (good_head_r _ _ _ Hg) as (Hj & _ & _). change (itemsNodes (j :: l2)) with (nodes j.2 + itemsNodes l2)%nat in *.
  destruct (addRecursive_ok sortByName Hperm NewInsert walk j acc Hj ltac:(lia)) as (ps & E & Hps).
  destruct (nextTo_stands _ _ _ _ Hs Hj) as (d' & En & Hs'). unfold AddRecursiveInsert. rewrite E. cbn [res_bind]. rewrite En.
  exists (map NewInsert ps), d', l1, l2. split; [done|]. split; [done|]. split; [by eapply good_tail_r|].
  change (itemsNodes (j :: l2)) with (nodes j.2 + itemsNodes l2)%nat. split; [pose proof (nodes_pos j.2); lia|].
  unfold spec. change (itemsFiles (j :: l2)) with (itemFiles j ++ itemsFiles l2). change (itemsFiles l1) with ([] ++ itemsFiles l1) at 1.
  rewrite changes_split, changes_inserted, Hps; [done|intros ? ? []%elem_of_nil|].
  pose proof (apart_files [j] l1) as Ha. cbn in Ha. rewrite app_nil_r in Ha. apply Ha. intros ? i ->%list_elem_of_singleton. apply Hap.
Qed.

(** The current nodes are at the same path: the rest of both tries is apart from them. *)
Lemma spec_same i l1 j l2 : good (i :: l1) (j :: l2) -> itemNames i = itemNames j ->
  spec (i :: l1) (j :: l2) ≡ₚ changesBetween hashEqual (itemFiles i) (itemFiles j) ++ spec l1 l2.
Proof.
  intros Hg E. destruct (good_head_l _ _ _ Hg) as (_ & _ & H1), (good_head_r _ _ _ Hg) as (_ & _ & H2).
  unfold spec. change (itemsFiles (i :: l1)) with (itemFiles i ++ itemsFiles l1). change (itemsFiles (j :: l2)) with (itemFiles j ++ itemsFiles l2).
  apply changes_split.
  - pose proof (apart_files [i] l2) as Ha. cbn in Ha. rewrite app_nil_r in Ha. apply Ha. intros ? k ->%list_elem_of_singleton Hk.
    left. rewrite E. by apply H2.
  - pose proof (apart_files [j] l1) as Ha. cbn in Ha. rewrite app_nil_r in Ha. apply Ha. intros ? k ->%list_elem_of_singleton Hk.
    left. rewrite <- E. by apply H1.
Qed.

Lemma round_both acc d i l1 j l2 cs :
  good (i :: l1) (j :: l2) -> stands d (i :: l1) (j :: l2) -> itemNames i = itemNames j ->
  changesBetween hashEqual (itemFiles i) (itemFiles j) ≡ₚ cs ->
  progress acc (i :: l1) (j :: l2) (let* ii := nextBoth sortByName d in Ok (acc ++ cs, ii)).
Proof.
  intros Hg Hs E Hcs. destruct (good_head_l _ _ _ Hg) as (Hi & _ & _), (good_head_r _ _ _ Hg) as (Hj & _ & _).
  destruct (nextBoth_stands _ _ _ _ _ Hs Hi Hj) as (d' & En & Hs'). rewrite En.
  exists cs, d', l1, l2. split; [done|]. split; [done|]. split; [by eapply good_tail_r, good_tail_l|]. split.
  - change (itemsNodes (i :: l1)) with (nodes i.2 + itemsNodes l1)%nat. change (itemsNodes (j :: l2)) with (nodes j.2 + itemsNodes l2)%nat.
    pose proof (nodes_pos i.2). lia.
  - by rewrite spec_same, Hcs.
Qed.

(** *** Nodes at the same path *)
Lemma itemNames_eq i j : itemNames i = itemNames j -> names i.1 = names j.1 /\ node_Name i.2 = node_Name j.2.
Proof. unfold itemNames, itemPath, names. rewrite !map_app. cbn. intros E. by apply app_inj_tail in E. Qed.

Lemma names_app p q : names (p ++ q) = names p ++ names q.
Proof. apply map_app. Qed.

Lemma hashOf_leaf b n p : p ∈ leaves n -> hashOf (b ++ p) = hashOf p.
Proof. intros (p' & ->)%leaves_head. unfold hashOf. by rewrite last_app_cons. Qed.
Lemma hashOf_item i : hashOf (itemPath i) = node_Hash i.2.
Proof. unfold hashOf, itemPath. by rewrite last_snoc. Qed.

Lemma filter_none {A} (P : A -> Prop) `{!forall x, Decision (P x)} l : (forall x, x ∈ l -> ~ P x) -> filter P l = [].
Proof. induction l as [|x l IH]; [done|]. intros HP. rewrite filter_cons_False by (apply HP; set_solver). apply IH. intros; apply HP; set_solver. Qed.

Lemma flat_map_none {A B} (f : A -> list B) l : (forall x, x ∈ l -> f x = []) -> flat_map f l = [].
Proof. induction l as [|x l IH]; [done|]. intros H. cbn. rewrite H by set_solver. apply IH. intros; apply H; set_solver. Qed.

(** Nodes with the same files at the same path: nothing changes. *)
Lemma sameFiles_changes i j : sameFiles i.2 j.2 -> names i.1 = names j.1 ->
  changesBetween hashEqual (itemFiles i) (itemFiles j) = [].
Proof.
  intros [Hn Hh] E.
  assert (map names (itemFiles i) ≡ₚ map names (itemFiles j)) as Hall.
  { unfold itemFiles. rewrite !map_map.
    assert (forall b n, map (fun x => names (b ++ x)) (leaves n) = map (app (names b)) (map names (leaves n))) as Hm.
    { intros b n. rewrite map_map. apply map_ext. apply names_app. }
    by rewrite !Hm, Hn, E. }
  unfold changesBetween.
  rewrite filter_none by (intros p Hp Hx; apply Hx; rewrite <- Hall; by apply list_elem_of_fmap_2).
  rewrite filter_none by (intros p Hp Hx; apply Hx; rewrite Hall; by apply list_elem_of_fmap_2). cbn [map app].
  apply flat_map_none. intros p (p' & -> & Hp)%list_elem_of_fmap. unfold modifies.
  apply flat_map_none. intros q (q' & -> & Hq)%list_elem_of_fmap.
  destruct (decide (names (i.1 ++ p') = names (j.1 ++ q'))) as [En|En]; [|by rewrite bool_decide_eq_false_2].
  rewrite bool_decide_eq_true_2 by done. rewrite (hashOf_leaf _ _ _ Hp), (hashOf_leaf _ _ _ Hq).
  rewrite Hh; [done..|]. rewrite !names_app, E in En. by apply app_inv_head in En.
Qed.

Lemma file_files i : trie i.2 -> node_IsDir i.2 = false -> itemFiles i = [itemPath i].
Proof.
  intros Hi Hd. destruct (trie_inv _ Hi) as (cs & Hcs & _ & _ & _ & _ & Hf). destruct (itemFiles_split i cs Hi Hcs) as [-> _].
  by rewrite Hd, Hf.
Qed.
Lemma dir_files i cs : trie i.2 -> node_IsDir i.2 = true -> node_Children i.2 = Ok cs -> itemFiles i = itemsFiles (childItems i cs).
Proof. intros Hi Hd Hcs. destruct (itemFiles_split i cs Hi Hcs) as [-> _]. by rewrite Hd. Qed.

Lemma dir_files_longer i p : trie i.2 -> node_IsDir i.2 = true -> p ∈ itemFiles i -> names p <> itemNames i.
Proof.
  intros Hi Hd Hp. destruct (trie_inv _ Hi) as (cs & Hcs & _). rewrite (dir_files i cs Hi Hd Hcs) in Hp.
  apply itemsFiles_elem in Hp as (c & (n & -> & _)%list_elem_of_fmap & (x & ->)%itemFiles_names).
  rewrite itemNames_child, <- app_assoc. intros E. rewrite <- (app_nil_r (itemNames i)) in E at 2. by apply app_inv_head in E.
Qed.

Lemma file_dir_apart i j : trie i.2 -> trie j.2 -> itemNames i = itemNames j -> node_IsDir i.2 <> node_IsDir j.2 ->
  apartNames (itemFiles i) (itemFiles j).
Proof.
  intros Hi Hj E Hd p q Hp Hq En. destruct (node_IsDir i.2) eqn:Di, (node_IsDir j.2) eqn:Dj; try done.
  - rewrite (file_files j Hj Dj) in Hq. apply list_elem_of_singleton in Hq as ->.
    apply (dir_files_longer i p Hi Di Hp). by rewrite En, E.
  - rewrite (file_files i Hi Di) in Hp. apply list_elem_of_singleton in Hp as ->.
    apply (dir_files_longer j q Hj Dj Hq). by rewrite <- En, <- E.
Qed.

Lemma changes_apart A B : apartNames A B -> changesBetween hashEqual A B ≡ₚ map NewDelete A ++ map NewInsert B.
Proof.
  intros H. rewrite <- (app_nil_r A) at 1. change B with ([] ++ B) at 1.
  rewrite changes_split, changes_deleted, changes_inserted; [done|done|]. intros ? ? []%elem_of_nil.
Qed.

Lemma changes_pair p q : names p = names q -> hashEqual (hashOf p) (hashOf q) = false -> changesBetween hashEqual [p] [q] = [NewModify p q].
Proof.
  intros E Hh. unfold changesBetween. rewrite !filter_none; [|intros ? ->%list_elem_of_singleton Hx; apply Hx; set_solver..].
  cbn. rewrite bool_decide_eq_true_2 by done. by rewrite Hh.
Qed.

Lemma double_compare_ok i j cs ds : node_Children i.2 = Ok cs -> node_Children j.2 = Ok ds ->
  double_compare hashEqual (itemPath i) (itemPath j) =
  let di := node_IsDir i.2 in let dj := node_IsDir j.2 in
  Ok (mkComparison (hashEqual (node_Hash i.2) (node_Hash j.2)) (negb di && negb dj)
        (negb (di && dj) && negb (negb di && negb dj)) (di && dj) (di && (len cs =? 0)) (dj && (len ds =? 0))).
Proof.
  intros Hcs Hds. unfold double_compare. rewrite !path_Hash_item, !path_IsDir_item, !path_NumChildren_item.
  unfold node_NumChildren. by rewrite Hcs, Hds.
Qed.

Lemma len_zero {A} (l : list A) : (len l =? 0) = bool_decide (l = []).
Proof. by destruct l. Qed.

(** Directories that both have children: the same files are left. *)
Lemma round_step acc d i l1 j l2 cs ds :
  good (i :: l1) (j :: l2) -> stands d (i :: l1) (j :: l2) -> itemNames i = itemNames j ->
  node_IsDir i.2 = true -> node_IsDir j.2 = true -> node_Children i.2 = Ok cs -> node_Children j.2 = Ok ds ->
  progress acc (i :: l1) (j :: l2) (let* ii := stepBoth sortByName d in Ok (acc, ii)).
Proof.
  intros Hg Hs E Di Dj Hcs Hds. destruct (good_head_l _ _ _ Hg) as (Hi & _ & _), (good_head_r _ _ _ Hg) as (Hj & _ & _).
  destruct (stepBoth_stands _ _ _ _ _ _ _ Hs Hcs Hds) as (d' & En & Hs'). rewrite En. cbn [res_bind].
  exists [], d'; eexists _, _. rewrite app_nil_r. split; [done|]. split; [exact Hs'|]. split; [by apply good_step|].
  destruct (itemFiles_split i cs Hi Hcs) as [_ N1], (itemFiles_split j ds Hj Hds) as [_ N2].
  change (itemsNodes (i :: l1)) with (nodes i.2 + itemsNodes l1)%nat. change (itemsNodes (j :: l2)) with (nodes j.2 + itemsNodes l2)%nat.
  split; [rewrite !itemsNodes_app, (childItems_perm i (sortByName cs) cs), (childItems_perm j (sortByName ds) ds) by apply Hperm; lia|].
  unfold spec. cbn [app]. rewrite !itemsFiles_app, (childItems_perm i (sortByName cs) cs), (childItems_perm j (sortByName ds) ds) by apply Hperm.
  change (itemsFiles (i :: l1)) with (itemFiles i ++ itemsFiles l1). change (itemsFiles (j :: l2)) with (itemFiles j ++ itemsFiles l2).
  by rewrite (dir_files i cs Hi Di Hcs), (dir_files j ds Hj Dj Hds).
Qed.

Lemma empty_dir_files i : trie i.2 -> node_IsDir i.2 = true -> node_Children i.2 = Ok [] -> itemFiles i = [].
Proof. intros Hi Hd Hcs. by rewrite (dir_files i [] Hi Hd Hcs). Qed.

Lemma round_dirs acc d i l1 j l2 :
  good (i :: l1) (j :: l2) -> stands d (i :: l1) (j :: l2) -> itemNames i = itemNames j ->
  node_IsDir i.2 = true -> node_IsDir j.2 = true -> (itemsNodes (i :: l1) <= walk)%nat -> (itemsNodes (j :: l2) <= walk)%nat ->
  progress acc (i :: l1) (j :: l2) (diffDirs sortByName hashEqual walk acc d (itemPath i) (itemPath j)).
Proof.
  intros Hg Hs E Di Dj W1 W2. destruct (good_head_l _ _ _ Hg) as (Hi & _ & _), (good_head_r _ _ _ Hg) as (Hj & _ & _).
  destruct (trie_inv _ Hi) as (cs & Hcs & _), (trie_inv _ Hj) as (ds & Hds & _).
  change (itemsNodes (i :: l1)) with (nodes i.2 + itemsNodes l1)%nat in W1. change (itemsNodes (j :: l2)) with (nodes j.2 + itemsNodes l2)%nat in W2.
  unfold diffDirs. rewrite (double_compare_ok i j cs ds Hcs Hds). cbn [res_bind fromIsEmptyDir toIsEmptyDir]. rewrite Di, Dj, !len_zero. cbn [andb].
  destruct (decide (cs = [])) as [->|Hn1]; [|destruct (decide (ds = [])) as [->|Hn2]].
  - rewrite bool_decide_eq_true_2 by done. destruct (addRecursive_ok sortByName Hperm NewInsert walk j acc Hj ltac:(lia)) as (ps & Ea & Hps).
    unfold AddRecursiveInsert. rewrite Ea. cbn [res_bind]. apply round_both; try done.
    by rewrite (empty_dir_files i Hi Di Hcs), changes_inserted, Hps.
  - rewrite bool_decide_eq_false_2, bool_decide_eq_true_2 by done.
    destruct (addRecursive_ok sortByName Hperm NewDelete walk i acc Hi ltac:(lia)) as (ps & Ea & Hps).
    unfold AddRecursiveDelete. rewrite Ea. cbn [res_bind]. apply round_both; try done.
    by rewrite (empty_dir_files j Hj Dj Hds), changes_deleted, Hps.
  - rewrite !bool_decide_eq_false_2 by done. by apply (round_step acc d i l1 j l2 cs ds).
Qed.

Lemma round_same acc d i l1 j l2 :
  good (i :: l1) (j :: l2) -> stands d (i :: l1) (j :: l2) -> itemNames i = itemNames j ->
  (itemsNodes (i :: l1) <= walk)%nat -> (itemsNodes (j :: l2) <= walk)%nat ->
  progress acc (i :: l1) (j :: l2) (diffNodesSameName sortByName hashEqual walk acc d (itemPath i) (itemPath j)).
Proof.
  intros Hg Hs E W1 W2. destruct (good_head_l _ _ _ Hg) as (Hi & Hwi & _), (good_head_r _ _ _ Hg) as (Hj & Hwj & _).
  destruct (trie_inv _ Hi) as (cs & Hcs & _), (trie_inv _ Hj) as (ds & Hds & _). destruct (itemNames_eq _ _ E) as [E1 E2].
  unfold diffNodesSameName. rewrite (double_compare_ok i j cs ds Hcs Hds). cbn [res_bind sameHash bothAreFiles fileAndDir].
  destruct (hashEqual (node_Hash i.2) (node_Hash j.2)) eqn:Hh.
  { pose proof (round_both acc d i l1 j l2 []) as Hr. rewrite app_nil_r in Hr. apply Hr; try done. by rewrite sameFiles_changes; [|apply Hmerkle|]. }
  destruct (decide (node_IsDir i.2 = node_IsDir j.2)) as [Hd|Hd]; [destruct (node_IsDir j.2) eqn:Dj|]; try rewrite Hd; cbn [negb andb].
  - by apply round_dirs.
  - apply round_both; try done. rewrite (file_files i Hi Hd), (file_files j Hj Dj). rewrite changes_pair; [done|done|by rewrite !hashOf_item].
  - assert (negb (node_IsDir i.2) && negb (node_IsDir j.2) = false) as -> by by destruct (node_IsDir i.2), (node_IsDir j.2).
    assert (negb (node_IsDir i.2 && node_IsDir j.2) && negb false = true) as -> by by destruct (node_IsDir i.2), (node_IsDir j.2).
    change (itemsNodes (i :: l1)) with (nodes i.2 + itemsNodes l1)%nat in W1. change (itemsNodes (j :: l2)) with (nodes j.2 + itemsNodes l2)%nat in W2.
    destruct (addRecursive_ok sortByName Hperm NewDelete walk i acc Hi ltac:(lia)) as (ps & Ea & Hps).
    unfold AddRecursiveDelete, AddRecursiveInsert. rewrite Ea. cbn [res_bind].
    destruct (addRecursive_ok sortByName Hperm NewInsert walk j (acc ++ map NewDelete ps) Hj ltac:(lia)) as (qs & Eb & Hqs).
    rewrite Eb. cbn [res_bind]. rewrite <- app_assoc. apply round_both; try done.
    by rewrite changes_apart, Hps, Hqs by by apply file_dir_apart.
Qed.
End Diff.

Section Loop.
Context (sortByName : list Noder -> list Noder) (hashEqual : bytes -> bytes -> bool) (from to : Noder).
Hypothesis Hperm : forall l, sortByName l ≡ₚ l.
Hypothesis Hsort : forall l, StronglySorted (fun n m => compareBytes (node_Name n) (node_Name m) <= 0) (sortByName l).
Hypothesis Hmerkle : merkle hashEqual from to.
Context (walk : nat).

Notation good := (good from to).
Notation progress := (progress hashEqual from to).
Notation spec := (spec hashEqual).

Lemma itemsNodes_cons i l : itemsNodes (i :: l) = (nodes i.2 + itemsNodes l)%nat.
Proof. done. Qed.

Lemma trie_skip n : trie n -> node_Skip n = false.
Proof. by intros []. Qed.

(** A round of the loop makes progress. *)
Lemma diffRound_progress acc d l1 l2 : good l1 l2 -> stands d l1 l2 -> (itemsNodes l1 <= walk)%nat -> (itemsNodes l2 <= walk)%nat ->
  match l1, l2 with
  | [], [] => diffRound sortByName hashEqual walk acc d = None
  | _, _ => exists r, diffRound sortByName hashEqual walk acc d = Some r /\ progress acc l1 l2 r
  end.
Proof.
  intros Hg Hs W1 W2. pose proof Hs as [[E1 _] [E2 _]]. unfold diffRound. rewrite E1, E2.
  destruct l1 as [|i l1], l2 as [|j l2]; cbn [headPath].
  - done.
  - destruct (good_head_r _ _ _ _ _ Hg) as (Hj & _ & _). eexists. split; [done|]. rewrite path_Skip_item, (trie_skip _ Hj). cbn [res_bind negb].
    apply round_insert; try done. intros ? []%elem_of_nil.
  - destruct (good_head_l _ _ _ _ _ Hg) as (Hi & _ & _). eexists. split; [done|]. rewrite path_Skip_item, (trie_skip _ Hi). cbn [res_bind negb].
    apply round_delete; try done. intros ? []%elem_of_nil.
  - destruct (good_head_l _ _ _ _ _ Hg) as (Hi & _ & B1), (good_head_r _ _ _ _ _ Hg) as (Hj & _ & B2). eexists. split; [done|].
    rewrite !path_Skip_item, !path_Name_item, (trie_skip _ Hi), (trie_skip _ Hj). cbn [res_bind]. unfold diffNodes.
    destruct (g_aligned _ _ _ _ Hg i j) as [E|[E|E]]; [set_solver..| | |].
    + rewrite (path_Compare_same _ _ E). cbn. by apply round_same.
    + rewrite (proj1 (path_Compare_before _ _ E)). cbn. apply round_delete; try done.
      intros k [->|Hk]%elem_of_cons; left; [done|]. eapply before_trans; [done|by apply B2].
    + rewrite (proj2 (path_Compare_before _ _ E)). cbn. apply round_insert; try done.
      intros k [->|Hk]%elem_of_cons; left; [done|]. eapply before_trans; [done|by apply B1].
Qed.

Lemma diff_loop_ok fuel acc d l1 l2 : good l1 l2 -> stands d l1 l2 ->
  (itemsNodes l1 + itemsNodes l2 < fuel)%nat -> (itemsNodes l1 + itemsNodes l2 <= walk)%nat ->
  exists cs, diff_loop sortByName hashEqual walk fuel acc d = Ok (acc ++ cs) /\ cs ≡ₚ spec l1 l2.
Proof.
  revert acc d l1 l2. induction fuel as [|fuel IH]; intros acc d l1 l2 Hg Hs Hf Hw; [lia|].
  pose proof (diffRound_progress acc d l1 l2 Hg Hs ltac:(lia) ltac:(lia)) as Hr. cbn [diff_loop].
  assert ((l1 = [] /\ l2 = [] /\ diffRound sortByName hashEqual walk acc d = None) \/
    exists r, diffRound sortByName hashEqual walk acc d = Some r /\ progress acc l1 l2 r) as [(-> & -> & E)|(r & E & Hp)].
  { destruct l1, l2; auto. }
  { rewrite E. exists []. by rewrite app_nil_r. }
  rewrite E. destruct Hp as (cs & d' & l1' & l2' & -> & Hs' & Hg' & Hn & Hspec). cbn [res_bind].
  destruct (IH (acc ++ cs) d' l1' l2' Hg' Hs' ltac:(lia) ltac:(lia)) as (cs' & E' & Hcs').
  exists (cs ++ cs'). split; [by rewrite E', app_assoc|]. by rewrite Hspec, Hcs'.
Qed.

(** ** The start *)
Definition rootItems (cs : list Noder) : list item := map (pair []) cs.

Lemma rootItems_files cs : itemsFiles (rootItems cs) = flat_map leaves cs.
Proof.
  unfold itemsFiles, rootItems, itemFiles. induction cs as [|n cs IH]; [done|]. cbn [map flat_map]. rewrite IH. f_equal.
  cbn. apply map_id.
Qed.

Lemma rootItems_aligned cs ds : aligned (rootItems cs) (rootItems ds).
Proof.
  intros c d (n & -> & _)%list_elem_of_fmap (m & -> & _)%list_elem_of_fmap. unfold apart, itemNames, itemPath. cbn [fst snd app names map].
  destruct (Z.lt_total (compareBytes (node_Name n) (node_Name m)) 0) as [H|[H|H]].
  - right. left. by apply (before_prefix []).
  - left. by apply compareBytes_eq in H as ->.
  - right. right. apply (before_prefix []). unfold ltName. rewrite compareBytes_antisym. lia.
Qed.

Lemma rootItems_ordered cs : NoDup (map node_Name cs) -> ordered (rootItems (sortByName cs)).
Proof.
  intros Hnd. pose (root := mkNode [] [] true false (Ok [])). pose proof (sorted_children sortByName Hperm Hsort ([], root) cs Hnd) as H.
  unfold ordered, childItems, rootItems in *. revert H. generalize (sortByName cs). clear. intros l. induction l as [|n l IH]; [constructor|].
  cbn. intros H. inversion_clear H as [|? ? H1 H2]. constructor; [by apply IH|]. rewrite Forall_map in *. eapply Forall_impl; [exact H2|].
  intros m. cbn. intros [H|[_ H]]; [|done]. unfold ltName in H. rewrite compareBytes_refl in H. lia.
Qed.

Lemma newIter_first root cs : node_Children root = Ok cs ->
  exists it it', NewIter sortByName root = Ok it /\ Iter_Next sortByName it = (firstPath (rootItems (sortByName cs)), it') /\
    side it' (headPath (rootItems (sortByName cs))) (rootItems (sortByName cs)).
Proof.
  intros Hcs. unfold NewIter, newIter, frame_New. rewrite Hcs. cbn [res_bind]. eexists.
  destruct (advance_first sortByName Hperm false [] cs) as (it' & E & Hit). exists it'. split; [done|]. split; [exact E|]. split; [done|].
  intros Hn. apply Hit. intros ->. apply Hn. by rewrite (proj2 (sortByName_nil sortByName Hperm []) eq_refl).
Qed.

Lemma rootItems_within root cs : node_Children root = Ok cs -> Forall trie cs ->
  Forall (fun i : item => trie i.2 /\ within root i.2) (rootItems (sortByName cs)).
Proof.
  intros Hcs Ht. apply Forall_map. rewrite Hperm. apply Forall_forall. intros n Hn. cbn.
  split; [by eapply Forall_forall in Ht|by eapply within_child].
Qed.

Lemma rootItems_nodes root cs : node_Children root = Ok cs -> nodes root = S (itemsNodes (rootItems (sortByName cs))).
Proof.
  destruct root as [? ? ? ? ?]. cbn. intros ->. f_equal. unfold rootItems. rewrite (Permutation_map (pair []) (Hperm cs)).
  unfold itemsNodes. by rewrite map_map.
Qed.

Lemma DiffTree_ok : trieRoot from -> trieRoot to -> (nodes from + nodes to <= walk)%nat ->
  exists changes, DiffTree sortByName hashEqual walk from to = Ok changes /\
    changes ≡ₚ changesBetween hashEqual (files from) (files to).
Proof.
  intros (cs & Hcs & Hn1 & Ht1) (ds & Hds & Hn2 & Ht2) Hw. rewrite (rootItems_nodes _ _ Hcs), (rootItems_nodes _ _ Hds) in Hw.
  destruct (newIter_first from cs Hcs) as (fi & fi' & E1 & E2 & Hs1), (newIter_first to ds Hds) as (ti & ti' & E3 & E4 & Hs2).
  unfold DiffTree, newDoubleIter. rewrite E1. cbn [res_bind]. rewrite E2, moved_first. cbn [res_bind]. rewrite E3. cbn [res_bind].
  rewrite E4, moved_first. cbn [res_bind].
  destruct (diff_loop_ok walk [] (mkDouble fi' (headPath (rootItems (sortByName cs))) ti' (headPath (rootItems (sortByName ds))))
    (rootItems (sortByName cs)) (rootItems (sortByName ds))) as (changes & E & Hc).
  - split; [by apply rootItems_within..|by apply rootItems_ordered|by apply rootItems_ordered|apply rootItems_aligned].
  - by split.
  - lia.
  - lia.
  - exists changes. split; [done|]. rewrite Hc. unfold spec, files. rewrite Hcs, Hds, !rootItems_files.
    by rewrite (Permutation_flat_map leaves (Hperm cs)), (Permutation_flat_map leaves (Hperm ds)).
Qed.
End Loop.

(** ** Sorting by insertion *)
Lemma sortNames_perm l : sortNames l ≡ₚ l.
Proof. apply insertionSort_perm. Qed.

Definition leNames (n m : Noder) : Prop := compareBytes (node_Name n) (node_Name m) <= 0.

Lemma leNames_trans n m k : leNames n m -> leNames m k -> leNames n k.
Proof.
  unfold leNames. intros H1 H2.
  destruct (Z.eq_dec (compareBytes (node_Name n) (node_Name m)) 0) as [E|E]; [apply compareBytes_eq in E; by rewrite E|].
  destruct (Z.eq_dec (compareBytes (node_Name m) (node_Name k)) 0) as [E'|E']; [apply compareBytes_eq in E'; by rewrite <- E'|].
  pose proof (compareBytes_lt_trans (node_Name n) (node_Name m) (node_Name k) ltac:(lia) ltac:(lia)). lia.
Qed.

Lemma sortNames_sorted l : StronglySorted leNames (sortNames l).
Proof.
  induction l as [|n l IH]; [constructor|]. unfold sortNames, insertionSort in *. cbn [fold_right].
  revert IH. generalize (fold_right (insertBy (fun m n => compareBytes (node_Name m) (node_Name n) <? 0)) [] l). clear l.
  induction l as [|m l IH]; intros Hs; [repeat constructor|]. cbn. inversion_clear Hs as [|? ? Hs' Hall].
  destruct (Z.ltb_spec (compareBytes (node_Name m) (node_Name n)) 0) as [H|H].
  - constructor; [by apply IH|]. rewrite insertBy_perm. constructor; [unfold leNames; lia|done].
  - assert (leNames n m) as Hnm by (unfold leNames; rewrite (compareBytes_antisym (node_Name m) (node_Name n)); lia).
    constructor; [by constructor|]. constructor; [done|]. eapply Forall_impl; [done|]. intros k. by apply leNames_trans.
Qed.

(** ** A sample *)

(** The nodes below a root, to a depth. *)
Fixpoint belowUpTo (depth : nat) (n : Noder) : list Noder :=
  match depth with
  | O => []
  | S depth => match node_Children n with Ok cs => cs ++ flat_map (belowUpTo depth) cs | _ => [] end
  end.

Definition bytesEqual (a b : bytes) : bool := bool_decide (a = b).

Definition fileNode (name : string) (hash : byte) : Noder := mkNode (bs name) [hash] false false (Ok []).
Definition dirNode (name : string) (hash : byte) (cs : list Noder) : Noder := mkNode (bs name) [hash] true false (Ok cs).

Definition sharedDir : Noder := dirNode "s" x01 [fileNode "z" x02].
Definition sampleFrom : Noder :=
  dirNode "" x10 [sharedDir; fileNode "a" x03; dirNode "d" x04 [fileNode "y" x05; fileNode "x" x06]].
Definition sampleTo : Noder :=
  dirNode "" x11 [fileNode "a" x07; dirNode "d" x08 [fileNode "x" x06]; fileNode "n" x09; sharedDir].

Lemma trie_sampleFrom : trieRoot sampleFrom.
Proof. eexists. split; [done|]. split; [by_decision|]. repeat constructor; try done; by_decision. Qed.
Lemma trie_sampleTo : trieRoot sampleTo.
Proof. eexists. split; [done|]. split; [by_decision|]. repeat constructor; try done; by_decision. Qed.

(** A trie of two levels is its children and theirs. *)
Lemma within_two root n : Forall (fun c => match node_Children c with Ok cs => Forall (fun d => node_Children d = Ok []) cs | _ => True end)
    (match node_Children root with Ok cs => cs | _ => [] end) ->
  within root n -> n ∈ belowUpTo 2 root.
Proof.
  intros H Hw. assert (n ∈ belowUpTo 2 root /\ (n ∈ belowUpTo 1 root \/ node_Children n = Ok [])) as [? _]; [|done].
  induction Hw as [cs n Hcs Hn|m cs n Hm [IH1 IH2] Hcs Hn].
  - cbn. rewrite Hcs. set_solver.
  - destruct IH2 as [IH|E]; [|rewrite E in Hcs; injection Hcs as <-; by apply elem_of_nil in Hn].
    cbn in IH |- *. destruct (node_Children root) as [rs| | |] eqn:E; [|by apply elem_of_nil in IH..].
    apply elem_of_app in IH as [IH|IH].
    2:{ exfalso. clear -IH. induction rs as [|r rs IHr]; cbn in IH; [by apply elem_of_nil in IH|auto]. }
    rewrite Forall_forall in H. specialize (H m IH). rewrite Hcs in H. split.
    + apply elem_of_app. right. apply list_elem_of_In, in_flat_map. exists m. split; [by apply list_elem_of_In|].
      rewrite Hcs. apply list_elem_of_In. set_solver.
    + right. rewrite Forall_forall in H. by apply H.
Qed.

Lemma sameFiles_shared : sameFiles bytesEqual sharedDir sharedDir.
Proof.
  split; [done|]. intros p q Hp Hq _. cbn in Hp, Hq. apply list_elem_of_singleton in Hp as ->. by apply list_elem_of_singleton in Hq as ->.
Qed.
Lemma sameFiles_file s h : sameFiles bytesEqual (fileNode s h) (fileNode s h).
Proof.
  split; [done|]. intros p q Hp Hq _. cbn in Hp, Hq. apply list_elem_of_singleton in Hp as ->. apply list_elem_of_singleton in Hq as ->.
  cbn. unfold bytesEqual. by rewrite bool_decide_eq_true_2.
Qed.

Lemma merkle_sample : merkle bytesEqual sampleFrom sampleTo.
Proof.
  intros n m Hn Hm Hname Hhash.
  apply within_two in Hn; [|repeat constructor]. apply within_two in Hm; [|repeat constructor].
  unfold bytesEqual in Hhash. apply bool_decide_eq_true in Hhash. vm_compute in Hn, Hm.
  repeat (apply elem_of_cons in Hn as [->|Hn]); [..|by apply elem_of_nil in Hn];
    repeat (apply elem_of_cons in Hm as [->|Hm]); try (by apply elem_of_nil in Hm);
    try (vm_compute in Hhash; discriminate Hhash); try (vm_compute in Hname; discriminate Hname);
    first [exact sameFiles_shared | exact (sameFiles_file "z" x02) | exact (sameFiles_file "x" x06)].
Qed.

(** C11: the difference of two tries is right and complete.  For tries without skipped nodes and without errors, in which siblings
    have different names and only directories have children, when equal hashes of nodes with the same name mean equal files
    below them, [DiffTree] ends without error and lists, each once, a deletion per file that is only in the first, an insertion per file that
    is only in the second, and a modification per file of both with different hashes: the reference [changesBetween] of the files,
    in some order.  As many rounds as both tries have nodes are enough. *)
Theorem difftree_spec (sortByName : list Noder -> list Noder) (hashEqual : bytes -> bytes -> bool) (from to : Noder) (fuel : nat)
    (sort_permutes : forall l, sortByName l ≡ₚ l)
    (sort_sorts : forall l, StronglySorted (fun n m => compareBytes (node_Name n) (node_Name m) <= 0) (sortByName l))
    (hash_merkle : merkle hashEqual from to) :
  trieRoot from -> trieRoot to -> (nodes from + nodes to <= fuel)%nat ->
  exists changes, DiffTree sortByName hashEqual fuel from to = Ok changes /\ changes ≡ₚ changesBetween hashEqual (files from) (files to).
Proof. by apply DiffTree_ok. Qed.

Lemma difftree_spec_witness :
  (nodes sampleFrom + nodes sampleTo <= 20)%nat /\
  exists changes, DiffTree sortNames bytesEqual 20 sampleFrom sampleTo = Ok changes /\
    changes ≡ₚ changesBetween bytesEqual (files sampleFrom) (files sampleTo).
Proof.
  split; [by vm_compute; lia|].
  exact (difftree_spec sortNames bytesEqual sampleFrom sampleTo 20 sortNames_perm sortNames_sorted merkle_sample trie_sampleFrom trie_sampleTo
    ltac:(vm_compute; lia)).
Defined.

(** The changes of the sample: [a] modified, [d/y] deleted, [n] inserted. *)
Example difftree_sample :
  (let* changes := DiffTree sortNames bytesEqual 20 sampleFrom sampleTo in
   Ok (map (fun c => (Change_Action c, option_map path_String (From c), option_map path_String (To c))) changes)) =
  Ok [(Some Modify, Some (bs "a"), Some (bs "a")); (Some Delete, Some (bs "d/y"), None); (Some Insert, None, Some (bs "n"))].
Proof. vm_compute. reflexivity. Qed.

(** ** Skipped nodes *)
Definition skippedNode (name : string) (hash : byte) : Noder := mkNode (bs name) [hash] false true (Ok []).

Definition changesOf (from to : list Noder) : res (list (option Action * option bytes * option bytes)) :=
  let* changes := DiffTree sortNames bytesEqual 20 (dirNode "" x00 from) (dirNode "" x00 to) in
  Ok (map (fun c => (Change_Action c, option_map path_String (From c), option_map path_String (To c))) changes).

(** Whether a skipped node is skipped depends on its neighbours.  A node that the first trie skips and the second has is not
    reported when it comes first, but is reported as inserted when the second trie has a smaller name that the first has not:
    the skipped node is passed on its own, and its counterpart is then alone.  And only the last names are compared: a skipped
    [d/x] in the first trie swallows the file [x] of the second. *)
Theorem skipped_node_inserted :
  changesOf [skippedNode "b" x01] [fileNode "b" x02] = Ok [] /\
  changesOf [skippedNode "b" x01] [fileNode "a" x03; fileNode "b" x02] =
    Ok [(Some Insert, None, Some (bs "a")); (Some Insert, None, Some (bs "b"))] /\
  changesOf [dirNode "d" x05 [fileNode "w" x07; skippedNode "x" x01]] [dirNode "d" x06 [fileNode "w" x07]; fileNode "x" x02] = Ok [].
Proof. repeat split; vm_compute; reflexivity. Qed.
