(* ===== verification/WorktreeIndex.v ===== *)
(** * plumbing/format/index: the worktree index

    Model of index.go, encoder.go and decoder.go: the entries of the index and the
    operations on them, and its file format in versions 2, 3 and 4.  SHA-1 and the sort of the entries are
    parameters; so are the order in which a Go map is ranged over, and how far a buffered reader has read
    ahead of an extension that is longer than what it holds.  Times are instants: the format
    has no place for a location. *)
From S2P Require Import Prelude Binary GoStrings GoPath Strconv ObjectID.

(** ** Times *)
Record Instant := mkInstant { unix : Z; nanos : Z }.
(** January 1 of the year 1. *)
Definition zeroInstant : Instant := mkInstant (-62135596800) 0.
#[global] Instance Instant_eq_decision : EqDecision Instant.
Proof. solve_decision. Defined.

Definition time_IsZero (t : Instant) : bool := bool_decide (t = zeroInstant).
Definition time_UnixNano (t : Instant) : Z := i64 (unix t * 1000000000 + nanos t).
(** [time.Unix], for non-negative nanoseconds. *)
Definition time_Unix (sec nsec : Z) : Instant := mkInstant (sec + nsec / 1000000000) (nsec mod 1000000000).

(** ** index.go *)
Record IndexEntry := mkEntry {
  eHash : ObjectID; eName : bytes; eCreatedAt : Instant; eModifiedAt : Instant; eDev : Z; eInode : Z; eMode : Z; eUID : Z; eGID : Z;
  eSize : Z; eStage : Z; eSkipWorktree : bool; eIntentToAdd : bool }.

#[global] Instance IndexEntry_eq_decision : EqDecision IndexEntry.
Proof. solve_decision. Defined.

Definition Merged : Z := 1.
Definition AncestorMode : Z := 1.
Definition OurMode : Z := 2.
Definition TheirMode : Z := 3.

Record CachedTreeEntry := mkCachedTreeEntry { ctPath : bytes; ctEntries : Z; ctTrees : Z; ctHash : ObjectID }.
Record ResolveUndoEntry := mkResolveUndoEntry { ruPath : bytes; ruStages : gmap Z ObjectID }.
Record EndOfIndexEntry := mkEndOfIndexEntry { eoiOffset : Z; eoiHash : ObjectID }.

Record WorktreeIndex := mkWorktreeIndex {
  iVersion : Z; iEntries : list IndexEntry; iCache : option (list CachedTreeEntry); iResolveUndo : option (list ResolveUndoEntry);
  iEndOfIndexEntry : option EndOfIndexEntry }.

Definition emptyIndex : WorktreeIndex := mkWorktreeIndex 0 [] None None None.
Definition set_iEntries (i : WorktreeIndex) (es : list IndexEntry) : WorktreeIndex := mkWorktreeIndex (iVersion i) es (iCache i) (iResolveUndo i) (iEndOfIndexEntry i).

(** [&IndexEntry{}] *)
Definition zeroIndexEntry : IndexEntry := mkEntry ZeroHash [] zeroInstant zeroInstant 0 0 0 0 0 0 0 false false.
Definition set_eName (e : IndexEntry) (n : bytes) : IndexEntry :=
  mkEntry (eHash e) n (eCreatedAt e) (eModifiedAt e) (eDev e) (eInode e) (eMode e) (eUID e) (eGID e) (eSize e) (eStage e) (eSkipWorktree e) (eIntentToAdd e).
Definition set_eSkipWorktree (e : IndexEntry) (b : bool) : IndexEntry :=
  mkEntry (eHash e) (eName e) (eCreatedAt e) (eModifiedAt e) (eDev e) (eInode e) (eMode e) (eUID e) (eGID e) (eSize e) (eStage e) b (eIntentToAdd e).

(** [filepath.ToSlash] changes nothing where the separator is a slash. *)
Definition Index_Add (i : WorktreeIndex) (path : bytes) : WorktreeIndex * IndexEntry :=
  let e := set_eName zeroIndexEntry path in (set_iEntries i (iEntries i ++ [e]), e).

Fixpoint findEntry (path : bytes) (es : list IndexEntry) : res IndexEntry :=
  match es with [] => Err ErrEntryNotFound | e :: es => if bool_decide (eName e = path) then Ok e else findEntry path es end.
Definition Index_Entry (i : WorktreeIndex) (path : bytes) : res IndexEntry := findEntry path (iEntries i).

Fixpoint removeEntry (path : bytes) (es : list IndexEntry) : res (list IndexEntry * IndexEntry) :=
  match es with
  | [] => Err ErrEntryNotFound
  | e :: es => if bool_decide (eName e = path) then Ok (es, e) else let* (es, x) := removeEntry path es in Ok (e :: es, x)
  end.
Definition Index_Remove (i : WorktreeIndex) (path : bytes) : res (WorktreeIndex * IndexEntry) :=
  let* (es, e) := removeEntry path (iEntries i) in Ok (set_iEntries i es, e).

Definition SkipUnless (i : WorktreeIndex) (patterns : list bytes) : WorktreeIndex :=
  set_iEntries i (map (fun e => if existsb (HasPrefix (eName e)) patterns then e else set_eSkipWorktree e true) (iEntries i)).

(** ** Constants of the format *)
Definition indexSignature : bytes := bs "DIRC".
Definition treeExtSignature : bytes := bs "TREE".
Definition resolveUndoExtSignature : bytes := bs "REUC".
Definition endOfIndexEntryExtSignature : bytes := bs "EOIE".
Definition entryHeaderLength : Z := 62.
Definition entryExtended : Z := 0x4000.
Definition nameMask : Z := 0xfff.
Definition intentToAddMask : Z := Z.shiftl 1 13.
Definition skipWorkTreeMask : Z := Z.shiftl 1 14.
Definition DecodeVersionMin : Z := 2.
Definition DecodeVersionMax : Z := 4.
Definition EncodeVersionSupported : Z := 4.

(** The size of the hash of the file. *)
Definition hashSize : Z := 20.

Section Format.
(** [hash.Sum] of the bytes written, and [sort.Sort(byName(entries))]. *)
Context (sha1 : bytes -> bytes) (sortByName : list IndexEntry -> list IndexEntry).

(** ** encoder.go *)

(** The bytes written so far, which are also what was hashed, and the last entry of version 4. *)
Record Encoder := mkEncoder { encW : bytes; encLast : option IndexEntry }.
Definition NewEncoder : Encoder := mkEncoder [] None.
Definition enc_write (e : Encoder) (b : bytes) : Encoder := mkEncoder (encW e ++ b) (encLast e).

Definition encodeIndexHeader (e : Encoder) (idx : WorktreeIndex) : Encoder :=
  enc_write e (indexSignature ++ WriteUint32 (iVersion idx) ++ WriteUint32 (u32 (len (iEntries idx)))).

Definition timeToUint32 (t : Instant) : res (Z * Z) :=
  if time_IsZero t then Ok (0, 0)
  else if (unix t <? 0) || (time_UnixNano t <? 0) then Err ErrInvalidTimestamp
  else Ok (u32 (unix t), u32 (nanos t)).

Definition encodeEntryName (e : Encoder) (entry : IndexEntry) : Encoder := enc_write e (eName entry).

Definition encodeEntryNameV4 (e : Encoder) (entry : IndexEntry) : res Encoder :=
  let '(l, name) :=
    match encLast e with
    | None => (0, eName entry)
    | Some last =>
      let dir := path_Dir (eName last) ++ [x2f] in
      if HasPrefix (eName entry) dir then (len (eName last) - len dir, TrimPrefix (eName entry) dir)
      else (len (eName last), eName entry)
    end in
  let* w := WriteVariableWidthInt l in
  Ok (mkEncoder (encW e ++ w ++ name ++ [x00]) (Some entry)).

Definition extended (entry : IndexEntry) : bool := eIntentToAdd entry || eSkipWorktree entry.

(** The flags, and the extended flags when there are any. *)
Definition entryFlags (entry : IndexEntry) : bytes :=
  let flags := Z.lor (Z.shiftl (Z.land (eStage entry) 3) 12) (if len (eName entry) <? nameMask then len (eName entry) else nameMask) in
  if extended entry then
    WriteUint16 (Z.lor flags entryExtended) ++
    WriteUint16 (Z.lor (if eIntentToAdd entry then intentToAddMask else 0) (if eSkipWorktree entry then skipWorkTreeMask else 0))
  else WriteUint16 flags.

Definition encodeEntry (e : Encoder) (idx : WorktreeIndex) (entry : IndexEntry) : res Encoder :=
  let* (sec, nsec) := timeToUint32 (eCreatedAt entry) in
  let* (msec, mnsec) := timeToUint32 (eModifiedAt entry) in
  let e := enc_write e (WriteUint32 sec ++ WriteUint32 nsec ++ WriteUint32 msec ++ WriteUint32 mnsec ++ WriteUint32 (eDev entry) ++
    WriteUint32 (eInode entry) ++ WriteUint32 (eMode entry) ++ WriteUint32 (eUID entry) ++ WriteUint32 (eGID entry) ++
    WriteUint32 (eSize entry) ++ ObjectID_Bytes (eHash entry) ++ entryFlags entry) in
  if (iVersion idx =? 2) || (iVersion idx =? 3) then Ok (encodeEntryName e entry)
  else if iVersion idx =? 4 then encodeEntryNameV4 e entry
  else Err ErrUnsupportedVersion.

Definition enc_padEntry (e : Encoder) (idx : WorktreeIndex) (wrote : Z) : Encoder :=
  if iVersion idx =? 4 then e else enc_write e (replicate (Z.to_nat (8 - wrote mod 8)) x00).

Fixpoint encodeEntries_loop (e : Encoder) (idx : WorktreeIndex) (entries : list IndexEntry) : res Encoder :=
  match entries with
  | [] => Ok e
  | entry :: entries =>
    let* e := encodeEntry e idx entry in
    let entryLength := entryHeaderLength + (if extended entry then 2 else 0) in
    encodeEntries_loop (enc_padEntry e idx (entryLength + len (eName entry))) idx entries
  end.

(** The entries are sorted in place. *)
Definition encodeIndexEntries (e : Encoder) (idx : WorktreeIndex) : res (Encoder * WorktreeIndex) :=
  let idx := set_iEntries idx (sortByName (iEntries idx)) in
  let* e := encodeEntries_loop e idx (iEntries idx) in Ok (e, idx).

Definition encodeFooter (e : Encoder) : Encoder := enc_write e (sha1 (encW e)).

Definition encodeIndex (e : Encoder) (idx : WorktreeIndex) (footer : bool) : res (Encoder * WorktreeIndex) :=
  if iVersion idx >? EncodeVersionSupported then Err ErrUnsupportedVersion
  else
    let* (e, idx) := encodeIndexEntries (encodeIndexHeader e idx) idx in
    Ok (if footer then encodeFooter e else e, idx).

Definition Index_Encode (e : Encoder) (idx : WorktreeIndex) : res (Encoder * WorktreeIndex) := encodeIndex e idx true.

Definition encodeRawExtension (e : Encoder) (signature data : bytes) : res Encoder :=
  if negb (len signature =? 4) then Err ErrInvalidSignatureLength
  else Ok (enc_write e (signature ++ WriteUint32 (u32 (len data)) ++ data)).

(** ** decoder.go *)

(** [validateIndexHeader] *)
Definition validateIndexHeader (r : bytes) : res (Z * bytes) :=
  let* (s, r) := readFull 4 r in
  if negb (bool_decide (s = indexSignature)) then Err ErrMalformedSignature
  else
    let* (version, r) := ReadUint32 r in
    if (version <? DecodeVersionMin) || (version >? DecodeVersionMax) then Err ErrUnsupportedVersion else Ok (version, r).

Definition doReadEntryName (length : Z) (r : bytes) : res (bytes * bytes) := readFull length r.

(** [doReadEntryNameV4]: the slice of the last name can be out of range. *)
Definition doReadEntryNameV4 (last : option IndexEntry) (r : bytes) : res (bytes * bytes) :=
  let* (l, r) := ReadVariableWidthInt r in
  let* base := match last with
               | None => Ok []
               | Some last => slice (eName last) 0 (i64 (len (eName last) - l))
               end in
  let* (name, r) := ReadUntil r x00 in
  Ok (base ++ name, r).

Definition readEntryName (version : Z) (last : option IndexEntry) (flags : Z) (r : bytes) : res (bytes * bytes) :=
  if (version =? 2) || (version =? 3) then doReadEntryName (Z.land flags nameMask) r
  else if version =? 4 then doReadEntryNameV4 last r
  else Err ErrUnsupportedVersion.

(** [padEntry]: [io.CopyN] of too few bytes is an [EOF]. *)
Definition dec_padEntry (version : Z) (name : bytes) (read : Z) (r : bytes) : res bytes :=
  if version =? 4 then Ok r
  else
    let padLen := 8 - (read + len name) mod 8 in
    if len r <? padLen then Err EOF else Ok (drop (Z.to_nat padLen) r).

Definition instantOf (sec nsec : Z) : Instant :=
  if negb (sec =? 0) || negb (nsec =? 0) then time_Unix sec nsec else zeroInstant.

Definition readIndexEntry (version : Z) (last : option IndexEntry) (r : bytes) : res (IndexEntry * bytes) :=
  let* (sec, r) := ReadUint32 r in
  let* (nsec, r) := ReadUint32 r in
  let* (msec, r) := ReadUint32 r in
  let* (mnsec, r) := ReadUint32 r in
  let* (dev, r) := ReadUint32 r in
  let* (inode, r) := ReadUint32 r in
  let* (mode, r) := ReadUint32 r in
  let* (uid, r) := ReadUint32 r in
  let* (gid, r) := ReadUint32 r in
  let* (size, r) := ReadUint32 r in
  let* (h, r) := ReadFrom ZeroHash r in
  let* (flags, r) := ReadUint16 r in
  let stage := Z.land (Z.shiftr flags 12) 3 in
  let* (ext, r) := if negb (Z.land flags entryExtended =? 0) then let* (x, r) := ReadUint16 r in Ok (Some x, r) else Ok (None, r) in
  let intentToAdd := match ext with Some x => negb (Z.land x intentToAddMask =? 0) | None => false end in
  let skipWorktree := match ext with Some x => negb (Z.land x skipWorkTreeMask =? 0) | None => false end in
  let read := entryHeaderLength + (match ext with Some _ => 2 | None => 0 end) in
  let* (name, r) := readEntryName version last flags r in
  let* r := dec_padEntry version name read r in
  Ok (mkEntry h name (instantOf sec nsec) (instantOf msec mnsec) dev inode mode uid gid size stage skipWorktree intentToAdd, r).

(** [readEntries], after the entries [es]; [last] is the decoder's last entry. *)
Fixpoint readEntries (count : nat) (version : Z) (last : option IndexEntry) (es : list IndexEntry) (r : bytes) : res (list IndexEntry * bytes) :=
  match count with
  | O => Ok (es, r)
  | S count => let* (e, r) := readIndexEntry version last r in readEntries count version (Some e) (es ++ [e]) r
  end.

(** *** Extensions *)

(** [treeExtensionDecoder.readEntry]; [None] for an invalidated entry. *)
Definition readTreeEntry (r : bytes) : res (option CachedTreeEntry * bytes) :=
  let* (path, r) := ReadUntil r x00 in
  let* (count, r) := ReadUntil r x20 in
  let* i := ParseInt count 10 64 in
  if i =? -1 then Ok (None, r)
  else
    let* (trees, r) := ReadUntil r x0a in
    let* n := ParseInt trees 10 64 in
    let* (h, r) := ReadFrom ZeroHash r in
    Ok (Some (mkCachedTreeEntry path i n h), r).

Fixpoint treeExtension_Decode (fuel : nat) (es : list CachedTreeEntry) (r : bytes) : res (list CachedTreeEntry) :=
  match fuel with
  | O => NoFuel
  | S fuel =>
    match readTreeEntry r with
    | Ok (e, r) => treeExtension_Decode fuel (es ++ option_list e) r
    | Err e => if bool_decide (e = EOF) then Ok es else Err e
    | Panic => Panic
    | NoFuel => NoFuel
    end
  end.

(** Go leaves the order of [range] over a map open. *)
Context (mapOrder : list Z -> list Z).

Definition readStage (stages : list Z) (s : Z) (r : bytes) : res (list Z * bytes) :=
  let* (ascii, r) := ReadUntil r x00 in
  let* stage := ParseInt ascii 8 64 in
  Ok (if negb (stage =? 0) then stages ++ [s] else stages, r).

Fixpoint readHashes (order : list Z) (stages : gmap Z ObjectID) (r : bytes) : res (gmap Z ObjectID * bytes) :=
  match order with
  | [] => Ok (stages, r)
  | s :: order => let* (h, r) := ReadFrom ZeroHash r in readHashes order (<[s := h]> stages) r
  end.

Definition readUndoEntry (r : bytes) : res (ResolveUndoEntry * bytes) :=
  let* (path, r) := ReadUntil r x00 in
  let* (stages, r) := readStage [] 1 r in
  let* (stages, r) := readStage stages 2 r in
  let* (stages, r) := readStage stages 3 r in
  let* (m, r) := readHashes (mapOrder stages) ∅ r in
  Ok (mkResolveUndoEntry path m, r).

Fixpoint resolveUndo_Decode (fuel : nat) (es : list ResolveUndoEntry) (r : bytes) : res (list ResolveUndoEntry) :=
  match fuel with
  | O => NoFuel
  | S fuel =>
    match readUndoEntry r with
    | Ok (e, r) => resolveUndo_Decode fuel (es ++ [e]) r
    | Err e => if bool_decide (e = EOF) then Ok es else Err e
    | Panic => Panic
    | NoFuel => NoFuel
    end
  end.

Definition endOfIndexEntry_Decode (r : bytes) : res (EndOfIndexEntry * bytes) :=
  let* (offset, r) := ReadUint32 r in
  let* (h, r) := ReadFrom ZeroHash r in
  Ok (mkEndOfIndexEntry offset h, r).

(** What the buffered reader of an extension has not fetched of the bytes that are left of it. *)
Context (unfetched : bytes -> bytes).

Definition set_iCache (i : WorktreeIndex) c := mkWorktreeIndex (iVersion i) (iEntries i) (Some c) (iResolveUndo i) (iEndOfIndexEntry i).
Definition set_iResolveUndo (i : WorktreeIndex) u := mkWorktreeIndex (iVersion i) (iEntries i) (iCache i) (Some u) (iEndOfIndexEntry i).
Definition set_iEndOfIndexEntry (i : WorktreeIndex) e := mkWorktreeIndex (iVersion i) (iEntries i) (iCache i) (iResolveUndo i) (Some e).

(** [readExtension]; the extension is what is there of the length it announces. *)
Definition readExtension (idx : WorktreeIndex) (r : bytes) : res (WorktreeIndex * bytes) :=
  let* (header, r) := readFull 4 r in
  let* (length, r) := ReadUint32 r in
  let n := Z.to_nat (Z.min length (len r)) in
  let ext := take n r in
  let r := drop n r in
  if bool_decide (header = treeExtSignature) then
    let* es := treeExtension_Decode (S (List.length ext)) [] ext in Ok (set_iCache idx es, r)
  else if bool_decide (header = resolveUndoExtSignature) then
    let* es := resolveUndo_Decode (S (List.length ext)) [] ext in Ok (set_iResolveUndo idx es, r)
  else if bool_decide (header = endOfIndexEntryExtSignature) then
    let* (e, rest) := endOfIndexEntry_Decode ext in Ok (set_iEndOfIndexEntry idx e, unfetched rest ++ r)
  else
    let* h := index header 0 in
    if (b2z h <? 65) || (b2z h >? 90) then Err ErrUnknownExtension else Ok (idx, r).

Definition readChecksum (expected r : bytes) : res bytes :=
  let* (h, r) := ReadFrom ZeroHash r in
  if negb (ObjectID_Compare h expected =? 0) then Err ErrInvalidChecksum else Ok r.

(** [readExtensions]; what was consumed of the input [inp] is what was hashed. *)
Fixpoint readExtensions (fuel : nat) (inp : bytes) (idx : WorktreeIndex) (r : bytes) : res (WorktreeIndex * bytes) :=
  match fuel with
  | O => NoFuel
  | S fuel =>
    let expected := sha1 (take (List.length inp - List.length r) inp) in
    if len r <? 4 + 4 + hashSize then let* r := readChecksum expected r in Ok (idx, r)
    else let* (idx, r) := readExtension idx r in readExtensions fuel inp idx r
  end.

(** [Decode] of a new decoder: the index and what was not read. *)
Definition Index_Decode (idx : WorktreeIndex) (inp : bytes) : res (WorktreeIndex * bytes) :=
  let* (version, r) := validateIndexHeader inp in
  let* (count, r) := ReadUint32 r in
  let* (es, r) := readEntries (Z.to_nat count) version None (iEntries idx) r in
  readExtensions (S (List.length r)) inp (mkWorktreeIndex version es (iCache idx) (iResolveUndo idx) (iEndOfIndexEntry idx)) r.
End Format.
