(* ===== verification/IndexMatch.v ===== *)
(** * plumbing/format/index/match.go: glob patterns over the index

    Model of [match] and its helpers, with [utf8.DecodeRuneInString] of the standard library, on a system that
    is not Windows; and [Glob] of index.go. *)
From S2P Require Import Prelude GoStrings ObjectID WorktreeIndex.

(** ** unicode/utf8 *)
(** The range of the second byte after a first byte of two, three or four, and the number of bytes. *)
Definition utf8_accept (p0 : Z) : option (nat * Z * Z) :=
  if (0xc2 <=? p0) && (p0 <=? 0xdf) then Some (2%nat, 0x80, 0xbf)
  else if p0 =? 0xe0 then Some (3%nat, 0xa0, 0xbf)
  else if p0 =? 0xed then Some (3%nat, 0x80, 0x9f)
  else if (0xe1 <=? p0) && (p0 <=? 0xef) then Some (3%nat, 0x80, 0xbf)
  else if p0 =? 0xf0 then Some (4%nat, 0x90, 0xbf)
  else if (0xf1 <=? p0) && (p0 <=? 0xf3) then Some (4%nat, 0x80, 0xbf)
  else if p0 =? 0xf4 then Some (4%nat, 0x80, 0x8f)
  else None.

Definition utf8_continuation (c : byte) : bool := (0x80 <=? b2z c) && (b2z c <=? 0xbf).

(** The rune and the number of bytes it takes; an invalid encoding takes one. *)
Definition DecodeRuneInString (s : bytes) : Z * nat :=
  match s with
  | [] => (RuneError, 0%nat)
  | c0 :: s =>
    let p0 := b2z c0 in
    if p0 <? 0x80 then (p0, 1%nat)
    else
      match utf8_accept p0, s with
      | Some (size, lo, hi), c1 :: s =>
        if (b2z c1 <? lo) || (hi <? b2z c1) then (RuneError, 1%nat)
        else
          match size, s with
          | 2%nat, _ => (Z.lor (Z.shiftl (Z.land p0 0x1f) 6) (low6 c1), 2%nat)
          | 3%nat, c2 :: _ =>
            if utf8_continuation c2 then (Z.lor (Z.lor (Z.shiftl (Z.land p0 0x0f) 12) (Z.shiftl (low6 c1) 6)) (low6 c2), 3%nat)
            else (RuneError, 1%nat)
          | 4%nat, c2 :: c3 :: _ =>
            if utf8_continuation c2 && utf8_continuation c3 then
              (Z.lor (Z.lor (Z.lor (Z.shiftl (Z.land p0 0x07) 18) (Z.shiftl (low6 c1) 12)) (Z.shiftl (low6 c2) 6)) (low6 c3), 4%nat)
            else (RuneError, 1%nat)
          | _, _ => (RuneError, 1%nat)
          end
      | _, _ => (RuneError, 1%nat)
      end
  end.

(** ** match.go *)

(** The loop of [scanChunk]: how much of the pattern is before the next star that is not in a class. *)
Fixpoint scanChunk_loop (pattern : bytes) (inrange : bool) : nat :=
  match pattern with
  | [] => 0
  | x5c :: pattern => match pattern with [] => 1 | _ :: pattern => 2 + scanChunk_loop pattern inrange end
  | x5b :: pattern => 1 + scanChunk_loop pattern true
  | x5d :: pattern => 1 + scanChunk_loop pattern false
  | x2a :: pattern => if inrange then 1 + scanChunk_loop pattern inrange else 0
  | _ :: pattern => 1 + scanChunk_loop pattern inrange
  end%nat.

Fixpoint dropStars (pattern : bytes) : bool * bytes :=
  match pattern with
  | x2a :: pattern => (true, (dropStars pattern).2)
  | _ => (false, pattern)
  end.

Definition scanChunk (pattern : bytes) : bool * bytes * bytes :=
  let '(star, pattern) := dropStars pattern in
  let i := scanChunk_loop pattern false in
  (star, take i pattern, drop i pattern).

Definition getEsc (chunk : bytes) : res (Z * bytes) :=
  match chunk with
  | [] | x2d :: _ | x5d :: _ => Err ErrBadPattern
  | c :: rest =>
    let* chunk := if bool_decide (c = x5c) then match rest with [] => Err ErrBadPattern | _ => Ok rest end else Ok chunk in
    let '(r, n) := DecodeRuneInString chunk in
    if (r =? RuneError) && (n =? 1)%nat then Err ErrBadPattern
    else match drop n chunk with [] => Err ErrBadPattern | nchunk => Ok (r, nchunk) end
  end.

(** The ranges of a character class: whether one of them has the rune, and the pattern after the class. *)
Fixpoint matchClass (fuel : nat) (r : Z) (chunk : bytes) (matched : bool) (nrange : Z) : res (bool * bytes) :=
  match fuel with
  | O => NoFuel
  | S fuel =>
    if match chunk with x5d :: _ => nrange >? 0 | _ => false end then Ok (matched, drop 1 chunk)
    else
      let* (lo, chunk) := getEsc chunk in
      let* c := index chunk 0 in
      let* (hi, chunk) := if bool_decide (c = x2d) then getEsc (drop 1 chunk) else Ok (lo, chunk) in
      matchClass fuel r chunk (matched || (lo <=? r) && (r <=? hi)) (nrange + 1)
  end.

(** [matchChunk]: the rest of [s], or [None] when the chunk does not match. *)
Fixpoint matchChunk (fuel : nat) (chunk s : bytes) : res (option bytes) :=
  match fuel with
  | O => NoFuel
  | S fuel =>
    match chunk, s with
    | [], _ => Ok (Some s)
    | _, [] => Ok None
    | c :: rest, s0 :: s' =>
      let literal (chunk : bytes) : res (option bytes) :=
        match chunk with
        | [] => Panic
        | c :: rest => if bool_decide (c = s0) then matchChunk fuel rest s' else Ok None
        end in
      if bool_decide (c = x5b) then
        let '(r, n) := DecodeRuneInString s in
        match rest with
        | [] => Err ErrBadPattern
        | c1 :: rest1 =>
          let negated := bool_decide (c1 = x5e) in
          let* (matched, chunk) := matchClass (S (length rest)) r (if negated then rest1 else rest) false 0 in
          if Bool.eqb matched negated then Ok None else matchChunk fuel chunk (drop n s)
        end
      else if bool_decide (c = x3f) then matchChunk fuel rest (drop (DecodeRuneInString s).2 s)
      else if bool_decide (c = x5c) then match rest with [] => Err ErrBadPattern | _ => literal rest end
      else literal chunk
    end
  end.

(** Matching after skipping one byte of [name] or more; [last] when no pattern follows. *)
Fixpoint matchStar (chunk : bytes) (last : bool) (name : bytes) : res (option bytes) :=
  match name with
  | [] => Ok None
  | _ :: name =>
    let* m := matchChunk (S (length chunk)) chunk name in
    match m with
    | Some t => if last && negb (len t =? 0) then matchStar chunk last name else Ok (Some t)
    | None => matchStar chunk last name
    end
  end.

Fixpoint match_loop (fuel : nat) (pattern name : bytes) : res bool :=
  match fuel with
  | O => NoFuel
  | S fuel =>
    match pattern with
    | [] => Ok (len name =? 0)
    | _ =>
      let '(star, chunk, pattern) := scanChunk pattern in
      let skip := if star then
          let* m := matchStar chunk (len pattern =? 0) name in
          match m with Some t => match_loop fuel pattern t | None => Ok false end
        else Ok false in
      match matchChunk (S (length chunk)) chunk name with
      | Ok (Some t) => if (len t =? 0) || (len pattern >? 0) then match_loop fuel pattern t else skip
      | Ok None => skip
      | Err e => Err e
      | Panic => Panic
      | NoFuel => NoFuel
      end
    end
  end.

Definition index_match (pattern name : bytes) : res bool := match_loop (S (length pattern)) pattern name.

(** [Glob] of index.go *)
Fixpoint globEntries (pattern : bytes) (es : list IndexEntry) : res (list IndexEntry) :=
  match es with
  | [] => Ok []
  | e :: es =>
    let* m := index_match pattern (eName e) in
    let* matches := globEntries pattern es in
    Ok (if m then e :: matches else matches)
  end.
Definition Glob (i : WorktreeIndex) (pattern : bytes) : res (list IndexEntry) := globEntries pattern (iEntries i).

Example match_samples :
  index_match (bs "*.go") (bs "src/a.go") = Ok true /\ index_match (bs "a?c") (bs "a/c") = Ok true /\
  index_match (bs "[a-c]x[^0-9]") (bs "bxz") = Ok true /\ index_match (bs "[a-c]x[^0-9]") (bs "bx7") = Ok false /\
  index_match (bs "[a") (bs "b") = Err ErrBadPattern /\ index_match (bs "a\*") (bs "a*") = Ok true /\ index_match (bs "*a*b") (bs "xxaxbxb") = Ok true.
Proof. vm_compute. repeat split. Qed.
