(* ===== verification/IndexMatchProofs.v ===== *)
(** * The glob patterns of plumbing/format/index/match.go, against the usual relation

    [index_match] looks for each chunk between stars at the first place it fits and never goes back.  On patterns
    of literals, [?] and [*] that finds a match whenever there is one, and on any pattern it ends. *)
From S2P Require Import Prelude GoStrings ObjectID WorktreeIndex IndexMatch.

(** ** Matching ends, on any pattern *)
Lemma getEsc_shorter chunk : match getEsc chunk with Ok (_, c) => (0 < length c < length chunk)%nat | Err _ => True | _ => False end.
Proof.
  assert (forall c rest, match (let* chunk := if bool_decide (c = x5c) then match rest with [] => Err ErrBadPattern | _ => Ok rest end else Ok (c :: rest) in
    let '(r, n) := DecodeRuneInString chunk in
    if (r =? RuneError) && (n =? 1)%nat then Err ErrBadPattern
    else match drop n chunk with [] => Err ErrBadPattern | nchunk => Ok (r, nchunk) end) with Ok (_, d) => (0 < length d < length (c :: rest))%nat | Err _ => True | _ => False end) as H.
  { intros c rest.
    assert (forall ch, (0 < length ch <= S (length rest))%nat -> match (let '(r, n) := DecodeRuneInString ch in
      if (r =? RuneError) && (n =? 1)%nat then Err ErrBadPattern
      else match drop n ch with [] => Err ErrBadPattern | nchunk => Ok (r, nchunk) end) with Ok (_, d) => (0 < length d < length (c :: rest))%nat | Err _ => True | _ => False end) as H.
    { intros ch Hch. assert (0 < (DecodeRuneInString ch).2)%nat as Hn.
      { destruct ch as [|c0 ch]; [cbn in Hch; lia|]. unfold DecodeRuneInString. repeat case_match; cbn; lia. }
      destruct (DecodeRuneInString ch) as [r n]. cbn [snd] in Hn. destruct (_ && _); [done|].
      pose proof (length_drop ch n) as Hl. destruct (drop n ch) as [|d0 d] eqn:E; [done|]. cbn [length] in *. lia. }
    destruct (bool_decide (c = x5c)); [destruct rest as [|c' rest]; [done|]|]; cbn [res_bind]; apply H; cbn; lia. }
  unfold getEsc. destruct chunk as [|c rest]; [done|]. destruct c; first [exact I | apply H].
Qed.

Lemma matchClass_ends fuel : forall r chunk matched nrange, (length chunk < fuel)%nat ->
  match matchClass fuel r chunk matched nrange with Ok (_, c) => (length c < length chunk)%nat | Err _ => True | _ => False end.
Proof.
  induction fuel as [|fuel IH]; intros r chunk matched nrange Hf; [lia|]. cbn [matchClass].
  destruct (match chunk with x5d :: _ => nrange >? 0 | _ => false end) eqn:E.
  { destruct chunk as [|c chunk]; [done|]. cbn. rewrite drop_0. lia. }
  pose proof (getEsc_shorter chunk) as H1. destruct (getEsc chunk) as [[lo c1]| | |]; try done. cbn [res_bind].
  destruct (index_ok c1 0) as (x & -> & _); [unfold len; lia|]. cbn [res_bind].
  assert (match (if bool_decide (x = x2d) then getEsc (drop 1 c1) else Ok (lo, c1)) with
          | Ok (_, c) => (length c < length chunk)%nat | Err _ => True | _ => False end) as H2.
  { destruct (bool_decide (x = x2d)); [|cbn; lia]. pose proof (getEsc_shorter (drop 1 c1)) as H2. rewrite length_drop in H2.
    destruct (getEsc (drop 1 c1)) as [[hi c2]| | |]; try done. lia. }
  destruct (if bool_decide (x = x2d) then getEsc (drop 1 c1) else Ok (lo, c1)) as [[hi c2]| | |]; try done. cbn [res_bind].
  specialize (IH r c2 (matched || (lo <=? r) && (r <=? hi)) (nrange + 1) ltac:(lia)).
  destruct (matchClass fuel r c2 _ _) as [[m c3]| | |]; try done. lia.
Qed.

Lemma matchChunk_settled fuel : forall chunk s, (length chunk < fuel)%nat -> settled (matchChunk fuel chunk s).
Proof.
  induction fuel as [|fuel IH]; intros chunk s Hf; [lia|]. cbn [matchChunk]. destruct chunk as [|c rest], s as [|s0 s]; try done. cbn [length] in Hf.
  destruct (bool_decide (c = x5b)).
  { destruct (DecodeRuneInString (s0 :: s)) as [r n]. destruct rest as [|c1 rest1]; [done|]. cbn [length] in Hf.
    pose proof (matchClass_ends (S (length (c1 :: rest1))) r (if bool_decide (c1 = x5e) then rest1 else c1 :: rest1) false 0) as Hc.
    assert (length (if bool_decide (c1 = x5e) then rest1 else c1 :: rest1) <= S (length rest1))%nat as Hl by (destruct (bool_decide _); cbn; lia).
    specialize (Hc ltac:(cbn; lia)). destruct (matchClass _ _ _ _ _) as [[m c2]| | |]; try done. cbn [res_bind].
    destruct (Bool.eqb _ _); [done|]. apply IH. lia. }
  destruct (bool_decide (c = x3f)); [apply IH; lia|].
  destruct (bool_decide (c = x5c)); [destruct rest as [|c1 rest1]; [done|]|].
  - destruct (bool_decide (c1 = s0)); [|done]. apply IH. cbn [length] in Hf. lia.
  - destruct (bool_decide (c = s0)); [|done]. apply IH. lia.
Qed.

Lemma matchStar_settled chunk last name : settled (matchStar chunk last name).
Proof.
  induction name as [|c name IH]; [done|]. cbn [matchStar]. apply settled_bind; [apply matchChunk_settled; lia|].
  intros [t|] _; [|done]. by destruct (_ && _).
Qed.

Lemma dropStars_spec p : exists k, p = replicate k x2a ++ (dropStars p).2 /\ ((dropStars p).1 = false <-> k = 0%nat) /\
  (forall q, (dropStars p).2 <> x2a :: q).
Proof.
  induction p as [|c p IH]; [by exists 0%nat|]. destruct (decide (c = x2a)) as [->|Hc].
  - destruct IH as (k & E & _ & Hq). exists (S k). cbn. rewrite E at 1. done.
  - exists 0%nat. assert (dropStars (c :: p) = (false, c :: p)) as -> by (destruct c; try done). split; [done|]. split; [done|]. intros q [= -> _]. done.
Qed.

Lemma scanChunk_shorter p star chunk rest : scanChunk p = (star, chunk, rest) -> p <> [] -> (length rest < length p)%nat.
Proof.
  unfold scanChunk. destruct (dropStars_spec p) as (k & E & Hk & Hq). destruct (dropStars p) as [st q] eqn:Ed. cbn [fst snd] in *.
  intros [= <- <- <-] Hne. rewrite length_drop. rewrite E. rewrite length_app, length_replicate.
  destruct st; [assert (k <> 0%nat) by (intros H; by apply Hk in H); lia|]. assert (k = 0%nat) as -> by by apply Hk.
  destruct q as [|c q]; [by rewrite app_nil_r in E; subst p|]. assert (0 < scanChunk_loop (c :: q) false)%nat; [|cbn [length]; lia].
  cbn [scanChunk_loop]. destruct c; try lia; [by destruct (Hq q)|destruct q; lia].
Qed.

Lemma match_loop_settled fuel : forall pattern name, (length pattern < fuel)%nat -> settled (match_loop fuel pattern name).
Proof.
  induction fuel as [|fuel IH]; intros pattern name Hf; [lia|]. cbn [match_loop]. destruct pattern as [|c0 p0]; [done|].
  destruct (scanChunk (c0 :: p0)) as [[star chunk] rest] eqn:E. pose proof (scanChunk_shorter _ _ _ _ E ltac:(done)).
  match goal with |- context [if star then ?a else ?b] => assert (settled (if star then a else b)) as Hs end.
  { destruct star; [|done]. apply settled_bind; [apply matchStar_settled|]. intros [t|] _; [|done]. apply IH. lia. }
  pose proof (matchChunk_settled (S (length chunk)) chunk name ltac:(lia)) as Hc. destruct (matchChunk _ chunk name) as [[t|]| | |]; try done.
  destruct (_ || _); [apply IH; lia|done].
Qed.

(** ** Simple patterns *)

(** What a pattern without classes and escapes matches: a star matches any bytes, slashes included. *)
Inductive globs : bytes -> bytes -> Prop :=
| globs_nil : globs [] []
| globs_star p skipped n : globs p n -> globs (x2a :: p) (skipped ++ n)
| globs_any p c n : globs p n -> globs (x3f :: p) (c :: n)
| globs_byte p c n : c <> x2a -> c <> x3f -> globs p n -> globs (c :: p) (c :: n).

Definition simple (pattern : bytes) : Prop := Forall (fun c => c <> x5b /\ c <> x5c) pattern.
Definition ascii (name : bytes) : Prop := Forall (fun c => b2z c < 128) name.
(** A question mark stands for a character, which is a byte in names of ASCII. *)
Definition readable (pattern name : bytes) : Prop := ascii name \/ x3f ∉ pattern.

Lemma readable_part p q a n : readable p (a ++ n) -> (forall x, x ∈ q -> x ∈ p) -> readable q n.
Proof. intros [H|H] Hq; [left; by apply Forall_app in H as [_ ?]|right; auto]. Qed.

(** A chunk has no star, and takes as many bytes as it has. *)
Fixpoint prefixMatch (chunk s : bytes) : option bytes :=
  match chunk, s with
  | [], _ => Some s
  | _, [] => None
  | c :: chunk, d :: s => if bool_decide (c = x3f) || bool_decide (c = d) then prefixMatch chunk s else None
  end.

Lemma DecodeRune_ascii c s : b2z c < 128 -> (DecodeRuneInString (c :: s)).2 = 1%nat.
Proof. intros Hc. unfold DecodeRuneInString. by destruct (Z.ltb_spec (b2z c) 0x80); [|lia]. Qed.

Lemma matchChunk_simple chunk : forall fuel s, (length chunk < fuel)%nat -> simple chunk -> readable chunk s -> matchChunk fuel chunk s = Ok (prefixMatch chunk s).
Proof.
  induction chunk as [|c chunk IH]; intros [|fuel] s Hf Hs Ha; cbn [length] in Hf; [lia|done|lia|]. cbn [matchChunk prefixMatch].
  destruct s as [|d s]; [done|]. inversion_clear Hs as [|? ? [H1 H2] Hs']. assert (readable chunk s) as Ha' by (apply (readable_part (c :: chunk) chunk [d]); [done|set_solver]).
  rewrite (bool_decide_eq_false_2 (c = x5b)) by done.
  case_bool_decide as Hq; cbn [orb].
  - assert (b2z d < 128) as Hd by (destruct Ha as [Ha|Ha]; [by inversion Ha|subst c; set_solver]). rewrite DecodeRune_ascii by done. change (drop 1 (d :: s)) with s. apply IH; [lia|done..].
  - rewrite (bool_decide_eq_false_2 (c = x5c)) by done. destruct (bool_decide (c = d)); [|done]. apply IH; [lia|done..].
Qed.

Definition starless (chunk : bytes) : Prop := x2a ∉ chunk.

Lemma globs_chunk chunk p s : starless chunk -> globs (chunk ++ p) s <-> exists t, prefixMatch chunk s = Some t /\ globs p t.
Proof.
  unfold starless. revert s. induction chunk as [|c chunk IH]; intros s Hs; cbn [app prefixMatch].
  { split; [by exists s|]. by intros (t & [= ->] & H). }
  apply not_elem_of_cons in Hs as [Hc Hs]. split.
  - intros H. inversion H as [|? ? ? H'|? d n H'|? ? n H1 H2 H']; subst; [done|..].
    + rewrite bool_decide_eq_true_2 by done. cbn [orb]. by apply IH.
    + rewrite (bool_decide_eq_true_2 (c = c)) by done. rewrite orb_true_r. by apply IH.
  - destruct s as [|d s]; [by intros (t & ? & _)|]. intros (t & E & Ht).
    destruct (decide (c = x3f)) as [->|Hq].
    + apply globs_any. apply IH; [done|]. by exists t.
    + rewrite (bool_decide_eq_false_2 (c = x3f)) in E by done. destruct (decide (c = d)) as [->|]; [|rewrite bool_decide_eq_false_2 in E by done; discriminate E].
      rewrite (bool_decide_eq_true_2 (d = d)) in E by done. apply globs_byte; [done..|]. apply IH; [done|]. by exists t.
Qed.

Lemma prefixMatch_rest chunk : forall s t, prefixMatch chunk s = Some t -> t = drop (length chunk) s /\ (length chunk <= length s)%nat.
Proof.
  induction chunk as [|c chunk IH]; intros s t E; cbn in E; [by injection E as ->; rewrite drop_0; split; [|cbn; lia]|].
  destruct s as [|d s]; [done|]. destruct (_ || _); [|done]. apply IH in E as [-> ?]. cbn. split; [done|lia].
Qed.

(** Stars: the number does not matter, and a star can take more. *)
Lemma globs_stars k p s : globs (replicate (S k) x2a ++ p) s <-> exists a n, s = a ++ n /\ globs p n.
Proof.
  split.
  - revert s. induction k as [|k IH]; intros s H.
    + cbn in H. inversion H as [|? a n H'| |]; subst; [by exists a, n|done].
    + change (replicate (S (S k)) x2a ++ p) with (x2a :: (replicate (S k) x2a ++ p)) in H.
      inversion H as [|? a n H'| |]; subst; [|done]. destruct (IH _ H') as (b & m & -> & Hm). exists (a ++ b), m. by rewrite app_assoc.
  - intros (a & n & -> & H). induction k as [|k IH]; [by apply globs_star|].
    change (replicate (S (S k)) x2a ++ p) with (x2a :: (replicate (S k) x2a ++ p)). change (a ++ n) with ([] ++ (a ++ n)). by apply globs_star.
Qed.

Lemma globs_longer p a n : globs (x2a :: p) n -> globs (x2a :: p) (a ++ n).
Proof. intros H. inversion H as [|? b m H'| |]; subst; [|done]. rewrite app_assoc. by apply globs_star. Qed.

(** [scanChunk] of a simple pattern *)
Lemma scanChunk_loop_simple p : simple p -> starless (take (scanChunk_loop p false) p) /\ (drop (scanChunk_loop p false) p = [] \/ exists q, drop (scanChunk_loop p false) p = x2a :: q).
Proof.
  intros Hs. induction p as [|c p IH]; [split; [by apply not_elem_of_nil|by left]|].
  inversion_clear Hs as [|? ? [H1 H2] Hs']. destruct (IH Hs') as [IH1 IH2]. destruct (decide (c = x2a)) as [->|Hc].
  - cbn. split; [by apply not_elem_of_nil|]. right. by exists p.
  - assert (scanChunk_loop (c :: p) false = S (scanChunk_loop p false)) as -> by (destruct c; try done).
    cbn [take drop]. split; [|done]. apply not_elem_of_cons. by split.
Qed.

Lemma scanChunk_simple p star chunk rest : simple p -> scanChunk p = (star, chunk, rest) ->
  starless chunk /\ simple chunk /\ simple rest /\ (forall x, x ∈ chunk ++ rest -> x ∈ p) /\ (rest = [] \/ exists q, rest = x2a :: q) /\
  (forall s, globs p s <-> if star then exists a n, s = a ++ n /\ globs (chunk ++ rest) n else globs (chunk ++ rest) s).
Proof.
  intros Hs. unfold scanChunk. destruct (dropStars_spec p) as (k & E & Hk & _). destruct (dropStars p) as [st q]. cbn [fst snd] in *.
  assert (simple q) as Hq by (rewrite E in Hs; by apply Forall_app in Hs as [_ ?]).
  destruct (scanChunk_loop_simple q Hq) as [H1 H2]. intros [= <- <- <-]. split; [done|]. split; [by apply Forall_take|]. split; [by apply Forall_drop|].
  split; [rewrite take_drop, E; set_solver|]. split; [done|].
  rewrite take_drop. intros s. destruct st.
  - destruct k as [|k]; [discriminate (proj2 Hk eq_refl)|]. rewrite E. apply globs_stars.
  - assert (k = 0%nat) as -> by by apply Hk. by rewrite E.
Qed.

Lemma len_zero_nil {A} (l : list A) : (len l =? 0) = true <-> l = [].
Proof. destruct l; [done|]. rewrite len_cons, Z.eqb_eq. pose proof (len_nonneg l). split; [lia|done]. Qed.

(** A match further on stands for less of the name. *)
Lemma suffix_globs chunk q name t a n t' : prefixMatch chunk name = Some t -> name = a ++ n -> prefixMatch chunk n = Some t' ->
  globs (x2a :: q) t' -> globs (x2a :: q) t.
Proof.
  intros Ep -> E' H'. destruct (prefixMatch_rest _ _ _ Ep) as [Et Hl], (prefixMatch_rest _ _ _ E') as [Et' Hl'].
  assert (exists b, t = b ++ t') as (b & ->); [|by apply globs_longer].
  exists (take (length a) t). rewrite Et, Et'. rewrite <- (take_drop (length a) (drop (length chunk) (a ++ n))) at 1. f_equal.
  by rewrite drop_drop, Nat.add_comm, <- drop_drop, drop_app_length.
Qed.

(** The loop over skipped bytes finds a match when there is one, and any match stands for the others. *)
Lemma matchStar_simple chunk rest name : starless chunk -> simple chunk -> (rest = [] \/ exists q, rest = x2a :: q) -> readable chunk name ->
  exists m, matchStar chunk (len rest =? 0) name = Ok m /\
    match m with Some t => exists a, name = a ++ t | None => True end /\
    ((exists a n, name = a ++ n /\ a <> [] /\ globs (chunk ++ rest) n) <-> match m with Some t => globs rest t | None => False end).
Proof.
  intros Hst Hs Hr. induction name as [|c name IH]; intros Ha.
  { exists None. split; [done|]. split; [done|]. split; [|done]. intros (a & n & E & Hne & _). symmetry in E. by apply app_eq_nil in E as [-> _]. }
  assert (readable chunk name) as Ha' by (by apply (readable_part chunk chunk [c])). destruct (IH Ha') as (m & Em & Hm & Hiff).
  assert (match m with Some t => exists a, c :: name = a ++ t | None => True end) as Hm' by (destruct m; [destruct Hm as [a ->]; by exists (c :: a)|done]). cbn [matchStar].
  rewrite matchChunk_simple by (done || lia). cbn [res_bind].
  assert ((exists a n, c :: name = a ++ n /\ a <> [] /\ globs (chunk ++ rest) n) <->
    globs (chunk ++ rest) name \/ (exists a n, name = a ++ n /\ a <> [] /\ globs (chunk ++ rest) n)) as Hstep.
  { split.
    - intros (a & n & E & Hne & H). destruct a as [|c' a]; [done|]. injection E as <- ->. destruct a as [|d a]; [by left|]. right. by exists (d :: a), n.
    - intros [H|(a & n & -> & Hne & H)]; [by exists [c], name|]. by exists (c :: a), n. }
  destruct (prefixMatch chunk name) as [t|] eqn:Ep.
  - destruct Hr as [-> | (q & ->)].
    + cbn [len length Z.of_nat Z.eqb andb]. destruct (len t =? 0) eqn:Et; cbn [negb].
      * apply len_zero_nil in Et as ->. exists (Some []). split; [done|]. split; [exists (c :: name); by rewrite app_nil_r|]. rewrite Hstep. split; [intros _; constructor|].
        intros H. left. apply globs_chunk; [done|]. by exists [].
      * exists m. split; [exact Em|]. split; [exact Hm'|]. rewrite Hstep, Hiff. split; [|by right]. intros [H|H]; [|done].
        apply globs_chunk in H as (t' & E' & H'); [|done]. rewrite Ep in E'. injection E' as <-. inversion H'; subst; done.
    + assert (len (x2a :: q) =? 0 = false) as -> by (apply Z.eqb_neq; rewrite len_cons; pose proof (len_nonneg q); lia). cbn [andb].
      exists (Some t). split; [done|]. destruct (prefixMatch_rest _ _ _ Ep) as [Et Hl]. split; [exists (c :: take (length chunk) name); by rewrite Et, <- app_comm_cons, take_drop|].
      rewrite Hstep. split; [|intros H; left; apply globs_chunk; [done|by exists t]].
      intros [H|(a & n & -> & _ & H)]; apply globs_chunk in H as (t' & E' & H'); try done; [rewrite Ep in E'; by injection E' as <-|].
      by eapply suffix_globs.
  - exists m. split; [exact Em|]. split; [exact Hm'|]. rewrite Hstep, Hiff. split; [|by right]. intros [H|H]; [|done].
    apply globs_chunk in H as (t' & E' & H'); [|done]. rewrite Ep in E'. discriminate E'.
Qed.

Lemma match_loop_simple fuel : forall pattern name, (length pattern < fuel)%nat -> simple pattern -> readable pattern name ->
  exists b, match_loop fuel pattern name = Ok b /\ (b = true <-> globs pattern name).
Proof.
  induction fuel as [|fuel IH]; intros pattern name Hf Hs Ha; [lia|]. cbn [match_loop]. destruct pattern as [|c0 p0].
  { exists (len name =? 0). split; [done|]. rewrite len_zero_nil. split; [intros ->; constructor|]. intros H. by inversion H. }
  set (p := c0 :: p0) in *. destruct (scanChunk p) as [[star chunk] rest] eqn:E. pose proof (scanChunk_shorter _ _ _ _ E ltac:(done)) as Hlt.
  destruct (scanChunk_simple _ _ _ _ Hs E) as (H1 & H2 & H3 & Hin & H4 & H5).
  assert (readable chunk name) as Hac by (apply (readable_part p chunk []); [done|set_solver]).
  assert (forall a t, name = a ++ t -> readable rest t) as Har by (intros a t ->; apply (readable_part p rest a); [done|set_solver]).
  rewrite matchChunk_simple by (done || lia).
  match goal with |- context [if star then ?X else ?Y] =>
    assert (exists b', (if star then X else Y) = Ok b' /\ (b' = true <-> star = true /\ exists a n, name = a ++ n /\ a <> [] /\ globs (chunk ++ rest) n)) as (bs & Es & Hbs) end.
  { destruct star; [|exists false; split; [done|]; split; [done|by intros [? _]]].
    destruct (matchStar_simple chunk rest name H1 H2 H4 Hac) as (m & -> & Hm & Hiff). cbn [res_bind]. destruct m as [t|].
    - destruct Hm as [a Hm]. destruct (IH rest t ltac:(lia) H3 (Har a t Hm)) as (b & -> & Hb). exists b. split; [done|]. rewrite Hb, <- Hiff. tauto.
    - exists false. split; [done|]. rewrite Hiff. split; [done|]. by intros [_ []]. }
  assert (globs p name <-> globs (chunk ++ rest) name \/ bs = true) as Hiff.
  { rewrite H5, Hbs. destruct star; [|split; [by left|]; by intros [?|[? _]]]. split.
    - intros (a & n & -> & H). destruct a as [|d a]; [by left|]. right. split; [done|]. by exists (d :: a), n.
    - intros [H|(_ & a & n & -> & _ & H)]; [by exists [], name|by exists a, n]. }
  destruct (prefixMatch chunk name) as [t|] eqn:Ep.
  - destruct (prefixMatch_rest _ _ _ Ep) as [Et _].
    assert (globs (chunk ++ rest) name <-> globs rest t) as Hc.
    { rewrite globs_chunk by done. rewrite Ep. split; [by intros (t' & [= <-] & H)|]. by exists t. }
    destruct ((len t =? 0) || (len rest >? 0)) eqn:Ec.
    + destruct (IH rest t ltac:(lia) H3 (Har (take (length chunk) name) t ltac:(by rewrite Et, take_drop))) as (b & Eb & Hb). exists b. split; [done|]. rewrite Hb, Hiff, Hc. split; [by left|].
      intros [H|H]; [done|]. apply Hbs in H as (_ & a & n & En & _ & H). destruct H4 as [-> | (q & ->)].
      { cbn in Ec. rewrite orb_false_r in Ec. apply len_zero_nil in Ec as ->. constructor. }
      apply globs_chunk in H as (t' & E' & H'); [|done]. eapply suffix_globs; eauto.
    + exists bs. split; [done|]. rewrite Hiff, Hc. split; [by right|]. intros [H|H]; [|done]. apply orb_false_iff in Ec as [Et0 Er].
      destruct H4 as [-> | (q & ->)].
      * assert (t = []) as E0 by by inversion H. by rewrite E0 in Et0.
      * rewrite len_cons in Er. pose proof (len_nonneg q). rewrite Z.gtb_ltb in Er. apply Z.ltb_ge in Er. lia.
  - exists bs. split; [done|]. rewrite Hiff. split; [by right|]. intros [H|H]; [|done].
    apply globs_chunk in H as (t' & E' & H'); [|done]. rewrite Ep in E'. discriminate E'.
Qed.

(** ** Properties *)

(** Glob patterns match what they say: for a pattern of literals, [?] and [*] and a name, of ASCII where the pattern has a question mark, [match] answers without an error,
    and says yes exactly when the name is an instance of the pattern, where a star stands for any bytes, slashes included;
    on any pattern and name at all it ends without a panic. *)
Theorem index_match_spec pattern name :
  settled (index_match pattern name) /\
  (simple pattern -> readable pattern name -> exists b, index_match pattern name = Ok b /\ (b = true <-> globs pattern name)).
Proof. split; [apply match_loop_settled; lia|]. intros Hs Ha. apply match_loop_simple; [lia|done..]. Qed.

Lemma index_match_spec_witness :
  exists b, index_match (bs "s*/?.go") (bs "src/x/y.go") = Ok b /\ (b = true <-> globs (bs "s*/?.go") (bs "src/x/y.go")).
Proof. apply (index_match_spec (bs "s*/?.go") (bs "src/x/y.go")); [unfold simple; by_decision|left; unfold ascii; by_decision]. Defined.
