(* ===== verification/Filepath.v ===== *)
(** * path/filepath.Match of the standard library, and slices of strings that share their arrays

    [filepath_Match] is what the patterns of gitignore and gitattributes match a name with.  It differs from the
    copy of the package index (file IndexMatch, whose helpers it shares): a wildcard does not match a slash, and
    the rest of a pattern is checked after a failure.

    A Go slice is a window on an array; [append] writes into the array when there is room after the window, and
    other slices of the same array see it.  [strings] and [append_string] model that for slices of strings. *)
From S2P Require Import Prelude GoStrings IndexMatch IndexMatchProofs.

(** ** filepath.Match *)
Fixpoint fp_matchChunk (fuel : nat) (chunk s : bytes) (failed : bool) : res (option bytes) :=
  match fuel with
  | O => NoFuel
  | S fuel =>
    match chunk with
    | [] => Ok (if failed then None else Some s)
    | c :: rest =>
      let failed := failed || (len s =? 0) in
      let literal (chunk : bytes) : res (option bytes) :=
        match chunk, s with
        | [], _ => Err ErrBadPattern
        | c :: rest, s0 :: s' => if failed then fp_matchChunk fuel rest s true else fp_matchChunk fuel rest s' (negb (bool_decide (c = s0)))
        | c :: rest, [] => fp_matchChunk fuel rest s true
        end in
      if bool_decide (c = x5b) then
        let '(r, n) := if failed then (0, 0%nat) else DecodeRuneInString s in
        let negated := match rest with x5e :: _ => true | _ => false end in
        let* (matched, chunk) := matchClass (S (length rest)) r (if negated then drop 1 rest else rest) false 0 in
        fp_matchChunk fuel chunk (drop n s) (failed || Bool.eqb matched negated)
      else if bool_decide (c = x3f) then
        match s with
        | s0 :: _ => if failed then fp_matchChunk fuel rest s true
                     else fp_matchChunk fuel rest (drop (DecodeRuneInString s).2 s) (bool_decide (s0 = x2f))
        | [] => fp_matchChunk fuel rest s true
        end
      else if bool_decide (c = x5c) then literal rest
      else literal chunk
    end
  end.

(** The first place after a star where the chunk fits, before a slash. *)
Fixpoint fp_matchStar (chunk : bytes) (last : bool) (name : bytes) : res (option bytes) :=
  match name with
  | [] => Ok None
  | c :: name =>
    if bool_decide (c = x2f) then Ok None
    else
      let* m := fp_matchChunk (S (length chunk)) chunk name false in
      match m with
      | Some t => if last && negb (len t =? 0) then fp_matchStar chunk last name else Ok (Some t)
      | None => fp_matchStar chunk last name
      end
  end.

(** The syntax of what is left of the pattern. *)
Fixpoint fp_checkRest (fuel : nat) (pattern : bytes) : res bool :=
  match fuel with
  | O => NoFuel
  | S fuel =>
    match pattern with
    | [] => Ok false
    | _ =>
      let '(_, chunk, pattern) := scanChunk pattern in
      let* _ := fp_matchChunk (S (length chunk)) chunk [] false in
      fp_checkRest fuel pattern
    end
  end.

Fixpoint fp_match_loop (fuel : nat) (pattern name : bytes) : res bool :=
  match fuel with
  | O => NoFuel
  | S fuel =>
    match pattern with
    | [] => Ok (len name =? 0)
    | _ =>
      let '(star, chunk, pattern) := scanChunk pattern in
      if star && (len chunk =? 0) then Ok (negb (Contains name (bs "/")))
      else
        let skip := if star then
            let* m := fp_matchStar chunk (len pattern =? 0) name in
            match m with Some t => fp_match_loop fuel pattern t | None => fp_checkRest (S (length pattern)) pattern end
          else fp_checkRest (S (length pattern)) pattern in
        let* m := fp_matchChunk (S (length chunk)) chunk name false in
        match m with
        | Some t => if (len t =? 0) || (len pattern >? 0) then fp_match_loop fuel pattern t else skip
        | None => skip
        end
    end
  end.

Definition filepath_Match (pattern name : bytes) : res bool := fp_match_loop (S (length pattern)) pattern name.

Example filepath_samples :
  filepath_Match (bs "*.go") (bs "a.go") = Ok true /\ filepath_Match (bs "*.go") (bs "src/a.go") = Ok false /\
  filepath_Match (bs "a?c") (bs "a/c") = Ok false /\ filepath_Match (bs "[a-c]x[^0-9]") (bs "bxz") = Ok true /\
  filepath_Match (bs "b[") (bs "a") = Err ErrBadPattern /\ filepath_Match (bs "a\*") (bs "a*") = Ok true /\
  filepath_Match (bs "**") (bs "ab") = Ok true /\ filepath_Match [] [] = Ok true /\ filepath_Match (bs "x\") (bs "y") = Err ErrBadPattern.
Proof. vm_compute. repeat split. Qed.

(** The fuel is enough: an answer or the error for a bad pattern. *)
Lemma fp_matchChunk_settled fuel : forall chunk s failed, (length chunk < fuel)%nat -> settled (fp_matchChunk fuel chunk s failed).
Proof.
  induction fuel as [|fuel IH]; intros chunk s failed Hf; [lia|]. cbn [fp_matchChunk]. destruct chunk as [|c rest]; [done|]. cbn in Hf.
  set (failed' := failed || (len s =? 0)). clearbody failed'.
  assert (forall chunk, (length chunk <= S (length rest))%nat -> settled match chunk, s with
        | [], _ => Err ErrBadPattern
        | c :: rest, s0 :: s' => if failed' then fp_matchChunk fuel rest s true else fp_matchChunk fuel rest s' (negb (bool_decide (c = s0)))
        | c :: rest, [] => fp_matchChunk fuel rest s true end) as Hlit.
  { intros [|c' rest'] Hl; [done|]. cbn in Hl. destruct s; [apply IH; lia|]. destruct failed'; apply IH; lia. }
  case_bool_decide; [|case_bool_decide; [|case_bool_decide; [apply Hlit; lia|apply (Hlit (c :: rest)); cbn; lia]]].
  - destruct (if failed' then _ else _) as [r n]. set (negated := match rest with x5e :: _ => true | _ => false end). clearbody negated.
    pose proof (matchClass_ends (S (length rest)) r (if negated then drop 1 rest else rest) false 0) as H1.
    assert (length (if negated then drop 1 rest else rest) <= length rest)%nat as Hn by (destruct negated; [rewrite length_drop|]; lia).
    specialize (H1 ltac:(lia)). destruct (matchClass _ _ _ _ _) as [[m ch]| | |]; cbn [res_bind]; try done. apply IH. lia.
  - destruct s; [apply IH; lia|]. destruct failed'; apply IH; lia.
Qed.

Lemma fp_matchStar_settled chunk last n : settled (fp_matchStar chunk last n).
Proof.
  induction n as [|x n IH]; [done|]. cbn [fp_matchStar]. case_bool_decide; [done|]. apply settled_bind; [apply fp_matchChunk_settled; lia|].
  intros [t|] _; [|done]. by destruct (_ && _).
Qed.

Lemma fp_checkRest_settled fuel : forall p, (length p < fuel)%nat -> settled (fp_checkRest fuel p).
Proof.
  induction fuel as [|fuel IH]; intros p Hf; [lia|]. cbn [fp_checkRest]. destruct p as [|c p]; [done|].
  destruct (scanChunk (c :: p)) as [[star chunk] rest] eqn:E. apply scanChunk_shorter in E; [|done].
  apply settled_bind; [apply fp_matchChunk_settled; lia|]. intros _ _. apply IH. lia.
Qed.

Lemma filepath_Match_settled pattern name : settled (filepath_Match pattern name).
Proof.
  unfold filepath_Match. assert (forall fuel p n, (length p < fuel)%nat -> settled (fp_match_loop fuel p n)) as H; [|apply H; lia].
  clear. induction fuel as [|fuel IH]; intros p n Hf; [lia|]. cbn [fp_match_loop]. destruct p as [|c p]; [done|].
  destruct (scanChunk (c :: p)) as [[star chunk] rest] eqn:E. apply scanChunk_shorter in E; [|done]. destruct (_ && _); [done|].
  pose proof (fp_checkRest_settled (S (length rest)) rest ltac:(lia)) as Hr.
  apply settled_bind; [apply fp_matchChunk_settled; lia|]. intros m _.
  assert (settled (if star then let* m := fp_matchStar chunk (len rest =? 0) n in
    match m with Some t => fp_match_loop fuel rest t | None => fp_checkRest (S (length rest)) rest end else fp_checkRest (S (length rest)) rest)) as Hs.
  { destruct star; [|done]. apply settled_bind; [apply fp_matchStar_settled|]. intros [t|] _; [apply IH; lia|done]. }
  destruct m as [t|]; [|done]. destruct (_ || _); [apply IH; lia|done].
Qed.

(** ** Patterns without classes and escapes, on a name without a slash *)
Lemma fp_matchChunk_simple chunk : forall fuel s failed, (length chunk < fuel)%nat -> simple chunk -> readable chunk s -> x2f ∉ s ->
  fp_matchChunk fuel chunk s failed = Ok (if failed then None else prefixMatch chunk s).
Proof.
  induction chunk as [|c chunk IH]; intros [|fuel] s failed Hf Hs Ha Hn; cbn [length] in Hf; [lia|done|lia|]. cbn [fp_matchChunk prefixMatch].
  inversion_clear Hs as [|? ? [H1 H2] Hs']. rewrite (bool_decide_eq_false_2 (c = x5b)) by done.
  assert (forall a t, s = a ++ t -> readable chunk t) as Hr by (intros a t ->; apply (readable_part (c :: chunk) chunk a); [done|set_solver]).
  destruct s as [|d s].
  { specialize (Hr [] [] eq_refl). case_bool_decide; [|rewrite (bool_decide_eq_false_2 (c = x5c)) by done]; rewrite IH by (done || lia); by destruct failed. }
  assert (len (d :: s) =? 0 = false) as -> by (apply Z.eqb_neq; rewrite len_cons; pose proof (len_nonneg s); lia). rewrite orb_false_r.
  apply not_elem_of_cons in Hn as [Hd Hn]. pose proof (Hr [] (d :: s) eq_refl) as Hr0. pose proof (Hr [d] s eq_refl) as Hr1.
  case_bool_decide as Hq; cbn [orb].
  - destruct failed; [by rewrite IH by (done || lia || set_solver)|].
    assert (b2z d < 128) as Hd' by (destruct Ha as [Ha|Ha]; [by inversion Ha|subst c; set_solver]). rewrite DecodeRune_ascii, bool_decide_eq_false_2 by done.
    change (drop 1 (d :: s)) with s. by rewrite IH by (done || lia).
  - rewrite (bool_decide_eq_false_2 (c = x5c)) by done. destruct failed; [by rewrite IH by (done || lia || set_solver)|].
    rewrite IH by (done || lia). by destruct (bool_decide (c = d)).
Qed.

Lemma fp_matchStar_simple chunk last name : simple chunk -> readable chunk name -> x2f ∉ name -> fp_matchStar chunk last name = matchStar chunk last name.
Proof.
  intros Hs. induction name as [|c name IH]; intros Ha Hn; [done|]. cbn [fp_matchStar matchStar]. apply not_elem_of_cons in Hn as [Hc Hn].
  assert (readable chunk name) as Ha' by (by apply (readable_part chunk chunk [c])). rewrite bool_decide_eq_false_2 by done.
  rewrite fp_matchChunk_simple, matchChunk_simple by (done || lia). cbn [res_bind]. destruct (prefixMatch chunk name); [|by apply IH].
  destruct (_ && _); [by apply IH|done].
Qed.

Lemma fp_checkRest_simple fuel : forall p, (length p < fuel)%nat -> simple p -> fp_checkRest fuel p = Ok false.
Proof.
  induction fuel as [|fuel IH]; intros p Hf Hs; [lia|]. cbn [fp_checkRest]. destruct p as [|c p]; [done|].
  destruct (scanChunk (c :: p)) as [[star chunk] rest] eqn:E. pose proof (scanChunk_shorter _ _ _ _ E ltac:(done)).
  destruct (scanChunk_simple _ _ _ _ Hs E) as (_ & H2 & H3 & _). rewrite fp_matchChunk_simple; [|lia|done|left; constructor|apply not_elem_of_nil].
  cbn [res_bind]. apply IH; [lia|done].
Qed.

(** A last star takes what is left. *)
Lemma matchStar_last c name : matchStar [] true (c :: name) = Ok (Some []).
Proof. revert c. induction name as [|d name IH]; intros c; [done|]. change (matchStar [] true (c :: d :: name)) with (matchStar [] true (d :: name)). apply IH. Qed.

Lemma fp_match_loop_simple fuel : forall p name, (length p < fuel)%nat -> simple p -> readable p name -> x2f ∉ name -> fp_match_loop fuel p name = match_loop fuel p name.
Proof.
  induction fuel as [|fuel IH]; intros p name Hf Hs Ha Hn; [lia|]. cbn [fp_match_loop match_loop]. destruct p as [|c p]; [done|].
  destruct (scanChunk (c :: p)) as [[star chunk] rest] eqn:E. pose proof (scanChunk_shorter _ _ _ _ E ltac:(done)) as Hlt.
  destruct (scanChunk_simple _ _ _ _ Hs E) as (H1 & H2 & H3 & Hin & H4 & _).
  assert (readable chunk name) as Hac by (apply (readable_part (c :: p) chunk []); [done|set_solver]).
  assert (forall a t, name = a ++ t -> fp_match_loop fuel rest t = match_loop fuel rest t) as Hrest.
  { intros a t ->. apply IH; [lia|done| |set_solver]. apply (readable_part (c :: p) rest a); [done|set_solver]. }
  rewrite fp_matchChunk_simple, matchChunk_simple by (done || lia). cbn [res_bind]. rewrite fp_checkRest_simple by (done || lia).
  destruct (star && (len chunk =? 0)) eqn:Est.
  - apply andb_prop in Est as [-> Ec]. apply len_zero_nil in Ec as ->. assert (rest = []) as ->.
    { destruct H4 as [?|[q ->]]; [done|]. unfold scanChunk in E. destruct (dropStars_spec (c :: p)) as (k & _ & _ & Hq). destruct (dropStars (c :: p)) as [st r].
      cbn [snd] in Hq. injection E as _ E1 E2. pose proof (take_drop (scanChunk_loop r false) r) as Er. rewrite E1, E2 in Er. by destruct (Hq q). }
    assert (Contains name (bs "/") = false) as -> by (apply not_true_is_false; intros (u & v & Ev)%Contains_true; apply Hn; rewrite Ev; set_solver).
    destruct fuel as [|fuel]; [cbn in Hf; lia|]. destruct name as [|d name]; [done|]. cbn [prefixMatch]. rewrite len_cons. pose proof (len_nonneg name).
    destruct (Z.eqb_spec (1 + len name) 0); [lia|]. change (len ([] : bytes) =? 0) with true. by rewrite matchStar_last.
  - assert ((if star then let* m := fp_matchStar chunk (len rest =? 0) name in match m with Some t => fp_match_loop fuel rest t | None => Ok false end else Ok false) =
      (if star then let* m := matchStar chunk (len rest =? 0) name in match m with Some t => match_loop fuel rest t | None => Ok false end else Ok false)) as ->.
    { destruct star; [|done]. rewrite fp_matchStar_simple by done. destruct (matchStar_simple chunk rest name H1 H2 H4 Hac) as (m & -> & Hm & _). cbn [res_bind].
      destruct m as [t|]; [|done]. destruct Hm as [a Hm]. by apply (Hrest a). }
    destruct (prefixMatch chunk name) as [t|] eqn:Ep; [|done]. destruct (_ || _); [|done]. apply (Hrest (take (length chunk) name)).
    destruct (prefixMatch_rest _ _ _ Ep) as [-> _]. by rewrite take_drop.
Qed.

(** For literals, [?] and [*] on an element of a path the answer is the usual relation. *)
Lemma filepath_Match_simple p name : simple p -> readable p name -> x2f ∉ name -> exists b, filepath_Match p name = Ok b /\ (b = true <-> globs p name).
Proof. intros Hs Ha Hn. unfold filepath_Match. rewrite fp_match_loop_simple by (done || lia). apply match_loop_simple; [lia|done..]. Qed.

(** ** Slices of strings *)

(** The arrays of the slices, each with its capacity. *)
Notation strings := (list (list bytes)).
Record Slice := mkSlice { sl_arr : nat; sl_len : nat }.
#[global] Instance Slice_eq_decision : EqDecision Slice.
Proof. solve_decision. Defined.

Definition array_of (h : strings) (s : Slice) : list bytes := default [] (h !! sl_arr s).
(** The elements of a slice. *)
Definition contents (h : strings) (s : Slice) : list bytes := take (sl_len s) (array_of h s).
(** A slice is within the capacity of an array of the store. *)
Definition slice_ok_in (h : strings) (s : Slice) : Prop := (sl_arr s < length h)%nat /\ (sl_len s <= length (array_of h s))%nat.
(** What a step may do that owns the room after [s]: new arrays, and writes past the end of [s]. *)
Definition writes_after (h : strings) (s : Slice) (h' : strings) : Prop :=
  (length h <= length h')%nat /\ (forall i, (i < length h)%nat -> i <> sl_arr s -> h' !! i = h !! i) /\
  length (array_of h' s) = length (array_of h s) /\ contents h' s = contents h s.

Section append.
Variable newcap : nat -> nat. (* the growth of runtime.growslice from a capacity *)

(** [append(s, x)]; the new array has room for the element whatever [newcap] says. *)
Definition append_string (h : strings) (s : Slice) (x : bytes) : strings * Slice :=
  let a := array_of h s in
  if (sl_len s <? length a)%nat then (<[sl_arr s := <[sl_len s := x]> a]> h, mkSlice (sl_arr s) (S (sl_len s)))
  else (h ++ [a ++ x :: replicate (newcap (length a) - S (length a)) []], mkSlice (length h) (S (sl_len s))).

Lemma writes_after_refl h s : writes_after h s h.
Proof. by split_and!. Qed.

Lemma writes_after_trans h1 h2 h3 s : slice_ok_in h1 s -> writes_after h1 s h2 -> writes_after h2 s h3 -> writes_after h1 s h3.
Proof.
  intros [Ha Hb] (? & W1 & ? & ?) (? & W2 & ? & ?). split_and!; [lia| |congruence|congruence].
  intros i ? ?. rewrite W2, W1; [done|lia|done|lia|done].
Qed.

Lemma writes_after_ok h s h' : slice_ok_in h s -> writes_after h s h' -> slice_ok_in h' s.
Proof. intros [? ?] (? & _ & E & _). split; [lia|by rewrite E]. Qed.

Lemma array_of_insert h s t a : sl_arr t = sl_arr s -> (sl_arr s < length h)%nat -> array_of (<[sl_arr s := a]> h) t = a.
Proof. intros E ?. unfold array_of. by rewrite E, list_lookup_insert_eq. Qed.

Lemma array_of_snoc h y n : array_of (h ++ [y]) (mkSlice (length h) n) = y.
Proof. unfold array_of. cbn. by rewrite list_lookup_middle. Qed.

Lemma array_of_app h y s : (sl_arr s < length h)%nat -> array_of (h ++ [y]) s = array_of h s.
Proof. intros ?. unfold array_of. by rewrite lookup_app_l. Qed.

Lemma append_string_ok h s x h' s' : slice_ok_in h s -> append_string h s x = (h', s') ->
  slice_ok_in h' s' /\ contents h' s' = contents h s ++ [x] /\ writes_after h s h' /\ sl_len s' = S (sl_len s).
Proof.
  unfold append_string, slice_ok_in, writes_after, contents. intros [Ha Hl]. case_match eqn:E; intros [= <- <-]; cbn [sl_arr sl_len].
  - apply Nat.ltb_lt in E. rewrite !array_of_insert, !length_insert by done.
    split_and!; [done|lia| |done| |done|by rewrite take_insert_ge by lia|done].
    + rewrite (take_S_r _ _ x) by (by rewrite list_lookup_insert_eq). by rewrite take_insert_ge by lia.
    + intros i ? ?. by rewrite list_lookup_insert_ne by congruence.
  - apply Nat.ltb_ge in E. assert (sl_len s = length (array_of h s)) as -> by lia.
    rewrite array_of_snoc, array_of_app, !length_app by done. cbn [length]. split_and!; [lia|lia| |lia| |done|done|done].
    + rewrite take_app_ge by lia. replace (S (length (array_of h s)) - length (array_of h s))%nat with 1%nat by lia. by rewrite (take_ge (array_of h s)) by lia.
    + intros i ? _. by rewrite lookup_app_l.
Qed.

(** Writes past a longer slice are writes past the one it was appended to. *)
Lemma writes_after_append h s x h1 s1 h2 : slice_ok_in h s -> append_string h s x = (h1, s1) -> writes_after h1 s1 h2 -> writes_after h s h2.
Proof.
  intros Hs E. pose proof (append_string_ok _ _ _ _ _ Hs E) as (Hs1 & Hc & Hw & Hl). intros (H1 & H2 & H3 & H4).
  destruct Hw as (W1 & W2 & W3 & W4). destruct Hs as [Ha Hb].
  unfold append_string in E. case_match eqn:Ec; injection E as <- <-.
  - cbn [sl_arr sl_len] in *. unfold writes_after. split_and!; [lia| | |].
    + intros i ? ?. rewrite H2, W2; [done|lia|done|lia|done].
    + unfold array_of in *. cbn [sl_arr] in *. rewrite H3. done.
    + assert (contents h2 s = take (sl_len s) (contents h2 (mkSlice (sl_arr s) (S (sl_len s))))) as ->.
      { unfold contents, array_of. cbn. rewrite take_take. f_equal. lia. }
      rewrite H4, Hc. rewrite take_app_le; [apply take_ge|]; unfold contents; rewrite length_take; lia.
  - cbn in H2. assert (h2 !! sl_arr s = h !! sl_arr s) as E2. { rewrite H2; [|rewrite length_app; lia|cbn; lia]. by rewrite lookup_app_l. }
    assert (array_of h2 s = array_of h s) as E3. { unfold array_of. by rewrite E2. }
    unfold writes_after, contents. rewrite E3. split_and!; [rewrite length_app in H1; lia| |done|done].
    intros i ? ?. rewrite H2; [|rewrite length_app; lia|cbn; lia]. by rewrite lookup_app_l.
Qed.
End append.

(** The growth of the Go runtime for slices of strings of up to 256 elements: one, then twice. *)
Definition go_newcap (c : nat) : nat := match c with O => 1%nat | _ => (2 * c)%nat end.

(** [nil], and the store where it is the only slice. *)
Definition nil_slice : Slice := mkSlice 0 0.
Definition no_strings : strings := [[]].
