(* ===== verification/WorktreeIndexProofs.v ===== *)
(** * The worktree index: round trip and safety

    Entries, names and flags of the index file are read back as they were written; decoding ends on any bytes and
    checks what it accepts; and where the decoder departs from the format. *)
From S2P Require Import Prelude Binary GoStrings GoPath Strconv ObjectID WorktreeIndex IndexMatch.

(** ** Paths that are clean *)
Lemma Split_snoc_sep cs : cs <> [] -> Forall component cs -> Split (Join cs [x2f] ++ [x2f]) x2f = cs ++ [[]].
Proof.
  intros Hne Hcs. rewrite <- (app_nil_r (_ ++ [x2f])). rewrite <- app_assoc. rewrite <- (Join_snoc cs [] [x2f] Hne).
  apply Split_Join; [by destruct cs|]. apply Forall_app. split; [|by repeat constructor; intros ?%elem_of_nil].
  eapply Forall_impl; [done|]. by intros c (_ & _ & _ & ?).
Qed.

Lemma HasPrefix_slash cs x : cs <> [] -> Forall component cs -> HasPrefix (Join cs [x2f] ++ x) [x2f] = false.
Proof.
  intros Hne Hcs. destruct cs as [|c cs]; [done|]. inversion_clear Hcs as [|? ? (Hc & _ & _ & Hs) _].
  destruct c as [|b c]; [done|]. rewrite HasPrefix_byte.
  assert (exists y, Join ((b :: c) :: cs) [x2f] ++ x = b :: y) as (y & ->).
  { destruct cs as [|d cs]; cbn; eauto. }
  apply bool_decide_eq_false_2. intros ->. set_solver.
Qed.

Lemma Clean_slash cs : cs <> [] -> Forall component cs -> Clean (Join cs [x2f] ++ [x2f]) = Join cs [x2f].
Proof.
  intros Hne Hcs. unfold Clean. rewrite HasPrefix_slash, Split_snoc_sep by done.
  rewrite foldl_app, (cleanStep_components _ cs [] Hcs). cbn [foldl]. change (cleanStep false (rev cs ++ []) []) with (rev cs ++ []).
  rewrite app_nil_r, rev_involutive. by destruct cs.
Qed.

Lemma path_Dir_Join cs c : Forall component (cs ++ [c]) ->
  path_Dir (Join (cs ++ [c]) [x2f]) = match cs with [] => bs "." | _ => Join cs [x2f] end.
Proof.
  intros [Hcs Hc]%Forall_app. apply Forall_inv in Hc as (_ & _ & _ & Hs). unfold path_Dir.
  destruct (decide (cs = [])) as [->|Hne].
  - cbn [app Join]. by rewrite path_Split_none.
  - rewrite Join_snoc by done. cbn [app]. rewrite path_Split_name by done. cbn [fst]. rewrite Clean_slash by done. by destruct cs.
Qed.

(** A clean relative path does not start with [./]. *)
Lemma Join_dot_slash cs : Forall component cs -> HasPrefix (Join cs [x2f]) (bs "./") = false.
Proof.
  intros Hcs. apply not_true_iff_false. intros (r & E)%HasPrefix_true.
  destruct cs as [|c cs]; [done|]. inversion_clear Hcs as [|? ? (H1 & H2 & _ & H4) _].
  assert (c = bs ".") as ->; [|done]. change (bs "./") with [x2e; x2f] in E. cbn [app] in E.
  destruct c as [|b c]; [done|]. assert (exists y, Join ((b :: c) :: cs) [x2f] = b :: y) as (y & Ey) by (destruct cs; cbn; eauto).
  rewrite Ey in E. injection E as -> Ey'. destruct c as [|b' c]; [done|].
  exfalso. apply H4. subst y. destruct cs; cbn in Ey; injection Ey as -> _; set_solver.
Qed.

(** ** Flags *)
Lemma flags_sum stage n : 0 <= stage < 4 -> 0 <= n < 4096 -> Z.lor (Z.shiftl stage 12) n = n + stage * 2 ^ 12.
Proof. intros Hs Hn. rewrite Z.lor_comm. apply lor_shiftl_add; lia. Qed.
Lemma flags_extended f : 0 <= f < 2 ^ 14 -> Z.lor f entryExtended = f + 1 * 2 ^ 14.
Proof. intros Hf. change entryExtended with (Z.shiftl 1 14). apply lor_shiftl_add; lia. Qed.

Lemma flags_name f : 0 <= f -> Z.land f nameMask = f mod 4096.
Proof. intros _. change nameMask with (Z.ones 12). by rewrite Z.land_ones by lia. Qed.
Lemma flags_stage f : 0 <= f -> Z.land (Z.shiftr f 12) 3 = (f / 4096) mod 4.
Proof. intros _. change 3 with (Z.ones 2). rewrite Z.land_ones by lia. by rewrite Z.shiftr_div_pow2 by lia. Qed.
Lemma flags_isExtended f : 0 <= f -> negb (Z.land f entryExtended =? 0) = Z.odd (f / 16384).
Proof.
  intros _. change entryExtended with (2 ^ 14). rewrite land_pow2_testbit by lia. rewrite Z.testbit_odd.
  by rewrite Z.shiftr_div_pow2 by lia.
Qed.

(** ** Entries the format can hold *)
Definition instant_ok (t : Instant) : Prop :=
  t = zeroInstant \/ (0 <= unix t < 2 ^ 32 /\ 0 <= nanos t < 1000000000 /\ (unix t <> 0 \/ nanos t <> 0)).

(** Versions 2 and 3 have twelve bits for the length of a name; version 4 shares the directory with the entry before. *)
Definition name_ok (version : Z) (name : bytes) : Prop :=
  if version =? 4 then (exists cs, cs <> [] /\ Forall component cs /\ name = Join cs [x2f]) /\ x00 ∉ name /\ len name < 2 ^ 63
  else len name <= nameMask.

Record entry_ok (version : Z) (e : IndexEntry) : Prop := {
  ok_hash : wf_id (eHash e) /\ oformat (eHash e) = SHA1;
  ok_name : name_ok version (eName e);
  ok_created : instant_ok (eCreatedAt e);
  ok_modified : instant_ok (eModifiedAt e);
  ok_dev : 0 <= eDev e < 2 ^ 32;
  ok_inode : 0 <= eInode e < 2 ^ 32;
  ok_mode : 0 <= eMode e < 2 ^ 32;
  ok_uid : 0 <= eUID e < 2 ^ 32;
  ok_gid : 0 <= eGID e < 2 ^ 32;
  ok_size : 0 <= eSize e < 2 ^ 32;
  ok_stage : 0 <= eStage e < 4 }.

Lemma timeToUint32_ok t : instant_ok t ->
  exists s n, timeToUint32 t = Ok (s, n) /\ 0 <= s < 2 ^ 32 /\ 0 <= n < 2 ^ 32 /\ instantOf s n = t.
Proof.
  intros [->|(Hu & Hn & Hz)]; [by exists 0, 0|]. exists (unix t), (nanos t). destruct t as [u n]. cbn [unix nanos] in *.
  unfold timeToUint32, time_IsZero, time_UnixNano. cbn [unix nanos].
  rewrite bool_decide_eq_false_2 by (unfold zeroInstant; intros [= -> ->]; lia).
  rewrite i64_small by lia. rewrite !u32_small by lia.
  destruct (Z.ltb_spec u 0); [lia|]. destruct (Z.ltb_spec (u * 1000000000 + n) 0); [lia|]. cbn [orb].
  split; [done|]. split; [lia|]. split; [lia|]. unfold instantOf, time_Unix.
  destruct (Z.eqb_spec u 0), (Z.eqb_spec n 0); cbn [negb orb]; try lia;
    rewrite Z.div_small, Z.mod_small by lia; f_equal; lia.
Qed.

Lemma ReadFrom_hash h r : wf_id h -> oformat h = SHA1 -> ReadFrom ZeroHash (ObjectID_Bytes h ++ r) = Ok (h, r).
Proof.
  intros Hwf Hf. destruct (wf_bytes h Hwf) as (Hl & Hc & Hs). unfold ReadFrom.
  change (ObjectID_Size ZeroHash) with 20. rewrite readFull_app by (rewrite Hl, Hs, Hf; done). cbn [res_bind]. change (hash ZeroHash) with emptyHash.
  rewrite Hc. destruct h as [h f]. cbn in *. by rewrite Hf.
Qed.

(** *** Names of version 4 *)
Lemma entryNameV4_roundtrip e entry w rest : name_ok 4 (eName entry) -> (forall last, encLast e = Some last -> name_ok 4 (eName last)) ->
  w = encW e -> exists b, encodeEntryNameV4 e entry = Ok (mkEncoder (w ++ b) (Some entry)) /\
    doReadEntryNameV4 (encLast e) (b ++ rest) = Ok (eName entry, rest).
Proof.
  intros Hn Hl ->. unfold encodeEntryNameV4, doReadEntryNameV4.
  change (name_ok 4 (eName entry)) with ((exists cs, cs <> [] /\ Forall component cs /\ eName entry = Join cs [x2f]) /\ x00 ∉ eName entry /\ len (eName entry) < 2 ^ 63) in Hn.
  destruct Hn as ((cs & Hcs & Hcomp & E) & Hnul & Hlen).
  assert (forall n name base, 0 <= n < 2 ^ 63 -> x00 ∉ name ->
    exists b, (let* w := WriteVariableWidthInt n in Ok (mkEncoder (encW e ++ w ++ name ++ [x00]) (Some entry))) = Ok (mkEncoder (encW e ++ b) (Some entry)) /\
    (let* (l, r) := ReadVariableWidthInt (b ++ rest) in let* x := base l in let* (nm, r) := ReadUntil r x00 in Ok (x ++ nm, r)) =
      (let* x := base n in Ok (x ++ name, rest) : res (bytes * bytes))) as Hgen.
  { intros n name base Hb Hx. destruct (ReadVariableWidthInt_app n (name ++ x00 :: rest) Hb) as (w & Hw & Hr).
    exists (w ++ name ++ [x00]). rewrite Hw. split; [done|]. rewrite <- !app_assoc. cbn [app]. rewrite Hr. cbn [res_bind].
    rewrite ReadUntil_app by by rewrite <- list_elem_of_In. done. }
  destruct (encLast e) as [last|] eqn:El.
  - specialize (Hl last eq_refl).
    change (name_ok 4 (eName last)) with ((exists cs, cs <> [] /\ Forall component cs /\ eName last = Join cs [x2f]) /\ x00 ∉ eName last /\ len (eName last) < 2 ^ 63) in Hl.
    destruct Hl as ((ds & Hds & Hdcomp & Ed) & _ & Hdlen). pose proof (len_nonneg (eName last)).
    destruct (HasPrefix (eName entry) (path_Dir (eName last) ++ [x2f])) eqn:Hp.
    + assert (exists t, eName last = (path_Dir (eName last) ++ [x2f]) ++ t) as (t & Et).
      { destruct ds as [|d ds _] using rev_ind; [done|]. rewrite Ed, path_Dir_Join in * by done. destruct ds as [|d' ds].
        - exfalso. rewrite E in Hp. change (bs "." ++ [x2f]) with (bs "./") in Hp. by rewrite Join_dot_slash in Hp.
        - rewrite Join_snoc by done. exists d. by rewrite <- app_assoc. }
      revert Hp Et. generalize (path_Dir (eName last) ++ [x2f]). intros dir Hp Et. apply HasPrefix_true in Hp as (x & Ex).
      assert (TrimPrefix (eName entry) dir = x) as ->.
      { unfold TrimPrefix. rewrite Ex, HasPrefix_self, drop_app_length. done. }
      pose proof (f_equal len Et) as Hlast. rewrite len_app in Hlast. pose proof (len_nonneg dir). pose proof (len_nonneg t).
      destruct (Hgen (len (eName last) - len dir) x (fun l => slice (eName last) 0 (i64 (len (eName last) - l)))) as (b & E1 & E2); [lia|intros Hx; apply Hnul; rewrite Ex; apply elem_of_app; by right|].
      exists b. split; [exact E1|]. etransitivity; [exact E2|]. cbv beta. replace (len (eName last) - (len (eName last) - len dir)) with (len dir) by lia.
      rewrite i64_small by lia. rewrite Et, slice_app_l. cbn [res_bind]. by rewrite Ex.
    + destruct (Hgen (len (eName last)) (eName entry) (fun l => slice (eName last) 0 (i64 (len (eName last) - l)))) as (b & E1 & E2); [lia|done|].
      exists b. split; [exact E1|]. etransitivity; [exact E2|]. cbv beta. rewrite Z.sub_diag. change (i64 0) with 0. rewrite slice_ok by lia. by rewrite seg_empty.
  - destruct (Hgen 0 (eName entry) (fun _ => Ok [])) as (b & E1 & E2); [lia|done|]. exists b. split; [exact E1|exact E2].
Qed.

(** *** Flags *)
Definition storedLength (name : bytes) : Z := if len name <? nameMask then len name else nameMask.

Lemma storedLength_range name : 0 <= storedLength name < 4096.
Proof. unfold storedLength. change nameMask with 4095. pose proof (len_nonneg name). destruct (Z.ltb_spec (len name) 4095); lia. Qed.

Lemma extendedFlags_ok (i s : bool) :
  let x := Z.lor (if i then intentToAddMask else 0) (if s then skipWorkTreeMask else 0) in
  0 <= x < 2 ^ 16 /\ negb (Z.land x intentToAddMask =? 0) = i /\ negb (Z.land x skipWorkTreeMask =? 0) = s.
Proof. destruct i, s; vm_compute; repeat split; congruence. Qed.

Lemma div_flags n s k : 0 <= n < 4096 -> 0 <= s < 4 -> 0 <= k < 2 ->
  let f := n + s * 2 ^ 12 + k * 2 ^ 14 in f mod 4096 = n /\ (f / 4096) mod 4 = s /\ f / 16384 = k /\ 0 <= f < 2 ^ 16.
Proof.
  intros Hn Hs Hk f. subst f. replace (n + s * 2 ^ 12 + k * 2 ^ 14) with (n + (s + k * 4) * 4096) by lia.
  rewrite Z.mod_add, Z.mod_small by lia. rewrite Z.div_add, (Z.div_small n) by lia.
  replace (0 + (s + k * 4)) with (s + k * 4) by lia. rewrite Z.mod_add, Z.mod_small by lia.
  replace (n + (s + k * 4) * 4096) with ((n + s * 4096) + k * 16384) by lia. rewrite Z.div_add, Z.div_small by lia. lia.
Qed.

(** What [readIndexEntry] gets from the flags. *)
Lemma readFlags_ok entry r : 0 <= eStage entry < 4 ->
  exists flags, 0 <= flags /\ ReadUint16 (entryFlags entry ++ r) = Ok (flags, drop 2 (entryFlags entry) ++ r) /\
    Z.land flags nameMask = storedLength (eName entry) /\ Z.land (Z.shiftr flags 12) 3 = eStage entry /\
    negb (Z.land flags entryExtended =? 0) = extended entry /\
    (extended entry = true -> exists x, ReadUint16 (drop 2 (entryFlags entry) ++ r) = Ok (x, r) /\
      negb (Z.land x intentToAddMask =? 0) = eIntentToAdd entry /\ negb (Z.land x skipWorkTreeMask =? 0) = eSkipWorktree entry) /\
    (extended entry = false -> drop 2 (entryFlags entry) = []).
Proof.
  intros Hs. pose proof (storedLength_range (eName entry)) as Hn. unfold entryFlags. fold (storedLength (eName entry)).
  assert (Z.land (eStage entry) 3 = eStage entry) as -> by (change 3 with (Z.ones 2); rewrite Z.land_ones, Z.mod_small; lia).
  rewrite flags_sum by lia. destruct (extended entry) eqn:E.
  - rewrite flags_extended by lia. destruct (div_flags (storedLength (eName entry)) (eStage entry) 1) as (D1 & D2 & D3 & D4); [lia..|].
    destruct (extendedFlags_ok (eIntentToAdd entry) (eSkipWorktree entry)) as (X1 & X2 & X3).
    eexists. split; [apply D4|]. rewrite <- app_assoc.
    split; [rewrite ReadUint16_app by lia; rewrite drop_app_ge by done; done|].
    rewrite flags_name, flags_stage, flags_isExtended, D1, D2, D3 by lia. split_and!; [done..| |done].
    intros _. eexists. rewrite drop_app_ge by done. change (drop _ ?l) with l at 1. rewrite ReadUint16_app by lia. done.
  - destruct (div_flags (storedLength (eName entry)) (eStage entry) 0) as (D1 & D2 & D3 & D4); [lia..|]. rewrite Z.add_0_r in D1, D2, D3, D4.
    eexists. split; [apply D4|]. rewrite ReadUint16_app by lia. split; [done|].
    rewrite flags_name, flags_stage, flags_isExtended, D1, D2, D3 by lia. by split_and!.
Qed.

(** *** One entry *)
Lemma encW_write e b : encW (enc_write e b) = encW e ++ b.
Proof. done. Qed.

Definition lengthOf (entry : IndexEntry) : Z := entryHeaderLength + (if extended entry then 2 else 0) + len (eName entry).

Lemma name_roundtrip version idx e entry last : (version = 2 \/ version = 3 \/ version = 4) -> iVersion idx = version -> name_ok version (eName entry) ->
  (version = 4 -> encLast e = last /\ forall l, last = Some l -> name_ok 4 (eName l)) ->
  exists b last', (forall flags, (if (iVersion idx =? 2) || (iVersion idx =? 3) then Ok (encodeEntryName e entry)
    else if iVersion idx =? 4 then encodeEntryNameV4 e entry else Err ErrUnsupportedVersion) = Ok (mkEncoder (encW e ++ b) last') /\
    (version = 4 -> last' = Some entry) /\
    (Z.land flags nameMask = storedLength (eName entry) -> forall rest, readEntryName version last flags (b ++ rest) = Ok (eName entry, rest))).
Proof.
  intros Hv Hi Hn Hl. rewrite Hi.
  assert (forall flags rest, len (eName entry) <= nameMask -> Z.land flags nameMask = storedLength (eName entry) -> doReadEntryName (Z.land flags nameMask) (eName entry ++ rest) = Ok (eName entry, rest)) as Hr.
  { intros flags rest Hle Hf. unfold doReadEntryName. apply readFull_app. rewrite Hf. unfold storedLength.
    destruct (Z.ltb_spec (len (eName entry)) nameMask); lia. }
  destruct Hv as [-> | [-> | ->]].
  - exists (eName entry), (encLast e). intros flags. cbn. split; [done|]. split; [done|]. intros Hf rest. by apply Hr.
  - exists (eName entry), (encLast e). intros flags. cbn. split; [done|]. split; [done|]. intros Hf rest. by apply Hr.
  - destruct (Hl eq_refl) as [E Hok]. subst last.
    destruct (entryNameV4_roundtrip e entry (encW e) [] Hn Hok eq_refl) as (b & E1 & _).
    exists b, (Some entry). intros flags. cbn. split; [done|]. split; [done|]. intros _ rest. unfold readEntryName. cbn.
    destruct (entryNameV4_roundtrip e entry (encW e) rest Hn Hok eq_refl) as (b' & E1' & E2').
    rewrite E1 in E1'. injection E1' as E1'. by apply app_inv_head in E1' as ->.
Qed.

Definition padding (version : Z) (entry : IndexEntry) : bytes :=
  if version =? 4 then [] else replicate (Z.to_nat (8 - lengthOf entry mod 8)) x00.

Lemma padEntry_roundtrip version entry rest :
  dec_padEntry version (eName entry) (entryHeaderLength + (if extended entry then 2 else 0)) (padding version entry ++ rest) = Ok rest.
Proof.
  unfold dec_padEntry, padding. fold (lengthOf entry). destruct (version =? 4); [done|].
  pose proof (Z.mod_pos_bound (lengthOf entry) 8 ltac:(lia)). rewrite len_app, len_replicate, Z2Nat.id by lia. pose proof (len_nonneg rest).
  destruct (Z.ltb_spec (8 - lengthOf entry mod 8 + len rest) (8 - lengthOf entry mod 8)); [lia|].
  by rewrite drop_app_length' by by rewrite length_replicate.
Qed.

Lemma entry_roundtrip version idx e entry last : (version = 2 \/ version = 3 \/ version = 4) -> iVersion idx = version -> entry_ok version entry ->
  (version = 4 -> encLast e = last /\ forall l, last = Some l -> name_ok 4 (eName l)) ->
  exists b e', encodeEntry e idx entry = Ok e' /\
    encW (enc_padEntry e' idx (lengthOf entry)) = encW e ++ b /\
    (version = 4 -> encLast (enc_padEntry e' idx (lengthOf entry)) = Some entry) /\
    forall rest, readIndexEntry version last (b ++ rest) = Ok (entry, rest).
Proof.
  intros Hv Hi [[Hh1 Hh2] Hn Hc Hm H1 H2 H3 H4 H5 H6 H7] Hl. unfold encodeEntry.
  destruct (timeToUint32_ok _ Hc) as (s1 & n1 & -> & B1 & B2 & T1), (timeToUint32_ok _ Hm) as (s2 & n2 & -> & B3 & B4 & T2). cbn [res_bind].
  set (hdr := WriteUint32 s1 ++ _).
  destruct (name_roundtrip version idx (enc_write e hdr) entry last Hv Hi Hn Hl) as (b & last' & Hname).
  exists (hdr ++ b ++ padding version entry), (mkEncoder (encW (enc_write e hdr) ++ b) last').
  split; [apply (Hname 0)|]. split; [|split].
  - unfold enc_padEntry, padding. rewrite Hi. destruct (version =? 4); cbn [enc_write encW]; rewrite <- ?app_assoc; [by rewrite app_nil_r|done].
  - intros ->. unfold enc_padEntry. rewrite Hi. cbn. by apply (Hname 0).
  - intros rest. unfold readIndexEntry. rewrite <- !app_assoc. subst hdr. rewrite <- !app_assoc.
    do 10 (rewrite ReadUint32_app by lia; cbn [res_bind]). rewrite ReadFrom_hash by done. cbn [res_bind].
    destruct (readFlags_ok entry (b ++ padding version entry ++ rest) H7) as (f & _ & -> & F1 & F2 & F3 & F4 & F5). cbn [res_bind].
    rewrite F3, F2. destruct (Hname f) as (_ & _ & Hr). specialize (Hr F1).
    pose proof (padEntry_roundtrip version entry rest) as Hp. unfold extended in Hp, F4, F5 |- *.
    destruct (eIntentToAdd entry || eSkipWorktree entry) eqn:Ex.
    + destruct (F4 eq_refl) as (x & -> & X1 & X2). cbn [res_bind]. rewrite Hr. cbn [res_bind]. rewrite Hp. cbn [res_bind].
      rewrite X1, X2, T1, T2. by destruct entry.
    + rewrite (F5 eq_refl). cbn [res_bind app]. rewrite Hr. cbn [res_bind]. rewrite Hp. cbn [res_bind].
      apply orb_false_iff in Ex as [E1 E2]. rewrite T1, T2. destruct entry; cbn in *. by rewrite E1, E2.
Qed.

Lemma entries_roundtrip version idx entries : forall e last, (version = 2 \/ version = 3 \/ version = 4) -> iVersion idx = version -> Forall (entry_ok version) entries ->
  (version = 4 -> encLast e = last /\ forall l, last = Some l -> name_ok 4 (eName l)) ->
  exists b e', encodeEntries_loop e idx entries = Ok e' /\ encW e' = encW e ++ b /\
    forall es rest, readEntries (length entries) version last es (b ++ rest) = Ok (es ++ entries, rest).
Proof.
  induction entries as [|entry entries IH]; intros e last Hv Hi Hok Hl.
  { exists [], e. split; [done|]. split; [by rewrite app_nil_r|]. intros es rest. cbn. by rewrite app_nil_r. }
  apply Forall_cons in Hok as [Hentry Hok].
  destruct (entry_roundtrip version idx e entry last Hv Hi Hentry Hl) as (b & e1 & E1 & W1 & L1 & R1).
  destruct (IH (enc_padEntry e1 idx (lengthOf entry)) (Some entry) Hv Hi Hok) as (b2 & e2 & E2 & W2 & R2).
  { intros E. split; [by apply L1|]. intros l [= <-]. subst version. destruct Hentry. by rewrite E in *. }
  exists (b ++ b2), e2. cbn [encodeEntries_loop length readEntries]. rewrite E1. cbn [res_bind]. split; [exact E2|].
  split; [by rewrite W2, W1, app_assoc|]. intros es rest. rewrite <- app_assoc, R1. cbn [res_bind]. rewrite R2. by rewrite <- app_assoc.
Qed.

Section File.
Context (sha1 : bytes -> bytes) (sortByName : list IndexEntry -> list IndexEntry) (mapOrder : list Z -> list Z) (unfetched : bytes -> bytes).
Hypothesis Hsha : forall b, len (sha1 b) = hashSize.
Hypothesis Hsort : forall l, sortByName l ≡ₚ l.

Lemma readChecksum_ok sum r : len sum = 20 -> readChecksum sum (sum ++ r) = Ok r.
Proof.
  intros Hl. unfold readChecksum, ReadFrom. change (ObjectID_Size ZeroHash) with 20. rewrite readFull_app by done. cbn [res_bind].
  unfold ObjectID_Compare, ObjectID_Bytes. cbn [hash oformat ZeroHash]. change (ObjectID_Size _) with 20.
  rewrite copyBytes_prefix by (cut (length sum <= 32)%nat; [done|unfold len in Hl; lia]). unfold seg. rewrite drop_0. unfold len in Hl.
  rewrite take_app_length' by (cbn; lia). by rewrite compareBytes_refl.
Qed.

Lemma Index_roundtrip idx trailing : (iVersion idx = 2 \/ iVersion idx = 3 \/ iVersion idx = 4) -> len (iEntries idx) < 2 ^ 32 ->
  Forall (entry_ok (iVersion idx)) (iEntries idx) -> len trailing < 8 ->
  exists e, Index_Encode sha1 sortByName NewEncoder idx = Ok (e, set_iEntries idx (sortByName (iEntries idx))) /\
    Index_Decode sha1 mapOrder unfetched emptyIndex (encW e ++ trailing) =
      Ok (mkWorktreeIndex (iVersion idx) (sortByName (iEntries idx)) None None None, trailing).
Proof.
  intros Hv Hc Hok Ht. set (version := iVersion idx) in *. set (es := sortByName (iEntries idx)).
  assert (Forall (entry_ok version) es) as Hok' by (unfold es; by rewrite Hsort).
  assert (length es = length (iEntries idx)) as Hlen by (unfold es; by rewrite Hsort).
  assert (0 <= version < 2 ^ 32) as Hv32 by lia. pose proof (len_nonneg (iEntries idx)).
  unfold Index_Encode, encodeIndex. fold version. unfold EncodeVersionSupported. destruct (Z.gtb_spec version 4); [lia|].
  unfold encodeIndexEntries. fold es.
  destruct (entries_roundtrip version (set_iEntries idx es) es (encodeIndexHeader NewEncoder idx) None Hv eq_refl Hok') as (b & e & E & W & R); [done|].
  cbn [iEntries set_iEntries]. rewrite E. cbn [res_bind]. eexists. split; [done|].
  unfold encodeFooter. rewrite encW_write, W. set (hdr := encW (encodeIndexHeader NewEncoder idx)).
  assert (hdr = indexSignature ++ WriteUint32 version ++ WriteUint32 (len (iEntries idx))) as Ehdr.
  { unfold hdr, encodeIndexHeader. rewrite u32_small by lia. done. }
  unfold Index_Decode, validateIndexHeader. rewrite <- !app_assoc, Ehdr, <- !app_assoc. rewrite readFull_app by done. cbn [res_bind].
  rewrite bool_decide_eq_true_2 by done. cbn [negb]. rewrite ReadUint32_app by lia. cbn [res_bind].
  change DecodeVersionMin with 2. change DecodeVersionMax with 4. destruct (Z.ltb_spec version 2); [lia|]. destruct (Z.gtb_spec version 4); [lia|]. cbn [orb res_bind].
  rewrite ReadUint32_app by lia. cbn [res_bind]. replace (Z.to_nat (len (iEntries idx))) with (length es) by (unfold len; rewrite Nat2Z.id; done).
  rewrite R. cbn [res_bind readExtensions iEntries emptyIndex]. rewrite len_app, Hsha. change (4 + 4 + hashSize) with 28. change hashSize with 20.
  destruct (Z.ltb_spec (20 + len trailing) 28); [|lia].
  set (body := indexSignature ++ WriteUint32 version ++ WriteUint32 (len (iEntries idx)) ++ b).
  replace (indexSignature ++ WriteUint32 version ++ WriteUint32 (len (iEntries idx)) ++ b ++ sha1 body ++ trailing) with (body ++ sha1 body ++ trailing)
    by (unfold body; by rewrite <- !app_assoc).
  replace (length (body ++ sha1 body ++ trailing) - length (sha1 body ++ trailing))%nat with (length body) by (rewrite (length_app body); lia).
  rewrite take_app_length, readChecksum_ok by apply Hsha. done.
Qed.
End File.

(** ** Any bytes *)
Lemma reads_ReadFrom P r : reads P 20 r (ReadFrom ZeroHash r).
Proof. unfold ReadFrom. apply (reads_bind P 20 0); [apply (reads_readFull P 20)| |lia]. intros a r' _. apply reads_ret. Qed.

Lemma reads_drop P {A} (a : A) r n : (n <= length r)%nat -> reads P n r (Ok (a, drop n r)).
Proof. intros Hn. exists (take n r). split; [by rewrite take_drop|]. rewrite length_take. lia. Qed.

Lemma reads_name version last flags r : reads (version = 4) 0 r (readEntryName version last flags r).
Proof.
  unfold readEntryName. destruct ((version =? 2) || (version =? 3)); [eapply reads_weaken; [apply reads_readFull|done|lia]|].
  destruct (Z.eqb_spec version 4) as [->|]; [|done]. unfold doReadEntryNameV4.
  apply (reads_bind _ 1 0); [apply reads_ReadVariableWidthInt| |lia]. intros l r1 _.
  apply reads_pure.
  { destruct last as [last|]; [|by left]. unfold slice. case_match; [by left|by right]. }
  intros base _. apply (reads_bind _ 1 0); [apply reads_ReadUntil| |lia]. intros nm r2 _. apply reads_ret.
Qed.

Lemma reads_entry version last r : reads (version = 4) 62 r (readIndexEntry version last r).
Proof.
  unfold readIndexEntry.
  apply (reads_bind _ 4 58); [apply (reads_readBE _ 4)|intros ? ? _|lia].
  apply (reads_bind _ 4 54); [apply (reads_readBE _ 4)|intros ? ? _|lia].
  apply (reads_bind _ 4 50); [apply (reads_readBE _ 4)|intros ? ? _|lia].
  apply (reads_bind _ 4 46); [apply (reads_readBE _ 4)|intros ? ? _|lia].
  apply (reads_bind _ 4 42); [apply (reads_readBE _ 4)|intros ? ? _|lia].
  apply (reads_bind _ 4 38); [apply (reads_readBE _ 4)|intros ? ? _|lia].
  apply (reads_bind _ 4 34); [apply (reads_readBE _ 4)|intros ? ? _|lia].
  apply (reads_bind _ 4 30); [apply (reads_readBE _ 4)|intros ? ? _|lia].
  apply (reads_bind _ 4 26); [apply (reads_readBE _ 4)|intros ? ? _|lia].
  apply (reads_bind _ 4 22); [apply (reads_readBE _ 4)|intros ? ? _|lia].
  apply (reads_bind _ 20 2); [apply reads_ReadFrom|intros h r1 _|lia].
  apply (reads_bind _ 2 0); [apply (reads_readBE _ 2)|intros flags r2 _|lia].
  apply (reads_bind _ 0 0); [|intros ext r3 _|lia].
  { destruct (negb _); [|apply reads_ret]. apply (reads_bind _ 2 0); [apply (reads_readBE _ 2)|intros x r3 _; apply reads_ret|lia]. }
  apply (reads_bind _ 0 0); [apply reads_name|intros name r4 _|lia].
  unfold dec_padEntry. destruct (version =? 4); [apply reads_ret|].
  destruct (Z.ltb_spec (len r4) (8 - (entryHeaderLength + match ext with Some _ => 2 | None => 0 end + len name) mod 8)) as [|Hge]; [done|].
  cbn [res_bind]. eapply reads_weaken; [apply reads_drop|done|lia]. apply Z2Nat.inj_le in Hge; [unfold len in Hge; by rewrite Nat2Z.id in Hge| |apply len_nonneg].
  pose proof (Z.mod_pos_bound (entryHeaderLength + match ext with Some _ => 2 | None => 0 end + len name) 8 ltac:(lia)). lia.
Qed.

Lemma reads_entries version count : forall last es r, reads (version = 4) 0 r (readEntries count version last es r).
Proof.
  induction count as [|count IH]; intros last es r; cbn [readEntries]; [apply reads_ret|].
  apply (reads_bind _ 62 0); [apply reads_entry|intros e r' _; apply IH|lia].
Qed.

Lemma reads_header r : reads False 8 r (validateIndexHeader r).
Proof.
  unfold validateIndexHeader. apply (reads_bind _ 4 4); [apply (reads_readFull _ 4)|intros s r1 _|lia]. destruct (negb _); [done|].
  apply (reads_bind _ 4 0); [apply (reads_readBE _ 4)|intros v r2 _|lia]. destruct (_ || _); [done|apply reads_ret].
Qed.

(** *** Extensions *)
Lemma reads_treeEntry r : reads False 1 r (readTreeEntry r).
Proof.
  unfold readTreeEntry. apply (reads_bind _ 1 0); [apply reads_ReadUntil|intros path r1 _|lia].
  apply (reads_bind _ 1 0); [apply reads_ReadUntil|intros count r2 _|lia].
  apply reads_pure; [left; apply ParseInt_settled|intros i _]. destruct (i =? -1); [apply reads_ret|].
  apply (reads_bind _ 1 0); [apply reads_ReadUntil|intros trees r3 _|lia].
  apply reads_pure; [left; apply ParseInt_settled|intros n _].
  apply (reads_bind _ 20 0); [apply reads_ReadFrom|intros h r4 _; apply reads_ret|lia].
Qed.

Lemma treeExtension_settled fuel : forall es r, (length r < fuel)%nat -> settled (treeExtension_Decode fuel es r).
Proof.
  induction fuel as [|fuel IH]; intros es r Hf; [lia|]. cbn [treeExtension_Decode].
  pose proof (reads_treeEntry r) as Hr. destruct (readTreeEntry r) as [[e r']|e| |]; try done; [|by destruct (bool_decide _)].
  destruct Hr as (pre & -> & Hp). apply IH. rewrite length_app in Hf. lia.
Qed.

Section Extensions.
Context (sha1 : bytes -> bytes) (mapOrder : list Z -> list Z) (unfetched : bytes -> bytes).
Hypothesis Hunfetched : forall b, exists pre, b = pre ++ unfetched b.

Lemma reads_stage stages s r : reads False 1 r (readStage stages s r).
Proof.
  unfold readStage. apply (reads_bind _ 1 0); [apply reads_ReadUntil|intros ascii r1 _|lia].
  apply reads_pure; [left; apply ParseInt_settled|intros i _]. apply reads_ret.
Qed.

Lemma reads_hashes order : forall stages r, reads False 0 r (readHashes order stages r).
Proof.
  induction order as [|s order IH]; intros stages r; cbn [readHashes]; [apply reads_ret|].
  apply (reads_bind _ 20 0); [apply reads_ReadFrom|intros h r1 _; apply IH|lia].
Qed.

Lemma reads_undoEntry r : reads False 1 r (readUndoEntry mapOrder r).
Proof.
  unfold readUndoEntry. apply (reads_bind _ 1 0); [apply reads_ReadUntil|intros path r1 _|lia].
  do 3 (apply (reads_bind _ 1 0); [apply reads_stage|intros ? ? _|lia]).
  apply (reads_bind _ 0 0); [apply reads_hashes|intros m r5 _; apply reads_ret|lia].
Qed.

Lemma resolveUndo_settled fuel : forall es r, (length r < fuel)%nat -> settled (resolveUndo_Decode mapOrder fuel es r).
Proof.
  induction fuel as [|fuel IH]; intros es r Hf; [lia|]. cbn [resolveUndo_Decode].
  pose proof (reads_undoEntry r) as Hr. destruct (readUndoEntry mapOrder r) as [[e r']|e| |]; try done; [|by destruct (bool_decide _)].
  destruct Hr as (pre & -> & Hp). apply IH. rewrite length_app in Hf. lia.
Qed.

Lemma reads_endOfIndex r : reads False 24 r (endOfIndexEntry_Decode r).
Proof.
  unfold endOfIndexEntry_Decode. apply (reads_bind _ 4 20); [apply (reads_readBE _ 4)|intros o r1 _|lia].
  apply (reads_bind _ 20 0); [apply reads_ReadFrom|intros h r2 _; apply reads_ret|lia].
Qed.

Lemma reads_extension idx r : reads False 8 r (readExtension mapOrder unfetched idx r).
Proof.
  unfold readExtension. apply (reads_bind _ 4 4); [apply (reads_readFull _ 4)|intros header r1 Hh|lia].
  apply (reads_bind _ 4 0); [apply (reads_readBE _ 4)|intros length r2 _|lia]. set (n := Z.to_nat (Z.min length (len r2))).
  assert (forall A (a : A), reads False 0 r2 (Ok (a, drop n r2))) as Hd.
  { intros A a. exists (take n r2). split; [by rewrite take_drop|lia]. }
  destruct (bool_decide _); [apply reads_pure; [left; apply treeExtension_settled; lia|intros es _; apply Hd]|].
  destruct (bool_decide _); [apply reads_pure; [left; apply resolveUndo_settled; lia|intros es _; apply Hd]|].
  destruct (bool_decide _).
  - pose proof (reads_endOfIndex (take n r2)) as He.
    destruct (endOfIndexEntry_Decode (take n r2)) as [[e rest]| | |]; try done. destruct He as (pre & E & _).
    destruct (Hunfetched rest) as (pre' & E'). cbn [res_bind]. exists (pre ++ pre'). split; [|lia].
    rewrite <- (take_drop n r2) at 1. rewrite E, E' at 1. by rewrite <- !app_assoc.
  - apply reads_pure; [|intros h _; destruct (_ || _); [done|apply Hd]].
    left. destruct (readFull_cases 4 r ltac:(lia)) as [(a & b & E & _ & Hl)|[[E _]|[E _]]]; rewrite E in Hh; try discriminate Hh.
    injection Hh as -> ->. destruct (index_ok header 0 ltac:(lia)) as (x & -> & _). done.
Qed.

(** What was hashed is what was consumed, and its hash is what follows it. *)
Lemma readExtensions_spec fuel : forall inp idx r, (length r < fuel)%nat -> (exists pre, inp = pre ++ r) ->
  match readExtensions sha1 mapOrder unfetched fuel inp idx r with
  | Ok (_, r') => exists body sum, inp = body ++ sum ++ r' /\ len sum = hashSize /\ compareBytes sum (sha1 body) = 0
  | Err _ => True
  | _ => False
  end.
Proof.
  induction fuel as [|fuel IH]; intros inp idx r Hf (pre & ->); [lia|]. cbn [readExtensions].
  destruct (len r <? 4 + 4 + hashSize).
  - unfold readChecksum, ReadFrom. change (ObjectID_Size ZeroHash) with 20.
    destruct (readFull_cases 20 r ltac:(lia)) as [(a & b & -> & -> & Hl)|[[-> _]|[-> _]]]; try done. cbn [res_bind].
    replace (length (pre ++ a ++ b) - length (a ++ b))%nat with (length pre) by (rewrite (length_app pre); lia). rewrite take_app_length.
    unfold ObjectID_Compare, ObjectID_Bytes. cbn [hash oformat ZeroHash]. change (ObjectID_Size _) with 20.
    rewrite copyBytes_prefix by (cut (length a <= 32)%nat; [done|unfold len in Hl; lia]).
    assert (seg (a ++ drop (length a) emptyHash) 0 20 = a) as ->.
    { unfold seg. rewrite drop_0. apply take_app_length'. unfold len in Hl. cbn. lia. }
    destruct (Z.eqb_spec (compareBytes a (sha1 pre)) 0) as [E|E]; cbn [negb res_bind]; [|done]. exists pre, a. done.
  - pose proof (reads_extension idx r) as Hr. destruct (readExtension mapOrder unfetched idx r) as [[idx' r']| | |]; try done.
    destruct Hr as (pre' & -> & Hp). cbn [res_bind]. apply IH; [rewrite length_app in Hf; lia|]. exists (pre ++ pre'). by rewrite <- app_assoc.
Qed.

Lemma Index_Decode_spec idx inp :
  match Index_Decode sha1 mapOrder unfetched idx inp with
  | Ok (_, r') => exists body sum, inp = body ++ sum ++ r' /\ len sum = hashSize /\ sum = sha1 body
  | Err _ => True
  | Panic => exists r, validateIndexHeader inp = Ok (4, r)
  | NoFuel => False
  end.
Proof.
  unfold Index_Decode. pose proof (reads_header inp) as Hh. destruct (validateIndexHeader inp) as [[version r]| | |]; try done. cbn [res_bind].
  destruct Hh as (p1 & -> & _). pose proof (reads_readBE False 4 r) as Hc. fold (ReadUint32 r) in Hc. destruct (ReadUint32 r) as [[count r1]| | |]; try done. cbn [res_bind].
  destruct Hc as (p2 & -> & _). pose proof (reads_entries version (Z.to_nat count) None (iEntries idx) r1) as He.
  destruct (readEntries _ _ _ _ r1) as [[es r2]| | |]; try done; [|cbn in He; rewrite He; by eexists]. cbn [res_bind]. destruct He as (p3 & -> & _).
  pose proof (readExtensions_spec (S (length r2)) (p1 ++ p2 ++ p3 ++ r2) (mkWorktreeIndex version es (iCache idx) (iResolveUndo idx) (iEndOfIndexEntry idx)) r2 ltac:(lia)) as Hx.
  specialize (Hx ltac:(exists (p1 ++ p2 ++ p3); by rewrite <- !app_assoc)).
  destruct (readExtensions _ _ _ _ _ _ r2) as [[idx' r3]| | |]; try done.
  destruct Hx as (body & sum & E1 & E2 & E3). apply compareBytes_eq in E3. eauto.
Qed.
End Extensions.

(** ** Samples *)

(** A checksum that depends on the length only, an order of the entries, and readers that fetch everything. *)
Definition sampleSum (b : bytes) : bytes := replicate 18 x00 ++ be_encode 2 (len b).
Definition sortEntries : list IndexEntry -> list IndexEntry := insertionSort (fun a b => compareBytes (eName a) (eName b) <? 0).
Definition ascending (l : list Z) : list Z := l.
Definition allFetched (_ : bytes) : bytes := [].

Definition namedEntry (name : string) (skip : bool) : IndexEntry :=
  mkEntry ZeroHash (bs name) (mkInstant 1500000000 7) zeroInstant 1 2 0x81a4 3 4 5 2 skip false.
Definition sampleWorktree (version : Z) : WorktreeIndex :=
  mkWorktreeIndex version [namedEntry "src/b.go" false; namedEntry "README" true; namedEntry "src/a.go" false; namedEntry "src/a/c" false] None None None.

Lemma sampleSum_len b : len (sampleSum b) = hashSize.
Proof. unfold sampleSum. rewrite len_app, be_encode_len, len_replicate. done. Qed.

Lemma namedEntry_ok version name skip : name_ok version (bs name) -> entry_ok version (namedEntry name skip).
Proof.
  intros Hn. split; cbn [namedEntry eHash eName eCreatedAt eModifiedAt eDev eInode eMode eUID eGID eSize eStage];
    [|done|right; cbn [unix nanos]; lia|by left|lia..].
  split; [|done]. split; [done|]. right. by split.
Qed.

Lemma clean_name cs : cs <> [] -> Forall component cs -> x00 ∉ Join cs [x2f] -> len (Join cs [x2f]) < 2 ^ 63 -> name_ok 4 (Join cs [x2f]).
Proof. intros H1 H2 H3 H4. split; [by exists cs|by split]. Qed.

Ltac sample_name cs := apply (clean_name cs); [discriminate|unfold component; by_decision|by_decision|reflexivity].

Lemma sampleIndex_ok : Forall (entry_ok 4) (iEntries (sampleWorktree 4)).
Proof.
  cbn [iEntries sampleWorktree]. repeat (apply Forall_cons; split; [apply namedEntry_ok|]); [| | | |apply Forall_nil_2].
  - sample_name [bs "src"; bs "b.go"].
  - sample_name [bs "README"].
  - sample_name [bs "src"; bs "a.go"].
  - sample_name [bs "src"; bs "a"; bs "c"].
Qed.

(** ** Properties *)

(** C28: The index file round trips.  For an index of version 2, 3 or 4 whose entries fit the format (SHA-1 identifiers, 32-bit fields,
    times that are zero or within 32 bits of seconds; names of at most 4095 bytes, or for version 4 clean relative paths without NUL),
    [Encode] succeeds and [Decode] of what it wrote gives back the version and all the entries, every field included,
    in sorted order, and leaves at most seven bytes that follow. *)
Theorem worktree_index_roundtrip (sha1 : bytes -> bytes) (sortByName : list IndexEntry -> list IndexEntry) (mapOrder : list Z -> list Z) (unfetched : bytes -> bytes) idx trailing
    (sha1_size : forall b, len (sha1 b) = hashSize) (sort_permutes : forall l, sortByName l ≡ₚ l) :
  iVersion idx = 2 \/ iVersion idx = 3 \/ iVersion idx = 4 -> len (iEntries idx) < 2 ^ 32 ->
  Forall (entry_ok (iVersion idx)) (iEntries idx) -> len trailing < 8 ->
  exists e, Index_Encode sha1 sortByName NewEncoder idx = Ok (e, set_iEntries idx (sortByName (iEntries idx))) /\
    Index_Decode sha1 mapOrder unfetched emptyIndex (encW e ++ trailing) =
      Ok (mkWorktreeIndex (iVersion idx) (sortByName (iEntries idx)) None None None, trailing).
Proof. by apply Index_roundtrip. Qed.

Lemma worktree_index_roundtrip_witness :
  exists e, Index_Encode sampleSum sortEntries NewEncoder (sampleWorktree 4) = Ok (e, set_iEntries (sampleWorktree 4) (sortEntries (iEntries (sampleWorktree 4)))) /\
    Index_Decode sampleSum ascending allFetched emptyIndex (encW e ++ [x01]) =
      Ok (mkWorktreeIndex 4 (sortEntries (iEntries (sampleWorktree 4))) None None None, [x01]).
Proof.
  apply (worktree_index_roundtrip sampleSum sortEntries ascending allFetched (sampleWorktree 4) [x01] sampleSum_len (insertionSort_perm _)).
  - right; right; reflexivity.
  - vm_compute. reflexivity.
  - exact sampleIndex_ok.
  - vm_compute. reflexivity.
Defined.

(** Reading an index ends on any bytes, whatever was in the index before; only version 4 can panic.  And what is accepted is
    intact: its last twenty bytes are the checksum of everything before. *)
Theorem index_decode_safe (sha1 : bytes -> bytes) (mapOrder : list Z -> list Z) (unfetched : bytes -> bytes)
    (fetched_first : forall b, exists pre, b = pre ++ unfetched b) idx inp :
  match Index_Decode sha1 mapOrder unfetched idx inp with
  | Ok (_, r') => exists body sum, inp = body ++ sum ++ r' /\ len sum = hashSize /\ sum = sha1 body
  | Err _ => True
  | Panic => exists r, validateIndexHeader inp = Ok (4, r)
  | NoFuel => False
  end.
Proof. by apply Index_Decode_spec. Qed.

(** The file of the sample, in version 2. *)
Definition sampleFile : bytes :=
  match Index_Encode sampleSum sortEntries NewEncoder (sampleWorktree 2) with Ok (e, _) => encW e | _ => [] end.

Lemma index_decode_safe_witness :
  (exists i, Index_Decode sampleSum ascending allFetched emptyIndex sampleFile = Ok (i, [])) /\
  exists body sum, sampleFile = body ++ sum ++ [] /\ len sum = hashSize /\ sum = sampleSum body.
Proof.
  pose proof (index_decode_safe sampleSum ascending allFetched (fun b => ex_intro _ b (eq_sym (app_nil_r b))) emptyIndex sampleFile) as H.
  assert (exists i, Index_Decode sampleSum ascending allFetched emptyIndex sampleFile = Ok (i, [])) as [i E].
  { eexists. vm_compute. reflexivity. }
  rewrite E in H. split; [by exists i|exact H].
Defined.

(** The entries of an index as a collection.  [Entry] gives an entry with the path or fails when there is none; [Remove] takes
    out exactly the entry that [Entry] gives, keeps the order of the others, and fails when [Entry] does; after [Add] of a path that was not there, [Entry] finds
    the new entry, other paths are as before, and [Remove] gives back the index. *)
Theorem index_entries_spec i path :
  match Index_Entry i path with
  | Ok e => e ∈ iEntries i /\ eName e = path /\
            exists before after, iEntries i = before ++ e :: after /\ Index_Remove i path = Ok (set_iEntries i (before ++ after), e)
  | Err err => err = ErrEntryNotFound /\ Index_Remove i path = Err ErrEntryNotFound /\ Forall (fun e => eName e <> path) (iEntries i) /\
               Index_Entry (Index_Add i path).1 path = Ok (Index_Add i path).2 /\ Index_Remove (Index_Add i path).1 path = Ok (i, (Index_Add i path).2)
  | _ => False
  end /\
  forall other, other <> path -> Index_Entry (Index_Add i path).1 other = Index_Entry i other.
Proof.
  destruct i as [v es c u eo]. unfold Index_Entry, Index_Remove, Index_Add. cbn [iEntries set_iEntries fst snd]. split.
  - assert (forall es, match findEntry path es with
      | Ok e => e ∈ es /\ eName e = path /\ exists before after, es = before ++ e :: after /\ removeEntry path es = Ok (before ++ after, e)
      | Err err => err = ErrEntryNotFound /\ removeEntry path es = Err ErrEntryNotFound /\ Forall (fun e => eName e <> path) es /\
          findEntry path (es ++ [set_eName zeroIndexEntry path]) = Ok (set_eName zeroIndexEntry path) /\
          removeEntry path (es ++ [set_eName zeroIndexEntry path]) = Ok (es, set_eName zeroIndexEntry path)
      | _ => False end) as H.
    { clear es. induction es as [|e es IH]; cbn [findEntry removeEntry app].
      - rewrite bool_decide_eq_true_2 by done. by repeat split.
      - destruct (decide (eName e = path)) as [E|E]; [rewrite !bool_decide_eq_true_2 by done|rewrite !bool_decide_eq_false_2 by done].
        + split; [set_solver|]. split; [done|]. by exists [], es.
        + destruct (findEntry path es) as [x|err| |]; try done.
          * destruct IH as (H1 & H2 & b & a & H3 & ->). split; [set_solver|]. split; [done|]. exists (e :: b), a. by rewrite H3.
          * destruct IH as (-> & -> & H1 & -> & ->). split_and!; try done. by constructor. }
    specialize (H es). destruct (findEntry path es) as [e|err| |]; try done.
    + destruct H as (H1 & H2 & b & a & H3 & ->). split; [done|]. split; [done|]. by exists b, a.
    + destruct H as (-> & -> & H1 & -> & ->). by repeat split.
  - intros other Ho. induction es as [|e es IH]; cbn [findEntry app]; [by rewrite bool_decide_eq_false_2 by (cbn; congruence)|].
    destruct (bool_decide (eName e = other)); [done|exact IH].
Qed.

(** ** Departures *)

(** The bytes of an entry of version 4 with the given end of the name. *)
Definition entryV4 (l : byte) (name : bytes) : bytes := replicate 62 x00 ++ l :: name ++ [x00].

(** An index of version 4 can make [Decode] panic: when an entry says to drop more bytes from the last name than it has, the slice is out of range. *)
Theorem index_v4_panics :
  Index_Decode sampleSum ascending allFetched emptyIndex
    (bs "DIRC" ++ WriteUint32 4 ++ WriteUint32 2 ++ entryV4 x00 (bs "a") ++ entryV4 x05 (bs "b") ++ sampleSum []) = Panic.
Proof. vm_compute. reflexivity. Qed.

Definition longName (n : nat) : bytes := replicate n x61.
Definition longIndex (n : nat) : WorktreeIndex := mkWorktreeIndex 2 [set_eName (namedEntry "" false) (longName n)] None None None.

(** Names of more than 4095 bytes are written in full, but their length is written as 4095 and read as that: what was
    encoded is not read back (git reads such a name up to its NUL). *)
Theorem index_long_names_lost :
  match Index_Encode sampleSum sortEntries NewEncoder (longIndex 4200) with
  | Ok (e, _) => Index_Decode sampleSum ascending allFetched emptyIndex (encW e) = Err ErrUnknownExtension
  | _ => False
  end.
Proof. vm_compute. reflexivity. Qed.

(** In the cached-tree extension, an invalidated entry (a count of -1) is dropped before its number of sub-trees is read, and this number becomes part of
    the path of the entry after it. *)
Theorem index_invalidated_tree_entry h : len h = 20 ->
  treeExtension_Decode 3 [] (bs "a" ++ [x00] ++ bs "-1 7" ++ [x0a] ++ bs "b" ++ [x00] ++ bs "1 0" ++ [x0a] ++ h) =
    Ok [mkCachedTreeEntry (bs "7" ++ [x0a] ++ bs "b") 1 0 (mkObjectID (copyBytes emptyHash h) SHA1)].
Proof.
  intros Hl. cbn [treeExtension_Decode]. unfold readTreeEntry at 1. cbn [app bs].
  replace (ReadUntil _ x00) with (Ok (bs "a", bs "-1 7" ++ [x0a] ++ bs "b" ++ [x00] ++ bs "1 0" ++ [x0a] ++ h)) by reflexivity. cbn [res_bind].
  replace (ReadUntil _ x20) with (Ok (bs "-1", bs "7" ++ [x0a] ++ bs "b" ++ [x00] ++ bs "1 0" ++ [x0a] ++ h)) by reflexivity. cbn [res_bind].
  change (ParseInt (bs "-1") 10 64) with (Ok (-1) : res Z). cbn [res_bind Z.eqb Pos.eqb]. cbv iota. unfold readTreeEntry at 1.
  replace (ReadUntil _ x00) with (Ok (bs "7" ++ [x0a] ++ bs "b", bs "1 0" ++ [x0a] ++ h)) by reflexivity. cbn [res_bind].
  replace (ReadUntil _ x20) with (Ok (bs "1", bs "0" ++ [x0a] ++ h)) by reflexivity. cbn [res_bind].
  change (ParseInt (bs "1") 10 64) with (Ok 1 : res Z). cbn [res_bind Z.eqb]. cbv iota.
  replace (ReadUntil _ x0a) with (Ok (bs "0", h)) by reflexivity. cbn [res_bind].
  change (ParseInt (bs "0") 10 64) with (Ok 0 : res Z). cbn [res_bind]. unfold ReadFrom. change (ObjectID_Size ZeroHash) with 20.
  rewrite <- (app_nil_r h) at 1. rewrite readFull_app by done. reflexivity.
Qed.

Lemma index_invalidated_tree_entry_witness :
  treeExtension_Decode 3 [] (bs "a" ++ [x00] ++ bs "-1 7" ++ [x0a] ++ bs "b" ++ [x00] ++ bs "1 0" ++ [x0a] ++ replicate 20 x01) =
    Ok [mkCachedTreeEntry (bs "7" ++ [x0a] ++ bs "b") 1 0 (mkObjectID (copyBytes emptyHash (replicate 20 x01)) SHA1)].
Proof. apply (index_invalidated_tree_entry (replicate 20 x01)). reflexivity. Defined.

(** A conflict of two stages. *)
Definition undoBytes : bytes := bs "f" ++ [x00] ++ bs "100644" ++ [x00] ++ bs "100644" ++ [x00] ++ bs "0" ++ [x00] ++ replicate 20 x01 ++ replicate 20 x02.
Definition stageOf (r : res (ResolveUndoEntry * bytes)) (s : Z) : option byte :=
  match r with Ok (e, _) => match ruStages e !! s with Some h => head (hash h) | None => None end | _ => None end.

(** In the resolve-undo extension, the hashes of the stages are read in the order in which Go ranges over a map, which is
    unspecified: one order gives the stages of the file, the other swaps them. *)
Theorem index_undo_order :
  stageOf (readUndoEntry ascending undoBytes) 1 = Some x01 /\ stageOf (readUndoEntry ascending undoBytes) 2 = Some x02 /\
  stageOf (readUndoEntry (@rev Z) undoBytes) 1 = Some x02 /\ stageOf (readUndoEntry (@rev Z) undoBytes) 2 = Some x01.
Proof. vm_compute. repeat split. Qed.
