(* ===== verification/Transactional.v ===== *)
(** * storage/transactional

    Model of reference.go, object.go, index.go, config.go, shallow.go and
    storage.go: a storage that reads through to a base and keeps every write in
    a temporal storage until [Commit]. *)
From S2P Require Import Prelude GoStrings ObjectID Reference Storer Memory.

(** ** References (reference.go) *)
Section References.
Context {B T : Type} `{ReferenceStorer B} `{ReferenceStorer T}.

Record ReferenceStorage := mkRefs { base : B; temporal : T; deleted : gset ReferenceName }.

Definition NewReferenceStorage (b : B) (t : T) : ReferenceStorage := mkRefs b t ∅.

(** [SetReference]; the name of a nil reference is a nil dereference. *)
Definition tx_SetReference (r : ReferenceStorage) (ref : option Reference) : res ReferenceStorage :=
  match ref with
  | None => Panic
  | Some ref' =>
    let deleted' := deleted r ∖ {[ rname ref' ]} in
    let* t := SetReference (temporal r) ref in
    Ok (mkRefs (base r) t deleted')
  end.

Definition tx_CheckAndSetReference (r : ReferenceStorage) (ref old : option Reference) : res ReferenceStorage :=
  match old with
  | None => tx_SetReference r ref
  | Some old =>
    let* tmp := match Reference_ (temporal r) (rname old) with
                | Err ErrReferenceNotFound => Reference_ (base r) (rname old)
                | o => o
                end in
    if negb (bool_decide (rhash tmp = rhash old)) then Err ErrReferenceHasChanged
    else tx_SetReference r ref
  end.

Definition tx_Reference (r : ReferenceStorage) (n : ReferenceName) : res Reference :=
  if bool_decide (n ∈ deleted r) then Err ErrReferenceNotFound
  else match Reference_ (temporal r) n with
       | Err ErrReferenceNotFound => Reference_ (base r) n
       | o => o
       end.

Definition tx_IterReferences (r : ReferenceStorage) : res ReferenceIter :=
  let* baseIter := IterReferences (base r) in
  let* temporalIter := IterReferences (temporal r) in
  Ok (NewMultiReferenceIter [baseIter; temporalIter]).

Definition tx_CountLooseRefs (r : ReferenceStorage) : res Z :=
  let* tc := CountLooseRefs (temporal r) in
  let* bc := CountLooseRefs (base r) in
  Ok (tc + bc).

Definition tx_RemoveReference (r : ReferenceStorage) (n : ReferenceName) : res ReferenceStorage :=
  let deleted' := deleted r ∪ {[ n ]} in
  let* t := RemoveReference (temporal r) n in
  Ok (mkRefs (base r) t deleted').

Fixpoint removeAll (b : B) (names : list ReferenceName) : res B :=
  match names with
  | [] => Ok b
  | n :: names => let* b := RemoveReference b n in removeAll b names
  end.

(** The callback of [Commit]'s iteration: what [SetReference] of the base does. *)
Definition setInBase (b : B) (ref : Reference) : B * option error :=
  match SetReference b (Some ref) with
  | Ok b => (b, None)
  | Err e => (b, Some e)
  | _ => (b, None)
  end.

(** [Commit]: the base afterwards, and the error. *)
Definition tx_Commit (r : ReferenceStorage) : res (B * option error) :=
  let* b := removeAll (base r) (elements (deleted r)) in
  let* iter := IterReferences (temporal r) in
  ForEach iter setInBase b.

#[global] Instance transactional_ReferenceStorer : ReferenceStorer ReferenceStorage := {
  SetReference := tx_SetReference; CheckAndSetReference := tx_CheckAndSetReference;
  Reference_ := tx_Reference; IterReferences := tx_IterReferences;
  RemoveReference := tx_RemoveReference; CountLooseRefs := tx_CountLooseRefs }.
End References.
Arguments ReferenceStorage B T : clear implicits.

(** ** Objects (object.go), over two storages in memory *)
Section TxObjects.
Context {Obj : Type} (objHash : Obj -> ObjectID) (objType : Obj -> ObjectType) (objSize : Obj -> Z).

Record TransactionalObjects := mkObjs { objBase : @ObjectStorage Obj; objTemporal : @ObjectStorage Obj }.

Definition tobj_Set (o : TransactionalObjects) (obj : Obj) : ObjectID * option error * TransactionalObjects :=
  let '(h, err, t) := SetEncodedObject objHash objType (objTemporal o) obj in (h, err, mkObjs (objBase o) t).

Definition tobj_Has (o : TransactionalObjects) (h : ObjectID) : option error :=
  match HasEncodedObject (objBase o) h with
  | Some ErrObjectNotFound => HasEncodedObject (objTemporal o) h
  | err => err
  end.

Definition tobj_Size (o : TransactionalObjects) (h : ObjectID) : res Z :=
  match EncodedObjectSize objSize (objBase o) h with
  | Err ErrObjectNotFound => EncodedObjectSize objSize (objTemporal o) h
  | r => r
  end.

Definition tobj_EncodedObject (o : TransactionalObjects) (t : ObjectType) (h : ObjectID) : res Obj :=
  match EncodedObject objType (objBase o) t h with
  | Err ErrObjectNotFound => EncodedObject objType (objTemporal o) t h
  | r => r
  end.

Definition tobj_Iter (o : TransactionalObjects) (t : ObjectType) : list Obj :=
  IterEncodedObjects (objBase o) t ++ IterEncodedObjects (objTemporal o) t.

(** [Commit]: the iteration stops at the first error. *)
Fixpoint commitObjects (b : @ObjectStorage Obj) (objs : list Obj) : option error * @ObjectStorage Obj :=
  match objs with
  | [] => (None, b)
  | obj :: objs =>
    let '(_, err, b) := SetEncodedObject objHash objType b obj in
    match err with Some e => (Some e, b) | None => commitObjects b objs end
  end.

Definition tobj_Commit (o : TransactionalObjects) : option error * @ObjectStorage Obj :=
  commitObjects (objBase o) (IterEncodedObjects (objTemporal o) AnyObject).
End TxObjects.

(** ** Index and configuration (index.go, config.go), shallow commits (shallow.go) *)
Section TxSingle.
Context {A : Type} (New : A) (Validate : A -> option error).

Record TransactionalSingle := mkSingle { sBase : option A; sTemporal : option A; sSet : bool }.

Definition NewSingle (b t : option A) : TransactionalSingle := mkSingle b t false.

Definition tx_SetIndex (s : TransactionalSingle) (idx : A) : TransactionalSingle :=
  mkSingle (sBase s) (SetIndex (sTemporal s) idx) true.

Definition tx_Index (s : TransactionalSingle) : A * TransactionalSingle :=
  if negb (sSet s) then let (v, b) := Index New (sBase s) in (v, mkSingle b (sTemporal s) (sSet s))
  else let (v, t) := Index New (sTemporal s) in (v, mkSingle (sBase s) t (sSet s)).

Definition tx_CommitIndex (s : TransactionalSingle) : TransactionalSingle :=
  if negb (sSet s) then s
  else let (idx, t) := Index New (sTemporal s) in mkSingle (SetIndex (sBase s) idx) t (sSet s).

Definition tx_SetConfig (s : TransactionalSingle) (cfg : A) : option error * TransactionalSingle :=
  match SetConfig Validate (sTemporal s) cfg with
  | (Some e, t) => (Some e, mkSingle (sBase s) t (sSet s))
  | (None, t) => (None, mkSingle (sBase s) t true)
  end.

Definition tx_Config (s : TransactionalSingle) : A * TransactionalSingle :=
  if negb (sSet s) then let (v, b) := Config New (sBase s) in (v, mkSingle b (sTemporal s) (sSet s))
  else let (v, t) := Config New (sTemporal s) in (v, mkSingle (sBase s) t (sSet s)).

Definition tx_CommitConfig (s : TransactionalSingle) : option error * TransactionalSingle :=
  if negb (sSet s) then (None, s)
  else let (cfg, t) := Config New (sTemporal s) in
       let (err, b) := SetConfig Validate (sBase s) cfg in (err, mkSingle b t (sSet s)).
End TxSingle.

Record ShallowStorage := mkShallow { shBase : list ObjectID; shTemporal : list ObjectID }.

Definition tx_SetShallow (s : ShallowStorage) (commits : list ObjectID) : ShallowStorage :=
  mkShallow (shBase s) (SetShallow (shTemporal s) commits).

Definition tx_Shallow (s : ShallowStorage) : list ObjectID :=
  let shallow := Shallow (shTemporal s) in
  if negb (len shallow =? 0) then shallow else Shallow (shBase s).

Definition tx_CommitShallow (s : ShallowStorage) : ShallowStorage :=
  let commits := Shallow (shTemporal s) in
  if len commits =? 0 then s else mkShallow (SetShallow (shBase s) commits) (shTemporal s).

(** ** The transactional reference storage is lawful

    over any lawful base and temporal storages. *)
Section Laws.
Context {B T : Type} `{ReferenceStorerLaws B} `{ReferenceStorerLaws T}.
Abbreviation refs := (ReferenceStorage B T).
Implicit Types r : refs.

(** What the storage shows: the temporal references, and those of the base that were not
    removed. *)
Definition tx_view r : gmap ReferenceName Reference :=
  refs_view (temporal r) ∪ filter (fun p => p.1 ∉ deleted r) (refs_view (base r)).

Record tx_inv r : Prop := {
  ti_base : refs_inv (base r);
  ti_temporal : refs_inv (temporal r);
  ti_disjoint : forall n, n ∈ deleted r -> refs_view (temporal r) !! n = None }.

Lemma tx_lookup r n :
  tx_view r !! n = match refs_view (temporal r) !! n with
                   | Some x => Some x
                   | None => if decide (n ∈ deleted r) then None else refs_view (base r) !! n
                   end.
Proof.
  unfold tx_view. destruct (refs_view (temporal r) !! n) as [x|] eqn:E.
  - by apply lookup_union_Some_l.
  - rewrite lookup_union_r by done. rewrite map_lookup_filter.
    destruct (refs_view (base r) !! n) as [y|]; cbn; [|by destruct (decide _)].
    destruct (decide (n ∈ deleted r)); [by rewrite option_guard_False by tauto|by rewrite option_guard_True].
Qed.

Lemma tx_set r ref : tx_inv r ->
  exists r', tx_SetReference r (Some ref) = Ok r' /\ base r' = base r /\ tx_inv r' /\ tx_view r' = <[rname ref := ref]> (tx_view r).
Proof.
  intros [Hb Ht Hd]. cbn [tx_SetReference]. destruct (refs_set (temporal r) ref Ht) as (t' & -> & Ht' & Hv).
  cbn [res_bind]. eexists. split; [reflexivity|]. split; [done|]. split.
  - constructor; cbn [base temporal deleted]; [done|done|]. intros n Hn. rewrite Hv.
    apply elem_of_difference in Hn as [Hn Hne]. rewrite lookup_insert_ne by set_solver. by apply Hd.
  - apply map_eq. intros n. rewrite tx_lookup. cbn [base temporal deleted]. rewrite Hv.
    destruct (decide (rname ref = n)) as [<-|Hne]; [by rewrite !lookup_insert_eq|].
    rewrite !lookup_insert_ne by done. rewrite tx_lookup.
    destruct (refs_view (temporal r) !! n); [done|].
    apply decide_ext. set_solver.
Qed.

Lemma tx_get r n : tx_inv r ->
  tx_Reference r n = match tx_view r !! n with Some x => Ok x | None => Err ErrReferenceNotFound end.
Proof.
  intros [Hb Ht Hd]. unfold tx_Reference. rewrite tx_lookup, (refs_get (temporal r)), (refs_get (base r)) by done.
  case_bool_decide as E.
  - rewrite Hd by done. by rewrite decide_True.
  - rewrite decide_False by done. by destruct (refs_view (temporal r) !! n).
Qed.

Lemma tx_remove r n : tx_inv r ->
  exists r', tx_RemoveReference r n = Ok r' /\ base r' = base r /\ tx_inv r' /\ tx_view r' = delete n (tx_view r).
Proof.
  intros [Hb Ht Hd]. unfold tx_RemoveReference. destruct (refs_remove (temporal r) n Ht) as (t' & -> & Ht' & Hv).
  cbn [res_bind]. eexists. split; [reflexivity|]. split; [done|]. split.
  - constructor; cbn [base temporal deleted]; [done|done|]. intros k Hk. rewrite Hv.
    destruct (decide (n = k)) as [->|Hne]; [by rewrite lookup_delete_eq|].
    rewrite lookup_delete_ne by done. apply Hd. set_solver.
  - apply map_eq. intros k. rewrite tx_lookup. cbn [base temporal deleted]. rewrite Hv.
    destruct (decide (n = k)) as [->|Hne].
    + rewrite !lookup_delete_eq. by rewrite decide_True by set_solver.
    + rewrite !lookup_delete_ne by done. rewrite tx_lookup. destruct (refs_view (temporal r) !! k); [done|].
      apply decide_ext. set_solver.
Qed.

#[global] Program Instance transactional_laws : ReferenceStorerLaws refs := {
  refs_inv := tx_inv; refs_view := tx_view }.
Next Obligation.
  intros r n x [Hb Ht _]. rewrite tx_lookup. destruct (refs_view (temporal r) !! n) eqn:E.
  - intros [= ->]. by apply (refs_names (temporal r) n x).
  - destruct (decide _); [done|]. by apply (refs_names (base r) n x).
Qed.
Next Obligation. intros r ref Hi. destruct (tx_set r ref Hi) as (r' & E & _ & Hi' & Hv). by exists r'. Qed.
Next Obligation. intros r n Hi. by apply tx_get. Qed.
Next Obligation. intros r n Hi. destruct (tx_remove r n Hi) as (r' & E & _ & Hi' & Hv). by exists r'. Qed.

(** *** [Commit] *)

Lemma removeAll_spec names : forall b : B, refs_inv b ->
  exists b', removeAll b names = Ok b' /\ refs_inv b' /\
    forall n, refs_view b' !! n = if decide (n ∈ names) then None else refs_view b !! n.
Proof.
  induction names as [|x names IH]; intros b Hb; cbn [removeAll].
  - exists b. split; [done|]. split; [done|]. intros n. by rewrite decide_False by apply not_elem_of_nil.
  - destruct (refs_remove b x Hb) as (b1 & -> & Hb1 & Hv1). cbn [res_bind].
    destruct (IH b1 Hb1) as (b2 & -> & Hb2 & Hv2). exists b2. split; [done|]. split; [done|]. intros n.
    rewrite Hv2, Hv1. destruct (decide (n ∈ names)) as [Hn|Hn].
    + by rewrite decide_True by (by right).
    + destruct (decide (n = x)) as [->|Hx].
      * rewrite lookup_delete_eq. by rewrite decide_True by left.
      * rewrite lookup_delete_ne by done. rewrite decide_False; [done|]. by intros [?|?]%elem_of_cons.
Qed.

Context `{!ReferenceIterLaw T}.

Lemma tx_Commit_spec r : tx_inv r ->
  exists b', tx_Commit r = Ok (b', None) /\ refs_inv b' /\ refs_view b' = tx_view r.
Proof.
  intros [Hb Ht Hd]. unfold tx_Commit. destruct (removeAll_spec (elements (deleted r)) (base r) Hb) as (b1 & -> & Hb1 & Hv1).
  cbn [res_bind]. destruct (refs_iter (temporal r) Ht) as (it & -> & Hok & Hl). cbn [res_bind].
  destruct (ForEach_inv refs_inv refs_view (fun m ref => <[rname ref := ref]> m) setInBase it b1) as (b2 & -> & Hb2 & Hv2); [|done|done|].
  { intros st ref Hst. unfold setInBase. destruct (refs_set st ref Hst) as (st' & -> & Hi & Hv). by exists st'. }
  exists b2. split; [done|]. split; [done|]. apply map_eq. intros n. rewrite Hv2, tx_lookup.
  rewrite (foldl_insert_values rname (refs_view (temporal r))); [|intros k x Hk; by apply (refs_names (temporal r) k x)|done].
  destruct (refs_view (temporal r) !! n) as [x|] eqn:Et; [by apply lookup_union_Some_l|].
  rewrite lookup_union_r, Hv1 by done.
  destruct (decide (n ∈ deleted r)) as [Hn|Hn].
  - by rewrite decide_True by (by apply elem_of_elements).
  - by rewrite decide_False by (by rewrite elem_of_elements).
Qed.
End Laws.

(** ** Sequences of reference operations *)
Inductive refOp := OpSet (ref : Reference) | OpRemove (n : ReferenceName).

Fixpoint runRefs {S} `{ReferenceStorer S} (s : S) (ops : list refOp) : res S :=
  match ops with
  | [] => Ok s
  | OpSet ref :: ops => let* s := SetReference s (Some ref) in runRefs s ops
  | OpRemove n :: ops => let* s := RemoveReference s n in runRefs s ops
  end.

(** Their effect on a map. *)
Definition applyOp (m : gmap ReferenceName Reference) (op : refOp) : gmap ReferenceName Reference :=
  match op with OpSet ref => <[rname ref := ref]> m | OpRemove n => delete n m end.

Section Transaction.
Context {B T : Type} `{ReferenceStorerLaws B} `{ReferenceStorerLaws T} `{!ReferenceIterLaw T}.

Lemma runRefs_tx ops : forall r : ReferenceStorage B T, tx_inv r ->
  exists r', runRefs r ops = Ok r' /\ base r' = base r /\ tx_inv r' /\ tx_view r' = foldl applyOp (tx_view r) ops.
Proof.
  induction ops as [|op ops IH]; intros r Hr; cbn [runRefs foldl].
  - exists r. auto.
  - destruct op as [ref|n]; cbn [SetReference RemoveReference transactional_ReferenceStorer].
    + destruct (tx_set r ref Hr) as (r1 & -> & Hb & Hr1 & Hv). cbn [res_bind].
      destruct (IH r1 Hr1) as (r2 & -> & Hb2 & Hr2 & Hv2). exists r2. cbn [applyOp]. rewrite <- Hv. split_and!; congruence || done.
    + destruct (tx_remove r n Hr) as (r1 & -> & Hb & Hr1 & Hv). cbn [res_bind].
      destruct (IH r1 Hr1) as (r2 & -> & Hb2 & Hr2 & Hv2). exists r2. cbn [applyOp]. rewrite <- Hv. split_and!; congruence || done.
Qed.

(** A transaction on references is isolated and takes effect as a whole. Over any lawful
    base and an empty temporal storage, a sequence of [SetReference] and
    [RemoveReference] runs without an error and leaves the base as it was;
    every [Reference] in the transaction answers as a map to which the
    operations were applied; and [Commit] succeeds and makes the base that map. *)
Theorem transaction_commit_spec (b : B) (t : T) ops :
  refs_inv b -> refs_inv t -> refs_view t = ∅ ->
  let final := foldl applyOp (refs_view b) ops in
  exists r b', runRefs (NewReferenceStorage b t) ops = Ok r /\ base r = b /\
    (forall n, tx_Reference r n = match final !! n with Some x => Ok x | None => Err ErrReferenceNotFound end) /\
    tx_Commit r = Ok (b', None) /\ refs_inv b' /\ refs_view b' = final.
Proof.
  intros Hb Ht He. cbv zeta.
  assert (tx_inv (NewReferenceStorage b t)) as Hi.
  { constructor; cbn; [done|done|]. intros n Hn. by apply elem_of_empty in Hn. }
  assert (tx_view (NewReferenceStorage b t) = refs_view b) as Hv.
  { apply map_eq. intros n. rewrite tx_lookup. cbn. by rewrite He, lookup_empty, decide_False by apply not_elem_of_empty. }
  destruct (runRefs_tx ops _ Hi) as (r & E & Hbr & Hir & Hvr). rewrite Hv in Hvr.
  destruct (tx_Commit_spec r Hir) as (b' & Ec & Hib & Hvb).
  exists r, b'. split; [done|]. split; [done|]. split; [|split; [done|split; [done|congruence]]].
  intros n. rewrite tx_get by done. by rewrite Hvr.
Qed.
End Transaction.

(** The statement over two storages in memory: a branch is replaced, another removed. *)
Definition demoBase : refmap :=
  <[Master := NewHashReference Master ZeroHash]> {[ Main := NewHashReference Main ZeroHash ]}.
Definition demoHash : ObjectID := fst (FromBytes (replicate 20 x01)).
Definition demoRefOps : list refOp := [OpSet (NewHashReference Master demoHash); OpRemove Main].

Lemma demoBase_ok : names_ok demoBase.
Proof.
  intros n r H. unfold demoBase in H.
  apply lookup_insert_Some in H as [[<- <-]|[_ [<- <-]%lookup_singleton_Some]]; reflexivity.
Qed.

Lemma empty_ok : names_ok ∅.
Proof. apply map_Forall_empty. Qed.

Lemma transaction_commit_spec_witness :
  let final := foldl applyOp demoBase demoRefOps in
  exists r b', runRefs (NewReferenceStorage demoBase (∅ : refmap)) demoRefOps = Ok r /\ base r = demoBase /\
    (forall n, tx_Reference r n = match final !! n with Some x => Ok x | None => Err ErrReferenceNotFound end) /\
    tx_Commit r = Ok (b', None) /\ names_ok b' /\ b' = final.
Proof. exact (transaction_commit_spec demoBase (∅ : refmap) demoRefOps demoBase_ok empty_ok eq_refl). Defined.

(** The names an iteration over a storage gives. *)
Definition iterNames {S} `{ReferenceStorer S} (s : S) : res (list ReferenceName) :=
  let* it := IterReferences s in
  let* (names, _) := ForEach it (fun names ref => (names ++ [rname ref], None)) [] in
  Ok names.

(** Inside a transaction the listing and the checks disagree with [Reference]. After a branch was
    removed it is not found, and yet [IterReferences] still lists it, lists a
    branch that was set twice, and [CheckAndSetReference] with the value the
    branch had before its removal succeeds; all of these read the base past
    the set of removed names. *)
Theorem transaction_listing_ignores_removals :
  (let* r := runRefs (NewReferenceStorage demoBase (∅ : refmap)) demoRefOps in
   let* names := iterNames r in
   let* r' := CheckAndSetReference r (Some (NewHashReference Main demoHash)) (Some (NewHashReference Main ZeroHash)) in
   Ok (Reference_ r Main, bool_decide (Main ∈ names), length (filter (fun n => n = Master) names), Reference_ r' Main)) =
  Ok (Err ErrReferenceNotFound, true, 2%nat, Ok (NewHashReference Main demoHash)).
Proof. vm_compute. reflexivity. Qed.

(** Setting shallow commits in a transaction is visible at once and survives [Commit], unless
    the new list is empty: an empty list is taken for "not set", so a
    transaction cannot remove the shallow commits of its base. *)
Theorem transaction_shallow_spec s commits :
  let s' := tx_SetShallow s commits in
  (commits <> [] -> tx_Shallow s' = commits /\ shBase (tx_CommitShallow s') = commits) /\
  (commits = [] -> tx_Shallow s' = shBase s /\ shBase (tx_CommitShallow s') = shBase s).
Proof.
  cbv zeta. unfold tx_SetShallow, tx_Shallow, tx_CommitShallow, SetShallow, Shallow. cbn [shBase shTemporal]. split.
  - intros Hne. destruct (Z.eqb_spec (len commits) 0); [|done]. destruct commits; [done|]. len_lia.
  - by intros ->.
Qed.

Lemma transaction_shallow_spec_witness :
  tx_Shallow (tx_SetShallow (mkShallow [ZeroHash] []) [demoHash]) = [demoHash] /\
  tx_Shallow (tx_SetShallow (mkShallow [ZeroHash] []) []) = [ZeroHash].
Proof.
  split.
  - apply (transaction_shallow_spec (mkShallow [ZeroHash] []) [demoHash]). discriminate.
  - apply (transaction_shallow_spec (mkShallow [ZeroHash] []) []). reflexivity.
Defined.

(** ** Objects *)
Section TxObjectProofs.
Context {Obj : Type} (objHash : Obj -> ObjectID) (objType : Obj -> ObjectType).

Lemma commitObjects_spec objs : forall b,
  Forall (fun obj => supported objType obj = true) objs ->
  exists b', commitObjects objHash objType b objs = (None, b') /\
    Objects b' = foldl (fun m obj => <[objHash obj := obj]> m) (Objects b) objs.
Proof.
  induction objs as [|x objs IH]; intros b Hall; cbn [commitObjects foldl]; [by exists b|].
  apply Forall_cons in Hall as [Hx Hall]. destruct (set_spec objHash objType b x) as [He Ho]. rewrite Hx in He.
  destruct (SetEncodedObject objHash objType b x) as [[h err] b1]. cbn [fst snd] in *. subst err.
  destruct (IH b1 Hall) as (b' & -> & Ho'). exists b'. split; [done|]. by rewrite Ho', Ho.
Qed.

(** What a transaction shows of objects is what its [Commit] leaves in the base. When
    no two different objects share a hash and all objects set in the
    transaction have a supported type, [Commit] succeeds, the base then has the
    objects of both storages, and every lookup by type and hash in it gives what
    the lookup in the transaction gave. *)
Theorem transaction_objects_commit (o : TransactionalObjects) :
  (forall a b, objHash a = objHash b -> a = b) ->
  storage_ok objHash objType (objBase o) -> storage_ok objHash objType (objTemporal o) ->
  map_Forall (fun _ obj => supported objType obj = true) (Objects (objTemporal o)) ->
  exists b', tobj_Commit objHash objType o = (None, b') /\
    Objects b' = Objects (objTemporal o) ∪ Objects (objBase o) /\
    forall t h, EncodedObject objType b' t h = tobj_EncodedObject objType o t h.
Proof.
  intros Hinj Hb Ht Hs.
  destruct (commitObjects_spec (IterEncodedObjects (objTemporal o) AnyObject) (objBase o)) as (b' & E & Ho).
  { apply Forall_forall. intros obj Hin. change (IterEncodedObjects _ AnyObject) with (flattenObjectMap (Objects (objTemporal o))) in Hin.
    apply list_elem_of_fmap in Hin as ([h x] & -> & Hin). apply elem_of_map_to_list in Hin. by apply (Hs h x). }
  exists b'. split; [exact E|].
  rewrite (foldl_insert_values objHash (Objects (objTemporal o))) in Ho; [|apply Ht|done].
  split; [done|]. intros t h. unfold tobj_EncodedObject, EncodedObject, lookupObject. rewrite Ho.
  destruct (Objects (objTemporal o) !! h) as [x|] eqn:Ex.
  - rewrite (lookup_union_Some_l _ _ _ _ Ex). destruct (Objects (objBase o) !! h) as [y|] eqn:Ey; [|done].
    assert (y = x) as ->.
    { apply Hinj. pose proof (so_hash _ _ _ Ht h x Ex) as E1. pose proof (so_hash _ _ _ Hb h y Ey) as E2. cbn in E1, E2. congruence. }
    by destruct (negb (AnyObject =? t) && negb (objType x =? t)).
  - rewrite lookup_union_r by done. destruct (Objects (objBase o) !! h) as [y|]; [|done].
    by destruct (negb (AnyObject =? t) && negb (objType y =? t)).
Qed.
End TxObjectProofs.

(** The statement at a commit in the base and a blob in the transaction. *)
Lemma transaction_objects_commit_witness :
  let o := mkObjs (storeAll id demoType NewObjectStorage [demoObject x01]) (storeAll id demoType NewObjectStorage [demoObject x03]) in
  exists b', tobj_Commit id demoType o = (None, b') /\
    Objects b' = Objects (objTemporal o) ∪ Objects (objBase o) /\
    forall t h, EncodedObject demoType b' t h = tobj_EncodedObject demoType o t h.
Proof.
  apply (transaction_objects_commit id demoType).
  - intros a b E. exact E.
  - apply storeAll_ok; [intros a b; unfold id; congruence|apply NewObjectStorage_ok].
  - apply storeAll_ok; [intros a b; unfold id; congruence|apply NewObjectStorage_ok].
  - intros h obj H. cbn in H. apply lookup_insert_Some in H as [[<- <-]|[_ H]]; [reflexivity|by rewrite lookup_empty in H].
Defined.
