(* ===== verification/RefSpec.v ===== *)
(** * config/refspec.go, and [pruneRemotes] of remote.go

    Refspecs: their two sides, matching and mapping a reference name, and
    reversal; and the pruning of local references, which uses the reversal.
    Indexing and slicing panic as in Go. *)
From S2P Require Import Prelude GoStrings ObjectID Reference Storer Memory.

Definition refSpecWildcard : byte := x2a.   (* '*' *)
Definition refSpecForce : byte := x2b.      (* '+' *)
Definition refSpecSeparator : byte := x3a.  (* ':' *)

Abbreviation RefSpec := bytes (only parsing).

Definition RefSpec_Validate (spec : RefSpec) : res unit :=
  if negb (CountByte spec refSpecSeparator =? 1) then Err ErrRefSpecMalformedSeparator
  else
    let sep := IndexByte spec refSpecSeparator in
    if sep =? len spec - 1 then Err ErrRefSpecMalformedSeparator
    else
      let* src := slice spec 0 sep in
      let* dst := slice spec (sep + 1) (len spec) in
      let ws := CountByte src refSpecWildcard in
      let wd := CountByte dst refSpecWildcard in
      if (ws =? wd) && (ws <? 2) && (wd <? 2) then Ok tt else Err ErrRefSpecMalformedWildcard.

Definition IsForceUpdate (s : RefSpec) : res bool :=
  let* c := index s 0 in Ok (bool_decide (c = refSpecForce)).

Definition IsDelete (s : RefSpec) : res bool :=
  let* c := index s 0 in Ok (bool_decide (c = refSpecSeparator)).

Definition Src (spec : RefSpec) : res bytes :=
  let* force := IsForceUpdate spec in
  let start := if force : bool then 1 else 0 in
  let stop := IndexByte spec refSpecSeparator in
  slice spec start stop.

Definition IsExactSHA1 (s : RefSpec) : res bool := let* src := Src s in Ok (IsHash src).

Definition IsWildcard (s : RefSpec) : bool := Contains s [refSpecWildcard].

Definition matchExact (s : RefSpec) (n : ReferenceName) : res bool :=
  let* src := Src s in Ok (bool_decide (src = n)).

Definition matchGlob (s : RefSpec) (name : ReferenceName) : res bool :=
  let* src := Src s in
  let wildcard := IndexByte src refSpecWildcard in
  let* prefix := slice src 0 wildcard in
  let* suffix := if len src >? wildcard + 1 then slice src (wildcard + 1) (len src) else Ok [] in
  Ok ((len name >=? len prefix + len suffix) && HasPrefix name prefix && HasSuffix name suffix).

Definition Match (s : RefSpec) (n : ReferenceName) : res bool :=
  if negb (IsWildcard s) then matchExact s n else matchGlob s n.

Definition Dst (spec : RefSpec) (name : ReferenceName) : res ReferenceName :=
  let start := IndexByte spec refSpecSeparator + 1 in
  let* dst := slice spec start (len spec) in
  let* src := Src spec in
  if negb (IsWildcard spec) then Ok dst
  else
    let ws := IndexByte src refSpecWildcard in
    let wd := IndexByte dst refSpecWildcard in
    let* m := slice name ws (len name - (len src - (ws + 1))) in
    let* before := slice dst 0 wd in
    let* after := slice dst (wd + 1) (len dst) in
    Ok (before ++ m ++ after).

Definition Reverse (spec : RefSpec) : res RefSpec :=
  let separator := IndexByte spec refSpecSeparator in
  let* dst := slice spec (separator + 1) (len spec) in
  let* src := slice spec 0 separator in
  Ok (dst ++ [refSpecSeparator] ++ src).

Fixpoint MatchAny (l : list RefSpec) (n : ReferenceName) : res bool :=
  match l with
  | [] => Ok false
  | r :: l => let* b := Match r n in if b : bool then Ok true else MatchAny l n
  end.

(** ** [Remote.pruneRemotes] (remote.go)

    [local] is the storage of the remote's repository, [localRefs] its
    references at the start. *)
Section Prune.
Context {L R : Type} `{ReferenceStorer L} `{ReferenceStorer R}.

Fixpoint prune_refs (rev : RefSpec) (localRefs : list Reference) (local : L) (remoteRefs : R) (updated : bool) : res (bool * L) :=
  match localRefs with
  | [] => Ok (updated, local)
  | ref :: localRefs =>
    let* matched := Match rev (rname ref) in
    if negb matched then prune_refs rev localRefs local remoteRefs updated
    else
      let* dst := Dst rev (rname ref) in
      match Reference_ remoteRefs dst with
      | Err ErrReferenceNotFound =>
        let* local := RemoveReference local (rname ref) in
        prune_refs rev localRefs local remoteRefs true
      | _ => prune_refs rev localRefs local remoteRefs updated
      end
  end.

Fixpoint pruneRemotes_loop (specs : list RefSpec) (localRefs : list Reference) (local : L) (remoteRefs : R) (updated : bool) : res (bool * L) :=
  match specs with
  | [] => Ok (updated, local)
  | spec :: specs =>
    let* rev := Reverse spec in
    let* (updated, local) := prune_refs rev localRefs local remoteRefs updated in
    pruneRemotes_loop specs localRefs local remoteRefs updated
  end.

Definition pruneRemotes (specs : list RefSpec) (localRefs : list Reference) (local : L) (remoteRefs : R) : res (bool * L) :=
  pruneRemotes_loop specs localRefs local remoteRefs false.
End Prune.

(** ** The two sides of a refspec *)

Definition joinSpec (src dst : bytes) : RefSpec := src ++ refSpecSeparator :: dst.

(** The left side without its force mark. *)
Definition forced (src : bytes) : bool := match src with c :: _ => bool_decide (c = refSpecForce) | [] => false end.
Definition unforced (src : bytes) : bytes := if forced src then drop 1 src else src.

Lemma slice_prefix (a b : bytes) : slice (a ++ b) 0 (len a) = Ok a.
Proof.
  rewrite slice_ok by (len_lia). unfold seg. rewrite Z.sub_0_r, drop_0. unfold len. rewrite Nat2Z.id.
  by rewrite take_app_length.
Qed.

Lemma slice_suffix (a b : bytes) x n : n = len (a ++ x :: b) -> slice (a ++ x :: b) (len a + 1) n = Ok b.
Proof.
  intros ->. rewrite slice_ok by len_lia. unfold seg. rewrite len_app, len_cons.
  replace (a ++ x :: b) with ((a ++ [x]) ++ b) by (by rewrite <- app_assoc).
  rewrite drop_app_length' by (rewrite length_app; unfold len; cbn; lia).
  f_equal. apply take_ge. unfold len. lia.
Qed.

Section Sides.
Context (src dst : bytes).
Hypothesis Hsrc : refSpecSeparator ∉ src.
Let spec := joinSpec src dst.

Lemma spec_sep : IndexByte spec refSpecSeparator = len src.
Proof. by apply IndexByte_split. Qed.

Lemma spec_len : len spec = len src + 1 + len dst.
Proof. unfold spec, joinSpec. len_lia. Qed.

Lemma spec_IsForceUpdate : IsForceUpdate spec = Ok (forced src).
Proof. unfold IsForceUpdate, spec, joinSpec. destruct src as [|c l]; [reflexivity|]. reflexivity. Qed.

Lemma spec_Src : Src spec = Ok (unforced src).
Proof.
  unfold Src. rewrite spec_IsForceUpdate, spec_sep. cbn [res_bind]. unfold unforced, spec, joinSpec.
  destruct src as [|c l]; [reflexivity|]. cbn [forced]. case_bool_decide as E.
  - rewrite slice_ok by len_lia. unfold seg. rewrite len_cons. cbn [app].
    change (drop (Z.to_nat 1) (c :: l ++ refSpecSeparator :: dst)) with (l ++ refSpecSeparator :: dst).
    change (drop 1 (c :: l)) with l.
    replace (Z.to_nat (1 + len l - 1)) with (length l) by (unfold len; lia). by rewrite take_app_length.
  - apply slice_prefix.
Qed.

Lemma spec_Dst n : Dst spec n =
  if negb (IsWildcard spec) then Ok dst
  else
    let ws := IndexByte (unforced src) refSpecWildcard in
    let wd := IndexByte dst refSpecWildcard in
    let* m := slice n ws (len n - (len (unforced src) - (ws + 1))) in
    let* before := slice dst 0 wd in
    let* after := slice dst (wd + 1) (len dst) in
    Ok (before ++ m ++ after).
Proof.
  unfold Dst. rewrite spec_sep, spec_Src. unfold spec, joinSpec.
  rewrite slice_suffix by done. reflexivity.
Qed.

Lemma spec_Reverse : Reverse spec = Ok (joinSpec dst src).
Proof.
  unfold Reverse. rewrite spec_sep. unfold spec, joinSpec.
  rewrite slice_suffix by done. cbn [res_bind]. rewrite slice_prefix. reflexivity.
Qed.
End Sides.

(** A valid refspec has two sides with the same number, zero or one, of wildcards. *)
Definition sides_ok (src dst : bytes) : Prop :=
  refSpecSeparator ∉ src /\ refSpecSeparator ∉ dst /\ dst <> [] /\
  (refSpecWildcard ∉ src /\ refSpecWildcard ∉ dst \/
   exists a b c d, src = a ++ refSpecWildcard :: b /\ dst = c ++ refSpecWildcard :: d /\
     refSpecWildcard ∉ a /\ refSpecWildcard ∉ b /\ refSpecWildcard ∉ c /\ refSpecWildcard ∉ d).

Lemma Validate_sides s : RefSpec_Validate s = Ok tt -> exists src dst, s = joinSpec src dst /\ sides_ok src dst.
Proof.
  unfold RefSpec_Validate. destruct (Z.eqb_spec (CountByte s refSpecSeparator) 1) as [E|E]; cbn [negb]; [|discriminate].
  apply CountByte_one in E as (src & dst & -> & Hs & Hd). rewrite IndexByte_split by done.
  destruct (Z.eqb_spec (len src) (len (src ++ refSpecSeparator :: dst) - 1)) as [|Hne]; [discriminate|].
  rewrite slice_prefix. cbn [res_bind]. rewrite slice_suffix by done. cbn [res_bind]. intros H. exists src, dst.
  split; [done|]. split; [done|]. split; [done|]. split; [intros ->; len_lia|].
  destruct (Z.eqb_spec (CountByte src refSpecWildcard) (CountByte dst refSpecWildcard)) as [Eq|];
    destruct (Z.ltb_spec (CountByte src refSpecWildcard) 2) as [Hlt|]; cbn [andb] in H; try discriminate H.
  pose proof (CountByte_nonneg src refSpecWildcard).
  destruct (Z.eq_dec (CountByte src refSpecWildcard) 0) as [E0|E0].
  - left. split; apply CountByte_zero; lia.
  - right. assert (CountByte src refSpecWildcard = 1) as E1 by lia. assert (CountByte dst refSpecWildcard = 1) as E2 by lia.
    apply CountByte_one in E1 as (a & b & -> & Ha & Hb). apply CountByte_one in E2 as (c & d & -> & Hc & Hd').
    by exists a, b, c, d.
Qed.

Lemma IsWildcard_join src dst :
  IsWildcard (joinSpec src dst) = bool_decide (refSpecWildcard ∈ src) || bool_decide (refSpecWildcard ∈ dst).
Proof.
  unfold IsWildcard, joinSpec. rewrite (Contains_nosep refSpecSeparator src dst [refSpecWildcard]).
  2: { intros [|]%elem_of_cons; [discriminate|]. by eapply not_elem_of_nil. }
  2: { done. }
  assert (forall l, Contains l [refSpecWildcard] = bool_decide (refSpecWildcard ∈ l)) as Hc.
  { intros l. apply eq_true_iff_eq. rewrite Contains_true, bool_decide_eq_true. split.
    - intros (x & y & ->). set_solver.
    - intros H. apply list_elem_of_split in H as (x & y & ->). by exists x, y. }
  by rewrite !Hc.
Qed.

Lemma unforced_wildcard a b : refSpecWildcard ∉ a ->
  exists a', unforced (a ++ refSpecWildcard :: b) = a' ++ refSpecWildcard :: b /\ refSpecWildcard ∉ a' /\ a' = unforced a.
Proof.
  intros Ha. unfold unforced. destruct a as [|x a]; cbn [app forced].
  - exists []. rewrite bool_decide_eq_false_2 by discriminate. split; [done|]. split; [apply not_elem_of_nil|done].
  - case_bool_decide as E; cbn [drop]; [exists a|exists (x :: a)]; split_and!; try done. set_solver.
Qed.

(** Matching and mapping with the wildcards shown. *)
Lemma glob_spec src dst a b c d n :
  refSpecSeparator ∉ src ->
  unforced src = a ++ refSpecWildcard :: b -> dst = c ++ refSpecWildcard :: d ->
  refSpecWildcard ∉ a -> refSpecWildcard ∉ c ->
  (exists r, Match (joinSpec src dst) n = Ok r /\ (r = true <-> exists m, n = a ++ m ++ b)) /\
  (forall m, Dst (joinSpec src dst) (a ++ m ++ b) = Ok (c ++ m ++ d)).
Proof.
  intros Hs Eu -> Ha Hc.
  assert (IsWildcard (joinSpec src (c ++ refSpecWildcard :: d)) = true) as Hw.
  { rewrite IsWildcard_join. rewrite (bool_decide_eq_true_2 (_ ∈ c ++ _)) by set_solver. apply orb_true_r. }
  split.
  - unfold Match. rewrite Hw. cbn [negb]. unfold matchGlob. rewrite spec_Src by done. cbn [res_bind].
    rewrite Eu, IndexByte_split by done. rewrite slice_prefix. cbn [res_bind].
    assert ((if len (a ++ refSpecWildcard :: b) >? len a + 1 then slice (a ++ refSpecWildcard :: b) (len a + 1) (len (a ++ refSpecWildcard :: b)) else Ok []) = Ok b) as ->.
    { destruct (Z.gtb_spec (len (a ++ refSpecWildcard :: b)) (len a + 1)); [by apply slice_suffix|].
      destruct b as [|y b]; [done|]. len_lia. }
    cbn [res_bind]. eexists. split; [reflexivity|]. rewrite !andb_true_iff, HasPrefix_true, HasSuffix_true, Z.geb_leb, Z.leb_le.
    split.
    + intros [[Hl [x Hx]] [y Hy]]. subst n. apply app_eq_app in Hy as (k & [[E1 E2]|[E1 E2]]).
      * (* the prefix [a] covers [y] and [k]: then [k] is empty by length *)
        destruct k as [|z k]; [exists []; rewrite E2; done|]. subst b. len_lia.
      * subst x. by exists k.
    + intros [m ->]. split; [split; [len_lia|by exists (m ++ b)]|exists (a ++ m); by rewrite app_assoc].
  - intros m. rewrite spec_Dst by done. rewrite Hw. cbn [negb]. cbv zeta. rewrite Eu, !IndexByte_split by done.
    assert (slice (a ++ m ++ b) (len a) (len (a ++ m ++ b) - (len (a ++ refSpecWildcard :: b) - (len a + 1))) = Ok m) as ->.
    { replace (len (a ++ m ++ b) - _) with (len a + len m) by len_lia. rewrite slice_ok by len_lia. unfold seg.
      replace (len a + len m - len a) with (len m) by lia. unfold len at 2. rewrite Nat2Z.id, drop_app_length.
      unfold len. rewrite Nat2Z.id. by rewrite take_app_length. }
    cbn [res_bind]. rewrite slice_prefix. cbn [res_bind]. rewrite slice_suffix by done. reflexivity.
Qed.

Lemma exact_spec src dst n :
  refSpecSeparator ∉ src -> refSpecWildcard ∉ src -> refSpecWildcard ∉ dst ->
  Match (joinSpec src dst) n = Ok (bool_decide (unforced src = n)) /\ Dst (joinSpec src dst) n = Ok dst.
Proof.
  intros Hs H1 H2. assert (IsWildcard (joinSpec src dst) = false) as Hw.
  { rewrite IsWildcard_join. by rewrite !bool_decide_eq_false_2. }
  rewrite spec_Dst by done. unfold Match, matchExact. rewrite Hw. cbn [negb]. rewrite spec_Src by done. done.
Qed.

(** What a pair of patterns promises: an exact pattern matches one name and maps it to the other side,
    a wildcard pattern matches the names with its prefix and suffix and maps what is between
    them. *)
Definition maps_by (spec : RefSpec) (sp dp : bytes) : Prop :=
  (refSpecWildcard ∉ sp /\ refSpecWildcard ∉ dp /\
   forall n, Match spec n = Ok (bool_decide (sp = n)) /\ Dst spec n = Ok dp) \/
  (exists a b c d, sp = a ++ refSpecWildcard :: b /\ dp = c ++ refSpecWildcard :: d /\
   (forall n, exists r, Match spec n = Ok r /\ (r = true <-> exists m, n = a ++ m ++ b)) /\
   (forall m, Dst spec (a ++ m ++ b) = Ok (c ++ m ++ d))).

Lemma sides_maps src dst : sides_ok src dst -> maps_by (joinSpec src dst) (unforced src) dst.
Proof.
  intros (Hs & Hd & Hne & [[H1 H2]|(a & b & c & d & -> & -> & Ha & Hb & Hc & Hd')]).
  - left. split; [|split; [done|intros n; by apply exact_spec]].
    unfold unforced. destruct src as [|x l]; [done|]. cbn [forced]. case_bool_decide; [|done]. cbn. set_solver.
  - right. destruct (unforced_wildcard a b Ha) as (a' & E & Ha' & _). exists a', b, c, d.
    split; [done|]. split; [done|].
    split; [intros n; by apply (glob_spec _ _ a' b c d n)|by apply (glob_spec _ _ a' b c d [])].
Qed.

(** A refspec that passes [Validate] never panics and does what its text says: it is an
    optional "+", a source pattern, ":" and a destination pattern;
    [IsForceUpdate] and [Src] return the first two; without wildcards [Match]
    is equality with the source and [Dst] is the destination; with one, [Match]
    accepts exactly the names with the source's prefix and suffix around some
    text, and [Dst] puts that text between the destination's prefix and suffix. *)
Theorem refspec_maps s :
  RefSpec_Validate s = Ok tt ->
  exists force sp dp,
    s = (if force : bool then [refSpecForce] else []) ++ sp ++ refSpecSeparator :: dp /\
    IsForceUpdate s = Ok force /\ Src s = Ok sp /\ maps_by s sp dp.
Proof.
  intros (src & dst & -> & Hok)%Validate_sides. pose proof Hok as (Hs & _).
  exists (forced src), (unforced src), dst. split; [|split; [by apply spec_IsForceUpdate|split; [by apply spec_Src|by apply sides_maps]]].
  unfold joinSpec, unforced. destruct src as [|x l]; [done|]. cbn [forced]. case_bool_decide as E; [|done]. by rewrite E.
Qed.

(** The statement at the refspec of a clone. *)
Lemma refspec_maps_witness :
  let s := bs "+refs/heads/*:refs/remotes/origin/*" in
  exists force sp dp,
    s = (if force : bool then [refSpecForce] else []) ++ sp ++ refSpecSeparator :: dp /\
    IsForceUpdate s = Ok force /\ Src s = Ok sp /\ maps_by s sp dp.
Proof. apply (refspec_maps (bs "+refs/heads/*:refs/remotes/origin/*")). vm_compute. reflexivity. Defined.

Lemma sides_ok_swap src dst : sides_ok src dst -> src <> [] -> sides_ok dst src.
Proof.
  intros (Hs & Hd & Hne & Hw) Hn. split; [done|]. split; [done|]. split; [done|].
  destruct Hw as [[? ?]|(a & b & c & d & -> & -> & Ha & Hb & Hc & Hd')]; [by left|].
  right. by exists c, d, a, b.
Qed.

Lemma not_forced l : IsForceUpdate l = Ok false -> l <> [] -> unforced l = l /\ forced l = false.
Proof.
  unfold IsForceUpdate, unforced. destruct l as [|c l]; [done|]. cbn. intros [= E] _. by rewrite E.
Qed.

(** Without force marks [Reverse] inverts the mapping: for a valid refspec
    with a source, on neither side of which a "+" stands first, the reversed
    refspec matches every name the refspec maps to, and maps it back. *)
Theorem refspec_reverse_roundtrip src dst n :
  sides_ok src dst -> src <> [] -> forced src = false -> forced dst = false ->
  Match (joinSpec src dst) n = Ok true ->
  exists rev n', Reverse (joinSpec src dst) = Ok rev /\ Dst (joinSpec src dst) n = Ok n' /\
    Match rev n' = Ok true /\ Dst rev n' = Ok n.
Proof.
  intros Hok Hne Hfs Hfd Hm. pose proof Hok as (Hs & Hd & Hdne & Hw). exists (joinSpec dst src).
  pose proof (sides_ok_swap src dst Hok Hne) as Hok'.
  assert (unforced src = src) as Es by (unfold unforced; by rewrite Hfs).
  assert (unforced dst = dst) as Ed by (unfold unforced; by rewrite Hfd).
  destruct Hw as [[H1 H2]|(a & b & c & d & -> & -> & Ha & Hb & Hc & Hd')].
  - destruct (exact_spec src dst n Hs H1 H2) as [Em Edst]. rewrite Em, Es in Hm. injection Hm as Hm%bool_decide_eq_true.
    destruct (exact_spec dst src dst Hd H2 H1) as [Em' Edst']. rewrite Ed in Em'.
    exists dst. split; [by apply spec_Reverse|]. split; [done|]. rewrite Em', Edst'. split; [by rewrite bool_decide_eq_true_2|congruence].
  - destruct (glob_spec _ _ a b c d n Hs Es eq_refl Ha Hc) as ((r & Er & Hr) & HD).
    rewrite Er in Hm. injection Hm as ->. destruct (proj1 Hr eq_refl) as [m ->].
    destruct (glob_spec _ _ c d a b (c ++ m ++ d) Hd Ed eq_refl Hc Ha) as ((r' & Er' & Hr') & HD').
    exists (c ++ m ++ d). split; [by apply spec_Reverse|]. split; [apply HD|]. split; [|apply HD'].
    rewrite Er'. f_equal. apply Hr'. by exists m.
Qed.

Lemma demo_sides_ok x : CountByte x refSpecSeparator = 0 -> CountByte x refSpecWildcard = 0 ->
  sides_ok (x ++ bs "refs/heads/*") (bs "refs/remotes/origin/*").
Proof.
  intros H1 H2. split; [|split; [|split; [discriminate|]]].
  - apply CountByte_zero. by rewrite CountByte_app, H1.
  - apply CountByte_zero. reflexivity.
  - right. exists (x ++ bs "refs/heads/"), [], (bs "refs/remotes/origin/"), [].
    split_and!; [by rewrite <- app_assoc|reflexivity|..]; apply CountByte_zero; rewrite ?CountByte_app, ?H2; reflexivity.
Qed.

(** The statement at a branch mapped to a remote branch and back. *)
Lemma refspec_reverse_roundtrip_witness :
  exists rev n', Reverse (joinSpec (bs "refs/heads/*") (bs "refs/remotes/origin/*")) = Ok rev /\
    Dst (joinSpec (bs "refs/heads/*") (bs "refs/remotes/origin/*")) Master = Ok n' /\
    Match rev n' = Ok true /\ Dst rev n' = Ok Master.
Proof.
  apply (refspec_reverse_roundtrip (bs "refs/heads/*") (bs "refs/remotes/origin/*") Master).
  - apply (demo_sides_ok []); reflexivity.
  - discriminate.
  - reflexivity.
  - reflexivity.
  - vm_compute. reflexivity.
Defined.

(** ** Pruning *)
Section PruneProofs.
Context {L R : Type} `{ReferenceStorerLaws L} `{ReferenceStorerLaws R}.

Lemma prune_refs_spec rev mt ds (remote : R) lrefs : refs_inv remote ->
  (forall n, Match rev n = Ok (mt n)) -> (forall n, mt n = true -> Dst rev n = Ok (ds n)) ->
  forall (local : L) u, refs_inv local ->
  exists u' local', prune_refs rev lrefs local remote u = Ok (u', local') /\ refs_inv local' /\
    forall n, refs_view local' !! n =
      if decide (n ∈ map rname lrefs /\ mt n = true /\ refs_view remote !! ds n = None) then None else refs_view local !! n.
Proof.
  intros Hrem Hm Hd. induction lrefs as [|ref lrefs IH]; intros local u Hl; cbn [prune_refs map].
  - exists u, local. split; [done|]. split; [done|]. intros n. rewrite decide_False; [done|]. intros [Hn _]. by apply not_elem_of_nil in Hn.
  - rewrite Hm. cbn [res_bind].
    assert (forall local' : L, (forall n, refs_view local' !! n = if decide (n ∈ map rname lrefs /\ mt n = true /\ refs_view remote !! ds n = None) then None else refs_view local !! n) ->
      ~ (mt (rname ref) = true /\ refs_view remote !! ds (rname ref) = None) ->
      forall n, refs_view local' !! n = if decide (n ∈ rname ref :: map rname lrefs /\ mt n = true /\ refs_view remote !! ds n = None) then None else refs_view local !! n) as Hskip.
    { intros local' Hv Hno n. rewrite Hv. apply decide_ext. rewrite elem_of_cons. split; [tauto|].
      intros ([-> |Hn] & H3); [tauto|done]. }
    destruct (mt (rname ref)) eqn:Emt; cbn [negb].
    + rewrite (Hd _ Emt). cbn [res_bind]. rewrite (refs_get remote) by done.
      destruct (refs_view remote !! ds (rname ref)) as [x|] eqn:Ex.
      * destruct (IH local u Hl) as (u' & local' & E & Hl' & Hv). exists u', local'. split; [done|]. split; [done|].
        apply Hskip; [done|]. intros [_ ?]. congruence.
      * destruct (refs_remove local (rname ref) Hl) as (l1 & -> & Hl1 & Hv1). cbn [res_bind].
        destruct (IH l1 true Hl1) as (u' & local' & E & Hl' & Hv). exists u', local'. split; [done|]. split; [done|].
        intros n. rewrite Hv, Hv1. destruct (decide (n = rname ref)) as [->|Hn].
        -- rewrite lookup_delete_eq. rewrite (decide_True (P := rname ref ∈ rname ref :: _ /\ _)) by (split; [left|done]).
           by destruct (decide _).
        -- rewrite lookup_delete_ne by done. apply decide_ext. rewrite elem_of_cons. tauto.
    + destruct (IH local u Hl) as (u' & local' & E & Hl' & Hv). exists u', local'. split; [done|]. split; [done|].
      apply Hskip; [done|]. intros [? _]. congruence.
Qed.

(** The names a pattern matches, and where a pair of patterns maps a name. *)
Definition patternMatch (p n : bytes) : bool :=
  match Split p refSpecWildcard with
  | [a; b] => (len n >=? len a + len b) && HasPrefix n a && HasSuffix n b
  | _ => bool_decide (p = n)
  end.

Lemma Match_pattern src dst n : sides_ok src dst ->
  Match (joinSpec src dst) n = Ok (patternMatch (unforced src) n).
Proof.
  intros Hok. pose proof Hok as (Hs & Hd & Hne & [[Hw1 Hw2]|(a & b & c & d & -> & -> & Ha & Hb & Hc & Hd')]).
  - destruct (exact_spec src dst n Hs Hw1 Hw2) as [-> _]. unfold patternMatch.
    rewrite Split_single; [done|]. unfold unforced. destruct src as [|x l]; [done|]. cbn [forced]. case_bool_decide; [|done]. cbn. set_solver.
  - destruct (unforced_wildcard a b Ha) as (a' & E & Ha' & _).
    destruct (glob_spec _ _ a' b c d n Hs E eq_refl Ha' Hc) as ((r & -> & Hr) & _).
    unfold patternMatch. rewrite E, Split_cons, Split_single by done. f_equal. apply eq_true_iff_eq.
    rewrite Hr, !andb_true_iff, HasPrefix_true, HasSuffix_true, Z.geb_leb, Z.leb_le. split.
    + intros [m ->]. split; [split; [len_lia|by exists (m ++ b)]|exists (a' ++ m); by rewrite app_assoc].
    + intros [[Hl [x Hx]] [y Hy]]. subst n. apply app_eq_app in Hy as (k & [[E1 E2]|[E1 E2]]).
      * destruct k as [|z k]; [exists []; rewrite E2; done|]. subst b. len_lia.
      * subst x. by exists k.
Qed.

(** A single refspec, by the patterns of its reversal [joinSpec dst src]. *)
Lemma pruneRemotes_one src dst lrefs (local : L) (remote : R) ds :
  sides_ok src dst -> src <> [] -> refs_inv local -> refs_inv remote ->
  (forall n, patternMatch (unforced dst) n = true -> Dst (joinSpec dst src) n = Ok (ds n)) ->
  exists u local', pruneRemotes [joinSpec src dst] lrefs local remote = Ok (u, local') /\
    forall n, refs_view local' !! n =
      if decide (n ∈ map rname lrefs /\ patternMatch (unforced dst) n = true /\ refs_view remote !! ds n = None)
      then None else refs_view local !! n.
Proof.
  intros Hok Hne Hl Hr Hds. unfold pruneRemotes. cbn [pruneRemotes_loop]. rewrite spec_Reverse by apply Hok. cbn [res_bind].
  pose proof (sides_ok_swap src dst Hok Hne) as Hok'.
  destruct (prune_refs_spec (joinSpec dst src) (patternMatch (unforced dst)) ds remote lrefs Hr
    (fun n => Match_pattern dst src n Hok') Hds local false Hl) as (u & local' & E & _ & Hv).
  exists u, local'. rewrite E. done.
Qed.

(** Where the reversal of a forced refspec maps a name it matches: to a name that
    begins with "+". *)
Lemma reverse_forced_Dst src dst n :
  sides_ok src dst -> forced src = true -> patternMatch (unforced dst) n = true ->
  exists n', Dst (joinSpec dst src) n = Ok (refSpecForce :: n').
Proof.
  intros Hok Hf Hm. assert (src <> []) as Hne by (by destruct src).
  pose proof (sides_ok_swap src dst Hok Hne) as Hok'. pose proof (Match_pattern dst src n Hok') as HM. rewrite Hm in HM.
  assert (exists l, src = refSpecForce :: l) as [l ->].
  { destruct src as [|x l]; [done|]. cbn in Hf. apply bool_decide_eq_true in Hf as ->. by exists l. }
  destruct (sides_maps _ _ Hok') as [(_ & _ & Hx)|(a & b & c & d & E1 & E2 & HM' & HD)].
  - exists l. apply Hx.
  - destruct (HM' n) as (r & Er & Hr). rewrite Er in HM. injection HM as ->. destruct (proj1 Hr eq_refl) as [m ->].
    rewrite HD. destruct c as [|x c]; [discriminate E2|]. injection E2 as <- ->. by eexists.
Qed.

(** Pruning with a forced refspec removes every local reference the refspec's destination matches,
    whether the remote still has its source or not: the reversed refspec keeps
    the "+" on what is now the destination side, so the names it looks up at
    the remote begin with "+" and are never found. *)
Theorem prune_forced_removes_all src dst lrefs (local : L) (remote : R) :
  sides_ok src dst -> forced src = true -> refs_inv local -> refs_inv remote ->
  (forall n, refs_view remote !! (refSpecForce :: n) = None) ->
  exists u local', pruneRemotes [joinSpec src dst] lrefs local remote = Ok (u, local') /\
    forall n, refs_view local' !! n =
      if decide (n ∈ map rname lrefs /\ patternMatch (unforced dst) n = true) then None else refs_view local !! n.
Proof.
  intros Hok Hf Hl Hr Hplus. assert (src <> []) as Hne by (by destruct src).
  set (ds := fun n => match Dst (joinSpec dst src) n with Ok x => x | _ => [] end).
  destruct (pruneRemotes_one src dst lrefs local remote ds Hok Hne Hl Hr) as (u & local' & E & Hv).
  { intros n Hn. unfold ds. by destruct (reverse_forced_Dst src dst n Hok Hf Hn) as [n' ->]. }
  exists u, local'. split; [done|]. intros n. rewrite Hv. apply decide_ext. split; [tauto|]. intros [H1' H2'].
  split; [done|]. split; [done|]. unfold ds. destruct (reverse_forced_Dst src dst n Hok Hf H2') as [n' ->]. apply Hplus.
Qed.
End PruneProofs.

(** The statement at the refspec of a clone, with a branch the remote has: its remote-tracking reference
    is removed. *)
Definition trackedName : ReferenceName := bs "refs/remotes/origin/master".
Definition localTracked : refmap := {[ trackedName := NewHashReference trackedName ZeroHash ]}.
Definition remoteMaster : refmap := {[ Master := NewHashReference Master ZeroHash ]}.

Lemma singleton_ok n h : names_ok {[ n := NewHashReference n h ]}.
Proof. intros k r [<- <-]%lookup_singleton_Some. reflexivity. Qed.

Lemma prune_forced_removes_all_witness :
  exists u local', pruneRemotes [joinSpec (bs "+refs/heads/*") (bs "refs/remotes/origin/*")]
      [NewHashReference trackedName ZeroHash] localTracked remoteMaster = Ok (u, local') /\
    forall n, (local' : refmap) !! n =
      if decide (n ∈ map rname [NewHashReference trackedName ZeroHash] /\
                 patternMatch (unforced (bs "refs/remotes/origin/*")) n = true)
      then None else localTracked !! n.
Proof.
  refine (prune_forced_removes_all (bs "+refs/heads/*") (bs "refs/remotes/origin/*")
    [NewHashReference trackedName ZeroHash] localTracked remoteMaster (demo_sides_ok [refSpecForce] eq_refl eq_refl) eq_refl (singleton_ok _ _) (singleton_ok _ _) _).
  intros n. apply lookup_singleton_ne. discriminate.
Defined.

(** Pruning with a refspec without force marks does what it should: it removes exactly the
    local references that the destination pattern matches and whose source,
    the name the reversed refspec maps them to, the remote does not have. *)
Theorem prune_unforced_spec {L R} `{ReferenceStorerLaws L} `{ReferenceStorerLaws R}
    src dst lrefs (local : L) (remote : R) :
  sides_ok src dst -> src <> [] -> forced src = false -> forced dst = false -> refs_inv local -> refs_inv remote ->
  exists u local', pruneRemotes [joinSpec src dst] lrefs local remote = Ok (u, local') /\
    forall n, refs_view local' !! n =
      match Match (joinSpec dst src) n, Dst (joinSpec dst src) n with
      | Ok true, Ok source => if decide (n ∈ map rname lrefs /\ refs_view remote !! source = None)
                              then None else refs_view local !! n
      | _, _ => refs_view local !! n
      end.
Proof.
  intros Hok Hne Hfs Hfd Hl Hr. pose proof (sides_ok_swap src dst Hok Hne) as Hok'.
  set (ds := fun n => match Dst (joinSpec dst src) n with Ok x => x | _ => [] end).
  assert (forall n, patternMatch (unforced dst) n = true -> Dst (joinSpec dst src) n = Ok (ds n)) as Hds.
  { intros n Hn. unfold ds. pose proof (Match_pattern dst src n Hok') as HM. rewrite Hn in HM.
    destruct (sides_maps _ _ Hok') as [(_ & _ & Hx)|(a & b & c & d & E1 & E2 & HM' & HD)].
    - by destruct (Hx n) as [_ ->].
    - destruct (HM' n) as (r & Er & Hr'). rewrite Er in HM. injection HM as ->. destruct (proj1 Hr' eq_refl) as [m ->]. by rewrite HD. }
  destruct (pruneRemotes_one src dst lrefs local remote ds Hok Hne Hl Hr Hds) as (u & local' & E & Hv).
  exists u, local'. split; [done|]. intros n. rewrite Hv, (Match_pattern dst src n Hok').
  destruct (patternMatch (unforced dst) n) eqn:Em.
  - rewrite (Hds n Em). apply decide_ext. tauto.
  - rewrite decide_False; [done|]. intros (_ & ? & _). congruence.
Qed.

Lemma prune_unforced_spec_witness :
  exists u local', pruneRemotes [joinSpec (bs "refs/heads/*") (bs "refs/remotes/origin/*")]
      [NewHashReference trackedName ZeroHash] localTracked remoteMaster = Ok (u, local') /\
    forall n, (local' : refmap) !! n =
      match Match (joinSpec (bs "refs/remotes/origin/*") (bs "refs/heads/*")) n, Dst (joinSpec (bs "refs/remotes/origin/*") (bs "refs/heads/*")) n with
      | Ok true, Ok source => if decide (n ∈ map rname [NewHashReference trackedName ZeroHash] /\ remoteMaster !! source = None)
                              then None else localTracked !! n
      | _, _ => localTracked !! n
      end.
Proof.
  refine (prune_unforced_spec (bs "refs/heads/*") (bs "refs/remotes/origin/*")
    [NewHashReference trackedName ZeroHash] localTracked remoteMaster _ _ eq_refl eq_refl (singleton_ok _ _) (singleton_ok _ _)).
  - apply (demo_sides_ok []); reflexivity.
  - discriminate.
Defined.
