(* ===== verification/Revision.v ===== *)
(** * internal/revision: the parser of revisions

    [scanner.go] makes tokens of the runes of a string, [parser.go] revision components of the tokens.  The tables of
    package unicode, [regexp.Compile] and [time.Parse] are parameters; a compiled expression is its source. *)
From S2P Require Import Prelude GoStrings Strconv.

(** ** Tokens (token.go) *)
Inductive token :=
  | eof | aslash | asterisk | at_ | caret | cbrace | colon | control | dot | emark | minus | number | obrace | obracket
  | qmark | slash | space | tilde | tokenError | word.
#[global] Instance token_eq_decision : EqDecision token.
Proof. solve_decision. Defined.

(** ** Revision components (parser.go) *)
Inductive Revisioner :=
  | Ref (name : bytes)
  | TildePath (depth : Z)
  | CaretPath (depth : Z)
  | CaretReg (regexp : bytes) (negate : bool)
  | CaretType (objectType : bytes)
  | AtReflog (depth : Z)
  | AtCheckout (depth : Z)
  | AtUpstream (branchName : bytes)
  | AtPush (branchName : bytes)
  | AtDate (date : Z)
  | ColonReg (regexp : bytes) (negate : bool)
  | ColonPath (path : bytes)
  | ColonStagePath (path : bytes) (stage : Z).
#[global] Instance Revisioner_eq_decision : EqDecision Revisioner.
Proof. solve_decision. Defined.

Definition maxRevisionLength : Z := 128 * 1024.
Definition q (b : bytes) : bytes := [x22] ++ b ++ [x22].

(** [strconv.Atoi] with its error left out: out of range it is the largest number, and zero where there is none. *)
Definition atoi (lit : bytes) : Z := match ParseInt lit 10 64 with Ok n => n | Err ErrRange => 2 ^ 63 - 1 | _ => 0 end.

(** The parser: what is left, the last token and whether it is to be given again. *)
Record Parser := mkParser { p_rest : bytes; p_tok : token; p_lit : bytes; p_unread : bool }.
Definition NewParserFromString (s : bytes) : Parser := mkParser (take (Z.to_nat maxRevisionLength) s) eof [] false.
Definition unscan (p : Parser) : Parser := mkParser (p_rest p) (p_tok p) (p_lit p) true.

Section Parse.
Variable IsSpace IsControl IsLetter IsNumber : Z -> bool.
(** The text of the error of [regexp.Compile], and [time.Parse] with the layout 2006-01-02T15:04:05Z. *)
Variable compileError : bytes -> option bytes.
Variable parseTime : bytes -> option Z.

(** ** The scanner *)

(** The runes that belong to an expression; a zero rune ends it and is dropped. *)
Fixpoint tokenizeExpression (fuel : nat) (check : Z -> bool) (r data : bytes) : bytes * bytes :=
  match fuel with
  | O => (data, r)
  | S fuel =>
    match DecodeRune r with
    | None => (data, r)
    | Some (c, n) =>
      if c =? 0 then (data, drop n r)
      else if check c then tokenizeExpression fuel check (drop n r) (data ++ EncodeRune c)
      else (data, r)
    end
  end.

Definition scanner_scan (r : bytes) : token * bytes * bytes :=
  match DecodeRune r with
  | None => (eof, [], r)
  | Some (ch, n) =>
    let rest := drop n r in
    let lit := EncodeRune ch in
    if ch =? 0 then (eof, [], rest)
    else if ch =? 58 then (colon, lit, rest)
    else if ch =? 126 then (tilde, lit, rest)
    else if ch =? 94 then (caret, lit, rest)
    else if ch =? 46 then (dot, lit, rest)
    else if ch =? 47 then (slash, lit, rest)
    else if ch =? 123 then (obrace, lit, rest)
    else if ch =? 125 then (cbrace, lit, rest)
    else if ch =? 45 then (minus, lit, rest)
    else if ch =? 64 then (at_, lit, rest)
    else if ch =? 92 then (aslash, lit, rest)
    else if ch =? 63 then (qmark, lit, rest)
    else if ch =? 42 then (asterisk, lit, rest)
    else if ch =? 91 then (obracket, lit, rest)
    else if ch =? 33 then (emark, lit, rest)
    else if IsSpace ch then (space, lit, rest)
    else if IsControl ch then (control, lit, rest)
    else if IsLetter ch then let (data, rest) := tokenizeExpression (length rest) IsLetter rest lit in (word, data, rest)
    else if IsNumber ch then let (data, rest) := tokenizeExpression (length rest) IsNumber rest lit in (number, data, rest)
    else (tokenError, lit, rest)
  end.

(** [Parser.scan] *)
Definition scan (p : Parser) : token * bytes * Parser :=
  if p_unread p then (p_tok p, p_lit p, mkParser (p_rest p) (p_tok p) (p_lit p) false)
  else let '(tok, lit, rest) := scanner_scan (p_rest p) in (tok, lit, mkParser rest tok lit false).

(** ** The statements *)
Fixpoint parseDate (fuel : nat) (p : Parser) (date : bytes) : res (Revisioner * Parser) :=
  match fuel with
  | O => NoFuel
  | S fuel =>
    let '(tok, lit, p) := scan p in
    match tok with
    | cbrace =>
      match parseTime date with
      | Some t => Ok (AtDate t, p)
      | None => Err (ErrInvalidRevision (bs "wrong date " ++ q date ++ bs " must fit ISO-8601 format : 2006-01-02T15:04:05Z"))
      end
    | eof => Err (ErrInvalidRevision (bs "missing " ++ q (bs "}") ++ bs " in @{<data>} structure"))
    | _ => parseDate fuel p (date ++ lit)
    end
  end.

Definition parseAt (fuel : nat) (p : Parser) : res (Revisioner * Parser) :=
  let '(tok, _, p) := scan p in
  if negb (bool_decide (tok = obrace)) then Ok (Ref (bs "HEAD"), unscan p)
  else
    let '(tok, lit, p) := scan p in
    let '(nextTok, nextLit, p) := scan p in
    let is_word w := bool_decide (tok = word) && bool_decide (lit = w) in
    if (is_word (bs "u") || is_word (bs "upstream")) && bool_decide (nextTok = cbrace) then Ok (AtUpstream [], p)
    else if is_word (bs "push") && bool_decide (nextTok = cbrace) then Ok (AtPush [], p)
    else if bool_decide (tok = number) && bool_decide (nextTok = cbrace) then Ok (AtReflog (atoi lit), p)
    else if bool_decide (tok = minus) && bool_decide (nextTok = number) then
      let '(t, _, p) := scan p in
      if negb (bool_decide (t = cbrace)) then Err (ErrInvalidRevision (bs "missing " ++ q (bs "}") ++ bs " in @{-n} structure"))
      else Ok (AtCheckout (atoi nextLit), p)
    else parseDate fuel (unscan p) lit.

Definition parseTilde (p : Parser) : res (Revisioner * Parser) :=
  let '(tok, lit, p) := scan p in
  match tok with
  | number => Ok (TildePath (atoi lit), p)
  | _ => Ok (TildePath 1, unscan p)
  end.

(** [parseCaretBraces], a round of it per token or two *)
Fixpoint parseCaretBraces (fuel : nat) (p : Parser) (start : bool) (re : bytes) (negate : bool) : res (Revisioner * Parser) :=
  match fuel with
  | O => NoFuel
  | S fuel =>
    let '(tok, lit, p) := scan p in
    let '(nextTok, _, p) := scan p in
    let none := bool_decide (re = []) in
    if bool_decide (tok = word) && bool_decide (nextTok = cbrace) && bool_decide (lit ∈ [bs "commit"; bs "tree"; bs "blob"; bs "tag"; bs "object"])
    then Ok (CaretType lit, p)
    else if none && bool_decide (tok = cbrace) then Ok (CaretType (bs "tag"), p)
    else if none && bool_decide (tok = emark) && bool_decide (nextTok = emark) then parseCaretBraces fuel p false (re ++ lit) negate
    else if none && bool_decide (tok = emark) && bool_decide (nextTok = minus) then parseCaretBraces fuel p false re true
    else if none && bool_decide (tok = emark)
    then Err (ErrInvalidRevision (bs "revision suffix brace component sequences starting with " ++ q (bs "/!") ++ bs " others than those defined are reserved"))
    else if none && bool_decide (tok = slash) then parseCaretBraces fuel (unscan p) false re negate
    else if negb (bool_decide (tok = slash)) && start then Err (ErrInvalidRevision (q lit ++ bs " is not a valid revision suffix brace component"))
    else if bool_decide (tok = eof) then Err (ErrInvalidRevision (bs "missing " ++ q (bs "}") ++ bs " in ^{<data>} structure"))
    else if negb (bool_decide (tok = cbrace)) then parseCaretBraces fuel (unscan p) false (re ++ lit) negate
    else
      match compileError re with
      | Some e => Err (ErrInvalidRevision (bs "revision suffix brace component, " ++ e))
      | None => Ok (CaretReg re negate, unscan p)
      end
  end.

Definition parseCaret (fuel : nat) (p : Parser) : res (Revisioner * Parser) :=
  let '(tok, lit, p) := scan p in
  match tok with
  | obrace => parseCaretBraces fuel p true [] false
  | number =>
    let n := atoi lit in
    if 2 <? n then Err (ErrInvalidRevision (q lit ++ bs " found must be 0, 1 or 2 after " ++ q (bs "^"))) else Ok (CaretPath n, p)
  | _ => Ok (CaretPath 1, unscan p)
  end.

Fixpoint parseColonSlash (fuel : nat) (p : Parser) (re : bytes) (negate : bool) : res (Revisioner * Parser) :=
  match fuel with
  | O => NoFuel
  | S fuel =>
    let '(tok, lit, p) := scan p in
    let '(nextTok, _, p) := scan p in
    let none := bool_decide (re = []) in
    if bool_decide (tok = emark) && bool_decide (nextTok = emark) then parseColonSlash fuel p (re ++ lit) negate
    else if none && bool_decide (tok = emark) && bool_decide (nextTok = minus) then parseColonSlash fuel p re true
    else if none && bool_decide (tok = emark)
    then Err (ErrInvalidRevision (bs "revision suffix brace component sequences starting with " ++ q (bs "/!") ++ bs " others than those defined are reserved"))
    else if bool_decide (tok = eof) then
      match compileError re with
      | Some e => Err (ErrInvalidRevision (bs "revision suffix brace component, " ++ e))
      | None => Ok (ColonReg re negate, unscan p)
      end
    else parseColonSlash fuel (unscan p) (re ++ lit) negate
  end.

Fixpoint parsePath (fuel : nat) (p : Parser) (n : Z) (stage : Z) (path : bytes) : res (Revisioner * Parser) :=
  match fuel with
  | O => NoFuel
  | S fuel =>
    let '(tok, lit, p) := scan p in
    match tok with
    | eof => Ok (if n =? -1 then ColonPath path else ColonStagePath path stage, p)
    | _ => parsePath fuel p n stage (path ++ lit)
    end
  end.
Definition parseColonDefault (fuel : nat) (p : Parser) : res (Revisioner * Parser) :=
  let '(tok, lit, p) := scan p in
  let '(nextTok, _, p) := scan p in
  let n := if bool_decide (tok = number) && bool_decide (nextTok = colon) then atoi lit else -1 in
  if (0 <=? n) && (n <=? 3) then parsePath fuel p n n [] else parsePath fuel (unscan p) n 0 lit.
Definition parseColon (fuel : nat) (p : Parser) : res (Revisioner * Parser) :=
  let '(tok, _, p) := scan p in
  match tok with
  | slash => parseColonSlash fuel p [] false
  | _ => parseColonDefault fuel (unscan p)
  end.

Definition checkRefFormat (tok : token) (lit : bytes) (prev : token) (buf : bytes) (endOfRef : bool) : option error :=
  let cur t := bool_decide (tok = t) in
  let was t := bool_decide (prev = t) in
  if cur aslash || cur space || cur control || cur qmark || cur asterisk || cur obracket then Some (ErrInvalidRevision (bs "must not contains " ++ q lit))
  else if (cur dot || cur slash) && bool_decide (buf = []) then Some (ErrInvalidRevision (bs "must not start with " ++ q lit))
  else if was slash && endOfRef then Some (ErrInvalidRevision (bs "must not end with " ++ q (bs "/")))
  else if was dot && endOfRef then Some (ErrInvalidRevision (bs "must not end with " ++ q (bs ".")))
  else if cur dot && was slash then Some (ErrInvalidRevision (bs "must not contains " ++ q (bs "/.")))
  else if was dot && cur dot then Some (ErrInvalidRevision (bs "must not contains " ++ q (bs "..")))
  else if was slash && cur slash then Some (ErrInvalidRevision (bs "must not contains consecutively " ++ q (bs "/")))
  else if (cur slash || endOfRef) && (4 <? len buf) && bool_decide (drop (length buf - 5) buf = bs ".lock") then Some (ErrInvalidRevision (bs "cannot end with .lock"))
  else None.

Definition endsRef (tok : token) : bool := match tok with eof | at_ | colon | tilde | caret => true | _ => false end.
Fixpoint parseRef (fuel : nat) (p : Parser) (prev : token) (buf : bytes) : res (Revisioner * Parser) :=
  match fuel with
  | O => NoFuel
  | S fuel =>
    let '(tok, lit, p) := scan p in
    match checkRefFormat tok lit prev buf (endsRef tok) with
    | Some e => Err e
    | None => if endsRef tok then Ok (Ref buf, unscan p) else parseRef fuel p tok (buf ++ lit)
    end
  end.

(** ** Whole revisions *)
Fixpoint validate (n : Z) (i : Z) (hasReference : bool) (chunks : list Revisioner) : option error :=
  match chunks with
  | [] => None
  | chunk :: rest =>
    let at_end := (n =? 1) || hasReference && (n =? 2) in
    match chunk with
    | Ref _ => if i =? 0 then validate n (i + 1) true rest else Some (ErrInvalidRevision (bs "reference must be defined once at the beginning"))
    | AtDate _ => if at_end then None else Some (ErrInvalidRevision (q (bs "@") ++ bs " statement is not valid, could be : <refname>@{<ISO-8601 date>}, @{<ISO-8601 date>}"))
    | AtReflog _ => if at_end then None else Some (ErrInvalidRevision (q (bs "@") ++ bs " statement is not valid, could be : <refname>@{<n>}, @{<n>}"))
    | AtCheckout _ => if n =? 1 then None else Some (ErrInvalidRevision (q (bs "@") ++ bs " statement is not valid, could be : @{-<n>}"))
    | AtUpstream _ => if at_end then None else Some (ErrInvalidRevision (q (bs "@") ++ bs " statement is not valid, could be : <refname>@{upstream}, @{upstream}, <refname>@{u}, @{u}"))
    | AtPush _ => if at_end then None else Some (ErrInvalidRevision (q (bs "@") ++ bs " statement is not valid, could be : <refname>@{push}, @{push}"))
    | TildePath _ | CaretPath _ | CaretReg _ _ =>
      if hasReference then validate n (i + 1) hasReference rest
      else Some (ErrInvalidRevision (q (bs "~") ++ bs " or " ++ q (bs "^") ++ bs " statement must have a reference defined at the beginning"))
    | CaretType _ => validate n (i + 1) hasReference rest
    | ColonReg _ _ => if n =? 1 then None else Some (ErrInvalidRevision (q (bs ":") ++ bs " statement is not valid, could be : :/<regexp>"))
    | ColonPath _ => if (i =? n - 1) && hasReference || (n =? 1) then None else Some (ErrInvalidRevision (q (bs ":") ++ bs " statement is not valid, could be : <revision>:<path>"))
    | ColonStagePath _ _ => if n =? 1 then None else Some (ErrInvalidRevision (q (bs ":") ++ bs " statement is not valid, could be : :<n>:<path>"))
    end
  end.
Definition validateFullRevision (chunks : list Revisioner) : option error := validate (len chunks) 0 false chunks.

(** [Parse]: every round takes at least a token; [fuel] also bounds the loops of the statements. *)
Definition Parse_switch (fuel : nat) (tok : token) (p : Parser) : res (Revisioner * Parser) :=
  match tok with
  | at_ => parseAt fuel p
  | tilde => parseTilde p
  | caret => parseCaret fuel p
  | colon => parseColon fuel p
  | _ => parseRef fuel (unscan p) eof []
  end.
Fixpoint Parse_loop (fuel : nat) (p : Parser) (revs : list Revisioner) : res (list Revisioner) :=
  match fuel with
  | O => NoFuel
  | S fuel =>
    let '(tok, _, p) := scan p in
    if bool_decide (tok = eof) then match validateFullRevision revs with Some e => Err e | None => Ok revs end
    else let* (rev, p) := Parse_switch fuel tok p in Parse_loop fuel p (revs ++ [rev])
  end.
Definition Parse (s : bytes) : res (list Revisioner) := Parse_loop (2 * length s + 4) (NewParserFromString s) [].
End Parse.
