(* ===== verification/RevisionProofs.v ===== *)
(** * internal/revision: every revision is parsed, and the names it gives are reference names

    The measure of a parser is what is left of its input and the token it gives again: a token that is not the end makes it
    smaller, so every loop ends.  A name is the tokens it was made of; what [checkRefFormat] refuses at each of them is what
    [Validate] refuses in the whole. *)
From S2P Require Import Prelude GoStrings Strconv ObjectID Reference Revision.

(** ** Runes *)
Lemma DecodeRune_progress r c n : DecodeRune r = Some (c, n) -> (length (drop n r) < length r)%nat.
Proof.
  intros H. assert (0 < n /\ 0 < length r)%nat as []; [|rewrite length_drop; lia]. revert H. unfold DecodeRune.
  repeat case_match; intros [= <- <-] || intros ?; simplify_eq/=; lia.
Qed.
Lemma DecodeRune_some b r : exists c n, DecodeRune (b :: r) = Some (c, n).
Proof. unfold DecodeRune. repeat case_match; eauto. Qed.
Lemma rune_ascii b r : b2z b < 128 -> DecodeRune (b :: r) = Some (b2z b, 1%nat).
Proof. intros H. cbn. by rewrite (proj2 (Z.ltb_lt _ 128) H). Qed.

Lemma rune_high_bit x : Z.testbit x 7 = true -> 128 <= b2z (z2b x).
Proof.
  intros H. rewrite b2z_z2b. change 256 with (2 ^ 8). pose proof (Z.mod_pos_bound x (2 ^ 8) eq_refl).
  rewrite <- (Z.mod_pow2_bits_low x 8 7) in H by lia. destruct (Z_lt_le_dec (x mod 2 ^ 8) 128) as [L|L]; [|done].
  rewrite Z.testbit_true, Z.div_small in H by lia. done.
Qed.

Lemma EncodeRune_high c : c < 0 \/ 128 <= c -> Forall (fun b => 128 <= b2z b) (EncodeRune c).
Proof.
  intros Hc. unfold EncodeRune. set (k x := z2b (Z.lor 0x80 (Z.land x 0x3F))).
  assert (forall x, 128 <= b2z (k x)) as Hk by (intros x; apply rune_high_bit; by rewrite Z.lor_spec).
  assert (forall a x, Z.testbit a 7 = true -> 128 <= b2z (z2b (Z.lor a x))) as Hl.
  { intros a x Ha. apply rune_high_bit. by rewrite Z.lor_spec, Ha. }
  destruct (_ || _) eqn:E1; [by repeat constructor|]. destruct (Z.ltb_spec c 128); [lia|].
  repeat case_match; repeat (apply Forall_cons; split; [by first [apply Hk|apply Hl]|]); constructor.
Qed.
Lemma EncodeRune_ascii c : 0 <= c < 128 -> EncodeRune c = [z2b c].
Proof.
  intros H. unfold EncodeRune. destruct (_ || _) eqn:E1; [lia|]. by rewrite (proj2 (Z.ltb_lt c 128)) by lia.
Qed.
Lemma EncodeRune_nonempty c : EncodeRune c <> [].
Proof. unfold EncodeRune. by repeat case_match. Qed.

(** The outcomes of a parse: a value of which [P] holds, or an invalid revision. *)
Definition parsed {A} (P : A -> Prop) (m : res A) : Prop :=
  match m with Ok a => P a | Err (ErrInvalidRevision _) => True | _ => False end.

Lemma parsed_bind {A B} (P : A -> Prop) (Q : B -> Prop) m k :
  parsed P m -> (forall a, P a -> parsed Q (k a)) -> parsed Q (res_bind m k).
Proof. destruct m as [a|[]| |]; cbn; auto. Qed.
Lemma parsed_impl {A} (P Q : A -> Prop) m : (forall a, P a -> Q a) -> parsed P m -> parsed Q m.
Proof. destruct m as [a|[]| |]; cbn; auto. Qed.

(** What is left to scan; an end that is given again is not. *)
Definition measure (p : Parser) : nat :=
  length (p_rest p) + (if p_unread p && negb (bool_decide (p_tok p = eof)) then 1 else 0).

Section Total.
Context (IsSpace IsControl IsLetter IsNumber : Z -> bool) (compileError : bytes -> option bytes) (parseTime : bytes -> option Z).
Notation scan := (scan IsSpace IsControl IsLetter IsNumber).
Notation scanner_scan := (scanner_scan IsSpace IsControl IsLetter IsNumber).

Lemma tokenizeExpression_le fuel check r data : (length (tokenizeExpression fuel check r data).2 <= length r)%nat.
Proof.
  revert r data. induction fuel as [|fuel IH]; intros r data; cbn; [done|].
  destruct (DecodeRune r) as [[c n]|] eqn:E; [|done]. apply DecodeRune_progress in E.
  repeat case_match; cbn; [lia| |lia]. specialize (IH (drop n r) (data ++ EncodeRune c)). lia.
Qed.

Lemma scanner_scan_lt r tok lit rest : scanner_scan r = (tok, lit, rest) ->
  (length rest <= length r)%nat /\ (tok <> eof -> length rest < length r)%nat.
Proof.
  unfold Revision.scanner_scan. destruct (DecodeRune r) as [[c n]|] eqn:E; [|by intros [= <- <- <-]].
  apply DecodeRune_progress in E.
  pose proof (tokenizeExpression_le (length (drop n r)) IsLetter (drop n r) (EncodeRune c)).
  pose proof (tokenizeExpression_le (length (drop n r)) IsNumber (drop n r) (EncodeRune c)).
  repeat case_match; intros [= <- <- <-]; simplify_eq/=; lia.
Qed.

(** A scan gives back the token it was asked to, or takes from the input. *)
Lemma scan_spec p tok lit p' : scan p = (tok, lit, p') ->
  p_unread p' = false /\ p_tok p' = tok /\ p_lit p' = lit /\ (measure p' <= measure p)%nat /\ (tok <> eof -> measure p' < measure p)%nat /\
  (p_unread p = false -> measure (unscan p') <= measure p)%nat.
Proof.
  unfold Revision.scan, measure, unscan. destruct p as [rest tk lt u]. cbn [p_rest p_tok p_lit p_unread].
  destruct u; [intros [= <- <- <-]; cbn; case_bool_decide; cbn; split_and!; done || lia|].
  destruct (scanner_scan rest) as [[t l] r] eqn:E. intros [= <- <- <-]. apply scanner_scan_lt in E as [E1 E2]. cbn.
  case_bool_decide; cbn; split_and!; done || lia || (specialize (E2 ltac:(done)); lia).
Qed.
End Total.

(** Scans once more, naming what is known of the parser. *)
Ltac scan_step :=
  match goal with
  | |- context [scan ?a ?b ?c ?d ?p] =>
    let tok := fresh "tok" in let lit := fresh "lit" in let p' := fresh "p" in let E := fresh "E" in
    destruct (scan a b c d p) as [[tok lit] p'] eqn:E;
    let U := fresh "U" in let T := fresh "T" in let L := fresh "L" in let M := fresh "M" in let N := fresh "N" in let W := fresh "W" in
    pose proof (scan_spec _ _ _ _ _ _ _ _ E) as (U & T & L & M & N & W)
  end.

Section Statements.
Context (IsSpace IsControl IsLetter IsNumber : Z -> bool) (compileError : bytes -> option bytes) (parseTime : bytes -> option Z).

(** What every statement leaves is no more than what it was given. *)
Definition leaves (p : Parser) (x : Revisioner * Parser) : Prop := (measure x.2 <= measure p)%nat.

Lemma parseDate_total fuel p date : (measure p < fuel)%nat ->
  parsed (leaves p) (parseDate IsSpace IsControl IsLetter IsNumber parseTime fuel p date).
Proof.
  revert p date. induction fuel as [|fuel IH]; intros p date Hf; [lia|]. cbn [parseDate]. scan_step.
  assert (tok = eof \/ tok <> eof) as [->|Ht] by (destruct (decide (tok = eof)); auto); [done|]. specialize (N Ht).
  assert (parsed (leaves p) (parseDate IsSpace IsControl IsLetter IsNumber parseTime fuel p0 (date ++ lit))).
  { eapply parsed_impl, IH; [|lia]. unfold leaves. lia. }
  destruct tok; try done. destruct (parseTime date); cbn; [|done]. unfold leaves; cbn [snd]; lia.
Qed.

Lemma parseTilde_total p : p_unread p = false -> parsed (leaves p) (parseTilde IsSpace IsControl IsLetter IsNumber p).
Proof. intros Hu. unfold parseTilde. scan_step. destruct tok; cbn [parsed]; unfold leaves; cbn [snd]; auto. Qed.

Lemma parseAt_total fuel p : p_unread p = false -> (measure p < fuel)%nat ->
  parsed (leaves p) (parseAt IsSpace IsControl IsLetter IsNumber parseTime fuel p).
Proof.
  intros Hu Hf. unfold parseAt. scan_step. case_bool_decide; cbn [negb]; [|cbn [parsed]; unfold leaves; cbn [snd]; auto].
  scan_step. scan_step. repeat destruct (_ && _); try (cbn [parsed]; unfold leaves; cbn [snd]; lia).
  - scan_step. case_bool_decide; cbn; [|done]. unfold leaves; cbn [snd]; lia.
  - specialize (W1 U0). eapply parsed_impl, parseDate_total; [|lia]. unfold leaves. lia.
Qed.

Lemma parseCaretBraces_total fuel p start re negate : (measure p < fuel)%nat ->
  parsed (leaves p) (parseCaretBraces IsSpace IsControl IsLetter IsNumber compileError fuel p start re negate).
Proof.
  revert p start re negate. induction fuel as [|fuel IH]; intros p start re negate Hf; [lia|].
  cbn [parseCaretBraces]. scan_step. scan_step. specialize (W0 U).
  assert (tok = eof \/ tok <> eof) as [->|Ht] by (destruct (decide (tok = eof)); auto).
  { rewrite !(bool_decide_eq_false_2 (eof = _)) by done. rewrite !andb_false_r. cbn [andb negb].
    destruct start; [done|]. by rewrite bool_decide_eq_true_2. }
  specialize (N Ht).
  assert (forall s r g, parsed (leaves p) (parseCaretBraces IsSpace IsControl IsLetter IsNumber compileError fuel p1 s r g)) as H1.
  { intros. eapply parsed_impl, IH; [|lia]. unfold leaves. lia. }
  assert (forall s r g, parsed (leaves p) (parseCaretBraces IsSpace IsControl IsLetter IsNumber compileError fuel (unscan p1) s r g)) as H2.
  { intros. eapply parsed_impl, IH; [|lia]. unfold leaves. lia. }
  repeat destruct (_ && _); try apply H1; try apply H2; try done; try (cbn [parsed]; unfold leaves; cbn [snd]; lia).
  case_bool_decide; [done|]. case_bool_decide; cbn [negb]; [|apply H2]. destruct (compileError re); cbn [parsed]; [done|]. unfold leaves; cbn [snd]; lia.
Qed.

Lemma parseCaret_total fuel p : p_unread p = false -> (measure p < fuel)%nat ->
  parsed (leaves p) (parseCaret IsSpace IsControl IsLetter IsNumber compileError fuel p).
Proof.
  intros Hu Hf. unfold parseCaret. scan_step. destruct tok; try (cbn [parsed]; unfold leaves; cbn [snd]; by auto).
  - destruct (2 <? _); cbn; [done|]. unfold leaves; cbn [snd]; lia.
  - eapply parsed_impl, parseCaretBraces_total; [|lia]. unfold leaves. lia.
Qed.

Lemma parseColonSlash_total fuel p re negate : (measure p < fuel)%nat ->
  parsed (leaves p) (parseColonSlash IsSpace IsControl IsLetter IsNumber compileError fuel p re negate).
Proof.
  revert p re negate. induction fuel as [|fuel IH]; intros p re negate Hf; [lia|].
  cbn [parseColonSlash]. scan_step. scan_step. specialize (W0 U).
  assert (tok = eof \/ tok <> eof) as [->|Ht] by (destruct (decide (tok = eof)); auto).
  { rewrite !(bool_decide_eq_false_2 (eof = _)) by done. rewrite !andb_false_r. cbn [andb]. rewrite bool_decide_eq_true_2 by done.
    destruct (compileError re); cbn [parsed]; [done|]. unfold leaves; cbn [snd]; lia. }
  specialize (N Ht).
  assert (forall r g, parsed (leaves p) (parseColonSlash IsSpace IsControl IsLetter IsNumber compileError fuel p1 r g)) as H1.
  { intros. eapply parsed_impl, IH; [|lia]. unfold leaves. lia. }
  assert (forall r g, parsed (leaves p) (parseColonSlash IsSpace IsControl IsLetter IsNumber compileError fuel (unscan p1) r g)) as H2.
  { intros. eapply parsed_impl, IH; [|lia]. unfold leaves. lia. }
  repeat destruct (_ && _); try apply H1; try apply H2; try done. rewrite bool_decide_eq_false_2 by done. apply H2.
Qed.

Lemma parsePath_total fuel p n stage path : (measure p < fuel)%nat ->
  parsed (leaves p) (parsePath IsSpace IsControl IsLetter IsNumber fuel p n stage path).
Proof.
  revert p path. induction fuel as [|fuel IH]; intros p path Hf; [lia|]. cbn [parsePath]. scan_step.
  assert (tok = eof \/ tok <> eof) as [->|Ht] by (destruct (decide (tok = eof)); auto); [by cbn|]. specialize (N Ht).
  assert (parsed (leaves p) (parsePath IsSpace IsControl IsLetter IsNumber fuel p0 n stage (path ++ lit))).
  { eapply parsed_impl, IH; [|lia]. unfold leaves. lia. }
  by destruct tok.
Qed.

Lemma parseColon_total fuel p : p_unread p = false -> (measure p < fuel)%nat ->
  parsed (leaves p) (parseColon IsSpace IsControl IsLetter IsNumber compileError fuel p).
Proof.
  intros Hu Hf. unfold parseColon. scan_step. specialize (W Hu).
  assert (parsed (leaves p) (parseColonDefault IsSpace IsControl IsLetter IsNumber fuel (unscan p0))) as H.
  { unfold parseColonDefault. scan_step. scan_step. specialize (W1 U0).
    destruct (_ && (_ <=? 3)); (eapply parsed_impl, parsePath_total; [unfold leaves|]; lia). }
  destruct tok; try apply H. eapply parsed_impl, parseColonSlash_total; [unfold leaves|]; lia.
Qed.

Lemma checkRefFormat_error tok lit prev buf e err : checkRefFormat tok lit prev buf e = Some err -> exists s, err = ErrInvalidRevision s.
Proof. unfold checkRefFormat. repeat case_match; intros [= <-]; eauto. Qed.

Lemma scan_unscan_le p tok lit p' : scan IsSpace IsControl IsLetter IsNumber p = (tok, lit, p') -> (measure (unscan p') <= measure p)%nat.
Proof.
  intros E. pose proof (scan_spec _ _ _ _ _ _ _ _ E) as (_ & _ & _ & _ & _ & W).
  destruct (p_unread p) eqn:U; [|auto]. unfold scan in E. rewrite U in E. injection E as <- <- <-.
  unfold measure, unscan. cbn. rewrite U. cbn. lia.
Qed.

Lemma parseRef_total fuel p prev buf : (measure p < fuel)%nat ->
  parsed (leaves p) (parseRef IsSpace IsControl IsLetter IsNumber fuel p prev buf).
Proof.
  revert p prev buf. induction fuel as [|fuel IH]; intros p prev buf Hf; [lia|]. cbn [parseRef]. scan_step.
  destruct (checkRefFormat _ _ _ _ _) as [e|] eqn:C; [by apply checkRefFormat_error in C as [s ->]|].
  destruct (endsRef tok) eqn:Ends; [cbn; by apply scan_unscan_le in E|].
  specialize (N ltac:(by intros ->)). eapply parsed_impl, IH; [|lia]. unfold leaves. lia.
Qed.

(** A name takes its first token, which is given again, with it. *)
Lemma parseRef_strict fuel p tok lit prev buf : (measure (unscan p) < fuel)%nat -> p_tok p = tok -> p_lit p = lit -> endsRef tok = false ->
  parsed (fun x => measure x.2 < measure (unscan p))%nat (parseRef IsSpace IsControl IsLetter IsNumber fuel (unscan p) prev buf).
Proof.
  intros Hf Ht Hl He. destruct fuel as [|fuel]; [lia|]. cbn [parseRef].
  assert (scan IsSpace IsControl IsLetter IsNumber (unscan p) = (tok, lit, mkParser (p_rest p) tok lit false)) as E.
  { unfold scan, unscan. cbn. by rewrite Ht, Hl. }
  pose proof (scan_spec _ _ _ _ _ _ _ _ E) as (_ & _ & _ & _ & N & _). specialize (N ltac:(by intros ->)). rewrite E.
  destruct (checkRefFormat _ _ _ _ _) as [e|] eqn:C; [by apply checkRefFormat_error in C as [s ->]|]. rewrite He.
  eapply parsed_impl, parseRef_total; [|lia]. unfold leaves. lia.
Qed.

Lemma validate_error n chunks err : forall i has, validate n i has chunks = Some err -> exists s, err = ErrInvalidRevision s.
Proof.
  induction chunks as [|c chunks IH]; intros i has; cbn [validate]; [done|].
  destruct c; repeat destruct (_ =? _) || destruct has; cbn [andb orb]; intros H; try (injection H as <-; eauto); try discriminate H;
    eauto.
Qed.

Lemma Parse_loop_total fuel p revs : (measure p + 1 < fuel)%nat ->
  parsed (fun _ => True) (Parse_loop IsSpace IsControl IsLetter IsNumber compileError parseTime fuel p revs).
Proof.
  revert p revs. induction fuel as [|fuel IH]; intros p revs Hf; [lia|]. cbn [Parse_loop]. scan_step.
  case_bool_decide as Ht; [subst tok|].
  { destruct (validateFullRevision revs) eqn:V; [|done]. by apply validate_error in V as [s ->]. }
  specialize (N Ht). apply scan_unscan_le in E.
  assert (parsed (fun x => measure x.2 < measure p)%nat (Parse_switch IsSpace IsControl IsLetter IsNumber compileError parseTime fuel tok p0)) as Hm.
  { assert (endsRef tok = false -> parsed (fun x => measure x.2 < measure p)%nat (parseRef IsSpace IsControl IsLetter IsNumber fuel (unscan p0) eof [])).
    { intros He. eapply parsed_impl, (parseRef_strict fuel p0 tok lit); [|lia|done..]. intros x; cbv beta; lia. }
    unfold Parse_switch. destruct tok; try done; auto.
    all: eapply parsed_impl; [|first [apply parseAt_total|apply parseCaret_total|apply parseColon_total|apply parseTilde_total]; done || lia].
    all: unfold leaves; lia. }
  eapply parsed_bind with (P := fun x => (measure x.2 < measure p)%nat); [done|]. intros [rev p'] Hp'. cbn in Hp'. apply IH. lia.
Qed.
End Statements.

(** What is parsed was validated. *)
Lemma Parse_loop_validated IsSpace IsControl IsLetter IsNumber compileError parseTime fuel : forall p revs out,
  Parse_loop IsSpace IsControl IsLetter IsNumber compileError parseTime fuel p revs = Ok out -> validateFullRevision out = None.
Proof.
  induction fuel as [|fuel IH]; intros p revs out; cbn [Parse_loop]; [done|].
  destruct (scan IsSpace IsControl IsLetter IsNumber p) as [[tok lit] p']. case_bool_decide.
  - destruct (validateFullRevision revs) eqn:V; [done|]. by intros [= <-].
  - intros E. inv_bind E. destruct v as [rev q]. by apply IH in E.
Qed.

Lemma Parse_validated IsSpace IsControl IsLetter IsNumber compileError parseTime s :
  (exists revs, Parse IsSpace IsControl IsLetter IsNumber compileError parseTime s = Ok revs /\ validateFullRevision revs = None) \/
  (exists msg, Parse IsSpace IsControl IsLetter IsNumber compileError parseTime s = Err (ErrInvalidRevision msg)).
Proof.
  unfold Parse. pose proof (Parse_loop_total IsSpace IsControl IsLetter IsNumber compileError parseTime (2 * length s + 4) (NewParserFromString s) []) as H.
  pose proof (Parse_loop_validated IsSpace IsControl IsLetter IsNumber compileError parseTime (2 * length s + 4) (NewParserFromString s) []) as V.
  destruct (Parse_loop _ _ _ _ _ _ _ _ _) as [revs|[]| |]; cbn [parsed] in H; eauto; exfalso; apply H;
    unfold measure, NewParserFromString; cbn; rewrite length_take; lia.
Qed.

(** C30: Parsing a revision always ends, with the revision's components or with an error that is an
    [ErrInvalidRevision]: it never panics, whatever the bytes. *)
Theorem revision_total (IsSpace IsControl IsLetter IsNumber : Z -> bool) (compileError : bytes -> option bytes) (parseTime : bytes -> option Z) (s : bytes) :
  (exists revs, Parse IsSpace IsControl IsLetter IsNumber compileError parseTime s = Ok revs) \/
  (exists msg, Parse IsSpace IsControl IsLetter IsNumber compileError parseTime s = Err (ErrInvalidRevision msg)).
Proof.
  destruct (Parse_validated IsSpace IsControl IsLetter IsNumber compileError parseTime s) as [(revs & E & _)|?]; eauto.
Qed.

(** ** internal/revision: the names of references

    A name is the tokens it was made of; what [checkRefFormat] refuses at each of them is what [Validate] refuses in the
    whole name. *)
(** ** The names of references *)

(** What the tables of package unicode say of ASCII. *)
Record ascii_tables (IsSpace IsControl IsLetter IsNumber : Z -> bool) : Prop := {
  table_space : forall c, 0 <= c < 128 -> IsSpace c = (9 <=? c) && (c <=? 13) || (c =? 32);
  table_control : forall c, 0 <= c < 128 -> IsControl c = (c <? 32) || (c =? 127);
  table_letter : forall c, 0 <= c < 128 -> IsLetter c = (65 <=? c) && (c <=? 90) || (97 <=? c) && (c <=? 122);
  table_number : forall c, 0 <= c < 128 -> IsNumber c = (48 <=? c) && (c <=? 57) }.

(** A byte of a name that is neither refused nor the end of it, nor subject to a rule. *)
Definition plain (b : byte) : bool := negb (forbiddenByte b) && negb (bool_decide (b ∈ bs "@./")).

Definition refused (tok : token) : bool := match tok with aslash | space | control | qmark | asterisk | obracket => true | _ => false end.

(** What a token says of its literal. *)
Definition token_bytes (tok : token) (lit : bytes) : Prop :=
  match tok with
  | dot => lit = bs "."
  | slash => lit = bs "/"
  | _ => if refused tok || endsRef tok then True else lit <> [] /\ Forall (fun b => plain b = true) lit
  end.

Lemma plain_high b : 128 <= b2z b -> plain b = true.
Proof. destruct b; done || (cbn; lia). Qed.

Lemma plain_rune c : (0 <= c < 128 -> plain (z2b c) = true) -> Forall (fun b => plain b = true) (EncodeRune c).
Proof.
  intros H. assert (0 <= c < 128 \/ (c < 0 \/ 128 <= c)) as [L|L] by lia.
  - rewrite EncodeRune_ascii by done. auto.
  - eapply Forall_impl; [by apply EncodeRune_high|]. apply plain_high.
Qed.

Lemma ascii_byte (P : Z -> Prop) : (forall b, b2z b < 128 -> P (b2z b)) -> forall c, 0 <= c < 128 -> P c.
Proof. intros H c Hc. rewrite <- (z2b_small c) by lia. apply H. rewrite z2b_small; lia. Qed.

Section Names.
Context (IsSpace IsControl IsLetter IsNumber : Z -> bool) (compileError : bytes -> option bytes) (parseTime : bytes -> option Z).
Notation scan := (scan IsSpace IsControl IsLetter IsNumber).
Notation scanner_scan := (scanner_scan IsSpace IsControl IsLetter IsNumber).
Hypothesis tables : ascii_tables IsSpace IsControl IsLetter IsNumber.

Lemma letter_plain c : IsLetter c = true -> 0 <= c < 128 -> plain (z2b c) = true.
Proof.
  intros H Hc. rewrite (table_letter _ _ _ _ tables) in H by done. revert c Hc H. apply (ascii_byte (fun c => _ -> plain (z2b c) = true)).
  intros b _. rewrite z2b_b2z. by destruct b.
Qed.
Lemma number_plain c : IsNumber c = true -> 0 <= c < 128 -> plain (z2b c) = true.
Proof.
  intros H Hc. rewrite (table_number _ _ _ _ tables) in H by done. revert c Hc H. apply (ascii_byte (fun c => _ -> plain (z2b c) = true)).
  intros b _. rewrite z2b_b2z. by destruct b.
Qed.

Lemma tokenizeExpression_plain fuel check r data :
  (forall c, check c = true -> 0 <= c < 128 -> plain (z2b c) = true) ->
  data <> [] /\ Forall (fun b => plain b = true) data ->
  (tokenizeExpression fuel check r data).1 <> [] /\ Forall (fun b => plain b = true) (tokenizeExpression fuel check r data).1.
Proof.
  intros Hc. revert r data. induction fuel as [|fuel IH]; intros r data H; cbn; [done|].
  destruct (DecodeRune r) as [[c n]|]; [|done]. destruct (c =? 0); [done|]. destruct (check c) eqn:E; [|done].
  apply IH. split; [by destruct data; [destruct H|]|]. apply Forall_app. split; [apply H|]. by apply plain_rune, Hc.
Qed.

(** A rune that no test of the scanner is for. *)
Lemma other_plain c : 0 <= c < 128 -> existsb (Z.eqb c) [0; 58; 126; 94; 46; 47; 64; 92; 63; 42; 91] = false ->
  IsSpace c = false -> IsControl c = false -> plain (z2b c) = true.
Proof.
  intros Hc. rewrite (table_space _ _ _ _ tables), (table_control _ _ _ _ tables) by done. revert c Hc.
  apply (ascii_byte (fun c => _ -> _ -> _ -> plain (z2b c) = true)). intros b _. rewrite z2b_b2z. by destruct b.
Qed.

Lemma scanner_scan_bytes r tok lit rest : scanner_scan r = (tok, lit, rest) -> token_bytes tok lit.
Proof.
  unfold Revision.scanner_scan. destruct (DecodeRune r) as [[c n]|]; [|by intros [= <- <- <-]].
  pose proof (tokenizeExpression_plain (length (drop n r)) IsLetter (drop n r) (EncodeRune c) letter_plain) as HL.
  pose proof (tokenizeExpression_plain (length (drop n r)) IsNumber (drop n r) (EncodeRune c) number_plain) as HN.
  pose proof (EncodeRune_nonempty c) as Hn.
  destruct (c =? 0) eqn:E0; [by intros [= <- <- <-]|].
  repeat match goal with |- (if c =? ?k then _ else _) = _ -> _ =>
    let E := fresh "E" in destruct (c =? k) eqn:E; [apply Z.eqb_eq in E as ->; intros [= <- <- <-]; done || (split; [done|by repeat constructor])|] end.
  destruct (IsSpace c) eqn:ES; [by intros [= <- <- <-]|]. destruct (IsControl c) eqn:EC; [by intros [= <- <- <-]|].
  destruct (IsLetter c) eqn:EL.
  { destruct (tokenizeExpression _ IsLetter _ _). intros [= <- <- <-]. apply HL. split; [done|]. by apply plain_rune, letter_plain. }
  destruct (IsNumber c) eqn:EN.
  { destruct (tokenizeExpression _ IsNumber _ _). intros [= <- <- <-]. apply HN. split; [done|]. by apply plain_rune, number_plain. }
  intros [= <- <- <-]. split; [done|]. apply plain_rune. intros Hc. apply other_plain; try done. cbn [existsb].
  by repeat match goal with H : (c =? _) = false |- _ => rewrite H; clear H end.
Qed.
End Names.

(** ** A name grows by a byte *)
Lemma HasSuffix_snoc s c p d : HasSuffix (s ++ [c]) (p ++ [d]) = HasSuffix s p && bool_decide (c = d).
Proof.
  apply eq_true_iff_eq. rewrite andb_true_iff, bool_decide_eq_true, !HasSuffix_true. split.
  - intros [r E]. rewrite app_assoc in E. apply app_inj_tail in E as [-> ->]. eauto.
  - intros [[r ->] ->]. exists r. by rewrite app_assoc.
Qed.
Lemma HasSuffix_one s c d : HasSuffix (s ++ [c]) [d] = bool_decide (c = d).
Proof.
  change [d] with ([] ++ [d]). rewrite HasSuffix_snoc. assert (HasSuffix s [] = true) as ->; [|done].
  apply HasSuffix_true. exists s. by rewrite app_nil_r.
Qed.
Lemma Contains_snoc s c p d : Contains (s ++ [c]) (p ++ [d]) = Contains s (p ++ [d]) || HasSuffix s p && bool_decide (c = d).
Proof.
  rewrite <- HasSuffix_snoc. apply eq_true_iff_eq. rewrite orb_true_iff, HasSuffix_true, !Contains_true. split.
  - intros (a & b & E). destruct b as [|x b _] using rev_ind; [right; exists a; by rewrite app_nil_r in E|].
    left. rewrite !app_assoc in E. apply app_inj_tail in E as [-> _]. exists a, b. by rewrite <- !app_assoc.
  - intros [(a & b & ->)|[r ->]]; [exists a, (b ++ [c]); by rewrite <- !app_assoc|exists r, []; by rewrite app_nil_r].
Qed.
Lemma Contains_app_l s t p : Contains (s ++ t) p = false -> Contains s p = false.
Proof.
  rewrite <- !not_true_iff_false, !Contains_true. intros H (a & b & ->). apply H. exists a, (b ++ t). by rewrite <- !app_assoc.
Qed.

(** The directory the names are tried in last but one. *)
Definition remotes : bytes := bs "refs/remotes/".

(** The rules that a part of a name obeys, in that directory. *)
Definition ref_rules (s : bytes) : bool :=
  negb (Contains s (bs "/.")) && negb (Contains s (bs "..")) && negb (Contains s (bs "//")) && negb (Contains s (bs ".lock/")) &&
  forallb (fun b => negb (forbiddenByte b || bool_decide (b = x40))) s.

Lemma ref_rules_snoc s c :
  ref_rules (s ++ [c]) = ref_rules s && negb (bool_decide (c = x2e) && (HasSuffix s (bs "/") || HasSuffix s (bs "."))) &&
    negb (bool_decide (c = x2f) && (HasSuffix s (bs "/") || HasSuffix s (bs ".lock"))) && negb (forbiddenByte c || bool_decide (c = x40)).
Proof.
  unfold ref_rules. change (bs "/.") with (bs "/" ++ [x2e]). change (bs "..") with (bs "." ++ [x2e]). change (bs "//") with (bs "/" ++ [x2f]).
  change (bs ".lock/") with (bs ".lock" ++ [x2f]). rewrite !Contains_snoc, forallb_app. cbn [forallb].
  destruct (Contains s (bs "/" ++ [x2e])), (Contains s (bs "." ++ [x2e])), (Contains s (bs "/" ++ [x2f])), (Contains s (bs ".lock" ++ [x2f])),
    (forallb _ s), (HasSuffix s (bs "/")), (HasSuffix s (bs ".")), (HasSuffix s (bs ".lock")), (bool_decide (c = x2e)),
    (bool_decide (c = x2f)), (forbiddenByte c || bool_decide (c = x40)); reflexivity.
Qed.

Lemma plain_inv b : plain b = true -> b <> x2e /\ b <> x2f /\ forbiddenByte b || bool_decide (b = x40) = false.
Proof. by destruct b. Qed.

(** A plain text changes nothing, and leaves a plain end. *)
Lemma ref_rules_plain s w : Forall (fun b => plain b = true) w -> ref_rules (s ++ w) = ref_rules s.
Proof.
  induction w as [|b w IH] using rev_ind; intros H; [by rewrite app_nil_r|]. apply Forall_app in H as [Hw [Hb _]%Forall_cons_1].
  apply plain_inv in Hb as (H1 & H2 & H3). rewrite app_assoc, ref_rules_snoc, IH, H3 by done.
  rewrite !bool_decide_eq_false_2 by done. by rewrite !andb_true_r.
Qed.
Lemma plain_end s w c : w <> [] -> Forall (fun b => plain b = true) w -> plain c = false -> HasSuffix (s ++ w) [c] = false.
Proof.
  intros Hn H Hc. destruct w as [|b w _] using rev_ind; [done|]. apply Forall_app in H as [_ [Hb _]%Forall_cons_1].
  rewrite app_assoc. rewrite HasSuffix_one. apply bool_decide_eq_false_2. congruence.
Qed.

Lemma bytes_rule s : forallb (fun b => negb (forbiddenByte b || bool_decide (b = x40))) s = true <-> existsb forbiddenByte s = false /\ x40 ∉ s.
Proof.
  induction s as [|b s IH]; cbn [forallb existsb]; [set_solver|].
  rewrite andb_true_iff, IH, negb_true_iff, !orb_false_iff, bool_decide_eq_false, not_elem_of_cons. naive_solver.
Qed.
Lemma no_at_component s : x40 ∉ s -> at_component s = false /\ Contains s (bs "@{") = false.
Proof.
  intros H. split.
  - apply not_true_iff_false. intros E. unfold at_component in E. apply existsb_exists in E as (p & Hp & ->%bool_decide_eq_true).
    apply H. pose proof (existsb_Split_bytes x2f s (fun b => bool_decide (b = x40)) eq_refl) as E.
    assert (existsb (fun b => bool_decide (b = x40)) s = true) as Hs.
    { rewrite <- E. apply existsb_exists. exists (bs "@"). done. }
    apply existsb_exists in Hs as (b & Hb & ->%bool_decide_eq_true). by apply list_elem_of_In.
  - apply not_true_iff_false. intros (a & b & ->)%Contains_true. apply H. set_solver.
Qed.

(** A name in the directory is valid, and without an at sign, when it obeys the rules and ends well. *)
Lemma Validate_remotes name :
  Validate (remotes ++ name) = None /\ x40 ∉ name <->
  ref_rules (remotes ++ name) = true /\ HasSuffix (remotes ++ name) (bs "/") = false /\ HasSuffix (remotes ++ name) (bs ".") = false /\
  HasSuffix (remotes ++ name) (bs ".lock") = false.
Proof.
  rewrite Validate_spec. unfold git_ref_format, ref_rules. rewrite !andb_true_iff, !negb_true_iff, bytes_rule.
  assert (x40 ∉ remotes ++ name <-> x40 ∉ name) as Hat.
  { rewrite not_elem_of_app. split; [tauto|]. split; [|done]. by apply (bool_decide_unpack _). }
  pose proof (no_at_component (remotes ++ name)) as Hno. rewrite Hat in *.
  assert (dash_name (remotes ++ name) = false) as -> by done. assert (HasPrefix (remotes ++ name) (bs ".") = false) as -> by done.
  assert (HasPrefix (remotes ++ name) (bs "/") = false) as -> by done. assert (Contains (remotes ++ name) (bs "/") = true) as -> by done.
  assert (remotes ++ name <> HEAD) as HH by done. tauto.
Qed.

(** The state of [parseRef]: what the name is so far, and its last token. *)
Record grown (prev : token) (buf : bytes) : Prop := {
  grown_rules : ref_rules (remotes ++ buf) = true;
  grown_dot : HasSuffix (remotes ++ buf) (bs ".") = bool_decide (prev = dot);
  grown_slash : HasSuffix (remotes ++ buf) (bs "/") = bool_decide (prev = slash) || bool_decide (buf = []) }.

Lemma lock_suffix buf : HasSuffix (remotes ++ buf) (bs ".lock") = (4 <? len buf) && bool_decide (drop (length buf - 5) buf = bs ".lock").
Proof.
  destruct (Z.ltb_spec 4 (len buf)) as [L|L]; cbn [andb].
  - unfold HasSuffix. rewrite bool_decide_eq_true_2 by (rewrite length_app; cbn; lia). cbn [andb].
    replace (length (remotes ++ buf) - length (bs ".lock"))%nat with (length remotes + (length buf - 5))%nat.
    2: { rewrite length_app. unfold len in L. cbn. lia. }
    by rewrite drop_app_add.
  - destruct buf as [|? [|? [|? [|? [|? ?]]]]]; [reflexivity..|len_lia].
Qed.

(** The rules at a token, as the rules of the name it makes. *)
Lemma checkRefFormat_none tok lit prev buf : grown prev buf -> (endsRef tok = true -> buf <> []) ->
  let s := remotes ++ buf in
  checkRefFormat tok lit prev buf (endsRef tok) = None <->
  refused tok = false /\ (tok = dot -> HasSuffix s (bs "/") = false /\ HasSuffix s (bs ".") = false) /\
  (tok = slash -> HasSuffix s (bs "/") = false /\ HasSuffix s (bs ".lock") = false) /\
  (endsRef tok = true -> HasSuffix s (bs "/") = false /\ HasSuffix s (bs ".") = false /\ HasSuffix s (bs ".lock") = false).
Proof.
  intros [_ E1 E2] Hn s. subst s. rewrite E1, E2, lock_suffix. unfold checkRefFormat. rewrite <- (andb_assoc _ (4 <? len buf)).
  generalize ((4 <? len buf) && bool_decide (drop (length buf - 5) buf = bs ".lock")). intros L.
  assert (bool_decide (prev = dot) && bool_decide (prev = slash) = false) as Hx by by destruct prev.
  destruct (bool_decide (prev = dot)), (bool_decide (prev = slash)); try discriminate Hx; clear Hx.
  all: destruct tok; case_bool_decide as Hb; cbn; try (by specialize (Hn eq_refl)); destruct L; cbn; (split; [intros ?; try discriminate; split_and!; done || (intros ?; discriminate || by split_and!)|intuition discriminate]).
Qed.

Lemma grown_start : grown eof [].
Proof. by split. Qed.

(** A token that is accepted makes the name grow. *)
Lemma grown_token tok lit prev buf : grown prev buf -> token_bytes tok lit -> endsRef tok = false ->
  checkRefFormat tok lit prev buf false = None -> grown tok (buf ++ lit) /\ lit <> [].
Proof.
  intros G B He C. pose proof (checkRefFormat_none tok lit prev buf G) as S. rewrite He in S. cbn zeta in S. rewrite C in S.
  destruct (proj1 (S ltac:(done)) eq_refl) as (Hr & Hd & Hs & _). destruct G as [G1 G2 G3].
  assert (tok = dot \/ tok = slash \/ tok <> dot /\ tok <> slash) as [->|[->|[N1 N2]]]
    by (destruct tok; first [by left|by (right; left)|by (right; right)]).
  - cbn in B. subst lit. specialize (Hd eq_refl) as [D1 D2]. change (bs ".") with [x2e]. split; [|done]. split; rewrite app_assoc.
    + by rewrite ref_rules_snoc, G1, D1, D2.
    + apply HasSuffix_one.
    + change (bs "/") with [x2f]. rewrite HasSuffix_one. by destruct buf.
  - cbn in B. subst lit. specialize (Hs eq_refl) as [D1 D2]. change (bs "/") with [x2f]. split; [|done]. split; rewrite app_assoc.
    + by rewrite ref_rules_snoc, G1, D1, D2.
    + change (bs ".") with [x2e]. by rewrite HasSuffix_one.
    + change (bs "/") with [x2f]. rewrite HasSuffix_one. by destruct buf.
  - assert (lit <> [] /\ Forall (fun b => plain b = true) lit) as [Hn Hp].
    { destruct tok; try done; cbn in Hr; discriminate Hr. }
    split; [|done]. split; rewrite app_assoc.
    + by rewrite ref_rules_plain.
    + rewrite bool_decide_eq_false_2 by done. by apply plain_end.
    + rewrite !bool_decide_eq_false_2 by (done || by destruct buf, lit). by apply plain_end.
Qed.

(** ** The names a parse gives *)

(** The token that may be given again is one the scanner made. *)
Definition stored (p : Parser) : Prop := token_bytes (p_tok p) (p_lit p).
Definition keeps (m : res (Revisioner * Parser)) : Prop :=
  forall x, m = Ok x -> (forall name, x.1 = Ref name -> name = bs "HEAD") /\ stored x.2.

Section Stored.
Context (IsSpace IsControl IsLetter IsNumber : Z -> bool) (compileError : bytes -> option bytes) (parseTime : bytes -> option Z).
Hypothesis tables : ascii_tables IsSpace IsControl IsLetter IsNumber.
Notation scan := (scan IsSpace IsControl IsLetter IsNumber).

Lemma scan_stored p tok lit p' : stored p -> scan p = (tok, lit, p') -> token_bytes tok lit /\ stored p'.
Proof.
  unfold Revision.scan, stored. destruct (p_unread p); [by intros ? [= <- <- <-]|].
  destruct (scanner_scan _ _ _ _ _) as [[t l] r] eqn:E. intros _ [= <- <- <-]. cbn. by apply (scanner_scan_bytes _ _ _ _ tables) in E.
Qed.
End Stored.

Ltac scan_keep :=
  match goal with
  | H : stored ?p |- context [scan ?a ?b ?c ?d ?p] =>
    let tok := fresh "tok" in let lit := fresh "lit" in let p' := fresh "p" in let E := fresh "E" in
    destruct (scan a b c d p) as [[tok lit] p'] eqn:E;
    let B := fresh "B" in let S := fresh "S" in
    destruct (scan_stored a b c d ltac:(assumption) _ _ _ _ H E) as [B S]
  end.
Ltac keeps_leaf := let x := fresh "x" in let K := fresh "K" in intros x K; 
  first [discriminate K|apply Ok_inj in K as <-; cbn [fst snd]; split; [intros ? [=]; by subst|done]].

Section Kept.
Context (IsSpace IsControl IsLetter IsNumber : Z -> bool) (compileError : bytes -> option bytes) (parseTime : bytes -> option Z).
Hypothesis tables : ascii_tables IsSpace IsControl IsLetter IsNumber.

Lemma parseDate_keeps fuel p date : stored p -> keeps (parseDate IsSpace IsControl IsLetter IsNumber parseTime fuel p date).
Proof.
  revert p date. induction fuel as [|fuel IH]; intros p date H; cbn [parseDate]; [done|]. scan_keep.
  destruct tok; try keeps_leaf; try by apply IH. destruct (parseTime date); keeps_leaf.
Qed.
Lemma parseAt_keeps fuel p : stored p -> keeps (parseAt IsSpace IsControl IsLetter IsNumber parseTime fuel p).
Proof.
  intros H. unfold parseAt. scan_keep. case_bool_decide; cbn [negb]; [|keeps_leaf]. scan_keep. scan_keep.
  repeat destruct (_ && _); try keeps_leaf; [|by apply parseDate_keeps]. scan_keep. case_bool_decide; keeps_leaf.
Qed.
Lemma parseTilde_keeps p : stored p -> keeps (parseTilde IsSpace IsControl IsLetter IsNumber p).
Proof. intros H. unfold parseTilde. scan_keep. destruct tok; keeps_leaf. Qed.
Lemma parseCaretBraces_keeps fuel p start re negate : stored p ->
  keeps (parseCaretBraces IsSpace IsControl IsLetter IsNumber compileError fuel p start re negate).
Proof.
  revert p start re negate. induction fuel as [|fuel IH]; intros p start re negate H; cbn [parseCaretBraces]; [done|].
  scan_keep. scan_keep. repeat destruct (_ && _); try keeps_leaf; try by apply IH.
  case_bool_decide; [keeps_leaf|]. case_bool_decide; cbn [negb]; [|by apply IH]. destruct (compileError re); keeps_leaf.
Qed.
Lemma parseCaret_keeps fuel p : stored p -> keeps (parseCaret IsSpace IsControl IsLetter IsNumber compileError fuel p).
Proof.
  intros H. unfold parseCaret. scan_keep. destruct tok; try keeps_leaf; [|by apply parseCaretBraces_keeps]. destruct (2 <? _); keeps_leaf.
Qed.
Lemma parseColonSlash_keeps fuel p re negate : stored p ->
  keeps (parseColonSlash IsSpace IsControl IsLetter IsNumber compileError fuel p re negate).
Proof.
  revert p re negate. induction fuel as [|fuel IH]; intros p re negate H; cbn [parseColonSlash]; [done|].
  scan_keep. scan_keep. repeat destruct (_ && _); try keeps_leaf; try by apply IH.
  case_bool_decide; [|by apply IH]. destruct (compileError re); keeps_leaf.
Qed.
Lemma parsePath_keeps fuel p n stage path : stored p -> keeps (parsePath IsSpace IsControl IsLetter IsNumber fuel p n stage path).
Proof.
  revert p path. induction fuel as [|fuel IH]; intros p path H; cbn [parsePath]; [done|]. scan_keep.
  destruct tok; try by apply IH. destruct (n =? -1); keeps_leaf.
Qed.
Lemma parseColon_keeps fuel p : stored p -> keeps (parseColon IsSpace IsControl IsLetter IsNumber compileError fuel p).
Proof.
  intros H. unfold parseColon. scan_keep.
  assert (stored (unscan p0)) as H0 by done.
  assert (keeps (parseColonDefault IsSpace IsControl IsLetter IsNumber fuel (unscan p0))).
  { unfold parseColonDefault. scan_keep. scan_keep. destruct (_ && (_ <=? 3)); by apply parsePath_keeps. }
  destruct tok; try done. by apply parseColonSlash_keeps.
Qed.

(** [parseRef] gives a name that [Validate] accepts. *)
Lemma parseRef_valid fuel p prev buf x : stored p -> grown prev buf ->
  buf <> [] \/ p_unread p = true /\ endsRef (p_tok p) = false ->
  parseRef IsSpace IsControl IsLetter IsNumber fuel p prev buf = Ok x ->
  exists name, x.1 = Ref name /\ stored x.2 /\ name <> [] /\ Validate (remotes ++ name) = None /\ x40 ∉ name.
Proof.
  revert p prev buf. induction fuel as [|fuel IH]; intros p prev buf H G Hn; cbn [parseRef]; [done|].
  destruct (scan IsSpace IsControl IsLetter IsNumber p) as [[tok lit] p'] eqn:E. pose proof (scan_stored _ _ _ _ tables _ _ _ _ H E) as [B S].
  assert (endsRef tok = true -> buf <> []) as Hb.
  { destruct Hn as [Hn|[U He]]; [done|]. unfold scan in E. rewrite U in E. injection E as <- <- <-. congruence. }
  destruct (endsRef tok) eqn:Ends.
  - pose proof (checkRefFormat_none tok lit prev buf G) as C. rewrite Ends in C. cbn zeta in C.
    destruct (checkRefFormat tok lit prev buf true) eqn:Ec; [done|]. intros [= <-].
    exists buf. split; [done|]. split; [done|]. split; [auto|].
    apply Validate_remotes. split; [apply G|]. apply C; auto.
  - destruct (checkRefFormat tok lit prev buf false) eqn:Ec; [done|]. intros K.
    destruct (grown_token tok lit prev buf G B Ends Ec) as [G' Hl]. apply (IH p' tok (buf ++ lit)); try done.
    left. by destruct buf, lit.
Qed.

(** The names among the components. *)
Definition named (rev : Revisioner) : Prop :=
  forall name, rev = Ref name -> name = bs "HEAD" \/ name <> [] /\ Validate (remotes ++ name) = None /\ x40 ∉ name.

Lemma Parse_switch_named fuel tok p x : stored p -> p_tok p = tok -> tok <> eof ->
  Parse_switch IsSpace IsControl IsLetter IsNumber compileError parseTime fuel tok p = Ok x -> named x.1 /\ stored x.2.
Proof.
  intros H Ht He.
  assert (forall m, keeps m -> m = Ok x -> named x.1 /\ stored x.2) as Hk.
  { intros m K E. destruct (K x E) as [K1 K2]. split; [|done]. intros name En. left. auto. }
  assert (endsRef tok = false -> parseRef IsSpace IsControl IsLetter IsNumber fuel (unscan p) eof [] = Ok x -> named x.1 /\ stored x.2) as Hr.
  { intros Hends E. destruct (parseRef_valid fuel (unscan p) eof [] x) as (name & -> & S & N); [done|apply grown_start|right; by cbn; rewrite Ht|done|].
    split; [|done]. intros n [= <-]. by right. }
  unfold Parse_switch. destruct tok; try done; auto; apply Hk;
    auto using parseAt_keeps, parseTilde_keeps, parseCaret_keeps, parseColon_keeps.
Qed.

Lemma Parse_loop_named fuel p revs out : stored p -> Forall named revs ->
  Parse_loop IsSpace IsControl IsLetter IsNumber compileError parseTime fuel p revs = Ok out -> Forall named out.
Proof.
  revert p revs. induction fuel as [|fuel IH]; intros p revs H Hr; cbn [Parse_loop]; [done|].
  destruct (scan IsSpace IsControl IsLetter IsNumber p) as [[tok lit] p'] eqn:E.
  pose proof (scan_stored _ _ _ _ tables _ _ _ _ H E) as [B S]. apply scan_spec in E as (_ & Ht & _).
  case_bool_decide as He; [destruct (validateFullRevision revs); [done|by intros [= <-]]|].
  intros K. inv_bind K. destruct v as [rev q]. apply Parse_switch_named in E as [N Sq]; [|done..].
  apply IH in K; [done..|]. apply Forall_app. by split; [|constructor].
Qed.
End Kept.

(** C17: in what a revision is parsed into, every reference is the name HEAD, or a name that is not empty, has no at sign and
    that [ReferenceName.Validate] accepts in the directory of the remotes: the rules that [checkRefFormat] tests token by
    token are those that [Validate] tests on the whole name. *)
Theorem revision_names (IsSpace IsControl IsLetter IsNumber : Z -> bool) (compileError : bytes -> option bytes) (parseTime : bytes -> option Z) s revs name :
  ascii_tables IsSpace IsControl IsLetter IsNumber ->
  Parse IsSpace IsControl IsLetter IsNumber compileError parseTime s = Ok revs -> Ref name ∈ revs ->
  name = bs "HEAD" \/ name <> [] /\ Validate (bs "refs/remotes/" ++ name) = None /\ x40 ∉ name.
Proof.
  intros tables H Hin. apply (Parse_loop_named _ _ _ _ _ _ tables) in H; [|done..]. rewrite Forall_forall in H. by apply (H _ Hin).
Qed.

(** The tables of ASCII itself, no regular expression refused and no date read. *)
Definition ascii_space (c : Z) : bool := (9 <=? c) && (c <=? 13) || (c =? 32).
Definition ascii_control (c : Z) : bool := (c <? 32) || (c =? 127).
Definition ascii_letter (c : Z) : bool := (65 <=? c) && (c <=? 90) || (97 <=? c) && (c <=? 122).
Definition ascii_number (c : Z) : bool := (48 <=? c) && (c <=? 57).
Definition ascii_Parse : bytes -> res (list Revisioner) :=
  Parse ascii_space ascii_control ascii_letter ascii_number (fun _ => None) (fun _ => None).

Lemma revision_names_witness :
  ascii_Parse (bs "feature/x-1.2~3^{tree}") = Ok [Ref (bs "feature/x-1.2"); TildePath 3; CaretType (bs "tree")] /\
  Validate (bs "refs/remotes/" ++ bs "feature/x-1.2") = None.
Proof.
  assert (ascii_Parse (bs "feature/x-1.2~3^{tree}") = Ok [Ref (bs "feature/x-1.2"); TildePath 3; CaretType (bs "tree")]) as E by by_decision.
  split; [exact E|].
  destruct (revision_names ascii_space ascii_control ascii_letter ascii_number (fun _ => None) (fun _ => None)
    (bs "feature/x-1.2~3^{tree}") _ (bs "feature/x-1.2") (Build_ascii_tables _ _ _ _ (fun c _ => eq_refl) (fun c _ => eq_refl) (fun c _ => eq_refl) (fun c _ => eq_refl)) E)
    as [H|(_ & H & _)]; [by left|discriminate H|exact H].
Defined.
