(* ===== verification/RevisionRoundtrip.v ===== *)
(** * internal/revision: a revision that is written is parsed back

    Of ASCII text the scanner makes tokens that are the text itself; a name, its suffixes and a path are then parsed to the
    components they were written from. *)
From S2P Require Import Prelude GoStrings Strconv ObjectID Reference Revision RevisionProofs.

(** A byte of a text the scanner loses nothing of. *)
Definition ascii (b : byte) : Prop := 0 < b2z b < 128.
Definition letter (b : byte) : bool := ascii_letter (b2z b).
Definition digit (b : byte) : bool := ascii_number (b2z b).

(** The token of a byte that is no letter and no digit. *)
Definition byte_token (b : byte) : token :=
  match b with
  | x3a => colon | x7e => tilde | x5e => caret | x2e => dot | x2f => slash | x7b => obrace | x7d => cbrace | x2d => minus
  | x40 => at_ | x5c => aslash | x3f => qmark | x2a => asterisk | x5b => obracket | x21 => emark
  | _ => if ascii_space (b2z b) then space else if ascii_control (b2z b) then control else tokenError
  end.

(** The longest part of a list that a test holds of. *)
Lemma longest {A} (f : A -> bool) l :
  exists w l', l = w ++ l' /\ Forall (fun x => f x = true) w /\ match l' with [] => True | x :: _ => f x = false end.
Proof.
  induction l as [|x l (w & l' & -> & Hw & Hl)]; [by exists [], []|].
  destruct (f x) eqn:E; [exists (x :: w), l'; eauto using Forall_cons_2|]. exists [], (x :: w ++ l'). eauto.
Qed.

(** What ends a word and a number. *)
Definition stops (r : bytes) : Prop := match r with [] => True | b :: _ => letter b = false /\ digit b = false end.

(** A token and its text, of ASCII *)
Definition spells (tok : token) (w : bytes) : Prop :=
  tok = word /\ Forall (fun b => letter b = true) w \/ tok = number /\ Forall (fun b => digit b = true) w \/
  exists b, w = [b] /\ tok = byte_token b /\ letter b = false /\ digit b = false.

Section Tokens.
Context (IsSpace IsControl IsLetter IsNumber : Z -> bool).
Hypothesis tables : ascii_tables IsSpace IsControl IsLetter IsNumber.
Notation scanner_scan := (scanner_scan IsSpace IsControl IsLetter IsNumber).

Lemma span check w : forall fuel r data, (length w <= fuel)%nat -> Forall (fun b => ascii b /\ check (b2z b) = true) w ->
  match r with [] => True | b :: _ => ascii b /\ check (b2z b) = false end ->
  tokenizeExpression fuel check (w ++ r) data = (data ++ w, r).
Proof.
  induction w as [|b w IH]; intros fuel r data Hf Hw Hr; cbn [app].
  - rewrite app_nil_r. destruct fuel as [|fuel]; [done|]. cbn [tokenizeExpression]. destruct r as [|b r]; [done|].
    destruct Hr as [[? ?] Hc]. rewrite rune_ascii by done. rewrite (proj2 (Z.eqb_neq (b2z b) 0)) by lia. by rewrite Hc.
  - destruct fuel as [|fuel]; [cbn in Hf; lia|]. apply Forall_cons_1 in Hw as [[[? ?] Hc] Hw]. cbn [tokenizeExpression].
    rewrite rune_ascii, (proj2 (Z.eqb_neq (b2z b) 0)), Hc, EncodeRune_ascii, z2b_b2z by lia. cbn [drop].
    rewrite skipn_O, IH; [|cbn in Hf; lia|done..]. by rewrite <- app_assoc.
Qed.

Lemma scan_start b r : ascii b -> scanner_scan (b :: r) =
  (if letter b then let (data, rest) := tokenizeExpression (length r) IsLetter r [b] in (word, data, rest)
   else if digit b then let (data, rest) := tokenizeExpression (length r) IsNumber r [b] in (number, data, rest)
   else (byte_token b, [b], r)).
Proof.
  intros [? ?]. unfold Revision.scanner_scan. rewrite rune_ascii, EncodeRune_ascii, z2b_b2z by lia. cbn [drop]. rewrite skipn_O.
  rewrite (table_space _ _ _ _ tables), (table_control _ _ _ _ tables), (table_letter _ _ _ _ tables), (table_number _ _ _ _ tables) by lia.
  destruct b; try (cbn in *; lia); reflexivity.
Qed.

Lemma run_split check (f : byte -> bool) b name rest :
  (forall b, ascii b -> check (b2z b) = f b) -> Forall ascii (b :: name ++ rest) -> match rest with [] => True | b :: _ => f b = false end ->
  exists w name', name = w ++ name' /\ Forall (fun b => f b = true) w /\
    tokenizeExpression (length (name ++ rest)) check (name ++ rest) [b] = (b :: w, name' ++ rest).
Proof.
  intros Hc Ha Hr. destruct (longest f name) as (w & name' & -> & Hw & Hn). exists w, name'. split; [done|]. split; [done|].
  apply Forall_cons_1 in Ha as [_ Ha]. rewrite <- app_assoc in Ha |- *. apply Forall_app in Ha as [Ha1 Ha2].
  rewrite (span check) with (data := [b]); [done|rewrite !length_app; lia| |].
  - rewrite Forall_forall in *. intros x Hx. split; [auto|]. rewrite Hc by auto. auto.
  - destruct name' as [|x name']; cbn [app] in *; [destruct rest as [|x rest]; [done|]|].
    all: apply Forall_cons_1 in Ha2 as [? _]; by rewrite Hc.
Qed.

(** The first token of a text that ends before [rest]. *)
Lemma scan_text name rest : name <> [] -> Forall ascii (name ++ rest) -> stops rest ->
  exists tok w name', name = w ++ name' /\ w <> [] /\ scanner_scan (name ++ rest) = (tok, w, name' ++ rest) /\ spells tok w.
Proof.
  intros Hn Ha Hs. destruct name as [|b name]; [done|]. cbn [app] in *. pose proof (Forall_cons_1 _ _ _ Ha) as [Hb _].
  rewrite scan_start by done. destruct (letter b) eqn:El.
  { destruct (run_split IsLetter letter b name rest) as (w & name' & -> & Hw & ->); [|done|by destruct rest; [|destruct Hs]|].
    { intros x [? ?]. rewrite (table_letter _ _ _ _ tables) by lia. done. }
    exists word, (b :: w), name'. split_and!; try done. left. auto. }
  destruct (digit b) eqn:Ed.
  { destruct (run_split IsNumber digit b name rest) as (w & name' & -> & Hw & ->); [|done|by destruct rest; [|destruct Hs]|].
    { intros x [? ?]. rewrite (table_number _ _ _ _ tables) by lia. done. }
    exists number, (b :: w), name'. split_and!; try done. right. left. auto. }
  exists (byte_token b), [b], name. split_and!; try done. right. right. exists b. auto.
Qed.
End Tokens.

(** ** Names *)
Section Names.
Context (IsSpace IsControl IsLetter IsNumber : Z -> bool).
Hypothesis tables : ascii_tables IsSpace IsControl IsLetter IsNumber.
Notation scan := (scan IsSpace IsControl IsLetter IsNumber).
Notation scanner_scan := (scanner_scan IsSpace IsControl IsLetter IsNumber).

(** A parser that gives the tokens of [r]: fresh, or with the first of them given again. *)
Definition reads_text (p : Parser) (r : bytes) : Prop := scan p = let '(tok, lit, rest) := scanner_scan r in (tok, lit, mkParser rest tok lit false).

Lemma reads_fresh r tok lit : reads_text (mkParser r tok lit false) r.
Proof. unfold reads_text, Revision.scan. cbn. by destruct (scanner_scan r) as [[? ?] ?]. Qed.
Lemma reads_again r tok lit rest : scanner_scan r = (tok, lit, rest) -> reads_text (unscan (mkParser rest tok lit false)) r.
Proof. intros E. unfold reads_text. by rewrite E. Qed.

(** What ends a name *)
Definition ends_name (r : bytes) : Prop := match r with [] => True | b :: _ => b ∈ bs "~^:@" end.
Lemma ends_stops r : ends_name r -> stops r.
Proof.
  destruct r as [|b r]; [done|]. cbn. intros H. repeat (apply elem_of_cons in H as [->|H]; [done|]). by apply not_elem_of_nil in H.
Qed.
Lemma ends_scan r : ends_name r -> exists tok lit rest, scanner_scan r = (tok, lit, rest) /\ endsRef tok = true.
Proof.
  destruct r as [|b r]; [by exists eof, [], []|]. cbn [ends_name]. intros H.
  repeat (apply elem_of_cons in H as [->|H]; [by eexists _, _, _|]). by apply not_elem_of_nil in H.
Qed.

Lemma ref_rules_app s t : ref_rules (s ++ t) = true -> ref_rules s = true.
Proof.
  induction t as [|b t IH] using rev_ind; [by rewrite app_nil_r|]. rewrite app_assoc, ref_rules_snoc, !andb_true_iff. tauto.
Qed.

Lemma byte_token_accepted b : forbiddenByte b || bool_decide (b = x40) = false -> refused (byte_token b) = false /\ endsRef (byte_token b) = false.
Proof. by destruct b. Qed.
Lemma byte_token_dot b : (byte_token b = dot -> b = x2e) /\ (byte_token b = slash -> b = x2f).
Proof. by destruct b. Qed.

(** The tokens of a valid name are accepted. *)
Lemma token_accepted tok w prev buf name : grown prev buf -> spells tok w -> ref_rules (remotes ++ buf ++ w ++ name) = true ->
  endsRef tok = false /\ checkRefFormat tok w prev buf false = None.
Proof.
  intros G Hs Hr. rewrite !app_assoc in Hr. apply ref_rules_app in Hr. rewrite <- app_assoc in Hr.
  pose proof (checkRefFormat_none tok w prev buf G) as C. cbn zeta in C.
  destruct Hs as [[-> _]|[[-> _]|(b & -> & -> & _)]]; [split; [done|]; by apply C..|].
  rewrite app_assoc, ref_rules_snoc, !andb_true_iff, !negb_true_iff in Hr. destruct Hr as [[[_ Hd] Hs] Hb].
  apply byte_token_accepted in Hb as [Hb1 Hb2]. split; [done|]. rewrite Hb2 in C. apply C; [done|]. split; [done|].
  destruct (byte_token_dot b) as [T1 T2]. split_and!; [| |done].
  - intros E. rewrite (bool_decide_eq_true_2 (b = x2e)) in Hd by auto. by apply orb_false_iff in Hd.
  - intros E. rewrite (bool_decide_eq_true_2 (b = x2f)) in Hs by auto. by apply orb_false_iff in Hs.
Qed.

Lemma parseRef_name n : forall name buf prev fuel p rest,
  (length name <= n)%nat -> reads_text p (name ++ rest) -> grown prev buf -> Forall ascii (name ++ rest) -> ends_name rest ->
  buf ++ name <> [] -> Validate (remotes ++ buf ++ name) = None -> x40 ∉ buf ++ name -> (length name < fuel)%nat ->
  exists q, parseRef IsSpace IsControl IsLetter IsNumber fuel p prev buf = Ok (Ref (buf ++ name), q) /\ reads_text q rest.
Proof.
  induction n as [|n IH]; intros name buf prev fuel p rest Hn Hp G Ha He Hne Hv Hat Hf;
    (destruct fuel as [|fuel]; [lia|]); cbn [parseRef]; rewrite Hp; destruct (proj1 (Validate_remotes _) (conj Hv Hat)) as (V1 & V2 & V3 & V4).
  all: destruct (decide (name = [])) as [->|Hname].
  1, 3: cbn [app]; destruct (ends_scan rest He) as (tok & lit & r & E & Ends); rewrite E, Ends; rewrite app_nil_r in *.
  1, 2: pose proof (checkRefFormat_none tok lit prev buf G ltac:(done)) as C; cbn zeta in C; rewrite Ends in C.
  1, 2: rewrite (proj2 C); [|split_and!; try done; by destruct tok]; eexists; split; [done|by apply reads_again].
  - by destruct name; [|cbn in Hn; lia].
  - destruct (scan_text IsSpace IsControl IsLetter IsNumber tables name rest Hname Ha (ends_stops _ He)) as (tok & w & name' & -> & Hw & E & Hsp).
    rewrite E. destruct (token_accepted tok w prev buf name' G Hsp V1) as [Ends C]. rewrite Ends, C.
    destruct (grown_token tok w prev buf G (scanner_scan_bytes _ _ _ _ tables _ _ _ _ E) Ends C) as [G' _].
    rewrite length_app in Hn, Hf. assert (0 < length w)%nat by (destruct w; [done|cbn; lia]). rewrite <- app_assoc in Ha. apply Forall_app in Ha as [_ Ha].
    rewrite !app_assoc in Hne, Hv, Hat |- *. rewrite <- app_assoc in Hv.
    apply (IH name' (buf ++ w) tok fuel _ rest); [lia|apply reads_fresh|done..|by rewrite <- app_assoc|done|lia].
Qed.
End Names.

(** ** Whole revisions *)

(** The text of a suffix, and of a path after the revision. *)
Definition render (rev : Revisioner) : bytes :=
  match rev with
  | TildePath n => bs "~" ++ FormatInt n
  | CaretPath n => bs "^" ++ FormatInt n
  | CaretType t => bs "^{" ++ t ++ bs "}"
  | ColonPath path => bs ":" ++ path
  | _ => []
  end.
Definition object_types : list bytes := [bs "commit"; bs "tree"; bs "blob"; bs "tag"; bs "object"].
Definition suffix_ok (rev : Revisioner) : Prop :=
  match rev with
  | TildePath n => 0 <= n < 2 ^ 63
  | CaretPath n => 0 <= n <= 2
  | CaretType t => t ∈ object_types
  | _ => False
  end.
(** A path that is not taken for a message or a stage. *)
Definition path_ok (path : bytes) : Prop :=
  Forall ascii path /\ match path with [] => True | b :: _ => b <> x2f /\ digit b = false end.
Definition render_all (sfx : list Revisioner) (path : option bytes) : bytes :=
  concat (map render sfx) ++ match path with Some path => render (ColonPath path) | None => [] end.
Definition path_part (path : option bytes) : list Revisioner := match path with Some path => [ColonPath path] | None => [] end.

Lemma FormatInt_digits n : 0 <= n -> FormatInt n <> [] /\ Forall (fun b => digit b = true) (FormatInt n) /\ Forall ascii (FormatInt n).
Proof.
  intros Hn. unfold FormatInt. rewrite (proj2 (Z.ltb_ge n 0)) by lia. pose proof (digits_chars 10 ltac:(lia) n Hn) as H. split_and!.
  - by apply digits_nonempty.
  - eapply Forall_impl; [done|]. intros b Hb. cbv beta in Hb. unfold digit, ascii_number. rewrite andb_true_iff, !Z.leb_le. lia.
  - eapply Forall_impl; [done|]. intros b Hb. cbv beta in Hb. unfold ascii. lia.
Qed.

Lemma atoi_FormatInt n : 0 <= n < 2 ^ 63 -> atoi (FormatInt n) = n.
Proof. intros H. unfold atoi. by rewrite ParseInt_FormatInt by lia. Qed.

Lemma validate_suffixes n sfx tl : forall i, Forall suffix_ok sfx -> validate n i true (sfx ++ tl) = validate n (i + len sfx) true tl.
Proof.
  induction sfx as [|rev sfx IH]; intros i H; cbn [app]; [by rewrite Z.add_0_r|]. apply Forall_cons_1 in H as [Hr H].
  rewrite len_cons, Z.add_assoc. destruct rev; try done; cbn [validate]; by rewrite IH.
Qed.

Lemma render_ends sfx path : Forall suffix_ok sfx -> ends_name (render_all sfx path).
Proof.
  intros H. unfold render_all. destruct sfx as [|rev sfx]; [destruct path; [|done]; cbn; set_solver|].
  apply Forall_cons_1 in H as [Hr _]. destruct rev; try done; cbn; set_solver.
Qed.

Lemma render_ascii sfx path : Forall suffix_ok sfx -> match path with Some p => path_ok p | None => True end -> Forall ascii (render_all sfx path).
Proof.
  intros H Hp. unfold render_all. apply Forall_app. split; [|destruct path as [p|]; [|done]; constructor; [done|apply Hp]].
  induction H as [|rev sfx Hr H IH]; [done|]. cbn [map concat]. apply Forall_app. split; [|done]. destruct rev; try done; cbn [render suffix_ok] in *.
  - constructor; [done|]. apply FormatInt_digits. lia.
  - constructor; [done|]. apply FormatInt_digits. lia.
  - repeat (apply elem_of_cons in Hr as [->|Hr]; [by repeat constructor|]). by apply not_elem_of_nil in Hr.
Qed.

Section Whole.
Context (IsSpace IsControl IsLetter IsNumber : Z -> bool) (compileError : bytes -> option bytes) (parseTime : bytes -> option Z).
Hypothesis tables : ascii_tables IsSpace IsControl IsLetter IsNumber.
Notation scanner_scan := (scanner_scan IsSpace IsControl IsLetter IsNumber).
Notation reads_text := (reads_text IsSpace IsControl IsLetter IsNumber).

Lemma scan_number n rest : 0 <= n -> Forall ascii rest -> stops rest -> scanner_scan (FormatInt n ++ rest) = (number, FormatInt n, rest).
Proof.
  intros Hn Ha Hs. destruct (FormatInt_digits n Hn) as (H1 & H2 & H3).
  destruct (FormatInt n) as [|b w]; [done|]. cbn [app]. apply Forall_cons_1 in H2 as [Hb Hw], H3 as [Hb' Hw'].
  rewrite (scan_start _ _ _ _ tables) by done. assert (letter b = false) as ->.
  { unfold letter, ascii_letter. unfold digit, ascii_number in Hb. lia. }
  rewrite Hb, (span IsNumber w); [done|rewrite length_app; lia| |].
  - rewrite Forall_forall in *. intros x Hx. split; [auto|]. destruct (Hw' x Hx). rewrite (table_number _ _ _ _ tables) by lia. by apply Hw.
  - destruct rest as [|x r]; [done|]. apply Forall_cons_1 in Ha as [Hx _]. destruct Hx, Hs. rewrite (table_number _ _ _ _ tables) by lia. done.
Qed.

Lemma scan_type t rest : t ∈ object_types -> scanner_scan (t ++ x7d :: rest) = (word, t, x7d :: rest).
Proof.
  intros Ht. assert (Forall (fun b => ascii b /\ letter b = true) t /\ t <> []) as [Hl Hn].
  { repeat (apply elem_of_cons in Ht as [->|Ht]; [by split; [repeat constructor|]|]). by apply not_elem_of_nil in Ht. }
  destruct t as [|b w]; [done|]. cbn [app]. apply Forall_cons_1 in Hl as [[Hb Hb'] Hw].
  rewrite (scan_start _ _ _ _ tables), Hb' by done. rewrite (span IsLetter w); [done|rewrite length_app; lia| |].
  - eapply Forall_impl; [exact Hw|]. intros x [[? ?] ?]. split; [done|]. rewrite (table_letter _ _ _ _ tables) by lia. done.
  - split; [done|]. by rewrite (table_letter _ _ _ _ tables).
Qed.

Lemma scan_byte b rest : ascii b -> letter b = false -> digit b = false -> scanner_scan (b :: rest) = (byte_token b, [b], rest).
Proof. intros Ha Hl Hd. by rewrite (scan_start _ _ _ _ tables), Hl, Hd by done. Qed.

(** Every suffix is one round of the loop. *)
Lemma parse_suffix rev rest fuel p revs : suffix_ok rev -> Forall ascii rest -> ends_name rest -> reads_text p (render rev ++ rest) -> (0 < fuel)%nat ->
  exists q, Parse_loop IsSpace IsControl IsLetter IsNumber compileError parseTime (S fuel) p revs =
            Parse_loop IsSpace IsControl IsLetter IsNumber compileError parseTime fuel q (revs ++ [rev]) /\ reads_text q rest.
Proof.
  intros Ho Ha He Hp Hf. pose proof (ends_stops _ He) as Hs. cbn [Parse_loop]. rewrite Hp. destruct rev as [| n|n| |t| | | | | | | |]; try done; cbn [render suffix_ok] in *.
  - change (bs "~" ++ FormatInt n) with (x7e :: FormatInt n). cbn [app]. rewrite scan_byte by done. cbn [byte_token]. rewrite bool_decide_eq_false_2 by done.
    unfold Parse_switch, parseTilde. rewrite reads_fresh, scan_number by (lia || done). cbn [res_bind]. rewrite atoi_FormatInt by lia.
    eexists. split; [done|apply reads_fresh].
  - change (bs "^" ++ FormatInt n) with (x5e :: FormatInt n). cbn [app]. rewrite scan_byte by done. cbn [byte_token]. rewrite bool_decide_eq_false_2 by done.
    unfold Parse_switch, parseCaret. rewrite reads_fresh, scan_number by (lia || done). rewrite atoi_FormatInt by lia.
    rewrite (proj2 (Z.ltb_ge 2 n)) by lia. cbn [res_bind]. eexists. split; [done|apply reads_fresh].
  - change (bs "^{" ++ t ++ bs "}") with (x5e :: x7b :: t ++ [x7d]). cbn [app]. rewrite scan_byte by done. cbn [byte_token]. rewrite bool_decide_eq_false_2 by done.
    unfold Parse_switch, parseCaret. rewrite reads_fresh, scan_byte by done. cbn [byte_token]. destruct fuel as [|fuel]; [lia|]. cbn [parseCaretBraces].
    rewrite reads_fresh, <- app_assoc. cbn [app]. rewrite scan_type by done. rewrite reads_fresh, scan_byte by done. cbn [byte_token].
    rewrite !bool_decide_eq_true_2 by done. cbn [andb res_bind]. eexists. split; [done|apply reads_fresh].
Qed.

(** A path is all that is left. *)
Lemma parsePath_text n : forall r fuel p path, (length r <= n)%nat -> reads_text p r -> Forall ascii r -> (length r < fuel)%nat ->
  exists q, parsePath IsSpace IsControl IsLetter IsNumber fuel p (-1) 0 path = Ok (ColonPath (path ++ r), q) /\ reads_text q [].
Proof.
  induction n as [|n IH]; intros r fuel p path Hn Hp Ha Hf; (destruct fuel as [|fuel]; [lia|]); cbn [parsePath]; rewrite Hp.
  all: destruct r as [|b r]; [cbn; rewrite app_nil_r; eexists; split; [done|apply reads_fresh]|].
  1: cbn in Hn; lia.
  destruct (scan_text IsSpace IsControl IsLetter IsNumber tables (b :: r) [] ltac:(done) ltac:(by rewrite app_nil_r) I) as (tok & w & r' & E & Hw & Es & Hsp).
  rewrite !app_nil_r in Es. rewrite Es. rewrite E, length_app in Hn, Hf. assert (0 < length w)%nat by (destruct w; [done|cbn; lia]).
  rewrite E in Ha |- *. apply Forall_app in Ha as [_ Ha]. rewrite app_assoc.
  assert (tok <> eof) as Ht.
  { destruct Hsp as [[-> _]|[[-> _]|(x & _ & -> & _)]]; try done. by destruct x. }
  destruct (IH r' fuel (mkParser r' tok w false) (path ++ w)) as (q & Eq & Hq); [lia|apply reads_fresh|done|lia|].
  exists q. split; [|done]. by destruct tok.
Qed.

Lemma parse_path path fuel p revs : path_ok path -> reads_text p (render (ColonPath path)) -> (length path + 1 < fuel)%nat ->
  exists q, Parse_loop IsSpace IsControl IsLetter IsNumber compileError parseTime (S fuel) p revs =
            Parse_loop IsSpace IsControl IsLetter IsNumber compileError parseTime fuel q (revs ++ [ColonPath path]) /\ reads_text q [].
Proof.
  intros [Ha Hh] Hp Hf. cbn [Parse_loop]. rewrite Hp. cbn [render]. change (bs ":" ++ path) with (x3a :: path). rewrite scan_byte by done.
  cbn [byte_token]. rewrite bool_decide_eq_false_2 by done. unfold Parse_switch, parseColon. rewrite reads_fresh.
  destruct (scanner_scan path) as [[tok w] r] eqn:E.
  assert (tok <> slash /\ tok <> number /\ path = w ++ r /\ Forall ascii r) as (N1 & N2 & Epath & Hr).
  { destruct path as [|b path]; [by injection E as <- <- <-|].
    destruct (scan_text IsSpace IsControl IsLetter IsNumber tables (b :: path) [] ltac:(done) ltac:(by rewrite app_nil_r) I) as (tok' & w' & r' & E1 & Hw & E2 & Hsp).
    rewrite !app_nil_r in E2. rewrite E2 in E. injection E as -> -> ->. rewrite E1 in Ha. apply Forall_app in Ha as [_ Ha].
    destruct w as [|x w]; [done|]. injection E1 as -> E1.
    destruct Hsp as [[-> _]|[[-> Hd]|(y & [= -> ->] & -> & _)]]; [by rewrite E1| |].
    - apply Forall_cons_1 in Hd as [Hd _]. destruct Hh. congruence.
    - destruct Hh as [Hh _]. rewrite E1. split_and!; try done; by destruct y. }
  assert (exists q, parseColonDefault IsSpace IsControl IsLetter IsNumber fuel (unscan (mkParser r tok w false)) = Ok (ColonPath path, q) /\ reads_text q []) as (q & Eq & Hq).
  { unfold parseColonDefault. rewrite (reads_again _ _ _ _ path tok w r E), E, reads_fresh. destruct (scanner_scan r) as [[t2 w2] r2] eqn:E2.
    rewrite (bool_decide_eq_false_2 (tok = number)) by done. cbn [andb]. change ((0 <=? -1) && (-1 <=? 3)) with false. cbn [andb]. rewrite Epath in Hf |- *. rewrite length_app in Hf.
    apply (parsePath_text (length r)); [done|by apply reads_again|done|lia]. }
  exists q. split; [|done]. by destruct tok; try done; rewrite Eq.
Qed.

Lemma parse_suffixes sfx path : forall fuel p revs, Forall suffix_ok sfx -> match path with Some p => path_ok p | None => True end ->
  reads_text p (render_all sfx path) -> (length (render_all sfx path) + 2 < fuel)%nat ->
  Parse_loop IsSpace IsControl IsLetter IsNumber compileError parseTime fuel p revs =
  match validateFullRevision (revs ++ sfx ++ path_part path) with Some e => Err e | None => Ok (revs ++ sfx ++ path_part path) end.
Proof.
  assert (forall fuel p revs, (0 < fuel)%nat -> reads_text p [] -> Parse_loop IsSpace IsControl IsLetter IsNumber compileError parseTime fuel p revs =
    match validateFullRevision revs with Some e => Err e | None => Ok revs end) as Hend.
  { intros [|fuel] p revs Hf Hp; [lia|]. cbn [Parse_loop]. by rewrite Hp. }
  induction sfx as [|rev sfx IH]; intros fuel p revs Hs Hpath Hp Hf; (destruct fuel as [|fuel]; [lia|]).
  - cbn [app]. destruct path as [path|]; [|rewrite app_nil_r; apply Hend; [lia|done]].
    destruct (parse_path path fuel p revs Hpath Hp) as (q & -> & Hq); [cbn in Hf; lia|]. apply Hend; [lia|done].
  - apply Forall_cons_1 in Hs as [Hr Hs]. unfold render_all in Hp, Hf. cbn [map concat] in Hp, Hf. rewrite <- app_assoc in Hp, Hf.
    assert (0 < length (render rev))%nat by (destruct rev; try done; cbn; lia). rewrite length_app in Hf.
    destruct (parse_suffix rev (render_all sfx path) fuel p revs) as (q & -> & Hq); [done|by apply render_ascii|by apply render_ends|done|lia|].
    rewrite (IH fuel q (revs ++ [rev])); [by rewrite <- app_assoc|done..|unfold render_all; lia].
Qed.
End Whole.

(** The text of a revision is parsed back. *)
Lemma parse_rendered (IsSpace IsControl IsLetter IsNumber : Z -> bool) (compileError : bytes -> option bytes) (parseTime : bytes -> option Z)
    (name : bytes) (sfx : list Revisioner) (path : option bytes) :
  ascii_tables IsSpace IsControl IsLetter IsNumber ->
  name <> [] -> Forall ascii name -> Validate (bs "refs/remotes/" ++ name) = None -> x40 ∉ name ->
  Forall suffix_ok sfx -> match path with Some p => path_ok p | None => True end ->
  len (name ++ render_all sfx path) <= maxRevisionLength ->
  Parse IsSpace IsControl IsLetter IsNumber compileError parseTime (name ++ render_all sfx path) = Ok (Ref name :: sfx ++ path_part path).
Proof.
  intros tables Hn Ha Hv Hat Hs Hp Hl. unfold Parse, NewParserFromString. set (t := name ++ render_all sfx path) in *.
  rewrite firstn_all2 by (unfold len in Hl; lia).
  pose proof (render_ascii sfx path Hs Hp) as Hr. pose proof (render_ends sfx path Hs) as He.
  destruct (scan_text _ _ _ _ tables name (render_all sfx path) Hn ltac:(by apply Forall_app) (ends_stops _ He)) as (tok & w & name' & E & Hw & Es & Hsp).
  replace (2 * length t + 4)%nat with (S (2 * length t + 3)) by lia. cbn [Parse_loop]. rewrite reads_fresh. subst t. rewrite Es.
  destruct (token_accepted tok w eof [] name' grown_start Hsp) as [Ends _].
  { destruct (proj1 (Validate_remotes name) (conj Hv Hat)) as [V1 _]. by rewrite E in V1. }
  rewrite bool_decide_eq_false_2 by (by intros ->).
  destruct (parseRef_name _ _ _ _ tables (length name) name [] eof (2 * length (name ++ render_all sfx path) + 3) (unscan (mkParser (name' ++ render_all sfx path) tok w false)) (render_all sfx path))
    as (q & Eq & Hq); [done|by apply reads_again|apply grown_start|by apply Forall_app|done..|rewrite (length_app name); lia|].
  cbn [app] in Eq. assert (forall m, Parse_switch IsSpace IsControl IsLetter IsNumber compileError parseTime m tok (mkParser (name' ++ render_all sfx path) tok w false) =
    parseRef IsSpace IsControl IsLetter IsNumber m (unscan (mkParser (name' ++ render_all sfx path) tok w false)) eof []) as -> by by destruct tok.
  rewrite Eq. cbn [res_bind]. rewrite (parse_suffixes _ _ _ _ _ _ tables sfx path); [|done..|rewrite (length_app name); lia]. cbn [app].
  unfold validateFullRevision. cbn [validate]. rewrite Z.eqb_refl, validate_suffixes by done.
  destruct path as [path|]; cbn [path_part validate]; [|done]. rewrite !len_cons, len_app, len_cons.
  replace (_ =? _) with true; [done|]. symmetry. apply Z.eqb_eq. change (len []) with 0. lia.
Qed.

(** C16: a name of ASCII that is valid under refs/remotes and has no at sign, with any number of suffixes ~n, ^n for n up to two
    (the parser refuses more) and ^{type}, and with or without a path of ASCII that begins with neither a slash nor a digit,
    is parsed into that name, those suffixes in their order and that path, up to the greatest length of a revision. *)
Theorem revision_roundtrip (IsSpace IsControl IsLetter IsNumber : Z -> bool) (compileError : bytes -> option bytes) (parseTime : bytes -> option Z)
    (name : bytes) (sfx : list Revisioner) (path : option bytes) :
  ascii_tables IsSpace IsControl IsLetter IsNumber ->
  name <> [] -> Forall ascii name -> Validate (bs "refs/remotes/" ++ name) = None -> x40 ∉ name ->
  Forall suffix_ok sfx -> match path with Some p => path_ok p | None => True end ->
  len (name ++ render_all sfx path) <= maxRevisionLength ->
  Parse IsSpace IsControl IsLetter IsNumber compileError parseTime (name ++ render_all sfx path) = Ok (Ref name :: sfx ++ path_part path).
Proof. apply parse_rendered. Qed.

Lemma revision_roundtrip_witness :
  ascii_Parse (bs "feature/x.2~12^{tag}^2:doc/a.txt") =
  Ok [Ref (bs "feature/x.2"); TildePath 12; CaretType (bs "tag"); CaretPath 2; ColonPath (bs "doc/a.txt")].
Proof.
  apply (revision_roundtrip ascii_space ascii_control ascii_letter ascii_number (fun _ => None) (fun _ => None)
    (bs "feature/x.2") [TildePath 12; CaretType (bs "tag"); CaretPath 2] (Some (bs "doc/a.txt"))).
  - by split.
  - done.
  - by repeat constructor.
  - by_decision.
  - by_decision.
  - repeat constructor; cbn; lia || by_decision.
  - split; [by repeat constructor|]. by split.
  - by_decision.
Defined.

(** The brace suffix that is empty takes the token after it with it: what follows the braces is lost when it is a single
    token, so that the parent of the object that a tag points at is parsed as the object itself. *)
Theorem empty_braces_swallow :
  ascii_Parse (bs "v1^{}^") = ascii_Parse (bs "v1^{}") /\ ascii_Parse (bs "v1^{}") = Ok [Ref (bs "v1"); CaretType (bs "tag")] /\
  ascii_Parse (bs "v1^{tag}^") = Ok [Ref (bs "v1"); CaretType (bs "tag"); CaretPath 1].
Proof. split_and!; by_decision. Qed.
