(* ===== verification/Resolve.v ===== *)
(** * repository.go: from a revision to a commit

    [ResolveRevision] and what it calls: [expand_ref], [resolveHashPrefix] and [expandPartialHash].  The object and reference
    storers are parameters, as are the tables the parser of revisions uses and the matching of a regular expression.  A nil
    commit is [None]; to call a method of it panics. *)
From S2P Require Import Prelude GoStrings ObjectID Reference Storer Memory Objects Trees History Revision.

(** ** References *)
Fixpoint expand_loop {S} `{ReferenceStorer S} (s : S) (ref : ReferenceName) (rules : list (bytes * bytes)) (ret : option error) : res Reference :=
  match rules with
  | [] => match ret with Some e => Err e | None => Panic end
  | (before, after) :: rules =>
    match ResolveReference s (before ++ ref ++ after) with
    | Ok r => Ok r
    | Err e => expand_loop s ref rules (match ret with None => Some e | _ => ret end)
    | Panic => Panic
    | NoFuel => NoFuel
    end
  end.
Definition expand_ref {S} `{ReferenceStorer S} (s : S) (ref : ReferenceName) : res Reference := expand_loop s ref RefRevParseRules None.

(** ** Prefixes of hashes: those of the storer's own search, or of the objects its iterator delivers; an error gives none *)
Definition noneOnError {A} (r : res (list A)) : res (list A) := match r with Err _ => Ok [] | r => r end.
Definition expandPartialHash (fast : option (bytes -> res (list ObjectID))) (iter : res (list ObjectID)) (prefix : bytes) : res (list ObjectID) :=
  match fast with
  | Some f => noneOnError (f prefix)
  | None => noneOnError (let* hs := iter in Ok (List.filter (fun h => ObjectID_HasPrefix h prefix) hs))
  end.

Definition resolveHashPrefix (fast : option (bytes -> res (list ObjectID))) (iter : res (list ObjectID)) (hashStr : bytes) : res (list ObjectID) :=
  if bool_decide (hashStr = []) then Ok []
  else if len hashStr =? ObjectID_HexSize ZeroHash then
    let (h, ok) := FromHex hashStr in Ok (if ok then [h] else [])
  else
    let evenHex := take (Z.to_nat (Z.land (len hashStr) (Z.lnot 1))) hashStr in
    match DecodeString evenHex with
    | None => Ok []
    | Some hexb =>
      let* candidates := expandPartialHash fast iter hexb in
      if len evenHex =? len hashStr then Ok candidates
      else Ok (List.filter (fun h => HasPrefix (ObjectID_String h) hashStr) candidates)
    end.

Section Resolve.
Context (encodedObject : ObjectType -> ObjectID -> res EncodedObj).
Context {S : Type} `{ReferenceStorer S} (refs : S).
Context (fast : option (bytes -> res (list ObjectID))) (iter : res (list ObjectID)).
Context (IsSpace IsControl IsLetter IsNumber : Z -> bool) (compileError : bytes -> option bytes) (parseTime : bytes -> option Z).
Variable MatchString : bytes -> bytes -> bool.

(** The first of the hashes that is a commit or a tag of one. *)
Fixpoint tryHashes (hashes : list ObjectID) : res Commit :=
  match hashes with
  | [] => Err ErrReferenceNotFound
  | h :: rest =>
    match GetCommit encodedObject h with
    | Ok c => Ok c
    | Err _ =>
      match GetTag encodedObject h with
      | Ok t => Tag_Commit encodedObject t
      | Err _ => tryHashes rest
      | Panic => Panic
      | NoFuel => NoFuel
      end
    | Panic => Panic
    | NoFuel => NoFuel
    end
  end.

Definition resolveRef (name : bytes) : res Commit :=
  let* hashes := resolveHashPrefix fast iter name in
  match expand_ref refs name with
  | Ok ref => tryHashes (hashes ++ [rhash ref])
  | Err _ => tryHashes hashes
  | Panic => Panic
  | NoFuel => NoFuel
  end.

(** [c, err := iter.Next()] *)
Definition nextParent (hashes : list ObjectID) : res (Commit * list ObjectID) :=
  let (r, rest) := lookup_Next encodedObject hashes in let* c := r in Ok (c, rest).

Definition caretPath (depth : Z) (commit : option Commit) : res (option Commit) :=
  if depth =? 0 then Ok commit
  else
    match commit with
    | None => Panic
    | Some commit =>
      let* (c, rest) := nextParent (cParentHashes commit) in
      if depth =? 1 then Ok (Some c)
      else let* (c, _) := nextParent rest in Ok (Some c)
    end.

Fixpoint tildePath (n : nat) (commit : option Commit) : res (option Commit) :=
  match n with
  | O => Ok commit
  | Datatypes.S n =>
    match commit with
    | None => Panic
    | Some commit => let* (c, _) := nextParent (cParentHashes commit) in tildePath n (Some c)
    end
  end.

(** The search through the history, which stops at the first message that matches. *)
Definition caretReg (walk : nat) (re : bytes) (negate : bool) (commit : option Commit) : res (option Commit) :=
  match commit with
  | None => Panic
  | Some commit =>
    let* (c, err) :=
      forEachCommit (fun (_ : option Commit) => pre_Next encodedObject ∅)
        (fun a hc =>
          if negb negate && MatchString re (cMessage hc) then (Some hc, Some ErrStop)
          else if negate && negb (MatchString re (cMessage hc)) then (Some hc, Some ErrStop)
          else (a, None)) walk None (NewCommitPreorderIter commit []) in
    match err with
    | Some e => Err e
    | None => match c with None => Err (ErrNoCommitMatch re) | Some c => Ok (Some c) end
    end
  end.

Definition resolveItem (walk : nat) (commit : option Commit) (item : Revisioner) : res (option Commit) :=
  match item with
  | Ref name => let* c := resolveRef name in Ok (Some c)
  | CaretPath depth => caretPath depth commit
  | TildePath depth => tildePath (Z.to_nat depth) commit
  | CaretReg re negate => caretReg walk re negate commit
  | _ => Ok commit
  end.
Fixpoint resolveItems (walk : nat) (commit : option Commit) (items : list Revisioner) : res (option Commit) :=
  match items with
  | [] => Ok commit
  | item :: items => let* commit := resolveItem walk commit item in resolveItems walk commit items
  end.

(** [ResolveRevision]: the hash of the commit.  With an error the hash is the zero one, or nil when the revision is not parsed. *)
Definition ResolveRevision (walk : nat) (rev : bytes) : res ObjectID :=
  if bool_decide (rev = []) then Err ErrReferenceNotFound
  else
    let* items := Parse IsSpace IsControl IsLetter IsNumber compileError parseTime rev in
    let* commit := resolveItems walk None items in
    match commit with
    | None => Err ErrReferenceNotFound
    | Some c => Ok (cHash c)
    end.
End Resolve.
