(* ===== verification/ResolveProofs.v ===== *)
(** * repository.go: resolving a revision

    No nil commit is dereferenced, because of what [validateFullRevision] refuses; a name with suffixes resolves to the commit
    the suffixes lead to; a prefix of a hash stands for the objects whose text begins with it. *)
From S2P Require Import Prelude GoStrings Strconv ObjectID Reference Storer Memory Objects ObjectsProofs Trees TreesProofs History HistoryWalks HistoryProofs Revision RevisionProofs RevisionRoundtrip Resolve.

(** ** No panic *)
Lemma bind_nopanic {A B} (m : res A) (k : A -> res B) : m <> Panic -> (forall a, m = Ok a -> k a <> Panic) -> res_bind m k <> Panic.
Proof. destruct m; cbn; auto; congruence. Qed.

Section Safe.
Context (encodedObject : ObjectType -> ObjectID -> res EncodedObj).
Context {S : Type} `{ReferenceStorer S} (refs : S).
Context (fast : option (bytes -> res (list ObjectID))) (iter : res (list ObjectID)) (MatchString : bytes -> bytes -> bool).
Hypothesis Hcommit : forall h, GetCommit encodedObject h <> Panic.
Hypothesis Htag : forall h, GetTag encodedObject h <> Panic.
Hypothesis Hrefs : forall n, Reference_ refs n <> Panic.
Hypothesis Hfast : forall f p, fast = Some f -> f p <> Panic.
Hypothesis Hiter : iter <> Panic.

Lemma expand_ref_nopanic name : expand_ref refs name <> Panic.
Proof.
  unfold expand_ref.
  assert (forall n, ResolveReference refs n <> Panic) as Hr.
  { intros n. unfold ResolveReference. apply bind_nopanic; [done|]. intros r _.
    generalize (Z.to_nat (MaxResolveRecursion + 2) + 1)%nat 0. intros fuel. revert r.
    induction fuel as [|fuel IH]; intros r k; cbn [resolveReference]; [done|]. repeat case_match; try done.
    apply bind_nopanic; [done|]. intros t _. apply IH. }
  enough (forall rules ret, rules <> [] \/ ret <> None -> expand_loop refs name rules ret <> Panic) as He by (apply He; by left).
  intros rules. induction rules as [|[a b] rules IH]; intros ret Hne; cbn [expand_loop].
  - destruct Hne as [?|Hn]; [done|]. by destruct ret.
  - specialize (Hr (a ++ name ++ b)). destruct (ResolveReference refs (a ++ name ++ b)); try done. apply IH. right. by destruct ret.
Qed.

Lemma tryHashes_nopanic hashes : tryHashes encodedObject hashes <> Panic.
Proof.
  induction hashes as [|h hashes IH]; cbn [tryHashes]; [done|]. specialize (Hcommit h) as Hc. specialize (Htag h) as Ht.
  destruct (GetCommit encodedObject h); try done. destruct (GetTag encodedObject h) as [t| | |]; try done.
  unfold Tag_Commit. destruct (negb _); [done|]. apply (Hcommit (gTarget t)).
Qed.

Lemma resolveHashPrefix_nopanic s : resolveHashPrefix fast iter s <> Panic.
Proof.
  unfold resolveHashPrefix. case_bool_decide; [done|]. destruct (_ =? _); [by destruct (FromHex s)|].
  destruct (DecodeString _) as [p|]; [|done]. apply bind_nopanic; [|intros l _; by destruct (_ =? _)].
  unfold expandPartialHash. destruct fast as [f|]; [specialize (Hfast f p eq_refl); by destruct (f p)|by destruct iter].
Qed.

Lemma resolveRef_nopanic name : resolveRef encodedObject refs fast iter name <> Panic.
Proof.
  unfold resolveRef. apply bind_nopanic; [apply resolveHashPrefix_nopanic|]. intros hashes _. pose proof (expand_ref_nopanic name) as He. destruct (expand_ref refs name); try done; apply tryHashes_nopanic.
Qed.

Lemma lookup_Next_nopanic hashes : fst (lookup_Next encodedObject hashes) <> Panic.
Proof.
  destruct hashes as [|h rest]; cbn; [done|]. specialize (Hcommit h). unfold GetCommit in Hcommit.
  destruct (encodedObject CommitObject h); cbn in *; done.
Qed.

Lemma nextParent_nopanic hashes : nextParent encodedObject hashes <> Panic.
Proof.
  unfold nextParent. pose proof (lookup_Next_nopanic hashes) as H1. destruct (lookup_Next encodedObject hashes) as [r rest].
  apply bind_nopanic; [done|]. done.
Qed.

Lemma pre_loop_nopanic fuel ext : forall w, fst (pre_loop encodedObject fuel ext w) <> Panic.
Proof.
  induction fuel as [|fuel IH]; intros w; cbn [pre_loop]; [done|]. destruct (pStart w).
  - destruct (pre_visit _ _ _ _); [done|]. apply IH.
  - destruct (pStack w) as [|top rest]; [done|]. pose proof (lookup_Next_nopanic top) as Hl.
    destruct (lookup_Next encodedObject top) as [[c|e| |] top']; try done; [destruct (pre_visit _ _ _ _)|case_bool_decide]; done || apply IH.
Qed.

Lemma forEach_nopanic {St A} (next : A -> St -> res Commit * St) cb fuel : (forall a s, fst (next a s) <> Panic) ->
  forall a s, forEachCommit next cb fuel a s <> Panic.
Proof.
  intros Hn. induction fuel as [|fuel IH]; intros a s; cbn [forEachCommit]; [done|]. specialize (Hn a s) as Hp.
  destruct (next a s) as [[c|e| |] s']; try done. destruct (cb a c) as [a' [e|]]; done || apply IH.
Qed.

(** An item that needs a commit is given one. *)
Definition needs_commit (item : Revisioner) : bool := match item with TildePath _ | CaretPath _ | CaretReg _ _ => true | _ => false end.

Lemma resolveItem_nopanic walk commit item : (needs_commit item = true -> commit <> None) ->
  resolveItem encodedObject refs fast iter MatchString walk commit item <> Panic.
Proof.
  intros Hn. destruct item as [name|n|n|re negate| | | | | | | | |]; cbn [resolveItem]; try done.
  - apply bind_nopanic; [apply resolveRef_nopanic|done].
  - destruct commit as [c|]; [|by destruct (Hn eq_refl)]. clear Hn. revert c. induction (Z.to_nat n) as [|k IH]; intros c; cbn [tildePath]; [done|].
    apply bind_nopanic; [apply nextParent_nopanic|]. intros [c' rest] _. apply IH.
  - destruct commit as [c|]; [|by destruct (Hn eq_refl)]. unfold caretPath. destruct (n =? 0); [done|].
    apply bind_nopanic; [apply nextParent_nopanic|]. intros [c' rest] _. destruct (n =? 1); [done|].
    apply bind_nopanic; [apply nextParent_nopanic|]. by intros [c'' ?] _.
  - destruct commit as [c|]; [|by destruct (Hn eq_refl)]. unfold caretReg. apply bind_nopanic.
    + apply forEach_nopanic. intros a s. apply pre_loop_nopanic.
    + intros [a err] _. destruct err, a; done.
Qed.

Lemma resolveItem_some walk commit item commit' : resolveItem encodedObject refs fast iter MatchString walk commit item = Ok commit' ->
  (exists name, item = Ref name) \/ commit <> None -> commit' <> None.
Proof.
  destruct item as [name|n|n|re negate| | | | | | | | |]; cbn [resolveItem]; intros E Hc; try (injection E as <-; destruct Hc as [[? ?]|?]; done).
  - inv_bind E. by injection E as <-.
  - destruct Hc as [[? ?]|Hc]; [done|]. revert commit E Hc. induction (Z.to_nat n) as [|k IH]; intros commit E Hc; cbn [tildePath] in E; [by injection E as <-|].
    destruct commit as [c|]; [|done]. inv_bind E. destruct v as [c' rest]. by apply IH in E.
  - destruct Hc as [[? ?]|Hc]; [done|]. unfold caretPath in E. destruct (n =? 0); [by injection E as <-|]. destruct commit as [c|]; [|done].
    inv_bind E. destruct v as [c' rest]. destruct (n =? 1); [by injection E as <-|]. inv_bind E. destruct v as [c'' ?]. by injection E as <-.
  - unfold caretReg in E. destruct commit; [|done]. inv_bind E. destruct v as [[a|] [e|]]; try done. by injection E as <-.
Qed.

Lemma validate_cons n i has c rest : validate n i has (c :: rest) = None ->
  match c with
  | Ref _ => i = 0 /\ validate n (i + 1) true rest = None
  | AtDate _ | AtReflog _ | AtUpstream _ | AtPush _ => n = 1 \/ has = true /\ n = 2
  | AtCheckout _ | ColonReg _ _ | ColonStagePath _ _ => n = 1
  | TildePath _ | CaretPath _ | CaretReg _ _ => has = true /\ validate n (i + 1) has rest = None
  | CaretType _ => validate n (i + 1) has rest = None
  | ColonPath _ => n = 1 \/ has = true /\ i = n - 1
  end.
Proof.
  destruct c; cbn [validate].
  all: try (destruct (Z.eqb_spec i 0)); try (destruct (Z.eqb_spec n 1)); try (destruct (Z.eqb_spec n 2)); try (destruct (Z.eqb_spec i (n - 1))); destruct has; cbn [andb orb].
  all: intros V; try discriminate V; auto.
Qed.

(** What [validateFullRevision] accepts has a reference before any suffix that needs a commit. *)
Lemma validated_nopanic walk n items : forall i has commit, validate n i has items = None -> n = i + len items -> (has = true -> 1 <= i) -> 0 <= i ->
  (has = true -> commit <> None) -> resolveItems encodedObject refs fast iter MatchString walk commit items <> Panic.
Proof.
  induction items as [|item items IH]; intros i has commit V Hn Hi Hi0 Hc; cbn [resolveItems]; [done|]. rewrite len_cons in Hn.
  pose proof (validate_cons _ _ _ _ _ V) as Hv. pose proof (len_nonneg items).
  assert (items = [] \/ 0 < len items) as Hitems by (destruct items; [by left|right; len_lia]).
  assert ((needs_commit item = true -> has = true) /\
    (items = [] \/ (exists has', validate n (i + 1) has' items = None /\ (has' = true -> has = true \/ exists name, item = Ref name)))) as [Hneed Hrest].
  { clear V IH. destruct item; cbn [needs_commit] in *; (split; [by intuition|]); destruct Hitems as [?|?]; auto; try (exfalso; destruct Hv as [?|[? ?]]; intuition lia); try (exfalso; lia).
    all: right; destruct_and?; eexists; split; [by eauto|]; eauto. }
  apply bind_nopanic; [apply resolveItem_nopanic; auto|]. intros commit' E.
  destruct Hrest as [->|(has' & V' & Hh)]; [done|]. apply (IH (i + 1) has'); try done; [lia|intros; lia|lia|].
  intros Hh'. apply (resolveItem_some _ _ _ _ E). destruct (Hh Hh') as [?|?]; auto.
Qed.
End Safe.

(** C19: to resolve a revision never panics, whatever its bytes and its objects, on storers that do not panic themselves and where no
    header line of a tag is a keyword alone (there the code does panic): a nil commit is never dereferenced, since what the
    parser accepts has a reference before any suffix, every commit is read, and a reference is found or not. *)
Theorem resolve_safe encodedObject {S} `{ReferenceStorerLaws S} (refs : S) fast iter IsSpace IsControl IsLetter IsNumber compileError parseTime MatchString walk rev :
  refs_inv refs -> (forall t h, encodedObject t h <> Panic) -> (forall f p, fast = Some f -> f p <> Panic) -> iter <> Panic ->
  (forall h o, encodedObject TagObject h = Ok o -> oType o = TagObject -> tag_headers_ok (oContent o)) ->
  ResolveRevision encodedObject refs fast iter IsSpace IsControl IsLetter IsNumber compileError parseTime MatchString walk rev <> Panic.
Proof.
  intros Hr Ho Hf Hi Ht. unfold ResolveRevision. case_bool_decide; [done|].
  destruct (Parse_validated IsSpace IsControl IsLetter IsNumber compileError parseTime rev) as [(items & -> & V)|(msg & ->)]; [|done].
  cbn [res_bind]. apply bind_nopanic; [|intros [c|] _; done].
  apply (validated_nopanic encodedObject refs fast iter MatchString) with (n := len items) (i := 0) (has := false); try done || lia.
  - intros h. unfold GetCommit. apply bind_nopanic; [done|]. intros o _. apply DecodeCommit_nopanic.
  - intros h. unfold GetTag. apply bind_nopanic; [done|]. intros o Eo. apply DecodeTag_nopanic. eauto.
  - intros n. rewrite (refs_get refs n Hr). by destruct (refs_view refs !! n).
Qed.

(** ** Suffixes *)
Section Follow.
Context (encodedObject : ObjectType -> ObjectID -> res EncodedObj).

(** The commit at a parent's place. *)
Definition parent_at (k : nat) (c : Commit) : res Commit :=
  match cParentHashes c !! k with Some h => GetCommit encodedObject h | None => Err EOF end.
Fixpoint first_parents (n : nat) (c : Commit) : res Commit :=
  match n with O => Ok c | S n => let* c := parent_at 0 c in first_parents n c end.

(** Where a suffix leads, and several of them. *)
Definition follow1 (c : Commit) (rev : Revisioner) : res Commit :=
  match rev with
  | TildePath n => first_parents (Z.to_nat n) c
  | CaretPath n => if n =? 0 then Ok c else parent_at (Z.to_nat (n - 1)) c
  | _ => Ok c
  end.
Definition follow (c : Commit) (sfx : list Revisioner) : res Commit := foldl (fun m rev => let* c := m in follow1 c rev) (Ok c) sfx.

Context (U : gset ObjectID) (HU : complete_history encodedObject U).
Notation known := (known encodedObject U).

Lemma parent_at_known k c c' : known c -> parent_at k c = Ok c' -> known c'.
Proof.
  intros Hk. unfold parent_at. destruct (cParentHashes c !! k) as [h|] eqn:E; [|done]. intros E'.
  assert (h ∈ U) as Hh. { pose proof (known_parents _ _ HU c Hk) as Hp. rewrite Forall_forall in Hp. apply Hp. by apply list_elem_of_lookup_2 in E. }
  destruct (known_get _ _ HU h Hh) as (c2 & _ & _ & _ & E2 & _ & K). congruence.
Qed.

Lemma nextParent_at c k rest : known c -> drop k (cParentHashes c) = rest ->
  nextParent encodedObject rest = match cParentHashes c !! k with Some h => let* c' := GetCommit encodedObject h in Ok (c', drop (S k) (cParentHashes c)) | None => Err EOF end.
Proof.
  intros Hk <-. unfold nextParent. destruct (cParentHashes c !! k) as [h|] eqn:E.
  - rewrite (drop_S _ _ _ E). cbn [lookup_Next]. assert (h ∈ U) as Hh.
    { pose proof (known_parents _ _ HU c Hk) as Hp. rewrite Forall_forall in Hp. apply Hp. by apply list_elem_of_lookup_2 in E. }
    destruct (known_get _ _ HU h Hh) as (c2 & o & -> & Ed & -> & _). by rewrite Ed.
  - by rewrite drop_ge by by apply lookup_ge_None.
Qed.

Lemma tildePath_ok n c : known c -> tildePath encodedObject n (Some c) = let* c := first_parents n c in Ok (Some c).
Proof.
  revert c. induction n as [|n IH]; intros c Hk; cbn [tildePath first_parents]; [done|].
  rewrite (nextParent_at c 0) by done. pose proof (parent_at_known 0 c) as Hp. unfold parent_at in *.
  destruct (cParentHashes c !! 0%nat); [|done]. destruct (GetCommit encodedObject o); try done. cbn [res_bind]. apply IH. by apply Hp.
Qed.

Lemma caretPath_ok n c : 0 <= n <= 2 -> known c -> caretPath encodedObject n (Some c) = let* c := follow1 c (CaretPath n) in Ok (Some c).
Proof.
  intros Hn Hk. unfold caretPath. cbn [follow1]. assert (n = 0 \/ n = 1 \/ n = 2) as [E|[E|E]] by lia; subst n; [done| |]; cbn [Z.eqb].
  - rewrite (nextParent_at c 0) by done. change (Z.to_nat (1 - 1)) with 0%nat. unfold parent_at.
    destruct (cParentHashes c !! 0%nat); [|done]. by destruct (GetCommit encodedObject o).
  - rewrite (nextParent_at c 0) by done. change (Z.to_nat (2 - 1)) with 1%nat. change (2 =? 1) with false. unfold parent_at.
    destruct (cParentHashes c !! 0%nat) as [h|] eqn:E.
    + assert (h ∈ U) as Hh. { pose proof (known_parents _ _ HU c Hk) as Hp. rewrite Forall_forall in Hp. apply Hp. by apply list_elem_of_lookup_2 in E. }
      destruct (known_get _ _ HU h Hh) as (c2 & _ & _ & _ & -> & _). cbn [res_bind].
      rewrite (nextParent_at c 1) by done.
      destruct (cParentHashes c !! 1%nat); [|done]. by destruct (GetCommit encodedObject o).
    + apply lookup_ge_None in E. rewrite (lookup_ge_None_2 _ 1) by lia. done.
Qed.

Lemma follow_cons c rev sfx : follow c (rev :: sfx) = let* c := follow1 c rev in follow c sfx.
Proof.
  unfold follow. cbn [foldl res_bind]. destruct (follow1 c rev) as [c'|e| |]; cbn [res_bind]; [done|..].
  all: clear; induction sfx as [|r sfx IH]; [done|apply IH].
Qed.

Lemma follow1_known c rev c' : suffix_ok rev -> known c -> follow1 c rev = Ok c' -> known c'.
Proof.
  intros Ho Hk. destruct rev as [|n|n| |t| | | | | | | |]; try done; cbn [follow1].
  - clear Ho. revert c Hk. induction (Z.to_nat n) as [|m IH]; intros c Hk E; cbn [first_parents] in E; [by injection E as <-|].
    inv_bind E. apply (IH v); [|done]. by eapply parent_at_known.
  - destruct (n =? 0); [by intros [= <-]|]. by apply parent_at_known.
  - by intros [= <-].
Qed.

Lemma resolve_follow {S} `{ReferenceStorer S} (refs : S) fast iter MatchString walk sfx path : forall c, Forall suffix_ok sfx -> known c ->
  resolveItems encodedObject refs fast iter MatchString walk (Some c) (sfx ++ path_part path) = let* c := follow c sfx in Ok (Some c).
Proof.
  induction sfx as [|rev sfx IH]; intros c Hs Hk; [by destruct path|]. apply Forall_cons_1 in Hs as [Hr Hs].
  rewrite follow_cons. cbn [app resolveItems].
  assert (resolveItem encodedObject refs fast iter MatchString walk (Some c) rev = let* c := follow1 c rev in Ok (Some c)) as ->.
  { destruct rev; try done; cbn [resolveItem follow1]; [by apply tildePath_ok|by apply caretPath_ok]. }
  pose proof (follow1_known c rev) as Hf. destruct (follow1 c rev) as [c'|e| |]; try done. cbn [res_bind]. apply IH; auto.
Qed.
End Follow.

(** C6: a name of ASCII that is valid under refs/remotes and has no at sign, with suffixes ~n, ^n for n up to two (the parser
    refuses more) and ^{type}, and with or without a path of ASCII that begins with neither a slash nor a digit, resolves, in a complete
    history, to the commit the suffixes lead to from the commit of the name: ~n to the n-th first parent, ^n to the n-th
    parent, and a type or a path to the commit itself; with an end of file where there is no such parent. *)
Theorem resolve_suffixes encodedObject {S} `{ReferenceStorer S} (refs : S) fast iter IsSpace IsControl IsLetter IsNumber compileError parseTime MatchString walk
    U name sfx path :
  ascii_tables IsSpace IsControl IsLetter IsNumber ->
  name <> [] -> Forall ascii name -> Validate (bs "refs/remotes/" ++ name) = None -> x40 ∉ name ->
  Forall suffix_ok sfx -> match path with Some p => path_ok p | None => True end -> len (name ++ render_all sfx path) <= maxRevisionLength ->
  complete_history encodedObject U -> (forall c, resolveRef encodedObject refs fast iter name = Ok c -> known encodedObject U c) ->
  ResolveRevision encodedObject refs fast iter IsSpace IsControl IsLetter IsNumber compileError parseTime MatchString walk (name ++ render_all sfx path) =
  let* c := resolveRef encodedObject refs fast iter name in
  let* c := follow encodedObject c sfx in Ok (cHash c).
Proof.
  intros Ht Hn Ha Hv Hat Hs Hp Hl HU Hk. unfold ResolveRevision. rewrite bool_decide_eq_false_2 by by destruct name.
  rewrite parse_rendered by done. cbn [res_bind resolveItems resolveItem].
  destruct (resolveRef encodedObject refs fast iter name) as [c| | |]; try done. cbn [res_bind].
  rewrite (resolve_follow encodedObject U HU) by auto. by destruct (follow encodedObject c sfx).
Qed.

(** ** An instance: the branch main at the merge of the sample history *)
Definition sample_refs : refmap := {[bs "refs/heads/main" := NewHashReference (bs "refs/heads/main") (id_of 4)]}.
Definition sample_resolve (rev : bytes) : res ObjectID :=
  ResolveRevision (graph_store sample_graph) sample_refs None (Ok []) ascii_space ascii_control ascii_letter ascii_number (fun _ => None) (fun _ => None)
    (fun _ _ => true) 10 rev.

Lemma resolve_suffixes_witness : sample_resolve (bs "main^2~1^{commit}") = Ok (id_of 1).
Proof.
  assert (resolveRef (graph_store sample_graph) sample_refs None (Ok []) (bs "main") = Ok c4) as E by (vm_compute; reflexivity).
  change (bs "main^2~1^{commit}") with (bs "main" ++ render_all [CaretPath 2; TildePath 1; CaretType (bs "commit")] None).
  unfold sample_resolve.
  rewrite (resolve_suffixes (graph_store sample_graph) sample_refs None (Ok []) ascii_space ascii_control ascii_letter ascii_number (fun _ => None) (fun _ => None)
    (fun _ _ => true) 10 sample_U (bs "main") [CaretPath 2; TildePath 1; CaretType (bs "commit")] None).
  - rewrite E. vm_compute. reflexivity.
  - by split.
  - done.
  - by repeat constructor.
  - by_decision.
  - by_decision.
  - repeat constructor; cbn; lia || by_decision.
  - exact I.
  - by_decision.
  - exact sample_complete_history.
  - intros c Ec. rewrite E in Ec. apply Ok_inj in Ec as <-. apply sample_known; apply (bool_decide_unpack _); vm_compute; exact I.
Defined.

(** The sample commits with an annotated tag of one, whose message is a keyword. *)
Definition tagged_store (t : ObjectType) (h : ObjectID) : res EncodedObj :=
  if bool_decide (h = id_of 7) then
    if t =? TagObject then Ok (mkEncoded TagObject h (bs "object " ++ ObjectID_String (id_of 4) ++ [x0a] ++ bs "type commit" ++ [x0a] ++ bs "tag v1" ++ [x0a; x0a] ++ bs "tag"))
    else Err ErrObjectNotFound
  else graph_store sample_graph t h.
Definition tagged_refs : refmap := {[bs "refs/tags/v1" := NewHashReference (bs "refs/tags/v1") (id_of 7)]}.
Definition tagged_resolve (rev : bytes) : res ObjectID :=
  ResolveRevision tagged_store tagged_refs None (Ok []) ascii_space ascii_control ascii_letter ascii_number (fun _ => None) (fun _ => None)
    (fun _ _ => true) 10 rev.

Lemma graph_store_safe t h : graph_store sample_graph t h <> Panic.
Proof. unfold graph_store. by repeat case_match. Qed.
Lemma graph_store_tags h o : graph_store sample_graph TagObject h = Ok o -> oType o = TagObject -> tag_headers_ok (oContent o).
Proof. unfold graph_store. repeat case_match; [|done]. by intros E; apply Ok_inj in E as <-. Qed.

Lemma resolve_safe_witness : tagged_resolve (bs "v1~1") <> Panic /\ tagged_resolve (bs "^{tree}~1") <> Panic /\ tagged_resolve (bs "v1") = Ok (id_of 4).
Proof.
  assert (forall rev, tagged_resolve rev <> Panic) as H; [intros rev; apply (resolve_safe tagged_store tagged_refs None (Ok []))|by split_and!; [..|vm_compute; reflexivity]].
  - by_decision.
  - intros t h. unfold tagged_store. repeat case_match; try done. apply graph_store_safe.
  - done.
  - done.
  - intros h o. unfold tagged_store. case_bool_decide; [|apply graph_store_tags]. intros E. apply Ok_inj in E as <-. intros _. unfold tag_headers_ok. by_decision.
Defined.

(** ** Prefixes of hashes *)

(** A hexadecimal digit in lower case; other characters as they are. *)
Definition hexLower (b : byte) : byte := if (65 <=? b2z b) && (b2z b <=? 70) then z2b (b2z b + 32) else b.

Lemma hexDigit_value p a : hexValue p = Some a -> hexDigit a = hexLower p /\ 0 <= a < 16.
Proof. destruct p; cbn; intros E; try discriminate E; injection E as <-; split; reflexivity || lia. Qed.
Lemma hexLower_none b : hexValue b = None -> hexLower b = b.
Proof. by destruct b. Qed.
Lemma hexLower_digit a : 0 <= a < 16 -> hexLower (hexDigit a) = hexDigit a.
Proof. intros Ha. by destruct (hexDigit_value (hexDigit a) a (hexValue_digit a Ha)) as [<- _]. Qed.
Lemma hexDigit_hex a : 0 <= a < 16 -> hexValue (hexDigit a) <> None.
Proof. intros H. by rewrite hexValue_digit. Qed.

Lemma nibbles_join a b : 0 <= a < 16 -> 0 <= b < 16 ->
  Z.shiftr (b2z (z2b (Z.lor (Z.shiftl a 4) b))) 4 = a /\ Z.land (b2z (z2b (Z.lor (Z.shiftl a 4) b))) 0xf = b.
Proof.
  intros Ha Hb. rewrite Z.lor_comm, lor_shiftl_add by lia. change (2 ^ 4) with 16. rewrite z2b_small by lia.
  rewrite Z.shiftr_div_pow2 by lia. change 0xf with (Z.ones 4). rewrite Z.land_ones by lia. change (2 ^ 4) with 16.
  split; symmetry; [apply (Z.div_unique _ _ _ b)|apply (Z.mod_unique _ _ a)]; lia.
Qed.

(** The text of the bytes a text stands for is that text in lower case. *)
Lemma DecodeString_inv n : forall s r, (length s <= n)%nat -> DecodeString s = Some r -> EncodeToString r = map hexLower s.
Proof.
  induction n as [|n IH]; intros s r Hn E; (destruct s as [|p [|q s]]; [by injection E as <-|discriminate E|]); [cbn in Hn; lia|].
  cbn [DecodeString] in E. destruct (hexValue p) as [a|] eqn:Ea; [|done]. destruct (hexValue q) as [b|] eqn:Eb; [|done].
  destruct (DecodeString s) as [r'|] eqn:Er; [|done]. injection E as <-.
  apply hexDigit_value in Ea as [Ea Ra]. apply hexDigit_value in Eb as [Eb Rb].
  change (EncodeToString (z2b (Z.lor (Z.shiftl a 4) b) :: r')) with
    (hexDigit (Z.shiftr (b2z (z2b (Z.lor (Z.shiftl a 4) b))) 4) :: hexDigit (Z.land (b2z (z2b (Z.lor (Z.shiftl a 4) b))) 0xf) :: EncodeToString r').
  destruct (nibbles_join a b Ra Rb) as [-> ->]. rewrite Ea, Eb, (IH s r'); [done|cbn in Hn; lia|done].
Qed.

(** Text that is no hexadecimal begins no hash. *)
Lemma DecodeString_none n : forall s, (length s <= n)%nat -> Z.even (len s) = true -> DecodeString s = None -> exists b, b ∈ s /\ hexValue b = None.
Proof.
  induction n as [|n IH]; intros s Hn He E; (destruct s as [|p [|q s]]; [discriminate E|discriminate He|]); [cbn in Hn; lia|].
  cbn [DecodeString] in E. destruct (hexValue p) eqn:Ea; [|exists p; set_solver]. destruct (hexValue q) eqn:Eb; [|exists q; set_solver].
  destruct (DecodeString s) eqn:Er; [discriminate E|]. destruct (IH s) as (b & Hb & Eb'); [cbn in Hn; lia| |done|exists b; set_solver].
  rewrite !len_cons in He. rewrite Z.add_assoc, Z.even_add in He. by destruct (Z.even (len s)).
Qed.
Lemma prefix_hex x : Forall (fun b => hexValue b <> None) (EncodeToString x).
Proof.
  induction x as [|b x IH]; [done|]. cbn [EncodeToString flat_map app]. destruct (nibbles b) as (H1 & H2 & _).
  repeat (apply Forall_cons; split; [by apply hexDigit_hex|]). exact IH.
Qed.
Lemma encode_lower x : map hexLower (EncodeToString x) = EncodeToString x.
Proof.
  induction x as [|b x IH]; [done|]. cbn [EncodeToString flat_map app map]. destruct (nibbles b) as (H1 & H2 & _).
  rewrite !hexLower_digit by done. by do 2 f_equal.
Qed.

Lemma HasPrefix_encode x p : HasPrefix (EncodeToString x) (EncodeToString p) = HasPrefix x p.
Proof.
  apply eq_true_iff_eq. rewrite !HasPrefix_true. split; intros [r E].
  - revert x E. induction p as [|b p IH]; intros x E; [by exists x|]. destruct x as [|c x]; [discriminate E|].
    pose proof (f_equal (fun l => match l with u :: v :: _ => (hexValue u, hexValue v) | _ => (None, None) end) E) as E1.
    cbn [EncodeToString flat_map app] in E1. destruct (nibbles b) as (B1 & B2 & B3), (nibbles c) as (C1 & C2 & C3).
    rewrite !hexValue_digit in E1 by done. injection E1 as Ha Hb. assert (c = b) as -> by (apply b2z_inj; congruence).
    injection E as E. destruct (IH x E) as [r' ->]. by exists r'.
  - subst x. unfold EncodeToString. rewrite flat_map_app. eauto.
Qed.

(** The even part of a text *)
Lemma even_part (s : bytes) : let even := take (Z.to_nat (Z.land (len s) (Z.lnot 1))) s in
  Z.even (len even) = true /\ (len even = len s /\ even = s \/ len even <> len s /\ exists b, s = even ++ [b]).
Proof.
  assert (Z.land (len s) (Z.lnot 1) = len s - len s mod 2) as ->.
  { rewrite <- Z.ldiff_land. change 1 with (Z.ones 1). rewrite Z.ldiff_ones_r, Z.shiftl_mul_pow2, Z.shiftr_div_pow2 by lia.
    pose proof (Z.div_mod (len s) (2 ^ 1) ltac:(lia)). change (2 ^ 1) with 2 in *. lia. }
  cbv zeta. pose proof (Z.mod_pos_bound (len s) 2 ltac:(lia)) as Hm. pose proof (len_nonneg s) as Hs.
  pose proof (Zmod_even (len s)) as He. destruct (Z.even (len s)) eqn:Ev; rewrite He.
  - rewrite take_ge; [auto|]. unfold len. lia.
  - destruct s as [|b s _] using rev_ind; [discriminate Ev|]. assert (len (s ++ [b]) = len s + 1) as El by (rewrite len_app; reflexivity).
    rewrite El in *. assert (take (Z.to_nat (len s + 1 - 1)) (s ++ [b]) = s) as ->.
    { rewrite Z.add_simpl_r. unfold len. by rewrite Nat2Z.id, take_app_length. }
    split; [|right; split; [lia|by exists b]]. rewrite Z.even_add in Ev. by destruct (Z.even (len s)).
Qed.

(** What a storer answers: its own search gives the objects with a prefix in some order; or its iterator gives all. *)
Definition finds (fast : option (bytes -> res (list ObjectID))) (iter : res (list ObjectID)) (hs : list ObjectID) : Prop :=
  match fast with
  | Some f => forall p, exists l, f p = Ok l /\ l ≡ₚ List.filter (fun h => ObjectID_HasPrefix h p) hs
  | None => iter = Ok hs
  end.

Lemma expand_finds fast iter hs p : finds fast iter hs -> exists l, expandPartialHash fast iter p = Ok l /\ l ≡ₚ List.filter (fun h => ObjectID_HasPrefix h p) hs.
Proof. unfold finds, expandPartialHash. destruct fast as [f|]; [intros Hf; destruct (Hf p) as (l & -> & Hl); by exists l|intros ->; by eexists]. Qed.

(** The text a prefix is compared with: in lower case when it has an even length, as it is otherwise. *)
Definition compared (s : bytes) : bytes := if Z.even (len s) then map hexLower s else s.

(** Text that is not hexadecimal begins no hash. *)
Lemma not_hex_prefix h s b : b ∈ s -> hexValue b = None -> HasPrefix (ObjectID_String h) s = false.
Proof.
  intros Hb Eb. apply not_true_is_false. intros [r E]%HasPrefix_true. pose proof (prefix_hex (ObjectID_Bytes h)) as Hx. unfold ObjectID_String in E. rewrite E in Hx.
  apply Forall_app in Hx as [Hx _]. rewrite Forall_forall in Hx. by destruct (Hx b Hb).
Qed.

(** The whole hash a text of forty characters stands for. *)
Lemma FromHex_40 s : len s = 40 -> match FromHex s with
  | (h, true) => ObjectID_String h = map hexLower s /\ oformat h = SHA1
  | (_, false) => exists b, b ∈ s /\ hexValue b = None
  end.
Proof.
  intros Hl. unfold FromHex. rewrite Hl. change (40 =? SHA256HexSize) with false. cbv iota. destruct (DecodeString s) as [r|] eqn:E.
  - apply (DecodeString_inv (length s)) in E; [|done]. split; [|done]. rewrite <- E. unfold ObjectID_String. f_equal.
    assert (length r = 20%nat) as Hr by (apply (f_equal len) in E; rewrite EncodeToString_len in E; unfold len in *; rewrite length_map in E; lia).
    unfold ObjectID_Write, ObjectID_Bytes. cbn [hash ZeroHash oformat]. rewrite copyBytes_prefix by (rewrite Hr; vm_compute; lia). rewrite Hr.
    unfold seg. rewrite drop_0. change (Z.to_nat _) with 20%nat. rewrite <- Hr. apply take_app_length.
  - apply (DecodeString_none (length s)); [done| |done]. by rewrite Hl.
Qed.

(** The second test loses nothing of the first. *)
Lemma odd_filter (l hs : list ObjectID) p s : l ≡ₚ List.filter (fun h => ObjectID_HasPrefix h p) hs ->
  (forall h, HasPrefix (ObjectID_String h) s = true -> ObjectID_HasPrefix h p = true) ->
  List.filter (fun h => HasPrefix (ObjectID_String h) s) l ≡ₚ List.filter (fun h => HasPrefix (ObjectID_String h) s) hs.
Proof.
  intros Hl Hm.
  assert (forall (l l' : list ObjectID), l ≡ₚ l' -> List.filter (fun h => HasPrefix (ObjectID_String h) s) l ≡ₚ List.filter (fun h => HasPrefix (ObjectID_String h) s) l') as Hpf.
  { clear. induction 1; cbn [List.filter]; repeat case_match; try done; by econstructor || etrans. }
  rewrite (Hpf _ _ Hl). clear -Hm. induction hs as [|h hs IH]; cbn [List.filter]; [done|]. specialize (Hm h).
  destruct (ObjectID_HasPrefix h p); cbn [List.filter]; destruct (HasPrefix (ObjectID_String h) s); try done; [by rewrite IH|by discriminate Hm].
Qed.

(** C20: [resolveHashPrefix] on a storer of either kind, one with a search of its own and one that is iterated.  No text, no hash; a
    text of forty characters stands for the hash it writes, whether or not there is such an object, and for none when
    it is not hexadecimal; any other text for the objects whose hexadecimal text begins with it, where a text of even length
    may be in upper case and one of odd length may not. *)
Theorem hash_prefix_spec fast iter (hs : list ObjectID) (s : bytes) : finds fast iter hs ->
  exists l, resolveHashPrefix fast iter s = Ok l /\
    if bool_decide (s = []) then l = []
    else if len s =? 40 then
      (exists h, l = [h] /\ ObjectID_String h = map hexLower s /\ oformat h = SHA1) \/ (l = [] /\ exists b, b ∈ s /\ hexValue b = None)
    else l ≡ₚ List.filter (fun h => HasPrefix (ObjectID_String h) (compared s)) hs.
Proof.
  intros Hf. unfold resolveHashPrefix. case_bool_decide as Hs; [by eexists|]. change (ObjectID_HexSize ZeroHash) with 40. destruct (Z.eqb_spec (len s) 40) as [H40|_].
  { pose proof (FromHex_40 s H40) as H. destruct (FromHex s) as [h []]; eexists; (split; [reflexivity|]); [left; by exists h|by right]. }
  destruct (even_part s) as [Hev Heq]. set (even := take _ s) in *. clearbody even. unfold compared. destruct (DecodeString even) as [hexb|] eqn:Ed.
  - apply (DecodeString_inv (length even)) in Ed; [|done]. destruct (expand_finds fast iter hs hexb Hf) as (l & -> & Hl). cbn [res_bind].
    assert (forall h, ObjectID_HasPrefix h hexb = HasPrefix (ObjectID_String h) (map hexLower even)) as Hp.
    { intros h. unfold ObjectID_HasPrefix, ObjectID_String. by rewrite <- Ed, HasPrefix_encode. }
    destruct Heq as [[El Eq]|(El & b & Eb)].
    + rewrite El, Z.eqb_refl, <- Eq, Hev. eexists. split; [done|]. rewrite Hl. by erewrite List.filter_ext by exact Hp.
    + rewrite (proj2 (Z.eqb_neq _ _) El). eexists. split; [done|]. rewrite (odd_filter l hs hexb s Hl).
      * assert (Z.even (len s) = false) as ->; [|done]. rewrite Eb, len_app, Z.even_add, Hev. done.
      * intros h Hh. rewrite Hp. apply HasPrefix_true in Hh as [r Er]. apply HasPrefix_true. exists (b :: r).
        rewrite Eb, <- app_assoc in Er. pose proof (encode_lower (ObjectID_Bytes h)) as Hlow. unfold ObjectID_String in *. rewrite Er, map_app in Hlow.
        apply app_inj_1 in Hlow as [-> _]; [done|by rewrite length_map].
  - eexists. split; [done|]. destruct (DecodeString_none (length even) even) as (b & Hb & Eb); [done..|].
    assert (b ∈ if Z.even (len s) then map hexLower s else s) as Hb'.
    { assert (b ∈ s) as Hbs by (destruct Heq as [[_ <-]|(_ & c & ->)]; [done|set_solver]). destruct (Z.even (len s)); [|done].
      rewrite <- (hexLower_none b Eb). by apply list_elem_of_fmap_2. }
    clear -Hb' Eb. induction hs as [|h hs IH]; cbn [List.filter]; [done|]. by rewrite (not_hex_prefix h _ b).
Qed.

Definition sample_hash : ObjectID := mkObjectID (xab :: xcd :: replicate 30 x00) SHA1.
Lemma hash_prefix_spec_witness : exists l, resolveHashPrefix None (Ok [sample_hash; ZeroHash]) (bs "ABcd") = Ok l /\ l ≡ₚ [sample_hash].
Proof.
  destruct (hash_prefix_spec None (Ok [sample_hash; ZeroHash]) [sample_hash; ZeroHash] (bs "ABcd")) as (l & E & Hl); [reflexivity|].
  exists l. split; [exact E|]. exact Hl.
Defined.

(** With upper-case digits a prefix of even length is found and one of odd length is not, since the odd digit is compared
    with the lower-case text. *)
Theorem odd_upper_prefix_lost :
  resolveHashPrefix None (Ok [sample_hash]) (bs "ABCD") = Ok [sample_hash] /\ resolveHashPrefix None (Ok [sample_hash]) (bs "ABC") = Ok [] /\
  resolveHashPrefix None (Ok [sample_hash]) (bs "abc") = Ok [sample_hash].
Proof. split_and!; by_decision. Qed.
