(* ===== verification/DeltaIndex.v ===== *)
(** * The delta index

    Model of [plumbing/format/packfile/delta_index.go]: the table of 16-byte
    source blocks that [diffDelta] consults.  Every slice access keeps Go's
    bounds check, so the theorems of this file include that no access panics. *)
From S2P Require Import Prelude.

Definition blksz : Z := 16.
Definition maxChainLength : Z := 64.

(** [deltaIndex] (delta_index.go:8) *)
Record deltaIndex := mkDeltaIndex { table : list Z; entries : list Z; mask : Z }.

(** [new(deltaIndex)] *)
Definition newDeltaIndex : deltaIndex := mkDeltaIndex [] [] 0.

(** [deltaIndexScanner] (delta_index.go:115) *)
Record deltaIndexScanner := mkScanner {
  sc_table : list Z; sc_entries : list Z; sc_next : list Z; sc_mask : Z; sc_count : Z }.

Definition T : list Z := [
   0x00000000; 0xd4c6b32d; 0x7d4bd577; 0xa98d665a; 0x2e5119c3; 0xfa97aaee;
   0x531accb4; 0x87dc7f99; 0x5ca23386; 0x886480ab; 0x21e9e6f1; 0xf52f55dc;
   0x72f32a45; 0xa6359968; 0x0fb8ff32; 0xdb7e4c1f; 0x6d82d421; 0xb944670c;
   0x10c90156; 0xc40fb27b; 0x43d3cde2; 0x97157ecf; 0x3e981895; 0xea5eabb8;
   0x3120e7a7; 0xe5e6548a; 0x4c6b32d0; 0x98ad81fd; 0x1f71fe64; 0xcbb74d49;
   0x623a2b13; 0xb6fc983e; 0x0fc31b6f; 0xdb05a842; 0x7288ce18; 0xa64e7d35;
   0x219202ac; 0xf554b181; 0x5cd9d7db; 0x881f64f6; 0x536128e9; 0x87a79bc4;
   0x2e2afd9e; 0xfaec4eb3; 0x7d30312a; 0xa9f68207; 0x007be45d; 0xd4bd5770;
   0x6241cf4e; 0xb6877c63; 0x1f0a1a39; 0xcbcca914; 0x4c10d68d; 0x98d665a0;
   0x315b03fa; 0xe59db0d7; 0x3ee3fcc8; 0xea254fe5; 0x43a829bf; 0x976e9a92;
   0x10b2e50b; 0xc4745626; 0x6df9307c; 0xb93f8351; 0x1f8636de; 0xcb4085f3;
   0x62cde3a9; 0xb60b5084; 0x31d72f1d; 0xe5119c30; 0x4c9cfa6a; 0x985a4947;
   0x43240558; 0x97e2b675; 0x3e6fd02f; 0xeaa96302; 0x6d751c9b; 0xb9b3afb6;
   0x103ec9ec; 0xc4f87ac1; 0x7204e2ff; 0xa6c251d2; 0x0f4f3788; 0xdb8984a5;
   0x5c55fb3c; 0x88934811; 0x211e2e4b; 0xf5d89d66; 0x2ea6d179; 0xfa606254;
   0x53ed040e; 0x872bb723; 0x00f7c8ba; 0xd4317b97; 0x7dbc1dcd; 0xa97aaee0;
   0x10452db1; 0xc4839e9c; 0x6d0ef8c6; 0xb9c84beb; 0x3e143472; 0xead2875f;
   0x435fe105; 0x97995228; 0x4ce71e37; 0x9821ad1a; 0x31accb40; 0xe56a786d;
   0x62b607f4; 0xb670b4d9; 0x1ffdd283; 0xcb3b61ae; 0x7dc7f990; 0xa9014abd;
   0x008c2ce7; 0xd44a9fca; 0x5396e053; 0x8750537e; 0x2edd3524; 0xfa1b8609;
   0x2165ca16; 0xf5a3793b; 0x5c2e1f61; 0x88e8ac4c; 0x0f34d3d5; 0xdbf260f8;
   0x727f06a2; 0xa6b9b58f; 0x3f0c6dbc; 0xebcade91; 0x4247b8cb; 0x96810be6;
   0x115d747f; 0xc59bc752; 0x6c16a108; 0xb8d01225; 0x63ae5e3a; 0xb768ed17;
   0x1ee58b4d; 0xca233860; 0x4dff47f9; 0x9939f4d4; 0x30b4928e; 0xe47221a3;
   0x528eb99d; 0x86480ab0; 0x2fc56cea; 0xfb03dfc7; 0x7cdfa05e; 0xa8191373;
   0x01947529; 0xd552c604; 0x0e2c8a1b; 0xdaea3936; 0x73675f6c; 0xa7a1ec41;
   0x207d93d8; 0xf4bb20f5; 0x5d3646af; 0x89f0f582; 0x30cf76d3; 0xe409c5fe;
   0x4d84a3a4; 0x99421089; 0x1e9e6f10; 0xca58dc3d; 0x63d5ba67; 0xb713094a;
   0x6c6d4555; 0xb8abf678; 0x11269022; 0xc5e0230f; 0x423c5c96; 0x96faefbb;
   0x3f7789e1; 0xebb13acc; 0x5d4da2f2; 0x898b11df; 0x20067785; 0xf4c0c4a8;
   0x731cbb31; 0xa7da081c; 0x0e576e46; 0xda91dd6b; 0x01ef9174; 0xd5292259;
   0x7ca44403; 0xa862f72e; 0x2fbe88b7; 0xfb783b9a; 0x52f55dc0; 0x8633eeed;
   0x208a5b62; 0xf44ce84f; 0x5dc18e15; 0x89073d38; 0x0edb42a1; 0xda1df18c;
   0x739097d6; 0xa75624fb; 0x7c2868e4; 0xa8eedbc9; 0x0163bd93; 0xd5a50ebe;
   0x52797127; 0x86bfc20a; 0x2f32a450; 0xfbf4177d; 0x4d088f43; 0x99ce3c6e;
   0x30435a34; 0xe485e919; 0x63599680; 0xb79f25ad; 0x1e1243f7; 0xcad4f0da;
   0x11aabcc5; 0xc56c0fe8; 0x6ce169b2; 0xb827da9f; 0x3ffba506; 0xeb3d162b;
   0x42b07071; 0x9676c35c; 0x2f49400d; 0xfb8ff320; 0x5202957a; 0x86c42657;
   0x011859ce; 0xd5deeae3; 0x7c538cb9; 0xa8953f94; 0x73eb738b; 0xa72dc0a6;
   0x0ea0a6fc; 0xda6615d1; 0x5dba6a48; 0x897cd965; 0x20f1bf3f; 0xf4370c12;
   0x42cb942c; 0x960d2701; 0x3f80415b; 0xeb46f276; 0x6c9a8def; 0xb85c3ec2;
   0x11d15898; 0xc517ebb5; 0x1e69a7aa; 0xcaaf1487; 0x632272dd; 0xb7e4c1f0;
   0x3038be69; 0xe4fe0d44; 0x4d736b1e; 0x99b5d833].

Definition len8tab : list Z := [
   0; 1; 2; 2; 3; 3; 3; 3; 4; 4; 4; 4; 4; 4; 4; 4; 5; 5; 5; 5; 5; 5; 5; 5; 5; 5; 5; 5; 5; 5; 5; 5;
   6; 6; 6; 6; 6; 6; 6; 6; 6; 6; 6; 6; 6; 6; 6; 6; 6; 6; 6; 6; 6; 6; 6; 6; 6; 6; 6; 6; 6; 6; 6; 6;
   7; 7; 7; 7; 7; 7; 7; 7; 7; 7; 7; 7; 7; 7; 7; 7; 7; 7; 7; 7; 7; 7; 7; 7; 7; 7; 7; 7; 7; 7; 7; 7;
   7; 7; 7; 7; 7; 7; 7; 7; 7; 7; 7; 7; 7; 7; 7; 7; 7; 7; 7; 7; 7; 7; 7; 7; 7; 7; 7; 7; 7; 7; 7; 7;
   8; 8; 8; 8; 8; 8; 8; 8; 8; 8; 8; 8; 8; 8; 8; 8; 8; 8; 8; 8; 8; 8; 8; 8; 8; 8; 8; 8; 8; 8; 8; 8;
   8; 8; 8; 8; 8; 8; 8; 8; 8; 8; 8; 8; 8; 8; 8; 8; 8; 8; 8; 8; 8; 8; 8; 8; 8; 8; 8; 8; 8; 8; 8; 8;
   8; 8; 8; 8; 8; 8; 8; 8; 8; 8; 8; 8; 8; 8; 8; 8; 8; 8; 8; 8; 8; 8; 8; 8; 8; 8; 8; 8; 8; 8; 8; 8;
   8; 8; 8; 8; 8; 8; 8; 8; 8; 8; 8; 8; 8; 8; 8; 8; 8; 8; 8; 8; 8; 8; 8; 8; 8; 8; 8; 8; 8; 8; 8; 8].

(** One of the twelve unrolled lines
    [hash = ((hash << 8) | (uint32(raw[i]) & 0xff)) ^ T[hash>>23]]. *)
Definition hashStep (raw : bytes) (i hash : Z) : res Z :=
  let* b := index raw i in
  let* t := index T (Z.shiftr hash 23) in
  Ok (Z.lxor (Z.lor (u32 (Z.shiftl hash 8)) (Z.land (b2z b) 0xff)) t).

Fixpoint hashSteps (raw : bytes) (ks : list Z) (hash : Z) : res Z :=
  match ks with
  | [] => Ok hash
  | i :: ks => let* hash := hashStep raw i hash in hashSteps raw ks hash
  end.

Definition hashBlock (raw : bytes) (ptr : Z) : res Z :=
  let* b0 := index raw ptr in
  let* b1 := index raw (ptr + 1) in
  let* b2 := index raw (ptr + 2) in
  let* b3 := index raw (ptr + 3) in
  let hash := Z.lor (Z.lor (Z.lor (u32 (Z.shiftl (Z.land (b2z b0) 0xff) 24))
                                  (u32 (Z.shiftl (Z.land (b2z b1) 0xff) 16)))
                           (u32 (Z.shiftl (Z.land (b2z b2) 0xff) 8)))
                    (Z.land (b2z b3) 0xff) in
  let* t := index T (Z.shiftr hash 31) in
  hashSteps raw (map (Z.add ptr) [4; 5; 6; 7; 8; 9; 10; 11; 12; 13; 14; 15]) (Z.lxor hash t).

(** [leadingZeros] (delta_index.go:183) on a [uint32] *)
Definition leadingZeros (x : Z) : res Z :=
  let '(x, n) := if 2 ^ 16 <=? x then (Z.shiftr x 16, 16) else (x, 0) in
  let '(x, n) := if 2 ^ 8 <=? x then (Z.shiftr x 8, n + 8) else (x, n) in
  let* l := index len8tab x in
  Ok (32 - (n + l)).

(** [tableSize] (delta_index.go:173); [1 << uint(shift-1)] is 0 when the
    count [shift-1], converted to [uint], is not below 64. *)
Definition tableSize (worstCaseBlockCnt : Z) : res Z :=
  let* lz := leadingZeros (u32 worstCaseBlockCnt) in
  let shift := 32 - lz in
  let sz := i64 (Z.shiftl 1 (Z.min 64 (u64 (shift - 1)))) in
  Ok (if sz <? worstCaseBlockCnt then i64 (Z.shiftl sz 1) else sz).

(** The body of the loop of [scan] (delta_index.go:151-162): the scanner after
    the block at [ptr] and the hash of the block. *)
Definition scan_block (buf : bytes) (s : deltaIndexScanner) (lastHash ptr : Z)
    : res (deltaIndexScanner * Z) :=
  let* key := hashBlock buf ptr in
  let tIdx := Z.land key (sc_mask s) in
  let* head := index (sc_table s) tIdx in
  if negb (head =? 0) && (lastHash =? key) then
    let* es := set_index (sc_entries s) head ptr in
    Ok (mkScanner (sc_table s) es (sc_next s) (sc_mask s) (sc_count s), key)
  else
    let eIdx := sc_count s + 1 in
    let* es := set_index (sc_entries s) eIdx ptr in
    let* ns := set_index (sc_next s) eIdx head in
    let* tb := set_index (sc_table s) tIdx eIdx in
    Ok (mkScanner tb es ns (sc_mask s) eIdx, key).

(** The loop of [scan] (delta_index.go:150). *)
Fixpoint scan_loop (fuel : nat) (buf : bytes) (s : deltaIndexScanner) (lastHash ptr : Z)
    : res deltaIndexScanner :=
  match fuel with
  | O => NoFuel
  | S fuel =>
    let* (s, key) := scan_block buf s lastHash ptr in
    let ptr := ptr - blksz in
    if 0 >? ptr then Ok s else scan_loop fuel buf s key ptr
  end.

Definition scan (s : deltaIndexScanner) (buf : bytes) (end_ : Z) : res deltaIndexScanner :=
  scan_loop (S (Z.to_nat (end_ / blksz))) buf s 0 (end_ - blksz).

Definition newDeltaIndexScanner (buf : bytes) (size : Z) : res deltaIndexScanner :=
  let size := size - Z.rem size blksz in
  let worstCaseBlockCnt := Z.quot size blksz in
  if worstCaseBlockCnt <? 1 then Ok (mkScanner [] [] [] 0 0)
  else
    let* tableSize := tableSize worstCaseBlockCnt in
    if tableSize <? 0 then Panic (* make with a negative length *) else
    scan (mkScanner (replicate (Z.to_nat tableSize) 0)
                    (replicate (Z.to_nat (worstCaseBlockCnt + 1)) 0)
                    (replicate (Z.to_nat (worstCaseBlockCnt + 1)) 0)
                    (tableSize - 1) 0) buf size.

(** The inner loop of [countEntries] (delta_index.go:72): the size of one chain
    and the [next] slice after the truncation. *)
Fixpoint countChain (fuel : nat) (next : list Z) (h size : Z) : res (Z * list Z) :=
  match fuel with
  | O => NoFuel
  | S fuel =>
    let size := size + 1 in
    if size =? maxChainLength then
      let* next := set_index next h 0 in Ok (size, next)
    else
      let* h := index next h in
      if h =? 0 then Ok (size, next) else countChain fuel next h size
  end.

Fixpoint countEntries_loop (tb : list Z) (next : list Z) (cnt : Z) : res (Z * list Z) :=
  match tb with
  | [] => Ok (cnt, next)
  | h :: tb =>
    if h =? 0 then countEntries_loop tb next cnt
    else
      let* (size, next) := countChain (Z.to_nat maxChainLength) next h 0 in
      countEntries_loop tb next (cnt + size)
  end.

(** [countEntries] (delta_index.go:60) returns the count and truncates [scan.next]. *)
Definition countEntries (scan : deltaIndexScanner) : res (Z * deltaIndexScanner) :=
  let* (cnt, next) := countEntries_loop (sc_table scan) (sc_next scan) 0 in
  Ok (cnt, mkScanner (sc_table scan) (sc_entries scan) next (sc_mask scan) (sc_count scan)).

(** The inner loop of [copyEntries] (delta_index.go:103). *)
Fixpoint copyChain (fuel : nat) (scanner : deltaIndexScanner) (es : list Z) (next h : Z)
    : res (list Z * Z) :=
  match fuel with
  | O => NoFuel
  | S fuel =>
    let* e := index (sc_entries scanner) h in
    let* es := set_index es next e in
    let next := next + 1 in
    let* h := index (sc_next scanner) h in
    if h =? 0 then Ok (es, next) else copyChain fuel scanner es next h
  end.

(** The outer loop of [copyEntries]: the new table entries and the entry list. *)
Fixpoint copyEntries_loop (scanner : deltaIndexScanner) (tb : list Z) (es : list Z) (next : Z)
    : res (list Z * list Z) :=
  match tb with
  | [] => Ok ([], es)
  | h :: tb =>
    if h =? 0 then
      let* (tb, es) := copyEntries_loop scanner tb es next in Ok (h :: tb, es)
    else
      let* (es, next') := copyChain (S (length (sc_next scanner))) scanner es next h in
      let* (tb, es) := copyEntries_loop scanner tb es next' in Ok (next :: tb, es)
  end.

Definition copyEntries (idx : deltaIndex) (scanner : deltaIndexScanner) : res deltaIndex :=
  let* (tb, es) := copyEntries_loop scanner (table idx) (entries idx) 1 in
  Ok (mkDeltaIndex tb es (mask idx)).

(** [init] (delta_index.go:14) *)
Definition init (buf : bytes) : res deltaIndex :=
  let* scanner := newDeltaIndexScanner buf (len buf) in
  let* (cnt, scanner) := countEntries scanner in
  copyEntries (mkDeltaIndex (sc_table scanner) (replicate (Z.to_nat (cnt + 1)) 0)
                            (sc_mask scanner)) scanner.

(** The loop of [matchLength] (delta_index.go:52). *)
Fixpoint matchLength_loop (fuel : nat) (src tgt : bytes) (otgt osrc l : Z) : res Z :=
  match fuel with
  | O => NoFuel
  | S fuel =>
    if (osrc <? len src) && (otgt <? len tgt) then
      let* a := index src osrc in
      let* b := index tgt otgt in
      if bool_decide (a = b) then matchLength_loop fuel src tgt (otgt + 1) (osrc + 1) (l + 1)
      else Ok l
    else Ok l
  end.

Definition matchLength (src tgt : bytes) (otgt osrc : Z) : res Z :=
  matchLength_loop (S (length tgt)) src tgt otgt osrc 0.

(** [s], the chunk size of diff_delta.go:17. *)
Definition s : Z := 16.

(** [findMatch] (delta_index.go:26): source offset and match length. *)
Definition findMatch (idx : deltaIndex) (src tgt : bytes) (tgtOffset : Z) : res (Z * Z) :=
  if len tgt <? tgtOffset + s then Ok (0, len tgt - tgtOffset)
  else if len src <? blksz then Ok (0, -1)
  else
    let* h := hashBlock tgt tgtOffset in
    let tIdx := Z.land h (mask idx) in
    let* eIdx := index (table idx) tIdx in
    if eIdx =? 0 then Ok (0, 0)
    else
      let* srcOffset := index (entries idx) eIdx in
      let* l := matchLength src tgt tgtOffset srcOffset in
      Ok (srcOffset, l).

(** ** The Rabin table: [hashBlock] stays inside [T] and below [2^31] *)

Definition T_row_ok (i : nat) (t : Z) : bool :=
  (0 <=? t) && (t <? 2 ^ 32) && Bool.eqb (Z.testbit t 31) (Nat.odd i).

Lemma T_ok : forallb (fun i => match T !! i with Some t => T_row_ok i t | None => false end)
               (seq 0 256) = true.
Proof. vm_compute. reflexivity. Qed.

Lemma T_lookup i : 0 <= i < 256 ->
  exists t, index T i = Ok t /\ 0 <= t < 2 ^ 32 /\ Z.testbit t 31 = Z.odd i.
Proof.
  intros Hi. pose proof T_ok as H. rewrite forallb_forall in H.
  assert (In (Z.to_nat i) (seq 0 256)) as Hin by (apply in_seq; lia).
  specialize (H _ Hin). cbv beta in H. clear Hin.
  destruct (T !! Z.to_nat i) as [t|] eqn:E; [|discriminate].
  exists t. split; [apply index_lookup; [lia|done]|].
  apply andb_prop in H as [H H3]. apply andb_prop in H as [H1 H2].
  apply Bool.eqb_prop in H3. rewrite H3.
  split; [lia|]. rewrite <- (Z2Nat.id i) at 2 by lia.
  clear. induction (Z.to_nat i) as [|n IH]; [done|].
  rewrite Nat2Z.inj_succ, Z.odd_succ, Nat.odd_succ, <- Nat.negb_odd, IH, Z.negb_odd. done.
Qed.

Lemma hashStep_ok raw i hash :
  0 <= hash < 2 ^ 31 -> 0 <= i < len raw ->
  exists h, hashStep raw i hash = Ok h /\ 0 <= h < 2 ^ 31.
Proof.
  intros Hh Hi. unfold hashStep.
  destruct (index_ok raw i Hi) as (b & -> & _). cbn [res_bind].
  assert (0 <= Z.shiftr hash 23 < 256) as Hs.
  { rewrite Z.shiftr_div_pow2 by lia. split; [apply Z.div_pos; lia|].
    apply Z.div_lt_upper_bound; lia. }
  destruct (T_lookup _ Hs) as (t & -> & Ht & Hodd). cbn [res_bind].
  eexists. split; [reflexivity|]. pose proof (b2z_range b) as Hb.
  pose proof (u32_range (Z.shiftl hash 8)) as Hu.
  assert (0 <= Z.land (b2z b) 255 < 256) as Hb'.
  { change 255 with (Z.ones 8). rewrite Z.land_ones by lia. apply Z.mod_pos_bound. lia. }
  split. { apply Z.lxor_nonneg. rewrite Z.lor_nonneg. lia. }
  apply below_pow2; [lia| apply Z.lxor_nonneg; rewrite Z.lor_nonneg; lia |].
  intros n Hn. rewrite Z.lxor_spec, Z.lor_spec, (testbit_above 8 (Z.land _ _)) by lia.
  rewrite Bool.orb_false_r.
  destruct (decide (n = 31)) as [->|].
  - unfold u32. rewrite Z.mod_pow2_bits_low, Z.shiftl_spec by lia.
    rewrite Hodd. rewrite <- Z.bit0_odd, Z.shiftr_spec by lia. cbn. apply xorb_nilpotent.
  - rewrite (testbit_above 32 (u32 _)), (testbit_above 32 t) by lia. done.
Qed.

Lemma hashSteps_ok raw ks hash :
  0 <= hash < 2 ^ 31 -> Forall (fun i => 0 <= i < len raw) ks ->
  exists h, hashSteps raw ks hash = Ok h /\ 0 <= h < 2 ^ 31.
Proof.
  intros Hh Hks. revert hash Hh. induction Hks as [|i ks Hi _ IH]; intros hash Hh; cbn [hashSteps].
  - eauto.
  - destruct (hashStep_ok raw i hash Hh Hi) as (h & -> & Hb). cbn [res_bind]. auto.
Qed.

Lemma hashBlock_ok raw ptr :
  0 <= ptr -> ptr + blksz <= len raw ->
  exists h, hashBlock raw ptr = Ok h /\ 0 <= h < 2 ^ 31.
Proof.
  unfold blksz. intros H0 H1. unfold hashBlock.
  destruct (index_ok raw ptr) as (b0 & -> & _); [lia|]. cbn [res_bind].
  destruct (index_ok raw (ptr + 1)) as (b1 & -> & _); [lia|]. cbn [res_bind].
  destruct (index_ok raw (ptr + 2)) as (b2 & -> & _); [lia|]. cbn [res_bind].
  destruct (index_ok raw (ptr + 3)) as (b3 & -> & _); [lia|]. cbn [res_bind].
  rewrite !land_ff. cbv zeta.
  match goal with |- context [Z.shiftr ?x 31] => set (hash := x) end.
  assert (0 <= hash < 2 ^ 32) as Hh.
  { subst hash. pose proof (b2z_range b3).
    repeat (apply lor_below; [lia| |]); try apply u32_range; lia. }
  clearbody hash.
  assert (0 <= Z.shiftr hash 31 < 2) as Hs.
  { rewrite Z.shiftr_div_pow2 by lia. split; [apply Z.div_pos; lia|].
    apply Z.div_lt_upper_bound; lia. }
  destruct (T_lookup (Z.shiftr hash 31)) as (t & -> & Ht & Hodd); [lia|]. cbn [res_bind].
  apply hashSteps_ok.
  - assert (0 <= Z.lxor hash t) by (apply Z.lxor_nonneg; lia). split; [done|].
    apply below_pow2; [lia|done|]. intros n Hn. rewrite Z.lxor_spec.
    destruct (decide (n = 31)) as [->|].
    + rewrite Hodd, <- Z.bit0_odd, Z.shiftr_spec by lia. apply xorb_nilpotent.
    + rewrite (testbit_above 32 hash), (testbit_above 32 t) by lia. done.
  - apply Forall_map. repeat constructor; cbn; lia.
Qed.

(** ** Table sizes *)
Lemma len8tab_ok : forallb (fun i => match len8tab !! i with
    Some t => (0 <=? t) && (t <=? 8) && (Nat.eqb i 0 || (1 <=? t)) | None => false end)
    (seq 0 256) = true.
Proof. vm_compute. reflexivity. Qed.

Lemma len8tab_lookup x : 0 <= x < 256 ->
  exists t, index len8tab x = Ok t /\ 0 <= t <= 8 /\ (0 < x -> 1 <= t).
Proof.
  intros Hx. pose proof len8tab_ok as H. rewrite forallb_forall in H.
  assert (In (Z.to_nat x) (seq 0 256)) as Hin by (apply in_seq; lia).
  specialize (H _ Hin). cbv beta in H.
  destruct (len8tab !! Z.to_nat x) as [t|] eqn:E; [|discriminate].
  exists t. split; [apply index_lookup; [lia|done]|].
  destruct (Nat.eqb_spec (Z.to_nat x) 0); split; lia.
Qed.

Lemma leadingZeros_ok x : 0 < x < 2 ^ 32 -> exists n, leadingZeros x = Ok n /\ 0 <= n <= 31.
Proof.
  intros Hx. unfold leadingZeros.
  assert (exists y m, (if 2 ^ 16 <=? x then (Z.shiftr x 16, 16) else (x, 0)) = (y, m)
            /\ 0 < y < 2 ^ 16 /\ 0 <= m <= 16) as (y & m & -> & Hy & Hm).
  { destruct (Z.leb_spec (2 ^ 16) x).
    - do 2 eexists. split; [reflexivity|]. rewrite Z.shiftr_div_pow2 by lia.
      split; [|lia]. split; [apply Z.div_str_pos; lia|apply Z.div_lt_upper_bound; lia].
    - do 2 eexists. split; [reflexivity|]. lia. }
  assert (exists z k, (if 2 ^ 8 <=? y then (Z.shiftr y 8, m + 8) else (y, m)) = (z, k)
            /\ 0 < z < 256 /\ 0 <= k <= 24) as (z & k & -> & Hz & Hk).
  { destruct (Z.leb_spec (2 ^ 8) y).
    - do 2 eexists. split; [reflexivity|]. rewrite Z.shiftr_div_pow2 by lia.
      split; [|lia]. split; [apply Z.div_str_pos; lia|apply Z.div_lt_upper_bound; lia].
    - do 2 eexists. split; [reflexivity|]. lia. }
  destruct (len8tab_lookup z) as (t & -> & Ht & Ht1); [lia|]. cbn [res_bind].
  eexists. split; [reflexivity|]. lia.
Qed.

Lemma tableSize_ok n : 0 < n < 2 ^ 32 ->
  exists p, 0 <= p <= 32 /\ tableSize n = Ok (2 ^ p).
Proof.
  intros Hn. unfold tableSize. rewrite u32_small by lia.
  destruct (leadingZeros_ok n Hn) as (z & -> & Hz). cbn [res_bind].
  rewrite u64_small by lia. rewrite Z.min_r by lia. rewrite Z.shiftl_1_l.
  set (e := 32 - z - 1). assert (0 <= e <= 31) by lia.
  assert (2 ^ e <= 2 ^ 31) by (apply Z.pow_le_mono_r; lia).
  assert (0 < 2 ^ e) by (apply Z.pow_pos_nonneg; lia).
  rewrite (i64_small (2 ^ e)) by lia. destruct (Z.ltb_spec (2 ^ e) n).
  - exists (e + 1). split; [lia|]. rewrite Z.shiftl_mul_pow2 by lia.
    rewrite i64_small by lia. rewrite Z.pow_add_r by lia. reflexivity.
  - exists e. split; [lia|]. reflexivity.
Qed.

(** ** The scanner *)

(** A block offset of [buf]. *)
Definition block_offset (buf : bytes) (e : Z) : Prop := 0 <= e /\ e + blksz <= len buf.

(** [next] links every entry to an older one, or to none. *)
Definition next_ok (next : list Z) : Prop :=
  forall (e : nat) (n : Z), next !! e = Some n -> n = 0 \/ 0 < n < Z.of_nat e.

(** The state of the scanner between two blocks; [W] is the block count the
    slices were made for and [p] the exponent of the table size. *)
Record scanner_ok (buf : bytes) (W p : Z) (sc : deltaIndexScanner) : Prop := {
  sok_table_len : len (sc_table sc) = 2 ^ p;
  sok_mask : sc_mask sc = 2 ^ p - 1;
  sok_p : 0 <= p;
  sok_entries_len : len (sc_entries sc) = W + 1;
  sok_next_len : len (sc_next sc) = W + 1;
  sok_count : 0 <= sc_count sc <= W;
  sok_table : Forall (fun h => 0 <= h <= sc_count sc) (sc_table sc);
  sok_entries : Forall (block_offset buf) (sc_entries sc);
  sok_next : next_ok (sc_next sc) }.

Lemma next_ok_insert next e n :
  next_ok next -> 0 <= e -> (n = 0 \/ 0 < n < e) -> next_ok (<[Z.to_nat e := n]> next).
Proof.
  intros H He Hn e' n' E. apply list_lookup_insert_Some in E as [(<- & <- & _)|(_ & E)].
  - lia.
  - eauto.
Qed.

(** One iteration of [scan] keeps the invariant and adds at most one entry. *)
Lemma scan_block_ok buf W p sc lastHash ptr :
  scanner_ok buf W p sc -> sc_count sc < W -> block_offset buf ptr ->
  exists sc' key, scan_block buf sc lastHash ptr = Ok (sc', key)
    /\ scanner_ok buf W p sc' /\ sc_count sc' <= sc_count sc + 1.
Proof.
  intros [Htl Hm Hp Hel Hnl Hc Ht He Hn] Hcw Hptr. unfold scan_block.
  destruct (hashBlock_ok buf ptr) as (key & -> & _); [apply Hptr..|]. cbn [res_bind]. cbv zeta.
  pose proof (land_mask_range key p Hp) as Hti. rewrite Hm. set (ti := Z.land _ _) in *.
  destruct (index_ok (sc_table sc) ti) as (head & Eh & _); [lia|]. rewrite Eh. cbn [res_bind].
  pose proof (Forall_index _ _ _ _ Ht Eh) as Hhead. cbv beta in Hhead.
  destruct (negb (head =? 0) && (lastHash =? key)) eqn:Eb.
  - rewrite set_index_ok by lia. do 2 eexists. split; [reflexivity|].
    split; [|cbn; lia]. constructor; cbn; auto; [len_lia|]. by apply Forall_insert.
  - rewrite !set_index_ok by len_lia. do 2 eexists. split; [reflexivity|].
    split; [|cbn; lia]. constructor; cbn; auto; try len_lia.
    + apply Forall_insert; [|lia]. eapply Forall_impl; [exact Ht|]. cbn. lia.
    + by apply Forall_insert.
    + apply next_ok_insert; [done|lia|lia].
Qed.

Lemma scan_loop_ok buf W p k :
  forall fuel sc lastHash, (k < fuel)%nat -> scanner_ok buf W p sc ->
  sc_count sc + Z.of_nat k + 1 <= W -> blksz * Z.of_nat k + blksz <= len buf ->
  exists sc', scan_loop fuel buf sc lastHash (blksz * Z.of_nat k) = Ok sc' /\ scanner_ok buf W p sc'.
Proof.
  unfold blksz.
  induction k as [|k IH]; intros [|fuel] sc lastHash Hf Hsc Hcnt Hlen; try lia; cbn [scan_loop];
    (edestruct (scan_block_ok buf W p sc lastHash) as (sc' & key & -> & Hsc' & Hc);
      [done|lia|unfold block_offset, blksz; lia|]); cbn [res_bind]; unfold blksz.
  - destruct (Z.gtb_spec 0 (16 * Z.of_nat 0 - 16)); [eauto|lia].
  - destruct (Z.gtb_spec 0 (16 * Z.of_nat (S k) - 16)); [lia|].
    replace (16 * Z.of_nat (S k) - 16) with (16 * Z.of_nat k) by lia.
    apply IH; [lia|done|lia|lia].
Qed.

Lemma newDeltaIndexScanner_ok buf :
  blksz <= len buf < 2 ^ 32 ->
  exists sc W p, newDeltaIndexScanner buf (len buf) = Ok sc /\ scanner_ok buf W p sc.
Proof.
  intros Hlen. unfold newDeltaIndexScanner, blksz in *.
  rewrite Z.rem_mod_nonneg by lia. rewrite Z.quot_div_nonneg by (pose proof (Z.mod_le (len buf) 16); lia).
  set (W := (len buf - len buf mod 16) / 16).
  assert (16 * W = len buf - len buf mod 16) as HW.
  { subst W. pose proof (Z.div_mod (len buf) 16 ltac:(lia)).
    replace (len buf - len buf mod 16) with (len buf / 16 * 16) by lia. rewrite Z.div_mul; lia. }
  pose proof (Z.mod_pos_bound (len buf) 16 ltac:(lia)).
  destruct (Z.ltb_spec W 1); [lia|].
  destruct (tableSize_ok W) as (p & Hp & ->); [lia|]. cbn [res_bind].
  assert (0 < 2 ^ p) by (apply Z.pow_pos_nonneg; lia).
  destruct (Z.ltb_spec (2 ^ p) 0); [lia|]. unfold scan, blksz.
  replace (len buf - len buf mod 16 - 16) with (16 * Z.of_nat (Z.to_nat (W - 1))) by lia.
  replace ((len buf - len buf mod 16) / 16) with W by done.
  edestruct (scan_loop_ok buf W p (Z.to_nat (W - 1)) (S (Z.to_nat W))) as (sc' & E & Hsc'); [..|unfold blksz in E; eauto].
  - lia.
  - constructor; cbn; rewrite ?len_replicate; auto; try lia.
    + apply Forall_replicate. lia.
    + apply Forall_replicate. unfold block_offset, blksz. lia.
    + intros e n E. apply lookup_replicate in E as [-> _]. auto.
  - cbn. lia.
  - unfold blksz. lia.
Qed.

(** ** Counting and copying the chains *)

(** [chain next h n]: following [next] from entry [h] visits at most [n] entries. *)
Inductive chain (next : list Z) : Z -> Z -> Prop :=
  | chain_last h n : 0 <= h -> 1 <= n -> next !! Z.to_nat h = Some 0 -> chain next h n
  | chain_more h h' n : 0 <= h -> next !! Z.to_nat h = Some h' -> h' <> 0 ->
      chain next h' (n - 1) -> chain next h n.

Lemma chain_pos next h n : chain next h n -> 1 <= n.
Proof. induction 1; lia. Qed.

(** [shorter next next']: the second link list is the first with some chains cut. *)
Definition shorter (next next' : list Z) : Prop :=
  len next' = len next /\
  forall e n, next !! e = Some n -> next' !! e = Some n \/ next' !! e = Some 0.

Lemma shorter_refl next : shorter next next.
Proof. unfold shorter. auto. Qed.

Lemma shorter_trans a b c : shorter a b -> shorter b c -> shorter a c.
Proof.
  intros [H1 H2] [H3 H4]. split; [congruence|]. intros e n E.
  apply H2 in E as [E|E]; apply H4 in E as [E|E]; auto.
Qed.

Lemma shorter_cut next x : shorter next (<[x := 0]> next).
Proof.
  split; [apply len_insert|]. intros e n E. destruct (decide (x = e)) as [->|].
  - right. apply list_lookup_insert_eq. eapply lookup_lt_Some; eauto.
  - left. rewrite list_lookup_insert_ne; done.
Qed.

Lemma shorter_lookup next next' e n' :
  shorter next next' -> next' !! e = Some n' -> n' = 0 \/ next !! e = Some n'.
Proof.
  intros [Hl H] E. destruct (next !! e) as [n|] eqn:E0.
  - apply H in E0 as [E1|E1]; rewrite E in E1; inversion E1; auto.
  - apply lookup_ge_None in E0. apply lookup_lt_Some in E. unfold len in *. lia.
Qed.

Lemma shorter_next_ok next next' : shorter next next' -> next_ok next -> next_ok next'.
Proof.
  intros Hs H e n E. destruct (shorter_lookup _ _ _ _ Hs E) as [->|E']; eauto.
Qed.

Lemma shorter_chain next next' h n : shorter next next' -> chain next h n -> chain next' h n.
Proof.
  intros [_ Hs]. induction 1 as [h n ? ? E|h h' n ? E Hne Hc IH].
  - apply chain_last; [done..|]. apply Hs in E as [|]; done.
  - apply Hs in E as [E|E].
    + eapply chain_more; eauto.
    + apply chain_pos in Hc. apply chain_last; [done|lia|done].
Qed.

Lemma next_ok_index next h h' :
  next_ok next -> index next h = Ok h' -> h' = 0 \/ 0 < h' < h.
Proof. intros Hn [Hh E]%index_inv. apply Hn in E. lia. Qed.

Lemma countChain_ok fuel next h size :
  next_ok next -> 0 < h < len next -> 0 <= size -> Z.of_nat fuel + size = maxChainLength ->
  (0 < fuel)%nat ->
  exists size' next', countChain fuel next h size = Ok (size', next') /\
    shorter next next' /\ chain next' h (size' - size).
Proof.
  unfold maxChainLength. revert h size.
  induction fuel as [|fuel IH]; intros h size Hn Hh Hs Hf Hf0; [lia|]. cbn [countChain].
  unfold maxChainLength. destruct (Z.eqb_spec (size + 1) 64).
  - rewrite set_index_ok by lia. do 2 eexists. split; [reflexivity|].
    split; [apply shorter_cut|]. apply chain_last; [lia|lia|].
    apply list_lookup_insert_eq. unfold len in *. lia.
  - destruct (index_ok next h) as (h' & Eh & Lh); [lia|]. rewrite Eh. cbn [res_bind].
    destruct (Z.eqb_spec h' 0) as [->|].
    + do 2 eexists. split; [reflexivity|]. split; [apply shorter_refl|].
      apply chain_last; [lia|lia|done].
    + pose proof (next_ok_index _ _ _ Hn Eh).
      destruct (IH h' (size + 1)) as (size' & next' & -> & Hsh & Hc); [done|lia|lia|lia|lia|].
      do 2 eexists. split; [reflexivity|]. split; [done|].
      destruct (proj2 Hsh _ _ Lh) as [E|E].
      * eapply chain_more; [lia|exact E|done|].
        replace (size' - size - 1) with (size' - (size + 1)) by lia. done.
      * apply chain_pos in Hc. apply chain_last; [lia|lia|done].
Qed.

(** The chains of a table and a bound on their sizes. *)
Definition chains (next tb ns : list Z) : Prop :=
  Forall2 (fun h n => h = 0 /\ n = 0 \/ 0 < h < len next /\ chain next h n) tb ns.

Definition sum (l : list Z) : Z := foldr Z.add 0 l.

Lemma shorter_chains next next' tb ns :
  shorter next next' -> chains next tb ns -> chains next' tb ns.
Proof.
  intros Hs H. eapply Forall2_impl; [exact H|]. cbv beta.
  intros h n [?|[? ?]]; [auto|]. right. rewrite (proj1 Hs). eauto using shorter_chain.
Qed.

Lemma chains_sum_nonneg next tb ns : chains next tb ns -> 0 <= sum ns.
Proof.
  induction 1 as [|h n tb ns Hn _ IH]; cbn; [lia|].
  destruct Hn as [[_ ->]|[_ Hn%chain_pos]]; unfold sum in *; lia.
Qed.

Lemma countEntries_loop_ok tb : forall next cnt,
  next_ok next -> Forall (fun h => 0 <= h < len next) tb ->
  exists next' ns, countEntries_loop tb next cnt = Ok (cnt + sum ns, next') /\
    shorter next next' /\ chains next' tb ns.
Proof.
  induction tb as [|h tb IH]; intros next cnt Hn Ht; cbn [countEntries_loop].
  - exists next, []. cbn. rewrite Z.add_0_r. split; [done|]. split; [apply shorter_refl|constructor].
  - apply Forall_cons in Ht as [Hh Ht]. destruct (Z.eqb_spec h 0) as [->|].
    + destruct (IH next cnt Hn Ht) as (next' & ns & -> & Hs & Hc).
      exists next', (0 :: ns). cbn. split; [reflexivity|]. split; [done|]. constructor; auto.
    + destruct (countChain_ok (Z.to_nat maxChainLength) next h 0)
        as (size & next' & -> & Hs & Hc); [done|lia|lia|done|unfold maxChainLength; lia|]. cbn [res_bind].
      destruct (IH next' (cnt + size)) as (next'' & ns & -> & Hs' & Hc').
      * eauto using shorter_next_ok.
      * rewrite (proj1 Hs). done.
      * exists next'', (size :: ns). split.
        { replace (cnt + sum (size :: ns)) with (cnt + size + sum ns) by (unfold sum; cbn; lia). done. }
        split; [eauto using shorter_trans|]. constructor; [|done]. right.
        rewrite (proj1 Hs'), (proj1 Hs), Z.sub_0_r in *. split; [lia|]. eauto using shorter_chain.
Qed.

Lemma copyChain_ok buf sc fuel es next h n :
  next_ok (sc_next sc) -> len (sc_entries sc) = len (sc_next sc) ->
  Forall (block_offset buf) (sc_entries sc) -> Forall (block_offset buf) es ->
  chain (sc_next sc) h n -> 0 < h < Z.of_nat fuel ->
  0 <= next -> next + n <= len es ->
  exists es' next', copyChain fuel sc es next h = Ok (es', next') /\
    next < next' <= next + n /\ len es' = len es /\ Forall (block_offset buf) es'.
Proof.
  intros Hn Hl Hse. revert es next h n.
  induction fuel as [|fuel IH]; intros es next h n Hes Hc Hh H0 Hb; [lia|]. cbn [copyChain].
  pose proof (chain_pos _ _ _ Hc) as Hpos.
  assert (exists h', sc_next sc !! Z.to_nat h = Some h') as [h' Eh] by (inversion Hc; eauto).
  assert (h < len (sc_next sc)) as Hlt. { apply lookup_lt_Some in Eh. unfold len. lia. }
  destruct (index_ok (sc_entries sc) h) as (e & Ee & _); [lia|]. rewrite Ee. cbn [res_bind].
  rewrite set_index_ok by lia. cbn [res_bind].
  rewrite (index_lookup (sc_next sc) h h') by (done || lia). cbn [res_bind].
  assert (Forall (block_offset buf) (<[Z.to_nat next := e]> es)) as Hes'.
  { apply Forall_insert; [done|]. exact (Forall_index _ _ _ _ Hse Ee). }
  destruct (Z.eqb_spec h' 0) as [->|].
  - do 2 eexists. split; [reflexivity|]. split; [lia|]. split; [apply len_insert|done].
  - assert (chain (sc_next sc) h' (n - 1)) as Hc'.
    { inversion Hc as [? ? ? ? E|? h'' ? ? E]; subst; rewrite Eh in E; simplify_eq. done. }
    pose proof (Hn _ _ Eh).
    destruct (IH (<[Z.to_nat next := e]> es) (next + 1) h' (n - 1))
      as (es' & next' & -> & ? & Hl' & ?); [done|done|lia|lia|rewrite len_insert; lia|].
    do 2 eexists. split; [reflexivity|]. rewrite len_insert in Hl'. split; [lia|]. done.
Qed.

Lemma copyEntries_loop_ok buf sc tb ns es next :
  next_ok (sc_next sc) -> len (sc_entries sc) = len (sc_next sc) ->
  Forall (block_offset buf) (sc_entries sc) -> chains (sc_next sc) tb ns ->
  Forall (block_offset buf) es -> 0 < next -> next + sum ns <= len es ->
  exists tb' es', copyEntries_loop sc tb es next = Ok (tb', es') /\
    len tb' = len tb /\ Forall (fun t => 0 <= t < len es') tb' /\ len es' = len es /\
    Forall (block_offset buf) es'.
Proof.
  intros Hn Hl Hse Hch. revert es next. induction Hch as [|h n tb ns Hh Hch IH];
    intros es next Hes H0 Hb; cbn [copyEntries_loop sum foldr] in *.
  - exists [], es. auto.
  - pose proof (chains_sum_nonneg _ _ _ Hch) as Hns. unfold sum in *.
    destruct (Z.eqb_spec h 0) as [->|].
    + destruct Hh as [[_ ->]|[? _]]; [|lia].
      destruct (IH es next) as (tb' & es' & -> & ? & ? & ? & ?); [done|done|lia|].
      cbn [res_bind]. do 2 eexists. split; [reflexivity|]. rewrite !len_cons.
      split; [lia|]. split; [|done]. constructor; [lia|done].
    + destruct Hh as [[? _]|[Hh Hc]]; [lia|].
      destruct (copyChain_ok buf sc (S (length (sc_next sc))) es next h n)
        as (es' & next' & -> & ? & ? & ?); [done|done|done|done|done|unfold len in *; lia|lia|lia|].
      cbn [res_bind].
      destruct (IH es' next') as (tb' & es'' & -> & ? & ? & ? & ?); [done|lia|lia|].
      cbn [res_bind]. do 2 eexists. split; [reflexivity|]. rewrite !len_cons.
      split; [lia|]. split; [|split; [congruence|done]].
      apply chain_pos in Hc. constructor; [lia|done].
Qed.

(** What [diffDelta] relies on when it queries the index of [src]. *)
Definition index_for (src : bytes) (idx : deltaIndex) : Prop :=
  (blksz <= len src ->
     exists p, 0 <= p /\ mask idx = 2 ^ p - 1 /\ len (table idx) = 2 ^ p) /\
  Forall (fun t => 0 <= t < len (entries idx)) (table idx) /\
  Forall (fun e => 0 <= e <= len src) (entries idx) /\ 0 < len (entries idx).

Lemma init_ok buf : len buf < 2 ^ 32 -> exists idx, init buf = Ok idx /\ index_for buf idx.
Proof.
  intros Hlen. pose proof (len_nonneg buf). unfold init.
  destruct (Z.lt_ge_cases (len buf) blksz) as [Hs|Hs].
  - unfold newDeltaIndexScanner, blksz in *. rewrite Z.rem_small by lia.
    rewrite Z.sub_diag. cbn. eexists. split; [reflexivity|].
    split; [unfold blksz; lia|]. split; [constructor|]. split; [|done]. repeat constructor; lia.
  - destruct (newDeltaIndexScanner_ok buf) as (sc & W & p & -> & Hsc); [lia|]. cbn [res_bind].
    destruct Hsc as [Htl Hm Hp Hel Hnl Hc Ht He Hn]. unfold countEntries.
    destruct (countEntries_loop_ok (sc_table sc) (sc_next sc) 0)
      as (next' & ns & -> & Hsh & Hch); [done| |].
    { eapply Forall_impl; [exact Ht|]. cbn. lia. }
    cbn [res_bind]. unfold copyEntries. cbn [table entries sc_table sc_mask mask].
    pose proof (chains_sum_nonneg _ _ _ Hch).
    edestruct (copyEntries_loop_ok buf (mkScanner (sc_table sc) (sc_entries sc) next' (sc_mask sc)
        (sc_count sc)) (sc_table sc) ns (replicate (Z.to_nat (0 + sum ns + 1)) 0) 1) as (tb' & es' & -> & ? & ? & ? & Hes');
      cbn [sc_next sc_entries].
    + eauto using shorter_next_ok.
    + rewrite (proj1 Hsh). lia.
    + done.
    + done.
    + apply (Forall_replicate (block_offset buf)). unfold block_offset, blksz in *. lia.
    + lia.
    + rewrite len_replicate. lia.
    + cbn [res_bind]. eexists. split; [reflexivity|]. rewrite len_replicate in *.
      split; [|split; [done|split; [|cbn; lia]]].
      * intros _. exists p. cbn. rewrite Hm. split; [done|]. split; [done|congruence].
      * eapply Forall_impl; [exact Hes'|]. unfold block_offset, blksz. cbn. lia.
Qed.

(** ** Matches *)

Lemma matchLength_loop_ok fuel src tgt otgt osrc l :
  0 <= osrc <= len src -> 0 <= otgt <= len tgt -> len tgt - otgt < Z.of_nat fuel ->
  exists k, matchLength_loop fuel src tgt otgt osrc l = Ok (l + k) /\ 0 <= k /\
    osrc + k <= len src /\ otgt + k <= len tgt /\
    seg src osrc (osrc + k) = seg tgt otgt (otgt + k).
Proof.
  revert otgt osrc l. induction fuel as [|fuel IH]; intros otgt osrc l Hs Ht Hf; [lia|].
  cbn [matchLength_loop].
  assert (exists k, Ok l = Ok (l + k) /\ 0 <= k /\ osrc + k <= len src /\ otgt + k <= len tgt /\
    seg src osrc (osrc + k) = seg tgt otgt (otgt + k)) as Hstop.
  { exists 0. rewrite !Z.add_0_r, !seg_empty by lia. auto with lia. }
  destruct (Z.ltb_spec osrc (len src)), (Z.ltb_spec otgt (len tgt)); cbn [andb]; auto.
  destruct (index_ok src osrc) as (a & -> & Ha); [lia|]. cbn [res_bind].
  destruct (index_ok tgt otgt) as (b & -> & Hb); [lia|]. cbn [res_bind].
  case_bool_decide as Eab; [|auto]. subst b.
  destruct (IH (otgt + 1) (osrc + 1) (l + 1)) as (k & -> & ? & ? & ? & Hseg); [lia..|].
  exists (1 + k). split; [f_equal; lia|]. split; [lia|]. split; [lia|]. split; [lia|].
  rewrite <- (seg_app src osrc (osrc + 1)), <- (seg_app tgt otgt (otgt + 1)) by lia.
  rewrite (seg_one src osrc a), (seg_one tgt otgt a) by (done || lia).
  rewrite !Z.add_assoc, Hseg. reflexivity.
Qed.

(** What [diffDelta] may assume of the pair returned by [findMatch]. *)
Definition match_ok (src tgt : bytes) (i off l : Z) : Prop :=
  l < 0 \/ l = 0 \/ (0 < l < s /\ i + l <= len tgt) \/
  (s <= l /\ 0 <= off /\ off + l <= len src /\ i + l <= len tgt /\
   seg src off (off + l) = seg tgt i (i + l)).

Lemma findMatch_ok src tgt idx i :
  index_for src idx -> 0 <= i < len tgt ->
  exists off l, findMatch idx src tgt i = Ok (off, l) /\ match_ok src tgt i off l.
Proof.
  intros (Htab & Ht & He & Hne) Hi. unfold findMatch, match_ok, s, blksz in *.
  destruct (Z.ltb_spec (len tgt) (i + 16)).
  { do 2 eexists. split; [reflexivity|]. lia. }
  destruct (Z.ltb_spec (len src) 16).
  { do 2 eexists. split; [reflexivity|]. lia. }
  destruct (Htab ltac:(lia)) as (p & Hp & -> & Hlen).
  destruct (hashBlock_ok tgt i) as (h & -> & _); [lia|unfold blksz; lia|]. cbn [res_bind].
  pose proof (land_mask_range h p Hp).
  destruct (index_ok (table idx) (Z.land h (2 ^ p - 1))) as (eIdx & Ee & _); [lia|].
  rewrite Ee. cbn [res_bind].
  destruct (Z.eqb_spec eIdx 0). { do 2 eexists. split; [reflexivity|]. lia. }
  pose proof (Forall_index _ _ _ _ Ht Ee) as HeIdx. cbv beta in HeIdx.
  destruct (index_ok (entries idx) eIdx) as (off & Eo & _); [lia|]. rewrite Eo. cbn [res_bind].
  pose proof (Forall_index _ _ _ _ He Eo) as Hoff. cbv beta in Hoff. unfold matchLength.
  destruct (matchLength_loop_ok (S (length tgt)) src tgt i off 0)
    as (k & -> & ? & ? & ? & ?); [lia|lia|unfold len in *; lia|].
  cbn [res_bind]. do 2 eexists. split; [reflexivity|]. rewrite Z.add_0_l.
  destruct (Z.eq_dec k 0); [lia|]. destruct (Z.lt_ge_cases k 16); [lia|]. auto 10 with lia.
Qed.
