(* ===== verification/Delta.v ===== *)
(** * Delta encoding and decoding

    Model of [plumbing/format/packfile/diff_delta.go] (the encoder) and
    [plumbing/format/packfile/patch_delta.go] (three decoders: [patchDelta] on
    slices, [patchDeltaWriter] on streams that also hashes, and
    [ReaderFromDelta], which feeds a pipe).  [uint] is 64 bits wide. *)
From S2P Require Import Prelude DeltaIndex.

(** ** Constants *)
Definition maxCopySize : Z := 64 * 1024.
Definition minCopySize : Z := 4.
Definition payload : Z := 0x7f.
Definition continuation : Z := 0x80.
Definition minDeltaSize : Z := 4.
Definition MaxInt32 : Z := 2 ^ 31 - 1.

(** The tables [offsets] and [sizes] (patch_delta.go:44-55): mask and shift. *)
Definition offsets : list (Z * Z) := [(0x01, 0); (0x02, 8); (0x04, 16); (0x08, 24)].
Definition sizes : list (Z * Z) := [(0x10, 0); (0x20, 8); (0x40, 16)].

(** ** The encoder *)

Fixpoint deltaEncodeSize_loop (fuel : nat) (c size : Z) (ret : bytes) : res bytes :=
  match fuel with
  | O => NoFuel
  | S fuel =>
    if size =? 0 then Ok (ret ++ [z2b c])
    else deltaEncodeSize_loop fuel (Z.land size 0x7f) (Z.shiftr size 7)
           (ret ++ [z2b (Z.lor c 0x80)])
  end.

(** [deltaEncodeSize] (diff_delta.go:164); nine groups of seven bits hold every
    non-negative [int], so ten rounds are enough. *)
Definition deltaEncodeSize (size : Z) : res bytes :=
  deltaEncodeSize_loop 10 (Z.land size 0x7f) (Z.shiftr size 7) [].

(** One of the two loops of [encodeCopyOperation]: the bytes of [x] at the
    positions [ks] that are not zero, with their flag in [code]. *)
Fixpoint encodeCopyParts (ks : list Z) (flag x code : Z) (opcodes : bytes) : Z * bytes :=
  match ks with
  | [] => (code, opcodes)
  | i :: ks =>
    let f := Z.shiftl 0xff (i * 8) in
    if negb (Z.land x f =? 0) then
      encodeCopyParts ks flag x (Z.lor code (Z.shiftl flag i))
        (opcodes ++ [z2b (Z.shiftr (Z.land x f) (i * 8))])
    else encodeCopyParts ks flag x code opcodes
  end.

Definition encodeCopyOperation (offset length : Z) : bytes :=
  let '(code, opcodes) := encodeCopyParts [0; 1; 2; 3] 0x01 offset 0x80 [] in
  let '(code, opcodes) := encodeCopyParts [0; 1; 2] 0x10 length code opcodes in
  z2b code :: opcodes.

Fixpoint encodeInsert_loop (fuel : nat) (b : bytes) (s o : Z) (buf : bytes) : res bytes :=
  match fuel with
  | O => NoFuel
  | S fuel =>
    if s <=? 127 then
      let* chunk := slice b o (o + s) in Ok (buf ++ z2b s :: chunk)
    else
      let* chunk := slice b o (o + 127) in
      encodeInsert_loop fuel b (s - 127) (o + 127) (buf ++ z2b 127 :: chunk)
  end.

(** [encodeInsertOperation] (diff_delta.go:141): the buffer [buf] afterwards;
    [ibuf] is empty in both cases. *)
Definition encodeInsertOperation (ibuf buf : bytes) : res bytes :=
  if len ibuf =? 0 then Ok buf
  else encodeInsert_loop (S (length ibuf)) ibuf (len ibuf) 0 buf.

(** The copy loop of [diffDelta] (diff_delta.go:120). *)
Fixpoint encodeCopies (fuel : nat) (aOffset rl : Z) (buf : bytes) : res bytes :=
  match fuel with
  | O => NoFuel
  | S fuel =>
    if rl >? 0 then
      if rl <? maxCopySize then Ok (buf ++ encodeCopyOperation aOffset rl)
      else encodeCopies fuel (aOffset + maxCopySize) (rl - maxCopySize)
             (buf ++ encodeCopyOperation aOffset maxCopySize)
    else Ok buf
  end.

(** The main loop of [diffDelta] (diff_delta.go:96); [i++] is folded into the
    recursive calls. *)
Fixpoint diffDelta_loop (fuel : nat) (index : deltaIndex) (src tgt : bytes) (i : Z)
    (ibuf buf : bytes) : res (bytes * bytes) :=
  match fuel with
  | O => NoFuel
  | S fuel =>
    if i <? len tgt then
      let* (offset, l) := findMatch index src tgt i in
      if l =? 0 then
        let* b := Prelude.index tgt i in
        diffDelta_loop fuel index src tgt (i + 1) (ibuf ++ [b]) buf
      else if l <? 0 then
        let* rest := slice tgt i (len tgt) in
        diffDelta_loop fuel index src tgt (len tgt + 1) (ibuf ++ rest) buf
      else if l <? s then
        let* chunk := slice tgt i (i + l) in
        diffDelta_loop fuel index src tgt (i + l) (ibuf ++ chunk) buf
      else
        let* buf := encodeInsertOperation ibuf buf in
        let* buf := encodeCopies (S (Z.to_nat l)) offset l buf in
        diffDelta_loop fuel index src tgt (i + l) [] buf
    else Ok (ibuf, buf)
  end.

Definition diffDelta (index : deltaIndex) (src tgt : bytes) : res bytes :=
  let* hs := deltaEncodeSize (len src) in
  let* ht := deltaEncodeSize (len tgt) in
  let* index := if len (entries index) =? 0 then init src else Ok index in
  let* (ibuf, buf) := diffDelta_loop (S (length tgt)) index src tgt 0 [] (hs ++ ht) in
  encodeInsertOperation ibuf buf.

Definition DiffDelta (src tgt : bytes) : res bytes := diffDelta newDeltaIndex src tgt.

(** ** Reading the delta *)

Fixpoint decodeLEB128_loop (input : bytes) (num sz : Z) : Z * bytes :=
  match input with
  | [] => (num, [])
  | b :: rest =>
    let num := Z.lor num (u64 (Z.shiftl (Z.land (b2z b) payload) (sz * 7))) in
    let sz := sz + 1 in
    if Z.land (b2z b) continuation =? 0 then (num, rest)
    else decodeLEB128_loop rest num sz
  end.

(** [decodeLEB128] (patch_delta.go:423): an input that ends inside the number is
    not an error, the number read so far is returned. *)
Definition decodeLEB128 (input : bytes) : Z * bytes :=
  if len input =? 0 then (0, input) else decodeLEB128_loop input 0 0.

Fixpoint decodeLEB128ByteReader_loop (input : bytes) (num sz : Z) : res (Z * bytes) :=
  match input with
  | [] => Err EOF
  | b :: rest =>
    let num := Z.lor num (u64 (Z.shiftl (Z.land (b2z b) payload) (sz * 7))) in
    let sz := sz + 1 in
    if Z.land (b2z b) continuation =? 0 then Ok (num, rest)
    else decodeLEB128ByteReader_loop rest num sz
  end.

Definition decodeLEB128ByteReader (input : bytes) : res (Z * bytes) :=
  decodeLEB128ByteReader_loop input 0 0.

Definition isCopyFromSrc (cmd : byte) : bool := negb (Z.land (b2z cmd) continuation =? 0).

Definition isCopyFromDelta (cmd : byte) : bool :=
  (Z.land (b2z cmd) continuation =? 0) && negb (b2z cmd =? 0).

(** The loop shared by the four decoders of offsets and sizes; [e] is the error
    when the delta ends. *)
Fixpoint decodeParts (e : error) (ps : list (Z * Z)) (cmd : byte) (acc : Z) (delta : bytes)
    : res (Z * bytes) :=
  match ps with
  | [] => Ok (acc, delta)
  | (m, shift) :: ps =>
    if negb (Z.land (b2z cmd) m =? 0) then
      match delta with
      | [] => Err e
      | next :: delta =>
        decodeParts e ps cmd (Z.lor acc (u64 (Z.shiftl (b2z next) shift))) delta
      end
    else decodeParts e ps cmd acc delta
  end.

Definition decodeOffset (cmd : byte) (delta : bytes) : res (Z * bytes) :=
  decodeParts ErrInvalidDelta offsets cmd 0 delta.

Definition decodeOffsetByteReader (cmd : byte) (delta : bytes) : res (Z * bytes) :=
  decodeParts EOF offsets cmd 0 delta.

Definition decodeSize (cmd : byte) (delta : bytes) : res (Z * bytes) :=
  let* (sz, delta) := decodeParts ErrInvalidDelta sizes cmd 0 delta in
  Ok (if sz =? 0 then maxCopySize else sz, delta).

Definition decodeSizeByteReader (cmd : byte) (delta : bytes) : res (Z * bytes) :=
  let* (sz, delta) := decodeParts EOF sizes cmd 0 delta in
  Ok (if sz =? 0 then maxCopySize else sz, delta).

Definition sumOverflows (a b : Z) : bool := u64 (a + b) <? a.
Definition invalidSize (sz targetSz : Z) : bool := sz >? targetSz.
Definition invalidOffsetSize (offset sz srcSz : Z) : bool :=
  sumOverflows offset sz || (u64 (offset + sz) >? srcSz).

(** ** [patchDelta] and its callers *)

(** The command loop of [patchDelta] (patch_delta.go:255).  The [break] taken on
    an invalid copy leaves the [switch], not the loop: the copy is skipped and
    reading goes on with the next command.  [remainingTargetSz] is a [uint], so
    it wraps when a command writes more than what remains. *)
Fixpoint patchDelta_loop (fuel : nat) (src : bytes) (srcSz targetSz remainingTargetSz : Z)
    (dst delta : bytes) : res bytes :=
  match fuel with
  | O => NoFuel
  | S fuel =>
    let next remainingTargetSz dst delta :=
      if remainingTargetSz <=? 0 then Ok dst
      else patchDelta_loop fuel src srcSz targetSz remainingTargetSz dst delta in
    match delta with
    | [] => Err ErrInvalidDelta
    | cmd :: delta =>
      if isCopyFromSrc cmd then
        let* (offset, delta) := decodeOffset cmd delta in
        let* (sz, delta) := decodeSize cmd delta in
        if invalidSize sz targetSz || invalidOffsetSize offset sz srcSz then
          next remainingTargetSz dst delta
        else
          let* chunk := slice src offset (u64 (offset + sz)) in
          next (u64 (remainingTargetSz - sz)) (dst ++ chunk) delta
      else if isCopyFromDelta cmd then
        let sz := b2z cmd in
        if invalidSize sz targetSz then Err ErrInvalidDelta
        else if len delta <? sz then Err ErrInvalidDelta
        else
          let* chunk := slice delta 0 sz in
          let* delta := slice delta sz (len delta) in
          next (u64 (remainingTargetSz - sz)) (dst ++ chunk) delta
      else Err ErrDeltaCmd
    end
  end.

(** [patchDelta] (patch_delta.go:238): the contents of [dst] on success. *)
Definition patchDelta (dst src delta : bytes) : res bytes :=
  if len delta <? minCopySize then Err ErrInvalidDelta
  else
    let '(srcSz, delta) := decodeLEB128 delta in
    if negb (srcSz =? len src) then Err ErrInvalidDelta
    else
      let '(targetSz, delta) := decodeLEB128 delta in
      patchDelta_loop (S (length delta)) src srcSz targetSz targetSz dst delta.

Definition PatchDelta (src delta : bytes) : res bytes :=
  if (len src =? 0) || (len delta <? minDeltaSize) then Err ErrInvalidDelta
  else patchDelta [] src delta.

(** An [EncodedObject] as the delta code sees it: [Size()] and what [Reader()] yields. *)
Record encodedObject := mkObj { objSize : Z; objContent : bytes }.

(** [ApplyDelta] (patch_delta.go:58): the size given to [target.SetSize] and the
    bytes written to [target.Writer()]. *)
Definition ApplyDelta (base : encodedObject) (delta : bytes) : res (Z * bytes) :=
  let* dst := patchDelta [] (objContent base) delta in
  Ok (len dst, dst).

(** ** [patchDeltaWriter] *)
Section PatchDeltaWriter.

(** The object hash ([plumbing.NewHasher(format.SHA1, typ, size)] fed with the
    content), a parameter: the SHA-1 implementation is not part of the repository. *)
Context {ObjectType : Type} (hasher : ObjectType -> Z -> bytes -> bytes).

Definition ZeroHash : bytes := replicate 20 x00.

(** The values [patchDeltaWriter] returns: size, hash, and what was written to
    [dst].  A Go error is [Err]. *)
Definition pdwResult : Type := Z * bytes * bytes.

(** The command loop (patch_delta.go:362).  The two [return 0, ZeroHash, err] of
    an invalid copy and of an unknown command are reached with [err == nil]. *)
Fixpoint patchDeltaWriter_loop (fuel : nat) (base : bytes) (srcSz targetSz remainingTargetSz : Z)
    (typ : ObjectType) (dst written delta : bytes) : res pdwResult :=
  match fuel with
  | O => NoFuel
  | S fuel =>
    let next remainingTargetSz chunk delta :=
      if remainingTargetSz <=? 0
      then Ok (targetSz, hasher typ targetSz (written ++ chunk), dst ++ chunk)
      else patchDeltaWriter_loop fuel base srcSz targetSz remainingTargetSz typ
             (dst ++ chunk) (written ++ chunk) delta in
    match delta with
    | [] => Err ErrInvalidDelta
    | cmd :: delta =>
      if isCopyFromSrc cmd then
        let* (offset, delta) := decodeOffsetByteReader cmd delta in
        let* (sz, delta) := decodeSizeByteReader cmd delta in
        if invalidSize sz targetSz || invalidOffsetSize offset sz srcSz
        then Ok (0, ZeroHash, dst)
        else
          (* a section reader over [base[0:srcSz]] at [offset], limited to [sz];
             copying fewer bytes is not an error *)
          let chunk := take (Z.to_nat sz) (drop (Z.to_nat offset) (take (Z.to_nat srcSz) base)) in
          next (u64 (remainingTargetSz - sz)) chunk delta
      else if isCopyFromDelta cmd then
        let sz := b2z cmd in
        if invalidSize sz targetSz then Err ErrInvalidDelta
        else next (u64 (remainingTargetSz - sz)) (take (Z.to_nat sz) delta)
                  (drop (Z.to_nat sz) delta)
      else Ok (0, ZeroHash, dst)
    end
  end.

Definition eofInvalid {A} (m : res A) : res A :=
  match m with Err EOF => Err ErrInvalidDelta | _ => m end.

(** [bytes.Buffer.Grow]: a negative count panics.  That there is memory for the
    others is assumed, as for every other allocation. *)
Definition buffer_Grow (n : Z) : res unit := if n <? 0 then Panic else Ok tt.

(** [patchDeltaWriter] (patch_delta.go:310).  [isBytesReader] tells whether [base]
    is a [*bytes.Reader], [isBuffer] whether [dst] is a [*bytes.Buffer];
    [writeHeader] is the optional callback, given the
    target size and returning its error, if any. *)
Definition patchDeltaWriter (dst base : bytes) (isBytesReader isBuffer : bool) (delta : bytes)
    (typ : ObjectType) (writeHeader : option (ObjectType -> Z -> option bytes)) : res pdwResult :=
  let* (srcSz, delta) := eofInvalid (decodeLEB128ByteReader delta) in
  if isBytesReader && negb (srcSz =? len base) then Err ErrInvalidDelta
  else
    let* (targetSz, delta) := eofInvalid (decodeLEB128ByteReader delta) in
    let* _ := if isBuffer then buffer_Grow (i64 targetSz) else Ok tt in
    let* _ := match writeHeader with
              | None => Ok tt
              | Some f => match f typ (i64 targetSz) with
                          | Some msg => Err (ErrLazyWriteHeader msg) | None => Ok tt end
              end in
    patchDeltaWriter_loop (S (length delta)) base srcSz targetSz targetSz typ dst [] delta.

End PatchDeltaWriter.

(** ** [ReaderFromDelta]

    The goroutine writes into a pipe and closes it with an error; the reader of
    the pipe sees the bytes written and then that error, where a plain [Close]
    is [EOF]. *)

(** The two discard loops (patch_delta.go:185-202): position of the base reader
    and [basePos] afterwards. *)
Fixpoint discardLoop (fuel : nat) (base : bytes) (pos basePos discard : Z) : res (Z * Z) :=
  match fuel with
  | O => NoFuel
  | S fuel =>
    if discard >? MaxInt32 then
      if pos + MaxInt32 <=? len base
      then discardLoop fuel base (pos + MaxInt32) (u64 (basePos + MaxInt32)) (discard - MaxInt32)
      else Err EOF
    else if discard >? 0 then
      if pos + discard <=? len base then Ok (pos + discard, u64 (basePos + discard)) else Err EOF
    else Ok (pos, basePos)
  end.

(** [pos] is the real position of the base reader, [basePos] the variable the code
    keeps; a reader reset starts again at 0 and leaves [basePos] as it is. *)
Fixpoint readerFromDelta_loop (fuel : nat) (base : bytes) (srcSz targetSz remainingTargetSz : Z)
    (pos basePos : Z) (dst delta : bytes) : res (bytes * error) :=
  match fuel with
  | O => NoFuel
  | S fuel =>
    let next remainingTargetSz pos basePos dst delta :=
      if remainingTargetSz <=? 0 then Ok (dst, EOF)
      else readerFromDelta_loop fuel base srcSz targetSz remainingTargetSz pos basePos dst delta in
    match delta with
    | [] => Ok (dst, ErrInvalidDelta)
    | cmd :: delta =>
      if isCopyFromSrc cmd then
        match decodeOffsetByteReader cmd delta with
        | Ok (offset, delta) =>
          match decodeSizeByteReader cmd delta with
          | Ok (sz, delta) =>
            if invalidSize sz targetSz || invalidOffsetSize offset sz srcSz then Ok (dst, EOF)
            else
              let '(pos, discard) :=
                if basePos >? offset then (0, offset) else (pos, u64 (offset - basePos)) in
              match discardLoop 4 base pos basePos discard with
              | Ok (pos, basePos) =>
                let chunk := take (Z.to_nat sz) (drop (Z.to_nat pos) base) in
                next (u64 (remainingTargetSz - sz)) (pos + len chunk) (u64 (basePos + sz))
                     (dst ++ chunk) delta
              | Err e => Ok (dst, e)
              | Panic => Panic
              | NoFuel => NoFuel
              end
          | Err e => Ok (dst, e)
          | Panic => Panic
          | NoFuel => NoFuel
          end
        | Err e => Ok (dst, e)
        | Panic => Panic
        | NoFuel => NoFuel
        end
      else if isCopyFromDelta cmd then
        let sz := b2z cmd in
        if invalidSize sz targetSz then Ok (dst, ErrInvalidDelta)
        else next (u64 (remainingTargetSz - sz)) pos basePos
                  (dst ++ take (Z.to_nat sz) delta) (drop (Z.to_nat sz) delta)
      else Ok (dst, ErrDeltaCmd)
    end
  end.

Definition ReaderFromDelta (base : encodedObject) (delta : bytes) : res (bytes * error) :=
  let* (srcSz, delta) := eofInvalid (decodeLEB128ByteReader delta) in
  if negb (srcSz =? u64 (objSize base)) then Err ErrInvalidDelta
  else
    let* (targetSz, delta) := eofInvalid (decodeLEB128ByteReader delta) in
    readerFromDelta_loop (S (length delta)) (objContent base) srcSz targetSz targetSz 0 0 [] delta.

Lemma Grow_fits (isBuffer : bool) n : 0 <= n < 2 ^ 63 -> (if isBuffer then buffer_Grow (i64 n) else Ok tt) = Ok tt.
Proof. intros Hn. unfold buffer_Grow. rewrite i64_small by lia. destruct (Z.ltb_spec n 0); [lia|]. by destruct isBuffer. Qed.
