(* ===== verification/DeltaProofs.v ===== *)
(** * Correctness of the delta codec

    The encoder and the three decoders of Delta.v are related through the list of
    operations ([op]) that a delta denotes: the encoder emits valid operations
    that rebuild the target, and the decoders run them. *)
From S2P Require Import Prelude DeltaIndex Delta.

(** ** Bytes of an integer *)

(** The [i]-th byte of [x], in place. *)
Definition part (x i : Z) : Z := Z.land x (Z.shiftl 0xff (i * 8)).

Lemma part_shift x i : 0 <= i -> 
  Z.shiftr (part x i) (i * 8) = Z.land (Z.shiftr x (i * 8)) 0xff.
Proof.
  intros. unfold part. rewrite Z.shiftr_land, Z.shiftr_shiftl_l by lia.
  rewrite Z.sub_diag, Z.shiftl_0_r. done.
Qed.

Lemma part_byte x i : 0 <= i ->
  Z.shiftl (b2z (z2b (Z.shiftr (part x i) (i * 8)))) (i * 8) = part x i.
Proof.
  intros. rewrite b2z_z2b, Z.mod_small.
  - rewrite part_shift by done. unfold part. rewrite Z.shiftl_land.
    rewrite <- Z.ldiff_ones_r by lia. apply Z.bits_inj'. intros n Hn.
    rewrite !Z.land_spec, Z.ldiff_spec, Z.testbit_ones_nonneg by lia.
    rewrite (Z.shiftl_spec 255) by lia.
    destruct (Z.ltb_spec n (i * 8)); cbn; [|by rewrite andb_true_r].
    rewrite (Z.testbit_neg_r 255) by lia. by rewrite !andb_false_r.
  - rewrite part_shift by done. change 0xff with (Z.ones 8). rewrite Z.land_ones by lia.
    apply Z.mod_pos_bound. lia.
Qed.

Lemma part_range x i : 0 <= i < 8 -> 0 <= part x i < 2 ^ 64.
Proof.
  intros. assert (0 <= part x i) by (apply Z.land_nonneg; right; apply Z.shiftl_nonneg; lia).
  split; [done|]. apply below_pow2; [lia|done|]. intros n Hn. unfold part.
  rewrite Z.land_spec, Z.shiftl_spec by lia.
  change 0xff with (Z.ones 8). rewrite (Z.ones_spec_high 8) by lia. apply andb_false_r.
Qed.

Lemma parts_join ks x : foldr (fun i a => Z.lor (part x i) a) 0 ks =
  Z.land x (foldr (fun i a => Z.lor (Z.shiftl 0xff (i * 8)) a) 0 ks).
Proof.
  induction ks as [|i ks IH]; cbn [foldr]; [by rewrite Z.land_0_r|].
  rewrite IH. unfold part. by rewrite Z.land_lor_distr_r.
Qed.

(** ** Copy commands *)

Lemma encodeCopyParts_spec ks flag x code ops :
  encodeCopyParts ks flag x code ops =
  (foldl (fun c i => if part x i =? 0 then c else Z.lor c (Z.shiftl flag i)) code ks,
   ops ++ flat_map (fun i => if part x i =? 0 then [] else [z2b (Z.shiftr (part x i) (i * 8))]) ks).
Proof.
  revert code ops. induction ks as [|i ks IH]; intros; cbn [encodeCopyParts foldl flat_map].
  - by rewrite app_nil_r.
  - unfold part in *. destruct (Z.land x _ =? 0); cbn [negb]; rewrite IH; [done|].
    by rewrite <- app_assoc.
Qed.

(** Decoding the parts written for the positions [ks] of [x] under a command whose
    flags say which of them are present. *)
Lemma decodeParts_spec e ks base cmd x acc rest :
  0 <= base -> Forall (fun i => 0 <= i < 8) ks ->
  (forall i, In i ks -> Z.testbit (b2z cmd) (base + i) = negb (part x i =? 0)) ->
  decodeParts e (map (fun i => (2 ^ (base + i), i * 8)) ks) cmd acc
    (flat_map (fun i => if part x i =? 0 then [] else [z2b (Z.shiftr (part x i) (i * 8))]) ks ++ rest)
  = Ok (Z.lor acc (foldr (fun i a => Z.lor (part x i) a) 0 ks), rest).
Proof.
  intros Hb Hks. revert acc. induction Hks as [|i ks Hi _ IH]; intros acc Hcmd;
    cbn [map decodeParts flat_map foldr app].
  - by rewrite Z.lor_0_r.
  - rewrite land_pow2_testbit by lia. rewrite (Hcmd i) by (left; done).
    specialize (fun a => IH a (fun j Hj => Hcmd j (or_intror Hj))).
    destruct (Z.eqb_spec (part x i) 0) as [E|E]; cbn [negb app].
    + rewrite IH. rewrite E, Z.lor_0_l. done.
    + rewrite IH, part_byte, u64_small by (lia || apply part_range; lia).
      by rewrite Z.lor_assoc.
Qed.

Definition copyCode (off sz : Z) : Z :=
  foldl (fun c i => if part sz i =? 0 then c else Z.lor c (Z.shiftl 0x10 i))
    (foldl (fun c i => if part off i =? 0 then c else Z.lor c (Z.shiftl 0x01 i)) 0x80 [0; 1; 2; 3])
    [0; 1; 2].

Definition partBytes (ks : list Z) (x : Z) : bytes :=
  flat_map (fun i => if part x i =? 0 then [] else [z2b (Z.shiftr (part x i) (i * 8))]) ks.

Lemma encodeCopyOperation_spec off sz :
  encodeCopyOperation off sz =
  z2b (copyCode off sz) :: partBytes [0; 1; 2; 3] off ++ partBytes [0; 1; 2] sz.
Proof.
  unfold encodeCopyOperation. rewrite encodeCopyParts_spec. cbv beta iota.
  rewrite encodeCopyParts_spec. reflexivity.
Qed.

Lemma copyCode_bits off sz :
  isCopyFromSrc (z2b (copyCode off sz)) = true /\
  (forall i, In i [0; 1; 2; 3] -> Z.testbit (b2z (z2b (copyCode off sz))) (0 + i) = negb (part off i =? 0)) /\
  (forall i, In i [0; 1; 2] -> Z.testbit (b2z (z2b (copyCode off sz))) (4 + i) = negb (part sz i =? 0)).
Proof.
  unfold copyCode. cbn [foldl].
  destruct (part off 0 =? 0) eqn:E0, (part off 1 =? 0) eqn:E1, (part off 2 =? 0) eqn:E2,
    (part off 3 =? 0) eqn:E3, (part sz 0 =? 0) eqn:E4, (part sz 1 =? 0) eqn:E5,
    (part sz 2 =? 0) eqn:E6;
  (split; [vm_compute; reflexivity|]); split; cbn [In]; intros i Hi; 
  repeat (destruct Hi as [<-|Hi]); try contradiction;
  rewrite ?E0, ?E1, ?E2, ?E3, ?E4, ?E5, ?E6; vm_compute; reflexivity.
Qed.

(** [decodeOffset] and [decodeSize] undo [encodeCopyOperation]. *)
Lemma decodeOffset_spec e off sz rest :
  0 <= off < 2 ^ 32 ->
  decodeParts e offsets (z2b (copyCode off sz)) 0 (partBytes [0; 1; 2; 3] off ++ rest) = Ok (off, rest).
Proof.
  intros Hoff. destruct (copyCode_bits off sz) as (_ & Hb & _).
  change offsets with (map (fun i => (2 ^ (0 + i), i * 8)) [0; 1; 2; 3]). unfold partBytes.
  rewrite decodeParts_spec; [|lia|repeat constructor; lia|done].
  rewrite parts_join, Z.lor_0_l. do 2 f_equal. apply (land_low_mask off 32); lia.
Qed.

Lemma decodeSizes_spec e off sz rest :
  0 <= sz < 2 ^ 24 ->
  decodeParts e sizes (z2b (copyCode off sz)) 0 (partBytes [0; 1; 2] sz ++ rest) = Ok (sz, rest).
Proof.
  intros Hsz. destruct (copyCode_bits off sz) as (_ & _ & Hb).
  change sizes with (map (fun i => (2 ^ (4 + i), i * 8)) [0; 1; 2]). unfold partBytes.
  rewrite decodeParts_spec; [|lia|repeat constructor; lia|done].
  rewrite parts_join, Z.lor_0_l. do 2 f_equal. apply (land_low_mask sz 24); lia.
Qed.

(** ** The delta as a list of operations *)

Inductive op := OpCopy (off sz : Z) | OpInsert (data : bytes).

Definition encodeOp (o : op) : bytes :=
  match o with
  | OpCopy off sz => encodeCopyOperation off sz
  | OpInsert data => z2b (len data) :: data
  end.

Definition encodeOps (ops : list op) : bytes := flat_map encodeOp ops.

Definition applyOp (src : bytes) (o : op) : bytes :=
  match o with
  | OpCopy off sz => seg src off (off + sz)
  | OpInsert data => data
  end.

Definition applyOps (src : bytes) (ops : list op) : bytes := flat_map (applyOp src) ops.

Definition op_ok (src : bytes) (o : op) : Prop :=
  match o with
  | OpCopy off sz => 0 <= off /\ 0 < sz < 2 ^ 24 /\ off + sz <= len src
  | OpInsert data => 0 < len data <= 127
  end.

Lemma applyOp_len src o : op_ok src o -> 0 < len (applyOp src o).
Proof.
  destruct o as [off sz|d]; cbn; intros; [|lia]. rewrite len_seg by lia. lia.
Qed.

Lemma isCopyFromSrc_small d : 0 < d <= 127 ->
  isCopyFromSrc (z2b d) = false /\ isCopyFromDelta (z2b d) = true.
Proof.
  intros. unfold isCopyFromSrc, isCopyFromDelta, continuation. rewrite z2b_small by lia.
  change 0x80 with (2 ^ 7). pose proof (land_pow2_testbit d 7 ltac:(lia)) as Hb.
  rewrite (testbit_above 7 d 7) in Hb by lia.
  destruct (Z.land d (2 ^ 7) =? 0); [|done]. cbn [negb andb] in *. destruct (Z.eqb_spec d 0); [lia|done].
Qed.

Definition sizes_fit (src : bytes) (targetSz : Z) (o : op) : Prop :=
  op_ok src o /\ len (applyOp src o) <= targetSz.

(** One command of the loop of [patchDelta]. *)
Lemma patchDelta_step fuel src targetSz remaining dst o rest :
  len src < 2 ^ 32 -> sizes_fit src targetSz o ->
  patchDelta_loop (S fuel) src (len src) targetSz remaining dst (encodeOp o ++ rest) =
  let remaining' := u64 (remaining - len (applyOp src o)) in
  if remaining' <=? 0 then Ok (dst ++ applyOp src o)
  else patchDelta_loop fuel src (len src) targetSz remaining' (dst ++ applyOp src o) rest.
Proof.
  intros Hsrc [Hok Hfit]. pose proof (len_nonneg src). destruct o as [off sz|d]; cbn [op_ok applyOp encodeOp] in *.
  - rewrite encodeCopyOperation_spec. cbn [app patchDelta_loop]. rewrite <- app_assoc.
    rewrite (proj1 (copyCode_bits off sz)). unfold decodeOffset, decodeSize.
    rewrite decodeOffset_spec by lia. cbn [res_bind]. rewrite decodeSizes_spec by lia. cbn [res_bind].
    destruct (Z.eqb_spec sz 0); [lia|]. rewrite len_seg in * by lia.
    replace (off + sz - off) with sz in * by lia.
    unfold invalidSize, invalidOffsetSize, sumOverflows. rewrite u64_small by lia.
    destruct (Z.gtb_spec sz targetSz), (Z.ltb_spec (off + sz) off), (Z.gtb_spec (off + sz) (len src));
      try lia. cbn [orb]. rewrite slice_ok by lia. reflexivity.
  - cbn [app patchDelta_loop]. destruct (isCopyFromSrc_small (len d)) as [-> ->]; [done|].
    unfold invalidSize. rewrite z2b_small by lia. rewrite len_app. pose proof (len_nonneg rest).
    destruct (Z.gtb_spec (len d) targetSz), (Z.ltb_spec (len d + len rest) (len d)); try lia.
    rewrite !slice_ok by len_lia. cbn [res_bind].
    replace (seg (d ++ rest) 0 (len d)) with d.
    2: { unfold seg, len. rewrite drop_0, take_app_length'; [done|lia]. }
    replace (seg (d ++ rest) (len d) (len d + len rest)) with rest; [done|].
    unfold seg, len. rewrite drop_app_length' by lia. rewrite take_ge; [done|lia].
Qed.

Lemma patchDelta_ops fuel src targetSz dst ops rest :
  len src < 2 ^ 32 -> ops <> [] -> Forall (sizes_fit src targetSz) ops ->
  len (applyOps src ops) < 2 ^ 64 -> (length ops <= fuel)%nat ->
  patchDelta_loop fuel src (len src) targetSz (len (applyOps src ops)) dst (encodeOps ops ++ rest)
  = Ok (dst ++ applyOps src ops).
Proof.
  intros Hsrc Hne Hfit. revert fuel dst. induction Hfit as [|o ops Ho Hops IH]; [done|].
  intros [|fuel] dst Hlen Hf; cbn [length] in Hf; [lia|].
  cbn [encodeOps applyOps flat_map] in *. fold (encodeOps ops) (applyOps src ops) in *.
  rewrite <- app_assoc, patchDelta_step by done. cbv zeta. rewrite len_app in *.
  pose proof (len_nonneg (applyOps src ops)). pose proof (applyOp_len src o (proj1 Ho)).
  replace (len (applyOp src o) + len (applyOps src ops) - len (applyOp src o))
    with (len (applyOps src ops)) by lia.
  rewrite u64_small by lia. destruct ops as [|o' ops].
  - cbn. by rewrite app_nil_r.
  - assert (0 < len (applyOps src (o' :: ops))).
    { inversion Hops as [|? ? Ho']; subst. pose proof (applyOp_len src o' (proj1 Ho')).
      cbn [applyOps flat_map]. rewrite len_app. pose proof (len_nonneg (flat_map (applyOp src) ops)). lia. }
    destruct (Z.leb_spec (len (applyOps src (o' :: ops))) 0); [lia|].
    rewrite IH by (done || lia). by rewrite app_assoc.
Qed.

(** ** What follows a delta is not read *)
Lemma decodeParts_app e ps cmd : forall acc delta x d r, decodeParts e ps cmd acc delta = Ok (x, d) -> decodeParts e ps cmd acc (delta ++ r) = Ok (x, d ++ r).
Proof.
  induction ps as [|[m shift] ps IH]; intros acc delta x d r H; cbn [decodeParts] in *; [by apply Ok_inj in H as [= -> ->]|].
  destruct (negb _); [|by apply IH]. destruct delta as [|b delta]; [done|]. by apply IH.
Qed.

Lemma decodeSize_app cmd delta x d r : decodeSize cmd delta = Ok (x, d) -> decodeSize cmd (delta ++ r) = Ok (x, d ++ r).
Proof.
  unfold decodeSize. destruct (decodeParts ErrInvalidDelta sizes cmd 0 delta) as [[y d']| | |] eqn:E; try done. rewrite (decodeParts_app _ _ _ _ _ _ _ r E). cbn [res_bind].
  by intros [= -> ->]%Ok_inj.
Qed.

Lemma patchDelta_loop_app src srcSz targetSz r fuel : forall fuel' rem dst delta out, (fuel <= fuel')%nat ->
  patchDelta_loop fuel src srcSz targetSz rem dst delta = Ok out -> patchDelta_loop fuel' src srcSz targetSz rem dst (delta ++ r) = Ok out.
Proof.
  induction fuel as [|fuel IH]; intros [|fuel'] rem dst delta out Hf H; try done; [lia|]. cbn [patchDelta_loop] in *. destruct delta as [|cmd delta]; [done|]. cbn [app].
  assert (forall rem dst delta, (if rem <=? 0 then Ok dst else patchDelta_loop fuel src srcSz targetSz rem dst delta) = Ok out ->
    (if rem <=? 0 then Ok dst else patchDelta_loop fuel' src srcSz targetSz rem dst (delta ++ r)) = Ok out) as Hnext.
  { intros rem' dst' delta'. destruct (rem' <=? 0); [done|]. apply IH. lia. }
  destruct (isCopyFromSrc cmd).
  - destruct (decodeOffset cmd delta) as [[offset d]| | |] eqn:Eo; try done. unfold decodeOffset in *. rewrite (decodeParts_app _ _ _ _ _ _ _ r Eo). cbn [res_bind] in *.
    destruct (decodeSize cmd d) as [[sz d']| | |] eqn:Es; try done. rewrite (decodeSize_app _ _ _ _ r Es). cbn [res_bind] in *.
    destruct (_ || _); [by apply Hnext|]. destruct (slice src offset _); try done. cbn [res_bind] in *. by apply Hnext.
  - destruct (isCopyFromDelta cmd); [|done]. destruct (invalidSize _ _); [done|]. pose proof (b2z_range cmd). pose proof (len_nonneg r). pose proof (len_nonneg delta).
    destruct (Z.ltb_spec (len delta) (b2z cmd)); [done|]. destruct (Z.ltb_spec (len (delta ++ r)) (b2z cmd)); [rewrite len_app in *; lia|].
    rewrite slice_ok in H |- * by (rewrite ?len_app; lia). cbn [res_bind] in *. rewrite slice_ok in H |- * by (rewrite ?len_app; lia). cbn [res_bind] in *.
    assert (seg (delta ++ r) 0 (b2z cmd) = seg delta 0 (b2z cmd)) as ->. { unfold seg. rewrite !drop_0. apply take_app_le. unfold len in *. lia. }
    assert (seg (delta ++ r) (b2z cmd) (len (delta ++ r)) = seg delta (b2z cmd) (len delta) ++ r) as ->.
    { unfold seg. rewrite drop_app_le by (unfold len in *; lia). rewrite !take_ge; [done|rewrite length_drop; unfold len; lia|rewrite length_app, length_drop; unfold len in *; rewrite length_app; lia]. }
    by apply Hnext.
Qed.

Lemma decodeLEB128_app delta x y d r : decodeLEB128 delta = (x, y :: d) -> decodeLEB128 (delta ++ r) = (x, (y :: d) ++ r).
Proof.
  unfold decodeLEB128. destruct delta as [|b delta]; [done|]. rewrite len_app, len_cons. pose proof (len_nonneg delta). pose proof (len_nonneg r).
  destruct (Z.eqb_spec (1 + len delta) 0); [lia|]. destruct (Z.eqb_spec (1 + len delta + len r) 0); [lia|].
  assert (forall l num sz, decodeLEB128_loop l num sz = (x, y :: d) -> decodeLEB128_loop (l ++ r) num sz = (x, (y :: d) ++ r)) as Hall; [|apply Hall].
  induction l as [|c l IH]; intros num sz Hl; cbn [decodeLEB128_loop app] in *; [done|]. destruct (_ =? 0); [by injection Hl as -> ->|]. by apply IH.
Qed.

(** Bytes after a delta that is applied do not matter. *)
Lemma patchDelta_app dst src delta out r : patchDelta dst src delta = Ok out -> patchDelta dst src (delta ++ r) = Ok out.
Proof.
  unfold patchDelta. pose proof (len_nonneg r). rewrite len_app. destruct (Z.ltb_spec (len delta) minCopySize); [done|]. destruct (Z.ltb_spec (len delta + len r) minCopySize); [lia|].
  destruct (decodeLEB128 delta) as [srcSz d1] eqn:E1. destruct d1 as [|y1 d1].
  { destruct (negb _); [done|]. change (decodeLEB128 []) with (0, @nil byte). done. }
  rewrite (decodeLEB128_app _ _ _ _ r E1). destruct (negb _); [done|]. destruct (decodeLEB128 (y1 :: d1)) as [targetSz d2] eqn:E2. destruct d2 as [|y2 d2]; [done|].
  rewrite (decodeLEB128_app _ _ _ _ r E2). apply patchDelta_loop_app. rewrite length_app. lia.
Qed.

(** ** The size headers *)

(** The payload and continuation bits of a size byte. *)
Lemma size_byte_bits c : 0 <= c < 128 ->
  Z.land (b2z (z2b c)) payload = c /\ Z.land (b2z (z2b c)) continuation = 0 /\
  Z.land (b2z (z2b (Z.lor c 0x80))) payload = c /\
  Z.land (b2z (z2b (Z.lor c 0x80))) continuation <> 0.
Proof.
  intros Hc. unfold payload, continuation.
  pose proof (lor_shiftl_add c 1 7 ltac:(lia) ltac:(lia)) as Hl.
  change (Z.shiftl 1 7) with 0x80 in Hl. rewrite Hl. change (1 * 2 ^ 7) with 128.
  rewrite !z2b_small by lia. change 0x7f with (Z.ones 7). rewrite !Z.land_ones by lia.
  split; [by rewrite Z.mod_small|]. split.
  - apply Z.bits_inj'. intros n Hn. rewrite Z.land_spec, Z.bits_0.
    change 0x80 with (2 ^ 7). rewrite Z.pow2_bits_eqb by lia.
    destruct (Z.eqb_spec 7 n) as [<-|]; [|apply andb_false_r].
    rewrite (testbit_above 7 c) by lia. done.
  - split.
    + replace (c + 128) with (c + 1 * 2 ^ 7) by lia. rewrite Z.mod_add by lia. by rewrite Z.mod_small.
    + intros H. apply (f_equal (fun z => Z.testbit z 7)) in H.
      rewrite Z.land_spec, Z.bits_0 in H. replace (c + 128) with (Z.lor c 128) in H by lia.
      rewrite Z.lor_spec in H. change (Z.testbit 128 7) with true in H. rewrite orb_true_r in H. done.
Qed.

Lemma deltaEncodeSize_loop_spec fuel c size ret :
  0 <= c < 128 -> 0 <= size < 2 ^ (7 * (Z.of_nat fuel - 1)) -> (0 < fuel)%nat ->
  exists e, deltaEncodeSize_loop fuel c size ret = Ok (ret ++ e) /\ 0 < len e /\
    forall rest num sz, 0 <= sz -> 0 <= num < 2 ^ (sz * 7) -> (c + size * 128) * 2 ^ (sz * 7) < 2 ^ 64 ->
      decodeLEB128_loop (e ++ rest) num sz = (num + (c + size * 128) * 2 ^ (sz * 7), rest) /\
      decodeLEB128ByteReader_loop (e ++ rest) num sz = Ok (num + (c + size * 128) * 2 ^ (sz * 7), rest).
Proof.
  revert c size ret. induction fuel as [|fuel IH]; intros c size ret Hc Hs Hf; [lia|].
  cbn [deltaEncodeSize_loop]. destruct (size_byte_bits c Hc) as (Hp & Hn & Hp' & Hn').
  assert (forall sz, 0 <= sz -> 0 < 2 ^ (sz * 7)) as Hpow by (intros; apply Z.pow_pos_nonneg; lia).
  destruct (Z.eqb_spec size 0) as [->|Hne].
  - exists [z2b c]. split; [done|]. split; [done|]. intros rest num sz Hsz Hnum Hb.
    cbn [app decodeLEB128_loop decodeLEB128ByteReader_loop]. rewrite Hp, Hn. cbn [Z.eqb].
    specialize (Hpow sz Hsz). rewrite u64_small by (rewrite Z.shiftl_mul_pow2 by lia; nia).
    rewrite lor_shiftl_add by lia. rewrite Z.mul_0_l, Z.add_0_r. done.
  - destruct fuel as [|fuel']; [cbn in Hs; lia|].
    assert (0 <= Z.land size 0x7f < 128) as Hc'.
    { change 0x7f with (Z.ones 7). rewrite Z.land_ones by lia. apply Z.mod_pos_bound. lia. }
    assert (Z.land size 0x7f + Z.shiftr size 7 * 128 = size) as Hsize.
    { change 0x7f with (Z.ones 7). rewrite Z.land_ones, Z.shiftr_div_pow2 by lia.
      pose proof (Z.div_mod size (2 ^ 7)). lia. }
    destruct (IH (Z.land size 0x7f) (Z.shiftr size 7) (ret ++ [z2b (Z.lor c 0x80)]))
      as (e & -> & Hle & Hd); [done| |lia|].
    { rewrite Z.shiftr_div_pow2 by lia. split; [apply Z.div_pos; lia|].
      apply Z.div_lt_upper_bound; [lia|]. rewrite <- Z.pow_add_r by lia.
      replace (7 + 7 * (Z.of_nat (S fuel') - 1)) with (7 * (Z.of_nat (S (S fuel')) - 1)) by lia. lia. }
    exists (z2b (Z.lor c 0x80) :: e). rewrite <- app_assoc. split; [done|]. split; [len_lia|].
    intros rest num sz Hsz Hnum Hb. specialize (Hpow sz Hsz).
    cbn [app decodeLEB128_loop decodeLEB128ByteReader_loop]. rewrite Hp'.
    destruct (Z.eqb_spec (Z.land (b2z (z2b (Z.lor c 128))) continuation) 0); [done|].
    rewrite u64_small by (rewrite Z.shiftl_mul_pow2 by lia; nia). rewrite lor_shiftl_add by lia.
    assert (2 ^ ((sz + 1) * 7) = 2 ^ (sz * 7) * 128) as Hp2.
    { replace ((sz + 1) * 7) with (sz * 7 + 7) by lia. rewrite Z.pow_add_r by lia. done. }
    destruct (Hd rest (num + c * 2 ^ (sz * 7)) (sz + 1)) as [-> ->].
    + lia.
    + rewrite Hp2. nia.
    + rewrite Hsize, Hp2. nia.
    + rewrite Hsize, Hp2.
      replace (num + c * 2 ^ (sz * 7) + size * (2 ^ (sz * 7) * 128))
        with (num + (c + size * 128) * 2 ^ (sz * 7)) by ring. done.
Qed.

Lemma deltaEncodeSize_spec n :
  0 <= n < 2 ^ 63 ->
  exists e, deltaEncodeSize n = Ok e /\ 0 < len e /\
    (forall rest, decodeLEB128 (e ++ rest) = (n, rest)) /\
    (forall rest, decodeLEB128ByteReader (e ++ rest) = Ok (n, rest)).
Proof.
  intros Hn. unfold deltaEncodeSize.
  assert (Z.land n 0x7f + Z.shiftr n 7 * 128 = n) as Hsize.
  { change 0x7f with (Z.ones 7). rewrite Z.land_ones, Z.shiftr_div_pow2 by lia.
    pose proof (Z.div_mod n (2 ^ 7)). lia. }
  destruct (deltaEncodeSize_loop_spec 10 (Z.land n 0x7f) (Z.shiftr n 7) []) as (e & -> & Hl & Hd).
  - change 0x7f with (Z.ones 7). rewrite Z.land_ones by lia. apply Z.mod_pos_bound. lia.
  - rewrite Z.shiftr_div_pow2 by lia. split; [apply Z.div_pos; lia|].
    apply Z.div_lt_upper_bound; [lia|]. cbn. lia.
  - lia.
  - exists e. split; [done|]. split; [done|].
    split; intros rest; destruct (Hd rest 0 0) as [H1 H2]; try lia; rewrite Hsize, Z.mul_1_r, Z.add_0_l in *.
    + unfold decodeLEB128. destruct (Z.eqb_spec (len (e ++ rest)) 0); [|done]. len_lia.
    + exact H2.
Qed.

(** ** The encoder emits operations that rebuild the target *)

(** [emits src buf buf' out]: [buf'] is [buf] with valid operations appended that
    produce [out] from [src]. *)
Definition emits (src buf buf' out : bytes) : Prop :=
  exists ops, buf' = buf ++ encodeOps ops /\ Forall (op_ok src) ops /\ applyOps src ops = out.

Lemma emits_nil src buf : emits src buf buf [].
Proof. exists []. rewrite app_nil_r. auto. Qed.

Lemma emits_one src buf o : op_ok src o -> emits src buf (buf ++ encodeOp o) (applyOp src o).
Proof. intros. exists [o]. cbn. rewrite !app_nil_r. auto. Qed.

Lemma emits_trans src a b c x y : emits src a b x -> emits src b c y -> emits src a c (x ++ y).
Proof.
  intros (ops & -> & Hok & <-) (ops' & -> & Hok' & <-). exists (ops ++ ops').
  unfold encodeOps, applyOps. rewrite !flat_map_app, app_assoc. auto using Forall_app_2.
Qed.

#[local] Hint Resolve emits_nil emits_one emits_trans : git.

Lemma encodeInsert_loop_ok src fuel b o buf :
  0 <= o < len b -> len b - o < Z.of_nat fuel ->
  exists buf', encodeInsert_loop fuel b (len b - o) o buf = Ok buf' /\
    emits src buf buf' (seg b o (len b)).
Proof.
  revert o buf. induction fuel as [|fuel IH]; intros o buf Ho Hf; [lia|]. cbn [encodeInsert_loop].
  assert (forall k, 0 < k <= 127 -> o + k <= len b ->
    emits src buf (buf ++ z2b k :: seg b o (o + k)) (seg b o (o + k))) as Hone.
  { intros k Hk Hb. pose proof (emits_one src buf (OpInsert (seg b o (o + k)))) as H.
    cbn [encodeOp applyOp op_ok] in H. rewrite len_seg in H by lia.
    replace (o + k - o) with k in H by lia. auto. }
  destruct (Z.leb_spec (len b - o) 127).
  - rewrite slice_ok by lia. eexists. split; [reflexivity|].
    pose proof (Hone (len b - o)) as H'. replace (o + (len b - o)) with (len b) in * by lia. auto with lia.
  - rewrite slice_ok by lia. cbn [res_bind].
    destruct (IH (o + 127) (buf ++ z2b 127 :: seg b o (o + 127))) as (buf' & E & He); [lia|lia|].
    replace (len b - o - 127) with (len b - (o + 127)) by lia.
    exists buf'. split; [done|]. rewrite <- (seg_app b o (o + 127)) by lia.
    eapply emits_trans; [|exact He]. apply Hone; lia.
Qed.

Lemma encodeInsertOperation_ok src ibuf buf :
  exists buf', encodeInsertOperation ibuf buf = Ok buf' /\ emits src buf buf' ibuf.
Proof.
  unfold encodeInsertOperation. destruct (Z.eqb_spec (len ibuf) 0) as [E|E].
  - destruct ibuf; [|len_lia]. eauto with git.
  - destruct (encodeInsert_loop_ok src (S (length ibuf)) ibuf 0 buf) as (buf' & H & He);
      [len_lia|unfold len; lia|].
    rewrite Z.sub_0_r in H. rewrite seg_full in He. eauto.
Qed.

Lemma encodeCopies_ok src fuel off rl buf :
  0 <= off -> 0 <= rl -> off + rl <= len src -> rl < Z.of_nat fuel ->
  exists buf', encodeCopies fuel off rl buf = Ok buf' /\ emits src buf buf' (seg src off (off + rl)).
Proof.
  unfold maxCopySize. revert off rl buf.
  induction fuel as [|fuel IH]; intros off rl buf Ho Hr Hb Hf; [lia|]. cbn [encodeCopies].
  unfold maxCopySize. destruct (Z.gtb_spec rl 0) as [Hpos|Hz].
  2: { rewrite seg_empty by lia. eauto with git. }
  destruct (Z.ltb_spec rl (64 * 1024)).
  - eexists. split; [reflexivity|]. apply (emits_one src buf (OpCopy off rl)). cbn. lia.
  - destruct (IH (off + 64 * 1024) (rl - 64 * 1024)
      (buf ++ encodeCopyOperation off (64 * 1024))) as (buf' & E & He); [lia..|].
    exists buf'. split; [done|]. rewrite <- (seg_app src off (off + 64 * 1024)) by lia.
    eapply emits_trans; [apply (emits_one src buf (OpCopy off (64 * 1024))); cbn; lia|].
    replace (off + rl) with (off + 64 * 1024 + (rl - 64 * 1024)) by lia. done.
Qed.

Lemma diffDelta_loop_ok fuel idx src tgt i ibuf hdr buf out :
  index_for src idx -> 0 <= i <= len tgt -> len tgt - i < Z.of_nat fuel ->
  emits src hdr buf out -> out ++ ibuf = seg tgt 0 i ->
  exists ibuf' buf' out', diffDelta_loop fuel idx src tgt i ibuf buf = Ok (ibuf', buf') /\
    emits src hdr buf' out' /\ out' ++ ibuf' = tgt.
Proof.
  intros Hidx. revert i ibuf buf out.
  induction fuel as [|fuel IH]; intros i ibuf buf out Hi Hf He Hout; [lia|]. cbn [diffDelta_loop].
  destruct (Z.ltb_spec i (len tgt)) as [Hlt|Hge].
  2: { replace i with (len tgt) in Hout by lia. rewrite seg_full in Hout. eauto 10. }
  destruct (findMatch_ok src tgt idx i Hidx) as (off & l & -> & Hm); [lia|]. cbn [res_bind].
  assert (forall k, 0 < k -> i + k <= len tgt -> out ++ (ibuf ++ seg tgt i (i + k)) = seg tgt 0 (i + k)) as Hlit.
  { intros k Hk Hb. rewrite app_assoc, Hout. apply seg_app; lia. }
  unfold match_ok, s in *. destruct (Z.eqb_spec l 0).
  { destruct (index_ok tgt i) as (b & -> & Eb); [lia|]. cbn [res_bind].
    apply (IH (i + 1) _ _ out); [lia|lia|done|].
    rewrite <- (seg_one tgt i b) by (done || lia). apply Hlit; lia. }
  destruct (Z.ltb_spec l 0).
  { rewrite slice_ok by lia. cbn [res_bind].
    destruct fuel as [|fuel]; [lia|]. cbn [diffDelta_loop].
    destruct (Z.ltb_spec (len tgt + 1) (len tgt)); [lia|].
    specialize (Hlit (len tgt - i)). replace (i + (len tgt - i)) with (len tgt) in Hlit by lia.
    rewrite seg_full in Hlit. do 3 eexists. split; [reflexivity|]. split; [exact He|]. apply Hlit; lia. }
  destruct (Z.ltb_spec l 16).
  { rewrite slice_ok by lia. cbn [res_bind].
    apply (IH (i + l) _ _ out); [lia|lia|done|]. apply Hlit; lia. }
  destruct Hm as [?|[?|[?|(Hl16 & Hoff0 & Hsrc & Htgt & Hseg)]]]; [lia..|].
  destruct (encodeInsertOperation_ok src ibuf buf) as (buf1 & -> & He1). cbn [res_bind].
  destruct (encodeCopies_ok src (S (Z.to_nat l)) off l buf1) as (buf2 & -> & He2); [lia..|].
  cbn [res_bind]. apply (IH (i + l) [] buf2 ((out ++ ibuf) ++ seg src off (off + l))); [lia|lia| |].
  - eauto with git.
  - rewrite app_nil_r, Hout, Hseg. apply seg_app; lia.
Qed.

(** The delta of two inputs is its two sizes followed by operations that rebuild
    the target; the construction neither panics nor runs out of fuel.  The index is new, or one of the source. *)
Lemma diffDelta_ops idx src tgt :
  entries idx = [] \/ index_for src idx -> len src < 2 ^ 32 -> len tgt < 2 ^ 63 ->
  exists hs ht ops, diffDelta idx src tgt = Ok (hs ++ ht ++ encodeOps ops) /\
    deltaEncodeSize (len src) = Ok hs /\ deltaEncodeSize (len tgt) = Ok ht /\
    Forall (op_ok src) ops /\ applyOps src ops = tgt.
Proof.
  intros Hi Hs Ht. unfold diffDelta.
  pose proof (len_nonneg src). pose proof (len_nonneg tgt).
  destruct (deltaEncodeSize_spec (len src)) as (hs & Ehs & _); [lia|].
  destruct (deltaEncodeSize_spec (len tgt)) as (ht & Eht & _); [lia|].
  rewrite Ehs, Eht. cbn [res_bind].
  assert (exists idx', (if len (entries idx) =? 0 then init src else Ok idx) = Ok idx' /\ index_for src idx') as (idx' & -> & Hidx).
  { destruct Hi as [->|Hi]; [change (len (@nil Z) =? 0) with true; by apply init_ok|]. exists idx. split; [|done].
    destruct Hi as (_ & _ & _ & Hp). by destruct (Z.eqb_spec (len (entries idx)) 0); [lia|]. }
  cbn [res_bind].
  destruct (diffDelta_loop_ok (S (length tgt)) idx' src tgt 0 [] (hs ++ ht) (hs ++ ht) [])
    as (ibuf & buf & out & -> & He & Hout); [done|lia|unfold len; lia|apply emits_nil|done|].
  cbn [res_bind]. destruct (encodeInsertOperation_ok src ibuf buf) as (buf' & -> & He').
  destruct (emits_trans _ _ _ _ _ _ He He') as (ops & -> & Hok & Happ).
  exists hs, ht, ops. rewrite <- app_assoc, Happ. auto.
Qed.

Lemma DiffDelta_ops src tgt :
  len src < 2 ^ 32 -> len tgt < 2 ^ 63 ->
  exists hs ht ops, DiffDelta src tgt = Ok (hs ++ ht ++ encodeOps ops) /\
    deltaEncodeSize (len src) = Ok hs /\ deltaEncodeSize (len tgt) = Ok ht /\
    Forall (op_ok src) ops /\ applyOps src ops = tgt.
Proof. apply diffDelta_ops. by left. Qed.

Lemma ops_fit src ops :
  Forall (op_ok src) ops -> Forall (sizes_fit src (len (applyOps src ops))) ops.
Proof.
  intros H. apply Forall_forall. intros o Ho. rewrite Forall_forall in H. split; [by apply H|].
  apply list_elem_of_In in Ho. apply in_split in Ho as (a & b & ->). unfold applyOps.
  rewrite flat_map_app. cbn [flat_map]. len_lia.
Qed.

Lemma encodeOps_length src ops : Forall (op_ok src) ops -> (2 * length ops <= length (encodeOps ops))%nat.
Proof.
  induction 1 as [|o ops Ho _ IH]; [done|]. cbn [encodeOps flat_map length].
  rewrite length_app. fold (encodeOps ops). 
  assert (2 <= length (encodeOp o))%nat; [|lia].
  destruct o as [off sz|d]; cbn [encodeOp op_ok] in *; [|destruct d; cbn; len_lia].
  rewrite encodeCopyOperation_spec. cbn [length]. rewrite length_app.
  assert (1 <= length (partBytes [0; 1; 2]%Z sz))%nat; [|lia].
  unfold partBytes. cbn [flat_map].
  destruct (Z.eqb_spec (part sz 0) 0) as [E0|]; [|cbn; lia].
  destruct (Z.eqb_spec (part sz 1) 0) as [E1|]; [|cbn; lia].
  destruct (Z.eqb_spec (part sz 2) 0) as [E2|]; [|cbn; lia].
  exfalso. assert (sz = 0); [|lia]. rewrite <- (land_low_mask sz 24) by lia.
  pose proof (parts_join [0; 1; 2] sz) as J. cbn [foldr] in J.
  rewrite E0, E1, E2 in J. cbn in J. symmetry. exact J.
Qed.

(** The headers of a delta and its total length, for operations that rebuild a
    non-empty target. *)
Lemma delta_headers src ops hs ht :
  applyOps src ops <> [] -> len src < 2 ^ 32 -> len (applyOps src ops) < 2 ^ 63 ->
  deltaEncodeSize (len src) = Ok hs -> deltaEncodeSize (len (applyOps src ops)) = Ok ht ->
  Forall (op_ok src) ops ->
  4 <= len (hs ++ ht ++ encodeOps ops) /\
  (forall rest, decodeLEB128 (hs ++ rest) = (len src, rest)) /\
  (forall rest, decodeLEB128 (ht ++ rest) = (len (applyOps src ops), rest)) /\
  (forall rest, decodeLEB128ByteReader (hs ++ rest) = Ok (len src, rest)) /\
  (forall rest, decodeLEB128ByteReader (ht ++ rest) = Ok (len (applyOps src ops), rest)).
Proof.
  intros Hne Hs Ht Ehs Eht Hok.
  pose proof (len_nonneg src). pose proof (len_nonneg (applyOps src ops)).
  destruct (deltaEncodeSize_spec (len src)) as (hs' & Ehs' & Hlhs & Dhs & Rhs); [lia|].
  destruct (deltaEncodeSize_spec (len (applyOps src ops))) as (ht' & Eht' & Hlht & Dht & Rht); [lia|].
  rewrite Ehs in Ehs'. rewrite Eht in Eht'. injection Ehs' as <-. injection Eht' as <-.
  pose proof (encodeOps_length src ops Hok) as Hlen.
  assert (1 <= length ops)%nat by (destruct ops; [done|cbn; lia]).
  split; [rewrite !len_app; unfold len in *; lia|auto].
Qed.

(** ** The streaming decoders on encoded operations *)

Lemma byte_readers_spec off sz rest :
  0 <= off < 2 ^ 32 -> 0 < sz < 2 ^ 24 ->
  decodeOffsetByteReader (z2b (copyCode off sz)) (partBytes [0; 1; 2; 3] off ++ partBytes [0; 1; 2] sz ++ rest)
    = Ok (off, partBytes [0; 1; 2] sz ++ rest) /\
  decodeSizeByteReader (z2b (copyCode off sz)) (partBytes [0; 1; 2] sz ++ rest) = Ok (sz, rest).
Proof.
  intros. unfold decodeOffsetByteReader, decodeSizeByteReader.
  rewrite decodeOffset_spec, decodeSizes_spec by lia. cbn [res_bind].
  destruct (Z.eqb_spec sz 0); [lia|done].
Qed.

Lemma valid_copy src targetSz off sz :
  len src < 2 ^ 32 -> sizes_fit src targetSz (OpCopy off sz) ->
  invalidSize sz targetSz || invalidOffsetSize off sz (len src) = false.
Proof.
  intros Hs [Hok Hfit]. cbn [op_ok applyOp] in *. rewrite len_seg in Hfit by lia.
  unfold invalidSize, invalidOffsetSize, sumOverflows. rewrite u64_small by lia.
  destruct (Z.gtb_spec sz targetSz), (Z.ltb_spec (off + sz) off), (Z.gtb_spec (off + sz) (len src));
    try lia; done.
Qed.

Lemma take_drop_insert (d rest : bytes) :
  take (Z.to_nat (len d)) (d ++ rest) = d /\ drop (Z.to_nat (len d)) (d ++ rest) = rest.
Proof. unfold len. rewrite Nat2Z.id, take_app_length, drop_app_length. done. Qed.

Lemma valid_insert src targetSz d :
  sizes_fit src targetSz (OpInsert d) ->
  isCopyFromSrc (z2b (len d)) = false /\ isCopyFromDelta (z2b (len d)) = true /\
  b2z (z2b (len d)) = len d /\ invalidSize (len d) targetSz = false.
Proof.
  intros [Hok Hfit]. cbn [op_ok applyOp] in *. destruct (isCopyFromSrc_small (len d)) as [-> ->]; [done|].
  rewrite z2b_small by lia. unfold invalidSize. destruct (Z.gtb_spec (len d) targetSz); [lia|done].
Qed.

Section Writer.
Context {ObjectType : Type} (hasher : ObjectType -> Z -> bytes -> bytes).

Lemma patchDeltaWriter_step fuel src targetSz remaining typ dst written o rest :
  len src < 2 ^ 32 -> sizes_fit src targetSz o ->
  patchDeltaWriter_loop hasher (S fuel) src (len src) targetSz remaining typ dst written (encodeOp o ++ rest) =
  let remaining' := u64 (remaining - len (applyOp src o)) in
  if remaining' <=? 0
  then Ok (targetSz, hasher typ targetSz (written ++ applyOp src o), dst ++ applyOp src o)
  else patchDeltaWriter_loop hasher fuel src (len src) targetSz remaining' typ
         (dst ++ applyOp src o) (written ++ applyOp src o) rest.
Proof.
  intros Hsrc Hfit. pose proof (len_nonneg src). destruct o as [off sz|d].
  - pose proof Hfit as [Hok _]. cbn [op_ok applyOp encodeOp] in *. rewrite encodeCopyOperation_spec.
    cbn [app patchDeltaWriter_loop]. rewrite <- app_assoc, (proj1 (copyCode_bits off sz)).
    destruct (byte_readers_spec off sz rest) as [-> E]; [lia|lia|]. cbn [res_bind]. rewrite E. cbn [res_bind].
    rewrite valid_copy by done.
    replace (take (Z.to_nat sz) (drop (Z.to_nat off) (take (Z.to_nat (len src)) src)))
      with (seg src off (off + sz)).
    2: { unfold seg, len. rewrite Nat2Z.id, (take_ge src) by lia. do 2 f_equal. lia. }
    rewrite len_seg by lia. replace (off + sz - off) with sz by lia. done.
  - cbn [applyOp encodeOp app patchDeltaWriter_loop].
    destruct (valid_insert _ _ _ Hfit) as (-> & -> & -> & ->).
    destruct (take_drop_insert d rest) as [-> ->]. done.
Qed.

Lemma patchDeltaWriter_ops fuel src targetSz typ dst written ops :
  len src < 2 ^ 32 -> ops <> [] -> Forall (sizes_fit src targetSz) ops ->
  len (applyOps src ops) < 2 ^ 64 -> (length ops <= fuel)%nat ->
  patchDeltaWriter_loop hasher fuel src (len src) targetSz (len (applyOps src ops)) typ dst written
    (encodeOps ops)
  = Ok (targetSz, hasher typ targetSz (written ++ applyOps src ops), dst ++ applyOps src ops).
Proof.
  intros Hsrc Hne Hfit. revert fuel dst written. induction Hfit as [|o ops Ho Hops IH]; [done|].
  intros [|fuel] dst written Hlen Hf; cbn [length] in Hf; [lia|].
  cbn [encodeOps applyOps flat_map] in *. fold (encodeOps ops) (applyOps src ops) in *.
  rewrite patchDeltaWriter_step by done. cbv zeta. rewrite len_app in *.
  pose proof (len_nonneg (applyOps src ops)). pose proof (applyOp_len src o (proj1 Ho)).
  replace (len (applyOp src o) + len (applyOps src ops) - len (applyOp src o))
    with (len (applyOps src ops)) by lia.
  rewrite u64_small by lia.
  destruct (Z.leb_spec (len (applyOps src ops)) 0) as [Hz|Hpos].
  - destruct (applyOps src ops); [|len_lia]. by rewrite !app_nil_r.
  - rewrite IH; [by rewrite <- !app_assoc| |lia|lia]. intros ->. done.
Qed.
End Writer.

(** Forward deltas: no copy starts before the end of the previous one. *)
Fixpoint forward (from : Z) (ops : list op) : Prop :=
  match ops with
  | [] => True
  | OpCopy off sz :: ops => from <= off /\ forward (off + sz) ops
  | OpInsert _ :: ops => forward from ops
  end.

Lemma discardLoop_ok base pos n :
  0 <= pos -> 0 <= n < 2 ^ 32 -> pos + n <= len base < 2 ^ 32 ->
  discardLoop 4 base pos pos n = Ok (pos + n, pos + n).
Proof.
  intros Hp Hn Hb. unfold MaxInt32 in *.
  assert (forall fuel pos n, 0 <= pos -> pos + n <= len base < 2 ^ 32 -> 0 <= n < Z.of_nat fuel * MaxInt32 ->
    discardLoop fuel base pos pos n = Ok (pos + n, pos + n)) as H.
  { clear. unfold MaxInt32. induction fuel as [|fuel IH]; intros pos n Hp Hb Hn; [lia|].
    cbn [discardLoop]. unfold MaxInt32. destruct (Z.gtb_spec n (2 ^ 31 - 1)).
    - destruct (Z.leb_spec (pos + (2 ^ 31 - 1)) (len base)); [|lia].
      rewrite u64_small by lia. rewrite IH by lia. do 2 f_equal; lia.
    - destruct (Z.gtb_spec n 0); [|do 2 f_equal; lia].
      destruct (Z.leb_spec (pos + n) (len base)); [|lia]. by rewrite u64_small by lia. }
  apply H; unfold MaxInt32; lia.
Qed.

Lemma readerFromDelta_ops fuel src targetSz pos dst ops :
  len src < 2 ^ 32 -> ops <> [] -> Forall (sizes_fit src targetSz) ops -> 0 <= pos <= len src -> forward pos ops ->
  len (applyOps src ops) < 2 ^ 64 -> (length ops <= fuel)%nat ->
  readerFromDelta_loop fuel src (len src) targetSz (len (applyOps src ops)) pos pos dst (encodeOps ops)
  = Ok (dst ++ applyOps src ops, EOF).
Proof.
  intros Hsrc Hne Hfit. revert fuel dst pos. induction Hfit as [|o ops Ho Hops IH]; [done|].
  intros [|fuel] dst pos Hpos Hfw Hlen Hf; cbn [length] in Hf; [lia|].
  cbn [encodeOps applyOps flat_map] in *. fold (encodeOps ops) (applyOps src ops) in *.
  rewrite len_app in *. pose proof (len_nonneg (applyOps src ops)). pose proof (applyOp_len src o (proj1 Ho)).
  assert (forall x pos' d, x = len (applyOp src o) -> 0 <= pos' <= len src -> forward pos' ops ->
    d = dst ++ applyOp src o ->
    (if u64 (len (applyOp src o) + len (applyOps src ops) - x) <=? 0 then Ok (d, EOF)
     else readerFromDelta_loop fuel src (len src) targetSz
            (u64 (len (applyOp src o) + len (applyOps src ops) - x)) pos' pos' d (encodeOps ops))
    = Ok (dst ++ applyOp src o ++ applyOps src ops, EOF)) as Hnext.
  { intros x pos' d -> Hp' Hfw' ->.
    replace (len (applyOp src o) + len (applyOps src ops) - len (applyOp src o))
      with (len (applyOps src ops)) by lia.
    rewrite u64_small by lia. rewrite app_assoc.
    destruct (Z.leb_spec (len (applyOps src ops)) 0) as [Hz|Hp0].
    - destruct (applyOps src ops); [|len_lia]. by rewrite !app_nil_r.
    - apply IH; [|done|done|lia|lia]. intros ->. done. }
  destruct o as [off sz|d].
  - pose proof Ho as [Hok _]. cbn [op_ok applyOp encodeOp forward] in *. destruct Hfw as [Hfrom Hfw].
    rewrite encodeCopyOperation_spec.
    cbn [app readerFromDelta_loop]. rewrite <- app_assoc, (proj1 (copyCode_bits off sz)).
    destruct (byte_readers_spec off sz (encodeOps ops)) as [-> E]; [lia|lia|]. rewrite E.
    rewrite valid_copy by done. destruct (Z.gtb_spec pos off); [lia|].
    rewrite u64_small by lia. rewrite discardLoop_ok by lia.
    replace (pos + (off - pos)) with off by lia.
    replace (take (Z.to_nat sz) (drop (Z.to_nat off) src)) with (seg src off (off + sz)).
    2: { unfold seg. do 2 f_equal. lia. }
    rewrite len_seg in * by lia. rewrite (u64_small (off + sz)) by lia.
    replace (off + (off + sz - off)) with (off + sz) by lia. apply Hnext; [lia|lia|done|done].
  - cbn [applyOp encodeOp app readerFromDelta_loop forward] in *.
    destruct (valid_insert _ _ _ Ho) as (-> & -> & -> & ->).
    destruct (take_drop_insert d (encodeOps ops)) as [-> ->]. apply Hnext; done.
Qed.

(** ** Arbitrary deltas *)

Lemma decodeParts_safe e ps cmd acc delta :
  Forall (fun p => 0 <= snd p) ps -> 0 <= acc < 2 ^ 64 ->
  (exists v d, decodeParts e ps cmd acc delta = Ok (v, d) /\ 0 <= v < 2 ^ 64 /\ (length d <= length delta)%nat)
  \/ decodeParts e ps cmd acc delta = Err e.
Proof.
  intros Hps. revert acc delta. induction Hps as [|[m sh] ps Hsh _ IH]; intros acc delta Hacc; cbn [decodeParts].
  - left. eauto with lia.
  - destruct (negb (Z.land (b2z cmd) m =? 0)); [|auto].
    destruct delta as [|b delta]; [auto|].
    destruct (IH (Z.lor acc (u64 (Z.shiftl (b2z b) sh))) delta) as [(v & d & E & Hv & Hl)|E].
    + apply lor_below; [lia|done|apply u64_range].
    + left. exists v, d. cbn [length]. auto with lia.
    + auto.
Qed.

Lemma decodeOffset_safe cmd delta :
  (exists v d, decodeOffset cmd delta = Ok (v, d) /\ 0 <= v < 2 ^ 64 /\ (length d <= length delta)%nat)
  \/ decodeOffset cmd delta = Err ErrInvalidDelta.
Proof. apply decodeParts_safe; [repeat constructor; cbn; lia|lia]. Qed.

Lemma decodeSize_safe cmd delta :
  (exists v d, decodeSize cmd delta = Ok (v, d) /\ 0 <= v < 2 ^ 64 /\ (length d <= length delta)%nat)
  \/ decodeSize cmd delta = Err ErrInvalidDelta.
Proof.
  unfold decodeSize. destruct (decodeParts_safe ErrInvalidDelta sizes cmd 0 delta)
    as [(v & d & -> & Hv & Hl)| -> ]; [repeat constructor; cbn; lia|lia| |auto].
  cbn [res_bind]. left. do 2 eexists. split; [reflexivity|]. split; [|done].
  unfold maxCopySize. destruct (v =? 0); lia.
Qed.

(** The outcome of [patchDelta_loop] for any command list: an error of the delta
    package, or an output whose length is the announced one modulo [2^64]. *)
Definition patch_outcome (dst : bytes) (remaining : Z) (r : res bytes) : Prop :=
  match r with
  | Ok out => u64 (len out - len dst) = remaining
  | Err e => e = ErrInvalidDelta \/ e = ErrDeltaCmd
  | Panic | NoFuel => False
  end.

Lemma patch_outcome_app dst chunk remaining r :
  0 <= remaining < 2 ^ 64 -> patch_outcome (dst ++ chunk) (u64 (remaining - len chunk)) r ->
  patch_outcome dst remaining r.
Proof.
  intros Hr. destruct r as [out| | |]; cbn; auto. rewrite len_app. intros H.
  rewrite <- (u64_small remaining) by done. unfold u64 in *.
  replace (len out - len dst) with ((len out - (len dst + len chunk)) + len chunk) by lia.
  rewrite Z.add_mod, H, <- Z.add_mod by lia.
  replace (remaining - len chunk + len chunk) with remaining by lia. done.
Qed.

Lemma patchDelta_loop_safe fuel src targetSz remaining dst delta :
  len src < 2 ^ 64 -> 0 <= remaining < 2 ^ 64 -> (length delta < fuel)%nat ->
  patch_outcome dst remaining (patchDelta_loop fuel src (len src) targetSz remaining dst delta).
Proof.
  intros Hsrc. revert remaining dst delta.
  induction fuel as [|fuel IH]; intros remaining dst delta Hr Hf; [lia|]. cbn [patchDelta_loop].
  destruct delta as [|cmd delta]; [cbn; auto|]. cbn [length] in Hf.
  assert (forall rem dst' d, 0 <= rem < 2 ^ 64 -> (length d <= length delta)%nat ->
    patch_outcome dst' rem (if rem <=? 0 then Ok dst'
      else patchDelta_loop fuel src (len src) targetSz rem dst' d)) as Hnext.
  { intros rem dst' d Hrem Hd. destruct (Z.leb_spec rem 0).
    - cbn. replace rem with 0 by lia. by rewrite Z.sub_diag.
    - apply IH; [done|lia]. }
  destruct (isCopyFromSrc cmd).
  - destruct (decodeOffset_safe cmd delta) as [(off & d & -> & Hoff & Hd)| -> ]; cbn [res_bind]; [|cbn; auto].
    destruct (decodeSize_safe cmd d) as [(sz & d' & -> & Hsz & Hd')| -> ]; cbn [res_bind]; [|cbn; auto].
    destruct (invalidSize sz targetSz || invalidOffsetSize off sz (len src)) eqn:E.
    + apply Hnext; [done|lia].
    + apply orb_false_elim in E as [_ E]. unfold invalidOffsetSize, sumOverflows in E.
      apply orb_false_elim in E as [E1 E2].
      assert (u64 (off + sz) = off + sz) as Hu.
      { unfold u64 in *. destruct (Z.lt_ge_cases (off + sz) (2 ^ 64)); [by rewrite Z.mod_small by lia|].
        rewrite <- (Z.mod_add (off + sz) (-1) (2 ^ 64)), Z.mod_small in E1 by lia. lia. }
      rewrite Hu in *. rewrite slice_ok by lia. cbn [res_bind].
      apply (patch_outcome_app dst (seg src off (off + sz))); [done|]. rewrite len_seg by lia.
      replace (off + sz - off) with sz by lia. apply Hnext; [apply u64_range|lia].
  - destruct (isCopyFromDelta cmd); [|cbn; auto]. pose proof (b2z_range cmd).
    destruct (invalidSize (b2z cmd) targetSz); [cbn; auto|].
    destruct (Z.ltb_spec (len delta) (b2z cmd)); [cbn; auto|].
    rewrite !slice_ok by lia. cbn [res_bind].
    apply (patch_outcome_app dst (seg delta 0 (b2z cmd))); [done|]. rewrite len_seg by lia. rewrite Z.sub_0_r.
    apply Hnext; [apply u64_range|]. unfold seg. rewrite length_take, length_drop. lia.
Qed.

Lemma decodeLEB128_range input : 0 <= fst (decodeLEB128 input) < 2 ^ 64.
Proof.
  unfold decodeLEB128. destruct (len input =? 0); [cbn; lia|].
  assert (forall num sz, 0 <= num < 2 ^ 64 -> 0 <= fst (decodeLEB128_loop input num sz) < 2 ^ 64) as H.
  { induction input as [|b input IH]; intros num sz Hnum; cbn [decodeLEB128_loop]; [done|].
    assert (0 <= Z.lor num (u64 (Z.shiftl (Z.land (b2z b) payload) (sz * 7))) < 2 ^ 64).
    { apply lor_below; [lia|done|apply u64_range]. }
    destruct (Z.land (b2z b) continuation =? 0); [done|auto]. }
  apply H. lia.
Qed.

(** The target size announced by a delta. *)
Definition deltaTargetSize (delta : bytes) : Z := fst (decodeLEB128 (snd (decodeLEB128 delta))).

Lemma patchDelta_outcome dst src delta :
  len src < 2 ^ 64 -> patch_outcome dst (deltaTargetSize delta) (patchDelta dst src delta).
Proof.
  intros Hs. unfold patchDelta, deltaTargetSize.
  destruct (len delta <? minCopySize); [cbn; auto|].
  destruct (decodeLEB128 delta) as [srcSz d]. cbn [snd].
  destruct (Z.eqb_spec srcSz (len src)) as [->|]; cbn [negb]; [|cbn; auto].
  pose proof (decodeLEB128_range d) as Hr. destruct (decodeLEB128 d) as [targetSz d']. cbn [fst] in *.
  apply patchDelta_loop_safe; [done|done|lia].
Qed.

(** A delta of operations that rebuild a target, with its sizes, is patched to the target. *)
Lemma patchDelta_rebuilds src ops hs ht dst :
  applyOps src ops <> [] -> len src < 2 ^ 32 -> len (applyOps src ops) < 2 ^ 63 ->
  deltaEncodeSize (len src) = Ok hs -> deltaEncodeSize (len (applyOps src ops)) = Ok ht -> Forall (op_ok src) ops ->
  patchDelta dst src (hs ++ ht ++ encodeOps ops) = Ok (dst ++ applyOps src ops).
Proof.
  intros Htgt Hs Ht Ehs Eht Hok. destruct (delta_headers src ops hs ht) as (Hlen & Dhs & Dht & _ & _); [done..|].
  assert (ops <> []) as Hne by (intros ->; done). pose proof (encodeOps_length src ops Hok) as Hlo. unfold patchDelta, minCopySize.
  destruct (Z.ltb_spec (len (hs ++ ht ++ encodeOps ops)) 4); [lia|]. rewrite Dhs, Z.eqb_refl. cbn [negb]. rewrite Dht.
  pose proof (patchDelta_ops (S (length (encodeOps ops))) src (len (applyOps src ops)) dst ops []) as P.
  rewrite app_nil_r in P. apply P; [done|done|by apply ops_fit|lia|lia].
Qed.

(** ** Properties *)

(** C10: patching a source with the delta computed for a target gives back the
    target: for non-empty inputs (a source below 4 GiB, the largest offset a copy
    command can hold) [DiffDelta] returns a delta, without panic, and
    [PatchDelta] of it is exactly the target. *)
Theorem patch_diff src tgt :
  src <> [] -> tgt <> [] -> len src < 2 ^ 32 -> len tgt < 2 ^ 63 ->
  exists d, DiffDelta src tgt = Ok d /\ PatchDelta src d = Ok tgt.
Proof.
  intros Hsrc Htgt Hs Ht.
  destruct (DiffDelta_ops src tgt Hs Ht) as (hs & ht & ops & E & Ehs & Eht & Hok & <-).
  eexists. split; [exact E|]. unfold PatchDelta. rewrite (patchDelta_rebuilds src ops hs ht []) by done.
  destruct (delta_headers src ops hs ht) as (Hlen & _); [done..|]. pose proof (encodeOps_length src ops Hok) as Hlo.
  assert (ops <> []) as Hne by (intros ->; done). unfold minDeltaSize.
  destruct (Z.eqb_spec (len src) 0); [destruct src; [done|len_lia]|]. destruct (Z.ltb_spec (len (hs ++ ht ++ encodeOps ops)) 4); [lia|done].
Qed.

Lemma patch_diff_witness :
  exists d, DiffDelta (bs "hello") (bs "hello, world") = Ok d /\
            PatchDelta (bs "hello") d = Ok (bs "hello, world").
Proof. apply patch_diff; [discriminate|discriminate|vm_compute; reflexivity..]. Defined.

(** The streaming decoder on the operations that rebuild a target. *)
Lemma patchDeltaWriter_rebuilds {ObjectType} (hasher : ObjectType -> Z -> bytes -> bytes) src ops hs ht dst typ isBytesReader isBuffer :
  applyOps src ops <> [] -> len src < 2 ^ 32 -> len (applyOps src ops) < 2 ^ 63 ->
  deltaEncodeSize (len src) = Ok hs -> deltaEncodeSize (len (applyOps src ops)) = Ok ht -> Forall (op_ok src) ops ->
  patchDeltaWriter hasher dst src isBytesReader isBuffer (hs ++ ht ++ encodeOps ops) typ None =
    Ok (len (applyOps src ops), hasher typ (len (applyOps src ops)) (applyOps src ops), dst ++ applyOps src ops).
Proof.
  intros Htgt Hs Ht Ehs Eht Hok.
  destruct (delta_headers src ops hs ht) as (Hlen & _ & _ & Rhs & Rht); [done..|].
  pose proof (encodeOps_length src ops Hok) as Hlo.
  unfold patchDeltaWriter. rewrite Rhs. cbn [eofInvalid res_bind].
  rewrite Z.eqb_refl, andb_false_r. rewrite Rht. cbn [eofInvalid res_bind]. pose proof (len_nonneg (applyOps src ops)).
  rewrite Grow_fits by lia. cbn [res_bind]. rewrite patchDeltaWriter_ops; [done|done| |by apply ops_fit|lia|lia]. intros ->. done.
Qed.

(** An operation takes at most eight bytes per byte it makes. *)
Lemma encodeOps_bound src ops : Forall (op_ok src) ops -> len (encodeOps ops) <= 8 * len (applyOps src ops).
Proof.
  induction 1 as [|o ops Ho _ IH]; [done|]. cbn [encodeOps applyOps flat_map]. rewrite !len_app. fold (encodeOps ops) (applyOps src ops).
  assert (len (encodeOp o) <= 8 * len (applyOp src o)); [|lia]. pose proof (applyOp_len src o Ho). destruct o as [off sz|d]; cbn [encodeOp applyOp] in *; [|rewrite len_cons; lia].
  rewrite encodeCopyOperation_spec. assert (forall ks x, len (partBytes ks x) <= len ks) as Hp.
  { induction ks as [|k ks IHk]; intros x; [done|]. unfold partBytes in *. cbn [flat_map]. specialize (IHk x). rewrite len_app, len_cons. destruct (_ =? 0); [change (len (@nil byte)) with 0|change (len [_]) with 1]; lia. }
  rewrite len_cons, len_app. pose proof (Hp [0; 1; 2; 3] off). pose proof (Hp [0; 1; 2] sz). unfold len in *. cbn [length] in *. lia.
Qed.

Lemma no_ops src ops : Forall (op_ok src) ops -> applyOps src ops = [] -> ops = [].
Proof.
  intros Hok. destruct Hok as [|o ops Ho _]; [done|]. intros E. exfalso. pose proof (applyOp_len src o Ho) as Hl. cbn [applyOps flat_map] in E.
  apply app_eq_nil in E as [E _]. rewrite E in Hl. change (len (@nil byte)) with 0 in Hl. lia.
Qed.

(** C18: the streaming decoder agrees: on the delta of a target that is not empty [patchDeltaWriter]
    appends exactly the target to its output and returns the target's size and
    object hash, whether or not the base is a [*bytes.Reader] and the output a [*bytes.Buffer]; the
    delta of an empty target, which has no command, is refused.  The source is shorter than 2^32 bytes and the
    target than 2^63. *)
Theorem patchDeltaWriter_diff {ObjectType} (hasher : ObjectType -> Z -> bytes -> bytes)
    src tgt dst typ isBytesReader isBuffer :
  len src < 2 ^ 32 -> len tgt < 2 ^ 63 ->
  exists d, DiffDelta src tgt = Ok d /\
    patchDeltaWriter hasher dst src isBytesReader isBuffer d typ None =
    if bool_decide (tgt = []) then Err ErrInvalidDelta else Ok (len tgt, hasher typ (len tgt) tgt, dst ++ tgt).
Proof.
  intros Hs Ht.
  destruct (DiffDelta_ops src tgt Hs Ht) as (hs & ht & ops & E & Ehs & Eht & Hok & <-).
  eexists. split; [exact E|]. case_bool_decide as Htgt; [|by apply patchDeltaWriter_rebuilds].
  pose proof (no_ops src ops Hok Htgt) as ->. pose proof (len_nonneg src).
  destruct (deltaEncodeSize_spec (len src)) as (hs' & Ehs' & _ & _ & Rhs); [lia|]. rewrite Ehs in Ehs'. injection Ehs' as <-.
  destruct (deltaEncodeSize_spec 0) as (ht' & Eht' & _ & _ & Rht); [lia|]. change (deltaEncodeSize 0 = Ok ht) in Eht. rewrite Eht in Eht'. injection Eht' as <-.
  unfold patchDeltaWriter. rewrite Rhs. cbn [eofInvalid res_bind]. rewrite Z.eqb_refl, andb_false_r. rewrite Rht. cbn [eofInvalid res_bind].
  rewrite Grow_fits by done. done.
Qed.

Lemma patchDeltaWriter_diff_witness :
  exists d, DiffDelta [] (bs "ab") = Ok d /\
    patchDeltaWriter (fun (_ : unit) _ b => b) (bs "x") [] true true d tt None
    = Ok (2, bs "ab", bs "xab").
Proof.
  apply (patchDeltaWriter_diff (fun (_ : unit) _ b => b) [] (bs "ab") (bs "x") tt true true); vm_compute; reflexivity.
Defined.

(** C25: [PatchDelta] is total and memory safe on hostile input: for every source
    and every delta it terminates without a panic, its errors are those of the
    package, and the output of a success has the announced target size (modulo
    the width of [uint]). *)
Theorem PatchDelta_safe src delta :
  len src < 2 ^ 64 ->
  match PatchDelta src delta with
  | Ok out => u64 (len out) = deltaTargetSize delta
  | Err e => e = ErrInvalidDelta \/ e = ErrDeltaCmd
  | Panic | NoFuel => False
  end.
Proof.
  intros Hs. unfold PatchDelta. destruct (_ || _); [auto|].
  pose proof (patchDelta_outcome [] src delta Hs) as H. destruct (patchDelta [] src delta); cbn in *; auto.
  by rewrite Z.sub_0_r in H.
Qed.

Lemma PatchDelta_safe_witness :
  match PatchDelta (bs "abcd") (map z2b [4; 2; 0x91; 1; 2]) with
  | Ok out => u64 (len out) = deltaTargetSize (map z2b [4; 2; 0x91; 1; 2])
  | Err e => e = ErrInvalidDelta \/ e = ErrDeltaCmd
  | Panic | NoFuel => False
  end.
Proof. apply PatchDelta_safe. vm_compute. reflexivity. Defined.

(** [ReaderFromDelta] yields the target for forward deltas: when every copy
    starts at or after the end of the previous one, the pipe delivers what the
    operations produce and then a clean end of file. *)
Theorem ReaderFromDelta_forward src ops hs ht :
  applyOps src ops <> [] -> len src < 2 ^ 32 -> len (applyOps src ops) < 2 ^ 63 ->
  deltaEncodeSize (len src) = Ok hs -> deltaEncodeSize (len (applyOps src ops)) = Ok ht ->
  Forall (op_ok src) ops -> forward 0 ops ->
  ReaderFromDelta (mkObj (len src) src) (hs ++ ht ++ encodeOps ops) = Ok (applyOps src ops, EOF).
Proof.
  intros Hne Hs Ht Ehs Eht Hok Hfw.
  destruct (delta_headers src ops hs ht) as (Hlen & _ & _ & Rhs & Rht); [done..|].
  pose proof (encodeOps_length src ops Hok) as Hlo. pose proof (len_nonneg src).
  unfold ReaderFromDelta. rewrite Rhs. cbn [eofInvalid res_bind objSize objContent].
  rewrite u64_small, Z.eqb_refl by lia. cbn [negb]. rewrite Rht. cbn [eofInvalid res_bind].
  rewrite readerFromDelta_ops; [done|done| |by apply ops_fit|lia|done|lia|lia]. intros ->. done.
Qed.

Lemma ReaderFromDelta_forward_witness :
  ReaderFromDelta (mkObj 6 (bs "abcdef"))
    (map z2b [6] ++ map z2b [4] ++ encodeOps [OpCopy 1 2; OpInsert (bs "x"); OpCopy 5 1])
  = Ok (bs "bcxf", EOF).
Proof.
  apply (ReaderFromDelta_forward (bs "abcdef") [OpCopy 1 2; OpInsert (bs "x"); OpCopy 5 1]);
    [discriminate|vm_compute; reflexivity..| |cbn; lia].
  repeat constructor; vm_compute; congruence.
Defined.

(** [ReaderFromDelta] corrupts other deltas: after a copy that goes back to a
    smaller offset the code keeps the old [basePos], and a later copy reads the
    wrong bytes.  A delta that [PatchDelta] turns into "KLMBCDUVW" is delivered
    with a clean end of file and the wrong last three bytes. *)
Theorem ReaderFromDelta_backward_corrupts :
  exists src delta tgt out,
    PatchDelta src delta = Ok tgt /\
    ReaderFromDelta (mkObj (len src) src) delta = Ok (out, EOF) /\ out <> tgt.
Proof.
  exists (bs "ABCDEFGHIJKLMNOPQRSTUVWXYZ").
  exists (map z2b [26; 9] ++ encodeOps [OpCopy 10 3; OpCopy 1 3; OpCopy 20 3]).
  exists (bs "KLMBCDUVW"). eexists.
  split; [vm_compute; reflexivity|]. split; [vm_compute; reflexivity|]. vm_compute. discriminate.
Qed.

(** the empty target is not a round trip: for every source below 4 GiB the
    delta that [DiffDelta] computes for the empty target is refused by
    [PatchDelta] with [ErrInvalidDelta]. *)
Theorem patch_diff_empty src :
  len src < 2 ^ 32 -> exists d, DiffDelta src [] = Ok d /\ PatchDelta src d = Err ErrInvalidDelta.
Proof.
  intros Hs. destruct (DiffDelta_ops src [] Hs) as (hs & ht & ops & E & Ehs & Eht & Hok & Happ); [done|].
  assert (ops = []) as ->.
  { destruct ops as [|o ops]; [done|]. inversion Hok as [|? ? Ho]; subst.
    apply applyOp_len in Ho. cbn [applyOps flat_map] in Happ. destruct (applyOp src o); [len_lia|done]. }
  eexists. split; [exact E|].
  destruct (deltaEncodeSize_spec (len src)) as (hs' & Ehs' & _ & Dhs & _); [pose proof (len_nonneg src); lia|].
  rewrite Ehs in Ehs'. injection Ehs' as <-. vm_compute in Eht. injection Eht as <-.
  unfold PatchDelta, patchDelta. destruct (_ || _); [done|]. destruct (_ <? _); [done|].
  rewrite Dhs, Z.eqb_refl. reflexivity.
Qed.

Lemma patch_diff_empty_witness :
  exists d, DiffDelta (bs "abc") [] = Ok d /\ PatchDelta (bs "abc") d = Err ErrInvalidDelta.
Proof. apply patch_diff_empty. vm_compute. reflexivity. Defined.

(** [patchDeltaWriter] reports an out-of-range copy, and an unknown command,
    as a success with size 0 and the zero hash: the error it returns is the nil
    error of the last successful read. *)
Theorem patchDeltaWriter_invalid_is_silent {ObjectType}
    (hasher : ObjectType -> Z -> bytes -> bytes) typ dst :
  patchDeltaWriter hasher dst (bs "abcd") true true (map z2b [4; 2; 0x91; 9; 1]) typ None
    = Ok (0, ZeroHash, dst) /\
  patchDeltaWriter hasher dst (bs "abcd") true true (map z2b [4; 2; 0]) typ None
    = Ok (0, ZeroHash, dst) /\
  PatchDelta (bs "abcd") (map z2b [4; 2; 0x91; 9; 1]) = Err ErrInvalidDelta.
Proof. split; [|split]; vm_compute; reflexivity. Qed.
