(* ===== verification/PackEncoder.v ===== *)
(** * plumbing/format/packfile: the encoder

    [ObjectToPack] of object_pack.go, whose values point to their bases, and the encoder of encoder.go.  The objects
    to pack are in a store and a pointer is a position; a method changes the store.  The storage the objects come
    from, zlib and SHA-1 are parameters; the writer is the bytes written so far and never fails, and the offset of
    [offsetWriter] is their number. *)
From S2P Require Import Prelude Binary ObjectID Memory Strconv.

(** ** Objects *)

(** What [plumbing.DeltaObject] adds to an object. *)
Record DeltaInfo := mkDeltaInfo { di_BaseHash : ObjectID; di_ActualHash : ObjectID; di_ActualSize : Z }.
(** A [plumbing.EncodedObject]; [po_delta] when it is a [DeltaObject] too. *)
Record PObj := mkPObj { po_Type : ObjectType; po_Size : Z; po_Hash : ObjectID; po_Content : bytes; po_delta : option DeltaInfo }.
#[global] Instance DeltaInfo_eq_decision : EqDecision DeltaInfo.
Proof. solve_decision. Defined.
#[global] Instance PObj_eq_decision : EqDecision PObj.
Proof. solve_decision. Defined.

(** [NewHasher(format.SHA1, t, size)] fed with the content, then [Sum] *)
Definition objectPreamble (t : ObjectType) (size : Z) : bytes := ObjectType_String t ++ bs " " ++ FormatInt size ++ [x00].
Definition Hasher_Sum (sha1 : bytes -> bytes) (t : ObjectType) (size : Z) (content : bytes) : ObjectID :=
  ObjectID_Write ZeroHash (sha1 (objectPreamble t size ++ content)).

(** ** object_pack.go *)
Record ObjectToPack := mkOTP {
  otp_Object : option PObj; otp_Base : option nat; otp_Original : option PObj; otp_Depth : Z; otp_Offset : Z;
  otp_resolvedOriginal : bool; otp_originalType : ObjectType; otp_originalSize : Z; otp_originalHash : ObjectID }.
#[global] Instance ObjectToPack_eq_decision : EqDecision ObjectToPack.
Proof. solve_decision. Defined.

Notation objects := (list ObjectToPack).

Definition newObjectToPack (o : PObj) : ObjectToPack := mkOTP (Some o) None (Some o) 0 0 false 0 0 ZeroHash.

Definition otp_IsDelta (o : ObjectToPack) : bool := match otp_Base o with Some _ => true | None => false end.
Definition IsWritten (o : ObjectToPack) : bool := otp_Offset o >? 1.
Definition WantWrite (o : ObjectToPack) : bool := otp_Offset o =? 1.
Definition with_Offset (o : ObjectToPack) (n : Z) : ObjectToPack :=
  mkOTP (otp_Object o) (otp_Base o) (otp_Original o) (otp_Depth o) n (otp_resolvedOriginal o) (otp_originalType o) (otp_originalSize o) (otp_originalHash o).
Definition MarkWantWrite (o : ObjectToPack) : ObjectToPack := with_Offset o 1.
Definition with_Original (o : ObjectToPack) (obj : option PObj) : ObjectToPack :=
  mkOTP (otp_Object o) (otp_Base o) obj (otp_Depth o) (otp_Offset o) (otp_resolvedOriginal o) (otp_originalType o) (otp_originalSize o) (otp_originalHash o).
Definition CleanOriginal (o : ObjectToPack) : ObjectToPack := with_Original o None.
Definition BackToOriginal (o : ObjectToPack) : ObjectToPack :=
  match otp_Base o, otp_Original o with
  | Some _, Some _ => mkOTP (otp_Original o) None (otp_Original o) 0 (otp_Offset o) (otp_resolvedOriginal o) (otp_originalType o) (otp_originalSize o) (otp_originalHash o)
  | _, _ => o
  end.
Definition SaveOriginalMetadata (o : ObjectToPack) : ObjectToPack :=
  match otp_Original o with
  | Some obj => mkOTP (otp_Object o) (otp_Base o) (otp_Original o) (otp_Depth o) (otp_Offset o) true (po_Type obj) (po_Size obj) (po_Hash obj)
  | None => o
  end.
Definition SetOriginal (o : ObjectToPack) (obj : option PObj) : ObjectToPack := SaveOriginalMetadata (with_Original o obj).

(** A pointer that is followed; a pointer past the store does not occur. *)
Definition deref (st : objects) (i : nat) : res ObjectToPack := match st !! i with Some o => Ok o | None => Panic end.

(** [Type] goes to the type of the base when nothing else is known; [fuel] bounds the chain. *)
Fixpoint otp_Type (fuel : nat) (st : objects) (o : ObjectToPack) : res ObjectType :=
  match fuel with
  | O => NoFuel
  | S fuel =>
    match otp_Original o with
    | Some obj => Ok (po_Type obj)
    | None =>
      if otp_resolvedOriginal o then Ok (otp_originalType o)
      else
        match otp_Base o with
        | Some b => let* base := deref st b in otp_Type fuel st base
        | None => match otp_Object o with Some obj => Ok (po_Type obj) | None => Panic end
        end
    end
  end.
Definition otp_Hash (o : ObjectToPack) : res ObjectID :=
  match otp_Original o with
  | Some obj => Ok (po_Hash obj)
  | None =>
    if otp_resolvedOriginal o then Ok (otp_originalHash o)
    else match otp_Object o with
         | Some obj => match po_delta obj with Some d => Ok (di_ActualHash d) | None => Panic end
         | None => Panic
         end
  end.
Definition otp_Size (o : ObjectToPack) : res Z :=
  match otp_Original o with
  | Some obj => Ok (po_Size obj)
  | None =>
    if otp_resolvedOriginal o then Ok (otp_originalSize o)
    else match otp_Object o with
         | Some obj => match po_delta obj with Some d => Ok (di_ActualSize d) | None => Panic end
         | None => Panic
         end
  end.
Definition SetDelta (st : objects) (i b : nat) (delta : PObj) : res objects :=
  let* o := deref st i in
  let* base := deref st b in
  Ok (<[i := mkOTP (Some delta) (Some b) (otp_Original o) (otp_Depth base + 1) (otp_Offset o) (otp_resolvedOriginal o)
                   (otp_originalType o) (otp_originalSize o) (otp_originalHash o)]> st).

(** ** encoder.go *)
Definition packSignature : bytes := bs "PACK".
Definition VersionSupported : Z := 2.
Definition firstLengthBits : Z := 4.
Definition maskFirstLength : Z := 15.

(** [head]: big-endian, two integers of 32 bits *)
Definition pack_head (numEntries : Z) : bytes := packSignature ++ be_encode 4 VersionSupported ++ be_encode 4 numEntries.

(** The loop of [entryHead]; a negative size would not end. *)
Fixpoint entryHead_loop (fuel : nat) (c size : Z) (header : bytes) : res bytes :=
  match fuel with
  | O => NoFuel
  | S fuel =>
    if size =? 0 then Ok (header ++ [z2b c])
    else entryHead_loop fuel (Z.land size maskLength) (Z.shiftr size lengthBits) (header ++ [z2b (Z.lor c maskContinue)])
  end.
Definition entryHead (typeNum : ObjectType) (size : Z) : res bytes :=
  entryHead_loop 10 (Z.lor (Z.shiftl typeNum firstLengthBits) (Z.land size maskFirstLength)) (Z.shiftr size firstLengthBits) [].

Section Encoder.
Variable sha1 : bytes -> bytes.
Variable deflate : bytes -> bytes.
(** [storer.EncodedObject(plumbing.AnyObject, h)] *)
Variable encodedObject : ObjectID -> error + PObj.
Variable useRefDeltas : bool.

(** [restoreOriginal] of delta_selector.go *)
Definition restoreOriginal (o : ObjectToPack) : res (ObjectToPack * option error) :=
  match otp_Original o with
  | Some _ => Ok (o, None)
  | None =>
    match otp_Object o with
    | None => Panic
    | Some obj =>
      if negb (IsDelta (po_Type obj)) then Ok (o, None)
      else
        let* h := otp_Hash o in
        match encodedObject h with
        | inl err => Ok (o, Some err)
        | inr orig => Ok (SetOriginal o (Some orig), None)
        end
    end
  end.

Definition writeOfsDeltaHeader (o base : ObjectToPack) : res bytes :=
  let relativeOffset := otp_Offset o - otp_Offset base in
  if relativeOffset <=? 0 then Err (ErrBadDeltaOffset relativeOffset) else WriteVariableWidthInt relativeOffset.

Definition writeDeltaHeader (o base : ObjectToPack) : res bytes :=
  match otp_Object o with
  | None => Panic
  | Some obj =>
    let* hd := entryHead (if useRefDeltas then REFDeltaObject else OFSDeltaObject) (po_Size obj) in
    let* ref := if useRefDeltas then let* h := otp_Hash base in Ok (WriteTo h) else writeOfsDeltaHeader o base in
    Ok (hd ++ ref)
  end.

(** The header and the compressed content of one object, at its offset. *)
Definition entryBytes (st : objects) (o : ObjectToPack) : res bytes :=
  let* hd := match otp_Base o with
             | Some b => let* base := deref st b in writeDeltaHeader o base
             | None => let* t := otp_Type (S (length st)) st o in let* sz := otp_Size o in entryHead t sz
             end in
  match otp_Object o with
  | None => Panic
  | Some obj => Ok (hd ++ deflate (po_Content obj))
  end.

(** [entry], with [writeBaseIfDelta]; the error of [restoreOriginal] is not looked at. *)
Fixpoint entry (fuel : nat) (st : objects) (out : bytes) (i : nat) : res (objects * bytes) :=
  match fuel with
  | O => NoFuel
  | S fuel =>
    let* o := deref st i in
    let* o := if WantWrite o then let* (o, _) := restoreOriginal o in Ok (BackToOriginal o) else Ok o in
    let st := <[i := o]> st in
    if IsWritten o then Ok (st, out)
    else
      let st := <[i := MarkWantWrite o]> st in
      let* (st, out) :=
        match otp_Base o with
        | Some b =>
          let* base := deref st b in
          if IsWritten base then Ok (st, out) else entry fuel st out b
        | None => Ok (st, out)
        end in
      let* o := deref st i in
      if IsWritten o then Ok (st, out)
      else
        let o := with_Offset o (len out) in
        let st := <[i := o]> st in
        let* b := entryBytes st o in
        Ok (st, out ++ b)
  end.

Fixpoint entries (fuel : nat) (st : objects) (out : bytes) (objs : list nat) : res (objects * bytes) :=
  match objs with
  | [] => Ok (st, out)
  | i :: objs => let* (st, out) := entry fuel st out i in entries fuel st out objs
  end.

(** [encode]: the pack and its checksum *)
Definition pack_encode (fuel : nat) (st : objects) (objs : list nat) : res (bytes * ObjectID * objects) :=
  let* (st, out) := entries fuel st (pack_head (len objs)) objs in
  let h := ObjectID_Write ZeroHash (sha1 out) in
  Ok (out ++ WriteTo h, h, st).
End Encoder.
