(* ===== verification/PackScanner.v ===== *)
(** * plumbing/format/packfile: the scanner

    Types of types.go, the reader of scanner_reader.go and the state machine of scanner.go.  The source is the bytes of
    a pack and a position in them, with or without [io.Seeker]; zlib, SHA-1, SHA-256, CRC-32 and the storage objects
    are written to are parameters.  The hashes are fed through a buffer that is flushed before either is read, so the
    state keeps what was read since each was reset. *)
From S2P Require Import Prelude Binary ObjectID Memory PackEncoder.

(** ** types.go *)
Definition Version_Supported (v : Z) : bool := v =? 2.

Record ObjectHeader := mkObjectHeader {
  oh_Type : ObjectType; oh_Offset : Z; oh_ContentOffset : Z; oh_Size : Z; oh_Reference : ObjectID; oh_OffsetReference : Z;
  oh_Crc32 : Z; oh_Hash : ObjectID; oh_Hash256 : option ObjectID;
  oh_content : option bytes; oh_parent : option nat; oh_diskType : ObjectType; oh_externalRef : bool }.
#[global] Instance ObjectHeader_eq_decision : EqDecision ObjectHeader.
Proof. solve_decision. Defined.

Definition ObjectHeader_ID (oh : ObjectHeader) : ObjectID := default (oh_Hash oh) (oh_Hash256 oh).

Record Header := mkHeader { hd_Version : Z; hd_ObjectsQty : Z }.
#[global] Instance Header_eq_decision : EqDecision Header.
Proof. solve_decision. Defined.

(** [PackData]: the value of the section last scanned *)
Inductive PackData := NoSection | HeaderSection (h : Header) | ObjectSection (oh : ObjectHeader) | FooterSection (checksum : ObjectID).
#[global] Instance PackData_eq_decision : EqDecision PackData.
Proof. solve_decision. Defined.

(** ** scanner.go: sizes and types *)
Definition maskType : Z := 112.
Definition parseType (b : byte) : ObjectType := Z.shiftr (Z.land (b2z b) maskType) firstLengthBits.

(** The loop of [readVariableLengthSize] on the bytes left; a shift of 64 or more gives 0. *)
Fixpoint readVariableLengthSize_loop (r : bytes) (size shift : Z) : res (Z * bytes) :=
  match r with
  | [] => Err EOF
  | b :: r =>
    let size := Z.lor size (u64 (Z.shiftl (Z.land (b2z b) 0x7F) shift)) in
    if Z.land (b2z b) maskContinue =? 0 then Ok (size, r) else readVariableLengthSize_loop r size (shift + 7)
  end.
Definition readVariableLengthSize (first : byte) (r : bytes) : res (Z * bytes) :=
  let size := Z.land (b2z first) 0x0F in
  if Z.land (b2z first) maskContinue =? 0 then Ok (size, r) else readVariableLengthSize_loop r size 4.

(** ** The state *)
Inductive stateFn := packHeaderSignature | packVersion | packObjectsQty | objectEntry | packFooter.

Section Scanner.
Context {Storage : Type}.
Variable sha1 : bytes -> bytes.
(** A hasher for SHA-256 when there is one, on the type, the size and the content. *)
Variable hasher256 : option (ObjectType -> Z -> bytes -> ObjectID).
Variable crc32 : bytes -> Z.
(** [None] when zlib does not accept the first bytes; else what it gives before it ends, and what is left of the
    source or the error. *)
Variable inflate : bytes -> option (bytes * (error + bytes)).
(** [RawObjectWriter(t, size)] or its error, the writes and [Close] *)
Variable rawObject : Storage -> ObjectType -> Z -> bytes -> error + Storage.
(** Whether the source is an [io.ReadSeeker], [lowMemoryMode], and [objectIDSize]. *)
Variable seeker : bool.
Variable lowMemoryMode : bool.
Variable objectIDSize : Z.

Record Scanner := mkScanner {
  sc_file : bytes;            (* the whole source *)
  sc_offset : Z;              (* where the reader is *)
  sc_hashed : bytes;          (* what packhash was fed since its reset *)
  sc_version : Z; sc_objects : Z; sc_objIndex : Z;
  sc_nextFn : option stateFn;
  sc_packData : PackData;
  sc_err : option error;
  sc_storage : option Storage }.

Definition NewScanner (file : bytes) (storage : option Storage) : Scanner :=
  mkScanner file 0 [] 0 0 (-1) (Some packHeaderSignature) NoSection None storage.

(** The bytes from the position on. *)
Definition sc_rest (s : Scanner) : bytes := drop (Z.to_nat (sc_offset s)) (sc_file s).

(** After a read that leaves [rest] of [sc_rest s]: the position moves and the hash is fed. *)
Definition sc_read (s : Scanner) (rest : bytes) : Scanner :=
  let n := len (sc_rest s) - len rest in
  mkScanner (sc_file s) (sc_offset s + n) (sc_hashed s ++ seg (sc_rest s) 0 n) (sc_version s) (sc_objects s) (sc_objIndex s)
    (sc_nextFn s) (sc_packData s) (sc_err s) (sc_storage s).

Definition with_version (s : Scanner) (v : Z) : Scanner :=
  mkScanner (sc_file s) (sc_offset s) (sc_hashed s) v (sc_objects s) (sc_objIndex s) (sc_nextFn s) (sc_packData s) (sc_err s) (sc_storage s).
Definition with_objIndex (s : Scanner) (i : Z) : Scanner :=
  mkScanner (sc_file s) (sc_offset s) (sc_hashed s) (sc_version s) (sc_objects s) i (sc_nextFn s) (sc_packData s) (sc_err s) (sc_storage s).
Definition with_section (s : Scanner) (objects : Z) (next : option stateFn) (d : PackData) : Scanner :=
  mkScanner (sc_file s) (sc_offset s) (sc_hashed s) (sc_version s) objects (sc_objIndex s) next d (sc_err s) (sc_storage s).
Definition with_err (s : Scanner) (e : error) : Scanner :=
  mkScanner (sc_file s) (sc_offset s) (sc_hashed s) (sc_version s) (sc_objects s) (sc_objIndex s) (sc_nextFn s) (sc_packData s) (Some e) (sc_storage s).
Definition with_storage (s : Scanner) (st : option Storage) : Scanner :=
  mkScanner (sc_file s) (sc_offset s) (sc_hashed s) (sc_version s) (sc_objects s) (sc_objIndex s) (sc_nextFn s) (sc_packData s) (sc_err s) st.
Definition with_offset (s : Scanner) (n : Z) : Scanner :=
  mkScanner (sc_file s) n (sc_hashed s) (sc_version s) (sc_objects s) (sc_objIndex s) (sc_nextFn s) (sc_packData s) (sc_err s) (sc_storage s).

(** A state gives the state to go on with, if any, or an error; the scanner is changed either way, and after an error
    only a seek makes it read again. *)
Definition step_result : Type := Scanner * (error + option stateFn).

(** [packHeaderSignature]: fewer than four bytes leave zeros in the buffer. *)
Definition step_signature (s : Scanner) : step_result :=
  let r := sc_rest s in
  match r with
  | [] => (s, inl ErrBadSignature)
  | _ =>
    let s := sc_read s (drop 4 r) in
    if bool_decide (take 4 r = packSignature) then (s, inr (Some packVersion)) else (s, inl ErrBadSignature)
  end.

Definition step_version (s : Scanner) : step_result :=
  match ReadUint32 (sc_rest s) with
  | Ok (v, rest) =>
    let s := sc_read s rest in
    if negb (Version_Supported v) then (s, inl ErrUnsupportedPackfileVersion) else (with_version s v, inr (Some packObjectsQty))
  | _ => (sc_read s [], inl ErrMalformedPackfile)
  end.

Definition step_objectsQty (s : Scanner) : step_result :=
  match ReadUint32 (sc_rest s) with
  | Ok (qty, rest) =>
    let s := sc_read s rest in
    if qty =? 0 then (s, inr (Some packFooter))
    else (with_section s qty (Some objectEntry) (HeaderSection (mkHeader (sc_version s) qty)), inr None)
  | _ => (sc_read s [], inl ErrMalformedPackfile)
  end.

Definition step_footer (s : Scanner) : step_result :=
  let actual := sha1 (sc_hashed s) in
  match ReadFrom ZeroHash (sc_rest s) with
  | Ok (checksum, rest) =>
    let s := sc_read s rest in
    if negb (ObjectID_Compare checksum actual =? 0) then (s, inl ErrMalformedPackfile)
    else (with_section s (sc_objects s) None (FooterSection checksum), inr None)
  | _ => (sc_read s [], inl ErrMalformedPackfile)
  end.

(** The header of an object: the first byte, the size, and the base of a delta. *)
Definition readBase (typ : ObjectType) (offset : Z) (r : bytes) : res (ObjectID * Z * bytes) :=
  if typ =? OFSDeltaObject then let* (no, r) := ReadVariableWidthInt r in Ok (ZeroHash, offset - no, r)
  else if typ =? REFDeltaObject then
    let* (ref, r) := ReadFrom (ResetBySize ZeroHash objectIDSize) r in Ok (ref, 0, r)
  else Ok (ZeroHash, 0, r).

Definition readObjectHeader (offset : Z) (r : bytes) : res (ObjectType * Z * ObjectID * Z * bytes) :=
  match r with
  | [] => Err EOF
  | b :: r =>
    let typ := parseType b in
    if negb (ObjectType_Valid typ) then Err ErrMalformedPackfile
    else
      let* (size, r) := readVariableLengthSize b r in
      let* (ref, offsetRef, r) := readBase typ offset r in
      Ok (typ, i64 size, ref, offsetRef, r)
  end.

(** [objectEntry]: where the header ends the content is inflated; that of an object that is no delta goes to the hash,
    the storage and, without a seeker, the memory; that of a delta to the memory. *)
Definition step_object (s : Scanner) : step_result :=
  if sc_objIndex s + 1 >=? sc_objects s then (s, inr (Some packFooter))
  else
    let s := with_objIndex s (sc_objIndex s + 1) in
    let offset := sc_offset s in
    match readObjectHeader offset (sc_rest s) with
    | Ok (typ, size, ref, offsetRef, rest) =>
      let contentOffset := offset + (len (sc_rest s) - len rest) in
      match inflate rest with
      | None => (sc_read s rest, inl ErrZlibReset)
      | Some (content, tail) =>
      let stored := match sc_storage s with
                    | Some st => if IsDelta typ then inr (Some st)
                                 else match rawObject st typ size content with inl e => inl e | inr st => inr (Some st) end
                    | None => inr None
                    end in
      match stored with
      | inl e => (sc_read s rest, inl e)
      | inr st =>
        match tail with
        | inl e => (with_storage (sc_read s rest) st, inl e)
        | inr tail =>
          let crc := crc32 (seg (sc_rest s) 0 (len (sc_rest s) - len tail)) in
          let keep := negb lowMemoryMode && (IsDelta typ || negb seeker) in
          let oh := mkObjectHeader typ offset contentOffset size ref offsetRef crc
                      (if IsDelta typ then ZeroHash else Hasher_Sum sha1 typ size content)
                      (if IsDelta typ then None else (fun f => f typ size content) <$> hasher256)
                      (if keep then Some content else None) None typ false in
          let s := with_storage (sc_read s tail) st in
          (with_section s (sc_objects s) (sc_nextFn s) (ObjectSection oh), inr None)
        end
      end
      end
    | Err e => (sc_read s [], inl e)
    | _ => (s, inl ErrMalformedPackfile)
    end.

Definition step (f : stateFn) (s : Scanner) : step_result :=
  match f with
  | packHeaderSignature => step_signature s
  | packVersion => step_version s
  | packObjectsQty => step_objectsQty s
  | objectEntry => step_object s
  | packFooter => step_footer s
  end.

(** [scan]: a chain has at most four states. *)
Fixpoint scan (fuel : nat) (f : stateFn) (s : Scanner) : option (Scanner * option error) :=
  match fuel with
  | O => None
  | S fuel =>
    match step f s with
    | (s, inl e) => Some (s, Some e)
    | (s, inr None) => Some (s, None)
    | (s, inr (Some f)) => scan fuel f s
    end
  end.

(** [Scan]: whether there is a section. *)
Definition Scan (s : Scanner) : option (bool * Scanner) :=
  match sc_err s, sc_nextFn s with
  | None, Some f =>
    match scan 4 f s with
    | None => None
    | Some (s, Some e) => Some (false, with_err s e)
    | Some (s, None) => Some (true, s)
    end
  | _, _ => Some (false, s)
  end.

(** The loop [for scanner.Scan()]: the sections, and the scanner at the end; [fuel] bounds their number. *)
Fixpoint scanAll (fuel : nat) (s : Scanner) : option (list PackData * Scanner) :=
  match fuel with
  | O => None
  | S fuel =>
    match Scan s with
    | None => None
    | Some (false, s) => Some ([], s)
    | Some (true, s) => match scanAll fuel s with None => None | Some (ds, s') => Some (sc_packData s :: ds, s') end
    end
  end.

(** [Reset] with a source that can seek; without one the position stays. *)
Definition Scanner_Reset (s : Scanner) : Scanner :=
  mkScanner (sc_file s) (if seeker then 0 else sc_offset s) [] 0 0 (-1) (Some packHeaderSignature) NoSection None (sc_storage s).

(** [SeekFromStart]: the header is read again; the text of the error is not kept. *)
Definition SeekFromStart (s : Scanner) (offset : Z) : option (Scanner * option error) :=
  match Scan (Scanner_Reset s) with
  | None => None
  | Some (false, s) => Some (s, Some ErrMalformedPackfile)
  | Some (true, s) => if seeker then Some (with_offset s offset, None) else Some (s, Some ErrSeekNotSupported)
  end.

(** [inflateContent] into a writer that had nothing; without a seeker [Seek] fails. *)
Definition inflateContent (s : Scanner) (contentOffset : Z) : Scanner * (error + bytes) :=
  if negb seeker then (s, inl ErrSeekNotSupported)
  else
    let s := with_offset s contentOffset in
    match inflate (sc_rest s) with
    | Some (out, inr tail) => (sc_read s tail, inr out)
    | Some (_, inl e) => (s, inl e)
    | None => (s, inl ErrZlibReset)
    end.

Definition set_content (oh : ObjectHeader) (c : option bytes) : ObjectHeader :=
  mkObjectHeader (oh_Type oh) (oh_Offset oh) (oh_ContentOffset oh) (oh_Size oh) (oh_Reference oh) (oh_OffsetReference oh)
    (oh_Crc32 oh) (oh_Hash oh) (oh_Hash256 oh) c (oh_parent oh) (oh_diskType oh) (oh_externalRef oh).

(** [WriteObject]: the scanner, the header and what is written, or the error.  Content in memory is drained; content of
    the file is read through the scanner, which is left after it.  What a failed inflation had written is not kept. *)
Definition WriteObject (s : Scanner) (oh : ObjectHeader) : Scanner * ObjectHeader * (error + bytes) :=
  match oh_content oh with
  | Some (b :: c) => (s, set_content oh (Some []), inr (b :: c))
  | _ =>
    if oh_externalRef oh && (oh_ContentOffset oh =? 0) then (s, oh, inl ErrObjectNotFound)
    else if negb seeker then (s, oh, inl ErrObjectNotFound)
    else match inflateContent s (oh_ContentOffset oh) with
         | (s, inr out) => (s, oh, inr out)
         | (s, inl _) => (s, oh, inl ErrReferenceDeltaNotFound)
         end
  end.
End Scanner.
Arguments Scanner : clear implicits.
Arguments mkScanner {Storage} _ _ _ _ _ _ _ _ _ _.
