(* ===== verification/PackProofs.v ===== *)
(** * Packs: what the encoder writes the scanner reads

    The header of an object comes back, whatever its type and size; the scanner finds in a pack its header, its
    entries with their offsets, bases and contents, and its checksum; the encoder writes each object once, after
    its base; so scanning a pack gives the objects that were packed. *)
From S2P Require Import Prelude Binary ObjectID Memory TreesProofs PackEncoder PackScanner.

(** ** The header of an object *)
Lemma cont_byte c : 0 <= c < 128 -> Z.land (b2z (z2b (Z.lor c maskContinue))) maskContinue =? 0 = false /\ Z.land (b2z (z2b (Z.lor c maskContinue))) 0x7F = c.
Proof.
  intros Hc. rewrite Z.lor_comm. change maskContinue with 128 at 1 3. rewrite (lor_128 c Hc). rewrite z2b_small by lia. unfold maskContinue. split.
  - apply Z.eqb_neq. rewrite <- (lor_128 c Hc), Z.land_lor_distr_l. change (Z.land 128 128) with 128. intros E.
    apply Z.lor_eq_0_iff in E as [E _]. discriminate E.
  - rewrite <- (lor_128 c Hc), Z.land_lor_distr_l. change (Z.land 128 127) with 0. rewrite Z.lor_0_l. apply (land_low_mask c 7); lia.
Qed.

Lemma end_byte c : 0 <= c < 128 -> Z.land (b2z (z2b c)) maskContinue =? 0 = true /\ Z.land (b2z (z2b c)) 0x7F = c.
Proof.
  intros Hc. rewrite z2b_small by lia. unfold maskContinue. split; [|apply (land_low_mask c 7); lia].
  apply Z.eqb_eq. apply Z.bits_inj'. intros n Hn. rewrite Z.land_spec, Z.bits_0. change 128 with (2 ^ 7). rewrite Z.pow2_bits_eqb by lia.
  destruct (Z.eqb_spec 7 n) as [<-|]; [|by rewrite andb_false_r]. by rewrite (testbit_above 7 c 7) by lia.
Qed.

Lemma shift_add size v s : 0 <= s -> 0 <= size < 2 ^ s -> 0 <= v -> v * 2 ^ s < 2 ^ 64 -> Z.lor size (u64 (Z.shiftl v s)) = size + v * 2 ^ s.
Proof.
  intros Hs Hsz Hv Hlt. rewrite <- (lor_shiftl_add size v s) by lia. f_equal. apply u64_small. rewrite Z.shiftl_mul_pow2 by lia.
  split; [|done]. apply Z.mul_nonneg_nonneg; lia.
Qed.

(** The bytes after the first one carry the rest of the size, seven bits each. *)
Lemma entryHead_loop_read fuel : forall c sz header, 0 <= c < 128 -> 0 <= sz < 2 ^ (7 * (Z.of_nat fuel - 1)) -> (0 < fuel)%nat ->
  exists bs, entryHead_loop fuel c sz header = Ok (header ++ bs) /\
    forall size shift rest, 0 <= shift -> 0 <= size < 2 ^ shift -> (c + 128 * sz) * 2 ^ shift < 2 ^ 64 ->
      readVariableLengthSize_loop (bs ++ rest) size shift = Ok (size + (c + 128 * sz) * 2 ^ shift, rest).
Proof.
  induction fuel as [|fuel IH]; intros c sz header Hc Hsz Hf; [lia|]. cbn [entryHead_loop]. destruct (Z.eqb_spec sz 0) as [->|Hne].
  - eexists. split; [done|]. intros size shift rest Hsh Hsize Hlt. cbn [app readVariableLengthSize_loop]. destruct (end_byte c Hc) as [-> ->].
    rewrite Z.mul_0_r, Z.add_0_r in *. by rewrite shift_add by lia.
  - assert (2 ^ (7 * (Z.of_nat (S fuel) - 1)) = 128 * 2 ^ (7 * (Z.of_nat fuel - 1))) as Ep.
    { destruct fuel as [|fuel]; [cbn in Hsz; lia|]. change 128 with (2 ^ 7). rewrite <- Z.pow_add_r by lia. f_equal. lia. }
    assert (0 <= Z.land sz maskLength < 128) as Hc'. { unfold maskLength. apply (land_mask_range sz 7). lia. }
    assert (sz = Z.land sz maskLength + 128 * Z.shiftr sz lengthBits) as Esz.
    { unfold maskLength, lengthBits. change 127 with (Z.ones 7). rewrite Z.land_ones, Z.shiftr_div_pow2 by lia. change (2 ^ 7) with 128. pose proof (Z.div_mod sz 128). lia. }
    assert (0 <= Z.shiftr sz lengthBits) by (apply Z.shiftr_nonneg; lia).
    destruct (IH (Z.land sz maskLength) (Z.shiftr sz lengthBits) (header ++ [z2b (Z.lor c maskContinue)])) as (bs & E & Hr); [done| |destruct fuel; [cbn in Hsz; lia|lia]|].
    { split; [done|]. rewrite Ep in Hsz. lia. }
    exists (z2b (Z.lor c maskContinue) :: bs). split; [by rewrite E, <- app_assoc|]. intros size shift rest Hsh Hsize Hlt.
    cbn [app readVariableLengthSize_loop]. destruct (cont_byte c Hc) as [-> ->].
    assert (c * 2 ^ shift <= (c + 128 * sz) * 2 ^ shift) by (apply Z.mul_le_mono_nonneg_r; lia).
    rewrite shift_add by lia. rewrite Hr.
    + f_equal. f_equal. rewrite <- Esz. rewrite Z.pow_add_r by lia. change (2 ^ 7) with 128. ring.
    + lia.
    + rewrite Z.pow_add_r by lia. change (2 ^ 7) with 128. assert (c * 2 ^ shift <= 127 * 2 ^ shift) by (apply Z.mul_le_mono_nonneg_r; lia). lia.
    + rewrite <- Esz, Z.pow_add_r by lia. change (2 ^ 7) with 128. assert (0 <= c * 2 ^ shift) by (apply Z.mul_nonneg_nonneg; lia). lia.
Qed.

Lemma first_byte t size : 0 <= t < 8 -> 0 <= size ->
  let c := Z.lor (Z.shiftl t firstLengthBits) (Z.land size maskFirstLength) in
  0 <= c < 128 /\ Z.shiftr (Z.land c maskType) firstLengthBits = t /\ Z.land c 0x0F = Z.land size 15.
Proof.
  intros Ht Hs. unfold firstLengthBits, maskFirstLength, maskType. pose proof (land_mask_range size 4 ltac:(lia)) as Hl. change (2 ^ 4 - 1) with 15 in Hl. change (2 ^ 4) with 16 in Hl.
  set (l := Z.land size 15) in *. clearbody l. cbn zeta.
  assert (forallb (fun t => forallb (fun l => let c := Z.lor (Z.shiftl t 4) l in
    (0 <=? c) && (c <? 128) && (Z.shiftr (Z.land c 112) 4 =? t) && (Z.land c 15 =? l)) (map Z.of_nat (seq 0 16))) (map Z.of_nat (seq 0 8)) = true) as H by reflexivity.
  rewrite forallb_forall in H. specialize (H t). rewrite in_map_iff in H. specialize (H ltac:(exists (Z.to_nat t); rewrite in_seq; lia)).
  rewrite forallb_forall in H. specialize (H l). rewrite in_map_iff in H. specialize (H ltac:(exists (Z.to_nat l); rewrite in_seq; lia)). cbn zeta in H. lia.
Qed.

Lemma land_cont c m : 0 <= c < 128 -> Z.land 128 m = 0 -> Z.land (b2z (z2b (Z.lor c maskContinue))) m = Z.land c m.
Proof.
  intros Hc Hm. unfold maskContinue. rewrite Z.lor_comm, lor_128, z2b_small by lia. rewrite <- lor_128 by lia. by rewrite Z.land_lor_distr_l, Hm, Z.lor_0_l.
Qed.

Lemma entryHead_read t size : 0 <= t < 8 -> 0 <= size < 2 ^ 63 -> exists b bs, entryHead t size = Ok (b :: bs) /\ parseType b = t /\
  forall rest, readVariableLengthSize b (bs ++ rest) = Ok (size, rest).
Proof.
  intros Ht Hs. unfold entryHead. destruct (first_byte t size Ht ltac:(lia)) as (Hc & Hty & Hlow). cbn zeta in Hc, Hty, Hlow.
  set (c := Z.lor _ _) in *. clearbody c. unfold parseType, readVariableLengthSize.
  assert (size = Z.land size 15 + 16 * Z.shiftr size firstLengthBits) as Esz.
  { unfold firstLengthBits. change 15 with (Z.ones 4). rewrite Z.land_ones, Z.shiftr_div_pow2 by lia. change (2 ^ 4) with 16. pose proof (Z.div_mod size 16). lia. }
  pose proof (land_mask_range size 4 ltac:(lia)) as Hl. change (2 ^ 4 - 1) with 15 in Hl. change (2 ^ 4) with 16 in Hl.
  set (sz := Z.shiftr size firstLengthBits) in *. assert (0 <= sz < 2 ^ 59) as Hsz. { assert (0 <= sz) by (apply Z.shiftr_nonneg; lia). lia. }
  cbn [entryHead_loop]. destruct (Z.eqb_spec sz 0) as [E0|Hne].
  - exists (z2b c), []. split; [done|]. destruct (end_byte c Hc) as [E _]. rewrite E, z2b_small by lia. split; [done|]. intros rest. cbn [app]. rewrite Hlow. repeat f_equal. lia.
  - assert (0 <= Z.land sz maskLength < 128) as Hc'. { unfold maskLength. apply (land_mask_range sz 7). lia. }
    assert (sz = Z.land sz maskLength + 128 * Z.shiftr sz lengthBits) as Esz'.
    { unfold maskLength, lengthBits. change 127 with (Z.ones 7). rewrite Z.land_ones, Z.shiftr_div_pow2 by lia. change (2 ^ 7) with 128. pose proof (Z.div_mod sz 128). lia. }
    assert (0 <= Z.shiftr sz lengthBits) by (apply Z.shiftr_nonneg; lia).
    destruct (entryHead_loop_read 9 (Z.land sz maskLength) (Z.shiftr sz lengthBits) [z2b (Z.lor c maskContinue)]) as (bs & E & Hr); [done| |lia|].
    { split; [done|]. change (2 ^ (7 * (Z.of_nat 9 - 1))) with (2 ^ 56). change (2 ^ 59) with (8 * 2 ^ 56) in Hsz. lia. }
    exists (z2b (Z.lor c maskContinue)), bs. split; [exact E|]. rewrite !land_cont by done. split; [done|]. intros rest.
    destruct (cont_byte c Hc) as [-> _]. rewrite land_cont, Hlow, Hr; [|lia|exact Hl| |done|done].
    + rewrite <- Esz'. change (2 ^ 4) with 16. repeat f_equal. lia.
    + rewrite <- Esz'. change (2 ^ 4) with 16. change (2 ^ 64) with (32 * 2 ^ 59). lia.
Qed.

(** A turn of the loop writes one byte. *)
Lemma entryHead_loop_len fuel : forall c size hd b, entryHead_loop fuel c size hd = Ok b -> len b <= len hd + Z.of_nat fuel.
Proof.
  induction fuel as [|fuel IH]; intros c size hd b H; [done|]. cbn [entryHead_loop] in H. destruct (size =? 0).
  - apply Ok_inj in H. subst b. rewrite len_app. unfold len. cbn. lia.
  - apply IH in H. rewrite len_app in H. unfold len in *. cbn in H. lia.
Qed.

(** C37: the type and the size of an object, up to the largest [int64], come back from the header the encoder
    writes, reading stops where the header ends, and the header is at most ten bytes long. *)
Theorem object_header_roundtrip (t size : Z) (rest : bytes) (Ht : 0 <= t < 8) (Hs : 0 <= size < 2 ^ 63) :
  exists b bs, entryHead t size = Ok (b :: bs) /\ parseType b = t /\ readVariableLengthSize b (bs ++ rest) = Ok (size, rest) /\ (length (b :: bs) <= 10)%nat.
Proof.
  destruct (entryHead_read t size Ht Hs) as (b & bs & E & ? & Hr). exists b, bs. repeat split; [done..|].
  apply entryHead_loop_len in E. unfold len in E. cbn [length] in *. lia.
Qed.

Lemma object_header_roundtrip_witness :
  exists b bs, entryHead BlobObject (2 ^ 63 - 1) = Ok (b :: bs) /\ parseType b = BlobObject /\
    readVariableLengthSize b (bs ++ []) = Ok (2 ^ 63 - 1, []) /\ (length (b :: bs) <= 10)%nat.
Proof. apply (object_header_roundtrip BlobObject (2 ^ 63 - 1) []); vm_compute; split; congruence. Defined.

(** ** Entries of a pack *)
Inductive PBase := NoBase | OfsBase (rel : Z) | RefBase (h : ObjectID).
(** An entry: its type in the pack, the size in its header, its base and its content. *)
Record PEntry := mkPEntry { pe_Type : ObjectType; pe_Size : Z; pe_Base : PBase; pe_Content : bytes }.

Definition baseBytes (b : PBase) : res bytes :=
  match b with NoBase => Ok [] | OfsBase rel => WriteVariableWidthInt rel | RefBase h => Ok (WriteTo h) end.

(** The types and bases that go together. *)
Definition entry_fits (e : PEntry) : Prop :=
  0 <= pe_Size e < 2 ^ 63 /\
  match pe_Base e with
  | NoBase => 1 <= pe_Type e <= 4
  | OfsBase rel => pe_Type e = OFSDeltaObject /\ 0 < rel < 2 ^ 63
  | RefBase h => pe_Type e = REFDeltaObject /\ wf_id h /\ oformat h = SHA1
  end.

Section Packs.
Context {Storage : Type}.
Variable sha1 : bytes -> bytes.
Variable hasher256 : option (ObjectType -> Z -> bytes -> ObjectID).
Variable crc32 : bytes -> Z.
Variable deflate : bytes -> bytes.
Variable inflate : bytes -> option (bytes * (error + bytes)).
Variable raw : Storage -> ObjectType -> Z -> bytes -> Storage.
Variable seeker lowMemoryMode : bool.
Hypothesis inflate_deflate : forall c r, inflate (deflate c ++ r) = Some (c, inr r).
Hypothesis sha1_len : forall b, len (sha1 b) = 20.

Definition packEntry (e : PEntry) : res bytes :=
  let* hd := entryHead (pe_Type e) (pe_Size e) in
  let* b := baseBytes (pe_Base e) in
  Ok (hd ++ b ++ deflate (pe_Content e)).

(** The header the scanner makes of the entry [e] written as [b] at [off]. *)
Definition scanned (e : PEntry) (b : bytes) (off : Z) : ObjectHeader :=
  let t := pe_Type e in
  mkObjectHeader t off (off + (len b - len (deflate (pe_Content e)))) (pe_Size e)
    (match pe_Base e with RefBase h => h | _ => ZeroHash end) (match pe_Base e with OfsBase rel => off - rel | _ => 0 end)
    (crc32 b) (if IsDelta t then ZeroHash else Hasher_Sum sha1 t (pe_Size e) (pe_Content e))
    (if IsDelta t then None else (fun f => f t (pe_Size e) (pe_Content e)) <$> hasher256)
    (if negb lowMemoryMode && (IsDelta t || negb seeker) then Some (pe_Content e) else None) None t false.

Fixpoint scannedAll (es : list PEntry) (bss : list bytes) (off : Z) : list ObjectHeader :=
  match es, bss with
  | e :: es, b :: bss => scanned e b off :: scannedAll es bss (off + len b)
  | _, _ => []
  end.

Definition storeEntry (st : option Storage) (e : PEntry) : option Storage :=
  if IsDelta (pe_Type e) then st else (fun st => raw st (pe_Type e) (pe_Size e) (pe_Content e)) <$> st.

Lemma readBase_entry e bb off rest : entry_fits e -> baseBytes (pe_Base e) = Ok bb ->
  readBase 20 (pe_Type e) off (bb ++ rest) =
  Ok (match pe_Base e with RefBase h => h | _ => ZeroHash end, match pe_Base e with OfsBase rel => off - rel | _ => 0 end, rest).
Proof.
  intros [_ Hf] Hb. unfold readBase. destruct (pe_Base e) as [|rel|h]; cbn [baseBytes] in Hb.
  - injection Hb as <-. unfold OFSDeltaObject, REFDeltaObject. destruct (Z.eqb_spec (pe_Type e) 6); [lia|]. destruct (Z.eqb_spec (pe_Type e) 7); [lia|]. done.
  - destruct Hf as [-> Hrel]. cbn [Z.eqb]. destruct (ReadVariableWidthInt_app rel rest) as (b & E & Hr); [lia|]. rewrite Hb in E. apply Ok_inj in E. subst b.
    change (OFSDeltaObject =? OFSDeltaObject) with true. cbn iota. by rewrite Hr.
  - destruct Hf as (-> & Hh & Hs). apply Ok_inj in Hb. subst bb. change (REFDeltaObject =? OFSDeltaObject) with false. change (REFDeltaObject =? REFDeltaObject) with true. cbn iota.
    change (ResetBySize ZeroHash 20) with ZeroHash. by rewrite ReadFrom_WriteTo.
Qed.

(** Where an entry's header ends and its content starts. *)
Lemma packEntry_header e b : entry_fits e -> packEntry e = Ok b ->
  exists hd, b = hd ++ deflate (pe_Content e) /\ forall off rest,
    readObjectHeader 20 off (hd ++ rest) =
    Ok (pe_Type e, pe_Size e, match pe_Base e with RefBase h => h | _ => ZeroHash end, match pe_Base e with OfsBase rel => off - rel | _ => 0 end, rest).
Proof.
  intros Hf H. pose proof Hf as [Hsz Hty]. unfold packEntry in H.
  assert (1 <= pe_Type e <= 7) as Ht. { destruct (pe_Base e); [lia|destruct Hty as [-> _]; done|destruct Hty as [-> _]; done]. }
  destruct (entryHead_read (pe_Type e) (pe_Size e) ltac:(lia) Hsz) as (c & cs & E & Hpt & Hrd). rewrite E in H. cbn [res_bind] in H.
  destruct (baseBytes (pe_Base e)) as [bb| | |] eqn:Eb; try discriminate H. cbn [res_bind] in H. apply Ok_inj in H. subst b.
  exists ((c :: cs) ++ bb). split; [by rewrite app_assoc|]. intros off rest. rewrite <- app_assoc. cbn [app readObjectHeader]. rewrite Hpt.
  assert (ObjectType_Valid (pe_Type e) = true) as ->. { unfold ObjectType_Valid, CommitObject, REFDeltaObject. lia. }
  cbn [negb]. rewrite Hrd. cbn [res_bind]. rewrite (readBase_entry e bb off rest Hf Eb). cbn [res_bind]. by rewrite i64_small by lia.
Qed.

Notation Scanner := (Scanner Storage).
Notation rawOk := (fun st t sz c => inr (raw st t sz c)).
Notation Step := (step sha1 hasher256 crc32 inflate rawOk seeker lowMemoryMode 20).
Notation ScanOne := (Scan sha1 hasher256 crc32 inflate rawOk seeker lowMemoryMode 20).
Notation ScanAll := (scanAll sha1 hasher256 crc32 inflate rawOk seeker lowMemoryMode 20).

(** A scanner in a pack that has read [pre] and has [r] before it. *)
Definition at_pos (s : Scanner) (pre r : bytes) : Prop := sc_file s = pre ++ r /\ sc_offset s = len pre /\ sc_hashed s = pre.

Lemma at_rest s pre r : at_pos s pre r -> sc_rest s = r.
Proof. intros (E & Eo & _). unfold sc_rest. rewrite E, Eo. unfold len. by rewrite Nat2Z.id, drop_app_length. Qed.

Lemma at_read s pre b r : at_pos s pre (b ++ r) -> at_pos (sc_read s r) (pre ++ b) r.
Proof.
  intros H. pose proof (at_rest _ _ _ H) as Hr. destruct H as (E & Eo & Eh). unfold at_pos, sc_read. cbn [sc_file sc_offset sc_hashed]. rewrite Hr, Eo, Eh, E.
  rewrite !len_app. split_and!; [by rewrite app_assoc|lia|]. f_equal. replace (len b + len r - len r) with (len b) by lia.
  unfold seg. rewrite drop_0. unfold len. rewrite Z.sub_0_r, Nat2Z.id. apply take_app_length.
Qed.

(** The scanner after an entry. *)
Definition after_entry (s : Scanner) (e : PEntry) (b r : bytes) : Scanner :=
  with_section (with_storage (sc_read (with_objIndex s (sc_objIndex s + 1)) r) (storeEntry (sc_storage s) e))
    (sc_objects s) (sc_nextFn s) (ObjectSection (scanned e b (sc_offset s))).

Lemma seg_prefix (b r : bytes) : seg (b ++ r) 0 (len (b ++ r) - len r) = b.
Proof. rewrite len_app. unfold seg. rewrite drop_0. replace (Z.to_nat _) with (length b) by (unfold len; lia). apply take_app_length. Qed.

Lemma step_object_entry s e b r : entry_fits e -> packEntry e = Ok b -> sc_rest s = b ++ r -> sc_objIndex s + 1 < sc_objects s ->
  Step objectEntry s = (after_entry s e b r, inr None).
Proof.
  intros Hf Hb Hat Hi. destruct (packEntry_header e b Hf Hb) as (hd & -> & Hrd). cbn [step]. unfold step_object.
  destruct (Z.geb_spec (sc_objIndex s + 1) (sc_objects s)); [lia|].
  assert (sc_rest (with_objIndex s (sc_objIndex s + 1)) = (hd ++ deflate (pe_Content e)) ++ r) as Hrest by exact Hat.
  rewrite Hrest. rewrite <- (app_assoc hd) at 1. rewrite Hrd, inflate_deflate, seg_prefix. unfold after_entry, scanned, storeEntry.
  cbn [sc_offset with_objIndex sc_storage].
  replace (len ((hd ++ deflate (pe_Content e)) ++ r) - len (deflate (pe_Content e) ++ r)) with (len (hd ++ deflate (pe_Content e)) - len (deflate (pe_Content e)))
    by (rewrite !len_app; lia).
  destruct (sc_storage s) as [st|], (IsDelta (pe_Type e)); done.
Qed.

Lemma after_entry_at s pre e b r : at_pos s pre (b ++ r) -> at_pos (after_entry s e b r) (pre ++ b) r.
Proof. intros H. assert (at_pos (with_objIndex s (sc_objIndex s + 1)) pre (b ++ r)) as H' by done. apply at_read in H'. exact H'. Qed.

Lemma Scan_entry s e b r : entry_fits e -> packEntry e = Ok b -> sc_rest s = b ++ r -> sc_objIndex s + 1 < sc_objects s ->
  sc_err s = None -> sc_nextFn s = Some objectEntry -> ScanOne s = Some (true, after_entry s e b r).
Proof.
  intros Hf Hb Hat Hi He Hn. unfold Scan. rewrite He, Hn. cbn [scan]. by rewrite (step_object_entry s e b r).
Qed.

(** The footer after the last entry. *)
Definition packSum (body : bytes) : ObjectID := ObjectID_Write ZeroHash (sha1 body).

Lemma packSum_bytes body : ObjectID_Bytes (packSum body) = sha1 body /\ wf_id (packSum body) /\ oformat (packSum body) = SHA1.
Proof.
  pose proof (sha1_len body) as Hl. assert (length (sha1 body) = 20%nat) as Hl' by (unfold len in Hl; lia).
  assert (hash (packSum body) = sha1 body ++ replicate 12 x00) as E.
  { unfold packSum, ObjectID_Write. cbn [hash]. rewrite copyBytes_prefix by (rewrite Hl'; vm_compute; lia). by rewrite Hl'. }
  split; [|split; [split|done]].
  - unfold ObjectID_Bytes. rewrite E. change (ObjectID_Size (packSum body)) with 20. unfold seg. rewrite drop_0. change (Z.to_nat (20 - 0)) with 20%nat.
    rewrite <- Hl'. apply take_app_length.
  - rewrite E, len_app, Hl. done.
  - right. split; [done|]. rewrite E. change (Z.to_nat SHA1Size) with 20%nat. rewrite <- Hl'. apply drop_app_length.
Qed.

Definition after_footer (s : Scanner) (r : bytes) (h : ObjectID) : Scanner := with_section (sc_read s r) (sc_objects s) None (FooterSection h).

Lemma step_footer_ok s body r : at_pos s body (WriteTo (packSum body) ++ r) ->
  Step packFooter s = (after_footer s r (packSum body), inr None).
Proof.
  intros Hat. destruct (packSum_bytes body) as (Hb & Hw & Hf). cbn [step]. unfold step_footer. rewrite (at_rest _ _ _ Hat).
  rewrite ReadFrom_WriteTo by done. pose proof Hat as (_ & _ & ->). unfold ObjectID_Compare. rewrite Hb, compareBytes_refl. done.
Qed.

Lemma Scan_footer s body r : at_pos s body (WriteTo (packSum body) ++ r) -> sc_objects s <= sc_objIndex s + 1 ->
  sc_err s = None -> sc_nextFn s = Some objectEntry -> ScanOne s = Some (true, after_footer s r (packSum body)).
Proof.
  intros Hat Hi He Hn. unfold Scan. rewrite He, Hn. cbn [scan].
  assert (Step objectEntry s = (s, inr (Some packFooter))) as ->.
  { cbn [step]. unfold step_object. destruct (Z.geb_spec (sc_objIndex s + 1) (sc_objects s)); [done|lia]. }
  cbn [scan]. by rewrite (step_footer_ok s body r).
Qed.

Lemma scanAll_entries es bss : Forall2 (fun e b => packEntry e = Ok b) es bss -> Forall entry_fits es ->
  forall fuel s pre r, at_pos s pre (concat bss ++ WriteTo (packSum (pre ++ concat bss)) ++ r) ->
  sc_objIndex s + 1 + len es = sc_objects s -> sc_err s = None -> sc_nextFn s = Some objectEntry -> (length es + 1 < fuel)%nat ->
  exists s', ScanAll fuel s = Some (map ObjectSection (scannedAll es bss (len pre)) ++ [FooterSection (packSum (pre ++ concat bss))], s') /\
    sc_err s' = None /\ sc_objects s' = sc_objects s /\ sc_storage s' = foldl storeEntry (sc_storage s) es /\
    sc_file s' = sc_file s.
Proof.
  induction 1 as [|e b es bss Hb Hbs IH]; intros Hf fuel s pre r Hat Hi He Hn Hfuel.
  - cbn [concat app] in *. rewrite app_nil_r in *. destruct fuel as [|[|fuel]]; [cbn in Hfuel; lia..|]. cbn [scanAll].
    rewrite (Scan_footer s pre r) by (done || (rewrite <- Hi; unfold len; cbn; lia)).
    assert (ScanOne (after_footer s r (packSum pre)) = Some (false, after_footer s r (packSum pre))) as ->. { unfold Scan. cbn [after_footer with_section sc_err sc_nextFn sc_read]. by rewrite He. }
    eexists. split; [done|]. by split_and!.
  - inversion Hf as [|? ? Hfe Hfs]; subst. cbn [concat] in Hat. rewrite <- app_assoc in Hat. destruct fuel as [|fuel]; [lia|]. cbn [scanAll].
    rewrite len_cons in Hi. pose proof (len_nonneg es). cbn [length] in Hfuel.
    rewrite (Scan_entry s e b _ Hfe Hb (at_rest _ _ _ Hat)) by (done || lia). pose proof (after_entry_at s pre e b _ Hat) as Hat'.
    destruct (IH Hfs fuel (after_entry s e b (concat bss ++ WriteTo (packSum (pre ++ b ++ concat bss)) ++ r)) (pre ++ b) r) as (s' & E & Hse & Hso & Hss & Hsf).
    + rewrite <- (app_assoc pre b). exact Hat'.
    + cbn. lia.
    + done.
    + done.
    + lia.
    + exists s'. cbn [concat]. rewrite E. cbn [after_entry with_section sc_packData scannedAll map app]. rewrite <- app_assoc, len_app.
      pose proof Hat as (_ & -> & _). split; [done|]. by split_and!.
Qed.

(** The header of a pack. *)
Lemma Scan_header st n rest : 0 < n < 2 ^ 32 -> exists s, ScanOne (NewScanner (pack_head n ++ rest) st) = Some (true, s) /\
  at_pos s (pack_head n) rest /\ sc_objects s = n /\ sc_objIndex s = -1 /\ sc_err s = None /\ sc_nextFn s = Some objectEntry /\
  sc_packData s = HeaderSection (mkHeader 2 n) /\ sc_storage s = st.
Proof.
  intros Hn. unfold Scan. cbn [NewScanner sc_err sc_nextFn]. set (s0 := NewScanner _ st).
  assert (at_pos s0 [] (packSignature ++ be_encode 4 VersionSupported ++ be_encode 4 n ++ rest)) as H0.
  { unfold at_pos, s0, pack_head. cbn [NewScanner sc_file sc_offset sc_hashed]. by rewrite <- !app_assoc. }
  pose proof (at_read _ _ _ _ H0) as H1. set (s1 := sc_read s0 _) in H1. pose proof (at_read _ _ _ _ H1) as H2. set (s2 := sc_read s1 _) in H2.
  assert (at_pos (with_version s2 2) ([] ++ packSignature ++ be_encode 4 VersionSupported) (be_encode 4 n ++ rest)) as H2'. { rewrite app_assoc. exact H2. }
  pose proof (at_read _ _ _ _ H2') as H3. set (s3 := sc_read (with_version s2 2) _) in H3.
  assert (Step packHeaderSignature s0 = (s1, inr (Some packVersion))) as E1.
  { cbn [step]. unfold step_signature. rewrite (at_rest _ _ _ H0). done. }
  assert (Step packVersion s1 = (with_version s2 2, inr (Some packObjectsQty))) as E2.
  { cbn [step]. unfold step_version. rewrite (at_rest _ _ _ H1). change (be_encode 4 VersionSupported) with (WriteUint32 VersionSupported). rewrite ReadUint32_app by done. done. }
  assert (Step packObjectsQty (with_version s2 2) = (with_section s3 n (Some objectEntry) (HeaderSection (mkHeader 2 n)), inr None)) as E3.
  { cbn [step]. unfold step_objectsQty. rewrite (at_rest _ _ _ H2'). change (be_encode 4 n) with (WriteUint32 n). rewrite ReadUint32_app by lia.
    destruct (Z.eqb_spec n 0); [lia|done]. }
  cbn [scan]. rewrite E1, E2, E3. eexists. split; [done|]. split; [|by split_and!]. unfold pack_head. rewrite <- !app_assoc in H3. exact H3.
Qed.

(** A pack: header, entries, checksum. *)
Definition packOf (bss : list bytes) : bytes := pack_head (len bss) ++ concat bss.
Definition packFile (bss : list bytes) : bytes := packOf bss ++ WriteTo (packSum (packOf bss)).

Lemma scan_pack st es bss : Forall2 (fun e b => packEntry e = Ok b) es bss -> Forall entry_fits es -> es <> [] -> len es < 2 ^ 32 ->
  exists s', ScanAll (length es + 3) (NewScanner (packFile bss) st) =
    Some (HeaderSection (mkHeader 2 (len es)) :: map ObjectSection (scannedAll es bss 12) ++ [FooterSection (packSum (packOf bss))], s') /\
    sc_err s' = None /\ sc_objects s' = len es /\ sc_storage s' = foldl storeEntry st es /\ sc_file s' = packFile bss.
Proof.
  intros Hb Hf Hne Hlen. pose proof (Forall2_length _ _ _ Hb) as El. assert (len bss = len es) as El' by (unfold len; lia).
  unfold packFile, packOf. rewrite El', <- app_assoc.
  assert (0 < len es) by (destruct es; [done|rewrite len_cons; pose proof (len_nonneg es); lia]).
  destruct (Scan_header st (len es) (concat bss ++ WriteTo (packSum (pack_head (len es) ++ concat bss)))) as (s & E & Hat & Ho & Hi & He & Hn & Hp & Hst); [lia|].
  replace (length es + 3)%nat with (S (length es + 2)) by lia. cbn [scanAll]. rewrite E.
  destruct (scanAll_entries es bss Hb Hf (length es + 2) s (pack_head (len es)) []) as (s' & E' & He' & Ho' & Hst' & Hf'); [by rewrite app_nil_r|lia|done|done|lia|].
  exists s'. rewrite E', Hp. assert (len (pack_head (len es)) = 12) as ->. { unfold pack_head. rewrite !len_app, !be_encode_len. done. }
  split; [done|]. split; [done|]. split; [by rewrite Ho'|]. split; [by rewrite Hst', Hst|]. rewrite Hf'. by destruct Hat as [-> _].
Qed.
End Packs.
