(* ===== verification/PackEncoderProofs.v ===== *)
(** * The encoder writes each object once, after its base

    The encoder ends without an error, and the pack is that of one entry per object in an order where a base comes
    first; where deltas form a cycle, one of them goes back to its original.  With the scanner this gives: scanning the
    pack of some objects gives those objects. *)
From S2P Require Import Prelude Binary ObjectID Memory TreesProofs PackEncoder PackScanner PackProofs.

(** ** Lengths of headers *)
Lemma WriteVariableWidthInt_loop_len fuel : forall n buf b, WriteVariableWidthInt_loop fuel n buf = Ok b -> len b <= len buf + Z.of_nat fuel.
Proof.
  induction fuel as [|fuel IH]; intros n buf b H; [done|]. cbn [WriteVariableWidthInt_loop] in H. destruct (n =? 0).
  - apply Ok_inj in H. subst b. lia.
  - apply IH in H. rewrite len_cons in H. lia.
Qed.

Lemma WriteVariableWidthInt_len n b : WriteVariableWidthInt n = Ok b -> len b <= 11.
Proof. unfold WriteVariableWidthInt. intros H. apply WriteVariableWidthInt_loop_len in H. unfold len in *. cbn in H. lia. Qed.

Lemma with_Offset_id o : with_Offset o (otp_Offset o) = o.
Proof. by destruct o. Qed.

(** ** The entries written, for a store that stays as it is *)
Section Written.
Variable deflate : bytes -> bytes.
Variable useRefDeltas : bool.
(** The objects but for where they are in the pack, the ones to write and a bound on the length of an entry. *)
Variable st0 : objects.
Variable objs : list nat.
Variable K : Z.

Definition baseOf (i : nat) : option nat := o ← st0 !! i; otp_Base o.

Definition object_ready (o : ObjectToPack) : Prop :=
  exists obj, otp_Object o = Some obj /\ otp_Offset o = 0 /\ 30 + len (deflate (po_Content obj)) <= K /\
  match otp_Base o with
  | None => exists t sz, otp_Type 1 [] o = Ok t /\ 1 <= t <= 4 /\ otp_Size o = Ok sz /\ 0 <= sz < 2 ^ 63
  | Some b => b ∈ objs /\ 0 <= po_Size obj < 2 ^ 63 /\
      (useRefDeltas = true -> exists base h, st0 !! b = Some base /\ otp_Hash base = Ok h /\ wf_id h /\ oformat h = SHA1)
  end.

Record packable : Prop := {
  pk_nodup : NoDup objs;
  pk_ready : forall i, i ∈ objs -> exists o, st0 !! i = Some o /\ object_ready o;
  pk_room : 12 + K * len objs < 2 ^ 63 }.

(** The entry of an object, given where each object is in the pack. *)
Definition resOr {A} (d : A) (m : res A) : A := match m with Ok a => a | _ => d end.
Definition hashOf (b : nat) : ObjectID := match st0 !! b with Some base => resOr ZeroHash (otp_Hash base) | None => ZeroHash end.
Definition entryFor (off : nat -> Z) (i : nat) : PEntry :=
  match st0 !! i with
  | None => mkPEntry 0 0 NoBase []
  | Some o =>
    let content := match otp_Object o with Some obj => po_Content obj | None => [] end in
    let size := match otp_Object o with Some obj => po_Size obj | None => 0 end in
    match otp_Base o with
    | None => mkPEntry (resOr 0 (otp_Type 1 [] o)) (resOr 0 (otp_Size o)) NoBase content
    | Some b => if useRefDeltas then mkPEntry REFDeltaObject size (RefBase (hashOf b)) content
                else mkPEntry OFSDeltaObject size (OfsBase (off i - off b)) content
    end
  end.

Definition offsetOf (st : objects) (i : nat) : Z := match st !! i with Some o => otp_Offset o | None => 0 end.

Fixpoint offsets_at (off : nat -> Z) (order : list nat) (bss : list bytes) (start : Z) : Prop :=
  match order, bss with
  | [], [] => True
  | i :: order, b :: bss => off i = start /\ offsets_at off order bss (start + len b)
  | _, _ => False
  end.

(** What has been written: [order] in this order, as [bss]. *)
Record written (st : objects) (out : bytes) (order : list nat) (bss : list bytes) : Prop := {
  wr_len : length st = length st0;
  wr_same : forall i o, st0 !! i = Some o -> st !! i = Some (with_Offset o (offsetOf st i));
  wr_out : out = pack_head (len objs) ++ concat bss;
  wr_order : NoDup order /\ forall i, i ∈ order -> i ∈ objs;
  wr_before : forall a i b, order !! a = Some i -> baseOf i = Some b -> b ∈ take a order;
  wr_entries : Forall2 (fun i b => packEntry deflate (entryFor (offsetOf st) i) = Ok b /\ entry_fits (entryFor (offsetOf st) i)) order bss;
  wr_offsets : offsets_at (offsetOf st) order bss 12;
  wr_bound : len out <= 12 + K * len order;
  wr_done : forall i, i ∈ order -> 1 < offsetOf st i }.
Lemma before_closed order i b : (forall a i b, order !! a = Some i -> baseOf i = Some b -> b ∈ take a order) -> i ∈ order -> baseOf i = Some b -> b ∈ order.
Proof. intros Hb [a Ha]%list_elem_of_lookup Eb. specialize (Hb a i b Ha Eb). apply elem_of_take in Hb as (k & Hk & _). by eapply list_elem_of_lookup_2. Qed.
Lemma wr_closed st out order bss : written st out order bss -> forall i b, i ∈ order -> baseOf i = Some b -> b ∈ order.
Proof. intros W i b. apply before_closed, W. Qed.

Hypothesis Hpk : packable.

Lemma entryFor_ext off off' i : off i = off' i -> (forall b, baseOf i = Some b -> off b = off' b) -> entryFor off i = entryFor off' i.
Proof.
  intros Hi Hb. unfold entryFor, baseOf in *. destruct (st0 !! i) as [o|]; [|done]. cbn in Hb. destruct (otp_Base o) as [b|]; [|done].
  destruct useRefDeltas; [done|]. by rewrite Hi, (Hb b eq_refl).
Qed.

Lemma offsets_at_ext off off' order bss : forall start, (forall i, i ∈ order -> off i = off' i) -> offsets_at off order bss start -> offsets_at off' order bss start.
Proof.
  revert bss. induction order as [|i order IH]; intros [|b bss] start H; cbn [offsets_at]; try done. intros [E Hr]. split; [by rewrite <- H by (by left)|].
  apply IH; [|done]. intros j Hj. apply H. by right.
Qed.

Lemma offsets_at_snoc off order bss : forall start i b, offsets_at off order bss start -> off i = start + len (concat bss) ->
  offsets_at off (order ++ [i]) (bss ++ [b]) start.
Proof.
  revert bss. induction order as [|j order IH]; intros [|c bss] start i b H E; cbn [offsets_at app concat] in *; try done.
  - split; [|done]. rewrite E. unfold len. cbn. lia.
  - destruct H as [Ej H]. split; [done|]. apply IH; [done|]. rewrite E, len_app. lia.
Qed.

Lemma offsets_at_pos off order : forall bss start i, offsets_at off order bss start -> i ∈ order -> start <= off i.
Proof.
  induction order as [|j order IH]; intros [|c bss] start i H Hi; cbn [offsets_at] in H; try done; [by apply not_elem_of_nil in Hi|].
  destruct H as [Ej H]. apply elem_of_cons in Hi as [->|Hi]; [lia|]. specialize (IH _ _ _ H Hi). pose proof (len_nonneg c). lia.
Qed.

Lemma offsets_at_lt off order : forall bss start i, Forall (fun b => 0 < len b) bss -> offsets_at off order bss start -> i ∈ order -> off i < start + len (concat bss).
Proof.
  induction order as [|j order IH]; intros [|c bss] start i Hb H Hi; cbn [offsets_at] in H; try done; [by apply not_elem_of_nil in Hi|].
  inversion Hb as [|? ? Hc Hbs]; subst. cbn [concat]. rewrite len_app. pose proof (len_nonneg (concat bss)).
  destruct H as [Ej H]. apply elem_of_cons in Hi as [->|Hi]; [lia|]. specialize (IH _ _ _ Hbs H Hi). lia.
Qed.

Lemma packEntry_nonempty e b : entry_fits e -> packEntry deflate e = Ok b -> 0 < len b.
Proof.
  intros [Hsz Hty] H. unfold packEntry in H.
  assert (0 <= pe_Type e < 8) as Ht. { destruct (pe_Base e); [lia|destruct Hty as [-> _]; done|destruct Hty as [-> _]; done]. }
  destruct (entryHead_read (pe_Type e) (pe_Size e) Ht Hsz) as (c & cs & E & _). rewrite E in H. cbn [res_bind] in H.
  destruct (baseBytes (pe_Base e)) as [bb| | |]; try discriminate H. apply Ok_inj in H. subst b. cbn [app]. rewrite len_cons. pose proof (len_nonneg (cs ++ bb ++ deflate (pe_Content e))). lia.
Qed.

Lemma offsetOf_insert st i o j : (i < length st)%nat -> offsetOf (<[i := o]> st) j = if decide (j = i) then otp_Offset o else offsetOf st j.
Proof. intros Hl. unfold offsetOf. case_decide as E; [subst; by rewrite list_lookup_insert_eq|by rewrite list_lookup_insert_ne by congruence]. Qed.

(** Changing where an object that is not written is leaves what is written. *)
Lemma written_mark st out order bss i o n : written st out order bss -> st0 !! i = Some o -> i ∉ order ->
  written (<[i := with_Offset o n]> st) out order bss.
Proof.
  intros [Hl Hs Ho Hor Hc He Hoff Hb Hd] Hi Hni. assert (i < length st)%nat as Hlt by (rewrite Hl; by apply lookup_lt_Some in Hi).
  assert (forall j, j ∈ order -> offsetOf st j = offsetOf (<[i := with_Offset o n]> st) j) as Hsame.
  { intros j Hj. rewrite offsetOf_insert by done. case_decide; [by subst|done]. }
  constructor; [by rewrite length_insert| |done|done|done| | |done|].
  - intros j oj Hj. rewrite offsetOf_insert by done. case_decide as E; [subst j; rewrite Hi in Hj; injection Hj as <-; by rewrite list_lookup_insert_eq|].
    rewrite list_lookup_insert_ne by congruence. by apply Hs.
  - apply Forall2_same_length_lookup. apply Forall2_same_length_lookup in He as [Hlen He]. split; [done|]. intros k j b Hj Hbk. destruct (He k j b Hj Hbk) as [E1 E2].
    apply list_elem_of_lookup_2 in Hj. rewrite <- (entryFor_ext (offsetOf st) _ j) by (first [by apply Hsame|intros b' Hb'; apply Hsame; by eapply before_closed]). done.
  - by apply (offsets_at_ext (offsetOf st)).
  - intros j Hj. rewrite <- Hsame by done. by apply Hd.
Qed.

Lemma otp_Type_own fuel st o n : otp_Base o = None -> otp_Type (S fuel) st (with_Offset o n) = otp_Type 1 [] o.
Proof. intros E. cbn. rewrite E. done. Qed.

Lemma packEntry_len e : forall hd bb, 30 + len (deflate (pe_Content e)) <= K -> entryHead (pe_Type e) (pe_Size e) = Ok hd -> baseBytes (pe_Base e) = Ok bb -> len bb <= 20 ->
  packEntry deflate e = Ok (hd ++ bb ++ deflate (pe_Content e)) /\ len (hd ++ bb ++ deflate (pe_Content e)) <= K.
Proof.
  intros hd bb Hk Eh Eb Hl. unfold packEntry. rewrite Eh, Eb. cbn [res_bind]. split; [done|]. apply entryHead_loop_len in Eh. rewrite !len_app. unfold len in *. cbn in Eh. lia.
Qed.

(** The bytes of an object that is not a delta, or whose base is before it. *)
Lemma entryBytes_ok st i o : i ∈ objs -> st0 !! i = Some o -> st !! i = Some (with_Offset o (offsetOf st i)) ->
  (forall b base, baseOf i = Some b -> st0 !! b = Some base -> st !! b = Some (with_Offset base (offsetOf st b)) /\ 0 < offsetOf st i - offsetOf st b < 2 ^ 63) ->
  exists b, entryBytes deflate useRefDeltas st (with_Offset o (offsetOf st i)) = Ok b /\ packEntry deflate (entryFor (offsetOf st) i) = Ok b /\
    entry_fits (entryFor (offsetOf st) i) /\ len b <= K.
Proof.
  intros Hi Ho Hst Hbase. destruct (pk_ready Hpk i Hi) as (o' & Ho' & (obj & Eobj & Eoff & HK & Hcase)). rewrite Ho in Ho'. injection Ho' as <-.
  unfold entryBytes, entryFor, baseOf in *. rewrite Ho in Hbase |- *. cbn [mbind option_bind otp_Base otp_Object with_Offset] in *. rewrite Eobj.
  destruct (otp_Base o) as [b|] eqn:Eb.
  - destruct Hcase as (Hb & Hsz & Href). destruct (pk_ready Hpk b Hb) as (base & Hb0 & _).
    destruct (Hbase b base eq_refl Hb0) as [Hstb Hrel]. unfold deref at 1. rewrite Hstb. cbn [res_bind]. unfold writeDeltaHeader. cbn [otp_Object with_Offset]. rewrite Eobj.
    destruct useRefDeltas.
    + destruct (Href eq_refl) as (base' & h & Hb' & Hh & Hwf & Hf). rewrite Hb0 in Hb'. injection Hb' as <-.
      destruct (entryHead_read REFDeltaObject (po_Size obj) ltac:(done) Hsz) as (c & cs & Eh & _). rewrite Eh. cbn [res_bind].
      assert (otp_Hash (with_Offset base (offsetOf st b)) = Ok h) as -> by exact Hh. cbn [res_bind].
      assert (hashOf b = h) as Ehb by (unfold hashOf; by rewrite Hb0, Hh).
      destruct (wf_bytes h Hwf) as (Hl & _ & Hs). rewrite Hs, Hf in Hl. change (format_Size SHA1) with 20 in Hl.
      destruct (packEntry_len (mkPEntry REFDeltaObject (po_Size obj) (RefBase (hashOf b)) (po_Content obj)) (c :: cs) (WriteTo h) HK Eh) as [E Hle]; [by rewrite Ehb|unfold WriteTo; lia|].
      eexists. split; [by rewrite <- app_assoc|]. split; [exact E|]. split; [|exact Hle]. split; [done|]. cbn. rewrite Ehb. done.
    + destruct (entryHead_read OFSDeltaObject (po_Size obj) ltac:(done) Hsz) as (c & cs & Eh & _). rewrite Eh. cbn [res_bind].
      destruct (ReadVariableWidthInt_app (offsetOf st i - offsetOf st b) [] ltac:(lia)) as (bb & Ebb & _).
      unfold writeOfsDeltaHeader. cbn [otp_Offset with_Offset]. destruct (Z.leb_spec (offsetOf st i - offsetOf st b) 0); [lia|]. rewrite Ebb. cbn [res_bind].
      pose proof (WriteVariableWidthInt_len _ _ Ebb).
      destruct (packEntry_len (mkPEntry OFSDeltaObject (po_Size obj) (OfsBase (offsetOf st i - offsetOf st b)) (po_Content obj)) (c :: cs) bb HK Eh Ebb) as [E Hle]; [lia|].
      eexists. split; [by rewrite <- app_assoc|]. split; [exact E|]. split; [|exact Hle]. split; [done|]. cbn. split; [done|lia].
  - destruct Hcase as (t & sz & Ht & Htr & Hs & Hsr). rewrite (otp_Type_own (length st) st o) by done. rewrite Ht. cbn [res_bind].
    assert (otp_Size (with_Offset o (offsetOf st i)) = Ok sz) as -> by exact Hs. cbn [res_bind resOr]. rewrite Hs. cbn [resOr].
    destruct (entryHead_read t sz ltac:(lia) Hsr) as (c & cs & Eh & _). rewrite Eh. cbn [res_bind].
    destruct (packEntry_len (mkPEntry t sz NoBase (po_Content obj)) (c :: cs) [] HK Eh eq_refl) as [E Hle]; [done|].
    eexists. split; [done|]. split; [exact E|]. split; [|exact Hle]. by split.
Qed.

Lemma written_room st out order bss : written st out order bss -> len out < 2 ^ 63.
Proof.
  intros W. pose proof (wr_bound _ _ _ _ W). destruct (wr_order _ _ _ _ W) as [Hn Hin]. pose proof (pk_room Hpk) as Hroom.
  assert (len order <= len objs) as Hle. { unfold len. apply Nat2Z.inj_le, submseteq_length, NoDup_submseteq; done. }
  destruct (Z.le_gt_cases 0 K); [assert (K * len order <= K * len objs) by (by apply Z.mul_le_mono_nonneg_l); lia|].
  pose proof (len_nonneg order). assert (K * len order <= 0) by (apply Z.mul_nonpos_nonneg; lia). lia.
Qed.

(** One more object, at the end of the pack. *)
Lemma written_snoc st out order bss i o : written st out order bss -> i ∈ objs -> i ∉ order -> st0 !! i = Some o ->
  (forall b, baseOf i = Some b -> b ∈ order) -> exists b, 
  entryBytes deflate useRefDeltas (<[i := with_Offset o (len out)]> st) (with_Offset o (len out)) = Ok b /\
  written (<[i := with_Offset o (len out)]> st) (out ++ b) (order ++ [i]) (bss ++ [b]).
Proof.
  intros W Hi Hni Ho Hb. pose proof (written_room _ _ _ _ W) as Hroom. pose proof (written_mark _ _ _ _ i o (len out) W Ho Hni) as W'.
  set (st' := <[i := _]> st) in *. assert (i < length st)%nat as Hlt by (rewrite (wr_len _ _ _ _ W); by apply lookup_lt_Some in Ho).
  assert (offsetOf st' i = len out) as Eoff. { unfold st'. rewrite offsetOf_insert by done. by rewrite decide_True. }
  assert (len out = 12 + len (concat bss)) as Elen. { rewrite (wr_out _ _ _ _ W), len_app. unfold pack_head. rewrite !len_app, !be_encode_len. done. }
  assert (forall j, j ∈ order -> 12 <= offsetOf st' j < len out) as Hbefore.
  { intros j Hj. pose proof (offsets_at_pos _ _ _ _ _ (wr_offsets _ _ _ _ W') Hj). split; [done|]. rewrite Elen. apply (offsets_at_lt _ order); [|apply W'|done].
    pose proof (wr_entries _ _ _ _ W') as He. clear -He. induction He as [|k b ks bs [E F] _ IH]; constructor; [by eapply packEntry_nonempty|done]. }
  destruct (entryBytes_ok st' i o Hi Ho) as (b & E1 & E2 & E3 & E4).
  { by apply (wr_same _ _ _ _ W'). }
  { intros b base Eb Eb0. split; [by apply (wr_same _ _ _ _ W')|]. pose proof (Hbefore b (Hb b Eb)). rewrite Eoff. lia. }
  exists b. rewrite Eoff in E1. split; [done|]. destruct (wr_order _ _ _ _ W') as [Hn Hin]. constructor.
  - apply W'.
  - apply W'.
  - rewrite (wr_out _ _ _ _ W'), <- app_assoc, concat_app. cbn [concat]. by rewrite app_nil_r.
  - split; [apply NoDup_app; split_and!; [done|intros j Hj Hj'; apply list_elem_of_singleton in Hj'; by subst|apply NoDup_singleton]|].
    intros j [Hj|Hj%list_elem_of_singleton]%elem_of_app; [by apply Hin|by subst].
  - intros a j b' Ha Eb. apply lookup_app_Some in Ha as [Ha|[Hge Ha]].
    + rewrite take_app_le by (apply lookup_lt_Some in Ha; lia). by eapply (wr_before _ _ _ _ W').
    + apply list_lookup_singleton_Some in Ha as [E ->]. replace a with (length order) by lia. rewrite take_app_length. by apply Hb.
  - apply Forall2_app; [apply W'|]. by constructor.
  - apply offsets_at_snoc; [apply W'|]. by rewrite Eoff.
  - pose proof (wr_bound _ _ _ _ W). rewrite !len_app. unfold len at 4. cbn [length]. lia.
  - intros j [Hj|Hj%list_elem_of_singleton]%elem_of_app; [by apply (wr_done _ _ _ _ W')|]. subst j. rewrite Eoff, Elen. pose proof (len_nonneg (concat bss)). lia.
Qed.

End Written.

(** ** Cycles are broken *)
Section Encoding.
Variable deflate : bytes -> bytes.
Variable encodedObject : ObjectID -> error + PObj.
Variable useRefDeltas : bool.
Variable st0 : objects.
Variable objs : list nat.
Variable K : Z.
(** A rank that never increases from an object to its base. *)
Variable rank : nat -> nat.

(** An object that goes back to its original. *)
Definition whole (o : ObjectToPack) : ObjectToPack := match restoreOriginal encodedObject o with Ok (o', _) => BackToOriginal o' | _ => o end.
(** The objects of [B] have gone back. *)
Definition broken (B : list nat) : objects := imap (fun i o => if decide (i ∈ B) then whole o else o) st0.

(** The original of a delta can be had. *)
Definition restorable (i : nat) : Prop :=
  exists o b o' obj, st0 !! i = Some o /\ otp_Base o = Some b /\ restoreOriginal encodedObject o = Ok (o', None) /\ otp_Original o' = Some obj /\
    1 <= po_Type obj <= 4 /\ 0 <= po_Size obj < 2 ^ 63 /\ 30 + len (deflate (po_Content obj)) <= K /\ otp_Hash o = Ok (po_Hash obj).

(** What the encoder needs: objects that can be written, and originals for the deltas of a cycle, where the rank stays the same. *)
Record encodable : Prop := {
  en_packable : packable deflate useRefDeltas st0 objs K;
  en_rank : forall i b, i ∈ objs -> baseOf st0 i = Some b -> (rank b < rank i)%nat \/ rank b = rank i /\ restorable i }.
Hypothesis Hen : encodable.

Notation Written B := (written deflate useRefDeltas (broken B) objs K).
Notation Entry := (entry deflate encodedObject useRefDeltas).

Lemma broken_length B : length (broken B) = length st0.
Proof. apply length_imap. Qed.
Lemma broken_lookup B i : broken B !! i = (fun o => if decide (i ∈ B) then whole o else o) <$> st0 !! i.
Proof. apply list_lookup_imap. Qed.
Lemma broken_other B i j : j <> i -> broken (i :: B) !! j = broken B !! j.
Proof. intros Hne. rewrite !broken_lookup. destruct (st0 !! j); [|done]. cbn. f_equal. apply decide_ext. set_solver. Qed.
Lemma broken_in B i o : i ∈ B -> st0 !! i = Some o -> broken B !! i = Some (whole o).
Proof. intros Hi Ho. by rewrite broken_lookup, Ho, <- (decide_True (P := i ∈ B) (whole o) o) by done. Qed.
Lemma broken_out B i : i ∉ B -> broken B !! i = st0 !! i.
Proof. intros Hi. rewrite broken_lookup. destruct (st0 !! i); [|done]. cbn. by rewrite decide_False. Qed.

Lemma restore_fields o o' err : restoreOriginal encodedObject o = Ok (o', err) -> otp_Base o' = otp_Base o /\ otp_Offset o' = otp_Offset o.
Proof.
  unfold restoreOriginal. intros H. destruct (otp_Original o); [by apply Ok_inj in H as [= <- _]|]. destruct (otp_Object o) as [obj|]; [|done].
  destruct (negb _); [by apply Ok_inj in H as [= <- _]|]. destruct (otp_Hash o) as [h| | |]; try done. cbn [res_bind] in H. destruct (encodedObject h); apply Ok_inj in H as [= <- _]; done.
Qed.

Lemma restore_with_Offset o n : restoreOriginal encodedObject (with_Offset o n) =
  match restoreOriginal encodedObject o with Ok (o', err) => Ok (with_Offset o' n, err) | Err e => Err e | Panic => Panic | NoFuel => NoFuel end.
Proof.
  unfold restoreOriginal. change (otp_Hash (with_Offset o n)) with (otp_Hash o). cbn [otp_Original otp_Object with_Offset].
  destruct (otp_Original o); [done|]. destruct (otp_Object o) as [obj|]; [|done]. destruct (negb _); [done|].
  destruct (otp_Hash o) as [h| | |]; try done. cbn [res_bind]. by destruct (encodedObject h).
Qed.

(** The record of an object that has gone back. *)
Lemma whole_spec i o : restorable i -> st0 !! i = Some o -> exists obj,
  otp_Object (whole o) = Some obj /\ otp_Base (whole o) = None /\ otp_Original (whole o) = Some obj /\ otp_Offset (whole o) = otp_Offset o /\
  1 <= po_Type obj <= 4 /\ 0 <= po_Size obj < 2 ^ 63 /\ 30 + len (deflate (po_Content obj)) <= K /\ otp_Hash o = Ok (po_Hash obj).
Proof.
  intros (o1 & b & o' & obj & Ho1 & Eb & Er & Eo & H) Ho. rewrite Ho in Ho1. injection Ho1 as <-. destruct (restore_fields _ _ _ Er) as [Eb' Eoff].
  exists obj. unfold whole. rewrite Er. unfold BackToOriginal. rewrite Eb', Eb, Eo. split; [done|]. split; [done|]. split; [done|]. by split.
Qed.

(** What [entry] does to an object that is being written already. *)
Lemma whole_marked i o n : restorable i -> st0 !! i = Some o ->
  (let* (o', _) := restoreOriginal encodedObject (with_Offset o n) in Ok (BackToOriginal o')) = Ok (with_Offset (whole o) n).
Proof.
  intros (o1 & b & o' & obj & Ho1 & Eb & Er & Eo & H) Ho. rewrite Ho in Ho1. injection Ho1 as <-. destruct (restore_fields _ _ _ Er) as [Eb' _].
  rewrite restore_with_Offset, Er. cbn [res_bind]. unfold whole. rewrite Er. unfold BackToOriginal. cbn [otp_Base otp_Original with_Offset]. by rewrite Eb', Eb, Eo.
Qed.

Lemma whole_hash i o : restorable i -> st0 !! i = Some o -> otp_Hash (whole o) = otp_Hash o.
Proof. intros Hr Ho. destruct (whole_spec i o Hr Ho) as (obj & _ & _ & Eo & _ & _ & _ & _ & ->). unfold otp_Hash. by rewrite Eo. Qed.

(** Identifiers stay. *)
Lemma broken_hash B b base : (forall j, j ∈ B -> restorable j) -> broken B !! b = Some base -> exists base0, st0 !! b = Some base0 /\ otp_Hash base = otp_Hash base0.
Proof.
  intros HB Hb. rewrite broken_lookup in Hb. destruct (st0 !! b) as [base0|] eqn:E; [|done]. injection Hb as <-. exists base0. split; [done|].
  case_decide as Hin; [|done]. by apply (whole_hash b); [apply HB|].
Qed.

Lemma broken_hashOf B b : (forall j, j ∈ B -> restorable j) -> hashOf (broken B) b = hashOf st0 b.
Proof.
  intros HB. unfold hashOf. destruct (broken B !! b) as [base|] eqn:E.
  - destruct (broken_hash _ _ _ HB E) as (base0 & -> & ->). done.
  - rewrite broken_lookup in E. by destruct (st0 !! b).
Qed.

Lemma broken_packable B : (forall j, j ∈ B -> restorable j) -> packable deflate useRefDeltas (broken B) objs K.
Proof.
  intros HB. destruct (en_packable Hen) as [Hn Hr Hroom]. constructor; [done| |done]. intros i Hi. destruct (Hr i Hi) as (o & Ho & Hready).
  rewrite broken_lookup, Ho. cbn. eexists. split; [done|]. case_decide as Hin.
  - destruct (whole_spec i o (HB i Hin) Ho) as (obj & E1 & E2 & E3 & E4 & Ht & Hs & HK & _). destruct Hready as (obj0 & _ & E0 & _).
    exists obj. rewrite E2. split_and!; [done|by rewrite E4|done|]. exists (po_Type obj), (po_Size obj). cbn [otp_Type]. unfold otp_Size. rewrite E3. auto.
  - destruct Hready as (obj & E1 & E2 & E3 & Hcase). exists obj. split; [done|]. split; [done|]. split; [done|]. destruct (otp_Base o) as [b|]; [|done].
    destruct Hcase as (Hb & Hsz & Href). split; [done|]. split; [done|]. intros E. destruct (Href E) as (base & h & Hb0 & Hh & Hw).
    rewrite broken_lookup, Hb0. cbn. eexists _, h. split; [done|]. split; [|done]. rewrite <- Hh. case_decide as Hin'; [|done]. by apply (whole_hash b); [apply HB|].
Qed.

(** An object that is not written goes back: what is written stays. *)
Lemma written_break B st out order bss i o n : Written B st out order bss -> (forall j, j ∈ B -> restorable j) -> restorable i -> st0 !! i = Some o -> i ∉ order ->
  Written (i :: B) (<[i := with_Offset (whole o) n]> st) out order bss.
Proof.
  intros [Hl Hs Ho Hor Hc He Hoff Hb Hd] HB Hr Hi Hni. rewrite broken_length in Hl. assert (i < length st)%nat as Hlt by (rewrite Hl; by apply lookup_lt_Some in Hi).
  assert (forall j, j ∈ order -> j <> i) as Hne by (intros j Hj ->; done).
  assert (forall j, j ∈ order -> offsetOf st j = offsetOf (<[i := with_Offset (whole o) n]> st) j) as Hsame.
  { intros j Hj. rewrite offsetOf_insert by done. by rewrite decide_False by (by apply Hne). }
  assert (forall j, j ∈ order -> baseOf (broken (i :: B)) j = baseOf (broken B) j) as Hbase by (intros j Hj; unfold baseOf; by rewrite broken_other by (by apply Hne)).
  constructor; [by rewrite length_insert, broken_length| |done|done| | | |done|].
  - intros j oj Hj. destruct (decide (j = i)) as [->|Hji].
    + rewrite (broken_in _ i o) in Hj by (done || by left). injection Hj as <-. rewrite offsetOf_insert, decide_True by done. by rewrite list_lookup_insert_eq.
    + rewrite broken_other in Hj by done. rewrite list_lookup_insert_ne, offsetOf_insert, decide_False by done. by apply Hs.
  - intros a j b Hj Eb. rewrite Hbase in Eb by (by eapply list_elem_of_lookup_2). by eapply Hc.
  - apply Forall2_same_length_lookup. apply Forall2_same_length_lookup in He as [Hlen He]. split; [done|]. intros k j b Hj Hbk. destruct (He k j b Hj Hbk) as [E1 E2].
    apply list_elem_of_lookup_2 in Hj. assert (entryFor useRefDeltas (broken (i :: B)) (offsetOf (<[i:=with_Offset (whole o) n]> st)) j = entryFor useRefDeltas (broken B) (offsetOf st) j) as ->; [|done].
    rewrite <- (entryFor_ext useRefDeltas (broken (i :: B)) (offsetOf st)) by (first [by apply Hsame|intros b' Hb'; apply Hsame; rewrite Hbase in Hb' by done; by eapply before_closed]).
    unfold entryFor. rewrite broken_other by (by apply Hne). destruct (broken B !! j) as [oj|]; [|done]. destruct (otp_Base oj) as [b'|]; [|done].
    by rewrite !broken_hashOf by (done || (intros ? [->|?]%elem_of_cons; auto)).
  - by apply (offsets_at_ext (offsetOf st)).
  - intros j Hj. rewrite <- Hsame by done. by apply Hd.
Qed.

(** The objects that are not being written. *)
Definition unmarked (st : objects) : nat := length (filter (fun j => offsetOf st j = 0) objs).

Lemma unmarked_lt st st' i : i ∈ objs -> offsetOf st i = 0 -> offsetOf st' i <> 0 -> (forall j, j <> i -> offsetOf st' j = offsetOf st j) ->
  (unmarked st' < unmarked st)%nat.
Proof.
  intros Hi E0 E1 Hs. apply (filter_length_lt _ _ _ i); [|done..]. intros j E. destruct (decide (j = i)) as [->|Hn]; [done|]. by rewrite <- Hs.
Qed.

(** An object that is being written when [entry] comes to it goes back to its original and is written. *)
Lemma entry_broken fuel B st out order bss i : Written B st out order bss -> (forall j, j ∈ B -> j ∈ order /\ restorable j) -> i ∈ objs -> i ∉ order ->
  offsetOf st i = 1 -> restorable i -> exists b st', Entry (S fuel) st out i = Ok (st', out ++ b) /\ Written (i :: B) st' (out ++ b) (order ++ [i]) (bss ++ [b]) /\
    (forall j, j <> i -> offsetOf st' j = offsetOf st j).
Proof.
  intros W HB Hi Hni E1 Hr. destruct (pk_ready _ _ _ _ _ (en_packable Hen) i Hi) as (o & Ho & _).
  assert (i ∉ B) as HiB by (intros H; by apply Hni, HB). assert (broken B !! i = Some o) as Hbo by (by rewrite broken_out).
  assert (i < length st)%nat as Hlt by (rewrite (wr_len _ _ _ _ _ _ _ _ _ W), broken_length; by apply lookup_lt_Some in Ho).
  cbn [entry]. unfold deref at 1. rewrite (wr_same _ _ _ _ _ _ _ _ _ W i o Hbo). cbn [res_bind]. rewrite E1.
  assert (WantWrite (with_Offset o 1) = true) as -> by done. rewrite (whole_marked i o 1 Hr Ho). cbn [res_bind].
  assert (IsWritten (with_Offset (whole o) 1) = false) as -> by done. change (MarkWantWrite (with_Offset (whole o) 1)) with (with_Offset (whole o) 1).
  rewrite list_insert_insert_eq. destruct (whole_spec i o Hr Ho) as (obj & _ & Ebw & _). change (otp_Base (with_Offset (whole o) 1)) with (otp_Base (whole o)). rewrite Ebw.
  cbn [res_bind]. unfold deref at 1. rewrite list_lookup_insert_eq by done. cbn [res_bind]. assert (IsWritten (with_Offset (whole o) 1) = false) as -> by done.
  change (with_Offset (with_Offset (whole o) 1) (len out)) with (with_Offset (whole o) (len out)).
  pose proof (written_break B st out order bss i o 1 W (fun j Hj => proj2 (HB j Hj)) Hr Ho Hni) as W1.
  assert (forall j, j ∈ i :: B -> restorable j) as HB1 by (intros j [->|Hj]%elem_of_cons; [done|by apply HB]).
  destruct (written_snoc deflate useRefDeltas (broken (i :: B)) objs K (broken_packable _ HB1) _ out order bss i (whole o) W1 Hi Hni) as (b & Eb & W2).
  { apply broken_in; [by left|done]. } { intros b Hb. unfold baseOf in Hb. rewrite (broken_in _ i o) in Hb by (done || by left). cbn in Hb. by rewrite Ebw in Hb. }
  rewrite Eb. cbn [res_bind]. exists b. eexists. split; [done|]. split; [exact W2|]. intros j Hj. rewrite list_insert_insert_eq, offsetOf_insert, decide_False by done. done.
Qed.

(** An object that is written is left alone. *)
Lemma entry_done fuel B st out order bss i : Written B st out order bss -> (forall j, j ∈ B -> restorable j) -> i ∈ objs -> i ∈ order -> Entry (S fuel) st out i = Ok (st, out).
Proof.
  intros W HB Hi Hin. destruct (pk_ready _ _ _ _ _ (broken_packable B HB) i Hi) as (o & Ho & _). cbn [entry]. unfold deref at 1. rewrite (wr_same _ _ _ _ _ _ _ _ _ W i o Ho). cbn [res_bind].
  pose proof (wr_done _ _ _ _ _ _ _ _ _ W i Hin). unfold WantWrite, IsWritten. cbn [otp_Offset with_Offset]. destruct (Z.eqb_spec (offsetOf st i) 1); [lia|]. cbn [res_bind otp_Offset with_Offset].
  destruct (Z.gtb_spec (offsetOf st i) 1); [|lia]. by rewrite (list_insert_id st i) by (by apply (wr_same _ _ _ _ _ _ _ _ _ W)).
Qed.

(** [entry] with fuel for the objects that are not being written: those being written either are of a higher rank or can go back to their originals. *)
Lemma entry_spec fuel : forall B st out order bss i, (unmarked st < fuel)%nat -> Written B st out order bss -> (forall j, j ∈ B -> j ∈ order /\ restorable j) -> i ∈ objs ->
  (forall j, j ∈ objs -> j ∉ order -> offsetOf st j = 0 \/ offsetOf st j = 1 /\ ((rank i < rank j)%nat \/ restorable j)) ->
  exists B' st' out' order' bss', Entry fuel st out i = Ok (st', out') /\ Written B' st' out' order' bss' /\ (forall j, j ∈ B' -> j ∈ order' /\ restorable j) /\
    i ∈ order' /\ (forall j, j ∈ order -> j ∈ order') /\ (forall j, j ∉ order' -> offsetOf st' j = offsetOf st j).
Proof.
  induction fuel as [|fuel IH]; intros B st out order bss i Hf W HB Hi Hmark; [lia|]. destruct (decide (i ∈ order)) as [Hin|Hnin].
  { rewrite (entry_done fuel B st out order bss i W (fun j Hj => proj2 (HB j Hj)) Hi Hin). exists B, st, out, order, bss. split_and!; auto. }
  destruct (Hmark i Hi Hnin) as [E0|[E1 Hr]].
  2: { destruct Hr as [?|Hr]; [lia|]. destruct (entry_broken fuel B st out order bss i W HB Hi Hnin E1 Hr) as (b & st' & E & W' & Hs). exists (i :: B), st', (out ++ b), (order ++ [i]), (bss ++ [b]).
       split_and!; [done|done| | | |].
       - intros j [->|Hj]%elem_of_cons; [split; [set_solver|done]|]. destruct (HB j Hj). split; [set_solver|done].
       - set_solver.
       - set_solver.
       - intros j Hj. apply Hs. set_solver. }
  assert (i ∉ B) as HiB by (intros H; by apply Hnin, HB). destruct (pk_ready _ _ _ _ _ (en_packable Hen) i Hi) as (o & Ho & (obj & Eobj & Eoff & HK & Hcase)).
  assert (broken B !! i = Some o) as Hbo by (by rewrite broken_out).
  assert (i < length st)%nat as Hlt by (rewrite (wr_len _ _ _ _ _ _ _ _ _ W), broken_length; by apply lookup_lt_Some in Ho).
  cbn [entry]. unfold deref at 1. rewrite (wr_same _ _ _ _ _ _ _ _ _ W i o Hbo), E0. cbn [res_bind].
  assert (WantWrite (with_Offset o 0) = false) as -> by done. cbn [res_bind]. assert (IsWritten (with_Offset o 0) = false) as -> by done.
  rewrite list_insert_insert_eq. change (MarkWantWrite (with_Offset o 0)) with (with_Offset o 1). set (st1 := <[i := with_Offset o 1]> st).
  pose proof (written_mark _ _ _ _ _ _ _ _ _ i o 1 W Hbo Hnin) as W1. fold st1 in W1. change (otp_Base (with_Offset o 0)) with (otp_Base o).
  assert (forall j, offsetOf st1 j = if decide (j = i) then 1 else offsetOf st j) as Hoff1 by (intros j; unfold st1; by rewrite offsetOf_insert).
  assert (baseOf st0 i = otp_Base o) as Ebase by (unfold baseOf; by rewrite Ho).
  assert (unmarked st1 < unmarked st)%nat as Hun.
  { apply (unmarked_lt _ _ i Hi E0); [rewrite Hoff1, decide_True; done|]. intros j Hj. by rewrite Hoff1, decide_False. }
  assert (exists B2 st2 out2 order2 bss2,
    match otp_Base o with Some b => let* base := deref st1 b in if IsWritten base then Ok (st1, out) else Entry fuel st1 out b | None => Ok (st1, out) end = Ok (st2, out2) /\
    Written B2 st2 out2 order2 bss2 /\ (forall j, j ∈ B2 -> j ∈ order2 /\ restorable j) /\ (forall b, otp_Base o = Some b -> b ∈ order2) /\ (forall j, j ∈ order -> j ∈ order2) /\
    (forall j, j ∉ order2 -> offsetOf st2 j = offsetOf st1 j)) as (B2 & st2 & out2 & order2 & bss2 & E & W2 & HB2 & Hb & Hsub & Hkeep).
  { destruct (otp_Base o) as [b|] eqn:Eb; [|exists B, st1, out, order, bss; split_and!; auto; done]. destruct Hcase as (Hbo' & _).
    destruct (pk_ready _ _ _ _ _ (broken_packable B (fun j Hj => proj2 (HB j Hj))) b Hbo') as (base & Hb0 & _). unfold deref at 1. rewrite (wr_same _ _ _ _ _ _ _ _ _ W1 b base Hb0). cbn [res_bind].
    unfold IsWritten at 1. cbn [otp_Offset with_Offset]. destruct (Z.gtb_spec (offsetOf st1 b) 1) as [Hgt|Hle].
    - exists B, st1, out, order, bss. split_and!; auto. intros b' [= <-]. destruct (decide (b ∈ order)) as [?|Hn]; [done|exfalso].
      rewrite Hoff1 in Hgt. case_decide; [lia|]. destruct (Hmark b Hbo' Hn) as [?|[? _]]; lia.
    - destruct (IH B st1 out order bss b ltac:(lia) W1 HB Hbo') as (B2 & st2 & out2 & order2 & bss2 & E & W2 & HB2 & Hbin & Hsub & Hkeep).
      { intros j Hj Hn. rewrite Hoff1. destruct (en_rank Hen i b Hi Ebase) as [Hrk|[Hrk Hri]]; case_decide as Hji.
        + right. split; [done|]. left. by subst j.
        + destruct (Hmark j Hj Hn) as [?|[? [?|?]]]; [by left|right; split; [done|left; lia]|by right; auto].
        + right. split; [done|]. right. by subst j.
        + destruct (Hmark j Hj Hn) as [?|[? [?|?]]]; [by left|right; split; [done|left; lia]|by right; auto]. }
      exists B2, st2, out2, order2, bss2. split_and!; auto. by intros b' [= <-]. }
  rewrite E. cbn [res_bind]. destruct (decide (i ∈ order2)) as [Hin2|Hni2].
  { destruct (pk_ready _ _ _ _ _ (broken_packable B2 (fun j Hj => proj2 (HB2 j Hj))) i Hi) as (o2 & Ho2 & _). unfold deref at 1. rewrite (wr_same _ _ _ _ _ _ _ _ _ W2 i o2 Ho2). cbn [res_bind].
    unfold IsWritten at 1. cbn [otp_Offset with_Offset]. pose proof (wr_done _ _ _ _ _ _ _ _ _ W2 i Hin2). destruct (Z.gtb_spec (offsetOf st2 i) 1); [|lia].
    exists B2, st2, out2, order2, bss2. split_and!; auto. intros j Hj. rewrite (Hkeep j Hj), Hoff1. by rewrite decide_False by (by intros ->). }
  assert (i ∉ B2) as HiB2 by (intros H; by apply Hni2, HB2). assert (broken B2 !! i = Some o) as Hbo2 by (by rewrite broken_out).
  unfold deref at 1. rewrite (wr_same _ _ _ _ _ _ _ _ _ W2 i o Hbo2). cbn [res_bind]. unfold IsWritten at 1. cbn [otp_Offset with_Offset].
  rewrite (Hkeep i Hni2), Hoff1, decide_True by done. cbn [Z.gtb Z.compare]. change (with_Offset (with_Offset o 1) (len out2)) with (with_Offset o (len out2)).
  destruct (written_snoc deflate useRefDeltas (broken B2) objs K (broken_packable B2 (fun j Hj => proj2 (HB2 j Hj))) st2 out2 order2 bss2 i o W2 Hi Hni2 Hbo2) as (b & Eb & W3).
  { intros b Hbb. apply Hb. unfold baseOf in Hbb. by rewrite Hbo2 in Hbb. }
  rewrite Eb. cbn [res_bind]. eexists B2, _, _, _, _. split; [done|]. split; [exact W3|]. split_and!.
  - intros j Hj. destruct (HB2 j Hj). split; [set_solver|done].
  - set_solver.
  - set_solver.
  - intros j Hj. apply not_elem_of_app in Hj as [Hj1 Hj2]. assert (j <> i) by (intros ->; apply Hj2; by left).
    rewrite offsetOf_insert by (rewrite (wr_len _ _ _ _ _ _ _ _ _ W2), broken_length; by apply lookup_lt_Some in Ho). rewrite decide_False, (Hkeep j Hj1), Hoff1, decide_False by done. done.
Qed.
Lemma entries_spec fuel l : (forall i, i ∈ l -> i ∈ objs) -> (length objs < fuel)%nat -> forall B st out order bss,
  Written B st out order bss -> (forall j, j ∈ B -> j ∈ order /\ restorable j) -> (forall j, j ∈ objs -> j ∈ order \/ offsetOf st j = 0) ->
  exists B' st' out' order' bss', entries deflate encodedObject useRefDeltas fuel st out l = Ok (st', out') /\ Written B' st' out' order' bss' /\
    (forall j, j ∈ B' -> j ∈ order' /\ restorable j) /\ (forall j, j ∈ order \/ j ∈ l -> j ∈ order').
Proof.
  intros Hl Hf. induction l as [|i l IH]; intros B st out order bss W HB Hfree; cbn [entries].
  - exists B, st, out, order, bss. split_and!; auto. intros j [?|Hj]; [done|by apply not_elem_of_nil in Hj].
  - destruct (entry_spec fuel B st out order bss i) as (B1 & st1 & out1 & order1 & bss1 & E & W1 & HB1 & Hi & Hsub & Hkeep).
    + eapply Nat.le_lt_trans; [apply length_filter|done].
    + done.
    + done.
    + apply Hl. by left.
    + intros j Hj Hn. left. by destruct (Hfree j Hj).
    + rewrite E. cbn [res_bind]. destruct (IH (fun j Hj => Hl j (list_elem_of_further _ _ _ Hj)) B1 st1 out1 order1 bss1 W1 HB1) as (B' & st' & out' & order' & bss' & E' & W' & HB' & Hall).
      * intros j Hj. destruct (decide (j ∈ order1)) as [?|Hn]; [by left|right]. rewrite (Hkeep j Hn). destruct (Hfree j Hj) as [Ho|?]; [by apply Hsub in Ho|done].
      * exists B', st', out', order', bss'. split_and!; auto. intros j [Hj|Hj]; [apply Hall; left; by apply Hsub|].
        apply elem_of_cons in Hj as [->|Hj]; apply Hall; [by left|by right].
Qed.

(** Before anything is written. *)
Lemma written_start : Written [] st0 (pack_head (len objs)) [] [].
Proof.
  assert (forall i : nat, i ∈ @nil nat -> False) as Hnil by (intros i Hi; by apply not_elem_of_nil in Hi).
  constructor; [by rewrite broken_length| |by rewrite app_nil_r|split; [constructor|intros i Hi; by destruct (Hnil i)]|done|constructor|done| |intros i Hi; by destruct (Hnil i)].
  - intros i o Ho. rewrite broken_out in Ho by (intros H; by destruct (Hnil i)). unfold offsetOf. rewrite Ho. by destruct o.
  - unfold pack_head. rewrite !len_app, !be_encode_len. unfold len. cbn. lia.
Qed.

Lemma encode_spec sha1 fuel : (length objs < fuel)%nat ->
  exists B st' order bss, pack_encode sha1 deflate encodedObject useRefDeltas fuel st0 objs = Ok (packFile sha1 bss, packSum sha1 (packOf bss), st') /\
    order ≡ₚ objs /\ Written B st' (packOf bss) order bss /\ (forall j, j ∈ B -> restorable j).
Proof.
  intros Hf. destruct (entries_spec fuel objs (fun i Hi => Hi) Hf [] st0 _ [] [] written_start) as (B & st' & out' & order & bss & E & W & HB & Hall).
  { intros j Hj. by apply not_elem_of_nil in Hj. }
  { intros j Hj. right. destruct (pk_ready _ _ _ _ _ (en_packable Hen) j Hj) as (o & Ho & (obj & _ & Eo & _)). unfold offsetOf. by rewrite Ho. }
  destruct (wr_order _ _ _ _ _ _ _ _ _ W) as [Hn Hin]. assert (order ≡ₚ objs) as Hperm.
  { apply NoDup_Permutation; [done|apply (pk_nodup _ _ _ _ _ (en_packable Hen))|]. intros i. split; [apply Hin|]. intros Hi. apply Hall. by right. }
  assert (out' = packOf bss) as Eout.
  { rewrite (wr_out _ _ _ _ _ _ _ _ _ W). unfold packOf. do 2 f_equal. unfold len. f_equal. rewrite <- Hperm. apply (Forall2_length _ _ _ (wr_entries _ _ _ _ _ _ _ _ _ W)). }
  exists B, st', order, bss. unfold pack_encode. rewrite E. cbn [res_bind]. rewrite Eout in *. split_and!; try done. intros j Hj. by apply HB.
Qed.

(** How an object is after encoding: as it was, or its original in its place. *)
Definition kept (st' : objects) (i : nat) : Prop :=
  exists o, st0 !! i = Some o /\ (st' !! i = Some (with_Offset o (offsetOf st' i)) \/ otp_IsDelta o = true /\ st' !! i = Some (with_Offset (whole o) (offsetOf st' i))).

Lemma written_kept B st out order bss i : Written B st out order bss -> (forall j, j ∈ B -> restorable j) -> i ∈ objs -> kept st i.
Proof.
  intros W HB Hi. destruct (pk_ready _ _ _ _ _ (en_packable Hen) i Hi) as (o & Ho & _). exists o. split; [done|].
  assert (broken B !! i = Some (if decide (i ∈ B) then whole o else o)) as E by (by rewrite broken_lookup, Ho). apply (wr_same _ _ _ _ _ _ _ _ _ W) in E.
  case_decide as Hin; [right|by left]. split; [|done]. destruct (HB i Hin) as (o1 & b & o' & obj & Ho1 & Eb & _). rewrite Ho in Ho1. injection Ho1 as <-. unfold otp_IsDelta. by rewrite Eb.
Qed.
End Encoding.

(** ** Scanning the pack of some objects *)
Section PackAndScan.
Context {Storage : Type}.
Variable sha1 : bytes -> bytes.
Variable hasher256 : option (ObjectType -> Z -> bytes -> ObjectID).
Variable crc32 : bytes -> Z.
Variable deflate : bytes -> bytes.
Variable inflate : bytes -> option (bytes * (error + bytes)).
Variable raw : Storage -> ObjectType -> Z -> bytes -> Storage.
Variable seeker lowMemoryMode : bool.
Variable encodedObject : ObjectID -> error + PObj.
Variable useRefDeltas : bool.

(** What the scanner says of the object [i], found in the pack where [off] says. *)
Definition describes (st0 : objects) (off : nat -> Z) (i : nat) (oh : ObjectHeader) : Prop :=
  exists o obj, st0 !! i = Some o /\ otp_Object o = Some obj /\ oh_Offset oh = off i /\
  match otp_Base o with
  | None => otp_Type 1 [] o = Ok (oh_Type oh) /\ otp_Size o = Ok (oh_Size oh) /\ oh_Hash oh = Hasher_Sum sha1 (oh_Type oh) (oh_Size oh) (po_Content obj) /\
            oh_content oh = if lowMemoryMode || seeker then None else Some (po_Content obj)
  | Some b => oh_Size oh = po_Size obj /\ oh_content oh = (if lowMemoryMode then None else Some (po_Content obj)) /\
              if useRefDeltas then oh_Type oh = REFDeltaObject /\ oh_Reference oh = hashOf st0 b
              else oh_Type oh = OFSDeltaObject /\ oh_OffsetReference oh = off b
  end.

Lemma scanned_describes st0 objs K off i b : packable deflate useRefDeltas st0 objs K -> i ∈ objs ->
  describes st0 off i (scanned sha1 hasher256 crc32 deflate seeker lowMemoryMode (entryFor useRefDeltas st0 off i) b (off i)).
Proof.
  intros Hpk Hi. destruct (pk_ready _ _ _ _ _ Hpk i Hi) as (o & Ho & (obj & Eobj & _ & _ & Hcase)). exists o, obj. split; [done|]. split; [done|]. split; [done|].
  unfold scanned, entryFor. rewrite Ho, Eobj. destruct (otp_Base o) as [bb|].
  - destruct useRefDeltas; cbn [pe_Type pe_Size pe_Base pe_Content oh_Size oh_content oh_Type oh_Reference oh_OffsetReference]; split_and!; try done; [by destruct lowMemoryMode..|lia].
  - destruct Hcase as (t & sz & -> & Ht & -> & _). cbn [resOr pe_Type pe_Size pe_Base pe_Content oh_Size oh_content oh_Type oh_Hash].
    assert (IsDelta t = false) as -> by (unfold IsDelta, REFDeltaObject, OFSDeltaObject; lia). split_and!; try done. by destruct lowMemoryMode, seeker.
Qed.

Lemma scannedAll_describes st0 objs K off : packable deflate useRefDeltas st0 objs K -> forall order bss start,
  (forall i, i ∈ order -> i ∈ objs) -> offsets_at off order bss start ->
  Forall2 (describes st0 off) order (scannedAll sha1 hasher256 crc32 deflate seeker lowMemoryMode (map (entryFor useRefDeltas st0 off) order) bss start).
Proof.
  intros Hpk. induction order as [|i order IH]; intros [|b bss] start Hin Ho; cbn [offsets_at map scannedAll] in *; try done. destruct Ho as [<- Ho].
  constructor; [apply (scanned_describes st0 objs K); [done|apply Hin; by left]|]. apply IH; [|done]. intros j Hj. apply Hin. by right.
Qed.

(** Where the objects are in the pack does not matter. *)
Lemma describes_written st0 objs K st out order bss off i oh : written deflate useRefDeltas st0 objs K st out order bss -> describes st0 off i oh -> describes st off i oh.
Proof.
  intros W (o & obj & Ho & Eobj & Eoff & H). exists (with_Offset o (offsetOf st i)), obj. split; [by apply (wr_same _ _ _ _ _ _ _ _ _ W)|]. split; [done|]. split; [done|].
  cbn [otp_Base with_Offset]. destruct (otp_Base o) as [b|] eqn:Eb; [|exact H]. assert (hashOf st b = hashOf st0 b) as ->; [|done]. unfold hashOf.
  destruct (st0 !! b) as [base|] eqn:Ebb; [by rewrite (wr_same _ _ _ _ _ _ _ _ _ W b base Ebb)|].
  assert (st !! b = None) as ->; [|done]. apply lookup_ge_None. rewrite (wr_len _ _ _ _ _ _ _ _ _ W). by apply lookup_ge_None.
Qed.

(** Every base is before the deltas on it. *)
Definition bases_first (st : objects) (order : list nat) : Prop := forall a i o b, order !! a = Some i -> st !! i = Some o -> otp_Base o = Some b -> b ∈ take a order.
Lemma written_bases_first st0 objs K st out order bss : written deflate useRefDeltas st0 objs K st out order bss -> bases_first st order.
Proof.
  intros W a i o b Ha Hi Eb. apply (wr_before _ _ _ _ _ _ _ _ _ W a i b Ha). unfold baseOf.
  destruct (st0 !! i) as [o0|] eqn:E0; [|apply lookup_ge_None in E0; rewrite <- (wr_len _ _ _ _ _ _ _ _ _ W) in E0; apply lookup_lt_Some in Hi; lia].
  pose proof (wr_same _ _ _ _ _ _ _ _ _ W i o0 E0) as E. rewrite Hi in E. injection E as ->. exact Eb.
Qed.

(** C4: the encoder ends with a pack for objects whose bases are among them, where a cycle of deltas is broken by
    writing an original in place of a delta; and scanning that
    pack gives its header with their number, each of them once with its type, size, content, identifier and the place
    of its base, every base before the deltas on it, and the checksum the encoder returned. *)
Theorem pack_scan_roundtrip (st0 : objects) (objs : list nat) (rank : nat -> nat) (K : Z) (fuel : nat) (storage : option Storage)
    (Hinf : forall c r, inflate (deflate c ++ r) = Some (c, inr r)) (Hsha : forall b, len (sha1 b) = 20)
    (Hen : encodable deflate encodedObject useRefDeltas st0 objs K rank) (Hne : objs <> []) (Hn : len objs < 2 ^ 32)
    (Hf : (length objs < fuel)%nat) :
  exists pack h st' order ohs s', pack_encode sha1 deflate encodedObject useRefDeltas fuel st0 objs = Ok (pack, h, st') /\ order ≡ₚ objs /\
    Forall (kept encodedObject st0 st') objs /\
    scanAll sha1 hasher256 crc32 inflate (fun st t sz c => inr (raw st t sz c)) seeker lowMemoryMode 20 (length objs + 3) (NewScanner pack storage) =
      Some (HeaderSection (mkHeader 2 (len objs)) :: map ObjectSection ohs ++ [FooterSection h], s') /\
    sc_err s' = None /\ Forall2 (describes st' (offsetOf st')) order ohs /\ bases_first st' order.
Proof.
  destruct (encode_spec deflate encodedObject useRefDeltas st0 objs K rank Hen sha1 fuel Hf) as (B & st' & order & bss & E & Hperm & W & HB).
  pose proof (wr_entries _ _ _ _ _ _ _ _ _ W) as He. set (es := map (entryFor useRefDeltas (broken encodedObject st0 B) (offsetOf st')) order).
  assert (Forall2 (fun e b => packEntry deflate e = Ok b) es bss) as Hes by (apply Forall2_fmap_l; eapply Forall2_impl; [exact He|]; by intros i b [? _]).
  assert (Forall entry_fits es) as Hfit. { apply Forall_map. clear -He. induction He as [|i b l k [_ F] _ IH]; constructor; done. }
  assert (length es = length objs) as El by (unfold es; rewrite length_map; by rewrite Hperm).
  destruct (scan_pack sha1 hasher256 crc32 deflate inflate raw seeker lowMemoryMode Hinf Hsha storage es bss Hes Hfit) as (s' & Es & Herr & _).
  { intros Hnil. rewrite Hnil in El. destruct objs; [done|discriminate El]. } { unfold len in *. by rewrite El. }
  exists (packFile sha1 bss), (packSum sha1 (packOf bss)), st', order, (scannedAll sha1 hasher256 crc32 deflate seeker lowMemoryMode es bss 12), s'.
  unfold len in Es |- *. rewrite El in Es. split_and!; [done|done| |done|done| |by eapply written_bases_first].
  - apply Forall_forall. intros i Hi. by eapply written_kept.
  - eapply Forall2_impl; [|intros i oh; by eapply describes_written].
    apply (scannedAll_describes _ objs K); [by eapply broken_packable|apply (wr_order _ _ _ _ _ _ _ _ _ W)|apply W].
Qed.
End PackAndScan.

(** ** A sample: a stand-in for zlib that ends its own stream, one for SHA-1, a blob and a delta on it. *)
Definition toyDeflate (c : bytes) : bytes := flat_map (fun b => [x01; b]) c ++ [x00].
Fixpoint toyInflate (r : bytes) : option (bytes * (error + bytes)) :=
  match r with
  | x00 :: r => Some ([], inr r)
  | x01 :: b :: r => match toyInflate r with Some (c, t) => Some (b :: c, t) | None => None end
  | _ => None
  end.
Definition toySha1 (b : bytes) : bytes := be_encode 20 (foldl (fun a c => a * 31 + b2z c) 7 b).

Lemma toy_inflate c r : toyInflate (toyDeflate c ++ r) = Some (c, inr r).
Proof. unfold toyDeflate. induction c as [|b c IH]; [done|]. cbn [flat_map app toyInflate]. by rewrite IH. Qed.

Lemma toy_sha1_len b : len (toySha1 b) = 20.
Proof. unfold toySha1. by rewrite be_encode_len. Qed.

Definition demoBlob : PObj := mkPObj BlobObject 5 (Hasher_Sum toySha1 BlobObject 5 (bs "hello")) (bs "hello") None.
Definition demoNext : PObj := mkPObj BlobObject 7 (Hasher_Sum toySha1 BlobObject 7 (bs "hello, ")) (bs "hello, ") None.
(** Copy five bytes, insert two; and back. *)
Definition demoDelta : PObj := mkPObj OFSDeltaObject 7 ZeroHash (map z2b [5; 7; 0x90; 5; 2; 44; 32]) None.
Definition backDelta : PObj := mkPObj OFSDeltaObject 4 ZeroHash (map z2b [7; 5; 0x90; 5]) None.
(** Two deltas on each other, as the selector can leave them, and a third on the first of them. *)
Definition demoObjects : objects :=
  [mkOTP (Some demoDelta) (Some 1%nat) None 1 0 true BlobObject 7 (po_Hash demoNext); mkOTP (Some backDelta) (Some 0%nat) None 2 0 true BlobObject 5 (po_Hash demoBlob);
   mkOTP (Some backDelta) (Some 0%nat) (Some demoBlob) 2 0 false 0 0 ZeroHash].
Definition demoStorage (h : ObjectID) : error + PObj :=
  if bool_decide (h = po_Hash demoNext) then inr demoNext else if bool_decide (h = po_Hash demoBlob) then inr demoBlob else inl ErrObjectNotFound.
Definition demoRank (i : nat) : nat := match i with 2%nat => 1%nat | _ => 0%nat end.

Lemma demo_in i (P : nat -> Prop) : i ∈ [0; 1; 2]%nat -> P 0%nat -> P 1%nat -> P 2%nat -> P i.
Proof. intros Hi. do 2 (apply elem_of_cons in Hi as [->|Hi]; [done|]). by apply list_elem_of_singleton in Hi as ->. Qed.

Lemma demo_encodable : encodable toyDeflate demoStorage false demoObjects [0; 1; 2]%nat 100 demoRank.
Proof.
  assert (forall i, i = 0%nat \/ i = 1%nat -> restorable toyDeflate demoStorage demoObjects 100 i) as Hr.
  { intros i [->| ->]; eexists _, _, _, _; (split; [reflexivity|]); (split; [reflexivity|]); (split; [vm_compute; reflexivity|]); (split; [reflexivity|]); by split_and!. }
  constructor.
  - constructor; [by repeat constructor; set_solver| |done]. intros i Hi. apply (demo_in i); [done|..];
      eexists; (split; [reflexivity|]); eexists; (split; [reflexivity|]); cbn [otp_Base]; split_and!; (done || set_solver).
  - intros i b Hi. revert b. apply (demo_in i); [done|..]; intros b [= <-]; [right; split; [done|apply Hr; by left]|right; split; [done|apply Hr; by right]|left; cbn; lia].
Qed.

Lemma pack_scan_roundtrip_witness :
  exists pack h st' order ohs s', pack_encode toySha1 toyDeflate demoStorage false 4 demoObjects [0; 1; 2]%nat = Ok (pack, h, st') /\ order ≡ₚ [0; 1; 2]%nat /\
    Forall (kept demoStorage demoObjects st') [0; 1; 2]%nat /\
    scanAll toySha1 None len toyInflate (fun (st : unit) t sz c => inr st) false false 20 6 (NewScanner pack None) =
      Some (HeaderSection (mkHeader 2 3) :: map ObjectSection ohs ++ [FooterSection h], s') /\
    sc_err s' = None /\ Forall2 (describes toySha1 false false false st' (offsetOf st')) order ohs /\ bases_first st' order.
Proof.
  apply (pack_scan_roundtrip toySha1 None len toyDeflate toyInflate (fun (st : unit) t sz c => st) false false demoStorage false
           demoObjects [0; 1; 2]%nat demoRank 100 4 None toy_inflate toy_sha1_len demo_encodable); [done|done|cbn; lia].
Defined.

(** ** Cycles *)
Definition cycle (orig : option PObj) : objects :=
  [mkOTP (Some (mkPObj OFSDeltaObject 7 ZeroHash (po_Content demoDelta) (Some (mkDeltaInfo ZeroHash ZeroHash 7)))) (Some 1%nat) orig 1 0 false 0 0 ZeroHash;
   mkOTP (Some (mkPObj OFSDeltaObject 7 ZeroHash (po_Content demoDelta) (Some (mkDeltaInfo ZeroHash ZeroHash 7)))) (Some 0%nat) orig 1 0 false 0 0 ZeroHash].

(** A cycle of two deltas is broken where the original can be restored: one is written whole, then the other. *)
Example encoder_breaks_cycle :
  match entry toyDeflate (fun _ => inr demoBlob) false 4 (cycle None) (pack_head 2) 0 with
  | Ok (st, out) => map otp_Base st = [None; Some 0%nat] /\ map otp_Offset st = [12; 24]
  | _ => False
  end.
Proof. vm_compute. split; reflexivity. Qed.

(** Deltas whose chains never leave [C], none of them written, and whose originals cannot be restored. *)
Definition lost (encodedObject : ObjectID -> error + PObj) (o : ObjectToPack) : Prop :=
  otp_Original o = None /\ exists obj, otp_Object o = Some obj /\ (IsDelta (po_Type obj) = true -> exists h err, otp_Hash o = Ok h /\ encodedObject h = inl err).
Definition stuck (encodedObject : ObjectID -> error + PObj) (st : objects) (C : list nat) : Prop := forall i, i ∈ C ->
  exists o b, st !! i = Some o /\ otp_Base o = Some b /\ b ∈ C /\ (otp_Offset o = 0 \/ otp_Offset o = 1) /\ lost encodedObject o.

Lemma stuck_mark encodedObject st C i o : stuck encodedObject st C -> st !! i = Some o -> i ∈ C -> stuck encodedObject (<[i := MarkWantWrite o]> st) C.
Proof.
  intros Hs Hi Hin j Hj. destruct (decide (j = i)) as [->|Hne]; [|rewrite list_lookup_insert_ne by done; by apply Hs].
  destruct (Hs i Hin) as (o' & b & Ho & Hb & HbC & _ & Hl). rewrite Hi in Ho. injection Ho as <-. exists (MarkWantWrite o), b.
  rewrite list_lookup_insert_eq by (by eapply lookup_lt_Some). split_and!; try done. by right.
Qed.
Lemma lost_back encodedObject o : lost encodedObject o -> exists err, restoreOriginal encodedObject o = Ok (o, err) /\ BackToOriginal o = o.
Proof.
  intros (Ho & obj & Eobj & Hd). unfold restoreOriginal, BackToOriginal. rewrite Ho, Eobj. destruct (IsDelta (po_Type obj)); cbn [negb].
  - destruct (Hd eq_refl) as (h & err & -> & E). cbn [res_bind]. rewrite E. eexists. split; [done|]. by destruct (otp_Base o).
  - eexists. split; [done|]. by destruct (otp_Base o).
Qed.
Lemma stuck_entry deflate encodedObject useRefDeltas C fuel : forall st out i, stuck encodedObject st C -> i ∈ C ->
  entry deflate encodedObject useRefDeltas fuel st out i = NoFuel.
Proof.
  induction fuel as [|fuel IH]; intros st out i Hs Hi; [done|]. destruct (Hs i Hi) as (o & b & Ho & Hb & HbC & Hoff & Hl). cbn [entry]. unfold deref at 1. rewrite Ho. cbn [res_bind].
  destruct (lost_back encodedObject o Hl) as (err & -> & Eback). cbn [res_bind]. rewrite Eback.
  assert ((if WantWrite o then Ok o else Ok o) = Ok o) as -> by (by destruct (WantWrite o)). cbn [res_bind]. rewrite (list_insert_id st i o Ho).
  assert (IsWritten o = false) as -> by (unfold IsWritten; lia). rewrite Hb. pose proof (stuck_mark _ _ _ _ _ Hs Ho Hi) as Hs'.
  destruct (Hs' b HbC) as (base & b' & Hbase & _ & _ & Hboff & _). unfold deref at 1. rewrite Hbase. cbn [res_bind].
  assert (IsWritten base = false) as -> by (unfold IsWritten; lia). by rewrite IH.
Qed.

(** C38: where deltas are on each other in a cycle, of any length, and the storage gives none of their originals, its error goes
    unnoticed and the encoder goes round the cycle for ever, whatever it is to write after: no number of calls is enough. *)
Theorem encoder_cycle_diverges (sha1 deflate : bytes -> bytes) (encodedObject : ObjectID -> error + PObj) (useRefDeltas : bool) (st : objects) (C : list nat)
    (i : nat) (objs : list nat) (fuel : nat) : stuck encodedObject st C -> i ∈ C ->
  pack_encode sha1 deflate encodedObject useRefDeltas fuel st (i :: objs) = NoFuel.
Proof. intros Hs Hi. unfold pack_encode. cbn [entries]. by rewrite (stuck_entry _ _ _ C). Qed.
Lemma encoder_cycle_diverges_witness : pack_encode toySha1 toyDeflate (fun _ => inl ErrObjectNotFound) false 1000 (cycle None) [0; 1]%nat = NoFuel.
Proof.
  apply (encoder_cycle_diverges toySha1 toyDeflate (fun _ => inl ErrObjectNotFound) false (cycle None) [0; 1]%nat 0 [1]%nat 1000); [|by left].
  intros i Hi. apply elem_of_cons in Hi as [->|Hi%list_elem_of_singleton]; [exists (nth 0 (cycle None) (newObjectToPack demoBlob)), 1%nat|subst i; exists (nth 1 (cycle None) (newObjectToPack demoBlob)), 0%nat];
    (split; [done|]; split; [done|]; split; [by_decision|]; split; [by left|]; split; [done|]; eexists; split; [done|]; intros _; eexists _, _; split; done).
Defined.
