(* ===== verification/PackParser.v ===== *)
(** * plumbing/format/packfile: the parser

    The parser of parser.go with its cache (parser_cache.go): it scans a pack, keeps the headers of the objects, and
    then rebuilds the deltas from their bases.  The headers are in a heap, since deltas point to their parents and
    the cache to all of them.  Observers and storage are parameters; the buffer of a header is [oh_content], and
    copying it to a writer empties it. *)
From S2P Require Import Prelude Binary ObjectID Memory Delta PackEncoder PackScanner.
Notation ZeroHash := ObjectID.ZeroHash.

(** What observers are told. *)
Inductive ObserverEvent :=
  | EvHeader (count : Z)
  | EvObjectHeader (t : ObjectType) (objSize pos : Z)
  | EvObjectContent (h : ObjectID) (pos crc : Z)
  | EvFooter (h : ObjectID).
#[global] Instance ObserverEvent_eq_decision : EqDecision ObserverEvent.
Proof. solve_decision. Defined.

Section Parser.
Context {Storage Observers : Type}.
Variable sha1 : bytes -> bytes.
Variable crc32 : bytes -> Z.
Variable inflate : bytes -> option (bytes * (error + bytes)).
Variable rawObject : Storage -> ObjectType -> Z -> bytes -> error + Storage.
(** [storage.EncodedObject(t, h)] *)
Variable storedObject : Storage -> ObjectType -> ObjectID -> error + PObj.
(** [forEachObserver]: the observers and the first error *)
Variable observe : Observers -> ObserverEvent -> Observers * option error.
Variable seeker : bool.
(** Low-memory mode needs a seeker ([NewParser]). *)
Variable lowMemoryCapable : bool.

Definition lowMemoryMode : bool := lowMemoryCapable && seeker.

Record Parser := mkParser {
  pr_heap : list ObjectHeader;
  pr_oiByHash : gmap ObjectID nat; pr_oiByOffset : gmap Z nat; pr_oi : list nat;
  pr_scanner : Scanner Storage;
  pr_observers : Observers;
  pr_checksum : ObjectID }.

Definition NewParser (data : bytes) (storage : option Storage) (obs : Observers) : Parser :=
  mkParser [] ∅ ∅ [] (NewScanner data storage) obs ZeroHash.

Definition with_heap (p : Parser) (hp : list ObjectHeader) : Parser :=
  mkParser hp (pr_oiByHash p) (pr_oiByOffset p) (pr_oi p) (pr_scanner p) (pr_observers p) (pr_checksum p).
Definition with_scanner (p : Parser) (s : Scanner Storage) : Parser :=
  mkParser (pr_heap p) (pr_oiByHash p) (pr_oiByOffset p) (pr_oi p) s (pr_observers p) (pr_checksum p).
Definition with_observers (p : Parser) (o : Observers) : Parser :=
  mkParser (pr_heap p) (pr_oiByHash p) (pr_oiByOffset p) (pr_oi p) (pr_scanner p) o (pr_checksum p).
Definition with_checksum (p : Parser) (h : ObjectID) : Parser :=
  mkParser (pr_heap p) (pr_oiByHash p) (pr_oiByOffset p) (pr_oi p) (pr_scanner p) (pr_observers p) h.

Definition header (p : Parser) (i : nat) : res ObjectHeader := match pr_heap p !! i with Some oh => Ok oh | None => Panic end.
Definition set_header (p : Parser) (i : nat) (oh : ObjectHeader) : Parser := with_heap p (<[i := oh]> (pr_heap p)).
Definition alloc (p : Parser) (oh : ObjectHeader) : nat * Parser := (length (pr_heap p), with_heap p (pr_heap p ++ [oh])).

Definition set_parent (oh : ObjectHeader) (i : nat) : ObjectHeader :=
  mkObjectHeader (oh_Type oh) (oh_Offset oh) (oh_ContentOffset oh) (oh_Size oh) (oh_Reference oh) (oh_OffsetReference oh)
    (oh_Crc32 oh) (oh_Hash oh) (oh_Hash256 oh) (oh_content oh) (Some i) (oh_diskType oh) (oh_externalRef oh).
Definition set_resolved (oh : ObjectHeader) (t : ObjectType) (size : Z) (h : ObjectID) : ObjectHeader :=
  mkObjectHeader t (oh_Offset oh) (oh_ContentOffset oh) size (oh_Reference oh) (oh_OffsetReference oh)
    (oh_Crc32 oh) h (oh_Hash256 oh) (oh_content oh) (oh_parent oh) (oh_diskType oh) (oh_externalRef oh).

(** [parserCache.Add] and [Reset] *)
Definition cache_Add (p : Parser) (i : nat) (oh : ObjectHeader) : Parser :=
  mkParser (pr_heap p) (<[oh_Hash oh := i]> (pr_oiByHash p)) (<[oh_Offset oh := i]> (pr_oiByOffset p)) (pr_oi p ++ [i])
    (pr_scanner p) (pr_observers p) (pr_checksum p).
Definition resetCache (p : Parser) : Parser :=
  mkParser (pr_heap p) ∅ ∅ [] (pr_scanner p) (pr_observers p) (pr_checksum p).

Definition notify (p : Parser) (ev : ObserverEvent) : Parser * option error :=
  let '(o, e) := observe (pr_observers p) ev in (with_observers p o, e).

(** The buffers given back in low-memory mode, from a header to its parents. *)
Fixpoint dropContents (fuel : nat) (p : Parser) (i : nat) : res Parser :=
  match fuel with
  | O => NoFuel
  | S fuel =>
    let* o := header p i in
    match oh_content o with
    | None => Ok p
    | Some _ =>
      let p := set_header p i (set_content o None) in
      match oh_parent o with
      | None => Ok p
      | Some j => let* parent := header p j in
                  match oh_content parent with None => Ok p | Some _ => dropContents fuel p j end
      end
    end
  end.

(** [storeOrCache] *)
Definition storeOrCache (p : Parser) (i : nat) : res (Parser * option error) :=
  let* oh := header p i in
  let* (p, err) :=
    match sc_storage (pr_scanner p) with
    | Some st =>
      if IsDelta (oh_diskType oh) then
        match rawObject st (oh_Type oh) (oh_Size oh) (default [] (oh_content oh)) with
        | inl e => Ok (p, Some e)
        | inr st =>
          match oh_content oh with
          | None => Panic
          | Some _ => Ok (with_scanner (set_header p i (set_content oh (Some []))) (with_storage (pr_scanner p) (Some st)), None)
          end
        end
      else Ok (p, None)
    | None => Ok (p, None)
    end in
  match err with
  | Some e => Ok (p, Some e)
  | None =>
    let* p := if lowMemoryMode then dropContents (S (length (pr_heap p))) p i else Ok p in
    let* oh := header p i in
    let p := cache_Add p i oh in
    match notify p (EvObjectHeader (oh_Type oh) (oh_Size oh) (oh_Offset oh)) with
    | (p, Some e) => Ok (p, Some e)
    | (p, None) => Ok (notify p (EvObjectContent (oh_Hash oh) (oh_Offset oh) (oh_Crc32 oh)))
    end
  end.

(** [parentReader]: the contents of the parent [i]. *)
Definition parentReader (p : Parser) (i : nat) : res (Parser * (error + bytes)) :=
  let* parent := header p i in
  let inPack :=
    if negb (oh_externalRef parent) && (oh_ContentOffset parent =? 0) then Ok (p, inl ErrObjectNotFound)
    else if negb seeker then Ok (p, inl ErrObjectNotFound)
    else
      let* _ := buffer_Grow (i64 (oh_Size parent)) in
      match inflateContent inflate seeker (pr_scanner p) (oh_ContentOffset parent) with
      | (s, inl _) => Ok (with_scanner p s, inl ErrReferenceDeltaNotFound)
      | (s, inr out) =>
        let content := default [] (oh_content parent) ++ out in
        Ok (with_scanner (set_header p i (set_content parent (Some content))) s, inr content)
      end in
  match oh_content parent with
  | Some (b :: c) => Ok (p, inr (b :: c))
  | _ =>
    match sc_storage (pr_scanner p) with
    | Some st =>
      if negb (bool_decide (oh_Hash parent = ZeroHash)) then
        match storedObject st (oh_Type parent) (oh_Hash parent) with
        | inr obj =>
          let* _ := buffer_Grow (po_Size obj) in
          let content := default [] (oh_content parent) ++ po_Content obj in
          Ok (set_header p i (set_content (set_resolved parent (po_Type obj) (po_Size obj) (oh_Hash parent)) (Some content)), inr content)
        | inl _ => inPack
        end
      else inPack
    | None => inPack
    end
  end.

(** The hash [patchDeltaWriter] gives, as the bytes of an identifier. *)
Definition hashBytes (t : ObjectType) (size : Z) (content : bytes) : bytes := ObjectID_Bytes (Hasher_Sum sha1 t size content).
Definition idOf (h : bytes) : ObjectID := ObjectID_Write ZeroHash h.

(** [applyPatchBaseHeader] of the header [i] with [delta], writing after [target]. *)
Definition applyPatchBaseHeader (p : Parser) (i : nat) (delta target : bytes) : res (Parser * option error) :=
  let* ota := header p i in
  match oh_parent ota with
  | None => Panic
  | Some j =>
    let* (p, r) := parentReader p j in
    match r with
    | inl e => Ok (p, Some e)
    | inr parentContents =>
      let* parent := header p j in
      let* ota := header p i in
      let zero := bool_decide (oh_Hash ota = ZeroHash) in
      let typ := if zero then oh_Type parent else oh_Type ota in
      match patchDeltaWriter hashBytes target parentContents true true delta typ None with
      | Ok (sz, h, out) =>
        let ota := set_content ota (Some out) in
        Ok (set_header p i (if zero then set_resolved ota typ (i64 sz) (idOf h) else ota), None)
      | Err e => Ok (p, Some e)
      | Panic => Panic
      | NoFuel => NoFuel
      end
    end
  end.

(** [ensureContent] *)
Definition ensureContent (p : Parser) (i : nat) : res (Parser * option error) :=
  let* oh := header p i in
  let content := default [] (oh_content oh) in
  match oh_content oh with
  | Some c => if (len c =? oh_Size oh) && negb (IsZero (oh_Hash oh)) then Ok (p, None) else
      if negb lowMemoryMode && (len c >? 0) then applyPatchBaseHeader (set_header p i (set_content oh (Some []))) i c []
      else if seeker then
        match inflateContent inflate seeker (pr_scanner p) (oh_ContentOffset oh) with
        | (s, inl e) => Ok (with_scanner p s, Some e)
        | (s, inr deltaData) => applyPatchBaseHeader (with_scanner p s) i deltaData c
        end
      else Ok (p, Some ErrObjectNotFound)
  | None =>
      let p := set_header p i (set_content oh (Some [])) in
      if seeker then
        match inflateContent inflate seeker (pr_scanner p) (oh_ContentOffset oh) with
        | (s, inl e) => Ok (with_scanner p s, Some e)
        | (s, inr deltaData) => applyPatchBaseHeader (with_scanner p s) i deltaData content
        end
      else Ok (p, Some ErrObjectNotFound)
  end.

Definition externalParent (h : ObjectID) : ObjectHeader :=
  mkObjectHeader AnyObject 0 0 0 ZeroHash 0 0 h None None None AnyObject true.

(** [processDelta] *)
Definition processDelta (p : Parser) (i : nat) : res (Parser * option error) :=
  let* oh := header p i in
  let* (p, err) :=
    if oh_Type oh =? OFSDeltaObject then
      match pr_oiByOffset p !! oh_OffsetReference oh with
      | None => Ok (p, Some ErrObjectNotFound)
      | Some pa => Ok (set_header p i (set_parent oh pa), None)
      end
    else if oh_Type oh =? REFDeltaObject then
      let '(pa, p) := match pr_oiByHash p !! oh_Reference oh with
                      | Some pa => (pa, p)
                      | None => alloc p (externalParent (oh_Reference oh))
                      end in
      let p := set_header p i (set_parent oh pa) in
      Ok (mkParser (pr_heap p) (<[oh_Reference oh := pa]> (pr_oiByHash p)) (pr_oiByOffset p) (pr_oi p) (pr_scanner p) (pr_observers p) (pr_checksum p), None)
    else Ok (p, Some ErrInvalidType) in
  match err with
  | Some e => Ok (p, Some e)
  | None =>
    let* (p, err) := ensureContent p i in
    match err with
    | Some e => Ok (p, Some e)
    | None => storeOrCache p i
    end
  end.

Fixpoint processDeltas (p : Parser) (l : list nat) : res (Parser * option error) :=
  match l with
  | [] => Ok (p, None)
  | i :: l =>
    let* (p, err) := processDelta p i in
    match err with
    | Some e => Ok (p, Some e)
    | None => processDeltas p l
    end
  end.

(** One section; errors of the observers and of [storeOrCache] are not looked at. *)
Definition parseSection (p : Parser) (d : PackData) (ofs refs : list nat) : res (Parser * list nat * list nat) :=
  match d with
  | NoSection => Ok (p, ofs, refs)
  | HeaderSection h => let '(p, _) := notify (resetCache p) (EvHeader (hd_ObjectsQty h)) in Ok (p, ofs, refs)
  | ObjectSection oh =>
    let '(i, p) := alloc p (if lowMemoryMode && negb (IsDelta (oh_Type oh)) then set_content oh None else oh) in
    if oh_Type oh =? OFSDeltaObject then Ok (p, ofs ++ [i], refs)
    else if oh_Type oh =? REFDeltaObject then Ok (p, ofs, refs ++ [i])
    else let* (p, _) := storeOrCache p i in Ok (p, ofs, refs)
  | FooterSection h => Ok (with_checksum p h, ofs, refs)
  end.

(** The loop over the sections; [fuel] bounds their number. *)
Fixpoint parseSections (fuel : nat) (p : Parser) (ofs refs : list nat) : res (Parser * list nat * list nat) :=
  match fuel with
  | O => NoFuel
  | S fuel =>
    match Scan sha1 None crc32 inflate rawObject seeker lowMemoryMode SHA1Size (pr_scanner p) with
    | None => NoFuel
    | Some (false, s) => Ok (with_scanner p s, ofs, refs)
    | Some (true, s) =>
      let* (p, ofs, refs) := parseSection (with_scanner p s) (sc_packData s) ofs refs in
      parseSections fuel p ofs refs
    end
  end.

(** [Parse]: the checksum or the error.  The error of the scanner is not looked at. *)
Definition Parse (fuel : nat) (p : Parser) : res (Parser * (error + ObjectID)) :=
  let* (p, ofs, refs) := parseSections fuel p [] [] in
  if sc_objects (pr_scanner p) =? 0 then Ok (p, inl ErrEmptyPackfile)
  else
    let* (p, err) := processDeltas p refs in
    match err with
    | Some e => Ok (p, inl e)
    | None =>
      let* (p, err) := processDeltas p ofs in
      match err with
      | Some e => Ok (p, inl e)
      | None =>
        match notify p (EvFooter (pr_checksum p)) with
        | (p, Some e) => Ok (p, inl e)
        | (p, None) => Ok (p, inr (pr_checksum p))
        end
      end
    end.
End Parser.
Arguments Parser : clear implicits.
