(* ===== verification/PackParserProofs.v ===== *)
(** * Parsing a pack rebuilds its objects

    The parser, without storage, on a pack of whole objects and of deltas whose bases are before them: it tells its
    observers of every object, the deltas with the type, size and identifier of what they stand for.  What the parser
    does not notice, a scan that failed and a delta that is malformed, is shown by the samples. *)
From S2P Require Import Prelude Binary ObjectID Memory Delta TreesProofs PackEncoder PackScanner PackProofs PackEncoderProofs PackParser.
Notation ZeroHash := ObjectID.ZeroHash.

Section Parsing.
Context {Observers : Type}.
Variable sha1 : bytes -> bytes.
Variable crc32 : bytes -> Z.
Variable deflate : bytes -> bytes.
Variable inflate : bytes -> option (bytes * (error + bytes)).
(** Observers that never fail. *)
Variable note : Observers -> ObserverEvent -> Observers.
Variable seeker : bool.
Hypothesis inflate_deflate : forall c r, inflate (deflate c ++ r) = Some (c, inr r).
Hypothesis sha1_len : forall b, len (sha1 b) = 20.

Notation raw := (fun (st : Empty_set) (t : ObjectType) (sz : Z) (c : bytes) => st).
Notation rawOk := (fun st t sz c => inr (raw st t sz c)).
Notation stored := (fun (st : Empty_set) (t : ObjectType) (h : ObjectID) => @inl error PObj ErrObjectNotFound).
Notation observe := (fun o ev => (note o ev, @None error)).
Notation Parser := (Parser Empty_set Observers).
Notation Store := (storeOrCache rawOk observe seeker false).
Notation Process := (processDelta sha1 inflate rawOk stored observe seeker false).
Notation ProcessAll := (processDeltas sha1 inflate rawOk stored observe seeker false).
Notation Sections := (parseSections sha1 crc32 inflate rawOk observe seeker false).
Notation ParsePack := (Parse sha1 crc32 inflate rawOk stored observe seeker false).
Notation scannedOne := (scanned sha1 None crc32 deflate seeker false).

Definition objectEvents (t : ObjectType) (size pos : Z) (h : ObjectID) (crc : Z) : list ObserverEvent :=
  [EvObjectHeader t size pos; EvObjectContent h pos crc].
Definition headerEvents (oh : ObjectHeader) : list ObserverEvent := objectEvents (oh_Type oh) (oh_Size oh) (oh_Offset oh) (oh_Hash oh) (oh_Crc32 oh).

(** A header added to the cache and told to the observers. *)
Definition cached (p : Parser) (i : nat) (oh : ObjectHeader) : Parser :=
  with_observers (cache_Add p i oh) (foldl note (pr_observers p) (headerEvents oh)).

Lemma Store_cached p i oh : sc_storage (pr_scanner p) = None -> pr_heap p !! i = Some oh -> Store p i = Ok (cached p i oh, None).
Proof. intros Hs Hi. unfold storeOrCache, header. rewrite Hi, Hs. cbn [res_bind]. unfold lowMemoryMode. cbn [andb res_bind]. by rewrite Hi. Qed.

(** One object section. *)
Definition full (oh : ObjectHeader) : bool := negb (IsDelta (oh_Type oh)).
Definition take_header (p : Parser) (oh : ObjectHeader) : Parser :=
  let p' := with_heap p (pr_heap p ++ [oh]) in if full oh then cached p' (length (pr_heap p)) oh else p'.
Definition take_ofs (p : Parser) (ofs : list nat) (oh : ObjectHeader) : list nat := if full oh then ofs else ofs ++ [length (pr_heap p)].

Lemma parseSection_object p oh ofs : sc_storage (pr_scanner p) = None -> 1 <= oh_Type oh <= 6 -> oh_Type oh <> 5 ->
  parseSection rawOk observe seeker false p (ObjectSection oh) ofs [] = Ok (take_header p oh, take_ofs p ofs oh, []).
Proof.
  intros Hs Ht Ht5. cbn [parseSection]. unfold alloc, lowMemoryMode. cbn [andb]. unfold take_header, take_ofs, full, IsDelta, OFSDeltaObject, REFDeltaObject.
  destruct (Z.eqb_spec (oh_Type oh) 6) as [->|]; [done|]. destruct (Z.eqb_spec (oh_Type oh) 7); [lia|]. cbn [orb negb].
  rewrite (Store_cached _ _ oh); [done|done|]. cbn. by apply list_lookup_middle.
Qed.

(** The parser after the headers [ohs]. *)
Fixpoint take_headers (p : Parser) (ohs : list ObjectHeader) : Parser := match ohs with [] => p | oh :: ohs => take_headers (take_header p oh) ohs end.
Fixpoint take_all_ofs (p : Parser) (ofs : list nat) (ohs : list ObjectHeader) : list nat :=
  match ohs with [] => ofs | oh :: ohs => take_all_ofs (take_header p oh) (take_ofs p ofs oh) ohs end.

Lemma take_header_scanner p s oh : take_header (with_scanner p s) oh = with_scanner (take_header p oh) s.
Proof. unfold take_header. cbn. by destruct (full oh). Qed.
Lemma take_headers_scanner ohs : forall p s, take_headers (with_scanner p s) ohs = with_scanner (take_headers p ohs) s.
Proof. induction ohs as [|oh ohs IH]; intros p s; [done|]. cbn [take_headers]. by rewrite take_header_scanner, IH. Qed.
Lemma take_all_ofs_scanner ohs : forall p s ofs, take_all_ofs (with_scanner p s) ofs ohs = take_all_ofs p ofs ohs.
Proof. induction ohs as [|oh ohs IH]; intros p s ofs; [done|]. cbn [take_all_ofs]. by rewrite take_header_scanner, IH. Qed.

(** Entries without references by identifier. *)
Definition ofs_entry (e : PEntry) : Prop := entry_fits e /\ match pe_Base e with RefBase _ => False | _ => True end.

Lemma ofs_entry_type e b off : ofs_entry e -> 1 <= oh_Type (scannedOne e b off) <= 6 /\ oh_Type (scannedOne e b off) <> 5.
Proof. intros [[_ Hf] Hb]. cbn. destruct (pe_Base e); [lia|destruct Hf as [-> _]; done|done]. Qed.

Lemma Sections_entries es bss : Forall2 (fun e b => packEntry deflate e = Ok b) es bss -> Forall ofs_entry es ->
  forall fuel p pre ofs, at_pos (pr_scanner p) pre (concat bss ++ WriteTo (packSum sha1 (pre ++ concat bss))) ->
  sc_objIndex (pr_scanner p) + 1 + len es = sc_objects (pr_scanner p) -> sc_err (pr_scanner p) = None -> sc_nextFn (pr_scanner p) = Some objectEntry ->
  sc_storage (pr_scanner p) = None -> (length es + 1 < fuel)%nat ->
  exists s', let ohs := scannedAll sha1 None crc32 deflate seeker false es bss (len pre) in
    Sections fuel p ofs [] = Ok (with_scanner (with_checksum (take_headers p ohs) (packSum sha1 (pre ++ concat bss))) s', take_all_ofs p ofs ohs, []) /\
    sc_objects s' = sc_objects (pr_scanner p) /\ sc_storage s' = None /\ sc_file s' = sc_file (pr_scanner p).
Proof.
  induction 1 as [|e b es bss Hb Hbs IH]; intros Hf fuel p pre ofs Hat Hi He Hn Hst Hfuel; cbn zeta.
  - cbn [concat app] in *. rewrite app_nil_r in *. destruct fuel as [|[|fuel]]; [cbn in Hfuel; lia..|]. cbn [parseSections].
    rewrite <- (app_nil_r (WriteTo _)) in Hat. change SHA1Size with 20.
    rewrite (Scan_footer sha1 None crc32 inflate raw seeker (lowMemoryMode seeker false) sha1_len (pr_scanner p) pre [] Hat) by (done || (rewrite <- Hi; unfold len; cbn; lia)).
    cbn [after_footer with_section sc_packData parseSection res_bind].
    set (s' := after_footer _ _ _). assert (Scan sha1 None crc32 inflate rawOk seeker (lowMemoryMode seeker false) 20 s' = Some (false, s')) as Es'. { unfold Scan. change (sc_err s') with (sc_err (pr_scanner p)). by rewrite He. }
    change (pr_scanner (with_checksum _ _)) with s'. rewrite Es'. exists s'. by split_and!.
  - inversion Hf as [|? ? Hfe Hfs]; subst. cbn [concat] in Hat. rewrite <- app_assoc in Hat. destruct fuel as [|fuel]; [lia|]. cbn [parseSections]. change SHA1Size with 20.
    rewrite len_cons in Hi. pose proof (len_nonneg es). cbn [length] in Hfuel.
    rewrite (Scan_entry sha1 None crc32 deflate inflate raw seeker (lowMemoryMode seeker false) inflate_deflate (pr_scanner p) e b _ (proj1 Hfe) Hb (at_rest _ _ _ Hat)) by (done || lia).
    set (s1 := after_entry _ _ _ _ _ _ _ _ _ _ _). pose proof (after_entry_at sha1 None crc32 deflate raw seeker (lowMemoryMode seeker false) (pr_scanner p) pre e b _ Hat) as Hat'. fold s1 in Hat'.
    assert (sc_packData s1 = ObjectSection (scannedOne e b (len pre))) as Ed. { unfold s1, after_entry. cbn [with_section sc_packData]. pose proof Hat as (_ & -> & _). done. }
    assert (sc_storage s1 = None) as Hst1. { unfold s1, after_entry, storeEntry. cbn. rewrite Hst. by destruct (IsDelta _). }
    rewrite Ed, parseSection_object by (done || apply ofs_entry_type; done). cbn [res_bind].
    rewrite take_header_scanner. change (take_ofs (with_scanner p s1) ofs (scannedOne e b (len pre))) with (take_ofs p ofs (scannedOne e b (len pre))).
    destruct (IH Hfs fuel (with_scanner (take_header p (scannedOne e b (len pre))) s1) (pre ++ b) (take_ofs p ofs (scannedOne e b (len pre)))) as (s' & E & Ho & Hs' & Hf'); [cbn [pr_scanner with_scanner]..|].
    + rewrite <- (app_assoc pre b). exact Hat'.
    + unfold s1. cbn. lia.
    + done.
    + done.
    + done.
    + lia.
    + exists s'. cbn zeta in E. rewrite E. rewrite take_headers_scanner, take_all_ofs_scanner. cbn [concat]. rewrite <- app_assoc, len_app.
      cbn [scannedAll take_headers take_all_ofs]. split; [done|]. by split_and!.
Qed.

(** ** The headers in the heap *)
Fixpoint deltas_from (n : nat) (ohs : list ObjectHeader) : list nat :=
  match ohs with [] => [] | oh :: ohs => if full oh then deltas_from (S n) ohs else n :: deltas_from (S n) ohs end.

Lemma take_all_ofs_spec ohs : forall p ofs, take_all_ofs p ofs ohs = ofs ++ deltas_from (length (pr_heap p)) ohs.
Proof.
  induction ohs as [|oh ohs IH]; intros p ofs; cbn [take_all_ofs deltas_from]; [by rewrite app_nil_r|]. rewrite IH. unfold take_ofs.
  assert (length (pr_heap (take_header p oh)) = S (length (pr_heap p))) as ->. { unfold take_header. destruct (full oh); cbn; rewrite length_app; cbn; lia. }
  destruct (full oh); [done|]. by rewrite <- app_assoc.
Qed.

Lemma take_headers_spec ohs : forall p, let p' := take_headers p ohs in
  pr_heap p' = pr_heap p ++ ohs /\ pr_observers p' = foldl note (pr_observers p) (flat_map headerEvents (List.filter full ohs)) /\
  pr_checksum p' = pr_checksum p /\ pr_scanner p' = pr_scanner p /\
  (forall o, o ∉ map oh_Offset ohs -> pr_oiByOffset p' !! o = pr_oiByOffset p !! o) /\
  (NoDup (map oh_Offset ohs) -> forall k oh, ohs !! k = Some oh -> full oh = true -> pr_oiByOffset p' !! oh_Offset oh = Some (length (pr_heap p) + k)%nat).
Proof.
  induction ohs as [|oh ohs IH]; intros p; cbn zeta; cbn [take_headers].
  { rewrite app_nil_r. split_and!; try done. }
  destruct (IH (take_header p oh)) as (Hh & Ho & Hc & Hs & Hn & Hf). cbn zeta in *. rewrite Hh, Ho, Hc, Hs.
  assert (pr_heap (take_header p oh) = pr_heap p ++ [oh]) as Eh by (unfold take_header; by destruct (full oh)).
  split_and!.
  - by rewrite Eh, <- app_assoc.
  - cbn [List.filter]. unfold take_header. destruct (full oh); [|done]. cbn [flat_map]. by rewrite foldl_app.
  - unfold take_header. by destruct (full oh).
  - unfold take_header. by destruct (full oh).
  - intros o Hno. cbn [map] in Hno. apply not_elem_of_cons in Hno as [H1 H2]. rewrite Hn by done. unfold take_header. destruct (full oh); [|done]. cbn. by rewrite lookup_insert_ne by congruence.
  - intros Hnd k oh' Hk Hfull. cbn [map] in Hnd. apply NoDup_cons in Hnd as [Hni Hnd]. destruct k as [|k].
    + injection Hk as <-. rewrite Hn by done. unfold take_header. rewrite Hfull. cbn. rewrite lookup_insert_eq. f_equal. lia.
    + rewrite (Hf Hnd k oh') by done. rewrite Eh, length_app. cbn. f_equal. lia.
Qed.

(** ** A pack and what its entries stand for *)
Variable es : list PEntry.
Variable bss : list bytes.
Variable rs : list (ObjectType * bytes).
Hypothesis Hpacked : Forall2 (fun e b => packEntry deflate e = Ok b) es bss.
Hypothesis Hofs : Forall ofs_entry es.

Definition off (k : nat) : Z := 12 + len (concat (take k bss)).

(** What the entry [k] stands for: itself, or what its delta makes of what an earlier entry stands for. *)
Definition stands_for (k : nat) (e : PEntry) (t : ObjectType) (c : bytes) : Prop :=
  match pe_Base e with
  | NoBase => t = pe_Type e /\ c = pe_Content e
  | OfsBase rel => exists j cb, (j < k)%nat /\ off j = off k - rel /\ rs !! j = Some (t, cb) /\ cb <> [] /\ pe_Content e <> [] /\ len c < 2 ^ 63 /\
      patchDeltaWriter (hashBytes sha1) [] cb true true (pe_Content e) t None = Ok (len c, hashBytes sha1 t (len c) c, c)
  | RefBase _ => False
  end.
Hypothesis Hstands : forall k e, es !! k = Some e -> exists t c, rs !! k = Some (t, c) /\ stands_for k e t c.

Notation scannedHere := (scannedAll sha1 None crc32 deflate seeker false es bss 12).

Lemma scannedAll_lookup es' bss' start k oh : Forall2 (fun e b => packEntry deflate e = Ok b) es' bss' ->
  scannedAll sha1 None crc32 deflate seeker false es' bss' start !! k = Some oh ->
  exists e b, es' !! k = Some e /\ bss' !! k = Some b /\ oh = scannedOne e b (start + len (concat (take k bss'))).
Proof.
  intros H. revert start k. induction H as [|e b es' bss' Hb Hbs IH]; intros start [|k]; cbn [scannedAll]; try done.
  - intros [= <-]. exists e, b. split_and!; try done. cbn. unfold len. cbn. by rewrite Z.add_0_r.
  - intros Hk. destruct (IH _ _ Hk) as (e' & b' & ? & ? & ->). exists e', b'. split_and!; try done. cbn [take concat]. rewrite len_app. f_equal. lia.
Qed.

Lemma scannedHere_lookup k e b : es !! k = Some e -> bss !! k = Some b -> scannedHere !! k = Some (scannedOne e b (off k)).
Proof.
  unfold off. generalize 12. revert k. clear -Hpacked. induction Hpacked as [|e' b' es' bss' Hb Hbs IH]; intros [|k] start He Hbk; cbn [scannedAll]; try done.
  - injection He as <-. injection Hbk as <-. cbn. unfold len. cbn. by rewrite Z.add_0_r.
  - cbn [lookup list_lookup]. change (scannedAll sha1 None crc32 deflate seeker false es' bss' (start + len b') !! k = Some (scannedOne e b (start + len (concat (take (S k) (b' :: bss')))))).
    rewrite (IH Hbs k (start + len b')) by done. do 2 f_equal. cbn [take concat]. rewrite len_app. lia.
Qed.

Lemma entry_at k e : es !! k = Some e -> exists b, bss !! k = Some b /\ packEntry deflate e = Ok b /\ ofs_entry e /\ 0 < len b.
Proof.
  intros He. destruct (Forall2_lookup_l _ _ _ _ _ Hpacked He) as (b & Hb & E). exists b. assert (ofs_entry e) as Ho by (eapply Forall_lookup_1; [exact Hofs|exact He]).
  split_and!; try done. apply (packEntry_nonempty deflate e); [apply Ho|done].
Qed.

Lemma off_step k b : bss !! k = Some b -> off (S k) = off k + len b.
Proof. intros Hb. unfold off. rewrite (take_S_r _ _ _ Hb), concat_app, len_app. cbn [concat]. rewrite app_nil_r. lia. Qed.

Lemma off_lt j k : (j < k)%nat -> (k < length es)%nat -> off j < off k.
Proof.
  intros Hjk Hk. induction k as [|k IH]; [lia|]. destruct (lookup_lt_is_Some_2 es k) as [e He]; [lia|]. destruct (entry_at k e He) as (b & Hb & _ & _ & Hl).
  rewrite (off_step k b Hb). destruct (decide (j = k)) as [->|]; [lia|]. specialize (IH ltac:(lia) ltac:(lia)). lia.
Qed.

Lemma off_inj j k : (j < length es)%nat -> (k < length es)%nat -> off j = off k -> j = k.
Proof. intros Hj Hk E. destruct (lt_eq_lt_dec j k) as [[H|H]|H]; [|done|]; apply off_lt in H; lia. Qed.

Lemma off_pos k : 12 <= off k.
Proof. unfold off. pose proof (len_nonneg (concat (take k bss))). lia. Qed.

Lemma scannedHere_length : length scannedHere = length es.
Proof. generalize 12. clear -Hpacked. induction Hpacked as [|e b es' bss' _ Hp IH]; intros start; [done|]. cbn. by rewrite IH. Qed.

Lemma scannedHere_inv k oh : scannedHere !! k = Some oh -> exists e b, es !! k = Some e /\ bss !! k = Some b /\ oh = scannedOne e b (off k).
Proof. intros H. destruct (scannedAll_lookup _ _ _ _ _ Hpacked H) as (e & b & ? & ? & ->). by exists e, b. Qed.

Lemma offsets_nodup : NoDup (map oh_Offset scannedHere).
Proof.
  apply NoDup_alt. intros i j x Hi Hj. rewrite list_lookup_fmap in Hi, Hj.
  destruct (scannedHere !! i) as [a|] eqn:Ea; [|done]. destruct (scannedHere !! j) as [b|] eqn:Eb; [|done]. cbn in Hi, Hj. injection Hi as <-. injection Hj as Hj.
  destruct (scannedHere_inv i a Ea) as (e1 & b1 & He1 & _ & ->). destruct (scannedHere_inv j b Eb) as (e2 & b2 & He2 & _ & ->).
  apply off_inj; [by apply lookup_lt_Some in He1|by apply lookup_lt_Some in He2|by symmetry].
Qed.

(** The content of an entry is where its header says. *)
Lemma content_in_file k e b : es !! k = Some e -> bss !! k = Some b ->
  0 < off k + (len b - len (deflate (pe_Content e))) /\
  exists tail, inflate (drop (Z.to_nat (off k + (len b - len (deflate (pe_Content e))))) (packFile sha1 bss)) = Some (pe_Content e, inr tail).
Proof.
  intros He Hb. destruct (entry_at k e He) as (b' & Hb' & E & [Hfit _] & _). rewrite Hb in Hb'. injection Hb' as <-.
  destruct (packEntry_header deflate e b Hfit E) as (hd & Ehd & _). pose proof (off_pos k). subst b. rewrite len_app in *. pose proof (len_nonneg hd).
  split; [lia|]. exists (concat (drop (S k) bss) ++ WriteTo (packSum sha1 (packOf bss))). rewrite <- inflate_deflate. f_equal.
  unfold packFile, packOf. rewrite <- (take_drop_middle bss k _ Hb) at 2. rewrite concat_app. cbn [concat]. rewrite <- !app_assoc.
  rewrite (app_assoc (pack_head _)), (app_assoc (pack_head _ ++ _)). apply drop_app_length'.
  rewrite !length_app. unfold off, len. assert (length (pack_head (Z.of_nat (length bss))) = 12%nat) as ->.
  { unfold pack_head. rewrite !length_app, !be_encode_length. done. } lia.
Qed.

(** ** Rebuilding the deltas *)

(** A header whose object is known: found by its offset, with its type, and its content in memory or in the file. *)
Definition known (p : Parser) (i : nat) (t : ObjectType) (c : bytes) : Prop :=
  exists oh, pr_heap p !! i = Some oh /\ oh_Type oh = t /\ oh_externalRef oh = false /\ pr_oiByOffset p !! off i = Some i /\
  (oh_content oh = Some c \/
   seeker = true /\ oh_content oh = None /\ 0 < oh_ContentOffset oh /\ 0 <= oh_Size oh < 2 ^ 63 /\
   exists tail, inflate (drop (Z.to_nat (oh_ContentOffset oh)) (packFile sha1 bss)) = Some (c, inr tail)).

Definition is_full (i : nat) : bool := match es !! i with Some e => negb (IsDelta (pe_Type e)) | None => false end.

(** The deltas before [k] are rebuilt, the others are as they were scanned. *)
Record rebuilt (p : Parser) (k : nat) : Prop := {
  rb_file : sc_file (pr_scanner p) = packFile sha1 bss;
  rb_storage : sc_storage (pr_scanner p) = None;
  rb_known : forall i t c, rs !! i = Some (t, c) -> (i < length es)%nat -> is_full i = true \/ (i < k)%nat -> known p i t c;
  rb_rest : forall i, (k <= i)%nat -> is_full i = false -> pr_heap p !! i = scannedHere !! i }.

(** [parentReader] of a known header that is not empty: its content; the header may get it and the scanner may move. *)
Lemma parentReader_known p i t c : sc_file (pr_scanner p) = packFile sha1 bss -> sc_storage (pr_scanner p) = None -> known p i t c -> c <> [] ->
  exists p', parentReader inflate stored seeker p i = Ok (p', inr c) /\
    sc_file (pr_scanner p') = packFile sha1 bss /\ sc_storage (pr_scanner p') = None /\ known p' i t c /\
    (forall j, j <> i -> pr_heap p' !! j = pr_heap p !! j) /\ pr_oiByOffset p' = pr_oiByOffset p /\ pr_observers p' = pr_observers p /\ pr_checksum p' = pr_checksum p /\
    sc_objects (pr_scanner p') = sc_objects (pr_scanner p).
Proof.
  intros Hfile Hst Hk Hc. pose proof Hk as (oh & Hi & Ht & Hx & Ho & Hcont). unfold parentReader, header. rewrite Hi. cbn [res_bind].
  destruct Hcont as [Ec|(Hsk & Ec & Hpos & Hsize & tail & Hinf)].
  - rewrite Ec. destruct c as [|b c]; [done|]. exists p. by split_and!.
  - rewrite Ec, Hst, Hx, Hsk. cbn [negb andb default]. destruct (Z.eqb_spec (oh_ContentOffset oh) 0); [lia|].
    rewrite (Grow_fits true _ Hsize). cbn [res_bind].
    unfold inflateContent. cbn [negb]. unfold sc_rest at 1. cbn [sc_offset sc_file with_offset]. rewrite Hfile, Hinf. cbn [app].
    eexists. split; [done|]. cbn [with_scanner pr_scanner set_header with_heap pr_heap pr_oiByOffset pr_observers pr_checksum]. split_and!; try done.
    + exists (set_content oh (Some c)). cbn. rewrite list_lookup_insert_eq by (by apply lookup_lt_Some in Hi). split_and!; try done. by left.
    + intros j Hj. by rewrite list_lookup_insert_ne by congruence.
Qed.

Lemma known_ext p p' i t c : pr_heap p' !! i = pr_heap p !! i -> pr_oiByOffset p' !! off i = pr_oiByOffset p !! off i -> known p i t c -> known p' i t c.
Proof. intros E1 E2 (oh & H & ? & ? & ? & ?). exists oh. rewrite E1, E2. by split_and!. Qed.

Lemma idOf_hashBytes t sz c : idOf (hashBytes sha1 t sz c) = Hasher_Sum sha1 t sz c.
Proof. unfold idOf, hashBytes, Hasher_Sum. destruct (packSum_bytes sha1 sha1_len (objectPreamble t sz ++ c)) as [E _]. unfold packSum in E. by rewrite E. Qed.

(** The events of a rebuilt delta. *)
Definition deltaEvents (k : nat) : list ObserverEvent :=
  match rs !! k, bss !! k with
  | Some (t, c), Some b => objectEvents t (len c) (off k) (Hasher_Sum sha1 t (len c) c) (crc32 b)
  | _, _ => []
  end.

(** [ensureContent] of a delta whose parent is known: the header becomes that of the object it stands for. *)
Lemma ensureContent_known p k j oh t cb c delta : sc_file (pr_scanner p) = packFile sha1 bss -> sc_storage (pr_scanner p) = None -> k <> j ->
  pr_heap p !! k = Some oh -> oh_parent oh = Some j -> oh_Hash oh = ZeroHash -> oh_content oh = Some delta -> delta <> [] -> known p j t cb -> cb <> [] -> len c < 2 ^ 63 ->
  patchDeltaWriter (hashBytes sha1) [] cb true true delta t None = Ok (len c, hashBytes sha1 t (len c) c, c) ->
  exists p', ensureContent sha1 inflate stored seeker false p k = Ok (p', None) /\
    sc_file (pr_scanner p') = packFile sha1 bss /\ sc_storage (pr_scanner p') = None /\ known p' j t cb /\
    pr_heap p' !! k = Some (set_resolved (set_content oh (Some c)) t (len c) (Hasher_Sum sha1 t (len c) c)) /\
    (forall i, i <> j -> i <> k -> pr_heap p' !! i = pr_heap p !! i) /\ pr_oiByOffset p' = pr_oiByOffset p /\ pr_observers p' = pr_observers p /\
    pr_checksum p' = pr_checksum p /\ sc_objects (pr_scanner p') = sc_objects (pr_scanner p).
Proof.
  intros Hfile Hst Hkj Hk Hpar Hz Hcont Hd Hj Hcb Hlc Hpdw. assert (k < length (pr_heap p))%nat as Hkh by (by apply lookup_lt_Some in Hk).
  set (ota := set_content oh (Some [])). set (p2 := set_header p k ota).
  assert (pr_heap p2 !! k = Some ota) as H2 by (unfold p2; cbn; by rewrite list_lookup_insert_eq).
  assert (forall i, i <> k -> pr_heap p2 !! i = pr_heap p !! i) as H2' by (intros i Hi; unfold p2; cbn; by rewrite list_lookup_insert_ne by congruence).
  assert (ensureContent sha1 inflate stored seeker false p k = applyPatchBaseHeader sha1 inflate stored seeker p2 k delta []) as ->.
  { unfold ensureContent. unfold header at 1. rewrite Hk. cbn [res_bind]. rewrite Hcont, Hz. change (IsZero ZeroHash) with true. cbn [negb]. rewrite andb_false_r. unfold lowMemoryMode. cbn [andb negb].
    destruct delta as [|x l]; [done|]. rewrite len_cons. pose proof (len_nonneg l). destruct (Z.gtb_spec (1 + len l) 0); [done|lia]. }
  unfold applyPatchBaseHeader. unfold header at 1. rewrite H2. cbn [res_bind]. change (oh_parent ota) with (oh_parent oh). rewrite Hpar.
  assert (known p2 j t cb) as Hj2 by (apply (known_ext p); [by apply H2'|done|done]).
  destruct (parentReader_known p2 j t cb Hfile Hst Hj2 Hcb) as (p3 & E3 & Hf3 & Hst3 & Hk3 & Hsame3 & Hby3 & Hobs3 & Hck3 & Hon3). rewrite E3. cbn [res_bind].
  pose proof Hk3 as (ohj & Hj3 & Htj & _). unfold header at 1. rewrite Hj3. cbn [res_bind]. unfold header at 1. rewrite (Hsame3 k Hkj), H2. cbn [res_bind].
  change (oh_Hash ota) with (oh_Hash oh). rewrite Hz, bool_decide_eq_true_2 by done. rewrite Htj, Hpdw, idOf_hashBytes, i64_small by (pose proof (len_nonneg c); lia).
  assert (k < length (pr_heap p3))%nat as Hkh3 by (apply lookup_lt_is_Some; rewrite (Hsame3 k Hkj), H2; done).
  eexists. split; [done|]. cbn [set_header with_heap pr_scanner pr_heap pr_oiByOffset pr_observers pr_checksum]. split_and!; try done.
  - apply (known_ext p3); [cbn; by rewrite list_lookup_insert_ne by congruence|done|done].
  - by rewrite list_lookup_insert_eq.
  - intros i Hij Hik. rewrite list_lookup_insert_ne by congruence. rewrite (Hsame3 i Hij). by apply H2'.
Qed.

Lemma processDelta_rebuilt p k e : rebuilt p k -> es !! k = Some e -> is_full k = false ->
  exists p', Process p k = Ok (p', None) /\ rebuilt p' (S k) /\ pr_observers p' = foldl note (pr_observers p) (deltaEvents k) /\
    pr_checksum p' = pr_checksum p /\ sc_objects (pr_scanner p') = sc_objects (pr_scanner p).
Proof.
  intros [Hfile Hst Hknown Hrest] He Hfull. destruct (entry_at k e He) as (b & Hb & Epk & [[Hsz Hfit] Hofs'] & _).
  destruct (Hstands k e He) as (t & c & Hrs & Hs). unfold stands_for in Hs. unfold is_full in Hfull. rewrite He in Hfull.
  destruct (pe_Base e) as [|rel|h] eqn:Ebase; [unfold IsDelta, REFDeltaObject, OFSDeltaObject in Hfull; lia|clear Hofs'|done].
  destruct Hfit as [Ht Hrel]. destruct Hs as (j & cb & Hjk & Hoff & Hrsj & Hcb & Hce & Hlc & Hpdw).
  assert (k < length es)%nat as Hkl by (by apply lookup_lt_Some in He).
  pose proof (Hknown j t cb Hrsj ltac:(lia) ltac:(right; lia)) as Hkj. pose proof Hkj as (_ & _ & _ & _ & Hbyoff & _).
  pose proof (Hrest k ltac:(lia) ltac:(unfold is_full; by rewrite He)) as Hk. rewrite (scannedHere_lookup k e b He Hb) in Hk.
  unfold processDelta. unfold header at 1. rewrite Hk. cbn [res_bind]. set (ohk := scannedOne e b (off k)) in *.
  assert (oh_Type ohk = OFSDeltaObject) as Et by exact Ht. rewrite Et. change (OFSDeltaObject =? OFSDeltaObject) with true. cbn iota.
  assert (oh_OffsetReference ohk = off j) as -> by (unfold ohk, scanned; cbn [oh_OffsetReference]; rewrite Ebase; lia). rewrite Hbyoff. cbn [res_bind].
  set (p1 := set_header p k (set_parent ohk j)).
  assert (pr_heap p1 !! k = Some (set_parent ohk j)) as H1 by (unfold p1; cbn; rewrite list_lookup_insert_eq; [done|by apply lookup_lt_Some in Hk]).
  assert (forall i, i <> k -> pr_heap p1 !! i = pr_heap p !! i) as H1' by (intros i Hi; unfold p1; cbn; by rewrite list_lookup_insert_ne by congruence).
  destruct (ensureContent_known p1 k j (set_parent ohk j) t cb c (pe_Content e)) as (p4 & -> & Hf4 & Hst4 & Hj4 & Hk4 & Hsame4 & Hby4 & Hobs4 & Hck4 & Hon4); try done; [lia|..].
  { unfold ohk, scanned. cbn. by rewrite Ht. } { unfold ohk, scanned. cbn. by rewrite Ht. } { apply (known_ext p); [apply H1'; lia|done|done]. }
  cbn [res_bind]. rewrite (Store_cached p4 k _ Hst4 Hk4). set (ohf := set_resolved _ _ _ _) in *. eexists. split; [done|]. split; [|split_and!].
  - constructor; [exact Hf4|exact Hst4| |].
    + intros i ti ci Hri Hil Hcase. destruct (decide (i = k)) as [->|Hik].
      * rewrite Hrs in Hri. injection Hri as <- <-. exists ohf. split_and!; [exact Hk4|done|done| |by left]. cbn. by rewrite lookup_insert_eq.
      * assert (known p4 i ti ci) as Hk4i.
        { destruct (decide (i = j)) as [->|Hij]; [rewrite Hrsj in Hri; injection Hri as <- <-; exact Hj4|].
          apply (known_ext p); [by rewrite Hsame4, H1'|by rewrite Hby4|]. apply Hknown; [done|done|]. destruct Hcase; [by left|right; lia]. }
        apply (known_ext p4); [done| |done]. cbn. rewrite lookup_insert_ne; [done|]. intros E. apply Hik. symmetry. apply off_inj; [done|done|exact E].
    + intros i Hi Hfi. cbn. rewrite Hsame4, H1' by lia. apply Hrest; [lia|done].
  - unfold cached. cbn [with_observers pr_observers]. rewrite Hobs4. unfold deltaEvents. by rewrite Hrs, Hb.
  - exact Hck4.
  - exact Hon4.
Qed.

Lemma full_scanned k e b : es !! k = Some e -> full (scannedOne e b (off k)) = is_full k.
Proof. intros He. unfold full, is_full. by rewrite He. Qed.

Lemma rebuilt_skip p k : rebuilt p k -> is_full k = true -> rebuilt p (S k).
Proof.
  intros [Hf Hs Hk Hr] Hfull. constructor; [done|done| |].
  - intros i t c Hi Hl [H|H]; [by apply Hk; [| |left]|]. destruct (decide (i = k)) as [->|]; [by apply Hk; [| |left]|]. apply Hk; [done|done|right; lia].
  - intros i Hi. apply Hr. lia.
Qed.

Lemma ProcessAll_rebuilt m : forall k p, (k + m = length es)%nat -> rebuilt p k -> exists p',
  ProcessAll p (deltas_from k (drop k scannedHere)) = Ok (p', None) /\ rebuilt p' (length es) /\
  pr_observers p' = foldl note (pr_observers p) (flat_map deltaEvents (deltas_from k (drop k scannedHere))) /\
  pr_checksum p' = pr_checksum p /\ sc_objects (pr_scanner p') = sc_objects (pr_scanner p).
Proof.
  induction m as [|m IH]; intros k p Hk Hr.
  - rewrite drop_ge by (rewrite scannedHere_length; lia). exists p. assert (k = length es) as <- by lia. by split_and!.
  - destruct (lookup_lt_is_Some_2 es k) as [e He]; [lia|]. destruct (entry_at k e He) as (b & Hb & _).
    rewrite (drop_S _ _ _ (scannedHere_lookup k e b He Hb)). cbn [deltas_from]. rewrite (full_scanned k e b He).
    destruct (is_full k) eqn:Ef.
    + destruct (IH (S k) p ltac:(lia) (rebuilt_skip p k Hr Ef)) as (p' & ? & ? & ? & ? & ?). exists p'. by split_and!.
    + destruct (processDelta_rebuilt p k e Hr He Ef) as (p1 & E1 & Hr1 & Ho1 & Hc1 & Hn1). cbn [processDeltas]. rewrite E1. cbn [res_bind].
      destruct (IH (S k) p1 ltac:(lia) Hr1) as (p' & E' & Hr' & Ho' & Hc' & Hn'). exists p'. split; [done|]. split; [done|].
      cbn [flat_map]. rewrite foldl_app, Ho', Ho1. split_and!; [done|congruence|congruence].
Qed.

(** The parser after the scan: every whole object is known. *)
Lemma rebuilt_start p s : pr_heap p = [] -> sc_file s = packFile sha1 bss -> sc_storage s = None -> rebuilt (with_scanner (take_headers p scannedHere) s) 0.
Proof.
  intros Hp Hf Hs. destruct (take_headers_spec scannedHere p) as (Hh & _ & _ & _ & _ & Hby). cbn zeta in *. rewrite Hp in Hh, Hby. constructor; [done|done| |].
  - intros i t c Hi Hl [Hfull|Hlt]; [|lia]. destruct (lookup_lt_is_Some_2 es i Hl) as [e He]. destruct (entry_at i e He) as (b & Hb & _ & [[Hlen Hfit] _] & _).
    pose proof (scannedHere_lookup i e b He Hb) as Hsc. exists (scannedOne e b (off i)). cbn [with_scanner pr_heap pr_oiByOffset]. rewrite Hh. cbn [app].
    destruct (Hstands i e He) as (t' & c' & Hi' & Hs'). rewrite Hi in Hi'. injection Hi' as <- <-. unfold is_full in Hfull. rewrite He in Hfull. apply negb_true_iff in Hfull.
    unfold stands_for in Hs'. destruct (pe_Base e); [|destruct Hfit as [Et _]; rewrite Et in Hfull; discriminate Hfull..]. destruct Hs' as [-> ->].
    split_and!; [done|done|done| |].
    + rewrite <- (Nat.add_0_l i) at 2. apply (Hby offsets_nodup i (scannedOne e b (off i))); [done|]. unfold full. cbn. by rewrite Hfull.
    + unfold scanned. cbn [oh_content oh_ContentOffset]. rewrite Hfull. cbn [negb andb orb]. destruct (content_in_file i e b He Hb) as [Hpos Hinf].
      destruct seeker; [right|by left]. destruct Hlen. by split_and!.
  - intros i _ _. cbn. by rewrite Hh.
Qed.

(** The events of a pack: the header, the whole objects, the rebuilt deltas, the footer. *)
Definition packEvents : list ObserverEvent :=
  EvHeader (len es) :: flat_map headerEvents (List.filter full scannedHere) ++ flat_map deltaEvents (deltas_from 0 scannedHere) ++ [EvFooter (packSum sha1 (packOf bss))].

Lemma Parse_pack obs : es <> [] -> len es < 2 ^ 32 ->
  exists p', ParsePack (length es + 3) (NewParser (packFile sha1 bss) None obs) = Ok (p', inr (packSum sha1 (packOf bss))) /\
    pr_observers p' = foldl note obs packEvents.
Proof.
  intros Hne Hlen. pose proof (Forall2_length _ _ _ Hpacked) as El. assert (len bss = len es) as El' by (unfold len; lia).
  assert (0 < len es) by (destruct es; [done|rewrite len_cons; pose proof (len_nonneg l); lia]).
  unfold Parse. replace (length es + 3)%nat with (S (length es + 2)) by lia. cbn [parseSections]. change SHA1Size with 20.
  cbn [NewParser pr_scanner].
  destruct (Scan_header sha1 None crc32 inflate raw seeker (lowMemoryMode seeker false) None (len es) (concat bss ++ WriteTo (packSum sha1 (packOf bss)))) as (s & E & Hat & Ho & Hi & He & Hn & Hp & Hst); [lia|].
  assert (packFile sha1 bss = pack_head (len es) ++ concat bss ++ WriteTo (packSum sha1 (packOf bss))) as Efile by (unfold packFile, packOf; by rewrite El', <- app_assoc).
  rewrite Efile, E, Hp. cbn [parseSection notify res_bind hd_ObjectsQty].
  set (p0 := with_observers _ _). assert (packOf bss = pack_head (len es) ++ concat bss) as Eof by (unfold packOf; by rewrite El').
  destruct (Sections_entries es bss Hpacked Hofs (length es + 2) p0 (pack_head (len es)) []) as (s' & Es & Hos & Hss & Hfs); try done; [by rewrite <- Eof|cbn; lia|lia|].
  cbn zeta in Es. rewrite Es. cbn [res_bind]. rewrite <- Eof.
  assert (len (pack_head (len es)) = 12) as ->. { unfold pack_head. rewrite !len_app, !be_encode_len. done. }
  set (p1 := with_scanner _ s'). assert (sc_objects (pr_scanner p1) = len es) as Hn1. { unfold p1. cbn. by rewrite Hos. }
  rewrite Hn1. destruct (Z.eqb_spec (len es) 0); [lia|]. cbn [processDeltas res_bind].
  assert (rebuilt p1 0) as Hr. { change p1 with (with_checksum (with_scanner (take_headers p0 scannedHere) s') (packSum sha1 (packOf bss))).
    destruct (rebuilt_start p0 s' eq_refl) as [Ra Rb Rc Rd]; [rewrite Hfs; cbn; by destruct Hat as [-> _]|done|]. by constructor. }
  rewrite take_all_ofs_spec. cbn [p0 app]. destruct (ProcessAll_rebuilt (length es) 0 p1 ltac:(lia) Hr) as (p2 & E2 & _ & Ho2 & Hc2 & _).
  rewrite drop_0 in E2, Ho2. change (length (pr_heap p0)) with 0%nat. rewrite E2. cbn [res_bind notify]. rewrite Hc2.
  cbn [with_observers pr_checksum]. rewrite Hc2. eexists. split; [done|]. cbn [pr_observers]. rewrite Ho2. unfold p1. cbn [with_scanner with_checksum pr_observers].
  destruct (take_headers_spec scannedHere p0) as (_ & Ho1 & _). rewrite Ho1. unfold packEvents. cbn [foldl]. rewrite !foldl_app. done.
Qed.
End Parsing.

(** ** From objects to a pack and back *)
Lemma offsets_at_lookup off' order : forall bss start k i, offsets_at off' order bss start -> order !! k = Some i -> off' i = start + len (concat (take k bss)).
Proof.
  induction order as [|j order IH]; intros [|b bss] start [|k] i H Hk; cbn [offsets_at] in H; try done; destruct H as [E H].
  - injection Hk as ->. cbn. unfold len. cbn. lia.
  - rewrite (IH bss _ k i H Hk). cbn [take concat]. rewrite len_app. lia.
Qed.

(** The events of the whole objects and of the deltas, in the order of the pack. *)
Lemma events_by_position (hev : ObjectHeader -> list ObserverEvent) (dev ev : nat -> list ObserverEvent) ohs : forall n,
  (forall k oh, ohs !! k = Some oh -> ev (n + k)%nat = if full oh then hev oh else dev (n + k)%nat) ->
  flat_map hev (List.filter full ohs) ++ flat_map dev (deltas_from n ohs)
  ≡ₚ flat_map ev (seq n (length ohs)).
Proof.
  induction ohs as [|oh ohs IH]; intros n H; [done|]. cbn [List.filter length seq flat_map deltas_from].
  assert (forall k oh', ohs !! k = Some oh' -> ev (S n + k)%nat = if full oh' then hev oh' else dev (S n + k)%nat) as H'.
  { intros k oh' Hk. rewrite (Nat.add_succ_comm n k). by apply (H (S k)). }
  specialize (IH (S n) H'). specialize (H 0%nat oh eq_refl). rewrite Nat.add_0_r in H. rewrite H. destruct (full oh); cbn [flat_map].
  - rewrite <- app_assoc. by apply Permutation_app_head.
  - rewrite app_assoc, (Permutation_app_comm _ (dev n)), <- app_assoc. by apply Permutation_app_head.
Qed.

Section PackAndParse.
Variable sha1 : bytes -> bytes.
Variable crc32 : bytes -> Z.
Variable deflate : bytes -> bytes.
Variable inflate : bytes -> option (bytes * (error + bytes)).
Variable encodedObject : ObjectID -> error + PObj.
Variable seeker : bool.
Variable st0 : objects.
Variable objs : list nat.

(** The objects that are packed: the type and the content. *)
Variable orig : nat -> ObjectType * bytes.

(** An object that is no delta is itself, a delta makes its object of that of its base. *)
Definition original_ok (i : nat) : Prop :=
  exists o obj, st0 !! i = Some o /\ otp_Object o = Some obj /\ len (orig i).2 < 2 ^ 63 /\
  match otp_Base o with
  | None => otp_Type 1 [] o = Ok (orig i).1 /\ otp_Size o = Ok (len (orig i).2) /\ po_Content obj = (orig i).2
  | Some b => (orig b).1 = (orig i).1 /\ (orig b).2 <> [] /\ po_Content obj <> [] /\
      patchDeltaWriter (hashBytes sha1) [] (orig b).2 true true (po_Content obj) (orig i).1 None =
      Ok (len (orig i).2, hashBytes sha1 (orig i).1 (len (orig i).2) (orig i).2, (orig i).2)
  end.

(** The events for the object [i] found at [pos]. *)
Definition eventsFor (pos crc : nat -> Z) (i : nat) : list ObserverEvent :=
  let '(t, c) := orig i in objectEvents t (len c) (pos i) (Hasher_Sum sha1 t (len c) c) (crc i).

Variable K : Z.
Hypothesis Hok : forall i, i ∈ objs -> original_ok i.

Lemma entryFor_stands st' out order bss k i : written deflate false st0 objs K st' out order bss -> order !! k = Some i ->
  stands_for sha1 bss (map orig order) k (entryFor false st0 (offsetOf st') i) (orig i).1 (orig i).2.
Proof.
  intros W Hk. pose proof (list_elem_of_lookup_2 _ _ _ Hk) as Hi. assert (i ∈ objs) as Hio by (by apply (wr_order _ _ _ _ _ _ _ _ _ W)).
  destruct (Hok i Hio) as (o & obj & Ho & Eobj & Hszl & Hcase). unfold stands_for, entryFor. rewrite Ho, Eobj.
  destruct (otp_Base o) as [b|] eqn:Eb; cbn [pe_Base pe_Type pe_Content].
  - pose proof (wr_closed _ _ _ _ _ _ _ _ _ W i b Hi ltac:(unfold baseOf; by rewrite Ho)) as Hb. apply list_elem_of_lookup in Hb as [j Hj].
    pose proof (offsets_at_lookup _ _ _ _ k i (wr_offsets _ _ _ _ _ _ _ _ _ W) Hk) as Ei. pose proof (offsets_at_lookup _ _ _ _ j b (wr_offsets _ _ _ _ _ _ _ _ _ W) Hj) as Ej.
    destruct Hcase as (Etb & Hcb & Hobj & Hpdw). exists j, (orig b).2. unfold off. rewrite <- Ei, <- Ej. split_and!; try done; [|lia|rewrite list_lookup_fmap, Hj, <- Etb; cbn; by destruct (orig b)].
    pose proof (wr_entries _ _ _ _ _ _ _ _ _ W) as He. destruct (Forall2_lookup_l _ _ _ _ _ He Hk) as (bb & _ & _ & Hfit). unfold entryFor in Hfit. rewrite Ho, Eb in Hfit. destruct Hfit as [_ [_ Hrel]].
    cbn [pe_Base] in Hrel. destruct (Nat.lt_ge_cases j k) as [|Hge]; [done|]. assert (len (concat (take k bss)) <= len (concat (take j bss))) as Hle; [|lia].
    rewrite <- (take_drop k (take j bss)), take_take, Nat.min_l by lia. rewrite concat_app, len_app. pose proof (len_nonneg (concat (drop k (take j bss)))). lia.
  - destruct Hcase as (Et & _ & ->). split; [|done]. by rewrite Et.
Qed.

(** The checksum of the entry of an object. *)
Definition crcOf (order : list nat) (bss : list bytes) (i : nat) : Z :=
  match list_find (fun j => j = i) order with Some (k, _) => crc32 (default [] (bss !! k)) | None => 0 end.

Lemma crcOf_at order bss k i b : NoDup order -> order !! k = Some i -> bss !! k = Some b -> crcOf order bss i = crc32 b.
Proof.
  intros Hn Hk Hb. unfold crcOf. assert (list_find (fun j => j = i) order = Some (k, i)) as ->; [|by rewrite Hb].
  apply list_find_Some. split_and!; [done|done|]. intros j y Hj Hlt ->. assert (j = k) by (by eapply NoDup_lookup). lia.
Qed.

(** What the observers are told of an entry is what they are told of its object. *)
Lemma entry_events st' out order bss k i oh : written deflate false st0 objs K st' out order bss -> order !! k = Some i ->
  scannedAll sha1 None crc32 deflate seeker false (map (entryFor false st0 (offsetOf st')) order) bss 12 !! k = Some oh ->
  eventsFor (offsetOf st') (crcOf order bss) i = if full oh then headerEvents oh else deltaEvents sha1 crc32 bss (map orig order) k.
Proof.
  intros W Hk Hoh. pose proof (list_elem_of_lookup_2 _ _ _ Hk) as Hi. destruct (wr_order _ _ _ _ _ _ _ _ _ W) as [Hnd Hin].
  pose proof (wr_entries _ _ _ _ _ _ _ _ _ W) as He. destruct (Forall2_lookup_l _ _ _ _ _ He Hk) as (b & Hb & _ & Hfit).
  assert (Forall2 (fun e b => packEntry deflate e = Ok b) (map (entryFor false st0 (offsetOf st')) order) bss) as Hpacked by (apply Forall2_fmap_l; eapply Forall2_impl; [exact He|]; by intros ? ? [? _]).
  destruct (scannedAll_lookup sha1 crc32 deflate seeker _ _ _ _ _ Hpacked Hoh) as (e & b' & Hke & Hb' & ->). rewrite Hb in Hb'. injection Hb' as <-.
  rewrite list_lookup_fmap, Hk in Hke. injection Hke as <-. rewrite <- (offsets_at_lookup _ _ _ _ k i (wr_offsets _ _ _ _ _ _ _ _ _ W) Hk).
  unfold eventsFor, deltaEvents. rewrite list_lookup_fmap, Hk, Hb. cbn [fmap option_fmap option_map]. rewrite (crcOf_at order bss k i b Hnd Hk Hb).
  assert (off bss k = offsetOf st' i) as ->. { unfold off. by rewrite (offsets_at_lookup _ _ _ _ k i (wr_offsets _ _ _ _ _ _ _ _ _ W) Hk). }
  destruct (Hok i (Hin i Hi)) as (o & obj & Ho & Eobj & _ & Hcase). destruct (orig i) as [t c]. cbn [fst snd] in *.
  unfold full, headerEvents, scanned, entryFor in *. rewrite Ho, Eobj in *. destruct (otp_Base o) as [bb|]; [done|]. destruct Hcase as (Et & Es & Ec).
  rewrite Et, Es in *. cbn [resOr pe_Type pe_Size pe_Content pe_Base oh_Type oh_Size oh_Offset oh_Hash oh_Crc32] in *. destruct Hfit as [_ Ht]. cbn in Ht.
  assert (IsDelta t = false) as -> by (unfold IsDelta, REFDeltaObject, OFSDeltaObject; lia). cbn [negb]. by rewrite Ec.
Qed.

Lemma flat_map_seq {A} (f : nat -> list A) (g : nat -> list A) order : (forall k i, order !! k = Some i -> f k = g i) -> flat_map f (seq 0 (length order)) = flat_map g order.
Proof.
  intros H. rewrite !flat_map_concat_map. f_equal. apply list_eq. intros k. rewrite !list_lookup_fmap. destruct (order !! k) as [i|] eqn:E.
  - rewrite lookup_seq_lt by (by apply lookup_lt_Some in E). cbn. by rewrite (H k i E).
  - rewrite lookup_seq_ge; [done|]. by apply lookup_ge_None in E.
Qed.
End PackAndParse.

(** The storage gives back the objects that are packed as deltas. *)
Definition original_restored (encodedObject : ObjectID -> error + PObj) (st0 : objects) (orig : nat -> ObjectType * bytes) (i : nat) : Prop :=
  forall o o' obj, st0 !! i = Some o -> otp_IsDelta o = true -> restoreOriginal encodedObject o = Ok (o', None) -> otp_Original o' = Some obj ->
    po_Type obj = (orig i).1 /\ po_Content obj = (orig i).2 /\ po_Size obj = len (orig i).2.

Lemma broken_original sha1 deflate encodedObject st0 K orig B i : original_ok sha1 st0 orig i -> original_restored encodedObject st0 orig i ->
  (forall j, j ∈ B -> restorable deflate encodedObject st0 K j) -> original_ok sha1 (broken encodedObject st0 B) orig i.
Proof.
  intros (o & obj & Ho & Eobj & Hsz & Hcase) Hres HB. destruct (decide (i ∈ B)) as [Hin|Hn].
  - destruct (HB i Hin) as (o1 & b & o' & obj' & Ho1 & Eb & Er & Eo & _). rewrite Ho in Ho1. injection Ho1 as <-.
    destruct (Hres o o' obj' Ho ltac:(unfold otp_IsDelta; by rewrite Eb) Er Eo) as (Et & Ec & Es). destruct (restore_fields _ _ _ _ Er) as [Eb' _].
    exists (whole encodedObject o), obj'. split; [by apply broken_in|]. unfold whole. rewrite Er. unfold BackToOriginal. rewrite Eb', Eb, Eo.
    split; [done|]. split; [done|]. cbn. by rewrite Et, Es.
  - exists o, obj. by rewrite broken_out.
Qed.

Lemma pack_parse (sha1 : bytes -> bytes) (crc32 : bytes -> Z) (deflate : bytes -> bytes) (inflate : bytes -> option (bytes * (error + bytes)))
    (encodedObject : ObjectID -> error + PObj) (seeker : bool) (st0 : objects) (objs : list nat) (orig : nat -> ObjectType * bytes) (rank : nat -> nat) (K : Z) (fuel : nat)
    (Hinf : forall c r, inflate (deflate c ++ r) = Some (c, inr r)) (Hsha : forall b, len (sha1 b) = 20)
    (Hen : encodable deflate encodedObject false st0 objs K rank)
    (Hok : forall i, i ∈ objs -> original_ok sha1 st0 orig i /\ original_restored encodedObject st0 orig i)
    (Hne : objs <> []) (Hn : len objs < 2 ^ 32) (Hf : (length objs < fuel)%nat) :
  exists B st' order bss p' evs, pack_encode sha1 deflate encodedObject false fuel st0 objs = Ok (packFile sha1 bss, packSum sha1 (packOf bss), st') /\
    order ≡ₚ objs /\ written deflate false (broken encodedObject st0 B) objs K st' (packOf bss) order bss /\ (forall j, j ∈ B -> restorable deflate encodedObject st0 K j) /\ (forall i, i ∈ objs -> original_ok sha1 (broken encodedObject st0 B) orig i) /\
    Parse sha1 crc32 inflate (fun (st : Empty_set) t sz c => inr st) (fun st t id => inl ErrObjectNotFound) (fun log ev => (log ++ [ev], None)) seeker false
      (length objs + 3) (NewParser (packFile sha1 bss) None []) = Ok (p', inr (packSum sha1 (packOf bss))) /\
    pr_observers p' = EvHeader (len objs) :: evs ++ [EvFooter (packSum sha1 (packOf bss))] /\ evs ≡ₚ flat_map (eventsFor sha1 orig (offsetOf st') (crcOf crc32 order bss)) objs.
Proof.
  destruct (encode_spec deflate encodedObject false st0 objs K rank Hen sha1 fuel Hf) as (B & st' & order & bss & E & Hperm & W & HB).
  assert (forall i, i ∈ objs -> original_ok sha1 (broken encodedObject st0 B) orig i) as HokB by (intros i Hi; destruct (Hok i Hi); by eapply broken_original).
  pose proof (wr_entries _ _ _ _ _ _ _ _ _ W) as He. set (es := map (entryFor false (broken encodedObject st0 B) (offsetOf st')) order).
  assert (Forall2 (fun e b => packEntry deflate e = Ok b) es bss) as Hes by (apply Forall2_fmap_l; eapply Forall2_impl; [exact He|]; by intros i b [? _]).
  assert (Forall ofs_entry es) as Hfit.
  { apply Forall_map. clear -He. induction He as [|i b l k [_ F] _ IH]; constructor; [|done]. split; [done|]. unfold entryFor. destruct (broken _ _ _ !! i) as [o|]; [|done]. by destruct (otp_Base o). }
  assert (length es = length order) as El by (unfold es; by rewrite length_map). assert (length order = length objs) as El' by (by rewrite Hperm).
  destruct (Parse_pack sha1 crc32 deflate inflate (fun log ev => log ++ [ev]) seeker Hinf Hsha es bss (map orig order) Hes Hfit) with (obs := @nil ObserverEvent) as (p' & Ep & Hobs).
  { intros k e Hk. unfold es in Hk. rewrite list_lookup_fmap in Hk. destruct (order !! k) as [i|] eqn:Ei; [|done]. injection Hk as <-.
    exists (orig i).1, (orig i).2. split; [rewrite list_lookup_fmap, Ei; cbn; by destruct (orig i)|]. by eapply entryFor_stands. }
  { intros Hnil. rewrite Hnil in El. destruct objs; [done|]. cbn in *. lia. } { unfold len in *. by rewrite El, El'. }
  rewrite El, El' in Ep. eexists B, st', order, bss, p', _. split; [exact E|]. split; [done|]. split; [done|]. split; [done|]. split; [done|]. split; [exact Ep|].
  assert (forall l (log : list ObserverEvent), foldl (fun log ev => log ++ [ev]) log l = log ++ l) as Hlog.
  { induction l as [|x l IHl]; intros log; cbn [foldl]; [by rewrite app_nil_r|]. by rewrite IHl, <- app_assoc. }
  rewrite Hobs, Hlog. unfold packEvents. cbn [app]. assert (len es = len objs) as -> by (unfold len; lia). split; [by rewrite app_assoc|].
  rewrite <- Hperm. rewrite <- (flat_map_seq (fun k => match order !! k with Some i => eventsFor sha1 orig (offsetOf st') (crcOf crc32 order bss) i | None => [] end) (eventsFor sha1 orig (offsetOf st') (crcOf crc32 order bss)) order) by (by intros k i ->).
  rewrite <- El, <- (scannedHere_length sha1 crc32 deflate seeker es bss Hes). apply events_by_position. intros k oh Hk. cbn [Nat.add].
  destruct (order !! k) as [i|] eqn:Ei; [by eapply entry_events|]. apply lookup_lt_Some in Hk. rewrite (scannedHere_length sha1 crc32 deflate seeker es bss Hes), El in Hk. apply lookup_ge_None in Ei. lia.
Qed.

(** Where the entry of an object ends: at the next entry, or before the checksum of the pack. *)
Definition nextOffset (pos : nat -> Z) (objs : list nat) (last : Z) (i : nat) : Z :=
  foldr (fun j m => if pos i <? pos j then Z.min (pos j) m else m) last objs.
Definition entryCrc (crc32 : bytes -> Z) (pos : nat -> Z) (objs : list nat) (pack : bytes) (i : nat) : Z :=
  crc32 (seg pack (pos i) (nextOffset pos objs (len pack - 20) i)).

Lemma nextOffset_spec pos objs last i n : (n = last \/ exists j, j ∈ objs /\ pos i < pos j /\ n = pos j) -> n <= last ->
  (forall j, j ∈ objs -> pos i < pos j -> n <= pos j) -> nextOffset pos objs last i = n.
Proof.
  unfold nextOffset. intros Hn Hl Hm. assert (n <= foldr (fun j m => if pos i <? pos j then Z.min (pos j) m else m) last objs) as Hge.
  { clear Hn. induction objs as [|j objs IH]; cbn [foldr]; [done|]. specialize (IH (fun j Hj => Hm j (list_elem_of_further _ _ _ Hj))).
    destruct (Z.ltb_spec (pos i) (pos j)) as [Hlt|]; [|done]. pose proof (Hm j ltac:(by left) Hlt). lia. }
  assert (forall l, foldr (fun j m => if pos i <? pos j then Z.min (pos j) m else m) last l <= last) as Hle.
  { induction l as [|j l IH]; cbn [foldr]; [done|]. destruct (_ <? _); lia. }
  destruct Hn as [->|(j & Hj & Hlt & ->)]; [specialize (Hle objs); lia|]. clear Hm.
  assert (foldr (fun j m => if pos i <? pos j then Z.min (pos j) m else m) last objs <= pos j); [|lia]. clear Hge. induction objs as [|k objs IH]; [by apply not_elem_of_nil in Hj|].
  cbn [foldr]. apply elem_of_cons in Hj as [<-|Hj]; [rewrite (proj2 (Z.ltb_lt _ _) Hlt); lia|]. specialize (IH Hj). destruct (_ <? _); lia.
Qed.

(** The checksum of an entry is that of its bytes in the pack. *)
Lemma crcOf_entry (sha1 : bytes -> bytes) (crc32 : bytes -> Z) (deflate : bytes -> bytes) st0 objs K st' order bss i : (forall b, len (sha1 b) = 20) ->
  written deflate false st0 objs K st' (packOf bss) order bss -> order ≡ₚ objs -> i ∈ objs ->
  crcOf crc32 order bss i = entryCrc crc32 (offsetOf st') objs (packFile sha1 bss) i.
Proof.
  intros Hsha W Hperm Hi. rewrite <- Hperm in Hi. apply list_elem_of_lookup in Hi as [k Hk]. pose proof (wr_entries _ _ _ _ _ _ _ _ _ W) as He.
  assert (Forall2 (fun e b => packEntry deflate e = Ok b) (map (entryFor false st0 (offsetOf st')) order) bss) as Hes by (apply Forall2_fmap_l; eapply Forall2_impl; [exact He|]; by intros ? ? [? _]).
  destruct (Forall2_lookup_l _ _ _ _ _ He Hk) as (b & Hb & _). destruct (wr_order _ _ _ _ _ _ _ _ _ W) as [Hnd _]. rewrite (crcOf_at crc32 order bss k i b Hnd Hk Hb).
  assert (forall a j, order !! a = Some j -> offsetOf st' j = off bss a) as Hoff.
  { intros a j Ha. unfold off. by rewrite (offsets_at_lookup _ _ _ _ a j (wr_offsets _ _ _ _ _ _ _ _ _ W) Ha). }
  assert (forall b, b ∈ bss -> 0 < len b) as Hpos.
  { intros b' Hb'. apply list_elem_of_lookup in Hb' as [a Ha]. destruct (Forall2_lookup_r _ _ _ _ _ He Ha) as (j & _ & E & F). by eapply packEntry_nonempty. }
  assert (forall a c, (a < c <= length bss)%nat -> off bss a < off bss c) as Hlt.
  { intros a c Hac. induction c as [|c IH]; [lia|]. destruct (lookup_lt_is_Some_2 bss c) as [bc Hc]; [lia|]. rewrite (off_step bss c bc Hc).
    pose proof (Hpos bc (list_elem_of_lookup_2 _ _ _ Hc)). destruct (decide (a = c)) as [->|]; [lia|]. specialize (IH ltac:(lia)). lia. }
  pose proof (Forall2_length _ _ _ He) as Elen. pose proof (lookup_lt_Some _ _ _ Hb) as Hkb.
  assert (len (pack_head (len bss)) = 12) as Eh by (unfold pack_head; rewrite !len_app, !be_encode_len; reflexivity).
  assert (len (packFile sha1 bss) - 20 = off bss (length bss)) as Elast.
  { unfold packFile, packOf, off, WriteTo. destruct (packSum_bytes sha1 Hsha (pack_head (len bss) ++ concat bss)) as [-> _]. rewrite !len_app, firstn_all, Eh, Hsha. lia. }
  unfold entryCrc. f_equal. rewrite Elast, (nextOffset_spec (offsetOf st') objs (off bss (length bss)) i (off bss (S k))).
  - rewrite (Hoff _ _ Hk). pose proof (slice_app_m (pack_head (len bss) ++ concat (take k bss)) b (concat (drop (S k) bss) ++ WriteTo (packSum sha1 (packOf bss))) (off bss k) (off bss (S k))) as Es.
    assert (packFile sha1 bss = (pack_head (len bss) ++ concat (take k bss)) ++ b ++ concat (drop (S k) bss) ++ WriteTo (packSum sha1 (packOf bss))) as ->.
    { unfold packFile at 1. unfold packOf at 1. rewrite <- (take_drop_middle bss k b Hb) at 2. rewrite concat_app. cbn [concat]. by rewrite <- !app_assoc. }
    apply slice_inv in Es as (_ & _ & Es); [done|unfold off; rewrite len_app; lia|]. rewrite (off_step _ _ _ Hb). unfold off. rewrite !len_app. lia.
  - destruct (decide (S k = length bss)) as [->|Hne]; [by left|right]. destruct (lookup_lt_is_Some_2 order (S k)) as [j Hj]; [lia|]. exists j.
    rewrite (Hoff _ _ Hj), (Hoff _ _ Hk), <- Hperm. split; [by eapply list_elem_of_lookup_2|]. split; [apply Hlt; lia|done].
  - destruct (decide (S k = length bss)) as [->|Hne]; [done|]. apply Z.lt_le_incl, Hlt. lia.
  - intros j Hj. rewrite <- Hperm in Hj. apply list_elem_of_lookup in Hj as [a Ha]. rewrite (Hoff _ _ Ha), (Hoff _ _ Hk). intros Hak.
    pose proof (lookup_lt_Some _ _ _ Ha). destruct (decide (a <= k)%nat) as [Hle|].
    + destruct (decide (a = k)) as [->|]; [lia|]. pose proof (Hlt a k ltac:(lia)). lia.
    + destruct (decide (a = S k)) as [->|]; [done|]. apply Z.lt_le_incl, Hlt. lia.
Qed.

(** C3: the objects that are packed come back.  The encoder ends with a pack of objects, whole or deltas (by offset) on others
    of them, also where the deltas form cycles; parsing that pack gives the checksum the encoder gave and tells the observers the number of objects, and
    of each object once its type, size, position and identifier, those of the original where it was packed as a delta, with the
    CRC-32 of the bytes of its entry: those from its position to the next entry or to the checksum of the pack. *)
Theorem pack_parse_roundtrip (sha1 : bytes -> bytes) (crc32 : bytes -> Z) (deflate : bytes -> bytes) (inflate : bytes -> option (bytes * (error + bytes)))
    (encodedObject : ObjectID -> error + PObj) (seeker : bool) (st0 : objects) (objs : list nat) (orig : nat -> ObjectType * bytes) (rank : nat -> nat) (K : Z) (fuel : nat)
    (Hinf : forall c r, inflate (deflate c ++ r) = Some (c, inr r)) (Hsha : forall b, len (sha1 b) = 20)
    (Hen : encodable deflate encodedObject false st0 objs K rank)
    (Hok : forall i, i ∈ objs -> original_ok sha1 st0 orig i /\ original_restored encodedObject st0 orig i)
    (Hne : objs <> []) (Hn : len objs < 2 ^ 32) (Hf : (length objs < fuel)%nat) :
  exists pack h st' p' evs, pack_encode sha1 deflate encodedObject false fuel st0 objs = Ok (pack, h, st') /\
    Parse sha1 crc32 inflate (fun (st : Empty_set) t sz c => inr st) (fun st t id => inl ErrObjectNotFound) (fun log ev => (log ++ [ev], None)) seeker false
      (length objs + 3) (NewParser pack None []) = Ok (p', inr h) /\
    pr_observers p' = EvHeader (len objs) :: evs ++ [EvFooter h] /\
    evs ≡ₚ flat_map (eventsFor sha1 orig (offsetOf st') (entryCrc crc32 (offsetOf st') objs pack)) objs.
Proof.
  destruct (pack_parse sha1 crc32 deflate inflate encodedObject seeker st0 objs orig rank K fuel Hinf Hsha Hen Hok Hne Hn Hf) as (B & st' & order & bss & p' & evs & E & Hperm & W & _ & _ & Ep & Hobs & Hev).
  exists (packFile sha1 bss), (packSum sha1 (packOf bss)), st', p', evs. split_and!; [done..|]. rewrite Hev. match goal with |- ?a ≡ₚ ?b => assert (a = b) as ->; [|done] end. rewrite !flat_map_concat_map; f_equal; apply map_ext_in.
  intros i Hi. unfold eventsFor. erewrite crcOf_entry; [done|exact Hsha|done|done|by apply list_elem_of_In].
Qed.

Definition demoOrig (i : nat) : ObjectType * bytes := (BlobObject, match i with O => bs "hello, " | _ => bs "hello" end).

Lemma demo_originals i : i ∈ [0; 1; 2]%nat -> original_ok toySha1 demoObjects demoOrig i /\ original_restored demoStorage demoObjects demoOrig i.
Proof.
  intros Hi. apply (demo_in i); [done|..]; (split; [eexists _, _; (split; [reflexivity|]); (split; [reflexivity|]); by split_and!|]);
    intros o o' obj [= <-] _ Er Eo; vm_compute in Er; apply Ok_inj in Er as [= <-]; by apply Some_inj in Eo as <-.
Qed.

Notation demoParse := (Parse toySha1 len toyInflate (fun (st : Empty_set) t sz c => inr st) (fun st t id => inl ErrObjectNotFound) (fun log ev => (log ++ [ev], None)) false false).

Lemma pack_parse_roundtrip_witness :
  exists pack h st' p' evs, pack_encode toySha1 toyDeflate demoStorage false 4 demoObjects [0; 1; 2]%nat = Ok (pack, h, st') /\
    demoParse 6 (NewParser pack None []) = Ok (p', inr h) /\
    pr_observers p' = EvHeader 3 :: evs ++ [EvFooter h] /\
    evs ≡ₚ flat_map (eventsFor toySha1 demoOrig (offsetOf st') (entryCrc len (offsetOf st') [0; 1; 2]%nat pack)) [0; 1; 2]%nat.
Proof.
  apply (pack_parse_roundtrip toySha1 len toyDeflate toyInflate demoStorage false demoObjects [0; 1; 2]%nat demoOrig demoRank 100 4
           toy_inflate toy_sha1_len demo_encodable demo_originals); [done|done|cbn; lia].
Defined.

(** ** What goes unnoticed *)
Definition demoPack : bytes := match pack_encode toySha1 toyDeflate demoStorage false 4 demoObjects [0; 1; 2]%nat with Ok (pack, _, _) => pack | _ => [] end.
Definition told (r : res (Parser Empty_set (list ObserverEvent) * (error + ObjectID))) : option (list ObserverEvent * (error + ObjectID)) :=
  match r with Ok (p, e) => Some (pr_observers p, e) | _ => None end.

(** The pack cut after its first object, and the pack with another checksum: no error, and the zero identifier. *)
Example parse_truncated :
  exists blob, told (demoParse 6 (NewParser (take 30 demoPack) None [])) = Some ([EvHeader 3] ++ blob ++ [EvFooter ZeroHash], inr ZeroHash) /\ length blob = 2%nat.
Proof. eexists [_; _]. split; [vm_compute; reflexivity|reflexivity]. Qed.

Example parse_wrong_checksum :
  exists evs, told (demoParse 6 (NewParser (take (length demoPack - 1) demoPack ++ [x2b]) None [])) = Some (evs ++ [EvFooter ZeroHash], inr ZeroHash) /\ length evs = 7%nat.
Proof. eexists (_ :: _ :: _ :: _ :: _ :: _ :: [_]). split; [vm_compute; reflexivity|reflexivity]. Qed.

(** A delta that copies past the end of its base: an object with the zero identifier is reported. *)
Definition badDelta : PObj := mkPObj OFSDeltaObject 5 ZeroHash (map z2b [5; 7; 0x91; 9; 1]) None.
Definition badPack : bytes :=
  match pack_encode toySha1 toyDeflate (fun _ => inl ErrObjectNotFound) false 2
          [mkOTP (Some badDelta) (Some 1%nat) (Some demoNext) 1 0 false 0 0 ZeroHash; newObjectToPack demoBlob] [0; 1]%nat with
  | Ok (pack, _, _) => pack
  | _ => []
  end.
Example parse_bad_delta :
  exists evs crc h, told (demoParse 5 (NewParser badPack None [])) =
    Some (evs ++ [EvObjectHeader BlobObject 0 24; EvObjectContent ZeroHash 24 crc; EvFooter h], inr h).
Proof. eexists [_; _; _], _, _. vm_compute. reflexivity. Qed.
