(* ===== verification/PackSelector.v ===== *)
(** * plumbing/format/packfile/delta_selector.go: which objects are packed as deltas, and on which base

    The objects to pack are the store of PackEncoder.v and a list of them is a list of positions.  The storage, SHA-1
    and the order [sort.Sort] leaves are parameters.  The goroutines of [ObjectsToPack] each walk one group of objects
    and share none, so that they run one after the other, in an order that is a parameter. *)
From S2P Require Import Prelude ObjectID Memory DeltaIndex Delta PackEncoder.

Definition maxDepth : Z := 50.
Definition applyDelta (t : ObjectType) : bool := (t =? BlobObject) || (t =? TreeObject).

(** [byTypeAndSize]: an object with what [Less] looks at *)
Record SortKey := mkSortKey { sk_at : nat; sk_Type : ObjectType; sk_Size : Z }.
Definition byTypeAndSize_Less (a b : SortKey) : bool :=
  if sk_Type a <? sk_Type b then false else if sk_Type a >? sk_Type b then true else sk_Size a >? sk_Size b.

Definition deltaSizeLimit (targetSize baseDepth targetDepth : Z) (targetDelta : bool) : Z :=
  if negb targetDelta then
    let n := Z.shiftr targetSize 1 in
    Z.quot (i64 (n * (maxDepth - baseDepth))) maxDepth
  else
    let d := targetDepth in
    let n := targetSize in
    if d >=? maxDepth then 0 else Z.quot (i64 (n * (maxDepth - baseDepth))) (maxDepth - d).

Section Selector.
Variable sha1 : bytes -> bytes.
(** [storer.EncodedObject(plumbing.AnyObject, h)] *)
Variable encodedObject : ObjectID -> error + PObj.
(** [DeltaObject(plumbing.AnyObject, h)], when the storage is a [storer.DeltaObjectStorer] *)
Variable deltaObject : option (ObjectID -> error + PObj).
(** [sort.Sort] *)
Variable sort : (SortKey -> SortKey -> bool) -> list SortKey -> list SortKey.
(** The order in which the goroutines walk the groups. *)
Variable schedule : list (list nat) -> list (list nat).

Definition of_sum {A} (x : error + A) : res A := match x with inl err => Err err | inr a => Ok a end.

Definition encodedDeltaObject (h : ObjectID) : error + PObj :=
  match deltaObject with Some get => get h | None => encodedObject h end.

(** The loop of [objectsToPack] over the hashes. *)
Fixpoint newObjects (packWindow : Z) (hashes : list ObjectID) (objectsToPack : objects) : res objects :=
  match hashes with
  | [] => Ok objectsToPack
  | h :: hashes =>
    let* o := of_sum (if packWindow =? 0 then encodedObject h else encodedDeltaObject h) in
    let otp := newObjectToPack o in
    let otp := match po_delta o with Some _ => CleanOriginal otp | None => otp end in
    newObjects packWindow hashes (objectsToPack ++ [otp])
  end.

(** [restoreOriginal] of the object at [i], with its error *)
Definition restoreAt (st : objects) (i : nat) : res objects :=
  let* o := deref st i in
  let* (o, err) := restoreOriginal encodedObject o in
  match err with Some err => Err err | None => Ok (<[i := o]> st) end.

Definition undeltify (st : objects) (i : nat) : res objects :=
  let* st := restoreAt st i in
  let* o := deref st i in
  Ok (<[i := mkOTP (otp_Original o) (otp_Base o) (otp_Original o) 0 (otp_Offset o) (otp_resolvedOriginal o)
                   (otp_originalType o) (otp_originalSize o) (otp_originalHash o)]> st).

(** [fuel] bounds the chain of bases. *)
Fixpoint fixAndBreakChainsOne (fuel : nat) (m : gmap ObjectID nat) (st : objects) (i : nat) : res objects :=
  match fuel with
  | O => NoFuel
  | S fuel =>
    let* otp := deref st i in
    match otp_Object otp with
    | None => Panic
    | Some obj =>
      if negb (IsDelta (po_Type obj)) then Ok st
      else
        match otp_Base otp with
        | Some _ => Ok st
        | None =>
          match po_delta obj with
          | None => undeltify st i
          | Some d =>
            match m !! di_BaseHash d with
            | None => undeltify st i
            | Some base =>
              let* st := fixAndBreakChainsOne fuel m st base in
              let* otp := deref st i in
              match otp_Object otp with None => Panic | Some obj => SetDelta st i base obj end
            end
          end
        end
    end
  end.

Fixpoint hashMap (st : objects) (i : nat) (m : gmap ObjectID nat) : res (gmap ObjectID nat) :=
  match st with
  | [] => Ok m
  | o :: st => let* h := otp_Hash o in hashMap st (S i) (<[h := i]> m)
  end.
Fixpoint fixAll (fuel : nat) (m : gmap ObjectID nat) (st : objects) (l : list nat) : res objects :=
  match l with [] => Ok st | i :: l => let* st := fixAndBreakChainsOne fuel m st i in fixAll fuel m st l end.
Definition fixAndBreakChains (fuel : nat) (st : objects) : res objects :=
  let* m := hashMap st 0 ∅ in
  fixAll fuel m st (seq 0 (length st)).

Definition objectsToPack (fuel : nat) (hashes : list ObjectID) (packWindow : Z) : res objects :=
  let* st := newObjects packWindow hashes [] in
  if packWindow =? 0 then Ok st else fixAndBreakChains fuel st.

Definition typeAt (st : objects) (i : nat) : res ObjectType := let* o := deref st i in otp_Type (S (length st)) st o.

(** [dw.sort]: the keys do not change while the slice is sorted. *)
Fixpoint sortKeys (st : objects) (l : list nat) : res (list SortKey) :=
  match l with
  | [] => Ok []
  | i :: l =>
    let* t := typeAt st i in
    let* o := deref st i in
    let* sz := otp_Size o in
    let* ks := sortKeys st l in
    Ok (mkSortKey i t sz :: ks)
  end.
Definition selector_sort (st : objects) (l : list nat) : res (list nat) :=
  let* ks := sortKeys st l in
  Ok (map sk_at (sort byTypeAndSize_Less ks)).

(** The loop of [ObjectsToPack] that makes a group of each run of one type. *)
Fixpoint groupByType (st : objects) (prev : option nat) (objectGroups : list (list nat)) (otp : list nat) : res (list (list nat)) :=
  match otp with
  | [] => Ok objectGroups
  | obj :: otp =>
    let* fresh := match prev with
                  | None => Ok true
                  | Some p => let* tp := typeAt st p in let* t := typeAt st obj in Ok (negb (tp =? t))
                  end in
    if fresh : bool then groupByType st (Some obj) (objectGroups ++ [[obj]]) otp
    else groupByType st prev (alter (fun g => g ++ [obj]) (length objectGroups - 1)%nat objectGroups) otp
  end.

(** [getDelta]: the delta, and the index as [diffDelta] leaves it *)
Definition getDelta (index : deltaIndex) (base target : PObj) : res (PObj * deltaIndex) :=
  let* db := diffDelta index (po_Content base) (po_Content target) in
  let* index := if len (DeltaIndex.entries index) =? 0 then init (po_Content base) else Ok index in
  Ok (mkPObj OFSDeltaObject (len db) (Hasher_Sum sha1 OFSDeltaObject (len db) db) db None, index).

Definition original (o : ObjectToPack) : res PObj := match otp_Original o with Some obj => Ok obj | None => Panic end.

Definition tryToDeltify (indexMap : gmap ObjectID deltaIndex) (st : objects) (base target : nat) : res (objects * gmap ObjectID deltaIndex) :=
  let* st := restoreAt st target in
  let* st := restoreAt st base in
  let* t := deref st target in
  let* b := deref st base in
  let* tsz := otp_Size t in
  let* bsz := otp_Size b in
  if tsz <? Z.shiftr bsz 4 then Ok (st, indexMap)
  else
    let* tobj := match otp_Object t with Some obj => Ok obj | None => Panic end in
    let msz := deltaSizeLimit (po_Size tobj) (otp_Depth b) (otp_Depth t) (otp_IsDelta t) in
    if msz <=? 8 then Ok (st, indexMap)
    else if i64 (bsz - tsz) >? msz then Ok (st, indexMap)
    else
      let* h := otp_Hash b in
      let index := default newDeltaIndex (indexMap !! h) in
      let* borig := original b in
      let* torig := original t in
      let* (delta, index) := getDelta index borig torig in
      let* st := if po_Size delta <? msz then SetDelta st target base delta else Ok st in
      Ok (st, <[h := index]> indexMap).

(** The inner loop of [walk], over the bases before the position [i]; [n] of them are left. *)
Fixpoint tryBases (objs : list nat) (window : Z) (i : Z) (target : nat) (n : nat) (st : objects) (indexMap : gmap ObjectID deltaIndex) : res (objects * gmap ObjectID deltaIndex) :=
  match n with
  | O => Ok (st, indexMap)
  | S j =>
    if i - Z.of_nat j <? window then
      let* base := index objs (Z.of_nat j) in
      let* bt := typeAt st base in
      let* ty := typeAt st target in
      if negb (bt =? ty) then Ok (st, indexMap)
      else
        let* (st, indexMap) := tryToDeltify indexMap st base target in
        tryBases objs window i target j st indexMap
    else Ok (st, indexMap)
  end.

(** What is kept for the object that leaves the window is dropped. *)
Definition leaveWindow (objs : list nat) (window i : Z) (st : objects) (indexMap : gmap ObjectID deltaIndex) : res (objects * gmap ObjectID deltaIndex) :=
  if i >? window then
    let* obj := index objs (i - window) in
    let* o := deref st obj in
    let* h := otp_Hash o in
    let st := if otp_IsDelta o then <[obj := CleanOriginal (SaveOriginalMetadata o)]> st else st in
    Ok (st, delete h indexMap)
  else Ok (st, indexMap).

(** The loop of [walk]; [n] objects are left. *)
Fixpoint walk_loop (objs : list nat) (window : Z) (n : nat) (i : nat) (st : objects) (indexMap : gmap ObjectID deltaIndex) : res objects :=
  match n with
  | O => Ok st
  | S n =>
    let* (st, indexMap) := leaveWindow objs window (Z.of_nat i) st indexMap in
    let* target := index objs (Z.of_nat i) in
    let* o := deref st target in
    let* (st, indexMap) :=
      if otp_IsDelta o then Ok (st, indexMap)
      else
        let* t := typeAt st target in
        if negb (applyDelta t) then Ok (st, indexMap) else tryBases objs window (Z.of_nat i) target i st indexMap in
    walk_loop objs window n (S i) st indexMap
  end.
Definition walk (objs : list nat) (packWindow : Z) (st : objects) : res objects :=
  walk_loop objs (i64 packWindow) (length objs) 0 st ∅.

Fixpoint walkGroups (groups : list (list nat)) (packWindow : Z) (st : objects) : res objects :=
  match groups with [] => Ok st | g :: groups => let* st := walk g packWindow st in walkGroups groups packWindow st end.

(** [ObjectsToPack]: the store, and the objects in the order in which they are encoded *)
Definition ObjectsToPack (fuel : nat) (hashes : list ObjectID) (packWindow : Z) : res (objects * list nat) :=
  let* st := objectsToPack fuel hashes packWindow in
  let otp := seq 0 (length st) in
  if packWindow =? 0 then Ok (st, otp)
  else
    let* otp := selector_sort st otp in
    let* groups := groupByType st None [] otp in
    let* st := walkGroups (schedule groups) packWindow st in
    Ok (st, otp).

(** [Encode] of encoder.go *)
Definition Encode (deflate : bytes -> bytes) (useRefDeltas : bool) (fuel : nat) (hashes : list ObjectID) (packWindow : Z) : res (bytes * ObjectID * objects) :=
  let* (st, otp) := ObjectsToPack fuel hashes packWindow in
  pack_encode sha1 deflate encodedObject useRefDeltas fuel st otp.
End Selector.
