(* ===== verification/PackSelectorProofs.v ===== *)
(** * The delta selector: what it leaves is packed and parsed back

    Whatever the storage reuses as deltas and whatever bases the window gives, every object to pack is its original or
    a delta that rebuilds it from an object of the same list.  With the encoder and the parser: the objects named to
    [Encode] are what a parser of the pack reports. *)
From stdpp Require Import sorting.
From S2P Require Import Prelude ObjectID Memory DeltaIndex Delta DeltaProofs PackEncoder PackScanner PackProofs PackEncoderProofs PackParser PackParserProofs PackSelector.

Section Selecting.
Variable sha1 : bytes -> bytes.
Variable encodedObject : ObjectID -> error + PObj.
Variable deltaObject : option (ObjectID -> error + PObj).
Variable sort : (SortKey -> SortKey -> bool) -> list SortKey -> list SortKey.
Variable schedule : list (list nat) -> list (list nat).
(** A bound on the sizes of objects, and the place of an object in the chains of deltas of the storage. *)
Variable maxSize : Z.
Variable depth : ObjectID -> nat.

(** ** What a storage holds *)

(** The object of an identifier. *)
Record stored (h : ObjectID) (w : PObj) : Prop := {
  so_get : encodedObject h = inr w;
  so_hash : po_Hash w = h;
  so_id : h = Hasher_Sum sha1 (po_Type w) (len (po_Content w)) (po_Content w);
  so_type : 1 <= po_Type w <= 4;
  so_size : po_Size w = len (po_Content w);
  so_small : len (po_Content w) <= maxSize;
  so_whole : po_delta w = None }.

(** A delta that makes the object [w] of the object [base]. *)
Definition rebuilds (base : PObj) (delta : bytes) (w : PObj) : Prop :=
  po_Type base = po_Type w /\ po_Content base <> [] /\ po_Content w <> [] /\ delta <> [] /\ len delta <= 8 * maxSize + 20 /\
  patchDelta [] (po_Content base) delta = Ok (po_Content w) /\
  patchDeltaWriter (hashBytes sha1) [] (po_Content base) true true delta (po_Type w) None =
    Ok (len (po_Content w), hashBytes sha1 (po_Type w) (len (po_Content w)) (po_Content w), po_Content w).

(** A delta the storage keeps: its base is in the storage, and chains end. *)
Record stored_delta (w d : PObj) : Prop := {
  sd_type : IsDelta (po_Type d) = true;
  sd_size : po_Size d = len (po_Content d);
  sd_info : exists di base, po_delta d = Some di /\ di_ActualHash di = po_Hash w /\ di_ActualSize di = po_Size w /\
    stored (di_BaseHash di) base /\ rebuilds base (po_Content d) w /\ (depth (di_BaseHash di) < depth (po_Hash w))%nat }.

Definition sound (h : ObjectID) (w : PObj) : Prop :=
  stored h w /\ forall get, deltaObject = Some get -> get h = inr w \/ exists d, get h = inr d /\ stored_delta w d.

Variable hashes : list ObjectID.
(** The objects of the identifiers. *)
Variable ws : list PObj.
Hypothesis Hws : Forall2 sound hashes ws.
Hypothesis Hmax : 0 <= maxSize < 2 ^ 31.

Lemma ws_stored k w : ws !! k = Some w -> stored (po_Hash w) w.
Proof. intros Hk. destruct (Forall2_lookup_r _ _ _ _ _ Hws Hk) as (h & _ & Hs & _). by rewrite (so_hash _ _ Hs). Qed.

Lemma stored_fun h w w' : stored h w -> stored h w' -> w = w'.
Proof. intros H H'. pose proof (so_get _ _ H) as E. rewrite (so_get _ _ H') in E. by injection E. Qed.

(** ** Objects to pack *)

(** A delta that is to be reused and has no base yet. *)
Definition raw (w : PObj) (o : ObjectToPack) : Prop :=
  otp_Offset o = 0 /\ otp_Base o = None /\ otp_Original o = None /\ otp_resolvedOriginal o = false /\ exists d, otp_Object o = Some d /\ stored_delta w d.
Definition plain (w : PObj) (o : ObjectToPack) : Prop :=
  otp_Offset o = 0 /\ otp_Base o = None /\ otp_Object o = Some w /\ otp_Original o = Some w.
(** A delta on the object at [b]; its original is at hand, or known by its type, size and identifier, or it is a reused delta. *)
Definition delta_on (b : nat) (w : PObj) (o : ObjectToPack) : Prop :=
  otp_Offset o = 0 /\ otp_Base o = Some b /\ exists base d, ws !! b = Some base /\ otp_Object o = Some d /\ IsDelta (po_Type d) = true /\
    po_Size d = len (po_Content d) /\ rebuilds base (po_Content d) w /\
    (otp_Original o = Some w \/ otp_Original o = None /\
      (otp_resolvedOriginal o = true /\ otp_originalType o = po_Type w /\ otp_originalSize o = po_Size w /\ otp_originalHash o = po_Hash w \/
       otp_resolvedOriginal o = false /\ stored_delta w d /\ (depth (po_Hash base) < depth (po_Hash w))%nat)).
Definition settled_as (w : PObj) (o : ObjectToPack) : Prop := plain w o \/ exists b, delta_on b w o.

(** The store before and after the chains are fixed. *)
Definition tracks (R : PObj -> ObjectToPack -> Prop) (st : objects) : Prop := Forall2 R ws st.
Notation early := (fun w o => settled_as w o \/ raw w o).

Lemma stored_nondelta h w : stored h w -> IsDelta (po_Type w) = false.
Proof. intros H. pose proof (so_type _ _ H). unfold IsDelta, REFDeltaObject, OFSDeltaObject. lia. Qed.

Lemma early_hash w o : early w o -> otp_Hash o = Ok (po_Hash w) /\ otp_Size o = Ok (po_Size w).
Proof.
  unfold otp_Hash, otp_Size. intros [[(_ & _ & _ & ->)|(b & _ & _ & base & d & _ & E & _ & _ & _ & [->|(-> & [(-> & _ & -> & ->)|(-> & Hd & _)])])]|(_ & _ & -> & -> & d & E & Hd)]; try done;
    rewrite E; destruct (sd_info _ _ Hd) as (di & base' & -> & -> & -> & _); done.
Qed.

(** [restoreOriginal] never fails on them, and changes nothing but what is known of the original. *)
Lemma settled_restore w o : stored (po_Hash w) w -> settled_as w o -> exists o', restoreOriginal encodedObject o = Ok (o', None) /\ otp_Original o' = Some w /\
  settled_as w o' /\ otp_Base o' = otp_Base o /\ otp_Object o' = otp_Object o /\ otp_Depth o' = otp_Depth o.
Proof.
  intros Hw Ho. destruct (early_hash w o (or_introl Ho)) as [Eh _]. unfold restoreOriginal. destruct (otp_Original o) as [w0|] eqn:Eo.
  - exists o. assert (w0 = w) as ->; [|by split_and!]. destruct Ho as [(_ & _ & _ & E)|(b & _ & _ & base & d & _ & _ & _ & _ & _ & [E|[E _]])]; congruence.
  - destruct Ho as [(_ & _ & _ & E)|(b & E0 & Eb & base & d & Hb & Ed & Hd & Hsz & Hr & [E|[_ Hk]])]; [congruence..|]. rewrite Ed, Hd. cbn [negb]. rewrite Eh. cbn [res_bind]. rewrite (so_get _ _ Hw).
    eexists. split; [done|]. split; [done|]. split; [|done]. right. exists b. split; [done|]. split; [done|]. exists base, d. split_and!; try done. by left.
Qed.

Lemma raw_restore w o : stored (po_Hash w) w -> raw w o -> exists o', restoreOriginal encodedObject o = Ok (o', None) /\ otp_Original o' = Some w /\ otp_Base o' = None /\ otp_Offset o' = 0.
Proof.
  intros Hw Ho. destruct (early_hash w o (or_intror Ho)) as [Eh _]. destruct Ho as (E0 & Eb & Eo & _ & d & Ed & Hd). unfold restoreOriginal. rewrite Eo, Ed, (sd_type _ _ Hd). cbn [negb].
  rewrite Eh. cbn [res_bind]. rewrite (so_get _ _ Hw). eexists. split; [done|]. split; [done|]. by cbn.
Qed.

Lemma tracks_lookup R st k w : tracks R st -> ws !! k = Some w -> exists o, st !! k = Some o /\ R w o.
Proof. intros H Hk. destruct (Forall2_lookup_l _ _ _ _ _ H Hk) as (o & Ho & HR). eauto. Qed.
Lemma tracks_insert R st k w o : tracks R st -> ws !! k = Some w -> R w o -> tracks R (<[k := o]> st).
Proof. intros H Hk HR. unfold tracks. rewrite <- (list_insert_id ws k w) by done. by apply Forall2_insert. Qed.
Lemma tracks_length R st : tracks R st -> length st = length ws.
Proof. intros H. symmetry. by eapply Forall2_length. Qed.

(** ** The objects as they come from the storage *)
Lemma newObjects_ok window hs l acc : Forall2 sound hs l -> exists st, newObjects encodedObject deltaObject window hs acc = Ok (acc ++ st) /\
  Forall2 (fun w o => plain w o \/ raw w o /\ window <> 0) l st.
Proof.
  intros H. revert acc. induction H as [|h w hs l [Hs Hd] _ IH]; intros acc; cbn [newObjects]; [exists []; by rewrite app_nil_r|].
  assert (exists o, of_sum (if window =? 0 then encodedObject h else encodedDeltaObject encodedObject deltaObject h) = Ok o /\ (o = w \/ stored_delta w o /\ window <> 0)) as (o & -> & Ho).
  { unfold encodedDeltaObject. destruct (Z.eqb_spec window 0) as [->|Hne]; [rewrite (so_get _ _ Hs); by eexists; split; [done|left]|].
    destruct deltaObject as [get|]; [|rewrite (so_get _ _ Hs); by eexists; split; [done|left]].
    destruct (Hd get eq_refl) as [->|(d & -> & Hsd)]; eexists; (split; [done|]); auto. }
  cbn [res_bind]. destruct (IH (acc ++ [match po_delta o with Some _ => CleanOriginal (newObjectToPack o) | None => newObjectToPack o end])) as (st & -> & Hst).
  eexists (_ :: st). split; [by rewrite <- app_assoc|]. constructor; [|done]. destruct Ho as [->|[Hsd Hne]].
  - left. rewrite (so_whole _ _ Hs). done.
  - right. split; [|done]. destruct (sd_info _ _ Hsd) as (di & base & -> & _). split_and!; try done. eauto.
Qed.

(** The map from identifiers names objects with that identifier. *)
Lemma hashMap_ok l st : Forall2 early l st -> forall pre m, pre ++ l = ws -> (forall h b, m !! h = Some b -> exists w, ws !! b = Some w /\ po_Hash w = h) ->
  exists m', hashMap st (length pre) m = Ok m' /\ forall h b, m' !! h = Some b -> exists w, ws !! b = Some w /\ po_Hash w = h.
Proof.
  induction 1 as [|w o l st Ho _ IH]; intros pre m E Hm; cbn [hashMap]; [eauto|]. destruct (early_hash w o Ho) as [-> _]. cbn [res_bind].
  replace (S (length pre)) with (length (pre ++ [w])) by (rewrite length_app; cbn; lia). apply IH; [by rewrite <- app_assoc|].
  intros h b. destruct (decide (h = po_Hash w)) as [->|Hne]; [|rewrite lookup_insert_ne by done; apply Hm].
  rewrite lookup_insert_eq. intros [= <-]. exists w. split; [|done]. by rewrite <- E, lookup_app_r, Nat.sub_diag by lia.
Qed.

(** ** Chains *)
Section Chains.
Variable m : gmap ObjectID nat.
Hypothesis Hm : forall h b, m !! h = Some b -> exists w, ws !! b = Some w /\ po_Hash w = h.

(** How many objects are lower in the chains of the storage. *)
Definition below (w : PObj) : nat := length (filter (fun v => (depth (po_Hash v) < depth (po_Hash w))%nat) ws).

Lemma below_lt b base w : ws !! b = Some base -> (depth (po_Hash base) < depth (po_Hash w))%nat -> (below base < below w)%nat.
Proof. intros Hb Hlt. apply (filter_length_lt _ _ _ base); [intros v; lia|by eapply list_elem_of_lookup_2|done|lia]. Qed.
Lemma below_bound w : (below w <= length ws)%nat.
Proof. apply length_filter. Qed.

Lemma undeltify_ok st k w o : ws !! k = Some w -> st !! k = Some o -> raw w o -> exists o', undeltify encodedObject st k = Ok (<[k := o']> st) /\ plain w o'.
Proof.
  intros Hk Ho Hr. destruct (raw_restore w o (ws_stored k w Hk) Hr) as (o1 & Er & Eo & Eb & E0). unfold undeltify, restoreAt. unfold deref at 1. rewrite Ho. cbn [res_bind]. rewrite Er. cbn [res_bind].
  unfold deref. rewrite list_lookup_insert_eq by (by eapply lookup_lt_Some). cbn [res_bind]. rewrite list_insert_insert_eq. eexists. split; [done|]. by split_and!.
Qed.

Definition settles (k : nat) (st st' : objects) : Prop :=
  forall j w o, ws !! j = Some w -> st !! j = Some o -> settled_as w o \/ j = k -> exists o', st' !! j = Some o' /\ settled_as w o'.

Lemma settles_insert st k w o : ws !! k = Some w -> (k < length st)%nat -> settled_as w o -> settles k st (<[k := o]> st).
Proof.
  intros Hk Hlt Hs j wj oj Hj Hoj Hor. destruct (decide (j = k)) as [->|Hne].
  - rewrite list_lookup_insert_eq by done. rewrite Hk in Hj. injection Hj as <-. eauto.
  - rewrite list_lookup_insert_ne by done. destruct Hor; [eauto|done].
Qed.

(** Fixing an object touches nothing above it in the chains. *)
Lemma fixOne_ok fuel : forall st k w, (below w < fuel)%nat -> tracks early st -> ws !! k = Some w -> exists st', fixAndBreakChainsOne encodedObject fuel m st k = Ok st' /\
  tracks early st' /\ settles k st st' /\ (forall j wj, ws !! j = Some wj -> (depth (po_Hash w) < depth (po_Hash wj))%nat -> st' !! j = st !! j).
Proof.
  induction fuel as [|fuel IH]; intros st k w Hf Ht Hk; [lia|]. destruct (tracks_lookup _ _ _ _ Ht Hk) as (o & Ho & HR).
  assert (k < length st)%nat as Hlt by (by eapply lookup_lt_Some). cbn [fixAndBreakChainsOne]. unfold deref at 1. rewrite Ho. cbn [res_bind].
  destruct HR as [Hs|Hr].
  { assert ((exists obj, otp_Object o = Some obj /\ (IsDelta (po_Type obj) = false \/ exists b, otp_Base o = Some b))) as (obj & -> & Hobj).
    { destruct Hs as [(_ & _ & -> & _)|(b & _ & Eb & base & d & _ & -> & _)]; eexists; (split; [done|]); [left; by eapply stored_nondelta, ws_stored|eauto]. }
    exists st. split; [destruct Hobj as [->|[b ->]]; [done|by destruct (negb _)]|]. split; [done|]. split; [|done].
    intros j wj oj Hj Hoj [Hsj| ->]; [eauto|]. rewrite Hk in Hj. injection Hj as <-. rewrite Ho in Hoj. injection Hoj as <-. eauto. }
  pose proof Hr as (E0 & Eb & Eo & Ers & d & Ed & Hd). rewrite Ed, (sd_type _ _ Hd), Eb. cbn [negb].
  destruct (sd_info _ _ Hd) as (di & base & Edi & Eah & Eas & Hbase & Hreb & Hdep). rewrite Edi.
  assert (forall o', plain w o' -> exists st', Ok (<[k := o']> st) = Ok st' /\ tracks early st' /\ settles k st st' /\
    (forall j wj, ws !! j = Some wj -> (depth (po_Hash w) < depth (po_Hash wj))%nat -> st' !! j = st !! j)) as Hplain.
  { intros o' Hp. eexists. split; [done|]. split; [apply (tracks_insert _ _ k w); [done..|by left; left]|]. split; [apply (settles_insert _ k w); [done..|by left]|].
    intros j wj Hj Hlt'. apply list_lookup_insert_ne. intros ->. rewrite Hk in Hj. injection Hj as <-. lia. }
  destruct (m !! di_BaseHash di) as [b|] eqn:Em; [|destruct (undeltify_ok st k w o Hk Ho Hr) as (o' & -> & Hp); by apply Hplain].
  destruct (Hm _ _ Em) as (base' & Hb & Ehb). assert (base' = base) as ->. { apply (stored_fun (di_BaseHash di)); [|done]. rewrite <- Ehb. by eapply ws_stored. }
  rewrite <- Ehb in Hdep. destruct (IH st b base ltac:(pose proof (below_lt b base w Hb Hdep); lia) Ht Hb) as (st1 & -> & Ht1 & Hs1 & Hframe). cbn [res_bind].
  unfold deref at 1. rewrite (Hframe k w Hk Hdep), Ho. cbn [res_bind]. rewrite Ed.
  destruct (tracks_lookup _ _ _ _ Ht1 Hb) as (ob & Hob & _). unfold SetDelta, deref. rewrite (Hframe k w Hk Hdep), Ho, Hob. cbn [res_bind]. eexists. split; [done|].
  assert (settled_as w (mkOTP (Some d) (Some b) (otp_Original o) (otp_Depth ob + 1) (otp_Offset o) (otp_resolvedOriginal o) (otp_originalType o) (otp_originalSize o) (otp_originalHash o))) as Hset.
  { right. exists b. split; [done|]. split; [done|]. exists base, d. split_and!; try done; [apply Hd..|]. right. split; [done|]. right. by split_and!. }
  split; [apply (tracks_insert _ _ k w); [done..|by left]|]. split.
  - intros j wj oj Hj Hoj Hor. destruct (decide (j = k)) as [->|Hne].
    + rewrite list_lookup_insert_eq by (by rewrite (tracks_length _ _ Ht1), <- (tracks_length _ _ Ht)). rewrite Hk in Hj. injection Hj as <-. eauto.
    + rewrite list_lookup_insert_ne by done. destruct Hor as [Hsj|?]; [|done]. eapply Hs1; eauto.
  - intros j wj Hj Hlt'. rewrite list_lookup_insert_ne; [apply (Hframe j wj Hj); lia|]. intros ->. rewrite Hk in Hj. injection Hj as <-. lia.
Qed.

Lemma fixAll_ok fuel l : (length ws < fuel)%nat -> (forall k, k ∈ l -> (k < length ws)%nat) -> forall st, tracks early st -> exists st', fixAll encodedObject fuel m st l = Ok st' /\
  tracks early st' /\ (forall j w o, ws !! j = Some w -> st !! j = Some o -> settled_as w o \/ j ∈ l -> exists o', st' !! j = Some o' /\ settled_as w o').
Proof.
  intros Hf. induction l as [|k l IH]; intros Hl st Ht; cbn [fixAll].
  - exists st. split_and!; [done..|]. intros j w o Hj Ho [Hs|Hin]; [eauto|by apply not_elem_of_nil in Hin].
  - destruct (lookup_lt_is_Some_2 ws k) as [w Hw]; [apply Hl; by left|]. pose proof (below_bound w). destruct (fixOne_ok fuel st k w ltac:(lia) Ht Hw) as (st1 & -> & Ht1 & Hs1 & _). cbn [res_bind].
    destruct (IH (fun j Hj => Hl j (list_elem_of_further _ _ _ Hj)) st1 Ht1) as (st' & -> & Ht' & Hs'). exists st'. split_and!; [done..|]. intros j wj oj Hj Hoj Hor.
    destruct (tracks_lookup _ _ _ _ Ht1 Hj) as (o1 & Ho1 & _). destruct Hor as [Hs|[->|Hin]%elem_of_cons]; [|..|eapply Hs'; eauto]; destruct (Hs1 _ wj oj Hj Hoj ltac:(by eauto)) as (o2 & Ho2 & Hs2); eapply Hs'; eauto.
Qed.
End Chains.

Lemma objectsToPack_ok fuel window : (length ws < fuel)%nat -> exists st, objectsToPack encodedObject deltaObject fuel hashes window = Ok st /\ tracks settled_as st.
Proof.
  intros Hf. unfold objectsToPack. destruct (newObjects_ok window hashes ws [] Hws) as (st & -> & Hst). cbn [app res_bind]. destruct (Z.eqb_spec window 0) as [->|Hne].
  - exists st. split; [done|]. eapply Forall2_impl; [exact Hst|]. intros w o [Hp|[_ ?]]; [by left|done].
  - assert (tracks early st) as Ht by (eapply Forall2_impl; [exact Hst|]; intros w o [Hp|[Hr _]]; [by left; left|by right]).
    unfold fixAndBreakChains. destruct (hashMap_ok ws st Ht [] ∅ eq_refl) as (m & Em & Hm); [by intros h b; rewrite lookup_empty|]. cbn [length] in Em. rewrite Em. cbn [res_bind].
    destruct (fixAll_ok m Hm fuel (seq 0 (length st)) Hf) with (st := st) as (st' & -> & Ht' & Hs); [intros k Hk; apply elem_of_seq in Hk; rewrite (tracks_length _ _ Ht) in Hk; lia|done|].
    exists st'. split; [done|]. apply Forall2_same_length_lookup. split; [by rewrite (tracks_length _ _ Ht')|]. intros k w o Hk Ho.
    destruct (tracks_lookup _ _ _ _ Ht Hk) as (o0 & Ho0 & _). destruct (Hs k w o0 Hk Ho0) as (o' & Ho' & Hs'); [right; apply elem_of_seq; apply lookup_lt_Some in Ho0; lia|].
    rewrite Ho in Ho'. by injection Ho' as <-.
Qed.

(** ** Types, sizes and the order *)
Lemma otp_Type_ok st : tracks settled_as st -> forall fuel w o, (below w < fuel)%nat -> settled_as w o -> otp_Type fuel st o = Ok (po_Type w).
Proof.
  intros Ht. induction fuel as [|fuel IH]; intros w o Hf Ho; [lia|]. cbn [otp_Type].
  destruct Ho as [(_ & _ & _ & ->)|(b & _ & -> & base & d & Hb & _ & _ & _ & (Ety & _) & [->|(-> & [(-> & -> & _)|(-> & _ & Hdep)])])]; [done..|].
  destruct (tracks_lookup _ _ _ _ Ht Hb) as (ob & Hob & Hsb). unfold deref. rewrite Hob. cbn [res_bind]. rewrite <- Ety. apply IH; [|done]. pose proof (below_lt b base w Hb Hdep). lia.
Qed.

Lemma typeAt_ok st k w : tracks settled_as st -> ws !! k = Some w -> typeAt st k = Ok (po_Type w).
Proof.
  intros Ht Hk. destruct (tracks_lookup _ _ _ _ Ht Hk) as (o & Ho & Hs). unfold typeAt, deref. rewrite Ho. cbn [res_bind]. apply otp_Type_ok; [done| |done].
  rewrite (tracks_length _ _ Ht). pose proof (below_bound w). lia.
Qed.

Definition keyOf (k : nat) : SortKey := match ws !! k with Some w => mkSortKey k (po_Type w) (po_Size w) | None => mkSortKey k 0 0 end.

Lemma sortKeys_ok st l : tracks settled_as st -> (forall k, k ∈ l -> (k < length ws)%nat) -> sortKeys st l = Ok (map keyOf l).
Proof.
  intros Ht. induction l as [|k l IH]; intros Hl; [done|]. cbn [sortKeys map]. destruct (lookup_lt_is_Some_2 ws k) as [w Hw]; [apply Hl; by left|].
  rewrite (typeAt_ok st k w Ht Hw). cbn [res_bind]. destruct (tracks_lookup _ _ _ _ Ht Hw) as (o & Ho & Hs). unfold deref. rewrite Ho. cbn [res_bind].
  destruct (early_hash w o (or_introl Hs)) as [_ ->]. cbn [res_bind]. rewrite IH by (intros j Hj; apply Hl; by right). cbn [res_bind]. unfold keyOf at 2. by rewrite Hw.
Qed.

(** Of two objects of one type the one that is sorted first is not smaller. *)
Definition not_smaller (j i : nat) : Prop := forall wj wi, ws !! j = Some wj -> ws !! i = Some wi -> po_Type wj = po_Type wi -> po_Size wi <= po_Size wj.

Hypothesis sort_permutes : forall less l, sort less l ≡ₚ l.
Hypothesis sort_orders : forall l, StronglySorted (fun a b => byTypeAndSize_Less b a = false) (sort byTypeAndSize_Less l).

Lemma sk_at_keyOf k : sk_at (keyOf k) = k.
Proof. unfold keyOf. by destruct (ws !! k). Qed.

Lemma selector_sort_ok st l : tracks settled_as st -> (forall k, k ∈ l -> (k < length ws)%nat) -> exists l', selector_sort sort st l = Ok l' /\ l' ≡ₚ l /\ StronglySorted not_smaller l'.
Proof.
  intros Ht Hl. unfold selector_sort. rewrite (sortKeys_ok st l Ht Hl). cbn [res_bind]. eexists. split; [done|].
  assert (map sk_at (map keyOf l) = l) as El by (rewrite map_map; rewrite <- map_id; apply map_ext; apply sk_at_keyOf). split; [by rewrite sort_permutes, El|].
  assert (Forall (fun a => a = keyOf (sk_at a)) (sort byTypeAndSize_Less (map keyOf l))) as Hk.
  { rewrite sort_permutes. apply Forall_map, Forall_true. intros k. by rewrite sk_at_keyOf. }
  pose proof (sort_orders (map keyOf l)) as Hs. induction Hs as [|a r Hs IH Ha]; [constructor|]. inversion Hk as [|? ? Ea Hk']; subst. cbn [map]. constructor; [by apply IH|].
  apply Forall_map. apply Forall_forall. intros b Hb wa wb Hwa Hwb Ety. rewrite Forall_forall in Ha, Hk'. pose proof (Ha b Hb) as Hless. pose proof (Hk' b Hb) as Eb.
  rewrite Ea, Eb in Hless. unfold keyOf, byTypeAndSize_Less in Hless. rewrite Hwa, Hwb in Hless. cbn [sk_Type sk_Size] in Hless. rewrite Ety in Hless.
  destruct (Z.ltb_spec (po_Type wb) (po_Type wb)); [lia|]. rewrite Z.gtb_ltb in Hless. destruct (Z.ltb_spec (po_Type wb) (po_Type wb)); [lia|]. lia.
Qed.

(** The groups are the runs of the sorted list. *)
Lemma groupByType_ok st : tracks settled_as st -> forall otp prev groups, (forall k, k ∈ otp \/ prev = Some k -> (k < length ws)%nat) -> (prev <> None -> groups <> []) ->
  exists groups', groupByType st prev groups otp = Ok groups' /\ concat groups' = concat groups ++ otp.
Proof.
  intros Ht. induction otp as [|k otp IH]; intros prev groups Hl Hg; cbn [groupByType]; [exists groups; by rewrite app_nil_r|].
  assert (exists fresh, match prev with None => Ok true | Some p => let* tp := typeAt st p in let* t := typeAt st k in Ok (negb (tp =? t)) end = Ok fresh /\ (fresh = false -> groups <> [])) as (fresh & -> & Hfr).
  { destruct prev as [p|]; [|by exists true]. destruct (lookup_lt_is_Some_2 ws p) as [wp Hp]; [apply Hl; by right|]. destruct (lookup_lt_is_Some_2 ws k) as [wk Hk]; [apply Hl; left; by left|].
    rewrite (typeAt_ok st p wp Ht Hp), (typeAt_ok st k wk Ht Hk). cbn [res_bind]. eexists. split; [done|]. intros _. by apply Hg. }
  cbn [res_bind]. destruct fresh.
  - destruct (IH (Some k) (groups ++ [[k]])) as (g' & -> & E); [intros j [Hj|[= <-]]; apply Hl; left; [by right|by left]|intros _ H; by apply app_eq_nil in H as [_ ?]|].
    exists g'. split; [done|]. by rewrite E, concat_app, <- app_assoc.
  - destruct (exists_last (Hfr eq_refl)) as (gs & g & ->). assert (alter (fun g => g ++ [k]) (length (gs ++ [g]) - 1)%nat (gs ++ [g]) = gs ++ [g ++ [k]]) as ->.
    { rewrite length_app. cbn [length]. replace (length gs + 1 - 1)%nat with (length gs + 0)%nat by lia. by rewrite alter_app_r. }
    destruct (IH prev (gs ++ [g ++ [k]])) as (g' & -> & E); [intros j [Hj|Hj]; apply Hl; [left; by right|by right]|intros _ H; by apply app_eq_nil in H as [_ ?]|].
    exists g'. split; [done|]. rewrite E, !concat_app. cbn [concat]. by rewrite !app_nil_r, <- !app_assoc.
Qed.

(** ** The window *)
Lemma deltaEncodeSize_len n b : deltaEncodeSize n = Ok b -> len b <= 10.
Proof.
  unfold deltaEncodeSize. assert (forall fuel c sz ret out, deltaEncodeSize_loop fuel c sz ret = Ok out -> len out <= len ret + Z.of_nat fuel) as H.
  { induction fuel as [|fuel IH]; intros c sz ret out; cbn [deltaEncodeSize_loop]; [done|]. destruct (sz =? 0).
    - intros E%Ok_inj. rewrite <- E, len_app. unfold len. cbn [length]. lia.
    - intros E%IH. rewrite len_app in E. unfold len in *. cbn [length] in E. lia. }
  intros E%H. exact E.
Qed.

(** The deltas of the selector rebuild their targets. *)
Lemma getDelta_ok idx hb hk wb wk : stored hb wb -> stored hk wk -> (DeltaIndex.entries idx = [] \/ index_for (po_Content wb) idx) -> po_Type wb = po_Type wk -> po_Content wb <> [] -> po_Content wk <> [] ->
  exists d idx', getDelta sha1 idx wb wk = Ok (d, idx') /\ index_for (po_Content wb) idx' /\ IsDelta (po_Type d) = true /\ po_Size d = len (po_Content d) /\ rebuilds wb (po_Content d) wk.
Proof.
  intros Hb Hk Hidx Ety Hbne Hkne. pose proof (so_small _ _ Hb). pose proof (so_small _ _ Hk). unfold getDelta.
  destruct (diffDelta_ops idx (po_Content wb) (po_Content wk) Hidx ltac:(lia) ltac:(lia)) as (hs & ht & ops & -> & Ehs & Eht & Hok & Happ). cbn [res_bind].
  assert (exists idx', (if len (DeltaIndex.entries idx) =? 0 then init (po_Content wb) else Ok idx) = Ok idx' /\ index_for (po_Content wb) idx') as (idx' & -> & Hidx').
  { destruct Hidx as [->|Hi]; [change (len (@nil Z) =? 0) with true; apply init_ok; lia|]. exists idx. split; [|done].
    destruct Hi as (_ & _ & _ & Hp). by destruct (Z.eqb_spec (len (DeltaIndex.entries idx)) 0); [lia|]. }
  cbn [res_bind]. eexists _, idx'. split; [done|]. split; [done|]. split; [done|]. split; [done|]. cbn [po_Content]. pose proof (deltaEncodeSize_len _ _ Ehs). pose proof (deltaEncodeSize_len _ _ Eht).
  pose proof (encodeOps_bound _ _ Hok) as Hlen. rewrite <- Happ in Eht. pose proof (delta_headers (po_Content wb) ops hs ht) as Hh. rewrite Happ in *.
  destruct Hh as (H4 & _); [done|lia|lia|done|done|done|].
  split_and!; [done|done|done| | | |].
  - intros E. rewrite E in H4. unfold len in H4. cbn in H4. lia.
  - rewrite !len_app. lia.
  - pose proof (patchDelta_rebuilds (po_Content wb) ops hs ht []) as Hp. rewrite Happ in Hp. apply Hp; try done; lia.
  - pose proof (patchDeltaWriter_rebuilds (hashBytes sha1) (po_Content wb) ops hs ht [] (po_Type wk) true true) as Hp. rewrite Happ in Hp. apply Hp; try done; lia.
Qed.

(** An index is that of the object with its identifier. *)
Definition indexes (im : gmap ObjectID deltaIndex) : Prop :=
  forall h idx w, im !! h = Some idx -> stored h w -> DeltaIndex.entries idx = [] \/ index_for (po_Content w) idx.

Lemma indexes_insert im h idx w : indexes im -> stored h w -> index_for (po_Content w) idx -> indexes (<[h := idx]> im).
Proof.
  intros Him Hw Hi h' idx' w'. destruct (decide (h' = h)) as [->|Hne]; [|rewrite lookup_insert_ne by done; apply Him].
  rewrite lookup_insert_eq. intros [= <-] Hw'. right. by rewrite (stored_fun h w' w).
Qed.

Lemma restoreAt_ok st k w : tracks settled_as st -> ws !! k = Some w -> exists o, restoreAt encodedObject st k = Ok (<[k := o]> st) /\ settled_as w o /\ otp_Original o = Some w.
Proof.
  intros Ht Hk. destruct (tracks_lookup _ _ _ _ Ht Hk) as (o & Ho & Hs). destruct (settled_restore w o (ws_stored k w Hk) Hs) as (o' & Er & Eo & Hs' & _).
  exists o'. unfold restoreAt, deref. rewrite Ho. cbn [res_bind]. rewrite Er. cbn [res_bind]. by split_and!.
Qed.

(** A target worth a delta is not empty. *)
Lemma limit_nonempty w o obj bd : stored (po_Hash w) w -> settled_as w o -> otp_Object o = Some obj -> 8 < deltaSizeLimit (po_Size obj) bd (otp_Depth o) (otp_IsDelta o) -> po_Content w <> [].
Proof.
  intros Hw Ho Eobj Hlim Hnil. destruct Ho as [(_ & Eb & Eo & _)|(b & _ & _ & base & d & _ & _ & _ & _ & (_ & _ & Hne & _) & _)]; [|done].
  rewrite Eo in Eobj. injection Eobj as <-. unfold otp_IsDelta, deltaSizeLimit in Hlim. rewrite Eb, (so_size _ _ Hw), Hnil in Hlim. vm_compute in Hlim. done.
Qed.

Lemma tryToDeltify_ok im st b k wb wk : tracks settled_as st -> indexes im -> ws !! b = Some wb -> ws !! k = Some wk -> po_Type wb = po_Type wk -> po_Size wk <= po_Size wb ->
  exists st' im', tryToDeltify sha1 encodedObject im st b k = Ok (st', im') /\ tracks settled_as st' /\ indexes im'.
Proof.
  intros Ht Him Hb Hk Ety Hle. pose proof (ws_stored b wb Hb) as Sb. pose proof (ws_stored k wk Hk) as Sk. unfold tryToDeltify.
  destruct (restoreAt_ok st k wk Ht Hk) as (t1 & -> & Hs1 & E1). cbn [res_bind]. pose proof (tracks_insert _ _ k wk t1 Ht Hk Hs1) as Ht1.
  destruct (restoreAt_ok _ b wb Ht1 Hb) as (o2 & -> & Hs2 & E2). cbn [res_bind]. pose proof (tracks_insert _ _ b wb o2 Ht1 Hb Hs2) as Ht2.
  assert (exists t, <[b := o2]> (<[k := t1]> st) !! k = Some t /\ settled_as wk t /\ otp_Original t = Some wk) as (t & Et & Hs & Eto).
  { apply lookup_lt_Some in Hk as Hl. rewrite <- (tracks_length _ _ Ht) in Hl. destruct (decide (b = k)) as [->|Hne].
    - rewrite list_lookup_insert_eq by (by rewrite length_insert). rewrite Hb in Hk. injection Hk as <-. eauto.
    - rewrite list_lookup_insert_ne, list_lookup_insert_eq by done. eauto. }
  assert (<[b := o2]> (<[k := t1]> st) !! b = Some o2) as Eb.
  { apply list_lookup_insert_eq. apply lookup_lt_Some in Hb. by rewrite (tracks_length _ _ Ht1). }
  set (st2 := <[b := o2]> _) in *. unfold deref at 1 2. rewrite Et, Eb. cbn [res_bind].
  destruct (early_hash wk t (or_introl Hs)) as [_ ->], (early_hash wb o2 (or_introl Hs2)) as [Eh ->]. cbn [res_bind].
  destruct (_ <? _); [eauto|]. assert (exists obj, otp_Object t = Some obj) as (obj & Eobj). { destruct Hs as [(_ & _ & -> & _)|(c & _ & _ & base & d & _ & -> & _)]; eauto. }
  rewrite Eobj. cbn [res_bind]. destruct (Z.leb_spec (deltaSizeLimit (po_Size obj) (otp_Depth o2) (otp_Depth t) (otp_IsDelta t)) 8) as [|Hlim]; [eauto|]. destruct (_ >? _); [eauto|].
  rewrite Eh. cbn [res_bind]. unfold original. rewrite E2, Eto. cbn [res_bind].
  pose proof (limit_nonempty wk t obj _ Sk Hs Eobj Hlim) as Hkne.
  assert (po_Content wb <> []) as Hbne. { intros E. rewrite (so_size _ _ Sk), (so_size _ _ Sb), E in Hle. by destruct (po_Content wk). }
  assert (DeltaIndex.entries (default newDeltaIndex (im !! po_Hash wb)) = [] \/ index_for (po_Content wb) (default newDeltaIndex (im !! po_Hash wb))) as Hidx.
  { destruct (im !! po_Hash wb) as [idx|] eqn:Ei; [by apply (Him (po_Hash wb))|by left]. }
  destruct (getDelta_ok _ _ _ _ _ Sb Sk Hidx Ety Hbne Hkne) as (d & idx' & -> & Hidx' & Hd & Hsz & Hreb). cbn [res_bind].
  assert (exists st', (if po_Size d <? deltaSizeLimit (po_Size obj) (otp_Depth o2) (otp_Depth t) (otp_IsDelta t) then SetDelta st2 k b d else Ok st2) = Ok st' /\ tracks settled_as st') as (st' & -> & Ht').
  { destruct (_ <? _); [|eauto]. unfold SetDelta, deref. rewrite Et, Eb. cbn [res_bind]. eexists. split; [done|]. apply (tracks_insert _ _ k wk); [done..|].
    right. exists b. split; [by destruct Hs as [(? & _)|(c & ? & _)]|]. split; [done|]. exists wb, d. split_and!; try done. by left. }
  cbn [res_bind]. eexists _, _. split; [done|]. split; [done|]. by apply (indexes_insert _ _ _ wb).
Qed.

Section Walk.
Variable l : list nat.
Hypothesis Hl : forall k, k ∈ l -> (k < length ws)%nat.
Hypothesis Hsorted : StronglySorted not_smaller l.

Lemma walk_at i : (i < length l)%nat -> exists k w, index l (Z.of_nat i) = Ok k /\ l !! i = Some k /\ ws !! k = Some w.
Proof.
  intros Hi. destruct (index_ok l (Z.of_nat i)) as (k & Ek & Hk); [unfold len; lia|]. rewrite Nat2Z.id in Hk. exists k.
  destruct (lookup_lt_is_Some_2 ws k) as [w Hw]; [apply Hl; by eapply list_elem_of_lookup_2|]. eauto.
Qed.

Lemma sorted_pair i j k b : (j < i)%nat -> l !! i = Some k -> l !! j = Some b -> not_smaller b k.
Proof.
  intros Hlt Hi Hj. rewrite <- (take_drop (S j) l) in Hsorted. eapply (StronglySorted_app_1_elem_of _ _ _ b k Hsorted).
  - apply (list_elem_of_lookup_2 _ j). by rewrite lookup_take_lt by lia.
  - apply (list_elem_of_lookup_2 _ (i - S j)). rewrite lookup_drop. by replace (S j + (i - S j))%nat with i by lia.
Qed.

Lemma tryBases_ok window i k w n : (n <= i < length l)%nat -> l !! i = Some k -> ws !! k = Some w -> forall st im, tracks settled_as st -> indexes im ->
  exists st' im', tryBases sha1 encodedObject l window (Z.of_nat i) k n st im = Ok (st', im') /\ tracks settled_as st' /\ indexes im'.
Proof.
  intros Hn Hi Hk. induction n as [|j IH]; intros st im Ht Him; cbn [tryBases]; [eauto|]. destruct (_ <? window); [|eauto].
  destruct (walk_at j ltac:(lia)) as (b & wb & -> & Hj & Hb). cbn [res_bind]. rewrite (typeAt_ok st b wb Ht Hb), (typeAt_ok st k w Ht Hk). cbn [res_bind].
  destruct (Z.eqb_spec (po_Type wb) (po_Type w)) as [Ety|]; cbn [negb]; [|eauto].
  destruct (tryToDeltify_ok im st b k wb w Ht Him Hb Hk Ety) as (st1 & im1 & -> & Ht1 & Him1); [exact (sorted_pair i j k b ltac:(lia) Hi Hj wb w Hb Hk Ety)|]. cbn [res_bind]. apply IH; [lia|done..].
Qed.

Lemma leaveWindow_ok window i st im : 0 <= window -> (i < length l)%nat -> tracks settled_as st -> indexes im ->
  exists st' im', leaveWindow l window (Z.of_nat i) st im = Ok (st', im') /\ tracks settled_as st' /\ indexes im'.
Proof.
  intros Hw Hi Ht Him. unfold leaveWindow. destruct (Z.gtb_spec (Z.of_nat i) window) as [Hgt|]; [|eauto].
  destruct (walk_at (Z.to_nat (Z.of_nat i - window)) ltac:(lia)) as (k & w & Ek & _ & Hk). rewrite Z2Nat.id in Ek by lia. rewrite Ek. cbn [res_bind].
  destruct (tracks_lookup _ _ _ _ Ht Hk) as (o & Ho & Hs). unfold deref. rewrite Ho. cbn [res_bind]. destruct (early_hash w o (or_introl Hs)) as [-> _]. cbn [res_bind].
  eexists _, _. split; [done|]. split.
  - unfold otp_IsDelta. destruct (otp_Base o) as [b|] eqn:Eb; [|done]. apply (tracks_insert _ _ k w); [done..|]. right. exists b.
    destruct Hs as [(_ & E & _)|(b' & E0 & E & base & d & H1 & H2 & H3 & H4 & H5 & H6)]; [congruence|]. rewrite Eb in E. injection E as <-.
    unfold SaveOriginalMetadata. destruct H6 as [Eo|[Eo H6]]; rewrite Eo; (split; [done|]); (split; [done|]); exists base, d; split_and!; try done; right; (split; [done|]); [by left; split_and!|done].
  - intros h idx v. rewrite lookup_delete_Some. intros [_ H]. by apply Him.
Qed.

Lemma walk_loop_ok window n : 0 <= window -> forall i st im, (n + i = length l)%nat -> tracks settled_as st -> indexes im ->
  exists st', walk_loop sha1 encodedObject l window n i st im = Ok st' /\ tracks settled_as st'.
Proof.
  intros Hw. induction n as [|n IH]; intros i st im Hni Ht Him; cbn [walk_loop]; [eauto|].
  destruct (leaveWindow_ok window i st im Hw ltac:(lia) Ht Him) as (st1 & im1 & -> & Ht1 & Him1). cbn [res_bind].
  destruct (walk_at i ltac:(lia)) as (k & w & -> & Hi & Hk). cbn [res_bind]. destruct (tracks_lookup _ _ _ _ Ht1 Hk) as (o & Ho & Hs). unfold deref. rewrite Ho. cbn [res_bind].
  assert (exists st2 im2, (if otp_IsDelta o then Ok (st1, im1) else let* t := typeAt st1 k in if negb (applyDelta t) then Ok (st1, im1) else tryBases sha1 encodedObject l window (Z.of_nat i) k i st1 im1) = Ok (st2, im2) /\
    tracks settled_as st2 /\ indexes im2) as (st2 & im2 & -> & Ht2 & Him2).
  { destruct (otp_IsDelta o); [eauto|]. rewrite (typeAt_ok st1 k w Ht1 Hk). cbn [res_bind]. destruct (negb _); [eauto|]. apply (tryBases_ok window i k w i); [lia|done..]. }
  cbn [res_bind]. apply (IH (S i) st2 im2); [lia|done..].
Qed.

Lemma walk_ok window st : 0 <= window < 2 ^ 63 -> tracks settled_as st -> exists st', walk sha1 encodedObject l window st = Ok st' /\ tracks settled_as st'.
Proof.
  intros Hw Ht. unfold walk. rewrite i64_small by lia. apply walk_loop_ok; [lia|lia|done|]. intros h idx v. by rewrite lookup_empty.
Qed.
End Walk.

Hypothesis schedule_permutes : forall gs, schedule gs ≡ₚ gs.

Lemma walkGroups_ok window gs otp : 0 <= window < 2 ^ 63 -> (forall k, k ∈ otp -> (k < length ws)%nat) -> StronglySorted not_smaller otp ->
  (forall g, g ∈ gs -> exists a b, otp = a ++ g ++ b) -> forall st, tracks settled_as st -> exists st', walkGroups sha1 encodedObject gs window st = Ok st' /\ tracks settled_as st'.
Proof.
  intros Hw Hotp Hs. induction gs as [|g gs IH]; intros Hg st Ht; cbn [walkGroups]; [eauto|]. destruct (Hg g ltac:(by left)) as (a & b & E).
  destruct (walk_ok g) with (window := window) (st := st) as (st1 & -> & Ht1).
  - intros k Hk. apply Hotp. rewrite E. set_solver.
  - rewrite E in Hs. apply StronglySorted_app_1_r in Hs. by apply StronglySorted_app_1_l in Hs.
  - done.
  - done.
  - cbn [res_bind]. apply IH; [|done]. intros g' Hg'. apply Hg. by right.
Qed.

Lemma concat_member {A} (gs : list (list A)) g : g ∈ gs -> exists a b, concat gs = a ++ g ++ b.
Proof. intros Hg. apply list_elem_of_split in Hg as (x & y & ->). exists (concat x), (concat y). by rewrite concat_app. Qed.

Lemma ObjectsToPack_ok fuel window : (length ws < fuel)%nat -> 0 <= window < 2 ^ 63 ->
  exists st otp, ObjectsToPack sha1 encodedObject deltaObject sort schedule fuel hashes window = Ok (st, otp) /\ otp ≡ₚ seq 0 (length ws) /\ tracks settled_as st.
Proof.
  intros Hf Hw. unfold ObjectsToPack. destruct (objectsToPack_ok fuel window Hf) as (st & -> & Ht). cbn [res_bind]. rewrite (tracks_length _ _ Ht).
  destruct (window =? 0); [eauto|].
  destruct (selector_sort_ok st (seq 0 (length ws)) Ht) as (otp & -> & Hp & Hs); [intros k Hk; apply elem_of_seq in Hk; lia|]. cbn [res_bind].
  assert (forall k, k ∈ otp -> (k < length ws)%nat) as Hotp by (intros k Hk; rewrite Hp in Hk; apply elem_of_seq in Hk; lia).
  destruct (groupByType_ok st Ht otp None []) as (gs & -> & Eg); [intros k [Hk|?]; [by apply Hotp|done]|done|]. cbn [res_bind concat app] in *.
  destruct (walkGroups_ok window (schedule gs) otp Hw Hotp Hs) with (st := st) as (st' & -> & Ht'); [|done|cbn [res_bind]; eauto].
  intros g Hg. rewrite schedule_permutes in Hg. destruct (concat_member gs g Hg) as (a & b & E). exists a, b. by rewrite <- Eg.
Qed.

(** ** From identifiers to a pack and back *)
Section Packing.
Variable deflate : bytes -> bytes.
Hypothesis Hdeflate : forall c, len (deflate c) <= 2 * len c + 1000.

(** Room for the entry of an object, compressed or as a delta. *)
Definition entryRoom : Z := 30 + (2 * (8 * maxSize + 20) + 1000).
Definition origOf (k : nat) : ObjectType * bytes := match ws !! k with Some w => (po_Type w, po_Content w) | None => (0, []) end.

Lemma stored_room h w : stored h w -> 30 + len (deflate (po_Content w)) <= entryRoom.
Proof. intros Hs. pose proof (so_small _ _ Hs). pose proof (Hdeflate (po_Content w)). unfold entryRoom. lia. Qed.

Lemma plain_ready objs w o : stored (po_Hash w) w -> plain w o -> object_ready deflate false [] objs entryRoom o.
Proof.
  intros Hw (E0 & Eb & Eo & Eor). exists w. split; [done|]. split; [done|]. split; [by eapply stored_room|]. rewrite Eb. exists (po_Type w), (po_Size w).
  cbn [otp_Type]. unfold otp_Size. rewrite Eor. split; [done|]. split; [apply (so_type _ _ Hw)|]. split; [done|]. rewrite (so_size _ _ Hw). pose proof (so_small _ _ Hw). pose proof (len_nonneg (po_Content w)). lia.
Qed.

Lemma tracks_encodable st otp : tracks settled_as st -> otp ≡ₚ seq 0 (length ws) -> 12 + entryRoom * len ws < 2 ^ 63 ->
  encodable deflate encodedObject false st otp entryRoom (fun _ => 0%nat).
Proof.
  intros Ht Hp Hroom. assert (forall k, k ∈ otp <-> (k < length ws)%nat) as Hin by (intros k; rewrite Hp, elem_of_seq; lia). constructor; [constructor|].
  - rewrite Hp. apply NoDup_seq.
  - intros k Hk. apply Hin in Hk. destruct (lookup_lt_is_Some_2 ws k Hk) as [w Hw]. destruct (tracks_lookup _ _ _ _ Ht Hw) as (o & Ho & Hs). exists o. split; [done|].
    destruct Hs as [Hpl|(b & E0 & Eb & base & d & Hb & Ed & Hd & Hsz & (_ & _ & _ & _ & Hlen & _) & _)].
    + destruct (plain_ready otp w o (ws_stored k w Hw) Hpl) as (obj & E1 & E2 & E3 & E4). exists obj. destruct Hpl as (_ & Eb & _). rewrite Eb in *. auto.
    + exists d. split; [done|]. split; [done|]. split; [pose proof (Hdeflate (po_Content d)); unfold entryRoom; lia|]. rewrite Eb. split; [apply Hin; by eapply lookup_lt_Some|].
      split; [rewrite Hsz; pose proof (len_nonneg (po_Content d)); lia|done].
  - unfold len in *. rewrite Hp, length_seq. done.
  - intros k b Hk Eb. right. split; [done|]. apply Hin in Hk. destruct (lookup_lt_is_Some_2 ws k Hk) as [w Hw]. destruct (tracks_lookup _ _ _ _ Ht Hw) as (o & Ho & Hs).
    unfold baseOf in Eb. rewrite Ho in Eb. cbn in Eb. pose proof (ws_stored k w Hw) as Sw. destruct (settled_restore w o Sw Hs) as (o' & Er & Eo & _).
    exists o, b, o', w. split_and!; try done; [apply (so_type _ _ Sw)..| | |by eapply stored_room|apply (early_hash w o); by left];
      rewrite (so_size _ _ Sw); pose proof (so_small _ _ Sw); pose proof (len_nonneg (po_Content w)); lia.
Qed.

Lemma tracks_originals st k : tracks settled_as st -> (k < length ws)%nat -> original_ok sha1 st origOf k /\ original_restored encodedObject st origOf k.
Proof.
  intros Ht Hk. destruct (lookup_lt_is_Some_2 ws k Hk) as [w Hw]. destruct (tracks_lookup _ _ _ _ Ht Hw) as (o & Ho & Hs). pose proof (ws_stored k w Hw) as Sw. pose proof (so_small _ _ Sw).
  assert (origOf k = (po_Type w, po_Content w)) as Eorig by (unfold origOf; by rewrite Hw). split.
  - unfold original_ok. rewrite Eorig. cbn [fst snd]. destruct Hs as [(E0 & Eb & Eo & Eor)|(b & E0 & Eb & base & d & Hb & Ed & Hd & Hsz & (Ety & Hbne & Hwne & Hdne & _ & _ & Hpatch) & _)].
    + exists o, w. rewrite Eb. cbn [otp_Type]. unfold otp_Size. rewrite Eor, (so_size _ _ Sw). split_and!; try done. lia.
    + exists o, d. rewrite Eb. assert (origOf b = (po_Type base, po_Content base)) as -> by (unfold origOf; by rewrite Hb). split_and!; try done. lia.
  - intros o1 o' obj Ho1 _ Er Eo. rewrite Ho in Ho1. injection Ho1 as <-. destruct (settled_restore w o Sw Hs) as (o2 & Er2 & Eo2 & _). rewrite Er in Er2. apply Ok_inj in Er2 as [= <-].
    rewrite Eo in Eo2. injection Eo2 as ->. rewrite Eorig. by rewrite (so_size _ _ Sw).
Qed.

(** What the observers are told of the object at [k]. *)
Definition reportOf (pos crc : nat -> Z) (k : nat) (w : PObj) : list ObserverEvent := objectEvents (po_Type w) (po_Size w) (pos k) (po_Hash w) (crc k).

Lemma reports_by_position pos crc otp : otp ≡ₚ seq 0 (length ws) -> flat_map (eventsFor sha1 origOf pos crc) otp ≡ₚ concat (imap (reportOf pos crc) ws).
Proof.
  intros ->. rewrite flat_map_concat_map. assert (map (eventsFor sha1 origOf pos crc) (seq 0 (length ws)) = imap (reportOf pos crc) ws) as ->; [|done].
  apply list_eq. intros k. rewrite list_lookup_fmap, list_lookup_imap. destruct (ws !! k) as [w|] eqn:E.
  - rewrite lookup_seq_lt by (by eapply lookup_lt_Some). cbn. unfold eventsFor, reportOf, origOf. rewrite E. pose proof (ws_stored k w E) as Sw. by rewrite <- (so_id _ _ Sw), (so_size _ _ Sw).
  - rewrite lookup_seq_ge by (by apply lookup_ge_None). done.
Qed.
End Packing.
End Selecting.

(** C2: the pack of some identifiers holds their objects.  For a storage that has them, and whose own deltas make them,
    [Encode] ends without an error for any window, sort and order of the goroutines; parsing what it wrote gives the
    checksum it returned, and tells the observers of each identifier once, with the type and the size of its object. *)
Theorem pack_pipeline (sha1 : bytes -> bytes) (crc32 : bytes -> Z) (deflate : bytes -> bytes) (inflate : bytes -> option (bytes * (error + bytes)))
    (encodedObject : ObjectID -> error + PObj) (deltaObject : option (ObjectID -> error + PObj))
    (sort : (SortKey -> SortKey -> bool) -> list SortKey -> list SortKey) (schedule : list (list nat) -> list (list nat))
    (seeker : bool) (maxSize : Z) (depth : ObjectID -> nat) (hashes : list ObjectID) (ws : list PObj) (packWindow : Z) (fuel : nat)
    (Hinf : forall c r, inflate (deflate c ++ r) = Some (c, inr r)) (Hsha : forall b, len (sha1 b) = 20) (Hdeflate : forall c, len (deflate c) <= 2 * len c + 1000)
    (sort_permutes : forall less l, sort less l ≡ₚ l) (sort_orders : forall l, StronglySorted (fun a b => byTypeAndSize_Less b a = false) (sort byTypeAndSize_Less l))
    (schedule_permutes : forall gs, schedule gs ≡ₚ gs)
    (Hws : Forall2 (sound sha1 encodedObject deltaObject maxSize depth) hashes ws) (Hmax : 0 <= maxSize < 2 ^ 31)
    (Hne : hashes <> []) (Hn : len hashes < 2 ^ 32) (Hroom : 12 + entryRoom maxSize * len hashes < 2 ^ 63)
    (Hw : 0 <= packWindow < 2 ^ 63) (Hf : (length hashes < fuel)%nat) :
  exists pack h st' p' evs pos crc, Encode sha1 encodedObject deltaObject sort schedule deflate false fuel hashes packWindow = Ok (pack, h, st') /\
    Parse sha1 crc32 inflate (fun (st : Empty_set) t sz c => inr st) (fun st t id => inl ErrObjectNotFound) (fun log ev => (log ++ [ev], None)) seeker false
      (length hashes + 3) (NewParser pack None []) = Ok (p', inr h) /\
    pr_observers p' = EvHeader (len hashes) :: evs ++ [EvFooter h] /\ evs ≡ₚ concat (imap (reportOf pos crc) ws) /\ map po_Hash ws = hashes.
Proof.
  assert (length hashes = length ws) as El by (by eapply Forall2_length). unfold len in Hn, Hroom |- *. rewrite El in *.
  destruct (ObjectsToPack_ok sha1 encodedObject deltaObject sort schedule maxSize depth hashes ws Hws Hmax sort_permutes sort_orders schedule_permutes fuel packWindow Hf Hw) as (st & otp & E & Hp & Ht).
  assert (length otp = length ws) as Elo by (by rewrite Hp, length_seq).
  destruct (pack_parse sha1 crc32 deflate inflate encodedObject seeker st otp (origOf ws) (fun _ => 0%nat) (entryRoom maxSize) fuel Hinf Hsha) as (B & st' & order & bss & p' & evs & Ee & _ & _ & _ & _ & Epar & Hobs & Hev).
  - by eapply tracks_encodable.
  - intros k Hk. eapply tracks_originals; [done..|]. rewrite Hp in Hk. apply elem_of_seq in Hk. lia.
  - intros ->. destruct hashes; [done|]. cbn in *. lia.
  - unfold len. lia.
  - lia.
  - eexists _, _, st', p', evs, (offsetOf st'), (crcOf crc32 order bss). unfold Encode. rewrite E. cbn [res_bind]. unfold len in Hobs. rewrite Elo in *. split_and!; try done.
    + rewrite Hev. by eapply reports_by_position.
    + clear -Hws. induction Hws as [|h w hs l [Hs _] _ IH]; [done|]. cbn [map]. by rewrite (so_hash _ _ _ _ _ Hs), IH.
Qed.

(** ** A sample: two blobs, one kept as a delta on the other, and a commit *)
Definition objectOf (t : ObjectType) (c : bytes) : PObj := mkPObj t (len c) (Hasher_Sum toySha1 t (len c) c) c None.
Definition sampleShort : PObj := objectOf BlobObject (concat (replicate 8 (bs "hello, world, "))).
Definition sampleLong : PObj := objectOf BlobObject (concat (replicate 8 (bs "hello, world, ")) ++ bs "and more of it").
Definition sampleCommit : PObj := objectOf CommitObject (bs "tree").
Definition sampleDelta : PObj :=
  match DiffDelta (po_Content sampleShort) (po_Content sampleLong) with
  | Ok d => mkPObj OFSDeltaObject (len d) ZeroHash d (Some (mkDeltaInfo (po_Hash sampleShort) (po_Hash sampleLong) (po_Size sampleLong)))
  | _ => sampleLong
  end.
Definition sampleObjects : list PObj := [sampleShort; sampleCommit; sampleLong].
Definition sampleGet (h : ObjectID) : error + PObj := match find (fun o => bool_decide (po_Hash o = h)) sampleObjects with Some o => inr o | None => inl ErrObjectNotFound end.
Definition sampleGetDelta (h : ObjectID) : error + PObj := if bool_decide (h = po_Hash sampleLong) then inr sampleDelta else sampleGet h.
Definition sampleDepth (h : ObjectID) : nat := if bool_decide (h = po_Hash sampleLong) then 1%nat else 0%nat.

Lemma sample_stored : Forall2 (stored toySha1 sampleGet 1000) (map po_Hash sampleObjects) sampleObjects.
Proof. repeat constructor; vm_compute; congruence. Qed.

Lemma sample_sound : Forall2 (sound toySha1 sampleGet (Some sampleGetDelta) 1000 sampleDepth) (map po_Hash sampleObjects) sampleObjects.
Proof.
  pose proof sample_stored as Hs. unfold sampleObjects in *. cbn [map] in *. inversion_clear Hs as [|? ? ? ? H1 Hs']. inversion_clear Hs' as [|? ? ? ? H2 Hs]. inversion_clear Hs as [|? ? ? ? H3 _].
  constructor; [|constructor; [|constructor; [|constructor]]]; (split; [done|]); intros get [= <-].
  - left. vm_compute. reflexivity.
  - left. vm_compute. reflexivity.
  - right. exists sampleDelta. split; [vm_compute; reflexivity|]. constructor; [vm_compute; reflexivity..|].
    exists (mkDeltaInfo (po_Hash sampleShort) (po_Hash sampleLong) (po_Size sampleLong)), sampleShort. split; [vm_compute; reflexivity|]. split; [done|]. split; [done|]. split; [exact H1|].
    split; [|vm_compute; lia]. unfold rebuilds. split_and!; vm_compute; congruence.
Qed.

Lemma sort_by_less_orders l : StronglySorted (fun a b => byTypeAndSize_Less b a = false) (insertionSort byTypeAndSize_Less l).
Proof.
  assert (Transitive (fun a b => byTypeAndSize_Less b a = false)) as Htr.
  { intros a b c. unfold byTypeAndSize_Less. repeat (case_match; try done); lia. }
  apply (insertionSort_sorted byTypeAndSize_Less (fun a b => byTypeAndSize_Less b a = false)); [|by intros a b H]. intros a b. unfold byTypeAndSize_Less. repeat (case_match; try done); lia.
Qed.

Lemma toy_deflate_len c : len (toyDeflate c) <= 2 * len c + 1000.
Proof.
  assert (len (flat_map (fun b => [x01; b]) c) = 2 * len c) as E.
  { induction c as [|b c IH]; [done|]. cbn [flat_map]. rewrite len_app, IH, (len_cons b c). change (len [x01; b]) with 2. lia. }
  unfold toyDeflate. rewrite len_app, E. change (len [x00]) with 1. lia.
Qed.

Lemma pack_pipeline_witness :
  exists pack h st' p' evs pos crc, Encode toySha1 sampleGet (Some sampleGetDelta) insertionSort (@rev (list nat)) toyDeflate false 4 (map po_Hash sampleObjects) 10 = Ok (pack, h, st') /\
    Parse toySha1 len toyInflate (fun (st : Empty_set) t sz c => inr st) (fun st t id => inl ErrObjectNotFound) (fun log ev => (log ++ [ev], None)) false false 6 (NewParser pack None []) = Ok (p', inr h) /\
    pr_observers p' = EvHeader 3 :: evs ++ [EvFooter h] /\ evs ≡ₚ concat (imap (reportOf pos crc) sampleObjects) /\ map po_Hash sampleObjects = map po_Hash sampleObjects.
Proof.
  apply (pack_pipeline toySha1 len toyDeflate toyInflate sampleGet (Some sampleGetDelta) insertionSort (@rev (list nat)) false 1000 sampleDepth (map po_Hash sampleObjects) sampleObjects 10 4
    toy_inflate toy_sha1_len toy_deflate_len (@insertionSort_perm SortKey) sort_by_less_orders); [|exact sample_sound|lia|done|done|done|lia|cbn; lia].
  intros gs. symmetry. apply Permutation_rev.
Defined.

(** ** What the selector leaves *)

(** The delta that is reused is a base of its own base: the selector makes a cycle, which the encoder breaks. *)
Example selector_makes_cycle :
  exists st, ObjectsToPack toySha1 sampleGet (Some sampleGetDelta) insertionSort (fun gs => gs) 4 (map po_Hash sampleObjects) 10 = Ok (st, [2; 0; 1]%nat) /\ map otp_Base st = [Some 2%nat; None; Some 0%nat].
Proof. eexists [_; _; _]. split; vm_compute; reflexivity. Qed.

(** A second delta on a base of the same depth may be larger than the first, near the limit twice as large. *)
Example second_delta_larger : deltaSizeLimit 100 48 49 true = 200 /\ deltaSizeLimit 100 0 1 true = 102.
Proof. split; reflexivity. Qed.
