(* ===== verification/Cache.v ===== *)
(** * plumbing/cache

    Model of common.go, object_lru.go and buffer_lru.go: the two caches with a
    size bound and least-recently-used eviction, over a model of container/list
    whose elements have an identity, as the map of a cache holds element
    pointers.  The mutex is not modelled: each operation holds it from start to
    end, so operations are atomic. *)
From S2P Require Import Prelude.

(** ** container/list (Go's standard library)

    A list is its elements from front to back, each with its identity. *)
Record GoList (V : Type) := mkList { items : list (nat * V); fresh_id : nat }.
Arguments mkList {V} items fresh_id.
Arguments items {V} g.
Arguments fresh_id {V} g.

Section GoList.
Context {V : Type}.

Definition list_New : GoList V := mkList [] 0.

Definition PushFront (l : GoList V) (v : V) : nat * GoList V :=
  (fresh_id l, mkList ((fresh_id l, v) :: items l) (S (fresh_id l))).

(** [ee.Value]; an element that was removed has no value here. *)
Definition Value (l : GoList V) (e : nat) : res V :=
  match list_find (fun x => x.1 = e) (items l) with
  | Some (_, x) => Ok x.2
  | None => Panic
  end.

Definition others (e : nat) (xs : list (nat * V)) : list (nat * V) := filter (fun x => x.1 <> e) xs.

Definition Remove (l : GoList V) (e : nat) : GoList V := mkList (others e (items l)) (fresh_id l).

(** Nothing happens when the element is not of this list. *)
Definition MoveToFront (l : GoList V) (e : nat) : GoList V :=
  match list_find (fun x => x.1 = e) (items l) with
  | Some (_, x) => mkList (x :: others e (items l)) (fresh_id l)
  | None => l
  end.

Definition SetValue (l : GoList V) (e : nat) (v : V) : GoList V :=
  mkList (map (fun x => if decide (x.1 = e) then (e, v) else x) (items l)) (fresh_id l).

Definition Back (l : GoList V) : option nat := option_map fst (last (items l)).
End GoList.

(** ** Sizes (common.go); [FileSize] is an [int64] *)
Definition Byte_ : Z := 1.
Definition KiByte : Z := Z.shiftl 1 10.
Definition MiByte : Z := Z.shiftl 1 20.
Definition GiByte : Z := Z.shiftl 1 30.
Definition DefaultMaxSize : Z := 96 * MiByte.

(** ** The caches

    [V] is what is cached: [keyOf] and [sizeOf] are [Hash()] and [Size()] of an
    [EncodedObject], or the [Key] and [len(Slice)] of a [buffer]. *)
Record LRU (K V : Type) `{Countable K} := mkLRU {
  lruMax : Z; actualSize : Z; ll : option (GoList V); cache : option (gmap K nat) }.
Arguments mkLRU {K V _ _} lruMax actualSize ll cache.
Arguments lruMax {K V _ _} l.
Arguments actualSize {K V _ _} l.
Arguments ll {K V _ _} l.
Arguments cache {K V _ _} l.

Section LRU.
Context {K V : Type} `{Countable K} (keyOf : V -> K) (sizeOf : V -> Z).
Implicit Types (c : LRU K V) (l : GoList V) (m : gmap K nat) (v : V).

Definition NewObjectLRU (maxSize : Z) : LRU K V := mkLRU maxSize 0 None None.
Definition NewObjectLRUDefault : LRU K V := NewObjectLRU DefaultMaxSize.
Definition NewBufferLRU (maxSize : Z) : LRU K V := mkLRU maxSize 0 None None.
Definition NewBufferLRUDefault : LRU K V := NewBufferLRU DefaultMaxSize.

(** The loop of [ObjectLRU.Put] that evicts from the back. *)
Fixpoint ObjectLRU_evict (fuel : nat) (max actual : Z) l m : res (LRU K V) :=
  match fuel with
  | O => NoFuel
  | S fuel =>
    if actual >? max then
      match Back l with
      | None => Ok (mkLRU max 0 (Some l) (Some m))
      | Some e =>
        let* last := Value l e in
        ObjectLRU_evict fuel max (i64 (actual - sizeOf last)) (Remove l e) (delete (keyOf last) m)
      end
    else Ok (mkLRU max actual (Some l) (Some m))
  end.

(** The loop of [BufferLRU.Put]: it has no check for an empty list. *)
Fixpoint BufferLRU_evict (fuel : nat) (max actual : Z) l m : res (LRU K V) :=
  match fuel with
  | O => NoFuel
  | S fuel =>
    if actual >? max then
      match Back l with
      | None => Panic
      | Some e =>
        let* last := Value l e in
        BufferLRU_evict fuel max (i64 (actual - sizeOf last)) (Remove l e) (delete (keyOf last) m)
      end
    else Ok (mkLRU max actual (Some l) (Some m))
  end.

(** [Put] up to its loop, which is an argument (the two caches share this part). *)
Definition Put_with (evict : nat -> Z -> Z -> GoList V -> gmap K nat -> res (LRU K V))
    c (obj : V) : res (LRU K V) :=
  let c := match cache c with
           | None => mkLRU (lruMax c) 0 (Some list_New) (Some ∅)
           | Some _ => c
           end in
  match ll c, cache c with
  | Some l, Some m =>
    let objSize := sizeOf obj in
    let key := keyOf obj in
    match m !! key with
    | Some ee =>
      let* oldObj := Value l ee in
      let objSize := i64 (objSize - sizeOf oldObj) in
      let l := SetValue (MoveToFront l ee) ee obj in
      evict (S (length (items l))) (lruMax c) (i64 (actualSize c + objSize)) l m
    | None =>
      if objSize >? lruMax c then Ok c
      else
        let (ee, l) := PushFront l obj in
        evict (S (length (items l))) (lruMax c) (i64 (actualSize c + objSize)) l (<[key := ee]> m)
    end
  | _, _ => Panic
  end.

Definition ObjectLRU_Put := Put_with ObjectLRU_evict.
Definition BufferLRU_Put := Put_with BufferLRU_evict.

(** [Get]; a nil map has no keys. *)
Definition LRU_Get c (k : K) : res (option V * LRU K V) :=
  match cache c ≫= (fun m => m !! k) with
  | None => Ok (None, c)
  | Some ee =>
    match ll c with
    | None => Panic
    | Some l =>
      let* v := Value l ee in
      Ok (Some v, mkLRU (lruMax c) (actualSize c) (Some (MoveToFront l ee)) (cache c))
    end
  end.

Definition LRU_Clear c : LRU K V := mkLRU (lruMax c) 0 None None.
End LRU.

(** The buffers of [BufferLRU]. *)
Record buffer := mkBuffer { Key : Z; Slice : bytes }.

(** ** The abstract cache

    The cached values from the most to the least recently used one. *)
Section Spec.
Context {K V : Type} `{EqDecision K} (keyOf : V -> K) (sizeOf : V -> Z).
Implicit Types (vs : list V) (v : V) (k : K).

Definition total vs : Z := foldr (fun v s => sizeOf v + s) 0 vs.

(** The longest prefix of a list that fits [max], given the list reversed. *)
Fixpoint trim_rev (max : Z) (rvs : list V) : list V :=
  match rvs with
  | [] => []
  | _ :: rest => if total rvs <=? max then rvs else trim_rev max rest
  end.

Definition trim (max : Z) vs : list V := rev (trim_rev max (rev vs)).

Definition without k vs : list V := filter (fun v => keyOf v <> k) vs.

Definition has k vs : bool := existsb (fun v => bool_decide (keyOf v = k)) vs.

Definition spec_put (max : Z) vs v : list V :=
  if negb (has (keyOf v) vs) && (sizeOf v >? max) then vs
  else trim max (v :: without (keyOf v) vs).

Definition spec_get vs k : option V * list V :=
  match List.find (fun v => bool_decide (keyOf v = k)) vs with
  | None => (None, vs)
  | Some v => (Some v, v :: without k vs)
  end.

Lemma total_app a b : total (a ++ b) = total a + total b.
Proof. unfold total. induction a as [|x a IH]; cbn [app foldr]; [lia|]. rewrite IH. lia. Qed.

Lemma total_rev a : total (rev a) = total a.
Proof.
  induction a as [|x a IH]; cbn [rev]; [done|]. rewrite total_app, IH. unfold total. cbn [foldr]. lia.
Qed.

Lemma total_Permutation a b : a ≡ₚ b -> total a = total b.
Proof. unfold total. induction 1; cbn [foldr]; lia. Qed.

Lemma trim_snoc max vs v :
  trim max (vs ++ [v]) = if total (vs ++ [v]) <=? max then vs ++ [v] else trim max vs.
Proof.
  unfold trim. rewrite rev_app_distr. cbn [rev app trim_rev].
  replace (total (v :: rev vs)) with (total (vs ++ [v])).
  2: { change (v :: rev vs) with ([v] ++ rev vs). rewrite !total_app, total_rev. lia. }
  destruct (total (vs ++ [v]) <=? max); [|done]. cbn [rev]. by rewrite rev_involutive.
Qed.

Lemma trim_fits max vs : total vs <= max -> trim max vs = vs.
Proof.
  destruct vs as [|v vs _] using rev_ind; [done|]. intros Ht. rewrite trim_snoc.
  destruct (Z.leb_spec (total (vs ++ [v])) max); [done|lia].
Qed.

Lemma trim_prefix max vs : exists dropped, vs = trim max vs ++ dropped.
Proof.
  induction vs as [|v vs [d Hd]] using rev_ind; [by exists []|]. rewrite trim_snoc.
  destruct (total (vs ++ [v]) <=? max); [exists []; by rewrite app_nil_r|].
  exists (d ++ [v]). rewrite app_assoc, <- Hd. done.
Qed.

Lemma trim_total max vs : 0 <= max -> total (trim max vs) <= max.
Proof.
  intros Hm. induction vs as [|v vs IH] using rev_ind; [done|]. rewrite trim_snoc.
  destruct (Z.leb_spec (total (vs ++ [v])) max); [done|exact IH].
Qed.

Lemma total_nonneg vs : Forall (fun v => 0 <= sizeOf v) vs -> 0 <= total vs.
Proof. unfold total. induction 1; cbn [foldr]; lia. Qed.

(** The first value survives a trim if it fits by itself. *)
Lemma trim_head max v vs :
  sizeOf v <= max -> exists rest, trim max (v :: vs) = v :: rest.
Proof.
  intros Hv. induction vs as [|x vs IH] using rev_ind.
  - exists []. apply trim_fits. unfold total. cbn [foldr]. lia.
  - rewrite app_comm_cons, trim_snoc. destruct (total ((v :: vs) ++ [x]) <=? max); [|done].
    by exists (vs ++ [x]).
Qed.

Lemma without_sublist k vs : sublist (without k vs) vs.
Proof. apply sublist_filter. Qed.

Lemma has_spec k vs : has k vs = true <-> exists v, v ∈ vs /\ keyOf v = k.
Proof.
  unfold has. rewrite existsb_exists. split.
  - intros (v & Hv & E). apply bool_decide_eq_true in E. exists v. split; [by apply list_elem_of_In|done].
  - intros (v & Hv & E). exists v. split; [by apply list_elem_of_In|by apply bool_decide_eq_true].
Qed.
End Spec.

(** ** Elements of a list *)
Section ListFacts.
Context {V : Type}.
Implicit Types (l : GoList V) (v : V) (xs : list (nat * V)).

(** The element of an id is unique. *)
Lemma find_id e v xs :
  NoDup (map fst xs) -> (e, v) ∈ xs -> exists i, list_find (fun x => x.1 = e) xs = Some (i, (e, v)).
Proof.
  intros Hnd Hin. apply list_elem_of_lookup in Hin as [i Hi].
  destruct (list_find (fun x => x.1 = e) xs) as [[j [e' v']]|] eqn:E.
  - apply list_find_Some in E as (Hj & He & _). cbn in He. subst e'.
    assert (i = j) as ->.
    { eapply NoDup_lookup; [exact Hnd|rewrite list_lookup_fmap, Hi; reflexivity|
        rewrite list_lookup_fmap, Hj; reflexivity]. }
    exists j. congruence.
  - eapply list_find_None in E. eapply Forall_lookup_1 in E; [|exact Hi]. by cbn in E.
Qed.

Lemma Value_in l e v : NoDup (map fst (items l)) -> (e, v) ∈ items l -> Value l e = Ok v.
Proof. intros Hnd Hin. unfold Value. by destruct (find_id e v _ Hnd Hin) as [i ->]. Qed.

Lemma others_not_in e xs : Forall (fun x => x.1 <> e) xs -> others e xs = xs.
Proof. unfold others. induction 1; [done|]. rewrite filter_cons_True by done. congruence. Qed.

Lemma others_perm xs e v : NoDup (map fst xs) -> (e, v) ∈ xs -> (e, v) :: others e xs ≡ₚ xs.
Proof.
  intros Hnd Hin. apply list_elem_of_split in Hin as (a & b & ->). rewrite map_app in Hnd. cbn [map fst] in Hnd.
  apply NoDup_app in Hnd as (_ & Ha & Hb). apply NoDup_cons in Hb as [Hb _].
  assert (others e (a ++ (e, v) :: b) = a ++ b) as ->.
  { unfold others. rewrite filter_app, filter_cons_False by (cbn; tauto).
    f_equal; apply others_not_in, Forall_forall; intros [e' w] Hx E; cbn in E; subst e'.
    - apply (Ha e); [|left]. by apply (list_elem_of_fmap_2 fst a (e, w)).
    - apply Hb. by apply (list_elem_of_fmap_2 fst b (e, w)). }
  apply Permutation_middle.
Qed.

Lemma others_last xs e v : NoDup (map fst (xs ++ [(e, v)])) -> others e (xs ++ [(e, v)]) = xs.
Proof.
  intros Hnd. rewrite map_app in Hnd. apply NoDup_app in Hnd as (_ & Ha & _).
  unfold others. rewrite filter_app, filter_cons_False by (cbn; tauto). cbn. rewrite app_nil_r.
  apply others_not_in, Forall_forall. intros [e' w] Hx E. cbn in E. subst e'.
  apply (Ha e); [by apply (list_elem_of_fmap_2 fst xs (e, w))|left].
Qed.

Lemma SetValue_front e v v' xs n :
  e ∉ map fst xs -> SetValue (mkList ((e, v) :: xs) n) e v' = mkList ((e, v') :: xs) n.
Proof.
  intros He. unfold SetValue. cbn [items map fst fresh_id]. rewrite decide_True by done. do 2 f_equal.
  rewrite <- (map_id xs) at 2. apply map_ext_in. intros [e' w] Hx. cbn. rewrite decide_False; [done|].
  intros ->. apply He. apply (list_elem_of_fmap_2 fst xs (e, w)). by apply list_elem_of_In.
Qed.
End ListFacts.

Section Invariant.
Context {K V : Type} `{Countable K} (keyOf : V -> K) (sizeOf : V -> Z).
Implicit Types (c : LRU K V) (l : GoList V) (m : gmap K nat) (v : V) (xs : list (nat * V)).

(** Sizes that cannot overflow an [int64] sum of two. *)
Definition size_ok v : Prop := 0 <= sizeOf v < 2 ^ 62.

(** The list and the map of a cache agree. *)
Record linked xs m : Prop := {
  lk_ids : NoDup (map fst xs);
  lk_keys : NoDup (map (fun x => keyOf x.2) xs);
  lk_map : forall k e, m !! k = Some e <-> exists v, (e, v) ∈ xs /\ keyOf v = k }.

Definition values c : list V := match ll c with Some l => map snd (items l) | None => [] end.

Record lru_inv c : Prop := {
  iv_max : 0 <= lruMax c < 2 ^ 62;
  iv_size : actualSize c = total sizeOf (values c);
  iv_bound : actualSize c <= lruMax c;
  iv_values : Forall size_ok (values c);
  iv_nil : is_Some (ll c) <-> is_Some (cache c);
  iv_linked : forall l m, ll c = Some l -> cache c = Some m ->
    linked (items l) m /\ Forall (fun x => (x.1 < fresh_id l)%nat) (items l) }.

Lemma linked_empty : linked [] ∅.
Proof.
  constructor; [constructor|constructor|]. intros k e. rewrite lookup_empty.
  split; [discriminate|intros (v & Hv & _); by apply not_elem_of_nil in Hv].
Qed.

Lemma others_values xs m e v :
  linked xs m -> (e, v) ∈ xs -> map snd (others e xs) = without keyOf (keyOf v) (map snd xs).
Proof.
  intros [Hids Hkeys _] Hin. unfold others, without.
  assert (forall x, x ∈ xs -> (x.1 = e <-> keyOf x.2 = keyOf v)) as Hiff.
  { intros [e' v'] Hx. cbn. apply list_elem_of_lookup in Hx as [i Hi], Hin as [j Hj]. split; intros E.
    - subst e'. assert (i = j) as ->; [|congruence].
      eapply NoDup_lookup; [exact Hids|rewrite list_lookup_fmap, Hi; reflexivity|
        rewrite list_lookup_fmap, Hj; reflexivity].
    - assert (i = j) as ->; [|congruence].
      eapply NoDup_lookup; [exact Hkeys|rewrite list_lookup_fmap, Hi; reflexivity|
        rewrite list_lookup_fmap, Hj; cbn; by rewrite E]. }
  clear - Hiff. induction xs as [|x xs IH]; [done|]. cbn [map].
  assert (x.1 = e <-> keyOf x.2 = keyOf v) as Hx by (apply Hiff; left).
  specialize (IH (fun y Hy => Hiff y (list_elem_of_further _ _ _ Hy))).
  destruct (decide (x.1 = e)) as [E|E].
  - rewrite filter_cons_False by tauto. rewrite filter_cons_False by tauto. done.
  - rewrite filter_cons_True by tauto. rewrite filter_cons_True by tauto. cbn [map]. by rewrite IH.
Qed.
End Invariant.

Section Steps.
Context {K V : Type} `{Countable K} (keyOf : V -> K) (sizeOf : V -> Z).
Implicit Types (c : LRU K V) (l : GoList V) (m : gmap K nat) (v : V) (xs : list (nat * V)).
Abbreviation linked := (linked keyOf).

Lemma linked_Permutation xs ys m : xs ≡ₚ ys -> linked xs m -> linked ys m.
Proof.
  intros Hp [Hi Hk Hm]. constructor.
  - by rewrite <- (Permutation_map fst Hp).
  - by rewrite <- (Permutation_map _ Hp).
  - intros k e. rewrite Hm. by setoid_rewrite Hp.
Qed.

Lemma linked_push xs m e v :
  linked xs m -> e ∉ map fst xs -> m !! keyOf v = None ->
  linked ((e, v) :: xs) (<[keyOf v := e]> m).
Proof.
  intros [Hi Hk Hm] He Hv. constructor; cbn [map fst snd].
  - by constructor.
  - constructor; [|done]. intros Hin. apply list_elem_of_fmap in Hin as ([e' v'] & E & Hin). cbn in E.
    assert (m !! keyOf v = Some e') by (apply Hm; eauto). congruence.
  - intros k e'. destruct (decide (keyOf v = k)) as [<-|Hne].
    + rewrite lookup_insert_eq. split.
      * intros [= <-]. exists v. split; [left|done].
      * intros (v' & [[= -> ->]|Hin]%elem_of_cons & E); [done|].
        assert (m !! keyOf v = Some e') by (apply Hm; eauto). congruence.
    + rewrite lookup_insert_ne by done. rewrite Hm. split.
      * intros (v' & Hin & E). exists v'. split; [by right|done].
      * intros (v' & [[= -> ->]|Hin]%elem_of_cons & E); [done|eauto].
Qed.

(** Removing an element with its key. *)
Lemma linked_pop xs m e v :
  linked ((e, v) :: xs) m -> linked xs (delete (keyOf v) m).
Proof.
  intros [Hi Hk Hm]. cbn [map fst snd] in *.
  apply NoDup_cons in Hi as [Hei Hi], Hk as [Hek Hk]. constructor; [done..|].
  assert (forall e' v', (e', v') ∈ xs -> keyOf v' <> keyOf v) as Hne.
  { intros e' v' Hin E. apply Hek. rewrite <- E. by apply (list_elem_of_fmap_2 (fun x => keyOf x.2) xs (e', v')). }
  intros k e'. destruct (decide (keyOf v = k)) as [<-|Hk'].
  - rewrite lookup_delete_eq. split; [discriminate|]. intros (v' & Hin & E). by apply Hne in Hin.
  - rewrite lookup_delete_ne by done. rewrite Hm. split.
    + intros (v' & [[= -> ->]|Hin]%elem_of_cons & E); [done|eauto].
    + intros (v' & Hin & E). exists v'. split; [by right|done].
Qed.

(** Giving an element another value with the same key. *)
Lemma linked_swap xs m e v v' :
  linked ((e, v) :: xs) m -> keyOf v' = keyOf v -> linked ((e, v') :: xs) m.
Proof.
  intros [Hi Hk Hm] E. constructor; cbn [map fst snd] in *; [done|by rewrite E|].
  intros k e'. rewrite Hm. split; intros (w & [[= -> ->]|Hin]%elem_of_cons & Ew).
  - exists v'. split; [left|congruence].
  - exists w. split; [by right|done].
  - exists v. split; [left|congruence].
  - exists w. split; [by right|done].
Qed.

End Steps.

Section Operations.
Context {K V : Type} `{Countable K} (keyOf : V -> K) (sizeOf : V -> Z).
Implicit Types (c : LRU K V) (l : GoList V) (m : gmap K nat) (v : V) (xs : list (nat * V)).
Abbreviation linked := (linked keyOf).
Abbreviation lru_inv := (lru_inv keyOf sizeOf).
Abbreviation size_ok := (size_ok sizeOf).

(** The state in front of the eviction loop: all of the invariant but the bound. *)
Record full l m : Prop := {
  fl_linked : linked (items l) m;
  fl_fresh : Forall (fun x => (x.1 < fresh_id l)%nat) (items l);
  fl_values : Forall size_ok (map snd (items l)) }.

Lemma full_total l m : full l m -> 0 <= total sizeOf (map snd (items l)).
Proof. intros Hf. apply total_nonneg. eapply Forall_impl; [apply Hf|]. by intros v []. Qed.

Lemma total_snoc_nonneg l m xs e v :
  full l m -> items l = xs ++ [(e, v)] ->
  0 <= total sizeOf (map snd xs) /\ 0 <= sizeOf v < 2 ^ 62 /\
  total sizeOf (map snd (items l)) = total sizeOf (map snd xs) + sizeOf v.
Proof.
  intros [_ _ Hv] E. rewrite E, map_app in *. cbn [map snd] in *. apply Forall_app in Hv as [Hxs Hx].
  split; [|split].
  - apply total_nonneg. eapply Forall_impl; [exact Hxs|]. by intros ? [].
  - by apply Forall_inv in Hx.
  - rewrite total_app. cbn. lia.
Qed.

Lemma full_pop l m xs e v :
  full l m -> items l = xs ++ [(e, v)] ->
  Value l e = Ok v /\ full (Remove l e) (delete (keyOf v) m) /\ items (Remove l e) = xs.
Proof.
  intros [Hl Hf Hv] E. pose proof (lk_ids _ _ _ Hl) as Hnd.
  split; [apply Value_in; [done|rewrite E; set_solver]|].
  unfold Remove. rewrite E in *. rewrite others_last by done. split; [|done].
  apply Forall_app in Hf as [Hf _]. rewrite map_app in Hv. apply Forall_app in Hv as [Hv _].
  constructor; cbn [items fresh_id]; [|done|done].
  apply (linked_pop keyOf xs m e v). eapply linked_Permutation; [|exact Hl].
  symmetry. apply Permutation_cons_append.
Qed.

Lemma Back_snoc l xs e v : items l = xs ++ [(e, v)] -> Back l = Some e.
Proof. intros E. unfold Back. rewrite E, last_snoc. done. Qed.

Lemma ObjectLRU_evict_ok fuel : forall max l m,
  full l m -> 0 <= max < 2 ^ 62 -> total sizeOf (map snd (items l)) < 2 ^ 63 ->
  (length (items l) < fuel)%nat ->
  exists c, ObjectLRU_evict keyOf sizeOf fuel max (total sizeOf (map snd (items l))) l m = Ok c /\
    lru_inv c /\ lruMax c = max /\ values c = trim sizeOf max (map snd (items l)) /\ is_Some (cache c).
Proof.
  induction fuel as [|fuel IH]; intros max l m Hf Hmax Ht Hfuel; [lia|]. cbn [ObjectLRU_evict].
  set (tot := total sizeOf (map snd (items l))) in *.
  destruct (Z.gtb_spec tot max) as [Hgt|Hle].
  - destruct (items l) as [|[e v] xs _] eqn:Ei using rev_ind; [cbn in *; lia|]. rewrite (Back_snoc l xs e v Ei).
    destruct (full_pop l m xs e v Hf Ei) as (-> & Hf' & Ei'). cbn [res_bind].
    destruct (total_snoc_nonneg l m xs e v Hf Ei) as (Hx & Hv & Hsum). rewrite Ei in Hsum. fold tot in Hsum.
    rewrite i64_small by lia. replace (tot - sizeOf v) with (total sizeOf (map snd xs)) by lia.
    rewrite length_app in Hfuel. cbn [length] in Hfuel.
    destruct (IH max (Remove l e) (delete (keyOf v) m) Hf' Hmax) as (c & E & Hinv & Hm & Hval & Hs);
      rewrite ?Ei' in *; [lia|lia|].
    exists c. split; [exact E|]. split; [done|]. split; [done|]. split; [|done]. rewrite Hval, map_app.
    cbn [map snd]. rewrite trim_snoc.
    replace (total sizeOf (map snd xs ++ [v])) with tot; [|unfold tot; by rewrite map_app].
    destruct (Z.leb_spec tot max); [lia|done].
  - eexists. split; [reflexivity|]. destruct Hf as [Hl Hfr Hv].
    split; [|split; [done|split; [by rewrite trim_fits|by eexists]]].
    constructor; cbn [lruMax actualSize ll cache values]; auto.
    + split; by eexists.
    + intros l' m' [= <-] [= <-]. auto.
Qed.

(** The unchecked loop never meets an empty list, so it is the checked one. *)
Lemma BufferLRU_evict_eq fuel : forall max l m,
  full l m -> 0 <= max -> total sizeOf (map snd (items l)) < 2 ^ 63 ->
  BufferLRU_evict keyOf sizeOf fuel max (total sizeOf (map snd (items l))) l m =
  ObjectLRU_evict keyOf sizeOf fuel max (total sizeOf (map snd (items l))) l m.
Proof.
  induction fuel as [|fuel IH]; intros max l m Hf Hmax Ht; [done|]. cbn [ObjectLRU_evict BufferLRU_evict].
  destruct (Z.gtb_spec (total sizeOf (map snd (items l))) max) as [Hgt|Hle]; [|done].
  destruct (items l) as [|[e v] xs _] eqn:Ei using rev_ind; [cbn in *; lia|]. rewrite (Back_snoc l xs e v Ei).
  destruct (full_pop l m xs e v Hf Ei) as (-> & Hf' & Ei'). cbn [res_bind].
  destruct (total_snoc_nonneg l m xs e v Hf Ei) as (Hx & Hv & Hsum). rewrite Ei in Hsum.
  rewrite i64_small by lia. rewrite Hsum.
  replace (total sizeOf (map snd xs) + sizeOf v - sizeOf v) with (total sizeOf (map snd xs)) by lia.
  rewrite <- Ei'. apply IH; [done|done|]. rewrite Ei'. lia.
Qed.

(** What both loops do on a state in front of them. *)
Definition evicts (evict : nat -> Z -> Z -> GoList V -> gmap K nat -> res (LRU K V)) : Prop :=
  forall max l m, full l m -> 0 <= max < 2 ^ 62 -> total sizeOf (map snd (items l)) < 2 ^ 63 ->
  exists c, evict (S (length (items l))) max (total sizeOf (map snd (items l))) l m = Ok c /\
    lru_inv c /\ lruMax c = max /\ values c = trim sizeOf max (map snd (items l)) /\ is_Some (cache c).

Lemma ObjectLRU_evicts : evicts (ObjectLRU_evict keyOf sizeOf).
Proof. intros max l m Hf Hm Ht. apply ObjectLRU_evict_ok; auto. Qed.

Lemma BufferLRU_evicts : evicts (BufferLRU_evict keyOf sizeOf).
Proof. intros max l m Hf Hm Ht. rewrite BufferLRU_evict_eq by (auto; lia). apply ObjectLRU_evict_ok; auto. Qed.

Lemma inv_full c l m : lru_inv c -> ll c = Some l -> cache c = Some m -> full l m.
Proof.
  intros Hi El Em. destruct (iv_linked _ _ _ Hi l m El Em). constructor; auto.
  pose proof (iv_values _ _ _ Hi) as Hv. unfold values in Hv. by rewrite El in Hv.
Qed.

Lemma has_lookup l m k : full l m -> has keyOf k (map snd (items l)) = bool_decide (is_Some (m !! k)).
Proof.
  intros Hf. apply eq_true_iff_eq. rewrite has_spec, bool_decide_eq_true. split.
  - intros (v & Hin & E). apply list_elem_of_fmap in Hin as ([e w] & -> & Hin).
    exists e. apply (lk_map _ _ _ (fl_linked _ _ Hf)). eauto.
  - intros [e He]. apply (lk_map _ _ _ (fl_linked _ _ Hf)) in He as (v & Hin & E).
    exists v. split; [|done]. by apply (list_elem_of_fmap_2 snd (items l) (e, v)).
Qed.

Lemma without_absent k vs : has keyOf k vs = false -> without keyOf k vs = vs.
Proof.
  unfold without. intros Hh. induction vs as [|v vs IH]; [done|].
  cbn [has existsb] in Hh. apply orb_false_iff in Hh as [Hv Hvs]. apply bool_decide_eq_false in Hv.
  rewrite filter_cons_True by done. f_equal. by apply IH.
Qed.
End Operations.

Section Refinement.
Context {K V : Type} `{Countable K} (keyOf : V -> K) (sizeOf : V -> Z).
Implicit Types (c : LRU K V) (l : GoList V) (m : gmap K nat) (v : V) (xs : list (nat * V)).
Abbreviation lru_inv := (lru_inv keyOf sizeOf).
Abbreviation size_ok := (size_ok sizeOf).
Abbreviation full := (full keyOf sizeOf).

(** A list whose element [e] is moved to the front, possibly with a new value. *)
Lemma full_touch l m e v v' :
  full l m -> (e, v) ∈ items l -> keyOf v' = keyOf v -> size_ok v' ->
  full (mkList ((e, v') :: others e (items l)) (fresh_id l)) m /\
  MoveToFront l e = mkList ((e, v) :: others e (items l)) (fresh_id l) /\
  SetValue (MoveToFront l e) e v' = mkList ((e, v') :: others e (items l)) (fresh_id l) /\
  total sizeOf (map snd (items l)) = sizeOf v + total sizeOf (map snd (others e (items l))).
Proof.
  intros [Hl Hf Hv] Hin E Hs. pose proof (lk_ids _ _ _ Hl) as Hnd.
  pose proof (others_perm (items l) e v Hnd Hin) as Hp.
  assert (MoveToFront l e = mkList ((e, v) :: others e (items l)) (fresh_id l)) as Hmv.
  { unfold MoveToFront. by destruct (find_id e v _ Hnd Hin) as [i ->]. }
  assert (e ∉ map fst (others e (items l))) as He.
  { pose proof (Permutation_map fst Hp) as Hpi. cbn [map fst] in Hpi. rewrite <- Hpi in Hnd.
    by apply NoDup_cons in Hnd as [? _]. }
  rewrite <- Hp in Hf. apply Forall_cons in Hf as [Hf1 Hf].
  pose proof (Permutation_map snd Hp) as Hps. cbn [map snd] in Hps.
  assert (Forall size_ok (map snd (others e (items l)))) as Ho.
  { rewrite <- Hps in Hv. by apply Forall_cons in Hv as [_ ?]. }
  split; [|split; [exact Hmv|split]].
  - constructor; cbn [items fresh_id map snd]; [|by constructor|by constructor].
    apply (linked_swap keyOf _ _ _ v); [|done]. eapply linked_Permutation; [symmetry; exact Hp|done].
  - rewrite Hmv. by apply SetValue_front.
  - by rewrite <- (total_Permutation sizeOf _ _ Hps).
Qed.

Lemma values_some c l : ll c = Some l -> values c = map snd (items l).
Proof. intros E. unfold values. by rewrite E. Qed.

(** [Put] over any eviction loop that evicts, on an initialised cache. *)
Lemma Put_full evict c l m v :
  evicts keyOf sizeOf evict -> lru_inv c -> ll c = Some l -> cache c = Some m -> size_ok v ->
  exists c', Put_with keyOf sizeOf evict c v = Ok c' /\ lru_inv c' /\ lruMax c' = lruMax c /\
    values c' = spec_put keyOf sizeOf (lruMax c) (values c) v.
Proof.
  intros Hev Hi El Em Hv. pose proof (inv_full _ _ _ _ _ Hi El Em) as Hf.
  pose proof (iv_max _ _ _ Hi) as Hmax. pose proof (iv_size _ _ _ Hi) as Hsz. pose proof (iv_bound _ _ _ Hi) as Hb.
  unfold Put_with. rewrite Em, El, Em. rewrite (values_some c l El) in *. unfold spec_put.
  rewrite (has_lookup _ _ l m) by done. pose proof (full_total _ _ _ _ Hf) as Hnn. destruct Hv as [Hv0 Hv1].
  destruct (m !! keyOf v) as [e|] eqn:Ek.
  - pose proof Ek as Hin. apply (lk_map _ _ _ (fl_linked _ _ _ _ Hf)) in Hin as (w & Hin & Ew).
    rewrite (Value_in l e w) by (apply Hf || done). cbn [res_bind].
    destruct (full_touch l m e w v Hf Hin (eq_sym Ew) (conj Hv0 Hv1)) as (Hf' & _ & -> & Htot).
    set (l' := mkList _ _) in *.
    assert (0 <= sizeOf w < 2 ^ 62) as Hw.
    { destruct Hf as [_ _ Hvs]. rewrite Forall_forall in Hvs. apply Hvs.
      by apply (list_elem_of_fmap_2 snd (items l) (e, w)). }
    assert (total sizeOf (map snd (items l')) = actualSize c + (sizeOf v - sizeOf w)) as Htot'.
    { unfold l'. cbn [items map snd total foldr]. fold (total sizeOf (map snd (others e (items l)))). lia. }
    pose proof (full_total _ _ _ _ Hf') as Hnn'.
    rewrite (i64_small (sizeOf v - sizeOf w)) by lia. rewrite i64_small by lia. rewrite <- Htot'.
    destruct (Hev (lruMax c) l' m Hf' Hmax ltac:(lia)) as (c' & -> & Hi' & Hm' & Hval & _).
    exists c'. split; [done|]. split; [done|]. split; [done|]. rewrite bool_decide_eq_true_2 by by eexists.
    cbn [negb andb]. rewrite Hval. unfold l'. cbn [items map snd].
    rewrite (others_values keyOf (items l) m e w) by (apply Hf || done). by rewrite Ew.
  - rewrite bool_decide_eq_false_2 by (intros [x Hx]; congruence). cbn [negb andb].
    destruct (Z.gtb_spec (sizeOf v) (lruMax c)) as [Hbig|Hsmall].
    { exists c. split; [done|]. split; [done|]. split; [done|]. by apply values_some. }
    cbn [PushFront]. set (l' := mkList _ _).
    assert (full l' (<[keyOf v := fresh_id l]> m)) as Hf'.
    { destruct Hf as [Hl Hfr Hvs]. constructor; cbn [l' items fresh_id map snd].
      - apply linked_push; [done| |done]. intros Hin. apply list_elem_of_fmap in Hin as (x & Hx & Hin).
        rewrite Forall_forall in Hfr. apply Hfr in Hin. lia.
      - constructor; [cbn; lia|]. eapply Forall_impl; [exact Hfr|]. cbn. lia.
      - by constructor. }
    assert (total sizeOf (map snd (items l')) = actualSize c + sizeOf v) as Htot.
    { unfold l'. cbn [items map snd total foldr]. fold (total sizeOf (map snd (items l))). lia. }
    rewrite i64_small by lia. rewrite <- Htot.
    destruct (Hev (lruMax c) l' _ Hf' Hmax ltac:(lia)) as (c' & -> & Hi' & Hm' & Hval & _).
    exists c'. split; [done|]. split; [done|]. split; [done|]. rewrite Hval. unfold l'. cbn [items map snd].
    rewrite without_absent; [done|]. rewrite (has_lookup _ _ l m), Ek by done. by apply bool_decide_eq_false_2, is_Some_None.
Qed.

Lemma inv_init c : 0 <= lruMax c < 2 ^ 62 -> lru_inv (mkLRU (lruMax c) 0 (Some list_New) (Some ∅)).
Proof.
  intros Hm. constructor; cbn [lruMax actualSize ll cache values list_New items map]; auto; try lia.
  - split; by eexists.
  - intros l m [= <-] [= <-]. split; [apply linked_empty|constructor].
Qed.

Lemma Put_ok evict c v :
  evicts keyOf sizeOf evict -> lru_inv c -> size_ok v ->
  exists c', Put_with keyOf sizeOf evict c v = Ok c' /\ lru_inv c' /\ lruMax c' = lruMax c /\
    values c' = spec_put keyOf sizeOf (lruMax c) (values c) v.
Proof.
  intros Hev Hi Hv. destruct (cache c) as [m|] eqn:Em.
  - destruct (proj2 (iv_nil _ _ _ Hi)) as [l El]; [by rewrite Em; eexists|]. eapply Put_full; eauto.
  - assert (ll c = None) as El.
    { destruct (ll c) as [l|] eqn:El; [|done]. destruct (proj1 (iv_nil _ _ _ Hi)) as [? E]; [rewrite El; by eexists|congruence]. }
    set (c0 := mkLRU (lruMax c) 0 (Some list_New) (Some ∅) : LRU K V).
    assert (Put_with keyOf sizeOf evict c v = Put_with keyOf sizeOf evict c0 v) as ->.
    { unfold Put_with. rewrite Em. done. }
    assert (values c = values c0) as ->. { unfold values. by rewrite El. }
    apply (Put_full evict c0 list_New ∅ v); [done| |done|done|done].
    apply inv_init, Hi.
Qed.

Lemma find_key l m k e v : full l m -> (e, v) ∈ items l -> keyOf v = k ->
  List.find (fun v => bool_decide (keyOf v = k)) (map snd (items l)) = Some v.
Proof.
  intros Hf Hin E. destruct (List.find _ _) as [w|] eqn:F.
  - apply find_some in F as [Hw Ew]. apply bool_decide_eq_true in Ew.
    apply list_elem_of_In, list_elem_of_fmap in Hw as ([e' w'] & -> & Hw). cbn [snd] in *.
    pose proof (fl_linked _ _ _ _ Hf) as Hl.
    assert (m !! k = Some e) by (apply (lk_map _ _ _ Hl); eauto).
    assert (m !! k = Some e') by (apply (lk_map _ _ _ Hl); eauto).
    assert (e' = e) as -> by congruence. f_equal.
    pose proof (Value_in l e v (lk_ids _ _ _ Hl) Hin). pose proof (Value_in l e w' (lk_ids _ _ _ Hl) Hw). congruence.
  - eapply find_none in F; [|apply list_elem_of_In, (list_elem_of_fmap_2 snd (items l) (e, v)); done].
    cbn in F. apply bool_decide_eq_false in F. done.
Qed.

Lemma Get_ok c k : lru_inv c ->
  exists o c', LRU_Get c k = Ok (o, c') /\ lru_inv c' /\ lruMax c' = lruMax c /\
    (o, values c') = spec_get keyOf (values c) k.
Proof.
  intros Hi. unfold LRU_Get, spec_get. destruct (cache c) as [m|] eqn:Em; cbn.
  - destruct (proj2 (iv_nil _ _ _ Hi)) as [l El]; [by rewrite Em; eexists|].
    pose proof (inv_full _ _ _ _ _ Hi El Em) as Hf. rewrite (values_some c l El).
    destruct (m !! k) as [e|] eqn:Ek.
    + pose proof Ek as Hin. apply (lk_map _ _ _ (fl_linked _ _ _ _ Hf)) in Hin as (w & Hin & Ew).
      rewrite El, (Value_in l e w) by (apply Hf || done). cbn [res_bind].
      rewrite (find_key l m k e w) by done. do 2 eexists. split; [reflexivity|].
      assert (size_ok w) as Hw.
      { destruct Hf as [_ _ Hvs]. rewrite Forall_forall in Hvs. apply Hvs.
        by apply (list_elem_of_fmap_2 snd (items l) (e, w)). }
      destruct (full_touch l m e w w Hf Hin eq_refl Hw) as (Hf' & -> & _ & Htot).
      split; [|split; [done|]].
      * constructor; unfold values; cbn [lruMax actualSize ll cache items map snd].
        -- apply Hi.
        -- rewrite (iv_size _ _ _ Hi), (values_some c l El), Htot. done.
        -- apply Hi.
        -- apply Hf'.
        -- split; by eexists.
        -- intros l' m' [= <-] [= <-]. split; apply Hf'.
      * unfold values. cbn [ll items map snd].
        rewrite (others_values keyOf (items l) m e w) by (apply Hf || done). by rewrite Ew.
    + do 2 eexists. split; [reflexivity|]. split; [done|]. split; [done|]. rewrite (values_some c l El).
      pose proof (has_lookup _ _ l m k Hf) as Hh. rewrite Ek, bool_decide_eq_false_2 in Hh by apply is_Some_None.
      destruct (List.find _ _) as [w|] eqn:F; [|done]. exfalso. apply find_some in F as [Hw Ew].
      assert (has keyOf k (map snd (items l)) = true); [|congruence]. apply has_spec. exists w.
      apply bool_decide_eq_true in Ew. split; [by apply list_elem_of_In|done].
  - do 2 eexists. split; [reflexivity|]. split; [done|]. split; [done|].
    assert (values c = []) as ->; [|done]. unfold values. destruct (ll c) as [l|] eqn:El; [|done].
    destruct (proj1 (iv_nil _ _ _ Hi)) as [? E]; [rewrite El; by eexists|congruence].
Qed.

Lemma Clear_ok c : lru_inv c -> lru_inv (LRU_Clear c) /\ values (LRU_Clear c) = [].
Proof.
  intros Hi. split; [|done]. constructor; cbn [LRU_Clear lruMax actualSize ll cache values]; try done.
  - apply Hi.
  - apply Hi.
Qed.
End Refinement.

(** ** The interface of a cache (common.go)

    [CacheOps] are the operations of [cache.Object] and [cache.Buffer];
    [LRULaws] is what an implementation promises: a view as the list of its
    values, most recently used first, on which its operations act as
    [spec_put] and [spec_get]. *)
Record CacheOps (C K V : Type) := mkCacheOps {
  cachePut : C -> V -> res C;
  cacheGet : C -> K -> res (option V * C);
  cacheClear : C -> C }.
Arguments mkCacheOps {C K V} cachePut cacheGet cacheClear.
Arguments cachePut {C K V} c _ _.
Arguments cacheGet {C K V} c _ _.
Arguments cacheClear {C K V} c _.

Class LRULaws {C K V : Type} `{EqDecision K} (keyOf : V -> K) (sizeOf : V -> Z) (ops : CacheOps C K V) := {
  law_inv : C -> Prop;
  law_max : C -> Z;
  law_view : C -> list V;
  law_put c v : law_inv c -> size_ok sizeOf v ->
    exists c', cachePut ops c v = Ok c' /\ law_inv c' /\ law_max c' = law_max c /\
      law_view c' = spec_put keyOf sizeOf (law_max c) (law_view c) v;
  law_get c k : law_inv c ->
    exists o c', cacheGet ops c k = Ok (o, c') /\ law_inv c' /\ law_max c' = law_max c /\
      (o, law_view c') = spec_get keyOf (law_view c) k;
  law_clear c : law_inv c ->
    law_inv (cacheClear ops c) /\ law_max (cacheClear ops c) = law_max c /\ law_view (cacheClear ops c) = [];
  law_bound c : law_inv c -> 0 <= law_max c /\ total sizeOf (law_view c) <= law_max c }.

Section Implementations.
Context {K V : Type} `{Countable K} (keyOf : V -> K) (sizeOf : V -> Z).

Definition ObjectLRU_ops : CacheOps (LRU K V) K V :=
  mkCacheOps (ObjectLRU_Put keyOf sizeOf) LRU_Get LRU_Clear.

Definition BufferLRU_ops : CacheOps (LRU K V) K V :=
  mkCacheOps (BufferLRU_Put keyOf sizeOf) LRU_Get LRU_Clear.

Lemma Clear_law (c : LRU K V) : lru_inv keyOf sizeOf c ->
  lru_inv keyOf sizeOf (LRU_Clear c) /\ lruMax (LRU_Clear c) = lruMax c /\ values (LRU_Clear c) = [].
Proof. intros Hi. destruct (Clear_ok keyOf sizeOf c Hi). auto. Qed.

Lemma bound_law (c : LRU K V) : lru_inv keyOf sizeOf c -> 0 <= lruMax c /\ total sizeOf (values c) <= lruMax c.
Proof. intros [Hm Hs Hb _ _ _]. lia. Qed.

#[export] Instance ObjectLRU_laws : LRULaws keyOf sizeOf ObjectLRU_ops := {
  law_inv := lru_inv keyOf sizeOf; law_max := lruMax; law_view := values;
  law_put c v := Put_ok keyOf sizeOf _ c v (ObjectLRU_evicts keyOf sizeOf);
  law_get := Get_ok keyOf sizeOf; law_clear := Clear_law; law_bound := bound_law }.

#[export] Instance BufferLRU_laws : LRULaws keyOf sizeOf BufferLRU_ops := {
  law_inv := lru_inv keyOf sizeOf; law_max := lruMax; law_view := values;
  law_put c v := Put_ok keyOf sizeOf _ c v (BufferLRU_evicts keyOf sizeOf);
  law_get := Get_ok keyOf sizeOf; law_clear := Clear_law; law_bound := bound_law }.

Lemma New_inv max : 0 <= max < 2 ^ 62 -> lru_inv keyOf sizeOf (NewObjectLRU max : LRU K V).
Proof.
  intros Hm. constructor; cbn [NewObjectLRU lruMax actualSize ll cache values]; try done.
  lia.
Qed.
End Implementations.

(** ** Sequences of operations *)
Inductive cacheOp (K V : Type) := OpPut (v : V) | OpGet (k : K) | OpClear.
Arguments OpPut {K V} v.
Arguments OpGet {K V} k.
Arguments OpClear {K V}.

Section Client.
Context {C K V : Type} `{EqDecision K} (keyOf : V -> K) (sizeOf : V -> Z) (ops : CacheOps C K V).

(** The answers of the [Get]s of a sequence, and the cache after it. *)
Fixpoint runOps (c : C) (os : list (cacheOp K V)) : res (list (option V) * C) :=
  match os with
  | [] => Ok ([], c)
  | OpPut v :: os => let* c := cachePut ops c v in runOps c os
  | OpGet k :: os =>
    let* (o, c) := cacheGet ops c k in
    let* (outs, c) := runOps c os in Ok (o :: outs, c)
  | OpClear :: os => runOps (cacheClear ops c) os
  end.

Fixpoint runSpec (max : Z) (vs : list V) (os : list (cacheOp K V)) : list (option V) * list V :=
  match os with
  | [] => ([], vs)
  | OpPut v :: os => runSpec max (spec_put keyOf sizeOf max vs v) os
  | OpGet k :: os =>
    let (o, vs) := spec_get keyOf vs k in
    let (outs, vs) := runSpec max vs os in (o :: outs, vs)
  | OpClear :: os => runSpec max [] os
  end.

Definition op_ok (o : cacheOp K V) : Prop := match o with OpPut v => size_ok sizeOf v | _ => True end.

Context `{!LRULaws keyOf sizeOf ops}.

Lemma runOps_refines os : forall c, law_inv c -> Forall op_ok os ->
  exists outs c', runOps c os = Ok (outs, c') /\ law_inv c' /\ law_max c' = law_max c /\
    runSpec (law_max c) (law_view c) os = (outs, law_view c').
Proof.
  induction os as [|o os IH]; intros c Hi Hos.
  { exists [], c. split_and!; done. }
  apply Forall_cons in Hos as [Ho Hos]. destruct o as [v|k|]; cbn [runOps runSpec].
  - destruct (law_put c v Hi Ho) as (c' & -> & Hi' & Hm & Hv). cbn [res_bind].
    destruct (IH c' Hi' Hos) as (outs & c'' & -> & Hi'' & Hm' & Hs).
    exists outs, c''. rewrite <- Hv, <- Hm. split_and!; congruence || done.
  - destruct (law_get c k Hi) as (o & c' & -> & Hi' & Hm & Hv). cbn [res_bind]. rewrite <- Hv.
    destruct (IH c' Hi' Hos) as (outs & c'' & -> & Hi'' & Hm' & Hs). cbn [res_bind].
    exists (o :: outs), c''. rewrite <- Hm, Hs. split_and!; congruence || done.
  - destruct (law_clear c Hi) as (Hi' & Hm & Hv).
    destruct (IH _ Hi' Hos) as (outs & c'' & -> & Hi'' & Hm' & Hs).
    exists outs, c''. rewrite <- Hv, <- Hm. split_and!; congruence || done.
Qed.

(** A value that was put and fits is what the next [Get] of its key returns. *)
Lemma get_after_put c v : law_inv c -> size_ok sizeOf v -> sizeOf v <= law_max c ->
  exists c' c'', cachePut ops c v = Ok c' /\ cacheGet ops c' (keyOf v) = Ok (Some v, c'').
Proof.
  intros Hi Hv Hfit. destruct (law_put c v Hi Hv) as (c' & Hput & Hi' & Hm & Hview).
  destruct (law_get c' (keyOf v) Hi') as (o & c'' & Hget & _ & _ & Hs). exists c', c''. split; [done|].
  rewrite Hget. rewrite Hview in Hs. unfold spec_put in Hs.
  destruct (Z.gtb_spec (sizeOf v) (law_max c)); [lia|]. rewrite andb_false_r in Hs.
  destruct (trim_head sizeOf (law_max c) v (without keyOf (keyOf v) (law_view c)) Hfit) as [rest E].
  rewrite E in Hs. unfold spec_get in Hs. cbn [List.find] in Hs. rewrite bool_decide_eq_true_2 in Hs by done.
  congruence.
Qed.
End Client.

Lemma trim_maximal {V} (sizeOf : V -> Z) max vs :
  0 <= max -> exists dropped, vs = trim sizeOf max vs ++ dropped /\
    match dropped with [] => True | x :: _ => max < total sizeOf (trim sizeOf max vs ++ [x]) end.
Proof.
  intros Hm. induction vs as [|v vs (d & Hd & Hx)] using rev_ind; [by exists []|].
  rewrite trim_snoc. destruct (Z.leb_spec (total sizeOf (vs ++ [v])) max).
  - exists []. by rewrite app_nil_r.
  - exists (d ++ [v]). split; [by rewrite app_assoc, <- Hd|].
    destruct d as [|x d]; [|done]. rewrite app_nil_r in Hd. by rewrite <- Hd.
Qed.

Section Properties.
Context {K V : Type} `{Countable K} (keyOf : V -> K) (sizeOf : V -> Z).

(** What holds of a cache after any sequence of operations that answered [outs]. *)
Definition cache_behaves (max : Z) (os : list (cacheOp K V)) (outs : list (option V)) (c : LRU K V) : Prop :=
  runSpec keyOf sizeOf max [] os = (outs, values c) /\ lruMax c = max /\
  actualSize c = total sizeOf (values c) /\ actualSize c <= max /\ NoDup (map keyOf (values c)).

Lemma inv_behaves max os outs c :
  lru_inv keyOf sizeOf c -> lruMax c = max -> runSpec keyOf sizeOf max [] os = (outs, values c) ->
  cache_behaves max os outs c.
Proof.
  intros Hi Hm Hs. pose proof Hi as [_ Hsz Hb _ Hn Hl]. split_and!; [done|done|done|lia|].
  unfold values. destruct (ll c) as [l|] eqn:El; [|constructor]. destruct (proj1 Hn) as [m Em]; [by eexists|].
  destruct (Hl l m eq_refl Em) as [[_ Hk _] _]. by rewrite map_map.
Qed.

(** C33: [ObjectLRU] is a least-recently-used cache of bounded size. From a new
    cache, any sequence of [Put], [Get] and [Clear] runs without a panic and
    gives the answers of the abstract cache, the list of the values ordered by
    last use; afterwards the values are those of the abstract cache, with one
    value per key, [actualSize] is the sum of their sizes and within [MaxSize]. *)
Theorem ObjectLRU_refines max os :
  0 <= max < 2 ^ 62 -> Forall (op_ok sizeOf) os ->
  exists outs c, runOps (ObjectLRU_ops keyOf sizeOf) (NewObjectLRU max) os = Ok (outs, c) /\
    cache_behaves max os outs c.
Proof.
  intros Hm Hos.
  destruct (runOps_refines keyOf sizeOf (ObjectLRU_ops keyOf sizeOf) os (NewObjectLRU max))
    as (outs & c & E & Hi & Hmax & Hs); [by apply New_inv|done|].
  exists outs, c. split; [done|]. by apply inv_behaves.
Qed.

(** Putting a value into an [ObjectLRU] it fits makes it the most recently used
    one and evicts only from the least recently used end: what remains is a prefix
    of the new order, and the prefix is maximal, as it would exceed [MaxSize]
    with the first evicted value; a [Get] of its key then returns it. *)
Theorem ObjectLRU_put_evicts_lru c v :
  lru_inv keyOf sizeOf c -> size_ok sizeOf v -> sizeOf v <= lruMax c ->
  exists c' c'' dropped, ObjectLRU_Put keyOf sizeOf c v = Ok c' /\
    v :: without keyOf (keyOf v) (values c) = values c' ++ dropped /\
    match dropped with [] => True | x :: _ => lruMax c < total sizeOf (values c' ++ [x]) end /\
    LRU_Get c' (keyOf v) = Ok (Some v, c'').
Proof.
  intros Hi Hv Hfit.
  destruct (get_after_put keyOf sizeOf (ObjectLRU_ops keyOf sizeOf) c v) as (c' & c'' & Hp & Hg); [exact Hi|exact Hv|exact Hfit|].
  destruct (Put_ok keyOf sizeOf _ c v (ObjectLRU_evicts keyOf sizeOf) Hi Hv) as (c0 & Hp' & _ & _ & Hval).
  cbn in Hp. unfold ObjectLRU_Put in *. rewrite Hp in Hp'. injection Hp' as <-.
  unfold spec_put in Hval. destruct (Z.gtb_spec (sizeOf v) (lruMax c)); [lia|].
  rewrite andb_false_r in Hval. pose proof (iv_max _ _ _ Hi) as Hm.
  destruct (trim_maximal sizeOf (lruMax c) (v :: without keyOf (keyOf v) (values c)) ltac:(lia)) as (d & Hd & Hx).
  rewrite <- Hval in Hd, Hx. exists c', c'', d. auto.
Qed.
End Properties.

(** The objects of the witnesses: a hash and a size. *)
Definition demoOps : list (cacheOp Z (Z * Z)) :=
  [OpPut (1, 40); OpPut (2, 50); OpGet 1; OpPut (3, 30); OpGet 2; OpGet 1; OpPut (1, 90); OpGet 3; OpPut (4, 101); OpGet 4].

(** The statement at a sequence with a hit, an eviction, a growing value and one
    that is too big. *)
Lemma ObjectLRU_refines_witness :
  exists outs c, runOps (ObjectLRU_ops fst snd) (NewObjectLRU 100) demoOps = Ok (outs, c) /\
    cache_behaves fst snd 100 demoOps outs c.
Proof. apply (ObjectLRU_refines fst snd 100 demoOps); [lia|]. repeat constructor; vm_compute; congruence. Defined.

Lemma ObjectLRU_put_evicts_lru_witness :
  exists c' c'' dropped, ObjectLRU_Put fst snd (NewObjectLRU 100) (1, 40) = Ok c' /\
    (1, 40) :: without fst 1 (values (NewObjectLRU 100 : LRU Z (Z * Z))) = values c' ++ dropped /\
    match dropped with [] => True | x :: _ => 100 < total snd (values c' ++ [x]) end /\
    LRU_Get c' 1 = Ok (Some (1, 40), c'').
Proof.
  apply (ObjectLRU_put_evicts_lru fst snd (NewObjectLRU 100) (1, 40)).
  - apply New_inv. lia.
  - vm_compute. split; congruence.
  - vm_compute. congruence.
Defined.

(** [BufferLRU], whose eviction loop does not check for an empty list, never dereferences
    one: from a new cache, any sequence of operations on buffers runs without a
    panic and behaves as the same bounded least-recently-used cache. *)
Theorem BufferLRU_refines max os :
  0 <= max < 2 ^ 62 -> Forall (op_ok (fun b => len (Slice b))) os ->
  exists outs c, runOps (BufferLRU_ops Key (fun b => len (Slice b))) (NewBufferLRU max) os = Ok (outs, c) /\
    cache_behaves Key (fun b => len (Slice b)) max os outs c.
Proof.
  intros Hm Hos.
  destruct (runOps_refines Key (fun b => len (Slice b)) (BufferLRU_ops Key (fun b => len (Slice b))) os (NewBufferLRU max))
    as (outs & c & E & Hi & Hmax & Hs); [by apply (New_inv Key (fun b => len (Slice b)))|done|].
  exists outs, c. split; [done|]. by apply inv_behaves.
Qed.

(** The statement at three buffers in a cache of five bytes. *)
Lemma BufferLRU_refines_witness :
  exists outs c, runOps (BufferLRU_ops Key (fun b => len (Slice b))) (NewBufferLRU 5)
      [OpPut (mkBuffer 7 (bs "abc")); OpPut (mkBuffer 8 (bs "de")); OpPut (mkBuffer 9 (bs "f")); OpGet 7; OpGet 8] = Ok (outs, c) /\
    cache_behaves Key (fun b => len (Slice b)) 5
      [OpPut (mkBuffer 7 (bs "abc")); OpPut (mkBuffer 8 (bs "de")); OpPut (mkBuffer 9 (bs "f")); OpGet 7; OpGet 8] outs c.
Proof. apply (BufferLRU_refines 5); [lia|]. repeat constructor; vm_compute; congruence. Defined.
