(* ===== verification/Packfile.v ===== *)
(** * plumbing/format/packfile/packfile.go: single objects of a pack, through its index

    A [Packfile] has the scanner over its file, a cache of objects and an index.  The cache is any that has the operations of
    [cache.Object] and the index any that finds offsets and identifiers; both change when they are asked.  The file can
    seek, and objects have SHA-1 identifiers.  zlib, SHA-1 and CRC-32 are parameters. *)
From S2P Require Import Prelude Binary ObjectID Memory DeltaIndex Delta Cache PackEncoder PackScanner.

Notation ZeroHash := ObjectID.ZeroHash.

(** ** The objects it gives *)

(** [plumbing.MemoryObject], or [FSObject] of fsobject.go, which reads its content when asked. *)
Inductive PackObject :=
| MemoryObject (t : ObjectType) (cont : bytes) (sz : Z)
| FSObject (h : ObjectID) (t : ObjectType) (offset size : Z).
#[global] Instance PackObject_eq_decision : EqDecision PackObject.
Proof. solve_decision. Defined.

Definition PackObject_Type (o : PackObject) : ObjectType := match o with MemoryObject t _ _ => t | FSObject _ t _ _ => t end.
Definition PackObject_Size (o : PackObject) : Z := match o with MemoryObject _ _ sz => sz | FSObject _ _ _ size => size end.
Definition PackObject_Hash (sha1 : bytes -> bytes) (o : PackObject) : ObjectID :=
  match o with
  | MemoryObject t cont sz => if len cont =? sz then Hasher_Sum sha1 t (len cont) cont else ZeroHash
  | FSObject h _ _ _ => h
  end.

(** The operations of [idxfile.Index] that are used. *)
Record IndexOps (I : Type) := mkIndexOps {
  ix_FindOffset : I -> ObjectID -> res (Z * I);
  ix_FindHash : I -> Z -> res (ObjectID * I) }.
Arguments mkIndexOps {I} ix_FindOffset ix_FindHash.
Arguments ix_FindOffset {I} i _ _.
Arguments ix_FindHash {I} i _ _.

Record Packfile (C I : Type) := mkPackfile { pf_scanner : Scanner Empty_set; pf_cache : C; pf_index : I; pf_id : ObjectID }.
Arguments mkPackfile {C I} pf_scanner pf_cache pf_index pf_id.
Arguments pf_scanner {C I} p.
Arguments pf_cache {C I} p.
Arguments pf_index {C I} p.
Arguments pf_id {C I} p.

Section Packfile.
Context {C I : Type}.
Variable sha1 : bytes -> bytes.
Variable crc32 : bytes -> Z.
Variable inflate : bytes -> option (bytes * (error + bytes)).
Variable cacheOps : CacheOps C ObjectID PackObject.
Variable indexOps : IndexOps I.
(** [cache.NewObjectLRUDefault()] *)
Variable newCache : C.
(** Whether there is a file system: objects that are no deltas are then [FSObject]s. *)
Variable hasFs : bool.

Notation Packfile := (Packfile C I).
Notation Scan := (Scan sha1 None crc32 inflate (fun (st : Empty_set) t sz c => inr st) true false SHA1Size).
Notation SeekFromStart := (SeekFromStart sha1 None crc32 inflate (fun (st : Empty_set) t sz c => inr st) true false SHA1Size).
Notation inflateContent := (inflateContent inflate true).

Definition with_scanner (p : Packfile) (s : Scanner Empty_set) : Packfile := mkPackfile s (pf_cache p) (pf_index p) (pf_id p).
Definition with_cache (p : Packfile) (c : C) : Packfile := mkPackfile (pf_scanner p) c (pf_index p) (pf_id p).
Definition with_index (p : Packfile) (i : I) : Packfile := mkPackfile (pf_scanner p) (pf_cache p) i (pf_id p).

(** [init], which [sync.Once] runs once: the header is scanned, and the identifier is the end of the file. *)
Definition Packfile_init (file : option bytes) (index : option I) (cache : option C) : res (error + Packfile) :=
  match file, index with
  | None, _ => Ok (inl ErrFileNotSet)
  | _, None => Ok (inl ErrIndexNotSet)
  | Some file, Some index =>
    match Scan (NewScanner file None) with
    | None => NoFuel
    | Some (false, s) => Ok (inl (default ErrMalformedPackfile (sc_err s)))
    | Some (true, s) =>
      if len file <? SHA1Size then Ok (inl ErrSeekNegative)
      else
        match ReadFrom (ResetBySize ZeroHash SHA1Size) (drop (Z.to_nat (len file - SHA1Size)) file) with
        | Ok (id, rest) => Ok (inr (mkPackfile (sc_read (with_offset s (len file - SHA1Size)) rest) (default newCache cache) index id))
        | Err e => Ok (inl e)
        | _ => Panic
        end
    end
  end.

Definition headerFromOffset (p : Packfile) (offset : Z) : res (Packfile * (error + ObjectHeader)) :=
  match SeekFromStart (pf_scanner p) offset with
  | None => NoFuel
  | Some (s, Some e) => Ok (with_scanner p s, inl e)
  | Some (s, None) =>
    match Scan s with
    | None => NoFuel
    | Some (false, s) => Ok (with_scanner p s, inl ErrObjectNotFound)
    | Some (true, s) =>
      match sc_packData s with ObjectSection oh => Ok (with_scanner p s, inr oh) | _ => Panic end
    end
  end.

(** What an [FSObject] reads at its offset in the file. *)
Definition readPack (file : bytes) (offset : Z) : error + bytes :=
  match inflate (drop (Z.to_nat offset) file) with
  | Some (out, inr _) => inr out
  | Some (_, inl e) => inl e
  | None => inl ErrZlibReset
  end.

(** All that [Reader()] gives: an [FSObject] asks the cache first, where another object may stand under its identifier. *)
Definition objectReader (p : Packfile) (o : PackObject) : res (Packfile * (error + bytes)) :=
  match o with
  | MemoryObject _ cont _ => Ok (p, inr cont)
  | FSObject h _ offset _ =>
    let* (found, c) := cacheGet cacheOps (pf_cache p) h in
    let p := with_cache p c in
    let file := sc_file (pf_scanner p) in
    match found with
    | Some (MemoryObject _ cont _) => Ok (p, inr cont)
    | Some (FSObject _ _ offset' _) => Ok (p, readPack file offset')
    | None => Ok (p, readPack file offset)
    end
  end.

(** [get] and [getByOffset], given [objectFromHeader] *)
Definition getWith (fromHeader : Packfile -> ObjectHeader -> res (Packfile * (error + PackObject))) (p : Packfile) (h : ObjectID) : res (Packfile * (error + PackObject)) :=
  let* (found, c) := cacheGet cacheOps (pf_cache p) h in
  let p := with_cache p c in
  match found with
  | Some obj => Ok (p, inr obj)
  | None =>
    match ix_FindOffset indexOps (pf_index p) h with
    | Ok (offset, i) =>
      let* (p, oh) := headerFromOffset (with_index p i) offset in
      match oh with inl e => Ok (p, inl e) | inr oh => fromHeader p oh end
    | Err e => Ok (p, inl e)
    | Panic => Panic
    | NoFuel => NoFuel
    end
  end.
Definition getByOffsetWith (fromHeader : Packfile -> ObjectHeader -> res (Packfile * (error + PackObject))) (p : Packfile) (offset : Z) : res (Packfile * (error + PackObject)) :=
  match ix_FindHash indexOps (pf_index p) offset with
  | Ok (h, i) =>
    let* (found, c) := cacheGet cacheOps (pf_cache p) h in
    let p := with_cache (with_index p i) c in
    match found with
    | Some obj => Ok (p, inr obj)
    | None =>
      let* (p, oh) := headerFromOffset p offset in
      match oh with inl e => Ok (p, inl e) | inr oh => fromHeader p oh end
    end
  | Err e => Ok (p, inl e)
  | Panic => Panic
  | NoFuel => NoFuel
  end.

Definition putObject (p : Packfile) (obj : PackObject) : res (Packfile * (error + PackObject)) :=
  let* c := cachePut cacheOps (pf_cache p) obj in Ok (with_cache p c, inr obj).

(** The content of a delta is written after what the scanner kept of it, and applied to what its base reads. *)
Definition applyToParent (p : Packfile) (oh : ObjectHeader) (parent : PackObject) : res (Packfile * (error + PackObject)) :=
  let (s, content) := inflateContent (pf_scanner p) (oh_ContentOffset oh) in
  let p := with_scanner p s in
  match content with
  | inl e => Ok (p, inl e)
  | inr out =>
    let delta := default [] (oh_content oh) ++ out in
    let* (p, src) := objectReader p parent in
    match src with
    | inl e => Ok (p, inl e)
    | inr src =>
      match ApplyDelta (mkObj (PackObject_Size parent) src) delta with
      | Ok (sz, dst) => putObject p (MemoryObject (PackObject_Type parent) dst sz)
      | Err e => Ok (p, inl e)
      | Panic => Panic
      | NoFuel => NoFuel
      end
    end
  end.

(** [objectFromHeader] and [getMemoryObject]; [fuel] bounds the chain of bases. *)
Fixpoint objectFromHeader (fuel : nat) (p : Packfile) (oh : ObjectHeader) : res (Packfile * (error + PackObject)) :=
  match fuel with
  | O => NoFuel
  | S fuel =>
    if negb (IsDelta (oh_Type oh)) && hasFs then
      putObject p (FSObject (ObjectHeader_ID oh) (oh_Type oh) (oh_ContentOffset oh) (oh_Size oh))
    else if (CommitObject <=? oh_Type oh) && (oh_Type oh <=? TagObject) then
      let (s, content) := inflateContent (pf_scanner p) (oh_ContentOffset oh) in
      let p := with_scanner p s in
      match content with
      | inl e => Ok (p, inl e)
      | inr out => putObject p (MemoryObject (oh_Type oh) out (if bool_decide (out = []) then oh_Size oh else len out))
      end
    else if oh_Type oh =? REFDeltaObject then
      let* (found, c) := cacheGet cacheOps (pf_cache p) (oh_Reference oh) in
      let p := with_cache p c in
      match found with
      | Some parent => applyToParent p oh parent
      | None =>
        let* (p, parent) := getWith (objectFromHeader fuel) p (oh_Reference oh) in
        match parent with inl e => Ok (p, inl e) | inr parent => applyToParent p oh parent end
      end
    else if oh_Type oh =? OFSDeltaObject then
      let* (p, parent) := getByOffsetWith (objectFromHeader fuel) p (oh_OffsetReference oh) in
      match parent with inl e => Ok (p, inl e) | inr parent => applyToParent p oh parent end
    else Ok (p, inl ErrInvalidObject)
  end.

Definition Packfile_Get (fuel : nat) (p : Packfile) (h : ObjectID) : res (Packfile * (error + PackObject)) := getWith (objectFromHeader fuel) p h.
Definition GetByOffset (fuel : nat) (p : Packfile) (offset : Z) : res (Packfile * (error + PackObject)) := getByOffsetWith (objectFromHeader fuel) p offset.
Definition GetSizeByOffset (fuel : nat) (p : Packfile) (offset : Z) : res (Packfile * (error + Z)) :=
  let* (p, d) := GetByOffset fuel p offset in
  Ok (p, match d with inl e => inl e | inr o => inr (PackObject_Size o) end).

(** [next] of packfile_iter.go over the offsets that are left: where an object is a delta the error of reading it is not
    looked at before its type is. *)
Fixpoint objectIter_next (fuel : nat) (typ : ObjectType) (p : Packfile) (offsets : list Z) : res (Packfile * list Z * (error + PackObject)) :=
  match offsets with
  | [] => Ok (p, [], inl EOF)
  | offset :: offsets =>
    let* (p, oh) := headerFromOffset p offset in
    match oh with
    | inl e => Ok (p, offsets, inl e)
    | inr oh =>
      if typ =? AnyObject then let* (p, o) := objectFromHeader fuel p oh in Ok (p, offsets, o)
      else if IsDelta (oh_Type oh) then
        let* (p, o) := objectFromHeader fuel p oh in
        match o with
        | inl _ => Panic
        | inr o => if PackObject_Type o =? typ then Ok (p, offsets, inr o) else objectIter_next fuel typ p offsets
        end
      else if oh_Type oh =? typ then let* (p, o) := objectFromHeader fuel p oh in Ok (p, offsets, o)
      else objectIter_next fuel typ p offsets
    end
  end.

(** [GetByType]: the offsets the iterator has left, those of [EntriesByOffset] of the index. *)
Definition GetByType (entriesByOffset : error + list Z) (typ : ObjectType) : error + list Z :=
  if (typ =? AnyObject) || (typ =? BlobObject) || (typ =? TreeObject) || (typ =? CommitObject) || (typ =? TagObject) then entriesByOffset
  else inl ErrInvalidType.
Definition GetAll (entriesByOffset : error + list Z) : error + list Z := GetByType entriesByOffset AnyObject.

(** [ForEach] with a function that keeps what it is given. *)
Fixpoint objectIter_ForEach (fuel : nat) (typ : ObjectType) (n : nat) (p : Packfile) (offsets : list Z) (seen : list PackObject) : res (Packfile * list PackObject * option error) :=
  match n with
  | O => NoFuel
  | S n =>
    let* (p, offsets, o) := objectIter_next fuel typ p offsets in
    match o with
    | inl e => Ok (p, seen, if bool_decide (e = EOF) then None else Some e)
    | inr o => objectIter_ForEach fuel typ n p offsets (seen ++ [o])
    end
  end.
End Packfile.
