(* ===== verification/PackfileProofs.v ===== *)
(** * A pack gives its objects

    Any object of a pack can be had by its identifier or its place, whole or made of a chain of deltas, whatever the
    cache holds: the proofs are against the laws of a cache and of an index, not against an implementation. *)
From S2P Require Import Prelude Binary ObjectID Memory DeltaIndex Delta DeltaProofs Cache PackEncoder PackScanner PackProofs Packfile TreesProofs.

Section Objects.
Variable sha1 : bytes -> bytes.
Variable crc32 : bytes -> Z.
Variable deflate : bytes -> bytes.
Variable inflate : bytes -> option (bytes * (error + bytes)).
Hypothesis inflate_deflate : forall c r, inflate (deflate c ++ r) = Some (c, inr r).
Hypothesis sha1_len : forall b, len (sha1 b) = 20.

(** ** A pack and its objects *)
Variable es : list PEntry.
Variable bss : list bytes.
(** The type and the content of the object of each entry. *)
Variable rs : list (ObjectType * bytes).
Hypothesis Hpacked : Forall2 (fun e b => packEntry deflate e = Ok b) es bss.
Hypothesis Hfits : Forall entry_fits es.
Hypothesis Hnonempty : es <> [].
Hypothesis Hcount : len es < 2 ^ 32.

Definition place (k : nat) : Z := 12 + len (concat (take k bss)).
Definition objectID (t : ObjectType) (c : bytes) : ObjectID := Hasher_Sum sha1 t (len c) c.

(** The object of an entry: its content, or what its delta makes of the object of an earlier entry. *)
Definition object_of (k : nat) (e : PEntry) (t : ObjectType) (c : bytes) : Prop :=
  match pe_Base e with
  | NoBase => t = pe_Type e /\ c = pe_Content e /\ pe_Size e = len c
  | OfsBase rel => exists j cb, (j < k)%nat /\ place j = place k - rel /\ rs !! j = Some (t, cb) /\ patchDelta [] cb (pe_Content e) = Ok c
  | RefBase h => exists j cb, (j < k)%nat /\ objectID t cb = h /\ rs !! j = Some (t, cb) /\ patchDelta [] cb (pe_Content e) = Ok c
  end.
Hypothesis Hobjects : length rs = length es.
Hypothesis Hobject : forall k e t c, es !! k = Some e -> rs !! k = Some (t, c) -> object_of k e t c /\ len c < 2 ^ 62.
Hypothesis Hdistinct : forall j k tj cj tk ck, rs !! j = Some (tj, cj) -> rs !! k = Some (tk, ck) -> ObjectID_Bytes (objectID tj cj) = ObjectID_Bytes (objectID tk ck) -> j = k.

(** What a packfile gives for an object: in memory, or to be read from the file. *)
Definition gives (o : PackObject) (t : ObjectType) (c : bytes) : Prop :=
  match o with
  | MemoryObject t' cont sz => t' = t /\ cont = c /\ sz = len c
  | FSObject h t' offset size => h = objectID t c /\ t' = t /\ size = len c /\ readPack inflate (packFile sha1 bss) offset = inr c
  end.

Lemma gives_hash o t c : gives o t c -> PackObject_Hash sha1 o = objectID t c /\ PackObject_Type o = t /\ PackObject_Size o = len c.
Proof. destruct o; cbn; [intros (-> & -> & ->)|by intros (-> & -> & -> & _)]. by rewrite Z.eqb_refl. Qed.

(** ** The laws of the parts *)
Context {C I : Type}.
Variable cacheOps : CacheOps C ObjectID PackObject.
Context `{!LRULaws (PackObject_Hash sha1) PackObject_Size cacheOps}.
Variable indexOps : IndexOps I.
Variable newCache : C.
Variable hasFs : bool.

(** An index of the pack, which stays one when it is asked. *)
Record index_of (good : I -> Prop) : Prop := {
  ix_offset : forall i k t c, good i -> rs !! k = Some (t, c) -> exists i', ix_FindOffset indexOps i (objectID t c) = Ok (place k, i') /\ good i';
  ix_hash : forall i k t c, good i -> rs !! k = Some (t, c) -> exists h i', ix_FindHash indexOps i (place k) = Ok (h, i') /\ good i' /\ ObjectID_Bytes h = ObjectID_Bytes (objectID t c) }.
Variable good : I -> Prop.
Hypothesis Hindex : index_of good.

Notation Packfile := (Packfile C I).

(** The cache holds objects of the pack only. *)
Definition caches (c : C) : Prop := law_inv c /\ forall o, o ∈ law_view c -> exists k t cont, rs !! k = Some (t, cont) /\ gives o t cont.
Definition usable (p : Packfile) : Prop := sc_file (pf_scanner p) = packFile sha1 bss /\ caches (pf_cache p) /\ good (pf_index p).

Lemma cacheGet_ok c h : caches c -> exists found c', cacheGet cacheOps c h = Ok (found, c') /\ caches c' /\
  match found with Some o => exists k t cont, rs !! k = Some (t, cont) /\ gives o t cont /\ objectID t cont = h | None => True end.
Proof.
  intros [Hi Hv]. destruct (law_get c h Hi) as (found & c' & E & Hi' & _ & Hs). exists found, c'. split; [done|]. unfold spec_get in Hs.
  destruct (List.find _ (law_view c)) as [o|] eqn:Ef; injection Hs as -> Hview.
  - apply find_some in Ef as [Hin Ek]. apply list_elem_of_In in Hin. apply bool_decide_eq_true in Ek. destruct (Hv o Hin) as (k & t & cont & Hk & Hg).
    split; [|exists k, t, cont; split_and!; [done..|]; by destruct (gives_hash _ _ _ Hg) as [<- _]].
    split; [done|]. rewrite Hview. intros o' [->|Ho']%elem_of_cons; [eauto|]. apply Hv. unfold without in Ho'. by apply list_elem_of_filter in Ho' as [_ ?].
  - split; [|done]. split; [done|]. by rewrite Hview.
Qed.

Lemma cachePut_ok c o k t cont : caches c -> rs !! k = Some (t, cont) -> gives o t cont -> exists c', cachePut cacheOps c o = Ok c' /\ caches c'.
Proof.
  intros [Hi Hv] Hk Hg. destruct (lookup_lt_is_Some_2 es k) as [e He]; [rewrite <- Hobjects; by eapply lookup_lt_Some|]. destruct (Hobject k e t cont He Hk) as [_ Hlen].
  destruct (law_put c o Hi) as (c' & E & Hi' & _ & Hview). { unfold size_ok. destruct (gives_hash _ _ _ Hg) as (_ & _ & ->). pose proof (len_nonneg cont). lia. }
  exists c'. split; [done|]. split; [done|]. rewrite Hview. unfold spec_put. destruct (_ && _); [done|]. intros o' Ho'.
  destruct (trim_prefix PackObject_Size (law_max c) (o :: without (PackObject_Hash sha1) (PackObject_Hash sha1 o) (law_view c))) as [dropped Ed].
  assert (o' ∈ o :: without (PackObject_Hash sha1) (PackObject_Hash sha1 o) (law_view c)) as Hin by (rewrite Ed; apply elem_of_app; by left).
  apply elem_of_cons in Hin as [->|Hin]; [eauto|]. apply Hv. unfold without in Hin. by apply list_elem_of_filter in Hin as [_ ?].
Qed.

(** ** Headers and contents *)
Lemma packFile_at k b : bss !! k = Some b -> exists r, drop (Z.to_nat (place k)) (packFile sha1 bss) = b ++ r.
Proof.
  intros Hb. exists (concat (drop (S k) bss) ++ WriteTo (packSum sha1 (packOf bss))). unfold packFile, packOf. rewrite <- (take_drop_middle bss k _ Hb) at 2. rewrite concat_app. cbn [concat].
  rewrite <- !app_assoc. rewrite (app_assoc (pack_head _)). apply drop_app_length'. rewrite !length_app. unfold place, len.
  assert (length (pack_head (Z.of_nat (length bss))) = 12%nat) as ->. { unfold pack_head. rewrite !length_app, !be_encode_length. done. } lia.
Qed.

Lemma entry_here k e : es !! k = Some e -> exists b, bss !! k = Some b /\ packEntry deflate e = Ok b /\ entry_fits e.
Proof.
  intros He. destruct (Forall2_lookup_l _ _ _ _ _ Hpacked He) as (b & Hb & E). exists b. split_and!; [done..|]. rewrite Forall_forall in Hfits. apply Hfits. by eapply list_elem_of_lookup_2.
Qed.

(** The header the scanner finds. *)
Notation headerOf := (scanned sha1 None crc32 deflate true false).

Lemma headerFromOffset_ok p k e b : usable p -> es !! k = Some e -> bss !! k = Some b ->
  exists p', headerFromOffset sha1 crc32 inflate p (place k) = Ok (p', inr (headerOf e b (place k))) /\ usable p'.
Proof.
  intros (Hfile & Hc & Hi) He Hb. pose proof (Forall2_length _ _ _ Hpacked) as El. destruct (entry_here k e He) as (b' & Hb' & E & Hfit). rewrite Hb in Hb'. injection Hb' as <-.
  assert (0 < len es) as Hpos by (destruct es; [done|rewrite len_cons; pose proof (len_nonneg l); lia]).
  unfold headerFromOffset, SeekFromStart. assert (Scanner_Reset true (pf_scanner p) = NewScanner (packFile sha1 bss) None) as ->.
  { unfold Scanner_Reset, NewScanner. rewrite Hfile. by destruct (sc_storage (pf_scanner p)) as [[]|]. }
  destruct (Scan_header sha1 None crc32 inflate (fun (st : Empty_set) t sz c => st) true false None (len es) (concat bss ++ WriteTo (packSum sha1 (packOf bss)))) as (s & Es & Hat & Ho & Hidx & Herr & Hn & _); [lia|].
  change SHA1Size with 20. assert (packFile sha1 bss = pack_head (len es) ++ concat bss ++ WriteTo (packSum sha1 (packOf bss))) as Ef.
  { unfold packFile, packOf. assert (len bss = len es) as -> by (unfold len; lia). by rewrite <- app_assoc. }
  rewrite Ef, Es. destruct (packFile_at k b Hb) as [r Hr].
  assert (sc_rest (with_offset s (place k)) = b ++ r) as Hrest. { unfold sc_rest. cbn [sc_file sc_offset with_offset]. destruct Hat as [-> _]. by rewrite <- Ef. }
  rewrite (Scan_entry sha1 None crc32 deflate inflate (fun (st : Empty_set) t sz c => st) true false inflate_deflate (with_offset s (place k)) e b r Hfit E Hrest) by (cbn; done || lia).
  eexists. split; [done|]. split_and!; [|done..]. cbn. destruct Hat as [-> _]. done.
Qed.

Lemma content_at k e b : es !! k = Some e -> bss !! k = Some b ->
  exists tail, inflate (drop (Z.to_nat (oh_ContentOffset (headerOf e b (place k)))) (packFile sha1 bss)) = Some (pe_Content e, inr tail).
Proof.
  intros He Hb. destruct (entry_here k e He) as (b' & Hb' & E & Hfit). rewrite Hb in Hb'. injection Hb' as <-. destruct (packEntry_header deflate e b Hfit E) as (hd & -> & _).
  destruct (packFile_at k _ Hb) as [r Hr]. exists r. rewrite <- inflate_deflate. f_equal. cbn [oh_ContentOffset scanned]. rewrite len_app.
  assert (0 <= place k) by (unfold place; pose proof (len_nonneg (concat (take k bss))); lia). pose proof (len_nonneg hd).
  replace (Z.to_nat (place k + (len hd + len (deflate (pe_Content e)) - len (deflate (pe_Content e))))) with (Z.to_nat (place k) + length hd)%nat by (unfold len; lia).
  rewrite <- drop_drop, Hr, <- app_assoc. apply drop_app_length.
Qed.

Lemma inflateContent_ok p k e b : usable p -> es !! k = Some e -> bss !! k = Some b ->
  exists s, inflateContent inflate true (pf_scanner p) (oh_ContentOffset (headerOf e b (place k))) = (s, inr (pe_Content e)) /\ usable (with_scanner p s).
Proof.
  intros (Hfile & Hc & Hi) He Hb. destruct (content_at k e b He Hb) as [tail E]. unfold inflateContent. cbn [negb]. unfold sc_rest. cbn [sc_file sc_offset with_offset].
  rewrite Hfile, E. eexists. split; [done|]. split_and!; [exact Hfile|done|done].
Qed.

(** ** Objects *)
Lemma same_object j k tj cj tk ck : rs !! j = Some (tj, cj) -> rs !! k = Some (tk, ck) -> ObjectID_Bytes (objectID tj cj) = ObjectID_Bytes (objectID tk ck) -> (tj, cj) = (tk, ck).
Proof. intros Hj Hk E. assert (j = k) as -> by by eapply Hdistinct. rewrite Hj in Hk. by injection Hk as -> ->. Qed.

Lemma objectReader_ok p o k t c : usable p -> rs !! k = Some (t, c) -> gives o t c -> exists p', objectReader inflate cacheOps p o = Ok (p', inr c) /\ usable p'.
Proof.
  intros (Hfile & Hc & Hi) Hk Hg. destruct o as [t' cont sz|h t' offset size]; cbn [gives objectReader] in *; [destruct Hg as (-> & -> & ->); exists p; split; [done|]; by split_and!|].
  destruct Hg as (-> & -> & -> & Hread). destruct (cacheGet_ok (pf_cache p) (objectID t c) Hc) as (found & c' & -> & Hc' & Hfound). cbn [res_bind].
  exists (with_cache p c'). split; [|by split_and!]. cbn [pf_scanner with_cache]. rewrite Hfile. destruct found as [o|]; [|by rewrite Hread].
  destruct Hfound as (j & tj & cj & Hj & Hg & Eid). assert ((tj, cj) = (t, c)) as [= -> ->] by (eapply (same_object j k); [done..|by rewrite Eid]).
  destruct o as [t' cont sz|h t' offset' size]; cbn [gives] in Hg; [by destruct Hg as (_ & -> & _)|by destruct Hg as (_ & _ & _ & ->)].
Qed.

Lemma putObject_ok p o k t c : usable p -> rs !! k = Some (t, c) -> gives o t c -> exists p', putObject cacheOps p o = Ok (p', inr o) /\ usable p'.
Proof.
  intros (Hfile & Hc & Hi) Hk Hg. unfold putObject. destruct (cachePut_ok (pf_cache p) o k t c Hc Hk Hg) as (c' & -> & Hc'). cbn [res_bind]. eexists. split; [done|]. by split_and!.
Qed.

(** The object of an entry is found by [fromHeader] with its header. *)
Definition finds (fromHeader : Packfile -> ObjectHeader -> res (Packfile * (error + PackObject))) (k : nat) : Prop :=
  forall p e b t c, usable p -> es !! k = Some e -> bss !! k = Some b -> rs !! k = Some (t, c) ->
  exists p' o, fromHeader p (headerOf e b (place k)) = Ok (p', inr o) /\ usable p' /\ gives o t c.

Lemma entry_of k t c : rs !! k = Some (t, c) -> exists e b, es !! k = Some e /\ bss !! k = Some b.
Proof.
  intros Hk. destruct (lookup_lt_is_Some_2 es k) as [e He]; [rewrite <- Hobjects; by eapply lookup_lt_Some|]. destruct (entry_here k e He) as (b & Hb & _). eauto.
Qed.

Lemma getWith_ok fromHeader k p t c : finds fromHeader k -> usable p -> rs !! k = Some (t, c) ->
  exists p' o, getWith sha1 crc32 inflate cacheOps indexOps fromHeader p (objectID t c) = Ok (p', inr o) /\ usable p' /\ gives o t c.
Proof.
  intros Hf (Hfile & Hc & Hi) Hk. unfold getWith. destruct (cacheGet_ok (pf_cache p) (objectID t c) Hc) as (found & c' & -> & Hc' & Hfound). cbn [res_bind]. destruct found as [o|].
  - destruct Hfound as (j & tj & cj & Hj & Hg & Eid). assert ((tj, cj) = (t, c)) as [= -> ->] by (eapply (same_object j k); [done..|by rewrite Eid]). exists (with_cache p c'), o. split; [done|]. by split_and!.
  - cbn [pf_index with_cache]. destruct (ix_offset _ Hindex (pf_index p) k t c Hi Hk) as (i' & -> & Hi'). destruct (entry_of k t c Hk) as (e & b & He & Hb).
    destruct (headerFromOffset_ok (with_index (with_cache p c') i') k e b) as (p1 & -> & Hp1); [by split_and!|done..|]. cbn [res_bind]. by apply Hf.
Qed.

Lemma getByOffsetWith_ok fromHeader k p t c : finds fromHeader k -> usable p -> rs !! k = Some (t, c) ->
  exists p' o, getByOffsetWith sha1 crc32 inflate cacheOps indexOps fromHeader p (place k) = Ok (p', inr o) /\ usable p' /\ gives o t c.
Proof.
  intros Hf (Hfile & Hc & Hi) Hk. unfold getByOffsetWith. destruct (ix_hash _ Hindex (pf_index p) k t c Hi Hk) as (h & i' & -> & Hi' & Eh).
  destruct (cacheGet_ok (pf_cache p) h Hc) as (found & c' & -> & Hc' & Hfound). cbn [res_bind]. destruct found as [o|].
  - destruct Hfound as (j & tj & cj & Hj & Hg & Eid). assert ((tj, cj) = (t, c)) as [= -> ->] by (eapply (same_object j k); [done..|by rewrite Eid]). exists (with_cache (with_index p i') c'), o. split; [done|]. by split_and!.
  - destruct (entry_of k t c Hk) as (e & b & He & Hb). destruct (headerFromOffset_ok (with_cache (with_index p i') c') k e b) as (p1 & -> & Hp1); [by split_and!|done..|]. cbn [res_bind]. by apply Hf.
Qed.

(** A delta is applied although its content is there twice. *)
Lemma applyToParent_ok p k e b parent j t c cb : usable p -> es !! k = Some e -> bss !! k = Some b -> rs !! k = Some (t, c) -> rs !! j = Some (t, cb) -> gives parent t cb ->
  IsDelta (pe_Type e) = true -> patchDelta [] cb (pe_Content e) = Ok c ->
  exists p' o, applyToParent inflate cacheOps p (headerOf e b (place k)) parent = Ok (p', inr o) /\ usable p' /\ gives o t c.
Proof.
  intros Hp He Hb Hk Hj Hg Hd Hpatch. unfold applyToParent. destruct (inflateContent_ok p k e b Hp He Hb) as (s & -> & Hp1).
  assert (default [] (oh_content (headerOf e b (place k))) = pe_Content e) as ->. { cbn [oh_content scanned]. by rewrite Hd. }
  destruct (objectReader_ok (with_scanner p s) parent j t cb Hp1 Hj Hg) as (p2 & -> & Hp2). cbn [res_bind]. unfold ApplyDelta. cbn [objContent].
  rewrite (patchDelta_app _ _ _ _ (pe_Content e) Hpatch). cbn [res_bind]. destruct (gives_hash _ _ _ Hg) as (_ & -> & _).
  destruct (putObject_ok p2 (MemoryObject t c (len c)) k t c Hp2 Hk) as (p3 & E & Hp3); [done|]. rewrite E. eexists p3, _. by split_and!.
Qed.

Lemma objectFromHeader_ok fuel : forall k, (k < fuel)%nat -> finds (objectFromHeader sha1 crc32 inflate cacheOps indexOps hasFs fuel) k.
Proof.
  induction fuel as [|fuel IH]; intros k Hkf; [lia|]. intros p e b t c Hp He Hb Hk. destruct (Hobject k e t c He Hk) as [Hof _]. destruct (entry_here k e He) as (b' & Hb' & E & Hsz & Hty).
  rewrite Hb in Hb'. injection Hb' as <-. cbn [objectFromHeader]. change (oh_Type (headerOf e b (place k))) with (pe_Type e). unfold object_of in Hof. destruct (pe_Base e) as [|rel|h] eqn:Ebase.
  - destruct Hof as (-> & -> & Esz). assert (IsDelta (pe_Type e) = false) as Hnd by (unfold IsDelta, REFDeltaObject, OFSDeltaObject; lia). rewrite Hnd. cbn [negb andb]. destruct hasFs.
    + match goal with |- context [putObject _ _ ?o] => assert (gives o (pe_Type e) (pe_Content e)) as Hg end.
      { cbn [gives]. split; [unfold ObjectHeader_ID; cbn [oh_Hash oh_Hash256 scanned]; by rewrite Hnd; unfold objectID; rewrite <- Esz|]. split; [done|]. split; [exact Esz|].
        unfold readPack. destruct (content_at k e b He Hb) as [tail ->]. done. }
      destruct (putObject_ok p _ k _ _ Hp Hk Hg) as (p' & E' & Hp'). rewrite E'. eauto.
    + unfold CommitObject, TagObject. destruct (Z.leb_spec 1 (pe_Type e)); [|lia]. destruct (Z.leb_spec (pe_Type e) 4); [|lia]. cbn [andb].
      destruct (inflateContent_ok p k e b Hp He Hb) as (s & -> & Hp1). assert ((if bool_decide (pe_Content e = []) then oh_Size (headerOf e b (place k)) else len (pe_Content e)) = len (pe_Content e)) as ->.
      { case_bool_decide; [exact Esz|done]. }
      destruct (putObject_ok (with_scanner p s) (MemoryObject (pe_Type e) (pe_Content e) (len (pe_Content e))) k _ _ Hp1 Hk) as (p' & E' & Hp'); [done|]. rewrite E'. eexists p', _. by split_and!.
  - destruct Hty as [Ety _]. destruct Hof as (j & cb & Hjk & Epl & Hj & Hpatch). rewrite Ety. change (IsDelta OFSDeltaObject) with true. change ((CommitObject <=? OFSDeltaObject) && (OFSDeltaObject <=? TagObject)) with false.
    change (OFSDeltaObject =? REFDeltaObject) with false. change (OFSDeltaObject =? OFSDeltaObject) with true. cbn [negb andb].
    assert (oh_OffsetReference (headerOf e b (place k)) = place j) as -> by (cbn [oh_OffsetReference scanned]; by rewrite Ebase).
    destruct (getByOffsetWith_ok _ j p t cb (IH j ltac:(lia)) Hp Hj) as (p1 & parent & -> & Hp1 & Hg). cbn [res_bind].
    eapply (applyToParent_ok p1 k e b parent j t c cb); try done. by rewrite Ety.
  - destruct Hty as [Ety _]. destruct Hof as (j & cb & Hjk & Epl & Hj & Hpatch). rewrite Ety. change (IsDelta REFDeltaObject) with true. change ((CommitObject <=? REFDeltaObject) && (REFDeltaObject <=? TagObject)) with false.
    change (REFDeltaObject =? REFDeltaObject) with true. cbn [negb andb]. assert (oh_Reference (headerOf e b (place k)) = objectID t cb) as -> by (cbn [oh_Reference scanned]; by rewrite Ebase).
    destruct Hp as (Hfile & Hc & Hi). destruct (cacheGet_ok (pf_cache p) (objectID t cb) Hc) as (found & c' & -> & Hc' & Hfound). cbn [res_bind]. assert (usable (with_cache p c')) as Hp by by split_and!.
    destruct found as [parent|].
    + destruct Hfound as (j' & tj & cj & Hj' & Hg & Eid). assert ((tj, cj) = (t, cb)) as [= -> ->] by (eapply (same_object j' j); [done..|by rewrite Eid]).
      eapply (applyToParent_ok (with_cache p c') k e b parent j t c cb); try done. by rewrite Ety.
    + destruct (getWith_ok _ j (with_cache p c') t cb (IH j ltac:(lia)) Hp Hj) as (p1 & parent & -> & Hp1 & Hg). cbn [res_bind].
      eapply (applyToParent_ok p1 k e b parent j t c cb); try done. by rewrite Ety.
Qed.
(** ** Any sequence of reads *)

(** A client: [Get] of an identifier, then all its reader gives. *)
Definition readObject (fuel : nat) (p : Packfile) (h : ObjectID) : res (Packfile * (error + (ObjectType * Z * bytes))) :=
  let* (p, o) := Packfile_Get sha1 crc32 inflate cacheOps indexOps hasFs fuel p h in
  match o with
  | inl e => Ok (p, inl e)
  | inr o =>
    let* (p, c) := objectReader inflate cacheOps p o in
    Ok (p, match c with inl e => inl e | inr c => inr (PackObject_Type o, PackObject_Size o, c) end)
  end.
Fixpoint readObjects (fuel : nat) (p : Packfile) (hs : list ObjectID) : res (Packfile * list (error + (ObjectType * Z * bytes))) :=
  match hs with
  | [] => Ok (p, [])
  | h :: hs =>
    let* (p, o) := readObject fuel p h in
    let* (p, os) := readObjects fuel p hs in Ok (p, o :: os)
  end.

Lemma readObject_ok fuel p k t c : (length es <= fuel)%nat -> usable p -> rs !! k = Some (t, c) ->
  exists p', readObject fuel p (objectID t c) = Ok (p', inr (t, len c, c)) /\ usable p'.
Proof.
  intros Hf Hp Hk. assert (k < fuel)%nat as Hlt by (apply lookup_lt_Some in Hk; lia). unfold readObject, Packfile_Get.
  destruct (getWith_ok _ k p t c (objectFromHeader_ok fuel k Hlt) Hp Hk) as (p1 & o & -> & Hp1 & Hg). cbn [res_bind].
  destruct (objectReader_ok p1 o k t c Hp1 Hk Hg) as (p2 & -> & Hp2). cbn [res_bind]. destruct (gives_hash _ _ _ Hg) as (_ & -> & ->). eauto.
Qed.

Lemma readObjects_ok fuel ids : (length es <= fuel)%nat -> Forall (fun r => r ∈ rs) ids -> forall p, usable p ->
  exists p', readObjects fuel p (map (fun r => objectID r.1 r.2) ids) = Ok (p', map (fun r => inr (r.1, len r.2, r.2)) ids) /\ usable p'.
Proof.
  intros Hf. induction 1 as [|[t c] ids Hin _ IH]; intros p Hp; [by exists p|]. apply list_elem_of_lookup in Hin as [k Hk]. cbn [map readObjects fst snd].
  destruct (readObject_ok fuel p k t c Hf Hp Hk) as (p1 & -> & Hp1). cbn [res_bind]. destruct (IH p1 Hp1) as (p2 & -> & Hp2). cbn [res_bind]. eauto.
Qed.

(** Iteration gives the objects of a type, in the order of the offsets. *)
Definition wanted (typ : ObjectType) (r : ObjectType * bytes) : bool := (typ =? AnyObject) || (r.1 =? typ).

Lemma entry_type k e t c : es !! k = Some e -> rs !! k = Some (t, c) -> IsDelta (pe_Type e) = false -> pe_Type e = t.
Proof.
  intros He Hk Hd. destruct (Hobject k e t c He Hk) as [Hof _]. destruct (entry_here k e He) as (b & _ & _ & _ & Hty). unfold object_of in Hof. destruct (pe_Base e); [by destruct Hof as (-> & _)|..];
    destruct Hty as [E _]; rewrite E in Hd; done.
Qed.

Lemma iter_next_ok fuel typ k p offsets t c : (length es <= fuel)%nat -> usable p -> rs !! k = Some (t, c) -> 
  exists p', usable p' /\
    if wanted typ (t, c) then exists o, objectIter_next sha1 crc32 inflate cacheOps indexOps hasFs fuel typ p (place k :: offsets) = Ok (p', offsets, inr o) /\ gives o t c
    else objectIter_next sha1 crc32 inflate cacheOps indexOps hasFs fuel typ p (place k :: offsets) = objectIter_next sha1 crc32 inflate cacheOps indexOps hasFs fuel typ p' offsets.
Proof.
  intros Hf Hp Hk. destruct (entry_of k t c Hk) as (e & b & He & Hb). assert (k < fuel)%nat as Hlt by (apply lookup_lt_Some in Hk; lia).
  destruct (headerFromOffset_ok p k e b Hp He Hb) as (p1 & E1 & Hp1). destruct (objectFromHeader_ok fuel k Hlt p1 e b t c Hp1 He Hb Hk) as (p2 & o & E2 & Hp2 & Hg).
  cbn [objectIter_next]. rewrite E1. cbn [res_bind]. change (oh_Type (headerOf e b (place k))) with (pe_Type e). unfold wanted. cbn [fst].
  destruct (typ =? AnyObject); cbn [orb]; [exists p2; split; [done|]; exists o; rewrite E2; by split|]. destruct (IsDelta (pe_Type e)) eqn:Ed.
  - rewrite E2. cbn [res_bind]. destruct (gives_hash _ _ _ Hg) as (_ & -> & _). exists p2. split; [done|]. destruct (t =? typ); [by exists o|done].
  - rewrite (entry_type k e t c He Hk Ed). destruct (t =? typ); [exists p2; split; [done|]; exists o; rewrite E2; by split|by exists p1].
Qed.

Lemma ForEach_ok fuel typ ks : (length es <= fuel)%nat -> Forall (fun '(k, r) => rs !! k = Some r) ks -> forall n p seen, (length ks < n)%nat -> usable p ->
  exists p' os, objectIter_ForEach sha1 crc32 inflate cacheOps indexOps hasFs fuel typ n p (map (fun '(k, _) => place k) ks) seen = Ok (p', seen ++ os, None) /\ usable p' /\
    Forall2 (fun o r => gives o r.1 r.2) os (List.filter (wanted typ) (map snd ks)).
Proof.
  intros Hf. induction 1 as [|[k [t c]] ks Hk _ IH]; intros n p seen Hn Hp; (destruct n as [|n]; [cbn in Hn; lia|]).
  - exists p, []. rewrite app_nil_r. by split_and!.
  - cbn [map objectIter_ForEach List.filter snd]. destruct (iter_next_ok fuel typ k p (map (fun '(k, _) => place k) ks) t c Hf Hp Hk) as (p1 & Hp1 & Hstep). destruct (wanted typ (t, c)).
    + destruct Hstep as (o & -> & Hg). cbn [res_bind]. destruct (IH n p1 (seen ++ [o])) as (p2 & os & -> & Hp2 & Hos); [cbn in Hn; lia|done|]. exists p2, (o :: os). rewrite <- app_assoc. split_and!; [done..|by constructor].
    + rewrite Hstep. destruct (IH (S n) p1 seen) as (p2 & os & E & Hp2 & Hos); [cbn in Hn; lia|done|]. exists p2, os. by split_and!.
Qed.

(** A packfile over the bytes of the pack, with the index of the pack and a cache that holds nothing. *)
Lemma Packfile_init_ok i : good i -> law_inv newCache -> law_view newCache = [] ->
  exists p, Packfile_init sha1 crc32 inflate newCache (Some (packFile sha1 bss)) (Some i) None = Ok (inr p) /\ usable p /\ pf_id p = packSum sha1 (packOf bss).
Proof.
  intros Hi Hinv Hview. pose proof (Forall2_length _ _ _ Hpacked) as El. assert (0 < len es) as Hpos by (destruct es; [done|rewrite len_cons; pose proof (len_nonneg l); lia]).
  destruct (Scan_header sha1 None crc32 inflate (fun (st : Empty_set) t sz c => st) true false None (len es) (concat bss ++ WriteTo (packSum sha1 (packOf bss)))) as (s & Es & Hat & _); [lia|].
  assert (packFile sha1 bss = pack_head (len es) ++ concat bss ++ WriteTo (packSum sha1 (packOf bss))) as Ef.
  { unfold packFile, packOf. assert (len bss = len es) as -> by (unfold len; lia). by rewrite <- app_assoc. }
  unfold Packfile_init. change SHA1Size with 20. rewrite Ef, Es. rewrite <- Ef. destruct Hat as [Hfile _]. rewrite <- Ef in Hfile.
  destruct (packSum_bytes sha1 sha1_len (packOf bss)) as (Hb & Hw & Hf). assert (len (WriteTo (packSum sha1 (packOf bss))) = 20) as El20 by (unfold WriteTo; by rewrite Hb).
  assert (len (packFile sha1 bss) = len (packOf bss) + 20) as Elen by (unfold packFile; by rewrite len_app, El20). pose proof (len_nonneg (packOf bss)).
  destruct (Z.ltb_spec (len (packFile sha1 bss)) 20); [lia|]. rewrite Elen. replace (len (packOf bss) + 20 - 20) with (len (packOf bss)) by lia.
  unfold packFile at 1. unfold len at 1. rewrite Nat2Z.id, drop_app_length. rewrite <- (app_nil_r (WriteTo _)). change (ResetBySize ZeroHash 20) with ZeroHash.
  rewrite ReadFrom_WriteTo by done. eexists. split; [done|]. split; [|done]. split; [done|]. split; [|done]. split; [done|]. cbn [pf_cache default]. rewrite Hview. by intros o ?%not_elem_of_nil.
Qed.
End Objects.
