(* ===== verification/PktLine.v ===== *)
(** * plumbing/format/pktline

    Model of length.go, pktline.go, error.go and scanner.go: four hexadecimal
    digits of length followed by the payload, with the special packets flush,
    delim and response-end.  Tracing is not modelled. *)
From S2P Require Import Prelude GoStrings.

(** ** Constants (common.go) *)
Definition ErrLen : Z := -1.   (* the constant [Err] *)
Definition Flush : Z := 0.
Definition Delim : Z := 1.
Definition ResponseEnd : Z := 2.
Definition MaxSize : Z := 65520.
Definition LenSize : Z := 4.
Definition MaxPayloadSize : Z := MaxSize - LenSize.
Definition flushPkt : bytes := bs "0000".
Definition delimPkt : bytes := bs "0001".
Definition responseEndPkt : bytes := bs "0002".
Definition emptyPkt : bytes := bs "0004".
Definition errPrefix : bytes := bs "ERR ".
Definition errPrefixSize : Z := LenSize.

(** ** Lengths (length.go) *)

Definition asciiHexToByte (b : byte) : res Z :=
  let b := b2z b in
  if (48 <=? b) && (b <=? 57) then Ok (b - 48)
  else if (97 <=? b) && (b <=? 102) then Ok (b - 97 + 10)
  else if (65 <=? b) && (b <=? 70) then Ok (b - 65 + 10)
  else Err ErrInvalidPktLen.

Fixpoint hexDecode_loop (n : nat) (buf : bytes) (ret : Z) : res Z :=
  match n with
  | O => Ok ret
  | S n =>
    match buf with
    | [] => Panic
    | b :: buf => let* d := asciiHexToByte b in hexDecode_loop n buf (16 * ret + d)
    end
  end.

Definition hexDecode (buf : bytes) : res Z :=
  if len buf <? 4 then Err ErrInvalidPktLen else hexDecode_loop (Z.to_nat LenSize) buf 0.

(** [ParseLength] (length.go:8) of a non-nil slice. *)
Definition ParseLength (b : bytes) : res Z :=
  let* n := hexDecode b in
  if n =? 3 then Err ErrInvalidPktLen
  else if n >? MaxSize then Err ErrInvalidPktLen
  else Ok n.

(** [byteToASCIIHex] (length.go:83) on the value of the byte. *)
Definition byteToASCIIHex (n : Z) : byte :=
  if n <? 10 then z2b (48 + n) else z2b (97 - 10 + n).

(** [asciiHex16] (length.go:71); [&] and [>>] have the same precedence in Go. *)
Definition asciiHex16 (n : Z) : bytes :=
  [ byteToASCIIHex (b2z (z2b (Z.shiftr (Z.land n 0xf000) 12)));
    byteToASCIIHex (b2z (z2b (Z.shiftr (Z.land n 0x0f00) 8)));
    byteToASCIIHex (b2z (z2b (Z.shiftr (Z.land n 0x00f0) 4)));
    byteToASCIIHex (b2z (z2b (Z.land n 0x000f))) ].

(** ** Writing: the bytes appended to the writer *)

Definition Write (p : bytes) : res bytes :=
  if len p =? 0 then Ok emptyPkt
  else if len p >? MaxPayloadSize then Err ErrPayloadTooLong
  else
    let pktlen := len p + LenSize in
    Ok (asciiHex16 pktlen ++ p).

Definition Writeln (s : bytes) : res bytes := Write (s ++ [x0a]).
Definition WriteString (s : bytes) : res bytes := Write s.
Definition WriteError (e : bytes) : res bytes := Write (errPrefix ++ e ++ [x0a]).
Definition WriteFlush : bytes := flushPkt.
Definition WriteDelim : bytes := delimPkt.
Definition WriteResponseEnd : bytes := responseEndPkt.

(** ** Reading *)

(** The two results of a read, length and error: an error packet has both. *)
Record readResult := mkRead { rdLen : Z; rdErr : option error }.

Definition parseFailed (e : error) : readResult := mkRead ErrLen (Some e).

(** [Read] (pktline.go:116) into the buffer [p] (the shared buffer of the callers
    has [MaxSize] bytes): the results, the buffer and the reader afterwards. *)
Definition Read (r p : bytes) : res (readResult * bytes * bytes) :=
  if len p <? LenSize then Panic (* p[:LenSize] *)
  else
  match readFull LenSize r with
  | Err ErrUnexpectedEOF => Ok (parseFailed ErrInvalidPktLen, r ++ drop (length r) p, [])
  | Err e => Ok (parseFailed e, p, [])
  | Panic => Panic
  | NoFuel => NoFuel
  | Ok (hdr, r) =>
    let p := hdr ++ drop (Z.to_nat LenSize) p in
    match ParseLength p with
    | Err e => Ok (parseFailed e, p, r)
    | Panic => Panic
    | NoFuel => NoFuel
    | Ok length =>
      if (length =? Flush) || (length =? Delim) || (length =? ResponseEnd) || (length =? LenSize)
      then Ok (mkRead length None, p, r)
      else if len p <? length then Panic (* p[LenSize:length] *)
      else
        match readFull (length - LenSize) r with
        | Err e =>
          Ok (parseFailed e, hdr ++ r ++ drop (Z.to_nat LenSize + List.length r) p, [])
        | Panic => Panic
        | NoFuel => NoFuel
        | Ok (data, r) =>
          let p := hdr ++ data ++ drop (Z.to_nat length) p in
          let* body := slice p LenSize (len p) in
          if HasPrefix body errPrefix then
            let* text := slice p (LenSize + errPrefixSize) length in
            Ok (mkRead length (Some (ErrorLine (TrimSpace text))), p, r)
          else Ok (mkRead length None, p, r)
        end
    end
  end.

(** [ReadLine] (pktline.go:164); [buf] is the pooled buffer with its old contents. *)
Definition ReadLine (buf r : bytes) : res (readResult * option bytes * bytes) :=
  let* (l, p, r) := Read r buf in
  if rdLen l <? LenSize then Ok (l, None, r)
  else let* payload := slice p LenSize (rdLen l) in Ok (l, Some payload, r).

(** [PeekLine] (pktline.go:183) on a peeker that can hold a whole packet:
    [Peek] returns [EOF] when fewer bytes are left. *)
Definition Peek (r : bytes) (n : Z) : res bytes :=
  if len r <? n then Err EOF else Ok (take (Z.to_nat n) r).

Definition PeekLine (r : bytes) : res (readResult * option bytes) :=
  match Peek r LenSize with
  | Err e => Ok (parseFailed e, None)
  | Panic => Panic
  | NoFuel => NoFuel
  | Ok n =>
    match ParseLength n with
    | Err e => Ok (parseFailed e, None)
    | Panic => Panic
    | NoFuel => NoFuel
    | Ok length =>
      if (length =? Flush) || (length =? Delim) || (length =? ResponseEnd)
      then Ok (mkRead length None, None)
      else if length =? LenSize then Ok (mkRead length None, Some [])
      else
        match Peek r length with
        | Err e => Ok (parseFailed e, None)
        | Panic => Panic
        | NoFuel => NoFuel
        | Ok data =>
          let* buf := slice data LenSize length in
          if HasPrefix buf errPrefix then
            let* text := slice buf errPrefixSize (len buf) in
            Ok (mkRead length (Some (ErrorLine (TrimSpace text))), Some buf)
          else Ok (mkRead length None, Some buf)
        end
    end
  end.

(** ** Error lines (error.go) *)
Definition ErrorLine_Encode (text : bytes) : res bytes := WriteError text.

Definition ErrorLine_Decode (buf r : bytes) : res bytes :=
  let* (l, _, _) := ReadLine buf r in
  match rdErr l with
  | Some (ErrorLine text) => Ok text
  | _ => Err ErrInvalidErrorLine
  end.

(** ** [Scanner] (scanner.go); the reader is never nil *)
Record Scanner := mkPktScanner { sr : bytes; serr : option error; sbuf : bytes; sn : Z }.

Definition NewScanner (r : bytes) : Scanner :=
  mkPktScanner r None (replicate (Z.to_nat MaxSize) x00) 0.

Definition Scan (s : Scanner) : res (bool * Scanner) :=
  let* (l, buf, r) := Read (sr s) (sbuf s) in
  match rdErr l with
  | Some EOF => Ok (false, mkPktScanner r None buf (rdLen l))
  | Some e => Ok (false, mkPktScanner r (Some e) buf (rdLen l))
  | None => Ok (true, mkPktScanner r None buf (rdLen l))
  end.

Definition ScannerBytes (s : Scanner) : res (option bytes) :=
  if LenSize <=? sn s then let* b := slice (sbuf s) LenSize (sn s) in Ok (Some b)
  else Ok None.

(** ** Facts *)

Lemma nibble n k : 0 <= k -> Z.shiftr (Z.land n (Z.shiftl 0xf k)) k = (n / 2 ^ k) mod 16.
Proof.
  intros. rewrite Z.shiftr_land, Z.shiftr_shiftl_l, Z.sub_diag, Z.shiftl_0_r by lia.
  change 0xf with (Z.ones 4). rewrite Z.land_ones, Z.shiftr_div_pow2 by lia. done.
Qed.

Lemma hex_digit d : 0 <= d < 16 -> asciiHexToByte (byteToASCIIHex d) = Ok d.
Proof.
  intros Hd.
  assert (In d (map Z.of_nat (seq 0 16))) as Hin.
  { apply in_map_iff. exists (Z.to_nat d). split; [lia|apply in_seq; lia]. }
  cbn in Hin. repeat (destruct Hin as [<-|Hin]; [vm_compute; reflexivity|]). done.
Qed.

Lemma hexDecode_asciiHex16 n rest :
  0 <= n < 65536 -> hexDecode (asciiHex16 n ++ rest) = Ok n.
Proof.
  intros Hn. unfold asciiHex16.
  change 0xf000 with (Z.shiftl 0xf 12). change 0x0f00 with (Z.shiftl 0xf 8).
  change 0x00f0 with (Z.shiftl 0xf 4).
  rewrite <- (Z.shiftr_0_r (Z.land n 15)). change 15 with (Z.shiftl 0xf 0) at 4. rewrite !nibble by lia.
  unfold hexDecode. rewrite len_app. change (len _) with 4 at 1. pose proof (len_nonneg rest).
  destruct (Z.ltb_spec (4 + len rest) 4); [lia|].
  change (Z.to_nat LenSize) with 4%nat. cbn [app hexDecode_loop].
  rewrite !z2b_small, !hex_digit by (Z.to_euclidean_division_equations; lia). cbn [res_bind].
  f_equal. Z.to_euclidean_division_equations; lia.
Qed.

Lemma ParseLength_asciiHex16 n rest :
  0 <= n <= MaxSize -> n <> 3 -> ParseLength (asciiHex16 n ++ rest) = Ok n.
Proof.
  unfold MaxSize. intros Hn H3. unfold ParseLength. rewrite hexDecode_asciiHex16 by lia. cbn [res_bind].
  unfold MaxSize. destruct (Z.eqb_spec n 3), (Z.gtb_spec n 65520); (lia || done).
Qed.

Lemma asciiHexToByte_range b d : asciiHexToByte b = Ok d -> 0 <= d < 16.
Proof.
  unfold asciiHexToByte. cbv zeta. pose proof (b2z_range b) as Hb.
  destruct (Z.leb_spec 48 (b2z b)), (Z.leb_spec (b2z b) 57), (Z.leb_spec 97 (b2z b)),
    (Z.leb_spec (b2z b) 102), (Z.leb_spec 65 (b2z b)), (Z.leb_spec (b2z b) 70); cbn [andb];
    intros E; inversion E; lia.
Qed.

Lemma hexDecode_loop_range n buf ret v :
  0 <= ret -> hexDecode_loop n buf ret = Ok v -> 0 <= v.
Proof.
  revert buf ret. induction n as [|n IH]; intros buf ret Hr; cbn [hexDecode_loop]; [intros [= <-]; done|].
  destruct buf as [|b buf]; [discriminate|]. intros E. inv_bind E.
  apply asciiHexToByte_range in E0. eapply IH; [|exact E]. lia.
Qed.

Lemma ParseLength_range b n : ParseLength b = Ok n -> 0 <= n <= MaxSize /\ n <> 3.
Proof.
  unfold ParseLength, MaxSize. intros E. inv_bind E.
  assert (0 <= v). { unfold hexDecode in E0. destruct (_ <? _); [discriminate E0|]. by eapply hexDecode_loop_range in E0. }
  destruct (Z.eqb_spec v 3); [discriminate E|]. destruct (Z.gtb_spec v 65520); [discriminate E|].
  unfold MaxSize in *. injection E as <-. lia.
Qed.

Lemma asciiHexToByte_safe b : (exists d, asciiHexToByte b = Ok d) \/ asciiHexToByte b = Err ErrInvalidPktLen.
Proof. unfold asciiHexToByte. repeat (destruct (_ && _); [eauto|]). auto. Qed.

Lemma ParseLength_safe b :
  4 <= len b -> (exists n, ParseLength b = Ok n) \/ ParseLength b = Err ErrInvalidPktLen.
Proof.
  intros Hb. unfold ParseLength.
  assert ((exists n, hexDecode b = Ok n) \/ hexDecode b = Err ErrInvalidPktLen) as H.
  { unfold hexDecode. destruct (Z.ltb_spec (len b) 4); [auto|].
    assert (4 <= length b)%nat as Hl by (unfold len in *; lia).
    change (Z.to_nat LenSize) with 4%nat. generalize 0 as ret. clear -Hl. revert b Hl.
    generalize 4%nat as n. induction n as [|n IH]; intros b Hl ret; cbn [hexDecode_loop]; [eauto|].
    destruct b as [|x b]; [cbn in Hl; lia|]. destruct (asciiHexToByte_safe x) as [[d ->]| ->]; cbn [res_bind]; [|auto].
    apply IH. cbn in Hl. lia. }
  destruct H as [[n ->]| ->]; cbn [res_bind]; [|auto]. destruct (n =? 3); [auto|]. destruct (n >? MaxSize); eauto.
Qed.

Lemma ParseLength_app hdr x : len hdr = 4 -> ParseLength (hdr ++ x) = ParseLength hdr.
Proof.
  intros H. destruct hdr as [|a [|b [|c [|d [|e hdr]]]]]; try discriminate.
  - unfold ParseLength, hexDecode. rewrite len_app. change (len [a; b; c; d]) with 4.
    pose proof (len_nonneg x). destruct (Z.ltb_spec (4 + len x) 4); [lia|]. done.
  - rewrite !len_cons in H. pose proof (len_nonneg hdr). lia.
Qed.

Lemma asciiHex16_len n : len (asciiHex16 n) = 4.
Proof. reflexivity. Qed.

(** What [Read] does with a whole packet of [n] bytes at the head of the reader. *)
Lemma Read_packet hdr n data r p :
  len p = MaxSize -> len hdr = 4 -> ParseLength hdr = Ok n -> 5 <= n -> len data = n - 4 ->
  Read (hdr ++ data ++ r) p =
  let p' := hdr ++ data ++ drop (Z.to_nat n) p in
  if HasPrefix (data ++ drop (Z.to_nat n) p) errPrefix then
    let* text := slice p' 8 n in Ok (mkRead n (Some (ErrorLine (TrimSpace text))), p', r)
  else Ok (mkRead n None, p', r).
Proof.
  intros Hp Hh HP Hn Hd. pose proof (ParseLength_range _ _ HP) as [Hmax _].
  unfold MaxSize in *. unfold Read, LenSize, Flush, Delim, ResponseEnd.
  destruct (Z.ltb_spec (len p) 4); [lia|]. rewrite readFull_app by done.
  rewrite ParseLength_app, HP by done.
  destruct (Z.eqb_spec n 0), (Z.eqb_spec n 1), (Z.eqb_spec n 2), (Z.eqb_spec n 4); try lia. cbn [orb].
  assert (len (hdr ++ drop (Z.to_nat 4) p) = 65520) as Hl.
  { rewrite len_app, len_drop. lia. }
  destruct (Z.ltb_spec (len (hdr ++ drop (Z.to_nat 4) p)) n); [lia|].
  rewrite readFull_app by lia. cbv zeta.
  replace (drop (Z.to_nat n) (hdr ++ drop (Z.to_nat 4) p)) with (drop (Z.to_nat n) p).
  2: { unfold len in *. rewrite drop_app_ge, drop_drop by lia. f_equal. lia. }
  set (p' := hdr ++ data ++ drop (Z.to_nat n) p).
  assert (len p' = 65520) as Hp'. { unfold p'. rewrite !len_app, len_drop. lia. }
  rewrite slice_ok by lia. cbn [res_bind]. unfold seg at 1, p' at 2.
  rewrite drop_app_length' by (unfold len in *; lia).
  rewrite take_ge; [done|]. rewrite Hp'. unfold p' in Hp'.
  rewrite len_app in Hp'. unfold len in *. lia.
Qed.

(** The special packets and the empty one. *)
Lemma Read_special hdr n r p :
  len p = MaxSize -> len hdr = 4 -> ParseLength hdr = Ok n -> n <= 4 ->
  Read (hdr ++ r) p = Ok (mkRead n None, hdr ++ drop 4 p, r).
Proof.
  intros Hp Hh HP Hn. pose proof (ParseLength_range _ _ HP) as [Hmax H3].
  unfold Read, LenSize, Flush, Delim, ResponseEnd, MaxSize in *.
  destruct (Z.ltb_spec (len p) 4); [lia|]. rewrite readFull_app by done.
  rewrite ParseLength_app, HP by done.
  destruct (Z.eqb_spec n 0), (Z.eqb_spec n 1), (Z.eqb_spec n 2), (Z.eqb_spec n 4); (lia || done).
Qed.

Lemma payload_seg (hdr data x : bytes) n :
  len hdr = 4 -> len data = n - 4 -> 4 <= n -> slice (hdr ++ data ++ x) 4 n = Ok data.
Proof.
  intros Hh Hd Hn. rewrite slice_ok by (rewrite ?len_app; pose proof (len_nonneg x); lia).
  unfold seg. rewrite drop_app_length' by (unfold len in *; lia).
  rewrite take_app_length' by (unfold len in *; lia). done.
Qed.

Lemma Write_data p :
  0 < len p <= MaxPayloadSize -> Write p = Ok (asciiHex16 (len p + 4) ++ p).
Proof.
  unfold MaxPayloadSize, MaxSize, LenSize. intros. unfold Write, MaxPayloadSize, MaxSize, LenSize.
  destruct (Z.eqb_spec (len p) 0), (Z.gtb_spec (len p) (65520 - 4)); (lia || done).
Qed.

Lemma ReadLine_data p buf r :
  len buf = MaxSize -> len p <= MaxPayloadSize ->
  HasPrefix (p ++ drop (Z.to_nat (len p + 4)) buf) errPrefix = false ->
  exists e, Write p = Ok e /\ ReadLine buf (e ++ r) = Ok (mkRead (len p + 4) None, Some p, r).
Proof.
  unfold MaxPayloadSize, MaxSize, LenSize. intros Hb Hp Hpre. pose proof (len_nonneg p).
  destruct (decide (p = [])) as [->|Hne].
  - eexists. split; [reflexivity|]. unfold ReadLine. rewrite (Read_special emptyPkt 4) by done.
    cbn [res_bind rdLen]. unfold LenSize. destruct (Z.ltb_spec 4 4); [lia|].
    pose proof (payload_seg emptyPkt [] (drop 4 buf) 4) as Hs. cbn [app] in Hs. rewrite Hs by done. done.
  - assert (0 < len p). { destruct p; [done|]. rewrite len_cons. pose proof (len_nonneg p). lia. }
    eexists. split; [apply Write_data; unfold MaxPayloadSize, MaxSize, LenSize; lia|].
    unfold ReadLine. rewrite <- app_assoc.
    rewrite (Read_packet (asciiHex16 (len p + 4)) (len p + 4)).
    + cbv zeta. rewrite Hpre. cbn [res_bind rdLen]. unfold LenSize.
      destruct (Z.ltb_spec (len p + 4) 4); [lia|].
      rewrite payload_seg by (done || lia). done.
    + done.
    + done.
    + rewrite <- (app_nil_r (asciiHex16 _)). apply ParseLength_asciiHex16; unfold MaxSize; lia.
    + lia.
    + lia.
Qed.

(** ** Error lines *)

Lemma ReadLine_error text buf r :
  len buf = MaxSize -> len text + 5 <= MaxPayloadSize ->
  exists e, WriteError text = Ok e /\
    ReadLine buf (e ++ r) = Ok (mkRead (len text + 9) (Some (ErrorLine (TrimSpace text))),
                               Some (errPrefix ++ text ++ [x0a]), r).
Proof.
  unfold MaxPayloadSize, MaxSize, LenSize. intros Hb Ht. pose proof (len_nonneg text).
  unfold WriteError. set (p := errPrefix ++ text ++ [x0a]).
  assert (len p = len text + 5) as Hp. { unfold p. rewrite !len_app. change (len errPrefix) with 4. change (len [x0a]) with 1. lia. }
  rewrite Write_data by (unfold MaxPayloadSize, MaxSize, LenSize; lia). eexists. split; [reflexivity|].
  unfold ReadLine. rewrite <- app_assoc.
  rewrite (Read_packet (asciiHex16 (len p + 4)) (len p + 4)).
  - cbv zeta. rewrite HasPrefix_app by (unfold p; rewrite length_app; lia).
    assert (HasPrefix p errPrefix = true) as ->.
    { unfold HasPrefix, p. rewrite take_app_length. by rewrite bool_decide_eq_true_2. }
    assert (forall x, slice (asciiHex16 (len p + 4) ++ p ++ x) 8 (len p + 4) = Ok (text ++ [x0a])) as Hsl.
    { intros x. rewrite slice_ok by (rewrite ?len_app, ?asciiHex16_len; pose proof (len_nonneg x); lia).
      unfold seg, p at 3. rewrite <- app_assoc, app_assoc. rewrite drop_app_length' by (cbn; lia).
      rewrite take_app_length' by (rewrite length_app; unfold len in *; cbn [length] in *; lia). done. }
    rewrite Hsl. cbn [res_bind rdLen]. unfold LenSize.
    destruct (Z.ltb_spec (len p + 4) 4); [lia|].
    rewrite payload_seg by (done || lia). cbn [res_bind].
    rewrite TrimSpace_newline, Hp. do 4 f_equal. lia.
  - done.
  - done.
  - rewrite <- (app_nil_r (asciiHex16 _)). apply ParseLength_asciiHex16; unfold MaxSize; lia.
  - lia.
  - lia.
Qed.

(** A packet of one to three bytes of payload that the stale contents of the
    buffer complete to an error prefix. *)
Definition stale_error (r buf : bytes) : Prop :=
  exists hdr n data r', r = hdr ++ data ++ r' /\ len hdr = 4 /\ ParseLength hdr = Ok n /\
    5 <= n < 8 /\ len data = n - 4 /\ HasPrefix (data ++ drop (Z.to_nat n) buf) errPrefix = true.

Definition read_outcome (r buf : bytes) (o : res (readResult * bytes * bytes)) : Prop :=
  match o with
  | Ok (l, buf', r') =>
      len buf' = MaxSize /\ ErrLen <= rdLen l <= MaxSize /\ rdLen l <> 3 /\
      (rdLen l = ErrLen -> rdErr l <> None) /\ exists x, r = x ++ r'
  | Panic => stale_error r buf
  | Err _ | NoFuel => False
  end.

Lemma Read_outcome r buf : len buf = MaxSize -> read_outcome r buf (Read r buf).
Proof.
  intros Hb. pose proof (len_nonneg r).
  destruct (readFull_cases 4 r) as [(hdr & r1 & E & -> & Hh)|[[E ->]|[E Hs]]]; [lia| | |].
  2, 3: unfold Read; rewrite Hb; change (MaxSize <? LenSize) with false; cbv iota;
        change (readFull LenSize) with (readFull 4); rewrite E; cbn;
        unfold ErrLen, MaxSize in *; split; [|split; [lia|split; [lia|split; [done|eexists; symmetry; apply app_nil_r]]]].
  2: lia.
  2: { rewrite len_app, len_drop. unfold len in *. lia. }
  destruct (ParseLength_safe hdr) as [[n HP]|HP]; [lia| |].
  - pose proof (ParseLength_range _ _ HP) as [Hn H3].
    destruct (Z.le_gt_cases n 4) as [Hle|Hgt].
    + rewrite (Read_special hdr n) by (done || lia). cbn. unfold ErrLen, MaxSize in *.
      split; [rewrite len_app, len_drop; lia|]. split; [lia|]. split; [done|]. split; [lia|]. by exists hdr.
    + destruct (readFull_cases (n - 4) r1) as [(data & r2 & E1 & -> & Hd)|H1]; [lia| |].
      * rewrite (Read_packet hdr n data r2 buf) by (done || lia). cbv zeta.
        set (p' := hdr ++ data ++ drop (Z.to_nat n) buf).
        assert (len p' = MaxSize) as Hp'. { unfold p'. rewrite !len_app, len_drop. unfold MaxSize in *. lia. }
        assert (exists x, hdr ++ data ++ r2 = x ++ r2) as Hsuf by (exists (hdr ++ data); by rewrite app_assoc).
        destruct (HasPrefix (data ++ drop (Z.to_nat n) buf) errPrefix) eqn:Ep.
        -- destruct (Z.lt_ge_cases n 8).
           ++ unfold slice. destruct (Z.leb_spec 8 n); [lia|]. rewrite andb_false_r. cbn.
              exists hdr, n, data, r2. auto 10 with lia.
           ++ rewrite slice_ok by lia. cbn. unfold ErrLen. auto with lia.
        -- cbn. unfold ErrLen. auto with lia.
      * unfold Read. rewrite Hb. change (MaxSize <? LenSize) with false. cbv iota.
        rewrite (readFull_app LenSize hdr r1) by done. rewrite ParseLength_app, HP by done.
        unfold LenSize, Flush, Delim, ResponseEnd.
        destruct (Z.eqb_spec n 0), (Z.eqb_spec n 1), (Z.eqb_spec n 2), (Z.eqb_spec n 4); try lia. cbn [orb].
        assert (len (hdr ++ drop (Z.to_nat 4) buf) = MaxSize) as Hl.
        { rewrite len_app, len_drop. unfold MaxSize in *. lia. }
        rewrite Hl. destruct (Z.ltb_spec MaxSize n); [lia|].
        assert (len r1 < n - 4). { destruct H1 as [[_ ->]|[_ ?]]; [rewrite len_nil|]; lia. }
        assert (exists e, readFull (n - 4) r1 = Err e) as [e ->] by (destruct H1 as [[-> _]|[-> _]]; eauto).
        cbn. unfold ErrLen. split; [|split; [unfold MaxSize in *; lia|split; [lia|split; [done|eexists; symmetry; apply app_nil_r]]]].
        rewrite len_app, len_app, len_drop, Hl. unfold len, MaxSize in *. lia.
  - unfold Read. rewrite Hb. change (MaxSize <? LenSize) with false. cbv iota.
    rewrite (readFull_app LenSize hdr r1) by done. rewrite ParseLength_app, HP by done.
    change (Z.to_nat LenSize) with 4%nat. cbn [read_outcome rdLen rdErr parseFailed].
    unfold ErrLen, MaxSize in *. split; [rewrite len_app, len_drop; lia|].
    split; [lia|]. split; [lia|]. split; [done|]. by exists hdr.
Qed.

(** ** Streams of packets *)

Inductive pkt := PktData (p : bytes) | PktFlush | PktDelim | PktResponseEnd.

Definition encodePkt (k : pkt) : res bytes :=
  match k with
  | PktData p => Write p
  | PktFlush => Ok WriteFlush
  | PktDelim => Ok WriteDelim
  | PktResponseEnd => Ok WriteResponseEnd
  end.

Fixpoint encodePkts (ks : list pkt) : res bytes :=
  match ks with
  | [] => Ok []
  | k :: ks => let* e := encodePkt k in let* es := encodePkts ks in Ok (e ++ es)
  end.

(** The packets that survive a scan: no error packet, and no payload of one to
    three bytes. *)
Definition pkt_ok (k : pkt) : Prop :=
  match k with
  | PktData p => p = [] \/ (4 <= len p <= MaxPayloadSize /\ HasPrefix p errPrefix = false)
  | _ => True
  end.

(** What a client of the scanner sees of a packet: its length and payload. *)
Definition pktSeen (k : pkt) : Z * option bytes :=
  match k with
  | PktData p => (len p + 4, Some p)
  | PktFlush => (Flush, None)
  | PktDelim => (Delim, None)
  | PktResponseEnd => (ResponseEnd, None)
  end.

(** The usual client loop: [for s.Scan() { use(s.Len(), s.Bytes()) }]. *)
Fixpoint scanAll (fuel : nat) (s : Scanner) : res (list (Z * option bytes) * Scanner) :=
  match fuel with
  | O => NoFuel
  | S fuel =>
    let* (more, s1) := Scan s in
    if more then
      let* b := ScannerBytes s1 in
      let* (l, s2) := scanAll fuel s1 in
      Ok ((sn s1, b) :: l, s2)
    else Ok ([], s1)
  end.

Lemma Read_pkt k buf r :
  pkt_ok k -> len buf = MaxSize ->
  exists e buf', encodePkt k = Ok e /\
    Read (e ++ r) buf = Ok (mkRead (fst (pktSeen k)) None, buf', r) /\ len buf' = MaxSize /\
    ScannerBytes (mkPktScanner r None buf' (fst (pktSeen k))) = Ok (snd (pktSeen k)).
Proof.
  intros Hk Hb. unfold MaxSize in *.
  assert (forall hdr n, len hdr = 4 -> ParseLength hdr = Ok n -> n <= 4 ->
    Read (hdr ++ r) buf = Ok (mkRead n None, hdr ++ drop 4 buf, r) /\ len (hdr ++ drop 4 buf) = 65520) as Hsp.
  { intros hdr n Hh HP Hn. split; [by apply Read_special|]. rewrite len_app, len_drop. lia. }
  destruct k as [p| | |]; cbn [encodePkt pktSeen fst snd pkt_ok] in *.
  2: { destruct (Hsp flushPkt 0) as [E1 E2]; [done..|]. eauto 10. }
  2: { destruct (Hsp delimPkt 1) as [E1 E2]; [done..|]. eauto 10. }
  2: { destruct (Hsp responseEndPkt 2) as [E1 E2]; [done..|]. eauto 10. }
  destruct Hk as [->|[Hp Hpre]].
  - destruct (Hsp emptyPkt 4) as [E1 E2]; [done..|].
    do 2 eexists. split; [reflexivity|]. split; [exact E1|]. split; [exact E2|].
    unfold ScannerBytes. cbn [sn sbuf]. change (LenSize <=? len (@nil byte) + 4) with true. cbv iota.
    pose proof (payload_seg emptyPkt [] (drop 4 buf) 4) as Hs. cbn [app] in Hs.
    change (len (@nil byte) + 4) with 4. change LenSize with 4. rewrite Hs by done. done.
  - unfold MaxPayloadSize, MaxSize, LenSize in Hp. do 2 eexists.
    split; [apply Write_data; unfold MaxPayloadSize, MaxSize, LenSize; lia|].
    rewrite <- app_assoc. split; [rewrite (Read_packet (asciiHex16 (len p + 4)) (len p + 4))|].
    + cbv zeta. rewrite HasPrefix_app, Hpre by (unfold len in *; cbn; lia). reflexivity.
    + done.
    + done.
    + rewrite <- (app_nil_r (asciiHex16 _)). apply ParseLength_asciiHex16; unfold MaxSize; lia.
    + lia.
    + lia.
    + split.
      * rewrite !len_app, len_drop, asciiHex16_len. lia.
      * unfold ScannerBytes. cbn [sn sbuf]. unfold LenSize.
        destruct (Z.leb_spec 4 (len p + 4)); [|lia]. rewrite payload_seg by (done || lia). done.
Qed.

Lemma scanAll_pkts ks : forall fuel buf err n,
  Forall pkt_ok ks -> len buf = MaxSize -> (length ks < fuel)%nat ->
  exists e s, encodePkts ks = Ok e /\
    scanAll fuel (mkPktScanner e err buf n) = Ok (map pktSeen ks, s) /\ serr s = None.
Proof.
  induction ks as [|k ks IH]; intros [|fuel] buf err n Hks Hb Hf; cbn [length] in Hf; try lia;
    cbn [encodePkts map scanAll]; unfold Scan; cbn [sr sbuf].
  - do 2 eexists. split; [reflexivity|]. unfold Read. rewrite Hb. cbn. done.
  - apply Forall_cons in Hks as [Hk Hks].
    destruct (IH fuel buf None 0 Hks Hb ltac:(lia)) as (es & _ & Ees & _).
    destruct (Read_pkt k buf es Hk Hb) as (e & buf' & Ee & ER & Hb' & Hby).
    destruct (IH fuel buf' None (fst (pktSeen k)) Hks Hb' ltac:(lia)) as (es' & s & Ees' & ES & Herr).
    rewrite Ees in Ees'. injection Ees' as <-.
    exists (e ++ es), s. rewrite Ee. cbn [res_bind]. rewrite Ees. cbn [res_bind]. split; [done|].
    rewrite ER. cbn [res_bind rdErr rdLen]. rewrite Hby. cbn [res_bind]. rewrite ES. cbn [res_bind sn].
    destruct (pktSeen k). done.
Qed.

(** ** Properties *)

(** an error line round trips: what [WriteError] writes is reported by
    [ReadLine] as an error with the trimmed text, together with the length and the
    payload of the packet. *)
Theorem errorline_roundtrip text buf r :
  len buf = MaxSize -> len text + 5 <= MaxPayloadSize ->
  exists e, ErrorLine_Encode text = Ok e /\
    ReadLine buf (e ++ r) = Ok (mkRead (len text + 9) (Some (ErrorLine (TrimSpace text))),
                               Some (errPrefix ++ text ++ [x0a]), r) /\
    ErrorLine_Decode buf (e ++ r) = Ok (TrimSpace text).
Proof.
  intros Hb Ht. destruct (ReadLine_error text buf r Hb Ht) as (e & He & HR).
  exists e. split; [done|]. split; [done|]. unfold ErrorLine_Decode. by rewrite HR.
Qed.

Lemma errorline_roundtrip_witness :
  exists e, WriteError (bs " no ") = Ok e /\
    ReadLine (sbuf (NewScanner [])) (e ++ []) =
      Ok (mkRead 13 (Some (ErrorLine (bs "no"))), Some (bs "ERR  no " ++ [x0a]), []) /\
    ErrorLine_Decode (sbuf (NewScanner [])) (e ++ []) = Ok (bs "no").
Proof.
  apply (errorline_roundtrip (bs " no ") (sbuf (NewScanner [])) []);
    [vm_compute; reflexivity|vm_compute; congruence].
Defined.

(** C39: [Read] on arbitrary bytes: with a buffer of [MaxSize] bytes it never fails
    to return, keeps the buffer's size, returns a length of the format or -1 with
    an error, and only consumes from the front; it panics in exactly one
    situation, a payload of one to three bytes that old buffer contents complete
    to the error prefix. *)
Theorem Read_total r buf :
  len buf = MaxSize ->
  match Read r buf with
  | Ok (l, buf', r') =>
      len buf' = MaxSize /\ ErrLen <= rdLen l <= MaxSize /\ rdLen l <> 3 /\
      (rdLen l = ErrLen -> rdErr l <> None) /\ exists x, r = x ++ r'
  | Panic => stale_error r buf
  | Err _ | NoFuel => False
  end.
Proof. apply Read_outcome. Qed.

Lemma Read_total_witness :
  match Read (bs "0005Exyz") (sbuf (NewScanner [])) with
  | Ok (l, buf', r') =>
      len buf' = MaxSize /\ ErrLen <= rdLen l <= MaxSize /\ rdLen l <> 3 /\
      (rdLen l = ErrLen -> rdErr l <> None) /\ exists x, bs "0005Exyz" = x ++ r'
  | Panic => stale_error (bs "0005Exyz") (sbuf (NewScanner []))
  | Err _ | NoFuel => False
  end.
Proof. apply Read_total. vm_compute. reflexivity. Defined.

(** C35: scanning a stream gives the packets back: for any sequence of special
    packets, empty packets and data packets of at least four bytes without the
    error prefix, the client loop over [Scan] sees exactly the lengths and payloads
    that were written and ends without an error. *)
Theorem scan_stream ks :
  Forall pkt_ok ks ->
  exists e s, encodePkts ks = Ok e /\
    scanAll (S (length ks)) (NewScanner e) = Ok (map pktSeen ks, s) /\ serr s = None.
Proof. intros H. apply scanAll_pkts; [done|vm_compute; reflexivity|lia]. Qed.

Lemma scan_stream_witness :
  exists e s, encodePkts [PktData (bs "want"); PktFlush; PktData []] = Ok e /\
    scanAll 4 (NewScanner e) = Ok ([(8, Some (bs "want")); (0, None); (4, Some [])], s) /\ serr s = None.
Proof.
  apply (scan_stream [PktData (bs "want"); PktFlush; PktData []]).
  apply Forall_cons_2; [right; split; [vm_compute; split; congruence|vm_compute; reflexivity]|].
  apply Forall_cons_2; [exact I|]. apply Forall_cons_2; [left; done|apply Forall_nil_2].
Defined.

(** The prefix test looks past the packet: two well-formed packets, "aRR b" and
    "E", make the second [Scan] panic, because the one-byte payload is completed to
    "ERR " by the first packet's bytes that are still in the buffer. *)
Theorem scan_stale_buffer_panics :
  exists e1 e2, Write (bs "aRR b") = Ok e1 /\ Write (bs "E") = Ok e2 /\
    (let* (more, _) := Scan (NewScanner (e1 ++ e2)) in Ok more) = Ok true /\
    (let* (_, s1) := Scan (NewScanner (e1 ++ e2)) in Scan s1) = Panic.
Proof.
  do 2 eexists. split; [vm_compute; reflexivity|]. split; [vm_compute; reflexivity|].
  split; vm_compute; reflexivity.
Qed.
