(* ===== verification/Sideband.v ===== *)
(** * plumbing/protocol/packp/sideband

    Model of common.go, muxer.go and demux.go: the three channels of a pack
    stream multiplexed over pkt-lines.  [pktline.ReadLine] returns a slice of a
    buffer that goes back to a shared pool before the caller uses the slice, and
    the demuxer keeps such a slice in [pending]: both are modelled as windows into
    the pool's buffer, so what another user of the pool writes is visible. *)
From S2P Require Import Prelude GoStrings PktLine.

(** ** Types and constants (common.go) *)
Inductive Type_ := Sideband | Sideband64k.
Definition MaxPackedSize : Z := 1000.
Definition MaxPackedSize64k : Z := 65520.

(** [Channel]: a byte; the three named ones. *)
Definition PackData : byte := x01.
Definition ProgressMessage : byte := x02.
Definition ErrorMessage : byte := x03.

Definition WithPayload (ch : byte) (payload : bytes) : bytes := ch :: payload.

Definition maxOf (t : Type_) : Z :=
  match t with Sideband => MaxPackedSize | Sideband64k => MaxPackedSize64k end.

(** ** Muxer (muxer.go); the writer is the list of bytes written so far *)
Definition chLen : Z := 1.

Record Muxer := mkMuxer { mmax : Z; mw : bytes }.

Definition NewMuxer (t : Type_) (w : bytes) : Muxer := mkMuxer (maxOf t - chLen) w.

(** [doWrite] (muxer.go:58): the count is returned with the error as well. *)
Definition doWrite (m : Muxer) (ch : byte) (p : bytes) : res (Z * option error * Muxer) :=
  let sz := len p in
  let sz := if sz >? mmax m then mmax m else sz in
  let* chunk := slice p 0 sz in
  match Write (WithPayload ch chunk) with
  | Ok e => Ok (sz, None, mkMuxer (mmax m) (mw m ++ e))
  | Err e => Ok (sz, Some e, m)
  | Panic => Panic
  | NoFuel => NoFuel
  end.

Fixpoint WriteChannel_loop (fuel : nat) (m : Muxer) (t : byte) (p : bytes) (wrote : Z)
    : res (Z * option error * Muxer) :=
  match fuel with
  | O => NoFuel
  | S fuel =>
    if wrote <? len p then
      let* rest := slice p wrote (len p) in
      let* (n, err, m) := doWrite m t rest in
      let wrote := wrote + n in
      match err with
      | Some e => Ok (wrote, Some e, m)
      | None => WriteChannel_loop fuel m t p wrote
      end
    else Ok (wrote, None, m)
  end.

Definition WriteChannel (m : Muxer) (t : byte) (p : bytes) : res (Z * option error * Muxer) :=
  WriteChannel_loop (S (length p)) m t p 0.

(** [Muxer.Write] *)
Definition MuxWrite (m : Muxer) (p : bytes) : res (Z * option error * Muxer) :=
  WriteChannel m PackData p.

(** ** Demuxer (demux.go) *)

(** A slice of the pool's buffer: bounds [lo <= i < hi]. *)
Abbreviation window := (Z * Z)%type.

Record Demuxer := mkDemuxer {
  dr : bytes;               (* the reader *)
  dmax : Z;
  dpending : window;        (* [pending]; empty when [hi <= lo] *)
  dprogress : option bytes  (* what was written to [Progress]; [None] when it is nil *) }.

Definition NewDemuxer (t : Type_) (r : bytes) (progress : option bytes) : Demuxer :=
  mkDemuxer r (maxOf t) (0, 0) progress.

Definition nilWindow : window := (0, 0).
Definition winLen (w : window) : Z := snd w - fst w.

(** [nextPackData] (demux.go:98) with [getPending] inlined: the slice, the error,
    the demuxer and the pool's buffer. *)
Definition nextPackData (d : Demuxer) (pool : bytes)
    : res (window * option error * Demuxer * bytes) :=
  if 0 <? winLen (dpending d) then
    Ok (dpending d, None, mkDemuxer (dr d) (dmax d) nilWindow (dprogress d), pool)
  else
    let* (l, pool, r) := Read (dr d) pool in
    let d := mkDemuxer r (dmax d) (dpending d) (dprogress d) in
    match rdErr l with
    | Some e => Ok (nilWindow, Some e, d, pool)
    | None =>
      if rdLen l =? Flush then Ok (nilWindow, Some EOF, d, pool)
      else if rdLen l >? dmax d then Ok (nilWindow, Some ErrMaxPackedExceeded, d, pool)
      else
        let* content := if rdLen l <? LenSize then Ok [] else slice pool LenSize (rdLen l) in
        match content with
        | [] => Ok (nilWindow, Some (ErrInvalidSideband content), d, pool)
        | ch :: msg =>
          if bool_decide (ch = PackData) then Ok ((LenSize + 1, rdLen l), None, d, pool)
          else if bool_decide (ch = ProgressMessage) then
            match dprogress d with
            | Some w => Ok (nilWindow, None, mkDemuxer (dr d) (dmax d) (dpending d) (Some (w ++ msg)), pool)
            | None => Ok (nilWindow, None, d, pool)
            end
          else if bool_decide (ch = ErrorMessage) then
            Ok (nilWindow, Some (ErrSidebandMessage msg), d, pool)
          else Ok (nilWindow, Some (ErrUnknownChannel content), d, pool)
        end
    end.

(** [doRead] (demux.go:81) into a buffer of [wanted] bytes: the bytes copied. *)
Definition doRead (d : Demuxer) (pool : bytes) (wanted : Z)
    : res (bytes * option error * Demuxer * bytes) :=
  let* (rd, err, d, pool) := nextPackData d pool in
  let size := winLen rd in
  let d := if size >? wanted
           then mkDemuxer (dr d) (dmax d) (fst rd + wanted, snd rd) (dprogress d) else d in
  let wanted := if wanted >? size then size else wanted in
  let* copied := slice pool (fst rd) (fst rd + wanted) in
  Ok (copied, err, d, pool).

Fixpoint DemuxRead_loop (fuel : nat) (d : Demuxer) (pool : bytes) (req : Z) (b : bytes)
    : res (bytes * option error * Demuxer * bytes) :=
  match fuel with
  | O => NoFuel
  | S fuel =>
    if len b <? req then
      let* (copied, err, d, pool) := doRead d pool (req - len b) in
      match err with
      | Some e => Ok (b ++ copied, Some e, d, pool)
      | None => DemuxRead_loop fuel d pool req (b ++ copied)
      end
    else Ok (b, None, d, pool)
  end.

(** [Demuxer.Read] (demux.go:67) into a buffer of [req] bytes; every round
    that does not end the loop copies a byte or consumes a packet. *)
Definition DemuxRead (d : Demuxer) (pool : bytes) (req : Z)
    : res (bytes * option error * Demuxer * bytes) :=
  DemuxRead_loop (S (Z.to_nat req + length (dr d))) d pool req [].

(** ** The byte stream behind a demuxer *)

(** A message on the data or the progress channel. *)
Inductive msg := Data (p : bytes) | Progress (p : bytes).

Definition msgChannel (m : msg) : byte := match m with Data _ => PackData | Progress _ => ProgressMessage end.
Definition msgPayload (m : msg) : bytes := match m with Data p | Progress p => p end.
Definition msgData (m : msg) : bytes := match m with Data p => p | Progress _ => [] end.
Definition msgProgress (m : msg) : bytes := match m with Data _ => [] | Progress p => p end.
Definition dataOf (ms : list msg) : bytes := flat_map msgData ms.
Definition progressOf (ms : list msg) : bytes := flat_map msgProgress ms.

(** The packet of a message: four bytes of length, the channel, the payload. *)
Definition encodeMsg (m : msg) : bytes :=
  asciiHex16 (len (msgPayload m) + 5) ++ WithPayload (msgChannel m) (msgPayload m).

Definition encodeMsgs (ms : list msg) : bytes := flat_map encodeMsg ms.

(** Messages whose whole packet is within the demuxer's maximum. *)
Definition msg_fits (max : Z) (m : msg) : Prop := len (msgPayload m) + 5 <= max.

Definition windowBytes (pool : bytes) (w : window) : bytes :=
  if 0 <? winLen w then seg pool (fst w) (snd w) else [].

(** The demuxer [d] over the pool buffer [pool] stands for the stream [w] followed
    by the messages [ms] and a flush packet. *)
Record repr (max : Z) (d : Demuxer) (pool w : bytes) (ms : list msg) (tail : bytes) : Prop := {
  rp_max : dmax d = max /\ max <= MaxSize;
  rp_pool : len pool = MaxSize;
  rp_reader : dr d = encodeMsgs ms ++ flushPkt ++ tail;
  rp_window : 0 <= fst (dpending d) /\ snd (dpending d) <= MaxSize;
  rp_pending : windowBytes pool (dpending d) = w;
  rp_msgs : Forall (msg_fits max) ms }.

Lemma windowBytes_len pool w :
  0 <= fst w -> snd w <= len pool -> len (windowBytes pool w) = Z.max 0 (winLen w).
Proof.
  intros H1 H2. unfold windowBytes, winLen in *. destruct (Z.ltb_spec 0 (snd w - fst w)).
  - rewrite len_seg by lia. lia.
  - rewrite len_nil. lia.
Qed.

Lemma windowBytes_nil pool w :
  0 <= fst w -> snd w <= len pool -> windowBytes pool w = [] -> winLen w <= 0.
Proof.
  intros H1 H2 E. pose proof (windowBytes_len pool w H1 H2) as H. rewrite E in H.
  change (len (@nil byte)) with 0 in H. lia.
Qed.

Lemma channel_no_error m x : HasPrefix (WithPayload (msgChannel m) (msgPayload m) ++ x) errPrefix = false.
Proof. destruct m as [p|p]; cbn; unfold HasPrefix; apply bool_decide_eq_false_2; discriminate. Qed.

Lemma Read_msg max m r pool :
  msg_fits max m -> max <= MaxSize -> len pool = MaxSize ->
  exists pool', Read (encodeMsg m ++ r) pool = Ok (mkRead (len (msgPayload m) + 5) None, pool', r) /\
    len pool' = MaxSize /\
    slice pool' LenSize (len (msgPayload m) + 5) = Ok (msgChannel m :: msgPayload m) /\
    seg pool' 5 (len (msgPayload m) + 5) = msgPayload m.
Proof.
  unfold msg_fits, MaxSize. intros Hm Hmax Hp. unfold encodeMsg. rewrite <- app_assoc.
  set (p := msgPayload m) in *. pose proof (len_nonneg p).
  assert (len (WithPayload (msgChannel m) p) = len p + 1) as Hl.
  { unfold WithPayload. rewrite len_cons. lia. }
  exists (asciiHex16 (len p + 5) ++ WithPayload (msgChannel m) p ++ drop (Z.to_nat (len p + 5)) pool).
  split; [|split; [|split]].
  - rewrite (Read_packet (asciiHex16 (len p + 5)) (len p + 5)).
    + cbv zeta. unfold p. rewrite channel_no_error. reflexivity.
    + done.
    + done.
    + rewrite <- (app_nil_r (asciiHex16 _)). apply ParseLength_asciiHex16; unfold MaxSize; lia.
    + lia.
    + lia.
  - rewrite !len_app, len_drop, asciiHex16_len, Hl. lia.
  - change (msgChannel m :: msgPayload m) with (WithPayload (msgChannel m) p). apply payload_seg; [done|rewrite len_cons; lia|lia].
  - unfold seg. rewrite app_assoc. change (WithPayload (msgChannel m) p) with ([msgChannel m] ++ p).
    rewrite <- !app_assoc, app_assoc. rewrite drop_app_length' by (cbn; lia).
    rewrite take_app_length' by (unfold len in *; lia). done.
Qed.

(** One call of [nextPackData]. *)
Lemma next_pending max d pool w ms tail :
  repr max d pool w ms tail -> w <> [] ->
  exists d', nextPackData d pool = Ok (dpending d, None, d', pool) /\
    repr max d' pool [] ms tail /\ dprogress d' = dprogress d.
Proof.
  intros [[Hm Hm'] Hp Hr Hw Hpend Hms] Hne. unfold nextPackData. unfold windowBytes in Hpend.
  destruct (0 <? winLen (dpending d)); [|congruence]. eexists. split; [reflexivity|]. split; [|done].
  constructor; cbn; auto. unfold MaxSize. lia.
Qed.

Lemma next_flush max d pool tail :
  repr max d pool [] [] tail ->
  exists d' pool', nextPackData d pool = Ok (nilWindow, Some EOF, d', pool') /\
    dprogress d' = dprogress d /\ len pool' = MaxSize.
Proof.
  intros [[Hm Hm'] Hp Hr Hw Hpend Hms]. unfold nextPackData.
  assert (winLen (dpending d) <= 0) as Hl by (apply (windowBytes_nil pool); lia || done).
  destruct (Z.ltb_spec 0 (winLen (dpending d))); [lia|]. rewrite Hr. cbn [encodeMsgs flat_map app].
  rewrite (Read_special flushPkt 0) by (done || lia). cbn [res_bind rdErr rdLen].
  do 2 eexists. split; [reflexivity|]. split; [done|]. rewrite len_app, len_drop.
  unfold MaxSize in *. change (len flushPkt) with 4. lia.
Qed.

Lemma next_msg max d pool m ms tail P :
  repr max d pool [] (m :: ms) tail -> dprogress d = Some P ->
  exists win d' pool', nextPackData d pool = Ok (win, None, d', pool') /\
    repr max d' pool' [] ms tail /\ dprogress d' = Some (P ++ msgProgress m) /\
    0 <= fst win <= snd win /\ snd win <= MaxSize /\ seg pool' (fst win) (snd win) = msgData m.
Proof.
  intros [[Hm Hm'] Hp Hr Hw Hpend Hms] HP. unfold nextPackData. rewrite HP.
  assert (winLen (dpending d) <= 0) as Hl by (apply (windowBytes_nil pool); lia || done).
  destruct (Z.ltb_spec 0 (winLen (dpending d))) as [|Hnp]; [lia|]. rewrite Hr.
  apply Forall_cons in Hms as [Hfit Hms]. cbn [encodeMsgs flat_map]. rewrite <- app_assoc.
  destruct (Read_msg max m (flat_map encodeMsg ms ++ flushPkt ++ tail) pool) as (pool' & -> & Hp' & Hs & Hseg);
    [done|done|done|]. cbn [res_bind rdErr rdLen].
  pose proof (len_nonneg (msgPayload m)). unfold msg_fits in Hfit.
  unfold Flush, LenSize in *. cbn [dmax]. rewrite Hm.
  destruct (Z.eqb_spec (len (msgPayload m) + 5) 0); [lia|].
  destruct (Z.gtb_spec (len (msgPayload m) + 5) max); [lia|].
  destruct (Z.ltb_spec (len (msgPayload m) + 5) 4); [lia|]. rewrite Hs. cbn [res_bind].
  assert (forall pr, repr max (mkDemuxer (flat_map encodeMsg ms ++ flushPkt ++ tail) max (dpending d) pr)
            pool' [] ms tail) as Hrep.
  { intros pr. constructor; cbn; auto. unfold windowBytes.
    destruct (Z.ltb_spec 0 (winLen (dpending d))); [lia|done]. }
  destruct m as [p|p]; cbn [msgChannel msgPayload msgData msgProgress] in *.
  - rewrite bool_decide_eq_true_2 by done. do 3 eexists. split; [reflexivity|]. rewrite app_nil_r.
    split; [apply Hrep|]. cbn. split; [done|]. split; [lia|]. split; [unfold MaxSize in *; lia|done].
  - rewrite bool_decide_eq_false_2 by discriminate. rewrite bool_decide_eq_true_2 by done.
    cbn [dprogress dr dmax dpending]. do 3 eexists. split; [reflexivity|]. split; [apply Hrep|]. cbn. split; [done|].
    split; [lia|]. split; [unfold MaxSize; lia|]. apply seg_empty. lia.
Qed.

(** Taking [n] bytes from a window that holds [x], as [doRead] does. *)
Lemma doRead_window d pool win d' pool' n x :
  nextPackData d pool = Ok (win, None, d', pool') ->
  0 <= fst win <= snd win -> snd win <= len pool' -> seg pool' (fst win) (snd win) = x -> 0 < n ->
  (len x <= n -> doRead d pool n = Ok (x, None, d', pool')) /\
  (n < len x -> doRead d pool n =
     Ok (take (Z.to_nat n) x, None, mkDemuxer (dr d') (dmax d') (fst win + n, snd win) (dprogress d'), pool') /\
     windowBytes pool' (fst win + n, snd win) = drop (Z.to_nat n) x).
Proof.
  intros E Hw Hl Hx Hn. unfold doRead. rewrite E. cbn [res_bind].
  assert (winLen win = len x) as Hlen. { rewrite <- Hx, len_seg by lia. done. }
  rewrite Hlen. split; intros Hc.
  - destruct (Z.gtb_spec (len x) n); [lia|]. 
    assert ((if n >? len x then len x else n) = len x) as ->. { destruct (Z.gtb_spec n (len x)); lia. }
    unfold winLen in Hlen. rewrite slice_ok by lia. cbn [res_bind].
    replace (fst win + len x) with (snd win) by lia. by rewrite Hx.
  - destruct (Z.gtb_spec (len x) n); [|lia]. destruct (Z.gtb_spec n (len x)); [lia|].
    unfold winLen in Hlen. rewrite slice_ok by lia. cbn [res_bind].
    assert (seg pool' (fst win) (fst win + n) ++ seg pool' (fst win + n) (snd win) = x) as Hsplit.
    { rewrite seg_app by lia. done. }
    assert (length (seg pool' (fst win) (fst win + n)) = Z.to_nat n) as Hln.
    { pose proof (len_seg pool' (fst win) (fst win + n)) as H'. unfold len in *. lia. }
    split.
    + rewrite <- Hsplit. rewrite take_app_length' by done. done.
    + unfold windowBytes, winLen. cbn [fst snd]. destruct (Z.ltb_spec 0 (snd win - (fst win + n))); [|lia].
      rewrite <- Hsplit. by rewrite drop_app_length' by done.
Qed.

Lemma repr_window max d pool ms tail lo hi w pr :
  repr max d pool [] ms tail -> 0 <= lo -> hi <= MaxSize -> windowBytes pool (lo, hi) = w ->
  repr max (mkDemuxer (dr d) (dmax d) (lo, hi) pr) pool w ms tail.
Proof. intros [[Hm Hm'] Hp Hr Hw Hpend Hms] ? ? ?. constructor; cbn; auto. Qed.

(** What reading [need] more bytes does to a demuxer that stands for a stream. *)
Definition read_spec (max : Z) (b : bytes) (need : Z) (c : bytes) (P prog tail : bytes)
    (o : res (bytes * option error * Demuxer * bytes)) : Prop :=
  if need <=? len c then
    exists d' pool' w' ms' P',
      o = Ok (b ++ take (Z.to_nat need) c, None, d', pool') /\ repr max d' pool' w' ms' tail /\
      w' ++ dataOf ms' = drop (Z.to_nat need) c /\
      dprogress d' = Some P' /\ P' ++ progressOf ms' = P ++ prog
  else
    exists d' pool', o = Ok (b ++ c, Some EOF, d', pool') /\ dprogress d' = Some (P ++ prog).

Lemma read_spec_step max b x need c P P' prog prog' tail o :
  read_spec max (b ++ x) (need - len x) c P' prog' tail o -> P' ++ prog' = P ++ prog -> len x <= need ->
  read_spec max b need (x ++ c) P prog tail o.
Proof.
  unfold read_spec. intros H HP Hx. pose proof (len_nonneg x). rewrite len_app.
  replace (need <=? len x + len c) with (need - len x <=? len c) by lia.
  destruct (need - len x <=? len c).
  - destruct H as (d' & pool' & w' & ms' & P2 & -> & Hr & Hw & Hd & Hp).
    exists d', pool', w', ms', P2. split; [|split; [done|split; [|split; [done|congruence]]]].
    + rewrite take_app_ge by (unfold len in *; lia). rewrite <- app_assoc.
      do 7 f_equal. unfold len. lia.
    + rewrite drop_app_ge by (unfold len in *; lia). rewrite Hw. f_equal. unfold len. lia.
  - destruct H as (d' & pool' & -> & Hd). exists d', pool'. rewrite app_assoc. split; [done|congruence].
Qed.

(** One round of [Read] after [nextPackData] gave a window with the bytes [x], in a
    state for the messages [ms'], when the next rounds are right. *)
Lemma read_after_window max tail fuel d pool req b P win d' pool' x ms' P' prog :
  let need := req - len b in
  (forall b', repr max d' pool' [] ms' tail -> 0 <= req - len b' ->
     req - len b' + Z.of_nat (length ms') < Z.of_nat fuel ->
     read_spec max b' (req - len b') (dataOf ms') P' (progressOf ms') tail (DemuxRead_loop fuel d' pool' req b')) ->
  0 < need -> nextPackData d pool = Ok (win, None, d', pool') -> repr max d' pool' [] ms' tail ->
  0 <= fst win <= snd win -> snd win <= MaxSize -> seg pool' (fst win) (snd win) = x ->
  dprogress d' = Some P' -> P' ++ progressOf ms' = P ++ prog ->
  need - len x + Z.of_nat (length ms') < Z.of_nat fuel -> (0 < fuel)%nat ->
  read_spec max b need (x ++ dataOf ms') P prog tail
    (let* (copied, err, d, pool) := doRead d pool need in
     match err with
     | Some e => Ok (b ++ copied, Some e, d, pool)
     | None => DemuxRead_loop fuel d pool req (b ++ copied)
     end).
Proof.
  intros need IH Hneed EN Hr' Hw1 Hw2 Hx HP' Hprog Hfuel Hf0.
  destruct (doRead_window d pool win d' pool' need x EN Hw1) as [Hle Hgt];
    [rewrite (rp_pool _ _ _ _ _ _ Hr'); lia|done|lia|].
  destruct (Z.le_gt_cases (len x) need) as [Hc|Hc].
  - rewrite Hle by done. cbn [res_bind]. apply (read_spec_step _ _ _ _ _ _ P' _ (progressOf ms')); [|done|done].
    specialize (IH (b ++ x) Hr'). rewrite len_app in IH.
    replace (req - (len b + len x)) with (need - len x) in IH by lia. apply IH; lia.
  - destruct (Hgt Hc) as [-> Hwb]. cbn [res_bind]. clear Hle Hgt IH. unfold read_spec.
    rewrite len_app. pose proof (len_nonneg (dataOf ms')).
    destruct (Z.leb_spec need (len x + len (dataOf ms'))); [|lia].
    destruct fuel as [|fuel']; [lia|]. cbn [DemuxRead_loop]. rewrite len_app, len_take.
    destruct (Z.ltb_spec (len b + Z.min (Z.of_nat (Z.to_nat need)) (len x)) req); [lia|].
    do 5 eexists. split; [rewrite take_app_le by (unfold len in *; lia); reflexivity|].
    split; [eapply repr_window; [exact Hr'|lia|done|exact Hwb]|].
    split; [rewrite drop_app_le by (unfold len in *; lia); reflexivity|]. split; [exact HP'|done].
Qed.

Lemma DemuxRead_loop_spec max tail fuel : forall d pool req b w ms P,
  repr max d pool w ms tail -> dprogress d = Some P -> 0 <= req - len b ->
  req - len b + Z.of_nat (length ms) < Z.of_nat fuel ->
  read_spec max b (req - len b) (w ++ dataOf ms) P (progressOf ms) tail (DemuxRead_loop fuel d pool req b).
Proof.
  induction fuel as [|fuel IH]; intros d pool req b w ms P Hrep HP Hreq Hf; [lia|]. cbn [DemuxRead_loop].
  destruct (Z.ltb_spec (len b) req) as [Hlt|Hge].
  2: { unfold read_spec. replace (req - len b) with 0 by lia.
       destruct (Z.leb_spec 0 (len (w ++ dataOf ms))); [|pose proof (len_nonneg (w ++ dataOf ms)); lia].
       exists d, pool, w, ms, P. rewrite take_0, app_nil_r, drop_0. auto. }
  destruct (decide (w = [])) as [->|Hne].
  - destruct ms as [|m ms]; cbn [app].
    + destruct (next_flush max d pool tail Hrep) as (d' & pool' & E & Hd' & Hl'). unfold doRead. rewrite E.
      cbn [res_bind]. change (winLen nilWindow) with 0. change (fst nilWindow) with 0.
      destruct (Z.gtb_spec 0 (req - len b)); [lia|]. destruct (Z.gtb_spec (req - len b) 0); [|lia].
      rewrite slice_ok by (unfold MaxSize in *; lia). cbn [res_bind].
      unfold read_spec. cbn [dataOf flat_map]. change (len (@nil byte)) with 0.
      destruct (Z.leb_spec (req - len b) 0); [lia|]. exists d', pool'. rewrite seg_empty by lia.
      cbn [progressOf flat_map]. rewrite !app_nil_r. split; [done|congruence].
    + destruct (next_msg max d pool m ms tail P Hrep HP) as (win & d' & pool' & E & Hr' & HP' & Hw1 & Hw2 & Hx).
      cbn [dataOf flat_map progressOf]. fold (dataOf ms) (progressOf ms). cbn [length] in Hf. pose proof (len_nonneg (msgData m)).
      eapply read_after_window; [|lia|exact E|exact Hr'|done|done|done|exact HP'|by rewrite <- app_assoc|lia|lia].
      intros b' Hr Hb Hfb. by apply (IH d' pool' req b' [] ms).
  - destruct (next_pending max d pool w ms tail Hrep Hne) as (d' & E & Hr' & Hd').
    pose proof Hrep as [_ Hp _ Hw Hpend _]. unfold windowBytes in Hpend.
    destruct (Z.ltb_spec 0 (winLen (dpending d))); [|congruence]. unfold winLen in *.
    assert (0 < len w). { destruct w as [|y w]; [done|]. rewrite len_cons. pose proof (len_nonneg w). lia. }
    eapply read_after_window; [|lia|exact E|exact Hr'|lia|lia|exact Hpend|rewrite Hd'; exact HP|done|lia|lia].
    intros b' Hr Hb Hfb. by apply (IH d' pool req b' [] ms); [|rewrite Hd'| |].
Qed.

(** ** The muxer writes one packet per short message *)

Definition writeMsg (m : Muxer) (x : msg) : res Muxer :=
  let* (_, err, m) := WriteChannel m (msgChannel x) (msgPayload x) in
  match err with None => Ok m | Some e => Err e end.

Fixpoint writeMsgs (m : Muxer) (xs : list msg) : res Muxer :=
  match xs with
  | [] => Ok m
  | x :: xs => let* m := writeMsg m x in writeMsgs m xs
  end.

(** Payloads that, with channel and length, fit the maximum packet size of [t]. *)
Definition msg_short (t : Type_) (x : msg) : Prop := 0 < len (msgPayload x) <= maxOf t - 5.

Lemma slice_all {A} (l : list A) : slice l 0 (len l) = Ok l.
Proof. pose proof (len_nonneg l). rewrite slice_ok by lia. by rewrite seg_full. Qed.

Lemma maxOf_bounds t : 1000 <= maxOf t <= MaxSize.
Proof. destruct t; vm_compute; split; congruence. Qed.

Lemma WriteChannel_one t ch p w :
  0 < len p <= maxOf t - 1 -> len p <= MaxPayloadSize - 1 ->
  WriteChannel (mkMuxer (maxOf t - chLen) w) ch p =
  Ok (len p, None, mkMuxer (maxOf t - chLen) (w ++ asciiHex16 (len p + 5) ++ WithPayload ch p)).
Proof.
  intros Hp Hp'. pose proof (maxOf_bounds t) as Ht. unfold WriteChannel.
  assert (exists k, length p = S k) as [k Hk]. { exists (pred (length p)). unfold len in *. lia. }
  rewrite Hk. cbn [WriteChannel_loop]. unfold doWrite. cbn [mmax mw]. unfold chLen.
  destruct (Z.ltb_spec 0 (len p)); [|lia]. rewrite slice_all. cbn [res_bind].
  destruct (Z.gtb_spec (len p) (maxOf t - 1)); [lia|]. rewrite slice_all. cbn [res_bind].
  rewrite Write_data; cycle 1.
  { unfold WithPayload. rewrite len_cons. unfold MaxPayloadSize, LenSize, MaxSize in *. lia. }
  cbn [res_bind]. rewrite Z.add_0_l. destruct (Z.ltb_spec (len p) (len p)); [lia|].
  unfold WithPayload at 1. rewrite len_cons. do 6 f_equal. lia.
Qed.

Lemma writeMsgs_short t xs w :
  Forall (msg_short t) xs ->
  writeMsgs (mkMuxer (maxOf t - chLen) w) xs = Ok (mkMuxer (maxOf t - chLen) (w ++ encodeMsgs xs)).
Proof.
  intros H. revert w. induction H as [|x xs Hx _ IH]; intros w; cbn [writeMsgs encodeMsgs flat_map].
  - by rewrite app_nil_r.
  - unfold writeMsg. rewrite WriteChannel_one by (unfold msg_short, MaxPayloadSize, LenSize in *; pose proof (maxOf_bounds t); lia). cbn [res_bind]. rewrite IH. by rewrite <- app_assoc.
Qed.

Lemma NewDemuxer_repr t xs tail pool P :
  Forall (msg_short t) xs -> len pool = MaxSize ->
  repr (maxOf t) (NewDemuxer t (encodeMsgs xs ++ flushPkt ++ tail) P) pool [] xs tail.
Proof.
  intros H Hp. pose proof (maxOf_bounds t). constructor; cbn [NewDemuxer dr dmax dpending fst snd]; try done.
  - lia.
  - eapply Forall_impl; [exact H|]. unfold msg_short, msg_fits. lia.
Qed.

Lemma encodeMsgs_length xs : (length xs <= length (encodeMsgs xs))%nat.
Proof.
  induction xs as [|x xs IH]; cbn [encodeMsgs flat_map length]; [lia|].
  rewrite length_app. unfold encodeMsg at 1. cbn [app length asciiHex16]. fold (encodeMsgs xs). lia.
Qed.

Lemma DemuxRead_spec max d pool n w ms P tail :
  repr max d pool w ms tail -> dprogress d = Some P -> 0 <= n ->
  read_spec max [] n (w ++ dataOf ms) P (progressOf ms) tail (DemuxRead d pool n).
Proof.
  intros Hr HP Hn. unfold DemuxRead.
  pose proof (DemuxRead_loop_spec max tail (S (Z.to_nat n + length (dr d))) d pool n [] w ms P Hr HP) as H.
  change (len (@nil byte)) with 0 in H. rewrite Z.sub_0_r in H. apply H; [lia|].
  rewrite (rp_reader _ _ _ _ _ _ Hr), length_app. pose proof (encodeMsgs_length ms). lia.
Qed.

(** Successive reads into buffers of the sizes [ns]. *)
Fixpoint readSeq (d : Demuxer) (pool : bytes) (ns : list Z) : res (list bytes * Demuxer * bytes) :=
  match ns with
  | [] => Ok ([], d, pool)
  | n :: ns =>
    let* (b, err, d, pool) := DemuxRead d pool n in
    match err with
    | Some e => Err e
    | None => let* (bs, d, pool) := readSeq d pool ns in Ok (b :: bs, d, pool)
    end
  end.

Definition sumZ (ns : list Z) : Z := foldr Z.add 0 ns.

Lemma sumZ_nonneg ns : Forall (Z.le 0) ns -> 0 <= sumZ ns.
Proof. unfold sumZ. induction 1; cbn [foldr]; lia. Qed.

Lemma readSeq_spec max tail ns : forall d pool w ms P,
  repr max d pool w ms tail -> dprogress d = Some P -> Forall (Z.le 0) ns ->
  sumZ ns <= len (w ++ dataOf ms) ->
  exists bss d' pool' w' ms' P', readSeq d pool ns = Ok (bss, d', pool') /\
    map len bss = ns /\ mjoin bss ++ w' ++ dataOf ms' = w ++ dataOf ms /\
    repr max d' pool' w' ms' tail /\ dprogress d' = Some P' /\ P' ++ progressOf ms' = P ++ progressOf ms.
Proof.
  induction ns as [|n ns IH]; intros d pool w ms P Hr HP Hns Hsum; cbn [readSeq].
  - exists [], d, pool, w, ms, P. split_and!; done.
  - apply Forall_cons in Hns as [Hn Hns]. pose proof (sumZ_nonneg ns Hns) as Hnn. cbn [sumZ foldr] in Hsum.
    fold (sumZ ns) in Hsum. pose proof (DemuxRead_spec max d pool n w ms P tail Hr HP Hn) as H.
    unfold read_spec in H. destruct (Z.leb_spec n (len (w ++ dataOf ms))); [|lia].
    destruct H as (d1 & pool1 & w1 & ms1 & P1 & -> & Hr1 & Hw1 & HP1 & Hpr1). cbn [res_bind app].
    destruct (IH d1 pool1 w1 ms1 P1 Hr1 HP1 Hns) as (bss & d2 & pool2 & w2 & ms2 & P2 & -> & Hl & Hj & Hr2 & HP2 & Hpr2).
    { rewrite Hw1, len_drop. lia. }
    cbn [res_bind]. do 6 eexists. split; [reflexivity|]. cbn [map]. split; [|split; [|split; [exact Hr2|split; [exact HP2|congruence]]]].
    + rewrite Hl, len_take. f_equal. lia.
    + change (mjoin (take (Z.to_nat n) (w ++ dataOf ms) :: bss)) with (take (Z.to_nat n) (w ++ dataOf ms) ++ mjoin bss). rewrite <- app_assoc, Hj, Hw1. apply take_drop.
Qed.

(** What the muxer writes the demuxer reads back. Any sequence of data and
    progress messages whose packets fit the sideband's maximum is written
    without an error, and over that stream and a flush packet any sequence of
    reads that asks for no more than the data delivers consecutive pieces of
    exactly the requested sizes; a further read that asks for more than what is left
    delivers the rest with [io.EOF], and every progress message has been
    written to [Progress] in order. *)
Theorem sideband_roundtrip t ms ns n pool tail :
  Forall (msg_short t) ms -> len pool = MaxSize -> Forall (Z.le 0) ns ->
  sumZ ns <= len (dataOf ms) -> len (dataOf ms) - sumZ ns < n ->
  exists m bss d pool' last d' pool'',
    writeMsgs (NewMuxer t []) ms = Ok m /\
    readSeq (NewDemuxer t (mw m ++ flushPkt ++ tail) (Some [])) pool ns = Ok (bss, d, pool') /\
    DemuxRead d pool' n = Ok (last, Some EOF, d', pool'') /\
    map len bss = ns /\ mjoin bss ++ last = dataOf ms /\ dprogress d' = Some (progressOf ms).
Proof.
  intros Hms Hp Hns Hsum Hn. unfold NewMuxer. rewrite (writeMsgs_short t ms [] Hms). cbn [app].
  destruct (readSeq_spec (maxOf t) tail ns _ pool [] ms []
              (NewDemuxer_repr t ms tail pool (Some []) Hms Hp) eq_refl Hns Hsum)
    as (bss & d & pool' & w' & ms' & P' & E & Hl & Hj & Hr & HP' & Hpr).
  assert (sumZ (map len bss) = len (mjoin bss)) as Hsj.
  { clear. induction bss as [|b bss IH]; [done|].
    change (mjoin (b :: bss)) with (b ++ mjoin bss). rewrite len_app, <- IH. done. }
  cbn [app] in Hj. rewrite Hl in Hsj.
  assert (len (w' ++ dataOf ms') < n) as Hlt.
  { rewrite <- Hj, len_app in Hn. rewrite len_app in *. lia. }
  assert (0 <= n) as Hn0 by (pose proof (len_nonneg (w' ++ dataOf ms')); lia).
  pose proof (DemuxRead_spec (maxOf t) d pool' n w' ms' P' tail Hr HP' Hn0) as H.
  unfold read_spec in H. destruct (Z.leb_spec n (len (w' ++ dataOf ms'))); [lia|].
  destruct H as (d' & pool'' & Hread & Hd'). do 7 eexists. split; [reflexivity|]. cbn [mw].
  split; [exact E|]. split; [exact Hread|]. split; [done|]. split; [exact Hj|]. by rewrite Hd', Hpr.
Qed.

(** The statement at two data messages with a progress message between them. *)
Lemma sideband_roundtrip_witness :
  exists m bss d pool' last d' pool'',
    writeMsgs (NewMuxer Sideband []) [Data (bs "hello "); Progress (bs "50%"); Data (bs "world")] = Ok m /\
    readSeq (NewDemuxer Sideband (mw m ++ flushPkt ++ []) (Some [])) (replicate (Z.to_nat MaxSize) x00) [4; 4]
      = Ok (bss, d, pool') /\
    DemuxRead d pool' 10 = Ok (last, Some EOF, d', pool'') /\
    map len bss = [4; 4] /\ mjoin bss ++ last = bs "hello world" /\ dprogress d' = Some (bs "50%").
Proof.
  apply (sideband_roundtrip Sideband [Data (bs "hello "); Progress (bs "50%"); Data (bs "world")] [4; 4] 10).
  - repeat constructor; vm_compute; congruence.
  - rewrite len_replicate. done.
  - repeat constructor; vm_compute; congruence.
  - vm_compute; congruence.
  - vm_compute; congruence.
Defined.

(** Under [side-band-64k] a message of 65516 bytes or more is never sent: the muxer
    cuts it to 65519 bytes, one packet of 65520 bytes of payload, which
    [pktline.Write] refuses with [ErrPayloadTooLong]; nothing reaches the writer,
    and the count returned is that of the bytes that were not written. *)
Theorem mux64k_refuses_full_packets ch p w :
  65516 <= len p ->
  WriteChannel (NewMuxer Sideband64k w) ch p =
  Ok (Z.min (len p) 65519, Some ErrPayloadTooLong, NewMuxer Sideband64k w).
Proof.
  intros Hp. unfold WriteChannel.
  assert (exists k, length p = S k) as [k Hk]. { exists (pred (length p)). unfold len in *. lia. }
  cbn [WriteChannel_loop]. destruct (Z.ltb_spec 0 (len p)); [|lia]. rewrite slice_all. cbn [res_bind].
  unfold doWrite. change (mmax (NewMuxer Sideband64k w)) with 65519.
  replace (if len p >? 65519 then 65519 else len p) with (Z.min (len p) 65519)
    by (destruct (Z.gtb_spec (len p) 65519); lia).
  rewrite slice_ok by lia. cbn [res_bind].
  set (q := WithPayload ch _).
  assert (len q = Z.min (len p) 65519 + 1) as Hq.
  { unfold q, WithPayload. rewrite len_cons, len_seg by lia. lia. }
  clearbody q. unfold Write. destruct (Z.eqb_spec (len q) 0); [lia|].
  unfold MaxPayloadSize, MaxSize, LenSize. destruct (Z.gtb_spec (len q) (65520 - 4)); [reflexivity|lia].
Qed.

(** The statement at a message of 65516 zero bytes. *)
Lemma mux64k_refuses_full_packets_witness :
  WriteChannel (NewMuxer Sideband64k []) PackData (replicate (Z.to_nat 65516) x00) =
  Ok (Z.min (len (replicate (Z.to_nat 65516) x00)) 65519, Some ErrPayloadTooLong, NewMuxer Sideband64k []).
Proof. apply (mux64k_refuses_full_packets PackData (replicate (Z.to_nat 65516) x00) []). rewrite len_replicate. lia. Defined.

(** Under [side-band] the two ends disagree by four bytes: the muxer sends data
    messages of 996 to 999 bytes in one packet, and the demuxer, which counts
    the packet's length header against the same maximum, refuses that packet
    with [ErrMaxPackedExceeded]. *)
Theorem demux_refuses_muxer_packets p pool r P n :
  996 <= len p <= 999 -> len pool = MaxSize -> 0 < n ->
  exists m d pool', MuxWrite (NewMuxer Sideband []) p = Ok (len p, None, m) /\
    DemuxRead (NewDemuxer Sideband (mw m ++ r) P) pool n = Ok ([], Some ErrMaxPackedExceeded, d, pool').
Proof.
  intros Hp Hpool Hn. unfold MuxWrite, NewMuxer. unfold MaxSize in *.
  rewrite (WriteChannel_one Sideband PackData p []); cycle 1.
  { change (maxOf Sideband) with 1000. lia. } { change MaxPayloadSize with 65516. lia. }
  cbn [app]. eexists. 
  destruct (Read_msg 65520 (Data p) r pool) as (pool' & E & Hl & _ & _);
    [unfold msg_fits; cbn [msgPayload]; lia|done|done|]. unfold encodeMsg in E. cbn [msgPayload msgChannel] in E.
  exists (mkDemuxer r 1000 (0, 0) P), pool'. split; [reflexivity|]. cbn [mw]. unfold DemuxRead, NewDemuxer. cbn [DemuxRead_loop].
  change (len (@nil byte)) with 0. destruct (Z.ltb_spec 0 n); [|lia]. unfold doRead, nextPackData.
  change (0 <? winLen _) with false. cbn [dr dmax dpending dprogress].
  cbn match. rewrite E. cbn [res_bind rdErr rdLen]. unfold Flush. change (maxOf Sideband) with 1000.
  destruct (Z.eqb_spec (len p + 5) 0); [lia|]. destruct (Z.gtb_spec (len p + 5) 1000); [|lia].
  cbn [res_bind]. change (winLen nilWindow) with 0. rewrite Z.sub_0_r. change (fst nilWindow) with 0.
  destruct (Z.gtb_spec 0 n); [lia|]. destruct (Z.gtb_spec n 0); [|lia].
  rewrite slice_ok by (pose proof (len_nonneg pool'); lia). cbn [res_bind]. rewrite seg_empty by lia. done.
Qed.

(** The statement at a message of 996 zero bytes. *)
Lemma demux_refuses_muxer_packets_witness :
  exists m d pool', MuxWrite (NewMuxer Sideband []) (replicate (Z.to_nat 996) x00) =
      Ok (len (replicate (Z.to_nat 996) x00), None, m) /\
    DemuxRead (NewDemuxer Sideband (mw m ++ []) None) (replicate (Z.to_nat MaxSize) x00) 10 =
      Ok ([], Some ErrMaxPackedExceeded, d, pool').
Proof.
  apply (demux_refuses_muxer_packets (replicate (Z.to_nat 996) x00) (replicate (Z.to_nat MaxSize) x00) [] None 10).
  - rewrite len_replicate. lia.
  - rewrite len_replicate. done.
  - lia.
Defined.

(** The demuxer of the stream "secret!!" and that of "PUBLIC__", over one pool. *)
Definition aliasDemuxer (text : bytes) : Demuxer :=
  NewDemuxer Sideband (encodeMsgs [Data text] ++ flushPkt) None.

(** The bytes a demuxer keeps for its next read live in a buffer that is already back in
    the shared pool. A demuxer over "secret!!" that has read four bytes of it
    delivers "et!!" of its own stream next when nothing else uses the pool, and
    the other stream's "IC__" when another demuxer reads in between; the
    second read of four bytes reports no error in either case. *)
Theorem demux_pending_is_shared :
  (let* (first, e1, d, pool) := DemuxRead (aliasDemuxer (bs "secret!!")) (replicate (Z.to_nat MaxSize) x00) 4 in
   let* (second, e2, _, _) := DemuxRead d pool 4 in
   Ok (first, e1, second, e2)) = Ok (bs "secr", None, bs "et!!", None) /\
  (let* (first, e1, d, pool) := DemuxRead (aliasDemuxer (bs "secret!!")) (replicate (Z.to_nat MaxSize) x00) 4 in
   let* (_, _, _, pool) := DemuxRead (aliasDemuxer (bs "PUBLIC__")) pool 8 in
   let* (second, e2, _, _) := DemuxRead d pool 4 in
   Ok (first, e1, second, e2)) = Ok (bs "secr", None, bs "IC__", None).
Proof. split; vm_compute; reflexivity. Qed.
