(* ===== verification/Capability.v ===== *)
(** * Capabilities of the Git protocol ([plumbing/protocol/packp/capability])

    A [CapList] is a map from capabilities to their values and the order in which
    they were added.  [caps_ok] is the invariant all operations keep; a list that
    satisfies it and can be printed comes back from its text. *)
From S2P Require Import Prelude GoStrings.

(** ** Capabilities (capability.go) *)
Abbreviation Capability := bytes.

Definition cap_Agent : Capability := bs "agent".
Definition cap_PushCert : Capability := bs "push-cert".
Definition cap_SymRef : Capability := bs "symref".
Definition cap_ObjectFormat : Capability := bs "object-format".

(** The maps [known], [requiresArgument] and [multipleArgument]: a missing key
    reads as [false]. *)
Definition knownCapabilities : list Capability :=
  [ bs "multi_ack"; bs "multi_ack_detailed"; bs "no-done"; bs "thin-pack";
    bs "side-band"; bs "side-band-64k"; bs "ofs-delta"; cap_Agent;
    bs "shallow"; bs "deepen-since"; bs "deepen-not"; bs "deepen-relative";
    bs "no-progress"; bs "include-tag"; bs "report-status"; bs "delete-refs";
    bs "quiet"; bs "atomic"; bs "push-options"; bs "allow-tip-sha1-in-want";
    bs "allow-reachable-sha1-in-want"; cap_PushCert; cap_SymRef;
    cap_ObjectFormat; bs "filter" ].
Definition known (c : Capability) : bool := bool_decide (c ∈ knownCapabilities).
Definition requiresArgument (c : Capability) : bool :=
  bool_decide (c ∈ [cap_Agent; cap_PushCert; cap_SymRef; cap_ObjectFormat]).
Definition multipleArgument (c : Capability) : bool := bool_decide (c ∈ [cap_SymRef]).

(** ** Lists (list.go) *)
Record cap_entry := mkEntry { eName : Capability; eValues : list bytes }.
Record CapList := mkCapList { cm : gmap Capability cap_entry; csort : list bytes }.

Definition NewList : CapList := mkCapList ∅ [].

Definition List_IsEmpty (l : CapList) : bool := len (csort l) =? 0.

Definition List_Supports (l : CapList) (c : Capability) : bool := bool_decide (is_Some (cm l !! c)).

Definition List_Get (l : CapList) (c : Capability) : list bytes :=
  match cm l !! c with Some e => eValues e | None => [] end.

Fixpoint validateNoEmptyArgs (values : list bytes) : option error :=
  match values with
  | [] => None
  | v :: vs => if bool_decide (v = []) then Some ErrEmptyArgument else validateNoEmptyArgs vs
  end.

Definition List_validate (c : Capability) (values : list bytes) : option error :=
  if negb (known c) then validateNoEmptyArgs values
  else if requiresArgument c && (len values =? 0) then Some ErrArgumentsRequired
  else if negb (requiresArgument c) && negb (len values =? 0) then Some ErrArguments
  else if negb (multipleArgument c) && (1 <? len values) then Some ErrMultipleArguments
  else validateNoEmptyArgs values.

(** [Add]: the error and the list afterwards. *)
Definition List_Add (l : CapList) (c : Capability) (values : list bytes) : option error * CapList :=
  match List_validate c values with
  | Some e => (Some e, l)
  | None =>
    let l := if List_Supports l c then l
             else mkCapList (<[c := mkEntry c []]> (cm l)) (csort l ++ [c]) in
    if len values =? 0 then (None, l)
    else if known c && negb (multipleArgument c) && (0 <? len (List_Get l c)) then (Some ErrMultipleArguments, l)
    else (None, mkCapList (alter (fun e => mkEntry (eName e) (eValues e ++ values)) c (cm l)) (csort l))
  end.

Definition List_Set (l : CapList) (c : Capability) (values : list bytes) : option error * CapList :=
  let l := if List_Supports l c
           then mkCapList (alter (fun e => mkEntry (eName e) []) c (cm l)) (csort l) else l in
  List_Add l c values.

(** The first occurrence is removed from the order. *)
Fixpoint removeFirst (c : bytes) (s : list bytes) : list bytes :=
  match s with
  | [] => []
  | x :: s => if bool_decide (x = c) then s else x :: removeFirst c s
  end.

Definition List_Delete (l : CapList) (c : Capability) : CapList :=
  if List_Supports l c then mkCapList (delete c (cm l)) (removeFirst c (csort l)) else l.

Definition List_All (l : CapList) : list Capability := csort l.

Definition List_decodePair (l : CapList) (data : bytes) : option error * CapList :=
  match SplitN2 data x3d with
  | (c, None) => List_Add l c []
  | (c, Some v) => List_Add l c [v]
  end.

Fixpoint List_Decode_loop (l : CapList) (datas : list bytes) : option error * CapList :=
  match datas with
  | [] => (None, l)
  | data :: datas =>
    match List_decodePair l data with
    | (Some e, l) => (Some e, l)
    | (None, l) => List_Decode_loop l datas
    end
  end.

Definition List_Decode (l : CapList) (raw : bytes) : option error * CapList :=
  let raw := TrimSpace raw in
  if len raw =? 0 then (None, l) else List_Decode_loop l (Split raw x20).

(** [String]: a key of the order that is not in the map would be a nil
    dereference. *)
Fixpoint List_strings (l : CapList) (keys : list bytes) : res (list bytes) :=
  match keys with
  | [] => Ok []
  | key :: keys =>
    match cm l !! key with
    | None => Panic
    | Some cap =>
      let o := if len (eValues cap) =? 0 then [key] else map (fun v => key ++ [x3d] ++ v) (eValues cap) in
      let* os := List_strings l keys in Ok (o ++ os)
    end
  end.

Definition List_String (l : CapList) : res bytes :=
  let* o := List_strings l (csort l) in Ok (Join o [x20]).

(** ** The invariant of a list *)

(** What the values of a capability may be. *)
Definition entry_ok (c : Capability) (e : cap_entry) : Prop :=
  eName e = c /\ Forall (fun v => v <> []) (eValues e) /\
  (known c = true -> (requiresArgument c = false -> eValues e = []) /\
                     (multipleArgument c = false -> len (eValues e) <= 1)).

Definition caps_ok (l : CapList) : Prop :=
  NoDup (csort l) /\ (forall c, c ∈ csort l <-> is_Some (cm l !! c)) /\ map_Forall entry_ok (cm l).

Lemma validateNoEmptyArgs_None vs : validateNoEmptyArgs vs = None <-> Forall (fun v => v <> []) vs.
Proof.
  induction vs as [|v vs IH]; cbn; [split; constructor|]. rewrite Forall_cons.
  destruct (decide (v = [])) as [Hv|Hv]; [rewrite bool_decide_eq_true_2 by done|rewrite bool_decide_eq_false_2 by done]; naive_solver.
Qed.

Lemma List_validate_None c vs : List_validate c vs = None <->
  Forall (fun v => v <> []) vs /\
  (known c = true -> (requiresArgument c = false -> vs = []) /\ (requiresArgument c = true -> vs <> []) /\
                     (multipleArgument c = false -> len vs <= 1)).
Proof.
  unfold List_validate. destruct (known c); cbn; [|rewrite validateNoEmptyArgs_None; naive_solver].
  assert (len vs = 0 <-> vs = []) as H0. { unfold len. destruct vs; cbn; split; (done || lia). }
  destruct (requiresArgument c), (multipleArgument c), (Z.eqb_spec (len vs) 0), (Z.ltb_spec 1 (len vs)); cbn;
    rewrite ?validateNoEmptyArgs_None; naive_solver lia.
Qed.

Lemma Supports_true l c : List_Supports l c = true <-> is_Some (cm l !! c).
Proof. apply bool_decide_eq_true. Qed.
Lemma Supports_false l c : List_Supports l c = false <-> cm l !! c = None.
Proof. unfold List_Supports. rewrite bool_decide_eq_false. rewrite eq_None_not_Some. done. Qed.

Lemma caps_ok_new : caps_ok NewList.
Proof. split; [apply NoDup_nil_2|]. split; [|done]. intros c. cbn. rewrite lookup_empty. split; [set_solver|by intros [? ?]]. Qed.

(** Adding the key alone. *)
Lemma caps_ok_key l c : caps_ok l -> cm l !! c = None ->
  caps_ok (mkCapList (<[c := mkEntry c []]> (cm l)) (csort l ++ [c])).
Proof.
  intros (Hn & Hs & He) Hc. assert (c ∉ csort l) by (rewrite Hs, Hc; by intros [? ?]).
  split; [cbn; apply NoDup_app; split; [done|]; split; [set_solver|apply NoDup_singleton]|]. split; cbn.
  - intros d. rewrite elem_of_app, list_elem_of_singleton, Hs. destruct (decide (d = c)) as [->|Hd].
    + rewrite lookup_insert_eq. naive_solver.
    + rewrite lookup_insert_ne by done. naive_solver.
  - apply map_Forall_insert_2; [|done]. split; [done|]. split; [constructor|]. done.
Qed.

(** Replacing the values of a key. *)
Lemma caps_ok_alter l c (f : list bytes -> list bytes) : caps_ok l ->
  (forall e, cm l !! c = Some e -> entry_ok c (mkEntry (eName e) (f (eValues e)))) ->
  caps_ok (mkCapList (alter (fun e => mkEntry (eName e) (f (eValues e))) c (cm l)) (csort l)).
Proof.
  intros (Hn & Hs & He) Hf. split; [done|]. split; cbn.
  - intros d. rewrite Hs. destruct (decide (d = c)) as [->|Hd].
    + rewrite lookup_alter_eq. by rewrite fmap_is_Some.
    + by rewrite lookup_alter_ne.
  - intros d e. destruct (decide (d = c)) as [->|Hd].
    + rewrite lookup_alter_eq. intros (e' & E & ->)%fmap_Some. auto.
    + rewrite lookup_alter_ne by done. apply He.
Qed.

Lemma caps_ok_Add l c vs : caps_ok l -> caps_ok (snd (List_Add l c vs)).
Proof.
  intros Hl. unfold List_Add. destruct (List_validate c vs) eqn:Ev; [done|].
  apply List_validate_None in Ev as [Hne Hk].
  set (l1 := if List_Supports l c then l else _).
  assert (caps_ok l1) as H1.
  { unfold l1. destruct (List_Supports l c) eqn:E; [done|]. apply Supports_false in E. by apply caps_ok_key. }
  clearbody l1. destruct (Z.eqb_spec (len vs) 0); [done|].
  destruct (known c && negb (multipleArgument c) && (0 <? len (List_Get l1 c))) eqn:Em; [done|].
  apply (caps_ok_alter l1 c (fun o => o ++ vs)); [done|]. intros e He. destruct H1 as (_ & _ & Hall).
  destruct (Hall _ _ He) as (Hn & Hv & Hq). split; [done|]. cbn [eValues].
  split; [by apply Forall_app|]. intros Hkc. specialize (Hk Hkc) as (Hr0 & Hr1 & Hm). specialize (Hq Hkc) as [Hq1 Hq2].
  rewrite Hkc in Em. unfold List_Get in Em. rewrite He in Em. cbn in Em. split.
  - intros Hr. exfalso. rewrite (Hr0 Hr) in *. done.
  - intros Hmf. rewrite Hmf in Em. cbn in Em. apply Z.ltb_ge in Em. rewrite len_app.
    pose proof (len_nonneg (eValues e)). specialize (Hm Hmf). lia.
Qed.

Lemma caps_ok_Set l c vs : caps_ok l -> caps_ok (snd (List_Set l c vs)).
Proof.
  intros Hl. unfold List_Set. apply caps_ok_Add. destruct (List_Supports l c); [|done].
  apply (caps_ok_alter l c (fun _ => [])); [done|]. intros e He. destruct Hl as (_ & _ & Hall).
  destruct (Hall _ _ He) as (Hn & _). split; [done|]. split; [constructor|]. done.
Qed.

Lemma removeFirst_in c s d : NoDup s -> d ∈ removeFirst c s <-> d ∈ s /\ d <> c.
Proof.
  induction 1 as [|x s Hx Hn IH]; cbn; [set_solver|]. destruct (decide (x = c)) as [->|Hd].
  - rewrite bool_decide_eq_true_2 by done. set_solver.
  - rewrite bool_decide_eq_false_2 by done. set_solver.
Qed.

Lemma removeFirst_NoDup c s : NoDup s -> NoDup (removeFirst c s).
Proof.
  induction 1 as [|x s Hx Hn IH]; cbn; [constructor|]. case_bool_decide; [done|].
  constructor; [|done]. rewrite removeFirst_in by done. tauto.
Qed.

Lemma caps_ok_Delete l c : caps_ok l -> caps_ok (List_Delete l c).
Proof.
  intros (Hn & Hs & He). unfold List_Delete. destruct (List_Supports l c); [|done].
  split; [by apply removeFirst_NoDup|]. split; cbn.
  - intros d. rewrite removeFirst_in by done. rewrite Hs. destruct (decide (d = c)) as [->|Hd].
    + rewrite lookup_delete_eq. split; [tauto|by intros [? ?]].
    + rewrite lookup_delete_ne by done. tauto.
  - by apply map_Forall_delete.
Qed.

Lemma caps_ok_Decode l raw : caps_ok l -> caps_ok (snd (List_Decode l raw)).
Proof.
  unfold List_Decode. destruct (_ =? 0); [done|]. generalize (Split (TrimSpace raw) x20). intros ds. revert l.
  induction ds as [|d ds IH]; intros l Hl; cbn; [done|].
  assert (caps_ok (snd (List_decodePair l d))) as H1.
  { unfold List_decodePair. destruct (SplitN2 d x3d) as [c [v|]]; by apply caps_ok_Add. }
  destruct (List_decodePair l d) as [[e|] l1]; [done|]. by apply IH.
Qed.

Lemma List_strings_ok l keys : (forall k, k ∈ keys -> is_Some (cm l !! k)) -> exists o, List_strings l keys = Ok o.
Proof.
  induction keys as [|k keys IH]; intros H; cbn; [eauto|]. destruct (H k) as [e ->]; [set_solver|].
  destruct IH as [o ->]; [set_solver|]. cbn. eauto.
Qed.

(** The operations a client has. *)
Inductive cap_op := OpAdd (c : Capability) (vs : list bytes) | OpSet (c : Capability) (vs : list bytes)
  | OpDelete (c : Capability) | OpDecode (raw : bytes).

Definition cap_step (l : CapList) (o : cap_op) : CapList :=
  match o with
  | OpAdd c vs => snd (List_Add l c vs)
  | OpSet c vs => snd (List_Set l c vs)
  | OpDelete c => List_Delete l c
  | OpDecode raw => snd (List_Decode l raw)
  end.

Lemma caps_ok_step l o : caps_ok l -> caps_ok (cap_step l o).
Proof. destruct o; cbn; auto using caps_ok_Add, caps_ok_Set, caps_ok_Delete, caps_ok_Decode. Qed.

(** Whatever operations a list of capabilities has been through, also failed ones, its order has every
    capability of the map once and no other, the values are not empty strings and
    obey the limits of known capabilities, and printing the list does not panic. *)
Theorem capability_list_invariant ops :
  caps_ok (foldl cap_step NewList ops) /\ exists s, List_String (foldl cap_step NewList ops) = Ok s.
Proof.
  assert (caps_ok (foldl cap_step NewList ops)) as H.
  { generalize caps_ok_new. generalize NewList. induction ops as [|o ops IH]; intros l Hl; cbn; [done|].
    apply IH. by apply caps_ok_step. }
  split; [done|]. destruct H as (_ & Hs & _). unfold List_String.
  destruct (List_strings_ok (foldl cap_step NewList ops) (csort (foldl cap_step NewList ops))) as [o ->]; [set_solver|].
  cbn. eauto.
Qed.

(** ** Printing and decoding *)

(** A known capability that needs a value has one; [List_Set] alone can break this. *)
Definition caps_complete (l : CapList) : Prop :=
  map_Forall (fun c e => known c = true -> requiresArgument c = true -> eValues e <> []) (cm l).

(** Names and values without the bytes the text uses, and nothing to trim. *)
Definition caps_printable (l : CapList) : Prop :=
  map_Forall (fun c e => c <> [] /\ x20 ∉ c /\ x3d ∉ c /\ Forall (fun v => x20 ∉ v) (eValues e)) (cm l) /\
  (forall s, List_String l = Ok s -> TrimSpace s = s).

Definition entry_strings (c : Capability) (e : cap_entry) : list bytes :=
  if len (eValues e) =? 0 then [c] else map (fun v => c ++ [x3d] ++ v) (eValues e).

Lemma decodePair_value l c v : x3d ∉ c -> List_decodePair l (c ++ [x3d] ++ v) = List_Add l c [v].
Proof. intros H. unfold List_decodePair. cbn [app]. by rewrite SplitN2_app. Qed.
Lemma decodePair_key l c : x3d ∉ c -> List_decodePair l c = List_Add l c [].
Proof. intros H. unfold List_decodePair. by rewrite SplitN2_none. Qed.

(** The remaining values of a key that the list has. *)
Lemma decode_values c vs : x3d ∉ c -> Forall (fun v => v <> []) vs ->
  forall M S vs0 rest, M !! c = Some (mkEntry c vs0) ->
  (known c = true -> vs <> [] -> requiresArgument c = true /\ (multipleArgument c = false -> len (vs0 ++ vs) <= 1)) ->
  List_Decode_loop (mkCapList M S) (map (fun v => c ++ [x3d] ++ v) vs ++ rest) =
  List_Decode_loop (mkCapList (<[c := mkEntry c (vs0 ++ vs)]> M) S) rest.
Proof.
  intros Hc Hvs. induction Hvs as [|v vs Hv Hvs IH]; intros M S vs0 rest HM Hk.
  - cbn [map app]. by rewrite app_nil_r, insert_id.
  - cbn [map app List_Decode_loop]. change (c ++ x3d :: v) with (c ++ [x3d] ++ v). rewrite decodePair_value by done. unfold List_Add.
    assert (List_validate c [v] = None) as ->.
    { apply List_validate_None. split; [by constructor|]. intros Hkc. destruct (Hk Hkc) as [Hr Hm]; [done|]. by rewrite Hr. }
    unfold List_Supports. cbn [cm]. rewrite HM, bool_decide_eq_true_2 by eauto. change (len [v] =? 0) with false. cbv iota.
    assert (known c && negb (multipleArgument c) && (0 <? len (List_Get (mkCapList M S) c)) = false) as ->.
    { unfold List_Get. cbn [cm]. rewrite HM. destruct (known c); [|done]. destruct (Hk eq_refl) as [_ Hm]; [done|].
      destruct (multipleArgument c); [done|]. specialize (Hm eq_refl). rewrite len_app, len_cons in Hm.
      cbn. apply Z.ltb_ge. pose proof (len_nonneg vs). lia. }
    cbn [cm csort]. rewrite (IH _ _ (vs0 ++ [v])).
    + rewrite <- app_assoc. cbn [app]. f_equal. f_equal. apply map_eq. intros d.
      destruct (decide (d = c)) as [->|Hd]; [by rewrite !lookup_insert_eq|]. by rewrite !lookup_insert_ne, lookup_alter_ne by done.
    + by rewrite lookup_alter_eq, HM.
    + intros Hkc _. rewrite <- app_assoc. by apply Hk.
Qed.

(** An entry that the list does not have yet. *)
Lemma decode_entry c e M S rest : x3d ∉ c -> entry_ok c e ->
  (known c = true -> requiresArgument c = true -> eValues e <> []) -> M !! c = None ->
  List_Decode_loop (mkCapList M S) (entry_strings c e ++ rest) =
  List_Decode_loop (mkCapList (<[c := e]> M) (S ++ [c])) rest.
Proof.
  intros Hc (Hn & Hv & Hk) Hreq HM. destruct e as [n vs]. cbn in *. subst n. unfold entry_strings. cbn [eValues].
  assert (forall vs', Forall (fun v => v <> []) vs' -> (known c = true -> (requiresArgument c = false -> vs' = []) /\
     (requiresArgument c = true -> vs' <> []) /\ (multipleArgument c = false -> len vs' <= 1)) ->
     List_validate c vs' = None) as Hval. { intros. by apply List_validate_None. }
  destruct vs as [|v vs].
  - change (len (@nil bytes) =? 0) with true. cbn [app List_Decode_loop]. rewrite decodePair_key by done. unfold List_Add.
    rewrite Hval; [|constructor|intros Hkc; specialize (Hreq Hkc); naive_solver].
    unfold List_Supports. cbn [cm csort]. rewrite HM, bool_decide_eq_false_2 by (by intros [? ?]). done.
  - destruct (Z.eqb_spec (len (v :: vs)) 0) as [E|_]; [rewrite len_cons in E; pose proof (len_nonneg vs); lia|].
    apply Forall_cons in Hv as [Hv Hvs]. cbn [map app List_Decode_loop]. change (c ++ x3d :: v) with (c ++ [x3d] ++ v).
    rewrite decodePair_value by done. unfold List_Add. pose proof (len_nonneg vs).
    assert (known c = true -> requiresArgument c = true) as Hrt.
    { intros Hkc. destruct (Hk Hkc) as [H1 _]. destruct (requiresArgument c); [done|]. by specialize (H1 eq_refl). }
    rewrite Hval; [|by constructor|intros Hkc; specialize (Hrt Hkc); naive_solver].
    unfold List_Supports. cbn [cm csort]. rewrite HM, bool_decide_eq_false_2 by (by intros [? ?]).
    change (len [v] =? 0) with false. cbv iota. unfold List_Get. cbn [cm]. rewrite lookup_insert_eq. cbn [eValues].
    change (0 <? len (@nil bytes)) with false. rewrite andb_false_r. cbn [cm csort].
    rewrite (decode_values c vs Hc Hvs _ _ [v]).
    + f_equal. f_equal. apply map_eq. intros d. destruct (decide (d = c)) as [->|Hd]; [by rewrite !lookup_insert_eq|].
      by rewrite !lookup_insert_ne, lookup_alter_ne, lookup_insert_ne by done.
    + by rewrite lookup_alter_eq, lookup_insert_eq.
    + intros Hkc _. split; [auto|]. apply Hk, Hkc.
Qed.

Lemma List_strings_entries l keys o : List_strings l keys = Ok o ->
  Forall2 (fun k os => exists e, cm l !! k = Some e /\ os = entry_strings k e) keys
    (map (fun k => match cm l !! k with Some e => entry_strings k e | None => [] end) keys) /\
  o = concat (map (fun k => match cm l !! k with Some e => entry_strings k e | None => [] end) keys).
Proof.
  revert o. induction keys as [|k keys IH]; intros o H; cbn in H |- *; [injection H as <-; split; [constructor|done]|].
  destruct (cm l !! k) as [e|] eqn:E; [|discriminate H]. inv_bind H. injection H as <-. destruct (IH _ E0) as [H1 ->].
  split; [|done]. constructor; eauto.
Qed.

Lemma decode_keys l : caps_ok l -> caps_complete l -> map_Forall (fun c _ => x3d ∉ c) (cm l) ->
  forall ks2 ks1 M o, csort l = ks1 ++ ks2 -> (forall c, M !! c = if bool_decide (c ∈ ks1) then cm l !! c else None) ->
  List_strings l ks2 = Ok o -> List_Decode_loop (mkCapList M ks1) o = (None, l).
Proof.
  intros (Hn & Hs & He) Hc Heq. induction ks2 as [|k ks2 IH]; intros ks1 M o Hk HM Ho; cbn in Ho.
  - injection Ho as <-. cbn. f_equal. destruct l as [m s]. cbn in *. rewrite app_nil_r in Hk. subst s. f_equal.
    apply map_eq. intros c. rewrite HM. case_bool_decide as H; [done|]. rewrite Hs in H. symmetry. by apply eq_None_not_Some.
  - destruct (cm l !! k) as [e|] eqn:E; [|discriminate Ho]. inv_bind Ho. injection Ho as <-.
    change (if len (eValues e) =? 0 then [k] else _) with (entry_strings k e).
    assert (k ∉ ks1) as Hk1. { rewrite Hk in Hn. apply NoDup_app in Hn as (_ & H & _). intros Hin. apply (H k Hin). set_solver. }
    rewrite decode_entry.
    + apply IH; [by rewrite Hk, <- app_assoc| |done]. intros c. destruct (decide (c = k)) as [->|Hck].
      * rewrite lookup_insert_eq, bool_decide_eq_true_2 by set_solver. done.
      * rewrite lookup_insert_ne, HM by done. rewrite (bool_decide_ext (c ∈ ks1) (c ∈ ks1 ++ [k])) by set_solver. done.
    + by apply (Heq k e).
    + by apply He.
    + by apply (Hc k e).
    + rewrite HM. by rewrite bool_decide_eq_false_2.
Qed.

(** A list whose names and values can be printed comes back from its text:
    capabilities, values and order. *)
Lemma List_roundtrip l :
  caps_ok l -> caps_complete l -> caps_printable l ->
  exists s, List_String l = Ok s /\ List_Decode NewList s = (None, l).
Proof.
  intros Hok Hc [Hp Ht]. pose proof Hok as (Hn & Hs & He).
  destruct (List_strings_ok l (csort l)) as [o Ho]; [intros k; apply Hs|].
  assert (List_String l = Ok (Join o [x20])) as HS by (unfold List_String; by rewrite Ho).
  eexists. split; [exact HS|]. unfold List_Decode. rewrite (Ht _ HS).
  assert (Forall (fun s => s <> [] /\ x20 ∉ s) o) as Hpieces.
  { apply List_strings_entries in Ho as [_ ->]. apply Forall_concat, Forall_map, Forall_forall. intros k Hk.
    destruct (cm l !! k) as [e|] eqn:E; [|constructor]. destruct (Hp _ _ E) as (Hk0 & Hk1 & _ & Hv).
    unfold entry_strings. destruct (_ =? 0); [by repeat constructor|]. apply Forall_map.
    eapply Forall_impl; [exact Hv|]. intros v Hsp. cbn. split; [by destruct k|]. set_solver. }
  destruct o as [|x o].
  - cbn. destruct (csort l) as [|k ks] eqn:Ek.
    + f_equal. destruct l as [m s]. cbn in *. subst s. unfold NewList. f_equal. symmetry. apply map_empty. intros c.
      apply eq_None_not_Some. rewrite <- Hs. set_solver.
    + exfalso. apply List_strings_entries in Ho as [H1 H2]. inversion H1 as [|? ? ? ? (e & E & H3)]; subst. cbn in H2.
      rewrite E in H2. unfold entry_strings in H2. destruct (eValues e) as [|v vs] eqn:Ev; [done|].
      destruct (Z.eqb_spec (len (v :: vs)) 0) as [Z|_]; [rewrite len_cons in Z; pose proof (len_nonneg vs); lia|done].
  - assert (len (Join (x :: o) [x20]) =? 0 = false) as ->.
    { apply Forall_cons in Hpieces as [[Hx _] _]. destruct x as [|b x]; [done|]. apply Z.eqb_neq.
      destruct o; [cbn|rewrite Join_cons by done]; rewrite ?len_app, len_cons; pose proof (len_nonneg x); len_lia. }
    rewrite Split_Join; [|done|].
    + apply (decode_keys l Hok Hc) with (ks2 := csort l); [|done| |exact Ho].
      * intros c e E. by destruct (Hp _ _ E) as (_ & _ & ? & _).
      * intros c. by rewrite lookup_empty, bool_decide_eq_false_2 by set_solver.
    + eapply Forall_impl; [exact Hpieces|]. by intros ? [_ ?].
Qed.

Definition demoCaps : CapList :=
  foldl cap_step NewList [ OpAdd (bs "multi_ack") []; OpAdd cap_SymRef [bs "HEAD:refs/heads/master"];
    OpAdd cap_Agent [bs "go-git/6.x"]; OpAdd cap_SymRef [bs "refs/a:refs/b"]; OpAdd (bs "x") [bs "a=b"; bs "c"] ].

(** A list of capabilities whose names and values can be printed comes back from its text: capabilities,
    values and order. *)
Theorem capability_list_roundtrip l :
  caps_ok l -> caps_complete l -> caps_printable l ->
  exists s, List_String l = Ok s /\ List_Decode NewList s = (None, l).
Proof. apply List_roundtrip. Qed.

Lemma capability_list_roundtrip_witness :
  exists s, List_String demoCaps = Ok s /\ List_Decode NewList s = (None, demoCaps).
Proof.
  apply capability_list_roundtrip.
  - unfold demoCaps. cbn [foldl]. do 5 apply caps_ok_step. apply caps_ok_new.
  - unfold caps_complete. by_decision.
  - split; [by_decision|]. intros s H. vm_compute in H. injection H as <-. vm_compute. reflexivity.
Defined.

(** [Set] clears the old values before it validates the new ones: a refused call
    leaves a capability that needs a value without one, and the printed list is
    then refused by [Decode]. *)
Theorem capability_set_loses_values l c e :
  caps_ok l -> cm l !! c = Some e -> known c = true -> requiresArgument c = true ->
  fst (List_Set l c []) = Some ErrArgumentsRequired /\ List_Get (snd (List_Set l c [])) c = [] /\
  (x3d ∉ c -> fst (List_decodePair NewList c) = Some ErrArgumentsRequired).
Proof.
  intros Hl Hc Hk Hr. unfold List_Set, List_Supports. rewrite Hc, bool_decide_eq_true_2 by eauto.
  assert (List_validate c [] = Some ErrArgumentsRequired) as Hv by (unfold List_validate; by rewrite Hk, Hr).
  unfold List_Add. rewrite Hv. cbn [fst snd]. split; [done|]. split.
  - unfold List_Get. cbn [cm]. by rewrite lookup_alter_eq, Hc.
  - intros H. rewrite decodePair_key by done. unfold List_Add. by rewrite Hv.
Qed.

Lemma capability_set_loses_values_witness :
  fst (List_Set demoCaps cap_Agent []) = Some ErrArgumentsRequired /\
  List_Get (snd (List_Set demoCaps cap_Agent [])) cap_Agent = [] /\
  (x3d ∉ cap_Agent -> fst (List_decodePair NewList cap_Agent) = Some ErrArgumentsRequired).
Proof.
  apply (capability_set_loses_values demoCaps cap_Agent (mkEntry cap_Agent [bs "go-git/6.x"])).
  - unfold demoCaps. cbn [foldl]. do 5 apply caps_ok_step. apply caps_ok_new.
  - vm_compute. reflexivity.
  - reflexivity.
  - reflexivity.
Defined.
