(* ===== verification/Packp.v ===== *)
(** * Messages of the Git protocol ([plumbing/protocol/packp])

    Every message is encoded as pkt-lines appended to the writer and decoded from
    them.  A decoder is a record with its current line and sticky error, as in the
    code, and its state functions are the values of a type; [pool] is the
    contents of the pooled buffer that [pktline.ReadLine] gets for each read.  An
    error built with a format is known by the text of its format. *)
From S2P Require Import Prelude GoStrings Strconv ObjectID Reference Storer Memory PktLine Capability.

(** ** Shared (common.go) *)
Definition hashSize : Z := 40.
Definition kw_head : bytes := bs "HEAD".
Definition kw_sp : bytes := [x20].
Definition kw_eol : bytes := [x0a].
Definition kw_peeled : bytes := bs "^{}".
Definition kw_noHeadMark : bytes := bs " capabilities^{}" ++ [x00].
Definition kw_want : bytes := bs "want ".
Definition kw_shallow : bytes := bs "shallow ".
Definition kw_deepen : bytes := bs "deepen".
Definition kw_deepenCommits : bytes := bs "deepen ".
Definition kw_deepenSince : bytes := bs "deepen-since ".
Definition kw_deepenReference : bytes := bs "deepen-not ".
Definition kw_unshallow : bytes := bs "unshallow ".
Definition kw_ack : bytes := bs "ACK".
Definition kw_nak : bytes := bs "NAK".
Definition kw_shallowNoSp : bytes := bs "shallow".

Definition isFlush (payload : bytes) : bool := len payload =? 0.

(** One packet appended to what the writer has ([pktline.Writef]). *)
Definition Writef (w p : bytes) : res bytes := let* b := Write p in Ok (w ++ b).

Fixpoint Writefs (w : bytes) (ps : list bytes) : res bytes :=
  match ps with
  | [] => Ok w
  | p :: ps => let* w := Writef w p in Writefs w ps
  end.

(** A decoder's loop over its state functions, [for state := first; state != nil; { state = state(d) }]. *)
Fixpoint runStates {F D} (state : F -> D -> res (option F * D)) (fuel : nat) (f : F) (d : D) : res D :=
  match fuel with
  | O => NoFuel
  | S fuel =>
    let* (next, d) := state f d in
    match next with Some f => runStates state fuel f d | None => Ok d end
  end.

(** [sort.Strings] and [plumbing.HashesSort]. *)
Definition sortStrings : list bytes -> list bytes := insertionSort (fun a b => compareBytes a b <? 0).
Definition HashesSort : list ObjectID -> list ObjectID := insertionSort HashLess.

(** ** Advertised references (advrefs.go) *)
Record AdvRefs := mkAdvRefs {
  Head : option ObjectID; Capabilities : CapList;
  References : gmap bytes ObjectID; Peeled : gmap bytes ObjectID; Shallows : list ObjectID }.

Definition NewAdvRefs : AdvRefs := mkAdvRefs None NewList ∅ ∅ [].

Definition AddReference (a : AdvRefs) (r : Reference) : option error * AdvRefs :=
  match rtype r with
  | SymbolicReference =>
    let '(err, c) := List_Add (Capabilities a) cap_SymRef [rname r ++ bs ":" ++ rtarget r] in
    (err, mkAdvRefs (Head a) c (References a) (Peeled a) (Shallows a))
  | HashReference =>
    (None, mkAdvRefs (Head a) (Capabilities a) (<[rname r := rhash r]> (References a)) (Peeled a) (Shallows a))
  | InvalidReference => (Some ErrInvalidType, a)
  end.

Definition AdvRefs_IsEmpty (a : AdvRefs) : bool :=
  match Head a with None => true | Some h => IsZero h end &&
  (Z.of_nat (size (References a)) =? 0) && (Z.of_nat (size (Peeled a)) =? 0) && (len (Shallows a) =? 0).

(** *** References and symbolic references in a storage

    Written over the interface; a map is ranged over in the order of
    [map_to_list]. *)
Section Refs.
Context {S : Type} `{ReferenceStorer S}.

Definition createHeadIfCorrectReference (a : AdvRefs) (head : ObjectID) (reference : Reference) (s : S) : res (bool * S) :=
  if bool_decide (rhash reference = head) then
    let* s := SetReference s (Some (NewSymbolicReference HEAD (rname reference))) in Ok (true, s)
  else Ok (false, s).

Fixpoint resolveHead_loop (a : AdvRefs) (head : ObjectID) (refNames : list bytes) (s : S) : res (bool * S) :=
  match refNames with
  | [] => Ok (false, s)
  | refName :: refNames =>
    let* ref := Reference_ s refName in
    let* (ok, s) := createHeadIfCorrectReference a head ref s in
    if (ok : bool) then Ok (true, s) else resolveHead_loop a head refNames s
  end.

(** The guess from the sorted names, when [master] is not it. *)
Definition resolveHead_guess (a : AdvRefs) (head : ObjectID) (s : S) : res S :=
  let* refIter := IterReferences s in
  let* (refNames, err) := ForEach refIter (fun ns r => (ns ++ [rname r], None)) [] in
  match err with
  | Some e => Err e
  | None =>
    let* (headSet, s) := resolveHead_loop a head (sortStrings refNames) s in
    if (headSet : bool) then Ok s else Err ErrReferenceNotFound
  end.

Definition resolveHead (a : AdvRefs) (s : S) : res S :=
  match Head a with
  | None => Ok s
  | Some head =>
    match Reference_ s Master with
    | Ok ref =>
      let* (ok, s) := createHeadIfCorrectReference a head ref s in
      if (ok : bool) then Ok s else resolveHead_guess a head s
    | Err ErrReferenceNotFound => resolveHead_guess a head s
    | Err e => Err e
    | Panic => Panic
    | NoFuel => NoFuel
    end
  end.

(** The storage afterwards comes with the error; an error of [SetReference] is
    dropped. *)
Fixpoint addSymbolicRefs_loop (symrefs : list bytes) (s : S) : res S :=
  match symrefs with
  | [] => Ok s
  | symref :: symrefs =>
    match Split symref x3a with
    | [name; target] =>
      match SetReference s (Some (NewSymbolicReference name target)) with
      | Ok s => addSymbolicRefs_loop symrefs s
      | Err _ => Ok s
      | Panic => Panic
      | NoFuel => NoFuel
      end
    | _ => Err (UnexpectedError (bs "bad number of `:` in symref value (%q)"))
    end
  end.

Definition addSymbolicRefs (a : AdvRefs) (s : S) : res S :=
  addSymbolicRefs_loop (List_Get (Capabilities a) cap_SymRef) s.

Fixpoint addRefs_loop (refs : list (bytes * ObjectID)) (s : S) : res S :=
  match refs with
  | [] => Ok s
  | (name, h) :: refs =>
    let* s := SetReference s (Some (NewReferenceFromStrings name (ObjectID_String h))) in
    addRefs_loop refs s
  end.

Definition supportSymrefs (a : AdvRefs) : bool := List_Supports (Capabilities a) cap_SymRef.

Definition addRefs (a : AdvRefs) (s : S) : res S :=
  let* s := addRefs_loop (map_to_list (References a)) s in
  if supportSymrefs a then addSymbolicRefs a s else resolveHead a s.
End Refs.

Definition AllReferences (a : AdvRefs) : res refmap := addRefs a (∅ : refmap).

Definition MakeReferenceSlice (a : AdvRefs) : res (list Reference) :=
  let* refs := AllReferences a in
  let allRefs := flat_map (fun '(_, ref) =>
    ref :: match Peeled a !! rname ref with
           | Some peeled => [NewReferenceFromStrings (rname ref ++ kw_peeled) (ObjectID_String peeled)]
           | None => []
           end) (map_to_list refs) in
  Ok (insertionSort (fun a b => compareBytes (rname a) (rname b) <? 0) allRefs).

(** *** Encoding (advrefs_encode.go) *)
Definition sortRefs (refs : gmap bytes ObjectID) : list bytes := sortStrings (map fst (map_to_list refs)).

Record advRefsEncoder := mkAdvEnc {
  ae_data : AdvRefs; firstRefName : bytes; firstRefHash : ObjectID; sortedRefs : list bytes }.

(** [e.sortRefs(); e.setFirstRef()] *)
Definition setFirstRef (a : AdvRefs) : advRefsEncoder :=
  let sorted := sortRefs (References a) in
  match Head a, sorted with
  | Some h, _ => mkAdvEnc a kw_head h sorted
  | None, refName :: _ => mkAdvEnc a refName (default ZeroHash (References a !! refName)) sorted
  | None, [] => mkAdvEnc a [] ZeroHash sorted
  end.

Definition sortShallows (c : list ObjectID) : list bytes := sortStrings (map ObjectID_String c).

Definition adv_encodeFlush (w : bytes) : res bytes := Ok (w ++ WriteFlush).

Definition adv_encodeShallow (e : advRefsEncoder) (w : bytes) : res bytes :=
  let* w := Writefs w (map (fun hash => bs "shallow " ++ hash ++ kw_eol) (sortShallows (Shallows (ae_data e)))) in
  adv_encodeFlush w.

Fixpoint adv_encodeRefs_loop (e : advRefsEncoder) (refs : list bytes) (w : bytes) : res bytes :=
  match refs with
  | [] => adv_encodeShallow e w
  | r :: refs =>
    if bool_decide (r = firstRefName e) then adv_encodeRefs_loop e refs w
    else
      let hash := default ZeroHash (References (ae_data e) !! r) in
      let* w := Writef w (ObjectID_String hash ++ kw_sp ++ r ++ kw_eol) in
      match Peeled (ae_data e) !! r with
      | Some hash =>
        let* w := Writef w (ObjectID_String hash ++ kw_sp ++ r ++ kw_peeled ++ kw_eol) in
        adv_encodeRefs_loop e refs w
      | None => adv_encodeRefs_loop e refs w
      end
  end.

Definition adv_encodeRefs (e : advRefsEncoder) (w : bytes) : res bytes := adv_encodeRefs_loop e (sortedRefs e) w.

Definition adv_encodeFirstLine (e : advRefsEncoder) (w : bytes) : res bytes :=
  let* capabilities := List_String (Capabilities (ae_data e)) in
  let firstLine :=
    if bool_decide (firstRefName e = []) then
      ObjectID_String ZeroHash ++ kw_sp ++ bs "capabilities^{}" ++ [x00] ++ capabilities ++ kw_eol
    else ObjectID_String (firstRefHash e) ++ kw_sp ++ firstRefName e ++ [x00] ++ capabilities ++ kw_eol in
  let* w := Writef w firstLine in
  adv_encodeRefs e w.

Definition AdvRefs_Encode (a : AdvRefs) (w : bytes) : res bytes := adv_encodeFirstLine (setFirstRef a) w.

(** ** Reading lines *)
Section Pool.
Context (pool : bytes -> bytes).

(** [pktline.ReadLine]: length, payload (nil is empty), error, and the reader afterwards. *)
Definition readPkt (r : bytes) : res (Z * bytes * option error * bytes) :=
  let* (l, p, r) := ReadLine (pool r) r in Ok (rdLen l, default [] p, rdErr l, r).

(** *** Advertised references (advrefs_decode.go) *)
Record advRefsDecoder := mkAdvDec {
  ad_s : bytes; ad_line : bytes; ad_nLine : Z; ad_hash : ObjectID; ad_err : option error; ad_data : AdvRefs }.

Definition newAdvRefsDecoder (r : bytes) (v : AdvRefs) : advRefsDecoder := mkAdvDec r [] 0 ZeroHash None v.

Definition ad_set_line (d : advRefsDecoder) (line : bytes) : advRefsDecoder :=
  mkAdvDec (ad_s d) line (ad_nLine d) (ad_hash d) (ad_err d) (ad_data d).
Definition ad_set_hash (d : advRefsDecoder) (h : ObjectID) : advRefsDecoder :=
  mkAdvDec (ad_s d) (ad_line d) (ad_nLine d) h (ad_err d) (ad_data d).
Definition ad_set_err (d : advRefsDecoder) (e : error) : advRefsDecoder :=
  mkAdvDec (ad_s d) (ad_line d) (ad_nLine d) (ad_hash d) (Some e) (ad_data d).
Definition ad_set_data (d : advRefsDecoder) (a : AdvRefs) : advRefsDecoder :=
  mkAdvDec (ad_s d) (ad_line d) (ad_nLine d) (ad_hash d) (ad_err d) a.
Definition ad_error (d : advRefsDecoder) (format : string) : advRefsDecoder :=
  ad_set_err d (ErrUnexpectedData (bs format)).

Definition adv_nextLine (d : advRefsDecoder) : res (bool * advRefsDecoder) :=
  let* (_, p, err, s) := readPkt (ad_s d) in
  let d := mkAdvDec s (ad_line d) (ad_nLine d + 1) (ad_hash d) (ad_err d) (ad_data d) in
  match err with
  | Some EOF => if ad_nLine d =? 1 then Ok (false, ad_set_err d ErrEmptyInput) else Ok (false, ad_error d "EOF")
  | Some e => Ok (false, ad_set_err d e)
  | None => Ok (true, ad_set_line d (TrimSuffix p kw_eol))
  end.

Inductive decoderStateFn := decodeFirstHash | decodeSkipNoRefs | decodeFirstRef | decodeCaps | decodeOtherRefs | decodeShallow.

Definition adv_next := (option decoderStateFn * advRefsDecoder)%type.

Definition adv_decodeFirstHash (p : advRefsDecoder) : res adv_next :=
  let* (ok, p) := adv_nextLine p in
  if negb ok then Ok (None, p)
  else if isFlush (ad_line p) then Ok (None, ad_set_err p ErrEmptyAdvRefs)
  else if len (ad_line p) <? hashSize then Ok (None, ad_error p "cannot read hash, pkt-line too short")
  else
    let* text := slice (ad_line p) 0 hashSize in
    let '(h, ok) := FromHex text in
    if negb ok then Ok (None, ad_error p "invalid hash text: %s")
    else
      let* line := slice (ad_line p) hashSize (len (ad_line p)) in
      let p := ad_set_line (ad_set_hash p h) line in
      if IsZero h then Ok (Some decodeSkipNoRefs, p) else Ok (Some decodeFirstRef, p).

Definition adv_decodeSkipNoRefs (p : advRefsDecoder) : res adv_next :=
  if len (ad_line p) <? len kw_noHeadMark then Ok (None, ad_error p "too short zero-id ref")
  else if negb (HasPrefix (ad_line p) kw_noHeadMark) then Ok (None, ad_error p "malformed zero-id ref")
  else
    let* line := slice (ad_line p) (len kw_noHeadMark) (len (ad_line p)) in
    Ok (Some decodeCaps, ad_set_line p line).

Definition adv_decodeFirstRef (l : advRefsDecoder) : res adv_next :=
  if len (ad_line l) <? 3 then Ok (None, ad_error l "line too short after hash")
  else if negb (HasPrefix (ad_line l) kw_sp) then Ok (None, ad_error l "no space after hash")
  else
    let* line := slice (ad_line l) 1 (len (ad_line l)) in
    match SplitN2 line x00 with
    | (_, None) => Ok (None, ad_error (ad_set_line l line) "NULL not found")
    | (ref, Some line) =>
      let l := ad_set_line l line in
      let a := ad_data l in
      let a := if bool_decide (ref = kw_head)
               then mkAdvRefs (Some (ad_hash l)) (Capabilities a) (References a) (Peeled a) (Shallows a)
               else mkAdvRefs (Head a) (Capabilities a) (<[ref := ad_hash l]> (References a)) (Peeled a) (Shallows a) in
      Ok (Some decodeCaps, ad_set_data l a)
    end.

Definition adv_decodeCaps (p : advRefsDecoder) : res adv_next :=
  let a := ad_data p in
  let '(err, c) := List_Decode (Capabilities a) (ad_line p) in
  let p := ad_set_data p (mkAdvRefs (Head a) c (References a) (Peeled a) (Shallows a)) in
  match err with
  | Some _ => Ok (None, ad_error p "invalid capabilities: %s")
  | None => Ok (Some decodeOtherRefs, p)
  end.

Definition readRef (data : bytes) : res (bytes * ObjectID) :=
  match Split data x20 with
  | [_] => Err (ErrPackp (bs "malformed ref data: no space was found"))
  | [h; name] => Ok (name, NewHash h)
  | _ => Err (ErrPackp (bs "malformed ref data: more than one space found"))
  end.

Definition adv_decodeOtherRefs (p : advRefsDecoder) : res adv_next :=
  let* (ok, p) := adv_nextLine p in
  if negb ok then Ok (None, p)
  else if HasPrefix (ad_line p) kw_shallow then Ok (Some decodeShallow, p)
  else if len (ad_line p) =? 0 then Ok (None, p)
  else
    let saveToPeeled := HasSuffix (ad_line p) kw_peeled in
    let p := if saveToPeeled then ad_set_line p (TrimSuffix (ad_line p) kw_peeled) else p in
    match readRef (ad_line p) with
    | Err _ => Ok (None, ad_error p "%s")
    | Panic => Panic
    | NoFuel => NoFuel
    | Ok (ref, hash) =>
      let a := ad_data p in
      let a := if saveToPeeled
               then mkAdvRefs (Head a) (Capabilities a) (References a) (<[ref := hash]> (Peeled a)) (Shallows a)
               else mkAdvRefs (Head a) (Capabilities a) (<[ref := hash]> (References a)) (Peeled a) (Shallows a) in
      Ok (Some decodeOtherRefs, ad_set_data p a)
    end.

(** The line is a slice of the pooled buffer: the error message may cut it past
    its end, not past the end of the buffer. *)
Definition adv_decodeShallow (p : advRefsDecoder) : res adv_next :=
  if negb (HasPrefix (ad_line p) kw_shallow) then Ok (None, ad_error p "malformed shallow prefix, found %q... instead")
  else
    let p := ad_set_line p (TrimPrefix (ad_line p) kw_shallow) in
    if negb (len (ad_line p) =? hashSize)
    then Ok (None, ad_error p "malformed shallow hash: wrong length, expected 40 bytes, read %d bytes")
    else
      let* text := slice (ad_line p) 0 hashSize in
      let '(h, ok) := FromHex text in
      if negb ok then Ok (None, ad_error p "invalid hash text: %s")
      else
        let a := ad_data p in
        let p := ad_set_data p (mkAdvRefs (Head a) (Capabilities a) (References a) (Peeled a) (Shallows a ++ [h])) in
        let* (ok, p) := adv_nextLine p in
        if negb ok then Ok (None, p)
        else if len (ad_line p) =? 0 then Ok (None, p)
        else Ok (Some decodeShallow, p).

Definition adv_state (f : decoderStateFn) (d : advRefsDecoder) : res adv_next :=
  match f with
  | decodeFirstHash => adv_decodeFirstHash d
  | decodeSkipNoRefs => adv_decodeSkipNoRefs d
  | decodeFirstRef => adv_decodeFirstRef d
  | decodeCaps => adv_decodeCaps d
  | decodeOtherRefs => adv_decodeOtherRefs d
  | decodeShallow => adv_decodeShallow d
  end.

Definition adv_run : nat -> decoderStateFn -> advRefsDecoder -> res advRefsDecoder := runStates adv_state.

(** [AdvRefs.Decode]: the error, the message and the reader afterwards. *)
Definition AdvRefs_Decode (a : AdvRefs) (r : bytes) : res (option error * AdvRefs * bytes) :=
  let* d := adv_run (length r + 4) decodeFirstHash (newAdvRefsDecoder r a) in
  Ok (ad_err d, ad_data d, ad_s d).
End Pool.

(** ** Lines written and read *)

Definition frame (p : bytes) : bytes := asciiHex16 (len p + 4) ++ p.
Definition frames (ps : list bytes) : bytes := concat (map frame ps).

Lemma frames_cons p ps : frames (p :: ps) = frame p ++ frames ps.
Proof. done. Qed.

Lemma frames_length ps : (length ps <= length (frames ps))%nat.
Proof. induction ps as [|p ps IH]; [done|]. rewrite frames_cons, length_app. cbn. lia. Qed.

(** A payload that is read back: no error line, and long enough that the old
    contents of the buffer cannot complete it to one. *)
Definition line_ok (p : bytes) : Prop := 4 <= len p <= MaxPayloadSize /\ HasPrefix p errPrefix = false.

#[global] Instance line_ok_dec p : Decision (line_ok p).
Proof. unfold line_ok. solve_decision. Defined.

Lemma Writef_ok w p : line_ok p -> Writef w p = Ok (w ++ frame p).
Proof. intros [? _]. unfold Writef. rewrite Write_data by lia. done. Qed.

Lemma Writefs_ok ps : Forall line_ok ps -> forall w, Writefs w ps = Ok (w ++ frames ps).
Proof.
  induction 1 as [|p ps Hp Hps IH]; intros w; cbn [Writefs]; [by rewrite app_nil_r|].
  rewrite Writef_ok by done. cbn [res_bind]. rewrite IH. cbn. by rewrite <- app_assoc.
Qed.

(** A read without an error consumes the length and more. *)
Lemma Read_consumes r p l p' r' : Read r p = Ok (l, p', r') -> rdErr l = None -> (length r' + 4 <= length r)%nat.
Proof.
  unfold Read. intros H He. destruct (len p <? LenSize); [discriminate H|].
  destruct (readFull_cases LenSize r) as [(hdr & r1 & E & -> & Hh)|[[E ->]|[E Hs]]]; [done| | |]; rewrite E in H.
  2, 3: injection H as <- <- <-; discriminate He.
  unfold LenSize, len in Hh. rewrite length_app. cbv zeta in H.
  destruct (ParseLength _) as [n| | |]; try discriminate H; [|injection H as <- <- <-; discriminate He].
  destruct (_ || _); [injection H as <- <- <-; lia|]. destruct (_ <? n); [discriminate H|].
  unfold readFull in H. destruct (n - LenSize <=? 0).
  - inv_bind H. destruct (HasPrefix v errPrefix); [inv_bind H|]; injection H as <- <- <-; lia.
  - destruct (len r1 =? 0); [injection H as <- <- <-; discriminate He|].
    destruct (len r1 <? n - LenSize); [injection H as <- <- <-; discriminate He|].
    inv_bind H. destruct (HasPrefix v errPrefix); [inv_bind H|]; injection H as <- <- <-; rewrite length_drop; lia.
Qed.

(** ** Running the states of a decoder *)
Section Run.
Context {F D : Type} (state : F -> D -> res (option F * D)).

Lemma runStates_mono f k x : forall n d, runStates state n f d = x -> x <> NoFuel -> runStates state (n + k) f d = x.
Proof.
  intros n. revert f. induction n as [|n IH]; intros f d H Hx; [by subst x|]. cbn in H |- *.
  destruct (state f d) as [[[f'|] d']| | |]; cbn in H |- *; auto.
Qed.

Definition runs (f : F) (d d' : D) : Prop := exists n, runStates state n f d = Ok d'.

Lemma runs_step f d f' d1 d' : state f d = Ok (Some f', d1) -> runs f' d1 d' -> runs f d d'.
Proof. intros H [n Hn]. exists (S n). cbn. by rewrite H. Qed.

Lemma runs_done f d d' : state f d = Ok (None, d') -> runs f d d'.
Proof. intros H. exists 1%nat. cbn. by rewrite H. Qed.

Lemma runs_result f d d' n : runs f d d' -> runStates state n f d <> NoFuel -> runStates state n f d = Ok d'.
Proof.
  intros [m Hm] Hn. pose proof (runStates_mono f n _ m d Hm ltac:(done)) as H1.
  pose proof (runStates_mono f m _ n d eq_refl Hn) as H2. rewrite Nat.add_comm in H2. congruence.
Qed.

(** A measure that every step decreases bounds the rounds. *)
Lemma runStates_total (measure : F -> D -> nat) :
  (forall f d, exists next d', state f d = Ok (next, d') /\ forall f', next = Some f' -> (measure f' d' < measure f d)%nat) ->
  forall n f d, (measure f d < n)%nat -> exists d', runStates state n f d = Ok d'.
Proof.
  intros Hstep. induction n as [|n IH]; intros f d H; [lia|]. cbn.
  destruct (Hstep f d) as ([f'|] & d' & E & Hf); rewrite E; cbn; [|eauto].
  specialize (Hf f' eq_refl). apply IH. lia.
Qed.
End Run.

Section Lines.
Context (pool : bytes -> bytes).

Lemma readPkt_consumes r l p r' :
  readPkt pool r = Ok (l, p, None, r') -> (length r' + 4 <= length r)%nat.
Proof.
  unfold readPkt, ReadLine. intros H. inv_bind H. destruct v as [[l1 o] r1]. injection H as <- <- He <-.
  inv_bind E. destruct v as [[l2 p2] r2].
  assert (r2 = r1 /\ rdErr l2 = None) as [-> He2].
  { destruct (rdLen l2 <? LenSize); [by injection E as <- <- <-|]. inv_bind E. by injection E as <- <- <-. }
  eapply Read_consumes; eauto.
Qed.

Hypothesis pool_size : forall r, len (pool r) = MaxSize.

Lemma readPkt_frame p r : line_ok p -> readPkt pool (frame p ++ r) = Ok (len p + 4, p, None, r).
Proof.
  intros [Hl He]. unfold readPkt, frame. destruct (ReadLine_data p (pool ((asciiHex16 (len p + 4) ++ p) ++ r)) r) as (e & HW & HR).
  - apply pool_size.
  - lia.
  - rewrite HasPrefix_app; [done|]. unfold len in Hl. cbn. lia.
  - rewrite Write_data in HW by lia. apply (f_equal (fun x => match x with Ok y => y | _ => e end)) in HW. subst e. by rewrite HR.
Qed.

Lemma readPkt_flush r : readPkt pool (flushPkt ++ r) = Ok (Flush, [], None, r).
Proof. unfold readPkt, ReadLine. rewrite (Read_special flushPkt 0) by (done || apply pool_size). done. Qed.

(** A read has a result unless the old contents of the buffer make a packet of one to
    three bytes an error line. *)
Lemma readPkt_outcome r :
  (exists x, readPkt pool r = Ok x) \/ (readPkt pool r = Panic /\ stale_error r (pool r)).
Proof.
  pose proof (Read_outcome r (pool r) (pool_size r)) as H. unfold readPkt, ReadLine.
  destruct (Read r (pool r)) as [[[l p] r']| | |]; cbn in H |- *; [|done|by right|done].
  destruct H as (Hp & Hl & _). destruct (Z.ltb_spec (rdLen l) LenSize); cbn; [left; eauto|].
  unfold LenSize in *. rewrite slice_ok by lia. left. eexists. done.
Qed.
End Lines.
