(* ===== verification/AdvRefsProofs.v ===== *)
(** * Advertised references: decoding ends, and inverts encoding *)
From S2P Require Import Prelude GoStrings Strconv ObjectID Reference Storer Memory PktLine Capability Packp.

Section Run.
Context (pool : bytes -> bytes).

(** ** Decoding ends *)

Hypothesis pool_size : forall r, len (pool r) = MaxSize.
Hypothesis pool_clean : forall r, ~ stale_error r (pool r).

Lemma readPkt_total r : exists x, readPkt pool r = Ok x.
Proof. destruct (readPkt_outcome pool pool_size r) as [H|[_ H]]; [done|]. by apply pool_clean in H. Qed.

Lemma adv_nextLine_total d : exists ok d', adv_nextLine pool d = Ok (ok, d') /\
  (ok = true -> (length (ad_s d') + 4 <= length (ad_s d))%nat).
Proof.
  unfold adv_nextLine. destruct (readPkt_total (ad_s d)) as [[[[l p] e] s] E]. rewrite E. cbn [res_bind].
  destruct e as [e|].
  - assert (forall d', exists ok d1, Ok (false, d') = Ok (ok, d1) /\ (ok = true -> (length (ad_s d1) + 4 <= length (ad_s d))%nat)) as H.
    { intros d'. exists false, d'. split; [done|]. by intros. }
    destruct e; try (destruct (_ =? 1)); apply H.
  - eexists true, _. split; [reflexivity|]. intros _. cbn. by apply readPkt_consumes in E.
Qed.

(** The rounds a state needs beyond the bytes left. *)
Definition weight (f : decoderStateFn) : nat :=
  match f with decodeFirstHash => 0 | decodeSkipNoRefs | decodeFirstRef => 3 | decodeCaps => 2 | decodeOtherRefs | decodeShallow => 1 end.

Lemma adv_state_total f d : exists next d', adv_state pool f d = Ok (next, d') /\
  (forall f', next = Some f' -> (length (ad_s d') + weight f' < length (ad_s d) + weight f)%nat).
Proof.
  assert (forall (P : option decoderStateFn -> advRefsDecoder -> Prop) d', P None d' ->
    exists next d1, Ok (@None decoderStateFn, d') = Ok (next, d1) /\ P next d1) as stop by eauto.
  destruct f; cbn [adv_state].
  - unfold adv_decodeFirstHash. destruct (adv_nextLine_total d) as ([] & d1 & E & H); rewrite E; cbn [res_bind negb]; [|by apply stop].
    destruct (isFlush _); [by apply stop|]. destruct (Z.ltb_spec (len (ad_line d1)) hashSize); [by apply stop|].
    unfold hashSize in *. take_slice. destruct (FromHex x) as [h []]; cbn [negb]; [|by apply stop]. take_slice.
    specialize (H eq_refl). destruct (IsZero h); do 2 eexists; (split; [reflexivity|]); intros f' [= <-]; cbn; lia.
  - unfold adv_decodeSkipNoRefs. destruct (Z.ltb_spec (len (ad_line d)) (len kw_noHeadMark)); [by apply stop|].
    destruct (HasPrefix _ _); cbn [negb]; [|by apply stop]. change (len kw_noHeadMark) with 17 in *. take_slice.
    do 2 eexists. split; [reflexivity|]. intros f' [= <-]. cbn. lia.
  - unfold adv_decodeFirstRef. destruct (Z.ltb_spec (len (ad_line d)) 3); [by apply stop|].
    destruct (HasPrefix _ _); cbn [negb]; [|by apply stop]. take_slice.
    destruct (SplitN2 x x00) as [ref [line|]]; [|by apply stop].
    do 2 eexists. split; [reflexivity|]. intros f' [= <-]. cbn. lia.
  - unfold adv_decodeCaps. destruct (List_Decode _ _) as [[e|] c]; [by apply stop|].
    do 2 eexists. split; [reflexivity|]. intros f' [= <-]. cbn. lia.
  - unfold adv_decodeOtherRefs. destruct (adv_nextLine_total d) as ([] & d1 & E & H); rewrite E; cbn [res_bind negb]; [|by apply stop].
    specialize (H eq_refl). destruct (HasPrefix _ _); [do 2 eexists; split; [reflexivity|]; intros f' [= <-]; cbn; lia|].
    destruct (_ =? 0); [by apply stop|]. cbv zeta. set (d2 := if HasSuffix _ _ then _ else d1).
    assert (ad_s d2 = ad_s d1) as Hs by (unfold d2; by destruct (HasSuffix _ _)). clearbody d2.
    assert (forall l, (exists x, readRef l = Ok x) \/ exists e, readRef l = Err e) as Hr.
    { intros l. unfold readRef. destruct (Split l x20) as [|? [|? [|? ?]]]; eauto. }
    destruct (Hr (ad_line d2)) as [[[ref hash] ->]|[e ->]]; [|by apply stop].
    do 2 eexists. split; [reflexivity|]. intros f' [= <-]. cbn. rewrite Hs. lia.
  - unfold adv_decodeShallow. destruct (HasPrefix _ _); cbn [negb]; [|by apply stop]. cbv zeta. cbn [ad_line ad_set_line].
    destruct (Z.eqb_spec (len (TrimPrefix (ad_line d) kw_shallow)) hashSize); cbn [negb]; [|by apply stop]. unfold hashSize in *.
    take_slice. destruct (FromHex x) as [h []]; cbn [negb]; [|by apply stop].
    match goal with |- context [adv_nextLine pool ?d0] => destruct (adv_nextLine_total d0) as ([] & d1 & E1 & H); rewrite E1; cbn [res_bind negb]; [|by apply stop] end.
    specialize (H eq_refl). cbn in H. destruct (_ =? 0); [by apply stop|].
    do 2 eexists. split; [reflexivity|]. intros f' [= <-]. cbn. lia.
Qed.

Lemma adv_run_total n f d : (length (ad_s d) + weight f < n)%nat -> exists d', adv_run pool n f d = Ok d'.
Proof.
  apply (runStates_total (adv_state pool) (fun f d => length (ad_s d) + weight f)%nat). apply adv_state_total.
Qed.

(** Decoding an advertised-refs message ends on every input, with the message or an error, and does
    not panic, as long as no buffer of the pool turns a short packet into an error line. *)
Theorem advrefs_decode_total a r : exists o, AdvRefs_Decode pool a r = Ok o.
Proof.
  unfold AdvRefs_Decode. destruct (adv_run_total (length r + 4) decodeFirstHash (newAdvRefsDecoder r a)) as [d E]; [cbn; lia|].
  rewrite E. cbn. eauto.
Qed.
End Run.

(** ** The text of an identifier *)

(** A SHA-1 identifier, the kind the protocol's fixed hash size is for. *)
Definition sha1_id (h : ObjectID) : Prop := wf_id h /\ oformat h = SHA1.

Definition hexByte (b : byte) : bool := let z := b2z b in (48 <=? z) && (z <=? 57) || (97 <=? z) && (z <=? 102).

Lemma hexDigit_hexByte n : 0 <= n < 16 -> hexByte (hexDigit n) = true.
Proof.
  intros H. unfold hexByte, hexDigit. cbv zeta. rewrite orb_true_iff, !andb_true_iff, !Z.leb_le.
  destruct (Z.ltb_spec n 10); rewrite z2b_small by lia; lia.
Qed.

Lemma EncodeToString_hex b : Forall (fun c => hexByte c = true) (EncodeToString b).
Proof.
  induction b as [|x b IH]; [constructor|]. unfold EncodeToString in *. cbn. pose proof (nibbles x) as (H1 & H2 & _).
  repeat constructor; [by apply hexDigit_hexByte..|exact IH].
Qed.

Lemma sha1_String h : sha1_id h ->
  len (ObjectID_String h) = 40 /\ FromHex (ObjectID_String h) = (h, true) /\ Forall (fun c => hexByte c = true) (ObjectID_String h).
Proof.
  intros [Hw Hf]. split; [|split; [by apply FromHex_String|apply EncodeToString_hex]].
  unfold ObjectID_String. rewrite EncodeToString_len. destruct (wf_bytes h Hw) as (Hl & _).
  unfold ObjectID_Size in Hl. rewrite Hf in Hl. change (format_Size SHA1) with 20 in Hl. lia.
Qed.

Lemma hex_notin h (c : byte) : hexByte c = false -> c ∉ ObjectID_String h.
Proof.
  intros Hc Hin. pose proof (EncodeToString_hex (ObjectID_Bytes h)) as H. rewrite Forall_forall in H.
  specialize (H c Hin). congruence.
Qed.

(** A line that begins with an identifier begins with no keyword. *)
Lemma hex_prefix h l (c : byte) k : sha1_id h -> hexByte c = false -> HasPrefix (ObjectID_String h ++ l) (c :: k) = false.
Proof.
  intros Hh Hc. destruct (sha1_String h Hh) as (Hl & _ & Hx). destruct (ObjectID_String h) as [|b s]; [done|].
  apply Forall_cons in Hx as [Hb _]. unfold HasPrefix. cbn. rewrite bool_decide_eq_false_2; [done|]. intros [= -> _]. congruence.
Qed.

Lemma sha1_NewHash h : sha1_id h -> NewHash (ObjectID_String h) = h.
Proof. intros H. unfold NewHash. by destruct (sha1_String h H) as (_ & -> & _). Qed.

(** ** Reading back single lines *)
Section Back.
Context (pool : bytes -> bytes) (pool_size : forall r, len (pool r) = MaxSize).

Definition at_ (d : advRefsDecoder) (s : bytes) (a : AdvRefs) : Prop := ad_s d = s /\ ad_err d = None /\ ad_data d = a.

Lemma adv_nextLine_frame d p r a : at_ d (frame (p ++ kw_eol) ++ r) a -> line_ok (p ++ kw_eol) ->
  exists d', adv_nextLine pool d = Ok (true, d') /\ ad_line d' = p /\ at_ d' r a /\ ad_hash d' = ad_hash d.
Proof.
  intros (Hs & He & Ha) Hp. unfold adv_nextLine. rewrite Hs, readPkt_frame by done. cbn [res_bind].
  unfold kw_eol. rewrite TrimSuffix_snoc. eexists. split; [reflexivity|]. done.
Qed.

Lemma adv_nextLine_flush d r a : at_ d (flushPkt ++ r) a ->
  exists d', adv_nextLine pool d = Ok (true, d') /\ ad_line d' = [] /\ at_ d' r a /\ ad_hash d' = ad_hash d.
Proof.
  intros (Hs & He & Ha). unfold adv_nextLine. rewrite Hs, readPkt_flush by done. cbn [res_bind].
  eexists. split; [reflexivity|]. done.
Qed.

(** From a state that reads its own line: the decoder gets there. *)
Definition reach (s : bytes) (a : AdvRefs) (s' : bytes) (a' : AdvRefs) : Prop :=
  forall d, at_ d s a -> exists d', runs (adv_state pool) decodeOtherRefs d d' /\ at_ d' s' a'.

Definition addRef (a : AdvRefs) (n : bytes) (h : ObjectID) : AdvRefs :=
  mkAdvRefs (Head a) (Capabilities a) (<[n := h]> (References a)) (Peeled a) (Shallows a).
Definition addPeeled (a : AdvRefs) (n : bytes) (h : ObjectID) : AdvRefs :=
  mkAdvRefs (Head a) (Capabilities a) (References a) (<[n := h]> (Peeled a)) (Shallows a).

Lemma readRef_line h n : sha1_id h -> x20 ∉ n -> readRef (ObjectID_String h ++ kw_sp ++ n) = Ok (n, h).
Proof.
  intros Hh Hn. unfold readRef, kw_sp. cbn [app]. rewrite Split_cons by by apply hex_notin.
  rewrite Split_single by done. by rewrite sha1_NewHash.
Qed.

(** The names that can be sent. *)
Definition name_ok (n : bytes) : Prop := n <> [] /\ x20 ∉ n /\ x00 ∉ n /\ HasSuffix n kw_peeled = false /\ n <> kw_head.

Lemma reach_ref h n a r s' a' : sha1_id h -> name_ok n -> line_ok (ObjectID_String h ++ kw_sp ++ n ++ kw_eol) ->
  reach r (addRef a n h) s' a' -> reach (frame (ObjectID_String h ++ kw_sp ++ n ++ kw_eol) ++ r) a s' a'.
Proof.
  intros Hh (Hn0 & Hn & _ & Hp & _) Hl Hr d Hd.
  rewrite (app_assoc kw_sp), (app_assoc (ObjectID_String h)) in Hd, Hl.
  destruct (adv_nextLine_frame d _ r a Hd Hl) as (d1 & E & L & H1 & _).
  destruct (Hr (ad_set_data d1 (addRef a n h))) as (d' & Hrun & Hat); [by destruct H1 as (? & ? & ?)|].
  exists d'. split; [|done]. eapply runs_step; [|exact Hrun]. cbn [adv_state]. unfold adv_decodeOtherRefs.
  rewrite E. cbn [res_bind negb]. rewrite L. change kw_shallow with (x73 :: bs "hallow "). rewrite hex_prefix by done.
  destruct (sha1_String h Hh) as (Hlen & _).
  destruct (Z.eqb_spec (len (ObjectID_String h ++ kw_sp ++ n)) 0) as [Z|_]; [rewrite len_app in Z; pose proof (len_nonneg (kw_sp ++ n)); lia|].
  assert (HasSuffix (ObjectID_String h ++ kw_sp ++ n) kw_peeled = false) as ->.
  { unfold kw_sp. cbn [app]. rewrite HasSuffix_nosep; [done|]. by_decision. }
  rewrite L, readRef_line by done. by destruct H1 as (_ & _ & ->).
Qed.

Lemma reach_peeled h n a r s' a' : sha1_id h -> name_ok n -> line_ok (ObjectID_String h ++ kw_sp ++ n ++ kw_peeled ++ kw_eol) ->
  reach r (addPeeled a n h) s' a' -> reach (frame (ObjectID_String h ++ kw_sp ++ n ++ kw_peeled ++ kw_eol) ++ r) a s' a'.
Proof.
  intros Hh (Hn0 & Hn & _ & _ & _) Hl Hr d Hd.
  rewrite (app_assoc n), (app_assoc kw_sp), (app_assoc (ObjectID_String h)) in Hd, Hl.
  destruct (adv_nextLine_frame d _ r a Hd Hl) as (d1 & E & L & H1 & _).
  set (d2 := ad_set_line d1 (ObjectID_String h ++ kw_sp ++ n)).
  destruct (Hr (ad_set_data d2 (addPeeled a n h))) as (d' & Hrun & Hat); [by destruct H1 as (? & ? & ?)|].
  exists d'. split; [|done]. eapply runs_step; [|exact Hrun]. cbn [adv_state]. unfold adv_decodeOtherRefs.
  rewrite E. cbn [res_bind negb]. rewrite L. change kw_shallow with (x73 :: bs "hallow "). rewrite hex_prefix by done.
  destruct (sha1_String h Hh) as (Hlen & _).
  destruct (Z.eqb_spec (len (ObjectID_String h ++ kw_sp ++ n ++ kw_peeled)) 0) as [Z|_]; [rewrite len_app in Z; pose proof (len_nonneg (kw_sp ++ n ++ kw_peeled)); lia|].
  assert (ObjectID_String h ++ kw_sp ++ n ++ kw_peeled = (ObjectID_String h ++ kw_sp ++ n) ++ kw_peeled) as Eq by (by rewrite !app_assoc).
  rewrite Eq. assert (HasSuffix ((ObjectID_String h ++ kw_sp ++ n) ++ kw_peeled) kw_peeled = true) as Hsuf by (apply HasSuffix_true; eauto).
  rewrite Hsuf. assert (TrimSuffix ((ObjectID_String h ++ kw_sp ++ n) ++ kw_peeled) kw_peeled = ObjectID_String h ++ kw_sp ++ n) as ->.
  { unfold TrimSuffix. rewrite Hsuf, length_app. apply take_app_length'. lia. }
  cbn [ad_line ad_set_line]. rewrite readRef_line by done. unfold d2. cbn. by destruct H1 as (_ & _ & ->).
Qed.

Lemma reach_flush a r : reach (flushPkt ++ r) a r a.
Proof.
  intros d Hd. destruct (adv_nextLine_flush d r a Hd) as (d1 & E & L & H1 & _). exists d1. split; [|done].
  apply runs_done. cbn [adv_state]. unfold adv_decodeOtherRefs. rewrite E. cbn [res_bind negb]. rewrite L. done.
Qed.

Definition addShallows (a : AdvRefs) (hs : list ObjectID) : AdvRefs :=
  mkAdvRefs (Head a) (Capabilities a) (References a) (Peeled a) (Shallows a ++ hs).
Definition shallowLine (h : ObjectID) : bytes := bs "shallow " ++ ObjectID_String h ++ kw_eol.

Lemma runs_shallows hs : Forall sha1_id hs -> Forall (fun h => line_ok (shallowLine h)) hs ->
  forall h d a r, sha1_id h -> ad_line d = kw_shallow ++ ObjectID_String h -> at_ d (frames (map shallowLine hs) ++ flushPkt ++ r) a ->
  exists d', runs (adv_state pool) decodeShallow d d' /\ at_ d' r (addShallows a (h :: hs)).
Proof.
  induction hs as [|h2 hs IH]; intros Hhs Hok h d a r Hh L Hd.
  all: destruct (sha1_String h Hh) as (Hlen & Hhex & _).
  all: assert (forall d2, adv_nextLine pool (ad_set_data (ad_set_line d (ObjectID_String h)) (addShallows a [h])) = Ok (true, d2) ->
      adv_state pool decodeShallow d = if len (ad_line d2) =? 0 then Ok (None, d2) else Ok (Some decodeShallow, d2)) as Hstate.
  1, 3: intros d2 E; cbn [adv_state]; unfold adv_decodeShallow; rewrite L, HasPrefix_self; cbn [negb];
    assert (TrimPrefix (kw_shallow ++ ObjectID_String h) kw_shallow = ObjectID_String h) as -> by
      (unfold TrimPrefix; rewrite HasPrefix_self; apply drop_app_length);
    cbv zeta; cbn [ad_line ad_set_line]; rewrite Hlen; change (40 =? hashSize) with true; cbn [negb];
    rewrite (slice_ok (ObjectID_String h) 0 hashSize) by (unfold hashSize; lia); unfold hashSize; rewrite <- Hlen, seg_full; cbn [res_bind];
    rewrite Hhex; cbn [negb]; destruct Hd as (Hs & He & Ha); cbn [ad_data ad_set_line]; rewrite Ha;
    change (mkAdvRefs _ _ _ _ _) with (addShallows a [h]); rewrite E; done.
  - assert (at_ (ad_set_data (ad_set_line d (ObjectID_String h)) (addShallows a [h])) (flushPkt ++ r) (addShallows a [h])) as H1 by (by destruct Hd as (? & ? & ?)).
    destruct (adv_nextLine_flush _ _ _ H1) as (d2 & E & L2 & H2 & _). specialize (Hstate d2 E). rewrite L2 in Hstate.
    exists d2. split; [by apply runs_done|done].
  - apply Forall_cons in Hhs as [Hh2 Hhs]. apply Forall_cons in Hok as [Hok2 Hok].
    assert (at_ (ad_set_data (ad_set_line d (ObjectID_String h)) (addShallows a [h])) (frame (shallowLine h2) ++ frames (map shallowLine hs) ++ flushPkt ++ r) (addShallows a [h])) as H1.
    { destruct Hd as (Hd & ? & ?). split; [|done]. cbn. rewrite Hd. unfold frames. cbn. by rewrite <- app_assoc. }
    unfold shallowLine in H1 at 1, Hok2. rewrite (app_assoc (bs "shallow ")) in H1, Hok2.
    destruct (adv_nextLine_frame _ _ _ _ H1 Hok2) as (d2 & E & L2 & H2 & _). specialize (Hstate d2 E). rewrite L2 in Hstate.
    destruct (IH Hhs Hok h2 d2 _ r Hh2 L2 H2) as (d' & Hr & Hat). exists d'. split; [eapply runs_step; [exact Hstate|exact Hr]|].
    unfold addShallows in Hat |- *. cbn in Hat. by rewrite <- app_assoc in Hat.
Qed.

Lemma reach_shallows hs a r : Forall sha1_id hs -> Forall (fun h => line_ok (shallowLine h)) hs ->
  reach (frames (map shallowLine hs) ++ flushPkt ++ r) a r (addShallows a hs).
Proof.
  intros Hhs Hok. destruct hs as [|h hs].
  - cbn. replace (addShallows a []) with a by (unfold addShallows; rewrite app_nil_r; by destruct a). apply reach_flush.
  - intros d Hd. apply Forall_cons in Hhs as [Hh Hhs]. apply Forall_cons in Hok as [Hokh Hok].
    assert (at_ d (frame ((bs "shallow " ++ ObjectID_String h) ++ kw_eol) ++ frames (map shallowLine hs) ++ flushPkt ++ r) a) as H1.
    { destruct Hd as (Hd & ? & ?). split; [|done]. rewrite Hd. unfold frames, shallowLine. cbn [map concat]. by rewrite <- !app_assoc. }
    unfold shallowLine in Hokh. rewrite (app_assoc (bs "shallow ")) in Hokh.
    destruct (adv_nextLine_frame d _ _ a H1 Hokh) as (d1 & E & L & H2 & _).
    destruct (runs_shallows hs Hhs Hok h d1 a r Hh L H2) as (d' & Hr & Hat). exists d'. split; [|done].
    eapply runs_step; [|exact Hr]. cbn [adv_state]. unfold adv_decodeOtherRefs. rewrite E. cbn [res_bind negb].
    rewrite L. change (bs "shallow ") with kw_shallow. by rewrite HasPrefix_self.
Qed.
End Back.

(** ** What an encoder has written *)

Lemma Writef_inv w p w' : Writef w p = Ok w' -> 4 <= len p -> HasPrefix p errPrefix = false -> line_ok p /\ w' = w ++ frame p.
Proof.
  unfold Writef, Write. intros H Hl He. destruct (Z.eqb_spec (len p) 0); [lia|].
  destruct (Z.gtb_spec (len p) MaxPayloadSize); [discriminate H|]. injection H as <-. split; [split; [lia|done]|done].
Qed.

Lemma Writefs_inv ps : Forall (fun p => 4 <= len p /\ HasPrefix p errPrefix = false) ps ->
  forall w w', Writefs w ps = Ok w' -> Forall line_ok ps /\ w' = w ++ frames ps.
Proof.
  induction 1 as [|p ps [Hl He] Hps IH]; intros w w' H; cbn in H.
  - injection H as <-. by rewrite app_nil_r.
  - inv_bind H. destruct (Writef_inv _ _ _ E Hl He) as [Hok ->]. destruct (IH _ _ H) as [Hoks ->].
    split; [by constructor|]. unfold frames. cbn. by rewrite <- app_assoc.
Qed.

Lemma hash_line h l : sha1_id h -> 4 <= len (ObjectID_String h ++ l) /\ HasPrefix (ObjectID_String h ++ l) errPrefix = false.
Proof.
  intros Hh. destruct (sha1_String h Hh) as (Hl & _). split; [rewrite len_app; pose proof (len_nonneg l); lia|].
  change errPrefix with (x45 :: bs "RR "). by apply hex_prefix.
Qed.

Lemma sortShallows_hashes hs : exists hs', hs' ≡ₚ hs /\ sortShallows hs = map ObjectID_String hs'.
Proof.
  unfold sortShallows, sortStrings. destruct (Permutation_map_inv ObjectID_String (l1 := insertionSort (fun a b => compareBytes a b <? 0) (map ObjectID_String hs)) hs) as (hs' & H1 & H2).
  - apply insertionSort_perm.
  - by exists hs'.
Qed.

Section Roundtrip.
Context (pool : bytes -> bytes) (pool_size : forall r, len (pool r) = MaxSize).

(** *** The first line *)

Definition setCaps (a : AdvRefs) (c : CapList) : AdvRefs := mkAdvRefs (Head a) c (References a) (Peeled a) (Shallows a).
Definition firstRef (a : AdvRefs) (n : bytes) (h : ObjectID) : AdvRefs :=
  if bool_decide (n = kw_head) then mkAdvRefs (Some h) (Capabilities a) (References a) (Peeled a) (Shallows a) else addRef a n h.

Lemma runs_caps d c caps r a s' a' : ad_line d = c -> at_ d r a -> List_Decode (Capabilities a) c = (None, caps) ->
  reach pool r (setCaps a caps) s' a' -> exists d', runs (adv_state pool) decodeCaps d d' /\ at_ d' s' a'.
Proof.
  intros L (Hs & He & Ha) Hc Hr. destruct (Hr (ad_set_data d (setCaps a caps))) as (d' & Hrun & Hat); [done|].
  exists d'. split; [|done]. eapply runs_step; [|exact Hrun]. cbn [adv_state]. unfold adv_decodeCaps.
  by rewrite Ha, L, Hc.
Qed.

Lemma runs_hash d h l r a : sha1_id h -> at_ d (frame ((ObjectID_String h ++ l) ++ kw_eol) ++ r) a ->
  line_ok ((ObjectID_String h ++ l) ++ kw_eol) ->
  exists d1, at_ d1 r a /\ ad_line d1 = l /\ ad_hash d1 = h /\
    adv_state pool decodeFirstHash d = Ok (Some (if IsZero h then decodeSkipNoRefs else decodeFirstRef), d1).
Proof.
  intros Hh Hd Hl. destruct (adv_nextLine_frame pool pool_size d _ r a Hd Hl) as (d1 & E & L & H1 & _).
  exists (ad_set_line (ad_set_hash d1 h) l). split; [by destruct H1|]. do 2 (split; [done|]).
  cbn [adv_state]. unfold adv_decodeFirstHash. rewrite E. cbn [res_bind negb]. rewrite L.
  destruct (sha1_String h Hh) as (Hlen & Hhex & _). pose proof (len_nonneg l). pose proof (len_app (ObjectID_String h) l).
  unfold isFlush, hashSize. destruct (Z.eqb_spec (len (ObjectID_String h ++ l)) 0); [lia|].
  destruct (Z.ltb_spec (len (ObjectID_String h ++ l)) 40); [lia|]. rewrite <- Hlen at 1. rewrite slice_app_l. cbn [res_bind].
  rewrite Hhex. cbn [negb]. rewrite slice_app_r by done. cbn [res_bind]. by destruct (IsZero h).
Qed.

Lemma runs_first_ref d h n c caps r a s' a' : sha1_id h -> IsZero h = false -> n <> [] -> x00 ∉ n ->
  line_ok (ObjectID_String h ++ kw_sp ++ n ++ [x00] ++ c ++ kw_eol) ->
  at_ d (frame (ObjectID_String h ++ kw_sp ++ n ++ [x00] ++ c ++ kw_eol) ++ r) a ->
  List_Decode (Capabilities a) c = (None, caps) -> reach pool r (setCaps (firstRef a n h) caps) s' a' ->
  exists d', runs (adv_state pool) decodeFirstHash d d' /\ at_ d' s' a'.
Proof.
  intros Hh Hz Hn0 Hn Hl Hd Hc Hr.
  rewrite (app_assoc [x00]), (app_assoc n), (app_assoc kw_sp), (app_assoc (ObjectID_String h)) in Hd, Hl.
  destruct (runs_hash d h _ r a Hh Hd Hl) as (d1 & H1 & L1 & Hh1 & E1). rewrite Hz in E1.
  set (d2 := ad_set_data (ad_set_line d1 c) (firstRef a n h)).
  destruct (runs_caps d2 c caps r (firstRef a n h) s' a') as (d' & Hrun & Hat); [done|by destruct H1 as (? & ? & ?)| |done|].
  { unfold firstRef. by case_bool_decide. }
  exists d'. split; [|done]. eapply runs_step; [exact E1|]. eapply runs_step; [|exact Hrun].
  cbn [adv_state]. unfold adv_decodeFirstRef. rewrite L1. pose proof (len_nonneg c).
  assert (0 < len n) by (destruct n; [done|rewrite len_cons; pose proof (len_nonneg n); lia]).
  assert (len (kw_sp ++ n ++ [x00] ++ c) = 2 + len n + len c) as HL. { rewrite !len_app. change (len kw_sp) with 1. change (len [x00]) with 1. lia. }
  rewrite HL. destruct (Z.ltb_spec (2 + len n + len c) 3); [lia|]. rewrite HasPrefix_self. cbn [negb].
  rewrite (slice_app_r kw_sp) by (done || by rewrite HL). cbn [res_bind app]. rewrite SplitN2_app by done.
  unfold d2, firstRef, addRef. cbn. destruct H1 as (_ & _ & ->). rewrite Hh1. by case_bool_decide.
Qed.

Lemma runs_no_refs d c caps r a s' a' :
  line_ok (ObjectID_String ZeroHash ++ kw_sp ++ bs "capabilities^{}" ++ [x00] ++ c ++ kw_eol) ->
  at_ d (frame (ObjectID_String ZeroHash ++ kw_sp ++ bs "capabilities^{}" ++ [x00] ++ c ++ kw_eol) ++ r) a ->
  List_Decode (Capabilities a) c = (None, caps) -> reach pool r (setCaps a caps) s' a' ->
  exists d', runs (adv_state pool) decodeFirstHash d d' /\ at_ d' s' a'.
Proof.
  intros Hl Hd Hc Hr. assert (sha1_id ZeroHash) as Hz by (split; [split; [done|right; done]|done]).
  rewrite (app_assoc [x00]), (app_assoc (bs "capabilities^{}")), (app_assoc kw_sp), (app_assoc (ObjectID_String ZeroHash)) in Hd, Hl.
  destruct (runs_hash d ZeroHash _ r a Hz Hd Hl) as (d1 & H1 & L1 & Hh1 & E1). change (IsZero ZeroHash) with true in E1.
  destruct (runs_caps (ad_set_line d1 c) c caps r a s' a') as (d' & Hrun & Hat); [done|by destruct H1 as (? & ? & ?)|done..|].
  exists d'. split; [|done]. eapply runs_step; [exact E1|]. eapply runs_step; [|exact Hrun].
  cbn [adv_state]. unfold adv_decodeSkipNoRefs. rewrite L1.
  change (kw_sp ++ bs "capabilities^{}" ++ [x00] ++ c) with (kw_noHeadMark ++ c). rewrite HasPrefix_self. cbn [negb].
  destruct (Z.ltb_spec (len (kw_noHeadMark ++ c)) (len kw_noHeadMark)); [rewrite len_app in *; pose proof (len_nonneg c); lia|].
  by rewrite (slice_app_r kw_noHeadMark).
Qed.

(** *** The other lines *)

Definition addNamed (e : advRefsEncoder) (a : AdvRefs) (n : bytes) : AdvRefs :=
  if bool_decide (n = firstRefName e) then a
  else let a := addRef a n (default ZeroHash (References (ae_data e) !! n)) in
       match Peeled (ae_data e) !! n with Some h => addPeeled a n h | None => a end.

Lemma encodeShallow_reach e hs w w' : Forall sha1_id hs -> sortShallows (Shallows (ae_data e)) = map ObjectID_String hs ->
  adv_encodeShallow e w = Ok w' ->
  exists s, w' = w ++ s /\ forall a r, reach pool (s ++ r) a r (addShallows a hs).
Proof.
  intros Hhs Hsort H. unfold adv_encodeShallow in H. rewrite Hsort, map_map in H. inv_bind H. injection H as <-.
  apply (Writefs_inv (map shallowLine hs)) in E as [Hok ->].
  - rewrite Forall_map in Hok. exists (frames (map shallowLine hs) ++ flushPkt). split; [by rewrite <- app_assoc|].
    intros a r. rewrite <- app_assoc. by apply reach_shallows.
  - apply Forall_map, Forall_forall. intros h Hh. rewrite Forall_forall in Hhs. destruct (sha1_String h (Hhs h Hh)) as (Hl & _).
    split; [|done]. unfold shallowLine. rewrite !len_app, Hl. vm_compute (len (bs "shallow ")). pose proof (len_nonneg kw_eol). lia.
Qed.

Lemma encodeRefs_reach e hs w' refs : Forall sha1_id hs -> sortShallows (Shallows (ae_data e)) = map ObjectID_String hs ->
  Forall (fun n => name_ok n /\ exists h, References (ae_data e) !! n = Some h /\ sha1_id h) refs ->
  map_Forall (fun _ h => sha1_id h) (Peeled (ae_data e)) ->
  forall w, adv_encodeRefs_loop e refs w = Ok w' ->
  exists s, w' = w ++ s /\ forall a r, reach pool (s ++ r) a r (addShallows (foldl (addNamed e) a refs) hs).
Proof.
  intros Hhs Hsort Hrefs Hp. induction Hrefs as [|n refs (Hn & h & Hh & Hsha) Hrefs IH]; intros w H; cbn [adv_encodeRefs_loop] in H.
  - by apply (encodeShallow_reach e hs).
  - cbn [foldl]. unfold addNamed at 2. destruct (bool_decide (n = firstRefName e)); [by apply IH|].
    rewrite Hh in H |- *. cbn [default] in H |- *. inv_bind H. destruct (hash_line h (kw_sp ++ n ++ kw_eol) Hsha) as [Hl He].
    destruct (Writef_inv _ _ _ E Hl He) as [Hok ->]. destruct (Peeled (ae_data e) !! n) as [hp|] eqn:Ep.
    + inv_bind H. pose proof (Hp _ _ Ep) as Hsp. destruct (hash_line hp (kw_sp ++ n ++ kw_peeled ++ kw_eol) Hsp) as [Hl2 He2].
      destruct (Writef_inv _ _ _ E0 Hl2 He2) as [Hok2 ->]. destruct (IH _ H) as (s & -> & Hs).
      eexists. split; [by rewrite <- !app_assoc|]. intros a r. rewrite <- !app_assoc.
      apply reach_ref; [done..|]. apply reach_peeled; [done..|]. apply Hs.
    + destruct (IH _ H) as (s & -> & Hs). eexists. split; [by rewrite <- !app_assoc|]. intros a r. rewrite <- !app_assoc.
      apply reach_ref; [done..|]. apply Hs.
Qed.
End Roundtrip.

(** ** The whole message *)

(** The messages that survive: names and identifiers the lines can carry, peeled
    values of advertised references only, and none for the reference of the
    first line. *)
Record adv_ok (a : AdvRefs) : Prop := {
  ao_caps : caps_ok (Capabilities a) /\ caps_complete (Capabilities a) /\ caps_printable (Capabilities a);
  ao_head : forall h, Head a = Some h -> sha1_id h /\ IsZero h = false;
  ao_refs : map_Forall (fun n h => name_ok n /\ sha1_id h /\ IsZero h = false) (References a);
  ao_peeled : map_Forall (fun n h => is_Some (References a !! n) /\ sha1_id h) (Peeled a);
  ao_first : Head a = None -> forall n ns, sortRefs (References a) = n :: ns -> Peeled a !! n = None;
  ao_shallows : Forall sha1_id (Shallows a) }.

Lemma sortRefs_in refs n : n ∈ sortRefs refs <-> is_Some (refs !! n).
Proof.
  unfold sortRefs, sortStrings. rewrite insertionSort_perm, list_elem_of_fmap. split.
  - intros ([n' h] & -> & H%elem_of_map_to_list). cbn. eauto.
  - intros [h H]. exists (n, h). split; [done|]. by apply elem_of_map_to_list.
Qed.

Lemma addNamed_fields e refs : forall a,
  Head (foldl (addNamed e) a refs) = Head a /\ Capabilities (foldl (addNamed e) a refs) = Capabilities a /\
  Shallows (foldl (addNamed e) a refs) = Shallows a.
Proof.
  induction refs as [|n refs IH]; intros a; cbn; [done|]. destruct (IH (addNamed e a n)) as (-> & -> & ->).
  unfold addNamed. case_bool_decide; [done|]. cbv zeta. by destruct (Peeled (ae_data e) !! n).
Qed.

Lemma addNamed_maps e refs : Forall (fun n => is_Some (References (ae_data e) !! n)) refs -> forall a n,
  References (foldl (addNamed e) a refs) !! n =
    (if bool_decide (n ∈ refs /\ n <> firstRefName e) then References (ae_data e) !! n else References a !! n) /\
  Peeled (foldl (addNamed e) a refs) !! n =
    (if bool_decide (n ∈ refs /\ n <> firstRefName e /\ is_Some (Peeled (ae_data e) !! n)) then Peeled (ae_data e) !! n else Peeled a !! n).
Proof.
  induction 1 as [|m refs [hm Hm] Hrefs IH]; intros a n; cbn [foldl].
  - rewrite !bool_decide_eq_false_2 by set_solver. done.
  - destruct (IH (addNamed e a m) n) as [-> ->]. destruct (decide (m = firstRefName e)) as [Em|Em].
    + unfold addNamed. rewrite (bool_decide_eq_true_2 (m = firstRefName e)) by done.
      rewrite (bool_decide_ext (n ∈ refs /\ n <> firstRefName e) (n ∈ m :: refs /\ n <> firstRefName e)) by set_solver.
      rewrite (bool_decide_ext (n ∈ refs /\ n <> firstRefName e /\ is_Some _) (n ∈ m :: refs /\ n <> firstRefName e /\ is_Some (Peeled (ae_data e) !! n))) by set_solver.
      done.
    + unfold addNamed. rewrite (bool_decide_eq_false_2 (m = firstRefName e)) by done. cbv zeta. rewrite Hm. cbn [default].
      destruct (decide (n = m)) as [->|Hnm].
      * rewrite (bool_decide_eq_true_2 (m ∈ m :: refs /\ m <> firstRefName e)) by set_solver. split.
        -- destruct (Peeled (ae_data e) !! m); cbn; rewrite lookup_insert_eq, Hm; by destruct (bool_decide _).
        -- destruct (Peeled (ae_data e) !! m) eqn:Ep; cbn.
           ++ rewrite lookup_insert_eq, (bool_decide_eq_true_2 (m ∈ m :: refs /\ _)) by (split; [set_solver|eauto]). by destruct (bool_decide _).
           ++ rewrite !(bool_decide_eq_false_2 (_ /\ m <> _ /\ is_Some None)) by (intros (_ & _ & [? ?]); done). done.
      * rewrite (bool_decide_ext (n ∈ refs /\ n <> firstRefName e) (n ∈ m :: refs /\ n <> firstRefName e)) by set_solver.
        rewrite (bool_decide_ext (n ∈ refs /\ n <> firstRefName e /\ is_Some _) (n ∈ m :: refs /\ n <> firstRefName e /\ is_Some (Peeled (ae_data e) !! n))) by set_solver.
        destruct (Peeled (ae_data e) !! m); cbn; by rewrite !lookup_insert_ne.
Qed.

(** The references of the first line and the others give the message back. *)
Lemma addNamed_all e a0 a : ae_data e = a -> sortedRefs e = sortRefs (References a) ->
  References a0 = (match References a !! firstRefName e with Some h => {[firstRefName e := h]} | None => ∅ end) ->
  Peeled a0 = ∅ -> (forall n, is_Some (Peeled a !! n) -> is_Some (References a !! n) /\ n <> firstRefName e) ->
  References (foldl (addNamed e) a0 (sortedRefs e)) = References a /\ Peeled (foldl (addNamed e) a0 (sortedRefs e)) = Peeled a.
Proof.
  intros <- Hs HR HP Hp. set (a := ae_data e) in *.
  assert (Forall (fun n => is_Some (References a !! n)) (sortedRefs e)) as Hall.
  { apply Forall_forall. intros n Hn. apply sortRefs_in. by rewrite <- Hs. }
  pose proof (addNamed_maps e _ Hall a0) as H. fold a in H. split; apply map_eq; intros n.
  - rewrite (proj1 (H n)). case_bool_decide as Hb; [done|]. rewrite HR, Hs, sortRefs_in in *.
    destruct (decide (n = firstRefName e)) as [->|Hn].
    + destruct (References a !! firstRefName e); [apply lookup_singleton_eq|apply lookup_empty].
    + assert (References a !! n = None) as -> by (apply eq_None_not_Some; tauto).
      destruct (References a !! firstRefName e); [by apply lookup_singleton_ne|apply lookup_empty].
  - rewrite (proj2 (H n)). case_bool_decide as Hb; [done|]. rewrite HP, lookup_empty. symmetry. apply eq_None_not_Some. intros Hpn.
    apply Hb. rewrite Hs, sortRefs_in. by destruct (Hp n Hpn).
Qed.

Section Message.
Context (pool : bytes -> bytes) (pool_size : forall r, len (pool r) = MaxSize) (pool_clean : forall r, ~ stale_error r (pool r)).

Lemma setFirstRef_fields a : ae_data (setFirstRef a) = a /\ sortedRefs (setFirstRef a) = sortRefs (References a).
Proof. unfold setFirstRef. destruct (Head a); [done|]. by destruct (sortRefs (References a)). Qed.

Lemma refs_carried a : adv_ok a ->
  Forall (fun n => name_ok n /\ exists h, References a !! n = Some h /\ sha1_id h) (sortRefs (References a)).
Proof.
  intros Ha. apply Forall_forall. intros n [h Hn]%sortRefs_in. destruct (ao_refs _ Ha _ _ Hn) as (? & ? & _). eauto.
Qed.

(** What the first line is about: [HEAD], the first name, or nothing. *)
Lemma first_cases a : adv_ok a -> let e := setFirstRef a in
  (Head a = Some (firstRefHash e) /\ firstRefName e = kw_head /\ sha1_id (firstRefHash e) /\ IsZero (firstRefHash e) = false /\
     References a !! firstRefName e = None /\ Peeled a !! firstRefName e = None) \/
  (Head a = None /\ name_ok (firstRefName e) /\ sha1_id (firstRefHash e) /\ IsZero (firstRefHash e) = false /\
     References a !! firstRefName e = Some (firstRefHash e) /\ Peeled a !! firstRefName e = None) \/
  (Head a = None /\ firstRefName e = [] /\ References a !! firstRefName e = None /\ Peeled a !! firstRefName e = None).
Proof.
  intros Ha. unfold setFirstRef. pose proof (ao_first _ Ha) as Hf.
  assert (forall n, References a !! n = None -> Peeled a !! n = None) as HP.
  { intros n Hn. apply eq_None_not_Some. intros [h Hh]. destruct (ao_peeled _ Ha _ _ Hh) as [[? ?] _]. congruence. }
  destruct (Head a) as [h|] eqn:Eh; cbn.
  - left. destruct (ao_head _ Ha h Eh). assert (References a !! kw_head = None) as Hn.
    { apply eq_None_not_Some. intros [h' Hh]. destruct (ao_refs _ Ha _ _ Hh) as ((_ & _ & _ & _ & ?) & _). done. }
    auto 10.
  - right. destruct (sortRefs (References a)) as [|n ns] eqn:Es; cbn.
    + right. assert (References a !! [] = None) as Hn.
      { apply eq_None_not_Some. rewrite <- sortRefs_in, Es. set_solver. } auto.
    + left. assert (is_Some (References a !! n)) as [h Hh] by (apply sortRefs_in; rewrite Es; set_solver).
      destruct (ao_refs _ Ha _ _ Hh) as (? & ? & ?). rewrite Hh. cbn. specialize (Hf eq_refl n ns eq_refl). auto 10.
Qed.

Lemma advrefs_runs a e r : adv_ok a -> AdvRefs_Encode a [] = Ok e ->
  exists hs d', hs ≡ₚ Shallows a /\ runs (adv_state pool) decodeFirstHash (newAdvRefsDecoder (e ++ r) NewAdvRefs) d' /\
    at_ d' r (mkAdvRefs (Head a) (Capabilities a) (References a) (Peeled a) hs).
Proof.
  intros Ha H. destruct (sortShallows_hashes (Shallows a)) as (hs & Hperm & Hsort).
  assert (Forall sha1_id hs) as Hhs by (rewrite Hperm; apply (ao_shallows _ Ha)).
  destruct (ao_caps _ Ha) as (Hc1 & Hc2 & Hc3). destruct (List_roundtrip _ Hc1 Hc2 Hc3) as (c & HcS & HcD).
  destruct (setFirstRef_fields a) as [Hd Hsr]. unfold AdvRefs_Encode, adv_encodeFirstLine in H. rewrite Hd, HcS in H. cbn [res_bind] in H.
  inv_bind H. rename v into w1. unfold adv_encodeRefs in H.
  assert (exists s, e = w1 ++ s /\ forall a0 r, reach pool (s ++ r) a0 r (addShallows (foldl (addNamed (setFirstRef a)) a0 (sortRefs (References a))) hs)) as (s & -> & Hs).
  { rewrite Hsr in H. eapply encodeRefs_reach; try exact H; rewrite ?Hd; [done..|by apply refs_carried|].
    intros n h Hn. apply (ao_peeled _ Ha _ _ Hn). }
  exists hs.
  assert (forall a0, Head a0 = Head a -> Capabilities a0 = Capabilities a -> Shallows a0 = [] ->
    References a0 = (match References a !! firstRefName (setFirstRef a) with Some h => {[firstRefName (setFirstRef a) := h]} | None => ∅ end) ->
    Peeled a0 = ∅ -> Peeled a !! firstRefName (setFirstRef a) = None ->
    reach pool (s ++ r) a0 r (mkAdvRefs (Head a) (Capabilities a) (References a) (Peeled a) hs)) as Hreach.
  { intros a0 H1 H2 H3 H4 H5 H6. specialize (Hs a0 r). destruct (addNamed_fields (setFirstRef a) (sortRefs (References a)) a0) as (F1 & F2 & F3).
    destruct (addNamed_all (setFirstRef a) a0 a Hd Hsr H4 H5) as [F4 F5].
    { intros n [h Hn]. split; [by apply (ao_peeled _ Ha _ _ Hn)|]. congruence. }
    rewrite Hsr in F4, F5. unfold addShallows in Hs. by rewrite F1, F2, F3, F4, F5, H1, H2, H3 in Hs. }
  assert (firstRefName (setFirstRef a) <> [] -> sha1_id (firstRefHash (setFirstRef a)) -> IsZero (firstRefHash (setFirstRef a)) = false ->
    x00 ∉ firstRefName (setFirstRef a) ->
    reach pool (s ++ r) (setCaps (firstRef NewAdvRefs (firstRefName (setFirstRef a)) (firstRefHash (setFirstRef a))) (Capabilities a)) r
      (mkAdvRefs (Head a) (Capabilities a) (References a) (Peeled a) hs) ->
    exists d', runs (adv_state pool) decodeFirstHash (newAdvRefsDecoder ((w1 ++ s) ++ r) NewAdvRefs) d' /\
      at_ d' r (mkAdvRefs (Head a) (Capabilities a) (References a) (Peeled a) hs)) as Hnamed.
  { intros Hn0 Hh Hz Hn0c Hr0. rewrite bool_decide_eq_false_2 in E by done.
    destruct (hash_line (firstRefHash (setFirstRef a)) (kw_sp ++ firstRefName (setFirstRef a) ++ [x00] ++ c ++ kw_eol) Hh) as [Hl He].
    destruct (Writef_inv _ _ _ E Hl He) as [Hok ->]. apply (runs_first_ref pool pool_size _ _ _ _ (Capabilities a) (s ++ r) NewAdvRefs) with (1 := Hh) (2 := Hz) (3 := Hn0) (4 := Hn0c) (5 := Hok); [|exact HcD|exact Hr0].
    split; [|done]. cbn. by rewrite <- app_assoc. }
  destruct (first_cases a Ha) as [(Hh & Hn & Hsha & Hz & HR & HP)|[(Hh & Hn & Hsha & Hz & HR & HP)|(Hh & Hn & HR & HP)]].
  - destruct Hnamed as (d' & Hrun & Hat); [by rewrite Hn|done|done|rewrite Hn; by_decision| |eauto 10].
    rewrite Hn in HR, HP. apply Hreach; rewrite ?Hn; unfold firstRef; cbn [setCaps Head Capabilities References Peeled Shallows];
      [by rewrite Hh|done|done|by rewrite HR|done|done].
  - destruct Hn as (Hn0 & _ & Hn00 & _ & Hnh).
    destruct Hnamed as (d' & Hrun & Hat); [done..| |eauto 10].
    unfold firstRef in *. rewrite bool_decide_eq_false_2 by done. apply Hreach; cbn; try done. by rewrite HR.
  - rewrite bool_decide_eq_true_2 in E by done. assert (sha1_id ZeroHash) as Hz by (split; [split; [done|right; done]|done]).
    destruct (hash_line ZeroHash (kw_sp ++ bs "capabilities^{}" ++ [x00] ++ c ++ kw_eol) Hz) as [Hl He].
    destruct (Writef_inv _ _ _ E Hl He) as [Hok ->].
    assert (reach pool (s ++ r) (setCaps NewAdvRefs (Capabilities a)) r (mkAdvRefs (Head a) (Capabilities a) (References a) (Peeled a) hs)) as Hr0.
    { apply Hreach; try done. by rewrite HR. }
    eassert (Hx := fun d Hd => runs_no_refs pool pool_size d c (Capabilities a) (s ++ r) NewAdvRefs _ _ Hok Hd HcD Hr0).
    destruct (Hx (newAdvRefsDecoder ((([] ++ frame (ObjectID_String ZeroHash ++ kw_sp ++ bs "capabilities^{}" ++ [x00] ++ c ++ kw_eol)) ++ s) ++ r) NewAdvRefs)) as (d' & Hrun & Hat); [|eauto 10]. split; [|done]. cbn. by rewrite <- app_assoc.
Qed.

(** C31: an advertised-refs message comes back from its encoding with head, capabilities, references, peeled values and (sorted)
    shallows, and the reader stops after it.  Its names are without spaces and NULs, its identifiers are SHA-1 and those of references
    not zero, a peeled value is that of a reference, and without a head the first reference has none: there it is lost
    ([advrefs_first_peeled_lost]). *)
Theorem advrefs_roundtrip a e r : adv_ok a -> AdvRefs_Encode a [] = Ok e ->
  exists hs, hs ≡ₚ Shallows a /\
    AdvRefs_Decode pool NewAdvRefs (e ++ r) = Ok (None, mkAdvRefs (Head a) (Capabilities a) (References a) (Peeled a) hs, r).
Proof.
  intros Ha H. destruct (advrefs_runs a e r Ha H) as (hs & d' & Hp & Hr & Hs & He & Hd). exists hs. split; [done|].
  unfold AdvRefs_Decode. destruct (adv_run_total pool pool_size pool_clean (length (e ++ r) + 4) decodeFirstHash (newAdvRefsDecoder (e ++ r) NewAdvRefs)) as [d1 E1]; [cbn; lia|].
  unfold adv_run in *. rewrite (runs_result (adv_state pool) _ _ _ _ Hr) by (by rewrite E1). cbn [res_bind]. by rewrite Hs, He, Hd.
Qed.
End Message.

(** ** The peeled value of the first reference *)

Definition dropPeeled (a : AdvRefs) (n : bytes) : AdvRefs :=
  mkAdvRefs (Head a) (Capabilities a) (References a) (delete n (Peeled a)) (Shallows a).

Lemma encodeRefs_loop_peeled a h sorted n refs : forall w,
  adv_encodeRefs_loop (mkAdvEnc a n h sorted) refs w = adv_encodeRefs_loop (mkAdvEnc (dropPeeled a n) n h sorted) refs w.
Proof.
  induction refs as [|r refs IH]; intros w; cbn; [done|]. destruct (decide (r = n)) as [->|Hr].
  - rewrite bool_decide_eq_true_2 by done. apply IH.
  - rewrite bool_decide_eq_false_2 by done. rewrite lookup_delete_ne by done.
    destruct (Writef w _) as [w1| | |]; cbn; [|done..]. destruct (Peeled a !! r); [|apply IH].
    destruct (Writef w1 _); cbn; [apply IH|done..].
Qed.

(** Without [HEAD], the peeled value of the reference that goes on the first line is never sent: the
    encoding is that of the message without it. *)
Theorem advrefs_first_peeled_lost a n ns w :
  Head a = None -> sortRefs (References a) = n :: ns -> AdvRefs_Encode a w = AdvRefs_Encode (dropPeeled a n) w.
Proof.
  intros Hh Hs. unfold AdvRefs_Encode, setFirstRef. cbn [Head References dropPeeled]. rewrite Hh, Hs.
  unfold adv_encodeFirstLine, adv_encodeRefs. cbn [ae_data firstRefName firstRefHash sortedRefs Capabilities dropPeeled].
  destruct (List_String (Capabilities a)); cbn [res_bind]; [|done..]. destruct (Writef w _); cbn [res_bind]; [|done..]. apply encodeRefs_loop_peeled.
Qed.

(** ** A concrete message *)

Definition zeroPool (r : bytes) : bytes := replicate (Z.to_nat MaxSize) x00.

Lemma zeroPool_size r : len (zeroPool r) = MaxSize.
Proof. unfold zeroPool. rewrite len_replicate. done. Qed.

Lemma zeroPool_clean r : ~ stale_error r (zeroPool r).
Proof.
  intros (hdr & n & data & r' & _ & _ & _ & Hn & Hd & Hp). apply HasPrefix_true in Hp as [x Hx].
  assert (length data < 4)%nat as Hl by (unfold len in Hd; lia).
  assert ((data ++ drop (Z.to_nat n) (zeroPool r)) !! length data = Some x00) as H1.
  { rewrite lookup_app_r by lia. rewrite Nat.sub_diag, lookup_drop. apply lookup_replicate_2. unfold MaxSize. lia. }
  rewrite Hx, lookup_app_l in H1 by (cbn; lia). cbn in H1. do 4 (destruct data as [|? data]; [discriminate H1|]). cbn in Hl. lia.
Qed.

Definition demoHash (b : byte) : ObjectID := mkObjectID (replicate 20 b ++ replicate 12 x00) SHA1.

Definition demoAdvRefs : AdvRefs :=
  mkAdvRefs (Some (demoHash x11)) demoCaps
    (list_to_map [(bs "refs/heads/master", demoHash x11); (bs "refs/tags/v1", demoHash x22)])
    {[bs "refs/tags/v1" := demoHash x33]} [demoHash x55; demoHash x44].

#[global] Instance wf_id_dec h : Decision (wf_id h).
Proof. unfold wf_id. apply _. Defined.
#[global] Instance sha1_id_dec h : Decision (sha1_id h).
Proof. unfold sha1_id. apply _. Defined.
#[global] Instance name_ok_dec n : Decision (name_ok n).
Proof. unfold name_ok. apply _. Defined.

Lemma demoCaps_ok : caps_ok demoCaps /\ caps_complete demoCaps /\ caps_printable demoCaps.
Proof.
  split; [unfold demoCaps; cbn [foldl]; do 5 apply caps_ok_step; apply caps_ok_new|].
  split; [unfold caps_complete; by_decision|]. split; [by_decision|].
  intros s H. vm_compute in H. injection H as <-. vm_compute. reflexivity.
Qed.

Lemma demoAdvRefs_ok : adv_ok demoAdvRefs.
Proof.
  constructor.
  - exact demoCaps_ok.
  - change (Head demoAdvRefs) with (Some (demoHash x11)). intros h [= <-]. by_decision.
  - by_decision.
  - by_decision.
  - change (Head demoAdvRefs) with (Some (demoHash x11)). intros H. discriminate H.
  - by_decision.
Qed.

Definition demoEncoded : bytes := match AdvRefs_Encode demoAdvRefs [] with Ok e => e | _ => [] end.

Lemma advrefs_roundtrip_witness :
  exists hs, hs ≡ₚ [demoHash x55; demoHash x44] /\
    AdvRefs_Decode zeroPool NewAdvRefs (demoEncoded ++ bs "PACK") =
    Ok (None, mkAdvRefs (Some (demoHash x11)) demoCaps (References demoAdvRefs) (Peeled demoAdvRefs) hs, bs "PACK").
Proof.
  apply (advrefs_roundtrip zeroPool zeroPool_size zeroPool_clean demoAdvRefs demoEncoded (bs "PACK") demoAdvRefs_ok).
  vm_compute. reflexivity.
Defined.

Lemma advrefs_decode_total_witness :
  exists o, AdvRefs_Decode zeroPool NewAdvRefs (bs "0009ERR x") = Ok o.
Proof. apply (advrefs_decode_total zeroPool zeroPool_size zeroPool_clean). Defined.

Definition headlessAdvRefs : AdvRefs :=
  mkAdvRefs None NewList (References demoAdvRefs) {[bs "refs/heads/master" := demoHash x33]} [].

Lemma advrefs_first_peeled_lost_witness :
  AdvRefs_Encode headlessAdvRefs [] = AdvRefs_Encode (dropPeeled headlessAdvRefs (bs "refs/heads/master")) [].
Proof.
  apply (advrefs_first_peeled_lost headlessAdvRefs (bs "refs/heads/master") [bs "refs/tags/v1"]); vm_compute; reflexivity.
Defined.
