(* ===== verification/PackpMessages.v ===== *)
(** * Requests and replies of the Git protocol ([plumbing/protocol/packp])

    Upload and update requests, haves, push options, the request of the git
    transport, report status, server responses, shallow updates, smart replies and
    info/refs, with their encoders and decoders over pkt-lines. *)
From S2P Require Import Prelude GoStrings Strconv ObjectID Reference Storer Memory PktLine Capability Packp.

(** ** Filters (filter.go); [url.QueryEscape] is a parameter *)
Definition FilterBlobNone : bytes := bs "blob:none".
Definition FilterBlobLimit (n : Z) (prefix : bytes) : bytes := bs "blob:limit=" ++ FormatInt n ++ prefix.
Definition FilterTreeDepth (depth : Z) : bytes := bs "tree:" ++ FormatInt depth.
Definition FilterObjectType (t : ObjectType) : res bytes :=
  if (t =? TagObject) || (t =? CommitObject) || (t =? TreeObject) || (t =? BlobObject)
  then Ok (bs "object:type=" ++ ObjectType_String t)
  else Err ErrUnsupportedObjectFilterType.
Definition FilterCombine (QueryEscape : bytes -> bytes) (filters : list bytes) : bytes :=
  bs "combine:" ++ Join (map QueryEscape filters) (bs "+").

(** ** Upload requests (ulreq.go) *)

(** A [DepthSince] is known by its seconds: the encoding has no more. *)
Inductive Depth := DepthCommits (n : Z) | DepthSince (secs : Z) | DepthReference (ref : bytes).

(** The zero [time.Time] is the first of January of year one. *)
Definition Depth_IsZero (d : Depth) : bool :=
  match d with
  | DepthCommits n => n =? 0
  | DepthSince secs => secs =? -62135596800
  | DepthReference ref => bool_decide (ref = [])
  end.

Record UploadRequest := mkUlReq {
  ur_Capabilities : CapList; Wants : list ObjectID; ur_Shallows : list ObjectID; ur_Depth : option Depth; ur_Filter : bytes }.

Definition NewUploadRequest : UploadRequest := mkUlReq NewList [] [] (Some (DepthCommits 0)) [].

(** *** Encoding (ulreq_encode.go); the wants and shallows of the request are sorted in place *)
Definition ulreq_encodeFlush (w : bytes) : res bytes := Ok (w ++ WriteFlush).

Definition ulreq_encodeFilter (req : UploadRequest) (w : bytes) : res bytes :=
  if bool_decide (ur_Filter req = []) then ulreq_encodeFlush w
  else let* w := Writef w (bs "filter " ++ ur_Filter req ++ kw_eol) in ulreq_encodeFlush w.

Definition ulreq_encodeDepth (req : UploadRequest) (w : bytes) : res bytes :=
  match ur_Depth req with
  | Some (DepthCommits depth) =>
    if depth =? 0 then ulreq_encodeFilter req w
    else let* w := Writef w (bs "deepen " ++ FormatInt depth ++ kw_eol) in ulreq_encodeFilter req w
  | Some (DepthSince when) =>
    let* w := Writef w (bs "deepen-since " ++ FormatInt when ++ kw_eol) in ulreq_encodeFilter req w
  | Some (DepthReference reference) =>
    let* w := Writef w (bs "deepen-not " ++ reference ++ kw_eol) in ulreq_encodeFilter req w
  | None => Err (ErrPackp (bs "unsupported depth type"))
  end.

(** The lines of identifiers that differ from the one before. *)
Fixpoint encodeNew (key : bytes) (last : ObjectID) (hs : list ObjectID) (w : bytes) : res bytes :=
  match hs with
  | [] => Ok w
  | h :: hs =>
    if ObjectID_Compare last (ObjectID_Bytes h) =? 0 then encodeNew key last hs w
    else let* w := Writef w (key ++ ObjectID_String h ++ kw_eol) in encodeNew key h hs w
  end.

Definition ulreq_encodeShallows (req : UploadRequest) (w : bytes) : res (bytes * UploadRequest) :=
  let shallows := HashesSort (ur_Shallows req) in
  let req := mkUlReq (ur_Capabilities req) (Wants req) shallows (ur_Depth req) (ur_Filter req) in
  let* w := encodeNew (bs "shallow ") ZeroHash shallows w in
  let* w := ulreq_encodeDepth req w in Ok (w, req).

Definition ulreq_encodeAdditionalWants (req : UploadRequest) (w : bytes) : res (bytes * UploadRequest) :=
  let* last := index (Wants req) 0 in
  let* rest := slice (Wants req) 1 (len (Wants req)) in
  let* w := encodeNew (bs "want ") last rest w in
  ulreq_encodeShallows req w.

Definition ulreq_encodeFirstWant (req : UploadRequest) (w : bytes) : res (bytes * UploadRequest) :=
  let* first := index (Wants req) 0 in
  let* w := if List_IsEmpty (ur_Capabilities req) then Writef w (bs "want " ++ ObjectID_String first ++ kw_eol)
            else let* caps := List_String (ur_Capabilities req) in
                 Writef w (bs "want " ++ ObjectID_String first ++ kw_sp ++ caps ++ kw_eol) in
  ulreq_encodeAdditionalWants req w.

Definition UploadRequest_Encode (v : UploadRequest) (w : bytes) : res (bytes * UploadRequest) :=
  if len (Wants v) =? 0 then Err (ErrPackp (bs "empty wants provided"))
  else
    let v := mkUlReq (ur_Capabilities v) (HashesSort (Wants v)) (ur_Shallows v) (ur_Depth v) (ur_Filter v) in
    ulreq_encodeFirstWant v w.

(** ** Update requests (updreq.go) *)
Inductive CommandAction := ActCreate | ActUpdate | ActDelete | ActInvalid.

Record Command := mkCommand { cmdName : ReferenceName; cmdOld : ObjectID; cmdNew : ObjectID }.

Record UpdateRequests := mkUpdReq { up_Capabilities : CapList; Commands : list Command; up_Shallow : option ObjectID }.

Definition NewUpdateRequests : UpdateRequests := mkUpdReq NewList [] None.

Definition Command_Action (c : Command) : CommandAction :=
  if bool_decide (cmdOld c = ZeroHash) && bool_decide (cmdNew c = ZeroHash) then ActInvalid
  else if bool_decide (cmdOld c = ZeroHash) then ActCreate
  else if bool_decide (cmdNew c = ZeroHash) then ActDelete
  else ActUpdate.

Definition Command_validate (c : Command) : option error :=
  match Command_Action c with ActInvalid => Some ErrMalformedCommand | _ => None end.

Fixpoint validateCommands (cs : list Command) : option error :=
  match cs with
  | [] => None
  | c :: cs => match Command_validate c with Some e => Some e | None => validateCommands cs end
  end.

Definition UpdateRequests_validate (req : UpdateRequests) : option error :=
  if len (Commands req) =? 0 then Some ErrEmptyCommands else validateCommands (Commands req).

(** *** Encoding (updreq_encode.go) *)
Definition formatCommand (cmd : Command) : bytes :=
  ObjectID_String (cmdOld cmd) ++ kw_sp ++ ObjectID_String (cmdNew cmd) ++ kw_sp ++ cmdName cmd.

Definition updreq_encodeShallow (h : option ObjectID) (w : bytes) : res bytes :=
  match h with
  | None => Ok w
  | Some h => Writef w (kw_shallow ++ ObjectID_String h)
  end.

Definition updreq_encodeCommands (cmds : list Command) (cap : CapList) (w : bytes) : res bytes :=
  match cmds with
  | [] => Panic   (* cmds[0] *)
  | cmd :: cmds =>
    let* caps := List_String cap in
    let* w := Writef w (formatCommand cmd ++ [x00] ++ caps) in
    let* w := Writefs w (map formatCommand cmds) in
    Ok (w ++ WriteFlush)
  end.

Definition UpdateRequests_Encode (req : UpdateRequests) (w : bytes) : res bytes :=
  match UpdateRequests_validate req with
  | Some e => Err e
  | None =>
    let* w := updreq_encodeShallow (up_Shallow req) w in
    updreq_encodeCommands (Commands req) (up_Capabilities req) w
  end.

(** *** Commands (updreq_decode.go) *)
Definition shallowLineLength : Z := len kw_shallow + hashSize.
Definition minCommandLength : Z := hashSize * 2 + 2 + 1.
Definition minCommandAndCapsLength : Z := minCommandLength + 1.

(** [fmt.Sscanf] with the format ["%s %s %s"]: a space of the format needs white space or the end
    of the text and takes white space up to a newline. *)
Definition scanToken (s : bytes) : option (bytes * bytes) :=
  match skipSpace s with
  | None | Some [] => None
  | Some t => Some (token t)
  end.

Fixpoint skipBlanks_loop (fuel : nat) (s : bytes) : bytes :=
  match fuel, DecodeRune s with
  | S fuel, Some (r, n) => if fmt_isSpace r && negb (r =? 10) then skipBlanks_loop fuel (drop n s) else s
  | _, _ => s
  end.

Definition scanSpace (s : bytes) : option bytes :=
  match DecodeRune s with
  | None => Some []
  | Some (r, _) => if negb (fmt_isSpace r) || (r =? 10) then None else Some (skipBlanks_loop (length s) s)
  end.

Definition Sscanf3 (s : bytes) : option (bytes * bytes * bytes) :=
  match scanToken s with
  | None => None
  | Some (a, s) =>
    match scanSpace s with
    | None => None
    | Some s =>
      match scanToken s with
      | None => None
      | Some (b, s) =>
        match scanSpace s with
        | None => None
        | Some s => match scanToken s with None => None | Some (c, _) => Some (a, b, c) end
        end
      end
    end
  end.

Definition parseHash (s : bytes) : res ObjectID :=
  if negb (len s =? hashSize) then Err (ErrPackp (bs "invalid hash size: expected %d, got %d"))
  else let '(h, ok) := FromHex s in
       if negb ok then Err (ErrPackp (bs "invalid hash: %s")) else Ok h.

(** [errMalformedRequest] and what it wraps. *)
Definition errMalformedRequest (reason : string) : error := ErrPackp (bs "malformed request: " ++ bs reason).

Definition wrapErr {A} (m : res A) (reason : string) : res A :=
  match m with Err _ => Err (errMalformedRequest reason) | m => m end.

Definition parseCommand (b : bytes) : res Command :=
  if len b <? minCommandLength then Err (errMalformedRequest "invalid command line length: expected at least %d, got %d")
  else
    match Sscanf3 b with
    | None => Err (errMalformedRequest "malformed command: %s")
    | Some (os, ns, n) =>
      let* oh := wrapErr (parseHash os) "invalid old object id: %s" in
      let* nh := wrapErr (parseHash ns) "invalid new object id: %s" in
      Ok (mkCommand n oh nh)
    end.

(** ** Haves (uphav.go) *)
Record UploadHaves := mkHaves { Haves : list ObjectID; Done : bool }.

Definition UploadHaves_Encode (u : UploadHaves) (w : bytes) : res (bytes * UploadHaves) :=
  let haves := HashesSort (Haves u) in
  let u := mkHaves haves (Done u) in
  let* w := encodeNew (bs "have ") ZeroHash haves w in
  if Done u then let* w := Writef w (bs "done" ++ kw_eol) in Ok (w, u)
  else Ok (w ++ WriteFlush, u).

(** ** Push options (pushopts.go) *)
Definition PushOptions_Encode (opts : list bytes) (w : bytes) : res bytes :=
  if len opts =? 0 then Ok w
  else let* w := Writefs w opts in Ok (w ++ WriteFlush).

(** ** Request of the git transport (gitproto.go) *)
Record GitProtoRequest := mkGitProto { RequestCommand : bytes; Pathname : bytes; Host : bytes; ExtraParams : list bytes }.

Definition GitProtoRequest_validate (g : GitProtoRequest) : option error :=
  if bool_decide (RequestCommand g = []) then Some ErrInvalidGitProtoRequest
  else if bool_decide (Pathname g = []) then Some ErrInvalidGitProtoRequest
  else None.

Definition gitproto_line (g : GitProtoRequest) : bytes :=
  RequestCommand g ++ kw_sp ++ Pathname g ++ [x00] ++
  (if bool_decide (Host g = []) then [] else bs "host=" ++ Host g ++ [x00]) ++
  (if 0 <? len (ExtraParams g) then [x00] ++ flat_map (fun param => param ++ [x00]) (ExtraParams g) else []).

Definition GitProtoRequest_Encode (g : GitProtoRequest) (w : bytes) : res bytes :=
  match GitProtoRequest_validate g with
  | Some e => Err e
  | None => Writef w (gitproto_line g)
  end.

(** ** Report status (report_status.go) *)
Definition kw_ok : bytes := bs "ok".

Record CommandStatus := mkCmdStatus { csReferenceName : ReferenceName; csStatus : bytes }.
Record ReportStatus := mkReport { UnpackStatus : bytes; CommandStatuses : list CommandStatus }.
Definition NewReportStatus : ReportStatus := mkReport [] [].

Definition CommandStatus_Error (s : CommandStatus) : option error :=
  if bool_decide (csStatus s = kw_ok) then None else Some (CommandStatusErr (csReferenceName s) (csStatus s)).

Fixpoint firstStatusError (css : list CommandStatus) : option error :=
  match css with
  | [] => None
  | cs :: css => match CommandStatus_Error cs with Some e => Some e | None => firstStatusError css end
  end.

Definition ReportStatus_Error (s : ReportStatus) : option error :=
  if bool_decide (UnpackStatus s = kw_ok) then firstStatusError (CommandStatuses s)
  else Some (UnpackStatusErr (UnpackStatus s)).

Definition CommandStatus_line (s : CommandStatus) : bytes :=
  match CommandStatus_Error s with
  | None => bs "ok " ++ csReferenceName s ++ kw_eol
  | Some _ => bs "ng " ++ csReferenceName s ++ kw_sp ++ csStatus s ++ kw_eol
  end.

Definition ReportStatus_Encode (s : ReportStatus) (w : bytes) : res bytes :=
  let* w := Writef w (bs "unpack " ++ UnpackStatus s ++ kw_eol) in
  let* w := Writefs w (map CommandStatus_line (CommandStatuses s)) in
  Ok (w ++ WriteFlush).

(** ** Server response (srvresp.go) *)
Definition ackLineLen : Z := 44.
Inductive ACKStatus := ACKNone | ACKContinue | ACKCommon | ACKReady.

Definition ACKStatus_String (s : ACKStatus) : bytes :=
  match s with ACKContinue => bs "continue" | ACKCommon => bs "common" | ACKReady => bs "ready" | ACKNone => [] end.

Record ACK := mkACK { ackHash : ObjectID; ackStatus : ACKStatus }.

(** The loop of [encodeServerResponse]: an acknowledgement without a status names the first hash,
    and ends the response unless one with a status came before. *)
Fixpoint encodeACKs (first : ObjectID) (multiAck : bool) (acks : list ACK) (w : bytes) : res bytes :=
  match acks with
  | [] => Ok w
  | a :: acks =>
    match ackStatus a with
    | ACKNone =>
      let* w := Writef w (kw_ack ++ kw_sp ++ ObjectID_String first ++ kw_eol) in
      if multiAck then encodeACKs first multiAck acks w else Ok w
    | s =>
      let* w := Writef w (kw_ack ++ kw_sp ++ ObjectID_String (ackHash a) ++ kw_sp ++ ACKStatus_String s ++ kw_eol) in
      encodeACKs first true acks w
    end
  end.

Definition ServerResponse_Encode (acks : list ACK) (w : bytes) : res bytes :=
  match acks with
  | [] => Writef w (kw_nak ++ kw_eol)
  | a :: _ => encodeACKs (ackHash a) false acks w
  end.

(** ** Shallow update (shallowupd.go) *)
Definition shallowLineLen : Z := 48.
Definition unshallowLineLen : Z := 50.
Record ShallowUpdate := mkShUpd { su_Shallows : list ObjectID; su_Unshallows : list ObjectID }.

Definition ShallowUpdate_Encode (r : ShallowUpdate) (w : bytes) : res bytes :=
  let* w := Writefs w (map (fun h => kw_shallow ++ ObjectID_String h ++ kw_eol) (su_Shallows r)) in
  let* w := Writefs w (map (fun h => kw_unshallow ++ ObjectID_String h ++ kw_eol) (su_Unshallows r)) in
  Ok (w ++ WriteFlush).

(** ** Smart reply (smart.go) *)
Definition SmartReply_Encode (service : bytes) (w : bytes) : res bytes :=
  let* w := Writef w (bs "# service=" ++ service ++ kw_eol) in Ok (w ++ WriteFlush).

(** ** info/refs (inforefs.go) *)
Record InfoRefs := mkInfoRefs { ir_References : gmap bytes ObjectID; ir_Peeled : gmap bytes ObjectID }.

(** The variable [peeled] of the second line is the peeled hash: it shadows the suffix. *)
Definition InfoRefs_lines (i : InfoRefs) (ref : bytes) : bytes :=
  let hash := default ZeroHash (ir_References i !! ref) in
  ObjectID_String hash ++ [x09] ++ ref ++ kw_eol ++
  match ir_Peeled i !! ref with
  | Some peeled => ObjectID_String peeled ++ [x09] ++ ref ++ ObjectID_String peeled ++ kw_eol
  | None => []
  end.

Definition InfoRefs_Encode (i : InfoRefs) (w : bytes) : bytes :=
  w ++ flat_map (InfoRefs_lines i) (sortRefs (ir_References i)).

(** [bufio.Scanner] with its default split: lines without their end, a carriage return at the end
    dropped, an error for a line that does not fit the buffer. *)
Definition MaxScanTokenSize : Z := 65536.
Definition dropCR (l : bytes) : bytes := TrimSuffix l [x0d].

Fixpoint scanLines (ls : list bytes) : list bytes * option error :=
  match ls with
  | [] => ([], None)
  | [l] => if MaxScanTokenSize <=? len l then ([], Some ErrTooLong)
           else if len l =? 0 then ([], None) else ([dropCR l], None)
  | l :: ls => if MaxScanTokenSize <=? len l then ([], Some ErrTooLong)
               else let '(r, e) := scanLines ls in (dropCR l :: r, e)
  end.

Definition InfoRefs_decodeLine (i : InfoRefs) (text : bytes) : InfoRefs :=
  match SplitN2 text x09 with
  | (_, None) => i
  | (h, Some refname) =>
    let hash := NewHash h in
    if HasSuffix refname kw_peeled
    then mkInfoRefs (ir_References i) (<[TrimSuffix refname kw_peeled := hash]> (ir_Peeled i))
    else mkInfoRefs (<[refname := hash]> (ir_References i)) (ir_Peeled i)
  end.

Definition InfoRefs_Decode (i : InfoRefs) (r : bytes) : option error * InfoRefs :=
  let '(ls, e) := scanLines (Split r x0a) in (e, foldl InfoRefs_decodeLine i ls).
