(* ===== verification/DotGit.v ===== *)
(** * storage/filesystem/dotgit: the references of a repository

    Loose references are files under refs and the file HEAD; the others are lines of the file packed-refs.  Model of the
    reference part of dotgit.go, of dotgit_setref.go and dotgit_rewrite_packed_refs.go and of reference.go.  The file system
    is an interface of go-billy: an operation gives an error and leaves the files as they are, or gives what they are
    after it.  Locks are not modelled: no other process changes the files meanwhile. *)
From S2P Require Import Prelude GoStrings GoPath ObjectID Reference Storer PackpMessages.

(** ** The file system *)
Class Filesystem (F : Type) := {
  fs_Join : F -> list bytes -> bytes;
  fs_Stat : F -> bytes -> error + bool;                                (** whether it is a directory *)
  fs_Open : F -> bytes -> error + bytes;                               (** all its bytes *)
  fs_OpenFile : F -> bytes -> bool -> bool -> error + (bytes * F);     (** O_CREATE, O_TRUNC; its bytes *)
  fs_Write : F -> bytes -> bytes -> error + F;                         (** all the bytes of a file that is open *)
  fs_Remove : F -> bytes -> error + F;
  fs_Rename : F -> bytes -> bytes -> error + F;
  fs_TempFile : F -> bytes -> bytes -> error + (bytes * F);            (** its name, from a directory and a prefix *)
  fs_ReadDir : F -> bytes -> error + list (bytes * bool);              (** names, and whether they are directories *)
  fs_ReadAndWrite : F -> bool }.                                       (** the capability *)

Definition IsNotExist (e : error) : bool := bool_decide (e = ErrNotExist).
Definition packedRefsPath : bytes := bs "packed-refs".
Definition refsPath : bytes := bs "refs".
Definition tmpPackedRefsPrefix : bytes := bs "._packed-refs".
Definition println (s : bytes) : bytes := s ++ [x0a].

(** ** One reference in a file, and one in a line of packed-refs *)
Definition readReferenceFrom (b name : bytes) : error + Reference :=
  if len b =? 0 then inl ErrEmptyRefFile else inr (NewReferenceFromStrings name (TrimSpace b)).

Definition processLine (line : bytes) : error + option Reference :=
  match line with
  | [] => inr None
  | b :: _ =>
    if bool_decide (b = x23) || bool_decide (b = x5e) then inr None
    else
      match Split line x20 with
      | [h; name] => inr (Some (NewReferenceFromStrings name h))
      | _ => inl ErrPackedRefsBadFormat
      end
  end.

(** [findPackedRefsInFile] with a callback over a state; false stops it. *)
Fixpoint findPackedRefs_loop {A} (recv : A -> option Reference -> A * bool) (ls : list bytes) (scanErr : option error) (a : A) : option error * A :=
  match ls with
  | [] => (scanErr, a)
  | l :: ls =>
    match processLine l with
    | inl e => (Some e, a)
    | inr ref => let (a, more) := recv a ref in if more then findPackedRefs_loop recv ls scanErr a else (None, a)
    end
  end.
Definition findPackedRefsInFile {A} (content : bytes) (recv : A -> option Reference -> A * bool) (a : A) : option error * A :=
  let (ls, e) := scanLines (Split content x0a) in findPackedRefs_loop recv ls e a.

(** The references that were collected, and the names among them. *)
Definition collected : Type := list Reference * gset ReferenceName.
Definition refsRecvFunc (c : collected) (r : option Reference) : collected * bool :=
  match r with
  | Some r => if bool_decide (rname r ∈ c.2) then (c, true) else ((c.1 ++ [r], {[rname r]} ∪ c.2), true)
  | None => (c, true)
  end.

Section DotGit.
Context {F : Type} `{Filesystem F}.

Definition findPackedRefs {A} (f : F) (recv : A -> option Reference -> A * bool) (a : A) : option error * A :=
  match fs_Open f packedRefsPath with
  | inl e => (if IsNotExist e then None else Some e, a)
  | inr content => findPackedRefsInFile content recv a
  end.

Definition packedRef (f : F) (name : ReferenceName) : error + Reference :=
  let (err, ref) := findPackedRefs f (fun (a : option Reference) r =>
    match r with
    | Some r => if bool_decide (rname r = name) then (Some r, false) else (a, true)
    | None => (a, true)
    end) None in
  match err with
  | Some e => inl e
  | None => match ref with Some r => inr r | None => inl ErrReferenceNotFound end
  end.

Definition readReferenceFile (f : F) (path name : bytes) : error + Reference :=
  let path := fs_Join f [path; fs_Join f (Split name x2f)] in
  match fs_Stat f path with
  | inl e => inl e
  | inr true => inl ErrIsDir
  | inr false => match fs_Open f path with inl e => inl e | inr b => readReferenceFrom b name end
  end.

(** [DotGit.Ref] *)
Definition Ref (f : F) (name : ReferenceName) : error + Reference :=
  match readReferenceFile f (bs ".") name with
  | inr ref => inr ref
  | inl _ => packedRef f name
  end.

(** ** Setting a reference *)

(** [checkReferenceAndTruncate] on the file [fileName], of which [b] are the bytes *)
Definition checkReferenceAndTruncate (f : F) (fileName b : bytes) (old : option Reference) : option error * F :=
  match old with
  | None => (None, f)
  | Some old =>
    let ref :=
      match readReferenceFrom b (rname old) with
      | inl e => if bool_decide (e = ErrEmptyRefFile) then packedRef f (rname old) else inl e
      | inr ref => inr ref
      end in
    match ref with
    | inl e => (Some e, f)
    | inr ref =>
      if negb (bool_decide (rhash ref = rhash old)) then (Some ErrReferenceHasChanged, f)
      else match fs_Write f fileName [] with inl e => (Some e, f) | inr f => (None, f) end
    end
  end.

Definition setRefRwfs (f : F) (fileName content : bytes) (old : option Reference) : option error * F :=
  match fs_OpenFile f fileName true (bool_decide (old = None)) with
  | inl e => (Some e, f)
  | inr (b, f) =>
    let (err, f) := checkReferenceAndTruncate f fileName b old in
    match err with
    | Some e => (Some e, f)
    | None => match fs_Write f fileName content with inl e => (Some e, f) | inr f => (None, f) end
    end
  end.

Definition setRefNorwfs (f : F) (fileName content : bytes) (old : option Reference) : option error * F :=
  let err :=
    match fs_Stat f fileName, old with
    | inr _, Some old =>
      match fs_Open f fileName with
      | inl e => Some e
      | inr b =>
        match readReferenceFrom b (rname old) with
        | inl e => Some e
        | inr ref => if negb (bool_decide (rhash ref = rhash old)) then Some ErrReferenceChangedConcurrently else None
        end
      end
    | _, _ => None
    end in
  match err with
  | Some e => (Some e, f)
  | None =>
    match fs_OpenFile f fileName true true with
    | inl e => (Some e, f)
    | inr (_, f) => match fs_Write f fileName content with inl e => (Some e, f) | inr f => (None, f) end
    end
  end.

Definition setRef (f : F) (fileName content : bytes) (old : option Reference) : option error * F :=
  if fs_ReadAndWrite f then setRefRwfs f fileName content old else setRefNorwfs f fileName content old.

(** The text of a reference; none of one that is invalid *)
Definition refContent (r : Reference) : bytes :=
  match rtype r with
  | SymbolicReference => println (bs "ref: " ++ rtarget r)
  | HashReference => println (ObjectID_String (rhash r))
  | InvalidReference => []
  end.
Definition SetRef (f : F) (r : Reference) (old : option Reference) : option error * F := setRef f (rname r) (refContent r) old.

(** ** Listing *)
Fixpoint walkFiles (walk : list bytes -> collected -> res collected) (f : F) (relPath : list bytes) (files : list (bytes * bool)) (c : collected) : res collected :=
  match files with
  | [] => Ok c
  | (name, isDir) :: files =>
    let newRelPath := relPath ++ [name] in
    if isDir then let* c := walk newRelPath c in walkFiles walk f relPath files c
    else
      match readReferenceFile f (bs ".") (Join newRelPath [x2f]) with
      | inl e => if IsNotExist e then walkFiles walk f relPath files c else Err e
      | inr ref => walkFiles walk f relPath files (refsRecvFunc c (Some ref)).1
      end
  end.
Fixpoint walkReferencesTree (fuel : nat) (f : F) (relPath : list bytes) (c : collected) : res collected :=
  match fuel with
  | O => NoFuel
  | S fuel =>
    match fs_ReadDir f (fs_Join f relPath) with
    | inl e => if IsNotExist e then Ok c else Err e
    | inr files => walkFiles (walkReferencesTree fuel f) f relPath files c
    end
  end.

Definition addRefsFromRefDir (fuel : nat) (f : F) (c : collected) : res collected := walkReferencesTree fuel f [refsPath] c.

Definition addRefFromHEAD (f : F) (c : collected) : res collected :=
  match readReferenceFile f (bs ".") HEAD with
  | inl e => if IsNotExist e then Ok c else Err e
  | inr ref => Ok (c.1 ++ [ref], c.2)
  end.

Definition addRefsFromPackedRefs (f : F) (c : collected) : res collected :=
  let (err, c) := findPackedRefs f refsRecvFunc c in match err with Some e => Err e | None => Ok c end.

Definition Refs (fuel : nat) (f : F) : res (list Reference) :=
  let* c := addRefFromHEAD f ([], ∅) in
  let* c := addRefsFromRefDir fuel f c in
  let* c := addRefsFromPackedRefs f c in
  Ok c.1.

Definition CountLooseRefs (fuel : nat) (f : F) : res Z := let* c := addRefsFromRefDir fuel f ([], ∅) in Ok (len c.1).

(** ** Rewriting packed-refs: [windows] is the test of [runtime.GOOS] *)
Variable windows : bool.

(** [tmpContent] are the bytes of the file [tmp]. *)
Definition rewritePackedRefsWhileLocked (f : F) (tmp tmpContent : bytes) : option error * F :=
  match fs_Rename f tmp packedRefsPath with
  | inr f => (None, f)
  | inl e =>
    if bool_decide (e = ErrNotSupported) then
      match fs_OpenFile f packedRefsPath true true with                 (* copyNewFile *)
      | inl e => (Some e, f)
      | inr (_, f) => match fs_Write f packedRefsPath tmpContent with inl e => (Some e, f) | inr f => (None, f) end
      end
    else if negb windows then (Some e, f)
    else match fs_Write f packedRefsPath tmpContent with inl e => (Some e, f) | inr f => (None, f) end   (* copyToExistingFile *)
  end.

(** The deferred removal of the temporary file, whose error is not looked at. *)
Definition dropTmp (f : F) (tmp : bytes) : F := match fs_Remove f tmp with inr f => f | inl _ => f end.

(** The lines that stay, and whether the name was among them. *)
Fixpoint linesWithoutRef (name : ReferenceName) (ls : list bytes) (scanErr : option error) (out : bytes) (found : bool) : option error * bytes * bool :=
  match ls with
  | [] => (scanErr, out, found)
  | l :: ls =>
    match processLine l with
    | inl e => (Some e, out, found)
    | inr ref =>
      if match ref with Some ref => bool_decide (rname ref = name) | None => false end
      then linesWithoutRef name ls scanErr out true
      else linesWithoutRef name ls scanErr (out ++ println l) found
    end
  end.

Definition rewritePackedRefsWithoutRef (f : F) (name : ReferenceName) : option error * F :=
  match fs_OpenFile f packedRefsPath false false with
  | inl e => (if IsNotExist e then None else Some e, f)
  | inr (content, f) =>
    match fs_TempFile f [] tmpPackedRefsPrefix with
    | inl e => (Some e, f)
    | inr (tmp, f) =>
      let (ls, e) := scanLines (Split content x0a) in
      let '(err, out, found) := linesWithoutRef name ls e [] false in
      match fs_Write f tmp out with
      | inl e => (Some e, dropTmp f tmp)
      | inr f =>
        match err with
        | Some e => (Some e, dropTmp f tmp)
        | None =>
          if negb found then (None, dropTmp f tmp)
          else let (err, f) := rewritePackedRefsWhileLocked f tmp out in (err, dropTmp f tmp)
        end
      end
    end
  end.

(** [DotGit.RemoveRef] *)
Definition RemoveRef (f : F) (name : ReferenceName) : option error * F :=
  let path := fs_Join f [bs "."; name] in
  let (err, f) :=
    match fs_Stat f path with
    | inl e => (Some e, f)
    | inr _ => match fs_Remove f path with inl e => (Some e, f) | inr f => (None, f) end
    end in
  match err with
  | Some e => if IsNotExist e then rewritePackedRefsWithoutRef f name else (Some e, f)
  | None => rewritePackedRefsWithoutRef f name
  end.

(** ** Packing *)
Fixpoint removeLoose (f : F) (refs : list Reference) : option error * F :=
  match refs with
  | [] => (None, f)
  | ref :: refs =>
    match fs_Remove f (fs_Join f [bs "."; rname ref]) with
    | inl e => if IsNotExist e then removeLoose f refs else (Some e, f)
    | inr f => removeLoose f refs
    end
  end.

(** [PackRefs] with the references that were found in files *)
Definition packCollected (f : F) (content : bytes) (c : collected) : option error * F :=
  if len c.1 =? 0 then (None, f)
  else
    let numLooseRefs := length c.1 in
    let (err, c) := findPackedRefsInFile content refsRecvFunc c in
    match err with
    | Some e => (Some e, f)
    | None =>
      match fs_TempFile f [] tmpPackedRefsPrefix with
      | inl e => (Some e, f)
      | inr (tmp, f) =>
        let out := flat_map (fun ref => println (Reference_String ref)) c.1 in
        match fs_Write f tmp out with
        | inl e => (Some e, dropTmp f tmp)
        | inr f =>
          let (err, f) := rewritePackedRefsWhileLocked f tmp out in
          match err with
          | Some e => (Some e, dropTmp f tmp)
          | None => let (err, f) := removeLoose f (take numLooseRefs c.1) in (err, dropTmp f tmp)
          end
        end
      end
    end.

Definition PackRefs (fuel : nat) (f : F) : res (option error * F) :=
  match fs_OpenFile f packedRefsPath true false with
  | inl e => Ok (Some e, f)
  | inr (content, f) =>
    match addRefsFromRefDir fuel f ([], ∅) with
    | Ok c => Ok (packCollected f content c)
    | Err e => Ok (Some e, f)
    | Panic => Panic
    | NoFuel => NoFuel
    end
  end.

(** ** [ReferenceStorage] (reference.go): the reference storer of a directory; with an error the files are those before it *)
Definition setReference (f : F) (ref old : option Reference) : res F :=
  match ref with
  | None => Panic
  | Some ref => let (err, f) := SetRef f ref old in match err with Some e => Err e | None => Ok f end
  end.
Definition storage_SetReference (f : F) (ref : option Reference) : res F := setReference f ref None.
Definition storage_CheckAndSetReference (f : F) (ref old : option Reference) : res F := setReference f ref old.
Definition storage_Reference (f : F) (n : ReferenceName) : res Reference := match Ref f n with inr r => Ok r | inl e => Err e end.
Definition storage_IterReferences (fuel : nat) (f : F) : res ReferenceIter := let* refs := Refs fuel f in Ok (NewReferenceSliceIter refs).
Definition storage_RemoveReference (f : F) (n : ReferenceName) : res F := let (err, f) := RemoveRef f n in match err with Some e => Err e | None => Ok f end.
Definition dotgit_storer (fuel : nat) : ReferenceStorer F := {|
  SetReference := storage_SetReference;
  CheckAndSetReference := storage_CheckAndSetReference;
  Reference_ := storage_Reference;
  IterReferences := storage_IterReferences fuel;
  RemoveReference := storage_RemoveReference;
  Storer.CountLooseRefs := CountLooseRefs fuel |}.
End DotGit.
