(* ===== verification/DotGitProofs.v ===== *)
(** * storage/filesystem/dotgit: the references as a map

    What a file system promises is a tree of files by the components of their paths.  Over it, what [Ref] finds is a map from
    names to references: a file goes before a line of packed-refs.  Setting, removing and packing references are proved
    against that map. *)
From S2P Require Import Prelude GoStrings GoPath Strconv ObjectID Reference PackpMessages DotGit.

(** ** Paths as their components *)
Definition pathOf (p : list bytes) : bytes := Join p [x2f].
Definition good_path (p : list bytes) : Prop := p <> [] /\ Forall component p.
(** The directories above a path *)
Definition above (p : list bytes) : gset (list bytes) := list_to_set (map (fun k => take k p) (seq 1 (length p - 1))).

Lemma elem_of_above p q : q ∈ above p <-> exists k, (0 < k < length p)%nat /\ q = take k p.
Proof.
  unfold above. rewrite elem_of_list_to_set, list_elem_of_fmap. split.
  - intros (k & -> & Hk%elem_of_seq). exists k. split; [lia|done].
  - intros (k & Hk & ->). exists k. split; [done|]. apply elem_of_seq. lia.
Qed.

(** A tree: files and directories apart, and the directories above both there. *)
Record tree_ok (fs : gmap (list bytes) bytes) (ds : gset (list bytes)) : Prop := {
  tree_file p b : fs !! p = Some b -> good_path p /\ p ∉ ds /\ above p ⊆ ds;
  tree_dir p : p ∈ ds -> good_path p /\ above p ⊆ ds }.

(** A place where a file can be made: no directory is there, and no file is above it. *)
Definition free_path (fs : gmap (list bytes) bytes) (ds : gset (list bytes)) (p : list bytes) : Prop :=
  p ∉ ds /\ forall q, q ∈ above p -> fs !! q = None.

(** ** What a file system promises *)
Class FilesystemLaws (F : Type) `{Filesystem F} := {
  fs_inv : F -> Prop;
  files : F -> gmap (list bytes) bytes;
  dirs : F -> gset (list bytes);
  law_join f ps : fs_Join f ps = path_Join ps;
  law_tree f : fs_inv f -> tree_ok (files f) (dirs f);
  law_stat f p : fs_inv f -> good_path p ->
    fs_Stat f (pathOf p) = if decide (p ∈ dirs f) then inr true else match files f !! p with Some _ => inr false | None => inl ErrNotExist end;
  law_open f p : fs_inv f -> good_path p -> p ∉ dirs f ->
    fs_Open f (pathOf p) = match files f !! p with Some b => inr b | None => inl ErrNotExist end;
  law_reopen f p b create trunc : fs_inv f -> files f !! p = Some b ->
    exists f', fs_OpenFile f (pathOf p) create trunc = inr (if trunc then [] else b, f') /\ fs_inv f' /\
      files f' = (if trunc then <[p := []]> (files f) else files f) /\ dirs f' = dirs f;
  law_missing f p trunc : fs_inv f -> good_path p -> p ∉ dirs f -> files f !! p = None ->
    fs_OpenFile f (pathOf p) false trunc = inl ErrNotExist;
  law_create f p trunc : fs_inv f -> good_path p -> free_path (files f) (dirs f) p -> files f !! p = None ->
    exists f', fs_OpenFile f (pathOf p) true trunc = inr ([], f') /\ fs_inv f' /\ files f' = <[p := []]> (files f) /\ dirs f' = dirs f ∪ above p;
  law_write f p b b' : fs_inv f -> files f !! p = Some b ->
    exists f', fs_Write f (pathOf p) b' = inr f' /\ fs_inv f' /\ files f' = <[p := b']> (files f) /\ dirs f' = dirs f;
  law_remove f p b : fs_inv f -> files f !! p = Some b ->
    exists f', fs_Remove f (pathOf p) = inr f' /\ fs_inv f' /\ files f' = delete p (files f) /\ dirs f' = dirs f;
  law_remove_none f p : fs_inv f -> good_path p -> p ∉ dirs f -> files f !! p = None -> fs_Remove f (pathOf p) = inl ErrNotExist;
  law_rename f p q b : fs_inv f -> files f !! p = Some b -> is_Some (files f !! q) -> p <> q ->
    fs_Rename f (pathOf p) (pathOf q) = inl ErrNotSupported \/
    exists f', fs_Rename f (pathOf p) (pathOf q) = inr f' /\ fs_inv f' /\ files f' = <[q := b]> (delete p (files f)) /\ dirs f' = dirs f;
  law_rename_new f p q b : fs_inv f -> files f !! p = Some b -> good_path q -> free_path (files f) (dirs f) q -> files f !! q = None ->
    exists f', fs_Rename f (pathOf p) (pathOf q) = inr f' /\ fs_inv f' /\ files f' = <[q := b]> (delete p (files f)) /\ dirs f' = dirs f ∪ above q;
  law_temp f d prefix : fs_inv f -> component prefix -> Forall component d -> (forall q, q ∈ above (d ++ [prefix]) -> files f !! q = None) ->
    exists t f', fs_TempFile f (pathOf d) prefix = inr (pathOf (d ++ [t]), f') /\ fs_inv f' /\ component t /\ HasPrefix t prefix = true /\ t <> prefix /\
      d ++ [t] ∉ dirs f /\ files f !! (d ++ [t]) = None /\ files f' = <[d ++ [t] := []]> (files f) /\ dirs f' = dirs f ∪ above (d ++ [t]);
  law_readdir f p : fs_inv f -> p ∈ dirs f ->
    exists l, fs_ReadDir f (pathOf p) = inr l /\ NoDup (map fst l) /\
      forall n d, (n, d) ∈ l <-> component n /\ if (d : bool) then p ++ [n] ∈ dirs f else is_Some (files f !! (p ++ [n]));
  law_readdir_none f p : fs_inv f -> good_path p -> p ∉ dirs f -> files f !! p = None -> fs_ReadDir f (pathOf p) = inl ErrNotExist }.

(** ** Names of references are paths *)
Lemma Validate_path n : Validate n = None -> good_path (Split n x2f) /\ pathOf (Split n x2f) = n.
Proof.
  intros V. split; [|apply Join_Split]. split; [apply Split_nonempty|].
  destruct (decide (n = HEAD)) as [->|Hn]; [repeat constructor; try done; by apply (bool_decide_unpack _)|].
  unfold Validate in V. destruct (len n =? 0); [done|]. rewrite bool_decide_eq_false_2 in V by done.
  destruct (HasSuffix n (bs ".")); [done|]. destruct (len (Split n x2f) <? 2); [done|].
  apply Validate_loop_none in V as (V1 & V2 & _). pose proof (Split_pieces n x2f) as Hp. rewrite Forall_forall in *.
  intros c Hc. specialize (Hp c Hc). apply list_elem_of_In in Hc.
  assert (len c <> 0) as H1. { intros E. assert (existsb (fun q => len q =? 0) (Split n x2f) = true) as Ex; [|congruence]. apply existsb_exists. exists c. split; [done|lia]. }
  assert (badPart c = false) as H2. { destruct (badPart c) eqn:E; [|done]. rewrite <- V2. symmetry. apply existsb_exists. eauto. }
  split; [by intros ->|]. split; [by intros ->|]. split; [by intros ->|done].
Qed.

Lemma Split_inj a b : Split a x2f = Split b x2f -> a = b.
Proof. intros E. by rewrite <- (Join_Split a x2f), <- (Join_Split b x2f), E. Qed.

Lemma good_join p : good_path p -> path_Join p = pathOf p /\ Split (pathOf p) x2f = p /\ path_Join [bs "."; pathOf p] = pathOf p.
Proof.
  intros [Hn Hc]. split; [by apply path_Join_components|].
  assert (Split (pathOf p) x2f = p) as Hs.
  { apply Split_Join; [done|]. eapply Forall_impl; [exact Hc|]. by intros c (_ & _ & _ & ?). }
  split; [done|]. cbn [path_Join]. rewrite bool_decide_eq_false_2 by done.
  change (Join [bs "."; pathOf p] [x2f]) with (bs "." ++ x2f :: pathOf p). unfold Clean.
  change (HasPrefix (bs "." ++ x2f :: pathOf p) [x2f]) with false. cbn match. rewrite Split_cons by by apply (bool_decide_unpack _).
  cbn [foldl]. change (cleanStep false [] (bs ".")) with (@nil bytes). rewrite Hs, cleanStep_components by done.
  rewrite app_nil_r, rev_involutive. by destruct p.
Qed.

(** ** The references that are found *)

(** The references of the lines of packed-refs, [None] when one of them is not read. *)
Definition lines_of (content : bytes) : list bytes := (scanLines (Split content x0a)).1.
Definition packed_refs (content : bytes) : list Reference :=
  flat_map (fun l => match processLine l with inr (Some r) => [r] | _ => [] end) (lines_of content).

(** A packed-refs file that is read without an error, none of whose lines ends in a carriage return. *)
Record packed_ok (content : bytes) : Prop := {
  packed_scan : (scanLines (Split content x0a)).2 = None;
  packed_lines : Forall (fun l => (exists r, processLine l = inr r) /\ last l <> Some x0d) (lines_of content) }.

Definition find_ref (n : ReferenceName) (rs : list Reference) : option Reference := List.find (fun r => bool_decide (rname r = n)) rs.

(** ** Text that is written and read *)
Definition text_byte (b : byte) : bool := (b2z b <? 128) && negb (isSpace b).

Lemma TrimSpace_text l a z : head l = Some a -> last l = Some z -> text_byte a = true -> text_byte z = true -> TrimSpace l = l.
Proof.
  unfold text_byte. rewrite !andb_true_iff, !negb_true_iff, !Z.ltb_lt. intros Ha Hz [A1 A2] [Z1 Z2].
  destruct l as [|x l]; [done|]. injection Ha as ->. destruct l as [|y l _] using rev_ind.
  - unfold TrimSpace. rewrite dropSpaces_nonspace by done. cbn [rev app]. by rewrite dropSpaces_nonspace.
  - rewrite app_comm_cons, last_snoc in Hz. injection Hz as ->. by apply TrimSpace_id.
Qed.

Lemma hex_text b : hexValue b <> None -> text_byte b = true /\ b <> x23 /\ b <> x5e /\ b <> x20 /\ b <> x0a /\ b <> x0d /\ b <> x72.
Proof. by destruct b. Qed.

Lemma EncodeToString_digits x : Forall (fun b => hexValue b <> None) (EncodeToString x).
Proof.
  induction x as [|b x IH]; [done|]. cbn [EncodeToString flat_map app]. destruct (nibbles b) as (H1 & H2 & _).
  repeat (apply Forall_cons; split; [by rewrite hexValue_digit|]). exact IH.
Qed.

(** The text of an identifier *)
Lemma ref_id_text h : wf_id h -> exists a l, ObjectID_String h = a :: l /\ Forall (fun b => hexValue b <> None) (a :: l) /\ NewHash (a :: l) = h /\ len (a :: l) <= 64.
Proof.
  intros Hw. pose proof (EncodeToString_digits (ObjectID_Bytes h)) as Hd. pose proof (EncodeToString_len (ObjectID_Bytes h)) as Hl.
  destruct (wf_bytes h Hw) as (Hb & _ & Hs). pose proof (FromHex_String h Hw) as Hf. unfold ObjectID_String in *.
  assert (ObjectID_Size h = 20 \/ ObjectID_Size h = 32) as Hsz. { rewrite Hs. destruct Hw as [_ [->|[-> _]]]; [by right|by left]. }
  destruct (EncodeToString (ObjectID_Bytes h)) as [|a l]; [unfold len in Hl at 1; cbn in Hl; lia|].
  exists a, l. split; [done|]. split; [done|]. split; [|lia]. unfold NewHash. by rewrite Hf.
Qed.

Lemma name_text n : Validate n = None -> n <> [] /\ Forall (fun b => forbiddenByte b = false) n.
Proof.
  intros V. apply Validate_spec in V as [->|(V & _)]; [split; [done|by repeat constructor]|].
  unfold git_ref_format in V. rewrite !andb_true_iff, !negb_true_iff in V. destruct_and!. split; [by intros ->|].
  apply Forall_forall. intros b Hb. destruct (forbiddenByte b) eqn:E; [|done]. assert (existsb forbiddenByte n = true); [|congruence].
  apply existsb_exists. exists b. split; [by apply list_elem_of_In|done].
Qed.
Lemma allowed_text b : forbiddenByte b = false -> b <> x20 /\ b <> x0a /\ b <> x0d /\ (b2z b < 128 -> text_byte b = true).
Proof. destruct b; cbn; intros Hf; try discriminate Hf; split_and!; done || lia. Qed.

Section View.
Context {F : Type} `{FilesystemLaws F}.

Definition packed_at (f : F) : bytes := match files f !! [packedRefsPath] with Some b => b | None => [] end.

(** The map of references. *)
Definition ref_at (f : F) (n : ReferenceName) : option Reference :=
  match files f !! Split n x2f with
  | Some b => if bool_decide (b = []) then find_ref n (packed_refs (packed_at f)) else Some (NewReferenceFromStrings n (TrimSpace b))
  | None => find_ref n (packed_refs (packed_at f))
  end.

(** What is kept: a tree, with a packed-refs that is read. *)
Record dotgit_ok (f : F) : Prop := {
  dg_fs : fs_inv f;
  dg_nodir : [packedRefsPath] ∉ dirs f;
  dg_packed : packed_ok (packed_at f) }.

(** A name of a reference, which is not that of the packed ones. *)
Definition ref_name (n : ReferenceName) : Prop := Validate n = None /\ (n = HEAD \/ HasPrefix n (bs "refs/") = true).

Lemma packed_path : good_path [packedRefsPath] /\ pathOf [packedRefsPath] = packedRefsPath.
Proof. split; [|done]. split; [done|]. repeat constructor; try done. by apply (bool_decide_unpack _). Qed.

Lemma ref_name_path n : ref_name n -> good_path (Split n x2f) /\ pathOf (Split n x2f) = n /\ hd [] (Split n x2f) <> packedRefsPath /\
  (forall t, HasPrefix t tmpPackedRefsPrefix = true -> Split n x2f <> [t]).
Proof.
  intros [V Hn]. destruct (Validate_path n V) as [Hg Hp]. split; [done|]. split; [done|].
  assert (hd [] (Split n x2f) = HEAD \/ hd [] (Split n x2f) = bs "refs") as Hh.
  { destruct Hn as [->|[r ->]%HasPrefix_true]; [by left|]. right. change (bs "refs/") with (bs "refs" ++ [x2f]). rewrite <- app_assoc. cbn [app].
    by rewrite Split_cons by by apply (bool_decide_unpack _). }
  split; [destruct Hh as [-> | ->]; done|]. intros t [r Ht]%HasPrefix_true E. rewrite E in Hh. cbn in Hh. subst t. destruct Hh as [Hh|Hh]; discriminate Hh.
Qed.

(** Looking a name up in the lines. *)
Lemma lookup_lines n ls : Forall (fun l => exists r, processLine l = inr r) ls ->
  findPackedRefs_loop (fun (a : option Reference) r =>
    match r with Some r => if bool_decide (rname r = n) then (Some r, false) else (a, true) | None => (a, true) end) ls None None =
  (None, find_ref n (flat_map (fun l => match processLine l with inr (Some r) => [r] | _ => [] end) ls)).
Proof.
  intros Hl. induction Hl as [|l ls [r Er] Hl IH]; cbn [findPackedRefs_loop flat_map]; [done|]. rewrite Er.
  destruct r as [r|]; cbn [app]; [|exact IH]. unfold find_ref in *. cbn [List.find]. destruct (bool_decide (rname r = n)); [done|exact IH].
Qed.

Lemma find_lines {A} f (recv : A -> option Reference -> A * bool) a : dotgit_ok f ->
  findPackedRefs f recv a = findPackedRefs_loop recv (lines_of (packed_at f)) None a.
Proof.
  intros [Hi Hd Hp]. unfold findPackedRefs, packed_at in *. destruct packed_path as [Hg Ep].
  rewrite <- Ep at 1. rewrite law_open by done. destruct (files f !! [packedRefsPath]) as [content|]; [|done].
  destruct Hp as [Hs _]. unfold findPackedRefsInFile, lines_of. destruct (scanLines (Split content x0a)) as [ls e]. cbn in Hs. by subst e.
Qed.

Lemma packedRef_ok f n : dotgit_ok f -> packedRef f n = match find_ref n (packed_refs (packed_at f)) with Some r => inr r | None => inl ErrReferenceNotFound end.
Proof.
  intros Hok. unfold packedRef. rewrite find_lines by done. rewrite lookup_lines; [done|].
  eapply Forall_impl; [exact (packed_lines _ (dg_packed _ Hok))|]. by intros l [? _].
Qed.

Lemma readReferenceFile_ok f n : dotgit_ok f -> ref_name n ->
  readReferenceFile f (bs ".") n =
  if decide (Split n x2f ∈ dirs f) then inl ErrIsDir
  else match files f !! Split n x2f with Some b => readReferenceFrom b n | None => inl ErrNotExist end.
Proof.
  intros [Hi _ _] Hn. destruct (ref_name_path n Hn) as (Hg & Ep & _). unfold readReferenceFile. rewrite !law_join.
  destruct (good_join _ Hg) as (-> & _ & ->). rewrite law_stat by done. destruct (decide (Split n x2f ∈ dirs f)) as [Hd|Hd]; [done|].
  destruct (files f !! Split n x2f) as [b|] eqn:E; [|done]. by rewrite law_open, E.
Qed.

(** [Ref] looks the map up. *)
Lemma Ref_ok f n : dotgit_ok f -> ref_name n -> Ref f n = match ref_at f n with Some r => inr r | None => inl ErrReferenceNotFound end.
Proof.
  intros Hok Hn. unfold Ref, ref_at. rewrite readReferenceFile_ok, packedRef_ok by done.
  destruct (decide (Split n x2f ∈ dirs f)) as [Hd|Hd].
  - destruct (files f !! Split n x2f) as [b|] eqn:E; [|done]. by destruct (tree_file _ _ (law_tree f (dg_fs _ Hok)) _ _ E) as (_ & ? & _).
  - destruct (files f !! Split n x2f) as [b|] eqn:E; [|done]. unfold readReferenceFrom. destruct b as [|x b]; [done|].
    rewrite bool_decide_eq_false_2 by done. rewrite (proj2 (Z.eqb_neq _ 0)) by len_lia. done.
Qed.

(** ** Setting *)

(** A reference that a file can hold. *)
Definition writable (r : Reference) : Prop :=
  ref_name (rname r) /\
  ((rtype r = HashReference /\ wf_id (rhash r) /\ rtarget r = []) \/ (rtype r = SymbolicReference /\ rhash r = ZeroHash /\ Validate (rtarget r) = None /\ forall b, last (rtarget r) = Some b -> b2z b < 128)).

Lemma last_some {A} (l : list A) : l <> [] -> exists z, last l = Some z /\ z ∈ l.
Proof. intros Hl. destruct l as [|z l _] using rev_ind; [done|]. exists z. rewrite last_snoc. set_solver. Qed.

Lemma refContent_read r : writable r -> refContent r <> [] /\ NewReferenceFromStrings (rname r) (TrimSpace (refContent r)) = r.
Proof.
  intros [Hn Hr]. destruct r as [t n h tg]. cbn [rtype rname rhash rtarget] in *. unfold refContent, println.
  destruct Hr as [(-> & Hw & ->)|(-> & -> & V & Hl)]; cbn [rtype rname rhash rtarget]; (split; [by destruct (_ ++ _) eqn:E; [apply app_eq_nil in E as [_ ?]|]|]); rewrite TrimSpace_newline.
  - destruct (ref_id_text h Hw) as (a & l & -> & Hd & Eh & _). destruct (last_some (a :: l) ltac:(done)) as (z & Ez & Hz).
    rewrite (TrimSpace_text (a :: l) a z); [|done..| |].
    + unfold NewReferenceFromStrings. assert (HasPrefix (a :: l) symrefPrefix = false) as ->; [|by rewrite Eh].
      apply not_true_iff_false. intros [q E]%HasPrefix_true. injection E as Ea _. apply Forall_inv, hex_text in Hd. tauto.
    + apply Forall_inv, hex_text in Hd. tauto.
    + rewrite Forall_forall in Hd. by apply hex_text, Hd.
  - destruct (name_text tg V) as [Htn Hta]. destruct (last_some tg Htn) as (z & Ez & Hz). rewrite (TrimSpace_text (bs "ref: " ++ tg) x72 z); [|done| | |].
    + unfold NewReferenceFromStrings. change (bs "ref: ") with symrefPrefix. rewrite HasPrefix_self, drop_app_length. done.
    + destruct tg as [|y tg]; [done|]. by rewrite last_app_cons.
    + done.
    + rewrite Forall_forall in Hta. apply allowed_text; auto.
Qed.

(** What is above the path of a name is not packed-refs. *)
Lemma above_name n q : ref_name n -> q ∈ above (Split n x2f) -> q <> [packedRefsPath].
Proof.
  intros Hn (k & Hk & ->)%elem_of_above E. destruct (ref_name_path n Hn) as (_ & _ & Hh & _).
  destruct (Split n x2f) as [|c p]; [cbn in Hk; lia|]. destruct k as [|k]; [lia|]. cbn in E. injection E as -> _. done.
Qed.
Lemma name_not_packed n : ref_name n -> Split n x2f <> [packedRefsPath].
Proof. intros Hn E. destruct (ref_name_path n Hn) as (_ & _ & Hh & _). by rewrite E in Hh. Qed.

(** A change of the file of a name, and of the directories above it. *)
Record changed (f f' : F) (n : ReferenceName) (b : option bytes) : Prop := {
  ch_inv : fs_inv f';
  ch_files q : files f' !! q = if decide (q = Split n x2f) then b else files f !! q;
  ch_dirs : forall q, q ∈ dirs f' -> q ∈ dirs f \/ q ∈ above (Split n x2f) }.

Lemma changed_ok f f' n b : dotgit_ok f -> ref_name n -> changed f f' n b -> dotgit_ok f' /\ packed_at f' = packed_at f.
Proof.
  intros [Hi Hd Hp] Hn [C1 C2 C3]. assert (packed_at f' = packed_at f) as E.
  { unfold packed_at. rewrite C2, decide_False; [done|]. intros Eq. by apply (name_not_packed n Hn). }
  split; [|done]. split; [done| |by rewrite E]. intros Hin. apply C3 in Hin as [?|Hin]; [done|]. by apply above_name in Hin.
Qed.

(** The map after it. *)
Lemma changed_at f f' n b m : dotgit_ok f -> ref_name n -> changed f f' n b ->
  ref_at f' m = if decide (m = n) then
    match b with
    | Some b => if bool_decide (b = []) then find_ref n (packed_refs (packed_at f)) else Some (NewReferenceFromStrings n (TrimSpace b))
    | None => find_ref n (packed_refs (packed_at f))
    end
  else ref_at f m.
Proof.
  intros Hok Hn C. destruct (changed_ok f f' n b Hok Hn C) as [_ E]. destruct C as [_ C2 _]. unfold ref_at. rewrite E, C2.
  destruct (decide (m = n)) as [->|Hne]; [by rewrite decide_True|].
  rewrite decide_False; [done|]. intros Es. by apply Split_inj in Es.
Qed.

(** A place for the file of a name: it is there, or it can be made. *)
Definition can_hold (f : F) (n : ReferenceName) : Prop := is_Some (files f !! Split n x2f) \/ free_path (files f) (dirs f) (Split n x2f).

Lemma OpenFile_name f n trunc : fs_inv f -> ref_name n -> can_hold f n ->
  exists f', fs_OpenFile f n true trunc = inr (match files f !! Split n x2f with Some b => if trunc then [] else b | None => [] end, f') /\
    changed f f' n (Some (match files f !! Split n x2f with Some b => if trunc then [] else b | None => [] end)).
Proof.
  intros Hi Hn Hc. destruct (ref_name_path n Hn) as (Hg & Ep & _).
  destruct (files f !! Split n x2f) as [b|] eqn:E.
  - destruct (law_reopen f (Split n x2f) b true trunc Hi E) as (f' & E1 & I' & E2 & E3). rewrite Ep in E1. exists f'. split; [done|].
    split; [done| |rewrite E3; auto]. intros q. rewrite E2. case_decide as Hq; [subst q|]; destruct trunc; rewrite ?lookup_insert_eq, ?lookup_insert_ne; done.
  - destruct Hc as [[? Hc]|Hc]; [congruence|]. destruct (law_create f (Split n x2f) trunc Hi Hg Hc E) as (f' & E1 & I' & E2 & E3).
    rewrite Ep in E1. exists f'. split; [done|]. split; [done| |intros q; rewrite E3, elem_of_union; auto].
    intros q. rewrite E2. case_decide as Hq; [subst q|]; rewrite ?lookup_insert_eq, ?lookup_insert_ne; done.
Qed.

Lemma Write_name f n b b' : fs_inv f -> ref_name n -> files f !! Split n x2f = Some b ->
  exists f', fs_Write f n b' = inr f' /\ changed f f' n (Some b').
Proof.
  intros Hi Hn E. destruct (ref_name_path n Hn) as (_ & Ep & _). destruct (law_write f (Split n x2f) b b' Hi E) as (f' & E1 & I' & E2 & E3).
  rewrite Ep in E1. exists f'. split; [done|]. split; [done| |rewrite E3; auto].
  intros q. rewrite E2. case_decide as Hq; [subst q|]; rewrite ?lookup_insert_eq, ?lookup_insert_ne; done.
Qed.

Lemma changed_trans f f1 f2 n b1 b2 : changed f f1 n b1 -> changed f1 f2 n b2 -> changed f f2 n b2.
Proof.
  intros [_ A2 A3] [B1 B2 B3]. split; [done| |intros q Hq; destruct (B3 q Hq); auto].
  intros q. rewrite B2, A2. by case_decide.
Qed.
Lemma changed_file f f' n b : changed f f' n b -> files f' !! Split n x2f = b.
Proof. intros [_ -> _]. by rewrite decide_True. Qed.

(** Without an old reference to compare with, the new one is written. *)
Lemma SetRef_changed f r : fs_inv f -> writable r -> can_hold f (rname r) -> exists f', SetRef f r None = (None, f') /\ changed f f' (rname r) (Some (refContent r)).
Proof.
  intros Hi [Hn Hr] Hc. destruct (OpenFile_name f (rname r) true Hi Hn Hc) as (f1 & E1 & C1).
  destruct (Write_name f1 (rname r) _ (refContent r) (ch_inv _ _ _ _ C1) Hn (changed_file _ _ _ _ C1)) as (f2 & E2 & C2).
  exists f2. split; [|by eapply changed_trans].
  unfold SetRef, setRef, setRefRwfs, setRefNorwfs. rewrite bool_decide_eq_true_2 by done.
  destruct (fs_ReadAndWrite f); [rewrite E1; cbn [checkReferenceAndTruncate]; by rewrite E2|].
  destruct (fs_Stat f (rname r)); rewrite E1, E2; done.
Qed.

(** With an old reference, the one that is found decides; when it is refused the map stays, but an empty file may be left. *)
Lemma SetRef_checked f r old : dotgit_ok f -> writable r -> can_hold f (rname r) -> rname old = rname r -> fs_ReadAndWrite f = true ->
  let same f' := exists b, changed f f' (rname r) (Some b) /\ (files f !! Split (rname r) x2f = None /\ b = [] \/ files f !! Split (rname r) x2f = Some b) in
  match ref_at f (rname r) with
  | None => exists f', SetRef f r (Some old) = (Some ErrReferenceNotFound, f') /\ same f'
  | Some cur =>
    if decide (rhash cur = rhash old) then exists f', SetRef f r (Some old) = (None, f') /\ changed f f' (rname r) (Some (refContent r))
    else exists f', SetRef f r (Some old) = (Some ErrReferenceHasChanged, f') /\ same f'
  end.
Proof.
  intros Hok [Hn Hr] Hc Ho Hrw same. destruct (OpenFile_name f (rname r) false (dg_fs _ Hok) Hn Hc) as (f1 & E1 & C1).
  destruct (changed_ok _ _ _ _ Hok Hn C1) as [Hok1 Ep1]. set (b := match files f !! Split (rname r) x2f with Some b => _ | None => _ end) in *.
  assert (same f1) as Hsame.
  { exists b. split; [done|]. subst b. destruct (files f !! Split (rname r) x2f); auto. }
  assert (match readReferenceFrom b (rname old) with inl e => if bool_decide (e = ErrEmptyRefFile) then packedRef f1 (rname old) else inl e | inr ref => inr ref end
    = match ref_at f (rname r) with Some cur => inr cur | None => inl ErrReferenceNotFound end) as Eref.
  { rewrite Ho. unfold readReferenceFrom, ref_at. rewrite packedRef_ok, Ep1 by done. subst b.
    destruct (files f !! Split (rname r) x2f) as [[|x c]|]; [done| |done]. rewrite (proj2 (Z.eqb_neq _ 0)) by len_lia. by rewrite bool_decide_eq_false_2. }
  unfold SetRef, setRef, setRefRwfs. rewrite Hrw, bool_decide_eq_false_2, E1 by done. cbn [checkReferenceAndTruncate]. rewrite Eref.
  destruct (ref_at f (rname r)) as [cur|]; [|eauto]. destruct (decide (rhash cur = rhash old)) as [Eh|Eh].
  - rewrite (bool_decide_eq_true_2 _ Eh). cbn [negb].
    destruct (Write_name f1 (rname r) _ [] (ch_inv _ _ _ _ C1) Hn (changed_file _ _ _ _ C1)) as (f2 & -> & C2).
    destruct (Write_name f2 (rname r) _ (refContent r) (ch_inv _ _ _ _ C2) Hn (changed_file _ _ _ _ C2)) as (f3 & -> & C3).
    exists f3. split; [done|]. eapply changed_trans; [|exact C3]. by eapply changed_trans.
  - rewrite (bool_decide_eq_false_2 _ Eh). cbn [negb]. eauto.
Qed.
End View.
