(* ===== verification/DotGitPacked.v ===== *)
(** * storage/filesystem/dotgit: the file packed-refs rewritten

    Its lines are read back as they were written; removing a name from it and packing the loose references keep the map of
    references as it should be. *)
From S2P Require Import Prelude GoStrings GoPath Strconv ObjectID Reference PackpMessages DotGit DotGitProofs.

(** ** Lines *)

(** A line that the scanner gives back as it is. *)
Definition line_ok (l : bytes) : Prop := x0a ∉ l /\ len l < MaxScanTokenSize /\ last l <> Some x0d.

Lemma dropCR_id l : last l <> Some x0d -> dropCR l = l.
Proof.
  intros Hl. unfold dropCR, TrimSuffix. destruct (HasSuffix l [x0d]) eqn:E; [|done]. by apply HasSuffix_byte in E.
Qed.

Lemma Split_println ls rest : Forall (fun l => x0a ∉ l) ls -> Split (concat (map println ls) ++ rest) x0a = ls ++ Split rest x0a.
Proof.
  induction 1 as [|l ls Hl _ IH]; [done|]. cbn [map concat]. unfold println at 1. rewrite <- !app_assoc. cbn [app]. by rewrite Split_cons, IH.
Qed.

Lemma scan_println ls : Forall line_ok ls -> scanLines (Split (concat (map println ls)) x0a) = (ls, None).
Proof.
  intros H. rewrite <- (app_nil_r (concat _)), Split_println by (eapply Forall_impl; [exact H|]; by intros l [? _]).
  change (Split [] x0a) with ([[]] : list bytes). induction H as [|l ls (H1 & H2 & H3) H IH]; [done|]. cbn [app].
  assert (exists m ms, ls ++ [[]] = m :: ms) as (m & ms & Em) by (destruct ls; cbn; eauto). rewrite Em in *. cbn [scanLines] in *.
  rewrite (proj2 (Z.leb_gt _ _)) by lia. rewrite IH, dropCR_id by done. done.
Qed.

Lemma lines_raw ls : Forall (fun l => x0a ∉ l) ls -> Forall (fun l => x0a ∉ l /\ len l < MaxScanTokenSize) (scanLines ls).1.
Proof.
  assert (forall l, x0a ∉ l -> len l < MaxScanTokenSize -> x0a ∉ dropCR l /\ len (dropCR l) < MaxScanTokenSize) as Hd.
  { intros l Hl Hn. unfold dropCR, TrimSuffix. destruct (HasSuffix l [x0d]) eqn:E; [|done]. apply HasSuffix_true in E as [r ->].
    rewrite length_app, Nat.add_sub, take_app_length. rewrite len_app in Hn. split; [set_solver|]. pose proof (len_nonneg [x0d]). lia. }
  induction ls as [|l ls IH]; intros H; [done|]. apply Forall_cons_1 in H as [Hl H]. cbn [scanLines]. destruct ls as [|m ls].
  - destruct (Z.leb_spec MaxScanTokenSize (len l)); [done|]. destruct (len l =? 0); cbn; auto.
  - destruct (Z.leb_spec MaxScanTokenSize (len l)); [done|]. specialize (IH H). destruct (scanLines (m :: ls)) as [r e]. cbn in *. auto.
Qed.

Lemma packed_lines_ok content : packed_ok content -> Forall (fun l => line_ok l /\ exists r, processLine l = inr r) (lines_of content).
Proof.
  intros [_ Hp]. pose proof (lines_raw (Split content x0a) (Split_pieces content x0a)) as Hr. unfold lines_of in *.
  rewrite Forall_forall in *. intros l Hl. destruct (Hp l Hl) as [? ?], (Hr l Hl). split; [done|done].
Qed.

(** A file of such lines *)
Lemma packed_written ls : Forall (fun l => line_ok l /\ exists r, processLine l = inr r) ls ->
  packed_ok (concat (map println ls)) /\ lines_of (concat (map println ls)) = ls.
Proof.
  intros H. assert (Forall line_ok ls) as Hl by (eapply Forall_impl; [exact H|]; by intros l [? _]).
  assert (lines_of (concat (map println ls)) = ls) as E by (unfold lines_of; by rewrite scan_println). split; [|done].
  split; [by rewrite scan_println|]. rewrite E. eapply Forall_impl; [exact H|]. intros l [(_ & _ & ?) ?]. done.
Qed.

(** The lines without a name *)
Definition keeps_line (n : ReferenceName) (l : bytes) : bool :=
  negb match processLine l with inr (Some r) => bool_decide (rname r = n) | _ => false end.

Lemma linesWithoutRef_ok n ls : Forall (fun l => exists r, processLine l = inr r) ls -> forall out found,
  linesWithoutRef n ls None out found =
  (None, out ++ concat (map println (List.filter (keeps_line n) ls)), found || negb (forallb (keeps_line n) ls)).
Proof.
  induction 1 as [|l ls [r Er] H IH]; intros out found; cbn [linesWithoutRef List.filter forallb]; [by rewrite app_nil_r, orb_false_r|].
  assert (keeps_line n l = negb match r with Some r => bool_decide (rname r = n) | None => false end) as ->
    by (unfold keeps_line; rewrite Er; by destruct r).
  rewrite Er. destruct r as [r|]; [destruct (bool_decide (rname r = n))|]; cbn [negb andb].
  - rewrite IH. by destruct found.
  - rewrite IH. cbn [map concat]. by rewrite <- app_assoc.
  - rewrite IH. cbn [map concat]. by rewrite <- app_assoc.
Qed.

Lemma packed_refs_filter n ls :
  flat_map (fun l => match processLine l with inr (Some r) => [r] | _ => [] end) (List.filter (keeps_line n) ls) =
  List.filter (fun r => negb (bool_decide (rname r = n))) (flat_map (fun l => match processLine l with inr (Some r) => [r] | _ => [] end) ls).
Proof.
  induction ls as [|l ls IH]; [done|]. cbn [List.filter flat_map]. unfold keeps_line at 1. rewrite List.filter_app.
  destruct (processLine l) as [e|[r|]] eqn:E; cbn [negb]; [cbn [flat_map]; by rewrite E, IH| |cbn [flat_map]; by rewrite E, IH].
  cbn [List.filter]. destruct (bool_decide (rname r = n)); cbn [negb flat_map app]; [done|]. by rewrite E, IH.
Qed.

Lemma find_filter n m rs : find_ref m (List.filter (fun r => negb (bool_decide (rname r = n))) rs) = if decide (m = n) then None else find_ref m rs.
Proof.
  unfold find_ref. induction rs as [|r rs IH]; cbn [List.filter List.find]; [by destruct (decide (m = n))|].
  case_bool_decide as E1; cbn [negb List.find]; rewrite ?IH; case_bool_decide as E2; subst; try (by destruct (decide _)); by rewrite ?decide_True, ?decide_False.
Qed.

(** ** The file replaced *)
Section Rewrite.
Context {F : Type} `{FilesystemLaws F} (windows : bool).

Lemma packed_good : good_path [packedRefsPath] /\ pathOf [packedRefsPath] = packedRefsPath.
Proof. exact packed_path. Qed.

(** A temporary file [t] *)
Record temp_of (f : F) (t : bytes) : Prop := {
  tm_comp : component t;
  tm_name : HasPrefix t tmpPackedRefsPrefix = true;
  tm_dir : [t] ∉ dirs f }.

Lemma temp_not_packed f t : temp_of f t -> [t] <> [packedRefsPath].
Proof. intros [_ H1 _] [= ->]. discriminate H1. Qed.

Lemma TempFile_ok f : fs_inv f -> exists t f', fs_TempFile f [] tmpPackedRefsPrefix = inr (pathOf [t], f') /\ fs_inv f' /\ temp_of f' t /\
  files f !! [t] = None /\ files f' = <[[t] := []]> (files f) /\ dirs f' = dirs f.
Proof.
  intros Hi. assert (component tmpPackedRefsPrefix) as Hc by (split_and!; try done; by apply (bool_decide_unpack _)).
  destruct (law_temp f [] _ Hi Hc) as (t & f' & E & I' & Ct & Hp & _ & Hd & Hf & E1 & E2); [constructor|by intros q Hq%elem_of_empty|].
  change (above ([] ++ [t])) with (∅ : gset (list bytes)) in E2. rewrite union_empty_r_L in E2. exists t, f'. split_and!; try done. split; [done|done|by rewrite E2].
Qed.

Lemma dropTmp_ok f t : fs_inv f -> temp_of f t -> fs_inv (dropTmp f (pathOf [t])) /\ dirs (dropTmp f (pathOf [t])) = dirs f /\
  files (dropTmp f (pathOf [t])) = delete [t] (files f).
Proof.
  intros Hi [Hc _ Hd]. unfold dropTmp. destruct (files f !! [t]) as [b|] eqn:E.
  - destruct (law_remove f [t] b Hi E) as (f' & -> & I' & E1 & E2). done.
  - rewrite law_remove_none; [|done|by split; [|constructor]|done|done]. split_and!; try done. symmetry. by apply delete_id.
Qed.

(** Renamed or copied, the file has the bytes of the temporary one. *)
Lemma replace_ok f t out : fs_inv f -> temp_of f t -> files f !! [t] = Some out -> is_Some (files f !! [packedRefsPath]) ->
  exists f', rewritePackedRefsWhileLocked windows f (pathOf [t]) out = (None, f') /\ fs_inv f' /\ dirs f' = dirs f /\
    forall q, q <> [t] -> files f' !! q = <[[packedRefsPath] := out]> (files f) !! q.
Proof.
  intros Hi Ht Hf Hp. destruct packed_good as [Hg Ep]. unfold rewritePackedRefsWhileLocked. rewrite <- Ep.
  destruct (law_rename f [t] [packedRefsPath] out Hi Hf Hp (temp_not_packed f t Ht)) as [-> | (f' & -> & I' & E1 & E2)].
  - rewrite bool_decide_eq_true_2 by done. destruct Hp as [b Hb].
    destruct (law_reopen f _ b true true Hi Hb) as (f1 & -> & I1 & E1 & E2). cbn match.
    destruct (law_write f1 [packedRefsPath] [] out I1) as (f2 & -> & I2 & E3 & E4); [rewrite E1; by rewrite lookup_insert_eq|].
    exists f2. split_and!; try done; [congruence|]. intros q _. by rewrite E3, E1, insert_insert_eq.
  - exists f'. split_and!; try done. intros q Hq. rewrite E1. destruct (decide (q = [packedRefsPath])) as [->|Hne]; [by rewrite !lookup_insert_eq|].
    by rewrite !lookup_insert_ne, lookup_delete_ne by done.
Qed.

(** The same with the removal of the temporary file after it. *)
Lemma replace_drop f t out : fs_inv f -> temp_of f t -> files f !! [t] = Some out -> is_Some (files f !! [packedRefsPath]) ->
  exists f', rewritePackedRefsWhileLocked windows f (pathOf [t]) out = (None, f') /\ fs_inv (dropTmp f' (pathOf [t])) /\
    dirs (dropTmp f' (pathOf [t])) = dirs f /\ files (dropTmp f' (pathOf [t])) = <[[packedRefsPath] := out]> (delete [t] (files f)).
Proof.
  intros Hi Ht Hf Hp. destruct (replace_ok f t out Hi Ht Hf Hp) as (f' & E & I' & Ed & Ef). exists f'. split; [done|].
  destruct (dropTmp_ok f' t I') as (I2 & Ed2 & Ef2). { destruct Ht as [? ? ?]. split; [done|done|by rewrite Ed]. }
  split; [done|]. split; [congruence|]. rewrite Ef2. apply map_eq. intros q. rewrite lookup_delete, !lookup_insert, lookup_delete.
  pose proof (temp_not_packed f t Ht). case_decide as Eq; [subst q; by rewrite decide_False|]. by rewrite Ef, lookup_insert by done.
Qed.

(** [packed-refs] with new lines in it *)
Record repacked (f f' : F) (content : bytes) : Prop := {
  rp_inv : fs_inv f';
  rp_dirs : dirs f' = dirs f;
  rp_packed : packed_at f' = content;
  rp_files q : q <> [packedRefsPath] -> files f' !! q = files f !! q }.

Lemma rewriteWithoutRef_ok f n : dotgit_ok f -> exists f', rewritePackedRefsWithoutRef windows f n = (None, f') /\ packed_ok (packed_at f') /\
  repacked f f' (packed_at f') /\
  packed_refs (packed_at f') = List.filter (fun r => negb (bool_decide (rname r = n))) (packed_refs (packed_at f)).
Proof.
  intros [Hi Hd Hp]. pose proof (packed_lines_ok _ Hp) as Hl. destruct packed_good as [Hg _]. unfold rewritePackedRefsWithoutRef.
  unfold packed_at in *. destruct (files f !! [packedRefsPath]) as [content|] eqn:Ef.
  2: { rewrite (law_missing f [packedRefsPath] false Hi Hg Hd Ef : fs_OpenFile f packedRefsPath false false = _). exists f. split; [done|]. rewrite Ef. split; [done|]. split; [split; [done|done|by unfold packed_at; rewrite Ef|done]|done]. }
  destruct (law_reopen f _ content false false Hi Ef) as (f1 & E0 & I1 & E1 & E2). change (pathOf [packedRefsPath]) with packedRefsPath in E0. rewrite E0. cbn match.
  destruct (TempFile_ok f1 I1) as (t & f2 & -> & I2 & Ht & Hn & E3 & E4). pose proof (temp_not_packed _ _ Ht) as Hne.
  pose proof (packed_scan _ Hp) as Hs. unfold lines_of in Hl. unfold packed_refs, lines_of. destruct (scanLines (Split content x0a)) as [ls e] eqn:Esc. cbn [fst snd] in Hs, Hl |- *. subst e.
  assert (Forall (fun l => exists r, processLine l = inr r) ls) as Hls by (eapply Forall_impl; [exact Hl|]; by intros l [_ ?]).
  rewrite linesWithoutRef_ok by done. cbn [app]. set (out := concat (map println (List.filter (keeps_line n) ls))).
  destruct (law_write f2 [t] [] out I2) as (f3 & -> & I3 & E5 & E6); [rewrite E3; by rewrite lookup_insert_eq|].
  assert (temp_of f3 t) as Ht3. { destruct Ht as [? ? ?]. split; [done|done|by rewrite E6]. }
  cbn [orb]. destruct (forallb (keeps_line n) ls) eqn:Ek; cbn [negb].
  - destruct (dropTmp_ok f3 t I3 Ht3) as (I4 & E7 & E8). exists (dropTmp f3 (pathOf [t])). split; [done|].
    assert (files (dropTmp f3 (pathOf [t])) = files f) as Efs.
    { rewrite E8, E5, E3, E1. rewrite insert_insert_eq, delete_insert_eq, delete_id; [done|congruence]. }
    rewrite Efs, Ef. split; [done|]. split; [split; [done|congruence|by unfold packed_at; rewrite Efs, Ef|by intros; rewrite Efs]|].
    rewrite Esc. cbn [fst]. rewrite <- packed_refs_filter. f_equal. symmetry. clear -Ek. induction ls as [|l ls IH]; [done|]. cbn [forallb] in Ek.
    apply andb_true_iff in Ek as [E1 E2]. cbn [List.filter]. by rewrite E1, IH.
  - destruct (replace_drop f3 t out I3 Ht3) as (f4 & -> & I4 & E7 & E8).
    { rewrite E5. by rewrite lookup_insert_eq. } { rewrite E5, E3, E1, !lookup_insert_ne by done. by exists content. }
    exists (dropTmp f4 (pathOf [t])). split; [done|].
    assert (Forall (fun l => line_ok l /\ exists r, processLine l = inr r) (List.filter (keeps_line n) ls)) as Hk.
    { rewrite Forall_forall in *. intros l Hin. apply Hl. apply list_elem_of_In, filter_In in Hin as [Hin _]. by apply list_elem_of_In. }
    destruct (packed_written _ Hk) as [Hok Hlines].
    rewrite E8, lookup_insert_eq. split; [done|]. split; [split; [done|congruence|by unfold packed_at; rewrite E8, lookup_insert_eq|]|].
    + intros q Hq. rewrite E8, E5, E3, E1, lookup_insert_ne by done. destruct (decide (q = [t])) as [->|Hqt]; [rewrite lookup_delete_eq; congruence|].
      by rewrite lookup_delete_ne, !lookup_insert_ne by done.
    + unfold lines_of in Hlines. fold out in Hlines. rewrite Hlines. apply packed_refs_filter.
Qed.

Lemma repacked_ok f f' : dotgit_ok f -> repacked f f' (packed_at f') -> packed_ok (packed_at f') -> dotgit_ok f'.
Proof. intros [Hi Hd _] [R1 R2 _ R4] Hp. split; [done|by rewrite R2|done]. Qed.

(** Removing a name takes it out of the map. *)
Lemma RemoveRef_ok f n : dotgit_ok f -> ref_name n -> Split n x2f ∉ dirs f ->
  exists f', RemoveRef windows f n = (None, f') /\ dotgit_ok f' /\ forall m, ref_name m -> ref_at f' m = if decide (m = n) then None else ref_at f m.
Proof.
  intros Hok Hn Hd. destruct (ref_name_path n Hn) as (Hg & Ep & _). destruct (good_join _ Hg) as (_ & _ & Ej). rewrite Ep in Ej.
  unfold RemoveRef. rewrite law_join, Ej.
  assert (exists f0, (let (err, f) := match fs_Stat f n with inl e => (Some e, f) | inr _ => match fs_Remove f n with inl e => (Some e, f) | inr f => (None, f) end end in
      match err with Some e => if IsNotExist e then rewritePackedRefsWithoutRef windows f n else (Some e, f) | None => rewritePackedRefsWithoutRef windows f n end) =
      rewritePackedRefsWithoutRef windows f0 n /\ changed f f0 n None) as (f0 & -> & C).
  { pose proof (law_stat f _ (dg_fs _ Hok) Hg) as Hs. rewrite Ep in Hs. rewrite Hs, decide_False by done.
    destruct (files f !! Split n x2f) as [b|] eqn:E.
    - destruct (law_remove f _ b (dg_fs _ Hok) E) as (f0 & E0 & I0 & E1 & E2). rewrite Ep in E0. rewrite E0. exists f0. split; [done|].
      split; [done| |rewrite E2; auto]. intros q. rewrite E1, lookup_delete. clear Hs; by repeat case_decide; subst.
    - exists f. split; [done|]. split; [exact (dg_fs _ Hok)| |auto]. intros q. clear Hs; case_decide as Eq; [by rewrite Eq|done]. }
  destruct (changed_ok f f0 n None Hok Hn C) as [Hok0 Ep0].
  destruct (rewriteWithoutRef_ok f0 n Hok0) as (f' & -> & Hp & R & Ers). exists f'. split; [done|]. split; [by apply (repacked_ok f0)|].
  intros m Hm. pose proof (changed_at f f0 n None m Hok Hn C) as Ea. unfold ref_at in Ea |- *. rewrite (rp_files _ _ _ R) by by apply name_not_packed.
  rewrite Ers, find_filter. destruct (decide (m = n)) as [->|Hne]; [|exact Ea]. by rewrite (changed_file _ _ _ _ C).
Qed.
End Rewrite.

(** ** storage/filesystem/dotgit: listing and packing, and the theorems

    The walk of the directory refs gives every loose reference once; packing puts them into packed-refs and leaves the map of
    references as it is. *)
(** ** References collected once for each name *)
Definition names (rs : list Reference) : gset ReferenceName := list_to_set (map rname rs).

(** The names are those of the references, each once. *)
Definition collected_ok (c : collected) : Prop := c.2 = names c.1 /\ NoDup (map rname c.1).

Lemma refs_names_app a b : names (a ++ b) = names a ∪ names b.
Proof. unfold names. rewrite map_app, list_to_set_app_L. done. Qed.
Lemma elem_of_names n rs : n ∈ names rs <-> exists r, r ∈ rs /\ rname r = n.
Proof. unfold names. rewrite elem_of_list_to_set, list_elem_of_fmap. naive_solver. Qed.
Lemma find_ref_app n a b : find_ref n (a ++ b) = match find_ref n a with Some r => Some r | None => find_ref n b end.
Proof. unfold find_ref. induction a as [|r a IH]; [done|]. cbn. by case_bool_decide. Qed.
Lemma find_ref_none n rs : find_ref n rs = None <-> n ∉ names rs.
Proof.
  rewrite elem_of_names. unfold find_ref. split.
  - intros E (r & Hr & <-). apply list_elem_of_In in Hr. apply (List.find_none _ _ E) in Hr. by rewrite bool_decide_eq_true_2 in Hr.
  - intros Hn. destruct (List.find _ rs) as [r|] eqn:E; [|done]. apply find_some in E as [Hr E%bool_decide_eq_true]. destruct Hn. exists r.
    split; [by apply list_elem_of_In|done].
Qed.
Lemma find_ref_some rs r : NoDup (map rname rs) -> r ∈ rs -> find_ref (rname r) rs = Some r.
Proof.
  unfold find_ref. induction rs as [|x rs IH]; intros Hn Hr; [by apply not_elem_of_nil in Hr|]. cbn [map] in Hn. apply NoDup_cons in Hn as [Hx Hn]. cbn [List.find].
  apply elem_of_cons in Hr as [->|Hr]; [by rewrite bool_decide_eq_true_2|]. rewrite bool_decide_eq_false_2; [auto|].
  intros E. apply Hx. rewrite E. apply list_elem_of_fmap. eauto.
Qed.
Lemma find_ref_in n rs r : find_ref n rs = Some r -> r ∈ rs /\ rname r = n.
Proof. intros [Hr E%bool_decide_eq_true]%find_some. split; [by apply list_elem_of_In|done]. Qed.

Lemma recv_ok c r : collected_ok c -> collected_ok (refsRecvFunc c (Some r)).1 /\
  (refsRecvFunc c (Some r)).1.1 = c.1 ++ (if decide (rname r ∈ names c.1) then [] else [r]).
Proof.
  destruct c as [rs seen]. intros [Hs Hn]. cbn [fst snd] in *. subst seen. unfold refsRecvFunc. cbn [fst snd].
  destruct (decide (rname r ∈ names rs)) as [Hin|Hin].
  - rewrite bool_decide_eq_true_2 by done. cbn [fst]. by rewrite app_nil_r.
  - rewrite bool_decide_eq_false_2 by done. cbn [fst snd]. split; [|done]. split; cbn [fst snd].
    + rewrite refs_names_app. unfold names at 3. cbn. set_solver.
    + rewrite map_app. apply NoDup_app. split; [done|]. split; [|apply NoDup_singleton]. cbn. intros x Hx ->%list_elem_of_singleton. apply Hin.
      unfold names. by apply elem_of_list_to_set.
Qed.

(** The lines of packed-refs after the references of files. *)
Lemma collect_lines ls : Forall (fun l => exists r, processLine l = inr r) ls -> forall c, collected_ok c ->
  exists extra c', findPackedRefs_loop refsRecvFunc ls None c = (None, c') /\ collected_ok c' /\ c'.1 = c.1 ++ extra /\
    (forall r, r ∈ extra -> r ∈ flat_map (fun l => match processLine l with inr (Some r) => [r] | _ => [] end) ls) /\
    forall n, find_ref n c'.1 = match find_ref n c.1 with Some r => Some r | None => find_ref n (flat_map (fun l => match processLine l with inr (Some r) => [r] | _ => [] end) ls) end.
Proof.
  induction 1 as [|l ls [o Eo] Hl IH]; intros c Hc; cbn [findPackedRefs_loop flat_map].
  { exists [], c. split_and!; try done; [by rewrite app_nil_r|]. intros n. by destruct (find_ref n c.1). }
  rewrite Eo. destruct o as [r|]; cbn [app]; [|by apply IH].
  destruct (recv_ok c r Hc) as [Hc1 E1]. assert ((refsRecvFunc c (Some r)).2 = true) as E2 by (unfold refsRecvFunc; by case_bool_decide).
  destruct (refsRecvFunc c (Some r)) as [c1 more]. cbn [fst snd] in *. subst more.
  destruct (IH c1 Hc1) as (extra & c' & E & Hok & Ex & Hin & Hf). exists ((if decide (rname r ∈ names c.1) then [] else [r]) ++ extra), c'.
  split_and!; [done|done|by rewrite Ex, E1, <- app_assoc| |].
  - intros x [Hx|Hx]%elem_of_app; [case_decide; [by apply not_elem_of_nil in Hx|apply list_elem_of_singleton in Hx as ->; by left]|right; auto].
  - intros n. rewrite Hf, E1, find_ref_app. destruct (find_ref n c.1) as [x|] eqn:En; [done|]. unfold find_ref at 2 3. cbn [List.find].
    case_bool_decide as Er.
    + subst n. apply find_ref_none in En. rewrite decide_False by done. cbn. by rewrite bool_decide_eq_true_2.
    + case_decide; cbn; [done|]. by rewrite bool_decide_eq_false_2.
Qed.

(** ** The walk *)
Section Walk.
Context {F : Type} `{FilesystemLaws F}.

(** Every file under refs has a name of a reference and is not empty. *)
Definition loose_ok (f : F) : Prop := forall p b, files f !! p = Some b -> head p = Some refsPath -> ref_name (pathOf p) /\ b <> [].

(** The reference of a file *)
Definition ref_of (p : list bytes) (b : bytes) : Reference := NewReferenceFromStrings (pathOf p) (TrimSpace b).
Lemma rname_of p b : rname (ref_of p b) = pathOf p.
Proof. unfold ref_of, NewReferenceFromStrings. by destruct (HasPrefix _ _). Qed.
Lemma pathOf_inj p q : good_path p -> good_path q -> pathOf p = pathOf q -> p = q.
Proof. intros Hp Hq E. destruct (good_join p Hp) as (_ & <- & _), (good_join q Hq) as (_ & <- & _). by rewrite E. Qed.

Context (f : F) (Hok : dotgit_ok f) (Hloose : loose_ok f).
Let tree := law_tree f (dg_fs _ Hok).

Lemma read_loose p b : files f !! p = Some b -> head p = Some refsPath -> readReferenceFile f (bs ".") (pathOf p) = inr (ref_of p b).
Proof.
  intros E Hh. destruct (Hloose p b E Hh) as [Hn Hb]. destruct (tree_file _ _ tree _ _ E) as (Hg & Hd & _).
  rewrite readReferenceFile_ok by done. destruct (good_join p Hg) as (_ & -> & _). rewrite decide_False by done. rewrite E. unfold readReferenceFrom.
  destruct b; [done|]. by rewrite (proj2 (Z.eqb_neq _ 0)) by len_lia.
Qed.

(** The references of the files that [P] is about. *)
Definition refs_under (P : list bytes -> Prop) (rs : list Reference) : Prop := forall r, r ∈ rs <-> exists p b, files f !! p = Some b /\ P p /\ r = ref_of p b.

(** What a walk does to what was collected: it adds the references of the files that [P] is about. *)
Definition adds (P : list bytes -> Prop) (c : collected) (m : res collected) : Prop :=
  exists new c', m = Ok c' /\ collected_ok c' /\ c'.1 = c.1 ++ new /\ refs_under P new.

Definition apart (P : list bytes -> Prop) (c : collected) : Prop := forall p b, files f !! p = Some b -> P p -> pathOf p ∉ names c.1.

Lemma adds_apart P Q c c' new : refs_under P new -> c'.1 = c.1 ++ new -> apart Q c -> (forall p, P p -> Q p -> False) -> apart Q c'.
Proof.
  intros Hu E Ha Hd p b Ep Hq. rewrite E, refs_names_app, not_elem_of_union. split; [by eapply Ha|]. rewrite elem_of_names. intros (r & Hr & En).
  apply Hu in Hr as (p' & b' & Ep' & Hp' & ->). rewrite rname_of in En. apply pathOf_inj in En as ->; [by eapply Hd|by eapply tree_file|by eapply tree_file].
Qed.

(** A file under an entry that is a file is that file. *)
Lemma file_entry q b p b' : files f !! q = Some b -> files f !! p = Some b' -> q `prefix_of` p -> p = q /\ b' = b.
Proof.
  intros Eq Ep [s ->]. destruct s as [|x s]; [rewrite app_nil_r in *; split; congruence|].
  destruct (tree_file _ _ tree _ _ Eq) as ([Hne _] & Hn & _), (tree_file _ _ tree _ _ Ep) as (_ & _ & Hab). destruct Hn. apply Hab, elem_of_above.
  exists (length q). split; [rewrite !length_app; destruct q; [done|cbn; lia]|by rewrite take_app_length].
Qed.

(** The entries of a directory, given what the walk of a directory among them does. *)
Lemma walkFiles_ok walk rel l : head rel = Some refsPath -> NoDup (map fst l) ->
  (forall n c, (n, true) ∈ l -> collected_ok c -> apart (fun p => rel ++ [n] `prefix_of` p) c -> adds (fun p => rel ++ [n] `prefix_of` p) c (walk (rel ++ [n]) c)) ->
  (forall n, (n, false) ∈ l -> is_Some (files f !! (rel ++ [n]))) ->
  forall c, collected_ok c -> apart (fun p => exists n, n ∈ map fst l /\ rel ++ [n] `prefix_of` p) c ->
  adds (fun p => exists n, n ∈ map fst l /\ rel ++ [n] `prefix_of` p) c (walkFiles walk f rel l c).
Proof.
  intros Hh Hnd Hw Hfile. induction l as [|[n d] l IH]; intros c Hc Ha.
  { exists [], c. split_and!; try done; [by rewrite app_nil_r|]. intros r. split; [by intros ?%not_elem_of_nil|].
    intros (p & b & _ & (n & Hn & _) & _). by apply not_elem_of_nil in Hn. }
  cbn [map fst] in *. apply NoDup_cons in Hnd as [Hn Hnd]. cbn [walkFiles]. assert (head (rel ++ [n]) = Some refsPath) as Hh1 by by destruct rel.
  assert (apart (fun p => rel ++ [n] `prefix_of` p) c) as Ha1. { intros p b Ep Hp. apply (Ha p b Ep). exists n. split; [by left|done]. }
  assert (exists new c1, walkFiles walk f rel ((n, d) :: l) c = walkFiles walk f rel l c1 /\ collected_ok c1 /\ c1.1 = c.1 ++ new /\
    refs_under (fun p => rel ++ [n] `prefix_of` p) new) as (new & c1 & E1 & Hc1 & En & Hu).
  { cbn [walkFiles]. destruct d.
    - destruct (Hw n c ltac:(by left) Hc Ha1) as (new & c1 & -> & ?). exists new, c1. done.
    - destruct (Hfile n ltac:(by left)) as [b Eb]. pose proof (read_loose (rel ++ [n]) b Eb Hh1) as Er. unfold pathOf in Er. rewrite Er.
      destruct (recv_ok c (ref_of (rel ++ [n]) b) Hc) as [Hc1 E1]. rewrite rname_of, decide_False in E1 by by eapply Ha1. eexists [_], _. split; [done|].
      split; [done|]. split; [exact E1|]. intros r. rewrite list_elem_of_singleton. split; [intros ->; by exists (rel ++ [n]), b|].
      intros (p & b' & Ep & Hp & ->). by destruct (file_entry _ _ _ _ Eb Ep Hp) as [-> ->]. }
  cbn [walkFiles] in E1. rewrite E1. destruct (IH Hnd) with (c := c1) as (new2 & c2 & E2 & Hc2 & En2 & Hu2); [| |done| |].
  - intros m c0 Hm. apply Hw. by right.
  - intros m Hm. apply Hfile. by right.
  - eapply adds_apart; [exact Hu|exact En| |].
    + intros p b Ep (m & Hm & Hp). apply (Ha p b Ep). exists m. split; [by right|done].
    + intros p [s1 ->] (m & Hm & [s2 E]). rewrite <- !app_assoc in E. apply app_inv_head in E. injection E as -> _. done.
  - exists (new ++ new2), c2. split; [done|]. split; [done|]. split; [by rewrite En2, En, <- app_assoc|].
    intros r. rewrite elem_of_app, (Hu r), (Hu2 r). clear. setoid_rewrite elem_of_cons. naive_solver.
Qed.

Lemma refs_walk_ok fuel : forall rel c, rel ∈ dirs f -> head rel = Some refsPath -> (forall q, q ∈ dirs f -> length q < length rel + fuel)%nat ->
  collected_ok c -> apart (fun p => rel `prefix_of` p) c -> adds (fun p => rel `prefix_of` p) c (walkReferencesTree fuel f rel c).
Proof.
  induction fuel as [|fuel IH]; intros rel c Hrel Hh Hf Hc Ha; [specialize (Hf rel Hrel); lia|]. cbn [walkReferencesTree].
  destruct (tree_dir _ _ tree _ Hrel) as [Hg _]. rewrite law_join. destruct (good_join rel Hg) as (-> & _).
  destruct (law_readdir f rel (dg_fs _ Hok) Hrel) as (l & -> & Hnd & Hl).
  destruct (walkFiles_ok (walkReferencesTree fuel f) rel l Hh Hnd) with (c := c) as (new & c' & E & Hc' & En & Hu); [| |done| |].
  { intros n c0 [_ Hd]%Hl Hc0 Ha0. apply IH; try done; [by destruct rel|]. intros q Hq. specialize (Hf q Hq). rewrite length_app. cbn. lia. }
  { by intros n [_ Hd]%Hl. }
  { intros p b Ep (n & _ & [s ->]). apply (Ha _ _ Ep). exists ([n] ++ s). by rewrite app_assoc. }
  exists new, c'. split_and!; try done. intros r. rewrite (Hu r). split.
  - intros (p & b & Ep & (n & _ & [s ->]) & ->). eexists _, b. split; [done|]. split; [|done]. exists ([n] ++ s). by rewrite app_assoc.
  - intros (p & b & Ep & [s ->] & ->). exists (rel ++ s), b. split; [done|]. split; [|done].
    destruct (tree_file _ _ tree _ _ Ep) as ([_ Hg'] & Hnd' & Hab). apply Forall_app in Hg' as [_ Hg']. destruct s as [|n s]; [rewrite app_nil_r in *; done|].
    apply Forall_cons_1 in Hg' as [Hcn _]. assert (rel ++ n :: s = (rel ++ [n]) ++ s) as Es by by rewrite <- app_assoc. exists n. split; [|by exists s].
    apply list_elem_of_fmap. destruct s as [|x s]; [exists (n, false); split; [done|]; apply Hl; by eauto|].
    exists (n, true). split; [done|]. apply Hl. split; [done|]. apply Hab, elem_of_above.
    exists (length (rel ++ [n])). split; [rewrite !length_app; cbn; lia|by rewrite Es, take_app_length].
Qed.

(** All the loose references. *)
Lemma loose_refs fuel : (forall q, q ∈ dirs f -> length q <= fuel)%nat -> (0 < fuel)%nat ->
  exists new c, addRefsFromRefDir fuel f ([], ∅) = Ok c /\ collected_ok c /\ c.1 = new /\ refs_under (fun p => head p = Some refsPath) new.
Proof.
  intros Hf Hpos. unfold addRefsFromRefDir. assert (collected_ok ([], ∅)) as Hc by (split; [done|constructor]).
  assert (good_path [refsPath]) as Hg by (split; [done|]; repeat constructor; try done; by apply (bool_decide_unpack _)).
  destruct (decide ([refsPath] ∈ dirs f)) as [Hd|Hd].
  - destruct (refs_walk_ok fuel [refsPath] ([], ∅) Hd eq_refl) as (new & c & E & Hc' & En & Hu); [intros q Hq; specialize (Hf q Hq); cbn; lia|done|intros p b _ _; set_solver|].
    exists new, c. split_and!; try done. intros r. rewrite (Hu r). split; intros (p & b & Ep & Hp & ->); exists p, b; split_and!; try done.
    + by destruct Hp as [s ->].
    + destruct p as [|x p]; [done|]. injection Hp as ->. by exists p.
  - destruct fuel as [|fuel]; [lia|]. cbn [walkReferencesTree]. rewrite law_join. destruct (good_join _ Hg) as (-> & _).
    assert (forall p b, files f !! p = Some b -> head p = Some refsPath -> False) as Hnone.
    { intros p b Ep Hh. destruct p as [|x p]; [done|]. injection Hh as ->. destruct p as [|y p].
      - destruct (Hloose _ _ Ep eq_refl) as [[V _] _]. discriminate V.
      - destruct (tree_file _ _ tree _ _ Ep) as (_ & _ & Hab). destruct Hd. apply Hab, elem_of_above. exists 1%nat. split; [cbn; lia|done]. }
    rewrite law_readdir_none; [|exact (dg_fs _ Hok)|done|done|].
    + exists [], ([], ∅). split_and!; try done. intros r. split; [by intros ?%not_elem_of_nil|]. intros (p & b & Ep & Hh & _). by destruct (Hnone p b).
    + destruct (files f !! [refsPath]) as [b|] eqn:E; [|done]. by destruct (Hnone _ _ E).
Qed.
End Walk.

(** ** Packing *)

(** A reference that a line of packed-refs can hold. *)
Definition packable (r : Reference) : Prop :=
  rtype r = HashReference /\ wf_id (rhash r) /\ rtarget r = [] /\ Validate (rname r) = None /\ len (rname r) < 65000.

Lemma packable_line r : packable r -> line_ok (Reference_String r) /\ processLine (Reference_String r) = inr (Some r).
Proof.
  destruct r as [t n h tg]. intros (Ht & Hw & Htg & V & Hl). cbn [rtype rname rhash rtarget] in *. subst t tg. unfold Reference_String. cbn [rtype rname rhash rtarget].
  destruct (ref_id_text h Hw) as (a & l & -> & Hd & Eh & Hlen). destruct (name_text n V) as [Hn Ha].
  assert (forall b, b ∈ a :: l -> hexValue b <> None) as Hd' by by apply Forall_forall.
  assert (forall b, b ∈ n -> forbiddenByte b = false) as Ha' by by apply Forall_forall.
  split.
  - split; [|split].
    + rewrite !not_elem_of_app. split_and!; [intros Hb; apply Hd', hex_text in Hb; destruct_and!; done|by apply (bool_decide_unpack _)|intros Hb; by apply Ha', allowed_text in Hb as (_ & ? & _)].
    + rewrite !len_app. unfold MaxScanTokenSize. change (len (bs " ")) with 1. lia.
    + destruct (last_some n Hn) as (z & Ez & Hz). destruct n as [|x n]; [done|]. change (bs " " ++ x :: n) with ([x20] ++ x :: n). rewrite app_assoc, last_app_cons, Ez.
      intros [= ->]. apply Ha', allowed_text in Hz. tauto.
  - cbn [app processLine]. destruct (hex_text a) as (_ & H1 & H2 & _); [by apply Hd'; left|]. rewrite !bool_decide_eq_false_2 by done. cbn [orb].
    change (a :: l ++ bs " " ++ n) with ((a :: l) ++ x20 :: n). rewrite Split_cons, Split_single.
    + unfold NewReferenceFromStrings. assert (HasPrefix (a :: l) symrefPrefix = false) as ->; [|by rewrite Eh].
      apply not_true_iff_false. intros [q E]%HasPrefix_true. injection E as Ea _. destruct (hex_text a); [by apply Hd'; left|]. tauto.
    + intros Hb. by apply Ha', allowed_text in Hb as (? & _).
    + intros Hb. apply Hd', hex_text in Hb. destruct_and!; done.
Qed.

(** A file of packed-refs with such references *)
Lemma packed_refs_written rs : Forall packable rs ->
  packed_ok (flat_map (fun r => println (Reference_String r)) rs) /\ packed_refs (flat_map (fun r => println (Reference_String r)) rs) = rs.
Proof.
  intros Hp. assert (flat_map (fun r => println (Reference_String r)) rs = concat (map println (map Reference_String rs))) as ->.
  { rewrite map_map. by rewrite flat_map_concat_map. }
  destruct (packed_written (map Reference_String rs)) as [H1 H2].
  { apply Forall_map. eapply Forall_impl; [exact Hp|]. intros r [H1 H2]%packable_line. split; [done|by eexists]. }
  split; [done|]. unfold packed_refs. rewrite H2. clear -Hp. induction Hp as [|r rs Hr Hp IH]; [done|]. cbn [map flat_map].
  destruct (packable_line r Hr) as [_ ->]. cbn [app]. by rewrite IH.
Qed.

Section Pack.
Context {F : Type} `{FilesystemLaws F} (windows : bool).

Lemma removeLoose_ok rs : forall f, fs_inv f -> Forall (fun r => ref_name (rname r) /\ is_Some (files f !! Split (rname r) x2f)) rs -> NoDup (map rname rs) ->
  exists f', removeLoose f rs = (None, f') /\ fs_inv f' /\ dirs f' = dirs f /\
    forall q, files f' !! q = if decide (q ∈ map (fun r => Split (rname r) x2f) rs) then None else files f !! q.
Proof.
  induction rs as [|r rs IH]; intros f Hi Hr Hn; cbn [removeLoose map] in *.
  { exists f. split_and!; try done. }
  apply Forall_cons_1 in Hr as [[Hname [b Eb]] Hr]. apply NoDup_cons in Hn as [Hnr Hn].
  destruct (ref_name_path _ Hname) as (Hg & Ep & _). destruct (good_join _ Hg) as (_ & _ & Ej). rewrite Ep in Ej. rewrite law_join, Ej.
  destruct (law_remove f _ b Hi Eb) as (f1 & E1 & I1 & E2 & E3). rewrite Ep in E1. rewrite E1.
  assert (forall x, x ∈ rs -> Split (rname x) x2f <> Split (rname r) x2f) as Hne.
  { intros x Hx Es%Split_inj. apply Hnr. rewrite <- Es. apply list_elem_of_fmap. eauto. }
  destruct (IH f1 I1) as (f' & E' & I' & Ed & Ef); [|done|].
  { rewrite Forall_forall in *. intros x Hx. destruct (Hr x Hx). split; [done|]. by rewrite E2, lookup_delete_ne by (intros E; by apply (Hne x Hx)). }
  exists f'. split_and!; [done|done|congruence|]. intros q. rewrite Ef, E2, lookup_delete.
  destruct (decide (q ∈ map (fun r => Split (rname r) x2f) rs)) as [Hq|Hq]; [by rewrite decide_True by by right|].
  destruct (decide (Split (rname r) x2f = q)) as [<-|Hq2]; [by rewrite decide_True by by left|]. rewrite decide_False; [done|].
  intros [E|?]%elem_of_cons; congruence.
Qed.

(** The files after a packing: the loose references gone, and packed-refs with them in it. *)
Lemma packed_view f f' (c c' : collected) extra : dotgit_ok f -> loose_ok f -> collected_ok c -> c'.1 = c.1 ++ extra ->
  refs_under f (fun p => head p = Some refsPath) c.1 -> Forall packable c'.1 ->
  (forall n, find_ref n c'.1 = match find_ref n c.1 with Some r => Some r | None => find_ref n (packed_refs (packed_at f)) end) ->
  fs_inv f' -> dirs f' = dirs f -> files f' !! [packedRefsPath] = Some (flat_map (fun r => println (Reference_String r)) c'.1) ->
  (forall n, ref_name n -> files f' !! Split n x2f = if decide (n ∈ names c.1) then None else files f !! Split n x2f) ->
  dotgit_ok f' /\ forall n, ref_name n -> ref_at f' n = ref_at f n.
Proof.
  intros Hok Hloose [_ Hnd] Ec Hu Hp Hf I' Ed Epk Efs. destruct (packed_refs_written _ Hp) as [Hpok Hprs].
  assert (packed_at f' = flat_map (fun r => println (Reference_String r)) c'.1) as Epa by (unfold packed_at; by rewrite Epk).
  split; [split; [done|rewrite Ed; apply Hok|by rewrite Epa]|]. intros n Hn. unfold ref_at. rewrite Efs, Epa, Hprs, Hf by done.
  destruct (decide (n ∈ names c.1)) as [Hin|Hin].
  - pose proof Hin as (r & Hr & En)%elem_of_names. rewrite <- En, (find_ref_some _ _ Hnd Hr). apply Hu in Hr as (p & b & Ep & Hh & ->). rewrite rname_of.
    destruct (tree_file _ _ (law_tree f (dg_fs _ Hok)) _ _ Ep) as (Hg & _). destruct (good_join p Hg) as (_ & -> & _). rewrite Ep.
    by rewrite bool_decide_eq_false_2 by by apply (Hloose p b Ep Hh).
  - by rewrite (proj2 (find_ref_none _ _) Hin).
Qed.

(** Packing the references that were found. *)
Lemma packCollected_ok f c : dotgit_ok f -> loose_ok f -> is_Some (files f !! [packedRefsPath]) -> collected_ok c -> c.1 <> [] ->
  refs_under f (fun p => head p = Some refsPath) c.1 -> Forall packable c.1 -> Forall packable (packed_refs (packed_at f)) ->
  exists f', packCollected windows f (packed_at f) c = (None, f') /\ dotgit_ok f' /\
    (forall n, ref_name n -> ref_at f' n = ref_at f n) /\ forall p, head p = Some refsPath -> files f' !! p = None.
Proof.
  intros Hok Hloose Hpk Hc Hne Hu Hp1 Hp2. pose proof (dg_packed _ Hok) as Hpok. unfold packCollected.
  rewrite (proj2 (Z.eqb_neq _ 0)) by (destruct c.1; [done|len_lia]). unfold findPackedRefsInFile.
  assert (scanLines (Split (packed_at f) x0a) = (lines_of (packed_at f), None)) as ->.
  { unfold lines_of. rewrite (surjective_pairing (scanLines _)). by rewrite (packed_scan _ Hpok). }
  destruct (collect_lines (lines_of (packed_at f))) with (c := c) as (extra & c' & -> & Hc' & Ec & Hin & Hf); [|done|].
  { eapply Forall_impl; [exact (packed_lines _ Hpok)|]. by intros l [? _]. }
  fold (packed_refs (packed_at f)) in Hin, Hf.
  destruct (TempFile_ok f (dg_fs _ Hok)) as (t & f1 & -> & I1 & Ht & Hnt & E1 & E2). pose proof (temp_not_packed _ _ Ht) as Htp.
  set (out := flat_map _ c'.1). destruct (law_write f1 [t] [] out I1) as (f2 & -> & I2 & E3 & E4); [rewrite E1; by rewrite lookup_insert_eq|].
  assert (temp_of f2 t) as Ht2. { destruct Ht as [? ? ?]. split; [done|done|by rewrite E4]. }
  destruct (replace_ok windows f2 t out I2 Ht2) as (f3 & -> & I3 & Ed3 & Ef3).
  { rewrite E3. by rewrite lookup_insert_eq. } { rewrite E3, E1, !lookup_insert_ne by done. done. }
  assert (forall q, q <> [t] -> files f3 !! q = if decide (q = [packedRefsPath]) then Some out else files f !! q) as Ef.
  { intros q Hq. rewrite Ef3, E3, E1 by done. rewrite lookup_insert. case_decide as Eq; [subst q; by rewrite decide_True|].
    rewrite decide_False by done. by rewrite !lookup_insert_ne. }
  assert (Forall (fun r => ref_name (rname r) /\ exists p, Split (rname r) x2f = p /\ head p = Some refsPath /\ is_Some (files f !! p)) c.1) as Hnames.
  { apply Forall_forall. intros r (p & b & Ep & Hh & ->)%Hu. rewrite rname_of. destruct (Hloose p b Ep Hh) as [Hn _]. split; [done|]. exists p.
    destruct (tree_file _ _ (law_tree f (dg_fs _ Hok)) _ _ Ep) as (Hg & _). destruct (good_join p Hg) as (_ & -> & _). eauto. }
  rewrite Ec, take_app_length. destruct (removeLoose_ok c.1 f3 I3) as (f4 & -> & I4 & Ed4 & Ef4); [|apply Hc|].
  { eapply Forall_impl; [exact Hnames|]. intros r (Hn & p & Ep & _ & Hs). split; [done|]. destruct (ref_name_path _ Hn) as (_ & _ & _ & Hnt').
    rewrite Ef by (apply Hnt'; apply Ht). rewrite decide_False by by apply name_not_packed. by rewrite Ep. }
  destruct (dropTmp_ok f4 t I4) as (I5 & Ed5 & Ef5). { destruct Ht2 as [? ? ?]. split; [done|done|by rewrite Ed4, Ed3]. }
  exists (dropTmp f4 (pathOf [t])). split; [done|].
  assert (forall n, Split n x2f ∈ map (fun r => Split (rname r) x2f) c.1 <-> n ∈ names c.1) as Hpaths.
  { intros n. rewrite elem_of_names, list_elem_of_fmap. split; [intros (r & E%Split_inj & Hr); eauto|intros (r & Hr & <-); eauto]. }
  assert (Forall packable c'.1) as Hpc. { rewrite Ec. apply Forall_app. split; [done|]. rewrite Forall_forall in *. auto. }
  destruct (packed_view f (dropTmp f4 (pathOf [t])) c c' extra) as [Hok5 Hview]; try done.
  - congruence.
  - rewrite Ef5, lookup_delete_ne, Ef4 by done. rewrite decide_False; [by rewrite Ef, decide_True|]. intros (r & E & Hr)%list_elem_of_fmap.
    rewrite Forall_forall in Hnames. destruct (Hnames r Hr) as [Hn _]. by apply (name_not_packed _ Hn).
  - intros n Hn. destruct (ref_name_path n Hn) as (_ & _ & _ & Hnt'). rewrite Ef5, lookup_delete_ne by (intros E; by apply (Hnt' t (tm_name _ _ Ht))).
    rewrite Ef4. rewrite (decide_ext _ _ _ _ (Hpaths n)). case_decide; [done|]. rewrite Ef by (apply Hnt'; apply Ht). by rewrite decide_False by by apply name_not_packed.
  - split; [done|]. split; [done|]. intros p Hh. rewrite Ef5, lookup_delete. case_decide; [done|]. rewrite Ef4. case_decide as Hq; [done|].
    rewrite Ef by done. rewrite decide_False by (by intros ->). destruct (files f !! p) as [b|] eqn:Ep; [|done]. destruct Hq. apply list_elem_of_fmap.
    exists (ref_of p b). destruct (tree_file _ _ (law_tree f (dg_fs _ Hok)) _ _ Ep) as (Hg & _). rewrite rname_of. destruct (good_join p Hg) as (_ & -> & _). split; [done|].
    apply Hu. eauto.
Qed.

Lemma PackRefs_ok fuel f : dotgit_ok f -> loose_ok f -> (forall q, q ∈ dirs f -> length q <= fuel)%nat -> (0 < fuel)%nat ->
  (forall p b, files f !! p = Some b -> head p = Some refsPath -> packable (ref_of p b)) -> Forall packable (packed_refs (packed_at f)) ->
  exists f', PackRefs windows fuel f = Ok (None, f') /\ dotgit_ok f' /\ (forall n, ref_name n -> ref_at f' n = ref_at f n) /\
    forall p, head p = Some refsPath -> files f' !! p = None.
Proof.
  intros Hok Hloose Hf Hpos Hp1 Hp2. unfold PackRefs. destruct packed_path as [Hg _].
  assert (exists f1, fs_OpenFile f packedRefsPath true false = inr (packed_at f, f1) /\ fs_inv f1 /\ dirs f1 = dirs f /\ is_Some (files f1 !! [packedRefsPath]) /\
    packed_at f1 = packed_at f /\ forall q, q <> [packedRefsPath] -> files f1 !! q = files f !! q) as (f1 & -> & I1 & Ed & Hs & Epa & Ef).
  { unfold packed_at. destruct (files f !! [packedRefsPath]) as [b|] eqn:E.
    - destruct (law_reopen f _ b true false (dg_fs _ Hok) E) as (f1 & E1 & I1 & E2 & E3). exists f1. rewrite E2, E. split_and!; done.
    - destruct (law_create f [packedRefsPath] false (dg_fs _ Hok) Hg) as (f1 & E1 & I1 & E2 & E3); [|done|].
      { split; [apply Hok|]. intros q (k & Hk & _)%elem_of_above. cbn in Hk. lia. }
      exists f1. split; [done|]. split; [done|]. split; [rewrite E3; assert (above [packedRefsPath] = ∅) as -> by done; by rewrite union_empty_r_L|].
      rewrite E2, lookup_insert_eq. split_and!; try done. intros q Hq. by rewrite lookup_insert_ne. }
  assert (dotgit_ok f1) as Hok1 by (split; [done|rewrite Ed; apply Hok|rewrite Epa; apply Hok]).
  assert (forall p, head p = Some refsPath -> files f1 !! p = files f !! p) as Ef1 by (intros p Hh; apply Ef; by intros ->).
  assert (loose_ok f1) as Hloose1 by (intros p b Ep Hh; rewrite Ef1 in Ep by done; by apply (Hloose p b)).
  destruct (loose_refs f1 Hok1 Hloose1 fuel) as (new & c & -> & Hc & <- & Hu); [by rewrite Ed|done|].
  assert (forall n, ref_name n -> ref_at f1 n = ref_at f n) as Hv1.
  { intros n Hn. unfold ref_at. rewrite Epa, Ef by by apply name_not_packed. done. }
  destruct (decide (c.1 = [])) as [Ee|Hne].
  - exists f1. unfold packCollected. rewrite Ee. split; [done|]. split; [done|]. split; [done|]. intros p Hh.
    destruct (files f1 !! p) as [b|] eqn:Ep; [|done]. assert (ref_of p b ∈ c.1) as Hin by (apply Hu; eauto). rewrite Ee in Hin. by apply not_elem_of_nil in Hin.
  - destruct (packCollected_ok f1 c Hok1 Hloose1 Hs Hc Hne Hu) as (f' & E' & Hok' & Hv & Hgone).
    + apply Forall_forall. intros r (p & b & Ep & Hh & ->)%Hu. rewrite Ef1 in Ep by done. by apply Hp1.
    + by rewrite Epa.
    + exists f'. rewrite Epa in E'. rewrite E'. split; [done|]. split; [done|]. split; [|done]. intros n Hn. by rewrite Hv, Hv1.
Qed.
End Pack.

(** ** Listing *)
Section List.
Context {F : Type} `{FilesystemLaws F}.

(** What was collected before does not matter, but for its names. *)
Definition prepend (pre : list Reference) (m : res collected) : res collected := let* c := m in Ok (pre ++ c.1, c.2).

Lemma recv_prepend pre c r : (refsRecvFunc (pre ++ c.1, c.2) r).1 = (pre ++ (refsRecvFunc c r).1.1, (refsRecvFunc c r).1.2).
Proof. unfold refsRecvFunc. destruct r as [r|]; [|done]. cbn [fst snd]. case_bool_decide; cbn; [done|]. by rewrite app_assoc. Qed.

Lemma walk_prepend pre f fuel : forall rel c, walkReferencesTree fuel f rel (pre ++ c.1, c.2) = prepend pre (walkReferencesTree fuel f rel c).
Proof.
  induction fuel as [|fuel IH]; intros rel c; cbn [walkReferencesTree]; [done|].
  destruct (fs_ReadDir f (fs_Join f rel)) as [e|l]; [by destruct (IsNotExist e)|].
  revert c. induction l as [|[n d] l IHl]; intros c; cbn [walkFiles]; [done|]. destruct d.
  - rewrite IH. destruct (walkReferencesTree fuel f (rel ++ [n]) c) as [c'| | |]; try done. cbn [prepend res_bind]. apply IHl.
  - destruct (readReferenceFile _ _ _) as [e|r]; [destruct (IsNotExist e); [apply IHl|done]|]. rewrite recv_prepend. apply IHl.
Qed.

Lemma lines_prepend pre ls e : forall c, findPackedRefs_loop refsRecvFunc ls e (pre ++ c.1, c.2) =
  let (err, c') := findPackedRefs_loop refsRecvFunc ls e c in (err, (pre ++ c'.1, c'.2)).
Proof.
  induction ls as [|l ls IH]; intros c; cbn [findPackedRefs_loop]; [done|]. destruct (processLine l) as [e'|o]; [done|].
  pose proof (recv_prepend pre c o) as E. assert (forall c, (refsRecvFunc c o).2 = true) as Et by (intros x; unfold refsRecvFunc; by repeat case_match).
  pose proof (Et (pre ++ c.1, c.2)) as E1. pose proof (Et c) as E2. destruct (refsRecvFunc (pre ++ c.1, c.2) o) as [a1 m1], (refsRecvFunc c o) as [a2 m2].
  cbn [fst snd] in *. subst. apply IH.
Qed.

Lemma ref_name_refs n : ref_name n -> n <> HEAD -> head (Split n x2f) = Some refsPath.
Proof.
  intros [_ [?|[r ->]%HasPrefix_true]] Hn; [done|]. change (bs "refs/") with (refsPath ++ [x2f]). rewrite <- app_assoc. cbn [app].
  by rewrite Split_cons by by apply (bool_decide_unpack _).
Qed.

(** The references of files and lines together are the map. *)
Lemma collected_map f (c c' : collected) : dotgit_ok f -> loose_ok f -> collected_ok c -> refs_under f (fun p => head p = Some refsPath) c.1 ->
  (forall n, find_ref n c'.1 = match find_ref n c.1 with Some r => Some r | None => find_ref n (packed_refs (packed_at f)) end) ->
  forall n, ref_name n -> n <> HEAD -> find_ref n c'.1 = ref_at f n.
Proof.
  intros Hok Hloose [_ Hnd] Hu Hf n Hn Hne. rewrite Hf. unfold ref_at. destruct (ref_name_path n Hn) as (Hg & Ep & _).
  pose proof (ref_name_refs n Hn Hne) as Hh. destruct (files f !! Split n x2f) as [b|] eqn:E.
  - assert (ref_of (Split n x2f) b ∈ c.1) as Hin by (apply Hu; eauto). pose proof (find_ref_some _ _ Hnd Hin) as Ef. rewrite rname_of, Ep in Ef. rewrite Ef.
    rewrite bool_decide_eq_false_2 by by apply (Hloose _ _ E Hh). unfold ref_of. by rewrite Ep.
  - destruct (find_ref n c.1) as [r|] eqn:Ef; [|done]. apply find_ref_in in Ef as [(p & b & Epf & _ & ->)%Hu En]. rewrite rname_of in En. subst n.
    destruct (tree_file _ _ (law_tree f (dg_fs _ Hok)) _ _ Epf) as (Hgp & _). destruct (good_join p Hgp) as (_ & Es & _). congruence.
Qed.

(** Every reference of the map once, HEAD first. *)
Lemma Refs_ok fuel f : dotgit_ok f -> loose_ok f -> (forall q, q ∈ dirs f -> length q <= fuel)%nat -> (0 < fuel)%nat ->
  [HEAD] ∉ dirs f -> files f !! [HEAD] <> Some [] -> Forall (fun r => ref_name (rname r) /\ rname r <> HEAD) (packed_refs (packed_at f)) ->
  exists l, Refs fuel f = Ok l /\ NoDup (map rname l) /\ forall r, r ∈ l <-> ref_name (rname r) /\ ref_at f (rname r) = Some r.
Proof.
  intros Hok Hloose Hf Hpos Hd Hh0 Hpk. assert (ref_name HEAD) as HnH by (split; [done|by left]).
  set (pre := match ref_at f HEAD with Some r => [r] | None => [] end).
  assert (find_ref HEAD (packed_refs (packed_at f)) = None) as HpH.
  { apply find_ref_none. rewrite elem_of_names. intros (r & Hr & E). rewrite Forall_forall in Hpk. by destruct (Hpk r Hr). }
  assert (addRefFromHEAD f ([], ∅) = Ok (pre ++ [], ∅)) as E1.
  { unfold addRefFromHEAD. rewrite readReferenceFile_ok by done. subst pre. unfold ref_at. rewrite HpH. change (Split HEAD x2f) with [HEAD]. rewrite decide_False by done.
    destruct (files f !! [HEAD]) as [[|x b]|]; [done| |done]. unfold readReferenceFrom. rewrite (proj2 (Z.eqb_neq _ 0)) by len_lia. done. }
  destruct (loose_refs f Hok Hloose fuel Hf Hpos) as (new & c & E2 & Hc & <- & Hu).
  destruct (collect_lines (lines_of (packed_at f))) with (c := c) as (extra & c' & E3 & Hc' & Ec & Hin & Hfr); [|done|].
  { eapply Forall_impl; [exact (packed_lines _ (dg_packed _ Hok))|]. by intros l [? _]. }
  fold (packed_refs (packed_at f)) in Hin, Hfr. exists (pre ++ c'.1). split.
  { unfold Refs. rewrite E1. cbn [res_bind]. unfold addRefsFromRefDir in *. pose proof (walk_prepend pre f fuel [refsPath] ([], ∅)) as Ew. cbn [fst snd] in Ew. rewrite Ew, E2. cbn [prepend res_bind].
    unfold addRefsFromPackedRefs. rewrite find_lines, lines_prepend, E3 by done. done. }
  assert (forall r, r ∈ c'.1 -> ref_name (rname r) /\ rname r <> HEAD) as Hn'.
  { intros r. rewrite Ec. intros [(p & b & Ep & Hh & ->)%Hu|Hr]%elem_of_app; [|rewrite Forall_forall in Hpk; auto]. rewrite rname_of.
    destruct (Hloose p b Ep Hh) as [Hn _]. split; [done|]. intros E. destruct (tree_file _ _ (law_tree f (dg_fs _ Hok)) _ _ Ep) as (Hg & _).
    destruct (good_join p Hg) as (_ & Es & _). rewrite E in Es. by subst p. }
  assert (forall r, r ∈ pre <-> rname r = HEAD /\ ref_at f HEAD = Some r) as Hpre.
  { intros r. subst pre. assert (forall x, ref_at f HEAD = Some x -> rname x = HEAD) as Hx.
    { intros x. unfold ref_at. rewrite HpH. destruct (files f !! Split HEAD x2f) as [b|]; [|done]. case_bool_decide; [done|]. intros [= <-].
      unfold NewReferenceFromStrings. by destruct (HasPrefix _ _). }
    destruct (ref_at f HEAD) as [x|]; [rewrite list_elem_of_singleton; naive_solver|]. split; [by intros ?%not_elem_of_nil|naive_solver]. }
  pose proof (collected_map f c c' Hok Hloose Hc Hu Hfr) as Hmap. destruct Hc' as [_ Hnd']. split.
  - rewrite map_app. apply NoDup_app. split; [subst pre; destruct (ref_at f HEAD); repeat constructor; set_solver|]. split; [|done].
    intros n (r & -> & [Er _]%Hpre)%list_elem_of_fmap (r' & E & Hr')%list_elem_of_fmap. destruct (Hn' r' Hr'). congruence.
  - intros r. rewrite elem_of_app, (Hpre r). split.
    + intros [[En Er]|Hr]; [rewrite En; done|]. destruct (Hn' r Hr) as [Hn Hne]. split; [done|]. rewrite <- Hmap by done. by apply find_ref_some.
    + intros [Hn Er]. destruct (decide (rname r = HEAD)) as [En|Hne]; [left; by rewrite En in Er|]. right. rewrite <- Hmap in Er by done. by apply find_ref_in in Er as [? _].
Qed.
End List.
