(* ===== verification/DotGitTheorems.v ===== *)
(** * storage/filesystem/dotgit: a file system in memory, and the theorems

    A tree of files in memory keeps what [FilesystemLaws] asks for; the theorems are stated for any file system that does and
    applied to it. *)
From S2P Require Import Prelude GoStrings GoPath Strconv ObjectID Reference PackpMessages DotGit DotGitProofs DotGitPacked.

(** ** A tree in memory *)
Record memfs := mkMem { m_files : gmap (list bytes) bytes; m_dirs : gset (list bytes) }.
Definition comps (path : bytes) : list bytes := Split path x2f.

(** The name of an entry of the directory [q] *)
Definition child (q p : list bytes) : option bytes :=
  match drop (length q) p with [n] => if bool_decide (take (length q) p = q) then Some n else None | _ => None end.
Definition tempName (f : memfs) (prefix : bytes) : bytes :=
  prefix ++ replicate (S (sum_list_with (fun p => length (concat p)) (elements (dom (m_files f) ∪ m_dirs f)))) x78.

(** The components of a directory, which may be the root. *)
Definition dirComps (path : bytes) : list bytes := match path with [] => [] | _ => comps path end.

Definition mem_OpenFile (f : memfs) (path : bytes) (create trunc : bool) : error + (bytes * memfs) :=
  let q := comps path in
  match m_files f !! q with
  | Some b => inr (if trunc then ([], mkMem (<[q := []]> (m_files f)) (m_dirs f)) else (b, f))
  | None =>
    if decide (q ∈ m_dirs f) then inl ErrIsDir
    else if create && negb (existsb (fun a => bool_decide (is_Some (m_files f !! a))) (elements (above q)))
    then inr ([], mkMem (<[q := []]> (m_files f)) (m_dirs f ∪ above q))
    else inl ErrNotExist
  end.
Definition mem_Remove (f : memfs) (path : bytes) : error + memfs :=
  match m_files f !! comps path with Some _ => inr (mkMem (delete (comps path) (m_files f)) (m_dirs f)) | None => inl ErrNotExist end.

#[export] Instance memfs_ops : Filesystem memfs := {
  fs_Join _ := path_Join;
  fs_Stat f path := if decide (comps path ∈ m_dirs f) then inr true else match m_files f !! comps path with Some _ => inr false | None => inl ErrNotExist end;
  fs_Open f path := match m_files f !! comps path with Some b => inr b | None => inl (if decide (comps path ∈ m_dirs f) then ErrIsDir else ErrNotExist) end;
  fs_OpenFile := mem_OpenFile;
  fs_Write f path b := inr (mkMem (<[comps path := b]> (m_files f)) (m_dirs f));
  fs_Remove := mem_Remove;
  fs_Rename f from to := match m_files f !! comps from with
    | Some b => inr (mkMem (<[comps to := b]> (delete (comps from) (m_files f))) (m_dirs f ∪ above (comps to))) | None => inl ErrNotExist end;
  fs_TempFile f dir prefix := let q := dirComps dir ++ [tempName f prefix] in inr (pathOf q, mkMem (<[q := []]> (m_files f)) (m_dirs f ∪ above q));
  fs_ReadDir f path := let q := comps path in
    if decide (q ∈ m_dirs f)
    then inr (map (fun n => (n, false)) (omap (child q) (elements (dom (m_files f)))) ++ map (fun n => (n, true)) (omap (child q) (elements (m_dirs f))))
    else inl ErrNotExist;
  fs_ReadAndWrite _ := true }.

Lemma comps_path p : good_path p -> comps (pathOf p) = p.
Proof. intros Hg. by destruct (good_join p Hg) as (_ & ? & _). Qed.

Lemma tree_insert fs ds p b b' : tree_ok fs ds -> fs !! p = Some b -> tree_ok (<[p := b']> fs) ds.
Proof.
  intros [T1 T2] E. split; [|done]. intros q c. rewrite lookup_insert. case_decide as Eq; [subst q; intros _; by eapply T1|apply T1].
Qed.
Lemma tree_delete fs ds p : tree_ok fs ds -> tree_ok (delete p fs) ds.
Proof. intros [T1 T2]. split; [|done]. intros q c [_ E]%lookup_delete_Some. by eapply T1. Qed.
Lemma above_take p k : above (take k p) ⊆ above p.
Proof.
  intros q (j & Hj & ->)%elem_of_above. apply elem_of_above. rewrite length_take in Hj. exists j. rewrite take_take. split; [lia|]. f_equal. lia.
Qed.
Lemma tree_create fs ds p b : tree_ok fs ds -> good_path p -> free_path fs ds p -> fs !! p = None -> tree_ok (<[p := b]> fs) (ds ∪ above p).
Proof.
  intros [T1 T2] [Hne Hg] [Hd Hfree] E. split.
  - intros q c. rewrite lookup_insert. case_decide as Eq.
    + subst q. intros _. split; [done|]. split; [|set_solver]. rewrite not_elem_of_union. split; [done|]. intros (k & Hk & Ek)%elem_of_above.
      apply (f_equal length) in Ek. rewrite length_take in Ek. lia.
    + intros Eq2. destruct (T1 q c Eq2) as (Hq & Hqd & Hqa). split; [done|]. split; [|set_solver]. rewrite not_elem_of_union. split; [done|].
      intros Hin. by rewrite (Hfree q Hin) in Eq2.
  - intros q [Hq|Hq]%elem_of_union; [destruct (T2 q Hq); split; [done|set_solver]|]. pose proof Hq as (k & Hk & ->)%elem_of_above. split.
    + split; [destruct p, k; cbn; done || (cbn in Hk; lia)|by apply Forall_take].
    + pose proof (above_take p k). set_solver.
Qed.

Lemma child_some q p n : child q p = Some n <-> p = q ++ [n].
Proof.
  unfold child. split.
  - destruct (drop (length q) p) as [|m [|]] eqn:E; try done. case_bool_decide as Et; [|done]. intros [= <-]. by rewrite <- (take_drop (length q) p), E, Et.
  - intros ->. rewrite drop_app_length, take_app_length. by rewrite bool_decide_eq_true_2.
Qed.
Lemma omap_child_nodup q (l : list (list bytes)) : NoDup l -> NoDup (omap (child q) l).
Proof.
  induction 1 as [|p l Hp Hn IH]; [constructor|]. cbn. destruct (child q p) as [n|] eqn:E; [|done]. apply NoDup_cons. split; [|done].
  intros (p' & Hp' & E')%list_elem_of_omap. apply child_some in E, E'. congruence.
Qed.

Lemma temp_fresh f d prefix : d ++ [tempName f prefix] ∉ dom (m_files f) ∪ m_dirs f.
Proof.
  intros Hin. set (X := dom (m_files f) ∪ m_dirs f) in *. assert (length (tempName f prefix) <= sum_list_with (fun p => length (concat p)) (elements X))%nat as Hl.
  { apply elem_of_elements in Hin. revert Hin. generalize (tempName f prefix). induction (elements X) as [|p l IH]; intros t Hin; [by apply not_elem_of_nil in Hin|].
    cbn. apply elem_of_cons in Hin as [<-|Hin]; [rewrite concat_app, length_app; cbn [concat]; rewrite app_nil_r; lia|]. specialize (IH t Hin). lia. }
  unfold tempName in Hl. fold X in Hl. rewrite length_app, length_replicate in Hl. lia.
Qed.

Lemma tempName_component f prefix : component prefix -> component (tempName f prefix).
Proof.
  unfold tempName. intros (C1 & C2 & C3 & C4). split_and!.
  - by destruct prefix.
  - intros E. apply (f_equal last) in E. rewrite replicate_S_end, app_assoc, last_snoc in E. discriminate E.
  - intros E. apply (f_equal last) in E. rewrite replicate_S_end, app_assoc, last_snoc in E. discriminate E.
  - rewrite not_elem_of_app. split; [done|]. intros [E _]%elem_of_replicate. discriminate E.
Qed.

#[export] Program Instance memfs_laws : FilesystemLaws memfs := {
  fs_inv f := tree_ok (m_files f) (m_dirs f);
  files := m_files;
  dirs := m_dirs }.
Next Obligation. done. Qed.
Next Obligation. done. Qed.
Next Obligation. intros f p _ Hg. cbn. by rewrite comps_path. Qed.
Next Obligation. intros f p _ Hg Hd. cbn. rewrite comps_path by done. by rewrite (decide_False _ _ Hd). Qed.
Next Obligation.
  intros f p b create trunc Hi E. destruct (tree_file _ _ Hi _ _ E) as (Hg & _). cbn. unfold mem_OpenFile. rewrite comps_path, E by done.
  destruct trunc; [|by exists f]. eexists. split; [done|]. split; [|done]. by eapply tree_insert.
Qed.
Next Obligation. intros f p trunc Hi Hg Hd E. cbn. unfold mem_OpenFile. rewrite comps_path, E by done. by rewrite decide_False. Qed.
Next Obligation.
  intros f p trunc Hi Hg Hfree E. cbn. unfold mem_OpenFile. rewrite comps_path, E by done. destruct Hfree as [Hd Hf]. rewrite decide_False by done.
  assert (existsb (fun a => bool_decide (is_Some (m_files f !! a))) (elements (above p)) = false) as ->.
  { apply not_true_iff_false. intros (a & Ha & Hs%bool_decide_eq_true)%existsb_exists. apply list_elem_of_In, elem_of_elements in Ha. rewrite (Hf a Ha) in Hs. by destruct Hs. }
  eexists. split; [done|]. split; [|done]. by apply tree_create.
Qed.
Next Obligation.
  intros f p b b' Hi E. destruct (tree_file _ _ Hi _ _ E) as (Hg & _). cbn. rewrite comps_path by done. eexists. split; [done|]. split; [|done]. by eapply tree_insert.
Qed.
Next Obligation.
  intros f p b Hi E. destruct (tree_file _ _ Hi _ _ E) as (Hg & _). cbn. unfold mem_Remove. rewrite comps_path, E by done. eexists. split; [done|]. split; [|done].
  by apply tree_delete.
Qed.
Next Obligation. intros f p Hi Hg Hd E. cbn. unfold mem_Remove. by rewrite comps_path, E. Qed.
Next Obligation.
  intros f p q b Hi E [c Ec] Hne. right. destruct (tree_file _ _ Hi _ _ E) as (Hg & _), (tree_file _ _ Hi _ _ Ec) as (Hg' & _). cbn. rewrite !comps_path, E by done.
  eexists. split; [done|]. cbn [m_files m_dirs]. destruct (tree_file _ _ Hi _ _ Ec) as (_ & _ & Ha). assert (m_dirs f ∪ above q = m_dirs f) as -> by set_solver.
  split; [|done]. eapply tree_insert; [by apply tree_delete|]. by rewrite lookup_delete_ne.
Qed.
Next Obligation.
  intros f p q b Hi E Hg [Hd Hfree] En. destruct (tree_file _ _ Hi _ _ E) as (Hp & _). cbn. rewrite !comps_path, E by done.
  eexists. split; [done|]. split; [|done]. apply tree_create; [by apply tree_delete|done| |]; rewrite ?lookup_delete_None; [|by right].
  split; [done|]. intros a Ha. apply lookup_delete_None. right. by apply Hfree.
Qed.
Next Obligation.
  intros f d prefix Hi Hc Hd Hfree. pose proof (temp_fresh f d prefix) as Hn. rewrite not_elem_of_union, not_elem_of_dom in Hn. destruct Hn as [Hn1 Hn2].
  pose proof (tempName_component f prefix Hc) as Ht. exists (tempName f prefix).
  assert (dirComps (pathOf d) = d) as Ed.
  { destruct d as [|c d]; [done|]. assert (good_path (c :: d)) as Hg by done. unfold dirComps. rewrite comps_path by done.
    destruct (pathOf (c :: d)) eqn:E; [|done]. apply Forall_cons in Hd as [(Hc0 & _) _]. destruct c; [done|]. by destruct d. }
  assert (above (d ++ [tempName f prefix]) = above (d ++ [prefix])) as Ea.
  { apply set_eq. intros q. rewrite !elem_of_above, !length_app. cbn [length]. split; intros (k & Hk & ->); exists k; (split; [lia|]); by rewrite !take_app_le by lia. }
  cbn. rewrite Ed. eexists. split; [done|]. cbn. split_and!; try done.
  - apply tree_create; [done|split; [by destruct d|by apply Forall_app_2; [|constructor]]|split; [done|by rewrite Ea]|done].
  - apply HasPrefix_self.
  - intros E. apply (f_equal length) in E. unfold tempName in E. rewrite length_app, length_replicate in E. lia.
Qed.
Next Obligation.
  intros f p Hi Hp. destruct (tree_dir _ _ Hi _ Hp) as [Hg _]. cbn. rewrite comps_path by done. rewrite decide_True by done. eexists. split; [done|].
  assert (forall (X : gset (list bytes)) n, n ∈ omap (child p) (elements X) <-> p ++ [n] ∈ X) as Hom.
  { intros X n. rewrite list_elem_of_omap. setoid_rewrite elem_of_elements. split; [intros (q & Hq & ->%child_some); done|]. intros Hin. exists (p ++ [n]). by rewrite child_some. }
  split.
  - rewrite map_app, !map_map. cbn [fst]. rewrite !map_id. apply NoDup_app. split; [apply omap_child_nodup, NoDup_elements|].
    split; [|apply omap_child_nodup, NoDup_elements]. intros n [b E]%Hom%elem_of_dom Hd%Hom. by destruct (tree_file _ _ Hi _ _ E) as (_ & ? & _).
  - intros n d. rewrite elem_of_app, !list_elem_of_fmap. setoid_rewrite Hom. split.
    + intros [(m & [= -> ->] & Hm)|(m & [= -> ->] & Hm)]; [apply elem_of_dom in Hm as [b E]|]; (split; [|by eauto]).
      * destruct (tree_file _ _ Hi _ _ E) as ([_ Hc] & _). apply Forall_app in Hc as [_ Hc]. by apply Forall_cons_1 in Hc as [? _].
      * destruct (tree_dir _ _ Hi _ Hm) as [[_ Hc] _]. apply Forall_app in Hc as [_ Hc]. by apply Forall_cons_1 in Hc as [? _].
    + intros [_ Hd]. destruct d; [right; eauto|left; exists n; split; [done|by apply elem_of_dom]].
Qed.
Next Obligation. intros f p Hi Hg Hd E. cbn. by rewrite comps_path, decide_False. Qed.

(** ** The theorems *)

(** C7: over any file system that keeps a tree of files, the references of a repository are a map from names to references:
    [Ref] looks it up; [SetRef] without an old reference puts one into it, and with one does so when the reference it finds
    has the old one's hash, and otherwise gives an error and leaves the map; [RemoveRef] takes a name out of it, from the files
    and from packed-refs.  What is kept of the files is kept by each of them. *)
Theorem dotgit_refs {F : Type} `{FilesystemLaws F} (windows : bool) (f : F) :
  dotgit_ok f ->
  (forall n, ref_name n -> Ref f n = match ref_at f n with Some r => inr r | None => inl ErrReferenceNotFound end) /\
  (forall r, writable r -> can_hold f (rname r) ->
    exists f', SetRef f r None = (None, f') /\ dotgit_ok f' /\ forall m, ref_name m -> ref_at f' m = if decide (m = rname r) then Some r else ref_at f m) /\
  (forall r old, writable r -> can_hold f (rname r) -> rname old = rname r -> fs_ReadAndWrite f = true ->
    exists err f', SetRef f r (Some old) = (err, f') /\ dotgit_ok f' /\
      match ref_at f (rname r) with
      | Some cur =>
        if decide (rhash cur = rhash old) then err = None /\ forall m, ref_name m -> ref_at f' m = if decide (m = rname r) then Some r else ref_at f m
        else err = Some ErrReferenceHasChanged /\ forall m, ref_name m -> ref_at f' m = ref_at f m
      | None => err = Some ErrReferenceNotFound /\ forall m, ref_name m -> ref_at f' m = ref_at f m
      end) /\
  (forall n, ref_name n -> Split n x2f ∉ dirs f ->
    exists f', RemoveRef windows f n = (None, f') /\ dotgit_ok f' /\ forall m, ref_name m -> ref_at f' m = if decide (m = n) then None else ref_at f m).
Proof.
  intros Hok. split; [intros n Hn; by apply Ref_ok|].
  assert (forall r f', writable r -> changed f f' (rname r) (Some (refContent r)) ->
    dotgit_ok f' /\ forall m, ref_name m -> ref_at f' m = if decide (m = rname r) then Some r else ref_at f m) as Hset.
  { intros r f' Hw C. split; [exact (proj1 (changed_ok _ _ _ _ Hok (proj1 Hw) C))|]. intros m Hm. rewrite (changed_at _ _ _ _ m Hok (proj1 Hw) C).
    destruct (refContent_read r Hw) as [Hne Er]. by rewrite bool_decide_eq_false_2, Er. }
  assert (forall r f' b, writable r -> changed f f' (rname r) (Some b) ->
    (files f !! Split (rname r) x2f = None /\ b = [] \/ files f !! Split (rname r) x2f = Some b) ->
    dotgit_ok f' /\ forall m, ref_name m -> ref_at f' m = ref_at f m) as Hsame.
  { intros r f' b Hw C Hb. split; [exact (proj1 (changed_ok _ _ _ _ Hok (proj1 Hw) C))|]. intros m Hm. rewrite (changed_at _ _ _ _ m Hok (proj1 Hw) C).
    destruct (decide (m = rname r)) as [->|]; [|done]. unfold ref_at. by destruct Hb as [[-> ->]| ->]. }
  split; [|split].
  - intros r Hw Hc. destruct (SetRef_changed f r (dg_fs _ Hok) Hw Hc) as (f' & E & C). exists f'. split; [done|]. by apply Hset.
  - intros r old Hw Hc Ho Hrw. pose proof (SetRef_checked f r old Hok Hw Hc Ho Hrw) as S. cbn zeta in S.
    destruct (ref_at f (rname r)) as [cur|]; [destruct (decide (rhash cur = rhash old))|].
    + destruct S as (f' & E & C). exists None, f'. destruct (Hset r f' Hw C). done.
    + destruct S as (f' & E & b & C & Hb). exists (Some ErrReferenceHasChanged), f'. destruct (Hsame r f' b Hw C Hb). done.
    + destruct S as (f' & E & b & C & Hb). exists (Some ErrReferenceNotFound), f'. destruct (Hsame r f' b Hw C Hb). done.
  - intros n Hn Hd. by apply RemoveRef_ok.
Qed.

(** C8: when every loose and every packed reference is a hash reference under a valid name of less than 65000 bytes, packing
    the references ends without an error, leaves no file under refs, and finds every name as before.  A symbolic reference
    among them is lost ([packrefs_symbolic]). *)
Theorem packrefs_keeps {F : Type} `{FilesystemLaws F} (windows : bool) (fuel : nat) (f : F) :
  dotgit_ok f -> loose_ok f -> (forall q, q ∈ dirs f -> length q <= fuel)%nat -> (0 < fuel)%nat ->
  (forall p b, files f !! p = Some b -> head p = Some refsPath -> packable (ref_of p b)) -> Forall packable (packed_refs (packed_at f)) ->
  exists f', PackRefs windows fuel f = Ok (None, f') /\ dotgit_ok f' /\ (forall n, ref_name n -> Ref f' n = Ref f n) /\
    forall p, head p = Some refsPath -> files f' !! p = None.
Proof.
  intros Hok Hl Hf Hpos Hp1 Hp2. destruct (PackRefs_ok windows fuel f Hok Hl Hf Hpos Hp1 Hp2) as (f' & E & Hok' & Hv & Hg).
  exists f'. split; [done|]. split; [done|]. split; [|done]. intros n Hn. by rewrite !Ref_ok, Hv.
Qed.


(** ** A repository in memory *)
Definition id_a : ObjectID := mkObjectID (replicate 20 xaa ++ replicate 12 x00) SHA1.
Definition id_b : ObjectID := mkObjectID (replicate 20 xbb ++ replicate 12 x00) SHA1.
Definition main_ref (h : ObjectID) : Reference := NewHashReference (bs "refs/heads/main") h.
Definition tag_ref (h : ObjectID) : Reference := NewHashReference (bs "refs/tags/v1") h.
Definition sample_packed : bytes := bs "# pack-refs with: peeled" ++ [x0a] ++ println (Reference_String (main_ref id_b)) ++ println (Reference_String (tag_ref id_b)).
Definition sample_repo : memfs := mkMem
  (list_to_map [([bs "HEAD"], bs "ref: refs/heads/main" ++ [x0a]); ([bs "refs"; bs "heads"; bs "main"], println (ObjectID_String id_a)); ([bs "packed-refs"], sample_packed)])
  {[ [bs "refs"]; [bs "refs"; bs "heads"] ]}.

#[local] Instance component_decision c : Decision (component c).
Proof. unfold component. apply _. Defined.
#[local] Instance good_path_decision p : Decision (good_path p).
Proof. unfold good_path. apply _. Defined.

Lemma sample_tree : tree_ok (m_files sample_repo) (m_dirs sample_repo).
Proof.
  split.
  - assert (map_Forall (fun p _ => good_path p /\ p ∉ m_dirs sample_repo /\ above p ⊆ m_dirs sample_repo) (m_files sample_repo)) as Hf by by_decision.
    intros p b E. by apply (Hf p b).
  - assert (set_Forall (fun p => good_path p /\ above p ⊆ m_dirs sample_repo) (m_dirs sample_repo)) as Hd by by_decision.
    intros p Hp. by apply (Hd p).
Qed.
Lemma sample_dotgit : dotgit_ok sample_repo.
Proof.
  split; [exact sample_tree|by_decision|]. assert (packed_at sample_repo = sample_packed) as -> by by_decision. split; [by_decision|].
  assert (lines_of sample_packed = [bs "# pack-refs with: peeled"; Reference_String (main_ref id_b); Reference_String (tag_ref id_b)]) as -> by by_decision.
  repeat (apply Forall_cons; split; [split; [eexists; vm_compute; reflexivity|by_decision]|]). constructor.
Qed.
Lemma main_name : ref_name (bs "refs/heads/main").
Proof. split; [by_decision|by right]. Qed.
Lemma id_wf : wf_id id_a /\ wf_id id_b.
Proof. split; (split; [by_decision|right; split; by_decision]). Qed.

Lemma dotgit_refs_witness :
  Ref sample_repo (bs "refs/heads/main") = inr (main_ref id_a) /\
  exists f', RemoveRef false sample_repo (bs "refs/heads/main") = (None, f') /\ dotgit_ok f' /\ ref_at f' (bs "refs/heads/main") = None /\
    ref_at f' (bs "refs/tags/v1") = Some (tag_ref id_b).
Proof.
  destruct (dotgit_refs false sample_repo sample_dotgit) as (H1 & _ & _ & H4). split.
  - rewrite (H1 _ main_name). by_decision.
  - destruct (H4 _ main_name) as (f' & E & Hok & Hv); [by_decision|]. exists f'. split; [exact E|]. split; [exact Hok|]. split; [by rewrite (Hv _ main_name)|].
    rewrite (Hv (bs "refs/tags/v1")); [by_decision|]. split; [by_decision|by right].
Defined.

Lemma sample_loose : loose_ok sample_repo.
Proof.
  assert (map_Forall (fun p b => head p = Some refsPath -> p = [bs "refs"; bs "heads"; bs "main"] /\ b <> []) (m_files sample_repo)) as Hf by by_decision.
  intros p b E Hh. destruct (Hf p b E Hh) as [-> Hb]. split; [exact main_name|exact Hb].
Qed.
Lemma sample_packable h n : wf_id h -> Validate n = None -> len n < 65000 -> packable (NewHashReference n h).
Proof. by intros. Qed.

Lemma packrefs_keeps_witness : exists f', PackRefs false 3 sample_repo = Ok (None, f') /\ Ref f' (bs "refs/heads/main") = inr (main_ref id_a).
Proof.
  destruct (packrefs_keeps false 3 sample_repo sample_dotgit sample_loose) as (f' & E & _ & Hv & _).
  - assert (set_Forall (fun q => length q <= 3)%nat (m_dirs sample_repo)) as Hd by by_decision. exact Hd.
  - lia.
  - assert (map_Forall (fun p b => head p = Some refsPath -> ref_of p b = main_ref id_a) (m_files sample_repo)) as Hf by by_decision.
    intros p b Ep Hh. rewrite (Hf p b Ep Hh). apply sample_packable; [apply id_wf|by_decision|by_decision].
  - assert (packed_refs (packed_at sample_repo) = [main_ref id_b; tag_ref id_b]) as -> by by_decision.
    repeat constructor; try by_decision; apply id_wf.
  - exists f'. split; [exact E|]. rewrite (Hv _ main_name). by_decision.
Defined.


(** ** Where the code goes wrong *)

(** Packing a symbolic reference writes a line of three words, which no later search of packed-refs gets past: after
    [PackRefs], a branch that was packed with it is not found any more. *)
Theorem packrefs_symbolic :
  let f := mkMem (<[[bs "refs"; bs "zz"] := bs "ref: refs/heads/main" ++ [x0a]]> (m_files sample_repo)) (m_dirs sample_repo) in
  Ref f (bs "refs/heads/main") = inr (main_ref id_a) /\
  match PackRefs false 3 f with
  | Ok (None, f') => Ref f' (bs "refs/heads/main") = inl ErrPackedRefsBadFormat
  | _ => False
  end.
Proof. cbv zeta. split; vm_compute; reflexivity. Qed.

(** Comparing with an old reference that is not there leaves an empty file behind, and with it listing all the references
    fails. *)
Theorem failed_check_breaks_listing :
  let r := NewHashReference (bs "refs/heads/new") id_a in
  match SetRef sample_repo r (Some r) with
  | (Some ErrReferenceNotFound, f') => Refs 3 f' = Err ErrEmptyRefFile
  | _ => False
  end.
Proof. cbv zeta. vm_compute. reflexivity. Qed.
