(* ===== verification/PackpDecoders.v ===== *)
(** * Decoders of the requests and replies of [PackpMessages]

    Each decoder gives the error, the message and the reader afterwards; [pool] is
    the contents of the pooled buffer of each read.  The loops take one round
    per line, and every line has at least four bytes. *)
From S2P Require Import Prelude GoStrings Strconv ObjectID Reference Storer Memory PktLine Capability Packp PackpMessages.

Section Pool.
Context (pool : bytes -> bytes).
#[local] Abbreviation readLine := (readPkt pool).

(** ** Upload requests (ulreq_decode.go) *)
Record ulReqDecoder := mkUlDec {
  ud_r : bytes; ud_line : bytes; ud_nLine : Z; ud_err : option error; ud_data : UploadRequest }.

Definition newUlReqDecoder (r : bytes) (v : UploadRequest) : ulReqDecoder := mkUlDec r [] 0 None v.

Definition ud_set_line (d : ulReqDecoder) (line : bytes) : ulReqDecoder := mkUlDec (ud_r d) line (ud_nLine d) (ud_err d) (ud_data d).
Definition ud_set_err (d : ulReqDecoder) (e : option error) : ulReqDecoder := mkUlDec (ud_r d) (ud_line d) (ud_nLine d) e (ud_data d).
Definition ud_set_data (d : ulReqDecoder) (v : UploadRequest) : ulReqDecoder := mkUlDec (ud_r d) (ud_line d) (ud_nLine d) (ud_err d) v.
Definition ud_error (d : ulReqDecoder) (format : string) : ulReqDecoder := ud_set_err d (Some (ErrUnexpectedData (bs format))).

Definition ul_nextLine (d : ulReqDecoder) : res (bool * ulReqDecoder) :=
  let* (_, p, err, r) := readLine (ud_r d) in
  let d := mkUlDec r (ud_line d) (ud_nLine d + 1) (ud_err d) (ud_data d) in
  match err with
  | Some EOF => Ok (false, ud_error d "EOF")
  | Some e => Ok (false, ud_set_err d (Some e))
  | None => Ok (true, ud_set_line d (TrimSuffix p kw_eol))
  end.

Inductive ulStateFn := ulFirstWant | ulCaps | ulOtherWants | ulShallow | ulDeepen
  | ulDeepenCommits | ulDeepenSince | ulDeepenReference | ulFlush.
Definition ul_next := (option ulStateFn * ulReqDecoder)%type.

Definition ul_readHash (d : ulReqDecoder) : res (option ObjectID * ulReqDecoder) :=
  if len (ud_line d) <? hashSize then Ok (None, ud_set_err d (Some (ErrPackp (bs "malformed hash: %v"))))
  else
    let* text := slice (ud_line d) 0 hashSize in
    let '(h, ok) := FromHex text in
    if negb ok then Ok (None, ud_error d "invalid hash text: %s")
    else let* line := slice (ud_line d) hashSize (len (ud_line d)) in Ok (Some h, ud_set_line d line).

Definition ul_addWant (v : UploadRequest) (h : ObjectID) : UploadRequest :=
  mkUlReq (ur_Capabilities v) (Wants v ++ [h]) (ur_Shallows v) (ur_Depth v) (ur_Filter v).
Definition ul_addShallow (v : UploadRequest) (h : ObjectID) : UploadRequest :=
  mkUlReq (ur_Capabilities v) (Wants v) (ur_Shallows v ++ [h]) (ur_Depth v) (ur_Filter v).
Definition ul_setDepth (v : UploadRequest) (d : Depth) : UploadRequest :=
  mkUlReq (ur_Capabilities v) (Wants v) (ur_Shallows v) (Some d) (ur_Filter v).
Definition ul_setCaps (v : UploadRequest) (c : CapList) : UploadRequest :=
  mkUlReq c (Wants v) (ur_Shallows v) (ur_Depth v) (ur_Filter v).

Definition ul_decodeFirstWant (d : ulReqDecoder) : res ul_next :=
  let* (ok, d) := ul_nextLine d in
  if negb ok then Ok (None, d)
  else if negb (HasPrefix (ud_line d) kw_want) then Ok (None, ud_error d "missing 'want ' prefix")
  else
    let* (h, d) := ul_readHash (ud_set_line d (TrimPrefix (ud_line d) kw_want)) in
    match h with
    | None => Ok (None, d)
    | Some h => Ok (Some ulCaps, ud_set_data d (ul_addWant (ud_data d) h))
    end.

(** An invalid list sets the error and decoding goes on. *)
Definition ul_decodeCaps (d : ulReqDecoder) : res ul_next :=
  let d := ud_set_line d (TrimPrefix (ud_line d) kw_sp) in
  let '(err, c) := List_Decode (ur_Capabilities (ud_data d)) (ud_line d) in
  let d := ud_set_data d (ul_setCaps (ud_data d) c) in
  match err with
  | Some _ => Ok (Some ulOtherWants, ud_error d "invalid capabilities: %s")
  | None => Ok (Some ulOtherWants, d)
  end.

Definition ul_decodeOtherWants (d : ulReqDecoder) : res ul_next :=
  let* (ok, d) := ul_nextLine d in
  if negb ok then Ok (None, d)
  else if HasPrefix (ud_line d) kw_shallow then Ok (Some ulShallow, d)
  else if HasPrefix (ud_line d) kw_deepen then Ok (Some ulDeepen, d)
  else if len (ud_line d) =? 0 then Ok (None, d)
  else if negb (HasPrefix (ud_line d) kw_want) then Ok (None, ud_error d "unexpected payload while expecting a want: %q")
  else
    let* (h, d) := ul_readHash (ud_set_line d (TrimPrefix (ud_line d) kw_want)) in
    match h with
    | None => Ok (None, d)
    | Some h => Ok (Some ulOtherWants, ud_set_data d (ul_addWant (ud_data d) h))
    end.

Definition ul_decodeShallow (d : ulReqDecoder) : res ul_next :=
  if HasPrefix (ud_line d) kw_deepen then Ok (Some ulDeepen, d)
  else if len (ud_line d) =? 0 then Ok (None, d)
  else if negb (HasPrefix (ud_line d) kw_shallow) then Ok (None, ud_error d "unexpected payload while expecting a shallow: %q")
  else
    let* (h, d) := ul_readHash (ud_set_line d (TrimPrefix (ud_line d) kw_shallow)) in
    match h with
    | None => Ok (None, d)
    | Some h =>
      let* (ok, d) := ul_nextLine (ud_set_data d (ul_addShallow (ud_data d) h)) in
      if negb ok then Ok (None, d) else Ok (Some ulShallow, d)
    end.

Definition ul_decodeDeepen (d : ulReqDecoder) : res ul_next :=
  if HasPrefix (ud_line d) kw_deepenCommits then Ok (Some ulDeepenCommits, d)
  else if HasPrefix (ud_line d) kw_deepenSince then Ok (Some ulDeepenSince, d)
  else if HasPrefix (ud_line d) kw_deepenReference then Ok (Some ulDeepenReference, d)
  else if len (ud_line d) =? 0 then Ok (None, d)
  else Ok (None, ud_error d "unexpected deepen specification: %q").

(** [n, d.err = strconv.Atoi(...)]: the sticky error is overwritten, also with nil. *)
Definition ul_decodeDeepenCommits (d : ulReqDecoder) : res ul_next :=
  let d := ud_set_line d (TrimPrefix (ud_line d) kw_deepenCommits) in
  match ParseInt (ud_line d) 10 64 with
  | Err e => Ok (None, ud_set_err d (Some e))
  | Panic => Panic
  | NoFuel => NoFuel
  | Ok n =>
    let d := ud_set_err d None in
    if n <? 0 then Ok (None, ud_set_err d (Some (ErrPackp (bs "negative depth"))))
    else Ok (Some ulFlush, ud_set_data d (ul_setDepth (ud_data d) (DepthCommits n)))
  end.

Definition ul_decodeDeepenSince (d : ulReqDecoder) : res ul_next :=
  let d := ud_set_line d (TrimPrefix (ud_line d) kw_deepenSince) in
  match ParseInt (ud_line d) 10 64 with
  | Err e => Ok (None, ud_set_err d (Some e))
  | Panic => Panic
  | NoFuel => NoFuel
  | Ok secs =>
    let d := ud_set_err d None in
    Ok (Some ulFlush, ud_set_data d (ul_setDepth (ud_data d) (DepthSince secs)))
  end.

Definition ul_decodeDeepenReference (d : ulReqDecoder) : res ul_next :=
  let d := ud_set_line d (TrimPrefix (ud_line d) kw_deepenReference) in
  Ok (Some ulFlush, ud_set_data d (ul_setDepth (ud_data d) (DepthReference (ud_line d)))).

Definition ul_decodeFlush (d : ulReqDecoder) : res ul_next :=
  let* (ok, d) := ul_nextLine d in
  if negb ok then Ok (None, d)
  else if negb (len (ud_line d) =? 0)
  then Ok (None, ud_set_err d (Some (ErrPackp (bs "unexpected payload while expecting a flush-pkt: %q"))))
  else Ok (None, d).

Definition ul_state (f : ulStateFn) (d : ulReqDecoder) : res ul_next :=
  match f with
  | ulFirstWant => ul_decodeFirstWant d
  | ulCaps => ul_decodeCaps d
  | ulOtherWants => ul_decodeOtherWants d
  | ulShallow => ul_decodeShallow d
  | ulDeepen => ul_decodeDeepen d
  | ulDeepenCommits => ul_decodeDeepenCommits d
  | ulDeepenSince => ul_decodeDeepenSince d
  | ulDeepenReference => ul_decodeDeepenReference d
  | ulFlush => ul_decodeFlush d
  end.

Definition ul_run : nat -> ulStateFn -> ulReqDecoder -> res ulReqDecoder := runStates ul_state.

Definition UploadRequest_Decode (v : UploadRequest) (r : bytes) : res (option error * UploadRequest * bytes) :=
  let* d := ul_run (length r + 4) ulFirstWant (newUlReqDecoder r v) in
  Ok (ud_err d, ud_data d, ud_r d).

(** ** Update requests (updreq_decode.go) *)
Record updReqDecoder := mkUpdDec { pd_r : bytes; pd_req : UpdateRequests; pd_payload : bytes; pd_length : Z }.

(** The error, or the decoder with the next line. *)
Definition upd_readLine (d : updReqDecoder) (e : error) : res (option error * updReqDecoder) :=
  let* (l, p, err, r) := readLine (pd_r d) in
  match err with
  | Some EOF => Ok (Some e, mkUpdDec r (pd_req d) (pd_payload d) (pd_length d))
  | Some e => Ok (Some e, mkUpdDec r (pd_req d) (pd_payload d) (pd_length d))
  | None => Ok (None, mkUpdDec r (pd_req d) p l)
  end.

Definition upd_step := (option error * updReqDecoder)%type.

Definition upd_decodeShallow (d : updReqDecoder) : res upd_step :=
  let b := pd_payload d in
  if negb (HasPrefix b kw_shallowNoSp) then Ok (None, d)
  else if negb (len b =? shallowLineLength)
  then Ok (Some (errMalformedRequest "invalid shallow line length: expected %d, got %d"), d)
  else
    let* text := slice b (len kw_shallow) (len b) in
    match parseHash text with
    | Err _ => Ok (Some (errMalformedRequest "invalid shallow object id: %s"), d)
    | Panic => Panic
    | NoFuel => NoFuel
    | Ok h =>
      let* (err, d) := upd_readLine d errNoCommands in
      match err with
      | Some e => Ok (Some e, d)
      | None => Ok (None, mkUpdDec (pd_r d) (mkUpdReq (up_Capabilities (pd_req d)) (Commands (pd_req d)) (Some h)) (pd_payload d) (pd_length d))
      end
    end.

Fixpoint upd_decodeCommands_loop (fuel : nat) (payload : bytes) (d : updReqDecoder) : res upd_step :=
  match fuel with
  | O => NoFuel
  | S fuel =>
    match parseCommand payload with
    | Err e => Ok (Some e, d)
    | Panic => Panic
    | NoFuel => NoFuel
    | Ok cmd =>
      let req := pd_req d in
      let d := mkUpdDec (pd_r d) (mkUpdReq (up_Capabilities req) (Commands req ++ [cmd]) (up_Shallow req)) (pd_payload d) (pd_length d) in
      let* (err, d) := upd_readLine d errNoFlush in
      match err with
      | Some e => Ok (Some e, d)
      | None => if pd_length d =? Flush then Ok (None, d) else upd_decodeCommands_loop fuel (pd_payload d) d
      end
    end
  end.

Definition upd_decodeCommands (d : updReqDecoder) : res upd_step :=
  let payload := pd_payload d in
  let sep := IndexByte payload x00 in
  if sep =? -1 then Ok (Some errMissingCapabilitiesDelimiter, d)
  else if len payload <? minCommandAndCapsLength
  then Ok (Some (errMalformedRequest "invalid command and capabilities line length: expected at least %d, got %d"), d)
  else
    let* raw := slice payload (sep + 1) (len payload) in
    let req := pd_req d in
    let '(err, c) := List_Decode (up_Capabilities req) raw in
    let d := mkUpdDec (pd_r d) (mkUpdReq c (Commands req) (up_Shallow req)) (pd_payload d) (pd_length d) in
    match err with
    | Some e => Ok (Some e, d)
    | None =>
      let* payload := slice payload 0 sep in
      upd_decodeCommands_loop (length (pd_r d) + 1) payload d
    end.

Definition upd_decodeFlush (d : updReqDecoder) : res upd_step :=
  if negb (len (pd_payload d) =? 0) || negb (pd_length d =? Flush)
  then Ok (Some (errMalformedRequest "unexpected data after flush"), d)
  else Ok (None, d).

(** The list of functions, until the first error. *)
Fixpoint upd_funcs (fs : list (updReqDecoder -> res upd_step)) (d : updReqDecoder) : res upd_step :=
  match fs with
  | [] => Ok (None, d)
  | f :: fs =>
    let* (err, d) := f d in
    match err with Some e => Ok (Some e, d) | None => upd_funcs fs d end
  end.

Definition UpdateRequests_Decode (req : UpdateRequests) (r : bytes) : res (option error * UpdateRequests * bytes) :=
  let* (err, d) := upd_funcs [ (fun d => upd_readLine d ErrEmptyRequest); upd_decodeShallow; upd_decodeCommands;
                               upd_decodeFlush; (fun d => Ok (UpdateRequests_validate (pd_req d), d)) ]
                     (mkUpdDec r req [] 0) in
  Ok (err, pd_req d, pd_r d).

(** ** Haves *)
Fixpoint UploadHaves_Decode_loop (fuel : nat) (u : UploadHaves) (r : bytes) : res (option error * UploadHaves * bytes) :=
  match fuel with
  | O => NoFuel
  | S fuel =>
    let* (l, line, err, r) := readLine r in
    match err with
    | Some EOF => Ok (None, u, r)
    | Some e => Ok (Some e, u, r)
    | None =>
      if l =? Flush then Ok (None, u, r)
      else if HasPrefix line (bs "done") then Ok (None, mkHaves (Haves u) true, r)
      else if negb (HasPrefix line (bs "have ")) then Ok (Some (ErrPackp (bs "invalid have line: %q")), u, r)
      else
        let* text := slice line 5 (len line) in
        UploadHaves_Decode_loop fuel (mkHaves (Haves u ++ [NewHash (TrimSpace text)]) (Done u)) r
    end
  end.

Definition UploadHaves_Decode (u : UploadHaves) (r : bytes) : res (option error * UploadHaves * bytes) :=
  UploadHaves_Decode_loop (length r + 1) (mkHaves [] (Done u)) r.

(** ** Push options *)
Fixpoint PushOptions_Decode (fuel : nat) (opts : list bytes) (r : bytes) : res (option error * list bytes * bytes) :=
  match fuel with
  | O => NoFuel
  | S fuel =>
    let* (l, line, err, r) := readLine r in
    match err with
    | Some e => Ok (Some e, opts, r)
    | None => if l =? Flush then Ok (None, opts, r) else PushOptions_Decode fuel (opts ++ [line]) r
    end
  end.

(** ** Request of the git transport *)
Definition GitProtoRequest_Decode (g : GitProtoRequest) (r : bytes) : res (option error * GitProtoRequest * bytes) :=
  let* (_, line, err, r) := readLine r in
  match err with
  | Some EOF => Ok (Some ErrInvalidGitProtoRequest, g, r)
  | Some e => Ok (Some e, g, r)
  | None =>
    if len line =? 0 then Ok (Some EOF, g, r)
    else if negb (bool_decide (last line = Some x00)) then Ok (Some ErrInvalidGitProtoRequest, g, r)
    else
      match SplitN2 line x20 with
      | (_, None) => Ok (Some ErrInvalidGitProtoRequest, g, r)
      | (cmd, Some rest) =>
        match Split rest x00 with
        | [] => Ok (Some ErrInvalidGitProtoRequest, mkGitProto cmd (Pathname g) (Host g) (ExtraParams g), r)
        | path :: params =>
          let host := match params with h :: _ => TrimPrefix h (bs "host=") | [] => Host g end in
          let extra := List.filter (fun p => negb (bool_decide (p = []))) (drop 1 params) in
          Ok (None, mkGitProto cmd path host (ExtraParams g ++ extra), r)
        end
      end
  end.

(** ** Report status *)
Definition decodeReportStatus (b : bytes) : res bytes :=
  if isFlush b then Err (ErrPackp (bs "premature flush"))
  else
    match SplitN2 (TrimSuffix b kw_eol) x20 with
    | (f0, Some f1) => if bool_decide (f0 = bs "unpack") then Ok f1 else Err (ErrPackp (bs "malformed unpack status: %s"))
    | _ => Err (ErrPackp (bs "malformed unpack status: %s"))
    end.

(** [strings.SplitN(line, " ", 3)]: two or three fields. *)
Definition decodeCommandStatus (b : bytes) : res CommandStatus :=
  match SplitN2 (TrimSuffix b kw_eol) x20 with
  | (f0, Some rest) =>
    match SplitN2 rest x20 with
    | (f1, Some f2) =>
      if bool_decide (f0 = bs "ng") then Ok (mkCmdStatus f1 f2) else Err (ErrPackp (bs "malformed command status: %s"))
    | (f1, None) =>
      if bool_decide (f0 = bs "ok") then Ok (mkCmdStatus f1 kw_ok) else Err (ErrPackp (bs "malformed command status: %s"))
    end
  | _ => Err (ErrPackp (bs "malformed command status: %s"))
  end.

Fixpoint ReportStatus_Decode_loop (fuel : nat) (s : ReportStatus) (r : bytes) : res (option error * ReportStatus * bytes) :=
  match fuel with
  | O => NoFuel
  | S fuel =>
    let* (l, b, err, r) := readLine r in
    match err with
    | Some _ => Ok (Some (ErrPackp (bs "missing flush: %w")), s, r)
    | None =>
      if l =? Flush then Ok (None, s, r)
      else
        match decodeCommandStatus b with
        | Err e => Ok (Some e, s, r)
        | Panic => Panic
        | NoFuel => NoFuel
        | Ok cs => ReportStatus_Decode_loop fuel (mkReport (UnpackStatus s) (CommandStatuses s ++ [cs])) r
        end
    end
  end.

Definition ReportStatus_Decode (s : ReportStatus) (r : bytes) : res (option error * ReportStatus * bytes) :=
  let* (_, b, err, r) := readLine r in
  match err with
  | Some EOF => Ok (Some ErrUnexpectedEOF, s, r)
  | Some e => Ok (Some e, s, r)
  | None =>
    match decodeReportStatus b with
    | Err e => Ok (Some e, s, r)
    | Panic => Panic
    | NoFuel => NoFuel
    | Ok status => ReportStatus_Decode_loop (length r + 1) (mkReport status (CommandStatuses s)) r
    end
  end.

(** ** Server response *)
Definition decodeACKLine (acks : list ACK) (line : bytes) : option error * list ACK :=
  match Split line x20 with
  | _ :: p1 :: rest =>
    if len line <? ackLineLen then (Some (ErrPackp (bs "malformed ACK %q")), acks)
    else
      let h := NewHash (TrimSuffix p1 [x0a]) in
      match rest with
      | [] => (Some EOF, acks ++ [mkACK h ACKNone])
      | p2 :: _ =>
        let status := TrimSpace p2 in
        let s := if bool_decide (status = bs "continue") then ACKContinue
                 else if bool_decide (status = bs "common") then ACKCommon
                 else if bool_decide (status = bs "ready") then ACKReady else ACKNone in
        (None, acks ++ [mkACK h s])
      end
  | _ => (Some (ErrPackp (bs "malformed ACK %q")), acks)
  end.

Definition srv_decodeLine (acks : list ACK) (line : bytes) : option error * list ACK :=
  if len line =? 0 then (Some (ErrPackp (bs "unexpected flush")), acks)
  else if (3 <=? len line) && bool_decide (take 3 line = kw_ack) then decodeACKLine acks line
  else if (3 <=? len line) && bool_decide (take 3 line = kw_nak) then (Some EOF, acks)
  else (Some (ErrPackp (bs "unexpected content %q")), acks).

Fixpoint ServerResponse_Decode (fuel : nat) (acks : list ACK) (r : bytes) : res (option error * list ACK * bytes) :=
  match fuel with
  | O => NoFuel
  | S fuel =>
    let* (_, p, err, r) := readLine r in
    match err with
    | Some EOF => Ok (None, acks, r)
    | Some e => Ok (Some e, acks, r)
    | None =>
      match srv_decodeLine acks p with
      | (Some EOF, acks) => Ok (None, acks, r)
      | (Some e, acks) => Ok (Some e, acks, r)
      | (None, acks) => ServerResponse_Decode fuel acks r
      end
    end
  end.

(** ** Shallow update *)
Definition shupd_decodeLine (line : bytes) (expLen : Z) : res ObjectID :=
  if negb (len line =? expLen) then Err (ErrPackp (bs "malformed %s%q"))
  else let* raw := slice line (expLen - 40) expLen in Ok (NewHash raw).

Fixpoint ShallowUpdate_Decode (fuel : nat) (u : ShallowUpdate) (r : bytes) : res (option error * ShallowUpdate * bytes) :=
  match fuel with
  | O => NoFuel
  | S fuel =>
    let* (l, p, err, r) := readLine r in
    match err with
    | Some EOF => Ok (None, u, r)
    | Some e => Ok (Some e, u, r)
    | None =>
      let line := TrimSpace p in
      if HasPrefix line kw_shallow then
        match shupd_decodeLine line shallowLineLen with
        | Err e => Ok (Some e, u, r)
        | Panic => Panic
        | NoFuel => NoFuel
        | Ok h => ShallowUpdate_Decode fuel (mkShUpd (su_Shallows u ++ [h]) (su_Unshallows u)) r
        end
      else if HasPrefix line kw_unshallow then
        match shupd_decodeLine line unshallowLineLen with
        | Err e => Ok (Some e, u, r)
        | Panic => Panic
        | NoFuel => NoFuel
        | Ok h => ShallowUpdate_Decode fuel (mkShUpd (su_Shallows u) (su_Unshallows u ++ [h])) r
        end
      else if l =? Flush then Ok (None, u, r)
      else Ok (Some (ErrPackp (bs "unexpected shallow line: %q")), u, r)
    end
  end.

(** ** Smart reply *)
Definition SmartReply_Decode (service : bytes) (r : bytes) : res (option error * bytes * bytes) :=
  let* (_, p, err, r) := readLine r in
  match err with
  | Some e => Ok (Some e, service, r)
  | None =>
    if (len p =? 0) || negb (HasPrefix p (bs "# service=")) then Ok (Some ErrInvalidSmartReply, service, r)
    else
      let* text := slice p 10 (len p) in
      let service := TrimSpace text in
      let* (l, _, err, r) := readLine r in
      match err with
      | Some e => Ok (Some e, service, r)
      | None => if l =? Flush then Ok (None, service, r) else Ok (Some ErrInvalidSmartReply, service, r)
      end
  end.
End Pool.
