(* ===== verification/UlreqProofs.v ===== *)
(** * Requests and replies: decoding ends, and inverts encoding *)
From S2P Require Import Prelude GoStrings Strconv ObjectID Reference Storer Memory PktLine Capability Packp AdvRefsProofs PackpMessages PackpDecoders.

(** ** Identifiers in order, each once *)

Definition leHash (a b : ObjectID) : Prop := compareBytes (ObjectID_Bytes a) (ObjectID_Bytes b) <= 0.

#[global] Instance leHash_trans : Transitive leHash.
Proof.
  intros a b c. unfold leHash. destruct (decide (compareBytes (ObjectID_Bytes a) (ObjectID_Bytes b) = 0)) as [E|E].
  - by rewrite (compareBytes_eq _ _ E).
  - intros H1 H2. destruct (decide (compareBytes (ObjectID_Bytes b) (ObjectID_Bytes c) = 0)) as [E2|E2].
    + by rewrite <- (compareBytes_eq _ _ E2).
    + pose proof (compareBytes_lt_trans (ObjectID_Bytes a) (ObjectID_Bytes b) (ObjectID_Bytes c)). lia.
Qed.

Lemma HashesSort_sorted hs : StronglySorted leHash (HashesSort hs).
Proof.
  apply insertionSort_sorted; [apply _|..]; intros a b; unfold HashLess, ObjectID_Compare, leHash; intros H.
  - apply Z.ltb_lt in H. lia.
  - apply Z.ltb_ge in H. pose proof (compareBytes_antisym (ObjectID_Bytes a) (ObjectID_Bytes b)). lia.
Qed.

Lemma sha1_compare a b : sha1_id a -> sha1_id b -> compareBytes (ObjectID_Bytes a) (ObjectID_Bytes b) = 0 -> a = b.
Proof.
  intros Ha Hb E%compareBytes_eq. rewrite <- (sha1_NewHash a Ha), <- (sha1_NewHash b Hb). unfold ObjectID_String. by rewrite E.
Qed.

(** What [encodeNew] sends. *)
Fixpoint newHashes (last : ObjectID) (hs : list ObjectID) : list ObjectID :=
  match hs with
  | [] => []
  | h :: hs => if ObjectID_Compare last (ObjectID_Bytes h) =? 0 then newHashes last hs else h :: newHashes h hs
  end.

Lemma newHashes_spec hs : forall last, sha1_id last -> Forall sha1_id hs -> StronglySorted leHash (last :: hs) ->
  NoDup (newHashes last hs) /\ (forall h, h ∈ newHashes last hs <-> h ∈ hs /\ h <> last).
Proof.
  induction hs as [|h hs IH]; intros last Hl Hs Hsort; cbn; [split; [apply NoDup_nil_2|set_solver]|].
  apply Forall_cons in Hs as [Hh Hs]. inversion Hsort as [|? ? Hsort' Hle]; subst. apply Forall_cons in Hle as [Hlh Hlhs].
  inversion Hsort' as [|? ? Hsort2 Hhs]; subst. unfold ObjectID_Compare. destruct (Z.eqb_spec (compareBytes (ObjectID_Bytes last) (ObjectID_Bytes h)) 0) as [E|E].
  - apply sha1_compare in E; [|done..]. subst h. destruct (IH last Hl Hs) as [H1 H2]; [by constructor|]. split; [done|].
    intros x. rewrite H2. set_solver.
  - destruct (IH h Hh Hs) as [H1 H2]; [by constructor|].
    assert (h <> last) as Hne by (intros ->; by rewrite compareBytes_refl in E).
    split; [constructor; [rewrite H2; tauto|done]|]. intros x. rewrite elem_of_cons, H2, elem_of_cons.
    destruct (decide (x = h)) as [->|Hx]; [tauto|]. split; [|tauto]. intros [?|[Hin _]]; [done|]. split; [auto|]. intros ->.
    apply E. rewrite Forall_forall in Hhs. specialize (Hhs last Hin). unfold leHash in *.
    pose proof (compareBytes_antisym (ObjectID_Bytes last) (ObjectID_Bytes h)). lia.
Qed.

Lemma leHash_zero hs : Forall sha1_id hs -> StronglySorted leHash hs -> StronglySorted leHash (ZeroHash :: hs).
Proof.
  intros Hs H. constructor; [done|]. eapply Forall_impl; [exact Hs|]. intros h Hh. unfold leHash.
  assert (forall l, compareBytes (replicate (length l) x00) l <= 0) as Hz.
  { induction l as [|b l IH]; cbn; [lia|]. change (b2z x00) with 0. pose proof (b2z_range b).
    destruct (Z.ltb_spec 0 (b2z b)); [lia|]. destruct (Z.ltb_spec (b2z b) 0); [lia|]. exact IH. }
  specialize (Hz (ObjectID_Bytes h)). destruct Hh as [Hw Hf]. destruct (wf_bytes h Hw) as (Hl & _ & HS). rewrite HS, Hf in Hl.
  change (format_Size SHA1) with 20 in Hl. replace (length (ObjectID_Bytes h)) with 20%nat in Hz by (unfold len in Hl; lia). exact Hz.
Qed.

(** The lines of an encoder whose keyword cannot begin an error line. *)
Definition keyLine (key : bytes) (h : ObjectID) : bytes := key ++ ObjectID_String h.

Lemma keyLine_ok key h : sha1_id h -> HasPrefix key errPrefix = false -> 4 <= len key ->
  4 <= len (keyLine key h ++ kw_eol) /\ HasPrefix (keyLine key h ++ kw_eol) errPrefix = false.
Proof.
  intros Hh Hk Hl. unfold keyLine. rewrite <- app_assoc. split; [rewrite len_app; pose proof (len_nonneg (ObjectID_String h ++ kw_eol)); lia|].
  rewrite HasPrefix_app; [done|]. unfold len in Hl. change (length errPrefix) with 4%nat. lia.
Qed.

Definition eolFrames (ls : list bytes) : bytes := frames (map (fun l => l ++ kw_eol) ls).
Definition eol_ok (l : bytes) : Prop := line_ok (l ++ kw_eol).

Lemma eolFrames_app a b : eolFrames (a ++ b) = eolFrames a ++ eolFrames b.
Proof. unfold eolFrames, frames. by rewrite !map_app, concat_app. Qed.
Lemma eolFrames_cons l ls : eolFrames (l :: ls) = frame (l ++ kw_eol) ++ eolFrames ls.
Proof. done. Qed.

Lemma encodeNew_inv key hs : HasPrefix key errPrefix = false -> 4 <= len key -> Forall sha1_id hs ->
  forall last w w', encodeNew key last hs w = Ok w' ->
  Forall eol_ok (map (keyLine key) (newHashes last hs)) /\ w' = w ++ eolFrames (map (keyLine key) (newHashes last hs)).
Proof.
  intros Hk Hl. induction 1 as [|h hs Hh Hs IH]; intros last w w' H; cbn in H |- *.
  - injection H as <-. split; [constructor|]. by rewrite app_nil_r.
  - destruct (ObjectID_Compare last (ObjectID_Bytes h) =? 0); [by apply IH|]. inv_bind H.
    rewrite (app_assoc key) in E. destruct (keyLine_ok key h Hh Hk Hl) as [H1 H2].
    destruct (Writef_inv _ _ _ E H1 H2) as [Hok ->]. destruct (IH _ _ _ H) as [Hoks ->].
    split; [by constructor|]. rewrite <- app_assoc. done.
Qed.

(** ** Upload requests *)
Section UploadRequests.
Context (pool : bytes -> bytes) (pool_size : forall r, len (pool r) = MaxSize).
#[local] Abbreviation runs := (runs (ul_state pool)).

Definition ul_at (d : ulReqDecoder) (s : bytes) (v : UploadRequest) : Prop := ud_r d = s /\ ud_err d = None /\ ud_data d = v.

(** The line the decoder holds and those still in the reader, with the flush at their end. *)
Definition loaded (d : ulReqDecoder) (ls : list bytes) (r : bytes) (v : UploadRequest) : Prop :=
  match ls with
  | [] => ud_line d = [] /\ ul_at d r v
  | l :: ls => ud_line d = l /\ ul_at d (eolFrames ls ++ flushPkt ++ r) v
  end.

Lemma ul_next_loaded d ls r v : ul_at d (eolFrames ls ++ flushPkt ++ r) v -> Forall eol_ok ls ->
  exists d1, ul_nextLine pool d = Ok (true, d1) /\ loaded d1 ls r v.
Proof.
  intros (Hs & He & Hv) Hok. unfold ul_nextLine. rewrite Hs. destruct ls as [|l ls].
  - cbn [eolFrames frames map concat app]. rewrite readPkt_flush by done. eexists. split; [reflexivity|]. done.
  - apply Forall_cons in Hok as [Hl _]. rewrite eolFrames_cons, <- app_assoc. rewrite readPkt_frame by done. cbn [res_bind].
    unfold kw_eol. rewrite TrimSuffix_snoc. eexists. split; [reflexivity|]. done.
Qed.

Lemma ul_readHash_ok d h l : sha1_id h -> ud_line d = ObjectID_String h ++ l -> ul_readHash d = Ok (Some h, ud_set_line d l).
Proof.
  intros Hh L. destruct (sha1_String h Hh) as (Hlen & Hhex & _). unfold ul_readHash. rewrite L.
  pose proof (len_nonneg l). pose proof (len_app (ObjectID_String h) l). unfold hashSize.
  destruct (Z.ltb_spec (len (ObjectID_String h ++ l)) 40); [lia|]. rewrite <- Hlen at 1. rewrite slice_app_l. cbn [res_bind].
  rewrite Hhex. cbn [negb]. by rewrite slice_app_r.
Qed.

Lemma TrimPrefix_self p l : TrimPrefix (p ++ l) p = l.
Proof. unfold TrimPrefix. rewrite HasPrefix_self. apply drop_app_length. Qed.

Lemma list_one_inj {A} (x y : A) : [x] = [y] -> x = y.
Proof. by intros [= ->]. Qed.

(** *** The depth *)
Definition depthLines (d : Depth) : list bytes :=
  match d with
  | DepthCommits n => if n =? 0 then [] else [kw_deepenCommits ++ FormatInt n]
  | DepthSince secs => [kw_deepenSince ++ FormatInt secs]
  | DepthReference ref => [kw_deepenReference ++ ref]
  end.

Definition depth_ok (d : Depth) : Prop :=
  match d with
  | DepthCommits n => 0 <= n < 2 ^ 63
  | DepthSince secs => - 2 ^ 63 <= secs < 2 ^ 63
  | DepthReference ref => True
  end.

Definition withDepth (v : UploadRequest) (d : Depth) : UploadRequest :=
  match depthLines d with [] => v | _ => ul_setDepth v d end.

Lemma runs_flush d r v : ul_at d (flushPkt ++ r) v -> exists d', runs ulFlush d d' /\ ul_at d' r v.
Proof.
  intros Hd. destruct (ul_next_loaded d [] r v Hd) as (d1 & E & L & H1); [constructor|]. exists d1. split; [|done].
  apply runs_done. cbn [ul_state]. unfold ul_decodeFlush. rewrite E. cbn [res_bind negb]. by rewrite L.
Qed.

Lemma runs_deepen dp d l r v : depth_ok dp -> depthLines dp = [l] -> loaded d [l] r v ->
  exists d', runs ulDeepen d d' /\ ul_at d' r (ul_setDepth v dp).
Proof.
  intros Hok Hl [L (Hs & He & Hv)]. change (eolFrames [] ++ flushPkt ++ r) with (flushPkt ++ r) in Hs.
  assert (exists f d2, ul_state pool ulDeepen d = Ok (Some f, d) /\ ul_state pool f d = Ok (Some ulFlush, d2) /\
            ul_at d2 (flushPkt ++ r) (ul_setDepth v dp)) as (f & d2 & E1 & E2 & H2).
  { destruct dp as [n|secs|ref]; cbn [depthLines depth_ok] in *.
    - destruct (Z.eqb_spec n 0); [discriminate Hl|]. apply list_one_inj in Hl; rewrite <- Hl in L. exists ulDeepenCommits. eexists.
      cbn [ul_state]. unfold ul_decodeDeepen, ul_decodeDeepenCommits. rewrite L, HasPrefix_self. split; [done|].
      cbn [ud_line ud_set_line]. rewrite TrimPrefix_self, ParseInt_FormatInt by lia. cbn [ud_set_err].
      destruct (Z.ltb_spec n 0); [lia|]. split; [reflexivity|]. cbn. by rewrite Hv.
    - apply list_one_inj in Hl; rewrite <- Hl in L. exists ulDeepenSince. eexists. cbn [ul_state]. unfold ul_decodeDeepen, ul_decodeDeepenSince.
      rewrite L. change (HasPrefix (kw_deepenSince ++ _) kw_deepenCommits) with false. rewrite HasPrefix_self. split; [done|].
      cbn [ud_line ud_set_line]. rewrite TrimPrefix_self, ParseInt_FormatInt by lia. split; [reflexivity|]. cbn. by rewrite Hv.
    - apply list_one_inj in Hl; rewrite <- Hl in L. exists ulDeepenReference. eexists. cbn [ul_state]. unfold ul_decodeDeepen, ul_decodeDeepenReference.
      rewrite L. change (HasPrefix (kw_deepenReference ++ _) kw_deepenCommits) with false.
      change (HasPrefix (kw_deepenReference ++ _) kw_deepenSince) with false. rewrite HasPrefix_self. split; [done|].
      cbn [ud_line ud_set_line]. rewrite TrimPrefix_self. split; [reflexivity|]. cbn. by rewrite Hv. }
  destruct (runs_flush d2 r _ H2) as (d' & Hr & Hat). exists d'. split; [|done].
  eapply runs_step; [exact E1|]. eapply runs_step; [exact E2|exact Hr].
Qed.

Lemma depthLines_cases dp : depthLines dp = [] \/ exists l, depthLines dp = [kw_deepen ++ l].
Proof.
  destruct dp as [n|secs|ref]; cbn; [destruct (n =? 0); [by left|]|..]; right.
  - by exists (bs " " ++ FormatInt n).
  - by exists (bs "-since " ++ FormatInt secs).
  - by exists (bs "-not " ++ ref).
Qed.

(** *** Shallows, then the depth *)
Definition addShallowsTo (v : UploadRequest) (hs : list ObjectID) : UploadRequest :=
  mkUlReq (ur_Capabilities v) (Wants v) (ur_Shallows v ++ hs) (ur_Depth v) (ur_Filter v).

Lemma runs_ulShallow dp r hs : depth_ok dp -> Forall sha1_id hs -> Forall eol_ok (map (keyLine kw_shallow) hs ++ depthLines dp) ->
  forall d v, loaded d (map (keyLine kw_shallow) hs ++ depthLines dp) r v ->
  exists d', runs ulShallow d d' /\ ul_at d' r (withDepth (addShallowsTo v hs) dp).
Proof.
  intros Hdp Hhs. induction Hhs as [|h hs Hh Hhs IH]; intros Hok d v Hd; cbn [map app] in *.
  - assert (addShallowsTo v [] = v) as -> by (unfold addShallowsTo; rewrite app_nil_r; by destruct v).
    unfold withDepth. destruct (depthLines_cases dp) as [E|[l E]]; rewrite E in *.
    + destruct Hd as [L Hat]. exists d. split; [|done]. apply runs_done. cbn [ul_state]. unfold ul_decodeShallow. by rewrite L.
    + destruct (runs_deepen dp d _ r v Hdp E Hd) as (d' & Hr & Hat). exists d'. split; [|done]. eapply runs_step; [|exact Hr].
      cbn [ul_state]. unfold ul_decodeShallow. destruct Hd as [L _]. by rewrite L, HasPrefix_self.
  - apply Forall_cons in Hok as [_ Hok]. destruct Hd as [L (Hs & He & Hv)].
    set (d1 := ud_set_data (ud_set_line d []) (ul_addShallow v h)).
    destruct (ul_next_loaded d1 (map (keyLine kw_shallow) hs ++ depthLines dp) r (ul_addShallow v h)) as (d2 & E & H2); [done|exact Hok|].
    destruct (IH Hok d2 _ H2) as (d' & Hr & Hat). exists d'. split.
    + eapply runs_step; [|exact Hr]. cbn [ul_state]. unfold ul_decodeShallow. rewrite L. unfold keyLine.
      change (HasPrefix (kw_shallow ++ _) kw_deepen) with false. rewrite HasPrefix_self. cbn [negb].
      destruct (Z.eqb_spec (len (kw_shallow ++ ObjectID_String h)) 0) as [Z|_]; [rewrite len_app in Z; pose proof (len_nonneg (ObjectID_String h)); change (len kw_shallow) with 8 in Z; lia|].
      rewrite TrimPrefix_self, (ul_readHash_ok _ h []) by (done || by cbn; rewrite app_nil_r). cbn [res_bind ud_data ud_set_line].
      rewrite Hv. change (ud_set_data _ _) with d1. by rewrite E.
    + unfold addShallowsTo in *. cbn in Hat |- *. by rewrite <- app_assoc in Hat.
Qed.

Lemma runs_tail dp r hs d v : depth_ok dp -> Forall sha1_id hs -> Forall eol_ok (map (keyLine kw_shallow) hs ++ depthLines dp) ->
  ul_at d (eolFrames (map (keyLine kw_shallow) hs ++ depthLines dp) ++ flushPkt ++ r) v ->
  exists d', runs ulOtherWants d d' /\ ul_at d' r (withDepth (addShallowsTo v hs) dp).
Proof.
  intros Hdp Hhs Hok Hd. destruct (ul_next_loaded d _ r v Hd Hok) as (d1 & E & H1).
  destruct (runs_ulShallow dp r hs Hdp Hhs Hok d1 v H1) as (d' & Hr & Hat). exists d'. split; [|done].
  assert (ul_state pool ulOtherWants d = Ok (Some ulShallow, d1) \/ ul_state pool ulOtherWants d = ul_state pool ulShallow d1) as [Es|Es].
  - cbn [ul_state]. unfold ul_decodeOtherWants, ul_decodeShallow. rewrite E. cbn [res_bind negb]. destruct hs as [|h hs]; cbn [map app] in H1.
    + destruct (depthLines_cases dp) as [El|[l El]]; rewrite El in H1; destruct H1 as [L _]; rewrite L; right; [done|].
      change (HasPrefix (kw_deepen ++ l) kw_shallow) with false. by rewrite HasPrefix_self.
    + destruct H1 as [L _]. left. rewrite L. unfold keyLine. by rewrite HasPrefix_self.
  - eapply runs_step; [exact Es|exact Hr].
  - destruct Hr as [[|n] Hn]; [discriminate Hn|]. exists (S n). cbn [runStates] in Hn |- *. by rewrite Es.
Qed.

(** *** Wants *)
Definition addWantsTo (v : UploadRequest) (hs : list ObjectID) : UploadRequest :=
  mkUlReq (ur_Capabilities v) (Wants v ++ hs) (ur_Shallows v) (ur_Depth v) (ur_Filter v).

Lemma runs_wants ls r d' hs : Forall sha1_id hs -> Forall eol_ok (map (keyLine kw_want) hs ++ ls) -> forall v0,
  (forall d v, v = addWantsTo v0 hs -> ul_at d (eolFrames ls ++ flushPkt ++ r) v -> exists d2, runs ulOtherWants d d2 /\ ul_at d2 r d') ->
  forall d, ul_at d (eolFrames (map (keyLine kw_want) hs ++ ls) ++ flushPkt ++ r) v0 -> exists d2, runs ulOtherWants d d2 /\ ul_at d2 r d'.
Proof.
  induction 1 as [|h hs Hh Hhs IH]; intros Hok v0 Hend d Hd; cbn [map app] in *.
  - apply (Hend d v0); [|done]. unfold addWantsTo. rewrite app_nil_r. by destruct v0.
  - destruct (ul_next_loaded d _ r v0 Hd Hok) as (d1 & E & L & H1). apply Forall_cons in Hok as [_ Hok].
    set (d2 := ud_set_data (ud_set_line d1 []) (ul_addWant v0 h)).
    destruct (IH Hok (ul_addWant v0 h)) with (d := d2) as (d3 & Hr & Hat).
    + intros d0 v -> Hat. apply (Hend d0 (addWantsTo v0 (h :: hs))); [done|]. unfold addWantsTo in *. cbn in Hat |- *. by rewrite <- app_assoc in Hat.
    + by destruct H1 as (? & ? & ?).
    + exists d3. split; [|done]. eapply runs_step; [|exact Hr]. cbn [ul_state]. unfold ul_decodeOtherWants. rewrite E. cbn [res_bind negb].
      rewrite L. unfold keyLine. change (HasPrefix (kw_want ++ _) kw_shallow) with false. change (HasPrefix (kw_want ++ _) kw_deepen) with false.
      rewrite HasPrefix_self. cbn [negb].
      destruct (Z.eqb_spec (len (kw_want ++ ObjectID_String h)) 0) as [Z|_]; [rewrite len_app in Z; pose proof (len_nonneg (ObjectID_String h)); change (len kw_want) with 5 in Z; lia|].
      rewrite TrimPrefix_self, (ul_readHash_ok _ h []) by (done || by cbn; rewrite app_nil_r). cbn [res_bind ud_data ud_set_line].
      by destruct H1 as (_ & _ & ->).
Qed.

(** *** The first line *)
Lemma runs_first h l caps ls r d v v' : sha1_id h -> eol_ok (keyLine kw_want h ++ l) ->
  List_Decode (ur_Capabilities v) (TrimPrefix l kw_sp) = (None, caps) ->
  ul_at d (frame ((keyLine kw_want h ++ l) ++ kw_eol) ++ eolFrames ls ++ flushPkt ++ r) v ->
  (forall d1, ul_at d1 (eolFrames ls ++ flushPkt ++ r) (ul_setCaps (ul_addWant v h) caps) -> exists d2, runs ulOtherWants d1 d2 /\ ul_at d2 r v') ->
  exists d2, runs ulFirstWant d d2 /\ ul_at d2 r v'.
Proof.
  intros Hh Hok Hc (Hs & He & Hv) Hend.
  set (d1 := mkUlDec (eolFrames ls ++ flushPkt ++ r) l (ud_nLine d + 1) None (ul_addWant v h)).
  destruct (Hend (ud_set_data (ud_set_line d1 (TrimPrefix l kw_sp)) (ul_setCaps (ul_addWant v h) caps))) as (d2 & Hr & Hat); [done|].
  exists d2. split; [|done]. eapply (runs_step _ ulFirstWant d ulCaps d1).
  - cbn [ul_state]. unfold ul_decodeFirstWant, ul_nextLine. rewrite Hs, readPkt_frame by done. cbn [res_bind negb].
    unfold kw_eol. rewrite TrimSuffix_snoc. cbn [ud_line ud_set_line]. unfold keyLine. rewrite <- app_assoc, HasPrefix_self. cbn [negb].
    rewrite TrimPrefix_self, (ul_readHash_ok _ h l) by done. cbn. by rewrite He, Hv.
  - eapply runs_step; [|exact Hr]. cbn [ul_state]. unfold ul_decodeCaps. cbn [ud_data ud_line ud_set_line d1 ul_addWant ur_Capabilities]. by rewrite Hc.
Qed.
End UploadRequests.

(** *** Decoding ends *)
Section UploadTotal.
Context (pool : bytes -> bytes) (pool_size : forall r, len (pool r) = MaxSize) (pool_clean : forall r, ~ stale_error r (pool r)).

Lemma ul_nextLine_total d : exists ok d', ul_nextLine pool d = Ok (ok, d') /\ (ok = true -> (length (ud_r d') + 4 <= length (ud_r d))%nat).
Proof.
  unfold ul_nextLine. destruct (readPkt_total pool pool_size pool_clean (ud_r d)) as [[[[l p] e] s] E]. rewrite E. cbn [res_bind].
  destruct e as [e|].
  - assert (forall d', exists ok d1, Ok (false, d') = Ok (ok, d1) /\ (ok = true -> (length (ud_r d1) + 4 <= length (ud_r d))%nat)) as H.
    { intros d'. exists false, d'. split; [done|]. by intros. }
    destruct e; apply H.
  - eexists true, _. split; [reflexivity|]. intros _. cbn. by apply readPkt_consumes in E.
Qed.

Lemma ul_readHash_total d : exists h d', ul_readHash d = Ok (h, d') /\ ud_r d' = ud_r d.
Proof.
  unfold ul_readHash, hashSize. destruct (Z.ltb_spec (len (ud_line d)) 40); [eauto|]. take_slice.
  destruct (FromHex x) as [h []]; cbn [negb]; [|eauto]. take_slice. do 2 eexists. split; [reflexivity|]. done.
Qed.

Definition ul_weight (f : ulStateFn) : nat :=
  match f with ulFirstWant | ulOtherWants | ulFlush => 0 | ulCaps | ulDeepenCommits | ulDeepenSince | ulDeepenReference => 1 | ulDeepen => 2 | ulShallow => 3 end.

Lemma ul_state_total f d : exists next d', ul_state pool f d = Ok (next, d') /\
  (forall f', next = Some f' -> (length (ud_r d') + ul_weight f' < length (ud_r d) + ul_weight f)%nat).
Proof.
  assert (forall (P : option ulStateFn -> ulReqDecoder -> Prop) d', P None d' ->
    exists next d1, Ok (@None ulStateFn, d') = Ok (next, d1) /\ P next d1) as stop by eauto.
  assert (forall f' d', (length (ud_r d') + ul_weight f' < length (ud_r d) + ul_weight f)%nat ->
    exists next d1, Ok (Some f', d') = Ok (next, d1) /\
      (forall f', next = Some f' -> (length (ud_r d1) + ul_weight f' < length (ud_r d) + ul_weight f)%nat)) as go.
  { intros f' d' H. do 2 eexists. split; [reflexivity|]. by intros ? [= <-]. }
  destruct f; cbn [ul_state].
  - unfold ul_decodeFirstWant. destruct (ul_nextLine_total d) as ([] & d1 & E & H); rewrite E; cbn [res_bind negb]; [|by apply stop].
    specialize (H eq_refl). destruct (HasPrefix _ _); cbn [negb]; [|by apply stop].
    destruct (ul_readHash_total (ud_set_line d1 (TrimPrefix (ud_line d1) kw_want))) as ([h|] & d2 & E2 & H2); rewrite E2; cbn [res_bind]; [|by apply stop].
    apply go. cbn in *. rewrite H2. lia.
  - unfold ul_decodeCaps. cbv zeta. destruct (List_Decode _ _) as [[e|] c]; apply go; cbn; lia.
  - unfold ul_decodeOtherWants. destruct (ul_nextLine_total d) as ([] & d1 & E & H); rewrite E; cbn [res_bind negb]; [|by apply stop].
    specialize (H eq_refl). destruct (HasPrefix _ kw_shallow); [apply go; cbn; lia|]. destruct (HasPrefix _ kw_deepen); [apply go; cbn; lia|].
    destruct (_ =? 0); [by apply stop|]. destruct (HasPrefix _ kw_want); cbn [negb]; [|by apply stop].
    destruct (ul_readHash_total (ud_set_line d1 (TrimPrefix (ud_line d1) kw_want))) as ([h|] & d2 & E2 & H2); rewrite E2; cbn [res_bind]; [|by apply stop].
    apply go. cbn in *. rewrite H2. lia.
  - unfold ul_decodeShallow. destruct (HasPrefix _ kw_deepen); [apply go; cbn; lia|]. destruct (_ =? 0); [by apply stop|].
    destruct (HasPrefix _ kw_shallow); cbn [negb]; [|by apply stop].
    destruct (ul_readHash_total (ud_set_line d (TrimPrefix (ud_line d) kw_shallow))) as ([h|] & d2 & E2 & H2); rewrite E2; cbn [res_bind]; [|by apply stop].
    match goal with |- context [ul_nextLine pool ?d0] => destruct (ul_nextLine_total d0) as ([] & d1 & E1 & H); rewrite E1; cbn [res_bind negb]; [|by apply stop] end.
    specialize (H eq_refl). apply go. cbn in *. rewrite H2 in H. lia.
  - unfold ul_decodeDeepen. destruct (HasPrefix _ kw_deepenCommits); [apply go; cbn; lia|]. destruct (HasPrefix _ kw_deepenSince); [apply go; cbn; lia|].
    destruct (HasPrefix _ kw_deepenReference); [apply go; cbn; lia|]. destruct (_ =? 0); by apply stop.
  - unfold ul_decodeDeepenCommits. cbv zeta. pose proof (ParseInt_settled (ud_line (ud_set_line d (TrimPrefix (ud_line d) kw_deepenCommits))) 10 64) as Hp.
    destruct (ParseInt _ _ _) as [n| | |]; [|by apply stop|done..]. destruct (n <? 0); [by apply stop|]. apply go. cbn. lia.
  - unfold ul_decodeDeepenSince. cbv zeta. pose proof (ParseInt_settled (ud_line (ud_set_line d (TrimPrefix (ud_line d) kw_deepenSince))) 10 64) as Hp.
    destruct (ParseInt _ _ _) as [n| | |]; [|by apply stop|done..]. apply go. cbn. lia.
  - apply go. cbn. lia.
  - unfold ul_decodeFlush. destruct (ul_nextLine_total d) as ([] & d1 & E & H); rewrite E; cbn [res_bind negb]; [|by apply stop].
    destruct (_ =? 0); by apply stop.
Qed.

Lemma ul_run_total n f d : (length (ud_r d) + ul_weight f < n)%nat -> exists d', ul_run pool n f d = Ok d'.
Proof. apply (runStates_total (ul_state pool) (fun f d => length (ud_r d) + ul_weight f)%nat). apply ul_state_total. Qed.

End UploadTotal.

(** *** The whole request *)

(** The requests that survive. *)
Record ulreq_ok (v : UploadRequest) : Prop := {
  uo_caps : caps_ok (ur_Capabilities v) /\ caps_complete (ur_Capabilities v) /\ caps_printable (ur_Capabilities v);
  uo_wants : Forall sha1_id (Wants v);
  uo_shallows : Forall sha1_id (ur_Shallows v);
  uo_depth : exists dp, ur_Depth v = Some dp /\ depth_ok dp;
  uo_filter : ur_Filter v = [] }.

Lemma caps_empty c : caps_ok c -> List_IsEmpty c = true -> c = NewList.
Proof.
  intros (_ & Hs & _) H. unfold List_IsEmpty in H. apply Z.eqb_eq in H. destruct c as [m [|k ks]]; [|cbn [csort] in H; rewrite len_cons in H; pose proof (len_nonneg ks); lia].
  unfold NewList. f_equal. apply map_empty. intros c. apply eq_None_not_Some. intros Hc. apply Hs in Hc. cbn in Hc. set_solver.
Qed.

Lemma HashesSort_in hs h : h ∈ HashesSort hs <-> h ∈ hs.
Proof. unfold HashesSort. by rewrite insertionSort_perm. Qed.

(** What is written after the wants. *)
Lemma encodeShallows_inv v w w' v' dp : Forall sha1_id (ur_Shallows v) -> ur_Depth v = Some dp -> depth_ok dp -> ur_Filter v = [] ->
  ulreq_encodeShallows v w = Ok (w', v') ->
  let ss := newHashes ZeroHash (HashesSort (ur_Shallows v)) in
  Forall eol_ok (map (keyLine kw_shallow) ss ++ depthLines dp) /\
  w' = w ++ eolFrames (map (keyLine kw_shallow) ss ++ depthLines dp) ++ flushPkt.
Proof.
  intros Hs Hdp Hok Hf H. unfold ulreq_encodeShallows in H. inv_bind H. inv_bind H. injection H as <- <-.
  assert (Forall sha1_id (HashesSort (ur_Shallows v))) as Hss by (unfold HashesSort; by rewrite insertionSort_perm).
  destruct (encodeNew_inv (bs "shallow ") _ ltac:(done) ltac:(done) Hss _ _ _ E) as [H1 ->].
  cbv zeta. rewrite eolFrames_app, <- app_assoc. change (bs "shallow ") with kw_shallow in *. set (sl := map (keyLine kw_shallow) _) in *.
  assert (forall l, (exists a, l = kw_deepen ++ a) -> (let* w := Writef (w ++ eolFrames sl) (l ++ kw_eol) in ulreq_encodeFlush w) = Ok v1 ->
    Forall eol_ok (sl ++ [l]) /\ v1 = w ++ eolFrames sl ++ eolFrames [l] ++ flushPkt) as Hw.
  { intros l (a & ->) Hwr. inv_bind Hwr. injection Hwr as <-. apply Writef_inv in E1 as [Hl ->]; [| |done].
    - split; [apply Forall_app; split; [done|by apply Forall_singleton]|].
      rewrite eolFrames_cons. change (eolFrames []) with (@nil byte). by rewrite app_nil_r, <- !app_assoc.
    - rewrite !len_app. change (len kw_deepen) with 6. pose proof (len_nonneg a). pose proof (len_nonneg kw_eol). lia. }
  unfold ulreq_encodeDepth in E0. cbn [ur_Depth] in E0. rewrite Hdp in E0. unfold ulreq_encodeFilter in E0. cbn [ur_Filter] in E0. rewrite Hf in E0.
  change (bool_decide (@nil byte = [])) with true in E0. cbv iota in E0.
  destruct dp as [n|secs|ref]; cbn [depthLines] in *.
  - destruct (n =? 0); [injection E0 as <-; rewrite app_nil_r; split; [done|]; by rewrite <- app_assoc|].
    apply (Hw (kw_deepenCommits ++ FormatInt n)); [by exists (bs " " ++ FormatInt n)|exact E0].
  - apply (Hw (kw_deepenSince ++ FormatInt secs)); [by exists (bs "-since " ++ FormatInt secs)|exact E0].
  - apply (Hw (kw_deepenReference ++ ref)); [by exists (bs "-not " ++ ref)|exact E0].
Qed.

(** The end of the first line and what the decoder makes of it. *)
Lemma caps_line v h w w' : ulreq_ok v -> sha1_id h ->
  (if List_IsEmpty (ur_Capabilities v) then Writef w (bs "want " ++ ObjectID_String h ++ kw_eol)
   else let* caps := List_String (ur_Capabilities v) in Writef w (bs "want " ++ ObjectID_String h ++ kw_sp ++ caps ++ kw_eol)) = Ok w' ->
  exists l, eol_ok (keyLine kw_want h ++ l) /\ w' = w ++ frame ((keyLine kw_want h ++ l) ++ kw_eol) /\
    List_Decode NewList (TrimPrefix l kw_sp) = (None, ur_Capabilities v).
Proof.
  intros Hv Hh H. destruct (uo_caps _ Hv) as (Hc1 & Hc2 & Hc3).
  assert (forall l, Writef w ((keyLine kw_want h ++ l) ++ kw_eol) = Ok w' -> eol_ok (keyLine kw_want h ++ l) /\ w' = w ++ frame ((keyLine kw_want h ++ l) ++ kw_eol)) as Hw.
  { intros l Hwr. apply Writef_inv in Hwr; [done| |].
    - unfold keyLine. rewrite !len_app. change (len kw_want) with 5. pose proof (len_nonneg (ObjectID_String h)). pose proof (len_nonneg l). pose proof (len_nonneg kw_eol). lia.
    - unfold keyLine. rewrite <- !app_assoc. done. }
  destruct (List_IsEmpty (ur_Capabilities v)) eqn:Ee.
  - exists []. destruct (Hw []) as [H1 H2]; [rewrite app_nil_r; unfold keyLine; by rewrite <- app_assoc|]. split; [done|]. split; [done|].
    by rewrite (caps_empty _ Hc1 Ee).
  - inv_bind H. rename v0 into caps. exists (kw_sp ++ caps). destruct (Hw (kw_sp ++ caps)) as [H1 H2]; [unfold keyLine; by rewrite <- !app_assoc|].
    split; [done|]. split; [done|]. rewrite TrimPrefix_self. destruct (List_roundtrip _ Hc1 Hc2 Hc3) as (s & Hs & Hd). congruence.
Qed.

Section UploadTheorem.
Context (pool : bytes -> bytes) (pool_size : forall r, len (pool r) = MaxSize) (pool_clean : forall r, ~ stale_error r (pool r)).

(** What the decoder gets of a request. *)
Lemma UploadRequest_decoded v e v' r : ulreq_ok v -> UploadRequest_Encode v [] = Ok (e, v') ->
  exists first rest, HashesSort (Wants v) = first :: rest /\
    UploadRequest_Decode pool NewUploadRequest (e ++ r) =
    Ok (None, mkUlReq (ur_Capabilities v) (first :: newHashes first rest) (newHashes ZeroHash (HashesSort (ur_Shallows v))) (ur_Depth v) [], r).
Proof.
  intros Hv H. unfold UploadRequest_Encode in H. destruct (len (Wants v) =? 0); [discriminate H|].
  assert (Forall sha1_id (HashesSort (Wants v))) as Hws by (unfold HashesSort; rewrite insertionSort_perm; apply (uo_wants _ Hv)).
  unfold ulreq_encodeFirstWant in H. cbn [Wants] in H. destruct (HashesSort (Wants v)) as [|first rest]; [discriminate H|].
  change (index (first :: rest) 0) with (Ok first) in H. cbn [res_bind ur_Capabilities] in H. apply Forall_cons in Hws as [Hf Hrest].
  inv_bind H. apply (caps_line v first [] v0 Hv Hf) in E as (l & Hl & -> & Hcaps).
  unfold ulreq_encodeAdditionalWants in H. cbn [Wants] in H. change (index (first :: rest) 0) with (Ok first) in H. cbn [res_bind] in H.
  rewrite (slice_ok (first :: rest) 1) in H by (rewrite len_cons; pose proof (len_nonneg rest); lia).
  replace (seg (first :: rest) 1 (len (first :: rest))) with rest in H.
  2: { unfold seg. change (drop (Z.to_nat 1) (first :: rest)) with rest. rewrite take_ge; [done|]. rewrite len_cons. unfold len. lia. }
  cbn [res_bind] in H. inv_bind H. destruct (encodeNew_inv (bs "want ") rest ltac:(done) ltac:(done) Hrest _ _ _ E) as [Hwl ->].
  destruct (uo_depth _ Hv) as (dp & Hdp & Hdok).
  destruct (encodeShallows_inv (mkUlReq (ur_Capabilities v) (first :: rest) (ur_Shallows v) (ur_Depth v) (ur_Filter v)) _ _ _ dp
    (uo_shallows _ Hv) Hdp Hdok (uo_filter _ Hv) H) as [Htl ->]. clear H E.
  change (bs "want ") with kw_want in *. cbn [ur_Shallows] in *.
  assert (Forall sha1_id (newHashes first rest)) as Hnw.
  { clear -Hrest. revert first. induction Hrest as [|h hs Hh Hhs IH]; intros last; cbn; [constructor|]. destruct (_ =? 0); [apply IH|by constructor]. }
  assert (Forall sha1_id (newHashes ZeroHash (HashesSort (ur_Shallows v)))) as Hns.
  { assert (Forall sha1_id (HashesSort (ur_Shallows v))) as Hss by (unfold HashesSort; rewrite insertionSort_perm; apply (uo_shallows _ Hv)).
    clear -Hss. generalize ZeroHash. induction Hss as [|h hs Hh Hhs IH]; intros last; cbn; [constructor|]. destruct (_ =? 0); [apply IH|by constructor]. }
  set (ws := newHashes first rest) in *. set (ss := newHashes ZeroHash _) in *.
  set (ls := map (keyLine kw_shallow) ss ++ depthLines dp) in *.
  set (vf := withDepth (addShallowsTo (addWantsTo (ul_setCaps (ul_addWant NewUploadRequest first) (ur_Capabilities v)) ws) ss) dp).
  destruct (runs_first pool pool_size first l (ur_Capabilities v) (map (keyLine kw_want) ws ++ ls) r
    (newUlReqDecoder (frame ((keyLine kw_want first ++ l) ++ kw_eol) ++ eolFrames (map (keyLine kw_want) ws ++ ls) ++ flushPkt ++ r) NewUploadRequest)
    NewUploadRequest vf Hf Hl Hcaps) as (d2 & Hr & Hs & He & Hdata); [done| |].
  { intros d1 Hd1. eapply (runs_wants pool pool_size ls); [exact Hnw|by apply Forall_app|intros d v1 -> Hd; by apply runs_tail|exact Hd1]. }
  exists first, rest. split; [done|]. unfold UploadRequest_Decode. rewrite eolFrames_app in Hr.
  rewrite <- !app_assoc in Hr. cbn [app]. rewrite <- !app_assoc.
  set (stream := frame _ ++ _) in *.
  destruct (ul_run_total pool pool_size pool_clean (length stream + 4) ulFirstWant (newUlReqDecoder stream NewUploadRequest)) as [d1 E1]; [cbn; lia|].
  unfold ul_run in *. rewrite (runs_result _ _ _ _ _ Hr) by (by rewrite E1). cbn [res_bind]. rewrite Hs, He, Hdata. unfold vf, withDepth, ws, ss.
  destruct dp as [n|secs|ref]; cbn; [destruct (Z.eqb_spec n 0) as [->|]|..]; by rewrite Hdp.
Qed.

(** C32: an upload request without a filter comes back from its encoding: capabilities and depth as they were, each
    wanted identifier once, each shallow one once (the zero identifier apart), and the reader stops after the flush. *)
Theorem ulreq_roundtrip v e v' r : ulreq_ok v -> UploadRequest_Encode v [] = Ok (e, v') ->
  exists ws ss, UploadRequest_Decode pool NewUploadRequest (e ++ r) = Ok (None, mkUlReq (ur_Capabilities v) ws ss (ur_Depth v) [], r) /\
    NoDup ws /\ (forall h, h ∈ ws <-> h ∈ Wants v) /\ NoDup ss /\ (forall h, h ∈ ss <-> h ∈ ur_Shallows v /\ h <> ZeroHash).
Proof.
  intros Hv H. destruct (UploadRequest_decoded v e v' r Hv H) as (first & rest & Hsort & Hd).
  exists (first :: newHashes first rest), (newHashes ZeroHash (HashesSort (ur_Shallows v))). split; [exact Hd|].
  pose proof (HashesSort_sorted (Wants v)) as Hs. rewrite Hsort in Hs.
  assert (Forall sha1_id (first :: rest)) as Hws by (rewrite <- Hsort; unfold HashesSort; rewrite insertionSort_perm; apply (uo_wants _ Hv)).
  apply Forall_cons in Hws as [Hf Hr]. destruct (newHashes_spec rest first Hf Hr Hs) as [Hn Hin].
  assert (Forall sha1_id (HashesSort (ur_Shallows v))) as Hss by (unfold HashesSort; rewrite insertionSort_perm; apply (uo_shallows _ Hv)).
  destruct (newHashes_spec _ ZeroHash ltac:(split; [split; [done|right; done]|done]) Hss (leHash_zero _ Hss (HashesSort_sorted _))) as [Hn2 Hin2].
  split; [constructor; [rewrite Hin; tauto|done]|]. split; [|split; [done|intros h; by rewrite Hin2, HashesSort_in]].
  intros h. rewrite <- (HashesSort_in (Wants v)), Hsort, !elem_of_cons, Hin. destruct (decide (h = first)); tauto.
Qed.

(** Decoding an upload request ends on every input with a request or an error, and does not panic. *)
Theorem ulreq_decode_total v r : exists o, UploadRequest_Decode pool v r = Ok o.
Proof.
  unfold UploadRequest_Decode. destruct (ul_run_total pool pool_size pool_clean (length r + 4) ulFirstWant (newUlReqDecoder r v)) as [d E]; [cbn; lia|].
  rewrite E. cbn. eauto.
Qed.

(** An invalid list of capabilities goes unnoticed when a depth follows: the depth overwrites the
    error. *)
Theorem ulreq_forgets_invalid_caps h caps n r e c : sha1_id h -> 0 < n < 2 ^ 63 ->
  List_Decode NewList caps = (Some e, c) ->
  eol_ok (keyLine kw_want h ++ kw_sp ++ caps) -> eol_ok (kw_deepenCommits ++ FormatInt n) ->
  UploadRequest_Decode pool NewUploadRequest
    (eolFrames [keyLine kw_want h ++ kw_sp ++ caps; kw_deepenCommits ++ FormatInt n] ++ flushPkt ++ r) =
  Ok (None, mkUlReq c [h] [] (Some (DepthCommits n)) [], r).
Proof.
  intros Hh Hn Hc Hl1 Hl2. set (stream := eolFrames _ ++ _). unfold UploadRequest_Decode.
  destruct (ul_run_total pool pool_size pool_clean (length stream + 4) ulFirstWant (newUlReqDecoder stream NewUploadRequest)) as [d1 E1]; [cbn; lia|].
  assert (exists d', runs (ul_state pool) ulFirstWant (newUlReqDecoder stream NewUploadRequest) d' /\
    ul_at d' r (mkUlReq c [h] [] (Some (DepthCommits n)) [])) as (d' & Hr & Hs & He & Hd).
  { set (rest := eolFrames [kw_deepenCommits ++ FormatInt n] ++ flushPkt ++ r).
    set (d2 := mkUlDec (flushPkt ++ r) (FormatInt n) 2 None (mkUlReq c [h] [] (Some (DepthCommits n)) [])).
    destruct (runs_flush pool pool_size d2 r _ ltac:(done)) as (d' & Hr & Hat). exists d'. split; [|exact Hat].
    eapply (runs_step _ _ _ ulCaps (mkUlDec rest (kw_sp ++ caps) 1 None (ul_addWant NewUploadRequest h))).
    { cbn [ul_state]. unfold ul_decodeFirstWant, ul_nextLine, stream. cbn [ud_r newUlReqDecoder]. rewrite eolFrames_cons, <- app_assoc, readPkt_frame by done.
      cbn [res_bind negb]. unfold kw_eol. rewrite TrimSuffix_snoc. cbn [ud_line ud_set_line]. unfold keyLine. rewrite <- app_assoc, HasPrefix_self. cbn [negb].
      rewrite TrimPrefix_self, (ul_readHash_ok _ h (kw_sp ++ caps)) by done. done. }
    eapply (runs_step _ _ _ ulOtherWants (mkUlDec rest caps 1 (Some (ErrUnexpectedData (bs "invalid capabilities: %s"))) (ul_setCaps (ul_addWant NewUploadRequest h) c))).
    { cbn [ul_state]. unfold ul_decodeCaps. cbn [ud_line ud_set_line]. rewrite TrimPrefix_self. cbn [ud_data ud_set_line ul_addWant ur_Capabilities NewUploadRequest ud_set_line].
      by rewrite Hc. }
    set (d3 := mkUlDec (flushPkt ++ r) (kw_deepenCommits ++ FormatInt n) 2 (Some (ErrUnexpectedData (bs "invalid capabilities: %s"))) (ul_setCaps (ul_addWant NewUploadRequest h) c)).
    eapply (runs_step _ _ _ ulDeepen d3).
    { cbn [ul_state]. unfold ul_decodeOtherWants, ul_nextLine, rest. cbn [ud_r]. rewrite eolFrames_cons, <- app_assoc, readPkt_frame by done.
      cbn [res_bind negb]. unfold kw_eol. rewrite TrimSuffix_snoc. done. }
    eapply (runs_step _ _ _ ulDeepenCommits d3).
    { cbn [ul_state]. unfold ul_decodeDeepen. cbn [ud_line d3]. by rewrite HasPrefix_self. }
    eapply (runs_step _ _ _ ulFlush d2); [|exact Hr].
    cbn [ul_state]. unfold ul_decodeDeepenCommits. cbn [ud_line ud_set_line d3]. rewrite TrimPrefix_self, ParseInt_FormatInt by lia.
    cbv zeta. destruct (Z.ltb_spec n 0); [lia|]. done. }
  unfold ul_run in *. rewrite (runs_result _ _ _ _ _ Hr) by (by rewrite E1). cbn [res_bind]. by rewrite Hs, He, Hd.
Qed.
End UploadTheorem.

(** ** Concrete requests *)

Definition demoRequest : UploadRequest :=
  mkUlReq demoCaps [demoHash x33; demoHash x11; demoHash x33] [demoHash x22; ZeroHash] (Some (DepthSince 1700000000)) [].

Lemma demoRequest_ok : ulreq_ok demoRequest.
Proof.
  constructor; [exact demoCaps_ok|by_decision|by_decision| |reflexivity].
  exists (DepthSince 1700000000). split; [reflexivity|]. unfold depth_ok. lia.
Qed.

Definition demoRequestText : bytes := match UploadRequest_Encode demoRequest [] with Ok (e, _) => e | _ => [] end.
Definition demoRequestSorted : UploadRequest := match UploadRequest_Encode demoRequest [] with Ok (_, v) => v | _ => demoRequest end.

Lemma ulreq_roundtrip_witness :
  exists ws ss, UploadRequest_Decode zeroPool NewUploadRequest (demoRequestText ++ bs "0032have") =
      Ok (None, mkUlReq (ur_Capabilities demoRequest) ws ss (ur_Depth demoRequest) [], bs "0032have") /\
    NoDup ws /\ (forall h, h ∈ ws <-> h ∈ Wants demoRequest) /\ NoDup ss /\ (forall h, h ∈ ss <-> h ∈ ur_Shallows demoRequest /\ h <> ZeroHash).
Proof.
  apply (ulreq_roundtrip zeroPool zeroPool_size zeroPool_clean demoRequest demoRequestText demoRequestSorted (bs "0032have") demoRequest_ok).
  vm_compute. reflexivity.
Defined.

Lemma ulreq_decode_total_witness : exists o, UploadRequest_Decode zeroPool NewUploadRequest (bs "0010want deepen 1") = Ok o.
Proof. apply (ulreq_decode_total zeroPool zeroPool_size zeroPool_clean). Defined.

Lemma ulreq_forgets_invalid_caps_witness :
  exists c, UploadRequest_Decode zeroPool NewUploadRequest
    (eolFrames [keyLine kw_want (demoHash x11) ++ kw_sp ++ bs "multi_ack=yes"; kw_deepenCommits ++ FormatInt 1] ++ flushPkt ++ []) =
  Ok (None, mkUlReq c [demoHash x11] [] (Some (DepthCommits 1)) [], []).
Proof.
  exists NewList.
  apply (ulreq_forgets_invalid_caps zeroPool zeroPool_size zeroPool_clean (demoHash x11) (bs "multi_ack=yes") 1 [] ErrArguments NewList).
  - by_decision.
  - lia.
  - vm_compute. reflexivity.
  - unfold eol_ok. by_decision.
  - unfold eol_ok. by_decision.
Defined.

(** A request with a filter is not decoded: the decoder knows no filter line. *)
Example ulreq_filter_refused :
  let v := mkUlReq NewList [demoHash x11] [] (Some (DepthCommits 0)) FilterBlobNone in
  exists e v', UploadRequest_Encode v [] = Ok (e, v') /\
    exists w r, UploadRequest_Decode zeroPool NewUploadRequest e = Ok (Some (ErrUnexpectedData (bs "unexpected payload while expecting a want: %q")), w, r).
Proof. do 2 eexists. split; [vm_compute; reflexivity|]. do 2 eexists. vm_compute. reflexivity. Qed.
