(* ===== verification/PackpProofs.v ===== *)
(** * Update requests, haves and the replies: decoding inverts encoding *)
From S2P Require Import Prelude GoStrings Strconv ObjectID Reference Storer Memory PktLine Capability Packp AdvRefsProofs PackpMessages PackpDecoders UlreqProofs.

(** ** Commands *)

Lemma space_ends r : ends_word (x20 :: r).
Proof. reflexivity. Qed.

Lemma scanToken_word a r : nospace a -> a <> [] -> scanToken (a ++ x20 :: r) = Some (a, x20 :: r).
Proof.
  intros H Hn. unfold scanToken. rewrite skipSpace_word by done. destruct (a ++ x20 :: r) eqn:E; [by destruct a|]. rewrite <- E.
  by rewrite token_word by (done || apply space_ends).
Qed.

Lemma scanToken_last a : nospace a -> a <> [] -> scanToken a = Some (a, []).
Proof.
  intros H Hn. unfold scanToken. pose proof (skipSpace_word a [] H Hn) as Hs. pose proof (token_word a [] H I) as Ht. rewrite app_nil_r in Hs, Ht. rewrite Hs.
  destruct a as [|x a]; [done|]. by rewrite Ht.
Qed.

Lemma scanSpace_word a r : nospace a -> a <> [] -> scanSpace (x20 :: a ++ r) = Some (a ++ r).
Proof.
  intros H Hn. destruct (nospace_head a r H Hn) as (x & n & E & Hx). unfold scanSpace. cbn [DecodeRune]. change (b2z x20) with 32. cbn [Z.ltb Z.compare Pos.compare Pos.compare_cont].
  change (negb (fmt_isSpace 32) || (32 =? 10)) with false. cbv iota. cbn [length skipBlanks_loop DecodeRune]. change (b2z x20) with 32.
  cbn [Z.ltb Z.compare Pos.compare Pos.compare_cont]. change (fmt_isSpace 32 && negb (32 =? 10)) with true. cbv iota. cbn [drop].
  destruct (length (a ++ r)); cbn [skipBlanks_loop]; [done|]. by rewrite drop_0, E, Hx.
Qed.

Lemma hex_nospace h : sha1_id h -> nospace (ObjectID_String h) /\ ObjectID_String h <> [].
Proof.
  intros Hh. destruct (sha1_String h Hh) as (Hl & _ & Hx). split; [|intros E; rewrite E in Hl; done]. apply nospace_ascii.
  eapply Forall_impl; [exact Hx|]. intros b Hb. cbn in Hb. unfold hexByte in Hb. unfold isSpace. cbv zeta in *. lia.
Qed.

Definition command_ok (c : Command) : Prop :=
  sha1_id (cmdOld c) /\ sha1_id (cmdNew c) /\ nospace (cmdName c) /\ cmdName c <> [] /\ Command_validate c = None.

Lemma parseHash_String h : sha1_id h -> parseHash (ObjectID_String h) = Ok h.
Proof.
  intros Hh. destruct (sha1_String h Hh) as (Hl & Hx & _). unfold parseHash. rewrite Hl. change (40 =? hashSize) with true. cbn [negb].
  by rewrite Hx.
Qed.

Lemma formatCommand_len c : command_ok c -> 83 <= len (formatCommand c).
Proof.
  intros (H1 & H2 & _ & Hn & _). destruct (sha1_String _ H1) as (L1 & _). destruct (sha1_String _ H2) as (L2 & _).
  unfold formatCommand. rewrite !len_app, L1, L2. change (len kw_sp) with 1.
  destruct (cmdName c); [done|]. rewrite len_cons. pose proof (len_nonneg l). lia.
Qed.

Lemma parseCommand_format c : command_ok c -> parseCommand (formatCommand c) = Ok c.
Proof.
  intros Hc. pose proof (formatCommand_len c Hc) as HL. destruct Hc as (H1 & H2 & Hs & Hn & _). unfold parseCommand.
  change minCommandLength with 83. destruct (Z.ltb_spec (len (formatCommand c)) 83); [lia|].
  destruct (hex_nospace _ H1) as [S1 N1]. destruct (hex_nospace _ H2) as [S2 N2].
  assert (Sscanf3 (formatCommand c) = Some (ObjectID_String (cmdOld c), ObjectID_String (cmdNew c), cmdName c)) as ->.
  { unfold Sscanf3, formatCommand, kw_sp. cbn [app]. rewrite scanToken_word by done. rewrite scanSpace_word by done.
    rewrite scanToken_word by done. rewrite <- (app_nil_r (cmdName c)), scanSpace_word, app_nil_r by done. by rewrite scanToken_last. }
  rewrite !parseHash_String by done. cbn. by destruct c.
Qed.

(** ** Update requests *)
Record updreq_ok (req : UpdateRequests) : Prop := {
  po_caps : caps_ok (up_Capabilities req) /\ caps_complete (up_Capabilities req) /\ caps_printable (up_Capabilities req);
  po_cmds : Forall command_ok (Commands req);
  po_first : forall c cs, Commands req = c :: cs -> x00 ∉ cmdName c;
  po_shallow : forall h, up_Shallow req = Some h -> sha1_id h }.

Lemma validate_ok cs : Forall command_ok cs -> validateCommands cs = None.
Proof. induction 1 as [|c cs (_ & _ & _ & _ & Hc) _ IH]; cbn; [done|]. by rewrite Hc. Qed.

Lemma command_line c l : command_ok c -> 4 <= len (formatCommand c ++ l) /\ HasPrefix (formatCommand c ++ l) errPrefix = false /\
  HasPrefix (formatCommand c ++ l) kw_shallowNoSp = false.
Proof.
  intros Hc. pose proof (formatCommand_len c Hc). destruct Hc as (H1 & _). unfold formatCommand. rewrite <- !app_assoc.
  destruct (hash_line (cmdOld c) (kw_sp ++ ObjectID_String (cmdNew c) ++ kw_sp ++ cmdName c ++ l) H1) as [? ?].
  split; [done|]. split; [done|]. change kw_shallowNoSp with (x73 :: bs "hallow"). by apply hex_prefix.
Qed.

Section Update.
Context (pool : bytes -> bytes) (pool_size : forall r, len (pool r) = MaxSize).

Lemma upd_readLine_frame d p r e : line_ok p -> pd_r d = frame p ++ r ->
  upd_readLine pool d e = Ok (None, mkUpdDec r (pd_req d) p (len p + 4)).
Proof. intros Hp Hr. unfold upd_readLine. by rewrite Hr, readPkt_frame. Qed.

Lemma upd_readLine_flush d r e : pd_r d = flushPkt ++ r -> upd_readLine pool d e = Ok (None, mkUpdDec r (pd_req d) [] Flush).
Proof. intros Hr. unfold upd_readLine. by rewrite Hr, readPkt_flush. Qed.

Lemma commands_loop cs : Forall command_ok cs -> Forall (fun c => line_ok (formatCommand c)) cs ->
  forall fuel c d r, (length cs < fuel)%nat -> command_ok c -> pd_r d = frames (map formatCommand cs) ++ flushPkt ++ r ->
  upd_decodeCommands_loop pool fuel (formatCommand c) d =
  Ok (None, mkUpdDec r (mkUpdReq (up_Capabilities (pd_req d)) (Commands (pd_req d) ++ c :: cs) (up_Shallow (pd_req d))) [] Flush).
Proof.
  induction 1 as [|c2 cs Hc2 Hcs IH]; intros Hl fuel c d r Hf Hc Hr; (destruct fuel as [|fuel]; [cbn in Hf; lia|]); cbn [upd_decodeCommands_loop];
    rewrite parseCommand_format by done; cbv zeta.
  - rewrite (upd_readLine_flush _ r) by done. done.
  - apply Forall_cons in Hl as [Hl2 Hl]. rewrite (upd_readLine_frame _ (formatCommand c2) (frames (map formatCommand cs) ++ flushPkt ++ r)).
    + cbn [res_bind pd_length pd_payload]. pose proof (formatCommand_len c2 Hc2). change Flush with 0.
      destruct (Z.eqb_spec (len (formatCommand c2) + 4) 0); [lia|].
      rewrite (IH Hl fuel c2 _ r) by (done || (cbn in Hf; lia)). cbn. by rewrite <- app_assoc.
    + done.
    + cbn [pd_r]. rewrite Hr. unfold frames. cbn. by rewrite <- app_assoc.
Qed.

Lemma decodeCommands_ok c cs caps cl r d h : command_ok c -> Forall command_ok cs -> x00 ∉ cmdName c ->
  List_Decode NewList caps = (None, cl) -> Forall (fun c => line_ok (formatCommand c)) cs ->
  pd_payload d = formatCommand c ++ [x00] ++ caps -> pd_r d = frames (map formatCommand cs) ++ flushPkt ++ r -> pd_req d = mkUpdReq NewList [] h ->
  upd_decodeCommands pool d = Ok (None, mkUpdDec r (mkUpdReq cl (c :: cs) h) [] Flush).
Proof.
  intros Hc Hcs Hnul HcD Hoks Hp Hr Hq. unfold upd_decodeCommands. rewrite Hp, Hq. cbv zeta. pose proof (formatCommand_len c Hc) as HL. pose proof (len_nonneg caps).
    assert (x00 ∉ formatCommand c) as Hn0. { unfold formatCommand. rewrite !not_elem_of_app. repeat split; try (by apply hex_notin); try by_decision; done. }
    assert (len (formatCommand c ++ [x00] ++ caps) = len (formatCommand c) + 1 + len caps) as Hlen by (rewrite !len_app; change (len [x00]) with 1; lia).
    cbn [app] in Hlen |- *. rewrite IndexByte_split by done. destruct (Z.eqb_spec (len (formatCommand c)) (-1)); [lia|]. rewrite Hlen.
    change minCommandAndCapsLength with 84. destruct (Z.ltb_spec (len (formatCommand c) + 1 + len caps) 84); [lia|].
    change (formatCommand c ++ x00 :: caps) with (formatCommand c ++ [x00] ++ caps). rewrite (app_assoc (formatCommand c)).
    rewrite slice_app_r by (rewrite ?len_app; change (len [x00]) with 1; lia). cbn [res_bind up_Capabilities]. rewrite HcD. rewrite <- app_assoc, slice_app_l. cbn [res_bind].
    rewrite (commands_loop cs Hcs Hoks _ c _ r); [done| |done|done].
    cbn [pd_r]. rewrite Hr. rewrite length_app.
    pose proof (frames_length (map formatCommand cs)) as HLf. rewrite length_map in HLf. lia.
Qed.

(** C34: an update request comes back from its encoding with its commands, capabilities and shallow commit, and the
    reader stops at the packfile, when its identifiers are SHA-1, its commands are valid, its names are UTF-8 without white
    space (a name ends at white space, and bytes that are no UTF-8 are changed), the first name has no NUL, and its
    capabilities have the values they need and no spaces. *)
Theorem updreq_roundtrip req e r : updreq_ok req -> UpdateRequests_Encode req [] = Ok e ->
  UpdateRequests_Decode pool NewUpdateRequests (e ++ r) = Ok (None, req, r).
Proof.
  intros Hreq H. unfold UpdateRequests_Encode in H.
  destruct (UpdateRequests_validate req) eqn:Hval; [discriminate H|]. inv_bind H. rename v into w1.
  destruct (Commands req) as [|c cs] eqn:Ec; [discriminate H|]. cbn [updreq_encodeCommands] in H.
  destruct (po_caps _ Hreq) as (Hc1 & Hc2 & Hc3). destruct (List_roundtrip _ Hc1 Hc2 Hc3) as (caps & HcS & HcD). rewrite HcS in H. cbn [res_bind] in H.
  pose proof (po_cmds _ Hreq) as Hcmds. rewrite Ec in Hcmds. apply Forall_cons in Hcmds as [Hc Hcs]. pose proof (po_first _ Hreq c cs Ec) as Hnul.
  inv_bind H. destruct (command_line c ([x00] ++ caps) Hc) as (L1 & P1 & S1). destruct (Writef_inv _ _ _ E0 L1 P1) as [Hok1 ->].
  inv_bind H. apply (Writefs_inv (map formatCommand cs)) in E1 as [Hoks ->].
  2: { apply Forall_map. eapply Forall_impl; [exact Hcs|]. intros c2 H2. destruct (command_line c2 [] H2) as (? & ? & _). by rewrite app_nil_r in *. }
  rewrite Forall_map in Hoks. injection H as <-. set (tail := frames (map formatCommand cs) ++ flushPkt ++ r).
  pose proof (fun d h => decodeCommands_ok c cs caps (up_Capabilities req) r d h Hc Hcs Hnul HcD Hoks) as Hcmds. fold tail in Hcmds.
  assert (UpdateRequests_validate (mkUpdReq (up_Capabilities req) (c :: cs) (up_Shallow req)) = None) as Hval2 by (rewrite <- Hval; unfold UpdateRequests_validate; by rewrite Ec).
  assert (req = mkUpdReq (up_Capabilities req) (c :: cs) (up_Shallow req)) as Hreq2 by (destruct req; cbn in *; by subst).
  unfold UpdateRequests_Decode. cbn [upd_funcs]. rewrite <- !app_assoc. fold tail. unfold updreq_encodeShallow in E. destruct (up_Shallow req) as [h|] eqn:Esh.
  - pose proof (po_shallow _ Hreq h Esh) as Hh. destruct (sha1_String h Hh) as (Lh & _).
    apply Writef_inv in E as [Hoksh ->]; [|rewrite len_app, Lh; change (len kw_shallow) with 8; lia|done]. cbn [app].
    rewrite (upd_readLine_frame _ (kw_shallow ++ ObjectID_String h) (frame (formatCommand c ++ [x00] ++ caps) ++ tail)) by done. cbn [res_bind].
    unfold upd_decodeShallow. cbn [pd_payload]. change (HasPrefix (kw_shallow ++ ObjectID_String h) kw_shallowNoSp) with true. cbn [negb].
    rewrite len_app, Lh. change (len kw_shallow + 40 =? shallowLineLength) with true. cbn [negb].
    rewrite slice_app_r by (rewrite ?len_app, ?Lh; done). cbn [res_bind]. rewrite parseHash_String by done.
    rewrite (upd_readLine_frame _ (formatCommand c ++ [x00] ++ caps) tail) by done. cbn [res_bind].
    rewrite (Hcmds _ (Some h)) by done. unfold upd_decodeFlush. cbn [res_bind pd_payload pd_length pd_req pd_r].
    change (negb (len (@nil byte) =? 0) || negb (Flush =? Flush)) with false. cbv iota. cbn [res_bind pd_req pd_r]. rewrite Hval2. cbn [pd_req pd_r res_bind upd_funcs]. by rewrite <- Hreq2.
  - injection E as <-. cbn [app].
    rewrite (upd_readLine_frame _ (formatCommand c ++ [x00] ++ caps) tail) by done. cbn [res_bind].
    unfold upd_decodeShallow. cbn [pd_payload]. rewrite S1. cbn [negb res_bind].
    rewrite (Hcmds _ None) by done. unfold upd_decodeFlush. cbn [res_bind pd_payload pd_length pd_req pd_r].
    change (negb (len (@nil byte) =? 0) || negb (Flush =? Flush)) with false. cbv iota. cbn [res_bind pd_req pd_r]. rewrite Hval2. cbn [pd_req pd_r res_bind upd_funcs]. by rewrite <- Hreq2.
Qed.
End Update.

(** ** Lines of identifiers *)

Lemma snoc_cases (l : bytes) : 2 <= len l -> exists a m z, l = a :: m ++ [z].
Proof.
  intros H. destruct l as [|a l]; [rewrite len_nil in H; lia|]. destruct l as [|b l]; [rewrite len_cons, len_nil in H; lia|].
  destruct (exists_last (l := b :: l)) as (m & z & E); [done|]. exists a, m, z. by rewrite E.
Qed.

Lemma hexByte_solid b : hexByte b = true -> b2z b < 128 /\ isSpace b = false.
Proof.
  unfold hexByte, isSpace. cbv zeta. rewrite orb_true_iff, !andb_true_iff, !Z.leb_le. intros H. split; [lia|].
  destruct (Z.eqb_spec (b2z b) 32), (Z.leb_spec 9 (b2z b)), (Z.leb_spec (b2z b) 13); cbn; try done; lia.
Qed.

(** A text that ends in an identifier has nothing to trim when it begins with an ASCII letter or digit. *)
Lemma TrimSpace_hash a m h : b2z a < 128 -> isSpace a = false -> sha1_id h -> TrimSpace ((a :: m ++ ObjectID_String h) ++ kw_eol) = a :: m ++ ObjectID_String h.
Proof.
  intros Ha1 Ha2 Hh. unfold kw_eol. rewrite TrimSpace_newline. destruct (sha1_String h Hh) as (Hl & _ & Hx).
  destruct (snoc_cases (ObjectID_String h)) as (b & k & z & E); [lia|]. rewrite E in *.
  apply Forall_cons in Hx as [_ Hx]. apply Forall_app in Hx as [_ Hz]. apply Forall_singleton, hexByte_solid in Hz as [Hz1 Hz2].
  replace (m ++ b :: k ++ [z]) with ((m ++ b :: k) ++ [z]) by (by rewrite <- app_assoc). by apply TrimSpace_id.
Qed.

Lemma TrimSpace_String h : sha1_id h -> TrimSpace (ObjectID_String h ++ kw_eol) = ObjectID_String h.
Proof.
  intros Hh. unfold kw_eol. rewrite TrimSpace_newline. destruct (sha1_String h Hh) as (Hl & _ & Hx).
  destruct (snoc_cases (ObjectID_String h)) as (b & k & z & E); [lia|]. rewrite E in *.
  apply Forall_cons in Hx as [Hb Hx]. apply Forall_app in Hx as [_ Hz]. apply Forall_singleton, hexByte_solid in Hz as [Hz1 Hz2].
  apply hexByte_solid in Hb as [? ?]. by apply TrimSpace_id.
Qed.

Lemma eolFrames_length ls : (length ls <= length (eolFrames ls))%nat.
Proof. pose proof (frames_length (map (fun l => l ++ kw_eol) ls)) as H. by rewrite length_map in H. Qed.

(** Enough rounds for the lines and one more. *)
Lemma eolFrames_rounds {A} (f : A -> bytes) xs r : exists k, (length (eolFrames (map f xs) ++ r) + 1 = length xs + S k)%nat.
Proof.
  pose proof (eolFrames_length (map f xs)) as H. rewrite length_map in H. exists (length (eolFrames (map f xs) ++ r) - length xs)%nat.
  rewrite length_app. lia.
Qed.

Section Replies.
Context (pool : bytes -> bytes) (pool_size : forall r, len (pool r) = MaxSize).

(** ** Haves *)
Lemma haves_loop hs : Forall sha1_id hs -> Forall eol_ok (map (keyLine (bs "have ")) hs) ->
  forall k u r, UploadHaves_Decode_loop pool (length hs + k) u (eolFrames (map (keyLine (bs "have ")) hs) ++ r) =
  UploadHaves_Decode_loop pool k (mkHaves (Haves u ++ hs) (Done u)) r.
Proof.
  induction 1 as [|h hs Hh Hhs IH]; intros Hok k u r; cbn [map length Nat.add].
  - rewrite app_nil_r. by destruct u.
  - apply Forall_cons in Hok as [Hl Hok]. rewrite eolFrames_cons, <- app_assoc. cbn [UploadHaves_Decode_loop].
    rewrite readPkt_frame by done. cbn [res_bind]. set (line := keyLine (bs "have ") h ++ kw_eol).
    pose proof (len_nonneg line). change Flush with 0. destruct (Z.eqb_spec (len line + 4) 0); [lia|].
    assert (line = bs "have " ++ ObjectID_String h ++ kw_eol) as El by (unfold line, keyLine; by rewrite <- app_assoc). rewrite El.
    change (HasPrefix (bs "have " ++ _) (bs "done")) with false. rewrite HasPrefix_self. cbn [negb].
    rewrite slice_app_r by done. cbn [res_bind]. rewrite TrimSpace_String, sha1_NewHash by done.
    rewrite (IH Hok). cbn. by rewrite <- app_assoc.
Qed.

(** The haves come back from their encoding, each once and the zero identifier apart, with the end of the
    negotiation marked. *)
Theorem haves_roundtrip u e u' r old : Forall sha1_id (Haves u) -> UploadHaves_Encode u [] = Ok (e, u') ->
  exists hs, UploadHaves_Decode pool (mkHaves old false) (e ++ r) = Ok (None, mkHaves hs (Done u), r) /\
    NoDup hs /\ (forall h, h ∈ hs <-> h ∈ Haves u /\ h <> ZeroHash).
Proof.
  intros Hu H. unfold UploadHaves_Encode in H. cbn [Haves Done] in H. inv_bind H.
  assert (Forall sha1_id (HashesSort (Haves u))) as Hs by (unfold HashesSort; by rewrite insertionSort_perm).
  destruct (encodeNew_inv (bs "have ") _ ltac:(done) ltac:(done) Hs _ _ _ E) as [Hok ->]. cbn [app] in H.
  destruct (newHashes_spec _ ZeroHash ltac:(split; [split; [done|right; done]|done]) Hs (leHash_zero _ Hs (HashesSort_sorted _))) as [Hn Hin].
  set (hs := newHashes ZeroHash (HashesSort (Haves u))) in *. exists hs. split; [|split; [done|intros h; by rewrite Hin, HashesSort_in]].
  assert (Forall sha1_id hs) as Hhs. { apply Forall_forall. intros h Hh. apply Hin in Hh as [Hh _]. rewrite Forall_forall in Hs. auto. }
  unfold UploadHaves_Decode. cbn [Done]. destruct (Done u).
  - inv_bind H. injection H as <- _. apply Writef_inv in E0 as [Hd ->]; [|done|done]. rewrite <- app_assoc.
    destruct (eolFrames_rounds (keyLine (bs "have ")) hs (frame (bs "done" ++ kw_eol) ++ r)) as [k ->].
    rewrite (haves_loop hs Hhs Hok). cbn [UploadHaves_Decode_loop]. rewrite readPkt_frame by done. done.
  - injection H as <- _. rewrite <- app_assoc. change WriteFlush with flushPkt. destruct (eolFrames_rounds (keyLine (bs "have ")) hs (flushPkt ++ r)) as [k ->].
    rewrite (haves_loop hs Hhs Hok). cbn [UploadHaves_Decode_loop]. change WriteFlush with flushPkt. rewrite readPkt_flush by done. done.
Qed.

(** ** Push options *)
Theorem pushopts_roundtrip opts e r : opts <> [] -> Forall line_ok opts -> PushOptions_Encode opts [] = Ok e ->
  PushOptions_Decode pool (length (e ++ r) + 1) [] (e ++ r) = Ok (None, opts, r).
Proof.
  intros Hne Hok H. unfold PushOptions_Encode in H. destruct (len opts =? 0) eqn:E0; [destruct opts; [done|cbn in E0; discriminate E0]|].
  rewrite Writefs_ok in H by done. cbn [res_bind app] in H. injection H as <-. rewrite <- app_assoc.
  assert (forall ps acc fuel, Forall line_ok ps -> (length ps < fuel)%nat ->
    PushOptions_Decode pool fuel acc (frames ps ++ flushPkt ++ r) = Ok (None, acc ++ ps, r)) as Hloop.
  { induction ps as [|p ps IH]; intros acc fuel Hps Hf; (destruct fuel as [|fuel]; [cbn in Hf; lia|]); cbn [PushOptions_Decode].
    - change (frames [] ++ flushPkt ++ r) with (flushPkt ++ r). rewrite readPkt_flush by done. by rewrite app_nil_r.
    - apply Forall_cons in Hps as [Hp Hps]. rewrite frames_cons, <- app_assoc, readPkt_frame by done. cbn [res_bind].
      pose proof (len_nonneg p). change Flush with 0. destruct (Z.eqb_spec (len p + 4) 0); [lia|].
      rewrite IH by (done || cbn in Hf; lia). by rewrite <- app_assoc. }
  apply Hloop; [done|]. rewrite length_app. pose proof (frames_length opts). lia.
Qed.

(** ** Shallow update *)
Lemma TrimSpace_shallow h : sha1_id h -> TrimSpace (keyLine kw_shallow h ++ kw_eol) = kw_shallow ++ ObjectID_String h.
Proof. exact (TrimSpace_hash x73 (bs "hallow ") h ltac:(done) ltac:(done)). Qed.
Lemma TrimSpace_unshallow h : sha1_id h -> TrimSpace (keyLine kw_unshallow h ++ kw_eol) = kw_unshallow ++ ObjectID_String h.
Proof. exact (TrimSpace_hash x75 (bs "nshallow ") h ltac:(done) ltac:(done)). Qed.

Lemma shupd_line key h n : sha1_id h -> n = len key + 40 -> shupd_decodeLine (key ++ ObjectID_String h) n = Ok h.
Proof.
  intros Hh ->. destruct (sha1_String h Hh) as (Hl & _). unfold shupd_decodeLine. rewrite len_app, Hl, Z.eqb_refl. cbn [negb].
  replace (len key + 40 - 40) with (len key) by lia. rewrite slice_app_r by (done || by rewrite len_app, Hl). cbn. by rewrite sha1_NewHash.
Qed.

Lemma shupd_loop ss us r : Forall sha1_id ss -> Forall sha1_id us ->
  Forall eol_ok (map (keyLine kw_shallow) ss) -> Forall eol_ok (map (keyLine kw_unshallow) us) ->
  forall fuel u, (length ss + length us < fuel)%nat ->
  ShallowUpdate_Decode pool fuel u (eolFrames (map (keyLine kw_shallow) ss) ++ eolFrames (map (keyLine kw_unshallow) us) ++ flushPkt ++ r) =
  Ok (None, mkShUpd (su_Shallows u ++ ss) (su_Unshallows u ++ us), r).
Proof.
  intros Hss Hus. induction Hss as [|h ss Hh Hss IH]; cbn [map].
  - intros _. change (eolFrames []) with (@nil byte). cbn [app length].
    induction Hus as [|h us Hh Hus IH]; intros Hok fuel u Hf; (destruct fuel as [|fuel]; [cbn in Hf; lia|]); cbn [ShallowUpdate_Decode map].
    + change (eolFrames [] ++ flushPkt ++ r) with (flushPkt ++ r). rewrite readPkt_flush by done. cbn. rewrite !app_nil_r. by destruct u.
    + cbn [map] in Hok. apply Forall_cons in Hok as [Hl Hok]. rewrite eolFrames_cons, <- app_assoc, readPkt_frame by done. cbn [res_bind]. cbv zeta.
      rewrite TrimSpace_unshallow by done.
      change (HasPrefix (kw_unshallow ++ ObjectID_String h) kw_shallow) with false. rewrite HasPrefix_self. cbv iota.
      rewrite shupd_line by done. rewrite IH by (done || cbn in Hf; lia). cbn. by rewrite <- app_assoc.
  - intros Hok Hok2 fuel u Hf. destruct fuel as [|fuel]; [cbn in Hf; lia|]. apply Forall_cons in Hok as [Hl Hok]. cbn [ShallowUpdate_Decode].
    rewrite eolFrames_cons, <- app_assoc, readPkt_frame by done. cbn [res_bind]. cbv zeta.
    rewrite TrimSpace_shallow by done. rewrite HasPrefix_self. cbv iota.
    rewrite shupd_line by done. rewrite IH by (done || cbn in Hf; lia). cbn. by rewrite <- app_assoc.
Qed.

Theorem shallow_update_roundtrip u e r : Forall sha1_id (su_Shallows u) -> Forall sha1_id (su_Unshallows u) ->
  ShallowUpdate_Encode u [] = Ok e -> ShallowUpdate_Decode pool (length (e ++ r) + 1) (mkShUpd [] []) (e ++ r) = Ok (None, u, r).
Proof.
  intros Hs Hu H. unfold ShallowUpdate_Encode in H.
  assert (forall key hs w w', HasPrefix key errPrefix = false -> 4 <= len key -> Forall sha1_id hs ->
    Writefs w (map (fun h => key ++ ObjectID_String h ++ kw_eol) hs) = Ok w' ->
    Forall eol_ok (map (keyLine key) hs) /\ w' = w ++ eolFrames (map (keyLine key) hs)) as Hinv.
  { intros key hs w w' Hk Hl Hhs Hw. assert (map (fun h => key ++ ObjectID_String h ++ kw_eol) hs = map (fun l => l ++ kw_eol) (map (keyLine key) hs)) as Em.
    { rewrite map_map. apply map_ext. intros h. unfold keyLine. by rewrite <- app_assoc. }
    rewrite Em in Hw. apply Writefs_inv in Hw as [H1 ->]; [rewrite Forall_map in H1; done|].
    apply Forall_map, Forall_map. eapply Forall_impl; [exact Hhs|]. intros h Hh. by apply keyLine_ok. }
  inv_bind H. destruct (Hinv kw_shallow _ _ _ ltac:(done) ltac:(done) Hs E) as [Ok1 ->].
  inv_bind H. destruct (Hinv kw_unshallow _ _ _ ltac:(done) ltac:(done) Hu E0) as [Ok2 ->]. injection H as <-. cbn [app].
  rewrite <- !app_assoc. change WriteFlush with flushPkt. rewrite shupd_loop; [by destruct u|done..|].
  pose proof (eolFrames_length (map (keyLine kw_shallow) (su_Shallows u))) as L1. pose proof (eolFrames_length (map (keyLine kw_unshallow) (su_Unshallows u))) as L2.
  rewrite length_map in L1, L2. rewrite !length_app. lia.
Qed.

(** ** Report status *)
Definition status_ok (cs : CommandStatus) : Prop := x20 ∉ csReferenceName cs.

Lemma decode_status cs : status_ok cs -> decodeCommandStatus (CommandStatus_line cs) = Ok cs.
Proof.
  intros Hn. unfold status_ok in Hn. unfold CommandStatus_line, CommandStatus_Error, decodeCommandStatus. destruct (decide (csStatus cs = kw_ok)) as [E|E].
  - rewrite bool_decide_eq_true_2 by done. rewrite (app_assoc (bs "ok ")). unfold kw_eol. rewrite TrimSuffix_snoc.
    change (bs "ok " ++ csReferenceName cs) with (bs "ok" ++ x20 :: csReferenceName cs). rewrite SplitN2_app by by_decision.
    rewrite SplitN2_none by done. change (bool_decide (bs "ok" = bs "ok")) with true. cbv iota. rewrite <- E. by destruct cs.
  - rewrite bool_decide_eq_false_2 by done. rewrite (app_assoc kw_sp), (app_assoc (csReferenceName cs)), (app_assoc (bs "ng ")). unfold kw_eol. rewrite TrimSuffix_snoc.
    change (bs "ng " ++ csReferenceName cs ++ kw_sp ++ csStatus cs) with (bs "ng" ++ x20 :: csReferenceName cs ++ x20 :: csStatus cs).
    rewrite SplitN2_app by by_decision. rewrite SplitN2_app by done. change (bool_decide (bs "ng" = bs "ng")) with true. by destruct cs.
Qed.

Lemma status_line_ok cs : 4 <= len (CommandStatus_line cs) /\ HasPrefix (CommandStatus_line cs) errPrefix = false.
Proof.
  unfold CommandStatus_line. destruct (CommandStatus_Error cs); (split; [|done]); rewrite !len_app; change (len kw_eol) with 1;
    pose proof (len_nonneg (csReferenceName cs)); pose proof (len_nonneg (csStatus cs)); change (len (bs "ok ")) with 3; change (len (bs "ng ")) with 3; change (len kw_sp) with 1; lia.
Qed.

Lemma report_loop css r : Forall status_ok css -> Forall line_ok (map CommandStatus_line css) ->
  forall fuel s, (length css < fuel)%nat ->
  ReportStatus_Decode_loop pool fuel s (frames (map CommandStatus_line css) ++ flushPkt ++ r) = Ok (None, mkReport (UnpackStatus s) (CommandStatuses s ++ css), r).
Proof.
  induction 1 as [|cs css Hc Hcs IH]; intros Hok fuel s Hf; (destruct fuel as [|fuel]; [cbn in Hf; lia|]); cbn [ReportStatus_Decode_loop map].
  - change (frames [] ++ flushPkt ++ r) with (flushPkt ++ r). rewrite readPkt_flush by done. cbn. rewrite app_nil_r. by destruct s.
  - cbn [map] in Hok. apply Forall_cons in Hok as [Hl Hok]. rewrite frames_cons, <- app_assoc, readPkt_frame by done. cbn [res_bind].
    pose proof (len_nonneg (CommandStatus_line cs)). change Flush with 0. destruct (Z.eqb_spec (len (CommandStatus_line cs) + 4) 0); [lia|].
    rewrite decode_status by done. rewrite IH by (done || cbn in Hf; lia). cbn. by rewrite <- app_assoc.
Qed.

(** A report of a push comes back from its encoding: the status of the unpacking, whatever its text, and the
    status of each reference, in order. *)
Theorem report_status_roundtrip s e r : Forall status_ok (CommandStatuses s) -> ReportStatus_Encode s [] = Ok e ->
  ReportStatus_Decode pool NewReportStatus (e ++ r) = Ok (None, s, r).
Proof.
  intros Hs H. unfold ReportStatus_Encode in H. inv_bind H. apply Writef_inv in E as [Hok ->]; [| |done].
  2: { rewrite !len_app. change (len (bs "unpack ")) with 7. pose proof (len_nonneg (UnpackStatus s)). pose proof (len_nonneg kw_eol). lia. }
  inv_bind H. apply Writefs_inv in E as [Hoks ->]. 2: { apply Forall_map, Forall_forall. intros cs _. apply status_line_ok. }
  apply Ok_inj in H as <-. rewrite app_nil_l, <- !app_assoc. unfold ReportStatus_Decode. rewrite readPkt_frame by done. cbn [res_bind].
  unfold decodeReportStatus, isFlush. destruct (Z.eqb_spec (len (bs "unpack " ++ UnpackStatus s ++ kw_eol)) 0) as [Z|_].
  { rewrite len_app in Z. change (len (bs "unpack ")) with 7 in Z. pose proof (len_nonneg (UnpackStatus s ++ kw_eol)). lia. }
  rewrite (app_assoc (bs "unpack ")). unfold kw_eol. rewrite TrimSuffix_snoc. change (bs "unpack " ++ UnpackStatus s) with (bs "unpack" ++ x20 :: UnpackStatus s).
  rewrite SplitN2_app by by_decision. change (bool_decide (bs "unpack" = bs "unpack")) with true. cbv iota. change WriteFlush with flushPkt.
  rewrite report_loop; [by destruct s|done..|]. rewrite length_app.
  pose proof (frames_length (map CommandStatus_line (CommandStatuses s))) as HL. rewrite length_map in HL. lia.
Qed.

(** ** Smart reply *)
Theorem smart_reply_roundtrip service e r old : TrimSpace service = service -> SmartReply_Encode service [] = Ok e ->
  SmartReply_Decode pool old (e ++ r) = Ok (None, service, r).
Proof.
  intros Ht H. unfold SmartReply_Encode in H. inv_bind H. apply Ok_inj in H as <-. apply Writef_inv in E as [Hok ->]; [| |done].
  2: { rewrite !len_app. change (len (bs "# service=")) with 10. pose proof (len_nonneg service). pose proof (len_nonneg kw_eol). lia. }
  rewrite app_nil_l, <- app_assoc. unfold SmartReply_Decode. rewrite readPkt_frame by done. cbn [res_bind].
  set (t := service ++ kw_eol). change (HasPrefix (bs "# service=" ++ t) (bs "# service=")) with true.
  destruct (Z.eqb_spec (len (bs "# service=" ++ t)) 0) as [Z|_]; [rewrite len_app in Z; change (len (bs "# service=")) with 10 in Z; pose proof (len_nonneg t); lia|].
  cbn [orb negb]. rewrite slice_app_r by done. cbn [res_bind]. unfold t, kw_eol. rewrite TrimSpace_newline, Ht.
  change WriteFlush with flushPkt. rewrite readPkt_flush by done. done.
Qed.
End Replies.

(** ** Request of the git transport *)
Record gitproto_ok (g : GitProtoRequest) : Prop := {
  go_cmd : RequestCommand g <> [] /\ x20 ∉ RequestCommand g;
  go_path : Pathname g <> [] /\ x00 ∉ Pathname g;
  go_host : x00 ∉ Host g;
  go_extra : Forall (fun p => p <> [] /\ x00 ∉ p) (ExtraParams g);
  go_line : HasPrefix (gitproto_line g) errPrefix = false }.

Lemma Split_terminated ps : Forall (fun p => x00 ∉ p) ps -> Split (flat_map (fun p => p ++ [x00]) ps) x00 = ps ++ [[]].
Proof. induction 1 as [|p ps Hp Hps IH]; cbn; [done|]. rewrite <- app_assoc. cbn [app]. rewrite Split_cons by done. by rewrite IH. Qed.

(** The parameters after the path, as [strings.Split] gives them. *)
Definition gitproto_params (g : GitProtoRequest) : list bytes :=
  (if bool_decide (Host g = []) then [] else [bs "host=" ++ Host g]) ++
  (if 0 <? len (ExtraParams g) then [[]] ++ ExtraParams g else []) ++ [[]].

Lemma gitproto_split g : gitproto_ok g ->
  gitproto_line g = RequestCommand g ++ x20 :: Join (Pathname g :: gitproto_params g) [x00].
Proof.
  intros Hg. unfold gitproto_line, kw_sp. cbn [app]. do 2 f_equal.
  assert (forall ps, Join (ps ++ [[]]) [x00] = flat_map (fun p => p ++ [x00]) ps) as HJ2.
  { intros ps. induction ps as [|p ps IH]; [done|]. cbn [app flat_map]. rewrite Join_cons by (by destruct ps). rewrite IH, <- app_assoc. done. }
  unfold gitproto_params. set (A := if bool_decide _ then [] else [_]). set (B := if 0 <? _ then [[]] ++ _ else []).
  replace (Pathname g :: A ++ B ++ [[]]) with ((Pathname g :: A ++ B) ++ [[]]) by (cbn; by rewrite app_assoc).
  rewrite HJ2. cbn [flat_map]. rewrite <- app_assoc. f_equal. cbn [app]. f_equal. unfold A, B. rewrite flat_map_app. f_equal; [by destruct (bool_decide _); cbn; rewrite ?app_nil_r, <- ?app_assoc|]. by destruct (0 <? _).
Qed.

Lemma filter_params xs : Forall (fun p => p <> [] /\ x00 ∉ p) xs -> List.filter (fun p => negb (bool_decide (p = []))) (xs ++ [[]]) = xs.
Proof. induction 1 as [|x xs [Hx _] Hxs IH]; [done|]. cbn. rewrite bool_decide_eq_false_2 by done. cbn. by rewrite IH. Qed.

Section Transport.
Context (pool : bytes -> bytes) (pool_size : forall r, len (pool r) = MaxSize).

(** A request of the git transport comes back from its encoding: command, path, host and extra parameters. *)
Theorem gitproto_roundtrip g e r : gitproto_ok g -> GitProtoRequest_Encode g [] = Ok e ->
  GitProtoRequest_Decode pool (mkGitProto [] [] [] []) (e ++ r) = Ok (None, g, r).
Proof.
  intros Hg H. unfold GitProtoRequest_Encode in H. destruct (GitProtoRequest_validate g); [discriminate H|].
  destruct (go_cmd _ Hg) as [Hc0 Hc]. destruct (go_path _ Hg) as [Hp0 Hp].
  assert (last (gitproto_line g) = Some x00 /\ 4 <= len (gitproto_line g)) as [Hlast Hlen].
  { destruct (RequestCommand g) as [|a c] eqn:Ec; [done|]. destruct (Pathname g) as [|b p] eqn:Ep; [done|]. unfold gitproto_line. rewrite Ec, Ep. split.
    - rewrite !last_app. destruct (0 <? len (ExtraParams g)) eqn:E0; [|by destruct (bool_decide _); rewrite ?last_app].
      destruct (exists_last (l := ExtraParams g)) as (ps & q & ->); [intros Ex; rewrite Ex in E0; discriminate E0|]. rewrite flat_map_app. cbn [flat_map]. by rewrite !last_app.
    - rewrite !len_app, !len_cons. change (len kw_sp) with 1. change (len [x00]) with 1.
      repeat match goal with |- context [len ?l] => lazymatch goal with H : 0 <= len l |- _ => fail | _ => pose proof (len_nonneg l) end end. lia. }
  apply Writef_inv in H as [Hok ->]; [|done|apply (go_line _ Hg)]. rewrite app_nil_l. unfold GitProtoRequest_Decode. rewrite readPkt_frame by done. cbn [res_bind].
  destruct (Z.eqb_spec (len (gitproto_line g)) 0); [lia|]. rewrite Hlast, bool_decide_eq_true_2 by done. cbn [negb].
  rewrite gitproto_split, SplitN2_app by done. rewrite Split_Join; [|done|].
  - unfold gitproto_params. destruct (decide (Host g = [])) as [Eh|Eh];
      [rewrite bool_decide_eq_true_2 by done|rewrite bool_decide_eq_false_2 by done]; destruct g as [c p h xs]; cbn [Host ExtraParams RequestCommand Pathname app] in *.
    + subst h. destruct xs as [|x xs]; [done|]. destruct (Z.ltb_spec 0 (len (x :: xs))) as [_|Hz]; [|rewrite len_cons in Hz; pose proof (len_nonneg xs); lia].
      cbn [app drop]. do 4 f_equal. change (TrimPrefix [] (bs "host=")) with (@nil byte). f_equal. apply (filter_params (x :: xs)). apply (go_extra _ Hg).
    + destruct xs as [|x xs].
      * cbn. unfold TrimPrefix. change (HasPrefix _ _) with true. done.
      * destruct (Z.ltb_spec 0 (len (x :: xs))) as [_|Hz]; [|rewrite len_cons in Hz; pose proof (len_nonneg xs); lia].
        cbn [app drop]. rewrite TrimPrefix_self. do 3 f_equal. cbn [List.filter]. change (negb (bool_decide (@nil byte = []))) with false. cbv iota. f_equal.
        apply (filter_params (x :: xs)). apply (go_extra _ Hg).
  - constructor; [done|]. unfold gitproto_params. apply Forall_app. split; [|apply Forall_app; split].
    + destruct (bool_decide _); [constructor|]. apply Forall_singleton. apply not_elem_of_app. split; [by_decision|apply (go_host _ Hg)].
    + destruct (0 <? _); [|constructor]. constructor; [apply not_elem_of_nil|]. eapply Forall_impl; [apply (go_extra _ Hg)|]. by intros p [_ ?].
    + apply Forall_singleton, not_elem_of_nil.
Qed.
End Transport.

(** ** Server response *)
Definition detailed (a : ACK) : Prop := ackStatus a <> ACKNone.

Definition ackLine (a : ACK) : bytes :=
  kw_ack ++ kw_sp ++ ObjectID_String (ackHash a) ++ kw_sp ++ ACKStatus_String (ackStatus a) ++ kw_eol.
Definition finalAck (h : ObjectID) : bytes := kw_ack ++ kw_sp ++ ObjectID_String h ++ kw_eol.

Lemma srv_ack acks l : HasPrefix l kw_ack = true -> 3 <= len l -> srv_decodeLine acks l = decodeACKLine acks l.
Proof.
  intros [x ->]%HasPrefix_true Hl. unfold srv_decodeLine. destruct (Z.eqb_spec (len (kw_ack ++ x)) 0); [lia|].
  destruct (Z.leb_spec 3 (len (kw_ack ++ x))); [|lia]. done.
Qed.

Lemma srv_detailed acks a : sha1_id (ackHash a) -> detailed a -> srv_decodeLine acks (ackLine a) = (None, acks ++ [a]).
Proof.
  intros Hh Hd. destruct (sha1_String _ Hh) as (Hl & _ & Hx). unfold ackLine.
  assert (44 <= len (kw_ack ++ kw_sp ++ ObjectID_String (ackHash a) ++ kw_sp ++ ACKStatus_String (ackStatus a) ++ kw_eol)) as HL.
  { rewrite !len_app, Hl. change (len kw_ack) with 3. change (len kw_sp) with 1. change (len kw_eol) with 1. pose proof (len_nonneg (ACKStatus_String (ackStatus a))). lia. }
  rewrite srv_ack by (lia || done). unfold decodeACKLine. set (line := kw_ack ++ _) in HL |- *. change ackLineLen with 44.
  assert (Split line x20 = [kw_ack; ObjectID_String (ackHash a); ACKStatus_String (ackStatus a) ++ kw_eol]) as ->.
  { unfold line, kw_sp. cbn [app]. change (kw_ack ++ x20 :: ?t) with (kw_ack ++ x20 :: t). rewrite Split_cons by by_decision. rewrite Split_cons by by apply hex_notin.
    rewrite Split_single; [done|]. destruct (ackStatus a); by_decision. }
  destruct (Z.ltb_spec (len line) 44); [lia|]. cbv zeta.
  assert (TrimSuffix (ObjectID_String (ackHash a)) [x0a] = ObjectID_String (ackHash a)) as ->.
  { unfold TrimSuffix. destruct (HasSuffix (ObjectID_String (ackHash a)) [x0a]) eqn:E; [|done]. exfalso. apply HasSuffix_true in E as [t E].
    apply (hex_notin (ackHash a) x0a); [done|]. rewrite E. set_solver. }
  rewrite sha1_NewHash by done. destruct a as [h []]; [by destruct Hd|done..].
Qed.

Lemma srv_final acks h : sha1_id h -> srv_decodeLine acks (finalAck h) = (Some EOF, acks ++ [mkACK h ACKNone]).
Proof.
  intros Hh. destruct (sha1_String _ Hh) as (Hl & _ & Hx). unfold finalAck.
  assert (44 <= len (kw_ack ++ kw_sp ++ ObjectID_String h ++ kw_eol)) as HL.
  { rewrite !len_app, Hl. change (len kw_ack) with 3. change (len kw_sp) with 1. change (len kw_eol) with 1. lia. }
  rewrite srv_ack by (lia || done). unfold decodeACKLine. set (line := kw_ack ++ _) in HL |- *. change ackLineLen with 44.
  assert (Split line x20 = [kw_ack; ObjectID_String h ++ kw_eol]) as ->.
  { unfold line, kw_sp. cbn [app]. rewrite Split_cons by by_decision. rewrite Split_single; [done|]. apply not_elem_of_app. split; [by apply hex_notin|by_decision]. }
  destruct (Z.ltb_spec (len line) 44); [lia|]. unfold kw_eol. by rewrite TrimSuffix_snoc, sha1_NewHash.
Qed.

Lemma encodeACKs_detailed first acks : Forall (fun a => sha1_id (ackHash a) /\ detailed a) acks ->
  forall m w w', encodeACKs first m acks w = Ok w' -> Forall line_ok (map ackLine acks) /\ w' = w ++ frames (map ackLine acks).
Proof.
  induction 1 as [|a acks [Ha Hd] Hs IH]; intros m w w' H; cbn in H |- *; [injection H as <-; by rewrite app_nil_r|].
  assert (exists w1, Writef w (ackLine a) = Ok w1 /\ encodeACKs first true acks w1 = Ok w') as (w1 & E & H1).
  { unfold ackLine. unfold detailed in Hd. destruct (ackStatus a); [done|..]; inv_bind H; eauto. }
  apply Writef_inv in E as [Hok ->]; [| |done].
  - destruct (IH _ _ _ H1) as [Hoks ->]. split; [by constructor|]. by rewrite <- app_assoc.
  - unfold ackLine. rewrite !len_app. change (len kw_ack) with 3. change (len kw_sp) with 1. pose proof (len_nonneg (ObjectID_String (ackHash a))).
    pose proof (len_nonneg (ACKStatus_String (ackStatus a))). pose proof (len_nonneg kw_eol). lia.
Qed.

Section Server.
Context (pool : bytes -> bytes) (pool_size : forall r, len (pool r) = MaxSize).

Lemma server_loop acks : Forall (fun a => sha1_id (ackHash a) /\ detailed a) acks -> Forall line_ok (map ackLine acks) ->
  forall fuel acc r, ServerResponse_Decode pool (length acks + fuel) acc (frames (map ackLine acks) ++ r) = ServerResponse_Decode pool fuel (acc ++ acks) r.
Proof.
  induction 1 as [|a acks [Ha Hd] Hs IH]; intros Hok fuel acc r; cbn [map length Nat.add]; [by rewrite app_nil_r|].
  apply Forall_cons in Hok as [Hl Hok]. rewrite frames_cons, <- app_assoc. cbn [ServerResponse_Decode]. rewrite readPkt_frame by done. cbn [res_bind].
  rewrite srv_detailed by done. rewrite (IH Hok). by rewrite <- app_assoc.
Qed.

(** A server response comes back from its encoding: no acknowledgement as NAK, a single plain one, and
    acknowledgements with a status up to the end of the stream. *)
Theorem server_response_roundtrip acks e r : Forall (fun a => sha1_id (ackHash a)) acks -> ServerResponse_Encode acks [] = Ok e ->
  let decode s := ServerResponse_Decode pool (length s + 1) [] s in
  (acks = [] -> decode (e ++ r) = Ok (None, [], r)) /\
  (forall h, acks = [mkACK h ACKNone] -> decode (e ++ r) = Ok (None, acks, r)) /\
  (Forall detailed acks -> acks <> [] -> decode e = Ok (None, acks, [])).
Proof.
  intros Hs H decode. unfold decode. split; [|split].
  - intros ->. cbn [ServerResponse_Encode] in H. apply Writef_inv in H as [Hok ->]; [|done|done]. rewrite app_nil_l.
    rewrite Nat.add_1_r. cbn [ServerResponse_Decode]. by rewrite readPkt_frame.
  - intros h ->. rewrite Forall_singleton in Hs. cbn [ServerResponse_Encode encodeACKs ackStatus] in H. inv_bind H. apply Ok_inj in H as <-.
    apply Writef_inv in E as [Hok ->]; [| |done].
    + rewrite app_nil_l, Nat.add_1_r. cbn [ServerResponse_Decode]. rewrite readPkt_frame by done. cbn [res_bind].
      change (kw_ack ++ kw_sp ++ ObjectID_String _ ++ kw_eol) with (finalAck h). by rewrite (srv_final [] h Hs).
    + rewrite !len_app. change (len kw_ack) with 3. change (len kw_sp) with 1. pose proof (len_nonneg (ObjectID_String (ackHash (mkACK h ACKNone)))). pose proof (len_nonneg kw_eol). lia.
  - intros Hd Hne. assert (Forall (fun a => sha1_id (ackHash a) /\ detailed a) acks) as Hall by (apply Forall_and; done).
    assert (exists first, encodeACKs first false acks [] = Ok e) as [first H1] by (destruct acks; [done|eexists; exact H]).
    destruct (encodeACKs_detailed _ _ Hall _ _ _ H1) as [Hok ->]. rewrite app_nil_l.
    pose proof (frames_length (map ackLine acks)) as HL. rewrite length_map in HL.
    replace (length (frames (map ackLine acks)) + 1)%nat with (length acks + S (length (frames (map ackLine acks)) - length acks))%nat by lia.
    rewrite <- (app_nil_r (frames (map ackLine acks))) at 2. rewrite server_loop by done. cbn [ServerResponse_Decode app].
    unfold readPkt, ReadLine, Read. rewrite pool_size. done.
Qed.
End Server.

(** A plain acknowledgement after others with a status is sent with the identifier of the first one. *)
Example server_response_final_hash :
  exists e, ServerResponse_Encode [mkACK (demoHash x11) ACKCommon; mkACK (demoHash x22) ACKNone] [] = Ok e /\
    ServerResponse_Decode zeroPool 3 [] e = Ok (None, [mkACK (demoHash x11) ACKCommon; mkACK (demoHash x11) ACKNone], []).
Proof. eexists. split; [vm_compute; reflexivity|]. vm_compute. reflexivity. Qed.

(** A peeled value in info/refs is written with its own text in place of the suffix, and read back as a
    reference of a name of its own. *)
Example inforefs_peeled_lost :
  let i := mkInfoRefs {[bs "refs/tags/v1" := demoHash x11]} {[bs "refs/tags/v1" := demoHash x22]} in
  InfoRefs_Decode (mkInfoRefs ∅ ∅) (InfoRefs_Encode i []) =
  (None, mkInfoRefs (<[bs "refs/tags/v1" ++ ObjectID_String (demoHash x22) := demoHash x22]> {[bs "refs/tags/v1" := demoHash x11]}) ∅).
Proof. vm_compute. reflexivity. Qed.

(** ** Concrete messages *)

Definition demoUpdate : UpdateRequests :=
  mkUpdReq demoCaps [mkCommand (bs "refs/heads/a") ZeroHash (demoHash x11); mkCommand (bs "refs/heads/" ++ [xc3; xa9]) (demoHash x22) ZeroHash] (Some (demoHash x33)).

Lemma demoUpdate_ok : updreq_ok demoUpdate.
Proof.
  constructor; [exact demoCaps_ok| | |].
  - apply Forall_cons_2; [|apply Forall_cons_2; [|constructor]]; (split; [by_decision|]; split; [by_decision|]; split; [|by_decision]).
    + apply nospace_ascii. by_decision.
    + exists (map b2z (bs "refs/heads/") ++ [0xe9]). split; [by vm_compute|]. unfold word_rune, scalar. by_decision.
  - intros c cs [= <- <-]. by_decision.
  - intros h [= <-]. by_decision.
Qed.

Definition demoUpdateText : bytes := match UpdateRequests_Encode demoUpdate [] with Ok e => e | _ => [] end.

Lemma updreq_roundtrip_witness :
  UpdateRequests_Decode zeroPool NewUpdateRequests (demoUpdateText ++ bs "PACK") = Ok (None, demoUpdate, bs "PACK").
Proof. apply (updreq_roundtrip zeroPool zeroPool_size demoUpdate demoUpdateText (bs "PACK") demoUpdate_ok). vm_compute. reflexivity. Defined.

Definition demoReport : ReportStatus :=
  mkReport (bs "ok") [mkCmdStatus (bs "refs/heads/a") (bs "ok"); mkCmdStatus (bs "refs/heads/b") (bs "non fast-forward")].
Definition demoReportText : bytes := match ReportStatus_Encode demoReport [] with Ok e => e | _ => [] end.

Lemma report_status_roundtrip_witness :
  ReportStatus_Decode zeroPool NewReportStatus (demoReportText ++ []) = Ok (None, demoReport, []).
Proof.
  apply (report_status_roundtrip zeroPool zeroPool_size demoReport demoReportText []); [unfold status_ok; by_decision|vm_compute; reflexivity].
Defined.

Definition demoACKs : list ACK := [mkACK (demoHash x11) ACKCommon; mkACK (demoHash x22) ACKReady].
Definition demoACKText : bytes := match ServerResponse_Encode demoACKs [] with Ok e => e | _ => [] end.

Lemma server_response_roundtrip_witness :
  ServerResponse_Decode zeroPool (length demoACKText + 1) [] demoACKText = Ok (None, demoACKs, []).
Proof.
  apply (server_response_roundtrip zeroPool zeroPool_size demoACKs demoACKText []); [by_decision|vm_compute; reflexivity| |done].
  repeat constructor; discriminate.
Defined.

Definition demoGitProto : GitProtoRequest := mkGitProto (bs "git-upload-pack") (bs "/a b.git") (bs "example.com") [bs "version=2"].

Lemma demoGitProto_ok : gitproto_ok demoGitProto.
Proof. constructor; by_decision. Qed.

Definition demoGitProtoText : bytes := match GitProtoRequest_Encode demoGitProto [] with Ok e => e | _ => [] end.

Lemma gitproto_roundtrip_witness :
  GitProtoRequest_Decode zeroPool (mkGitProto [] [] [] []) (demoGitProtoText ++ []) = Ok (None, demoGitProto, []).
Proof. apply (gitproto_roundtrip zeroPool zeroPool_size demoGitProto demoGitProtoText [] demoGitProto_ok). vm_compute. reflexivity. Defined.

Definition demoHaves : UploadHaves := mkHaves [demoHash x22; demoHash x11; demoHash x22] true.
Definition demoHavesText : bytes := match UploadHaves_Encode demoHaves [] with Ok (e, _) => e | _ => [] end.
Definition demoHavesSorted : UploadHaves := match UploadHaves_Encode demoHaves [] with Ok (_, u) => u | _ => demoHaves end.

Lemma haves_roundtrip_witness :
  exists hs, UploadHaves_Decode zeroPool (mkHaves [] false) (demoHavesText ++ []) = Ok (None, mkHaves hs (Done demoHaves), []) /\
    NoDup hs /\ (forall h, h ∈ hs <-> h ∈ Haves demoHaves /\ h <> ZeroHash).
Proof.
  apply (haves_roundtrip zeroPool zeroPool_size demoHaves demoHavesText demoHavesSorted [] []); [by_decision|vm_compute; reflexivity].
Defined.
