(* ===== verification/Idxfile.v ===== *)
(** * plumbing/format/idxfile

    Model of idxfile.go, writer.go, encoder.go and decoder.go: the index of a
    packfile in memory, its construction from the objects of a pack, its file
    format, and lookups by hash and by offset.  The fixed-size arrays are lists
    of 256 elements; the SHA-1 of the encoded bytes is a parameter. *)
From stdpp Require Import sorting.
From S2P Require Import Prelude Binary GoStrings ObjectID.

(** ** idxfile.go *)
Definition VersionSupported : Z := 2.
Definition noMapping : Z := -1.
Definition idxHeader : bytes := [xff; x74; x4f; x63].
Definition fanout : Z := 256.

Record Entry := mkEntry { eHash : ObjectID; eCRC32 : Z; eOffset : Z }.

Record MemoryIndex := mkIdx {
  iVersion : Z; Fanout : list Z; FanoutMapping : list Z;
  Names : list bytes; Offset32 : list bytes; CRC32 : list bytes; Offset64 : bytes;
  PackfileChecksum : ObjectID; IdxChecksum : ObjectID;
  offsetHash : option (gmap Z ObjectID); offsetHashIsFull : bool; objectIDSize : Z }.

Definition NewMemoryIndex (objectIDSize : Z) : MemoryIndex :=
  mkIdx 0 (replicate 256 0) (replicate 256 0) [] [] [] [] ZeroHash ZeroHash None false objectIDSize.

Definition idSize (idx : MemoryIndex) : Z := if negb (objectIDSize idx =? 0) then objectIDSize idx else SHA1Size.

(** The binary search of [findHashIndex] in the names [data]; each round halves
    the range. *)
Fixpoint findHash_loop (fuel : nat) (size : Z) (h : ObjectID) (data : bytes) (low high : Z) : res (option Z) :=
  match fuel with
  | O => NoFuel
  | S fuel =>
    let mid := Z.shiftr (u64 (low + high)) 1 in
    let offset := u64 (mid * size) in
    let* name := slice data offset (u64 (offset + size)) in
    let cmp := ObjectID_Compare h name in
    if cmp =? 0 then Ok (Some mid)
    else
      let (low, high) := if cmp <? 0 then (low, mid) else (u64 (mid + 1), high) in
      if low >=? high then Ok None else findHash_loop fuel size h data low high
  end.

Definition findHashIndex (idx : MemoryIndex) (h : ObjectID) : res (option Z) :=
  let* b := index (ObjectID_Bytes h) 0 in
  let* k := index (FanoutMapping idx) (b2z b) in
  if k =? noMapping then Ok None
  else if len (Names idx) <=? k then Ok None
  else
    let* data := index (Names idx) k in
    let* o32 := index (Offset32 idx) k in
    let high := Z.shiftr (len o32) 2 in
    if high =? 0 then Ok None
    else findHash_loop (S (Z.to_nat high)) (idSize idx) h data 0 high.

Definition idx_Contains (idx : MemoryIndex) (h : ObjectID) : res bool :=
  let* i := findHashIndex idx h in Ok (match i with Some _ => true | None => false end).

Definition isO64Mask : Z := Z.shiftl 1 31.

Definition getOffset (idx : MemoryIndex) (firstLevel secondLevel : Z) : res Z :=
  let offset := Z.shiftl secondLevel 2 in
  let* o32 := index (Offset32 idx) firstLevel in
  let* b := slice o32 offset (offset + 4) in
  let ofs := be_decode b in
  if negb (Z.land ofs isO64Mask =? 0) then
    let offset := 8 * Z.land ofs (2 ^ 64 - 1 - isO64Mask) in
    let* b := slice (Offset64 idx) offset (offset + 8) in
    Ok (be_decode b)
  else Ok ofs.

Definition getCRC32 (idx : MemoryIndex) (firstLevel secondLevel : Z) : res Z :=
  let offset := Z.shiftl secondLevel 2 in
  let* crc := index (CRC32 idx) firstLevel in
  let* b := slice crc offset (offset + 4) in
  Ok (be_decode b).

Definition with_offsetHash (idx : MemoryIndex) (m : option (gmap Z ObjectID)) (full : bool) : MemoryIndex :=
  mkIdx (iVersion idx) (Fanout idx) (FanoutMapping idx) (Names idx) (Offset32 idx) (CRC32 idx) (Offset64 idx)
    (PackfileChecksum idx) (IdxChecksum idx) m full (objectIDSize idx).

(** [FindOffset]: the array has 256 elements, so its first check never fails. *)
Definition FindOffset (idx : MemoryIndex) (h : ObjectID) : res (Z * MemoryIndex) :=
  let* fo := index (ObjectID_Bytes h) 0 in
  let* k := index (FanoutMapping idx) (b2z fo) in
  let* i := findHashIndex idx h in
  match i with
  | None => Err ErrObjectNotFound
  | Some i =>
    let* offset := getOffset idx k i in
    let idx := if negb (offsetHashIsFull idx)
               then with_offsetHash idx (Some (<[i64 offset := h]> (default ∅ (offsetHash idx)))) false
               else idx in
    Ok (i64 offset, idx)
  end.

Definition FindCRC32 (idx : MemoryIndex) (h : ObjectID) : res Z :=
  let* fo := index (ObjectID_Bytes h) 0 in
  let* k := index (FanoutMapping idx) (b2z fo) in
  let* i := findHashIndex idx h in
  match i with
  | None => Err ErrObjectNotFound
  | Some i => getCRC32 idx k i
  end.

Definition Count (idx : MemoryIndex) : res Z := index (Fanout idx) (fanout - 1).

(** The inner loop of [genOffsetHash]: [n] more entries of a bucket.  The variable
    [hash] lives across all entries. *)
Fixpoint genBucket (n : nat) (idx : MemoryIndex) (mapped secondLevel : Z) (hash : ObjectID) (m : gmap Z ObjectID)
    : res (ObjectID * gmap Z ObjectID) :=
  match n with
  | O => Ok (hash, m)
  | S n =>
    let* names := index (Names idx) mapped in
    let* name := slice names (u32 (secondLevel * u32 (idSize idx))) (len names) in
    let hash := ObjectID_Write hash name in
    let* offset := getOffset idx mapped secondLevel in
    genBucket n idx mapped (u32 (secondLevel + 1)) hash (<[i64 offset := hash]> m)
  end.

Fixpoint genOffsetHash_loop (idx : MemoryIndex) (fs ms : list Z) (i : Z) (hash : ObjectID) (m : gmap Z ObjectID)
    : res (gmap Z ObjectID) :=
  match fs, ms with
  | fanoutValue :: fs, mapped :: ms =>
    let* (hash, m) := genBucket (Z.to_nat (fanoutValue - i)) idx mapped 0 hash m in
    genOffsetHash_loop idx fs ms (Z.max i fanoutValue) hash m
  | _, _ => Ok m
  end.

Definition genOffsetHash (idx : MemoryIndex) : res MemoryIndex :=
  let* m := genOffsetHash_loop idx (Fanout idx) (FanoutMapping idx) 0 ZeroHash ∅ in
  Ok (with_offsetHash idx (Some m) true).

Definition FindHash (idx : MemoryIndex) (o : Z) : res (ObjectID * MemoryIndex) :=
  match offsetHash idx ≫= (fun m => m !! o) with
  | Some hash => Ok (hash, idx)
  | None =>
    let* idx := if negb (offsetHashIsFull idx) || bool_decide (offsetHash idx = None)
                then genOffsetHash idx else Ok idx in
    match offsetHash idx ≫= (fun m => m !! o) with
    | Some hash => Ok (hash, idx)
    | None => Err ErrObjectNotFound
    end
  end.

(** *** Iterators *)
Record idxfileEntryIter := mkEntryIter { itTotal : Z; itFirst : Z; itSecond : Z }.

Definition Entries : idxfileEntryIter := mkEntryIter 0 0 0.

Fixpoint EntryIter_Next (fuel : nat) (idx : MemoryIndex) (i : idxfileEntryIter) : res (Entry * idxfileEntryIter) :=
  match fuel with
  | O => NoFuel
  | S fuel =>
    if itFirst i >=? fanout then Err EOF
    else
      let* f := index (Fanout idx) (itFirst i) in
      if itTotal i >=? f then EntryIter_Next fuel idx (mkEntryIter (itTotal i) (itFirst i + 1) 0)
      else
        let* mapped := index (FanoutMapping idx) (itFirst i) in
        let* names := index (Names idx) mapped in
        let* name := slice names (itSecond i * idSize idx) (len names) in
        let* offset := getOffset idx mapped (itSecond i) in
        let* crc := getCRC32 idx mapped (itSecond i) in
        Ok (mkEntry (ObjectID_Write ZeroHash name) crc offset, mkEntryIter (itTotal i + 1) (itFirst i) (itSecond i + 1))
  end.

(** [Close] *)
Definition EntryIter_Close (i : idxfileEntryIter) : idxfileEntryIter := mkEntryIter (itTotal i) fanout (itSecond i).

(** The first [n] entries of an iterator. *)
Fixpoint collectEntries (n : nat) (idx : MemoryIndex) (i : idxfileEntryIter) : res (list Entry) :=
  match n with
  | O => Ok []
  | S n => let* (e, i) := EntryIter_Next 257 idx i in let* es := collectEntries n idx i in Ok (e :: es)
  end.

(** The order of [entriesByOffset]. *)
Definition leOffset (a b : Entry) : Prop := eOffset a <= eOffset b.
#[global] Instance leOffset_dec : RelDecision leOffset.
Proof. intros a b. unfold leOffset. apply _. Defined.

Record idxfileEntryOffsetIter := mkOffsetIter { itEntries : list Entry; itPos : Z }.

(** [EntriesByOffset]; [sort.Sort] is some sort by offset. *)
Definition EntriesByOffset (idx : MemoryIndex) : res idxfileEntryOffsetIter :=
  let* count := Count idx in
  let* es := collectEntries (Z.to_nat count) idx Entries in
  Ok (mkOffsetIter (merge_sort leOffset es) 0).

Definition OffsetIter_Next (i : idxfileEntryOffsetIter) : res (Entry * idxfileEntryOffsetIter) :=
  if itPos i >=? len (itEntries i) then Err EOF
  else let* entry := index (itEntries i) (itPos i) in Ok (entry, mkOffsetIter (itEntries i) (itPos i + 1)).

Definition OffsetIter_Close (i : idxfileEntryOffsetIter) : idxfileEntryOffsetIter :=
  mkOffsetIter (itEntries i) (len (itEntries i) + 1).

(** ** writer.go *)
Record Writer := mkWriter {
  wcount : Z; wchecksum : ObjectID; wobjects : list Entry; woffset64 : Z; wfinished : bool;
  windex : option MemoryIndex; wadded : gset ObjectID }.

Definition NewWriter : Writer := mkWriter 0 ZeroHash [] 0 false None ∅.

Definition Writer_Add (w : Writer) (h : ObjectID) (pos crc : Z) : Writer :=
  if bool_decide (h ∈ wadded w) then w
  else mkWriter (wcount w) (wchecksum w) (wobjects w ++ [mkEntry h crc pos]) (woffset64 w) (wfinished w) (windex w)
         ({[ h ]} ∪ wadded w).

Definition OnHeader (w : Writer) (count : Z) : Writer :=
  mkWriter count (wchecksum w) [] (woffset64 w) (wfinished w) (windex w) (wadded w).

Definition Finished (w : Writer) : bool := wfinished w.

(** [OnInflatedObjectHeader]: nothing. *)
Definition OnInflatedObjectHeader (w : Writer) (t objSize pos : Z) : Writer := w.

Definition OnInflatedObjectContent (w : Writer) (h : ObjectID) (pos crc : Z) : Writer :=
  Writer_Add w h (u64 pos) crc.

(** The order of [objects]. *)
Definition leHash (a b : Entry) : Prop := ObjectID_Compare (eHash a) (ObjectID_Bytes (eHash b)) <= 0.
#[global] Instance leHash_dec : RelDecision leHash.
Proof. intros a b. unfold leHash. apply _. Defined.

(** [for j := from; j < to; j++ { Fanout[j] = v }], [n] rounds. *)
Fixpoint fillFanout (n : nat) (fan : list Z) (from v : Z) : res (list Z) :=
  match n with
  | O => Ok fan
  | S n => let* fan := set_index fan from v in fillFanout n fan (from + 1) v
  end.

(** [addOffset64]: the marked index, [Offset64] and [offset64] afterwards. *)
Definition addOffset64 (pos : Z) (o64 : bytes) (offset64 : Z) : Z * bytes * Z :=
  (Z.lor offset64 (Z.shiftl 1 31), o64 ++ WriteUint64 pos, u32 (offset64 + 1)).

(** What the loop of [createIndex] changes. *)
Record building := mkBuilding {
  bFanout : list Z; bMapping : list Z; bNames : list bytes; bOffset32 : list bytes; bCRC32 : list bytes;
  bOffset64 : bytes; bNext64 : Z; bLast : Z; bBucket : Z }.

Definition appendAt (l : list bytes) (i : Z) (b : bytes) : res (list bytes) :=
  let* x := index l i in set_index l i (x ++ b).

Definition createIndex_step (st : building) (i : Z) (o : Entry) : res building :=
  let '(mkBuilding fan map names o32 crc o64 next64 last bucket) := st in
  let* fanb := index (ObjectID_Bytes (eHash o)) 0 in
  let k := b2z fanb in
  let* fan := fillFanout (Z.to_nat (k - (last + 1))) fan (last + 1) (u32 i) in
  let* fan := set_index fan k (u32 (i + 1)) in
  let* (map, names, o32, crc, last, bucket) :=
    if negb (last =? k) then
      let bucket := bucket + 1 in
      let* map := set_index map k bucket in
      Ok (map, names ++ [[]], o32 ++ [[]], crc ++ [[]], k, bucket)
    else Ok (map, names, o32, crc, last, bucket) in
  let* names := appendAt names bucket (ObjectID_Bytes (eHash o)) in
  let '(offset, o64, next64) := if eOffset o >? 2 ^ 31 - 1 then addOffset64 (eOffset o) o64 next64
                                else (eOffset o, o64, next64) in
  let* o32 := appendAt o32 bucket (WriteUint32 (u32 offset)) in
  let* crc := appendAt crc bucket (WriteUint32 (eCRC32 o)) in
  Ok (mkBuilding fan map names o32 crc o64 next64 last bucket).

Fixpoint createIndex_loop (st : building) (i : Z) (objects : list Entry) : res building :=
  match objects with
  | [] => Ok st
  | o :: objects => let* st := createIndex_step st i o in createIndex_loop st (i + 1) objects
  end.

Definition createIndex (w : Writer) : res (MemoryIndex * Writer) :=
  if negb (wfinished w) then Err ErrIndexNotFinished
  else
    let objects := merge_sort leHash (wobjects w) in
    let* st := createIndex_loop (mkBuilding (replicate 256 0) (replicate 256 noMapping) [] [] [] [] (woffset64 w) (-1) (-1)) 0 objects in
    let* fan := fillFanout (Z.to_nat (256 - (bLast st + 1))) (bFanout st) (bLast st + 1) (u32 (len objects)) in
    let idx := mkIdx VersionSupported fan (bMapping st) (bNames st) (bOffset32 st) (bCRC32 st) (bOffset64 st)
                 (wchecksum w) ZeroHash None false 0 in
    Ok (idx, mkWriter (wcount w) (wchecksum w) objects (bNext64 st) (wfinished w) (Some idx) (wadded w)).

Definition OnFooter (w : Writer) (h : ObjectID) : res Writer :=
  let w := mkWriter (wcount w) h (wobjects w) (woffset64 w) true (windex w) (wadded w) in
  let* (_, w) := createIndex w in Ok w.

Definition Writer_Index (w : Writer) : res (MemoryIndex * Writer) :=
  match windex w with
  | None => createIndex w
  | Some idx => Ok (idx, w)
  end.

(** ** encoder.go

    The bytes written; the count [Encode] returns is their number. *)
Section Encoder.
Context (sha1 : bytes -> bytes).

Definition encodeHeader (idx : MemoryIndex) : bytes := idxHeader ++ WriteUint32 (iVersion idx).
Definition encodeFanout (idx : MemoryIndex) : bytes := flat_map WriteUint32 (Fanout idx).

(** The loop of [encodeHashes], [encodeCRC32] and [encodeOffsets] over [slices]. *)
Fixpoint encodeBuckets (mapping : list Z) (slices : list bytes) : res bytes :=
  match mapping with
  | [] => Ok []
  | pos :: mapping =>
    if pos =? noMapping then encodeBuckets mapping slices
    else
      let* b := index slices pos in
      let* rest := encodeBuckets mapping slices in
      Ok (b ++ rest)
  end.

Definition encodeHashes (idx : MemoryIndex) : res bytes := encodeBuckets (FanoutMapping idx) (Names idx).
Definition encodeCRC32 (idx : MemoryIndex) : res bytes := encodeBuckets (FanoutMapping idx) (CRC32 idx).
Definition encodeOffsets (idx : MemoryIndex) : res bytes :=
  let* b := encodeBuckets (FanoutMapping idx) (Offset32 idx) in
  if len (Offset64 idx) >? 0 then Ok (b ++ Offset64 idx) else Ok b.

Definition with_IdxChecksum (idx : MemoryIndex) (h : ObjectID) : MemoryIndex :=
  mkIdx (iVersion idx) (Fanout idx) (FanoutMapping idx) (Names idx) (Offset32 idx) (CRC32 idx) (Offset64 idx)
    (PackfileChecksum idx) h (offsetHash idx) (offsetHashIsFull idx) (objectIDSize idx).

(** [encodeChecksums], given what was written before. *)
Definition encodeChecksums (idx : MemoryIndex) (before : bytes) : bytes * MemoryIndex :=
  let b1 := ObjectID_Bytes (PackfileChecksum idx) in
  let idx := with_IdxChecksum idx (ObjectID_Write (IdxChecksum idx) (sha1 (before ++ b1))) in
  (b1 ++ ObjectID_Bytes (IdxChecksum idx), idx).

Definition Encode (idx : MemoryIndex) : res (bytes * MemoryIndex) :=
  let w := encodeHeader idx ++ encodeFanout idx in
  let* b := encodeHashes idx in
  let w := w ++ b in
  let* b := encodeCRC32 idx in
  let w := w ++ b in
  let* b := encodeOffsets idx in
  let w := w ++ b in
  let (b, idx) := encodeChecksums idx w in
  Ok (w ++ b, idx).
End Encoder.

(** ** decoder.go *)
Definition validateHeader (r : bytes) : res bytes :=
  let* (h, r) := readFull 4 r in
  if negb (bool_decide (h = idxHeader)) then Err ErrMalformedIdxFile else Ok r.

Definition readVersion (idx : MemoryIndex) (r : bytes) : res (MemoryIndex * bytes) :=
  let* (v, r) := ReadUint32 r in
  if v >? VersionSupported then Err ErrUnsupportedVersion
  else Ok (mkIdx v (Fanout idx) (FanoutMapping idx) (Names idx) (Offset32 idx) (CRC32 idx) (Offset64 idx)
             (PackfileChecksum idx) (IdxChecksum idx) (offsetHash idx) (offsetHashIsFull idx) (objectIDSize idx), r).

Fixpoint readUint32s (n : nat) (r : bytes) : res (list Z * bytes) :=
  match n with
  | O => Ok ([], r)
  | S n => let* (v, r) := ReadUint32 r in let* (vs, r) := readUint32s n r in Ok (v :: vs, r)
  end.

(** [readFanout] sets all 256 elements of both arrays. *)
Definition readFanout (idx : MemoryIndex) (r : bytes) : res (MemoryIndex * bytes) :=
  let* (fs, r) := readUint32s (Z.to_nat fanout) r in
  Ok (mkIdx (iVersion idx) fs (replicate 256 noMapping) (Names idx) (Offset32 idx) (CRC32 idx) (Offset64 idx)
        (PackfileChecksum idx) (IdxChecksum idx) (offsetHash idx) (offsetHashIsFull idx) (objectIDSize idx), r).

(** The loop of [readObjectNames] over the fanout table: [prev] is the element
    before, [mapping] the mapping so far. *)
Fixpoint readNames_loop (size : Z) (fs : list Z) (prev : Z) (mapping : list Z) (names o32 crc : list bytes) (r : bytes)
    : res (list Z * list bytes * list bytes * list bytes * bytes) :=
  match fs with
  | [] => Ok (mapping, names, o32, crc, r)
  | f :: fs =>
    let buckets := u32 (f - prev) in
    if buckets =? 0 then readNames_loop size fs f (mapping ++ [noMapping]) names o32 crc r
    else
      let* (bin, r) := readFull (u32 (buckets * u32 size)) r in
      readNames_loop size fs f (mapping ++ [len names]) (names ++ [bin])
        (o32 ++ [replicate (Z.to_nat (u32 (buckets * 4))) x00]) (crc ++ [replicate (Z.to_nat (u32 (buckets * 4))) x00]) r
  end.

Definition readObjectNames (idx : MemoryIndex) (r : bytes) : res (MemoryIndex * bytes) :=
  let* (mapping, names, o32, crc, r) :=
    readNames_loop (idSize idx) (Fanout idx) 0 [] (Names idx) (Offset32 idx) (CRC32 idx) r in
  Ok (mkIdx (iVersion idx) (Fanout idx) mapping names o32 crc (Offset64 idx)
        (PackfileChecksum idx) (IdxChecksum idx) (offsetHash idx) (offsetHashIsFull idx) (objectIDSize idx), r).

(** The loop of [readCRC32] and [readOffsets]: every mapped slice is filled. *)
Fixpoint readBuckets (mapping : list Z) (slices : list bytes) (r : bytes) : res (list bytes * bytes) :=
  match mapping with
  | [] => Ok (slices, r)
  | pos :: mapping =>
    if pos =? noMapping then readBuckets mapping slices r
    else
      let* old := index slices pos in
      let* (b, r) := readFull (len old) r in
      let* slices := set_index slices pos b in
      readBuckets mapping slices r
  end.

Definition readCRC32 (idx : MemoryIndex) (r : bytes) : res (MemoryIndex * bytes) :=
  let* (crc, r) := readBuckets (FanoutMapping idx) (CRC32 idx) r in
  Ok (mkIdx (iVersion idx) (Fanout idx) (FanoutMapping idx) (Names idx) (Offset32 idx) crc (Offset64 idx)
        (PackfileChecksum idx) (IdxChecksum idx) (offsetHash idx) (offsetHashIsFull idx) (objectIDSize idx), r).

(** The number of offsets with the high bit set in one slice: every fourth byte. *)
Fixpoint countO64 (b : bytes) : Z :=
  match b with
  | x :: _ :: _ :: _ :: b' => (if Z.land (b2z x) 0x80 >? 0 then 1 else 0) + countO64 b'
  | x :: _ => if Z.land (b2z x) 0x80 >? 0 then 1 else 0
  | [] => 0
  end.

(** The number over the mapped slices. *)
Fixpoint countBuckets (mapping : list Z) (slices : list bytes) : res Z :=
  match mapping with
  | [] => Ok 0
  | pos :: mapping =>
    if pos =? noMapping then countBuckets mapping slices
    else let* b := index slices pos in let* n := countBuckets mapping slices in Ok (countO64 b + n)
  end.

Definition readOffsets (idx : MemoryIndex) (r : bytes) : res (MemoryIndex * bytes) :=
  let* (o32, r) := readBuckets (FanoutMapping idx) (Offset32 idx) r in
  let* o64cnt := countBuckets (FanoutMapping idx) o32 in
  let* (o64, r) := if o64cnt >? 0 then readFull (o64cnt * 8) r else Ok (Offset64 idx, r) in
  Ok (mkIdx (iVersion idx) (Fanout idx) (FanoutMapping idx) (Names idx) o32 (CRC32 idx) o64
        (PackfileChecksum idx) (IdxChecksum idx) (offsetHash idx) (offsetHashIsFull idx) (objectIDSize idx), r).

Definition readChecksums (idx : MemoryIndex) (r : bytes) : res (MemoryIndex * bytes) :=
  let* (p, r) := ReadFrom (ResetBySize (PackfileChecksum idx) (idSize idx)) r in
  let* (c, r) := ReadFrom (ResetBySize (IdxChecksum idx) (idSize idx)) r in
  Ok (mkIdx (iVersion idx) (Fanout idx) (FanoutMapping idx) (Names idx) (Offset32 idx) (CRC32 idx) (Offset64 idx)
        p c (offsetHash idx) (offsetHashIsFull idx) (objectIDSize idx), r).

Definition Decode (idx : MemoryIndex) (r : bytes) : res MemoryIndex :=
  let* r := validateHeader r in
  let* (idx, r) := readVersion idx r in
  let* (idx, r) := readFanout idx r in
  let* (idx, r) := readObjectNames idx r in
  let* (idx, r) := readCRC32 idx r in
  let* (idx, r) := readOffsets idx r in
  let* (idx, _) := readChecksums idx r in
  Ok idx.
