(* ===== verification/IdxfileTables.v ===== *)
(** * Representation of a packfile index

    What the tables of [MemoryIndex] stand for: groups of items, one group per first
    byte.  Lookups of an index that represents groups find the items; the loops
    of the encoder and the decoder walk the groups; [Decode] of what [Encode]
    wrote represents the same groups. *)
From stdpp Require Import sorting.
From S2P Require Import Prelude Binary GoStrings ObjectID Idxfile.

(** ** Binary search

    over names of [size] bytes each, in increasing order. *)
Section Search.
Context (size : Z) (names : list bytes) (h : ObjectID).
Hypothesis Hsize : 0 < size.
Hypothesis Hlen : Forall (fun x => len x = size) names.
Hypothesis Hsorted : StronglySorted ltName names.
Hypothesis Hbound : len names * size < 2 ^ 62.

Lemma concat_len (l : list bytes) : Forall (fun x => len x = size) l -> len (mjoin l) = len l * size.
Proof.
  induction 1 as [|x l Hx _ IH]; [done|]. change (mjoin (x :: l)) with (x ++ mjoin l). rewrite len_app, len_cons, IH, Hx. lia.
Qed.

Lemma concat_seg (l : list bytes) i x : Forall (fun x => len x = size) l -> l !! i = Some x ->
  slice (mjoin l) (Z.of_nat i * size) (Z.of_nat i * size + size) = Ok x.
Proof.
  intros Hl Hi. pose proof (concat_len l Hl) as Hc. apply lookup_lt_Some in Hi as Hlt.
  assert (Z.of_nat i * size + size <= len (mjoin l)) as Hle.
  { rewrite Hc. unfold len. nia. }
  rewrite slice_ok by lia. f_equal. unfold seg. replace (Z.of_nat i * size + size - Z.of_nat i * size) with size by lia.
  clear Hle Hc Hlt. revert i Hi. induction Hl as [|y l Hy _ IH]; intros i Hi; [done|].
  change (mjoin (y :: l)) with (y ++ mjoin l). destruct i as [|i].
  - injection Hi as ->. cbn [Z.of_nat]. rewrite drop_0. rewrite take_app_length' by (unfold len in Hy; lia). done.
  - rewrite drop_app_ge by (unfold len in Hy; nia). rewrite <- (IH i Hi). do 2 f_equal. unfold len in Hy. nia.
Qed.

(** The names below [low] are smaller than the sought one, those from [high] on are greater. *)
Definition searchInv (low high : Z) : Prop :=
  0 <= low <= high /\ high <= len names /\
  forall i x, names !! i = Some x ->
    (Z.of_nat i < low -> 0 < ObjectID_Compare h x) /\ (high <= Z.of_nat i -> ObjectID_Compare h x < 0).

Lemma lookup_sorted i j x y : names !! i = Some x -> names !! j = Some y -> (i < j)%nat -> ltName x y.
Proof.
  clear - Hsorted. revert i j. induction Hsorted as [|z l Hl IH Hall]; intros i j Hi Hj Hlt; [done|].
  destruct j as [|j]; [lia|]. destruct i as [|i]; cbn in Hi, Hj.
  - injection Hi as ->. rewrite Forall_forall in Hall. apply Hall. by eapply list_elem_of_lookup_2.
  - apply (IH Hl i j); [done|done|lia].
Qed.

(** The result of a search: the position of the name, or that there is none. *)
Definition found (o : option Z) : Prop :=
  match o with
  | Some i => 0 <= i /\ names !! Z.to_nat i = Some (ObjectID_Bytes h)
  | None => ObjectID_Bytes h ∉ names
  end.

Lemma not_found low high : searchInv low high -> high <= low -> found None.
Proof.
  intros (Hlh & Hh & Hall) Hge Hin. apply list_elem_of_lookup in Hin as [i Hi]. destruct (Hall i _ Hi) as [H1 H2].
  unfold ObjectID_Compare in *. rewrite compareBytes_refl in *. lia.
Qed.

(** A name in the middle cuts off the upper or the lower part. *)
Lemma search_lower low high mid x : searchInv low high -> low <= mid < high -> names !! Z.to_nat mid = Some x -> ObjectID_Compare h x < 0 -> searchInv low mid.
Proof.
  intros (Hlh & Hh & Hall) Hm Hx Hc. split; [lia|]. split; [lia|]. intros i y Hi. destruct (Hall i y Hi) as [H1 H2]. split; [done|]. intros Hge.
  destruct (Z.eq_dec (Z.of_nat i) mid) as [Em|Em].
  - assert (y = x) as ->; [|exact Hc]. rewrite <- Em, Nat2Z.id in Hx. congruence.
  - unfold ObjectID_Compare in *. apply (compareBytes_lt_trans _ x); [done|]. apply (lookup_sorted (Z.to_nat mid) i); [done|done|lia].
Qed.

Lemma search_upper low high mid x : searchInv low high -> low <= mid < high -> names !! Z.to_nat mid = Some x -> 0 < ObjectID_Compare h x -> searchInv (mid + 1) high.
Proof.
  intros (Hlh & Hh & Hall) Hm Hx Hc. split; [lia|]. split; [lia|]. intros i y Hi. destruct (Hall i y Hi) as [H1 H2]. split; [|done]. intros Hle.
  unfold ObjectID_Compare in *. rewrite compareBytes_antisym. destruct (Z.eq_dec (Z.of_nat i) mid) as [Em|Em].
  - assert (y = x) as ->; [rewrite <- Em, Nat2Z.id in Hx; congruence|]. rewrite compareBytes_antisym. lia.
  - assert (compareBytes y (ObjectID_Bytes h) < 0); [|lia]. apply (compareBytes_lt_trans _ x); [apply (lookup_sorted i (Z.to_nat mid)); [done|done|lia]|].
    rewrite compareBytes_antisym. lia.
Qed.

Lemma findHash_loop_spec fuel : forall low high,
  searchInv low high -> low < high -> (Z.to_nat (high - low) < fuel)%nat ->
  exists o, findHash_loop fuel size h (mjoin names) low high = Ok o /\ found o.
Proof.
  induction fuel as [|fuel IH]; intros low high Hinv Hlt Hf; [lia|]. cbn [findHash_loop].
  pose proof Hinv as (Hlh & Hh & Hall). pose proof (len_nonneg names) as Hln.
  assert (len names < 2 ^ 62) as Hb by nia.
  assert (Z.shiftr (u64 (low + high)) 1 = (low + high) / 2) as Hmid.
  { rewrite u64_small by lia. by rewrite Z.shiftr_div_pow2 by lia. }
  rewrite Hmid. set (mid := (low + high) / 2).
  assert (low <= mid < high) as Hm. { unfold mid. split; [apply Z.div_le_lower_bound; lia|apply Z.div_lt_upper_bound; lia]. }
  assert (0 <= mid * size /\ mid * size + size <= len names * size) as [Hm1 Hm2] by nia.
  rewrite (u64_small (mid * size)) by lia. rewrite (u64_small (mid * size + size)) by lia.
  destruct (lookup_lt_is_Some_2 names (Z.to_nat mid)) as [x Hx]; [unfold len in *; lia|].
  pose proof (concat_seg names (Z.to_nat mid) x Hlen Hx) as Hs. rewrite Z2Nat.id in Hs by lia. rewrite Hs. cbn [res_bind].
  destruct (Z.eqb_spec (ObjectID_Compare h x) 0) as [E|E].
  { exists (Some mid). split; [done|]. split; [lia|]. apply compareBytes_eq in E. by rewrite E. }
  unfold ObjectID_Compare in E |- *. destruct (Z.ltb_spec (compareBytes (ObjectID_Bytes h) x) 0) as [Hc|Hc].
  - pose proof (search_lower low high mid x Hinv Hm Hx Hc) as Hinv'. destruct (low >=? mid) eqn:Eg.
    + exists None. split; [done|]. apply (not_found low mid Hinv'). lia.
    + apply IH; [done|lia|lia].
  - rewrite (u64_small (mid + 1)) by lia. assert (0 < ObjectID_Compare h x) as Hc' by (unfold ObjectID_Compare; lia).
    pose proof (search_upper low high mid x Hinv Hm Hx Hc') as Hinv'. destruct (mid + 1 >=? high) eqn:Eg.
    + exists None. split; [done|]. apply (not_found (mid + 1) high Hinv'). lia.
    + apply IH; [done|lia|lia].
Qed.
End Search.

(** ** The entries behind an index

    An index stands for groups of items, one group per first byte of a name that
    occurs, in increasing order. An item is an entry with its 32-bit offset word. *)
Abbreviation item := (Entry * Z)%type.
Abbreviation group := (Z * list item)%type.

Definition nameOf (it : item) : bytes := ObjectID_Bytes (eHash (fst it)).
Definition gNames (g : group) : bytes := mjoin (map nameOf (snd g)).
Definition gO32 (g : group) : bytes := mjoin (map (fun it => be_encode 4 (snd it)) (snd g)).
Definition gCRC (g : group) : bytes := mjoin (map (fun it => be_encode 4 (eCRC32 (fst it))) (snd g)).

(** The number of items in groups up to [j], and the position of the group of [j]. *)
Definition gcount (gs : list group) (j : Z) : Z := foldr (fun g n => (if fst g <=? j then len (snd g) else 0) + n) 0 gs.
Definition gtotal (gs : list group) : Z := foldr (fun g n => len (snd g) + n) 0 gs.
Definition gpos (gs : list group) (j : Z) : Z :=
  match list_find (fun g : group => fst g = j) gs with Some (i, _) => Z.of_nat i | None => noMapping end.

(** All items, and the number of items whose word is an index. *)
Definition gitems (gs : list group) : list item := mjoin (map snd gs).
Definition o64count (its : list item) : Z := foldr (fun it n => (if 2 ^ 31 <=? snd it then 1 else 0) + n) 0 its.

(** The offset word of an item: the offset, or an index into the 64-bit offsets. *)
Definition word_ok (o64 : bytes) (it : item) : Prop :=
  0 <= eOffset (fst it) < 2 ^ 31 /\ snd it = eOffset (fst it) \/
  exists i, 0 <= i < 2 ^ 31 /\ 2 ^ 31 <= eOffset (fst it) < 2 ^ 64 /\ snd it = 2 ^ 31 + i /\
    slice o64 (8 * i) (8 * i + 8) = Ok (be_encode 8 (eOffset (fst it))).

Definition item_ok (o64 : bytes) (key : Z) (it : item) : Prop :=
  len (nameOf it) = 20 /\ (exists b, nameOf it !! 0%nat = Some b /\ b2z b = key) /\
  0 <= eCRC32 (fst it) < 2 ^ 32 /\ word_ok o64 it.

Record groups_ok (o64 : bytes) (gs : list group) : Prop := {
  gk_keys : StronglySorted Z.lt (map fst gs);
  gk_range : Forall (fun g => 0 <= fst g < 256) gs;
  gk_nonempty : Forall (fun g => snd g <> []) gs;
  gk_items : Forall (fun g => Forall (item_ok o64 (fst g)) (snd g)) gs;
  gk_sorted : StronglySorted ltName (map nameOf (gitems gs));
  gk_o64 : len o64 = 8 * o64count (gitems gs);
  gk_total : gtotal gs < 2 ^ 27 }.

Record represents (idx : MemoryIndex) (gs : list group) : Prop := {
  rp_groups : groups_ok (Offset64 idx) gs;
  rp_version : iVersion idx = VersionSupported;
  rp_fanout : Fanout idx = gcount gs <$> seqZ 0 256;
  rp_mapping : FanoutMapping idx = gpos gs <$> seqZ 0 256;
  rp_names : Names idx = map gNames gs;
  rp_o32 : Offset32 idx = map gO32 gs;
  rp_crc : CRC32 idx = map gCRC gs;
  rp_size : idSize idx = 20 }.

Lemma glen_total g gs : g ∈ gs -> 0 <= len (snd g) <= gtotal gs.
Proof.
  assert (forall gs, 0 <= gtotal gs) as Hn.
  { intros l. unfold gtotal. induction l as [|y l IH]; cbn [foldr]; [lia|]. pose proof (len_nonneg (snd y)). lia. }
  intros Hin. induction gs as [|x gs IH]; [by apply not_elem_of_nil in Hin|]. cbn [gtotal foldr].
  fold (gtotal gs). pose proof (Hn gs). pose proof (len_nonneg (snd x)). pose proof (len_nonneg (snd g)).
  apply elem_of_cons in Hin as [->|Hin]; [lia|]. specialize (IH Hin). lia.
Qed.

Lemma words_len (f : item -> bytes) (n : Z) its : (forall it, len (f it) = n) -> Forall (fun x => len x = n) (map f its).
Proof. intros Hf. apply Forall_map, Forall_forall. intros it _. apply Hf. Qed.

Lemma len_map {A B} (f : A -> B) l : len (map f l) = len l.
Proof. unfold len. by rewrite length_map. Qed.

Lemma gitems_app l1 l2 : gitems (l1 ++ l2) = gitems l1 ++ gitems l2.
Proof. unfold gitems. by rewrite map_app, join_app. Qed.

Lemma gitems_cons g l : gitems (g :: l) = snd g ++ gitems l.
Proof. done. Qed.

Lemma group_sorted gs k g : gs !! k = Some g -> StronglySorted ltName (map nameOf (gitems gs)) ->
  StronglySorted ltName (map nameOf (snd g)).
Proof.
  intros Hk. rewrite <- (take_drop_middle gs k g Hk), gitems_app, gitems_cons, !map_app. intros Hs.
  by apply StronglySorted_app_1_r, StronglySorted_app_1_l in Hs.
Qed.

Section Lookup.
Context (idx : MemoryIndex) (gs : list group).
Hypothesis Hrep : represents idx gs.

(** The group of a byte. *)
Lemma group_at j : 0 <= j < 256 ->
  index (FanoutMapping idx) j = Ok (gpos gs j) /\
  match list_find (fun g : group => fst g = j) gs with
  | Some (k, g) => gpos gs j = Z.of_nat k /\ gs !! k = Some g /\ fst g = j
  | None => gpos gs j = noMapping /\ Forall (fun g => fst g <> j) gs
  end.
Proof.
  intros Hj. rewrite (rp_mapping _ _ Hrep). split.
  - apply index_lookup; [lia|]. rewrite list_lookup_fmap, lookup_seqZ_lt by lia. cbn. f_equal. f_equal. lia.
  - unfold gpos. destruct (list_find _ gs) as [[k g]|] eqn:E.
    + apply list_find_Some in E as (H1 & H2 & _). done.
    + apply list_find_None in E. done.
Qed.

Lemma index_map {A B} (f : A -> B) l k x : l !! k = Some x -> index (map f l) (Z.of_nat k) = Ok (f x).
Proof. intros Hk. apply index_lookup; [lia|]. rewrite Nat2Z.id. by rewrite list_lookup_fmap, Hk. Qed.

Lemma group_facts k g : gs !! k = Some g ->
  0 <= fst g < 256 /\ snd g <> [] /\ Forall (item_ok (Offset64 idx) (fst g)) (snd g) /\
  StronglySorted ltName (map nameOf (snd g)) /\ len (snd g) < 2 ^ 27.
Proof.
  intros Hk. destruct (rp_groups _ _ Hrep) as [_ H1 H2 H3 H4 _ H5]. pose proof (group_sorted gs k g Hk H4). apply list_elem_of_lookup_2 in Hk.
  rewrite Forall_forall in H1, H2, H3. pose proof (glen_total g gs Hk). split_and!; auto; [by apply H1|by apply H1|lia].
Qed.

Lemma findHashIndex_spec h b :
  ObjectID_Bytes h !! 0%nat = Some b ->
  match list_find (fun g : group => fst g = b2z b) gs with
  | Some (k, g) => exists o, findHashIndex idx h = Ok o /\ found (map nameOf (snd g)) h o
  | None => findHashIndex idx h = Ok None
  end.
Proof.
  intros Hb. unfold findHashIndex. rewrite (index_lookup (ObjectID_Bytes h) 0 b) by (done || lia). cbn [res_bind].
  destruct (group_at (b2z b) (b2z_range b)) as [-> Hg]. cbn [res_bind].
  destruct (list_find _ gs) as [[k g]|]; destruct Hg as [-> Hg]; [|done]. destruct Hg as [Hk Hkey].
  destruct (Z.eqb_spec (Z.of_nat k) noMapping) as [E|_]; [unfold noMapping in E; lia|].
  rewrite (rp_names _ _ Hrep), (rp_o32 _ _ Hrep), (rp_size _ _ Hrep), len_map. apply lookup_lt_Some in Hk as Hlt.
  destruct (Z.leb_spec (len gs) (Z.of_nat k)); [unfold len in *; lia|].
  rewrite (index_map gNames gs k g Hk), (index_map gO32 gs k g Hk). cbn [res_bind].
  destruct (group_facts k g Hk) as (_ & Hne & Hit & Hs & Hl).
  assert (len (gO32 g) = len (snd g) * 4) as ->.
  { unfold gO32. rewrite (concat_len 4), len_map; [done|]. apply words_len. intros it. apply be_encode_len. }
  rewrite Z.shiftr_div_pow2 by lia. change (2 ^ 2) with 4. rewrite Z.div_mul by lia.
  assert (0 < len (snd g)) as Hpos. { destruct (snd g) as [|x l]; [done|]. len_lia. }
  destruct (Z.eqb_spec (len (snd g)) 0); [lia|].
  apply (findHash_loop_spec 20 (map nameOf (snd g)) h); [lia| |done|rewrite len_map; lia| |done|lia].
  - apply Forall_map. eapply Forall_impl; [exact Hit|]. by intros it [? _].
  - split; [lia|]. rewrite len_map. split; [lia|]. intros i x Hi. split; [lia|]. intros Hge.
    apply lookup_lt_Some in Hi. rewrite length_map in Hi. unfold len in Hge. lia.
Qed.

Lemma getOffset_spec k g i it : gs !! k = Some g -> snd g !! i = Some it ->
  getOffset idx (Z.of_nat k) (Z.of_nat i) = Ok (eOffset (fst it)).
Proof.
  intros Hk Hi. destruct (group_facts k g Hk) as (_ & _ & Hit & _ & _).
  rewrite Forall_forall in Hit. destruct (Hit it) as (_ & _ & _ & Hw); [by eapply list_elem_of_lookup_2|].
  unfold getOffset. rewrite (rp_o32 _ _ Hrep), (index_map gO32 gs k g Hk). cbn [res_bind].
  rewrite Z.shiftl_mul_pow2 by lia. change (2 ^ 2) with 4. unfold gO32.
  rewrite (concat_seg 4 ltac:(lia) _ i (be_encode 4 (snd it))); [| |by rewrite list_lookup_fmap, Hi]; cycle 1.
  { apply words_len. intros x. apply be_encode_len. }
  cbn [res_bind]. rewrite be_decode_encode. change (8 * Z.of_nat 4) with 32.
  change isO64Mask with (2 ^ 31). rewrite land_pow2_testbit by lia.
  destruct Hw as [[H1 H2]|(j & Hj & H1 & H2 & Hs)].
  - rewrite H2. rewrite Z.mod_small by lia. rewrite (testbit_above 31) by lia. done.
  - rewrite H2. rewrite Z.mod_small by lia.
    assert (Z.testbit (2 ^ 31 + j) 31 = true) as ->.
    { replace (2 ^ 31 + j) with (j + 1 * 2 ^ 31) by lia. rewrite <- lor_shiftl_add by lia.
      rewrite Z.lor_spec, Z.shiftl_spec by lia. apply orb_true_r. }
    assert (Z.land (2 ^ 31 + j) (2 ^ 64 - 1 - 2 ^ 31) = j) as ->.
    { apply Z.bits_inj'. intros n Hn. rewrite Z.land_spec. replace (2 ^ 31 + j) with (j + 1 * 2 ^ 31) by lia.
      rewrite <- lor_shiftl_add by lia. rewrite Z.lor_spec, Z.shiftl_spec by lia.
      replace (2 ^ 64 - 1 - 2 ^ 31) with (Z.lxor (2 ^ 64 - 1) (2 ^ 31)) by reflexivity.
      rewrite Z.lxor_spec. replace (2 ^ 64 - 1) with (Z.ones 64) by reflexivity.
      rewrite Z.pow2_bits_eqb by lia. destruct (Z.lt_ge_cases n 31).
      - rewrite Z.ones_spec_low by lia. rewrite (Z.testbit_neg_r 1) by lia.
        destruct (Z.eqb_spec 31 n); [lia|]. by rewrite orb_false_r, andb_true_r.
      - rewrite (testbit_above 31 j) by lia. destruct (Z.eqb_spec 31 n) as [<-|Hne].
        + rewrite Z.ones_spec_low by lia. done.
        + rewrite Z.bits_above_log2 by (cbn; lia). done. }
    rewrite Hs. cbn [res_bind]. rewrite be_decode_encode. change (8 * Z.of_nat 8) with 64. by rewrite Z.mod_small by lia.
Qed.

Lemma getCRC32_spec k g i it : gs !! k = Some g -> snd g !! i = Some it ->
  getCRC32 idx (Z.of_nat k) (Z.of_nat i) = Ok (eCRC32 (fst it)).
Proof.
  intros Hk Hi. destruct (group_facts k g Hk) as (_ & _ & Hit & _ & _).
  rewrite Forall_forall in Hit. destruct (Hit it) as (_ & _ & Hc & _); [by eapply list_elem_of_lookup_2|].
  unfold getCRC32. rewrite (rp_crc _ _ Hrep), (index_map gCRC gs k g Hk). cbn [res_bind].
  rewrite Z.shiftl_mul_pow2 by lia. change (2 ^ 2) with 4. unfold gCRC.
  rewrite (concat_seg 4 ltac:(lia) _ i (be_encode 4 (eCRC32 (fst it)))); [| |by rewrite list_lookup_fmap, Hi]; cycle 1.
  { apply words_len. intros x. apply be_encode_len. }
  cbn [res_bind]. rewrite be_decode_encode. change (8 * Z.of_nat 4) with 32. by rewrite Z.mod_small by lia.
Qed.
End Lookup.

Lemma ltName_NoDup (l : list bytes) : StronglySorted ltName l -> NoDup l.
Proof.
  induction 1 as [|x l _ IH Hall]; constructor; [|done]. intros Hin. rewrite Forall_forall in Hall.
  specialize (Hall x Hin). unfold ltName in Hall. rewrite compareBytes_refl in Hall. lia.
Qed.

Lemma NoDup_map_inj {A B} (f : A -> B) l x y : NoDup (map f l) -> x ∈ l -> y ∈ l -> f x = f y -> x = y.
Proof.
  induction l as [|z l IH]; cbn [map]; intros Hnd Hx Hy E; [by apply not_elem_of_nil in Hx|].
  apply NoDup_cons in Hnd as [Hz Hnd].
  assert (forall u, u ∈ l -> f u = f z -> False) as Habs.
  { intros u Hu Eu. apply Hz. rewrite <- Eu. by apply list_elem_of_fmap_2. }
  apply elem_of_cons in Hx as [->|Hx]; apply elem_of_cons in Hy as [->|Hy]; [done| | |by apply IH].
  - exfalso. eapply Habs; [exact Hy|done].
  - exfalso. eapply Habs; [exact Hx|done].
Qed.

Lemma elem_of_gitems gs it : it ∈ gitems gs <-> exists k g i, gs !! k = Some g /\ snd g !! i = Some it.
Proof.
  unfold gitems. rewrite list_elem_of_join. split.
  - intros (l & Hit & Hl). apply list_elem_of_fmap in Hl as (g & -> & Hg).
    apply list_elem_of_lookup in Hg as [k Hk]. apply list_elem_of_lookup in Hit as [i Hi]. eauto.
  - intros (k & g & i & Hk & Hi). exists (snd g). split; [by eapply list_elem_of_lookup_2|].
    apply list_elem_of_fmap_2. by eapply list_elem_of_lookup_2.
Qed.

Section Answers.
Context (idx : MemoryIndex) (gs : list group).
Hypothesis Hrep : represents idx gs.

Lemma keys_inj k1 k2 g1 g2 : gs !! k1 = Some g1 -> gs !! k2 = Some g2 -> fst g1 = fst g2 -> g1 = g2.
Proof.
  intros H1 H2 E. eapply (NoDup_map_inj fst gs); [|by eapply list_elem_of_lookup_2|by eapply list_elem_of_lookup_2|done].
  pose proof (gk_keys _ _ (rp_groups _ _ Hrep)) as Hs. clear - Hs. induction Hs as [|x l _ IH Hall]; constructor; [|done].
  intros Hin. rewrite Forall_forall in Hall. specialize (Hall x Hin). lia.
Qed.

(** A lookup finds the item with the name, or there is none. *)
Lemma lookup_item h b : ObjectID_Bytes h !! 0%nat = Some b ->
  (exists i it, it ∈ gitems gs /\ nameOf it = ObjectID_Bytes h /\ findHashIndex idx h = Ok (Some i) /\
    getOffset idx (gpos gs (b2z b)) i = Ok (eOffset (fst it)) /\ getCRC32 idx (gpos gs (b2z b)) i = Ok (eCRC32 (fst it))) \/
  (findHashIndex idx h = Ok None /\ forall it, it ∈ gitems gs -> nameOf it <> ObjectID_Bytes h).
Proof.
  intros Hb. pose proof (findHashIndex_spec idx gs Hrep h b Hb) as Hf.
  destruct (group_at idx gs Hrep (b2z b) (b2z_range b)) as [_ Hg].
  assert (forall k g i it, gs !! k = Some g -> snd g !! i = Some it -> nameOf it = ObjectID_Bytes h -> fst g = b2z b) as Hkey.
  { intros k g i it Hk Hi En. destruct (group_facts idx gs Hrep k g Hk) as (_ & _ & Hok & _).
    rewrite Forall_forall in Hok. destruct (Hok it) as (_ & (b' & Hb' & <-) & _); [by eapply list_elem_of_lookup_2|].
    rewrite En in Hb'. congruence. }
  destruct (list_find _ gs) as [[k g]|]; destruct Hg as [Epos Hg].
  - destruct Hg as [Hk Eg]. destruct Hf as (o & Hf & Ho). rewrite Epos. destruct o as [i|].
    + left. destruct Ho as [Hi Hn]. rewrite list_lookup_fmap in Hn.
      destruct (snd g !! Z.to_nat i) as [it|] eqn:Ei; [|discriminate Hn]. injection Hn as Hn.
      exists i, it. split_and!; [apply elem_of_gitems; eauto|done|done| |].
      * rewrite <- (Z2Nat.id i) by done. by apply (getOffset_spec idx gs Hrep k g).
      * rewrite <- (Z2Nat.id i) by done. by apply (getCRC32_spec idx gs Hrep k g).
    + right. split; [done|]. intros it Hit En. apply elem_of_gitems in Hit as (k' & g' & i & Hk' & Hi).
      assert (g' = g) as -> by (eapply keys_inj; [exact Hk'|exact Hk|]; rewrite Eg; by eapply Hkey).
      apply Ho. rewrite <- En. apply list_elem_of_fmap_2. by eapply list_elem_of_lookup_2.
  - right. split; [done|]. intros it Hit En. apply elem_of_gitems in Hit as (k' & g' & i & Hk' & Hi).
    rewrite Forall_forall in Hg. apply (Hg g'); [by eapply list_elem_of_lookup_2|]. by eapply Hkey.
Qed.

Lemma lookup_results h b : ObjectID_Bytes h !! 0%nat = Some b ->
  (exists it idx', it ∈ gitems gs /\ nameOf it = ObjectID_Bytes h /\
    FindOffset idx h = Ok (i64 (eOffset (fst it)), idx') /\ FindCRC32 idx h = Ok (eCRC32 (fst it)) /\
    idx_Contains idx h = Ok true) \/
  (FindOffset idx h = Err ErrObjectNotFound /\ FindCRC32 idx h = Err ErrObjectNotFound /\ idx_Contains idx h = Ok false /\
   forall it, it ∈ gitems gs -> nameOf it <> ObjectID_Bytes h).
Proof.
  intros Hb. unfold FindOffset, FindCRC32, idx_Contains.
  rewrite (index_lookup (ObjectID_Bytes h) 0 b) by (done || lia). cbn [res_bind].
  destruct (group_at idx gs Hrep (b2z b) (b2z_range b)) as [-> _]. cbn [res_bind].
  destruct (lookup_item h b Hb) as [(i & it & Hit & En & -> & Ho & Hc)|[-> Hn]]; cbn [res_bind].
  - left. rewrite Ho, Hc. cbn [res_bind]. do 2 eexists. split_and!; [exact Hit|done|reflexivity|done|done].
  - right. done.
Qed.
End Answers.

(** ** Walking the 256 buckets

    The loops of the encoder and of the decoder run over the 256 values of the
    first byte: at each one they skip, or take the next group. *)
Section Walk.
Context (gs : list group).
Hypothesis Hkeys : StronglySorted Z.lt (map fst gs).
Hypothesis Hrange : Forall (fun g => 0 <= fst g < 256) gs.

Lemma gcount_cut (done todo : list group) j :
  Forall (fun g => fst g <= j) done -> Forall (fun g => j < fst g) todo -> gcount (done ++ todo) j = gtotal done.
Proof.
  intros H1 H2. unfold gcount, gtotal. rewrite foldr_app.
  replace (foldr _ 0 todo) with 0.
  - induction H1 as [|g done Hg _ IH]; [done|]. cbn [foldr]. rewrite IH. destruct (Z.leb_spec (fst g) j); lia.
  - induction H2 as [|g todo Hg _ IH]; [done|]. cbn [foldr]. rewrite <- IH. destruct (Z.leb_spec (fst g) j); lia.
Qed.

Lemma gpos_skip (l : list group) j : Forall (fun g => fst g <> j) l -> gpos l j = noMapping.
Proof. intros Hl. unfold gpos. by rewrite (proj2 (list_find_None _ _)). Qed.

Lemma gpos_take (done todo : list group) g : Forall (fun x => fst x < fst g) done ->
  gpos (done ++ g :: todo) (fst g) = len done.
Proof.
  intros Hd. unfold gpos. rewrite (proj2 (list_find_Some _ _ (length done) g)); [done|].
  split; [by rewrite list_lookup_middle|]. split; [done|]. intros j y Hj Hlt. rewrite lookup_app_l in Hj by done.
  rewrite Forall_forall in Hd. specialize (Hd y (list_elem_of_lookup_2 _ _ _ Hj)). cbn in *. lia.
Qed.

(** Induction along the walk: [done] are the groups below [a], [todo] the others. *)
Lemma walk_ind (P : Z -> list group -> list group -> Prop) :
  (P 256 gs []) ->
  (forall a done todo, 0 <= a < 256 -> gs = done ++ todo -> gpos gs a = noMapping -> gcount gs a = gtotal done ->
     P (a + 1) done todo -> P a done todo) ->
  (forall a done g todo, 0 <= a < 256 -> gs = done ++ g :: todo -> gpos gs a = len done -> fst g = a ->
     gcount gs a = gtotal (done ++ [g]) -> P (a + 1) (done ++ [g]) todo -> P a done (g :: todo)) ->
  P 0 [] gs.
Proof.
  intros Hend Hskip Htake.
  assert (forall n a done todo, Z.of_nat n = 256 - a -> 0 <= a -> gs = done ++ todo ->
    Forall (fun g => fst g < a) done -> Forall (fun g => a <= fst g) todo -> P a done todo) as Hall.
  { induction n as [|n IH]; intros a done todo Hn Ha E Hd Ht.
    { replace a with 256 by lia. destruct todo as [|g todo]; [rewrite app_nil_r in E; by rewrite <- E|].
      exfalso. apply Forall_cons in Ht as [Hg _]. rewrite E in Hrange. apply Forall_app in Hrange as [_ Hr].
      apply Forall_cons in Hr as [Hr _]. lia. }
    assert (Forall (fun g => a < fst g) todo \/ exists g todo', todo = g :: todo' /\ fst g = a /\ Forall (fun x => a < fst x) todo') as [Hgt|(g & todo' & -> & Eg & Hgt)].
    { destruct todo as [|g todo']; [left; constructor|]. rewrite E, map_app in Hkeys. apply StronglySorted_app_1_r in Hkeys as Hk.
      cbn [map] in Hk. inversion_clear Hk as [|? ? _ Hall]. rewrite Forall_map in Hall. cbn in Hall.
      apply Forall_cons in Ht as [Hg Ht]. destruct (Z.eq_dec (fst g) a) as [Eg|Eg].
      - right. exists g, todo'. rewrite Eg in Hall. done.
      - left. constructor; [lia|]. eapply Forall_impl; [exact Hall|]. cbn. intros; lia. }
    - apply Hskip; [lia|done| | |].
      + rewrite E. apply gpos_skip. apply Forall_app. split; eapply Forall_impl; [exact Hd| |exact Hgt|]; cbn; intros; lia.
      + rewrite E. apply gcount_cut; [|done]. eapply Forall_impl; [exact Hd|]. cbn; intros; lia.
      + apply IH; [lia|lia|done| |]; eapply Forall_impl; [exact Hd| |exact Hgt|]; cbn; intros; lia.
    - apply Htake; [lia|done| |done| |].
      + rewrite E, <- Eg. apply gpos_take. rewrite Eg. done.
      + rewrite E. replace (done ++ g :: todo') with ((done ++ [g]) ++ todo') by (by rewrite <- app_assoc).
        apply gcount_cut; [|done]. apply Forall_app. split; [|constructor; [lia|done]]. eapply Forall_impl; [exact Hd|]. cbn; intros; lia.
      + apply IH; [lia|lia|by rewrite <- app_assoc| |].
        * apply Forall_app. split; [|constructor; [lia|done]]. eapply Forall_impl; [exact Hd|]. cbn; intros; lia.
        * eapply Forall_impl; [exact Hgt|]. cbn; intros; lia. }
  apply (Hall 256%nat); [lia|lia|done|constructor|]. eapply Forall_impl; [exact Hrange|]. cbn. intros; lia.
Qed.

Lemma seqZ_step (f : Z -> Z) a : 0 <= a < 256 -> f <$> seqZ a (256 - a) = f a :: (f <$> seqZ (a + 1) (256 - (a + 1))).
Proof. intros Ha. rewrite seqZ_cons by lia. cbn [fmap list_fmap]. do 3 f_equal; lia. Qed.

Lemma seqZ_snoc (f : Z -> Z) a : 0 <= a -> (f <$> seqZ 0 a) ++ [f a] = f <$> seqZ 0 (a + 1).
Proof.
  intros Ha. rewrite (seqZ_app 0 a 1), fmap_app by lia. f_equal.
Qed.

Lemma index_mid (f : group -> bytes) done g todo : index (map f (done ++ g :: todo)) (len done) = Ok (f g).
Proof. apply index_lookup; [apply len_nonneg|]. unfold len. rewrite Nat2Z.id, map_app. cbn [map]. apply list_lookup_middle. by rewrite length_map. Qed.

Lemma mapped_not_none (done : list group) : (len done =? noMapping) = false.
Proof. pose proof (len_nonneg done). unfold noMapping. destruct (Z.eqb_spec (len done) (-1)); [lia|done]. Qed.

Lemma encodeBuckets_groups (f : group -> bytes) :
  encodeBuckets (gpos gs <$> seqZ 0 256) (map f gs) = Ok (mjoin (map f gs)).
Proof.
  apply (walk_ind (fun a done todo => encodeBuckets (gpos gs <$> seqZ a (256 - a)) (map f gs) = Ok (mjoin (map f todo)))).
  - done.
  - intros a done todo Ha _ Hp _ IH. rewrite seqZ_step by done. cbn [encodeBuckets]. by rewrite Hp.
  - intros a done g todo Ha E Hp _ _ IH. rewrite seqZ_step by done. cbn [encodeBuckets]. rewrite Hp, mapped_not_none.
    rewrite E at 1. rewrite index_mid. cbn [res_bind]. rewrite IH. done.
Qed.

Lemma set_index_mid (l1 l2 : list bytes) x y : set_index (l1 ++ x :: l2) (len l1) y = Ok (l1 ++ y :: l2).
Proof.
  rewrite set_index_ok by (rewrite len_app, len_cons; pose proof (len_nonneg l1); pose proof (len_nonneg l2); lia).
  unfold len. rewrite Nat2Z.id. f_equal. rewrite insert_app_r_alt by lia. by rewrite Nat.sub_diag.
Qed.

(** Filling slices of the right lengths. *)
Lemma readBuckets_groups (z f : group -> bytes) r : (forall g, g ∈ gs -> len (z g) = len (f g)) ->
  readBuckets (gpos gs <$> seqZ 0 256) (map z gs) (mjoin (map f gs) ++ r) = Ok (map f gs, r).
Proof.
  intros Hz.
  apply (walk_ind (fun a done todo =>
    readBuckets (gpos gs <$> seqZ a (256 - a)) (map f done ++ map z todo) (mjoin (map f todo) ++ r) = Ok (map f gs, r))).
  - cbn. by rewrite app_nil_r.
  - intros a done todo Ha _ Hp _ IH. rewrite seqZ_step by done. cbn [readBuckets]. by rewrite Hp.
  - intros a done g todo Ha E Hp _ _ IH. rewrite seqZ_step by done. cbn [readBuckets]. rewrite Hp, mapped_not_none.
    cbn [map]. rewrite <- (len_map f done).
    rewrite (index_lookup _ _ (z g)); [|apply len_nonneg|unfold len; rewrite Nat2Z.id; by rewrite list_lookup_middle].
    cbn [res_bind]. change (mjoin (f g :: map f todo)) with (f g ++ mjoin (map f todo)). rewrite <- app_assoc.
    rewrite readFull_app by (symmetry; apply Hz; rewrite E; apply elem_of_app; right; apply elem_of_cons; by left). cbn [res_bind].
    rewrite set_index_mid. cbn [res_bind]. rewrite map_app in IH. rewrite <- app_assoc in IH. exact IH.
Qed.

Lemma countBuckets_groups (f : group -> bytes) :
  countBuckets (gpos gs <$> seqZ 0 256) (map f gs) = Ok (foldr (fun g n => countO64 (f g) + n) 0 gs).
Proof.
  apply (walk_ind (fun a done todo => countBuckets (gpos gs <$> seqZ a (256 - a)) (map f gs) = Ok (foldr (fun g n => countO64 (f g) + n) 0 todo))).
  - done.
  - intros a done todo Ha _ Hp _ IH. rewrite seqZ_step by done. cbn [countBuckets]. by rewrite Hp.
  - intros a done g todo Ha E Hp _ _ IH. rewrite seqZ_step by done. cbn [countBuckets]. rewrite Hp, mapped_not_none.
    rewrite E at 1. rewrite index_mid. cbn [res_bind]. rewrite IH. done.
Qed.

Lemma gtotal_app l1 l2 : gtotal (l1 ++ l2) = gtotal l1 + gtotal l2.
Proof. unfold gtotal. rewrite foldr_app. induction l1 as [|g l IH]; cbn [foldr]; [done|]. rewrite IH. lia. Qed.

Lemma gtotal_nonneg l : 0 <= gtotal l.
Proof. induction l as [|g l IH]; cbn; [lia|]. pose proof (len_nonneg (snd g)). unfold gtotal in IH. lia. Qed.

(** The names, and the lengths of the slices to fill. *)
Lemma readNames_groups r : gtotal gs < 2 ^ 27 -> Forall (fun g => snd g <> []) gs ->
  Forall (fun g => len (gNames g) = len (snd g) * 20) gs ->
  readNames_loop 20 (gcount gs <$> seqZ 0 256) 0 [] [] [] [] (mjoin (map gNames gs) ++ r) =
    Ok (gpos gs <$> seqZ 0 256, map gNames gs, map (fun g => replicate (Z.to_nat (len (snd g) * 4)) x00) gs,
        map (fun g => replicate (Z.to_nat (len (snd g) * 4)) x00) gs, r).
Proof.
  set (z := fun g : group => replicate (Z.to_nat (len (snd g) * 4)) x00). intros Ht Hne Hl.
  pose (P := fun (a : Z) (done todo : list group) =>
    readNames_loop 20 (gcount gs <$> seqZ a (256 - a)) (gtotal done) (gpos gs <$> seqZ 0 a) (map gNames done) (map z done) (map z done)
      (mjoin (map gNames todo) ++ r) = Ok (gpos gs <$> seqZ 0 256, map gNames gs, map z gs, map z gs, r)).
  cut (P 0 [] gs); [intros H'; exact H'|]. apply walk_ind; unfold P; clear P.
  - done.
  - intros a done todo Ha E Hp Hc IH. rewrite seqZ_step by done. cbn [readNames_loop]. rewrite Hc, Z.sub_diag.
    change (u32 0 =? 0) with true. cbn match. rewrite <- Hp, seqZ_snoc by lia. exact IH.
  - intros a done g todo Ha E Hp _ Hc IH. rewrite seqZ_step by done. cbn [readNames_loop]. rewrite Hc, gtotal_app.
    assert (g ∈ gs) as Hg by (rewrite E; apply elem_of_app; right; apply elem_of_cons; by left). rewrite Forall_forall in Hne, Hl.
    pose proof (glen_total g gs Hg) as Hgt. specialize (Hne g Hg). specialize (Hl g Hg).
    assert (gtotal done + gtotal [g] - gtotal done = len (snd g)) as -> by (cbn; lia).
    assert (0 < len (snd g)) as Hpos. { destruct (snd g) as [|x l]; [done|]. len_lia. }
    rewrite (u32_small (len (snd g))) by lia. destruct (Z.eqb_spec (len (snd g)) 0); [lia|].
    change (u32 20) with 20. rewrite !u32_small by lia.
    cbn [map]. change (mjoin (gNames g :: map gNames todo)) with (gNames g ++ mjoin (map gNames todo)). rewrite <- app_assoc.
    rewrite readFull_app by done. cbn [res_bind].
    rewrite len_map, <- Hp, seqZ_snoc by lia. rewrite !map_app, gtotal_app in IH.
    replace (gtotal done + len (snd g)) with (gtotal done + gtotal [g]) by (cbn; lia). exact IH.
Qed.
End Walk.

(** ** The file *)

(** A well-formed SHA-1 identifier. *)
Definition sha1_id (s : ObjectID) : Prop := wf_id s /\ oformat s = SHA1.

Lemma sha1_bytes s : sha1_id s -> len (ObjectID_Bytes s) = 20 /\ copyBytes emptyHash (ObjectID_Bytes s) = hash s.
Proof.
  intros [Hwf Hf]. destruct (wf_bytes s Hwf) as (Hl & Hc & Hsz). rewrite Hf in Hsz. split; [|done]. rewrite Hl, Hsz. done.
Qed.

Lemma sha1_bytes_inj a b : sha1_id a -> sha1_id b -> ObjectID_Bytes a = ObjectID_Bytes b -> a = b.
Proof.
  intros Ha Hb E. destruct (sha1_bytes a Ha) as [_ H1], (sha1_bytes b Hb) as [_ H2], Ha as [_ Fa], Hb as [_ Fb].
  destruct a as [ha fa], b as [hb fb]; cbn [hash oformat] in *. rewrite E in H1. congruence.
Qed.

Lemma sha1_Write s b : sha1_id s -> len b = 20 -> sha1_id (ObjectID_Write s b).
Proof.
  intros [[Hl Hf] Hs] Hb. unfold len in Hl, Hb. change SHA256Size with 32 in Hl. split; [|done].
  assert (drop (Z.to_nat SHA1Size) (hash s) = replicate 12 x00) as Hz. { destruct Hf as [E|[_ ?]]; [|done]. rewrite Hs in E. done. }
  unfold wf_id, ObjectID_Write. cbn [hash oformat]. rewrite copyBytes_prefix by lia.
  replace (length b) with (Z.to_nat SHA1Size) by (change SHA1Size with 20; lia). rewrite Hz. split.
  - rewrite len_app, len_replicate. unfold len. change SHA256Size with 32. lia.
  - right. split; [done|]. rewrite drop_app_length' by (change SHA1Size with 20; lia). done.
Qed.

Lemma readHash_app s r : sha1_id s -> ReadFrom (ResetBySize ZeroHash 20) (ObjectID_Bytes s ++ r) = Ok (s, r).
Proof.
  intros Hs. destruct (sha1_bytes s Hs) as [Hl Hc]. unfold ReadFrom. change (ObjectID_Size (ResetBySize _ _)) with 20.
  rewrite readFull_app by done. cbn [res_bind]. change (hash (ResetBySize ZeroHash 20)) with emptyHash. rewrite Hc.
  destruct s as [h f], Hs as [_ Hf]; cbn [hash oformat] in *. by rewrite Hf.
Qed.

Lemma readUint32s_app l r : Forall (fun z => 0 <= z < 2 ^ 32) l ->
  readUint32s (length l) (flat_map WriteUint32 l ++ r) = Ok (l, r).
Proof.
  induction 1 as [|z l Hz _ IH]; [done|]. cbn [length readUint32s flat_map]. rewrite <- app_assoc, ReadUint32_app by done.
  cbn [res_bind]. rewrite IH. done.
Qed.

Lemma gcount_range gs j : 0 <= gcount gs j <= gtotal gs.
Proof.
  unfold gcount, gtotal. induction gs as [|g gs IH]; cbn [foldr]; [lia|]. pose proof (len_nonneg (snd g)).
  destruct (fst g <=? j); lia.
Qed.

Lemma high_bit w : 0 <= w < 2 ^ 32 -> Z.testbit w 31 = (2 ^ 31 <=? w).
Proof.
  intros Hw. destruct (Z.leb_spec (2 ^ 31) w) as [H'|H']; [|apply (testbit_above 31); lia].
  replace w with ((w - 2 ^ 31) + 1 * 2 ^ 31) by lia. rewrite <- lor_shiftl_add by lia.
  rewrite Z.lor_spec, Z.shiftl_spec by lia. apply orb_true_r.
Qed.

Lemma countO64_word w b : 0 <= w < 2 ^ 32 -> countO64 (be_encode 4 w ++ b) = (if 2 ^ 31 <=? w then 1 else 0) + countO64 b.
Proof.
  intros Hw. cbn [be_encode app countO64]. f_equal.
  assert ((Z.land (b2z (z2b (w / 256 / 256 / 256))) 0x80 >? 0) = (2 ^ 31 <=? w)) as ->; [|done].
  rewrite !Z.div_div by lia. change (256 * 256 * 256) with (2 ^ 24).
  assert (0 <= w / 2 ^ 24 < 256) as Hd. { split; [apply Z.div_pos; lia|apply Z.div_lt_upper_bound; lia]. }
  rewrite z2b_small by done. rewrite <- high_bit by done.
  replace (Z.testbit w 31) with (Z.testbit (w / 2 ^ 24) 7) by (rewrite <- Z.shiftr_div_pow2, Z.shiftr_spec by lia; done).
  rewrite <- land_pow2_testbit by lia. change (2 ^ 7) with 0x80.
  assert (0 <= Z.land (w / 2 ^ 24) 128) by (apply Z.land_nonneg; lia).
  destruct (Z.eqb_spec (Z.land (w / 2 ^ 24) 128) 0), (Z.land (w / 2 ^ 24) 128 >? 0) eqn:E; try done; lia.
Qed.

Lemma o64count_app l k : o64count (l ++ k) = o64count l + o64count k.
Proof. unfold o64count. rewrite foldr_app. induction l as [|x l IH]; cbn [foldr]; [done|]. rewrite IH. lia. Qed.

Lemma o64count_nonneg l : 0 <= o64count l.
Proof. unfold o64count. induction l as [|x l IH]; cbn [foldr]; [lia|]. destruct (2 ^ 31 <=? snd x); lia. Qed.

Lemma countO64_group o64 g : Forall (item_ok o64 (fst g)) (snd g) -> countO64 (gO32 g) = o64count (snd g).
Proof.
  unfold gO32. induction 1 as [|it l Hit _ IH]; [done|]. cbn [map].
  change (mjoin (be_encode 4 (snd it) :: ?l)) with (be_encode 4 (snd it) ++ mjoin l).
  rewrite countO64_word, IH; [done|]. destruct Hit as (_ & _ & _ & [[? ->]|(i & ? & ? & -> & _)]); lia.
Qed.

Lemma countO64_groups o64 gs : Forall (fun g => Forall (item_ok o64 (fst g)) (snd g)) gs ->
  foldr (fun g n => countO64 (gO32 g) + n) 0 gs = o64count (gitems gs).
Proof.
  induction 1 as [|g gs Hg _ IH]; [done|]. cbn [foldr]. rewrite gitems_cons, o64count_app, IH. by rewrite (countO64_group o64).
Qed.

Section File.
Context (sha1 : bytes -> bytes).
Hypothesis sha1_size : forall b, len (sha1 b) = 20.
Context (idx : MemoryIndex) (gs : list group).
Hypothesis Hrep : represents idx gs.
Hypothesis Hpack : sha1_id (PackfileChecksum idx).
Hypothesis Hck : sha1_id (IdxChecksum idx).

(** What [Encode] writes before the last checksum. *)
Definition idxBody : bytes :=
  idxHeader ++ WriteUint32 VersionSupported ++ flat_map WriteUint32 (Fanout idx) ++ mjoin (Names idx) ++
  mjoin (CRC32 idx) ++ mjoin (Offset32 idx) ++ Offset64 idx ++ ObjectID_Bytes (PackfileChecksum idx).

Definition idxCk : ObjectID := ObjectID_Write (IdxChecksum idx) (sha1 idxBody).

Lemma Encode_represents : Encode sha1 idx = Ok (idxBody ++ ObjectID_Bytes idxCk, with_IdxChecksum idx idxCk).
Proof.
  destruct (rp_groups _ _ Hrep) as [Hk Hr _ _ _ _ _].
  unfold Encode, encodeHashes, encodeCRC32, encodeOffsets, encodeHeader, encodeFanout.
  rewrite (rp_mapping _ _ Hrep), (rp_names _ _ Hrep), (rp_o32 _ _ Hrep), (rp_crc _ _ Hrep).
  rewrite !(encodeBuckets_groups gs Hk Hr). cbn [res_bind]. rewrite (rp_version _ _ Hrep).
  assert (forall b, (if len (Offset64 idx) >? 0 then Ok (b ++ Offset64 idx) else Ok b) = Ok (b ++ Offset64 idx) :> res bytes) as Ho.
  { intros b. destruct (Offset64 idx) as [|x l]; [by rewrite app_nil_r|]. rewrite len_cons. pose proof (len_nonneg l).
    destruct (1 + len l >? 0) eqn:E; [done|lia]. }
  rewrite Ho. cbn [res_bind]. unfold encodeChecksums. cbn [with_IdxChecksum IdxChecksum].
  assert (forall w c : bytes, w ++ ObjectID_Bytes (PackfileChecksum idx) = idxBody ->
    w ++ ObjectID_Bytes (PackfileChecksum idx) ++ c = idxBody ++ c) as Hw by (intros w c <-; by rewrite <- app_assoc).
  assert ((((((idxHeader ++ WriteUint32 VersionSupported) ++ flat_map WriteUint32 (Fanout idx)) ++ mjoin (map gNames gs)) ++
    mjoin (map gCRC gs)) ++ mjoin (map gO32 gs) ++ Offset64 idx) ++ ObjectID_Bytes (PackfileChecksum idx) = idxBody) as Eb.
  { unfold idxBody. rewrite (rp_names _ _ Hrep), (rp_o32 _ _ Hrep), (rp_crc _ _ Hrep). by rewrite <- !app_assoc. }
  rewrite Eb, (Hw _ _ Eb). done.
Qed.

(** The decoded index. *)
Definition decoded : MemoryIndex :=
  mkIdx VersionSupported (Fanout idx) (FanoutMapping idx) (Names idx) (Offset32 idx) (CRC32 idx) (Offset64 idx)
    (PackfileChecksum idx) idxCk None false 20.

Lemma readVersion_body i r : readVersion i (WriteUint32 VersionSupported ++ r) =
  Ok (mkIdx VersionSupported (Fanout i) (FanoutMapping i) (Names i) (Offset32 i) (CRC32 i) (Offset64 i)
             (PackfileChecksum i) (IdxChecksum i) (offsetHash i) (offsetHashIsFull i) (objectIDSize i), r).
Proof. unfold readVersion. by rewrite ReadUint32_app. Qed.

Lemma group_lengths g : g ∈ gs -> len (gNames g) = len (snd g) * 20 /\ len (gO32 g) = len (snd g) * 4 /\ len (gCRC g) = len (snd g) * 4.
Proof.
  intros Hg. destruct (rp_groups _ _ Hrep) as [_ _ _ Hi _ _ _]. rewrite Forall_forall in Hi. specialize (Hi g Hg).
  unfold gNames, gO32, gCRC. rewrite (concat_len 20), (concat_len 4), (concat_len 4), !len_map; [done| | |].
  - apply words_len. intros; apply be_encode_len.
  - apply words_len. intros; apply be_encode_len.
  - apply Forall_map. eapply Forall_impl; [exact Hi|]. by intros it [? _].
Qed.

Lemma Decode_body r : Decode (NewMemoryIndex 20) (idxBody ++ ObjectID_Bytes idxCk ++ r) = Ok decoded.
Proof.
  destruct (rp_groups _ _ Hrep) as [Hk Hr Hne Hi _ Ho64 Ht]. unfold Decode, idxBody, decoded.
  rewrite (rp_fanout _ _ Hrep), (rp_mapping _ _ Hrep), (rp_names _ _ Hrep), (rp_o32 _ _ Hrep), (rp_crc _ _ Hrep), <- !app_assoc.
  unfold validateHeader. rewrite readFull_app by done. cbn [res_bind]. rewrite bool_decide_eq_true_2 by done. cbn [negb res_bind].
  rewrite readVersion_body. cbn [res_bind]. unfold readFanout.
  assert (Forall (fun z => 0 <= z < 2 ^ 32) (gcount gs <$> seqZ 0 256)) as Hfan.
  { apply Forall_fmap, Forall_forall. intros j _. cbn. pose proof (gcount_range gs j). lia. }
  assert (Z.to_nat fanout = length (gcount gs <$> seqZ 0 256)) as -> by done.
  rewrite (readUint32s_app _ _ Hfan). cbn [res_bind NewMemoryIndex Fanout FanoutMapping Names Offset32 CRC32 Offset64
    PackfileChecksum IdxChecksum offsetHash offsetHashIsFull objectIDSize iVersion].
  unfold readObjectNames.
  assert (forall g, g ∈ gs -> len (replicate (Z.to_nat (len (snd g) * 4)) x00) = len (snd g) * 4) as Hz.
  { intros g Hg. rewrite len_replicate. pose proof (len_nonneg (snd g)). lia. }
  change (idSize (mkIdx _ _ _ _ _ _ _ _ _ _ _ 20)) with 20. cbn [Fanout Names Offset32 CRC32].
  rewrite (readNames_groups gs Hk Hr) by (done || (apply Forall_forall; intros g Hg; apply (group_lengths g Hg))).
  cbn [res_bind]. unfold readCRC32. cbn [FanoutMapping CRC32].
  rewrite (readBuckets_groups gs Hk Hr) by (intros g Hg; rewrite Hz by done; symmetry; apply (group_lengths g Hg)).
  cbn [res_bind]. unfold readOffsets. cbn [FanoutMapping Offset32].
  rewrite (readBuckets_groups gs Hk Hr) by (intros g Hg; rewrite Hz by done; symmetry; apply (group_lengths g Hg)).
  cbn [res_bind]. rewrite (countBuckets_groups gs Hk Hr), (countO64_groups (Offset64 idx)) by done. cbn [res_bind].
  assert (forall (r : bytes), (if o64count (gitems gs) >? 0 then readFull (o64count (gitems gs) * 8) (Offset64 idx ++ r) else Ok ([], Offset64 idx ++ r))
    = Ok (Offset64 idx, r)) as Hread.
  { intros r0. destruct (o64count (gitems gs) >? 0) eqn:E; [apply readFull_app; lia|]. pose proof (o64count_nonneg (gitems gs)).
    destruct (Offset64 idx) as [|x l]; [done|]. rewrite len_cons in Ho64. pose proof (len_nonneg l). lia. }
  cbn [Offset64]. rewrite Hread. cbn [res_bind]. unfold readChecksums. cbn [PackfileChecksum IdxChecksum].
  change (idSize (mkIdx _ _ _ _ _ _ _ _ _ _ _ 20)) with 20.
  rewrite readHash_app by done. cbn [res_bind]. rewrite readHash_app by (apply sha1_Write; [exact Hck|apply sha1_size]). cbn [res_bind].
  done.
Qed.

Lemma decoded_represents : represents decoded gs.
Proof. destruct Hrep as [H1 H2 H3 H4 H5 H6 H7 _]. by constructor. Qed.
End File.
