(* ===== verification/IdxfileProofs.v ===== *)
(** * Building, using and decoding a packfile index

    [createIndex] builds an index that represents the observed objects;
    the cache of lookups by offset stays right whatever lookups are made; iteration gives
    every entry; decoding settles on any bytes.  The properties of the component are at
    the end. *)
From stdpp Require Import sorting.
From S2P Require Import Prelude Binary GoStrings ObjectID Idxfile IdxfileTables.

(** ** Building the index *)

(** Tables of 256 elements as functions of the position. *)
Abbreviation tab f := (f <$> seqZ 0 256).

Lemma tab_ext (f g : Z -> Z) : (forall j, 0 <= j < 256 -> f j = g j) -> tab f = tab g.
Proof. intros He. apply list_fmap_ext. intros i x Hx. apply He. apply lookup_seqZ in Hx. lia. Qed.

Lemma set_tab (f : Z -> Z) k v : 0 <= k < 256 -> set_index (tab f) k v = Ok (tab (fun j => if j =? k then v else f j)).
Proof.
  intros Hk. rewrite set_index_ok by (unfold len; rewrite length_fmap, length_seqZ; lia). f_equal.
  apply list_eq. intros i. destruct (decide (i = Z.to_nat k)) as [->|Hne].
  - rewrite list_lookup_insert_eq by (rewrite length_fmap, length_seqZ; lia).
    rewrite list_lookup_fmap, lookup_seqZ_lt by lia. cbn. rewrite Z2Nat.id by lia. by rewrite Z.eqb_refl.
  - rewrite list_lookup_insert_ne by done. rewrite !list_lookup_fmap.
    destruct (Z.lt_ge_cases (Z.of_nat i) 256); [|by rewrite lookup_seqZ_ge].
    rewrite lookup_seqZ_lt by lia. cbn [fmap option_fmap option_map]. f_equal. destruct (Z.eqb_spec (0 + Z.of_nat i) k); [lia|done].
Qed.

Lemma fill_tab n : forall (f : Z -> Z) from v, 0 <= from -> from + Z.of_nat n <= 256 ->
  fillFanout n (tab f) from v = Ok (tab (fun j => if (from <=? j) && (j <? from + Z.of_nat n) then v else f j)).
Proof.
  induction n as [|n IH]; intros f from v H0 Hn; cbn [fillFanout].
  - f_equal. apply tab_ext. intros j Hj. destruct (Z.leb_spec from j), (Z.ltb_spec j (from + Z.of_nat 0)); try done; lia.
  - rewrite set_tab by lia. cbn [res_bind]. rewrite IH by lia. f_equal. apply tab_ext. intros j Hj.
    destruct (Z.leb_spec (from + 1) j), (Z.ltb_spec j (from + 1 + Z.of_nat n)), (Z.leb_spec from j),
      (Z.ltb_spec j (from + Z.of_nat (S n))), (Z.eqb_spec j from); cbn [andb]; try done; lia.
Qed.

Definition entry_ok (e : Entry) : Prop := sha1_id (eHash e) /\ 0 <= eCRC32 e < 2 ^ 32 /\ 0 <= eOffset e < 2 ^ 63.

(** The state of the loop of [createIndex] after the items of [gs]. *)
Definition lastKey (gs : list group) : Z := match last gs with Some g => fst g | None => -1 end.

Record built (gs : list group) (st : building) : Prop := {
  bt_groups : groups_ok (bOffset64 st) gs;
  bt_fan : bFanout st = tab (fun j => if j <=? bLast st then gcount gs j else 0);
  bt_map : bMapping st = tab (gpos gs);
  bt_names : bNames st = map gNames gs;
  bt_o32 : bOffset32 st = map gO32 gs;
  bt_crc : bCRC32 st = map gCRC gs;
  bt_last : bLast st = lastKey gs;
  bt_bucket : bBucket st = len gs - 1;
  bt_next : bNext64 st = o64count (gitems gs) }.

Lemma word_ok_app o64 x it : word_ok o64 it -> word_ok (o64 ++ x) it.
Proof.
  intros [?|(i & H1 & H2 & H3 & H4)]; [by left|right]. exists i. split; [done|]. split; [done|]. split; [done|].
  unfold slice in *. destruct ((0 <=? 8 * i) && (8 * i <=? 8 * i + 8) && (8 * i + 8 <=? len o64)) eqn:E; [|done].
  rewrite !andb_true_iff, !Z.leb_le in E. destruct E as [_ E]. rewrite len_app. pose proof (len_nonneg x).
  destruct (Z.leb_spec 0 (8 * i)), (Z.leb_spec (8 * i) (8 * i + 8)), (Z.leb_spec (8 * i + 8) (len o64 + len x)); cbn [andb]; try lia.
  rewrite <- H4. f_equal. unfold seg, len in *. rewrite drop_app_le by lia. rewrite take_app_le by (rewrite length_drop; lia). done.
Qed.

Lemma item_ok_app o64 x k it : item_ok o64 k it -> item_ok (o64 ++ x) k it.
Proof. intros (H1 & H2 & H3 & H4). split; [done|]. split; [done|]. split; [done|]. by apply word_ok_app. Qed.

(** The offset word of the next entry. *)
Definition nextWord (o : Entry) (o64 : bytes) (next : Z) : Z * bytes * Z :=
  if eOffset o >? 2 ^ 31 - 1 then addOffset64 (eOffset o) o64 next else (eOffset o, o64, next).

Lemma o64count_le l : o64count l <= len l.
Proof. unfold o64count. induction l as [|x l IH]; cbn [foldr]; [done|]. rewrite len_cons. destruct (2 ^ 31 <=? snd x); lia. Qed.

Lemma gtotal_items gs : len (gitems gs) = gtotal gs.
Proof. induction gs as [|g gs IH]; [done|]. rewrite gitems_cons, len_app, IH. done. Qed.

Lemma nextWord_ok o o64 next its w o64' next' :
  0 <= eOffset o < 2 ^ 63 -> next = o64count its -> len o64 = 8 * next -> next < 2 ^ 27 ->
  nextWord o o64 next = (w, o64', next') ->
  0 <= w < 2 ^ 32 /\ word_ok o64' (o, w) /\ next' = o64count (its ++ [(o, w)]) /\ len o64' = 8 * next' /\ exists x, o64' = o64 ++ x.
Proof.
  intros Ho Hn Hl Hb. unfold nextWord. rewrite o64count_app. pose proof (o64count_nonneg its) as Hpos.
  destruct (eOffset o >? 2 ^ 31 - 1) eqn:E.
  - unfold addOffset64. intros [= <- <- <-]. change (2 ^ 31 <=? snd (o, ?w)) with (2 ^ 31 <=? w). rewrite lor_shiftl_add by lia.
    cbn [o64count foldr snd]. destruct (Z.leb_spec (2 ^ 31) (next + 1 * 2 ^ 31)); [|lia].
    rewrite len_app. assert (len (WriteUint64 (eOffset o)) = 8) as E8 by apply be_encode_len. rewrite E8, u32_small by lia.
    split_and!; [lia|lia| |lia|lia|by eexists]. right. exists next. cbn [fst snd]. split_and!; try lia.
    assert (len (o64 ++ WriteUint64 (eOffset o)) = 8 * next + 8) as El by (rewrite len_app, E8; lia).
    rewrite slice_ok by lia. f_equal. unfold seg, len in *.
    rewrite drop_app_length' by lia. rewrite take_ge; [done|lia].
  - intros [= <- <- <-]. cbn [o64count foldr snd]. destruct (Z.leb_spec (2 ^ 31) (eOffset o)); [lia|].
    split_and!; [lia|lia|left; cbn [fst snd]; split; [lia|done]|lia|lia|exists []; by rewrite app_nil_r].
Qed.

Lemma ltName_first a b x y : ltName a b -> a !! 0%nat = Some x -> b !! 0%nat = Some y -> b2z x <= b2z y.
Proof.
  destruct a as [|x' a], b as [|y' b]; try done. unfold ltName. cbn. intros Hlt [= ->] [= ->].
  destruct (Z.ltb_spec (b2z x) (b2z y)); [lia|]. destruct (Z.ltb_spec (b2z y) (b2z x)); lia.
Qed.

(** The groups to extend for a key not below the last one: those before it, and the
    items it has. *)
Definition open_group (gs gs0 : list group) (key : Z) (its : list item) : Prop :=
  gs = gs0 ++ [(key, its)] /\ its <> [] \/ gs = gs0 /\ its = [] /\ lastKey gs < key.

Lemma lastKey_snoc l g : lastKey (l ++ [g]) = fst g.
Proof. unfold lastKey. by rewrite last_snoc. Qed.

Lemma open_group_exists o64 gs name key b : groups_ok o64 gs ->
  name !! 0%nat = Some b -> b2z b = key -> Forall (fun it => ltName (nameOf it) name) (gitems gs) ->
  exists gs0 its, open_group gs gs0 key its /\ lastKey gs <= key.
Proof.
  intros Hok Hb Hkey Hall. destruct gs as [|g gs0 _] using rev_ind.
  { exists [], []. assert (lastKey [] < key) by (cbn; pose proof (b2z_range b); lia). split; [|lia]. by right. }
  rewrite lastKey_snoc.
  destruct Hok as [_ _ Hne Hit _ _ _]. apply Forall_app in Hne as [_ Hne], Hit as [_ Hit]. apply Forall_inv in Hne, Hit. cbn beta in Hne, Hit.
  destruct (snd g) as [|it its] eqn:Eg; [exfalso; by apply Hne|]. apply Forall_cons in Hit as [(_ & (b' & Hb' & Ek) & _) _].
  rewrite gitems_app in Hall. apply Forall_app in Hall as [_ Hall]. rewrite gitems_cons, Eg in Hall. apply Forall_cons in Hall as [Hlt _].
  pose proof (ltName_first _ _ _ _ Hlt Hb' Hb) as Hle. rewrite Ek in Hle. destruct (Z.eq_dec (fst g) key) as [E|E].
  - exists gs0, (snd g). split; [|lia]. left. split; [|by rewrite Eg]. rewrite <- E. by destruct g.
  - exists (gs0 ++ [g]), []. split; [|lia]. right. rewrite lastKey_snoc. split; [done|]. split; [done|lia].
Qed.

Lemma sorted_last_keys (gs : list group) k : StronglySorted Z.lt (map fst gs) -> lastKey gs < k -> Forall (fun g => fst g < k) gs.
Proof.
  destruct gs as [|g gs _] using rev_ind; [constructor|]. rewrite lastKey_snoc, map_app. intros Hs Hlt.
  apply Forall_app. split; [|by repeat constructor]. apply Forall_forall. intros x Hx.
  pose proof (StronglySorted_app_1_elem_of _ _ _ (fst x) (fst g) Hs) as Hx'. cbn in Hx'.
  assert (fst x < fst g) by (apply Hx'; [by apply list_elem_of_fmap_2|set_solver]). lia.
Qed.

Section OpenGroup.
Context (o64 : bytes) (gs gs0 : list group) (key : Z) (its : list item).
Hypothesis Hok : groups_ok o64 gs.
Hypothesis Hopen : open_group gs gs0 key its.

Lemma open_items : gitems gs = gitems gs0 ++ its.
Proof.
  destruct Hopen as [[-> _]|(-> & -> & _)]; [|by rewrite app_nil_r]. rewrite gitems_app, gitems_cons. cbn. by rewrite app_nil_r.
Qed.

Lemma open_keys : Forall (fun g => fst g < key) gs0.
Proof.
  destruct Hopen as [[E _]|(E & _ & Hl)].
  - pose proof (gk_keys _ _ Hok) as Hs. rewrite E, map_app in Hs. apply Forall_forall. intros g Hg.
    eapply (StronglySorted_app_1_elem_of _ _ _ (fst g) key Hs); [by apply list_elem_of_fmap_2|set_solver].
  - rewrite <- E. apply sorted_last_keys; [apply (gk_keys _ _ Hok)|done].
Qed.

Lemma open_sorted_keys : StronglySorted Z.lt (map fst gs0).
Proof.
  pose proof (gk_keys _ _ Hok) as Hs. destruct Hopen as [[E _]|(E & _)]; [|by rewrite <- E].
  rewrite E, map_app in Hs. by apply StronglySorted_app_1_l in Hs.
Qed.

Lemma open_total : gtotal gs = gtotal gs0 + len its.
Proof. rewrite <- !gtotal_items, open_items. apply len_app. Qed.

Lemma open_Forall (P : group -> Prop) : Forall P gs -> Forall P gs0.
Proof. destruct Hopen as [[-> _]|(-> & _)]; [|done]. by intros [? _]%Forall_app. Qed.

Lemma open_its : Forall (item_ok o64 key) its.
Proof.
  pose proof (gk_items _ _ Hok) as Hi. destruct Hopen as [[E _]|(_ & -> & _)]; [|constructor].
  rewrite E in Hi. apply Forall_app in Hi as [_ Hi]. by apply Forall_inv in Hi.
Qed.

(** The counts at and below [key] before and after an item is added. *)
Lemma open_count it j : 0 <= j ->
  gcount (gs0 ++ [(key, its ++ [it])]) j = if key <=? j then gtotal gs + 1 else gcount gs j.
Proof.
  intros Hj. pose proof open_keys as Hk. destruct (Z.leb_spec key j).
  - pose proof (gcount_cut (gs0 ++ [(key, its ++ [it])]) [] j) as Hc. rewrite app_nil_r in Hc. rewrite Hc; [|apply Forall_app; split|constructor].
    + rewrite gtotal_app, open_total. cbn [gtotal foldr snd]. rewrite len_app, len_cons, len_nil. lia.
    + eapply Forall_impl; [exact Hk|]. cbn. intros; lia.
    + by repeat constructor.
  - destruct Hopen as [[-> _]|(-> & -> & _)]; unfold gcount; rewrite ?foldr_app; cbn [foldr fst].
    + by destruct (Z.leb_spec key j); [lia|].
    + by destruct (Z.leb_spec key j); [lia|].
Qed.

Lemma open_fan_gap j : lastKey gs <= j < key -> gcount gs j = gtotal gs.
Proof.
  intros Hj. pose proof (gcount_cut gs [] j) as Hc. rewrite app_nil_r in Hc. apply Hc; [|constructor].
  assert (Forall (fun g => fst g < lastKey gs + 1) gs) as Hl by (apply sorted_last_keys; [apply (gk_keys _ _ Hok)|lia]).
  eapply Forall_impl; [exact Hl|]. cbn. intros; lia.
Qed.

Lemma open_pos its' j : gpos (gs0 ++ [(key, its')]) j = if j =? key then len gs0 else gpos gs0 j.
Proof.
  destruct (Z.eqb_spec j key) as [->|Hne].
  - apply (gpos_take gs0 [] (key, its')). exact open_keys.
  - unfold gpos. destruct (list_find (fun g : group => fst g = j) gs0) as [[i g]|] eqn:E; [by rewrite (list_find_app_l _ _ _ _ _ E)|].
    rewrite list_find_app_r by done. cbn. by rewrite decide_False by done.
Qed.

Lemma open_groups_ok x it name :
  0 <= key < 256 -> item_ok (o64 ++ x) key it -> nameOf it = name ->
  Forall (fun y => ltName (nameOf y) name) (gitems gs) ->
  len (o64 ++ x) = 8 * o64count (gitems gs ++ [it]) -> gtotal gs + 1 < 2 ^ 27 ->
  groups_ok (o64 ++ x) (gs0 ++ [(key, its ++ [it])]) /\ gitems (gs0 ++ [(key, its ++ [it])]) = gitems gs ++ [it].
Proof.
  intros Hk Hit Hn Hlt Hl Ht. destruct Hok as [K1 K2 K3 K4 K5 K6 K7].
  assert (gitems (gs0 ++ [(key, its ++ [it])]) = gitems gs ++ [it]) as Ei.
  { rewrite gitems_app, open_items, <- app_assoc. rewrite gitems_cons. cbn. by rewrite app_nil_r. }
  split; [|done]. split.
  - rewrite map_app. apply StronglySorted_app_2; [|apply open_sorted_keys|by repeat constructor].
    intros a b Ha Hb. apply list_elem_of_fmap in Ha as (g & -> & Hg). apply list_elem_of_singleton in Hb as ->.
    pose proof open_keys as Hkeys. rewrite Forall_forall in Hkeys. by apply Hkeys.
  - apply Forall_app. split; [by apply open_Forall|by apply Forall_singleton].
  - apply Forall_app. split; [by apply open_Forall|]. constructor; [|done]. cbn. by destruct its.
  - apply Forall_app. split.
    + apply open_Forall. eapply Forall_impl; [exact K4|]. intros g Hg. eapply Forall_impl; [exact Hg|]. intros y. apply item_ok_app.
    + constructor; [|done]. cbn. apply Forall_app. split; [|by apply Forall_singleton]. eapply Forall_impl; [exact open_its|]. intros y. apply item_ok_app.
  - rewrite Ei, map_app. apply StronglySorted_app_2; [|done|by repeat constructor].
    intros a b Ha Hb. apply list_elem_of_fmap in Ha as (y & -> & Hy). apply list_elem_of_singleton in Hb as ->.
    rewrite Forall_forall in Hlt. rewrite Hn. by apply Hlt.
  - by rewrite Ei.
  - rewrite <- gtotal_items, Ei, len_app, gtotal_items. change (len [it]) with 1. lia.
Qed.
End OpenGroup.

Lemma appendAt_snoc (l : list bytes) a b : appendAt (l ++ [a]) (len l) b = Ok (l ++ [a ++ b]).
Proof.
  unfold appendAt. rewrite (index_lookup _ _ a); [|apply len_nonneg|unfold len; rewrite Nat2Z.id; by rewrite list_lookup_middle].
  cbn [res_bind]. apply set_index_mid.
Qed.

Lemma lastKey_range o64 gs : groups_ok o64 gs -> -1 <= lastKey gs < 256.
Proof.
  intros Hok. destruct gs as [|g gs _] using rev_ind; [cbn; lia|]. rewrite lastKey_snoc.
  pose proof (gk_range _ _ Hok) as Hr. apply Forall_app in Hr as [_ Hr]. apply Forall_inv in Hr. cbn in Hr. lia.
Qed.

Lemma gNames_snoc k its it : gNames (k, its ++ [it]) = gNames (k, its) ++ nameOf it.
Proof. unfold gNames. cbn [snd]. rewrite map_app, join_app. cbn. by rewrite app_nil_r. Qed.
Lemma gO32_snoc k its it : gO32 (k, its ++ [it]) = gO32 (k, its) ++ be_encode 4 (snd it).
Proof. unfold gO32. cbn [snd]. rewrite map_app, join_app. cbn -[be_encode]. by rewrite app_nil_r. Qed.
Lemma gCRC_snoc k its it : gCRC (k, its ++ [it]) = gCRC (k, its) ++ be_encode 4 (eCRC32 (fst it)).
Proof. unfold gCRC. cbn [snd]. rewrite map_app, join_app. cbn -[be_encode]. by rewrite app_nil_r. Qed.

(** The fanout table after an entry with first byte [key]. *)
Lemma fanout_step o64 gs gs0 key its it : groups_ok o64 gs -> open_group gs gs0 key its -> lastKey gs <= key ->
  0 <= key < 256 -> gtotal gs + 1 < 2 ^ 27 ->
  res_bind (fillFanout (Z.to_nat (key - (lastKey gs + 1))) (tab (fun j => if j <=? lastKey gs then gcount gs j else 0))
    (lastKey gs + 1) (u32 (gtotal gs))) (fun fan => set_index fan key (u32 (gtotal gs + 1))) =
  Ok (tab (fun j => if j <=? key then gcount (gs0 ++ [(key, its ++ [it])]) j else 0)).
Proof.
  intros Hok Hop Hle Hk Ht. pose proof (lastKey_range o64 gs Hok). pose proof (gtotal_nonneg gs).
  rewrite fill_tab by lia. cbn [res_bind]. rewrite set_tab by done. f_equal. apply tab_ext. intros j Hj.
  rewrite (open_count o64 gs gs0 key its Hok Hop) by lia. rewrite !u32_small by lia.
  destruct (Z.eqb_spec j key), (Z.leb_spec j key), (Z.leb_spec key j), (Z.leb_spec (lastKey gs + 1) j),
    (Z.ltb_spec j (lastKey gs + 1 + Z.of_nat (Z.to_nat (key - (lastKey gs + 1))))), (Z.leb_spec j (lastKey gs));
    cbn [andb]; try lia; try done.
  symmetry. apply (open_fan_gap o64 gs key Hok). lia.
Qed.

(** Opening the group of [key]. *)
Lemma branch_step o64 gs gs0 key its : groups_ok o64 gs -> open_group gs gs0 key its -> 0 <= key < 256 ->
  (if negb (lastKey gs =? key) then
      res_bind (set_index (tab (gpos gs)) key (len gs - 1 + 1)) (fun m =>
      Ok (m, map gNames gs ++ [[]], map gO32 gs ++ [[]], map gCRC gs ++ [[]], key, len gs - 1 + 1))
    else Ok (tab (gpos gs), map gNames gs, map gO32 gs, map gCRC gs, lastKey gs, len gs - 1)) =
  Ok (tab (gpos (gs0 ++ [(key, its)])), map gNames gs0 ++ [gNames (key, its)], map gO32 gs0 ++ [gO32 (key, its)],
      map gCRC gs0 ++ [gCRC (key, its)], key, len gs0).
Proof.
  intros Hok Hop Hk. pose proof Hop as [[-> Hne]|(-> & -> & Hlt)].
  - rewrite lastKey_snoc. cbn [fst]. rewrite Z.eqb_refl. cbn [negb]. rewrite !map_app, len_app. cbn [map].
    do 2 f_equal. change (len [(key, its)]) with 1. lia.
  - destruct (Z.eqb_spec (lastKey gs0) key) as [E|_]; [lia|]. cbn [negb]. rewrite set_tab by done. cbn [res_bind].
    replace (len gs0 - 1 + 1) with (len gs0) by lia. do 6 f_equal. apply tab_ext. intros j _.
    by rewrite (open_pos o64 gs0 gs0 key [] Hok Hop).
Qed.

Lemma createIndex_step_ok gs st o :
  built gs st -> entry_ok o -> gtotal gs + 1 < 2 ^ 27 ->
  Forall (fun it => ltName (nameOf it) (ObjectID_Bytes (eHash o))) (gitems gs) ->
  exists st' gs' w, createIndex_step st (gtotal gs) o = Ok st' /\ built gs' st' /\ gitems gs' = gitems gs ++ [(o, w)].
Proof.
  intros [Hok Hfan Hmap Hnames Ho32 Hcrc Hlast Hbucket Hnext] (Hid & Hc & Ho) Ht Hall.
  destruct (sha1_bytes _ Hid) as [Hl20 _].
  assert (exists b, ObjectID_Bytes (eHash o) !! 0%nat = Some b) as [b Hb].
  { apply lookup_lt_is_Some_2. unfold len in Hl20. lia. }
  destruct (open_group_exists _ gs _ (b2z b) b Hok Hb eq_refl Hall) as (gs0 & its & Hop & Hle).
  pose proof (b2z_range b) as Hbr. set (key := b2z b) in *.
  destruct st as [fan mp names o32 crc o64 next lst bucket]. cbn [bFanout bMapping bNames bOffset32 bCRC32 bOffset64 bNext64 bLast bBucket] in *.
  subst fan mp names o32 crc lst bucket.
  destruct (nextWord o o64 next) as [[w o64'] next'] eqn:En.
  assert (next < 2 ^ 27) as Hnb. { pose proof (o64count_le (gitems gs)). rewrite gtotal_items in *. lia. }
  destruct (nextWord_ok o o64 next (gitems gs) w o64' next' Ho Hnext) as (Hw & Hwok & Hn' & Hl' & x & ->); [|done|done|].
  { rewrite (gk_o64 _ _ Hok). lia. }
  assert (item_ok (o64 ++ x) key (o, w)) as Hit by (split; [done|]; split; [by exists b|]; split; done).
  rewrite Hn' in Hl'.
  destruct (open_groups_ok o64 gs gs0 key its Hok Hop x (o, w) _ Hbr Hit eq_refl Hall Hl' Ht) as [Hok' Ei].
  exists (mkBuilding (tab (fun j => if j <=? key then gcount (gs0 ++ [(key, its ++ [(o, w)])]) j else 0))
    (tab (gpos (gs0 ++ [(key, its ++ [(o, w)])]))) (map gNames (gs0 ++ [(key, its ++ [(o, w)])]))
    (map gO32 (gs0 ++ [(key, its ++ [(o, w)])])) (map gCRC (gs0 ++ [(key, its ++ [(o, w)])])) (o64 ++ x) next' key (len gs0)),
    (gs0 ++ [(key, its ++ [(o, w)])]), w.
  split; [|split; [|done]].
  - unfold createIndex_step. rewrite (index_lookup _ 0 b) by (done || lia). cbn [res_bind]. fold key.
    pose proof (fanout_step o64 gs gs0 key its (o, w) Hok Hop Hle Hbr Ht) as Hf.
    destruct (fillFanout _ _ _ _) as [fan| | |]; cbn [res_bind] in Hf |- *; try discriminate Hf. rewrite Hf. cbn [res_bind].
    pose proof (branch_step o64 gs gs0 key its Hok Hop Hbr) as Hbs. cbn zeta. rewrite Hbs. cbn [res_bind].
    rewrite <- (len_map gNames gs0), appendAt_snoc. cbn [res_bind]. fold (nextWord o o64 next). rewrite En.
    rewrite len_map, <- (len_map gO32 gs0), appendAt_snoc. cbn [res_bind].
    rewrite len_map, <- (len_map gCRC gs0), appendAt_snoc. cbn [res_bind]. rewrite len_map.
    rewrite !map_app. cbn [map]. rewrite gNames_snoc, gO32_snoc, gCRC_snoc, u32_small by done. cbn [fst snd].
    do 2 f_equal. apply tab_ext. intros j _. by rewrite !(open_pos o64 gs gs0 key its Hok Hop).
  - split; cbn [bFanout bMapping bNames bOffset32 bCRC32 bOffset64 bNext64 bLast bBucket]; try done.
    + by rewrite lastKey_snoc.
    + rewrite len_app. change (len [_]) with 1. lia.
    + by rewrite Ei.
Qed.

Abbreviation entryName e := (ObjectID_Bytes (eHash e)).

Lemma createIndex_loop_ok objects : forall gs st,
  built gs st -> Forall entry_ok objects -> gtotal gs + len objects < 2 ^ 27 ->
  StronglySorted ltName (map nameOf (gitems gs) ++ map (fun e => entryName e) objects) ->
  exists st' gs', createIndex_loop st (gtotal gs) objects = Ok st' /\ built gs' st' /\
    map fst (gitems gs') = map fst (gitems gs) ++ objects.
Proof.
  induction objects as [|o objects IH]; intros gs st Hb Hok Ht Hs; cbn [createIndex_loop].
  { exists st, gs. by rewrite app_nil_r. }
  apply Forall_cons in Hok as [Ho Hok]. rewrite len_cons in Ht. pose proof (len_nonneg objects).
  destruct (createIndex_step_ok gs st o Hb Ho) as (st1 & gs1 & w & -> & Hb1 & Ei); [lia| |].
  { apply Forall_forall. intros it Hit. apply (StronglySorted_app_1_elem_of _ _ _ _ _ Hs); [by apply list_elem_of_fmap_2|].
    cbn [map]. set_solver. }
  cbn [res_bind]. assert (gtotal gs1 = gtotal gs + 1) as E1.
  { rewrite <- !gtotal_items, Ei, len_app. done. }
  rewrite <- E1. destruct (IH gs1 st1 Hb1 Hok) as (st' & gs' & Hl & Hb' & E'); [lia| |].
  - rewrite Ei, map_app, <- app_assoc. exact Hs.
  - exists st', gs'. rewrite E', Ei, map_app, <- app_assoc. done.
Qed.

#[global] Instance leHash_trans : Transitive leHash.
Proof.
  intros a b c. unfold leHash, ObjectID_Compare. intros H1 H2.
  destruct (Z.eq_dec (compareBytes (entryName a) (entryName b)) 0) as [E1|E1]; [apply compareBytes_eq in E1; by rewrite E1|].
  destruct (Z.eq_dec (compareBytes (entryName b) (entryName c)) 0) as [E2|E2]; [apply compareBytes_eq in E2; by rewrite <- E2|].
  assert (compareBytes (entryName a) (entryName c) < 0); [|lia]. eapply compareBytes_lt_trans with (b := entryName b); lia.
Qed.

#[global] Instance leHash_total : Total leHash.
Proof. intros a b. unfold leHash, ObjectID_Compare. rewrite (compareBytes_antisym (entryName a) (entryName b)). lia. Qed.

Lemma sorted_strict objects : NoDup (map (fun e => entryName e) objects) -> StronglySorted leHash objects ->
  StronglySorted ltName (map (fun e => entryName e) objects).
Proof.
  intros Hnd Hs. induction Hs as [|e l _ IH Hall]; cbn [map] in *; [constructor|].
  apply NoDup_cons in Hnd as [He Hnd]. constructor; [by apply IH|]. apply Forall_map. apply Forall_forall. intros x Hx.
  rewrite Forall_forall in Hall. specialize (Hall x Hx). unfold leHash, ObjectID_Compare in Hall. unfold ltName.
  destruct (Z.eq_dec (compareBytes (entryName e) (entryName x)) 0) as [E|E]; [|lia].
  apply compareBytes_eq in E. exfalso. apply He. rewrite E. by apply (list_elem_of_fmap_2 (fun e => entryName e)).
Qed.

Lemma gcount_end gs j : Forall (fun g => fst g <= j) gs -> gcount gs j = gtotal gs.
Proof. intros Hg. pose proof (gcount_cut gs [] j Hg (Forall_nil_2 _)) as Hc. by rewrite app_nil_r in Hc. Qed.

Lemma groups_ok_nil : groups_ok [] [].
Proof. by split; try constructor. Qed.

Lemma built_nil : built [] (mkBuilding (replicate 256 0) (replicate 256 noMapping) [] [] [] [] 0 (-1) (-1)).
Proof. split; try done; [exact groups_ok_nil|..]; vm_compute; done. Qed.

Lemma createIndex_ok w : wfinished w = true -> woffset64 w = 0 -> Forall entry_ok (wobjects w) ->
  NoDup (map (fun e => entryName e) (wobjects w)) -> len (wobjects w) < 2 ^ 27 ->
  exists idx w' gs, createIndex w = Ok (idx, w') /\ represents idx gs /\ map fst (gitems gs) ≡ₚ wobjects w /\
    PackfileChecksum idx = wchecksum w /\ IdxChecksum idx = ZeroHash /\ offsetHash idx = None /\ offsetHashIsFull idx = false /\
    windex w' = Some idx.
Proof.
  intros Hf H64 Hok Hnd Hlen. unfold createIndex. rewrite Hf, H64. cbn [negb]. set (objects := merge_sort leHash (wobjects w)).
  assert (objects ≡ₚ wobjects w) as Hperm by apply merge_sort_Permutation.
  assert (len objects = len (wobjects w)) as El by (unfold len; by rewrite Hperm).
  destruct (createIndex_loop_ok objects [] _ built_nil) as (st & gs & Hl & Hb & Ei).
  - by rewrite Hperm.
  - rewrite El. cbn. lia.
  - cbn [gitems map mjoin list_join app]. apply sorted_strict; [by rewrite Hperm|]. apply StronglySorted_merge_sort; apply _.
  - change (gtotal []) with 0 in Hl. rewrite Hl. cbn [res_bind].
    assert (gtotal gs = len objects) as Etot. { rewrite <- gtotal_items, <- (len_map fst), Ei. done. }
    destruct Hb as [Hg B1 B2 B3 B4 B5 B6 B7 B8]. pose proof (lastKey_range _ _ Hg) as Hr.
    rewrite <- B6 in Hr. rewrite B1, fill_tab by lia. cbn [res_bind].
    do 2 eexists. exists gs. split; [reflexivity|]. cbn [PackfileChecksum IdxChecksum windex].
    split; [|split; [cbn in Ei; by rewrite Ei|done]].
    split; cbn [iVersion Fanout FanoutMapping Names Offset32 CRC32 Offset64]; try done.
    apply tab_ext. intros j Hj. pose proof (len_nonneg objects). rewrite u32_small by lia.
    assert (bLast st < j -> gcount gs j = len objects) as Hend.
    { intros Hlt. rewrite <- Etot. apply gcount_end. eapply Forall_impl; [apply (sorted_last_keys gs j)|]; [apply (gk_keys _ _ Hg)|lia|].
      cbn. intros; lia. }
    destruct (Z.leb_spec (bLast st + 1) j), (Z.ltb_spec j (bLast st + 1 + Z.of_nat (Z.to_nat (256 - (bLast st + 1))))),
      (Z.leb_spec j (bLast st)); cbn [andb]; lia.
Qed.

(** ** The observer *)

(** The entry of the first object with a hash. *)
Definition firstEntry (h : ObjectID) (es : list Entry) : option Entry := snd <$> list_find (fun e => eHash e = h) es.

Lemma firstEntry_snoc h es e : firstEntry h (es ++ [e]) =
  match firstEntry h es with Some x => Some x | None => if decide (eHash e = h) then Some e else None end.
Proof.
  unfold firstEntry. destruct (list_find (fun e => eHash e = h) es) as [[i x]|] eqn:E; [by rewrite (list_find_app_l _ _ _ _ _ E)|].
  rewrite list_find_app_r by done. cbn. by destruct (decide _).
Qed.

Lemma firstEntry_None h es : firstEntry h es = None <-> h ∉ map eHash es.
Proof.
  unfold firstEntry. split.
  - destruct (list_find _ es) as [?|] eqn:E; [done|]. intros _. apply list_find_None in E. rewrite Forall_forall in E.
    intros Hin. apply list_elem_of_fmap in Hin as (e & -> & He). by apply (E e).
  - intros Hn. rewrite (proj2 (list_find_None _ _)); [done|]. apply Forall_forall. intros e He E. apply Hn. rewrite <- E.
    by apply list_elem_of_fmap_2.
Qed.

Lemma firstEntry_Some h es e : firstEntry h es = Some e -> e ∈ es /\ eHash e = h.
Proof.
  unfold firstEntry. destruct (list_find _ es) as [[i x]|] eqn:E; [|done]. intros [= ->].
  apply list_find_Some in E as (H1 & H2 & _). split; [by eapply list_elem_of_lookup_2|done].
Qed.

(** What the parser of a packfile reports: its header, its objects, its checksum. *)
Definition observe (w : Writer) (e : Entry) : Writer := OnInflatedObjectContent w (eHash e) (eOffset e) (eCRC32 e).

Record observed (es : list Entry) (w : Writer) : Prop := {
  ob_added : forall h, h ∈ wadded w <-> h ∈ map eHash es;
  ob_first : forall h, firstEntry h (wobjects w) = firstEntry h es;
  ob_nodup : NoDup (map eHash (wobjects w));
  ob_sub : forall e, e ∈ wobjects w -> e ∈ es;
  ob_len : len (wobjects w) <= len es;
  ob_64 : woffset64 w = 0 }.

Lemma observe_ok es count : Forall entry_ok es -> observed es (foldl observe (OnHeader NewWriter count) es).
Proof.
  induction es as [|e es IH] using rev_ind; intros Hok; [split; cbn; [set_solver|done|constructor|done|done|done]|].
  apply Forall_app in Hok as [Hok He]. apply Forall_inv in He. destruct (IH Hok) as [A B C D L F]. clear IH.
  rewrite foldl_app. set (w := foldl observe _ es) in *. cbn [foldl]. unfold observe, OnInflatedObjectContent, Writer_Add.
  destruct (bool_decide (eHash e ∈ wadded w)) eqn:Ed.
  - apply bool_decide_eq_true in Ed. apply A in Ed. split; try done.
    + intros h. rewrite map_app, A. cbn [map]. set_solver.
    + intros h. rewrite firstEntry_snoc, B. destruct (firstEntry h es) eqn:E1; [done|]. rewrite decide_False; [done|].
      intros <-. by apply firstEntry_None in E1.
    + set_solver.
    + rewrite len_app. change (len [e]) with 1. lia.
  - apply bool_decide_eq_false in Ed. rewrite A in Ed.
    assert (mkEntry (eHash e) (eCRC32 e) (u64 (eOffset e)) = e) as ->.
    { destruct He as (_ & _ & Ho). destruct e as [eh ec eo]. cbn [eHash eCRC32 eOffset] in *. by rewrite u64_small by lia. }
    split; cbn [wadded wobjects woffset64].
    + intros h. rewrite map_app, elem_of_union, A. cbn [map]. set_solver.
    + intros h. by rewrite !firstEntry_snoc, B.
    + rewrite map_app. apply NoDup_app. split; [done|]. split; [|apply NoDup_singleton]. intros x Hx Hx'.
      apply list_elem_of_singleton in Hx'. subst x. apply Ed. apply list_elem_of_fmap in Hx as (y & -> & Hy). apply list_elem_of_fmap_2. by apply D.
    + set_solver.
    + rewrite !len_app. lia.
    + done.
Qed.

(** ** Lookups by offset *)

(** An index after any sequence of successful lookups. *)
Inductive used (idx : MemoryIndex) : MemoryIndex -> Prop :=
| used_new : used idx idx
| used_offset i h o i' : used idx i -> FindOffset i h = Ok (o, i') -> used idx i'
| used_hash i o h i' : used idx i -> FindHash i o = Ok (h, i') -> used idx i'.

Lemma represents_cache idx gs m full : represents idx gs -> represents (with_offsetHash idx m full) gs.
Proof. intros [H1 H2 H3 H4 H5 H6 H7 H8]. by split. Qed.

Lemma Write_Bytes s b : length (hash s) = 32%nat -> oformat s = SHA1 -> 20 <= len b ->
  ObjectID_Bytes (ObjectID_Write s b) = take 20 b.
Proof.
  intros Hl Hf Hb. unfold ObjectID_Bytes, ObjectID_Write, ObjectID_Size, seg, copyBytes. cbn [hash oformat]. rewrite Hf, Hl.
  change (Z.to_nat (format_Size SHA1 - 0)) with 20%nat. change (Z.to_nat 0) with 0%nat. rewrite drop_0.
  unfold len in Hb. rewrite take_app_le by (rewrite length_take; lia). by rewrite take_take.
Qed.

Lemma Write_length s b : length (hash s) = 32%nat -> length (hash (ObjectID_Write s b)) = 32%nat.
Proof. intros Hl. unfold ObjectID_Write, copyBytes. cbn [hash]. rewrite length_app, length_take, length_drop, Hl. lia. Qed.

Section Reverse.
Context (idx : MemoryIndex) (gs : list group).
Hypothesis Hrep : represents idx gs.
Hypothesis Hoff : forall it, it ∈ gitems gs -> 0 <= eOffset (fst it) < 2 ^ 63.

(** The identifiers of a reverse map name items at their offsets. *)
Definition reverse_ok (m : gmap Z ObjectID) : Prop :=
  forall o h, m !! o = Some h -> exists it, it ∈ gitems gs /\ eOffset (fst it) = o /\ ObjectID_Bytes h = nameOf it.

(** The bytes of the names from the [i]-th one on. *)
Lemma names_from k g i it : gs !! k = Some g -> snd g !! i = Some it ->
  exists rest, slice (gNames g) (Z.of_nat i * 20) (len (gNames g)) = Ok rest /\ 20 <= len rest /\ take 20 rest = nameOf it.
Proof.
  intros Hk Hi. destruct (group_facts idx gs Hrep k g Hk) as (_ & _ & Hok & _).
  assert (Forall (fun x => len x = 20) (map nameOf (snd g))) as H20.
  { apply Forall_map. eapply Forall_impl; [exact Hok|]. by intros x [? _]. }
  pose proof (concat_seg 20 ltac:(lia) (map nameOf (snd g)) i (nameOf it) H20) as Hs.
  rewrite list_lookup_fmap, Hi in Hs. specialize (Hs eq_refl). fold (gNames g) in Hs.
  apply slice_inv in Hs as (H1 & H2 & Hseg). rewrite slice_ok by lia. eexists. split; [reflexivity|].
  rewrite len_seg by lia. split; [lia|]. rewrite Hseg. unfold seg.
  replace (Z.to_nat (Z.of_nat i * 20 + 20 - Z.of_nat i * 20)) with 20%nat by lia. rewrite take_take. f_equal. lia.
Qed.

Lemma genBucket_ok k g n : gs !! k = Some g -> forall i h m,
  (i + n = length (snd g))%nat -> length (hash h) = 32%nat -> oformat h = SHA1 -> reverse_ok m ->
  exists h' m', genBucket n idx (Z.of_nat k) (Z.of_nat i) h m = Ok (h', m') /\ length (hash h') = 32%nat /\ oformat h' = SHA1 /\
    reverse_ok m' /\ (forall o, is_Some (m !! o) -> is_Some (m' !! o)) /\
    (forall j it, (i <= j)%nat -> snd g !! j = Some it -> is_Some (m' !! eOffset (fst it))).
Proof.
  intros Hk. destruct (group_facts idx gs Hrep k g Hk) as (_ & _ & _ & _ & Hlen).
  induction n as [|n IH]; intros i h m Hn Hl Hf Hm; cbn [genBucket].
  { exists h, m. split_and!; try done. intros j it Hj Hi. apply lookup_lt_Some in Hi. lia. }
  destruct (lookup_lt_is_Some_2 (snd g) i) as [it Hi]; [lia|]. destruct (names_from k g i it Hk Hi) as (rest & Hs & Hr & Hnm).
  rewrite (rp_names _ _ Hrep), (index_map gNames gs k g Hk), (rp_size _ _ Hrep). cbn [res_bind]. change (u32 20) with 20.
  unfold len in Hlen. rewrite (u32_small (Z.of_nat i * 20)) by lia. rewrite Hs. cbn [res_bind].
  rewrite (getOffset_spec idx gs Hrep k g i it Hk Hi). cbn [res_bind].
  assert (it ∈ gitems gs) as Hin by (apply elem_of_gitems; eauto). specialize (Hoff it Hin). rewrite i64_small by lia.
  rewrite u32_small by lia. replace (Z.of_nat i + 1) with (Z.of_nat (S i)) by lia.
  destruct (IH (S i) (ObjectID_Write h rest) (<[eOffset (fst it) := ObjectID_Write h rest]> m))
    as (h' & m' & E & H1 & H2 & H3 & H4 & H5); [lia|by apply Write_length|done| |].
  { intros o x. destruct (decide (eOffset (fst it) = o)) as [<-|Hne].
    - rewrite lookup_insert_eq. intros [= <-]. exists it. split_and!; try done. by rewrite Write_Bytes.
    - rewrite lookup_insert_ne by done. apply Hm. }
  exists h', m'. split_and!; try done.
  - intros o Ho. apply H4. destruct (decide (eOffset (fst it) = o)) as [<-|Hne]; [by rewrite lookup_insert_eq|by rewrite lookup_insert_ne].
  - intros j x Hj Hx. destruct (decide (j = i)) as [->|Hne]; [|by apply (H5 j); [lia|]].
    apply H4. rewrite Hi in Hx. injection Hx as <-. by rewrite lookup_insert_eq.
Qed.

Lemma genOffsetHash_ok : exists m, genOffsetHash idx = Ok (with_offsetHash idx (Some m) true) /\ reverse_ok m /\
  forall it, it ∈ gitems gs -> is_Some (m !! eOffset (fst it)).
Proof.
  destruct (rp_groups _ _ Hrep) as [Hk Hr _ _ _ _ _]. unfold genOffsetHash. rewrite (rp_fanout _ _ Hrep), (rp_mapping _ _ Hrep).
  pose (P := fun (a : Z) (done todo : list group) => forall h m, length (hash h) = 32%nat -> oformat h = SHA1 -> reverse_ok m ->
    (forall it, it ∈ gitems done -> is_Some (m !! eOffset (fst it))) ->
    exists m', genOffsetHash_loop idx (gcount gs <$> seqZ a (256 - a)) (gpos gs <$> seqZ a (256 - a)) (gtotal done) h m = Ok m' /\
      reverse_ok m' /\ forall it, it ∈ gitems gs -> is_Some (m' !! eOffset (fst it))).
  assert (P 0 [] gs) as HP.
  { apply (walk_ind gs Hk Hr); unfold P; clear P.
    - intros h m _ _ Hm Hall. by exists m.
    - intros a done todo Ha _ Hp Hc IH h m Hl Hf Hm Hall. rewrite (seqZ_step (gcount gs) a Ha), (seqZ_step (gpos gs) a Ha). cbn [genOffsetHash_loop].
      rewrite Hc, Z.sub_diag. cbn [Z.to_nat genBucket res_bind]. rewrite Z.max_id. by apply (IH h m).
    - intros a done g todo Ha E Hp _ Hc IH h m Hl Hf Hm Hall. rewrite (seqZ_step (gcount gs) a Ha), (seqZ_step (gpos gs) a Ha). cbn [genOffsetHash_loop].
      assert (gs !! length done = Some g) as Hg by (rewrite E; by apply list_lookup_middle).
      rewrite Hc, gtotal_app. replace (gtotal done + gtotal [g] - gtotal done) with (len (snd g)) by (cbn; lia).
      unfold len at 1. rewrite Nat2Z.id, Hp.
      destruct (genBucket_ok (length done) g (length (snd g)) Hg 0 h m) as (h' & m' & E' & H1 & H2 & H3 & H4 & H5); [lia|done|done|done|].
      change (Z.of_nat 0) with 0 in E'. unfold len at 1. rewrite E'. cbn [res_bind]. replace (Z.max _ _) with (gtotal (done ++ [g])).
      2: { rewrite gtotal_app. pose proof (gtotal_nonneg [g]). lia. }
      apply (IH h' m' H1 H2 H3). intros it Hit. rewrite gitems_app, gitems_cons in Hit. cbn in Hit. rewrite app_nil_r in Hit.
      apply elem_of_app in Hit as [Hit|Hit]; [by apply H4, Hall|]. apply list_elem_of_lookup in Hit as [j Hj]. by apply (H5 j); [lia|]. }
  destruct (HP ZeroHash ∅) as (m & E & H1 & H2); [done|done|by intros ? ?|by intros ? ?%not_elem_of_nil|].
  change (gtotal []) with 0 in E. change (256 - 0) with 256 in E. rewrite E. cbn [res_bind]. by exists m.
Qed.
End Reverse.

(** ** Indexes in use *)
Section Used.
Context (gs : list group).
Hypothesis Hoff : forall it, it ∈ gitems gs -> 0 <= eOffset (fst it) < 2 ^ 63.

(** The cache of the reverse lookups is correct, and complete when it says so. *)
Record cached (idx : MemoryIndex) : Prop := {
  ch_rep : represents idx gs;
  ch_ok : forall m, offsetHash idx = Some m -> reverse_ok gs m;
  ch_full : offsetHashIsFull idx = true -> exists m, offsetHash idx = Some m /\
    forall it, it ∈ gitems gs -> is_Some (m !! eOffset (fst it)) }.

Lemma cached_FindOffset idx h o idx' : cached idx -> FindOffset idx h = Ok (o, idx') -> cached idx'.
Proof.
  intros [Hr Hm Hfull] Hf.
  assert (exists b, ObjectID_Bytes h !! 0%nat = Some b) as [b Hb].
  { unfold FindOffset in Hf. inv_bind Hf. apply index_inv in E as [_ E]. eauto. }
  destruct (lookup_results idx gs Hr h b Hb) as [(it & i' & Hit & Hn & Hf' & _)|(Hf' & _)]; [|congruence].
  pose proof (Hoff it Hit) as Ho. rewrite i64_small in Hf' by lia. rewrite Hf in Hf'. injection Hf' as -> <-.
  unfold FindOffset in Hf. inv_bind Hf. inv_bind Hf. inv_bind Hf. destruct v1 as [i|]; [|discriminate Hf]. inv_bind Hf.
  destruct (offsetHashIsFull idx) eqn:Ef; cbn [negb] in Hf; injection Hf as E3 <-; [split; [done|done|by intros _; apply Hfull]|].
  split; [by apply represents_cache| |done]. intros m [= <-]. intros o x. rewrite E3.
  destruct (decide (eOffset (fst it) = o)) as [<-|Hne].
  - rewrite lookup_insert_eq. intros [= <-]. eauto.
  - rewrite lookup_insert_ne by done. destruct (offsetHash idx) as [m|] eqn:Em; cbn [default]; [by apply (Hm m)|by rewrite lookup_empty].
Qed.

(** [FindHash] names an item at the offset, or there is none. *)
Lemma cached_FindHash idx o : cached idx ->
  (exists h idx' it, FindHash idx o = Ok (h, idx') /\ cached idx' /\ it ∈ gitems gs /\ eOffset (fst it) = o /\
     ObjectID_Bytes h = nameOf it) \/
  (FindHash idx o = Err ErrObjectNotFound /\ forall it, it ∈ gitems gs -> eOffset (fst it) <> o).
Proof.
  intros Hc. pose proof Hc as [Hr Hm Hfull]. unfold FindHash.
  destruct (offsetHash idx ≫= _) as [h|] eqn:E.
  { left. apply bind_Some in E as (m & Em & E). destruct (Hm m Em o h E) as (it & ? & ? & ?). by exists h, idx, it. }
  destruct (negb (offsetHashIsFull idx) || bool_decide (offsetHash idx = None)) eqn:Eg.
  - destruct (genOffsetHash_ok idx gs Hr Hoff) as (m & -> & Hm' & Hall). cbn [res_bind with_offsetHash offsetHash mbind option_bind].
    destruct (m !! o) as [h|] eqn:Eo.
    + left. destruct (Hm' o h Eo) as (it & ? & ? & ?). do 2 eexists. exists it. split_and!; try done.
      split; [by apply represents_cache|by intros ? [= <-]|]. intros _. exists m. done.
    + right. split; [done|]. intros it Hit <-. destruct (Hall it Hit) as [? ?]. congruence.
  - cbn [res_bind]. rewrite E. right. split; [done|]. intros it Hit Eo. apply orb_false_iff in Eg as [Ef _].
    apply negb_false_iff in Ef. destruct (Hfull Ef) as (m & Em & Hall). rewrite Em in E. cbn in E.
    destruct (Hall it Hit) as [? ?]. congruence.
Qed.

Lemma cached_used idx idx' : cached idx -> used idx idx' -> cached idx'.
Proof.
  intros Hc. induction 1 as [|i h o i' _ IH Hf|i o h i' _ IH Hf]; [done|by eapply cached_FindOffset|].
  destruct (cached_FindHash i o IH) as [(h' & i'' & it & Hf' & Hc' & _)|[Hf' _]]; rewrite Hf in Hf'; [|done].
  injection Hf' as -> ->. done.
Qed.
End Used.

(** ** The index of a pack *)

(** What an index that was ever used answers, for the objects [es] of a pack in the
    order of the pack: the entry of the first object with the hash. *)
Definition answers (idx : MemoryIndex) (es : list Entry) : Prop :=
  forall idx' h, used idx idx' -> sha1_id h ->
  match firstEntry h es with
  | Some e => (exists idx'', FindOffset idx' h = Ok (eOffset e, idx'')) /\ FindCRC32 idx' h = Ok (eCRC32 e) /\
      idx_Contains idx' h = Ok true
  | None => FindOffset idx' h = Err ErrObjectNotFound /\ FindCRC32 idx' h = Err ErrObjectNotFound /\ idx_Contains idx' h = Ok false
  end.

(** What it answers on offsets: an identifier that reads as that of an object stored there. *)
Definition answers_offsets (idx : MemoryIndex) (es : list Entry) : Prop :=
  forall idx' o, used idx idx' ->
  (exists h idx'' e, FindHash idx' o = Ok (h, idx'') /\ firstEntry (eHash e) es = Some e /\ eOffset e = o /\
     ObjectID_Bytes h = ObjectID_Bytes (eHash e)) \/
  (FindHash idx' o = Err ErrObjectNotFound /\ forall e, firstEntry (eHash e) es = Some e -> eOffset e <> o).

(** The entries of an index. *)
Definition holds (idx : MemoryIndex) (gs : list group) (es : list Entry) : Prop :=
  cached gs idx /\ Forall (fun it => entry_ok (fst it)) (gitems gs) /\
  forall e, e ∈ map fst (gitems gs) <-> firstEntry (eHash e) es = Some e.

Lemma sha1_first h : sha1_id h -> exists b, ObjectID_Bytes h !! 0%nat = Some b.
Proof. intros Hh. destruct (sha1_bytes h Hh) as [Hl _]. apply lookup_lt_is_Some_2. unfold len in Hl. lia. Qed.

Lemma holds_offsets idx gs es : holds idx gs es -> forall it, it ∈ gitems gs -> 0 <= eOffset (fst it) < 2 ^ 63.
Proof. intros (_ & Hok & _) it Hit. rewrite Forall_forall in Hok. by destruct (Hok it Hit) as (_ & _ & ?). Qed.

Lemma holds_answers idx gs es : holds idx gs es -> answers idx es.
Proof.
  intros Hh idx' h Hu Hid. pose proof (holds_offsets _ _ _ Hh) as Hoff. destruct Hh as (Hc & Hok & Hall).
  pose proof (cached_used gs Hoff idx idx' Hc Hu) as Hc'. destruct (sha1_first h Hid) as [b Hb]. rewrite Forall_forall in Hok.
  destruct (lookup_results idx' gs (ch_rep _ _ Hc') h b Hb) as [(it & i' & Hit & Hn & H1 & H2 & H3)|(H1 & H2 & H3 & Hn)].
  - destruct (Hok it Hit) as (Hid' & _ & Ho). assert (eHash (fst it) = h) as Eh by (apply sha1_bytes_inj; done).
    assert (firstEntry h es = Some (fst it)) as ->. { rewrite <- Eh. apply Hall. by apply list_elem_of_fmap_2. }
    rewrite i64_small in H1 by lia. eauto.
  - destruct (firstEntry h es) as [e|] eqn:E; [|done]. exfalso. pose proof (firstEntry_Some _ _ _ E) as [_ Eh].
    rewrite <- Eh in E. apply Hall in E. apply list_elem_of_fmap in E as (it & -> & Hit). apply (Hn it Hit). unfold nameOf. by rewrite Eh.
Qed.

Lemma holds_answers_offsets idx gs es : holds idx gs es -> answers_offsets idx es.
Proof.
  intros Hh idx' o Hu. pose proof (holds_offsets _ _ _ Hh) as Hoff. destruct Hh as (Hc & _ & Hall).
  pose proof (cached_used gs Hoff idx idx' Hc Hu) as Hc'.
  destruct (cached_FindHash gs Hoff idx' o Hc') as [(h & i & it & Hf & _ & Hit & Eo & Eb)|[Hf Hn]].
  - left. exists h, i, (fst it). split_and!; try done. apply Hall. by apply list_elem_of_fmap_2.
  - right. split; [done|]. intros e He. apply Hall in He. apply list_elem_of_fmap in He as (it & -> & Hit). by apply Hn.
Qed.

(** The writer after it observed a pack of the objects [es] with a checksum. *)
Definition indexPack (count : Z) (es : list Entry) (checksum : ObjectID) : res Writer :=
  OnFooter (foldl observe (OnHeader NewWriter count) es) checksum.

Lemma firstEntry_hash es e l : (forall h, firstEntry h l = firstEntry h es) -> NoDup (map eHash l) ->
  (e ∈ l <-> firstEntry (eHash e) es = Some e).
Proof.
  intros Hf Hnd. rewrite <- Hf. split.
  - intros He. destruct (firstEntry (eHash e) l) as [x|] eqn:E.
    + apply firstEntry_Some in E as [Hx Ex]. f_equal. by apply (NoDup_map_inj eHash l).
    + apply firstEntry_None in E. exfalso. apply E. by apply list_elem_of_fmap_2.
  - intros E. by apply firstEntry_Some in E as [? _].
Qed.

Lemma indexPack_ok count es checksum : Forall entry_ok es -> len es < 2 ^ 27 ->
  exists w idx gs, indexPack count es checksum = Ok w /\ Writer_Index w = Ok (idx, w) /\ holds idx gs es /\
    PackfileChecksum idx = checksum /\ IdxChecksum idx = ZeroHash.
Proof.
  intros Hok Hlen. unfold indexPack, OnFooter. set (w := foldl observe _ es).
  destruct (observe_ok es count Hok) as [_ Hfirst Hnd Hsub Hle H64]. fold w in Hfirst, Hnd, Hsub, Hle, H64.
  assert (Forall entry_ok (wobjects w)) as Hok'. { rewrite Forall_forall in Hok |- *. auto. }
  destruct (createIndex_ok (mkWriter (wcount w) checksum (wobjects w) (woffset64 w) true (windex w) (wadded w)))
    as (idx & w' & gs & Hc & Hr & Hp & H1 & H2 & H3 & H4 & H5); cbn [wfinished woffset64 wobjects]; [done|done|done| |lia|].
  { clear - Hnd Hok'. induction (wobjects w) as [|e l IH]; cbn [map] in *; [constructor|].
    apply NoDup_cons in Hnd as [He Hnd]. apply Forall_cons in Hok' as [Hid Hok']. constructor; [|by apply IH].
    intros Hin. apply list_elem_of_fmap in Hin as (x & Ex & Hx). apply He. rewrite Forall_forall in Hok'.
    apply sha1_bytes_inj in Ex; [|apply Hid|by apply (Hok' x Hx)]. rewrite Ex. by apply list_elem_of_fmap_2. }
  rewrite Hc. cbn [res_bind]. exists w', idx, gs. split; [done|]. unfold Writer_Index. rewrite H5.
  split; [done|]. split; [|done]. cbn [wobjects] in Hp. split; [|split].
  - split; [done|by rewrite H3|by rewrite H4].
  - rewrite Forall_forall. intros it Hit. rewrite Forall_forall in Hok'. apply Hok'. rewrite <- Hp. by apply list_elem_of_fmap_2.
  - intros e. rewrite Hp. by apply firstEntry_hash.
Qed.

Lemma sha1_ZeroHash : sha1_id ZeroHash.
Proof. split; [|done]. split; [done|]. right. done. Qed.

(** ** Iteration *)

(** What an entry says: the bytes of its hash, its checksum and its offset. *)
Definition view (e : Entry) : bytes * Z * Z := (ObjectID_Bytes (eHash e), eCRC32 e, eOffset e).

Section Iterate.
Context (idx : MemoryIndex) (gs : list group).
Hypothesis Hrep : represents idx gs.

Lemma fanout_at j : 0 <= j < 256 -> index (Fanout idx) j = Ok (gcount gs j).
Proof.
  intros Hj. rewrite (rp_fanout _ _ Hrep). apply index_lookup; [lia|]. rewrite list_lookup_fmap, lookup_seqZ_lt by lia.
  cbn. do 2 f_equal. lia.
Qed.

Lemma key_facts done g todo : gs = done ++ g :: todo ->
  0 <= fst g < 256 /\ Forall (fun x => fst x < fst g) done /\ Forall (fun x => fst g < fst x) todo /\ snd g <> [].
Proof.
  intros E. destruct (rp_groups _ _ Hrep) as [Hk Hr Hne _ _ _ _]. rewrite E in Hr, Hne, Hk.
  apply Forall_app in Hr as [_ Hr]. apply Forall_inv in Hr. apply Forall_app in Hne as [_ Hne]. apply Forall_inv in Hne.
  rewrite map_app in Hk. cbn [map] in Hk. split_and!; try apply Hr; try done.
  - apply Forall_forall. intros x Hx. eapply (StronglySorted_app_1_elem_of _ _ _ (fst x) (fst g) Hk); [by apply list_elem_of_fmap_2|set_solver].
  - apply StronglySorted_app_1_r in Hk. inversion_clear Hk as [|? ? _ Hall]. by rewrite Forall_map in Hall.
Qed.

(** The groups cut at [j]. *)
Lemma count_at done todo j : gs = done ++ todo -> Forall (fun g => fst g <= j) done -> Forall (fun g => j < fst g) todo ->
  gcount gs j = gtotal done.
Proof. intros ->. apply gcount_cut. Qed.

Lemma next_take done g todo i it fuel : gs = done ++ g :: todo -> snd g !! i = Some it ->
  exists e, EntryIter_Next (S fuel) idx (mkEntryIter (gtotal done + Z.of_nat i) (fst g) (Z.of_nat i)) =
    Ok (e, mkEntryIter (gtotal done + Z.of_nat i + 1) (fst g) (Z.of_nat i + 1)) /\ view e = view (fst it).
Proof.
  intros E Hi. destruct (key_facts done g todo E) as (Hr & Hd & Ht & _).
  assert (gs !! length done = Some g) as Hk by (rewrite E; by apply list_lookup_middle).
  cbn [EntryIter_Next itFirst itTotal itSecond]. destruct (fst g >=? fanout) eqn:Ef; [unfold fanout in Ef; lia|].
  rewrite fanout_at by done. cbn [res_bind].
  assert (gcount gs (fst g) = gtotal done + len (snd g)) as ->.
  { replace (gtotal done + len (snd g)) with (gtotal (done ++ [g])) by (rewrite gtotal_app; cbn; lia).
    apply (count_at _ todo); [by rewrite E, <- app_assoc| |done]. apply Forall_app. split; [|by apply Forall_singleton].
    eapply Forall_impl; [exact Hd|]. cbn; intros; lia. }
  apply lookup_lt_Some in Hi as Hlt. destruct (gtotal done + Z.of_nat i >=? gtotal done + len (snd g)) eqn:Eg; [unfold len in Eg; lia|].
  destruct (group_at idx gs Hrep (fst g) Hr) as [-> _]. cbn [res_bind].
  assert (gpos gs (fst g) = Z.of_nat (length done)) as -> by (rewrite E; by apply gpos_take).
  rewrite (rp_names _ _ Hrep), (index_map gNames gs _ g Hk), (rp_size _ _ Hrep). cbn [res_bind].
  destruct (names_from idx gs Hrep _ g i it Hk Hi) as (rest & -> & Hl & Hn). cbn [res_bind].
  rewrite (getOffset_spec idx gs Hrep _ g i it Hk Hi), (getCRC32_spec idx gs Hrep _ g i it Hk Hi). cbn [res_bind].
  eexists. split; [reflexivity|]. unfold view. cbn [eHash eCRC32 eOffset]. by rewrite Write_Bytes, Hn.
Qed.

Lemma next_skip fuel n : forall a total second,
  0 <= a -> a + Z.of_nat n <= 256 -> (forall j, a <= j < a + Z.of_nat n -> gcount gs j <= total) ->
  EntryIter_Next (n + fuel) idx (mkEntryIter total a second) =
  EntryIter_Next fuel idx (mkEntryIter total (a + Z.of_nat n) (if n is O then second else 0)).
Proof.
  induction n as [|n IH]; intros a total second Ha Hn Hc; [by rewrite Z.add_0_r|].
  cbn [Nat.add EntryIter_Next itFirst itTotal itSecond]. destruct (a >=? fanout) eqn:Ef; [unfold fanout in Ef; lia|].
  rewrite fanout_at by lia. cbn [res_bind]. specialize (Hc a ltac:(lia)) as Hc0.
  destruct (total >=? gcount gs a) eqn:Et; [|lia]. rewrite IH; [|lia|lia|intros; apply Hc; lia].
  replace (a + 1 + Z.of_nat n) with (a + Z.of_nat (S n)) by lia. by destruct n.
Qed.

(** The items an iterator still has to give. *)
Inductive remaining : idxfileEntryIter -> list item -> Prop :=
| rem_in done g todo i : gs = done ++ g :: todo -> (i < length (snd g))%nat ->
    remaining (mkEntryIter (gtotal done + Z.of_nat i) (fst g) (Z.of_nat i)) (drop i (snd g) ++ gitems todo)
| rem_between done todo a second : gs = done ++ todo -> 0 <= a -> Forall (fun g => fst g <= a) done ->
    Forall (fun g => a <= fst g) todo -> second = 0 \/ Forall (fun g => a < fst g) todo ->
    remaining (mkEntryIter (gtotal done) a second) (gitems todo).

Lemma next_in done g todo i it l fuel : gs = done ++ g :: todo -> drop i (snd g) ++ gitems todo = it :: l -> (i < length (snd g))%nat ->
  exists e st', EntryIter_Next (S fuel) idx (mkEntryIter (gtotal done + Z.of_nat i) (fst g) (Z.of_nat i)) = Ok (e, st') /\
    view e = view (fst it) /\ remaining st' l.
Proof.
  intros E El Hi. destruct (lookup_lt_is_Some_2 (snd g) i Hi) as [it' Hi']. rewrite (drop_S _ _ _ Hi') in El. cbn in El. injection El as -> El.
  destruct (next_take done g todo i it fuel E Hi') as (e & He & Hv). exists e. eexists. split; [exact He|]. split; [done|]. subst l.
  destruct (decide (S i < length (snd g))%nat) as [Hlt|Hge].
  - replace (gtotal done + Z.of_nat i + 1) with (gtotal done + Z.of_nat (S i)) by lia.
    replace (Z.of_nat i + 1) with (Z.of_nat (S i)) by lia. by constructor.
  - rewrite drop_ge by lia. cbn. destruct (key_facts done g todo E) as (Hr & Hd & Ht & _).
    replace (gtotal done + Z.of_nat i + 1) with (gtotal (done ++ [g])) by (rewrite gtotal_app; cbn; unfold len; lia).
    apply rem_between; [by rewrite E, <- app_assoc|lia| | |by right].
    + apply Forall_app. split; [|by apply Forall_singleton]. eapply Forall_impl; [exact Hd|]. cbn; intros; lia.
    + eapply Forall_impl; [exact Ht|]. cbn; intros; lia.
Qed.

Lemma next_ok st it l : remaining st (it :: l) ->
  exists e st', EntryIter_Next 257 idx st = Ok (e, st') /\ view e = view (fst it) /\ remaining st' l.
Proof.
  intros Hrem. inversion Hrem as [done g todo i E Hi Est El|done todo a second E Ha Hd Ht Hs Est El].
  { by apply (next_in done g todo i). }
  destruct todo as [|g todo]; [discriminate El|]. destruct (key_facts done g todo E) as (Hr & _ & Hgt & Hne).
  apply Forall_cons in Ht as [Hg Ht]. set (n := Z.to_nat (fst g - a)).
  replace 257%nat with (n + S (256 - n))%nat by lia.
  rewrite next_skip; [|lia|lia|].
  2: { intros j Hj. rewrite (count_at done (g :: todo) j E); [lia| |].
       - eapply Forall_impl; [exact Hd|]. cbn; intros; lia.
       - constructor; [lia|]. eapply Forall_impl; [exact Hgt|]. cbn; intros; lia. }
  replace (a + Z.of_nat n) with (fst g) by lia.
  assert ((if n is O then second else 0) = 0) as ->.
  { destruct n eqn:En; [|done]. destruct Hs as [->|Hs]; [done|]. apply Forall_cons in Hs as [Hs _]. lia. }
  rewrite <- (Z.add_0_r (gtotal done)). change 0 with (Z.of_nat 0). apply (next_in done g todo 0); [done|by rewrite drop_0|].
  destruct (snd g); [done|cbn; lia].
Qed.

Lemma collect_ok l : forall st, remaining st l ->
  exists es, collectEntries (length l) idx st = Ok es /\ map view es = map (fun it => view (fst it)) l.
Proof.
  induction l as [|it l IH]; intros st Hst; cbn [length collectEntries]; [by exists []|].
  destruct (next_ok st it l Hst) as (e & st' & -> & Hv & Hst'). cbn [res_bind].
  destruct (IH st' Hst') as (es & -> & Hm). cbn [res_bind]. exists (e :: es). cbn [map]. by rewrite Hv, Hm.
Qed.

Lemma Count_ok : Count idx = Ok (gtotal gs).
Proof.
  unfold Count. change (fanout - 1) with 255. rewrite fanout_at by lia. f_equal. apply gcount_end.
  eapply Forall_impl; [exact (gk_range _ _ (rp_groups _ _ Hrep))|]. cbn; intros; lia.
Qed.

#[local] Instance leOffset_trans : Transitive leOffset.
Proof. intros a b c. unfold leOffset. lia. Qed.
#[local] Instance leOffset_total : Total leOffset.
Proof. intros a b. unfold leOffset. lia. Qed.

Lemma Entries_ok : exists es, collectEntries (length (gitems gs)) idx Entries = Ok es /\ map view es = map (fun it => view (fst it)) (gitems gs).
Proof.
  apply collect_ok. unfold Entries. apply (rem_between [] gs 0 0); [done|lia|done| |by left].
  eapply Forall_impl; [exact (gk_range _ _ (rp_groups _ _ Hrep))|]. cbn; intros; lia.
Qed.

Lemma EntriesByOffset_ok : exists es, EntriesByOffset idx = Ok (mkOffsetIter es 0) /\ StronglySorted leOffset es /\
  map view es ≡ₚ map (fun it => view (fst it)) (gitems gs).
Proof.
  destruct Entries_ok as (es & He & Hv). unfold EntriesByOffset. rewrite Count_ok. cbn [res_bind].
  rewrite <- gtotal_items. unfold len. rewrite Nat2Z.id, He. cbn [res_bind]. eexists. split; [reflexivity|]. split.
  - apply StronglySorted_merge_sort; apply _.
  - rewrite <- Hv. by rewrite merge_sort_Permutation.
Qed.
End Iterate.

(** The entries [Next] gives before it says [EOF]. *)
Fixpoint drainOffsets (fuel : nat) (i : idxfileEntryOffsetIter) : res (list Entry) :=
  match fuel with
  | O => NoFuel
  | S fuel =>
    match OffsetIter_Next i with
    | Ok (e, i) => let* es := drainOffsets fuel i in Ok (e :: es)
    | Err EOF => Ok []
    | Err e => Err e
    | Panic => Panic
    | NoFuel => NoFuel
    end
  end.

Lemma drainOffsets_ok es : forall done, drainOffsets (S (length es)) (mkOffsetIter (done ++ es) (len done)) = Ok es.
Proof.
  induction es as [|e es IH]; intros done; cbn [length].
  - cbn [drainOffsets]. unfold OffsetIter_Next. cbn [itPos itEntries]. rewrite app_nil_r.
    destruct (len done >=? len done) eqn:E; [done|lia].
  - remember (S (length es)) as fuel. cbn [drainOffsets]. unfold OffsetIter_Next. cbn [itPos itEntries].
    pose proof (len_nonneg es). destruct (len done >=? len (done ++ e :: es)) eqn:E; [rewrite len_app, len_cons in E; lia|].
    rewrite (index_lookup _ _ e); [|apply len_nonneg|unfold len; rewrite Nat2Z.id; by apply list_lookup_middle]. cbn [res_bind].
    specialize (IH (done ++ [e])). rewrite <- app_assoc in IH. rewrite len_app in IH. change (len [e]) with 1 in IH. cbn [app] in IH. by rewrite IH.
Qed.

(** The pipeline with its intermediate results, for the properties below. *)
Lemma pipeline sha1 count es checksum rest :
  (forall b, len (sha1 b) = 20) -> Forall entry_ok es -> len es < 2 ^ 27 -> sha1_id checksum ->
  exists w idx gs,
    indexPack count es checksum = Ok w /\ Writer_Index w = Ok (idx, w) /\ holds idx gs es /\
    Encode sha1 idx = Ok (idxBody idx ++ ObjectID_Bytes (idxCk sha1 idx), with_IdxChecksum idx (idxCk sha1 idx)) /\
    Decode (NewMemoryIndex SHA1Size) ((idxBody idx ++ ObjectID_Bytes (idxCk sha1 idx)) ++ rest) = Ok (decoded sha1 idx) /\
    holds (decoded sha1 idx) gs es /\ PackfileChecksum idx = checksum /\ IdxChecksum idx = ZeroHash.
Proof.
  intros Hsha Hok Hlen Hck. destruct (indexPack_ok count es checksum Hok Hlen) as (w & idx & gs & H1 & H2 & H3 & H4 & H5).
  pose proof H3 as (Hc & Hok' & Hall). rewrite <- H4 in Hck. assert (sha1_id (IdxChecksum idx)) as Hz by (rewrite H5; exact sha1_ZeroHash).
  exists w, idx, gs. split; [done|]. split; [done|]. split; [done|].
  split; [apply (Encode_represents sha1 idx gs (ch_rep _ _ Hc))|]. split.
  - rewrite <- app_assoc. apply (Decode_body sha1 Hsha idx gs (ch_rep _ _ Hc) Hck Hz).
  - split; [|done]. split; [|done]. split; [|done|done]. apply (decoded_represents sha1 idx gs (ch_rep _ _ Hc)).
Qed.

(** Writing the same twenty bytes again changes nothing. *)
Lemma Write_idem s b : len b = 20 -> length (hash s) = 32%nat -> ObjectID_Write (ObjectID_Write s b) b = ObjectID_Write s b.
Proof.
  intros Hb Hl. unfold len in Hb. unfold ObjectID_Write. cbn [hash oformat]. f_equal.
  rewrite (copyBytes_prefix (hash s)) by lia. rewrite copyBytes_prefix by (rewrite length_app; lia). by rewrite drop_app_length.
Qed.

Lemma holds_distinct idx gs es : holds idx gs es -> NoDup (map eHash es) -> map fst (gitems gs) ≡ₚ es.
Proof.
  intros (Hc & Hok & Hall) Hnd. apply NoDup_Permutation.
  - destruct (rp_groups _ _ (ch_rep _ _ Hc)) as [_ _ _ _ Hs _ _]. apply ltName_NoDup in Hs.
    apply (NoDup_fmap_1 (fun e => ObjectID_Bytes (eHash e))). rewrite <- list_fmap_compose. exact Hs.
  - by apply NoDup_fmap_1 in Hnd.
  - intros e. rewrite Hall. symmetry. apply firstEntry_hash; [done|done].
Qed.

(** ** Decoding any bytes *)

Lemma settled_readBE n r : settled (let* (b, r) := readFull n r in Ok (be_decode b, r)).
Proof. apply settled_bind; [apply settled_readFull|]. by intros [b r'] _. Qed.

Lemma settled_readUint32s n : forall r, settled (readUint32s n r).
Proof.
  induction n as [|n IH]; intros r; cbn [readUint32s]; [done|].
  apply settled_bind; [apply settled_readBE|]. intros [v r'] _. apply settled_bind; [apply IH|]. by intros [vs r''] _.
Qed.

(** The positions a mapping refers to. *)
Definition mapped_in (n : Z) (pos : Z) : Prop := pos = noMapping \/ 0 <= pos < n.

Lemma settled_readNames size fs : forall prev mapping names o32 crc r,
  len o32 = len names -> len crc = len names -> Forall (mapped_in (len names)) mapping ->
  settled (readNames_loop size fs prev mapping names o32 crc r) /\
  forall mapping' names' o32' crc' r', readNames_loop size fs prev mapping names o32 crc r = Ok (mapping', names', o32', crc', r') ->
    len o32' = len names' /\ len crc' = len names' /\ Forall (mapped_in (len names')) mapping'.
Proof.
  induction fs as [|f fs IH]; intros prev mapping names o32 crc r H1 H2 Hm; cbn [readNames_loop].
  { split; [done|]. intros * [= <- <- <- <- <-]. done. }
  destruct (u32 (f - prev) =? 0).
  - apply IH; [done|done|]. apply Forall_app. split; [done|]. apply Forall_singleton. by left.
  - destruct (readFull _ r) as [[bin r']|e| |] eqn:E; cbn [res_bind]; [| |exfalso|exfalso].
    + apply IH; [by rewrite !len_app, H1|by rewrite !len_app, H2|]. rewrite len_app. change (len [bin]) with 1.
      pose proof (len_nonneg names). apply Forall_app. split; [|apply Forall_singleton; right; lia].
      eapply Forall_impl; [exact Hm|]. intros p [->|Hp]; [by left|right; lia].
    + done.
    + pose proof (settled_readFull (u32 (u32 (f - prev) * u32 size)) r) as Hs. by rewrite E in Hs.
    + pose proof (settled_readFull (u32 (u32 (f - prev) * u32 size)) r) as Hs. by rewrite E in Hs.
Qed.

Lemma settled_readBuckets mapping : forall slices r, Forall (mapped_in (len slices)) mapping ->
  settled (readBuckets mapping slices r) /\
  forall slices' r', readBuckets mapping slices r = Ok (slices', r') -> len slices' = len slices.
Proof.
  induction mapping as [|p mapping IH]; intros slices r Hm; cbn [readBuckets].
  { split; [done|]. by intros * [= <- <-]. }
  apply Forall_cons in Hm as [Hp Hm]. destruct (Z.eqb_spec p noMapping); [by apply IH|]. destruct Hp as [Hp|Hp]; [done|].
  destruct (index_ok slices p Hp) as (old & -> & _). cbn [res_bind].
  pose proof (settled_readFull (len old) r) as Hs. destruct (readFull (len old) r) as [[b r']| | |]; cbn [res_bind]; try done.
  rewrite set_index_ok by done. cbn [res_bind]. rewrite <- (len_insert slices (Z.to_nat p) b) in Hm |- *. apply IH. exact Hm.
Qed.

Lemma settled_countBuckets mapping slices : Forall (mapped_in (len slices)) mapping -> settled (countBuckets mapping slices).
Proof.
  induction 1 as [|p mapping Hp _ IH]; cbn [countBuckets]; [done|]. destruct (Z.eqb_spec p noMapping); [done|].
  destruct Hp as [Hp|Hp]; [done|]. destruct (index_ok slices p Hp) as (b & -> & _). cbn [res_bind].
  apply settled_bind; [exact IH|done].
Qed.

Lemma settled_ReadFrom s r : settled (ReadFrom s r).
Proof. unfold ReadFrom. apply settled_bind; [apply settled_readFull|]. by intros [b r'] _. Qed.

(** ** Samples *)
Definition sampleId (b : list byte) : ObjectID := fst (FromBytes (b ++ replicate (20 - length b) x01)).

(** Four objects: two share the first byte of their hash, one is reported twice,
    and one lies beyond 4 GiB. *)
Definition samplePack : list Entry :=
  [mkEntry (sampleId [x42; x02]) 7 12; mkEntry (sampleId [x42; x01]) 8 (2 ^ 33 + 5);
   mkEntry (sampleId [xff]) 9 300; mkEntry (sampleId [x42; x02]) 10 400].

(** A digest of twenty bytes. *)
Definition sampleDigest (b : bytes) : bytes := be_encode 20 (foldl (fun a c => a * 31 + b2z c) 7 b).

Lemma samplePack_ok : Forall entry_ok samplePack.
Proof.
  assert (forall b, (length b <= 20)%nat -> sha1_id (sampleId b)) as Hid.
  { intros b Hb. unfold sampleId, FromBytes. rewrite len_app, len_replicate. unfold len.
    destruct (Z.eqb_spec (Z.of_nat (length b) + Z.of_nat (20 - length b)) SHA1Size) as [_|E]; [|unfold SHA1Size in E; lia].
    cbn [fst]. assert (sha1_id (ObjectID_Write ZeroHash (b ++ replicate (20 - length b) x01))) as H'; [|exact H'].
    apply sha1_Write; [apply sha1_ZeroHash|]. rewrite len_app, len_replicate. unfold len. lia. }
  unfold samplePack. repeat (apply Forall_cons; split); [..|constructor]; (split; [apply Hid; cbn; lia|cbn; lia]).
Qed.

Lemma sampleDigest_size b : len (sampleDigest b) = 20.
Proof. apply be_encode_len. Qed.

(** ** Properties *)

(** C36: The index of a pack answers lookups by hash, in memory and through its file.
    When the writer has observed a header, any objects (duplicates included) and a footer, it
    has an index, [Encode] writes it without failing, and [Decode] of the bytes succeeds. Both indexes find the
    offset and the checksum of the first object with a hash, report that they
    contain exactly the observed hashes, and say [ErrObjectNotFound] for any other; and they
    keep doing so whatever lookups are made before. *)
Theorem index_pipeline (sha1 : bytes -> bytes) count es checksum rest :
  (forall b, len (sha1 b) = 20) -> Forall entry_ok es -> len es < 2 ^ 27 -> sha1_id checksum ->
  exists w idx file idx1 idx2,
    indexPack count es checksum = Ok w /\ Writer_Index w = Ok (idx, w) /\
    Encode sha1 idx = Ok (file, idx1) /\ Decode (NewMemoryIndex SHA1Size) (file ++ rest) = Ok idx2 /\
    answers idx es /\ answers idx2 es.
Proof.
  intros Hsha Hok Hlen Hck. destruct (pipeline sha1 count es checksum rest Hsha Hok Hlen Hck) as (w & idx & gs & H1 & H2 & H3 & H4 & H5 & H6 & _).
  exists w, idx. do 2 eexists. exists (decoded sha1 idx). split_and!; [exact H1|exact H2|exact H4|exact H5| |]; by apply (holds_answers _ gs).
Qed.

(** The statement at the sample pack. *)
Lemma index_pipeline_witness :
  exists w idx file idx1 idx2,
    indexPack 4 samplePack ZeroHash = Ok w /\ Writer_Index w = Ok (idx, w) /\
    Encode sampleDigest idx = Ok (file, idx1) /\ Decode (NewMemoryIndex SHA1Size) (file ++ bs "next") = Ok idx2 /\
    answers idx samplePack /\ answers idx2 samplePack.
Proof.
  apply (index_pipeline sampleDigest 4 samplePack ZeroHash (bs "next")); [exact sampleDigest_size|exact samplePack_ok|vm_compute; reflexivity|exact sha1_ZeroHash].
Defined.

(** The file of an index has all of it: [Decode] of what [Encode] wrote gives the
    tables of the index, field by field, with the checksums of the pack and of the
    file; and encoding the decoded index again writes the same file. *)
Theorem index_roundtrip (sha1 : bytes -> bytes) count es checksum :
  (forall b, len (sha1 b) = 20) -> Forall entry_ok es -> len es < 2 ^ 27 -> sha1_id checksum ->
  exists w idx file idx1 idx2,
    indexPack count es checksum = Ok w /\ Writer_Index w = Ok (idx, w) /\
    Encode sha1 idx = Ok (file, idx1) /\ Decode (NewMemoryIndex SHA1Size) file = Ok idx2 /\
    idx2 = mkIdx (iVersion idx) (Fanout idx) (FanoutMapping idx) (Names idx) (Offset32 idx) (CRC32 idx) (Offset64 idx)
             checksum (IdxChecksum idx1) None false SHA1Size /\
    Encode sha1 idx2 = Ok (file, idx2).
Proof.
  intros Hsha Hok Hlen Hck. destruct (pipeline sha1 count es checksum [] Hsha Hok Hlen Hck) as (w & idx & gs & H1 & H2 & H3 & H4 & H5 & H6 & H7 & H8).
  rewrite app_nil_r in H5. exists w, idx. do 2 eexists. exists (decoded sha1 idx). split_and!; [exact H1|exact H2|exact H4|exact H5| |].
  - unfold decoded. cbn [with_IdxChecksum IdxChecksum]. destruct H3 as ([Hr _ _] & _). by rewrite H7, (rp_version _ _ Hr).
  - destruct H6 as ([Hr _ _] & _). rewrite (Encode_represents sha1 (decoded sha1 idx) gs Hr).
    assert (idxCk sha1 (decoded sha1 idx) = idxCk sha1 idx) as E.
    { unfold idxCk at 1. change (idxBody (decoded sha1 idx)) with (idxBody idx). cbn [decoded IdxChecksum]. unfold idxCk.
      rewrite H8. by apply Write_idem. }
    rewrite E. done.
Qed.

(** The statement at the sample pack. *)
Lemma index_roundtrip_witness :
  exists w idx file idx1 idx2,
    indexPack 4 samplePack ZeroHash = Ok w /\ Writer_Index w = Ok (idx, w) /\
    Encode sampleDigest idx = Ok (file, idx1) /\ Decode (NewMemoryIndex SHA1Size) file = Ok idx2 /\
    idx2 = mkIdx (iVersion idx) (Fanout idx) (FanoutMapping idx) (Names idx) (Offset32 idx) (CRC32 idx) (Offset64 idx)
             ZeroHash (IdxChecksum idx1) None false SHA1Size /\
    Encode sampleDigest idx2 = Ok (file, idx2).
Proof.
  apply (index_roundtrip sampleDigest 4 samplePack ZeroHash); [exact sampleDigest_size|exact samplePack_ok|vm_compute; reflexivity|exact sha1_ZeroHash].
Defined.

(** Lookups by offset, whatever lookups were made before and so whatever the
    cache holds: [FindHash] of an offset where the pack has an object gives an
    identifier with the bytes of such an object, and of any other offset [ErrObjectNotFound]. *)
Theorem index_offsets (sha1 : bytes -> bytes) count es checksum rest :
  (forall b, len (sha1 b) = 20) -> Forall entry_ok es -> len es < 2 ^ 27 -> sha1_id checksum ->
  exists w idx file idx1 idx2,
    indexPack count es checksum = Ok w /\ Writer_Index w = Ok (idx, w) /\
    Encode sha1 idx = Ok (file, idx1) /\ Decode (NewMemoryIndex SHA1Size) (file ++ rest) = Ok idx2 /\
    answers_offsets idx es /\ answers_offsets idx2 es.
Proof.
  intros Hsha Hok Hlen Hck. destruct (pipeline sha1 count es checksum rest Hsha Hok Hlen Hck) as (w & idx & gs & H1 & H2 & H3 & H4 & H5 & H6 & _).
  exists w, idx. do 2 eexists. exists (decoded sha1 idx). split_and!; [exact H1|exact H2|exact H4|exact H5| |].
  - by apply (holds_answers_offsets idx gs).
  - by apply (holds_answers_offsets _ gs).
Qed.

(** The statement at the sample pack. *)
Lemma index_offsets_witness :
  exists w idx file idx1 idx2,
    indexPack 4 samplePack ZeroHash = Ok w /\ Writer_Index w = Ok (idx, w) /\
    Encode sampleDigest idx = Ok (file, idx1) /\ Decode (NewMemoryIndex SHA1Size) (file ++ bs "next") = Ok idx2 /\
    answers_offsets idx samplePack /\ answers_offsets idx2 samplePack.
Proof.
  apply (index_offsets sampleDigest 4 samplePack ZeroHash (bs "next")); [exact sampleDigest_size|exact samplePack_ok|vm_compute; reflexivity|exact sha1_ZeroHash].
Defined.

(** Iteration over the index of a pack of distinct objects: [Count] is their number and
    the iterator of [EntriesByOffset] gives every object once, with the bytes of its
    hash, its checksum and its offset, in increasing order of offset, and then [EOF]. *)
Theorem index_entries (sha1 : bytes -> bytes) count es checksum rest :
  (forall b, len (sha1 b) = 20) -> Forall entry_ok es -> NoDup (map eHash es) -> len es < 2 ^ 27 -> sha1_id checksum ->
  exists w idx file idx1 idx2,
    indexPack count es checksum = Ok w /\ Writer_Index w = Ok (idx, w) /\
    Encode sha1 idx = Ok (file, idx1) /\ Decode (NewMemoryIndex SHA1Size) (file ++ rest) = Ok idx2 /\
    forall i, i = idx \/ i = idx2 -> Count i = Ok (len es) /\
      exists it l, EntriesByOffset i = Ok it /\ drainOffsets (S (length es)) it = Ok l /\ StronglySorted leOffset l /\ map view l ≡ₚ map view es.
Proof.
  intros Hsha Hok Hnd Hlen Hck. destruct (pipeline sha1 count es checksum rest Hsha Hok Hlen Hck) as (w & idx & gs & H1 & H2 & H3 & H4 & H5 & H6 & _).
  exists w, idx. do 2 eexists. exists (decoded sha1 idx). split_and!; [exact H1|exact H2|exact H4|exact H5|].
  assert (forall i, holds i gs es -> Count i = Ok (len es) /\
    exists it l, EntriesByOffset i = Ok it /\ drainOffsets (S (length es)) it = Ok l /\ StronglySorted leOffset l /\ map view l ≡ₚ map view es) as Hi.
  { intros i Hi. pose proof (holds_distinct i gs es Hi Hnd) as Hp. destruct Hi as (Hc & _).
    split.
    - rewrite (Count_ok i gs (ch_rep _ _ Hc)), <- gtotal_items, <- (len_map fst). unfold len. by rewrite Hp.
    - destruct (EntriesByOffset_ok i gs (ch_rep _ _ Hc)) as (l & He & Hs & Hv). exists (mkOffsetIter l 0), l.
      assert (map view l ≡ₚ map view es) as Hvl by (rewrite Hv, <- (map_map fst view); by rewrite Hp).
      split; [done|]. split; [|done]. replace (length es) with (length l); [apply (drainOffsets_ok l [])|].
      rewrite <- (length_map view l), <- (length_map view es). by rewrite Hvl. }
  intros i [->| ->]; by apply Hi.
Qed.

(** The statement at the sample pack. *)
Lemma index_entries_witness :
  exists w idx file idx1 idx2,
    indexPack 3 (take 3 samplePack) ZeroHash = Ok w /\ Writer_Index w = Ok (idx, w) /\
    Encode sampleDigest idx = Ok (file, idx1) /\ Decode (NewMemoryIndex SHA1Size) (file ++ bs "next") = Ok idx2 /\
    forall i, i = idx \/ i = idx2 -> Count i = Ok (len (take 3 samplePack)) /\
      exists it l, EntriesByOffset i = Ok it /\ drainOffsets (S (length (take 3 samplePack))) it = Ok l /\ StronglySorted leOffset l /\ map view l ≡ₚ map view (take 3 samplePack).
Proof.
  apply (index_entries sampleDigest 3 (take 3 samplePack) ZeroHash (bs "next")); [exact sampleDigest_size|apply Forall_take, samplePack_ok| |vm_compute; reflexivity|exact sha1_ZeroHash].
  apply (bool_decide_unpack _). vm_compute. exact I.
Defined.

(** [Decode] settles on every input: whatever the bytes and the size of identifiers,
    it gives an index or an error and does not panic. *)
Theorem Decode_total size r : settled (Decode (NewMemoryIndex size) r).
Proof.
  unfold Decode. apply settled_bind.
  { unfold validateHeader. apply settled_bind; [apply settled_readFull|]. intros [h r'] _. by case_match. }
  intros r1 _. unfold readVersion. apply settled_bind.
  { apply settled_bind; [apply settled_readBE|]. intros [v r'] _. by case_match. }
  intros [i2 r2] E2. unfold readFanout. apply settled_bind.
  { apply settled_bind; [apply settled_readUint32s|]. by intros [fs r'] _. }
  intros [i3 r3] E3.
  assert (Names i3 = [] /\ Offset32 i3 = [] /\ CRC32 i3 = []) as (N1 & N2 & N3).
  { inv_bind E3. destruct v as [fs r']. injection E3 as <- _. cbn [Names Offset32 CRC32].
    inv_bind E2. destruct v as [x r'']. case_match; [discriminate E2|]. by injection E2 as <- _. }
  unfold readObjectNames. rewrite N1, N2, N3.
  destruct (settled_readNames (idSize i3) (Fanout i3) 0 [] [] [] [] r3 eq_refl eq_refl (Forall_nil_2 _)) as [S4 Hn].
  destruct (readNames_loop _ _ _ _ _ _ _ r3) as [[[[[mapping names] o32] crc] r4]| | |]; cbn [res_bind]; try done.
  destruct (Hn _ _ _ _ _ eq_refl) as (L1 & L2 & Hm). unfold readCRC32. cbn [FanoutMapping CRC32].
  rewrite <- L2 in Hm. destruct (settled_readBuckets mapping crc r4 Hm) as [S5 _].
  destruct (readBuckets mapping crc r4) as [[crc' r5]| | |]; cbn [res_bind]; try done.
  unfold readOffsets. cbn [FanoutMapping Offset32]. rewrite L2, <- L1 in Hm.
  destruct (settled_readBuckets mapping o32 r5 Hm) as [S6 Hl].
  destruct (readBuckets mapping o32 r5) as [[o32' r6]| | |]; cbn [res_bind]; try done.
  rewrite <- (Hl _ _ eq_refl) in Hm. pose proof (settled_countBuckets mapping o32' Hm) as S7.
  destruct (countBuckets mapping o32') as [n| | |]; cbn [res_bind]; try done.
  apply settled_bind.
  { apply settled_bind; [case_match; [apply settled_readFull|done]|]. by intros [o64 r'] _. }
  intros [i7 r7] _. unfold readChecksums. apply settled_bind; [|by intros [i8 r8] _].
  apply settled_bind; [apply settled_ReadFrom|]. intros [p r8] _. apply settled_bind; [apply settled_ReadFrom|]. by intros [c r9] _.
Qed.

Definition sampleIndex : res MemoryIndex :=
  let* w := indexPack 4 samplePack ZeroHash in let* (idx, _) := Writer_Index w in Ok idx.

(** The identifiers that [FindHash] and the iterators make are not those of
    the pack. They copy up to 32 bytes of the names into the identifier, of which
    twenty are the hash: for an object that is not the last of its bucket, the
    unused bytes are those of the next name. The identifier prints like that of
    the object and yet is not [Equal] to it; [FindHash] gives the right one only after
    [FindOffset] put it in the cache. *)
Theorem FindHash_tail :
  let id := sampleId [x42; x01] in
  match (let* idx := sampleIndex in
         let* (h, _) := FindHash idx (2 ^ 33 + 5) in
         let* it := EntriesByOffset idx in
         let* (_, idx') := FindOffset idx id in
         let* (h', _) := FindHash idx' (2 ^ 33 + 5) in
         Ok (h, itEntries it, h')) with
  | Ok (h, es, h') =>
      h' = id /\ ObjectID_String h = ObjectID_String id /\ ObjectID_Equal h id = false /\
      existsb (fun e => ObjectID_Equal (eHash e) id) es = false /\
      existsb (fun e => bool_decide (ObjectID_String (eHash e) = ObjectID_String id)) es = true
  | _ => False
  end.
Proof. vm_compute. repeat split; reflexivity. Qed.

(** A file with one object, whose offset word is an index past the only 64-bit offset. *)
Definition badFile : bytes :=
  idxHeader ++ WriteUint32 2 ++ flat_map WriteUint32 (replicate 256 1) ++ replicate 20 x00 ++ WriteUint32 0 ++
  WriteUint32 (2 ^ 31 + 1) ++ WriteUint64 12 ++ replicate 40 x00.

(** [Decode] does not check that the indexes into the 64-bit offsets are in range,
    nor the checksum at the end of the file: it accepts a file that [FindOffset] then panics on,
    for a hash the index contains. *)
Theorem FindOffset_panics :
  match Decode (NewMemoryIndex SHA1Size) badFile with
  | Ok idx => idx_Contains idx ZeroHash = Ok true /\ FindOffset idx ZeroHash = Panic
  | _ => False
  end.
Proof. vm_compute. split; reflexivity. Qed.
