(* ===== verification/PackPipeline.v ===== *)
(** * From identifiers to a pack, its index and back

    The encoder writes the pack of some identifiers; the parser reads it and an index writer observes it, as
    [PackWriter] of storage/filesystem/dotgit/writers.go has it; the index goes through its file; and a packfile over
    both gives every object back, for any sequence of reads. *)
From stdpp Require Import sorting.
From S2P Require Import Prelude Binary ObjectID Memory DeltaIndex Delta DeltaProofs PackEncoder PackScanner PackProofs PackEncoderProofs PackParser PackParserProofs PackSelector PackSelectorProofs Cache Packfile PackfileProofs Idxfile IdxfileTables IdxfileProofs.

Notation ZeroHash := ObjectID.ZeroHash.

(** ** The index writer as an observer *)
Definition Writer_observe (w : Writer) (ev : ObserverEvent) : res Writer :=
  match ev with
  | EvHeader count => Ok (OnHeader w count)
  | EvObjectHeader t objSize pos => Ok (OnInflatedObjectHeader w t objSize pos)
  | EvObjectContent h pos crc => Ok (OnInflatedObjectContent w h pos crc)
  | EvFooter h => OnFooter w h
  end.
Fixpoint Writer_observes (w : Writer) (evs : list ObserverEvent) : res Writer :=
  match evs with
  | [] => Ok w
  | ev :: evs => let* w := Writer_observe w ev in Writer_observes w evs
  end.

(** The entries an index writer is told of. *)
Definition told_of (ev : ObserverEvent) : list Entry := match ev with EvObjectContent h pos crc => [mkEntry h crc pos] | _ => [] end.
Definition object_event (ev : ObserverEvent) : Prop := match ev with EvObjectHeader _ _ _ | EvObjectContent _ _ _ => True | _ => False end.

Lemma Writer_observes_objects evs w h : Forall object_event evs -> Writer_observes w (evs ++ [EvFooter h]) = OnFooter (foldl observe w (flat_map told_of evs)) h.
Proof.
  intros Hevs. revert w. induction Hevs as [|ev evs Hev _ IH]; intros w; cbn [app Writer_observes Writer_observe flat_map foldl].
  - by destruct (OnFooter w h).
  - destruct ev; cbn [object_event] in Hev; try done; cbn [Writer_observe res_bind]; rewrite IH; done.
Qed.

(** The index operations a packfile uses. *)
Definition MemoryIndex_ops : IndexOps MemoryIndex := mkIndexOps FindOffset FindHash.

(** An index that answers for the entries of a pack is an index of the pack. *)
Section Index.
Variable sha1 : bytes -> bytes.
Hypothesis sha1_len : forall b, len (sha1 b) = 20.
Variable deflate : bytes -> bytes.
Variable es : list PEntry.
Variable bss : list bytes.
Variable rs : list (ObjectType * bytes).
Variable crc : nat -> Z.
Hypothesis Hpacked : Forall2 (fun e b => packEntry deflate e = Ok b) es bss.
Hypothesis Hofs : Forall ofs_entry es.
Hypothesis Hlen : length rs = length es.

Definition entryAt (k : nat) (r : ObjectType * bytes) : Entry := mkEntry (objectID sha1 r.1 r.2) (crc k) (place bss k).
Variable entries : list Entry.
Hypothesis Hentries : entries ≡ₚ imap entryAt rs.
Hypothesis Hdistinct : NoDup (map (fun r => objectID sha1 r.1 r.2) rs).

Lemma objectID_sha1 t c : sha1_id (objectID sha1 t c).
Proof.
  unfold objectID, Hasher_Sum. match goal with |- context [sha1 ?b] => destruct (packSum_bytes sha1 sha1_len b) as (_ & Hw & Hf) end. split; [exact Hw|exact Hf].
Qed.

Lemma entries_hashes : map eHash (imap entryAt rs) = map (fun r => objectID sha1 r.1 r.2) rs.
Proof. apply list_eq. intros k. rewrite !list_lookup_fmap, list_lookup_imap. by destruct (rs !! k). Qed.

Lemma entries_nodup : NoDup (map eHash entries).
Proof. rewrite Hentries, entries_hashes. exact Hdistinct. Qed.

Lemma entry_found k t c : rs !! k = Some (t, c) -> firstEntry (objectID sha1 t c) entries = Some (entryAt k (t, c)).
Proof.
  intros Hk. change (objectID sha1 t c) with (eHash (entryAt k (t, c))). apply (firstEntry_hash entries (entryAt k (t, c)) entries); [done|exact entries_nodup|].
  rewrite Hentries. apply (list_elem_of_lookup_2 _ k). by rewrite list_lookup_imap, Hk.
Qed.

Lemma entry_back e : firstEntry (eHash e) entries = Some e -> exists k t c, rs !! k = Some (t, c) /\ e = entryAt k (t, c).
Proof.
  intros He. apply firstEntry_Some in He as [He _]. rewrite Hentries in He. apply list_elem_of_lookup in He as [k Hk]. rewrite list_lookup_imap in Hk.
  destruct (rs !! k) as [[t c]|] eqn:Er; [|done]. injection Hk as <-. eauto.
Qed.

Lemma answers_index idx : answers idx entries -> answers_offsets idx entries -> index_of sha1 bss rs MemoryIndex_ops (used idx).
Proof.
  intros Ha Ho. split; intros i k t c Hu Hk; cbn [ix_FindOffset ix_FindHash MemoryIndex_ops].
  - specialize (Ha i (objectID sha1 t c) Hu (objectID_sha1 t c)). rewrite (entry_found k t c Hk) in Ha. destruct Ha as ((i' & E) & _).
    exists i'. split; [exact E|]. by eapply used_offset.
  - destruct (Ho i (place bss k) Hu) as [(h & i' & e & E & He & Epos & Eb)|[_ Hn]].
    + exists h, i'. split; [exact E|]. split; [by eapply used_hash|]. rewrite Eb. f_equal. destruct (entry_back e He) as (j & tj & cj & Hj & ->). cbn [entryAt eOffset] in Epos.
      assert (j = k) as -> by (apply (off_inj deflate es bss Hpacked Hofs); [rewrite <- Hlen; by eapply lookup_lt_Some..|exact Epos]). rewrite Hk in Hj. by injection Hj as <- <-.
    + exfalso. apply (Hn (entryAt k (t, c))); [by apply entry_found|done].
Qed.
End Index.

(** ** The objects of a pack that was written *)

(** The delta of an object makes it of its base. *)
Definition patched (st : objects) (orig : nat -> ObjectType * bytes) (i : nat) : Prop :=
  forall o obj b, st !! i = Some o -> otp_Object o = Some obj -> otp_Base o = Some b -> patchDelta [] (orig b).2 (po_Content obj) = Ok (orig i).2.

Lemma patched_broken deflate encodedObject st0 K orig B i : patched st0 orig i -> (forall j, j ∈ B -> restorable deflate encodedObject st0 K j) -> patched (broken encodedObject st0 B) orig i.
Proof.
  intros Hp HB o obj b Ho Eobj Eb. destruct (decide (i ∈ B)) as [Hin|Hn]; [|rewrite broken_out in Ho by done; by eapply Hp].
  destruct (HB i Hin) as (o1 & b1 & o' & obj' & Ho1 & Eb1 & Er & Eo & _). rewrite (broken_in _ _ _ _ _ Hin Ho1) in Ho. injection Ho as <-.
  unfold whole in Eb. rewrite Er in Eb. unfold BackToOriginal in Eb. destruct (restore_fields _ _ _ _ Er) as [Eb' _]. rewrite Eb', Eb1, Eo in Eb. done.
Qed.

Section Written.
Variable sha1 : bytes -> bytes.
Variable deflate : bytes -> bytes.
Variable st0 : objects.
Variable objs : list nat.
Variable orig : nat -> ObjectType * bytes.
Variable K : Z.
Variable st' : objects.
Variable order : list nat.
Variable bss : list bytes.
Hypothesis Hok : forall i, i ∈ objs -> original_ok sha1 st0 orig i.
Hypothesis Hpatched : forall i, i ∈ objs -> patched st0 orig i.
Hypothesis W : written deflate false st0 objs K st' (packOf bss) order bss.

Notation es := (map (entryFor false st0 (offsetOf st')) order).
Notation rs := (map orig order).

Lemma written_packed : Forall2 (fun e b => packEntry deflate e = Ok b) es bss.
Proof. apply Forall2_fmap_l. eapply Forall2_impl; [exact (wr_entries _ _ _ _ _ _ _ _ _ W)|]. by intros i b [? _]. Qed.

Lemma written_fits : Forall ofs_entry es.
Proof.
  pose proof (wr_entries _ _ _ _ _ _ _ _ _ W) as He. apply Forall_map. clear -He. induction He as [|i b l k [_ F] _ IH]; constructor; [|done].
  split; [done|]. unfold entryFor. destruct (st0 !! i) as [o|]; [|done]. by destruct (otp_Base o).
Qed.

Lemma written_place k i : order !! k = Some i -> place bss k = offsetOf st' i.
Proof. intros Hk. unfold place. by rewrite (offsets_at_lookup _ _ _ _ k i (wr_offsets _ _ _ _ _ _ _ _ _ W) Hk). Qed.

Lemma written_bound k : 0 <= place bss k <= 12 + K * len order.
Proof.
  unfold place. pose proof (len_nonneg (concat (take k bss))). pose proof (wr_bound _ _ _ _ _ _ _ _ _ W) as Hb. unfold packOf in Hb. rewrite len_app in Hb.
  assert (len (pack_head (len bss)) = 12) as E. { unfold pack_head. rewrite !len_app, !be_encode_len. done. }
  rewrite <- (take_drop k bss) in Hb at 2. rewrite concat_app, len_app in Hb. pose proof (len_nonneg (concat (drop k bss))). lia.
Qed.

Lemma written_object k e t c : es !! k = Some e -> rs !! k = Some (t, c) -> object_of sha1 bss rs k e t c.
Proof.
  intros He Hr. assert (rs !! k = orig <$> order !! k) as Er by apply list_lookup_fmap. rewrite Er in Hr. rewrite list_lookup_fmap in He. destruct (order !! k) as [i|] eqn:Ei; [|done]. injection He as <-. injection Hr as Eor.
  pose proof (list_elem_of_lookup_2 _ _ _ Ei) as Hi. destruct (wr_order _ _ _ _ _ _ _ _ _ W) as [_ Hin]. specialize (Hin i Hi).
  pose proof (entryFor_stands sha1 deflate st0 objs orig K Hok st' (packOf bss) order bss k i W Ei) as Hs. rewrite Eor in Hs. cbn [fst snd] in Hs.
  destruct (Hok i Hin) as (o & obj & Ho & Eobj & _ & Hcase). unfold stands_for in Hs. unfold object_of.
  destruct (otp_Base o) as [b|] eqn:Eb; unfold entryFor in *; rewrite Ho, Eb in *; cbn [pe_Base pe_Type pe_Content pe_Size] in *.
  - destruct Hs as (j & cb & Hjk & Eoff & Hj & _). exists j, cb. split; [done|]. split; [exact Eoff|]. split; [exact Hj|].
    pose proof (wr_closed _ _ _ _ _ _ _ _ _ W i b Hi ltac:(unfold baseOf; by rewrite Ho)) as Hb. apply list_elem_of_lookup in Hb as [j' Hj'].
    assert (j = j') as <-. { apply (off_inj deflate es bss written_packed written_fits).
      - apply lookup_lt_Some in Hj. by rewrite length_map in *.
      - apply lookup_lt_Some in Hj'. by rewrite length_map.
      - rewrite Eoff. change (off bss k) with (place bss k). change (off bss j') with (place bss j'). rewrite (written_place k i Ei), (written_place j' b Hj'). lia. }
    assert (rs !! j = orig <$> order !! j) as Erj by apply list_lookup_fmap. rewrite Erj, Hj' in Hj. injection Hj as Ejb. rewrite Eobj. pose proof (Hpatched i Hin o obj b Ho Eobj Eb) as P. rewrite Ejb, Eor in P. exact P.
  - destruct Hs as [-> ->]. destruct Hcase as (Et & Esz & Ec). rewrite Esz. cbn [resOr]. rewrite Eor in *. by rewrite Eobj, Ec.
Qed.

(** The entries an index writer is told of are those of the pack. *)
Variable crc : nat -> Z.
Definition crcAt (k : nat) : Z := match order !! k with Some i => crc i | None => 0 end.

Lemma told_entries evs : order ≡ₚ objs -> evs ≡ₚ flat_map (eventsFor sha1 orig (offsetOf st') crc) objs ->
  Forall object_event evs /\ flat_map told_of evs ≡ₚ imap (entryAt sha1 bss crcAt) rs.
Proof.
  intros Hperm Hev. split.
  - rewrite Hev. apply Forall_forall. intros ev Hin%list_elem_of_In. apply in_flat_map in Hin as (i & _ & Hin). unfold eventsFor in Hin. destruct (orig i). by destruct Hin as [<-|[<-|[]]].
  - rewrite Hev, <- Hperm. set (entryOf := fun i => mkEntry (objectID sha1 (orig i).1 (orig i).2) (crc i) (offsetOf st' i)).
    assert (forall l, flat_map told_of (flat_map (eventsFor sha1 orig (offsetOf st') crc) l) = map entryOf l) as ->.
    { induction l as [|i l IH]; [done|]. cbn [flat_map map]. rewrite flat_map_app, IH. unfold eventsFor, entryOf, objectID. by destruct (orig i). }
    assert (map entryOf order = imap (entryAt sha1 bss crcAt) rs) as ->; [|done]. apply list_eq. intros k. rewrite list_lookup_imap, !list_lookup_fmap. destruct (order !! k) as [i|] eqn:Ei; [|done].
    cbn. unfold entryAt, entryOf, crcAt. by rewrite Ei, (written_place k i Ei).
Qed.
End Written.

(** ** Reading a pack that was written, through its index *)
Section Reading.
Variable sha1 : bytes -> bytes.
Variable crc32 : bytes -> Z.
Variable deflate : bytes -> bytes.
Variable inflate : bytes -> option (bytes * (error + bytes)).
Hypothesis inflate_deflate : forall c r, inflate (deflate c ++ r) = Some (c, inr r).
Hypothesis sha1_len : forall b, len (sha1 b) = 20.
Variable hasFs : bool.
Variable cacheMax : Z.
Hypothesis HcacheMax : 0 <= cacheMax < 2 ^ 62.

Notation ops := (ObjectLRU_ops (PackObject_Hash sha1) PackObject_Size).
Notation openPack := (Packfile_init sha1 crc32 inflate (NewObjectLRU cacheMax : LRU ObjectID PackObject)).
Notation readAll := (readObjects sha1 crc32 inflate ops MemoryIndex_ops hasFs).

Lemma reads_back es bss rs crc entries idx2 gs ids :
  Forall2 (fun e b => packEntry deflate e = Ok b) es bss -> Forall ofs_entry es -> es <> [] -> len es < 2 ^ 32 -> length rs = length es ->
  (forall k e t c, es !! k = Some e -> rs !! k = Some (t, c) -> object_of sha1 bss rs k e t c /\ len c < 2 ^ 62) ->
  NoDup (map (fun r => objectID sha1 r.1 r.2) rs) -> entries ≡ₚ imap (entryAt sha1 bss crc) rs -> holds idx2 gs entries ->
  Forall (fun r => r ∈ rs) ids ->
  exists pf pf', openPack (Some (packFile sha1 bss)) (Some idx2) None = Ok (inr pf) /\ pf_id pf = packSum sha1 (packOf bss) /\
    readAll (length es) pf (map (fun r => objectID sha1 r.1 r.2) ids) = Ok (pf', map (fun r => inr (r.1, len r.2, r.2)) ids).
Proof.
  intros Hp Hofs Hne Hn Hl Hobj Hnd Hent Hholds Hids.
  assert (Forall entry_fits es) as Hfits by (eapply Forall_impl; [exact Hofs|]; by intros e [? _]).
  pose proof (answers_index sha1 sha1_len deflate es bss rs crc Hp Hofs Hl entries Hent Hnd idx2 (holds_answers _ _ _ Hholds) (holds_answers_offsets _ _ _ Hholds)) as Hix.
  assert (forall j k tj cj tk ck, rs !! j = Some (tj, cj) -> rs !! k = Some (tk, ck) -> ObjectID_Bytes (objectID sha1 tj cj) = ObjectID_Bytes (objectID sha1 tk ck) -> j = k) as Hdist.
  { intros j k tj cj tk ck Hj Hk E. apply sha1_bytes_inj in E; [|by apply objectID_sha1..]. eapply (NoDup_lookup _ _ _ (objectID sha1 tj cj) Hnd); rewrite list_lookup_fmap; [by rewrite Hj|rewrite Hk; cbn; by rewrite E]. }
  destruct (Packfile_init_ok sha1 crc32 deflate inflate sha1_len es bss rs Hp Hfits Hne Hn Hl Hobj ops (NewObjectLRU cacheMax) (used idx2) idx2) as (pf & E & Hu & Hid); [constructor|by apply New_inv|done|].
  destruct (readObjects_ok sha1 crc32 deflate inflate inflate_deflate es bss rs Hp Hfits Hne Hn Hl Hobj Hdist ops MemoryIndex_ops hasFs (used idx2) Hix (length es) ids (Nat.le_refl _) Hids pf Hu) as (pf' & E' & _).
  exists pf, pf'. by split_and!.
Qed.

(** A pack that was written and what its parser told, from the index to the objects. *)
Lemma written_pipeline st0 objs orig K st' order bss crc evs ids :
  written deflate false st0 objs K st' (packOf bss) order bss -> (forall i, i ∈ objs -> original_ok sha1 st0 orig i /\ patched st0 orig i /\ len (orig i).2 < 2 ^ 62) -> order ≡ₚ objs ->
  evs ≡ₚ flat_map (eventsFor sha1 orig (offsetOf st') crc) objs -> (forall i, 0 <= crc i < 2 ^ 32) -> NoDup (map (fun r => objectID sha1 r.1 r.2) (map orig order)) ->
  objs <> [] -> len objs < 2 ^ 27 -> 12 + K * len objs < 2 ^ 63 -> Forall (fun r => r ∈ map orig order) ids ->
  exists w idx file idx1 idx2 pf pf',
    Writer_observes NewWriter (EvHeader (len objs) :: evs ++ [EvFooter (packSum sha1 (packOf bss))]) = Ok w /\ Writer_Index w = Ok (idx, w) /\
    Idxfile.Encode sha1 idx = Ok (file, idx1) /\ Decode (NewMemoryIndex SHA1Size) file = Ok idx2 /\
    openPack (Some (packFile sha1 bss)) (Some idx2) None = Ok (inr pf) /\ pf_id pf = packSum sha1 (packOf bss) /\
    readAll (length objs) pf (map (fun r => objectID sha1 r.1 r.2) ids) = Ok (pf', map (fun r => inr (r.1, len r.2, r.2)) ids).
Proof.
  intros W Hok Hperm Hev Hcrc Hnd Hne Hn Hroom Hids. assert (length order = length objs) as Elo by (by rewrite Hperm). assert (len order = len objs) as Elo' by (unfold len; lia).
  destruct (told_entries sha1 deflate st0 objs orig K st' order bss W crc evs Hperm Hev) as [Hobj Hent]. set (rs := map orig order) in *. set (es := map (entryFor false st0 (offsetOf st')) order).
  assert (length rs = length order) as Elr by apply length_map. assert (length es = length order) as Ele by apply length_map.
  assert (Forall entry_ok (flat_map told_of evs)) as Hent_ok.
  { rewrite Hent. apply Forall_forall. intros e He. apply list_elem_of_lookup in He as [k Hk]. rewrite list_lookup_imap in Hk. destruct (rs !! k) as [r|]; [|done]. injection Hk as <-.
    pose proof (written_bound deflate st0 objs K st' order bss W k). split; [by apply objectID_sha1|]. split; cbn [entryAt eCRC32 eOffset]; [|lia]. unfold crcAt. destruct (order !! k); [apply Hcrc|lia]. }
  assert (len (flat_map told_of evs) < 2 ^ 27) as Hlen. { unfold len. rewrite Hent, length_imap, Elr. unfold len in *. lia. }
  destruct (packSum_bytes sha1 sha1_len (packOf bss)) as (_ & Hcw & Hcf).
  destruct (pipeline sha1 (len objs) (flat_map told_of evs) (packSum sha1 (packOf bss)) [] sha1_len Hent_ok Hlen (conj Hcw Hcf)) as (w & idx & gs & H1 & H2 & _ & H4 & H5 & H6 & _). rewrite app_nil_r in H5.
  destruct (reads_back es bss rs (crcAt order crc) (flat_map told_of evs) (decoded sha1 idx) gs ids (written_packed deflate st0 objs K st' order bss W) (written_fits deflate st0 objs K st' order bss W)) as (pf & pf' & E1 & E2 & E3).
  { intros Hnil. rewrite Hnil in Ele. destruct objs; [done|]. cbn in *. lia. } { unfold len in *. lia. } { lia. }
  { intros k e t c He Hr. split; [eapply (written_object sha1 deflate st0 objs orig K st' order bss); try done; intros i Hi; apply (Hok i Hi)|].
    assert (rs !! k = orig <$> order !! k) as Er by apply list_lookup_fmap. rewrite Er in Hr. destruct (order !! k) as [i|] eqn:Ei; [|done]. injection Hr as Hr.
    assert (i ∈ objs) as Hi by (rewrite <- Hperm; by eapply list_elem_of_lookup_2). destruct (Hok i Hi) as (_ & _ & Hsz). by rewrite Hr in Hsz. }
  { done. } { exact Hent. } { done. } { done. }
  rewrite Ele, Elo in E3. exists w, idx. do 2 eexists. exists (decoded sha1 idx), pf, pf'. cbn [Writer_observes Writer_observe res_bind]. rewrite Writer_observes_objects by done. unfold indexPack in H1. by split_and!.
Qed.
End Reading.

Section Pipeline.
Variable sha1 : bytes -> bytes.
Variable encodedObject : ObjectID -> error + PObj.
Variable deltaObject : option (ObjectID -> error + PObj).
Variable maxSize : Z.
Variable depth : ObjectID -> nat.
Variable hashes : list ObjectID.
Variable ws : list PObj.
Hypothesis Hws : Forall2 (sound sha1 encodedObject deltaObject maxSize depth) hashes ws.
Hypothesis Hmax : 0 <= maxSize < 2 ^ 31.

Lemma sound_hashes : map po_Hash ws = hashes.
Proof.
  apply list_eq. intros k. rewrite list_lookup_fmap. destruct (ws !! k) as [w|] eqn:E.
  - destruct (Forall2_lookup_r _ _ _ _ _ Hws E) as (h & -> & Hs & _). cbn. by rewrite (so_hash _ _ _ _ _ Hs).
  - symmetry. apply lookup_ge_None. rewrite (Forall2_length _ _ _ Hws). by apply lookup_ge_None.
Qed.

Lemma sound_object k w : ws !! k = Some w -> objectID sha1 (po_Type w) (po_Content w) = po_Hash w /\ po_Size w = len (po_Content w) /\ len (po_Content w) <= maxSize.
Proof.
  intros Hk. pose proof (ws_stored sha1 encodedObject deltaObject maxSize depth hashes ws Hws k w Hk) as Sw. split; [unfold objectID; by rewrite <- (so_id _ _ _ _ _ Sw)|].
  split; [exact (so_size _ _ _ _ _ Sw)|exact (so_small _ _ _ _ _ Sw)].
Qed.

Lemma tracks_patched st k : tracks ws (settled_as sha1 encodedObject maxSize depth ws) st -> patched st (origOf ws) k.
Proof.
  intros Ht o obj b Ho Eobj Eb. assert (k < length ws)%nat as Hk by (rewrite <- (tracks_length _ _ _ Ht); by eapply lookup_lt_Some).
  destruct (lookup_lt_is_Some_2 ws k Hk) as [w Hw]. destruct (tracks_lookup _ _ _ _ _ Ht Hw) as (o' & Ho' & Hs). rewrite Ho in Ho'. injection Ho' as <-.
  destruct Hs as [(_ & Eb' & _)|(b' & _ & Eb' & base & d & Hb & Ed & _ & _ & (_ & _ & _ & _ & _ & Hp & _) & _)]; rewrite Eb in Eb'; [done|]. injection Eb' as <-.
  rewrite Eobj in Ed. injection Ed as ->. unfold origOf. by rewrite Hb, Hw.
Qed.

(** The objects of the pack, in any order, are distinct. *)
Lemma orig_distinct order : order ≡ₚ seq 0 (length ws) -> NoDup hashes -> NoDup (map (fun r => objectID sha1 r.1 r.2) (map (origOf ws) order)).
Proof.
  intros Hp Hnd. rewrite map_map. rewrite Hp. assert (map (fun i => objectID sha1 (origOf ws i).1 (origOf ws i).2) (seq 0 (length ws)) = hashes) as ->; [|done].
  rewrite <- sound_hashes. apply list_eq. intros k. rewrite !list_lookup_fmap. destruct (ws !! k) as [w|] eqn:E.
  - rewrite lookup_seq_lt by (by eapply lookup_lt_Some). cbn. f_equal. unfold origOf. rewrite E. by destruct (sound_object k w E).
  - rewrite lookup_seq_ge by (by apply lookup_ge_None). done.
Qed.
End Pipeline.

(** C1: objects go into a pack and come out of it.  For a storage that has the objects of distinct identifiers, [Encode] writes their
    pack without an error; parsing it with an index writer as observer gives an index, which goes through its file
    unchanged; and a packfile opened on the pack and that index gives, for any sequence of these identifiers and whatever its
    cache has room for, the type, the size and the content of the object of each, through any chain of deltas. *)
Theorem packfile_pipeline (sha1 : bytes -> bytes) (crc32 : bytes -> Z) (deflate : bytes -> bytes) (inflate : bytes -> option (bytes * (error + bytes)))
    (encodedObject : ObjectID -> error + PObj) (deltaObject : option (ObjectID -> error + PObj))
    (sort : (SortKey -> SortKey -> bool) -> list SortKey -> list SortKey) (schedule : list (list nat) -> list (list nat))
    (seeker hasFs : bool) (maxSize cacheMax : Z) (depth : ObjectID -> nat) (hashes : list ObjectID) (ws reads : list PObj) (packWindow : Z) (fuel : nat)
    (Hinf : forall c r, inflate (deflate c ++ r) = Some (c, inr r)) (Hsha : forall b, len (sha1 b) = 20) (Hcrc : forall b, 0 <= crc32 b < 2 ^ 32) (Hdeflate : forall c, len (deflate c) <= 2 * len c + 1000)
    (sort_permutes : forall less l, sort less l ≡ₚ l) (sort_orders : forall l, StronglySorted (fun a b => byTypeAndSize_Less b a = false) (sort byTypeAndSize_Less l))
    (schedule_permutes : forall gs, schedule gs ≡ₚ gs)
    (Hws : Forall2 (sound sha1 encodedObject deltaObject maxSize depth) hashes ws) (Hmax : 0 <= maxSize < 2 ^ 31)
    (Hne : hashes <> []) (Hnd : NoDup hashes) (Hn : len hashes < 2 ^ 27) (Hroom : 12 + entryRoom maxSize * len hashes < 2 ^ 63)
    (Hw : 0 <= packWindow < 2 ^ 63) (Hf : (length hashes < fuel)%nat) (HcacheMax : 0 <= cacheMax < 2 ^ 62) (Hreads : Forall (fun w => w ∈ ws) reads) :
  exists pack h st' p' w idx file idx1 idx2 pf pf',
    PackSelector.Encode sha1 encodedObject deltaObject sort schedule deflate false fuel hashes packWindow = Ok (pack, h, st') /\
    Parse sha1 crc32 inflate (fun (st : Empty_set) t sz c => inr st) (fun st t id => inl ErrObjectNotFound) (fun log ev => (log ++ [ev], None)) seeker false
      (length hashes + 3) (NewParser pack None []) = Ok (p', inr h) /\
    Writer_observes NewWriter (pr_observers p') = Ok w /\ Writer_Index w = Ok (idx, w) /\
    Idxfile.Encode sha1 idx = Ok (file, idx1) /\ Decode (NewMemoryIndex SHA1Size) file = Ok idx2 /\
    Packfile_init sha1 crc32 inflate (NewObjectLRU cacheMax) (Some pack) (Some idx2) None = Ok (inr pf) /\ pf_id pf = h /\
    readObjects sha1 crc32 inflate (ObjectLRU_ops (PackObject_Hash sha1) PackObject_Size) MemoryIndex_ops hasFs (length hashes) pf (map po_Hash reads) =
      Ok (pf', map (fun w => inr (po_Type w, po_Size w, po_Content w)) reads).
Proof.
  assert (length hashes = length ws) as El by (by eapply Forall2_length). assert (len hashes = len ws) as El' by (unfold len; lia). rewrite El' in Hn, Hroom.
  destruct (ObjectsToPack_ok sha1 encodedObject deltaObject sort schedule maxSize depth hashes ws Hws Hmax sort_permutes sort_orders schedule_permutes fuel packWindow ltac:(lia) Hw) as (st & otp & E & Hp & Ht).
  assert (length otp = length ws) as Elo by (by rewrite Hp, length_seq). assert (len otp = len ws) as Elo' by (unfold len; lia).
  assert (forall k, k ∈ otp -> (k < length ws)%nat) as Hotp by (intros k Hk; rewrite Hp in Hk; apply elem_of_seq in Hk; lia).
  destruct (pack_parse sha1 crc32 deflate inflate encodedObject seeker st otp (origOf ws) (fun _ => 0%nat) (entryRoom maxSize) fuel Hinf Hsha) as (B & st' & order & bss & p' & evs & Ee & Hperm & W & HB & Hok & Epar & Hobs & Hev).
  { by eapply tracks_encodable. } { intros k Hk. eapply tracks_originals; [done..|by apply Hotp]. } { intros ->. destruct hashes; [done|]. cbn in *. lia. } { lia. } { lia. }
  assert (forall i, i ∈ otp -> patched (broken encodedObject st B) (origOf ws) i) as Hpat by (intros i _; eapply patched_broken; [by eapply tracks_patched|exact HB]).
  assert (order ≡ₚ seq 0 (length ws)) as Hos by (by rewrite Hperm). pose proof (sound_object sha1 encodedObject deltaObject maxSize depth hashes ws Hws) as Hobj.
  assert (Forall (fun r => r ∈ map (origOf ws) order) (map (fun w => (po_Type w, po_Content w)) reads)) as Hids.
  { apply Forall_map. eapply Forall_impl; [exact Hreads|]. intros w Hin. apply list_elem_of_lookup in Hin as [k Hk]. apply list_elem_of_fmap. exists k. split; [unfold origOf; by rewrite Hk|].
    rewrite Hos. apply elem_of_seq. apply lookup_lt_Some in Hk. lia. }
  destruct (written_pipeline sha1 crc32 deflate inflate Hinf Hsha hasFs cacheMax HcacheMax (broken encodedObject st B) otp (origOf ws) (entryRoom maxSize) st' order bss
    (crcOf crc32 order bss) evs (map (fun w => (po_Type w, po_Content w)) reads) W) as (w & idx & file & idx1 & idx2 & pf & pf' & G1 & G2 & G3 & G4 & G5 & G6 & G7); try done.
  { intros i Hi. split; [by apply Hok|]. split; [by apply Hpat|]. destruct (lookup_lt_is_Some_2 ws i (Hotp i Hi)) as [w Ew]. unfold origOf. rewrite Ew. cbn [snd]. destruct (Hobj i w Ew) as (_ & _ & ?). lia. }
  { intros i. unfold crcOf. destruct (list_find _ order) as [[k ?]|]; [apply Hcrc|lia]. } { by eapply orig_distinct. }
  { intros ->. destruct ws; [|done]. destruct hashes; [done|]. done. } { lia. } { lia. }
  exists (packFile sha1 bss), (packSum sha1 (packOf bss)), st', p', w, idx, file, idx1, idx2, pf, pf'. unfold PackSelector.Encode. rewrite E. cbn [res_bind]. rewrite El, <- Elo, Hobs.
  rewrite !map_map in G7. assert (forall w, w ∈ reads -> objectID sha1 (po_Type w) (po_Content w) = po_Hash w /\ po_Size w = len (po_Content w)) as Hrd.
  { intros w' Hin. rewrite Forall_forall in Hreads. specialize (Hreads w' Hin). apply list_elem_of_lookup in Hreads as [k Hk]. destruct (Hobj k w' Hk) as (? & ? & _). done. }
  rewrite (map_ext_in _ po_Hash) in G7 by (intros w' Hin%list_elem_of_In; by apply Hrd).
  rewrite (map_ext_in (fun w => inr (po_Type w, po_Size w, po_Content w)) (fun w => inr (po_Type w, len (po_Content w), po_Content w))) by (intros w' Hin%list_elem_of_In; by rewrite (proj2 (Hrd w' Hin))).
  by split_and!.
Qed.

Lemma packfile_pipeline_witness :
  exists pack h st' p' w idx file idx1 idx2 pf pf',
    PackSelector.Encode toySha1 sampleGet (Some sampleGetDelta) insertionSort (@rev (list nat)) toyDeflate false 4 (map po_Hash sampleObjects) 10 = Ok (pack, h, st') /\
    Parse toySha1 (fun b => len b mod 2 ^ 32) toyInflate (fun (st : Empty_set) t sz c => inr st) (fun st t id => inl ErrObjectNotFound) (fun log ev => (log ++ [ev], None)) true false 6 (NewParser pack None []) = Ok (p', inr h) /\
    Writer_observes NewWriter (pr_observers p') = Ok w /\ Writer_Index w = Ok (idx, w) /\
    Idxfile.Encode toySha1 idx = Ok (file, idx1) /\ Decode (NewMemoryIndex SHA1Size) file = Ok idx2 /\
    Packfile_init toySha1 (fun b => len b mod 2 ^ 32) toyInflate (NewObjectLRU 100) (Some pack) (Some idx2) None = Ok (inr pf) /\ pf_id pf = h /\
    readObjects toySha1 (fun b => len b mod 2 ^ 32) toyInflate (ObjectLRU_ops (PackObject_Hash toySha1) PackObject_Size) MemoryIndex_ops true 3 pf (map po_Hash [sampleLong; sampleCommit; sampleLong; sampleShort]) =
      Ok (pf', map (fun w => inr (po_Type w, po_Size w, po_Content w)) [sampleLong; sampleCommit; sampleLong; sampleShort]).
Proof.
  apply (packfile_pipeline toySha1 (fun b => len b mod 2 ^ 32) toyDeflate toyInflate sampleGet (Some sampleGetDelta) insertionSort (@rev (list nat)) true true 1000 100 sampleDepth
    (map po_Hash sampleObjects) sampleObjects [sampleLong; sampleCommit; sampleLong; sampleShort] 10 4 toy_inflate toy_sha1_len);
    [intros b; apply Z.mod_pos_bound; lia|exact toy_deflate_len|exact (@insertionSort_perm SortKey)|exact sort_by_less_orders| |exact sample_sound|lia|done| |done|done|lia|cbn; lia|lia|].
  - intros gs. symmetry. apply Permutation_rev.
  - apply (bool_decide_unpack _). vm_compute. reflexivity.
  - repeat constructor; unfold sampleObjects; set_solver.
Defined.
