(* ===== verification/CommitGraph.v ===== *)
(** * plumbing/format/commitgraph: the commit-graph file

    The graph in memory ([memory.go]), its encoder, the reader of a file over another index ([file.go]), and the list
    of a chain ([chain.go]).  An index is one or the other; a file may have a parent of either kind.  Getting commit
    data keeps the indexes of the parents in the memory index, so that it gives the index back.  A file is its bytes,
    all hashes are SHA-1, and a time is its seconds since 1970. *)
From S2P Require Import Prelude Binary GoStrings ObjectID Packp.

(** ** Chunks (chunk.go) *)
Definition szUint32 : Z := 4.
Definition szUint64 : Z := 8.
Definition szSignature : Z := 4.
Definition szHeader : Z := 4.
Definition szCommitData : Z := 2 * szUint32 + szUint64.
Definition lenFanout : Z := 256.
Definition szChunkSig : Z := 4.
Definition chunkSigOffset : Z := 4.

Definition ChunkType := Z.
Definition OIDFanoutChunk : ChunkType := 0.
Definition OIDLookupChunk : ChunkType := 1.
Definition CommitDataChunk : ChunkType := 2.
Definition GenerationDataChunk : ChunkType := 3.
Definition GenerationDataOverflowChunk : ChunkType := 4.
Definition ExtraEdgeListChunk : ChunkType := 5.
Definition BaseGraphsListChunk : ChunkType := 8.
Definition ZeroChunk : ChunkType := 9.
Definition lenChunks : Z := ZeroChunk.

Definition chunkSignatures : bytes := bs "OIDFOIDLCDATGDA2GDO2EDGEBIDXBDATBASE" ++ replicate 4 x00.
Definition Signature (ct : ChunkType) : bytes :=
  if (BaseGraphsListChunk <=? ct) || (ct <? 0) then seg chunkSignatures (ZeroChunk * chunkSigOffset) (ZeroChunk * chunkSigOffset + szChunkSig)
  else seg chunkSignatures (ct * chunkSigOffset) (ct * chunkSigOffset + szChunkSig).

(** [bytes.Index], the first place of [b]. *)
Fixpoint bytes_Index (s b : bytes) : Z :=
  if HasPrefix s b then 0
  else match s with
       | [] => -1
       | _ :: s => let i := bytes_Index s b in if i =? -1 then -1 else 1 + i
       end.
Definition ChunkTypeFromBytes (b : bytes) : option ChunkType :=
  let idx := bytes_Index chunkSignatures b in
  if (idx =? -1) || negb (idx mod chunkSigOffset =? 0) then None else Some (idx / chunkSigOffset).

(** ** Commit data (commitgraph.go) *)
Record CommitData := mkCommitData {
  TreeHash : ObjectID; ParentIndexes : option (list Z); ParentHashes : list ObjectID;
  Generation : Z; GenerationV2 : Z; When : Z }.
Definition with_ParentIndexes (c : CommitData) (p : option (list Z)) : CommitData :=
  mkCommitData (TreeHash c) p (ParentHashes c) (Generation c) (GenerationV2 c) (When c).

Definition MaxUint64 : Z := 2 ^ 64 - 1.
Definition MaxUint32 : Z := 2 ^ 32 - 1.
Definition GenerationV2Data (c : CommitData) : Z :=
  if (GenerationV2 c =? 0) || (GenerationV2 c =? MaxUint64) then 0 else u64 (GenerationV2 c - u64 (When c)).

(** ** The index in memory (memory.go) *)
Record MemoryIndex := mkMemoryIndex { commitData : list (ObjectID * CommitData); indexMap : gmap ObjectID Z; mHasGenerationV2 : bool }.
Definition NewMemoryIndex : MemoryIndex := mkMemoryIndex [] ∅ true.

Definition Mem_GetIndexByHash (mi : MemoryIndex) (h : ObjectID) : res Z :=
  match indexMap mi !! h with Some i => Ok i | None => Err ErrObjectNotFound end.
Definition Mem_GetHashByIndex (mi : MemoryIndex) (i : Z) : res ObjectID :=
  if u32 (len (commitData mi)) <=? i then Err ErrObjectNotFound
  else let* d := index (commitData mi) i in Ok (fst d).

(** The parent indexes are looked up once. *)
Fixpoint parentIndexesOf (mi : MemoryIndex) (hs : list ObjectID) : res (list Z) :=
  match hs with
  | [] => Ok []
  | h :: hs => let* i := Mem_GetIndexByHash mi h in let* ixs := parentIndexesOf mi hs in Ok (i :: ixs)
  end.
Definition Mem_GetCommitDataByIndex (mi : MemoryIndex) (i : Z) : res (CommitData * MemoryIndex) :=
  if u32 (len (commitData mi)) <=? i then Err ErrObjectNotFound
  else
    let* (h, d) := index (commitData mi) i in
    match ParentIndexes d with
    | Some _ => Ok (d, mi)
    | None =>
      let* ixs := parentIndexesOf mi (ParentHashes d) in
      let d := with_ParentIndexes d (Some ixs) in
      let* ds := set_index (commitData mi) i (h, d) in
      Ok (d, mkMemoryIndex ds (indexMap mi) (mHasGenerationV2 mi))
    end.

(** The order of a Go map is not specified; the encoder sorts the hashes. *)
Definition Mem_Hashes (mi : MemoryIndex) : list ObjectID := map fst (map_to_list (indexMap mi)).
Definition Mem_Add (mi : MemoryIndex) (h : ObjectID) (data : CommitData) : MemoryIndex :=
  let g := if GenerationV2 data =? MaxUint64 then 0 else GenerationV2 data in
  let data := mkCommitData (TreeHash data) None (ParentHashes data) (Generation data) g (When data) in
  mkMemoryIndex (commitData mi ++ [(h, data)]) (<[h := u32 (len (commitData mi))]> (indexMap mi)) (mHasGenerationV2 mi && negb (g =? 0)).
Definition Mem_MaximumNumberOfHashes (mi : MemoryIndex) : Z := u32 (Z.of_nat (size (indexMap mi))).

(** ** An index *)
Record fileIndex := mkFileIndex {
  reader : bytes; fanout : list Z; offsets : list Z; fHasGenerationV2 : bool; minimumNumberOfHashes : Z }.
Inductive Index := IMemory (mi : MemoryIndex) | IFile (fi : fileIndex) (parent : option Index).

Definition HasGenerationV2 (idx : Index) : bool := match idx with IMemory mi => mHasGenerationV2 mi | IFile fi _ => fHasGenerationV2 fi end.
Definition fanoutTotal (fi : fileIndex) : Z := nth 255 (fanout fi) 0.
Definition MaximumNumberOfHashes (idx : Index) : Z :=
  match idx with
  | IMemory mi => Mem_MaximumNumberOfHashes mi
  | IFile fi _ => u32 (minimumNumberOfHashes fi + fanoutTotal fi)
  end.

(** ** Reading a file (file.go) *)
Definition commitFileSignature : bytes := bs "CGPH".
Definition parentNone : Z := 0x70000000.
Definition parentOctopusUsed : Z := 0x80000000.
Definition parentOctopusMask : Z := 0x7fffffff.
Definition parentLast : Z := 0x80000000.

(** [ReadAt] of [n] bytes, and what a section reader has to read. *)
Definition ReadAt (r : bytes) (n off : Z) : res bytes :=
  if off <? 0 then Err ErrSeekNegative
  else let b := take (Z.to_nat n) (drop (Z.to_nat off) r) in if len b <? n then Err EOF else Ok b.
Definition Section (r : bytes) (off n : Z) : res bytes :=
  if off <? 0 then Err ErrSeekNegative else Ok (take (Z.to_nat n) (drop (Z.to_nat off) r)).

Definition verifyFileHeader (r : bytes) : res unit :=
  let* signature := ReadAt r szSignature 0 in
  if negb (bool_decide (signature = commitFileSignature)) then Err ErrMalformedCommitGraphFile
  else
    let* header := ReadAt r szHeader szHeader in
    if negb (b2z (nth 0 header x00) =? 1) then Err ErrUnsupportedVersion
    else if negb (b2z (nth 1 header x00) =? 1) then Err ErrUnsupportedHash
    else Ok tt.

(** The offsets by the type of the chunk; [fuel] counts the headers that are read. *)
Fixpoint readChunkHeaders_loop (fuel : nat) (r : bytes) (i : Z) (offs : list Z) : res (list Z) :=
  match fuel with
  | O => NoFuel
  | S fuel =>
    let* chunkHeader := Section r (szSignature + szHeader + i * (szChunkSig + szUint64)) (szChunkSig + szUint64) in
    let* (chunkID, chunkHeader) := readFull szChunkSig chunkHeader in
    let* (chunkOffset, _) := ReadUint64 chunkHeader in
    match ChunkTypeFromBytes chunkID with
    | None => readChunkHeaders_loop fuel r (i + 1) offs
    | Some chunkType =>
      if (chunkType =? ZeroChunk) || (len offs <=? chunkType) then Ok offs
      else let* offs := set_index offs chunkType (i64 chunkOffset) in readChunkHeaders_loop fuel r (i + 1) offs
    end
  end.
Definition offsetOf (offs : list Z) (c : ChunkType) : Z := nth (Z.to_nat c) offs 0.
Definition readChunkHeaders (r : bytes) : res (list Z) :=
  let* offs := readChunkHeaders_loop (S (length r)) r 0 (replicate (Z.to_nat lenChunks) 0) in
  if (offsetOf offs OIDFanoutChunk <=? 0) || (offsetOf offs OIDLookupChunk <=? 0) || (offsetOf offs CommitDataChunk <=? 0)
  then Err ErrMalformedCommitGraphFile else Ok offs.

Fixpoint readFanout_loop (n : nat) (r : bytes) : res (list Z) :=
  match n with
  | O => Ok []
  | S n =>
    let* (v, r) := ReadUint32 r in
    if 0x7fffffff <? v then Err ErrMalformedCommitGraphFile
    else let* vs := readFanout_loop n r in Ok (v :: vs)
  end.
Definition readFanout (r : bytes) (offs : list Z) : res (list Z) :=
  let* sec := Section r (offsetOf offs OIDFanoutChunk) (lenFanout * szUint32) in readFanout_loop 256 sec.

Definition OpenFileIndexWithParent (r : option bytes) (parent : option Index) : res Index :=
  match r with
  | None => Err ErrUnexpectedEOF
  | Some r =>
    let* _ := verifyFileHeader r in
    let* offs := readChunkHeaders r in
    let* fan := readFanout r offs in
    let has := 0 <? offsetOf offs GenerationDataChunk in
    let has := match parent with Some p => has && HasGenerationV2 p | None => has end in
    let min := match parent with Some p => MaximumNumberOfHashes p | None => 0 end in
    Ok (IFile (mkFileIndex r fan offs has min) parent)
  end.
Definition OpenFileIndex (r : option bytes) : res Index := OpenFileIndexWithParent r None.

(** The identifier [i] of the lookup table of this file. *)
Definition readOid (fi : fileIndex) (i : Z) : res ObjectID :=
  let* sec := Section (reader fi) (i64 (offsetOf (offsets fi) OIDLookupChunk + i * SHA1Size)) SHA1Size in
  let* (oid, _) := ReadFrom ZeroHash sec in Ok oid.

(** The binary search; a table of less than 2^31 entries takes at most 31 rounds. *)
Fixpoint findOid (fuel : nat) (fi : fileIndex) (h : ObjectID) (low high : Z) : res (option Z) :=
  match fuel with
  | O => NoFuel
  | S fuel =>
    if low <? high then
      let mid := Z.shiftr (u32 (low + high)) 1 in
      let* oid := readOid fi mid in
      let cmp := ObjectID_Compare h (ObjectID_Bytes oid) in
      if cmp <? 0 then findOid fuel fi h low mid
      else if cmp =? 0 then Ok (Some mid)
      else findOid fuel fi h (mid + 1) high
    else Ok None
  end.
Fixpoint GetIndexByHash (idx : Index) (h : ObjectID) : res Z :=
  match idx with
  | IMemory mi => Mem_GetIndexByHash mi h
  | IFile fi parent =>
    let* b := index (ObjectID_Bytes h) 0 in
    let* low := if b2z b =? 0 then Ok 0 else index (fanout fi) (b2z b - 1) in
    let* high := index (fanout fi) (b2z b) in
    let* found := findOid 33 fi h low high in
    match found, parent with
    | Some mid, _ => Ok (u32 (mid + minimumNumberOfHashes fi))
    | None, Some p => GetIndexByHash p h
    | None, None => Err ErrObjectNotFound
    end
  end.

Fixpoint GetHashByIndex (idx : Index) (i : Z) : res ObjectID :=
  match idx with
  | IMemory mi => Mem_GetHashByIndex mi i
  | IFile fi parent =>
    if i <? minimumNumberOfHashes fi then
      match parent with Some p => GetHashByIndex p i | None => Err ErrMalformedCommitGraphFile end
    else
      let i := i - minimumNumberOfHashes fi in
      if fanoutTotal fi <=? i then Err ErrMalformedCommitGraphFile else readOid fi i
  end.
(** [getHashesFromIndexes] does for each index what [GetHashByIndex] does. *)
Fixpoint getHashesFromIndexes (fi : fileIndex) (parent : option Index) (indexes : list Z) : res (list ObjectID) :=
  match indexes with
  | [] => Ok []
  | i :: indexes =>
    let* h := GetHashByIndex (IFile fi parent) i in
    let* hs := getHashesFromIndexes fi parent indexes in Ok (h :: hs)
  end.

(** The extra edges from an offset on, up to the last; every round reads four bytes of the file. *)
Fixpoint readExtraEdges (fuel : nat) (r : bytes) (offset : Z) : res (list Z) :=
  match fuel with
  | O => NoFuel
  | S fuel =>
    let* buf := ReadAt r szUint32 offset in
    let parent := be_decode buf in
    if Z.land parent parentLast =? parentLast then Ok [Z.land parent parentOctopusMask]
    else let* ps := readExtraEdges fuel r (i64 (offset + szUint32)) in Ok (Z.land parent parentOctopusMask :: ps)
  end.

(** The tree, the two words for the parents and the word of generation and time. *)
Definition readCommitRow (fi : fileIndex) (i : Z) : res (ObjectID * Z * Z * Z) :=
  let* sec := Section (reader fi) (i64 (offsetOf (offsets fi) CommitDataChunk + i * (SHA1Size + szCommitData))) (SHA1Size + szCommitData) in
  let* (treeHash, sec) := ReadFrom ZeroHash sec in
  let* (parent1, sec) := ReadUint32 sec in
  let* (parent2, sec) := ReadUint32 sec in
  let* (genAndTime, _) := ReadUint64 sec in Ok (treeHash, parent1, parent2, genAndTime).

Definition parentIndexesAt (fi : fileIndex) (parent1 parent2 : Z) : res (option (list Z)) :=
  if Z.land parent2 parentOctopusUsed =? parentOctopusUsed then
    let* rest := readExtraEdges (S (length (reader fi))) (reader fi) (i64 (offsetOf (offsets fi) ExtraEdgeListChunk + szUint32 * Z.land parent2 parentOctopusMask)) in
    Ok (Some (Z.land parent1 parentOctopusMask :: rest))
  else if negb (parent2 =? parentNone) then Ok (Some [Z.land parent1 parentOctopusMask; Z.land parent2 parentOctopusMask])
  else if negb (parent1 =? parentNone) then Ok (Some [Z.land parent1 parentOctopusMask])
  else Ok None.

Definition readGenerationV2 (fi : fileIndex) (i genAndTime : Z) : res Z :=
  if fHasGenerationV2 fi then
    let generationV2 := Z.land genAndTime 0x3FFFFFFFF in
    let* buf := ReadAt (reader fi) szUint32 (i64 (offsetOf (offsets fi) GenerationDataChunk + i * szUint32)) in
    let genV2Data := be_decode buf in
    if 0 <? Z.land genV2Data 0x80000000 then
      let* buf := ReadAt (reader fi) szUint64 (i64 (offsetOf (offsets fi) GenerationDataOverflowChunk + Z.land genV2Data 0x7fffffff * szUint64)) in
      Ok (u64 (generationV2 + be_decode buf))
    else Ok (u64 (generationV2 + genV2Data))
  else Ok 0.

Fixpoint GetCommitDataByIndex (idx : Index) (i : Z) : res (CommitData * Index) :=
  match idx with
  | IMemory mi => let* (d, mi) := Mem_GetCommitDataByIndex mi i in Ok (d, IMemory mi)
  | IFile fi parent =>
    if i <? minimumNumberOfHashes fi then
      match parent with
      | Some p => let* (d, p) := GetCommitDataByIndex p i in Ok (d, IFile fi (Some p))
      | None => Err ErrObjectNotFound
      end
    else
      let i := i - minimumNumberOfHashes fi in
      if fanoutTotal fi <=? i then Err ErrObjectNotFound
      else
        let* (treeHash, parent1, parent2, genAndTime) := readCommitRow fi i in
        let* parentIndexes := parentIndexesAt fi parent1 parent2 in
        let* parentHashes := getHashesFromIndexes fi parent (default [] parentIndexes) in
        let* generationV2 := readGenerationV2 fi i genAndTime in
        Ok (mkCommitData treeHash parentIndexes parentHashes (Z.shiftr genAndTime 34) generationV2 (Z.land genAndTime 0x3FFFFFFFF), idx)
  end.

(** [Hashes]: nil when one cannot be read. *)
Fixpoint collectHashes (f : Z -> res ObjectID) (n : nat) (from : Z) : res (list ObjectID) :=
  match n with
  | O => Ok []
  | S n => let* h := f from in let* hs := collectHashes f n (from + 1) in Ok (h :: hs)
  end.
Definition Hashes (idx : Index) : res (list ObjectID) :=
  match idx with
  | IMemory mi => Ok (Mem_Hashes mi)
  | IFile fi parent =>
    let above := collectHashes (readOid fi) (Z.to_nat (fanoutTotal fi)) 0 in
    let below := match parent with
      | Some p => collectHashes (GetHashByIndex p) (Z.to_nat (minimumNumberOfHashes fi)) 0
      | None => if 0 <? minimumNumberOfHashes fi then Panic else Ok [] end in
    match below with
    | Ok below => match above with Ok above => Ok (below ++ above) | Err _ => Ok [] | Panic => Panic | NoFuel => NoFuel end
    | Err _ => Ok []
    | Panic => Panic
    | NoFuel => NoFuel
    end
  end.

(** ** Writing a file (encoder.go) *)

(** [prepare]: commit data that cannot be had is a nil pointer here. *)
Definition fanoutOf (hashes : list ObjectID) : res (list Z) :=
  foldl (fun acc h => let* f := acc in let* b := index (ObjectID_Bytes h) 0 in let* v := index f (b2z b) in set_index f (b2z b) (u32 (v + 1)))
    (Ok (replicate 256 0)) hashes.
Fixpoint cumulative (acc : Z) (f : list Z) : list Z :=
  match f with
  | [] => []
  | v :: f => let acc := u32 (v + acc) in acc :: cumulative acc f
  end.
Definition nilPanic {A} (r : res A) : res A := match r with Err _ => Panic | r => r end.
Fixpoint countExtra (n : nat) (i : Z) (idx : Index) (edges overflows : Z) : res (Index * Z * Z) :=
  match n with
  | O => Ok (idx, edges, overflows)
  | S n =>
    let* (v, idx) := nilPanic (GetCommitDataByIndex idx i) in
    let edges := if 2 <? len (ParentHashes v) then u32 (edges + u32 (len (ParentHashes v) - 1)) else edges in
    let overflows := if HasGenerationV2 idx && (MaxUint32 <? GenerationV2Data v) then u32 (overflows + 1) else overflows in
    countExtra n (i + 1) idx edges overflows
  end.
Definition hashToIndexOf (hashes : list ObjectID) : gmap ObjectID Z := list_to_map (rev (imap (fun i h => (h, u32 (Z.of_nat i))) hashes)).

Definition encodeFileHeader (chunkCount : Z) : bytes := commitFileSignature ++ [z2b 1; z2b 1; z2b chunkCount; x00].
Fixpoint encodeChunkHeaders_loop (chunks : list (bytes * Z)) (offset : Z) : bytes :=
  match chunks with
  | [] => Signature ZeroChunk ++ WriteUint64 offset
  | (sig, size) :: chunks => sig ++ WriteUint64 offset ++ encodeChunkHeaders_loop chunks (u64 (offset + size))
  end.
Definition encodeChunkHeaders (chunks : list (bytes * Z)) : bytes :=
  encodeChunkHeaders_loop chunks (szSignature + szHeader + (len chunks + 1) * (szChunkSig + szUint64)).

(** The two words of the parents, and the extra edges with those of this commit. *)
Definition parentWords (hashToIndex : gmap ObjectID Z) (parents : list ObjectID) (extraEdges : list Z) : Z * Z * list Z :=
  let at' h := default 0 (hashToIndex !! h) in
  match parents with
  | [] => (parentNone, parentNone, extraEdges)
  | [a] => (at' a, parentNone, extraEdges)
  | [a; b] => (at' a, at' b, extraEdges)
  | a :: rest =>
    let added := map at' rest in
    (at' a, Z.lor (u32 (len extraEdges)) parentOctopusUsed,
     extraEdges ++ take (length added - 1) added ++ [Z.lor (List.last added 0) parentLast])
  end.
Fixpoint encodeCommitData (hashes : list ObjectID) (hashToIndex : gmap ObjectID Z) (idx : Index) (extraEdges : list Z) (gens : list Z) : res (bytes * Index * list Z * list Z) :=
  match hashes with
  | [] => Ok ([], idx, extraEdges, gens)
  | h :: hashes =>
    let* origIndex := match GetIndexByHash idx h with Err _ => Ok 0 | r => r end in
    let* (d, idx) := nilPanic (GetCommitDataByIndex idx origIndex) in
    let '(parent1, parent2, extraEdges) := parentWords hashToIndex (ParentHashes d) extraEdges in
    let unixTime := Z.lor (u64 (When d)) (u64 (Z.shiftl (Generation d) 34)) in
    let row := ObjectID_Bytes (TreeHash d) ++ WriteUint32 parent1 ++ WriteUint32 parent2 ++ WriteUint64 unixTime in
    let* (rows, idx, extraEdges, gens) := encodeCommitData hashes hashToIndex idx extraEdges (gens ++ [GenerationV2Data d]) in
    Ok (row ++ rows, idx, extraEdges, gens)
  end.
(** The data, and those that overflow in their order; [head] counts them. *)
Fixpoint encodeGenerationV2Data (data : list Z) (head : Z) : bytes * list Z :=
  match data with
  | [] => ([], [])
  | d :: data =>
    if 0x80000000 <=? d then
      let (b, o) := encodeGenerationV2Data data (head + 1) in (WriteUint32 (Z.lor (u32 head) 0x80000000) ++ b, d :: o)
    else let (b, o) := encodeGenerationV2Data data head in (WriteUint32 (u32 d) ++ b, o)
  end.

Section Encode.
Variable sha1 : bytes -> bytes.

Definition Encode (idx : Index) : res (bytes * Index) :=
  let* hashes := Hashes idx in
  let hashes := HashesSort hashes in
  let hashToIndex := hashToIndexOf hashes in
  let* fan := fanoutOf hashes in
  let fan := cumulative 0 fan in
  let* (idx, extraEdgesCount, generationV2OverflowCount) := countExtra (length hashes) 0 idx 0 0 in
  let n := len hashes in
  let chunks := [(Signature OIDFanoutChunk, szUint32 * lenFanout); (Signature OIDLookupChunk, u64 (n * SHA1Size)); (Signature CommitDataChunk, u64 (n * (SHA1Size + szCommitData)))]
    ++ (if 0 <? extraEdgesCount then [(Signature ExtraEdgeListChunk, u64 (extraEdgesCount * szUint32))] else [])
    ++ (if HasGenerationV2 idx then (Signature GenerationDataChunk, u64 (n * szUint32)) ::
          (if 0 <? generationV2OverflowCount then [(Signature GenerationDataOverflowChunk, u64 (generationV2OverflowCount * szUint64))] else [])
        else []) in
  let* (rows, idx, extraEdges, gens) := encodeCommitData hashes hashToIndex idx [] [] in
  let body := encodeFileHeader (len chunks) ++ encodeChunkHeaders chunks ++ flat_map WriteUint32 fan ++ flat_map ObjectID_Bytes hashes ++ rows ++ flat_map WriteUint32 extraEdges ++
    (if HasGenerationV2 idx then let (b, o) := encodeGenerationV2Data gens 0 in b ++ flat_map WriteUint64 o else []) in
  Ok (body ++ sha1 body, idx).
End Encode.

(** ** Chains (chain.go) *)

(** [ReadSlice] of a buffered reader, whose buffer has 4096 bytes. *)
Definition ReadSlice (r : bytes) (delim : byte) : res (bytes * bytes) :=
  match ReadBytes (take 4096 r) delim with
  | Ok (line, _) => Ok (line, drop (length line) r)
  | Err EOF => if 4096 <=? len r then Err ErrBufferFull else Err EOF
  | e => e
  end.

(** The hashes of a chain file; a last line without a newline is left out. *)
Fixpoint OpenChainFile_loop (fuel : nat) (r : bytes) (chain : list bytes) : res (list bytes) :=
  match fuel with
  | O => NoFuel
  | S fuel =>
    match ReadSlice r x0a with
    | Ok (line, r) =>
      let hashStr := take (length line - 1) line in
      if IsHash hashStr then OpenChainFile_loop fuel r (chain ++ [hashStr]) else Err ErrMalformedCommitGraphFile
    | Err EOF => Ok chain
    | Err e => Err e
    | Panic => Panic
    | NoFuel => NoFuel
    end
  end.
Definition OpenChainFile (r : option bytes) : res (list bytes) :=
  match r with None => Err ErrUnexpectedEOF | Some r => OpenChainFile_loop (S (length r)) r [] end.
