(* ===== verification/CommitGraphProofs.v ===== *)
(** * The commit-graph file gives back the graph

    A graph in memory that is encoded and opened again answers for every commit with its tree, parents, generation and
    time, and with the index of each parent. *)
From stdpp Require Import sorting.
From S2P Require Import Prelude Binary GoStrings ObjectID Packp AdvRefsProofs UlreqProofs Idxfile IdxfileTables IdxfileProofs TreesProofs PackEncoderProofs CommitGraph.

(** ** The table of chunks *)
Section Chunks.

(** Chunks by their type, with their bytes. *)
Variable chunks : list (ChunkType * bytes).
Notation table := (map (fun c : ChunkType * bytes => (Signature c.1, len c.2)) chunks).

Lemma Signature_len ct : len (Signature ct) = 4.
Proof.
  unfold Signature. destruct ((BaseGraphsListChunk <=? ct) || (ct <? 0)) eqn:E; [reflexivity|]. apply orb_false_iff in E as [E1 E2]. unfold BaseGraphsListChunk in E1.
  assert (ct = 0 \/ ct = 1 \/ ct = 2 \/ ct = 3 \/ ct = 4 \/ ct = 5 \/ ct = 6 \/ ct = 7) as Hc by lia. repeat (destruct Hc as [->|Hc]; [reflexivity|]). subst. reflexivity.
Qed.

Lemma Signature_type ct : 0 <= ct < 8 -> ChunkTypeFromBytes (Signature ct) = Some ct.
Proof.
  intros H. assert (ct = 0 \/ ct = 1 \/ ct = 2 \/ ct = 3 \/ ct = 4 \/ ct = 5 \/ ct = 6 \/ ct = 7) as Hc by lia. repeat (destruct Hc as [->|Hc]; [reflexivity|]). subst. reflexivity.
Qed.

Definition body_of (cs : list (ChunkType * bytes)) : bytes := flat_map snd cs.

Lemma table_len (cs : list (bytes * Z)) off : Forall (fun c => len c.1 = 4) cs -> len (encodeChunkHeaders_loop cs off) = 12 * (len cs + 1).
Proof.
  intros H. revert off. induction H as [|[sig size] cs Hc _ IH]; intros off; cbn [encodeChunkHeaders_loop]; rewrite !len_app; unfold WriteUint64; rewrite be_encode_len.
  - rewrite Signature_len. done.
  - rewrite IH, len_cons. cbn [fst] in Hc. lia.
Qed.

(** What the loop makes of the offsets: each chunk starts where the one before it ends. *)
Fixpoint offsets_from (cs : list (ChunkType * bytes)) (off : Z) (offs : list Z) : list Z :=
  match cs with
  | [] => offs
  | (ct, b) :: cs => offsets_from cs (off + len b) (<[Z.to_nat ct := off]> offs)
  end.

Lemma offsets_from_length cs : forall off offs, length (offsets_from cs off offs) = length offs.
Proof. induction cs as [|[ct b] cs IH]; intros off offs; cbn [offsets_from]; [done|]. by rewrite IH, length_insert. Qed.

Lemma to_nat_len {A} (l : list A) : Z.to_nat (len l) = length l.
Proof. unfold len. lia. Qed.

Lemma ReadAt_app pre b post n off : len pre = off -> len b = n -> ReadAt (pre ++ b ++ post) n off = Ok b.
Proof.
  intros <- <-. unfold ReadAt. pose proof (len_nonneg pre). destruct (Z.ltb_spec (len pre) 0); [lia|]. rewrite !to_nat_len, drop_app_length, take_app_length.
  destruct (Z.ltb_spec (len b) (len b)); [lia|done].
Qed.
Lemma Section_app pre b post n off : len pre = off -> len b = n -> CommitGraph.Section (pre ++ b ++ post) off n = Ok b.
Proof.
  intros <- <-. unfold CommitGraph.Section. pose proof (len_nonneg pre). destruct (Z.ltb_spec (len pre) 0); [lia|]. by rewrite !to_nat_len, drop_app_length, take_app_length.
Qed.

Lemma readChunkHeaders_loop_ok cs : Forall (fun c : ChunkType * bytes => 0 <= c.1 < 8) cs -> forall fuel pre post i off offs,
  (length cs < fuel)%nat -> len pre = 8 + i * 12 -> 0 <= off -> off + len (body_of cs) < 2 ^ 63 -> length offs = 9%nat ->
  readChunkHeaders_loop fuel (pre ++ encodeChunkHeaders_loop (map (fun c => (Signature c.1, len c.2)) cs) off ++ post) i offs = Ok (offsets_from cs off offs).
Proof.
  induction 1 as [|[ct b] cs Hct _ IH]; intros fuel pre post i off offs Hf Hpre Hoff Hlen Ho; (destruct fuel as [|fuel]; [cbn in Hf; lia|]); cbn [readChunkHeaders_loop map encodeChunkHeaders_loop fst snd].
  - change (szSignature + szHeader + i * (szChunkSig + szUint64)) with (8 + i * 12). change (szChunkSig + szUint64) with 12.
    rewrite Section_app; [|done|rewrite len_app, Signature_len; unfold WriteUint64; by rewrite be_encode_len]. cbn [res_bind].
    rewrite readFull_app by apply Signature_len. cbn [res_bind]. rewrite <- (app_nil_r (WriteUint64 off)), ReadUint64_app by (change (len (body_of [])) with 0 in Hlen; lia). cbn [res_bind]. done.
  - change (body_of ((ct, b) :: cs)) with (b ++ body_of cs) in Hlen. rewrite len_app in Hlen. pose proof (len_nonneg b). pose proof (len_nonneg (body_of cs)). cbn [fst] in Hct.
    change (szSignature + szHeader + i * (szChunkSig + szUint64)) with (8 + i * 12). change (szChunkSig + szUint64) with 12.
    match goal with |- context [pre ++ (?a ++ ?b ++ ?c) ++ post] => assert (pre ++ (a ++ b ++ c) ++ post = pre ++ (a ++ b) ++ c ++ post) as -> by (by rewrite <- !app_assoc) end.
    rewrite Section_app; [|done|rewrite len_app, Signature_len; unfold WriteUint64; by rewrite be_encode_len]. cbn [res_bind].
    rewrite readFull_app by apply Signature_len. cbn [res_bind]. rewrite <- (app_nil_r (WriteUint64 off)) at 1. rewrite ReadUint64_app by lia. cbn [res_bind]. rewrite Signature_type by done.
    unfold ZeroChunk. destruct (Z.eqb_spec ct 9); [lia|]. destruct (Z.leb_spec (len offs) ct) as [|Hle]; [unfold len in *; lia|]. cbn [orb].
    unfold set_index. destruct (Z.ltb_spec ct 0); [lia|]. destruct (Z.leb_spec (len offs) ct); [lia|]. cbn [orb res_bind]. rewrite i64_small by lia. rewrite (u64_small (off + len b)) by lia.
    cbn [offsets_from]. rewrite app_assoc. apply IH; [cbn in Hf; lia| |lia|lia|by rewrite length_insert]. rewrite !len_app, Signature_len. unfold WriteUint64. rewrite be_encode_len. lia.
Qed.

Lemma offsets_absent cs ct : ct ∉ map fst cs -> 0 <= ct -> Forall (fun c : ChunkType * bytes => 0 <= c.1) cs -> forall off offs, offsetOf (offsets_from cs off offs) ct = offsetOf offs ct.
Proof.
  intros Hn Hct. induction 1 as [|[ct' b] cs Hc _ IH]; intros off offs; cbn [offsets_from]; [done|]. cbn [map fst] in *. apply not_elem_of_cons in Hn as [Hne Hn]. rewrite IH by done.
  unfold offsetOf. rewrite !nth_lookup. rewrite list_lookup_insert_ne; [done|lia].
Qed.

Lemma offsets_here pre ct b post : NoDup (map fst (pre ++ (ct, b) :: post)) -> Forall (fun c : ChunkType * bytes => 0 <= c.1 < 8) (pre ++ (ct, b) :: post) -> forall off offs, length offs = 9%nat ->
  offsetOf (offsets_from (pre ++ (ct, b) :: post) off offs) ct = off + len (body_of pre).
Proof.
  induction pre as [|[ct' b'] pre IH]; intros Hnd Hall off offs Ho; cbn [app offsets_from map fst] in *; apply NoDup_cons in Hnd as [Hn Hnd]; apply Forall_cons in Hall as [Hct Hall]; cbn [fst] in Hct.
  - rewrite offsets_absent; [|done|lia|eapply Forall_impl; [exact Hall|]; cbn; intros; lia]. unfold offsetOf. rewrite nth_lookup, list_lookup_insert_eq by lia. change (len (body_of [])) with 0. cbn [from_option id]. lia.
  - rewrite IH by (done || by rewrite length_insert). change (body_of ((ct', b') :: pre)) with (b' ++ body_of pre). rewrite len_app. lia.
Qed.

(** A file of chunks. *)
Variable tail : bytes.
Hypothesis Hnd : NoDup (map fst chunks).
Hypothesis Htypes : Forall (fun c : ChunkType * bytes => 0 <= c.1 < 8) chunks.
Hypothesis Hsmall : 8 + 12 * (len chunks + 1) + len (body_of chunks) < 2 ^ 62.

Definition chunkFile : bytes := encodeFileHeader (len chunks) ++ encodeChunkHeaders table ++ body_of chunks ++ tail.
Definition chunkOffsets : list Z := offsets_from chunks (8 + 12 * (len chunks + 1)) (replicate 9 0).

Lemma chunkFile_header : verifyFileHeader chunkFile = Ok tt.
Proof. unfold verifyFileHeader, chunkFile, encodeFileHeader. reflexivity. Qed.

Lemma chunkFile_table_len : len (encodeChunkHeaders table) = 12 * (len chunks + 1).
Proof. unfold encodeChunkHeaders. rewrite table_len by (apply Forall_map; apply Forall_true; intros; apply Signature_len). by rewrite len_map. Qed.

Lemma chunkFile_here ct b : (ct, b) ∈ chunks -> 0 < offsetOf chunkOffsets ct < 2 ^ 62 /\ exists pre post, chunkFile = pre ++ b ++ post /\ len pre = offsetOf chunkOffsets ct.
Proof.
  intros Hin. apply list_elem_of_split in Hin as (pre & post & E). 
  assert (offsetOf chunkOffsets ct = 8 + 12 * (len chunks + 1) + len (body_of pre)) as ->.
  { unfold chunkOffsets. rewrite E in Hnd, Htypes. rewrite <- (offsets_here pre ct b post Hnd Htypes (8 + 12 * (len chunks + 1)) (replicate 9 0) eq_refl). by rewrite <- E. }
  pose proof (len_nonneg chunks). pose proof (len_nonneg (body_of pre)).
  assert (body_of chunks = body_of pre ++ b ++ body_of post) as Eb by (rewrite E; unfold body_of; by rewrite flat_map_app). rewrite Eb, !len_app in Hsmall. pose proof (len_nonneg b). pose proof (len_nonneg (body_of post)).
  split; [lia|]. exists (encodeFileHeader (len chunks) ++ encodeChunkHeaders table ++ body_of pre), (body_of post ++ tail). split.
  - unfold chunkFile. rewrite Eb. by rewrite <- !app_assoc.
  - rewrite !len_app, chunkFile_table_len. change (len (encodeFileHeader (len chunks))) with 8. lia.
Qed.

Lemma chunkFile_absent ct : ct ∉ map fst chunks -> 0 <= ct < 9 -> offsetOf chunkOffsets ct = 0.
Proof.
  intros Hn Hct. unfold chunkOffsets. rewrite offsets_absent; [|done|lia|eapply Forall_impl; [exact Htypes|]; cbn; intros; lia].
  unfold offsetOf. rewrite nth_lookup. destruct (replicate 9 0 !! Z.to_nat ct) as [x|] eqn:E; [|done]. by apply lookup_replicate in E as [-> _].
Qed.

Lemma chunkFile_offsets : (forall ct, 0 <= ct <= 2 -> ct ∈ map fst chunks) -> readChunkHeaders chunkFile = Ok chunkOffsets.
Proof.
  intros Hreq. unfold readChunkHeaders. pose proof (len_nonneg chunks). pose proof (len_nonneg (body_of chunks)).
  assert (len table = len chunks) as Et by apply len_map.
  assert (readChunkHeaders_loop (S (length chunkFile)) chunkFile 0 (replicate (Z.to_nat lenChunks) 0) = Ok chunkOffsets) as ->.
  { unfold chunkFile at 2, encodeChunkHeaders. rewrite Et. change (szSignature + szHeader + (len chunks + 1) * (szChunkSig + szUint64)) with (8 + (len chunks + 1) * 12). rewrite (Z.mul_comm (len chunks + 1)).
    apply readChunkHeaders_loop_ok; [done| |done|lia|lia|done]. assert (len chunks < len chunkFile); [|unfold len in *; lia].
    unfold chunkFile. rewrite !len_app, chunkFile_table_len. pose proof (len_nonneg tail). change (len (encodeFileHeader (len chunks))) with 8. lia. }
  cbn [res_bind]. assert (forall ct, 0 <= ct <= 2 -> 0 < offsetOf chunkOffsets ct) as Hpos.
  { intros ct Hct. specialize (Hreq ct Hct). apply list_elem_of_fmap in Hreq as ([ct' b] & -> & Hin). by destruct (chunkFile_here _ _ Hin) as [[? _] _]. }
  unfold OIDFanoutChunk, OIDLookupChunk, CommitDataChunk. pose proof (Hpos 0). pose proof (Hpos 1). pose proof (Hpos 2).
  destruct (Z.leb_spec (offsetOf chunkOffsets 0) 0); [lia|]. destruct (Z.leb_spec (offsetOf chunkOffsets 1) 0); [lia|]. destruct (Z.leb_spec (offsetOf chunkOffsets 2) 0); [lia|]. done.
Qed.
End Chunks.

(** ** Tables of rows of one width *)
Lemma flat_map_len {A} (f : A -> bytes) w (l : list A) : (forall y, y ∈ l -> len (f y) = w) -> len (flat_map f l) = len l * w.
Proof. induction l as [|y l IH]; intros Hl; [done|]. cbn [flat_map]. rewrite len_app, len_cons, IH by (intros; apply Hl; by right). rewrite Hl by (by left). lia. Qed.

Lemma flat_map_at {A} (f : A -> bytes) (w : Z) l k x : (forall y, y ∈ l -> len (f y) = w) -> l !! k = Some x ->
  exists a b, flat_map f l = a ++ f x ++ b /\ len a = Z.of_nat k * w.
Proof.
  intros Hw Hk. exists (flat_map f (take k l)), (flat_map f (drop (S k) l)). split.
  - rewrite <- (take_drop_middle l k x Hk) at 1. by rewrite flat_map_app.
  - rewrite (flat_map_len f w) by (intros y Hy; apply Hw; rewrite <- (take_drop k l); apply elem_of_app; by left).
    apply lookup_lt_Some in Hk. unfold len. rewrite length_take. lia.
Qed.

Lemma table_at {A} (file pre : bytes) (f : A -> bytes) (w off : Z) l k x post : file = pre ++ flat_map f l ++ post -> len pre = off -> (forall y, y ∈ l -> len (f y) = w) -> l !! k = Some x ->
  exists a b, file = a ++ f x ++ b /\ len a = off + Z.of_nat k * w.
Proof.
  intros -> <- Hw Hk. destruct (flat_map_at f w l k x Hw Hk) as (a & b & -> & Ha). exists (pre ++ a), (b ++ post). split; [by rewrite <- !app_assoc|]. rewrite len_app. lia.
Qed.

Lemma words32_len l : len (flat_map WriteUint32 l) = len l * 4.
Proof. apply flat_map_len. intros. unfold WriteUint32. by rewrite be_encode_len. Qed.
Lemma words64_len l : len (flat_map WriteUint64 l) = len l * 8.
Proof. apply flat_map_len. intros. unfold WriteUint64. by rewrite be_encode_len. Qed.

(** ** A file and its tables *)
Definition Row : Type := ObjectID * Z * Z * Z.
Definition rowBytes (r : Row) : bytes := let '(t, p1, p2, gt) := r in ObjectID_Bytes t ++ WriteUint32 p1 ++ WriteUint32 p2 ++ WriteUint64 gt.
Definition row_ok (r : Row) : Prop := let '(t, p1, p2, gt) := r in IdxfileTables.sha1_id t /\ 0 <= p1 < 2 ^ 32 /\ 0 <= p2 < 2 ^ 32 /\ 0 <= gt < 2 ^ 64.

(** The number of identifiers whose first byte is at most [j]. *)
Definition firstByte (h : ObjectID) : Z := b2z (default x00 (ObjectID_Bytes h !! 0%nat)).
Definition upTo (hs : list ObjectID) (j : Z) : Z := len (filter (fun h => firstByte h <= j) hs).

Lemma first_less a b x y : a !! 0%nat = Some x -> b !! 0%nat = Some y -> b2z x < b2z y -> compareBytes a b < 0.
Proof. destruct a as [|x' a], b as [|y' b]; intros [= ->] [= ->] Hlt. cbn [compareBytes]. destruct (Z.ltb_spec (b2z x) (b2z y)); [done|lia]. Qed.

Lemma firstByte_at h : IdxfileTables.sha1_id h -> exists b, ObjectID_Bytes h !! 0%nat = Some b /\ firstByte h = b2z b.
Proof. intros Hh. destruct (sha1_first h Hh) as [b Hb]. exists b. split; [done|]. unfold firstByte. by rewrite Hb. Qed.

(** The identifiers up to a first byte are a prefix. *)
Lemma upTo_prefix hs j : Forall IdxfileTables.sha1_id hs -> StronglySorted ltName (map ObjectID_Bytes hs) -> forall i h, hs !! i = Some h -> Z.of_nat i < upTo hs j <-> firstByte h <= j.
Proof.
  induction hs as [|x hs IH]; intros Hall Hs i h Hi; [done|]. apply Forall_cons in Hall as [Hx Hall]. cbn [map] in Hs. inversion Hs as [|? ? Hs' Hle]; subst.
  assert (forall y, y ∈ hs -> firstByte x <= firstByte y) as Hmono.
  { intros y Hy. rewrite Forall_map in Hle. rewrite Forall_forall in Hle, Hall. destruct (firstByte_at x Hx) as (bx & Ex & ->), (firstByte_at y (Hall y Hy)) as (b & Ey & ->). eapply ltName_first; [exact (Hle y Hy)|done..]. }
  unfold upTo in *. rewrite filter_cons. destruct (decide (firstByte x <= j)) as [Hle'|Hgt].
  - rewrite len_cons. destruct i as [|i]; [injection Hi as <-; pose proof (len_nonneg (filter (fun h => firstByte h <= j) hs)); lia|]. rewrite <- (IH Hall Hs' i h Hi). lia.
  - assert (filter (fun h => firstByte h <= j) hs = []) as ->. { destruct (filter _ hs) as [|z l] eqn:E; [done|]. assert (z ∈ filter (fun h => firstByte h <= j) hs) as Hz by (rewrite E; left). apply list_elem_of_filter in Hz as [Hz1 Hz2]. specialize (Hmono z Hz2). lia. }
    change (len (@nil ObjectID)) with 0. destruct i as [|i]; [injection Hi as <-; lia|]. specialize (Hmono h ltac:(by eapply list_elem_of_lookup_2)). lia.
Qed.

(** Words with and without the high bit. *)
Lemma low_word x : 0 <= x < 2 ^ 31 -> Z.land x 0x80000000 = 0 /\ Z.land x 0x7fffffff = x.
Proof.
  intros Hx. split; [|by apply (land_low_mask x 31)]. pose proof (land_pow2_testbit x 31 ltac:(lia)) as H. rewrite (testbit_above 31) in H by lia. change (2 ^ 31) with 0x80000000 in H.
  apply negb_false_iff, Z.eqb_eq in H. exact H.
Qed.

Lemma high_word x : 0 <= x < 2 ^ 31 -> Z.lor x 0x80000000 = x + 2 ^ 31 /\ Z.land (Z.lor x 0x80000000) 0x80000000 = 0x80000000 /\ Z.land (Z.lor x 0x80000000) 0x7fffffff = x.
Proof.
  intros Hx. destruct (low_word x Hx) as [H0 H1]. split; [change 0x80000000 with (Z.shiftl 1 31) at 1; rewrite lor_shiftl_add by lia; lia|]. rewrite !Z.land_lor_distr_l, H0, H1. split; [done|]. change (Z.land 0x80000000 0x7fffffff) with 0. by rewrite Z.lor_0_r.
Qed.

(** The last of the extra edges of a commit is marked. *)
Fixpoint flagLast (ps : list Z) : list Z := match ps with [] => [] | [p] => [Z.lor p parentLast] | p :: ps => p :: flagLast ps end.

Lemma flagLast_length ps : length (flagLast ps) = length ps.
Proof. induction ps as [|p [|q ps] IH]; [done..|]. cbn [flagLast length] in *. by rewrite IH. Qed.

Lemma upTo_mono hs i j : i <= j -> upTo hs i <= upTo hs j.
Proof.
  intros Hij. unfold upTo, len. induction hs as [|x hs IH]; [done|]. rewrite !filter_cons. repeat case_decide; cbn [length]; lia.
Qed.

Section Layout.
Variable hs : list ObjectID.
Variable rows : list Row.
Variable edges gens ovf : list Z.
Variable has : bool.
Variable tail : bytes.
Hypothesis Hhs : Forall IdxfileTables.sha1_id hs.
Hypothesis Hsorted : StronglySorted ltName (map ObjectID_Bytes hs).
Hypothesis Hn : len hs < 2 ^ 28.
Hypothesis Hrows : Forall row_ok rows.
Hypothesis Hrn : length rows = length hs.
Hypothesis Hedges : Forall (fun z => 0 <= z < 2 ^ 32) edges.
Hypothesis Hen : len edges < 2 ^ 31.
Hypothesis Hgens : has = true -> length gens = length hs /\ Forall (fun z => 0 <= z < 2 ^ 32) gens.
Hypothesis Hovf : Forall (fun z => 0 <= z < 2 ^ 64) ovf.
Hypothesis Hon : len ovf < 2 ^ 31.

Notation fan := (map (upTo hs) (seqZ 0 256)).
Definition graphChunks : list (ChunkType * bytes) :=
  [(OIDFanoutChunk, flat_map WriteUint32 fan); (OIDLookupChunk, flat_map ObjectID_Bytes hs); (CommitDataChunk, flat_map rowBytes rows)] ++
  (if bool_decide (edges = []) then [] else [(ExtraEdgeListChunk, flat_map WriteUint32 edges)]) ++
  (if has then (GenerationDataChunk, flat_map WriteUint32 gens) :: (if bool_decide (ovf = []) then [] else [(GenerationDataOverflowChunk, flat_map WriteUint64 ovf)]) else []).
Definition graphFile : bytes := chunkFile graphChunks tail.
Definition graphIndex : fileIndex := mkFileIndex graphFile fan (chunkOffsets graphChunks) has 0.

Lemma graphChunks_types : NoDup (map fst graphChunks) /\ Forall (fun c : ChunkType * bytes => 0 <= c.1 < 8) graphChunks /\ len graphChunks <= 6.
Proof.
  unfold graphChunks. destruct (bool_decide (edges = [])), has, (bool_decide (ovf = [])); cbn [app map fst]; (split; [apply (bool_decide_unpack _); vm_compute; exact I|]); (split; [repeat constructor; cbn; done|]); unfold len; cbn; lia.
Qed.

Lemma hash_len h : h ∈ hs -> len (ObjectID_Bytes h) = 20.
Proof. intros Hin. rewrite Forall_forall in Hhs. by destruct (sha1_bytes h (Hhs h Hin)). Qed.
Lemma row_len r : r ∈ rows -> len (rowBytes r) = 36.
Proof.
  intros Hin. rewrite Forall_forall in Hrows. specialize (Hrows r Hin). destruct r as [[[t p1] p2] gt]. destruct Hrows as (Ht & _). cbn [rowBytes]. rewrite !len_app. unfold WriteUint32, WriteUint64. rewrite !be_encode_len.
  destruct (sha1_bytes t Ht) as [-> _]. done.
Qed.

Lemma graphChunks_small : 8 + 12 * (len graphChunks + 1) + len (body_of graphChunks) < 2 ^ 62.
Proof.
  destruct graphChunks_types as (_ & _ & Hl). assert (len (body_of graphChunks) <= 1024 + len hs * 20 + len hs * 36 + len edges * 4 + len hs * 4 + len ovf * 8); [|lia].
  unfold graphChunks, body_of. rewrite !flat_map_app, !len_app. cbn [flat_map snd]. rewrite !len_app, words32_len. change (len fan) with 256. rewrite (flat_map_len ObjectID_Bytes 20) by apply hash_len. rewrite (flat_map_len rowBytes 36) by apply row_len.
  assert (len rows = len hs) as -> by (unfold len; lia). change (len (@nil byte)) with 0. pose proof (len_nonneg hs). pose proof (len_nonneg edges). pose proof (len_nonneg ovf).
  assert (len (flat_map snd (if bool_decide (edges = []) then [] else [(ExtraEdgeListChunk, flat_map WriteUint32 edges)])) <= len edges * 4).
  { destruct (bool_decide _); cbn [flat_map snd]; [change (len (@nil byte)) with 0; lia|]. rewrite app_nil_r, words32_len. lia. }
  assert (len (flat_map snd (if has then (GenerationDataChunk, flat_map WriteUint32 gens) :: (if bool_decide (ovf = []) then [] else [(GenerationDataOverflowChunk, flat_map WriteUint64 ovf)]) else [])) <= len hs * 4 + len ovf * 8); [|lia].
  destruct has; [|change (len (@nil byte)) with 0; cbn [flat_map]; change (len (@nil byte)) with 0; lia]. destruct (Hgens eq_refl) as [Hgl _]. cbn [flat_map snd]. rewrite len_app, words32_len. assert (len gens = len hs) as -> by (unfold len; lia).
  destruct (bool_decide (ovf = [])); cbn [flat_map snd app]; [unfold len in *; cbn [length] in *; lia|]. rewrite app_nil_r, words64_len. lia.
Qed.

Lemma chunk_at ct b : (ct, b) ∈ graphChunks -> 0 < offsetOf (offsets graphIndex) ct < 2 ^ 62 /\ exists pre post, reader graphIndex = pre ++ b ++ post /\ len pre = offsetOf (offsets graphIndex) ct.
Proof. destruct graphChunks_types as (H1 & H2 & _). intros Hin. by apply (chunkFile_here graphChunks tail H1 H2 graphChunks_small). Qed.

(** The row [k] of a table is at its place. *)
Lemma row_at {A} ct (f : A -> bytes) w l k x : (ct, flat_map f l) ∈ graphChunks -> (forall y, y ∈ l -> len (f y) = w) -> l !! k = Some x -> 0 <= w <= 40 -> len l < 2 ^ 40 ->
  exists a b, reader graphIndex = a ++ f x ++ b /\ len a = i64 (offsetOf (offsets graphIndex) ct + Z.of_nat k * w).
Proof.
  intros Hin Hw Hk Hw0 Hl. destruct (chunk_at _ _ Hin) as [Hoff (pre & post & E & Ep)]. destruct (table_at _ pre f w _ l k x post E Ep Hw Hk) as (a & b & E' & Ha). exists a, b. split; [done|].
  rewrite Ha. apply lookup_lt_Some in Hk. unfold len in Hl. rewrite i64_small; [done|nia].
Qed.

Lemma oid_chunk : (OIDLookupChunk, flat_map ObjectID_Bytes hs) ∈ graphChunks.
Proof. unfold graphChunks. cbn [app]. right. left. Qed.
Lemma row_chunk : (CommitDataChunk, flat_map rowBytes rows) ∈ graphChunks.
Proof. unfold graphChunks. cbn [app]. right. right. left. Qed.
Lemma fanout_chunk : (OIDFanoutChunk, flat_map WriteUint32 fan) ∈ graphChunks.
Proof. unfold graphChunks. cbn [app]. left. Qed.
Lemma edge_chunk : edges <> [] -> (ExtraEdgeListChunk, flat_map WriteUint32 edges) ∈ graphChunks.
Proof. intros He. unfold graphChunks. rewrite (bool_decide_eq_false_2 _ He). apply elem_of_app. right. left. Qed.
Lemma gen_chunk : has = true -> (GenerationDataChunk, flat_map WriteUint32 gens) ∈ graphChunks.
Proof. intros Hh. unfold graphChunks. rewrite Hh. apply elem_of_app. right. apply elem_of_app. right. left. Qed.
Lemma ovf_chunk : has = true -> ovf <> [] -> (GenerationDataOverflowChunk, flat_map WriteUint64 ovf) ∈ graphChunks.
Proof. intros Hh Ho. unfold graphChunks. rewrite Hh, (bool_decide_eq_false_2 _ Ho). apply elem_of_app. right. apply elem_of_app. right. right. left. Qed.

Lemma readFanout_loop_ok l r : Forall (fun z => 0 <= z < 2 ^ 31) l -> readFanout_loop (length l) (flat_map WriteUint32 l ++ r) = Ok l.
Proof.
  induction 1 as [|z l Hz _ IH]; [done|]. cbn [length readFanout_loop flat_map]. rewrite <- app_assoc, ReadUint32_app by lia. cbn [res_bind]. destruct (Z.ltb_spec 0x7fffffff z); [lia|]. by rewrite IH.
Qed.

Lemma upTo_range j : 0 <= upTo hs j <= len hs.
Proof. unfold upTo. split; [apply len_nonneg|]. unfold len. apply inj_le, length_filter. Qed.

Lemma graph_opens : OpenFileIndex (Some graphFile) = Ok (IFile graphIndex None).
Proof.
  unfold OpenFileIndex, OpenFileIndexWithParent. unfold graphFile at 1. rewrite chunkFile_header. cbn [res_bind]. destruct graphChunks_types as (H1 & H2 & _).
  unfold graphFile at 1. rewrite (chunkFile_offsets graphChunks tail H1 H2 graphChunks_small); [|intros ct Hct; unfold graphChunks; rewrite map_app; apply elem_of_app; left; cbn; unfold OIDFanoutChunk, OIDLookupChunk, CommitDataChunk; assert (ct = 0 \/ ct = 1 \/ ct = 2) as [->|[->| ->]] by lia; set_solver].
  cbn [res_bind]. unfold readFanout. destruct (chunk_at _ _ fanout_chunk) as [Hoff (pre & post & E & Ep)]. cbn [reader offsets graphIndex] in E, Ep. rewrite E, <- Ep.
  rewrite Section_app; [|done|rewrite words32_len; done]. cbn [res_bind]. pose proof (readFanout_loop_ok fan []) as Hread. rewrite app_nil_r in Hread. change (readFanout_loop 256) with (readFanout_loop (length fan)). rewrite Hread by (apply Forall_map, Forall_true; intros j; pose proof (upTo_range j); lia).
  cbn [res_bind]. unfold graphIndex. rewrite <- E. do 3 f_equal. assert (has = true \/ has = false) as [Ehas|Ehas] by (clear; destruct has; auto); rewrite Ehas.
  - destruct (chunk_at _ _ (gen_chunk Ehas)) as [Hg _]. cbn [graphIndex offsets] in Hg. lia.
  - rewrite chunkFile_absent; [done..| |unfold GenerationDataChunk; lia]. unfold graphChunks. rewrite Ehas. destruct (bool_decide _); cbn [app map fst]; apply (bool_decide_unpack _); vm_compute; exact I.
Qed.

Lemma readOid_ok k h : hs !! k = Some h -> readOid graphIndex (Z.of_nat k) = Ok h.
Proof.
  intros Hk. destruct (row_at _ _ 20 _ _ _ oid_chunk hash_len Hk) as (a & b & E & Ha); [lia|lia|]. unfold readOid. change SHA1Size with 20. rewrite <- Ha, E.
  assert (h ∈ hs) as Hin by (by eapply list_elem_of_lookup_2). rewrite Section_app; [|done|by apply hash_len]. cbn [res_bind]. rewrite <- (app_nil_r (ObjectID_Bytes h)).
  rewrite Forall_forall in Hhs. destruct (Hhs h Hin) as [Hw Hf]. change (ObjectID_Bytes h) with (WriteTo h). by rewrite ReadFrom_WriteTo.
Qed.

Notation names := (map ObjectID_Bytes hs).

Lemma findOid_ok n h : forall fuel low high, searchInv names h low high -> high - low < 2 ^ Z.of_nat n -> (n < fuel)%nat -> exists o, findOid fuel graphIndex h low high = Ok o /\ found names h o.
Proof.
  induction n as [|n IH]; intros fuel low high Hinv Hlt Hf; (destruct fuel as [|fuel]; [lia|]); cbn [findOid]; destruct (Z.ltb_spec low high) as [Hlh|Hlh];
    try (exists None; split; [done|]; by apply (not_found names h low high Hinv)); [change (2 ^ Z.of_nat 0) with 1 in Hlt; lia|].
  pose proof Hinv as (Hl & Hh & _). rewrite len_map in Hh. rewrite u32_small by lia. rewrite Z.shiftr_div_pow2 by lia. change (2 ^ 1) with 2. set (mid := (low + high) / 2).
  assert (low <= mid < high) as Hm by (unfold mid; split; [apply Z.div_le_lower_bound; lia|apply Z.div_lt_upper_bound; lia]).
  destruct (lookup_lt_is_Some_2 hs (Z.to_nat mid)) as [oid Hoid]; [unfold len in *; lia|]. pose proof (readOid_ok _ _ Hoid) as Hr. rewrite Z2Nat.id in Hr by lia. rewrite Hr. cbn [res_bind].
  assert (names !! Z.to_nat mid = Some (ObjectID_Bytes oid)) as Hx by (by rewrite list_lookup_fmap, Hoid). rewrite Nat2Z.inj_succ, Z.pow_succ_r in Hlt by lia.
  assert (mid - low < 2 ^ Z.of_nat n /\ high - (mid + 1) < 2 ^ Z.of_nat n) as [Hb1 Hb2] by (pose proof (Z.div_mod (low + high) 2); pose proof (Z.mod_pos_bound (low + high) 2); unfold mid; lia).
  destruct (Z.ltb_spec (ObjectID_Compare h (ObjectID_Bytes oid)) 0) as [Hc|Hc].
  - apply IH; [by apply (search_lower names h Hsorted low high mid (ObjectID_Bytes oid))|done|lia].
  - destruct (Z.eqb_spec (ObjectID_Compare h (ObjectID_Bytes oid)) 0) as [E|E].
    + exists (Some mid). split; [done|]. split; [lia|]. apply compareBytes_eq in E. by rewrite E.
    + apply IH; [apply (search_upper names h Hsorted low high mid (ObjectID_Bytes oid)); [done..|lia]|done|lia].
Qed.

Lemma index_fan j : 0 <= j < 256 -> index fan j = Ok (upTo hs j).
Proof. intros Hj. apply index_lookup; [lia|]. rewrite list_lookup_fmap, lookup_seqZ_lt by lia. cbn. do 2 f_equal. lia. Qed.

Lemma start_search h b : IdxfileTables.sha1_id h -> ObjectID_Bytes h !! 0%nat = Some b -> searchInv names h (if b2z b =? 0 then 0 else upTo hs (b2z b - 1)) (upTo hs (b2z b)).
Proof.
  intros Hh Hb. pose proof (upTo_range (b2z b)). pose proof (upTo_range (b2z b - 1)). split.
  { destruct (Z.eqb_spec (b2z b) 0); [lia|]. split; [lia|]. apply upTo_mono. lia. }
  split; [rewrite len_map; lia|]. intros i x Hi. rewrite list_lookup_fmap in Hi. destruct (hs !! i) as [o|] eqn:Eo; [|done]. injection Hi as <-. assert (IdxfileTables.sha1_id o) as Ho by (rewrite Forall_forall in Hhs; apply Hhs; by eapply list_elem_of_lookup_2).
  destruct (firstByte_at o Ho) as (bo & Ebo & Efb). unfold ObjectID_Compare. split; intros Hc.
  - destruct (Z.eqb_spec (b2z b) 0); [lia|]. apply (upTo_prefix hs _ Hhs Hsorted i o Eo) in Hc. rewrite compareBytes_antisym. pose proof (first_less _ _ bo b Ebo Hb). lia.
  - destruct (Z.le_gt_cases (firstByte o) (b2z b)) as [Hle|Hgt]; [apply (upTo_prefix hs _ Hhs Hsorted i o Eo) in Hle; lia|]. apply (first_less _ _ b bo Hb Ebo). lia.
Qed.

Lemma GetIndexByHash_found h : IdxfileTables.sha1_id h -> exists o, found names h o /\
  GetIndexByHash (IFile graphIndex None) h = match o with Some mid => Ok (u32 (mid + 0)) | None => Err ErrObjectNotFound end.
Proof.
  intros Hh. destruct (sha1_first h Hh) as [b Hb]. pose proof (b2z_range b). pose proof (start_search h b Hh Hb) as Hinv. cbn [GetIndexByHash]. unfold index at 1. cbn [Z.ltb Z.compare]. change (Z.to_nat 0) with 0%nat. rewrite Hb. cbn [res_bind fanout graphIndex].
  assert ((if b2z b =? 0 then Ok 0 else index fan (b2z b - 1)) = Ok (if b2z b =? 0 then 0 else upTo hs (b2z b - 1))) as ->. { destruct (Z.eqb_spec (b2z b) 0); [done|]. apply index_fan. lia. }
  cbn [res_bind]. rewrite index_fan by lia. cbn [res_bind]. destruct (findOid_ok 31 h 33 _ _ Hinv) as (o & -> & Hf); [|lia|].
  { pose proof (upTo_range (b2z b)). pose proof Hinv as ((Hl & _) & _). change (2 ^ Z.of_nat 31) with (2 ^ 31). lia. }
  exists o. split; [done|]. by destruct o.
Qed.

Lemma GetIndexByHash_ok h : IdxfileTables.sha1_id h ->
  match list_find (fun x => x = h) hs with
  | Some (k, _) => GetIndexByHash (IFile graphIndex None) h = Ok (Z.of_nat k)
  | None => GetIndexByHash (IFile graphIndex None) h = Err ErrObjectNotFound
  end.
Proof.
  intros Hh. destruct (GetIndexByHash_found h Hh) as (o & Hf & ->). destruct o as [mid|]; cbn [found] in Hf.
  - destruct Hf as [Hmid Hf]. rewrite list_lookup_fmap in Hf. destruct (hs !! Z.to_nat mid) as [o|] eqn:Eo; [|done]. injection Hf as Eh. assert (IdxfileTables.sha1_id o) as Ho by (rewrite Forall_forall in Hhs; apply Hhs; by eapply list_elem_of_lookup_2).
    apply sha1_bytes_inj in Eh; [|done..]. subst o. assert (list_find (fun x => x = h) hs = Some (Z.to_nat mid, h)) as ->.
    { apply list_find_Some. split; [done|]. split; [done|]. intros j y Hj Hlt ->. assert (ltName (ObjectID_Bytes h) (ObjectID_Bytes h)) as Hbad by (eapply (lookup_sorted names Hsorted j (Z.to_nat mid)); [by rewrite list_lookup_fmap, Hj|by rewrite list_lookup_fmap, Eo|done]).
      unfold ltName in Hbad. rewrite compareBytes_refl in Hbad. lia. }
    apply lookup_lt_Some in Eo. unfold len in Hn. rewrite u32_small by lia. f_equal. lia.
  - assert (list_find (fun x => x = h) hs = None) as ->; [|done]. apply list_find_None, Forall_forall. intros x Hx ->. apply Hf. by apply list_elem_of_fmap_2.
Qed.

Lemma fanoutTotal_ok : fanoutTotal graphIndex = len hs.
Proof.
  unfold fanoutTotal. cbn [fanout graphIndex]. change (nth 255 fan 0) with (upTo hs 255). unfold upTo. f_equal. clear Hsorted Hn Hrn Hgens. induction hs as [|x l IH]; [done|]. rewrite filter_cons.
  destruct (decide (firstByte x <= 255)) as [|Hgt]; [|exfalso; apply Hgt; unfold firstByte; pose proof (b2z_range (default x00 (ObjectID_Bytes x !! 0%nat))); lia]. f_equal. apply IH. by inversion Hhs.
Qed.

Lemma GetHashByIndex_ok k h : hs !! k = Some h -> GetHashByIndex (IFile graphIndex None) (Z.of_nat k) = Ok h.
Proof.
  intros Hk. cbn [GetHashByIndex]. cbn [minimumNumberOfHashes graphIndex]. destruct (Z.ltb_spec (Z.of_nat k) 0); [lia|]. rewrite Z.sub_0_r, fanoutTotal_ok. pose proof (lookup_lt_Some _ _ _ Hk).
  destruct (Z.leb_spec (len hs) (Z.of_nat k)); [unfold len in *; lia|]. by apply readOid_ok.
Qed.

Lemma getHashes_ok ks ps : Forall2 (fun k h => exists j, k = Z.of_nat j /\ hs !! j = Some h) ks ps -> getHashesFromIndexes graphIndex None ks = Ok ps.
Proof.
  induction 1 as [|k h ks ps (j & -> & Hj) _ IH]; [done|]. cbn [getHashesFromIndexes]. rewrite (GetHashByIndex_ok j h Hj). cbn [res_bind]. by rewrite IH.
Qed.

Lemma readCommitRow_ok k t p1 p2 gt : rows !! k = Some (t, p1, p2, gt) -> readCommitRow graphIndex (Z.of_nat k) = Ok (t, p1, p2, gt).
Proof.
  intros Hk. assert (len rows = len hs) as El by (unfold len; lia). destruct (row_at _ _ 36 _ _ _ row_chunk row_len Hk) as (a & b & E & Ha); [lia|lia|]. unfold readCommitRow. change (SHA1Size + szCommitData) with 36. rewrite <- Ha, E.
  assert ((t, p1, p2, gt) ∈ rows) as Hin by (by eapply list_elem_of_lookup_2). rewrite Section_app; [|done|by apply row_len]. cbn [res_bind]. rewrite Forall_forall in Hrows. destruct (Hrows _ Hin) as ((Hw & Hf) & H1 & H2 & H3).
  cbn [rowBytes]. change (ObjectID_Bytes t) with (WriteTo t). rewrite ReadFrom_WriteTo by done. cbn [res_bind]. rewrite ReadUint32_app by lia. cbn [res_bind]. rewrite ReadUint32_app by lia. cbn [res_bind].
  rewrite <- (app_nil_r (WriteUint64 gt)), ReadUint64_app by lia. done.
Qed.

(** A word of a table. *)
Lemma word_at ct l k x : (ct, flat_map WriteUint32 l) ∈ graphChunks -> l !! k = Some x -> 0 <= x < 2 ^ 32 -> len l < 2 ^ 40 ->
  exists buf, ReadAt (reader graphIndex) 4 (i64 (offsetOf (offsets graphIndex) ct + Z.of_nat k * 4)) = Ok buf /\ be_decode buf = x.
Proof.
  intros Hin Hk Hx Hl. destruct (row_at ct WriteUint32 4 l k x Hin) as (a & b & E & Ha); [intros; unfold WriteUint32; by rewrite be_encode_len|done|lia|lia|]. exists (WriteUint32 x). rewrite <- Ha, E. split.
  - apply ReadAt_app; [done|]. unfold WriteUint32. by rewrite be_encode_len.
  - unfold WriteUint32. rewrite be_decode_encode. change (8 * Z.of_nat 4) with 32. by apply Z.mod_small.
Qed.

Lemma readExtraEdges_ok ps : ps <> [] -> Forall (fun z => 0 <= z < 2 ^ 31) ps -> forall fuel pos rest, drop pos edges = flagLast ps ++ rest -> (length ps <= fuel)%nat ->
  readExtraEdges fuel (reader graphIndex) (i64 (offsetOf (offsets graphIndex) ExtraEdgeListChunk + 4 * Z.of_nat pos)) = Ok ps.
Proof.
  intros Hne Hps. induction Hps as [|p ps Hp Hps IH]; [done|]. intros fuel pos rest Hd Hf. destruct fuel as [|fuel]; [cbn in Hf; lia|]. cbn [readExtraEdges].
  assert (edges <> []) as He. { intros Hnil. rewrite Hnil, drop_nil in Hd. destruct ps; cbn in Hd; discriminate. } pose proof (edge_chunk He) as Hin. destruct (chunk_at _ _ Hin) as [Hoff _].
  assert (Z.of_nat pos < len edges) as Hpos. { destruct (Nat.lt_ge_cases pos (length edges)) as [|Hge]; [unfold len; lia|]. rewrite drop_ge in Hd by lia. destruct ps; cbn in Hd; discriminate. }
  set (w := match ps with [] => Z.lor p parentLast | _ => p end). assert (edges !! pos = Some w) as Hw. { rewrite <- (Nat.add_0_r pos), <- lookup_drop, Hd. unfold w. by destruct ps. }
  assert (0 <= w < 2 ^ 32) as Hwr. { unfold w. destruct ps; [unfold parentLast; destruct (high_word p Hp) as [-> _]|]; lia. }
  destruct (word_at ExtraEdgeListChunk edges pos w Hin Hw Hwr) as (buf & E & Eb); [lia|]. change szUint32 with 4. rewrite (Z.mul_comm 4), E. cbn [res_bind]. rewrite Eb. unfold w. unfold parentLast, parentOctopusMask. destruct ps as [|q ps].
  - destruct (high_word p Hp) as (_ & -> & ->). done.
  - destruct (low_word p Hp) as [-> ->]. change (0 =? 2147483648) with false. cbn [negb]. rewrite (i64_small (_ + Z.of_nat pos * 4)) by lia.
    replace (offsetOf (offsets graphIndex) ExtraEdgeListChunk + Z.of_nat pos * 4 + 4) with (offsetOf (offsets graphIndex) ExtraEdgeListChunk + 4 * Z.of_nat (S pos)) by lia.
    rewrite (IH ltac:(done) fuel (S pos) rest); [done| |cbn in *; lia]. change (S pos) with (1 + pos)%nat. rewrite Nat.add_comm, <- drop_drop, Hd. done.
Qed.

(** The second generation of a row: the time and the word of its table, or a value of the overflow table. *)
Definition genValue (w : Z) : option Z := if w <? 2 ^ 31 then Some w else ovf !! Z.to_nat (w - 2 ^ 31).

Lemma readGenerationV2_ok k gt w v : has = true -> gens !! k = Some w -> genValue w = Some v -> readGenerationV2 graphIndex (Z.of_nat k) gt = Ok (u64 (Z.land gt 0x3FFFFFFFF + v)).
Proof.
  intros Hhas Hk Hv. unfold readGenerationV2. cbn [fHasGenerationV2 graphIndex]. rewrite Hhas. destruct (Hgens Hhas) as [Hgl Hgr]. change szUint32 with 4. change szUint64 with 8.
  assert (0 <= w < 2 ^ 32) as Hw by (rewrite Forall_forall in Hgr; apply Hgr; by eapply list_elem_of_lookup_2).
  destruct (word_at GenerationDataChunk gens k w (gen_chunk Hhas) Hk Hw) as (buf & E & Eb); [unfold len in *; lia|]. rewrite E. cbn [res_bind]. rewrite Eb. unfold genValue in Hv. destruct (Z.ltb_spec w (2 ^ 31)) as [Hlt|Hge].
  - injection Hv as ->. destruct (low_word v) as [-> _]; [lia|]. done.
  - set (x := w - 2 ^ 31) in *. assert (0 <= x < 2 ^ 31) as Hx by lia. destruct (high_word x Hx) as (Ew & E1 & E2). replace w with (Z.lor x 0x80000000) by lia. rewrite E1, E2. change (0 <? 0x80000000) with true. cbv iota.
    assert (ovf <> []) as Ho by (intros Hnil; rewrite Hnil in Hv; done).
    destruct (row_at GenerationDataOverflowChunk WriteUint64 8 ovf (Z.to_nat x) v (ovf_chunk Hhas Ho)) as (a & b & Ef & Ha); [intros; unfold WriteUint64; by rewrite be_encode_len|done|lia|lia|].
    rewrite Z2Nat.id in Ha by lia. rewrite <- Ha, Ef, ReadAt_app by (done || unfold WriteUint64; by rewrite be_encode_len). cbn [res_bind].
    unfold WriteUint64. rewrite be_decode_encode. change (8 * Z.of_nat 8) with 64. rewrite Z.mod_small; [done|]. rewrite Forall_forall in Hovf. apply Hovf. by eapply list_elem_of_lookup_2.
Qed.

(** The words of a row stand for the indexes of parents. *)
Definition words_for (p1 p2 : Z) (ps : list Z) : Prop :=
  match ps with
  | [] => p1 = parentNone /\ p2 = parentNone
  | [a] => p1 = a /\ p2 = parentNone
  | [a; b] => p1 = a /\ p2 = b
  | a :: rest => p1 = a /\ exists pos r, p2 = Z.lor (Z.of_nat pos) parentOctopusUsed /\ drop pos edges = flagLast rest ++ r
  end.

Lemma parentIndexesAt_ok p1 p2 ps : Forall (fun z => 0 <= z < 2 ^ 28) ps -> words_for p1 p2 ps ->
  parentIndexesAt graphIndex p1 p2 = Ok (match ps with [] => None | _ => Some ps end).
Proof.
  intros Hps Hw. assert (Forall (fun z => 0 <= z < 2 ^ 31) ps) as Hps31 by (eapply Forall_impl; [exact Hps|]; cbn; intros; lia). unfold parentIndexesAt, parentOctopusUsed, parentOctopusMask, parentNone in *.
  destruct ps as [|a [|b [|c ps]]]; cbn [words_for] in Hw.
  - destruct Hw as [-> ->]. done.
  - destruct Hw as [-> ->]. apply Forall_cons in Hps31 as [Ha _]. apply Forall_cons in Hps as [Ha' _]. destruct (low_word a Ha) as [_ ->]. unfold parentNone. change (Z.land 0x70000000 0x80000000 =? 0x80000000) with false. cbv iota. change (negb (0x70000000 =? 0x70000000)) with false. cbv iota.
    destruct (Z.eqb_spec a 0x70000000); [lia|done].
  - destruct Hw as [-> ->]. apply Forall_cons in Hps31 as [Ha Hb]. apply Forall_cons in Hb as [Hb _]. apply Forall_cons in Hps as [_ Hb']. apply Forall_cons in Hb' as [Hb' _]. destruct (low_word a Ha) as [_ ->], (low_word b Hb) as [-> ->]. change (0 =? 0x80000000) with false. cbv iota.
    destruct (Z.eqb_spec b 0x70000000); [lia|done].
  - destruct Hw as (-> & pos & r & -> & Hd). apply Forall_cons in Hps31 as [Ha Hrest]. unfold parentOctopusUsed.
    assert (Z.of_nat pos < 2 ^ 31) as Hpos. { destruct (Nat.lt_ge_cases pos (length edges)) as [|Hge]; [unfold len in *; lia|]. rewrite drop_ge in Hd by lia. discriminate. }
    destruct (high_word (Z.of_nat pos)) as (_ & -> & ->); [lia|]. change (0x80000000 =? 0x80000000) with true. cbv iota. change szUint32 with 4. destruct (low_word a Ha) as [_ ->].
    rewrite (readExtraEdges_ok (b :: c :: ps)) with (rest := r); [done|done|done|done|]. pose proof (f_equal length Hd) as El. rewrite length_drop, length_app, flagLast_length in El. destruct (chunk_at _ _ (edge_chunk ltac:(intros Hnil; rewrite Hnil, drop_nil in Hd; discriminate))) as [_ (pre & post & E & _)].
    rewrite E, !length_app. assert (length (flat_map WriteUint32 edges) = (length edges * 4)%nat) as ->; [pose proof (words32_len edges); unfold len in *; lia|]. lia.
Qed.

(** ** A commit of the file *)
Lemma GetCommitData_ok k h t p1 p2 gt ps parents w v : hs !! k = Some h -> rows !! k = Some (t, p1, p2, gt) -> words_for p1 p2 ps ->
  Forall2 (fun i h => exists j, i = Z.of_nat j /\ hs !! j = Some h) ps parents -> (has = true -> gens !! k = Some w /\ genValue w = Some v) ->
  GetCommitDataByIndex (IFile graphIndex None) (Z.of_nat k) =
    Ok (mkCommitData t (match ps with [] => None | _ => Some ps end) parents (Z.shiftr gt 34) (if has then u64 (Z.land gt 0x3FFFFFFFF + v) else 0) (Z.land gt 0x3FFFFFFFF), IFile graphIndex None).
Proof.
  intros Hk Hr Hw Hpar Hg. cbn [GetCommitDataByIndex]. cbn [minimumNumberOfHashes graphIndex]. destruct (Z.ltb_spec (Z.of_nat k) 0); [lia|]. rewrite Z.sub_0_r, fanoutTotal_ok. pose proof (lookup_lt_Some _ _ _ Hk) as Hlt.
  destruct (Z.leb_spec (len hs) (Z.of_nat k)); [unfold len in *; lia|]. fold graphIndex. rewrite (readCommitRow_ok k t p1 p2 gt Hr). cbn [res_bind].
  assert (Forall (fun z => 0 <= z < 2 ^ 28) ps) as Hps. { clear -Hpar Hn. induction Hpar as [|i x ps parents (j & -> & Hj) _ IH]; constructor; [|done]. apply lookup_lt_Some in Hj. unfold len in Hn. lia. }
  rewrite (parentIndexesAt_ok p1 p2 ps Hps Hw). cbn [res_bind]. assert (default [] (match ps with [] => None | _ => Some ps end) = ps) as -> by (by destruct ps). rewrite (getHashes_ok ps parents Hpar). cbn [res_bind].
  assert (has = true \/ has = false) as [Eh|Eh] by (clear; destruct has; auto).
  - destruct (Hg Eh) as [Hgw Hgv]. rewrite (readGenerationV2_ok k gt w v Eh Hgw Hgv). cbn [res_bind]. by rewrite Eh.
  - unfold readGenerationV2. cbn [fHasGenerationV2 graphIndex]. rewrite Eh. done.
Qed.
End Layout.
