(* ===== verification/CommitGraphEncoding.v ===== *)
(** * Encoding a commit graph

    What the memory index answers whatever indexes of parents it has kept, what the encoder writes for it, and that
    the file that is opened answers the same. *)
From stdpp Require Import sorting.
From S2P Require Import Prelude Binary GoStrings ObjectID Packp AdvRefsProofs UlreqProofs IdxfileTables TreesProofs PackEncoderProofs CommitGraph CommitGraphProofs.

(** ** The memory index *)
Definition addAll (cs : list (ObjectID * CommitData)) : MemoryIndex := foldl (fun m '(h, c) => Mem_Add m h c) NewMemoryIndex cs.

(** The second generation that [Add] keeps, and whether all commits have one. *)
Definition keptV2 (c : CommitData) : Z := if GenerationV2 c =? MaxUint64 then 0 else GenerationV2 c.
Definition allV2 (cs : list (ObjectID * CommitData)) : bool := forallb (fun hc => negb (keptV2 hc.2 =? 0)) cs.
Definition dataV2 (c : CommitData) : Z := if keptV2 c =? 0 then 0 else u64 (keptV2 c - When c).
Definition edgesOf (c : CommitData) : Z := if 2 <? len (ParentHashes c) then len (ParentHashes c) - 1 else 0.
Definition sumZ {A} (f : A -> Z) (l : list A) : Z := foldr (fun x n => f x + n) 0 l.

(** A graph that can be written: all parents are there, and times, generations and numbers fit their fields. *)
Record graph_ok (cs : list (ObjectID * CommitData)) : Prop := {
  go_nodup : NoDup (map fst cs);
  go_len : len cs < 2 ^ 28;
  go_ids : Forall (fun hc => IdxfileTables.sha1_id hc.1 /\ IdxfileTables.sha1_id (TreeHash hc.2)) cs;
  go_parents : Forall (fun hc => forall p, p ∈ ParentHashes hc.2 -> p ∈ map fst cs) cs;
  go_time : Forall (fun hc => 0 <= When hc.2 < 2 ^ 34 /\ 0 <= Generation hc.2 < 2 ^ 30 /\ 0 <= GenerationV2 hc.2 < 2 ^ 64) cs;
  go_edges : sumZ (fun hc => edgesOf hc.2) cs < 2 ^ 31;
  go_gap : Forall (fun hc => dataV2 hc.2 < 2 ^ 31 \/ 2 ^ 32 <= dataV2 hc.2) cs }.

Lemma sumZ_perm {A} (f : A -> Z) l k : l ≡ₚ k -> sumZ f l = sumZ f k.
Proof. unfold sumZ. induction 1; cbn [foldr]; lia. Qed.
Lemma chunk_sum_nonneg {A} (f : A -> Z) l : (forall x, 0 <= f x) -> 0 <= sumZ f l.
Proof. intros Hf. unfold sumZ. induction l as [|x l IH]; cbn [foldr]; [done|]. specialize (Hf x). lia. Qed.
Lemma edgesOf_nonneg c : 0 <= edgesOf c.
Proof. unfold edgesOf. destruct (Z.ltb_spec 2 (len (ParentHashes c))); lia. Qed.

(** ** The fanout *)
Definition exactly (hs : list ObjectID) (j : Z) : Z := len (filter (fun h => firstByte h = j) hs).

Lemma fanoutOf_ok l : Forall IdxfileTables.sha1_id l -> len l < 2 ^ 28 -> fanoutOf l = Ok (map (exactly l) (seqZ 0 256)).
Proof.
  unfold fanoutOf. induction l as [|h l IH] using rev_ind; intros Hl Hn; [reflexivity|]. apply Forall_app in Hl as [Hl Hh]. apply Forall_cons in Hh as [Hh _]. rewrite len_app in Hn. change (len [h]) with 1 in Hn.
  rewrite foldl_app. cbn [foldl]. rewrite IH by (done || lia). cbn [res_bind]. destruct (firstByte_at h Hh) as (b & Hb & Eb). rewrite (index_lookup _ 0 b) by done. cbn [res_bind]. pose proof (b2z_range b).
  assert (map (exactly l) (seqZ 0 256) !! Z.to_nat (b2z b) = Some (exactly l (b2z b))) as Hi by (rewrite list_lookup_fmap, lookup_seqZ_lt by lia; cbn; do 2 f_equal; lia).
  rewrite (index_lookup _ (b2z b) (exactly l (b2z b))) by (exact Hi || lia). cbn [res_bind]. unfold set_index. destruct (Z.ltb_spec (b2z b) 0); [lia|]. rewrite len_map. change (len (seqZ 0 256)) with 256. destruct (Z.leb_spec 256 (b2z b)); [lia|]. cbn [orb]. f_equal.
  assert (0 <= exactly l (b2z b) <= len l) as Hr. { unfold exactly. split; [apply len_nonneg|]. unfold len. apply inj_le, length_filter. } rewrite u32_small by lia.
  apply list_eq. intros i. destruct (Nat.lt_ge_cases i 256) as [Hlt|Hge]; [|rewrite !lookup_ge_None_2; [done|rewrite length_map; done|rewrite length_insert, length_map; done]].
  assert (exactly (l ++ [h]) (Z.of_nat i) = exactly l (Z.of_nat i) + if decide (firstByte h = Z.of_nat i) then 1 else 0) as Ex. { unfold exactly. rewrite filter_app, len_app, filter_cons. by destruct (decide _). }
  rewrite (list_lookup_fmap (exactly (l ++ [h]))), lookup_seqZ_lt by lia. cbn [fmap option_fmap option_map]. rewrite Z.add_0_l, Ex. destruct (decide (firstByte h = Z.of_nat i)) as [E|E].
  - replace (Z.to_nat (b2z b)) with i by lia. rewrite list_lookup_insert_eq by (rewrite length_map; exact Hlt). f_equal. replace (Z.of_nat i) with (b2z b) by lia. lia.
  - rewrite list_lookup_insert_ne by lia. rewrite list_lookup_fmap, lookup_seqZ_lt by lia. cbn [fmap option_fmap option_map]. rewrite Z.add_0_l. f_equal. lia.
Qed.

Lemma upTo_step l j : upTo l j = exactly l j + upTo l (j - 1).
Proof. unfold upTo, exactly. induction l as [|h l IH]; [done|]. rewrite !filter_cons. repeat case_decide; rewrite ?len_cons; lia. Qed.

Lemma cumulative_ok l n : forall a, len l < 2 ^ 28 -> cumulative (upTo l (a - 1)) (map (exactly l) (seqZ a (Z.of_nat n))) = map (upTo l) (seqZ a (Z.of_nat n)).
Proof.
  induction n as [|n IH]; intros a Hl; [done|]. rewrite seqZ_cons by lia. cbn [map cumulative]. pose proof (upTo_range l a). rewrite <- upTo_step, u32_small by lia. f_equal. replace (Z.pred (Z.of_nat (S n))) with (Z.of_nat n) by lia.
  specialize (IH (Z.succ a) Hl). replace (Z.succ a - 1) with a in IH by lia. exact IH.
Qed.

Lemma flagLast_eq l : l <> [] -> flagLast l = take (length l - 1) l ++ [Z.lor (List.last l 0) parentLast].
Proof.
  induction l as [|p [|q l] IH]; intros Hne; [done|done|]. change (flagLast (p :: q :: l)) with (p :: flagLast (q :: l)). rewrite IH by done. cbn [length].
  replace (S (S (length l)) - 1)%nat with (S (length l)) by lia. by replace (S (length l) - 1)%nat with (length l) by lia.
Qed.

Lemma flagLast_range l : Forall (fun z => 0 <= z < 2 ^ 31) l -> Forall (fun z => 0 <= z < 2 ^ 32) (flagLast l).
Proof.
  induction 1 as [|p l Hp Hl IH]; [constructor|]. destruct l as [|q l]; cbn [flagLast]; [|constructor; [lia|exact IH]]. constructor; [|constructor]. unfold parentLast. destruct (high_word p Hp) as [-> _]. lia.
Qed.

Lemma words_for_app e x p1 p2 ps : words_for e p1 p2 ps -> words_for (e ++ x) p1 p2 ps.
Proof.
  destruct ps as [|a [|b [|c ps]]]; cbn [words_for]; try done. intros (-> & pos & r & -> & Hd). split; [done|]. exists pos, (r ++ x). split; [done|].
  assert (pos <= length e)%nat as Hle. { destruct (Nat.le_gt_cases pos (length e)) as [|Hgt]; [done|]. rewrite drop_ge in Hd by lia. discriminate. }
  by rewrite drop_app_le, Hd, <- app_assoc by done.
Qed.

(** The words that are written for the parents. *)
Lemma parentWords_ok (H : gmap ObjectID Z) parents e0 : (forall p, p ∈ parents -> 0 <= default 0 (H !! p) < 2 ^ 28) -> len e0 < 2 ^ 31 ->
  exists p1 p2 x, parentWords H parents e0 = (p1, p2, e0 ++ x) /\ len x = (if 2 <? len parents then len parents - 1 else 0) /\ Forall (fun z => 0 <= z < 2 ^ 32) x /\
    words_for (e0 ++ x) p1 p2 (map (fun p => default 0 (H !! p)) parents) /\ 0 <= p1 < 2 ^ 32 /\ 0 <= p2 < 2 ^ 32.
Proof.
  intros Hp He. set (at' := fun p => default 0 (H !! p)). destruct parents as [|a [|b [|c ps]]].
  - exists parentNone, parentNone, []. rewrite app_nil_r. by split_and!.
  - exists (at' a), parentNone, []. rewrite app_nil_r. pose proof (Hp a ltac:(set_solver)). split_and!; try done; unfold at'; lia.
  - exists (at' a), (at' b), []. rewrite app_nil_r. pose proof (Hp a ltac:(set_solver)). pose proof (Hp b ltac:(set_solver)). split_and!; try done; unfold at'; lia.
  - set (rest := map at' (b :: c :: ps)). exists (at' a), (Z.lor (Z.of_nat (length e0)) parentOctopusUsed), (flagLast rest).
    assert (Forall (fun z => 0 <= z < 2 ^ 31) rest) as Hrest. { apply Forall_map, Forall_forall. intros p Hin. pose proof (Hp p ltac:(by right)). unfold at'. lia. }
    split; [unfold parentWords; fold at'; rewrite (flagLast_eq rest) by done; rewrite u32_small by (pose proof (len_nonneg e0); lia); reflexivity|].
    split; [unfold len; rewrite flagLast_length; unfold rest; rewrite length_map; cbn [length]; destruct (Z.ltb_spec 2 (Z.of_nat (S (S (S (length ps)))))); lia|]. split; [by apply flagLast_range|]. split.
    + cbn [map words_for]. split; [done|]. exists (length e0), []. split; [done|]. by rewrite drop_app_length, app_nil_r.
    + pose proof (Hp a ltac:(set_solver)). split; [unfold at'; lia|]. unfold parentOctopusUsed. destruct (high_word (Z.of_nat (length e0))) as [-> _]; unfold len in He; lia.
Qed.

(** The words of the second generation and the values that overflow. *)
Lemma encodeGenerationV2Data_ok data : Forall (fun d => 0 <= d < 2 ^ 64) data -> forall head, 0 <= head -> head + len data < 2 ^ 31 ->
  exists words ovf, encodeGenerationV2Data data head = (flat_map WriteUint32 words, ovf) /\ length words = length data /\ Forall (fun w => 0 <= w < 2 ^ 32) words /\ len ovf <= len data /\ Forall (fun d => 0 <= d < 2 ^ 64) ovf /\
    len ovf = sumZ (fun d => if 2 ^ 31 <=? d then 1 else 0) data /\
    forall k d, data !! k = Some d -> exists w, words !! k = Some w /\ (w < 2 ^ 31 /\ w = d \/ 2 ^ 31 + head <= w /\ ovf !! Z.to_nat (w - 2 ^ 31 - head) = Some d).
Proof.
  induction 1 as [|d data Hd _ IH]; intros head Hh Hl; [by exists [], []|]. rewrite len_cons in Hl. pose proof (len_nonneg data). cbn [encodeGenerationV2Data]. destruct (Z.leb_spec 0x80000000 d) as [Hge|Hlt].
  - destruct (IH (head + 1)) as (words & ovf & -> & Hlw & Hw & Hlo & Ho & Hnil & Hat); [lia|lia|]. rewrite u32_small by lia. destruct (high_word head) as [Ew _]; [lia|]. rewrite Ew. exists ((head + 2 ^ 31) :: words), (d :: ovf).
    split; [done|]. split; [cbn; lia|]. split; [by constructor; [lia|]|]. split; [rewrite !len_cons; lia|]. split; [by constructor|]. split; [rewrite len_cons; unfold sumZ in *; cbn [foldr]; destruct (Z.leb_spec (2 ^ 31) d); lia|].
    intros k d' Hk. destruct k as [|k]; [injection Hk as <-; eexists; split; [done|]; right; split; [lia|]; by replace (head + 2 ^ 31 - 2 ^ 31 - head) with 0 by lia|].
    destruct (Hat k d' Hk) as (w & Hkw & Hcase). exists w. split; [done|]. destruct Hcase as [?|[H1 H2]]; [by left|]. right. split; [lia|]. replace (Z.to_nat (w - 2 ^ 31 - head)) with (S (Z.to_nat (w - 2 ^ 31 - (head + 1)))) by lia. done.
  - destruct (IH head) as (words & ovf & -> & Hlw & Hw & Hlo & Ho & Hnil & Hat); [lia|lia|]. rewrite u32_small by lia. exists (d :: words), ovf.
    split; [done|]. split; [cbn; lia|]. split; [constructor; [lia|done]|]. split; [rewrite !len_cons; lia|]. split; [done|]. split; [unfold sumZ in *; cbn [foldr]; destruct (Z.leb_spec (2 ^ 31) d); lia|].
    intros [|k] d' Hk; [injection Hk as <-; exists d; split; [done|]; left; lia|]. by apply Hat.
Qed.

Lemma sumZ_map {A B} (g : A -> B) (f : B -> Z) l : sumZ f (map g l) = sumZ (fun x => f (g x)) l.
Proof. unfold sumZ. induction l as [|x l IH]; [done|]. cbn [map foldr]. by rewrite IH. Qed.
Lemma sumZ_ext {A} (f g : A -> Z) l : (forall x, x ∈ l -> f x = g x) -> sumZ f l = sumZ g l.
Proof. unfold sumZ. induction l as [|x l IH]; intros H; [done|]. cbn [foldr]. rewrite IH by (intros; apply H; by right). by rewrite H by (by left). Qed.
Lemma sumZ_pos {A} (f : A -> Z) l : (forall x, 0 <= f x) -> (exists x, x ∈ l /\ 0 < f x) -> 0 < sumZ f l.
Proof.
  intros Hf (x & Hx & Hp). unfold sumZ. induction l as [|y l IH]; [by apply not_elem_of_nil in Hx|]. cbn [foldr]. pose proof (chunk_sum_nonneg f l Hf) as Hn. unfold sumZ in Hn. apply elem_of_cons in Hx as [->|Hx]; [lia|]. specialize (IH Hx). specialize (Hf y). lia.
Qed.

Section Graph.
Variable cs : list (ObjectID * CommitData).
Hypothesis Hcs : graph_ok cs.

(** What stays of a commit in the index. *)
Definition same (c d : CommitData) : Prop :=
  TreeHash d = TreeHash c /\ ParentHashes d = ParentHashes c /\ Generation d = Generation c /\ GenerationV2 d = keptV2 c /\ When d = When c.

Record mem_inv (mi : MemoryIndex) : Prop := {
  mv_data : Forall2 (fun hc hd => hd.1 = hc.1 /\ same hc.2 hd.2) cs (commitData mi);
  mv_map : forall h k, indexMap mi !! h = Some k <-> exists j, k = Z.of_nat j /\ map fst cs !! j = Some h;
  mv_has : mHasGenerationV2 mi = allV2 cs }.

Lemma addAll_snoc l h c : addAll (l ++ [(h, c)]) = Mem_Add (addAll l) h c.
Proof. unfold addAll. by rewrite foldl_app. Qed.

Lemma addAll_facts l : NoDup (map fst l) -> len l < 2 ^ 28 ->
  Forall2 (fun hc hd => hd.1 = hc.1 /\ same hc.2 hd.2) l (commitData (addAll l)) /\
  (forall h k, indexMap (addAll l) !! h = Some k <-> exists j, k = Z.of_nat j /\ map fst l !! j = Some h) /\ mHasGenerationV2 (addAll l) = allV2 l.
Proof.
  induction l as [|[h c] l IH] using rev_ind; intros Hnd Hl.
  - split; [constructor|]. split; [|done]. intros h k. cbn. rewrite lookup_empty. split; [done|]. by intros (j & _ & ?).
  - rewrite map_app in Hnd. apply NoDup_app in Hnd as (Hnd & Hdis & _). rewrite len_app in Hl. change (len [(h, c)]) with 1 in Hl. destruct (IH Hnd ltac:(lia)) as (H1 & H2 & H3).
    rewrite addAll_snoc. unfold Mem_Add. cbn [commitData indexMap mHasGenerationV2]. assert (length (commitData (addAll l)) = length l) as El by (symmetry; by eapply Forall2_length).
    rewrite u32_small by (unfold len in *; rewrite El; lia). split; [|split].
    + apply Forall2_app; [done|]. constructor; [|constructor]. by split_and!.
    + intros h' k. rewrite map_app. assert (length (map fst l) = length l) as Elm by apply length_map. destruct (decide (h' = h)) as [->|Hne].
      * rewrite lookup_insert_eq. split.
        -- intros [= <-]. exists (length l). split; [unfold len; lia|]. rewrite lookup_app_r by lia. by rewrite Elm, Nat.sub_diag.
        -- intros (j & -> & Hj). destruct (Nat.lt_ge_cases j (length l)) as [Hlt|Hge].
           ++ rewrite lookup_app_l in Hj by lia. exfalso. apply (Hdis h); [by eapply list_elem_of_lookup_2|by left].
           ++ rewrite lookup_app_r in Hj by lia. apply lookup_lt_Some in Hj. cbn in Hj. f_equal. unfold len. lia.
      * rewrite lookup_insert_ne by done. rewrite H2. split; intros (j & -> & Hj); exists j; (split; [done|]).
        -- by apply lookup_app_l_Some.
        -- apply lookup_app_Some in Hj as [Hj|[_ Hj]]; [done|]. exfalso. apply Hne. destruct (j - length (map fst l))%nat; [by injection Hj|done].
    + rewrite H3. unfold allV2. rewrite forallb_app. cbn [forallb]. by rewrite andb_true_r.
Qed.

Lemma addAll_inv : mem_inv (addAll cs).
Proof. destruct (addAll_facts cs (go_nodup _ Hcs) (go_len _ Hcs)) as (H1 & H2 & H3). by split. Qed.

(** The place of a commit in the order of its addition. *)
Lemma parentIndexes_found mi ps : mem_inv mi -> (forall p, p ∈ ps -> p ∈ map fst cs) -> exists ixs, parentIndexesOf mi ps = Ok ixs.
Proof.
  intros Hi. induction ps as [|p ps IH]; intros Hp; [by exists []|]. cbn [parentIndexesOf]. destruct (list_elem_of_lookup_1 _ _ (Hp p ltac:(by left))) as [j Hj].
  unfold Mem_GetIndexByHash. rewrite (proj2 (mv_map _ Hi p (Z.of_nat j))) by eauto. cbn [res_bind]. destruct IH as [ixs ->]; [intros q Hq; apply Hp; by right|]. cbn [res_bind]. eauto.
Qed.

Lemma Mem_get mi k h c : mem_inv mi -> cs !! k = Some (h, c) -> exists d mi', GetCommitDataByIndex (IMemory mi) (Z.of_nat k) = Ok (d, IMemory mi') /\ same c d /\ mem_inv mi'.
Proof.
  intros Hi Hk. destruct (Forall2_lookup_l _ _ _ _ _ (mv_data _ Hi) Hk) as ([h' d] & Hd & Eh & Hs). cbn [fst snd] in Eh, Hs. subst h'. cbn [GetCommitDataByIndex]. unfold Mem_GetCommitDataByIndex.
  pose proof (go_len _ Hcs) as Hl. assert (length (commitData mi) = length cs) as El by (symmetry; eapply Forall2_length; exact (mv_data _ Hi)). pose proof (lookup_lt_Some _ _ _ Hk) as Hlt.
  rewrite u32_small by (unfold len in *; lia). destruct (Z.leb_spec (len (commitData mi)) (Z.of_nat k)); [unfold len in *; lia|].
  rewrite (index_lookup _ _ (h, d)) by (lia || by rewrite Nat2Z.id). cbn [res_bind]. destruct (ParentIndexes d) as [ixs|] eqn:Ep; [cbn [res_bind]; eauto|].
  pose proof (go_parents _ Hcs) as Hpar. rewrite Forall_forall in Hpar. specialize (Hpar (h, c) ltac:(by eapply list_elem_of_lookup_2)). cbn [snd] in Hpar.
  destruct Hs as (S1 & S2 & S3 & S4 & S5). rewrite S2. destruct (parentIndexes_found mi (ParentHashes c) Hi Hpar) as [ixs ->]. cbn [res_bind].
  unfold set_index. destruct (Z.ltb_spec (Z.of_nat k) 0); [lia|]. destruct (Z.leb_spec (len (commitData mi)) (Z.of_nat k)); [lia|]. cbn [orb res_bind]. rewrite Nat2Z.id.
  do 2 eexists. split; [reflexivity|]. split; [by split_and!|]. destruct Hi as [Hm1 Hm2 Hm3]. split; cbn [commitData indexMap mHasGenerationV2]; [|done|done].
  rewrite <- (list_insert_id cs k (h, c) Hk). apply Forall2_insert; [done|]. split; [done|]. by split_and!.
Qed.

Lemma GenerationV2Data_same c d : same c d -> 0 <= When c < 2 ^ 64 -> GenerationV2Data d = dataV2 c.
Proof.
  intros (_ & _ & _ & Eg & Ew) Hw. unfold GenerationV2Data, dataV2. rewrite Eg, Ew. rewrite (u64_small (When c)) by lia. assert (keptV2 c =? MaxUint64 = false) as ->; [|by rewrite orb_false_r].
  unfold keptV2. destruct (Z.eqb_spec (GenerationV2 c) MaxUint64) as [_|]; [done|]. by apply Z.eqb_neq.
Qed.

Definition overflowing (c : CommitData) : Z := if allV2 cs && (MaxUint32 <? dataV2 c) then 1 else 0.

Lemma countExtra_ok n : forall k mi e o, (k + n = length cs)%nat -> mem_inv mi -> 0 <= e -> 0 <= o -> e + sumZ (fun hc => edgesOf hc.2) (drop k cs) < 2 ^ 31 -> o + Z.of_nat n < 2 ^ 31 ->
  exists mi', countExtra n (Z.of_nat k) (IMemory mi) e o = Ok (IMemory mi', e + sumZ (fun hc => edgesOf hc.2) (drop k cs), o + sumZ (fun hc => overflowing hc.2) (drop k cs)) /\ mem_inv mi'.
Proof.
  induction n as [|n IH]; intros k mi e o Hk Hi He Ho Hes Hos; cbn [countExtra].
  - rewrite drop_ge by lia. exists mi. split; [|done]. cbn. by rewrite !Z.add_0_r.
  - destruct (lookup_lt_is_Some_2 cs k) as [[h c] Hc]; [lia|]. destruct (Mem_get mi k h c Hi Hc) as (d & mi' & -> & Hs & Hi'). cbn [nilPanic res_bind HasGenerationV2].
    rewrite (drop_S _ (h, c) k Hc) in Hes |- *. unfold sumZ in Hes |- *. cbn [foldr snd] in Hes |- *. fold (sumZ (fun hc : ObjectID * CommitData => edgesOf hc.2) (drop (S k) cs)) in Hes |- *. fold (sumZ (fun hc : ObjectID * CommitData => overflowing hc.2) (drop (S k) cs)).
    pose proof (edgesOf_nonneg c). pose proof (chunk_sum_nonneg (fun hc : ObjectID * CommitData => edgesOf hc.2) (drop (S k) cs) ltac:(intros; apply edgesOf_nonneg)).
    pose proof (go_time _ Hcs) as Ht. rewrite Forall_forall in Ht. specialize (Ht (h, c) ltac:(by eapply list_elem_of_lookup_2)). cbn [snd] in Ht.
    rewrite (GenerationV2Data_same c d Hs) by lia. rewrite (mv_has _ Hi'). destruct Hs as (_ & -> & _).
    assert ((if 2 <? len (ParentHashes c) then u32 (e + u32 (len (ParentHashes c) - 1)) else e) = e + edgesOf c) as ->.
    { unfold edgesOf in *. destruct (Z.ltb_spec 2 (len (ParentHashes c))); [|lia]. rewrite (u32_small (len _ - 1)) by lia. rewrite u32_small by lia. lia. }
    assert ((if allV2 cs && (MaxUint32 <? dataV2 c) then u32 (o + 1) else o) = o + overflowing c) as ->. { unfold overflowing. destruct (_ && _); [rewrite u32_small by lia|]; lia. }
    replace (Z.of_nat k + 1) with (Z.of_nat (S k)) by lia. assert (0 <= overflowing c <= 1) by (unfold overflowing; destruct (_ && _); lia).
    destruct (IH (S k) mi' (e + edgesOf c) (o + overflowing c)) as (mi2 & -> & Hi2); [lia|done|lia|lia|lia|lia|]. exists mi2. split; [|done]. do 2 f_equal; [f_equal|]; lia.
Qed.

(** ** The identifiers in order *)
Notation hs := (HashesSort (Mem_Hashes (addAll cs))).

Lemma hs_perm : hs ≡ₚ map fst cs.
Proof.
  unfold HashesSort. rewrite insertionSort_perm. unfold Mem_Hashes. apply NoDup_Permutation; [apply NoDup_fst_map_to_list|exact (go_nodup _ Hcs)|]. intros h. split.
  - intros Hin. apply list_elem_of_fmap in Hin as ([h' k] & -> & Hin). apply elem_of_map_to_list in Hin. apply (mv_map _ addAll_inv) in Hin as (j & _ & Hj). by eapply list_elem_of_lookup_2.
  - intros Hin. apply list_elem_of_lookup in Hin as [j Hj]. apply list_elem_of_fmap. exists (h, Z.of_nat j). split; [done|]. apply elem_of_map_to_list. apply (mv_map _ addAll_inv). eauto.
Qed.

Lemma hs_ids : Forall IdxfileTables.sha1_id hs.
Proof. rewrite hs_perm. apply Forall_map. eapply Forall_impl; [exact (go_ids _ Hcs)|]. by intros hc [? _]. Qed.
Lemma hs_length : length hs = length cs.
Proof. by rewrite hs_perm, length_map. Qed.
Lemma hs_nodup : NoDup hs.
Proof. rewrite hs_perm. exact (go_nodup _ Hcs). Qed.

Lemma sorted_names l : Forall IdxfileTables.sha1_id l -> NoDup l -> StronglySorted leHash l -> StronglySorted ltName (map ObjectID_Bytes l).
Proof.
  intros Hids Hnd Hs. induction Hs as [|h l Hs IH Hle]; [constructor|]. apply Forall_cons in Hids as [Hh Hids]. apply NoDup_cons in Hnd as [Hnh Hnd]. cbn [map]. constructor; [by apply IH|].
  apply Forall_map. rewrite Forall_forall in Hle, Hids |- *. intros x Hx. specialize (Hle x Hx). unfold leHash in Hle. unfold ltName. destruct (decide (compareBytes (ObjectID_Bytes h) (ObjectID_Bytes x) = 0)) as [E|E]; [|lia].
  apply compareBytes_eq, sha1_bytes_inj in E; [by subst|done|by apply Hids].
Qed.
Lemma hs_sorted : StronglySorted ltName (map ObjectID_Bytes hs).
Proof. apply sorted_names; [exact hs_ids|exact hs_nodup|apply HashesSort_sorted]. Qed.

Lemma posOf j h : hs !! j = Some h -> hashToIndexOf hs !! h = Some (Z.of_nat j).
Proof.
  intros Hj. unfold hashToIndexOf. apply elem_of_list_to_map.
  - assert (map fst (rev (imap (fun i h => (h, u32 (Z.of_nat i))) hs)) ≡ₚ hs) as ->; [|exact hs_nodup]. rewrite map_rev, <- Permutation_rev. assert (map fst (imap (fun i h => (h, u32 (Z.of_nat i))) hs) = hs) as ->; [|done].
    apply list_eq. intros i. rewrite list_lookup_fmap, list_lookup_imap. by destruct (hs !! i).
  - apply list_elem_of_In, in_rev. rewrite rev_involutive. apply list_elem_of_In, (list_elem_of_lookup_2 _ j). rewrite list_lookup_imap, Hj. cbn. do 2 f_equal. pose proof (lookup_lt_Some _ _ _ Hj) as Hlt. rewrite hs_length in Hlt. pose proof (go_len _ Hcs). unfold len in *. rewrite u32_small by lia. done.
Qed.

(** ** The rows *)
Notation posOfParents c := (map (fun p => default 0 (hashToIndexOf hs !! p)) (ParentHashes c)).

Lemma parent_found h c p : (h, c) ∈ cs -> p ∈ ParentHashes c -> exists j, hs !! j = Some p /\ hashToIndexOf hs !! p = Some (Z.of_nat j).
Proof.
  intros Hc Hp. pose proof (go_parents _ Hcs) as Hpar. rewrite Forall_forall in Hpar. specialize (Hpar (h, c) Hc p Hp). rewrite <- hs_perm in Hpar. apply list_elem_of_lookup in Hpar as [j Hj]. exists j. split; [done|]. by apply posOf.
Qed.

(** What is written for a commit. *)
Definition row_for (edges : list Z) (h : ObjectID) (row : Row) : Prop :=
  exists c p1 p2, (h, c) ∈ cs /\ row = (TreeHash c, p1, p2, When c + Generation c * 2 ^ 34) /\ words_for edges p1 p2 (posOfParents c) /\ row_ok row.

Lemma row_for_app edges x h row : row_for edges h row -> row_for (edges ++ x) h row.
Proof. intros (c & p1 & p2 & Hc & E & Hw & Hok). exists c, p1, p2. split_and!; try done. by apply words_for_app. Qed.

Lemma rows_ok edges l rows : Forall2 (row_for edges) l rows -> Forall row_ok rows.
Proof. induction 1 as [|h r l rows (c & p1 & p2 & _ & _ & _ & Hr) _ IH]; by constructor. Qed.

Definition commitAt (h : ObjectID) : CommitData := match list_find (fun hc => hc.1 = h) cs with Some (_, (_, c)) => c | None => mkCommitData ZeroHash None [] 0 0 0 end.

Lemma commitAt_in h c : (h, c) ∈ cs -> commitAt h = c.
Proof.
  intros Hin. unfold commitAt. destruct (list_find (fun hc => hc.1 = h) cs) as [[k [h' c']]|] eqn:E.
  - apply list_find_Some in E as (Hk & Eh & _). cbn in Eh. subst h'. apply list_elem_of_lookup in Hin as [j Hj]. assert (j = k) as ->; [|rewrite Hk in Hj; by injection Hj].
    eapply (NoDup_lookup _ _ _ h (go_nodup _ Hcs)); rewrite list_lookup_fmap; [by rewrite Hj|by rewrite Hk].
  - apply list_find_None in E. rewrite Forall_forall in E. by specialize (E _ Hin).
Qed.

Lemma encodeCommitData_ok l : forall mi e0 g0, mem_inv mi -> (forall h, h ∈ l -> h ∈ map fst cs) -> len e0 + sumZ (fun h => edgesOf (commitAt h)) l < 2 ^ 31 ->
  exists rows x mi', encodeCommitData l (hashToIndexOf hs) (IMemory mi) e0 g0 = Ok (flat_map rowBytes rows, IMemory mi', e0 ++ x, g0 ++ map (fun h => dataV2 (commitAt h)) l) /\ mem_inv mi' /\
    len x = sumZ (fun h => edgesOf (commitAt h)) l /\ Forall (fun z => 0 <= z < 2 ^ 32) x /\ Forall2 (row_for (e0 ++ x)) l rows.
Proof.
  induction l as [|h l IH]; intros mi e0 g0 Hi Hl Hsum.
  - exists [], [], mi. rewrite !app_nil_r. by split_and!.
  - unfold sumZ in Hsum |- *. cbn [foldr] in Hsum |- *. fold (sumZ (fun h => edgesOf (commitAt h)) l) in Hsum |- *. pose proof (chunk_sum_nonneg (fun h => edgesOf (commitAt h)) l ltac:(intros; apply edgesOf_nonneg)). pose proof (edgesOf_nonneg (commitAt h)).
    destruct (list_elem_of_lookup_1 _ _ (Hl h ltac:(by left))) as [k Hk]. assert (map fst cs !! k = fst <$> cs !! k) as Ek by apply list_lookup_fmap. pose proof Hk as Hk'. rewrite Ek in Hk'. destruct (cs !! k) as [[h' c]|] eqn:Ec; [|done]. injection Hk' as ->.
    assert ((h, c) ∈ cs) as Hin by (by eapply list_elem_of_lookup_2). rewrite (commitAt_in h c Hin) in *. cbn [encodeCommitData].
    assert (GetIndexByHash (IMemory mi) h = Ok (Z.of_nat k)) as ->. { cbn [GetIndexByHash]. unfold Mem_GetIndexByHash. by rewrite (proj2 (mv_map _ Hi h (Z.of_nat k))) by eauto. }
    cbn [res_bind]. destruct (Mem_get mi k h c Hi Ec) as (d & mi1 & -> & Hs & Hi1). cbn [nilPanic res_bind].
    pose proof (go_time _ Hcs) as Ht. rewrite Forall_forall in Ht. specialize (Ht (h, c) Hin). cbn [snd] in Ht. pose proof (go_ids _ Hcs) as Hids. rewrite Forall_forall in Hids. destruct (Hids (h, c) Hin) as [_ Hti]. cbn [snd] in Hti.
    rewrite (GenerationV2Data_same c d Hs) by lia. destruct Hs as (-> & -> & -> & _ & ->).
    destruct (parentWords_ok (hashToIndexOf hs) (ParentHashes c) e0) as (p1 & p2 & x1 & -> & Hx1 & Hr1 & Hw & Hp1 & Hp2); [|lia|].
    { intros p Hp. destruct (parent_found h c p Hin Hp) as (j & Hj & ->). cbn. apply lookup_lt_Some in Hj. rewrite hs_length in Hj. pose proof (go_len _ Hcs). unfold len in *. lia. }
    assert (Z.lor (u64 (When c)) (u64 (Z.shiftl (Generation c) 34)) = When c + Generation c * 2 ^ 34) as ->. { rewrite Z.shiftl_mul_pow2 by lia. rewrite !u64_small by lia. rewrite <- Z.shiftl_mul_pow2 at 1 by lia. by rewrite lor_shiftl_add by lia. }
    change (if 2 <? len (ParentHashes c) then len (ParentHashes c) - 1 else 0) with (edgesOf c) in Hx1.
    destruct (IH mi1 (e0 ++ x1) (g0 ++ [dataV2 c]) Hi1) as (rows & x & mi2 & -> & Hi2 & Hx & Hr & Hrows); [intros; apply Hl; by right|rewrite len_app; lia|]. cbn [res_bind].
    exists ((TreeHash c, p1, p2, When c + Generation c * 2 ^ 34) :: rows), (x1 ++ x), mi2. rewrite !app_assoc in *. cbn [flat_map rowBytes map]. rewrite (commitAt_in h c Hin), <- (app_assoc g0). split; [by rewrite <- !app_assoc|]. split; [done|]. split; [rewrite len_app; lia|]. split; [by apply Forall_app|].
    constructor; [|done]. apply row_for_app. exists c, p1, p2. split; [done|]. split; [done|]. split; [done|]. unfold row_ok. split; [done|]. lia.
Qed.

Lemma edges_total : sumZ (fun h => edgesOf (commitAt h)) hs = sumZ (fun hc => edgesOf hc.2) cs.
Proof. rewrite (sumZ_perm _ _ _ hs_perm), sumZ_map. apply sumZ_ext. intros [h c] Hin. cbn [fst snd]. by rewrite (commitAt_in h c Hin). Qed.

Lemma dataV2_range c : 0 <= dataV2 c < 2 ^ 64.
Proof. unfold dataV2. destruct (_ =? _); [lia|]. apply u64_range. Qed.

(** As many values are counted as overflow. *)
Lemma overflow_count : allV2 cs = true -> sumZ (fun hc => overflowing hc.2) cs = sumZ (fun d => if 2 ^ 31 <=? d then 1 else 0) (map (fun h => dataV2 (commitAt h)) hs).
Proof.
  intros Hall. rewrite sumZ_map, (sumZ_perm _ _ _ hs_perm), sumZ_map. apply sumZ_ext. intros [h c] Hin. cbn [fst snd]. rewrite (commitAt_in h c Hin). pose proof (go_gap _ Hcs) as Hgap. rewrite Forall_forall in Hgap. specialize (Hgap (h, c) Hin). cbn [snd] in Hgap.
  unfold overflowing, MaxUint32. rewrite Hall. destruct (Z.ltb_spec (2 ^ 32 - 1) (dataV2 c)), (Z.leb_spec (2 ^ 31) (dataV2 c)); cbn [andb]; lia.
Qed.

(** ** The file *)
Variable sha1 : bytes -> bytes.

(** The words of the second generation, where the file has them. *)
Definition gens_for (gens ovf : list Z) : Prop :=
  length gens = length hs /\ Forall (fun w => 0 <= w < 2 ^ 32) gens /\ len ovf <= len hs /\ Forall (fun d => 0 <= d < 2 ^ 64) ovf /\
  forall k h, hs !! k = Some h -> exists w, gens !! k = Some w /\ genValue ovf w = Some (dataV2 (commitAt h)).

Lemma graph_body rows edges gens ovf has : body_of (graphChunks hs rows edges gens ovf has) =
  flat_map WriteUint32 (map (upTo hs) (seqZ 0 256)) ++ flat_map ObjectID_Bytes hs ++ flat_map rowBytes rows ++ flat_map WriteUint32 edges ++ (if has then flat_map WriteUint32 gens ++ flat_map WriteUint64 ovf else []).
Proof.
  unfold body_of, graphChunks. rewrite !flat_map_app. cbn [flat_map snd]. rewrite app_nil_r, <- !app_assoc. do 3 f_equal. assert (flat_map snd (if bool_decide (edges = []) then [] else [(ExtraEdgeListChunk, flat_map WriteUint32 edges)]) = flat_map WriteUint32 edges) as ->.
  { case_bool_decide as E; [by rewrite E|]. cbn [flat_map snd]. apply app_nil_r. }
  f_equal. destruct has; [|done]. cbn [flat_map snd]. f_equal. case_bool_decide as E; [by rewrite E|]. cbn [flat_map snd]. apply app_nil_r.
Qed.

(** The sizes of the table of chunks are those of the chunks. *)
Lemma graph_table rows edges gens ovf has : length rows = length hs -> Forall row_ok rows -> len edges < 2 ^ 31 -> (has = true -> length gens = length hs) -> len ovf <= len hs ->
  map (fun c : ChunkType * bytes => (Signature c.1, len c.2)) (graphChunks hs rows edges gens ovf has) =
  [(Signature OIDFanoutChunk, szUint32 * lenFanout); (Signature OIDLookupChunk, u64 (len hs * SHA1Size)); (Signature CommitDataChunk, u64 (len hs * (SHA1Size + szCommitData)))] ++
  (if 0 <? len edges then [(Signature ExtraEdgeListChunk, u64 (len edges * szUint32))] else []) ++
  (if has then (Signature GenerationDataChunk, u64 (len hs * szUint32)) :: (if 0 <? len ovf then [(Signature GenerationDataOverflowChunk, u64 (len ovf * szUint64))] else []) else []).
Proof.
  intros Hr Hrok He Hg Ho. pose proof (go_len _ Hcs) as Hlen. assert (len hs = len cs) as Elh by (unfold len; by rewrite hs_length). pose proof (len_nonneg hs). pose proof (len_nonneg edges). pose proof (len_nonneg ovf).
  unfold graphChunks. rewrite !map_app. change SHA1Size with 20. change (20 + szCommitData) with 36. change szUint32 with 4. change szUint64 with 8. rewrite !u64_small by lia. cbn [map fst snd].
  rewrite words32_len. change (len (map (upTo hs) (seqZ 0 256))) with 256. rewrite (flat_map_len ObjectID_Bytes 20) by (apply (hash_len hs hs_ids)). rewrite (flat_map_len rowBytes 36) by (apply (row_len rows Hrok)).
  assert (len rows = len hs) as -> by (unfold len; lia). f_equal. f_equal.
  - case_bool_decide as E; [by rewrite E|]. cbn [map fst snd]. rewrite words32_len. destruct (Z.ltb_spec 0 (len edges)); [done|]. destruct edges; [done|]. rewrite len_cons in *. pose proof (len_nonneg edges). lia.
  - destruct has; [|done]. cbn [map fst snd]. rewrite words32_len. assert (len gens = len hs) as -> by (unfold len; by rewrite Hg). f_equal. pose proof (len_nonneg ovf). case_bool_decide as E; [by rewrite E|].
    cbn [map fst snd]. rewrite words64_len. destruct (Z.ltb_spec 0 (len ovf)); [done|]. destruct ovf as [|o ovf]; [done|]. rewrite len_cons in *. pose proof (len_nonneg ovf). lia.
Qed.

Lemma gens_written : exists gens ovf, encodeGenerationV2Data (map (fun h => dataV2 (commitAt h)) hs) 0 = (flat_map WriteUint32 gens, ovf) /\ gens_for gens ovf /\
  len ovf = sumZ (fun d => if 2 ^ 31 <=? d then 1 else 0) (map (fun h => dataV2 (commitAt h)) hs).
Proof.
  pose proof (go_len _ Hcs) as Hlen. assert (len hs = len cs) as Elh by (unfold len; by rewrite hs_length).
  destruct (encodeGenerationV2Data_ok (map (fun h => dataV2 (commitAt h)) hs)) with (head := 0) as (gens & ovf & E & Hl & Hw & Hlo & Ho & Hc & Hat); [apply Forall_map, Forall_true; intros; apply dataV2_range|lia|rewrite len_map; lia|].
  exists gens, ovf. split; [done|]. split; [|done]. rewrite length_map in Hl. rewrite len_map in Hlo. split_and!; try done. intros k h Hk. destruct (Hat k (dataV2 (commitAt h))) as (w & Hkw & Hcase); [by rewrite list_lookup_fmap, Hk|]. exists w. split; [done|].
  unfold genValue. destruct Hcase as [[Hlt ->]|[Hge Hv]]; [destruct (Z.ltb_spec (dataV2 (commitAt h)) (2 ^ 31)); [done|lia]|]. destruct (Z.ltb_spec w (2 ^ 31)); [lia|]. rewrite <- Hv. f_equal. lia.
Qed.

Lemma Encode_ok : exists rows edges gens ovf tail mi', Encode sha1 (IMemory (addAll cs)) = Ok (graphFile hs rows edges gens ovf (allV2 cs) tail, IMemory mi') /\ gens_for gens ovf /\
  Forall2 (row_for edges) hs rows /\ Forall (fun z => 0 <= z < 2 ^ 32) edges /\ len edges < 2 ^ 31.
Proof.
  pose proof (go_len _ Hcs) as Hlen. pose proof (go_edges _ Hcs) as Hed. assert (len hs = len cs) as Elh by (unfold len; by rewrite hs_length). pose proof (len_nonneg cs).
  unfold Encode. cbn [Hashes res_bind]. rewrite (fanoutOf_ok hs hs_ids) by lia. cbn [res_bind].
  assert (upTo hs (0 - 1) = 0) as E0. { unfold upTo. destruct (filter (fun h => firstByte h <= 0 - 1) hs) as [|x l] eqn:E; [done|]. assert (x ∈ filter (fun h => firstByte h <= 0 - 1) hs) as Hx by (rewrite E; left). apply list_elem_of_filter in Hx as [Hx _]. unfold firstByte in Hx. pose proof (b2z_range (default x00 (ObjectID_Bytes x !! 0%nat))). lia. }
  pose proof (cumulative_ok hs 256 0) as Hcum. rewrite E0 in Hcum. change (Z.of_nat 256) with 256 in Hcum. rewrite Hcum by lia. rewrite hs_length. destruct (countExtra_ok (length cs) 0 (addAll cs) 0 0) as (mi1 & Ec & Hi1); [done|exact addAll_inv|lia|lia|rewrite drop_0; lia|unfold len in Hlen; lia|]. change (Z.of_nat 0) with 0 in Ec. rewrite Ec. cbn [res_bind]. rewrite drop_0, !Z.add_0_l.
  destruct (encodeCommitData_ok hs mi1 [] []) as (rows & edges & mi2 & Ee & Hi2 & Hle & Hre & Hrows); [done|intros h Hh; by rewrite <- hs_perm|rewrite edges_total; change (len (@nil Z)) with 0; lia|]. cbn [app] in Ee, Hrows. rewrite Ee. cbn [res_bind]. rewrite edges_total in Hle.
  destruct gens_written as (gens & ovf & Eg & Hgens & Hov). rewrite Eg. cbn [HasGenerationV2]. rewrite (mv_has _ Hi1), (mv_has _ Hi2).
  assert (Forall row_ok rows) as Hrok by exact (rows_ok _ _ _ Hrows). pose proof (Forall2_length _ _ _ Hrows) as Elr. pose proof Hgens as (Hgl & _ & Hol & _).
  pose proof (graph_table rows edges gens ovf (allV2 cs) ltac:(lia) Hrok ltac:(lia) (fun _ => Hgl) Hol) as Et. rewrite <- Hle.
  assert ((if allV2 cs then (Signature GenerationDataChunk, u64 (len hs * szUint32)) :: (if 0 <? sumZ (fun hc => overflowing hc.2) cs then [(Signature GenerationDataOverflowChunk, u64 (sumZ (fun hc => overflowing hc.2) cs * szUint64))] else []) else []) =
    (if allV2 cs then (Signature GenerationDataChunk, u64 (len hs * szUint32)) :: (if 0 <? len ovf then [(Signature GenerationDataOverflowChunk, u64 (len ovf * szUint64))] else []) else [])) as -> by (destruct (allV2 cs) eqn:Ea; [by rewrite (overflow_count Ea), Hov|done]).
  rewrite <- Et. exists rows, edges, gens, ovf. eexists _, mi2. split; [|split_and!; [done..|lia]]. do 2 f_equal. unfold graphFile, chunkFile. rewrite graph_body, len_map, <- !app_assoc. reflexivity.
Qed.
End Graph.

Lemma time_field w g : 0 <= w < 2 ^ 34 -> 0 <= g -> Z.land (w + g * 2 ^ 34) 0x3FFFFFFFF = w /\ Z.shiftr (w + g * 2 ^ 34) 34 = g.
Proof.
  intros Hw Hg. change 0x3FFFFFFFF with (Z.ones 34). rewrite Z.land_ones, Z.shiftr_div_pow2 by lia. rewrite Z.mod_add, Z.div_add by lia. rewrite Z.mod_small, Z.div_small by lia. done.
Qed.

Lemma V2_field c : 0 <= When c < 2 ^ 34 -> 0 <= GenerationV2 c < 2 ^ 64 -> keptV2 c <> 0 -> u64 (When c + dataV2 c) = GenerationV2 c.
Proof.
  intros Hw Hg Hk. unfold dataV2. destruct (Z.eqb_spec (keptV2 c) 0); [done|]. unfold keptV2 in *. destruct (Z.eqb_spec (GenerationV2 c) MaxUint64); [done|].
  unfold u64. rewrite Zplus_mod_idemp_r. replace (When c + (GenerationV2 c - When c)) with (GenerationV2 c) by lia. by apply Z.mod_small.
Qed.

(** A commit of a graph and the same commit of a file: the parents have the indexes of their identifiers. *)
Record reads_as (fi : Index) (v2 : bool) (h : ObjectID) (c : CommitData) (k : Z) (d : CommitData) : Prop := {
  ra_index : GetIndexByHash fi h = Ok k;
  ra_hash : GetHashByIndex fi k = Ok h;
  ra_data : GetCommitDataByIndex fi k = Ok (d, fi);
  ra_tree : TreeHash d = TreeHash c;
  ra_parents : ParentHashes d = ParentHashes c;
  ra_indexes : Forall2 (fun i p => GetIndexByHash fi p = Ok i) (default [] (ParentIndexes d)) (ParentHashes d);
  ra_generation : Generation d = Generation c;
  ra_when : When d = When c;
  ra_v2 : GenerationV2 d = if v2 then GenerationV2 c else 0 }.

Section Reading.
Variable cs : list (ObjectID * CommitData).
Hypothesis Hcs : graph_ok cs.
Notation hs := (HashesSort (Mem_Hashes (addAll cs))).
Variable rows : list Row.
Variable edges gens ovf : list Z.
Variable tail : bytes.
Hypothesis Hgens : gens_for cs gens ovf.
Hypothesis Hrows : Forall2 (row_for cs edges) hs rows.
Hypothesis Hedges : Forall (fun z => 0 <= z < 2 ^ 32) edges.
Hypothesis Hen : len edges < 2 ^ 31.
Notation fi := (IFile (graphIndex hs rows edges gens ovf (allV2 cs) tail) None).

Lemma file_len : len hs < 2 ^ 28.
Proof. pose proof (go_len _ Hcs). unfold len in *. by rewrite hs_length. Qed.
Lemma file_rows : Forall row_ok rows.
Proof. exact (rows_ok cs edges _ _ Hrows). Qed.
Lemma file_rn : length rows = length hs.
Proof. symmetry. by eapply Forall2_length. Qed.
Lemma file_gens : allV2 cs = true -> length gens = length hs /\ Forall (fun z => 0 <= z < 2 ^ 32) gens.
Proof. intros _. by destruct Hgens as (? & ? & _). Qed.
Lemma file_on : len ovf < 2 ^ 31.
Proof. destruct Hgens as (_ & _ & Ho & _). pose proof file_len. lia. Qed.
Lemma file_ovf : Forall (fun z => 0 <= z < 2 ^ 64) ovf.
Proof. by destruct Hgens as (_ & _ & _ & ? & _). Qed.

Lemma file_index k h : hs !! k = Some h -> GetIndexByHash fi h = Ok (Z.of_nat k).
Proof.
  intros Hk. assert (IdxfileTables.sha1_id h) as Hid by (pose proof (hs_ids cs Hcs) as Hall; rewrite Forall_forall in Hall; apply Hall; by eapply list_elem_of_lookup_2).
  pose proof (GetIndexByHash_ok hs rows edges gens ovf (allV2 cs) tail (hs_ids cs Hcs) (hs_sorted cs Hcs) file_len file_rows file_rn Hen file_gens file_on h Hid) as H.
  destruct (list_find (fun x => x = h) hs) as [[j x]|] eqn:E.
  - apply list_find_Some in E as (Hj & -> & _). rewrite H. do 2 f_equal. by eapply (NoDup_lookup _ _ _ h (hs_nodup cs Hcs)).
  - apply list_find_None in E. rewrite Forall_forall in E. by specialize (E h ltac:(by eapply list_elem_of_lookup_2)).
Qed.

Lemma file_absent h : IdxfileTables.sha1_id h -> h ∉ map fst cs -> GetIndexByHash fi h = Err ErrObjectNotFound.
Proof.
  intros Hid Hn. pose proof (GetIndexByHash_ok hs rows edges gens ovf (allV2 cs) tail (hs_ids cs Hcs) (hs_sorted cs Hcs) file_len file_rows file_rn Hen file_gens file_on h Hid) as H.
  destruct (list_find (fun x => x = h) hs) as [[j x]|] eqn:E; [|done]. apply list_find_Some in E as (Hj & -> & _). exfalso. apply Hn. rewrite <- (hs_perm cs Hcs). by eapply list_elem_of_lookup_2.
Qed.

Lemma file_reads h c : (h, c) ∈ cs -> exists k d, reads_as fi (allV2 cs) h c k d.
Proof.
  intros Hin. assert (h ∈ hs) as Hh by (rewrite (hs_perm cs Hcs); by apply (list_elem_of_fmap_2 fst _ (h, c))). apply list_elem_of_lookup in Hh as [k Hk].
  destruct (Forall2_lookup_l _ _ _ _ _ Hrows Hk) as (row & Hrow & c' & p1 & p2 & Hc' & -> & Hw & _). assert (c' = c) as -> by (rewrite <- (commitAt_in cs Hcs h c Hin); symmetry; by apply commitAt_in).
  destruct Hgens as (_ & _ & _ & _ & Hg). destruct (Hg k h Hk) as (w & Hkw & Hv). rewrite (commitAt_in cs Hcs h c Hin) in Hv.
  pose proof (go_time _ Hcs) as Ht. rewrite Forall_forall in Ht. destruct (Ht (h, c) Hin) as (Ht1 & Ht2 & Ht3). cbn [snd] in Ht1, Ht2, Ht3. destruct (time_field (When c) (Generation c) Ht1 ltac:(lia)) as [E1 E2].
  set (ps := map (fun p => default 0 (hashToIndexOf hs !! p)) (ParentHashes c)) in *.
  assert (Forall2 (fun i p => exists j, i = Z.of_nat j /\ hs !! j = Some p) ps (ParentHashes c)) as Hps.
  { unfold ps. apply Forall2_fmap_l, Forall_Forall2_diag, Forall_forall. intros p Hp. destruct (parent_found cs Hcs h c p Hin Hp) as (j & Hj & Ej). exists j. split; [|done]. unfold compose. by rewrite Ej. }
  pose proof (GetCommitData_ok hs rows edges gens ovf (allV2 cs) tail (hs_ids cs Hcs) file_len file_rows file_rn Hen file_gens file_ovf file_on k h _ p1 p2 _ ps (ParentHashes c) w (dataV2 c) Hk Hrow Hw Hps (fun _ => conj Hkw Hv)) as Hd.
  exists (Z.of_nat k). eexists. split; [by apply file_index|by apply (GetHashByIndex_ok hs rows edges gens ovf (allV2 cs) tail (hs_ids cs Hcs) file_len file_rows file_rn Hen file_gens file_on)|exact Hd|done|done| |exact E2|exact E1|].
  - cbn [ParentIndexes ParentHashes]. assert (default [] (match ps with [] => None | _ => Some ps end) = ps) as -> by (by destruct ps). eapply Forall2_impl; [exact Hps|]. intros i p (j & -> & Hj). by apply file_index.
  - cbn [GenerationV2]. rewrite E1. destruct (allV2 cs) eqn:Ea; [|done]. apply V2_field; [done|done|]. unfold allV2 in Ea. rewrite forallb_forall in Ea. specialize (Ea (h, c)). rewrite list_elem_of_In in Hin. specialize (Ea Hin). cbn in Ea. by apply negb_true_iff, Z.eqb_neq in Ea.
Qed.
End Reading.

(** C15: A commit graph goes through its file.  A graph whose parents are all in it and whose times and generations fit
    is encoded without an error, the file is opened, and every commit is found by its identifier with its tree, parents,
    generation and time, and the parents by the indexes it gives; other identifiers are not found.  The second
    generation is there when every commit has one. *)
Theorem commitgraph_roundtrip (sha1 : bytes -> bytes) (cs : list (ObjectID * CommitData)) : graph_ok cs ->
  exists file mi fi, Encode sha1 (IMemory (addAll cs)) = Ok (file, IMemory mi) /\ OpenFileIndex (Some file) = Ok fi /\ HasGenerationV2 fi = allV2 cs /\
    (forall h c, (h, c) ∈ cs -> exists k d, reads_as fi (allV2 cs) h c k d) /\
    forall h, IdxfileTables.sha1_id h -> h ∉ map fst cs -> GetIndexByHash fi h = Err ErrObjectNotFound.
Proof.
  intros Hcs. destruct (Encode_ok cs Hcs sha1) as (rows & edges & gens & ovf & tail & mi & E & Hg & Hr & He & Hen). eexists _, mi, _. split; [exact E|].
  split; [apply (graph_opens _ rows edges gens ovf (allV2 cs) tail (hs_ids cs Hcs) (hs_sorted cs Hcs) (file_len cs Hcs) (file_rows cs rows edges Hr) (file_rn cs rows edges Hr) He Hen (file_gens cs gens ovf Hg) (file_ovf cs gens ovf Hg) (file_on cs Hcs gens ovf Hg))|].
  split; [done|]. split; intros; [by eapply file_reads|by eapply file_absent].
Qed.

(** ** A sample: a commit with four parents, one with two, one with one and a root, and a second generation that overflows *)
Definition graphId (n : Z) : ObjectID := fst (FromBytes (be_encode 20 (n * 2 ^ 150 + 7))).
Definition sampleCommit (p : list ObjectID) (g v2 w : Z) : CommitData := mkCommitData (graphId 9) None p g v2 w.
Definition sampleGraph : list (ObjectID * CommitData) :=
  [(graphId 5, sampleCommit [] 1 1003 1000); (graphId 3, sampleCommit [graphId 5] 2 1005 1005); (graphId 8, sampleCommit [graphId 5; graphId 3] 3 (2000 + 2 ^ 40) 2000);
   (graphId 1, sampleCommit [graphId 8; graphId 3; graphId 5; graphId 8] 4 3001 3000)].

Lemma sampleGraph_ok : graph_ok sampleGraph.
Proof.
  split; [apply (bool_decide_unpack _); vm_compute; exact I|done| | | |done|].
  - repeat (apply Forall_cons; split; [split; (split; [split; [vm_compute; reflexivity|right; split; vm_compute; reflexivity]|vm_compute; reflexivity])|]). constructor.
  - repeat (apply Forall_cons; split; [cbn; set_solver|]). constructor.
  - repeat constructor; cbn; lia.
  - repeat (apply Forall_cons; split; [vm_compute; intuition congruence|]). constructor.
Qed.

Lemma commitgraph_roundtrip_witness :
  exists file mi fi, Encode toySha1 (IMemory (addAll sampleGraph)) = Ok (file, IMemory mi) /\ OpenFileIndex (Some file) = Ok fi /\ HasGenerationV2 fi = allV2 sampleGraph /\
    (forall h c, (h, c) ∈ sampleGraph -> exists k d, reads_as fi (allV2 sampleGraph) h c k d) /\
    forall h, IdxfileTables.sha1_id h -> h ∉ map fst sampleGraph -> GetIndexByHash fi h = Err ErrObjectNotFound.
Proof. apply (commitgraph_roundtrip toySha1 sampleGraph). exact sampleGraph_ok. Defined.

(** ** A gap *)

(** The second generation that comes back for a root commit whose distance from its time is [d]. *)
Definition backV2 (d : Z) : option Z :=
  match Encode toySha1 (IMemory (addAll [(graphId 5, sampleCommit [] 1 (1000 + d) 1000)])) with
  | Ok (file, _) =>
    match OpenFileIndex (Some file) with
    | Ok fi => match GetCommitDataByIndex fi 0 with Ok (c, _) => Some (GenerationV2 c) | _ => None end
    | _ => None
    end
  | _ => None
  end.

(** Values from 2^31 to 2^32 - 1 are written as overflows but not counted as such, so that the file has no chunk for them: another
    number is read, from the start of the file. *)
Theorem generation_gap : backV2 (2 ^ 31 - 1) = Some (1000 + (2 ^ 31 - 1)) /\ backV2 (2 ^ 32) = Some (1000 + 2 ^ 32) /\
  exists v, backV2 (2 ^ 31) = Some v /\ v <> 1000 + 2 ^ 31.
Proof. split; [vm_compute; reflexivity|]. split; [vm_compute; reflexivity|]. eexists. split; [vm_compute; reflexivity|lia]. Qed.
