(* ===== verification/Gitignore.v ===== *)
(** * plumbing/format/gitignore

    Patterns and how one matches a path (pattern.go), a list of patterns (matcher.go), and the reading of the
    patterns of a work tree (dir.go) with the slices of path elements it passes down, which share their arrays.
    The file system is go-billy's: the operations are parameters, a file is its contents. *)
From S2P Require Import Prelude GoStrings Filepath PackpMessages.

(** ** pattern.go *)
Inductive MatchResult := NoMatch | Exclude | Include.
#[global] Instance MatchResult_eq_decision : EqDecision MatchResult.
Proof. solve_decision. Defined.

Definition inclusionPrefix : bytes := bs "!".
Definition zeroToManyDirs : bytes := bs "**".
Definition patternDirSep : byte := x2f.

Record IgnorePattern := mkIgnorePattern {
  ip_domain : list bytes; ip_pattern : list bytes; ip_inclusion : bool; ip_dirOnly : bool; ip_isGlob : bool }.
#[global] Instance IgnorePattern_eq_decision : EqDecision IgnorePattern.
Proof. solve_decision. Defined.

Definition ignore_ParsePattern (p : bytes) (domain : list bytes) : IgnorePattern :=
  let inclusion := HasPrefix p inclusionPrefix in
  let p := if inclusion then drop 1 p else p in
  let p := if HasSuffix p (bs "\ ") then p else TrimRight p x20 in
  let dirOnly := HasSuffix p [patternDirSep] in
  let p := if dirOnly then take (length p - 1) p else p in
  mkIgnorePattern domain (Split p patternDirSep) inclusion dirOnly (Contains p [patternDirSep]).

Fixpoint simpleName_loop (dirOnly isDir : bool) (pattern : bytes) (path : list bytes) : bool :=
  match path with
  | [] => false
  | name :: path =>
    match filepath_Match pattern name with
    | Ok true => negb (dirOnly && negb isDir && bool_decide (path = []))
    | Ok false => simpleName_loop dirOnly isDir pattern path
    | _ => false
    end
  end.

(** [simpleNameMatch]; [strings.Split] gives at least one piece. *)
Definition simpleNameMatch (p : IgnorePattern) (path : list bytes) (isDir : bool) : bool :=
  match ip_pattern p with
  | [] => false
  | pattern :: _ => simpleName_loop (ip_dirOnly p) isDir pattern path
  end.

(** The loop of [globMatch] after two asterisks; [None] when the function returns false. *)
Fixpoint glob_traverse (pattern : bytes) (matched : bool) (path : list bytes) : option (bool * list bytes) :=
  match path with
  | [] => Some (matched, [])
  | e :: path =>
    match filepath_Match pattern e with
    | Ok true => Some (true, path)
    | Ok false => glob_traverse pattern (if bool_decide (path = []) then false else matched) path
    | _ => None
    end
  end.

(** The loop of [globMatch] over the pieces of the pattern. *)
Fixpoint glob_loop (pieces : list bytes) (path : list bytes) (matched canTraverse : bool) : option (bool * list bytes) :=
  match pieces with
  | [] => Some (matched, path)
  | pattern :: pieces =>
    if bool_decide (pattern = []) then glob_loop pieces path matched false
    else if bool_decide (pattern = zeroToManyDirs) then
      if bool_decide (pieces = []) then Some (matched, path) else glob_loop pieces path matched true
    else if Contains pattern zeroToManyDirs then None
    else
      match path with
      | [] => None
      | e :: path' =>
        if canTraverse then
          match glob_traverse pattern matched path with
          | None => None
          | Some (matched, path) => glob_loop pieces path matched false
          end
        else
          match filepath_Match pattern e with
          | Ok true => glob_loop pieces path' (negb (bool_decide (path' = []) && negb (bool_decide (pieces = [])))) false
          | _ => None
          end
      end
  end.

Definition globMatch (p : IgnorePattern) (path : list bytes) (isDir : bool) : bool :=
  match glob_loop (ip_pattern p) path false false with
  | None => false
  | Some (matched, path) => matched && negb (ip_dirOnly p && negb isDir && bool_decide (path = []))
  end.

(** [Match] of a pattern; the comparison of the domain is element by element. *)
Definition ignore_Match (p : IgnorePattern) (path : list bytes) (isDir : bool) : MatchResult :=
  if (length path <=? length (ip_domain p))%nat then NoMatch
  else if negb (bool_decide (take (length (ip_domain p)) path = ip_domain p)) then NoMatch
  else
    let path := drop (length (ip_domain p)) path in
    if negb (if ip_isGlob p then globMatch p path isDir else simpleNameMatch p path isDir) then NoMatch
    else if ip_inclusion p then Include else Exclude.

(** ** matcher.go: from the last pattern to the first *)
Fixpoint ignored_by (rev_patterns : list IgnorePattern) (path : list bytes) (isDir : bool) : bool :=
  match rev_patterns with
  | [] => false
  | p :: ps =>
    match ignore_Match p path isDir with
    | NoMatch => ignored_by ps path isDir
    | r => bool_decide (r = Exclude)
    end
  end.
Definition ignore_matcher (patterns : list IgnorePattern) (path : list bytes) (isDir : bool) : bool :=
  ignored_by (rev patterns) path isDir.

(** ** dir.go *)
Definition gitDir : bytes := bs ".git".
Definition gitignoreFile : bytes := bs ".gitignore".
Definition infoExcludeFile : bytes := gitDir ++ bs "/info/exclude".

(** The patterns of the lines of a file; the error of the scanner is not looked at. *)
Definition ignore_line (s : bytes) : bool := negb (HasPrefix s (bs "#")) && (len (TrimSpace s) >? 0).
Definition ignore_lines (content : bytes) (domain : list bytes) : list IgnorePattern :=
  map (fun s => ignore_ParsePattern s domain) (filter ignore_line (scanLines (Split content x0a)).1).

Section ReadPatterns.
(** go-billy's file system, [os.UserHomeDir], [user.Lookup], and the growth of slices *)
Variable fsJoin : list bytes -> bytes.
Variable fsOpen : bytes -> error + bytes.
Variable fsReadDir : bytes -> error + list (bytes * bool).
Variable userHome : option bytes.
Variable lookupUser : bytes -> option bytes.
Variable newcap : nat -> nat.

(** [path_util.ReplaceTildeWithHome]; on an error the path is returned as it was. *)
Definition ReplaceTildeWithHome (path : bytes) : bytes :=
  if HasPrefix path (bs "~") then
    let firstSlash := IndexByte path x2f in
    if firstSlash =? 1 then match userHome with Some home => home ++ drop 1 path | None => path end
    else if firstSlash >? 1 then
      match lookupUser (seg path 1 firstSlash) with
      | Some home => home ++ drop (Z.to_nat firstSlash) path
      | None => path
      end
    else path
  else path.

Definition openIgnoreFile (path : list bytes) (full : list bytes) : list IgnorePattern * option error :=
  match fsOpen (fsJoin full) with
  | inr content => (ignore_lines content path, None)
  | inl e => ([], if bool_decide (e = ErrNotExist) then None else Some e)
  end.

(** [readIgnoreFile]: [append] may write after [path] in its array. *)
Definition readIgnoreFile (h : strings) (path : Slice) (ignoreFile : bytes) : strings * (list IgnorePattern * option error) :=
  let '(h, full) := append_string newcap h path (ReplaceTildeWithHome ignoreFile) in
  (h, openIgnoreFile (contents h path) (contents h full)).

(** The loop over the entries of a directory, with [rec] for the recursive call. *)
Fixpoint readDirs (rec : strings -> Slice -> option (strings * (list IgnorePattern * option error))) (path : Slice)
    (fis : list (bytes * bool)) (h : strings) (ps : list IgnorePattern) : option (strings * (list IgnorePattern * option error)) :=
  match fis with
  | [] => Some (h, (ps, None))
  | (name, isDir) :: fis =>
    if isDir && negb (bool_decide (name = gitDir)) then
      let '(h, sub) := append_string newcap h path name in
      if ignore_matcher ps (contents h sub) true then readDirs rec path fis h ps
      else
        let '(h, sub) := append_string newcap h path name in
        match rec h sub with
        | None => None
        | Some (h, (_, Some err)) => Some (h, (ps, Some err))
        | Some (h, (subps, None)) => readDirs rec path fis h (ps ++ subps)
        end
    else readDirs rec path fis h ps
  end.

(** [ReadPatterns]; [None] is out of fuel, the depth of the directories. *)
Fixpoint ReadPatterns (fuel : nat) (h : strings) (path : Slice) : option (strings * (list IgnorePattern * option error)) :=
  match fuel with
  | O => None
  | S fuel =>
    let '(h, (ps, _)) := readIgnoreFile h path infoExcludeFile in
    let '(h, (subps, _)) := readIgnoreFile h path gitignoreFile in
    let ps := ps ++ subps in
    match fsReadDir (fsJoin (contents h path)) with
    | inl err => Some (h, (ps, Some err))
    | inr fis => readDirs (ReadPatterns fuel) path fis h ps
    end
  end.

(** ** The reading without sharing: every path is a list of its own. *)
Fixpoint readDirs_ref (rec : list bytes -> option (list IgnorePattern * option error)) (path : list bytes)
    (fis : list (bytes * bool)) (ps : list IgnorePattern) : option (list IgnorePattern * option error) :=
  match fis with
  | [] => Some (ps, None)
  | (name, isDir) :: fis =>
    if isDir && negb (bool_decide (name = gitDir)) && negb (ignore_matcher ps (path ++ [name]) true) then
      match rec (path ++ [name]) with
      | None => None
      | Some (_, Some err) => Some (ps, Some err)
      | Some (subps, None) => readDirs_ref rec path fis (ps ++ subps)
      end
    else readDirs_ref rec path fis ps
  end.

Fixpoint ReadPatterns_ref (fuel : nat) (path : list bytes) : option (list IgnorePattern * option error) :=
  match fuel with
  | O => None
  | S fuel =>
    let file f := (openIgnoreFile path (path ++ [ReplaceTildeWithHome f])).1 in
    let ps := file infoExcludeFile ++ file gitignoreFile in
    match fsReadDir (fsJoin path) with
    | inl err => Some (ps, Some err)
    | inr fis => readDirs_ref (ReadPatterns_ref fuel) path fis ps
    end
  end.

(** ** The slices that share arrays read the same patterns. *)
(** A step from [path] that gives what the reference gives on its elements. *)
Definition reads_as (h : strings) (path : Slice) (got : option (strings * (list IgnorePattern * option error)))
    (want : option (list IgnorePattern * option error)) : Prop :=
  match got, want with
  | None, None => True
  | Some (h', r), Some r' => r = r' /\ writes_after h path h'
  | _, _ => False
  end.

Lemma readIgnoreFile_as h path f h' r : slice_ok_in h path -> readIgnoreFile h path f = (h', r) ->
  r = openIgnoreFile (contents h path) (contents h path ++ [ReplaceTildeWithHome f]) /\ writes_after h path h'.
Proof.
  intros Hs. unfold readIgnoreFile. destruct (append_string _ _ _ _) as [h1 s1] eqn:E.
  apply append_string_ok in E as (_ & Hc & Hw & _); [|done]. intros [= <- <-]. rewrite Hc.
  pose proof Hw as (_ & _ & _ & ->). done.
Qed.

Lemma reads_as_later h path h' got want : slice_ok_in h path -> writes_after h path h' -> reads_as h' path got want -> reads_as h path got want.
Proof.
  intros Hs Hw. unfold reads_as. destruct got as [[h2 r]|], want as [r'|]; try done. intros [-> ?]. split; [done|].
  by apply (writes_after_trans h h' h2).
Qed.

Lemma readDirs_as rec rec' path fis :
  (forall h s, slice_ok_in h s -> reads_as h s (rec h s) (rec' (contents h s))) ->
  forall h ps, slice_ok_in h path -> reads_as h path (readDirs rec path fis h ps) (readDirs_ref rec' (contents h path) fis ps).
Proof.
  intros Hrec. induction fis as [|[name isDir] fis IH]; intros h ps Hs; [by split; [|apply writes_after_refl]|].
  cbn [readDirs readDirs_ref]. destruct (isDir && _); cbn [andb]; [|by apply IH].
  destruct (append_string newcap h path name) as [h1 s1] eqn:E1.
  pose proof (append_string_ok _ _ _ _ _ _ Hs E1) as (Hs1 & Hc1 & Hw1 & _). rewrite Hc1.
  pose proof (writes_after_ok _ _ _ Hs Hw1) as Hp1. pose proof Hw1 as (_ & _ & _ & Hcp1).
  destruct (ignore_matcher _ _ _); cbn [negb].
  { apply (reads_as_later h path h1); [done|done|]. rewrite <- Hcp1. by apply IH. }
  destruct (append_string newcap h1 path name) as [h2 s2] eqn:E2.
  pose proof (append_string_ok _ _ _ _ _ _ Hp1 E2) as (Hs2 & Hc2 & Hw2 & _). rewrite Hcp1 in Hc2.
  specialize (Hrec h2 s2 Hs2). rewrite Hc2 in Hrec. unfold reads_as in Hrec.
  destruct (rec h2 s2) as [[h3 [subps [err|]]]|], (rec' _) as [[subps' err']|]; try done; destruct Hrec as [[= <- <-] Hw3].
  - split; [done|]. apply (writes_after_trans h h1 h3); [done|done|]. by apply (writes_after_append newcap h1 path name h2 s2).
  - assert (writes_after h path h3) as Hw.
    { apply (writes_after_trans h h1 h3); [done|done|]. by apply (writes_after_append newcap h1 path name h2 s2). }
    apply (reads_as_later h path h3); [done|done|]. pose proof Hw as (_ & _ & _ & <-). by apply IH, (writes_after_ok h).
Qed.

Lemma ReadPatterns_as fuel : forall h path, slice_ok_in h path -> reads_as h path (ReadPatterns fuel h path) (ReadPatterns_ref fuel (contents h path)).
Proof.
  induction fuel as [|fuel IH]; intros h path Hs; [done|]. cbn [ReadPatterns ReadPatterns_ref].
  destruct (readIgnoreFile h path infoExcludeFile) as [h1 [ps e1]] eqn:E1.
  destruct (readIgnoreFile_as _ _ _ _ _ Hs E1) as [R1 Hw1]. pose proof (writes_after_ok _ _ _ Hs Hw1) as Hs1.
  destruct (readIgnoreFile h1 path gitignoreFile) as [h2 [subps e2]] eqn:E2.
  destruct (readIgnoreFile_as _ _ _ _ _ Hs1 E2) as [R2 Hw2]. pose proof (writes_after_ok _ _ _ Hs1 Hw2) as Hs2.
  pose proof Hw1 as (_ & _ & _ & C1). pose proof Hw2 as (_ & _ & _ & C2). rewrite C1 in R2, C2. rewrite C2.
  apply (reads_as_later h path h1); [done|done|]. apply (reads_as_later h1 path h2); [done|done|].
  rewrite <- R1, <- R2. cbn [fst]. destruct (fsReadDir _) as [err|fis]; [by split; [|apply writes_after_refl]|].
  rewrite <- C2. by apply readDirs_as.
Qed.
End ReadPatterns.
