(* ===== verification/GitignoreProofs.v ===== *)
(** * What the patterns of gitignore exclude

    The reference [pieces_match] is the meaning the documentation of the package gives to the pieces of a pattern
    with a slash: two asterisks stand for directories, any other piece for one element of the path.  For pieces of
    literals, [?] and [*] the meaning of a piece is the relation [globs].  [globMatch] agrees with it where two
    asterisks stand before the last piece only; with the answers of filepath.Match for the pieces it is sound where
    the pattern does not end in two asterisks; and it departs from the documentation in the ways the examples show.
    The last pattern that matches decides, a pattern says nothing about paths outside the directory of its file, and
    reading the files of a work tree gives the same patterns as with paths that share nothing. *)
From S2P Require Import Prelude GoStrings IndexMatchProofs Filepath PackpMessages Gitignore.

(** ** Pieces of a pattern against the elements of a path, for a meaning of one piece *)
Inductive pieces_match (M : bytes -> bytes -> Prop) : list bytes -> list bytes -> Prop :=
  | pm_nil : pieces_match M [] []
  | pm_empty ps path : pieces_match M ps path -> pieces_match M ([] :: ps) path
  | pm_dirs dirs ps path : ps <> [] -> pieces_match M ps path -> pieces_match M (zeroToManyDirs :: ps) (dirs ++ path)
  | pm_piece p e ps path : p <> [] -> p <> zeroToManyDirs -> M p e ->
      pieces_match M ps path -> pieces_match M (p :: ps) (e :: path).
#[export] Hint Constructors pieces_match : git.

(** The pattern matches the path or a directory above it; a pattern for directories only needs a directory. *)
Definition ignore_spec (M : bytes -> bytes -> Prop) (p : IgnorePattern) (path : list bytes) (isDir : bool) : Prop :=
  exists pre rest, path = pre ++ rest /\ pieces_match M (ip_pattern p) pre /\ (ip_dirOnly p = true -> rest = [] -> isDir = true).

(** Two meanings that agree on the pieces and the elements. *)
Lemma pieces_match_ext (M M' : bytes -> bytes -> Prop) pieces path : (forall q e, q ∈ pieces -> e ∈ path -> M q e -> M' q e) ->
  pieces_match M pieces path -> pieces_match M' pieces path.
Proof.
  intros HM H. induction H as [|ps path H IH|dirs ps path Hne H IH|p e ps path H1 H2 H3 H IH]; [constructor|..].
  - apply pm_empty, IH. intros q e Hq. apply HM. by right.
  - apply pm_dirs; [done|]. apply IH. intros q e Hq He. apply HM; set_solver.
  - apply pm_piece; [done..|apply HM; [by left|by left|done]|]. apply IH. intros q e' Hq He. apply HM; by right.
Qed.

(** The meaning the code gives a piece: the answer of filepath.Match. *)
Definition answered (q e : bytes) : Prop := filepath_Match q e = Ok true.

(** Nothing matches once the path is used up. *)
Lemma glob_loop_nil pieces : last pieces <> Some zeroToManyDirs -> forall ct rest, glob_loop pieces [] false ct <> Some (true, rest).
Proof.
  induction pieces as [|p pieces IH]; intros Hl ct rest; [done|]. cbn [glob_loop].
  assert (pieces <> [] -> last pieces <> Some zeroToManyDirs) as Hl' by (destruct pieces; done).
  case_bool_decide as Ee; [destruct pieces; [done|by apply IH, Hl']|].
  case_bool_decide as Ez; [|by destruct (Contains _ _)].
  destruct pieces as [|q pieces]; [subst p; done|]. rewrite bool_decide_eq_false_2 by done. by apply IH, Hl'.
Qed.

Lemma glob_traverse_spec p path : forall matched m rest, path <> [] -> glob_traverse p matched path = Some (m, rest) ->
  (m = false /\ rest = []) \/
  (m = true /\ exists dirs e, path = dirs ++ e :: rest /\ filepath_Match p e = Ok true).
Proof.
  induction path as [|e path IH]; intros matched m rest Hne H; [done|]. cbn [glob_traverse] in H.
  destruct (filepath_Match p e) as [[|]| | |] eqn:E; try discriminate H.
  - injection H as <- <-. right. split; [done|]. by exists [], e.
  - destruct path as [|e' path]; [injection H as <- <-; by left|].
    destruct (IH _ _ _ ltac:(done) H) as [?|(? & dirs & x & -> & ?)]; [by left|right]. split; [done|]. by exists (e :: dirs), x.
Qed.

Lemma glob_loop_sound pieces : last pieces <> Some zeroToManyDirs -> forall path m ct rest, (ct = true -> pieces <> []) -> (m = true \/ pieces <> []) ->
  glob_loop pieces path m ct = Some (true, rest) ->
  exists pre, path = pre ++ rest /\ pieces_match answered (if ct then zeroToManyDirs :: pieces else pieces) pre.
Proof.
  induction pieces as [|p pieces IH]; intros Hl path m ct rest Hct Hm H.
  { injection H as -> <-. exists []. split; [done|]. destruct ct; [by specialize (Hct eq_refl)|constructor]. }
  cbn [glob_loop] in H. assert (last pieces <> Some zeroToManyDirs) as Hl' by (by destruct pieces).
  case_bool_decide as Ee.
  { subst p. destruct pieces as [|q pieces]; [injection H as -> <-; exists []; split; [done|]; destruct ct; [apply (pm_dirs answered [] [[]] []); [done|]|]; repeat constructor|].
    destruct (IH Hl' _ _ _ _ ltac:(done) ltac:(by right) H) as (pre & -> & Hp). exists pre. split; [done|].
    destruct ct; [apply (pm_dirs answered []); [done|]|]; by constructor. }
  case_bool_decide as Ez.
  { subst p. destruct pieces as [|q pieces]; [done|]. rewrite bool_decide_eq_false_2 in H by done.
    destruct (IH Hl' _ _ _ _ ltac:(done) ltac:(by right) H) as (pre & -> & Hp). exists pre. split; [done|].
    destruct ct; [apply (pm_dirs answered []); [done|]|]; done. }
  destruct (Contains p zeroToManyDirs); [done|]. destruct path as [|e path]; [done|]. destruct ct.
  - destruct (glob_traverse p m (e :: path)) as [[m' path']|] eqn:Et; [|done].
    apply glob_traverse_spec in Et as [[-> ->]|(-> & dirs & x & -> & Hx)]; [by apply glob_loop_nil in H| |done].
    destruct (IH Hl' _ true false _ ltac:(done) ltac:(by left) H) as (pre & -> & Hp). exists (dirs ++ x :: pre).
    split; [by rewrite <- app_assoc|]. apply pm_dirs; [done|]. by apply pm_piece.
  - destruct (filepath_Match p e) as [[|]| | |] eqn:E; try discriminate H.
    assert (exists pre, path = pre ++ rest /\ pieces_match answered pieces pre) as (pre & -> & Hp).
    { destruct pieces as [|q pieces]; [|apply (IH Hl' _ _ false _ ltac:(done) ltac:(by right) H)].
      rewrite andb_false_r in H. injection H as <-. exists []. split; [done|constructor]. }
    exists (e :: pre). split; [done|]. by apply pm_piece.
Qed.

Lemma globMatch_sound p path isDir : last (ip_pattern p) <> Some zeroToManyDirs -> globMatch p path isDir = true -> ignore_spec answered p path isDir.
Proof.
  unfold globMatch. intros Hlast Hm. destruct (glob_loop _ _ _ _) as [[m rest]|] eqn:E; [|done]. apply andb_prop in Hm as [-> Hd].
  assert (ip_pattern p <> []) by (intros E0; rewrite E0 in E; done).
  apply glob_loop_sound in E as (pre & -> & Hp); [|done|done|by right]. exists pre, rest. split_and!; [done|done|].
  intros Hd' ->. rewrite Hd' in Hd. by destruct isDir.
Qed.

(** Where a pattern with a slash does not end in two asterisks, a path it matches is one the documentation says it
    matches, with the answers of filepath.Match for the pieces. *)
Theorem ignore_glob_sound (p : IgnorePattern) (path : list bytes) (isDir : bool)
    (Hlast : last (ip_pattern p) <> Some zeroToManyDirs) (Hm : globMatch p path isDir = true) :
  ignore_spec answered p path isDir.
Proof. by apply globMatch_sound. Qed.

Lemma ignore_glob_sound_witness :
  ignore_spec answered (ignore_ParsePattern (bs "doc/**/*.html") []) [bs "doc"; bs "a"; bs "b"; bs "x.html"] false.
Proof. apply (ignore_glob_sound (ignore_ParsePattern (bs "doc/**/*.html") [])); [by vm_compute|reflexivity]. Defined.

(** Two asterisks at most before the last piece, none inside a piece, and no slash at the end. *)
Fixpoint late_stars (pieces : list bytes) : bool :=
  match pieces with
  | [] => false
  | p :: pieces =>
    if bool_decide (pieces = []) then negb (bool_decide (p = [])) && negb (Contains p zeroToManyDirs)
    else if bool_decide (p = zeroToManyDirs) then (length pieces =? 1)%nat && late_stars pieces
    else negb (Contains p zeroToManyDirs) && late_stars pieces
  end.

(** No piece is a malformed pattern for an element of the path. *)
Definition is_ok (r : res bool) : bool := match r with Ok _ => true | _ => false end.
Definition usable (pieces path : list bytes) : bool := forallb (fun q => forallb (fun e => is_ok (filepath_Match q e)) path) pieces.

Lemma late_stars_cases p pieces : late_stars (p :: pieces) = true ->
  (Contains p zeroToManyDirs = false /\ (p <> [] /\ pieces = [] \/ pieces <> [] /\ late_stars pieces = true)) \/
  (p = zeroToManyDirs /\ exists q, pieces = [q] /\ q <> [] /\ Contains q zeroToManyDirs = false).
Proof.
  cbn [late_stars]. case_bool_decide as E; [intros [Hp ?]%andb_prop; apply negb_true_iff in Hp; apply bool_decide_eq_false_1 in Hp; left; split; [by destruct (Contains _ _)|by left]|].
  case_bool_decide as Ez; intros [H1 H2]%andb_prop; [right|left; split; [by destruct (Contains _ _)|by right]].
  split; [done|]. destruct pieces as [|q [|? ?]]; try done. exists q. split; [done|]. cbn in H2. apply andb_prop in H2 as [Hq ?].
  apply negb_true_iff in Hq. apply bool_decide_eq_false_1 in Hq. split; [done|]. by destruct (Contains _ _).
Qed.

Lemma stars_contained : Contains zeroToManyDirs zeroToManyDirs = true.
Proof. reflexivity. Qed.

Lemma usable_tail pieces e path : usable pieces (e :: path) = true -> usable pieces path = true.
Proof. unfold usable. rewrite !forallb_forall. intros H q Hq. specialize (H q Hq). cbn [forallb] in H. by apply andb_prop in H as [_ ?]. Qed.

Lemma glob_traverse_complete q e rest dirs : filepath_Match q e = Ok true -> forallb (fun e => is_ok (filepath_Match q e)) dirs = true ->
  forall m, exists rest', glob_traverse q m (dirs ++ e :: rest) = Some (true, rest') /\ (rest' = [] -> rest = []).
Proof.
  intros He. induction dirs as [|d dirs IH]; intros Hd m; cbn [app glob_traverse].
  - rewrite He. by eexists.
  - cbn [forallb] in Hd. apply andb_prop in Hd as [Hd1 Hd]. destruct (filepath_Match q d) as [[|]| | |]; try discriminate Hd1; [|by apply IH].
    eexists. split; [done|]. by destruct dirs.
Qed.

Lemma glob_loop_complete pieces : forall pre rest m, late_stars pieces = true -> pieces_match answered pieces pre -> usable pieces (pre ++ rest) = true ->
  exists rest', glob_loop pieces (pre ++ rest) m false = Some (true, rest') /\ (rest' = [] -> rest = []).
Proof.
  induction pieces as [|p pieces IH]; intros pre rest m Hl Hp Hu; [done|]. unfold usable in Hu. cbn [forallb] in Hu. apply andb_prop in Hu as [Hu1 Hu].
  apply late_stars_cases in Hl as [(Hc & Hl)|(-> & q & -> & Hq & Hcq)].
  - inversion Hp as [|ps path Hps|dirs ps path Hne Hps|p' e ps path Hp1 Hp2 Hfm Hps]; subst.
    + destruct Hl as [[? _]|[? Hl]]; [done|]. cbn [glob_loop]. rewrite bool_decide_eq_true_2 by done. by apply IH.
    + by rewrite stars_contained in Hc.
    + cbn [glob_loop app]. rewrite (bool_decide_eq_false_2 (p = [])), (bool_decide_eq_false_2 (p = zeroToManyDirs)), Hc, Hfm by done.
      destruct Hl as [[_ ->]|[? Hl]]; [|by apply IH, (usable_tail _ e)].
      inversion Hps; subst. rewrite andb_false_r. by eexists.
  - inversion Hp as [|ps path Hps|dirs ps path Hne Hps|p' e ps path Hp1 Hp2 Hfm Hps]; subst; [|done].
    inversion Hps as [|? ? ?|dirs' ps' path' Hne' Hps'|q' e ps' path' Hp1 Hp2 Hfm Hps']; subst; [done|done|].
    inversion Hps'; subst. cbn [glob_loop]. rewrite (bool_decide_eq_false_2 (q = [])), (bool_decide_eq_false_2 (q = zeroToManyDirs)), Hcq by done.
    cbn. rewrite <- app_assoc. cbn [app]. destruct (glob_traverse_complete q e rest dirs Hfm) with (m := m) as (rest' & Ht & Hr).
    { apply andb_prop in Hu as [Hu _]. rewrite !forallb_app in Hu. apply andb_prop in Hu as [Hu _]. by apply andb_prop in Hu as [? _]. }
    rewrite Ht. exists rest'. split; [|done]. by destruct dirs.
Qed.

Lemma late_stars_last pieces : late_stars pieces = true -> last pieces <> Some zeroToManyDirs.
Proof.
  induction pieces as [|p pieces IH]; [done|]. intros [(Hc & [[_ ->]|[Hne Hl]])|(_ & q & -> & _ & Hc)]%late_stars_cases.
  - intros [= ->]. by rewrite stars_contained in Hc.
  - destruct pieces; [done|]. apply IH, Hl.
  - intros [= ->]. by rewrite stars_contained in Hc.
Qed.

Lemma globMatch_complete p path isDir : late_stars (ip_pattern p) = true -> usable (ip_pattern p) path = true -> ignore_spec answered p path isDir -> globMatch p path isDir = true.
Proof.
  intros Hl Hu (pre & rest & -> & Hp & Hd). unfold globMatch.
  destruct (glob_loop_complete _ _ _ false Hl Hp Hu) as (rest' & -> & Hr). cbn. apply negb_true_iff.
  destruct (ip_dirOnly p); [|done]. case_bool_decide as E; [|by destruct isDir]. by rewrite (Hd eq_refl (Hr E)).
Qed.

(** Pieces of literals, [?] and [*], and elements of a path: no slash in them, and ASCII where a piece has a question mark. *)
Definition plain_pieces (pieces path : list bytes) : Prop :=
  Forall (fun q => simple q /\ Forall (readable q) path) pieces /\ Forall (fun e => x2f ∉ e) path.

Lemma plain_answer pieces path q e : plain_pieces pieces path -> q ∈ pieces -> e ∈ path -> exists b, filepath_Match q e = Ok b /\ (b = true <-> globs q e).
Proof.
  intros [H1 H2] Hq He. rewrite Forall_forall in H1. destruct (H1 q Hq) as [Hs Hr]. rewrite Forall_forall in H2. rewrite Forall_forall in Hr.
  apply filepath_Match_simple; auto.
Qed.

Lemma plain_answered pieces path q e : plain_pieces pieces path -> q ∈ pieces -> e ∈ path -> answered q e <-> globs q e.
Proof. intros H Hq He. destruct (plain_answer _ _ _ _ H Hq He) as (b & E & Hb). unfold answered. rewrite E, <- Hb. split; [by intros [= ->]|by intros ->]. Qed.

Lemma plain_usable pieces path : plain_pieces pieces path -> usable pieces path = true.
Proof.
  intros H. unfold usable. apply forallb_forall. intros q Hq. apply forallb_forall. intros e He.
  destruct (plain_answer pieces path q e H) as (b & -> & _); [by apply list_elem_of_In..|done].
Qed.



(** Where the code leaves the documentation: it never goes back over two asterisks, two asterisks at the end forget
    that only directories match, after a search they match a file with nothing inside, and a class that begins with
    an exclamation mark is not negated, as it is in fnmatch(3). *)
Example ignore_glob_departs :
  globMatch (ignore_ParsePattern (bs "**/foo/bar") []) [bs "foo"; bs "x"; bs "foo"; bs "bar"] false = false /\
  pieces_match globs (ip_pattern (ignore_ParsePattern (bs "**/foo/bar") [])) [bs "foo"; bs "x"; bs "foo"; bs "bar"] /\
  globMatch (ignore_ParsePattern (bs "a/**/") []) [bs "a"; bs "x"] false = true /\
  globMatch (ignore_ParsePattern (bs "**/a/**") []) [bs "a"] false = true /\
  globMatch (ignore_ParsePattern (bs "d/[!a]x") []) [bs "d"; bs "ax"] false = true /\
  globMatch (ignore_ParsePattern (bs "d/[!a]x") []) [bs "d"; bs "bx"] false = false.
Proof.
  split; [reflexivity|]. split; [|split_and!; reflexivity].
  apply (pm_dirs globs [bs "foo"; bs "x"]); [done|]. repeat (apply pm_piece; [done|by vm_compute|repeat apply globs_byte; (done || constructor)|]). constructor.
Qed.

(** ** Lists of patterns *)
Lemma ignored_by_spec ps path isDir : ignored_by ps path isDir = true <->
  exists i p, ps !! i = Some p /\ ignore_Match p path isDir = Exclude /\
    forall j q, (j < i)%nat -> ps !! j = Some q -> ignore_Match q path isDir = NoMatch.
Proof.
  induction ps as [|p ps IH]; cbn [ignored_by]; [split; [done|intros (i & p & Hi & _); by rewrite lookup_nil in Hi]|].
  destruct (ignore_Match p path isDir) eqn:E.
  - rewrite IH. split.
    + intros (i & q & Hi & Hq & Hj). exists (S i), q. split_and!; [done|done|]. intros [|j] r Hlt Hr; [by injection Hr as <-|]. apply (Hj j); [lia|done].
    + intros ([|i] & q & Hi & Hq & Hj); [injection Hi as <-; congruence|]. exists i, q. split_and!; [done|done|].
      intros j r Hlt Hr. apply (Hj (S j)); [lia|done].
  - split; [|by rewrite bool_decide_eq_true_2]. intros _. exists 0%nat, p. split_and!; [done|done|lia].
  - rewrite bool_decide_eq_false_2 by done. split; [done|]. intros ([|i] & q & Hi & Hq & Hj); [injection Hi as <-; congruence|].
    specialize (Hj 0%nat p ltac:(lia) eq_refl). congruence.
Qed.

(** A path is ignored when the last of the patterns that say something about it excludes it. *)
Theorem ignore_last_decides (ps : list IgnorePattern) (path : list bytes) (isDir : bool) :
  ignore_matcher ps path isDir = true <->
  exists before p after, ps = before ++ p :: after /\ ignore_Match p path isDir = Exclude /\
    Forall (fun q => ignore_Match q path isDir = NoMatch) after.
Proof.
  unfold ignore_matcher. rewrite ignored_by_spec. split.
  - intros (i & p & Hi & Hp & Hj). apply list_elem_of_split_length in Hi as (a & b & E & Hlen).
    exists (rev b), p, (rev a). split_and!; [|done|].
    + rewrite <- (rev_involutive ps), E, rev_app_distr. cbn. by rewrite <- app_assoc.
    + apply Forall_rev, Forall_lookup. intros j q Hq. apply (Hj j); [by apply lookup_lt_Some in Hq; lia|]. rewrite E, lookup_app_l; [done|]. by apply lookup_lt_Some in Hq.
  - intros (a & p & b & -> & Hp & Hb). exists (length b), p. rewrite rev_app_distr. cbn. rewrite <- app_assoc. cbn.
    split_and!; [rewrite <- length_rev; apply list_lookup_middle; done|done|]. intros j q Hlt Hq.
    rewrite lookup_app_l in Hq by (by rewrite length_rev). apply Forall_rev in Hb. by apply (proj1 (Forall_lookup _ _) Hb j).
Qed.

(** ** Reading the patterns of a work tree *)
Section reading.
Variable fsJoin : list bytes -> bytes.
Variable fsOpen : bytes -> error + bytes.
Variable fsReadDir : bytes -> error + list (bytes * bool).
Variable userHome : option bytes.
Variable lookupUser : bytes -> option bytes.
Variable newcap : nat -> nat.
Notation Read := (ReadPatterns fsJoin fsOpen fsReadDir userHome lookupUser newcap).
Notation Ref := (ReadPatterns_ref fsJoin fsOpen fsReadDir userHome lookupUser).

Lemma Read_Ref fuel h path : slice_ok_in h path -> snd <$> Read fuel h path = Ref fuel (contents h path).
Proof.
  intros Hs. pose proof (ReadPatterns_as fsJoin fsOpen fsReadDir userHome lookupUser newcap fuel h path Hs) as H. unfold reads_as in H.
  destruct (Read fuel h path) as [[h' r]|], (Ref fuel (contents h path)); try done. by destruct H as [-> _].
Qed.

(** Reading the patterns of a work tree with slices of path elements that share their arrays, the code's
    [append(path, ...)], gives the patterns, with their directories, that paths sharing nothing give. *)
Theorem ignore_read_shared (fuel : nat) (h : strings) (path : Slice) (Hs : slice_ok_in h path) :
  snd <$> Read fuel h path = Ref fuel (contents h path).
Proof. by apply Read_Ref. Qed.

Lemma ignore_lines_domain content dom : Forall (fun p => ip_domain p = dom) (ignore_lines content dom).
Proof. unfold ignore_lines. apply Forall_map, Forall_forall. done. Qed.

Lemma openIgnoreFile_domain dom full : Forall (fun p => ip_domain p = dom) (openIgnoreFile fsJoin fsOpen dom full).1.
Proof. unfold openIgnoreFile. destruct (fsOpen _); [constructor|apply ignore_lines_domain]. Qed.

Definition below (path : list bytes) (p : IgnorePattern) : Prop := path `prefix_of` ip_domain p.

Lemma readDirs_ref_below rec path fis :
  (forall name ps e, rec (path ++ [name]) = Some (ps, e) -> Forall (below (path ++ [name])) ps) ->
  forall ps r, Forall (below path) ps -> readDirs_ref rec path fis ps = Some r -> Forall (below path) r.1.
Proof.
  intros Hrec. induction fis as [|[name isDir] fis IH]; intros ps r Hps H; cbn [readDirs_ref] in H; [by injection H as <-|].
  destruct (_ && _); [|by apply (IH ps)]. destruct (rec (path ++ [name])) as [[subps [e|]]|] eqn:E; [by injection H as <-| |done].
  apply (IH _ _) in H; [done|]. apply Forall_app. split; [done|]. apply (Forall_impl _ _ _ (Hrec _ _ _ E)).
  intros p Hp. unfold below in *. by apply prefix_app_l in Hp.
Qed.

Lemma Ref_below fuel : forall path ps e, Ref fuel path = Some (ps, e) -> Forall (below path) ps.
Proof.
  induction fuel as [|fuel IH]; intros path ps e H; cbn [ReadPatterns_ref] in H; [done|].
  assert (forall f, Forall (below path) (openIgnoreFile fsJoin fsOpen path (path ++ [ReplaceTildeWithHome userHome lookupUser f])).1) as Hf.
  { intros f. apply (Forall_impl _ _ _ (openIgnoreFile_domain _ _)). intros p <-. by exists []; rewrite app_nil_r. }
  destruct (fsReadDir _) as [err|fis]; [injection H as <- _; by apply Forall_app|].
  apply readDirs_ref_below in H; [done| |by apply Forall_app]. intros name ps' e' H'. by apply IH in H'.
Qed.

Lemma ignore_Match_domain p path isDir : ignore_Match p path isDir <> NoMatch -> exists rest, rest <> [] /\ path = ip_domain p ++ rest.
Proof.
  unfold ignore_Match. case_match eqn:El; [done|]. case_bool_decide as Et; [|done]. intros _. apply Nat.leb_gt in El.
  exists (drop (length (ip_domain p)) path). split; [|by rewrite <- Et at 1; rewrite take_drop].
  intros E. apply (f_equal length) in E. rewrite length_drop in E. cbn in E. lia.
Qed.

(** No pattern read below a directory says anything about a path that is not inside it. *)
Theorem ignore_read_scoped (fuel : nat) (h h' : strings) (path : Slice) (ps : list IgnorePattern) (e : option error)
    (p : IgnorePattern) (q : list bytes) (isDir : bool) (Hs : slice_ok_in h path)
    (Hr : Read fuel h path = Some (h', (ps, e))) (Hp : p ∈ ps) (Hm : ignore_Match p q isDir <> NoMatch) :
  exists rest, rest <> [] /\ q = contents h path ++ rest.
Proof.
  pose proof (Read_Ref fuel h path Hs) as E. rewrite Hr in E. symmetry in E. apply Ref_below in E.
  rewrite Forall_forall in E. destruct (E p Hp) as [l Hl]. destruct (ignore_Match_domain _ _ _ Hm) as (rest & Hne & ->).
  exists (l ++ rest). rewrite Hl, app_assoc. split; [|done]. by destruct l.
Qed.

(** The directories are at most [depth] deep below [path]. *)
Definition depth_below (path : list bytes) (depth : nat) : Prop :=
  forall p fis, (length path + depth <= length p)%nat -> fsReadDir (fsJoin p) = inr fis -> Forall (fun fi => fi.2 = false) fis.

Lemma readDirs_ref_total rec path fis : (forall name, (name, true) ∈ fis -> is_Some (rec (path ++ [name]))) ->
  forall ps, is_Some (readDirs_ref rec path fis ps).
Proof.
  induction fis as [|[name isDir] fis IH]; intros Hrec ps; cbn [readDirs_ref]; [done|].
  assert (forall ps, is_Some (readDirs_ref rec path fis ps)) as IH' by (apply IH; intros n ?; apply Hrec; by right).
  destruct isDir; cbn [andb]; [|done]. destruct (_ && _); [|done].
  destruct (Hrec name ltac:(by left)) as [[subps [err|]] ->]; [done|]. apply IH'.
Qed.

Lemma Ref_total depth : forall path, depth_below path depth -> is_Some (Ref (S depth) path).
Proof.
  induction depth as [|depth IH]; intros path Hd; cbn [ReadPatterns_ref]; destruct (fsReadDir (fsJoin path)) as [err|fis] eqn:E; try done; apply readDirs_ref_total.
  - intros name Hn. specialize (Hd path fis ltac:(lia) E). rewrite Forall_forall in Hd. by apply Hd in Hn.
  - intros name _. apply IH. intros p fis' Hp. apply Hd. rewrite length_app in Hp. cbn in Hp. lia.
Qed.

(** Reading ends in a tree of directories of some depth, with one unit of fuel more than it. *)
Theorem ignore_read_total (depth : nat) (h : strings) (path : Slice) (Hs : slice_ok_in h path) (Hd : depth_below (contents h path) depth) :
  is_Some (Read (S depth) h path).
Proof. apply (fmap_is_Some snd). rewrite Read_Ref by done. by apply Ref_total. Qed.
End reading.

(** ** A small work tree *)
Definition demoJoin (p : list bytes) : bytes := Join p [x2f].
Definition demoOpen (p : bytes) : error + bytes :=
  if bool_decide (p = bs ".gitignore") then inr (bs "*.o
# comment
build/
")
  else if bool_decide (p = bs "a/b/c/d1/.gitignore") then inr (bs "!keep.o")
  else if bool_decide (p = bs "a/b/c/d2/.gitignore") then inr (bs "/tmp")
  else inl ErrNotExist.
Definition demoReadDir (p : bytes) : error + list (bytes * bool) :=
  if bool_decide (p = []) then inr [(bs ".git", true); (bs "a", true); (bs "build", true); (bs "x.c", false)]
  else if bool_decide (p = bs "a") then inr [(bs "b", true)]
  else if bool_decide (p = bs "a/b") then inr [(bs "c", true)]
  else if bool_decide (p = bs "a/b/c") then inr [(bs "d1", true); (bs "d2", true)]
  else inr [].
Notation demoRead := (ReadPatterns demoJoin demoOpen demoReadDir None (fun _ => None) go_newcap 6 no_strings nil_slice).

Lemma nil_slice_ok : slice_ok_in no_strings nil_slice.
Proof. by split; vm_compute; repeat constructor. Qed.

Lemma ignore_read_shared_witness : snd <$> demoRead =
  Some ([ignore_ParsePattern (bs "*.o") []; ignore_ParsePattern (bs "build/") [];
         ignore_ParsePattern (bs "!keep.o") [bs "a"; bs "b"; bs "c"; bs "d1"]; ignore_ParsePattern (bs "/tmp") [bs "a"; bs "b"; bs "c"; bs "d2"]], None).
Proof.
  rewrite (ignore_read_shared demoJoin demoOpen demoReadDir None (fun _ => None) go_newcap 6 no_strings nil_slice nil_slice_ok).
  vm_compute. reflexivity.
Defined.

Lemma demoJoin_slashes p : p <> [] -> len p - 1 <= CountByte (demoJoin p) x2f.
Proof.
  unfold demoJoin. induction p as [|c p IH]; intros Hne; [done|]. destruct p as [|d p].
  - cbn. pose proof (CountByte_nonneg c x2f). unfold len. cbn. lia.
  - rewrite Join_cons by done. rewrite !CountByte_app. specialize (IH ltac:(done)). pose proof (CountByte_nonneg c x2f). rewrite len_cons. cbn [CountByte] in *.
    rewrite bool_decide_eq_true_2 by done. lia.
Qed.

Lemma demo_depth : depth_below demoJoin demoReadDir [] 5.
Proof.
  intros p fis Hp. assert (4 <= CountByte (demoJoin p) x2f).
  { pose proof (demoJoin_slashes p) as H. unfold len in H. cbn in Hp. destruct p; [cbn in Hp; lia|]. specialize (H ltac:(done)). lia. }
  unfold demoReadDir. repeat (case_bool_decide; [match goal with E : demoJoin p = _ |- _ => rewrite E in H end; vm_compute in H; done|]). intros E1. injection E1 as E1. rewrite <- E1. constructor.
Qed.

Lemma ignore_read_total_witness : is_Some demoRead.
Proof.
  apply (ignore_read_total demoJoin demoOpen demoReadDir None (fun _ => None) go_newcap 5 no_strings nil_slice nil_slice_ok). exact demo_depth.
Defined.

(** From the directory a, with a slice that has room for one element more. *)
Definition demoStore : strings := [[]; [bs "a"; []]].
Definition demoA : Slice := mkSlice 1 1.

Lemma ignore_read_scoped_witness :
  exists h' ps e, ReadPatterns demoJoin demoOpen demoReadDir None (fun _ => None) go_newcap 6 demoStore demoA = Some (h', (ps, e)) /\ ps <> [] /\
    forall p q, p ∈ ps -> ignore_Match p q false <> NoMatch -> exists rest, rest <> [] /\ q = [bs "a"] ++ rest.
Proof.
  eexists _, _, _. split; [vm_compute; reflexivity|]. split; [done|]. intros p q Hp Hm.
  eapply (ignore_read_scoped demoJoin demoOpen demoReadDir None (fun _ => None) go_newcap 6 demoStore _ demoA _ _ p q false);
    [split; vm_compute; repeat constructor|vm_compute; reflexivity|exact Hp|exact Hm].
Defined.
