(* ===== verification/Gitattributes.v ===== *)
(** * plumbing/format/gitattributes

    Attributes and lines of a .gitattributes file (attributes.go), patterns (pattern.go), the matcher (matcher.go)
    and the reading of a work tree (dir.go).  A pattern keeps the slice of path elements it was given, so a
    pattern is over a type of domains: slices in a store while the files are read, lists once they are. *)
From S2P Require Import Prelude GoStrings Filepath PackpMessages Gitignore.

(** ** pattern.go *)
Record AttrPattern (D : Type) := mkAttrPattern { ap_domain : D; ap_pattern : list bytes }.
Arguments mkAttrPattern {D} _ _.
Arguments ap_domain {D} _.
Arguments ap_pattern {D} _.

Definition attr_ParsePattern {D} (p : bytes) (domain : D) : AttrPattern D := mkAttrPattern domain (Split p patternDirSep).

(** The loop of [Match] over the path; [pattern[0]] of an empty pattern panics. *)
Fixpoint attr_loop (path pattern : list bytes) (matched doublestar : bool) : res bool :=
  match path with
  | [] => Ok (bool_decide (pattern = []) && matched)
  | part :: path =>
    if bool_decide (pattern = []) then Ok false
    else
      let* p0 := index pattern 0 in
      let pattern := if bool_decide (p0 = []) then drop 1 pattern else pattern in
      let* p0 := index pattern 0 in
      let star := bool_decide (p0 = zeroToManyDirs) in
      let pattern := if star then drop 1 pattern else pattern in
      if star && bool_decide (pattern = []) then Ok true
      else
        let doublestar := doublestar || star in
        let* p0 := index pattern 0 in
        if Contains p0 zeroToManyDirs then Ok false
        else
          match filepath_Match p0 part with
          | Ok true => attr_loop path (drop 1 pattern) true false
          | Ok false => if doublestar then attr_loop path pattern false true else Ok false
          | _ => Ok false
          end
  end.

Definition attr_Match (p : AttrPattern (list bytes)) (path : list bytes) : res bool :=
  if (length path <=? length (ap_domain p))%nat then Ok false
  else if negb (bool_decide (take (length (ap_domain p)) path = ap_domain p)) then Ok false
  else
    let path := if (length (ap_pattern p) =? 1)%nat then drop (length path - 1) path else drop (length (ap_domain p)) path in
    attr_loop path (ap_pattern p) false false.

(** ** attributes.go *)
Definition attributeSet : byte := x01.
Definition attributeUnspecified : byte := x21.
Definition attributeUnset : byte := x2d.
Definition attributeSetValue : byte := x3d.

Record Attribute := mkAttribute { at_name : bytes; at_state : byte; at_value : bytes }.
#[global] Instance Attribute_eq_decision : EqDecision Attribute.
Proof. solve_decision. Defined.

Definition Attribute_IsSet (a : Attribute) : bool := bool_decide (at_state a = attributeSet).
Definition Attribute_IsUnset (a : Attribute) : bool := bool_decide (at_state a = attributeUnset).
Definition Attribute_IsUnspecified (a : Attribute) : bool := bool_decide (at_state a = attributeUnspecified).
Definition Attribute_IsValueSet (a : Attribute) : bool := bool_decide (at_state a = attributeSetValue).
Definition Attribute_String (a : Attribute) : bytes :=
  at_name a ++
  (if Attribute_IsSet a then bs ": set" else if Attribute_IsUnset a then bs ": unset"
   else if Attribute_IsUnspecified a then bs ": unspecified" else bs ": " ++ at_value a).

(** A line: its name and its attributes, and a pattern when it is not a macro. *)
Record MatchAttribute (D : Type) := mkMatchAttribute { ma_Name : bytes; ma_Pattern : option (AttrPattern D); ma_Attributes : list Attribute }.
Arguments mkMatchAttribute {D} _ _ _.
Arguments ma_Name {D} _.
Arguments ma_Pattern {D} _.
Arguments ma_Attributes {D} _.

Definition macroPrefix : bytes := bs "[attr]".

(** [validAttributeName]; the bytes of a rune that is not ASCII are not in the ranges either. *)
Definition attributeNameChar (c : byte) : bool :=
  let ch := b2z c in
  bool_decide (c = x2d) || bool_decide (c = x2e) || bool_decide (c = x5f) ||
  (48 <=? ch) && (ch <=? 57) || (97 <=? ch) && (ch <=? 122) || (65 <=? ch) && (ch <=? 90).
Definition validAttributeName (name : bytes) : bool :=
  match name with
  | [] => false
  | c :: _ => negb (bool_decide (c = x2d)) && forallb attributeNameChar name
  end.

(** [unquote]: [i] is the position in [str], [rest] the bytes from there. *)
Fixpoint unquote_loop (str rest : bytes) (i : Z) : bytes * bytes :=
  match rest with
  | [] => ([], str)
  | x5c :: rest => match rest with [] => ([], str) | _ :: rest => unquote_loop str rest (i + 2) end
  | x22 :: _ => (seg str 1 i, drop (Z.to_nat (i + 1)) str)
  | _ :: rest => unquote_loop str rest (i + 1)
  end.
Definition unquote (str : bytes) : res (bytes * bytes) :=
  let* c := index str 0 in
  Ok (if bool_decide (c = x22) then unquote_loop str (drop 1 str) 1 else ([], str)).

(** [checkMacro]: whether the name is a macro's, the name, the error. *)
Definition checkMacro (name : bytes) (allowMacro : bool) : bool * bytes * option error :=
  if negb (HasPrefix name macroPrefix) then (false, name, None)
  else if negb allowMacro then (true, name, Some ErrMacroNotAllowed)
  else
    let macroName := drop (length macroPrefix) name in
    if negb (validAttributeName macroName) then (true, name, Some ErrInvalidAttributeName) else (true, macroName, None).

(** One attribute of a line; [attr.name[0]] of a field, which is not empty. *)
Definition parseAttribute (attrName : bytes) : res Attribute :=
  let* state := index attrName 0 in
  let attr := if bool_decide (state = attributeUnspecified) || bool_decide (state = attributeUnset)
              then mkAttribute (drop 1 attrName) state [] else mkAttribute attrName attributeSet [] in
  Ok (match SplitN2 attrName x3d with
      | (k, Some v) => mkAttribute k attributeSetValue v
      | (_, None) => attr
      end).

(** The loop over the fields: the attributes so far and the error. *)
Fixpoint parseAttributes (attrs : list bytes) (acc : list Attribute) : res (list Attribute * option error) :=
  match attrs with
  | [] => Ok (acc, None)
  | attrName :: attrs =>
    let* attr := parseAttribute attrName in
    if negb (validAttributeName (at_name attr)) then Ok (acc, Some ErrInvalidAttributeName)
    else parseAttributes attrs (acc ++ [attr])
  end.

Definition emptyMatchAttribute {D} : MatchAttribute D := mkMatchAttribute [] None [].

Definition ParseAttributesLine {D} (line : bytes) (domain : D) (allowMacro : bool) : res (MatchAttribute D * option error) :=
  let line := TrimSpace line in
  if HasPrefix line (bs "#") || (len line =? 0) then Ok (emptyMatchAttribute, None)
  else
    let* (name, unquoted) := unquote line in
    let attrs := Fields unquoted in
    let* (name, attrs) := if len name =? 0 then let* n := index attrs 0 in Ok (n, drop 1 attrs) else Ok (name, attrs) in
    match checkMacro name allowMacro with
    | (_, _, Some err) => Ok (emptyMatchAttribute, Some err)
    | (macro, name, None) =>
      let* (attributes, err) := parseAttributes attrs [] in
      match err with
      | Some err => Ok (mkMatchAttribute name None attributes, Some err)
      | None => Ok (mkMatchAttribute name (if macro then None else Some (attr_ParsePattern name domain)) attributes, None)
      end
    end.

(** [ReadAttributes] on the lines of the scanner and its error *)
Fixpoint readAttributes_loop {D} (ls : list bytes) (scanErr : option error) (domain : D) (allowMacro : bool)
    (acc : list (MatchAttribute D)) : res (list (MatchAttribute D) * option error) :=
  match ls with
  | [] => Ok (acc, scanErr)
  | l :: ls =>
    let* (attribute, err) := ParseAttributesLine l domain allowMacro in
    match err with
    | Some err => Ok (acc, Some err)
    | None => readAttributes_loop ls scanErr domain allowMacro (if len (ma_Name attribute) =? 0 then acc else acc ++ [attribute])
    end
  end.
Definition ReadAttributes {D} (content : bytes) (domain : D) (allowMacro : bool) : res (list (MatchAttribute D) * option error) :=
  let '(ls, e) := scanLines (Split content x0a) in readAttributes_loop ls e domain allowMacro [].

(** ** matcher.go *)
Notation AttrLine := (MatchAttribute (list bytes)).
Notation Results := (gmap bytes Attribute).

(** [init]: the lines without a pattern, by name *)
Definition attr_macros (stack : list AttrLine) : gmap bytes AttrLine :=
  foldl (fun m l => match ma_Pattern l with None => <[ma_Name l := l]> m | Some _ => m end) ∅ stack.

Definition setAttribute (r : Results) (a : Attribute) : Results := <[at_name a := a]> r.
Definition expandMacro (macros : gmap bytes AttrLine) (name : bytes) (results : Results) : Results :=
  match macros !! name with
  | Some macro => foldl setAttribute results (ma_Attributes macro)
  | None => results
  end.
Definition applyAttribute (macros : gmap bytes AttrLine) (results : Results) (attr : Attribute) : Results :=
  setAttribute (if Attribute_IsSet attr then expandMacro macros (at_name attr) results else results) attr.

(** The loop of [Match] from the last line to the first; [limit] is the number of attributes asked for. *)
Fixpoint attr_match_loop (macros : gmap bytes AttrLine) (limit : nat) (rev_stack : list AttrLine) (path : list bytes)
    (results : Results) (matched : bool) : res (Results * bool) :=
  match rev_stack with
  | [] => Ok (results, matched)
  | l :: rest =>
    if (0 <? limit)%nat && (limit =? size results)%nat then Ok (results, matched)
    else
      match ma_Pattern l with
      | None => attr_match_loop macros limit rest path results matched
      | Some p =>
        let* m := attr_Match p path in
        if m then attr_match_loop macros limit rest path (foldl (applyAttribute macros) results (ma_Attributes l)) true
        else attr_match_loop macros limit rest path results matched
      end
  end.
Definition attr_matcher (stack : list AttrLine) (path attributes : list bytes) : res (Results * bool) :=
  attr_match_loop (attr_macros stack) (length attributes) (rev stack) path ∅ false.

(** ** dir.go *)
Definition gitattributesFile : bytes := bs ".gitattributes".

Section ReadPatterns.
Variable fsJoin : list bytes -> bytes.
Variable fsOpen : bytes -> error + bytes.
Variable fsReadDir : bytes -> error + list (bytes * bool).
Variable newcap : nat -> nat.

Definition openAttributes {D} (full : list bytes) (domain : D) (allowMacro : bool) : res (list (MatchAttribute D) * option error) :=
  match fsOpen (fsJoin full) with
  | inl e => Ok ([], if bool_decide (e = ErrNotExist) then None else Some e)
  | inr content => ReadAttributes content domain allowMacro
  end.

(** [ReadAttributesFile]: the lines keep the slice [path]. *)
Definition ReadAttributesFile (h : strings) (path : Slice) (attributesFile : bytes) (allowMacro : bool) :
    res (strings * (list (MatchAttribute Slice) * option error)) :=
  let '(h, full) := append_string newcap h path attributesFile in
  let* r := openAttributes (contents h full) path allowMacro in Ok (h, r).

(** The loop of [walkDirectory] over the entries, on a system without volume names; [rec] is the recursive call. *)
Fixpoint walkEntries (rec : strings -> Slice -> res (strings * (list (MatchAttribute Slice) * option error))) (root : Slice)
    (fis : list (bytes * bool)) (h : strings) (attributes : list (MatchAttribute Slice)) :
    res (strings * (list (MatchAttribute Slice) * option error)) :=
  match fis with
  | [] => Ok (h, (attributes, None))
  | (name, isDir) :: fis =>
    if negb isDir || bool_decide (name = gitDir) then walkEntries rec root fis h attributes
    else
      let '(h, path) := append_string newcap h root name in
      let* (h, (dirAttributes, err)) := ReadAttributesFile h path gitattributesFile false in
      match err with
      | Some err => Ok (h, (attributes, Some err))
      | None =>
        let* (h, (subAttributes, err)) := rec h path in
        match err with
        | Some err => Ok (h, (attributes, Some err))
        | None => walkEntries rec root fis h (attributes ++ dirAttributes ++ subAttributes)
        end
      end
  end.

Fixpoint walkDirectory (fuel : nat) (h : strings) (root : Slice) : res (strings * (list (MatchAttribute Slice) * option error)) :=
  match fuel with
  | O => NoFuel
  | S fuel =>
    match fsReadDir (fsJoin (contents h root)) with
    | inl err => Ok (h, ([], Some err))
    | inr fis => walkEntries (walkDirectory fuel) root fis h []
    end
  end.

Definition attr_ReadPatterns (fuel : nat) (h : strings) (path : Slice) : res (strings * (list (MatchAttribute Slice) * option error)) :=
  let* (h, (attributes, err)) := ReadAttributesFile h path gitattributesFile true in
  match err with
  | Some err => Ok (h, (attributes, Some err))
  | None => let* (h, (attrs, err)) := walkDirectory fuel h path in Ok (h, (attributes ++ attrs, err))
  end.

(** ** The reading without sharing *)
Fixpoint walkEntries_ref (rec : list bytes -> res (list AttrLine * option error)) (root : list bytes)
    (fis : list (bytes * bool)) (attributes : list AttrLine) : res (list AttrLine * option error) :=
  match fis with
  | [] => Ok (attributes, None)
  | (name, isDir) :: fis =>
    if negb isDir || bool_decide (name = gitDir) then walkEntries_ref rec root fis attributes
    else
      let path := root ++ [name] in
      let* (dirAttributes, err) := openAttributes (path ++ [gitattributesFile]) path false in
      match err with
      | Some err => Ok (attributes, Some err)
      | None =>
        let* (subAttributes, err) := rec path in
        match err with
        | Some err => Ok (attributes, Some err)
        | None => walkEntries_ref rec root fis (attributes ++ dirAttributes ++ subAttributes)
        end
      end
  end.

Fixpoint walkDirectory_ref (fuel : nat) (root : list bytes) : res (list AttrLine * option error) :=
  match fuel with
  | O => NoFuel
  | S fuel =>
    match fsReadDir (fsJoin root) with
    | inl err => Ok ([], Some err)
    | inr fis => walkEntries_ref (walkDirectory_ref fuel) root fis []
    end
  end.

Definition attr_ReadPatterns_ref (fuel : nat) (path : list bytes) : res (list AttrLine * option error) :=
  let* (attributes, err) := openAttributes (path ++ [gitattributesFile]) path true in
  match err with
  | Some err => Ok (attributes, Some err)
  | None => let* (attrs, err) := walkDirectory_ref fuel path in Ok (attributes ++ attrs, err)
  end.
End ReadPatterns.

(** The lines once reading is done: the domain of a pattern is what its slice holds then. *)
Definition resolve (h : strings) (l : MatchAttribute Slice) : AttrLine :=
  mkMatchAttribute (ma_Name l) ((fun p => mkAttrPattern (contents h (ap_domain p)) (ap_pattern p)) <$> ma_Pattern l) (ma_Attributes l).

(** ** Samples *)
Notation A := (fun n s v => mkAttribute (bs n) s (bs v)).
Example attribute_lines :
  ParseAttributesLine (bs "  *.txt text -diff !merge eol=lf  ") tt true =
    Ok (mkMatchAttribute (bs "*.txt") (Some (mkAttrPattern tt [bs "*.txt"]))
      [A "text" attributeSet ""; A "diff" attributeUnset ""; A "merge" attributeUnspecified ""; A "eol" attributeSetValue "lf"]%string, None) /\
  ParseAttributesLine (bs "[attr]binary -diff") tt true = Ok (mkMatchAttribute (bs "binary") None [A "diff" attributeUnset ""]%string, None) /\
  ParseAttributesLine (bs "[attr]binary -diff") tt false = Ok (emptyMatchAttribute, Some ErrMacroNotAllowed) /\
  ParseAttributesLine (bs "a ü") tt true = Ok (mkMatchAttribute (bs "a") None [], Some ErrInvalidAttributeName) /\
  ParseAttributesLine (bs "# x") tt true = Ok (emptyMatchAttribute, None).
Proof. vm_compute. repeat split. Qed.
