(* ===== verification/GitattributesProofs.v ===== *)
(** * What the lines of gitattributes give a path

    A line comes back from its text; a pattern without double asterisks matches element by element and does not
    panic when no piece but the first is empty; the matcher lets the first line of the stack decide; and the
    directories of the patterns read from a work tree are not always those of their files, because the slices
    they keep share arrays. *)
From S2P Require Import Prelude GoStrings Filepath PackpMessages Gitignore GitignoreProofs Gitattributes.

(** ** Patterns *)
Definition is_Ok {T} (r : res T) : bool := match r with Ok _ => true | _ => false end.

(** No empty piece after the first, and more than an empty piece. *)
Definition no_hole (pieces : list bytes) : bool :=
  match pieces with
  | [] => false
  | p :: rest => forallb (fun q => negb (bool_decide (q = []))) rest && negb (bool_decide (p = []) && bool_decide (rest = []))
  end.

Definition full_pieces (pieces : list bytes) : Prop := Forall (fun q => q <> []) pieces.

Lemma index_head {T} (p : T) pieces : index (p :: pieces) 0 = Ok p.
Proof. done. Qed.

(** A part of the path against the first piece, after double asterisks are taken off. *)
Definition attr_try (part : bytes) (path : list bytes) (q : bytes) (rest : list bytes) (d : bool) : res bool :=
  if Contains q zeroToManyDirs then Ok false
  else match filepath_Match q part with
       | Ok true => attr_loop path rest true false
       | Ok false => if d then attr_loop path (q :: rest) false true else Ok false
       | _ => Ok false
       end.

Lemma attr_loop_step part path p pieces m d : p <> [] ->
  attr_loop (part :: path) (p :: pieces) m d =
  if bool_decide (p = zeroToManyDirs) then match pieces with [] => Ok true | q :: rest => attr_try part path q rest true end
  else attr_try part path p pieces d.
Proof.
  intros Hp. cbn [attr_loop]. rewrite (bool_decide_eq_false_2 (p :: pieces = [])), index_head by done. cbn [res_bind].
  rewrite (bool_decide_eq_false_2 (p = [])), index_head by done. cbn [res_bind]. unfold attr_try.
  case_bool_decide; cbn [andb drop]; [|by rewrite index_head, orb_false_r].
  destruct pieces as [|q rest]; [done|]. rewrite (bool_decide_eq_false_2 (q :: rest = [])), !drop_0, index_head, orb_true_r by done. done.
Qed.

Lemma attr_loop_skip part path p pieces m d : p <> [] ->
  attr_loop (part :: path) ([] :: p :: pieces) m d = attr_loop (part :: path) (p :: pieces) m d.
Proof.
  intros Hp. cbn [attr_loop]. rewrite !bool_decide_eq_false_2, !index_head by done. cbn [res_bind].
  rewrite (bool_decide_eq_true_2 ([] = [])), (bool_decide_eq_false_2 (p = [])) by done. done.
Qed.

Lemma attr_loop_full path : forall pieces m d, full_pieces pieces -> is_Ok (attr_loop path pieces m d) = true.
Proof.
  induction path as [|part path IH]; intros pieces m d Hf; [done|].
  assert (forall q rest d, full_pieces (q :: rest) -> is_Ok (attr_try part path q rest d) = true) as Htry.
  { intros q rest d' Hq. unfold attr_try. destruct (Contains q _); [done|].
    destruct (filepath_Match q part) as [[|]| | |]; try done; [apply IH; by inversion Hq|]. destruct d'; [by apply IH|done]. }
  destruct pieces as [|p pieces]; [done|]. rewrite attr_loop_step by (by inversion Hf).
  case_bool_decide; [|by apply Htry]. destruct pieces; [done|]. apply Htry. by inversion Hf.
Qed.

(** The pieces that count: an empty first one is skipped. *)
Definition counted (pieces : list bytes) : list bytes := match pieces with [] :: rest => rest | _ => pieces end.

Lemma no_hole_counted pieces : no_hole pieces = true -> full_pieces (counted pieces) /\ counted pieces <> [].
Proof.
  destruct pieces as [|p rest]; [done|]. cbn [no_hole]. intros [Hr Hp]%andb_prop.
  assert (full_pieces rest) as Hr' by (apply Forall_forall; intros q Hq; rewrite forallb_forall in Hr; apply list_elem_of_In in Hq; specialize (Hr q Hq); by intros ->).
  destruct p as [|c p]; cbn [counted]; [|split; [by constructor|done]]. split; [done|]. by destruct rest.
Qed.

Lemma attr_loop_counted path pieces m d : no_hole pieces = true -> path <> [] -> attr_loop path pieces m d = attr_loop path (counted pieces) m d.
Proof.
  intros H Hne. destruct path as [|part path]; [done|]. destruct (no_hole_counted _ H) as [Hf Hc]. destruct pieces as [|[|c p] rest]; [done| |done].
  cbn [counted] in *. destruct rest as [|q rest]; [done|]. apply attr_loop_skip. by inversion Hf.
Qed.

Lemma attr_Match_loop p path : attr_Match p path = Ok false \/
  exists path', path' <> [] /\ attr_Match p path = attr_loop path' (ap_pattern p) false false.
Proof.
  unfold attr_Match. case_match eqn:El; [by left|]. case_bool_decide; cbn [negb]; [|by left]. right. apply Nat.leb_gt in El.
  eexists. split; [|done]. intros E. apply (f_equal length) in E. case_match; rewrite length_drop in E; cbn in E; lia.
Qed.

(** A pattern where only the first piece can be empty (a leading slash) matches or does not match any path;
    the code does not index past the end of the pattern. *)
Theorem attr_match_no_panic (p : AttrPattern (list bytes)) (path : list bytes) (H : no_hole (ap_pattern p) = true) :
  exists b, attr_Match p path = Ok b.
Proof.
  destruct (attr_Match_loop p path) as [->|(path' & Hne & ->)]; [by eexists|]. rewrite attr_loop_counted by done.
  pose proof (attr_loop_full path' (counted (ap_pattern p)) false false (proj1 (no_hole_counted _ H))) as Hok.
  destruct (attr_loop _ _ _ _); try discriminate Hok. by eexists.
Qed.

Lemma attr_match_no_panic_witness : exists b, attr_Match (attr_ParsePattern (bs "/doc/**/x") []) [bs "doc"; bs "x"] = Ok b.
Proof. apply (attr_match_no_panic (attr_ParsePattern (bs "/doc/**/x") [])); reflexivity. Defined.

(** Two slashes, or one at the end, and a path that reaches them: an index out of range. *)
Example attr_match_panics :
  attr_Match (attr_ParsePattern (bs "dir/") []) [bs "dir"; bs "file"] = Panic /\
  ParseAttributesLine (bs "dir/ text") (@nil bytes) true <> Panic /\
  @ParseAttributesLine (list bytes) [x22; x22] [] true = Panic.
Proof. vm_compute. repeat split. congruence. Qed.

(** ** Patterns without double asterisks *)
Definition plain_piece (q : bytes) : bool := negb (Contains q zeroToManyDirs).
Definition piece_ok (q part : bytes) : Prop := filepath_Match q part = Ok true.

Lemma plain_piece_star q : plain_piece q = true -> q <> zeroToManyDirs.
Proof. intros H ->. discriminate H. Qed.

Lemma attr_loop_plain pieces : full_pieces pieces -> forallb plain_piece pieces = true -> forall path m, (path = [] -> m = true) ->
  attr_loop path pieces m false = Ok true <-> Forall2 piece_ok pieces path.
Proof.
  induction 1 as [|q pieces Hq Hf IH]; intros Hp path m Hm.
  - destruct path as [|part path]; [rewrite Hm by done; split; [constructor|done]|]. split; [done|inversion 1].
  - cbn [forallb] in Hp. apply andb_prop in Hp as [Hpq Hp]. destruct path as [|part path]; [split; [done|inversion 1]|].
    rewrite attr_loop_step by done. rewrite bool_decide_eq_false_2 by (by apply plain_piece_star). unfold attr_try.
    unfold plain_piece in Hpq. apply negb_true_iff in Hpq. rewrite Hpq.
    destruct (filepath_Match q part) as [[|]| | |] eqn:E;
      [rewrite IH by done; split; [by constructor|by inversion 1]|split; [done|inversion 1; unfold piece_ok in *; congruence]..].
Qed.

(** A pattern of at least two pieces without double asterisks matches a path in its directory piece by piece:
    as many elements as pieces, each matched; a single piece is matched with the last element. *)
Theorem attr_match_plain (p : AttrPattern (list bytes)) (sub : list bytes)
    (Hh : no_hole (ap_pattern p) = true) (Hp : forallb plain_piece (ap_pattern p) = true) (Hs : sub <> []) :
  attr_Match p (ap_domain p ++ sub) = Ok true <->
  Forall2 piece_ok (counted (ap_pattern p)) (if (length (ap_pattern p) =? 1)%nat then drop (length sub - 1) sub else sub).
Proof.
  unfold attr_Match. assert (length sub <> 0)%nat by (by destruct sub). rewrite length_app.
  rewrite (proj2 (Nat.leb_gt _ _)) by lia. rewrite take_app_length, bool_decide_eq_true_2 by done. cbn [negb].
  replace (drop (length (ap_domain p) + length sub - 1) (ap_domain p ++ sub)) with (drop (length sub - 1) sub)
    by (rewrite drop_app_ge by lia; f_equal; lia). rewrite drop_app_length.
  set (path := if (length (ap_pattern p) =? 1)%nat then _ else sub).
  assert (path <> []). { unfold path. case_match; [|done]. intros E. apply (f_equal length) in E. rewrite length_drop in E. cbn in E. lia. }
  rewrite attr_loop_counted by done. destruct (no_hole_counted _ Hh) as [Hf _]. apply attr_loop_plain; [done| |done].
  by destruct (ap_pattern p) as [|[|c q] rest].
Qed.

Lemma attr_match_plain_witness :
  attr_Match (attr_ParsePattern (bs "/doc/*.txt") [bs "src"]) ([bs "src"] ++ [bs "doc"; bs "a.txt"]) = Ok true.
Proof.
  apply (attr_match_plain (attr_ParsePattern (bs "/doc/*.txt") [bs "src"]) [bs "doc"; bs "a.txt"]); [reflexivity|reflexivity|done|].
  repeat constructor.
Defined.

(** ** The matcher *)
Lemma foldl_union {T} (f : Results -> T -> Results) : (forall r a, f r a = f ∅ a ∪ r) -> forall l r, foldl f r l = foldl f ∅ l ∪ r.
Proof.
  intros Hf. induction l as [|a l IH]; intros r; cbn [foldl]; [by rewrite (left_id_L ∅ (∪))|].
  rewrite IH, (IH (f ∅ a)), (Hf r a). by rewrite (assoc_L (∪)).
Qed.

Lemma setAttribute_union r a : setAttribute r a = setAttribute ∅ a ∪ r.
Proof. unfold setAttribute. by rewrite <- insert_union_l, (left_id_L ∅ (∪)). Qed.

Lemma expandMacro_union macros n r : expandMacro macros n r = expandMacro macros n ∅ ∪ r.
Proof. unfold expandMacro. destruct (macros !! n); [apply foldl_union, setAttribute_union|by rewrite (left_id_L ∅ (∪))]. Qed.

Lemma applyAttribute_union macros r a : applyAttribute macros r a = applyAttribute macros ∅ a ∪ r.
Proof.
  unfold applyAttribute, setAttribute. rewrite <- insert_union_l. f_equal. destruct (Attribute_IsSet a); [apply expandMacro_union|].
  by rewrite (left_id_L ∅ (∪)).
Qed.

(** What one line gives: its attributes in order, each after the macro of its name. *)
Definition lineResults (macros : gmap bytes AttrLine) (l : AttrLine) : Results := foldl (applyAttribute macros) ∅ (ma_Attributes l).

(** Whether a line matches the path; its pattern does not panic. *)
Definition line_matches (path : list bytes) (l : AttrLine) : bool :=
  match ma_Pattern l with Some p => bool_decide (attr_Match p path = Ok true) | None => false end.
Definition line_safe (path : list bytes) (l : AttrLine) : bool :=
  match ma_Pattern l with Some p => is_Ok (attr_Match p path) | None => true end.

Lemma attr_match_loop_all macros path rs : forall r m, forallb (line_safe path) rs = true ->
  attr_match_loop macros 0 rs path r m =
  Ok (foldl (fun r l => lineResults macros l ∪ r) r (List.filter (line_matches path) rs), m || existsb (line_matches path) rs).
Proof.
  induction rs as [|l rs IH]; intros r m Hs; cbn [attr_match_loop]; [by rewrite orb_false_r|].
  cbn [forallb] in Hs. apply andb_prop in Hs as [Hl Hs]. cbn [Nat.ltb Nat.leb andb List.filter existsb].
  unfold line_safe in Hl.
  assert (line_matches path l = match ma_Pattern l with Some p => bool_decide (attr_Match p path = Ok true) | None => false end) as -> by done.
  destruct (ma_Pattern l) as [p|]; [|cbn [orb]; by apply IH].
  destruct (attr_Match p path) as [[|]| | |]; try discriminate Hl; cbn [res_bind].
  - rewrite bool_decide_eq_true_2 by done. rewrite IH by done. cbn [foldl orb]. rewrite orb_true_r. f_equal. f_equal. unfold lineResults at 2. f_equal. apply foldl_union, applyAttribute_union.
  - rewrite bool_decide_eq_false_2 by done. cbn [orb]. by apply IH.
Qed.

Lemma foldl_rev_foldr {S T} (f : S -> T -> S) r l : foldl f r (rev l) = foldr (fun x r => f r x) r l.
Proof. induction l as [|x l IH]; [done|]. cbn [rev foldr]. by rewrite foldl_app, IH. Qed.

(** With no attributes asked for by name, an attribute of a path is what the first line of the stack that
    matches and gives it says, although the stack is in the order of increasing priority. *)
Theorem attr_first_line_decides (stack : list AttrLine) (path : list bytes) (Hs : forallb (line_safe path) stack = true) :
  attr_matcher stack path [] =
  Ok (foldr (fun l r => lineResults (attr_macros stack) l ∪ r) ∅ (List.filter (line_matches path) stack), existsb (line_matches path) stack).
Proof.
  unfold attr_matcher. cbn [length]. rewrite attr_match_loop_all.
  - rewrite List.filter_rev. rewrite foldl_rev_foldr. cbn [orb]. f_equal. f_equal. apply eq_true_iff_eq. rewrite !existsb_exists. by setoid_rewrite <- in_rev.
  - rewrite forallb_forall in *. intros l Hl. apply Hs. by rewrite in_rev.
Qed.

(** Two lines for a path: the later one, with the higher priority, loses. *)
Definition demoStack : list AttrLine :=
  [mkMatchAttribute (bs "bin") None [A "diff" attributeUnset ""]; 
   mkMatchAttribute (bs "*.txt") (Some (attr_ParsePattern (bs "*.txt") [])) [A "text" attributeSet ""; A "bin" attributeSet ""];
   mkMatchAttribute (bs "*.txt") (Some (attr_ParsePattern (bs "*.txt") [])) [A "text" attributeUnset ""; A "eol" attributeSetValue "lf"]]%string.

Lemma attr_first_line_decides_witness : exists r, attr_matcher demoStack [bs "a.txt"] [] = Ok (r, true) /\
  r !! bs "text" = Some (A "text" attributeSet "")%string /\ r !! bs "eol" = Some (A "eol" attributeSetValue "lf")%string /\
  r !! bs "diff" = Some (A "diff" attributeUnset "")%string.
Proof.
  eexists. split; [rewrite (attr_first_line_decides demoStack [bs "a.txt"]) by reflexivity; reflexivity|]. vm_compute. repeat split.
Defined.

(** ** A line comes back from its text. *)
Definition word_byte (c : byte) : bool := (b2z c <? 128) && negb (isSpace c).
Definition word (w : bytes) : bool := negb (bool_decide (w = [])) && forallb word_byte w.

Lemma fields_step b l cur : word_byte b = true -> fields_loop (b :: l) cur = fields_loop l (cur ++ [b]).
Proof.
  intros [Hb1 Hb2]%andb_prop. apply negb_true_iff in Hb2. apply Z.ltb_lt in Hb1. cbn [fields_loop]. rewrite Hb2.
  destruct l as [|c l]; [by destruct cur|].
  assert (isSpace2 b c = false) as -> by (unfold isSpace2; destruct (Z.eqb_spec (b2z b) 0xc2); [lia|done]).
  destruct l as [|d l]; [done|]. assert (isSpace3 b c d = false) as ->; [|done].
  unfold isSpace3. destruct (Z.eqb_spec (b2z b) 0xe1), (Z.eqb_spec (b2z b) 0xe2), (Z.eqb_spec (b2z b) 0xe3); done || lia.
Qed.

Lemma fields_word w l : forall cur, forallb word_byte w = true -> fields_loop (w ++ l) cur = fields_loop l (cur ++ w).
Proof.
  induction w as [|b w IH]; intros cur Hw; [by rewrite app_nil_r|]. cbn [forallb] in Hw. apply andb_prop in Hw as [Hb Hw].
  cbn [app]. rewrite fields_step, IH by done. by rewrite <- app_assoc.
Qed.

Lemma flushWord_word w ws : w <> [] -> flushWord w ws = w :: ws.
Proof. by destruct w. Qed.

Lemma Fields_words w ws : Forall (fun w => word w = true) (w :: ws) -> Fields (Join (w :: ws) [x20]) = w :: ws.
Proof.
  unfold Fields. revert w. induction ws as [|w' ws IH]; intros w Hf; inversion Hf as [|? ? Hw Hws]; subst; apply andb_prop in Hw as [Hne Hw];
    apply negb_true_iff in Hne; apply bool_decide_eq_false_1 in Hne.
  - cbn [Join]. rewrite <- (app_nil_r w) at 1. rewrite fields_word by done. cbn. by destruct w.
  - rewrite Join_cons by done. rewrite fields_word by done. cbn [app fields_loop]. change (isSpace x20) with true. cbn iota.
    rewrite flushWord_word by done. by rewrite IH.
Qed.

(** The text of an attribute, and the attributes that have one. *)
Definition attr_text (a : Attribute) : bytes :=
  if Attribute_IsSet a then at_name a
  else if Attribute_IsValueSet a then at_name a ++ x3d :: at_value a
  else at_state a :: at_name a.
Definition attr_ok (a : Attribute) : bool :=
  validAttributeName (at_name a) &&
  (if Attribute_IsValueSet a then forallb word_byte (at_value a)
   else bool_decide (at_value a = []) && (Attribute_IsSet a || Attribute_IsUnset a || Attribute_IsUnspecified a)).

Lemma attributeNameChar_word c : attributeNameChar c = true -> word_byte c = true /\ c <> x3d /\ c <> x21.
Proof. by destruct c. Qed.

Lemma validName_chars n : validAttributeName n = true -> n <> [] /\ head n <> Some x2d /\ head n <> Some x21 /\ x3d ∉ n /\ forallb word_byte n = true.
Proof.
  unfold validAttributeName. destruct n as [|c n]; [done|]. intros [Hc Hn]%andb_prop. apply negb_true_iff in Hc. apply bool_decide_eq_false_1 in Hc.
  rewrite forallb_forall in Hn. split_and!; [done|cbn; congruence| | |].
  - intros [= ->]. specialize (Hn x21 ltac:(by left)). done.
  - intros Hin. apply list_elem_of_In in Hin. specialize (Hn _ Hin). done.
  - apply forallb_forall. intros x Hx. by apply attributeNameChar_word, Hn.
Qed.

Lemma parseAttribute_text a : attr_ok a = true -> parseAttribute (attr_text a) = Ok a.
Proof.
  unfold attr_ok, attr_text. intros [Hn Ha]%andb_prop. apply validName_chars in Hn as (Hne & Hd & He & Heq & _). destruct a as [n st v]. cbn [at_name at_state at_value] in *.
  unfold Attribute_IsSet, Attribute_IsValueSet, Attribute_IsUnset, Attribute_IsUnspecified in *. cbn [at_state] in *. unfold parseAttribute.
  destruct (decide (st = attributeSet)) as [->|Es]; [rewrite (bool_decide_eq_true_2 (attributeSet = attributeSet)) by done|rewrite (bool_decide_eq_false_2 (st = attributeSet)) in * by done].
  - rewrite bool_decide_eq_false_2 in Ha by done. apply andb_prop in Ha as [Hv _]. apply bool_decide_eq_true_1 in Hv. subst v. destruct n as [|c n]; [done|]. rewrite index_head.
    cbn [res_bind]. rewrite !bool_decide_eq_false_2 by (intros ->; done). by rewrite SplitN2_none.
  - case_bool_decide as Ev.
    + subst st. destruct n as [|c n]; [done|]. rewrite <- app_comm_cons, index_head, app_comm_cons, SplitN2_app by done. done.
    + apply andb_prop in Ha as [Hv Hst]. apply bool_decide_eq_true_1 in Hv. subst v. rewrite index_head. cbn [res_bind drop].
      rewrite SplitN2_none; [|rewrite not_elem_of_cons; split; [intros <-; by apply Ev|done]].
      repeat case_bool_decide; subst; done.
Qed.

Lemma parseAttributes_texts l : forall acc, forallb attr_ok l = true -> parseAttributes (map attr_text l) acc = Ok (acc ++ l, None).
Proof.
  induction l as [|a l IH]; intros acc Hl; [by rewrite app_nil_r|]. cbn [forallb] in Hl. apply andb_prop in Hl as [Ha Hl].
  cbn [map parseAttributes]. rewrite parseAttribute_text by done. cbn [res_bind]. unfold attr_ok in Ha. apply andb_prop in Ha as [-> _]. cbn [negb].
  rewrite IH by done. by rewrite <- app_assoc.
Qed.

Lemma attr_text_word a : attr_ok a = true -> word (attr_text a) = true.
Proof.
  unfold attr_ok, attr_text. intros [Hn Ha]%andb_prop. apply validName_chars in Hn as (Hne & _ & _ & _ & Hw). unfold word. destruct a as [n st v].
  unfold Attribute_IsSet, Attribute_IsValueSet, Attribute_IsUnset, Attribute_IsUnspecified in *. cbn [at_name at_state at_value] in *.
  destruct (decide (st = attributeSet)) as [->|Es]; [rewrite (bool_decide_eq_true_2 (attributeSet = attributeSet)) by done|rewrite (bool_decide_eq_false_2 (st = attributeSet)) in * by done].
  - rewrite bool_decide_eq_false_2 by done. done.
  - case_bool_decide as Ev; [rewrite bool_decide_eq_false_2 by (by destruct n); rewrite forallb_app, Hw; done|].
    cbn. rewrite Hw, andb_true_r. apply andb_prop in Ha as [_ Ha]. repeat case_bool_decide; subst; done.
Qed.

(** A name that is no comment, not quoted and no macro. *)
Definition line_name (n : bytes) : bool :=
  word n && negb (HasPrefix n (bs "#")) && negb (HasPrefix n [x22]) && negb (HasPrefix n macroPrefix).
Definition attr_line (n : bytes) (l : list Attribute) : bytes := Join (n :: map attr_text l) [x20].

Lemma word_last w : word w = true -> exists z, last w = Some z /\ word_byte z = true.
Proof.
  intros [Hne Hw]%andb_prop. apply negb_true_iff, bool_decide_eq_false_1 in Hne. destruct (last w) as [z|] eqn:E; [|by apply last_None in E].
  exists z. split; [done|]. rewrite forallb_forall in Hw. apply Hw, list_elem_of_In, last_Some_elem_of, E.
Qed.

Lemma word_head w : word w = true -> exists a r, w = a :: r /\ word_byte a = true.
Proof. intros [Hne Hw]%andb_prop. destruct w as [|a r]; [done|]. cbn in Hw. apply andb_prop in Hw as [? _]. by exists a, r. Qed.

Lemma Join_words_last w ws : Forall (fun w => word w = true) (w :: ws) -> exists z, last (Join (w :: ws) [x20]) = Some z /\ word_byte z = true.
Proof.
  revert w. induction ws as [|w' ws IH]; intros w Hf; inversion Hf; subst; [by apply word_last|].
  rewrite Join_cons by done. destruct (IH w' ltac:(done)) as (z & Hz & ?). exists z. split; [|done]. rewrite app_assoc, last_app, Hz. done.
Qed.

Lemma word_byte_inv c : word_byte c = true -> b2z c < 128 /\ isSpace c = false.
Proof. intros [? ?]%andb_prop. split; [lia|]. by apply negb_true_iff. Qed.

Lemma TrimSpace_ends a l z : word_byte a = true -> last (a :: l) = Some z -> word_byte z = true -> TrimSpace (a :: l) = a :: l.
Proof.
  intros [? ?]%word_byte_inv Hz [? ?]%word_byte_inv. apply last_Some in Hz as [r Hr]. unfold TrimSpace. rewrite dropSpaces_nonspace by done.
  rewrite Hr, rev_app_distr. cbn [rev app]. rewrite dropSpaces_nonspace by done. cbn [rev]. by rewrite rev_involutive.
Qed.

Lemma HasPrefix_head a r n c : HasPrefix ((a :: r) ++ n) [c] = HasPrefix (a :: r) [c].
Proof. cbn [app]. by rewrite !HasPrefix_byte. Qed.

(** The text of a line, a name and attributes with a blank between them, is read back as that line. *)
Theorem attr_line_roundtrip (D : Type) (name : bytes) (l : list Attribute) (domain : D) (allowMacro : bool)
    (Hn : line_name name = true) (Hl : forallb attr_ok l = true) :
  ParseAttributesLine (attr_line name l) domain allowMacro =
  Ok (mkMatchAttribute name (Some (attr_ParsePattern name domain)) l, None).
Proof.
  unfold line_name in Hn. apply andb_prop in Hn as [Hn H4]. apply andb_prop in Hn as [Hn H3]. apply andb_prop in Hn as [H1 H2].
  assert (Forall (fun w => word w = true) (name :: map attr_text l)) as Hws.
  { constructor; [done|]. apply Forall_map, Forall_forall. intros a Ha. apply attr_text_word. rewrite forallb_forall in Hl. by apply Hl, list_elem_of_In. }
  destruct (word_head _ H1) as (a & r & -> & Ha). destruct (Join_words_last _ _ Hws) as (z & Hz & Hzw). pose proof (Fields_words _ _ Hws) as HF.
  unfold attr_line in *. assert (exists rest, Join ((a :: r) :: map attr_text l) [x20] = (a :: r) ++ rest) as [rest E].
  { destruct l as [|x l]; [exists []; cbn; by rewrite app_nil_r|]. eexists. by rewrite Join_cons. }
  unfold ParseAttributesLine. rewrite E in *. rewrite <- app_comm_cons in *. rewrite (TrimSpace_ends a _ z) by done.
  change (bs "#") with [x23] in *. rewrite app_comm_cons, HasPrefix_head, <- app_comm_cons. apply negb_true_iff in H2, H3, H4. rewrite H2. cbn [orb].
  assert (len (a :: r ++ rest) =? 0 = false) as -> by (rewrite len_cons; pose proof (len_nonneg (r ++ rest)); lia). unfold unquote. rewrite index_head. cbn [res_bind]. rewrite HasPrefix_byte in H3. rewrite H3. cbn [res_bind].
  rewrite HF, index_head. change (len (@nil byte) =? 0) with true. cbn [res_bind drop]. unfold checkMacro. rewrite H4. cbn [negb].
  rewrite drop_0, parseAttributes_texts by done. done.
Qed.

Lemma attr_line_roundtrip_witness :
  ParseAttributesLine (bs "*.txt text -diff eol=lf") (@nil bytes) false =
  Ok (mkMatchAttribute (bs "*.txt") (Some (attr_ParsePattern (bs "*.txt") [])) [A "text" attributeSet ""; A "diff" attributeUnset ""; A "eol" attributeSetValue "lf"]%string, None).
Proof.
  apply (attr_line_roundtrip (list bytes) (bs "*.txt") [A "text" attributeSet ""; A "diff" attributeUnset ""; A "eol" attributeSetValue "lf"]%string [] false); reflexivity.
Defined.

(** ** Reading a work tree *)
Definition res_map {S T} (f : S -> T) (r : res S) : res T := let* x := r in Ok (f x).
(** A line without its directory. *)
Definition erase {D} (l : MatchAttribute D) : MatchAttribute unit :=
  mkMatchAttribute (ma_Name l) ((fun p => mkAttrPattern tt (ap_pattern p)) <$> ma_Pattern l) (ma_Attributes l).
Definition erase_all {D} (r : list (MatchAttribute D) * option error) : list (MatchAttribute unit) * option error := (map erase r.1, r.2).

Lemma ParseAttributesLine_erase {D} line (d : D) b :
  ParseAttributesLine line tt b = res_map (fun r => (erase r.1, r.2)) (ParseAttributesLine line d b).
Proof.
  unfold ParseAttributesLine, res_map. destruct (_ || _); [done|]. destruct (unquote _) as [[name unquoted]| | |]; try done. cbn [res_bind].
  destruct (len name =? 0); [destruct (index _ _); try done|]; cbn [res_bind]; destruct (checkMacro _ _) as [[macro n] [err|]]; try done;
    destruct (parseAttributes _ _) as [[l [err|]]| | |]; try done; by destruct macro.
Qed.

Lemma ReadAttributes_erase {D} content (d : D) b : ReadAttributes content tt b = res_map erase_all (ReadAttributes content d b).
Proof.
  unfold ReadAttributes. destruct (scanLines _) as [ls e]. change (@nil (MatchAttribute unit)) with (map erase (@nil (MatchAttribute D))).
  generalize (@nil (MatchAttribute D)). induction ls as [|l ls IH]; intros acc; cbn [readAttributes_loop]; [done|].
  rewrite (ParseAttributesLine_erase l d b). unfold res_map at 1. destruct (ParseAttributesLine l d b) as [[m [err|]]| | |]; try done.
  cbn [res_bind fst snd]. rewrite <- IH. f_equal. cbn [ma_Name erase]. destruct (_ =? _); [done|by rewrite map_app].
Qed.

Section reading_attributes.
Variable fsJoin : list bytes -> bytes.
Variable fsOpen : bytes -> error + bytes.
Variable fsReadDir : bytes -> error + list (bytes * bool).
Variable newcap : nat -> nat.
Notation Read := (attr_ReadPatterns fsJoin fsOpen fsReadDir newcap).
Notation Ref := (attr_ReadPatterns_ref fsJoin fsOpen fsReadDir).

Lemma openAttributes_erase {D} full (d : D) b :
  openAttributes fsJoin fsOpen full tt b = res_map erase_all (openAttributes fsJoin fsOpen full d b).
Proof. unfold openAttributes. destruct (fsOpen _); [done|]. apply ReadAttributes_erase. Qed.

(** A step from [path] that gives the lines of the reference, directories apart. *)
Definition lines_as (h : strings) (path : Slice) (got : res (strings * (list (MatchAttribute Slice) * option error)))
    (want : res (list AttrLine * option error)) : Prop :=
  match got, want with
  | Ok (h', r), Ok r' => erase_all r = erase_all r' /\ writes_after h path h'
  | Panic, Panic | NoFuel, NoFuel => True
  | Err e, Err e' => e = e'
  | _, _ => False
  end.

Lemma lines_as_later h path h' got want : slice_ok_in h path -> writes_after h path h' -> lines_as h' path got want -> lines_as h path got want.
Proof.
  intros Hs Hw. unfold lines_as. destruct got as [[h2 r]| | |], want as [r'| | |]; try done. intros [-> ?]. split; [done|].
  by apply (writes_after_trans h h' h2).
Qed.

Lemma ReadAttributesFile_as h path f b : slice_ok_in h path ->
  lines_as h path (ReadAttributesFile fsJoin fsOpen newcap h path f b) (openAttributes fsJoin fsOpen (contents h path ++ [f]) (contents h path) b).
Proof.
  intros Hs. unfold ReadAttributesFile. destruct (append_string newcap h path f) as [h1 s1] eqn:E.
  apply append_string_ok in E as (_ & -> & Hw & _); [|done].
  pose proof (openAttributes_erase (contents h path ++ [f]) path b) as E1. rewrite (openAttributes_erase _ (contents h path) b) in E1.
  destruct (openAttributes _ _ _ path b), (openAttributes _ _ _ (contents h path) b); try discriminate E1; cbn in *; try done; [|by injection E1].
  apply Ok_inj in E1. done.
Qed.

Lemma erase_all_none {D E} (a : list (MatchAttribute D)) (b : list (MatchAttribute E)) e e' :
  erase_all (a, e) = erase_all (b, e') -> map erase a = map erase b /\ e = e'.
Proof. unfold erase_all. cbn. by intros [= -> ->]. Qed.

Lemma walkEntries_as rec rec' root fis :
  (forall h s, slice_ok_in h s -> lines_as h s (rec h s) (rec' (contents h s))) ->
  forall h acc acc', slice_ok_in h root -> map erase acc = map erase acc' ->
  lines_as h root (walkEntries fsJoin fsOpen newcap rec root fis h acc) (walkEntries_ref fsJoin fsOpen rec' (contents h root) fis acc').
Proof.
  intros Hrec. induction fis as [|[name isDir] fis IH]; intros h acc acc' Hs Ha; cbn [walkEntries walkEntries_ref].
  { split; [unfold erase_all; cbn; by rewrite Ha|apply writes_after_refl]. }
  destruct (_ || _); [by apply IH|]. destruct (append_string newcap h root name) as [h1 s1] eqn:E1.
  pose proof (append_string_ok _ _ _ _ _ _ Hs E1) as (Hs1 & Hc1 & _ & _).
  pose proof (ReadAttributesFile_as h1 s1 gitattributesFile false Hs1) as Hf. rewrite Hc1 in Hf. unfold lines_as in Hf.
  destruct (ReadAttributesFile _ _ _ h1 s1 _ _) as [[h2 [da de]]| | |], (openAttributes _ _ _ _ _) as [[da' de']| | |]; try done; try (by cbn; subst).
  destruct Hf as [[Hda <-]%erase_all_none Hw2]. cbn [res_bind]. destruct de as [err|].
  { split; [unfold erase_all; cbn; by rewrite Ha|by apply (writes_after_append newcap h root name h1 s1)]. }
  pose proof (writes_after_ok _ _ _ Hs1 Hw2) as Hs2. specialize (Hrec h2 s1 Hs2). pose proof Hw2 as (_ & _ & _ & C2). rewrite C2, Hc1 in Hrec. unfold lines_as in Hrec.
  destruct (rec h2 s1) as [[h3 [sa se]]| | |], (rec' _) as [[sa' se']| | |]; try done; try (by cbn; subst).
  destruct Hrec as [[Hsa <-]%erase_all_none Hw3]. cbn [res_bind].
  assert (writes_after h root h3) as Hw.
  { apply (writes_after_append newcap h root name h1 s1); [done|done|]. by apply (writes_after_trans h1 h2 h3). }
  destruct se as [err|]; [split; [unfold erase_all; cbn; by rewrite Ha|done]|].
  apply (lines_as_later h root h3); [done|done|]. pose proof Hw as (_ & _ & _ & <-).
  apply IH; [by apply (writes_after_ok h)|]. rewrite !map_app. congruence.
Qed.

Lemma walkDirectory_as fuel : forall h s, slice_ok_in h s ->
  lines_as h s (walkDirectory fsJoin fsOpen fsReadDir newcap fuel h s) (walkDirectory_ref fsJoin fsOpen fsReadDir fuel (contents h s)).
Proof.
  induction fuel as [|fuel IH]; intros h s Hs; [done|]. cbn [walkDirectory walkDirectory_ref].
  destruct (fsReadDir _); [by split; [|apply writes_after_refl]|]. by apply walkEntries_as.
Qed.

(** Reading the .gitattributes files of a work tree gives the lines of the files in order, with their names,
    pieces and attributes; the directories are another matter. *)
Theorem attr_read_lines (fuel : nat) (h : strings) (path : Slice) (Hs : slice_ok_in h path) :
  res_map (fun r => erase_all r.2) (Read fuel h path) = res_map erase_all (Ref fuel (contents h path)).
Proof.
  unfold attr_ReadPatterns, attr_ReadPatterns_ref. pose proof (ReadAttributesFile_as h path gitattributesFile true Hs) as Hf. unfold lines_as in Hf.
  destruct (ReadAttributesFile _ _ _ _ _ _ _) as [[h1 [la e]]| | |], (openAttributes _ _ _ _ _) as [[la' e']| | |]; try done; try (by cbn; subst).
  destruct Hf as [[Hla <-]%erase_all_none Hw]. cbn [res_bind]. destruct e as [err|]; [cbn; unfold erase_all; cbn; by rewrite Hla|].
  pose proof (walkDirectory_as fuel h1 path (writes_after_ok _ _ _ Hs Hw)) as Hd. pose proof Hw as (_ & _ & _ & C). rewrite C in Hd. unfold lines_as in Hd.
  destruct (walkDirectory _ _ _ _ _ _ _) as [[h2 [lb e]]| | |], (walkDirectory_ref _ _ _ _ _) as [[lb' e']| | |]; try done; try (by cbn; subst).
  destruct Hd as [[Hlb <-]%erase_all_none _]. cbn. unfold erase_all. cbn. by rewrite !map_app, Hla, Hlb.
Qed.
End reading_attributes.

(** Two sibling directories three levels down: the slices of their paths share an array, and the line of the first
    ends up with the directory of the second. *)
Definition demoAttrOpen (p : bytes) : error + bytes :=
  if bool_decide (p = bs "a/b/c/d1/.gitattributes") then inr (bs "*.txt text") else inl ErrNotExist.
Notation demoAttrRead := (attr_ReadPatterns demoJoin demoAttrOpen demoReadDir go_newcap 6 no_strings nil_slice).

Lemma attr_read_lines_witness :
  res_map (fun r => erase_all r.2) demoAttrRead = Ok ([erase (mkMatchAttribute (bs "*.txt") (Some (attr_ParsePattern (bs "*.txt") tt)) [A "text" attributeSet ""]%string)], None).
Proof. rewrite (attr_read_lines demoJoin demoAttrOpen demoReadDir go_newcap 6 no_strings nil_slice nil_slice_ok). vm_compute. reflexivity. Defined.

Example attr_directory_of_sibling :
  match demoAttrRead with
  | Ok (h, (ls, None)) => map (fun l => ap_domain <$> ma_Pattern l) (map (resolve h) ls) = [Some [bs "a"; bs "b"; bs "c"; bs "d2"]]
  | _ => False
  end /\
  match attr_ReadPatterns_ref demoJoin demoAttrOpen demoReadDir 6 [] with
  | Ok (ls, None) => map (fun l => ap_domain <$> ma_Pattern l) ls = [Some [bs "a"; bs "b"; bs "c"; bs "d1"]]
  | _ => False
  end.
Proof. vm_compute. split; reflexivity. Qed.
