(* ===== verification/ConfigFormat.v ===== *)
(** * plumbing/format/config: configuration files as sections of options

    The options, sections and subsections of a configuration file with the operations on them (option.go, section.go,
    common.go), the encoder (encoder.go) and the decoder (decoder.go).  A pointer to a section of a configuration is its
    position in the list of sections, and a pointer to a subsection its position in its section; nothing removes either
    while such a pointer is in use.  [strings.EqualFold] is a parameter, with what its documentation says of it. *)
From S2P Require Import Prelude GoStrings.

(** ** [strings.EqualFold] *)
Class Folding := EqualFold : bytes -> bytes -> bool.

Definition isAscii (s : bytes) : Prop := Forall (fun b => b2z b < 128) s.
Definition lowerByte (b : byte) : byte := if (65 <=? b2z b) && (b2z b <=? 90) then z2b (b2z b + 32) else b.

(** Equality under simple case folding is an equivalence; on ASCII text it is equality of the lower-case texts. *)
Class FoldingLaws `{Folding} := {
  EqualFold_refl s : EqualFold s s = true;
  EqualFold_sym s t : EqualFold s t = true -> EqualFold t s = true;
  EqualFold_trans s t u : EqualFold s t = true -> EqualFold t u = true -> EqualFold s u = true;
  EqualFold_ascii s t : isAscii s -> isAscii t -> EqualFold s t = bool_decide (map lowerByte s = map lowerByte t) }.

(** ** option.go *)
Record Option := MkOption { opt_Key : bytes; opt_Value : bytes }.
#[global] Instance Option_eq_decision : EqDecision Option.
Proof. solve_decision. Defined.
Abbreviation Options := (list Option) (only parsing).

Fixpoint contains (haystack : list bytes) (needle : bytes) : bool :=
  match haystack with
  | [] => false
  | s :: haystack => if bool_decide (s = needle) then true else contains haystack needle
  end.

(** The position of the last element with a property: a loop from the end of a list. *)
Fixpoint lastIndex {A} (p : A -> bool) (l : list A) : option nat :=
  match l with
  | [] => None
  | x :: l => match lastIndex p l with Some i => Some (S i) | None => if p x then Some O else None end
  end.

Section Operations.
Context `{Folding}.

Definition IsKey (o : Option) (key : bytes) : bool := EqualFold (opt_Key o) key.

Definition Options_Get (opts : Options) (key : bytes) : bytes :=
  match lastIndex (fun o => IsKey o key) opts with
  | Some i => match opts !! i with Some o => opt_Value o | None => [] end
  | None => []
  end.

Fixpoint Options_Has (opts : Options) (key : bytes) : bool :=
  match opts with
  | [] => false
  | o :: opts => if IsKey o key then true else Options_Has opts key
  end.

Fixpoint Options_GetAll (opts : Options) (key : bytes) : list bytes :=
  match opts with
  | [] => []
  | o :: opts => if IsKey o key then opt_Value o :: Options_GetAll opts key else Options_GetAll opts key
  end.

Fixpoint withoutOption (opts : Options) (key : bytes) : Options :=
  match opts with
  | [] => []
  | o :: opts => if negb (IsKey o key) then o :: withoutOption opts key else withoutOption opts key
  end.

Definition withAddedOption (opts : Options) (key value : bytes) : Options := opts ++ [MkOption key value].

(** The first loop of [withSettedOption], with the values it keeps, and the second. *)
Fixpoint settedKept (opts : Options) (key : bytes) (values : list bytes) (result : Options) (added : list bytes) : Options * list bytes :=
  match opts with
  | [] => (result, added)
  | o :: opts =>
    if negb (IsKey o key) then settedKept opts key values (result ++ [o]) added
    else if contains values (opt_Value o) then settedKept opts key values (result ++ [o]) (added ++ [opt_Value o])
    else settedKept opts key values result added
  end.
Fixpoint settedNew (values added : list bytes) (key : bytes) (result : Options) : Options :=
  match values with
  | [] => result
  | value :: values =>
    if contains added value then settedNew values added key result
    else settedNew values added key (withAddedOption result key value)
  end.
Definition withSettedOption (opts : Options) (key : bytes) (values : list bytes) : Options :=
  let (result, added) := settedKept opts key values [] [] in settedNew values added key result.

End Operations.

(** ** section.go *)
Record Subsection := MkSubsection { sub_Name : bytes; sub_Options : Options }.
Record ConfigSection := MkSection { sec_Name : bytes; sec_Options : Options; sec_Subsections : list Subsection }.
#[global] Instance Subsection_eq_decision : EqDecision Subsection.
Proof. solve_decision. Defined.
#[global] Instance ConfigSection_eq_decision : EqDecision ConfigSection.
Proof. solve_decision. Defined.

Section Sections.
Context `{Folding}.

Definition Section_IsName (s : ConfigSection) (name : bytes) : bool := EqualFold (sec_Name s) name.
Definition Subsection_IsName (s : Subsection) (name : bytes) : bool := bool_decide (sub_Name s = name).

(** [Subsection]: the position of the subsection, and the section with it. *)
Definition Section_Subsection (s : ConfigSection) (name : bytes) : nat * ConfigSection :=
  match lastIndex (fun ss => Subsection_IsName ss name) (sec_Subsections s) with
  | Some i => (i, s)
  | None => (length (sec_Subsections s), MkSection (sec_Name s) (sec_Options s) (sec_Subsections s ++ [MkSubsection name []]))
  end.

Fixpoint hasSubsection (l : list Subsection) (name : bytes) : bool :=
  match l with
  | [] => false
  | ss :: l => if Subsection_IsName ss name then true else hasSubsection l name
  end.
Definition HasSubsection (s : ConfigSection) (name : bytes) : bool := hasSubsection (sec_Subsections s) name.

Definition Section_RemoveSubsection (s : ConfigSection) (name : bytes) : ConfigSection :=
  MkSection (sec_Name s) (sec_Options s) (base.filter (fun ss => Subsection_IsName ss name = false) (sec_Subsections s)).

Definition setOptions (s : ConfigSection) (opts : Options) : ConfigSection := MkSection (sec_Name s) opts (sec_Subsections s).
Definition setSubsections (s : ConfigSection) (l : list Subsection) : ConfigSection := MkSection (sec_Name s) (sec_Options s) l.
Definition Section_Option (s : ConfigSection) (key : bytes) : bytes := Options_Get (sec_Options s) key.
Definition Section_OptionAll (s : ConfigSection) (key : bytes) : list bytes := Options_GetAll (sec_Options s) key.
Definition Section_HasOption (s : ConfigSection) (key : bytes) : bool := Options_Has (sec_Options s) key.
Definition Section_AddOption (s : ConfigSection) (key value : bytes) : ConfigSection := setOptions s (withAddedOption (sec_Options s) key value).
Definition Section_SetOption (s : ConfigSection) (key value : bytes) : ConfigSection := setOptions s (withSettedOption (sec_Options s) key [value]).
Definition Section_RemoveOption (s : ConfigSection) (key : bytes) : ConfigSection := setOptions s (withoutOption (sec_Options s) key).

Definition setSubOptions (s : Subsection) (opts : Options) : Subsection := MkSubsection (sub_Name s) opts.
Definition Subsection_Option (s : Subsection) (key : bytes) : bytes := Options_Get (sub_Options s) key.
Definition Subsection_OptionAll (s : Subsection) (key : bytes) : list bytes := Options_GetAll (sub_Options s) key.
Definition Subsection_HasOption (s : Subsection) (key : bytes) : bool := Options_Has (sub_Options s) key.
Definition Subsection_AddOption (s : Subsection) (key value : bytes) : Subsection := setSubOptions s (withAddedOption (sub_Options s) key value).
Definition Subsection_SetOption (s : Subsection) (key : bytes) (values : list bytes) : Subsection :=
  setSubOptions s (withSettedOption (sub_Options s) key values).
Definition Subsection_RemoveOption (s : Subsection) (key : bytes) : Subsection := setSubOptions s (withoutOption (sub_Options s) key).

End Sections.

(** ** common.go *)
Inductive RawConfig := MkRaw { raw_Comment : option bytes; raw_Sections : list ConfigSection; raw_Includes : list Include }
with Include := MkInclude { inc_Path : bytes; inc_Config : option RawConfig }.

Definition format_New : RawConfig := MkRaw None [] [].
Definition NoSubsection : bytes := [].
Definition setSections (c : RawConfig) (l : list ConfigSection) : RawConfig := MkRaw (raw_Comment c) l (raw_Includes c).

Section Config.
Context `{Folding}.

(** [Section]: the position of the section, and the configuration with it. *)
Definition Config_Section (c : RawConfig) (name : bytes) : nat * RawConfig :=
  match lastIndex (fun s => Section_IsName s name) (raw_Sections c) with
  | Some i => (i, c)
  | None => (length (raw_Sections c), setSections c (raw_Sections c ++ [MkSection name [] []]))
  end.

(** What is done to the section, or to the subsection, that a pointer points to. *)
Definition onSection (c : RawConfig) (i : nat) (f : ConfigSection -> ConfigSection) : RawConfig := setSections c (alter f i (raw_Sections c)).
Definition onSubsection (s : ConfigSection) (i : nat) (f : Subsection -> Subsection) : ConfigSection :=
  setSubsections s (alter f i (sec_Subsections s)).
(** What [c.Section(name)] points to, with the configuration that now has it. *)
Definition theSection (c : RawConfig) (name : bytes) : ConfigSection * RawConfig :=
  let (i, c) := Config_Section c name in
  (default (MkSection name [] []) (raw_Sections c !! i), c).
Definition inSection (c : RawConfig) (name : bytes) (f : ConfigSection -> ConfigSection) : RawConfig :=
  let (i, c) := Config_Section c name in onSection c i f.
Definition inSubsection (s : ConfigSection) (name : bytes) (f : Subsection -> Subsection) : ConfigSection :=
  let (i, s) := Section_Subsection s name in onSubsection s i f.

Fixpoint hasSection (l : list ConfigSection) (name : bytes) : bool :=
  match l with
  | [] => false
  | s :: l => if Section_IsName s name then true else hasSection l name
  end.
Definition HasSection (c : RawConfig) (name : bytes) : bool := hasSection (raw_Sections c) name.

Definition RemoveSection (c : RawConfig) (name : bytes) : RawConfig :=
  setSections c (base.filter (fun s => Section_IsName s name = false) (raw_Sections c)).
Definition RemoveSubsection (c : RawConfig) (section subsection : bytes) : RawConfig :=
  setSections c (map (fun s => if Section_IsName s section then Section_RemoveSubsection s subsection else s) (raw_Sections c)).

Definition AddOption (c : RawConfig) (section subsection key value : bytes) : RawConfig :=
  inSection c section (fun s =>
    if bool_decide (subsection = NoSubsection) then Section_AddOption s key value
    else inSubsection s subsection (fun ss => Subsection_AddOption ss key value)).
Definition SetOption (c : RawConfig) (section subsection key value : bytes) : RawConfig :=
  inSection c section (fun s =>
    if bool_decide (subsection = NoSubsection) then Section_SetOption s key value
    else inSubsection s subsection (fun ss => Subsection_SetOption ss key [value])).

End Config.

(** ** encoder.go: what is written to a buffer, which does not fail *)
Definition replaceBytes (f : byte -> bytes) (s : bytes) : bytes := flat_map f s.
Definition subsectionReplacer (b : byte) : bytes :=
  if bool_decide (b = x22) then [x5c; x22] else if bool_decide (b = x5c) then [x5c; x5c] else [b].
Definition valueReplacer (b : byte) : bytes :=
  if bool_decide (b = x22) then [x5c; x22]
  else if bool_decide (b = x5c) then [x5c; x5c]
  else if bool_decide (b = x0a) then [x5c; x6e]
  else if bool_decide (b = x09) then [x5c; x74]
  else if bool_decide (b = x08) then [x5c; x62]
  else [b].

Definition mustQuote (v : bytes) : bool := ContainsAny v [x23; x3b; x22; x09; x0a; x5c] || HasPrefix v [x20] || HasSuffix v [x20].
Definition encodeValue (v : bytes) : bytes := if mustQuote v then [x22] ++ replaceBytes valueReplacer v ++ [x22] else v.
Definition encodeOption (o : Option) : bytes := [x09] ++ opt_Key o ++ bs " = " ++ encodeValue (opt_Value o) ++ [x0a].
Definition encodeOptions (opts : Options) : bytes := flat_map encodeOption opts.
Definition encodeSubsection (sectionName : bytes) (s : Subsection) : bytes :=
  ([x5b] ++ sectionName ++ [x20; x22] ++ replaceBytes subsectionReplacer (sub_Name s) ++ [x22; x5d; x0a]) ++ encodeOptions (sub_Options s).
Definition encodeSection (s : ConfigSection) : bytes :=
  (if len (sec_Options s) >? 0 then ([x5b] ++ sec_Name s ++ [x5d; x0a]) ++ encodeOptions (sec_Options s) else []) ++
  flat_map (encodeSubsection (sec_Name s)) (sec_Subsections s).
Definition Encode (cfg : RawConfig) : bytes := flat_map encodeSection (raw_Sections cfg).

(** ** decoder.go: the reader of gcfg calls back for every section header, with an empty key, and for every variable *)
Record Event := MkEvent { ev_Section : bytes; ev_Subsection : bytes; ev_Key : bytes; ev_Value : bytes; ev_Blank : bool }.

(** [gcfg.ReadWithCallback] on the bytes of a reader: the calls it makes, and the error it ends with. *)
Class Gcfg := ReadWithCallback : bytes -> list Event * option error.

Definition decode_cb `{Folding} (config : RawConfig) (e : Event) : RawConfig :=
  if bool_decide (ev_Subsection e = []) && bool_decide (ev_Key e = []) then (Config_Section config (ev_Section e)).2
  else if bool_decide (ev_Subsection e <> []) && bool_decide (ev_Key e = []) then
    let (i, c) := Config_Section config (ev_Section e) in onSection c i (fun s => (Section_Subsection s (ev_Subsection e)).2)
  else AddOption config (ev_Section e) (ev_Subsection e) (ev_Key e) (ev_Value e).

Definition Decode `{Folding} `{Gcfg} (b : bytes) (config : RawConfig) : option error * RawConfig :=
  let (events, err) := ReadWithCallback b in (err, foldl decode_cb config events).
