(* ===== verification/ConfigText.v ===== *)
(** * The text of a configuration file: decoding what the encoder writes

    The syntax of a configuration file as git documents it, which is what the reader of gcfg is trusted to read; the
    encoder writes that syntax, and the decoder rebuilds from it the configuration that was encoded, without its empty
    sections.  A reader of such lines shows that what is trusted can hold. *)
From S2P Require Import Prelude GoStrings ConfigFormat.

(** ** The syntax of a configuration file *)
Definition isLetter (b : byte) : bool := let z := b2z b in (65 <=? z) && (z <=? 90) || (97 <=? z) && (z <=? 122).
Definition isIdent (b : byte) : bool := let z := b2z b in isLetter b || (48 <=? z) && (z <=? 57) || (z =? 45).
Definition ident (s : bytes) : Prop := match s with [] => False | b :: _ => isLetter b = true /\ Forall (fun b => isIdent b = true) s end.
Definition printable (b : byte) : Prop := 32 <= b2z b <= 126.

(** The text between the quotes of a subsection, and of a value: a backslash comes before a quote or a backslash, and in
    a value it also makes the letters n, t and b a new line, a tabulation and a backspace. *)
Inductive sub_text : bytes -> bytes -> Prop :=
  | sub_nil : sub_text [] []
  | sub_char b t s : printable b -> b <> x22 -> b <> x5c -> sub_text t s -> sub_text (b :: t) (b :: s)
  | sub_escape b t s : b = x22 \/ b = x5c -> sub_text t s -> sub_text (x5c :: b :: t) (b :: s).
Definition escapes : list (byte * byte) := [(x22, x22); (x5c, x5c); (x6e, x0a); (x74, x09); (x62, x08)].
Inductive quoted_text : bytes -> bytes -> Prop :=
  | quoted_nil : quoted_text [] []
  | quoted_char b t v : printable b -> b <> x22 -> b <> x5c -> quoted_text t v -> quoted_text (b :: t) (b :: v)
  | quoted_escape l b t v : (l, b) ∈ escapes -> quoted_text t v -> quoted_text (x5c :: l :: t) (b :: v).
(** A value without quotes has no comment, quote or backslash, and no space at its ends. *)
Definition bare_text (v : bytes) : Prop :=
  Forall (fun b => printable b /\ b ∉ [x23; x3b; x22; x5c]) v /\ HasPrefix v [x20] = false /\ HasSuffix v [x20] = false.
Definition value_text (t v : bytes) : Prop := t = v /\ bare_text v \/ exists q, t = [x22] ++ q ++ [x22] /\ quoted_text q v.

(** The lines of a file: headers of sections and of subsections, and variables. *)
Inductive Line :=
  | LSection (name : bytes)
  | LSubsection (name text sub : bytes)
  | LVariable (key text value : bytes).
Definition line_ok (l : Line) : Prop :=
  match l with
  | LSection name => ident name
  | LSubsection name text sub => ident name /\ sub_text text sub
  | LVariable key text value => ident key /\ value_text text value
  end.
Definition line_text (l : Line) : bytes :=
  match l with
  | LSection name => [x5b] ++ name ++ [x5d; x0a]
  | LSubsection name text _ => [x5b] ++ name ++ [x20; x22] ++ text ++ [x22; x5d; x0a]
  | LVariable key text _ => [x09] ++ key ++ bs " = " ++ text ++ [x0a]
  end.
(** The calls for the lines, after the header of a section and a subsection. *)
Fixpoint line_events (section sub : bytes) (ls : list Line) : list Event :=
  match ls with
  | [] => []
  | LSection name :: ls => MkEvent name [] [] [] true :: line_events name [] ls
  | LSubsection name _ sub :: ls => MkEvent name sub [] [] true :: line_events name sub ls
  | LVariable key _ value :: ls => MkEvent section sub key value false :: line_events section sub ls
  end.
Definition starts_header (ls : list Line) : Prop := match ls with LVariable _ _ _ :: _ => False | _ => True end.

(** What is trusted: gcfg reads the lines of a configuration file in order, without an error. *)
Class GcfgLaws `{Gcfg} :=
  gcfg_reads ls : Forall line_ok ls -> starts_header ls -> ReadWithCallback (flat_map line_text ls) = (line_events [] [] ls, None).

(** ** The encoder writes this syntax *)
Lemma sub_text_encoded s : Forall printable s -> sub_text (replaceBytes subsectionReplacer s) s.
Proof.
  induction 1 as [|b s Hb Hs IH]; [constructor|]. unfold replaceBytes in *. cbn [flat_map]. unfold subsectionReplacer at 1.
  repeat case_bool_decide; subst; cbn [app]; [apply sub_escape; auto..|]. by apply sub_char.
Qed.

(** The bytes a value may have: printable ones, and those that have an escape. *)
Definition value_byte (b : byte) : Prop := printable b \/ b ∈ [x0a; x09; x08].
Lemma quoted_text_encoded v : Forall value_byte v -> quoted_text (replaceBytes valueReplacer v) v.
Proof.
  induction 1 as [|b v Hb Hv IH]; [constructor|]. unfold replaceBytes in *. cbn [flat_map]. unfold valueReplacer at 1.
  repeat case_bool_decide; subst; cbn [app]; [apply quoted_escape; [by_decision|done]..|].
  apply quoted_char; [|done..]. destruct Hb as [Hb|Hb]; [done|]. exfalso. set_solver.
Qed.

Lemma bare_encoded v : Forall value_byte v -> x08 ∉ v -> mustQuote v = false -> bare_text v.
Proof.
  intros Hv H8 Hq. unfold mustQuote in Hq. apply orb_false_iff in Hq as [Hq Hs]. apply orb_false_iff in Hq as [Hq Hp].
  split; [|done]. apply Forall_forall. intros b Hb. rewrite Forall_forall in Hv. specialize (Hv b Hb).
  assert (b ∉ [x23; x3b; x22; x09; x0a; x5c]) as Hn.
  { intros Hin. assert (ContainsAny v [x23; x3b; x22; x09; x0a; x5c] = true) as Hc; [|congruence].
    apply existsb_exists. exists b. split; [by apply list_elem_of_In|]. by apply bool_decide_eq_true_2. }
  destruct Hv as [Hv|Hv]; [|exfalso; set_solver]. split; [done|set_solver].
Qed.

(** A value that the encoder writes as git reads it: a backspace needs quotes. *)
Definition value_ok (v : bytes) : Prop := Forall value_byte v /\ (x08 ∉ v \/ mustQuote v = true).
Lemma value_text_encoded v : value_ok v -> value_text (encodeValue v) v.
Proof.
  intros [Hv Hb]. unfold encodeValue. destruct (mustQuote v) eqn:Hq.
  - right. eexists. split; [done|]. by apply quoted_text_encoded.
  - left. split; [done|]. apply bare_encoded; [done| |done]. by destruct Hb.
Qed.

(** ** The configuration as lines *)
Definition opt_line (o : Option) : Line := LVariable (opt_Key o) (encodeValue (opt_Value o)) (opt_Value o).
Definition sub_lines (name : bytes) (ss : Subsection) : list Line :=
  LSubsection name (replaceBytes subsectionReplacer (sub_Name ss)) (sub_Name ss) :: map opt_line (sub_Options ss).
Definition sec_lines (s : ConfigSection) : list Line :=
  (if len (sec_Options s) >? 0 then LSection (sec_Name s) :: map opt_line (sec_Options s) else []) ++
  flat_map (sub_lines (sec_Name s)) (sec_Subsections s).

Definition opt_ok (o : Option) : Prop := ident (opt_Key o) /\ value_ok (opt_Value o).
Record sub_ok (ss : Subsection) : Prop := {
  sub_name_ok : sub_Name ss <> [] /\ Forall printable (sub_Name ss);
  sub_opts_ok : Forall opt_ok (sub_Options ss) }.
Record sec_ok (s : ConfigSection) : Prop := {
  sec_name_ok : ident (sec_Name s);
  sec_opts_ok : Forall opt_ok (sec_Options s);
  sec_subs_ok : Forall sub_ok (sec_Subsections s);
  sec_subs_nodup : NoDup (map sub_Name (sec_Subsections s)) }.

Lemma encodeOptions_lines opts : encodeOptions opts = flat_map line_text (map opt_line opts).
Proof. induction opts as [|o opts IH]; [done|]. unfold encodeOptions in *. cbn [flat_map map]. by rewrite IH. Qed.

Lemma encodeSection_lines s : encodeSection s = flat_map line_text (sec_lines s).
Proof.
  unfold encodeSection, sec_lines. rewrite flat_map_app. f_equal.
  - case_match; [|done]. cbn [flat_map]. by rewrite encodeOptions_lines.
  - induction (sec_Subsections s) as [|ss l IH]; [done|]. cbn [flat_map]. rewrite flat_map_app, IH. f_equal.
    unfold encodeSubsection, sub_lines. cbn [flat_map]. by rewrite encodeOptions_lines.
Qed.

Lemma Encode_lines cfg : Encode cfg = flat_map line_text (flat_map sec_lines (raw_Sections cfg)).
Proof.
  unfold Encode. induction (raw_Sections cfg) as [|s l IH]; [done|]. cbn [flat_map]. by rewrite flat_map_app, encodeSection_lines, IH.
Qed.

Lemma opt_lines_ok opts : Forall opt_ok opts -> Forall line_ok (map opt_line opts).
Proof. induction 1 as [|o opts [Hk Hv] _ IH]; [constructor|]. constructor; [|done]. split; [done|]. by apply value_text_encoded. Qed.

Lemma sec_lines_ok s : sec_ok s -> Forall line_ok (sec_lines s).
Proof.
  intros [Hn Ho Hs _]. unfold sec_lines. apply Forall_app. split.
  - case_match; [|done]. constructor; [done|]. by apply opt_lines_ok.
  - induction Hs as [|ss l [[_ Hp] Hso] _ IH]; [constructor|]. cbn [flat_map]. apply Forall_app. split; [|done].
    constructor; [|by apply opt_lines_ok]. split; [done|]. by apply sub_text_encoded.
Qed.

Lemma lines_start l : starts_header (flat_map sec_lines l).
Proof.
  induction l as [|s l IH]; [done|]. cbn [flat_map]. unfold sec_lines. case_match; [done|].
  destruct (sec_Subsections s); done.
Qed.

(** ** Decoding: every call works on the section, and then on the subsection, that it names *)
Lemma lastIndex_snoc {A} (p : A -> bool) l x : lastIndex p (l ++ [x]) = if p x then Some (length l) else lastIndex p l.
Proof. induction l as [|y l IH]; cbn [app lastIndex length]; [by destruct (p x)|]. rewrite IH. by destruct (p x). Qed.

Lemma lastIndex_none {A} (p : A -> bool) l : Forall (fun x => p x = false) l -> lastIndex p l = None.
Proof. induction 1 as [|x l Hx _ IH]; [done|]. cbn [lastIndex]. by rewrite IH, Hx. Qed.

Lemma alter_last {A} (f : A -> A) l x : alter f (length l) (l ++ [x]) = l ++ [f x].
Proof.
  by rewrite alter_app_r_alt, Nat.sub_diag by lia.
Qed.

Section Decoding.
Context `{Folding} `{!FoldingLaws}.

Lemma inSection_last c l s name f : Section_IsName s name = true -> inSection (setSections c (l ++ [s])) name f = setSections c (l ++ [f s]).
Proof.
  intros Hs. unfold inSection, Config_Section. cbn [setSections raw_Sections]. rewrite lastIndex_snoc, Hs.
  unfold onSection. cbn [setSections raw_Sections]. by rewrite alter_last.
Qed.

Lemma inSection_new c l name f : Forall (fun s => Section_IsName s name = false) l ->
  inSection (setSections c l) name f = setSections c (l ++ [f (MkSection name [] [])]).
Proof.
  intros Hl. unfold inSection, Config_Section. cbn [setSections raw_Sections]. rewrite (lastIndex_none _ _ Hl).
  unfold onSection. cbn [setSections raw_Sections]. by rewrite alter_last.
Qed.

Lemma inSubsection_last s l ss name f : sec_Subsections s = l ++ [ss] -> sub_Name ss = name ->
  inSubsection s name f = setSubsections s (l ++ [f ss]).
Proof.
  intros Hl Hs. unfold inSubsection, Section_Subsection. rewrite Hl, lastIndex_snoc. unfold Subsection_IsName at 1.
  rewrite bool_decide_eq_true_2 by done. unfold onSubsection. by rewrite Hl, alter_last.
Qed.

Lemma inSubsection_new s name f : name ∉ map sub_Name (sec_Subsections s) ->
  inSubsection s name f = setSubsections s (sec_Subsections s ++ [f (MkSubsection name [])]).
Proof.
  intros Hn. unfold inSubsection, Section_Subsection. rewrite lastIndex_none.
  - unfold onSubsection. cbn [sec_Subsections]. by rewrite alter_last.
  - apply Forall_forall. intros ss Hss. apply bool_decide_eq_false_2. intros <-. apply Hn. by apply list_elem_of_fmap_2.
Qed.

(** A call, as what it does to its section. *)
Definition section_step (e : Event) (s : ConfigSection) : ConfigSection :=
  if bool_decide (ev_Key e = []) then
    if bool_decide (ev_Subsection e = []) then s else inSubsection s (ev_Subsection e) id
  else if bool_decide (ev_Subsection e = []) then Section_AddOption s (ev_Key e) (ev_Value e)
  else inSubsection s (ev_Subsection e) (fun ss => Subsection_AddOption ss (ev_Key e) (ev_Value e)).

Lemma onSection_id c i : onSection c i id = c.
Proof. unfold onSection. rewrite list_alter_id by done. by destruct c. Qed.
Lemma Subsection_id s name : (Section_Subsection s name).2 = inSubsection s name id.
Proof.
  unfold inSubsection. destruct (Section_Subsection s name) as [i s']. unfold onSubsection. rewrite list_alter_id by done. by destruct s'.
Qed.

Lemma decode_cb_step c e : decode_cb c e = inSection c (ev_Section e) (section_step e).
Proof.
  unfold decode_cb, AddOption, section_step, NoSubsection. destruct e as [sec sub key value b]. cbn [ev_Section ev_Subsection ev_Key ev_Value].
  destruct (decide (key = [])) as [->|Hk].
  - rewrite (bool_decide_eq_true_2 ([] = [])) by done. destruct (decide (sub = [])) as [->|Hs].
    + rewrite !bool_decide_eq_true_2 by done. cbn [andb]. unfold inSection. destruct (Config_Section c sec) as [i c']. by rewrite onSection_id.
    + rewrite (bool_decide_eq_false_2 (sub = [])), bool_decide_eq_true_2 by done. cbn [andb]. unfold inSection.
      destruct (Config_Section c sec) as [i c']. unfold onSection. f_equal. apply list_alter_ext; [|done]. intros s _. apply Subsection_id.
  - rewrite (bool_decide_eq_false_2 (key = [])) by done. rewrite !andb_false_r. by destruct (bool_decide (sub = [])).
Qed.

Lemma section_step_name e s : sec_Name (section_step e s) = sec_Name s.
Proof.
  unfold section_step, Section_AddOption, inSubsection, Section_Subsection.
  repeat case_bool_decide; try done; case_match; simplify_eq; by repeat case_match; simplify_eq.
Qed.

(** Calls for one section. *)
Lemma decode_section_last es : forall c l s, Forall (fun e => Section_IsName s (ev_Section e) = true) es ->
  foldl decode_cb (setSections c (l ++ [s])) es = setSections c (l ++ [foldl (fun s e => section_step e s) s es]).
Proof.
  induction es as [|e es IH]; intros c l s Hes; [done|]. apply Forall_cons in Hes as [He Hes]. cbn [foldl].
  rewrite decode_cb_step, inSection_last, IH; [done| |done].
  eapply Forall_impl; [exact Hes|]. intros e' He'. unfold Section_IsName in *. by rewrite section_step_name.
Qed.

Lemma decode_section_new es c l name : Forall (fun s => Section_IsName s name = false) l -> es <> [] ->
  Forall (fun e => ev_Section e = name) es ->
  foldl decode_cb (setSections c l) es = setSections c (l ++ [foldl (fun s e => section_step e s) (MkSection name [] []) es]).
Proof.
  intros Hl Hne Hes. destruct es as [|e es]; [done|]. apply Forall_cons in Hes as [He Hes]. cbn [foldl].
  rewrite decode_cb_step, He, inSection_new, decode_section_last; [done| |done].
  eapply Forall_impl; [exact Hes|]. intros e' ->. unfold Section_IsName. rewrite section_step_name. cbn [sec_Name]. apply EqualFold_refl.
Qed.

(** ** The calls for the lines of a section rebuild it *)
Lemma line_events_vars name sub opts rest : line_events name sub (map opt_line opts ++ rest) =
  map (fun o => MkEvent name sub (opt_Key o) (opt_Value o) false) opts ++ line_events name sub rest.
Proof. induction opts as [|o opts IH]; [done|]. cbn [map app opt_line line_events]. by rewrite IH. Qed.

Lemma ident_nonempty s : ident s -> s <> [].
Proof. by destruct s. Qed.

Lemma steps_options name opts : forall s, Forall opt_ok opts ->
  foldl (fun s e => section_step e s) s (map (fun o => MkEvent name [] (opt_Key o) (opt_Value o) false) opts) = setOptions s (sec_Options s ++ opts).
Proof.
  induction opts as [|o opts IH]; intros s Ho; cbn [map foldl]; [rewrite app_nil_r; by destruct s|].
  apply Forall_cons in Ho as [[Hk _] Ho]. rewrite IH by done. unfold section_step. cbn [ev_Key ev_Subsection ev_Value].
  rewrite bool_decide_eq_false_2 by (by apply ident_nonempty). rewrite bool_decide_eq_true_2 by done.
  unfold Section_AddOption, withAddedOption, setOptions. cbn [sec_Options sec_Name sec_Subsections]. rewrite <- app_assoc. by destruct o.
Qed.

Lemma steps_sub_options name sub opts : forall s l ss, Forall opt_ok opts -> sub <> [] -> sec_Subsections s = l ++ [ss] -> sub_Name ss = sub ->
  foldl (fun s e => section_step e s) s (map (fun o => MkEvent name sub (opt_Key o) (opt_Value o) false) opts) =
  setSubsections s (l ++ [MkSubsection sub (sub_Options ss ++ opts)]).
Proof.
  induction opts as [|o opts IH]; intros s l ss Ho Hs Hl Hn; cbn [map foldl].
  { rewrite app_nil_r. destruct s, ss. cbn in *. by subst. }
  apply Forall_cons in Ho as [[Hk _] Ho]. unfold section_step at 2. cbn [ev_Key ev_Subsection ev_Value].
  rewrite !bool_decide_eq_false_2 by (done || by apply ident_nonempty). erewrite inSubsection_last by done.
  erewrite IH by done. cbn [setSubsections sec_Name sec_Options Subsection_AddOption setSubOptions sub_Options withAddedOption].
  unfold setSubsections, withAddedOption. cbn. rewrite <- app_assoc. by destruct o.
Qed.

Lemma steps_sub name ss : forall s, sub_ok ss -> sub_Name ss ∉ map sub_Name (sec_Subsections s) ->
  foldl (fun s e => section_step e s) s (line_events [] [] (sub_lines name ss)) = setSubsections s (sec_Subsections s ++ [ss]).
Proof.
  intros s [[Hne _] Ho] Hn. unfold sub_lines. cbn [line_events foldl]. rewrite <- (app_nil_r (map opt_line _)), line_events_vars.
  cbn [line_events]. rewrite app_nil_r. unfold section_step at 2. cbn [ev_Key ev_Subsection].
  rewrite bool_decide_eq_true_2, bool_decide_eq_false_2 by done. rewrite inSubsection_new by done.
  erewrite steps_sub_options; [|done|done|done|done]. cbn. by destruct ss.
Qed.

Lemma line_events_head name sub sub' ls : starts_header ls -> line_events name sub ls = line_events [] sub' ls.
Proof. by destruct ls as [|[]]. Qed.
Lemma line_events_app_header a : forall n s b, starts_header b -> line_events n s (a ++ b) = line_events n s a ++ line_events [] [] b.
Proof.
  induction a as [|x a IH]; intros n s b Hb; cbn [app line_events]; [by apply line_events_head|].
  destruct x; cbn [app line_events]; by rewrite IH.
Qed.
Lemma subs_start name l : starts_header (flat_map (sub_lines name) l).
Proof. by destruct l. Qed.

Lemma steps_subs name subs : forall s, Forall sub_ok subs -> NoDup (map sub_Name (sec_Subsections s ++ subs)) ->
  foldl (fun s e => section_step e s) s (line_events [] [] (flat_map (sub_lines name) subs)) = setSubsections s (sec_Subsections s ++ subs).
Proof.
  induction subs as [|ss subs IH]; intros s Hs Hd; cbn [flat_map]; [rewrite app_nil_r; by destruct s|].
  apply Forall_cons in Hs as [Hss Hs]. rewrite line_events_app_header by apply subs_start. rewrite foldl_app.
  rewrite steps_sub; [|done|].
  - rewrite IH; [|done|]; cbn [setSubsections sec_Subsections]; rewrite <- app_assoc; done.
  - rewrite map_app in Hd. apply NoDup_app in Hd as (_ & Hd & _). intros Hin. apply (Hd _ Hin). cbn [map]. by left.
Qed.

Lemma steps_section s : sec_ok s ->
  foldl (fun s e => section_step e s) (MkSection (sec_Name s) [] []) (line_events [] [] (sec_lines s)) = s.
Proof.
  intros [Hn Ho Hs Hd]. unfold sec_lines. rewrite line_events_app_header by apply subs_start. rewrite foldl_app.
  assert (foldl (fun s e => section_step e s) (MkSection (sec_Name s) [] []) (line_events [] []
    (if len (sec_Options s) >? 0 then LSection (sec_Name s) :: map opt_line (sec_Options s) else [])) = MkSection (sec_Name s) (sec_Options s) []) as ->.
  { destruct (sec_Options s) as [|o opts] eqn:E; [done|]. rewrite <- E in *.
    assert (len (sec_Options s) >? 0 = true) as -> by (rewrite E, len_cons; pose proof (len_nonneg opts); lia).
    cbn [line_events foldl]. rewrite <- (app_nil_r (map opt_line _)), line_events_vars. cbn [line_events]. rewrite app_nil_r.
    rewrite steps_options by done. cbn. by rewrite E. }
  rewrite steps_subs by done. cbn. by destruct s.
Qed.

Definition written (s : ConfigSection) : bool := negb (bool_decide (sec_Options s = []) && bool_decide (sec_Subsections s = [])).

Lemma sec_lines_written s : if written s then sec_lines s <> [] else sec_lines s = [].
Proof.
  unfold written, sec_lines. destruct (sec_Options s) as [|o opts]; destruct (sec_Subsections s) as [|ss subs]; cbn [andb negb]; try done.
  all: rewrite ?bool_decide_eq_false_2 by done; cbn [andb negb]; rewrite ?andb_false_r; cbn [andb negb].
  all: rewrite len_cons; pose proof (len_nonneg opts); destruct (1 + len opts >? 0) eqn:E; [done|lia].
Qed.

Lemma events_of_section s : Forall (fun e => ev_Section e = sec_Name s) (line_events [] [] (sec_lines s)).
Proof.
  assert (forall opts sub, Forall (fun e => ev_Section e = sec_Name s) (line_events (sec_Name s) sub (map opt_line opts))) as Hopts.
  { intros opts sub. induction opts as [|o opts IH]; cbn [map line_events opt_line]; constructor; done. }
  unfold sec_lines. rewrite line_events_app_header by apply subs_start. apply Forall_app. split.
  - case_match; [|constructor]. cbn [line_events]. constructor; [done|apply Hopts].
  - induction (sec_Subsections s) as [|ss l IH]; [constructor|]. cbn [flat_map]. rewrite line_events_app_header by apply subs_start.
    apply Forall_app. split; [|done]. cbn [sub_lines line_events]. constructor; [done|apply Hopts].
Qed.

(** The names of the sections differ, whatever their case. *)
Definition distinct_sections (l : list ConfigSection) : Prop := ForallOrdPairs (fun s t => Section_IsName s (sec_Name t) = false) l.

Lemma decode_sections l : forall c seen, Forall sec_ok l -> distinct_sections l ->
  Forall (fun s => Forall (fun t => Section_IsName s (sec_Name t) = false) l) seen ->
  foldl decode_cb (setSections c seen) (line_events [] [] (flat_map sec_lines l)) = setSections c (seen ++ base.filter (fun s => written s = true) l).
Proof.
  induction l as [|s l IH]; intros c seen Hl Hd Hseen; cbn [flat_map]; [by rewrite filter_nil, app_nil_r|].
  apply Forall_cons in Hl as [Hs Hl]. inversion Hd as [|? ? Hsl Hd']; subst.
  rewrite line_events_app_header by apply lines_start. rewrite foldl_app, filter_cons.
  assert (Forall (fun s => Forall (fun t => Section_IsName s (sec_Name t) = false) l) seen) as Hseen'.
  { eapply Forall_impl; [exact Hseen|]. intros x Hx. by apply Forall_cons in Hx as [_ Hx]. }
  pose proof (sec_lines_written s) as Hw. case_decide as Hws.
  - rewrite Hws in Hw. rewrite (decode_section_new _ _ _ (sec_Name s)), steps_section; [|done| |by destruct (sec_lines s) as [|[]]|apply events_of_section].
    + rewrite IH; [by rewrite <- app_assoc|done|done|]. apply Forall_app. split; [done|]. by constructor.
    + eapply Forall_impl; [exact Hseen|]. intros x Hx. by apply Forall_cons in Hx as [Hx _].
  - apply not_true_is_false in Hws. rewrite Hws in Hw. rewrite Hw. cbn [line_events foldl]. by apply IH.
Qed.

End Decoding.

(** Decoding what the encoder writes. *)
Lemma Decode_Encode `{FoldingLaws} `{GcfgLaws} cfg : Forall sec_ok (raw_Sections cfg) -> distinct_sections (raw_Sections cfg) ->
  Decode (Encode cfg) format_New = (None, setSections format_New (base.filter (fun s => written s = true) (raw_Sections cfg))).
Proof.
  intros Hok Hd. unfold Decode. rewrite Encode_lines, gcfg_reads; [|by apply Forall_flat_map, (Forall_impl _ _ _ Hok sec_lines_ok)|apply lines_start].
  change format_New with (setSections format_New []) at 1. by rewrite decode_sections.
Qed.

(** ** A folding and a reader of lines *)
#[local] Instance asciiFolding : Folding := fun s t => bool_decide (map lowerByte s = map lowerByte t).
#[local] Instance asciiFolding_laws : FoldingLaws.
Proof.
  split; unfold EqualFold, asciiFolding.
  - intros s. by apply bool_decide_eq_true_2.
  - intros s t Hst%bool_decide_eq_true_1. by apply bool_decide_eq_true_2.
  - intros s t u Hst%bool_decide_eq_true_1 Htu%bool_decide_eq_true_1. apply bool_decide_eq_true_2. congruence.
  - done.
Qed.

(** The text up to a quote, without its escapes, and what follows the quote. *)
Fixpoint unescape (escs : list (byte * byte)) (t : bytes) : option (bytes * bytes) :=
  match t with
  | [] => None
  | b :: t =>
    if bool_decide (b = x22) then Some ([], t)
    else if bool_decide (b = x5c) then
      match t with
      | [] => None
      | l :: t =>
        match find (fun p => bool_decide (p.1 = l)) escs, unescape escs t with
        | Some p, Some (v, r) => Some (p.2 :: v, r)
        | _, _ => None
        end
      end
    else match unescape escs t with Some (v, r) => Some (b :: v, r) | None => None end
  end.
Fixpoint takeIdent (t : bytes) : bytes * bytes :=
  match t with
  | [] => ([], [])
  | b :: r => if isIdent b then let (i, r) := takeIdent r in (b :: i, r) else ([], t)
  end.
Definition readLine (section sub : bytes) (t : bytes) : option Event :=
  match t with
  | x5b :: t =>
    match takeIdent t with
    | (name, [x5d]) => Some (MkEvent name [] [] [] true)
    | (name, x20 :: x22 :: t) =>
      match unescape (take 2 escapes) t with Some (s, [x5d]) => Some (MkEvent name s [] [] true) | _ => None end
    | _ => None
    end
  | x09 :: t =>
    match takeIdent t with
    | (key, x20 :: x3d :: x20 :: t) =>
      if HasPrefix t [x22] then
        match unescape escapes (drop 1 t) with Some (v, []) => Some (MkEvent section sub key v false) | _ => None end
      else Some (MkEvent section sub key t false)
    | _ => None
    end
  | _ => None
  end.
Fixpoint readLines (section sub : bytes) (ts : list bytes) : list Event * option error :=
  match ts with
  | [] | [[]] => ([], None)
  | t :: ts =>
    match readLine section sub t with
    | Some e => let (es, err) := readLines (ev_Section e) (ev_Subsection e) ts in (e :: es, err)
    | None => ([], Some ErrSyntax)
    end
  end.
#[local] Instance lineReader : Gcfg := fun b => readLines [] [] (Split b x0a).

Lemma takeIdent_app s r : Forall (fun b => isIdent b = true) s -> match r with b :: _ => isIdent b = false | [] => True end -> takeIdent (s ++ r) = (s, r).
Proof.
  intros Hs Hr. induction Hs as [|b s Hb _ IH]; cbn [app takeIdent]; [destruct r as [|b r]; [done|]; cbn [takeIdent]; by rewrite Hr|].
  by rewrite Hb, IH.
Qed.

Lemma unescape_char escs b t v r : b <> x22 -> b <> x5c -> unescape escs t = Some (v, r) -> unescape escs (b :: t) = Some (b :: v, r).
Proof. intros H1 H2 Ht. cbn [unescape]. by rewrite !bool_decide_eq_false_2, Ht. Qed.
Lemma unescape_escape escs l b t v r : find (fun p => bool_decide (p.1 = l)) escs = Some (l, b) -> unescape escs t = Some (v, r) ->
  unescape escs (x5c :: l :: t) = Some (b :: v, r).
Proof. intros Hf Ht. cbn [unescape]. by rewrite bool_decide_eq_false_2, bool_decide_eq_true_2, Hf, Ht. Qed.

Lemma unescape_sub t s r : sub_text t s -> unescape (take 2 escapes) (t ++ x22 :: r) = Some (s, r).
Proof.
  induction 1 as [|b t s _ H1 H2 _ IH|b t s Hb _ IH]; cbn [app]; [done|by apply unescape_char|].
  apply unescape_escape; [|done]. by destruct Hb as [-> | ->].
Qed.
Lemma unescape_quoted t v r : quoted_text t v -> unescape escapes (t ++ x22 :: r) = Some (v, r).
Proof.
  induction 1 as [|b t v _ H1 H2 _ IH|l b t v Hb _ IH]; cbn [app]; [done|by apply unescape_char|].
  apply unescape_escape; [|done]. unfold escapes in Hb. rewrite !elem_of_cons in Hb.
  destruct Hb as [Hb|[Hb|[Hb|[Hb|[Hb|Hb]]]]]; [by injection Hb as -> ->..|]. by apply not_elem_of_nil in Hb.
Qed.

(** A line without its end. *)
Definition line_body (l : Line) : bytes :=
  match l with
  | LSection name => [x5b] ++ name ++ [x5d]
  | LSubsection name text _ => [x5b] ++ name ++ [x20; x22] ++ text ++ [x22; x5d]
  | LVariable key text _ => [x09] ++ key ++ bs " = " ++ text
  end.
Lemma line_text_body l : line_text l = line_body l ++ [x0a].
Proof. destruct l; unfold line_text, line_body; app_norm; done. Qed.

Lemma ident_chars s : ident s -> Forall (fun b => isIdent b = true) s.
Proof. destruct s as [|b s]; [done|]. by intros [_ ?]. Qed.
Lemma printable_newline s : Forall printable s -> x0a ∉ s.
Proof. intros Hs Hin. rewrite Forall_forall in Hs. specialize (Hs _ Hin). by destruct Hs. Qed.
Lemma ident_newline s : ident s -> x0a ∉ s.
Proof. intros Hs%ident_chars Hin. rewrite Forall_forall in Hs. by specialize (Hs _ Hin). Qed.
Lemma sub_text_printable t s : sub_text t s -> Forall printable t.
Proof. induction 1 as [|b t s Hb _ _ _ IH|b t s Hb _ IH]; [constructor|by constructor|]. constructor; [done|]. constructor; [|done]. by destruct Hb as [-> | ->]. Qed.
Lemma quoted_text_printable t v : quoted_text t v -> Forall printable t.
Proof.
  induction 1 as [|b t v Hb _ _ _ IH|l b t v Hb _ IH]; [constructor|by constructor|]. constructor; [done|]. constructor; [|done].
  unfold escapes in Hb. rewrite !elem_of_cons in Hb.
  destruct Hb as [Hb|[Hb|[Hb|[Hb|[Hb|Hb]]]]]; [by injection Hb as -> ->..|]. by apply not_elem_of_nil in Hb.
Qed.
Lemma value_text_printable t v : value_text t v -> Forall printable t.
Proof.
  intros [[-> [Hv _]]|[q [-> Hq%quoted_text_printable]]].
  - eapply Forall_impl; [exact Hv|]. by intros b [? _].
  - cbn [app]. constructor; [done|]. apply Forall_app. split; [done|]. by repeat constructor.
Qed.

Lemma line_body_newline l : line_ok l -> x0a ∉ line_body l.
Proof.
  destruct l as [name|name text sub|key text value]; cbn [line_ok line_body].
  - intros H%ident_newline. set_solver.
  - intros [H%ident_newline Ht%sub_text_printable%printable_newline]. set_solver.
  - intros [H%ident_newline Ht%value_text_printable%printable_newline]. change (bs " = ") with [x20; x3d; x20]. set_solver.
Qed.

Lemma readLine_ok sec sub l : line_ok l ->
  readLine sec sub (line_body l) = match line_events sec sub [l] with e :: _ => Some e | [] => None end.
Proof.
  destruct l as [name|name text s|key text value]; cbn [line_ok line_body line_events].
  - intros Hn%ident_chars. cbn [app readLine]. by rewrite takeIdent_app.
  - intros [Hn%ident_chars Ht]. cbn [app readLine]. rewrite takeIdent_app by done. cbn [app]. by rewrite (unescape_sub _ s).
  - intros [Hn%ident_chars Hv]. change (bs " = ") with [x20; x3d; x20]. cbn [app readLine]. rewrite takeIdent_app by done.
    destruct Hv as [[-> (Hv & _)]|[q [-> Hq]]].
    + rewrite HasPrefix_byte. destruct value as [|b v]; [done|]. apply Forall_cons in Hv as [[_ Hb] _].
      rewrite bool_decide_eq_false_2; [done|]. intros ->. apply Hb. set_solver.
    + rewrite HasPrefix_byte. cbn [app]. rewrite bool_decide_eq_true_2 by done. rewrite skipn_cons, drop_0. by rewrite (unescape_quoted _ value).
Qed.

Lemma readLines_ok ls : forall sec sub, Forall line_ok ls -> readLines sec sub (Split (flat_map line_text ls) x0a) = (line_events sec sub ls, None).
Proof.
  induction ls as [|l ls IH]; intros sec sub Hls; [done|]. apply Forall_cons in Hls as [Hl Hls]. cbn [flat_map].
  rewrite line_text_body, <- app_assoc. cbn [app]. rewrite Split_cons by (by apply line_body_newline).
  pose proof (readLine_ok sec sub l Hl) as Hr. assert (line_body l <> []) as Hne by (by destruct l).
  cbn [readLines]. destruct (line_body l) as [|b0 t0] eqn:E; [done|].
  rewrite Hr. destruct l; cbn [line_events ev_Section ev_Subsection]; by rewrite IH.
Qed.

#[local] Instance lineReader_laws : GcfgLaws.
Proof. intros ls Hls _. unfold ReadWithCallback, lineReader. by apply readLines_ok. Qed.

(** ** The round trip *)

(** Decoding the text that the encoder writes for a configuration gives it back, whatever quotes, backslashes, comments
    and lines its values have, without the sections that have neither options nor subsections.  The names of its
    sections differ in more than case, and so do those of the subsections of a section, which are not empty. *)
Theorem config_text_roundtrip `{FoldingLaws} `{GcfgLaws} cfg :
  Forall sec_ok (raw_Sections cfg) -> distinct_sections (raw_Sections cfg) ->
  Decode (Encode cfg) format_New = (None, MkRaw None (base.filter (fun s => written s = true) (raw_Sections cfg)) []).
Proof. apply Decode_Encode. Qed.

#[global] Instance printable_dec b : Decision (printable b).
Proof. unfold printable. apply _. Defined.
#[global] Instance ident_dec s : Decision (ident s).
Proof. destruct s; unfold ident; apply _. Defined.
#[global] Instance value_ok_dec v : Decision (value_ok v).
Proof. unfold value_ok, value_byte. apply _. Defined.
#[global] Instance opt_ok_dec o : Decision (opt_ok o).
Proof. unfold opt_ok. apply _. Defined.

Definition demoConfig : RawConfig :=
  MkRaw None
    [MkSection (bs "core") [MkOption (bs "bare") (bs "false"); MkOption (bs "editor") (bs " vi # " ++ [x22; x5c; x0a])] [];
     MkSection (bs "user") [] [];
     MkSection (bs "remote") [] [MkSubsection (bs "my " ++ [x22] ++ bs "fork\") [MkOption (bs "url") (bs "https://example.org/a;b")];
                                 MkSubsection (bs "origin") []]] [].

Lemma config_text_roundtrip_witness :
  Decode (Encode demoConfig) format_New = (None, MkRaw None (base.filter (fun s => written s = true) (raw_Sections demoConfig)) []) /\
  length (raw_Sections (Decode (Encode demoConfig) format_New).2) = 2%nat.
Proof.
  split; [|by vm_compute]. apply (config_text_roundtrip demoConfig).
  - repeat apply Forall_cons_2; [..|constructor].
    + split; [by_decision|by_decision|constructor|constructor].
    + split; [by_decision|constructor|constructor|constructor].
    + split; [by_decision|constructor| |by_decision]. repeat apply Forall_cons_2; [..|constructor]; (split; [split; [done|by_decision]|by_decision]).
  - repeat constructor; by vm_compute.
Defined.

(** ** Configurations as what their sections hold

    What the operations on options, sections and configurations do to the values of every key, and to what every section
    holds, whatever the order of the sections is. *)
(** ** Filters *)
Lemma filter_in_ext {A} (P Q : A -> Prop) `{!forall x, Decision (P x), !forall x, Decision (Q x)} (l : list A) :
  (forall x, x ∈ l -> P x <-> Q x) -> base.filter P l = base.filter Q l.
Proof.
  induction l as [|x l IH]; intros Hl; [done|]. rewrite !filter_cons, IH by (intros; apply Hl; by right).
  specialize (Hl x (list_elem_of_here _ _)). repeat case_decide; tauto.
Qed.
Lemma filter_in_all {A} (P : A -> Prop) `{!forall x, Decision (P x)} (l : list A) : (forall x, x ∈ l -> P x) -> base.filter P l = l.
Proof. induction l as [|x l IH]; intros Hl; [done|]. rewrite filter_cons, decide_True by (apply Hl; by left). f_equal. apply IH. intros. apply Hl. by right. Qed.
Lemma filter_in_none {A} (P : A -> Prop) `{!forall x, Decision (P x)} (l : list A) : (forall x, x ∈ l -> ~ P x) -> base.filter P l = [].
Proof. induction l as [|x l IH]; intros Hl; [done|]. rewrite filter_cons, decide_False by (apply Hl; by left). apply IH. intros. apply Hl. by right. Qed.

(** ** Values of a key *)
Lemma contains_elem l x : contains l x = bool_decide (x ∈ l).
Proof.
  induction l as [|y l IH]; [symmetry; apply bool_decide_eq_false_2, not_elem_of_nil|]. cbn [contains]. rewrite IH. clear IH.
  destruct (decide (y = x)) as [->|Hy].
  - rewrite bool_decide_eq_true_2 by done. symmetry. apply bool_decide_eq_true_2. by left.
  - rewrite bool_decide_eq_false_2 by done. apply bool_decide_ext. rewrite elem_of_cons. naive_solver.
Qed.

Section Views.
Context `{FoldingLaws}.

Lemma IsKey_cong o k k' : EqualFold k k' = true -> IsKey o k = IsKey o k'.
Proof.
  intros Hk. unfold IsKey. destruct (EqualFold (opt_Key o) k') eqn:E'.
  - eapply EqualFold_trans; [exact E'|]. by apply EqualFold_sym.
  - destruct (EqualFold (opt_Key o) k) eqn:E; [|done]. rewrite <- E'. symmetry. by eapply EqualFold_trans.
Qed.

Lemma GetAll_app a b k : Options_GetAll (a ++ b) k = Options_GetAll a k ++ Options_GetAll b k.
Proof. induction a as [|o a IH]; [done|]. cbn [app Options_GetAll]. rewrite IH. by destruct (IsKey o k). Qed.

(** [Get] gives the last value. *)
Lemma Get_GetAll opts k : Options_Get opts k = default [] (last (Options_GetAll opts k)).
Proof.
  unfold Options_Get. induction opts as [|o opts IH] using rev_ind; [done|].
  rewrite lastIndex_snoc, GetAll_app. cbn [Options_GetAll]. destruct (IsKey o k) eqn:E.
  - rewrite lookup_app_r, Nat.sub_diag by lia. by rewrite last_snoc.
  - rewrite app_nil_r, <- IH. destruct (lastIndex (fun o => IsKey o k) opts) as [i|] eqn:Ei; [|done].
    rewrite lookup_app_l; [done|]. clear IH E. revert i Ei. induction opts as [|x opts IH]; intros i Ei; [done|]. cbn [lastIndex length] in *.
    destruct (lastIndex _ opts) as [j|]; [injection Ei as <-; specialize (IH _ eq_refl); lia|].
    destruct (IsKey x k); [injection Ei as <-; lia|done].
Qed.

Lemma GetAll_without opts k k' : Options_GetAll (withoutOption opts k) k' = if EqualFold k k' then [] else Options_GetAll opts k'.
Proof.
  induction opts as [|o opts IH]; cbn [withoutOption Options_GetAll]; [by destruct (EqualFold k k')|].
  destruct (IsKey o k) eqn:Ek; cbn [negb Options_GetAll]; rewrite IH; destruct (EqualFold k k') eqn:E; try done.
  - destruct (IsKey o k') eqn:Ek'; [|done]. exfalso. unfold IsKey in *. apply not_true_iff_false in E. apply E.
    eapply EqualFold_trans; [|exact Ek']. by apply EqualFold_sym.
  - by rewrite <- (IsKey_cong o k k'), Ek.
Qed.

(** The options [withSettedOption] keeps and adds. *)
Lemma settedKept_eq opts k vs : forall result added, settedKept opts k vs result added =
  (result ++ base.filter (fun o => IsKey o k = false \/ opt_Value o ∈ vs) opts,
   added ++ base.filter (fun v => v ∈ vs) (Options_GetAll opts k)).
Proof.
  induction opts as [|o opts IH]; intros result added; cbn [settedKept Options_GetAll]; [by rewrite !filter_nil, !app_nil_r|].
  rewrite contains_elem, filter_cons. destruct (IsKey o k) eqn:E; cbn [negb].
  - rewrite filter_cons. case_bool_decide as Hv.
    + rewrite IH. rewrite decide_True by (by right). rewrite (decide_True _ _ Hv). by rewrite <- !app_assoc.
    + rewrite IH. rewrite decide_False by naive_solver. by rewrite (decide_False _ _ Hv).
  - rewrite IH. rewrite decide_True by (by left). by rewrite <- app_assoc.
Qed.
Lemma settedNew_eq vs added k : forall result,
  settedNew vs added k result = result ++ map (MkOption k) (base.filter (fun v => v ∉ added) vs).
Proof.
  induction vs as [|v vs IH]; intros result; cbn [settedNew]; [by rewrite app_nil_r|]. rewrite contains_elem, filter_cons.
  case_bool_decide as Hv; [rewrite IH; by rewrite decide_False by tauto|].
  rewrite IH. rewrite decide_True by done. unfold withAddedOption. by rewrite <- app_assoc.
Qed.
Lemma withSetted_eq opts k vs : withSettedOption opts k vs =
  base.filter (fun o => IsKey o k = false \/ opt_Value o ∈ vs) opts ++
  map (MkOption k) (base.filter (fun v => v ∉ base.filter (fun v => v ∈ vs) (Options_GetAll opts k)) vs).
Proof. unfold withSettedOption. rewrite settedKept_eq. cbn [app]. apply settedNew_eq. Qed.

Lemma GetAll_made k k' vs : Options_GetAll (map (MkOption k) vs) k' = if EqualFold k k' then vs else [].
Proof.
  induction vs as [|v vs IH]; cbn [map Options_GetAll]; [by destruct (EqualFold k k')|]. rewrite IH. unfold IsKey. cbn [opt_Key opt_Value].
  by destruct (EqualFold k k').
Qed.
Lemma GetAll_kept_other opts k k' (vs : list bytes) : EqualFold k k' = false ->
  Options_GetAll (base.filter (fun o => IsKey o k = false \/ opt_Value o ∈ vs) opts) k' = Options_GetAll opts k'.
Proof.
  intros Hk. induction opts as [|o opts IH]; [done|]. rewrite filter_cons. cbn [Options_GetAll]. case_decide as Ho.
  - cbn [Options_GetAll]. by rewrite IH.
  - destruct (IsKey o k') eqn:E; [|done]. exfalso. apply Ho. left. destruct (IsKey o k) eqn:E2; [|done].
    apply not_true_iff_false in Hk. destruct Hk. unfold IsKey in *. eapply EqualFold_trans; [|exact E]. by apply EqualFold_sym.
Qed.
Lemma GetAll_kept opts k (vs : list bytes) :
  Options_GetAll (base.filter (fun o => IsKey o k = false \/ opt_Value o ∈ vs) opts) k = base.filter (fun v => v ∈ vs) (Options_GetAll opts k).
Proof.
  induction opts as [|o opts IH]; [done|]. rewrite filter_cons. cbn [Options_GetAll]. destruct (IsKey o k) eqn:E.
  - rewrite filter_cons. case_decide as Ho; cbn [Options_GetAll]; rewrite ?E, IH.
    + rewrite decide_True; [done|]. by destruct Ho.
    + rewrite decide_False; [done|]. naive_solver.
  - rewrite decide_True by (by left). cbn [Options_GetAll]. by rewrite E, IH.
Qed.

Lemma GetAll_setted_other opts k k' vs : EqualFold k k' = false -> Options_GetAll (withSettedOption opts k vs) k' = Options_GetAll opts k'.
Proof. intros Hk. rewrite withSetted_eq, GetAll_app, GetAll_kept_other, GetAll_made, Hk by done. apply app_nil_r. Qed.

(** The values of a key that is set: first those it had already, in their order, then the new ones. *)
Lemma GetAll_setted opts k vs : Options_GetAll (withSettedOption opts k vs) k =
  base.filter (fun v => v ∈ vs) (Options_GetAll opts k) ++ base.filter (fun v => v ∉ Options_GetAll opts k) vs.
Proof.
  rewrite withSetted_eq, GetAll_app, GetAll_kept, GetAll_made, EqualFold_refl. f_equal.
  apply filter_in_ext. intros v Hv. rewrite list_elem_of_filter. naive_solver.
Qed.

Lemma Get_setted opts k v : Options_Get (withSettedOption opts k [v]) k = v.
Proof.
  rewrite Get_GetAll, GetAll_setted. rewrite filter_cons, filter_nil. case_decide as Hv.
  - by rewrite last_snoc.
  - rewrite app_nil_r. clear -Hv. induction (Options_GetAll opts k) as [|x l IH] using rev_ind; [by apply not_elem_of_nil in Hv|].
    rewrite filter_app, filter_cons, filter_nil. case_decide as Hx.
    + rewrite last_snoc. set_solver.
    + rewrite app_nil_r. apply IH. apply elem_of_app in Hv as [|Hv]; [done|]. set_solver.
Qed.
Lemma Get_setted_other opts k k' vs : EqualFold k k' = false -> Options_Get (withSettedOption opts k vs) k' = Options_Get opts k'.
Proof. intros Hk. by rewrite !Get_GetAll, GetAll_setted_other. Qed.
Lemma GetAll_setted_new opts k vs : Options_GetAll opts k = [] -> Options_GetAll (withSettedOption opts k vs) k = vs.
Proof. intros Hk. rewrite GetAll_setted, Hk. cbn [app]. rewrite filter_nil. cbn [app]. apply filter_in_all. intros v _. apply not_elem_of_nil. Qed.
Lemma GetAll_setted_same opts k vs : Options_GetAll opts k = vs -> Options_GetAll (withSettedOption opts k vs) k = vs.
Proof.
  intros Hk. rewrite GetAll_setted, Hk. rewrite (filter_in_all _ vs) by done.
  assert (base.filter (fun v => v ∉ vs) vs = []) as ->; [|apply app_nil_r].
  apply filter_in_none. intros v Hv Hn. done.
Qed.

(** ** What a section holds *)
Definition secOf (raw : RawConfig) (n : bytes) : ConfigSection := (theSection raw n).1.
Definition optsOf (raw : RawConfig) (n : bytes) : Options := sec_Options (secOf raw n).
Definition subsOf (raw : RawConfig) (n : bytes) : list Subsection := sec_Subsections (secOf raw n).

Lemma EqualFold_cong s n m : EqualFold n m = true -> EqualFold s n = EqualFold s m.
Proof. intros Hnm. apply (IsKey_cong (MkOption s [])). done. Qed.
Lemma EqualFold_comm s t : EqualFold s t = EqualFold t s.
Proof. apply eq_true_iff_eq. split; apply EqualFold_sym. Qed.

Definition lastMatch (l : list ConfigSection) (n : bytes) : option ConfigSection :=
  match lastIndex (fun s => Section_IsName s n) l with Some i => l !! i | None => None end.

Lemma lastIndex_bound {A} (p : A -> bool) l i : lastIndex p l = Some i -> exists x, l !! i = Some x /\ p x = true.
Proof.
  revert i. induction l as [|x l IH]; intros i Hi; [done|]. cbn [lastIndex] in Hi. destruct (lastIndex p l) as [j|].
  - injection Hi as <-. by apply IH.
  - destruct (p x) eqn:E; [injection Hi as <-; by exists x|done].
Qed.
Lemma lastIndex_ext {A} (p q : A -> bool) l : (forall x, p x = q x) -> lastIndex p l = lastIndex q l.
Proof. intros Hpq. induction l as [|x l IH]; [done|]. cbn [lastIndex]. by rewrite IH, Hpq. Qed.
Lemma lastIndex_alter {A} (p : A -> bool) f i : forall l, (forall x, p (f x) = p x) -> lastIndex p (alter f i l) = lastIndex p l.
Proof.
  induction i as [|i IH]; intros [|x l] Hf; try done.
  - change (alter f 0%nat (x :: l)) with (f x :: l). cbn [lastIndex]. by rewrite Hf.
  - change (alter f (S i) (x :: l)) with (x :: alter f i l). cbn [lastIndex]. by rewrite IH.
Qed.

Lemma lastMatch_snoc l s n : lastMatch (l ++ [s]) n = if Section_IsName s n then Some s else lastMatch l n.
Proof.
  unfold lastMatch. rewrite lastIndex_snoc. destruct (Section_IsName s n).
  - by rewrite lookup_app_r, Nat.sub_diag by lia.
  - destruct (lastIndex _ l) as [i|] eqn:E; [|done]. apply lastIndex_bound in E as (x & Hx & _).
    rewrite lookup_app_l; [done|]. by apply lookup_lt_Some in Hx.
Qed.
Lemma lastMatch_none l n : lastMatch l n = None <-> Forall (fun s => Section_IsName s n = false) l.
Proof.
  induction l as [|s l IH] using rev_ind; [done|]. rewrite lastMatch_snoc, Forall_app, Forall_singleton.
  destruct (Section_IsName s n); [|naive_solver]. split; [done|]. by intros [_ ?].
Qed.
Lemma lastMatch_index l n : match lastIndex (fun s => Section_IsName s n) l with
  | Some i => exists s, l !! i = Some s /\ lastMatch l n = Some s /\ Section_IsName s n = true
  | None => lastMatch l n = None end.
Proof.
  unfold lastMatch. destruct (lastIndex _ l) as [i|] eqn:E; [|done]. apply lastIndex_bound in E as (x & Hx & Hp). by exists x.
Qed.

Lemma secOf_match raw n : secOf raw n = default (MkSection n [] []) (lastMatch (raw_Sections raw) n).
Proof.
  unfold secOf, theSection, Config_Section. pose proof (lastMatch_index (raw_Sections raw) n) as Hi.
  destruct (lastIndex _ _) as [i|]; [destruct Hi as (s & Hs & -> & _); by rewrite Hs|]. rewrite Hi. cbn [fst raw_Sections setSections].
  by rewrite lookup_app_r, Nat.sub_diag by lia.
Qed.
Lemma sections_after_theSection raw n : raw_Sections (theSection raw n).2 =
  match lastMatch (raw_Sections raw) n with Some _ => raw_Sections raw | None => raw_Sections raw ++ [MkSection n [] []] end.
Proof.
  unfold theSection, Config_Section. pose proof (lastMatch_index (raw_Sections raw) n) as Hi.
  destruct (lastIndex _ _) as [i|]; [by destruct Hi as (s & _ & -> & _)|]. by rewrite Hi.
Qed.

(** What a section holds is the same after a section is looked up, which may add an empty one. *)
Definition held (s : ConfigSection) : Options * list Subsection := (sec_Options s, sec_Subsections s).
Lemma held_theSection raw n m : held (secOf (theSection raw n).2 m) = held (secOf raw m).
Proof.
  rewrite !secOf_match, sections_after_theSection. destruct (lastMatch (raw_Sections raw) n) eqn:E; [done|].
  rewrite lastMatch_snoc. unfold Section_IsName at 1. cbn [sec_Name]. destruct (EqualFold n m) eqn:Enm; [|done].
  assert (lastMatch (raw_Sections raw) m = None) as ->; [|done]. apply lastMatch_none. apply lastMatch_none in E.
  eapply Forall_impl; [exact E|]. intros s Hs. unfold Section_IsName in *. by rewrite <- (EqualFold_cong _ n).
Qed.
Lemma optsOf_theSection raw n m : optsOf (theSection raw n).2 m = optsOf raw m.
Proof. exact (f_equal fst (held_theSection raw n m)). Qed.
Lemma subsOf_theSection raw n m : subsOf (theSection raw n).2 m = subsOf raw m.
Proof. exact (f_equal snd (held_theSection raw n m)). Qed.

(** What is done to a section: it keeps its name, and what it holds then depends on what it held. *)
Record on_held (f : ConfigSection -> ConfigSection) : Prop := {
  on_held_name s : sec_Name (f s) = sec_Name s;
  on_held_same s t : held s = held t -> held (f s) = held (f t) }.

Lemma sections_inSection raw n f : raw_Sections (inSection raw n f) =
  match lastIndex (fun s => Section_IsName s n) (raw_Sections raw) with
  | Some i => alter f i (raw_Sections raw)
  | None => raw_Sections raw ++ [f (MkSection n [] [])]
  end.
Proof.
  unfold inSection, Config_Section. destruct (lastIndex _ _) as [i|]; [done|]. unfold onSection. cbn [raw_Sections setSections].
  by rewrite alter_last.
Qed.

Lemma held_inSection raw n f m : on_held f ->
  held (secOf (inSection raw n f) m) = if EqualFold n m then held (f (secOf raw n)) else held (secOf raw m).
Proof.
  intros [Hname Hsame]. rewrite !secOf_match, sections_inSection. pose proof (lastMatch_index (raw_Sections raw) n) as Hi.
  destruct (lastIndex _ _) as [i|] eqn:Ei.
  - destruct Hi as (s & Hs & Hn & Hns). rewrite Hn. unfold lastMatch.
    rewrite lastIndex_alter by (intros x; unfold Section_IsName; by rewrite Hname).
    destruct (EqualFold n m) eqn:Enm.
    + rewrite (lastIndex_ext _ (fun s => Section_IsName s n)) by (intros x; unfold Section_IsName; symmetry; by apply EqualFold_cong).
      rewrite Ei, list_lookup_alter_eq, Hs. done.
    + destruct (lastIndex (fun s => Section_IsName s m) (raw_Sections raw)) as [j|] eqn:Ej; [|done].
      assert (i <> j); [|by rewrite list_lookup_alter_ne]. intros ->. apply lastIndex_bound in Ej as (t & Ht & Htm).
      rewrite Hs in Ht. injection Ht as <-. apply not_true_iff_false in Enm. apply Enm. unfold Section_IsName in *.
      eapply EqualFold_trans; [|exact Htm]. by apply EqualFold_sym.
  - rewrite lastMatch_snoc, Hi. unfold Section_IsName at 1. rewrite Hname. cbn [sec_Name default]. by destruct (EqualFold n m).
Qed.

Lemma theSection_inSection raw n f : inSection (theSection raw n).2 n f = inSection raw n f.
Proof.
  unfold theSection, inSection, Config_Section. destruct (lastIndex _ (raw_Sections raw)) as [i|] eqn:E; cbn [snd]; [by rewrite E|].
  cbn [setSections raw_Sections]. rewrite lastIndex_snoc. unfold Section_IsName at 1. cbn [sec_Name]. by rewrite EqualFold_refl.
Qed.

(** Sections that are not written hold nothing. *)
Lemma held_written l n : distinct_sections l ->
  held (secOf (setSections format_New (base.filter (fun s => written s = true) l)) n) = held (secOf (setSections format_New l) n).
Proof.
  rewrite !secOf_match. cbn [setSections raw_Sections]. induction l as [|s l IH] using rev_ind; intros Hd; [done|].
  assert (distinct_sections l /\ Forall (fun t => Section_IsName t (sec_Name s) = false) l) as [Hd' Hs].
  { clear IH. unfold distinct_sections in *. induction l as [|t l IHl]; [by split; constructor|]. inversion Hd as [|? ? Ht Hd2]; subst.
    apply Forall_app in Ht as [Ht Hts]. apply Forall_inv in Hts. destruct (IHl Hd2) as [H1 H2]. split; constructor; done. }
  rewrite filter_app, filter_cons, filter_nil, lastMatch_snoc. case_decide as Hw.
  - rewrite lastMatch_snoc. destruct (Section_IsName s n); [done|]. by apply IH.
  - rewrite app_nil_r. destruct (Section_IsName s n) eqn:E; [|by apply IH]. rewrite IH by done.
    assert (lastMatch l n = None) as ->.
    { apply lastMatch_none. eapply Forall_impl; [exact Hs|]. intros t Ht. unfold Section_IsName in *. by rewrite <- (EqualFold_cong _ (sec_Name s)). }
    unfold written in Hw. destruct s as [a [|o os] [|ss sss]]; cbn in *; done.
Qed.

End Views.
