(* ===== verification/Config.v ===== *)
(** * config: the configuration of a repository

    Model of config.go, branch.go, url.go and modules.go of config, and of plumbing/protocol/version.go.  A map of Go is
    [None] when it is nil; the order in which a map is ranged over is a parameter.  Remotes, branches, rules and submodules
    keep their raw subsection, a pointer that they share with the raw configuration: that one is read when the entity is
    unmarshalled and replaced when it is marshalled, so that each can have its own value.  (They differ only for an entity
    whose name is not its key in the map, which [Validate] refuses.) *)
From S2P Require Import Prelude GoStrings GoPath Strconv ObjectID Reference RefSpec Packp ConfigFormat.

(** ** plumbing/protocol/version.go *)
Definition V0 : Z := 0.
Definition V1 : Z := 1.
Definition V2 : Z := 2.
Definition Undefined : Z := -1.
Definition Version_String (v : Z) : bytes :=
  if v =? V0 then bs "0" else if v =? V1 then bs "1" else if v =? V2 then bs "2" else [].
Definition protocol_Parse (v : bytes) : res Z :=
  if bool_decide (v = bs "0") then Ok V0
  else if bool_decide (v = bs "1") then Ok V1
  else if bool_decide (v = bs "2") then Ok V2
  else Err ErrUnknownProtocol.

(** ** Maps of Go *)
Abbreviation gomap V := (option (gmap bytes V)) (only parsing).
Definition map_get {V} (m : gomap V) (k : bytes) : option V := match m with Some m => m !! k | None => None end.
Definition map_set {V} (m : gomap V) (k : bytes) (v : V) : res (gomap V) :=
  match m with Some m => Ok (Some (<[k := v]> m)) | None => Panic end.
(** The order in which a loop visits the entries of a map: some order of all of them. *)
Class MapOrder := mapOrder : forall V, gmap bytes V -> list (bytes * V).
Class MapOrderLaws `{MapOrder} := mapOrder_perm V (m : gmap bytes V) : mapOrder V m ≡ₚ map_to_list m.
Definition map_range `{MapOrder} {V} (m : gomap V) : list (bytes * V) := match m with Some m => mapOrder V m | None => [] end.

(** ** The names of sections and options *)
Definition remoteSection : bytes := bs "remote".
Definition submoduleSection : bytes := bs "submodule".
Definition branchSection : bytes := bs "branch".
Definition coreSection : bytes := bs "core".
Definition packSection : bytes := bs "pack".
Definition userSection : bytes := bs "user".
Definition authorSection : bytes := bs "author".
Definition committerSection : bytes := bs "committer".
Definition initSection : bytes := bs "init".
Definition urlSection : bytes := bs "url".
Definition extensionsSection : bytes := bs "extensions".
Definition protocolSection : bytes := bs "protocol".
Definition fetchKey : bytes := bs "fetch".
Definition urlKey : bytes := bs "url".
Definition pushurlKey : bytes := bs "pushurl".
Definition bareKey : bytes := bs "bare".
Definition worktreeKey : bytes := bs "worktree".
Definition commentCharKey : bytes := bs "commentChar".
Definition windowKey : bytes := bs "window".
Definition mergeKey : bytes := bs "merge".
Definition rebaseKey : bytes := bs "rebase".
Definition nameKey : bytes := bs "name".
Definition emailKey : bytes := bs "email".
Definition descriptionKey : bytes := bs "description".
Definition defaultBranchKey : bytes := bs "defaultBranch".
Definition repositoryFormatVersionKey : bytes := bs "repositoryformatversion".
Definition objectFormat : bytes := bs "objectformat".
Definition mirrorKey : bytes := bs "mirror".
Definition versionKey : bytes := bs "version".
Definition autoCRLFKey : bytes := bs "autocrlf".
Definition insteadOfKey : bytes := bs "insteadOf".
Definition pathKey : bytes := bs "path".
Definition branchKey : bytes := bs "branch".
Definition DefaultPackWindow : Z := 10.
Definition DefaultProtocolVersion : Z := V0.
Definition Version_1 : bytes := bs "1".
Definition DefaultFetchRefSpec (name : bytes) : RefSpec := bs "+refs/heads/*:refs/remotes/" ++ name ++ bs "/*".
Definition FormatBool (b : bool) : bytes := if b then bs "true" else bs "false".

(** ** url.go *)
Record URL := MkURL { url_Name : bytes; url_InsteadOfs : list bytes; url_raw : option Subsection }.

Definition URL_Validate (b : URL) : option error := if len (url_InsteadOfs b) =? 0 then Some errURLEmptyInsteadOf else None.

Section Entities.
Context `{Folding}.

Definition URL_unmarshal (s : Subsection) : URL := MkURL (sub_Name s) (Subsection_OptionAll s insteadOfKey) (Some s).
Definition URL_marshal (u : URL) : URL * Subsection :=
  let raw := default (MkSubsection [] []) (url_raw u) in
  let raw := MkSubsection (url_Name u) (sub_Options raw) in
  let raw := Subsection_SetOption raw insteadOfKey (url_InsteadOfs u) in
  (MkURL (url_Name u) (url_InsteadOfs u) (Some raw), raw).

(** The inner loop of [findLongestInsteadOfMatch], and the outer one. *)
Fixpoint longestOf (remoteURL : bytes) (u : URL) (insteadOfs : list bytes) (longest : option (URL * Z)) : option (URL * Z) :=
  match insteadOfs with
  | [] => longest
  | current :: insteadOfs =>
    if negb (HasPrefix remoteURL current) then longestOf remoteURL u insteadOfs longest
    else
      match longest with
      | None => longestOf remoteURL u insteadOfs (Some (u, len current))
      | Some (_, n) => longestOf remoteURL u insteadOfs (if n <? len current then Some (u, len current) else longest)
      end
  end.
Definition findLongestInsteadOfMatch `{MapOrder} (remoteURL : bytes) (urls : gomap URL) : option URL :=
  option_map fst (foldl (fun longest p => longestOf remoteURL p.2 (url_InsteadOfs p.2) longest) None (map_range urls)).

Fixpoint applyInsteadOf_loop (u : URL) (url : bytes) (insteadOfs : list bytes) : bytes :=
  match insteadOfs with
  | [] => url
  | j :: insteadOfs => if HasPrefix url j then url_Name u ++ drop (length j) url else applyInsteadOf_loop u url insteadOfs
  end.
Definition ApplyInsteadOf (u : URL) (url : bytes) : bytes := applyInsteadOf_loop u url (url_InsteadOfs u).

(** ** branch.go *)
Record Branch := MkBranch { br_Name : bytes; br_Remote : bytes; br_Merge : ReferenceName; br_Rebase : bytes; br_Description : bytes; br_raw : option Subsection }.

Definition Branch_Validate (b : Branch) : option error :=
  if bool_decide (br_Name b = []) then Some errBranchEmptyName
  else if negb (bool_decide (br_Merge b = [])) && negb (IsBranch (br_Merge b)) then Some errBranchInvalidMerge
  else if negb (bool_decide (br_Rebase b = [])) && negb (bool_decide (br_Rebase b = bs "true")) &&
          negb (bool_decide (br_Rebase b = bs "interactive")) && negb (bool_decide (br_Rebase b = bs "false")) then Some errBranchInvalidRebase
  else Validate (NewBranchReferenceName (br_Name b)).

(** [strings.ReplaceAll] of a new line by a backslash and n, and back. *)
Definition quoteDescription (desc : bytes) : bytes := flat_map (fun b => if bool_decide (b = x0a) then [x5c; x6e] else [b]) desc.
Fixpoint unquoteDescription (desc : bytes) : bytes :=
  match desc with
  | [] => []
  | b :: desc' =>
    match desc' with
    | c :: desc'' => if bool_decide (b = x5c) && bool_decide (c = x6e) then x0a :: unquoteDescription desc'' else b :: unquoteDescription desc'
    | [] => [b]
    end
  end.

(** An option that is set to a value, or removed when the value is empty. *)
Definition setOrRemove (raw : Subsection) (key value text : bytes) : Subsection :=
  if bool_decide (value = []) then Subsection_RemoveOption raw key else Subsection_SetOption raw key [text].
Definition Branch_marshal (b : Branch) : Branch * Subsection :=
  let raw := default (MkSubsection [] []) (br_raw b) in
  let raw := MkSubsection (br_Name b) (sub_Options raw) in
  let raw := setOrRemove raw remoteSection (br_Remote b) (br_Remote b) in
  let raw := setOrRemove raw mergeKey (br_Merge b) (br_Merge b) in
  let raw := setOrRemove raw rebaseKey (br_Rebase b) (br_Rebase b) in
  let raw := setOrRemove raw descriptionKey (br_Description b) (quoteDescription (br_Description b)) in
  (MkBranch (br_Name b) (br_Remote b) (br_Merge b) (br_Rebase b) (br_Description b) (Some raw), raw).

Definition Branch_unmarshal (s : Subsection) : res Branch :=
  let b := MkBranch (sub_Name s) (Options_Get (sub_Options s) remoteSection) (Options_Get (sub_Options s) mergeKey)
             (Options_Get (sub_Options s) rebaseKey) (unquoteDescription (Options_Get (sub_Options s) descriptionKey)) (Some s) in
  match Branch_Validate b with Some e => Err e | None => Ok b end.

(** ** modules.go *)
Record Submodule := MkSubmodule { mod_Name : bytes; mod_Path : bytes; mod_URL : bytes; mod_Branch : bytes; mod_raw : option Subsection }.

(** The regular expression [dotdotPath], tried at every position; [start] tells whether its first group matches there. *)
Definition pathSep (b : byte) : bool := bool_decide (b = x2f) || bool_decide (b = x5c).
Definition dotdotHere (s : bytes) : bool :=
  match s with
  | a :: b :: rest => bool_decide (a = x2e) && bool_decide (b = x2e) && match rest with [] => true | c :: _ => pathSep c end
  | _ => false
  end.
Fixpoint dotdot_loop (start : bool) (s : bytes) : bool :=
  start && dotdotHere s || match s with [] => false | b :: s => dotdot_loop (pathSep b) s end.
Definition dotdotPath (s : bytes) : bool := dotdot_loop true s.

Definition Submodule_Validate (m : Submodule) : option error :=
  if bool_decide (mod_Path m = []) then Some ErrModuleEmptyPath
  else if bool_decide (mod_URL m = []) then Some ErrModuleEmptyURL
  else if dotdotPath (mod_Path m) then Some ErrModuleBadPath
  else None.

Definition Submodule_unmarshal (s : Subsection) : Submodule :=
  MkSubmodule (sub_Name s) (Subsection_Option s pathKey) (Subsection_Option s urlKey) (Subsection_Option s branchKey) (Some s).
Definition Submodule_marshal (m : Submodule) : Submodule * Subsection :=
  let raw := default (MkSubsection [] []) (mod_raw m) in
  let name := if bool_decide (mod_Name m = []) then mod_Path m else mod_Name m in
  let raw := MkSubsection name (sub_Options raw) in
  let raw := Subsection_SetOption raw pathKey [mod_Path m] in
  let raw := Subsection_SetOption raw urlKey [mod_URL m] in
  let raw := if bool_decide (mod_Branch m = []) then raw else Subsection_SetOption raw branchKey [mod_Branch m] in
  (MkSubmodule (mod_Name m) (mod_Path m) (mod_URL m) (mod_Branch m) (Some raw), raw).

(** ** [RemoteConfig] of config.go *)
Record RemoteConfig := MkRemote { rc_Name : bytes; rc_URLs : list bytes; rc_Mirror : bool; rc_insteadOfRulesApplied : bool;
  rc_originalURLs : list bytes; rc_Fetch : list RefSpec; rc_raw : option Subsection }.

Fixpoint validateFetch (l : list RefSpec) : res unit :=
  match l with [] => Ok tt | r :: l => let* _ := RefSpec_Validate r in validateFetch l end.
Definition setFetch (c : RemoteConfig) (l : list RefSpec) : RemoteConfig :=
  MkRemote (rc_Name c) (rc_URLs c) (rc_Mirror c) (rc_insteadOfRulesApplied c) (rc_originalURLs c) l (rc_raw c).
Definition RemoteConfig_Validate (c : RemoteConfig) : res unit * RemoteConfig :=
  if bool_decide (rc_Name c = []) then (Err ErrRemoteConfigEmptyName, c)
  else if len (rc_URLs c) =? 0 then (Err ErrRemoteConfigEmptyURL, c)
  else
    match validateFetch (rc_Fetch c) with
    | Ok _ =>
      let c := if len (rc_Fetch c) =? 0 then setFetch c [DefaultFetchRefSpec (rc_Name c)] else c in
      (match Validate (NewRemoteHEADReferenceName (rc_Name c)) with Some e => Err e | None => Ok tt end, c)
    | e => (e, c)
    end.

Definition RemoteConfig_unmarshal (s : Subsection) : res RemoteConfig :=
  let fetch := Options_GetAll (sub_Options s) fetchKey in
  let* _ := validateFetch fetch in
  Ok (MkRemote (sub_Name s) (Options_GetAll (sub_Options s) urlKey ++ Options_GetAll (sub_Options s) pushurlKey)
        (bool_decide (Options_Get (sub_Options s) mirrorKey = bs "true")) false [] fetch (Some s)).

Definition setRemoteRaw (c : RemoteConfig) (raw : Subsection) : RemoteConfig :=
  MkRemote (rc_Name c) (rc_URLs c) (rc_Mirror c) (rc_insteadOfRulesApplied c) (rc_originalURLs c) (rc_Fetch c) (Some raw).
Definition RemoteConfig_marshal (c : RemoteConfig) : RemoteConfig * Subsection :=
  let raw := default (MkSubsection [] []) (rc_raw c) in
  let raw := MkSubsection (rc_Name c) (sub_Options raw) in
  let raw :=
    if len (rc_URLs c) =? 0 then Subsection_RemoveOption raw urlKey
    else Subsection_SetOption raw urlKey (if rc_insteadOfRulesApplied c then rc_originalURLs c else rc_URLs c) in
  let raw := if len (rc_Fetch c) =? 0 then Subsection_RemoveOption raw fetchKey else Subsection_SetOption raw fetchKey (rc_Fetch c) in
  let raw := if rc_Mirror c then Subsection_SetOption raw mirrorKey [FormatBool (rc_Mirror c)] else raw in
  (setRemoteRaw c raw, raw).

(** The loop of [applyURLRules] over the URLs, with whether a rule was applied. *)
Fixpoint applyRules_loop `{MapOrder} (urlRules : gomap URL) (urls : list bytes) (applied : bool) : list bytes * bool :=
  match urls with
  | [] => ([], applied)
  | url :: urls =>
    let '(url, applied) :=
      match findLongestInsteadOfMatch url urlRules with
      | Some rule => (ApplyInsteadOf rule url, true)
      | None => (url, applied)
      end in
    let (urls, applied) := applyRules_loop urlRules urls applied in (url :: urls, applied)
  end.
Definition applyURLRules `{MapOrder} (urlRules : gomap URL) (c : RemoteConfig) : RemoteConfig :=
  let (urls, applied) := applyRules_loop urlRules (rc_URLs c) (rc_insteadOfRulesApplied c) in
  MkRemote (rc_Name c) urls (rc_Mirror c) applied (if applied then rc_URLs c else rc_originalURLs c) (rc_Fetch c) (rc_raw c).

End Entities.

(** ** [Config] of config.go *)
Record CoreConfig := MkCore { core_IsBare : bool; core_Worktree : bytes; core_CommentChar : bytes; core_RepositoryFormatVersion : bytes; core_AutoCRLF : bytes }.
Record Person := MkPerson { person_Name : bytes; person_Email : bytes }.
Record Config := MkConfig { Core : CoreConfig; User : Person; Author : Person; Committer : Person; Pack_Window : Z; Init_DefaultBranch : bytes;
  Extensions_ObjectFormat : ObjectFormat; Protocol_Version : Z; Remotes : gomap RemoteConfig; Submodules : gomap Submodule;
  Branches : gomap Branch; URLs : gomap URL; Raw : option RawConfig }.

Definition emptyPerson : Person := MkPerson [] [].
Definition zeroConfig : Config :=
  MkConfig (MkCore false [] [] [] []) emptyPerson emptyPerson emptyPerson 0 [] SHA1 0 None None None None None.
Definition NewConfig : Config :=
  MkConfig (MkCore false [] [] [] []) emptyPerson emptyPerson emptyPerson DefaultPackWindow [] SHA1 DefaultProtocolVersion
    (Some ∅) (Some ∅) (Some ∅) (Some ∅) (Some format_New).

(** Assignments to the fields. *)
Definition setCore (c : Config) (x : CoreConfig) : Config :=
  MkConfig x (User c) (Author c) (Committer c) (Pack_Window c) (Init_DefaultBranch c) (Extensions_ObjectFormat c) (Protocol_Version c)
    (Remotes c) (Submodules c) (Branches c) (URLs c) (Raw c).
Definition setPersons (c : Config) (user author committer : Person) : Config :=
  MkConfig (Core c) user author committer (Pack_Window c) (Init_DefaultBranch c) (Extensions_ObjectFormat c) (Protocol_Version c)
    (Remotes c) (Submodules c) (Branches c) (URLs c) (Raw c).
Definition setWindow (c : Config) (x : Z) : Config :=
  MkConfig (Core c) (User c) (Author c) (Committer c) x (Init_DefaultBranch c) (Extensions_ObjectFormat c) (Protocol_Version c)
    (Remotes c) (Submodules c) (Branches c) (URLs c) (Raw c).
Definition setDefaultBranch (c : Config) (x : bytes) : Config :=
  MkConfig (Core c) (User c) (Author c) (Committer c) (Pack_Window c) x (Extensions_ObjectFormat c) (Protocol_Version c)
    (Remotes c) (Submodules c) (Branches c) (URLs c) (Raw c).
Definition setVersion (c : Config) (x : Z) : Config :=
  MkConfig (Core c) (User c) (Author c) (Committer c) (Pack_Window c) (Init_DefaultBranch c) (Extensions_ObjectFormat c) x
    (Remotes c) (Submodules c) (Branches c) (URLs c) (Raw c).
Definition setMaps (c : Config) (r : gomap RemoteConfig) (s : gomap Submodule) (b : gomap Branch) (u : gomap URL) : Config :=
  MkConfig (Core c) (User c) (Author c) (Committer c) (Pack_Window c) (Init_DefaultBranch c) (Extensions_ObjectFormat c) (Protocol_Version c)
    r s b u (Raw c).
Definition setRaw (c : Config) (x : RawConfig) : Config :=
  MkConfig (Core c) (User c) (Author c) (Committer c) (Pack_Window c) (Init_DefaultBranch c) (Extensions_ObjectFormat c) (Protocol_Version c)
    (Remotes c) (Submodules c) (Branches c) (URLs c) (Some x).

Section Configuration.
Context `{Folding} `{Gcfg} `{MapOrder}.

(** [c.Raw.Section(name)]: what it points to; the raw configuration then has the section. *)
Definition rawSection (c : Config) (name : bytes) : res (ConfigSection * Config) :=
  match Raw c with Some raw => let (s, raw) := theSection raw name in Ok (s, setRaw c raw) | None => Panic end.
(** What is done to [c.Raw.Section(name)]. *)
Definition onRaw (c : Config) (name : bytes) (f : ConfigSection -> ConfigSection) : res Config :=
  match Raw c with Some raw => Ok (setRaw c (inSection raw name f)) | None => Panic end.

(** *** Reading *)
Definition unmarshalCore (c : Config) : res Config :=
  let* (s, c) := rawSection c coreSection in
  let isBare := if bool_decide (Options_Get (sec_Options s) bareKey = bs "true") then true else core_IsBare (Core c) in
  Ok (setCore c (MkCore isBare (Options_Get (sec_Options s) worktreeKey) (Options_Get (sec_Options s) commentCharKey)
        (core_RepositoryFormatVersion (Core c)) (Options_Get (sec_Options s) autoCRLFKey))).

Definition readPerson (s : ConfigSection) : Person := MkPerson (Options_Get (sec_Options s) nameKey) (Options_Get (sec_Options s) emailKey).
Definition unmarshalUser (c : Config) : res Config :=
  let* (user, c) := rawSection c userSection in
  let* (author, c) := rawSection c authorSection in
  let* (committer, c) := rawSection c committerSection in
  Ok (setPersons c (readPerson user) (readPerson author) (readPerson committer)).

Definition unmarshalPack (c : Config) : res Config :=
  let* (s, c) := rawSection c packSection in
  let window := Options_Get (sec_Options s) windowKey in
  if bool_decide (window = []) then Ok (setWindow c DefaultPackWindow)
  else let* winUint := ParseUint window 10 32 in Ok (setWindow c winUint).

Fixpoint unmarshalRemotes_loop (subs : list Subsection) (remotes : gomap RemoteConfig) : res (gomap RemoteConfig) :=
  match subs with
  | [] => Ok remotes
  | sub :: subs =>
    let* r := RemoteConfig_unmarshal sub in
    let* remotes := map_set remotes (rc_Name r) r in
    unmarshalRemotes_loop subs remotes
  end.
(** The rules are applied to every remote of the map; the order does not matter, since each remote is changed alone. *)
Definition unmarshalRemotes (c : Config) : res Config :=
  let* (s, c) := rawSection c remoteSection in
  let* remotes := unmarshalRemotes_loop (sec_Subsections s) (Remotes c) in
  let* remotes := if len (sec_Options s) >? 0 then unmarshalRemotes_loop [MkSubsection [] (sec_Options s)] remotes else Ok remotes in
  let remotes := option_map (fmap (applyURLRules (URLs c))) remotes in
  Ok (setMaps c remotes (Submodules c) (Branches c) (URLs c)).

Fixpoint unmarshalURLs_loop (subs : list Subsection) (urls : gomap URL) : res (gomap URL) :=
  match subs with
  | [] => Ok urls
  | sub :: subs =>
    let r := URL_unmarshal sub in
    let* urls := map_set urls (url_Name r) r in
    unmarshalURLs_loop subs urls
  end.
Definition unmarshalURLs (c : Config) : res Config :=
  let* (s, c) := rawSection c urlSection in
  let* urls := unmarshalURLs_loop (sec_Subsections s) (URLs c) in
  Ok (setMaps c (Remotes c) (Submodules c) (Branches c) urls).

Fixpoint unmarshalSubmodules_loop (subs : list Subsection) (submodules : gomap Submodule) : res (gomap Submodule) :=
  match subs with
  | [] => Ok submodules
  | sub :: subs =>
    let m := Submodule_unmarshal sub in
    if bool_decide (Submodule_Validate m = Some ErrModuleBadPath) then unmarshalSubmodules_loop subs submodules
    else
      let* submodules := map_set submodules (mod_Name m) m in
      unmarshalSubmodules_loop subs submodules
  end.
Definition unmarshalSubmodules (fc : RawConfig) (submodules : gomap Submodule) : res (gomap Submodule * RawConfig) :=
  let (s, fc) := theSection fc submoduleSection in
  let* submodules := unmarshalSubmodules_loop (sec_Subsections s) submodules in
  Ok (submodules, fc).
Definition unmarshalModules (c : Config) : res Config :=
  match Raw c with
  | Some raw =>
    let* (submodules, raw) := unmarshalSubmodules raw (Submodules c) in
    Ok (setMaps (setRaw c raw) (Remotes c) submodules (Branches c) (URLs c))
  | None => Panic
  end.

Fixpoint unmarshalBranches_loop (subs : list Subsection) (branches : gomap Branch) : res (gomap Branch) :=
  match subs with
  | [] => Ok branches
  | sub :: subs =>
    let* b := Branch_unmarshal sub in
    let* branches := map_set branches (br_Name b) b in
    unmarshalBranches_loop subs branches
  end.
Definition unmarshalBranches (c : Config) : res Config :=
  let* (s, c) := rawSection c branchSection in
  let* branches := unmarshalBranches_loop (sec_Subsections s) (Branches c) in
  Ok (setMaps c (Remotes c) (Submodules c) branches (URLs c)).

Definition unmarshalProtocol (c : Config) : res Config :=
  let* (s, c) := rawSection c protocolSection in
  let c := setVersion c DefaultProtocolVersion in
  let rv := Options_Get (sec_Options s) versionKey in
  if bool_decide (rv = []) then Ok c else let* v := protocol_Parse rv in Ok (setVersion c v).

Definition unmarshalInit (c : Config) : res Config :=
  let* (s, c) := rawSection c initSection in
  Ok (setDefaultBranch c (Options_Get (sec_Options s) defaultBranchKey)).

Definition Unmarshal (c : Config) (b : bytes) : res Config :=
  let (err, raw) := Decode b format_New in
  match err with
  | Some e => Err e
  | None =>
    let* c := unmarshalCore (setRaw c raw) in
    let* c := unmarshalUser c in
    let* c := unmarshalInit c in
    let* c := unmarshalPack c in
    let* c := unmarshalModules c in
    let* c := unmarshalBranches c in
    let* c := unmarshalURLs c in
    let* c := unmarshalProtocol c in
    unmarshalRemotes c
  end.
Definition ReadConfig (b : bytes) : res Config := Unmarshal NewConfig b.

(** *** Writing *)
Definition setWhen (b : bool) (key value : bytes) (s : ConfigSection) : ConfigSection := if b then Section_SetOption s key value else s.
Definition nonEmpty (s : bytes) : bool := negb (bool_decide (s = [])).

Definition marshalCore (c : Config) : res Config :=
  onRaw c coreSection (fun s =>
    let s := Section_SetOption s bareKey (FormatBool (core_IsBare (Core c))) in
    let s := setWhen (nonEmpty (core_RepositoryFormatVersion (Core c))) repositoryFormatVersionKey (core_RepositoryFormatVersion (Core c)) s in
    let s := setWhen (nonEmpty (core_Worktree (Core c))) worktreeKey (core_Worktree (Core c)) s in
    setWhen (nonEmpty (core_AutoCRLF (Core c))) autoCRLFKey (core_AutoCRLF (Core c)) s).

Definition marshalExtensions (c : Config) : res Config :=
  if bool_decide (core_RepositoryFormatVersion (Core c) = Version_1) then
    onRaw c extensionsSection (fun s => Section_SetOption s objectFormat (format_String (Extensions_ObjectFormat c)))
  else Ok c.

Definition writePerson (p : Person) (s : ConfigSection) : ConfigSection :=
  setWhen (nonEmpty (person_Email p)) emailKey (person_Email p) (setWhen (nonEmpty (person_Name p)) nameKey (person_Name p) s).
Definition marshalUser (c : Config) : res Config :=
  let* c := onRaw c userSection (writePerson (User c)) in
  let* c := onRaw c authorSection (writePerson (Author c)) in
  onRaw c committerSection (writePerson (Committer c)).

Definition marshalPack (c : Config) : res Config :=
  onRaw c packSection (setWhen (negb (Pack_Window c =? DefaultPackWindow)) windowKey (FormatInt (Pack_Window c))).

(** The two loops of [marshalRemotes] and [marshalBranches]: first the entities that have a subsection, in its order, then
    the others, by name.  Marshalling an entity also sets its raw subsection. *)
Fixpoint marshalListed {V} (marshal : V -> V * Subsection) (subs : list Subsection) (m : gmap bytes V) (added : gset bytes) :
    list Subsection * gmap bytes V * gset bytes :=
  match subs with
  | [] => ([], m, added)
  | sub :: subs =>
    match m !! sub_Name sub with
    | Some v =>
      let (v, s) := marshal v in
      let '(l, m, added) := marshalListed marshal subs (<[sub_Name sub := v]> m) ({[sub_Name sub]} ∪ added) in (s :: l, m, added)
    | None => marshalListed marshal subs m added
    end
  end.
Fixpoint marshalOthers {V} (marshal : V -> V * Subsection) (names : list bytes) (m : gmap bytes V) (added : gset bytes) : list Subsection * gmap bytes V :=
  match names with
  | [] => ([], m)
  | name :: names =>
    if bool_decide (name ∈ added) then marshalOthers marshal names m added
    else
      match m !! name with
      | Some v => let (v, s) := marshal v in let (l, m) := marshalOthers marshal names (<[name := v]> m) added in (s :: l, m)
      | None => marshalOthers marshal names m added
      end
  end.
Definition marshalNamed {V} (marshal : V -> V * Subsection) (subs : list Subsection) (m : gomap V) : list Subsection * gomap V :=
  match m with
  | None => ([], None)
  | Some m =>
    let '(l1, m, added) := marshalListed marshal subs m ∅ in
    let (l2, m) := marshalOthers marshal (sortStrings (map fst (mapOrder V m))) m added in
    (l1 ++ l2, Some m)
  end.
(** The loop of [marshalSubmodules] and [marshalURLs]: every entity, in the order of the map. *)
Fixpoint marshalAll {V} (marshal : V -> V * Subsection) (l : list (bytes * V)) (m : gmap bytes V) : list Subsection * gmap bytes V :=
  match l with
  | [] => ([], m)
  | (name, v) :: l => let (v, s) := marshal v in let (subs, m) := marshalAll marshal l (<[name := v]> m) in (s :: subs, m)
  end.
Definition marshalRange {V} (marshal : V -> V * Subsection) (m : gomap V) : list Subsection * gomap V :=
  match m with None => ([], None) | Some m => let (l, m) := marshalAll marshal (mapOrder V m) m in (l, Some m) end.

Definition marshalRemotes (c : Config) : res Config :=
  let* (s, c) := rawSection c remoteSection in
  let (subs, remotes) := marshalNamed RemoteConfig_marshal (sec_Subsections s) (Remotes c) in
  onRaw (setMaps c remotes (Submodules c) (Branches c) (URLs c)) remoteSection (fun s => setSubsections s subs).

(** The submodule's subsection, without its path, which is also its raw subsection from now on. *)
Definition configSubmodule (m : Submodule) : Submodule * Subsection :=
  let (m, section) := Submodule_marshal m in
  let section := Subsection_RemoveOption section pathKey in
  (MkSubmodule (mod_Name m) (mod_Path m) (mod_URL m) (mod_Branch m) (Some section), section).
Definition marshalSubmodules (c : Config) : res Config :=
  let (subs, submodules) := marshalRange configSubmodule (Submodules c) in
  onRaw (setMaps c (Remotes c) submodules (Branches c) (URLs c)) submoduleSection (fun s => setSubsections s subs).

Definition marshalBranches (c : Config) : res Config :=
  let* (s, c) := rawSection c branchSection in
  let (subs, branches) := marshalNamed Branch_marshal (sec_Subsections s) (Branches c) in
  onRaw (setMaps c (Remotes c) (Submodules c) branches (URLs c)) branchSection (fun s => setSubsections s subs).

Definition marshalURLs (c : Config) : res Config :=
  let (subs, urls) := marshalRange URL_marshal (URLs c) in
  onRaw (setMaps c (Remotes c) (Submodules c) (Branches c) urls) urlSection (fun s => setSubsections s subs).

Definition marshalProtocol (c : Config) : res Config :=
  if negb (Protocol_Version c =? DefaultProtocolVersion) then
    onRaw c protocolSection (fun s => Section_SetOption s versionKey (Version_String (Protocol_Version c)))
  else Ok c.

Definition marshalInit (c : Config) : res Config :=
  onRaw c initSection (setWhen (nonEmpty (Init_DefaultBranch c)) defaultBranchKey (Init_DefaultBranch c)).

Definition Marshal (c : Config) : res (bytes * Config) :=
  let* c := marshalCore c in
  let* c := marshalExtensions c in
  let* c := marshalUser c in
  let* c := marshalPack c in
  let* c := marshalRemotes c in
  let* c := marshalSubmodules c in
  let* c := marshalBranches c in
  let* c := marshalURLs c in
  let* c := marshalProtocol c in
  let* c := marshalInit c in
  match Raw c with Some raw => Ok (Encode raw, c) | None => Panic end.

(** *** [Validate] *)
Fixpoint validateRemotes (l : list (bytes * RemoteConfig)) (m : gomap RemoteConfig) : res unit * gomap RemoteConfig :=
  match l with
  | [] => (Ok tt, m)
  | (name, r) :: l =>
    if negb (bool_decide (rc_Name r = name)) then (Err ErrInvalid, m)
    else
      let (e, r) := RemoteConfig_Validate r in
      let m := option_map (insert name r) m in
      match e with Ok _ => validateRemotes l m | e => (e, m) end
  end.
Fixpoint validateBranches (l : list (bytes * Branch)) : res unit :=
  match l with
  | [] => Ok tt
  | (name, b) :: l =>
    if negb (bool_decide (br_Name b = name)) then Err ErrInvalid
    else match Branch_Validate b with Some e => Err e | None => validateBranches l end
  end.
Definition Config_Validate (c : Config) : res unit * Config :=
  let (e, remotes) := validateRemotes (map_range (Remotes c)) (Remotes c) in
  let c := setMaps c remotes (Submodules c) (Branches c) (URLs c) in
  match e with Ok _ => (validateBranches (map_range (Branches c)), c) | e => (e, c) end.

(** *** [Modules] of modules.go: a .gitmodules file *)
Record Modules := MkModules { modules_Submodules : gomap Submodule; modules_raw : option RawConfig }.
Definition NewModules : Modules := MkModules (Some ∅) (Some format_New).
Definition Modules_Unmarshal (m : Modules) (b : bytes) : res Modules :=
  let (err, raw) := Decode b format_New in
  match err with
  | Some e => Err e
  | None => let* (submodules, raw) := unmarshalSubmodules raw (modules_Submodules m) in Ok (MkModules submodules (Some raw))
  end.
Definition Modules_Marshal (m : Modules) : res (bytes * Modules) :=
  match modules_raw m with
  | None => Panic
  | Some raw =>
    let (subs, submodules) := marshalRange Submodule_marshal (modules_Submodules m) in
    let raw := inSection raw submoduleSection (fun s => setSubsections s subs) in
    Ok (Encode raw, MkModules submodules (Some raw))
  end.

(** *** [Merge]: a field that is not zero replaces the field merged so far.  The slices of the raw configuration are nil
    when they are empty. *)
Definition mergeField {A} (isZero : A -> bool) (dst src : A) : A := if isZero src then dst else src.
Definition mergeBytes : bytes -> bytes -> bytes := mergeField (fun s => bool_decide (s = [])).
Definition mergeZ : Z -> Z -> Z := mergeField (Z.eqb 0).
Definition mergeMap {V} : gomap V -> gomap V -> gomap V := mergeField (fun m => match m with None => true | Some _ => false end).
Definition mergePerson (dst src : Person) : Person :=
  MkPerson (mergeBytes (person_Name dst) (person_Name src)) (mergeBytes (person_Email dst) (person_Email src)).
Definition mergeCore (dst src : CoreConfig) : CoreConfig :=
  MkCore (mergeField negb (core_IsBare dst) (core_IsBare src)) (mergeBytes (core_Worktree dst) (core_Worktree src))
    (mergeBytes (core_CommentChar dst) (core_CommentChar src))
    (mergeBytes (core_RepositoryFormatVersion dst) (core_RepositoryFormatVersion src)) (mergeBytes (core_AutoCRLF dst) (core_AutoCRLF src)).
Definition mergeRaw (dst src : option RawConfig) : option RawConfig :=
  match src with
  | None => dst
  | Some s =>
    let d := default format_New dst in
    Some (MkRaw (mergeField (fun x => match x with None => true | Some _ => false end) (raw_Comment d) (raw_Comment s))
            (mergeField (fun l => len l =? 0) (raw_Sections d) (raw_Sections s))
            (mergeField (fun l => len l =? 0) (raw_Includes d) (raw_Includes s)))
  end.
Definition merge (dst src : Config) : Config :=
  MkConfig (mergeCore (Core dst) (Core src)) (mergePerson (User dst) (User src)) (mergePerson (Author dst) (Author src))
    (mergePerson (Committer dst) (Committer src)) (mergeZ (Pack_Window dst) (Pack_Window src))
    (mergeBytes (Init_DefaultBranch dst) (Init_DefaultBranch src))
    (mergeZ (Extensions_ObjectFormat dst) (Extensions_ObjectFormat src)) (mergeZ (Protocol_Version dst) (Protocol_Version src))
    (mergeMap (Remotes dst) (Remotes src)) (mergeMap (Submodules dst) (Submodules src)) (mergeMap (Branches dst) (Branches src))
    (mergeMap (URLs dst) (URLs src)) (mergeRaw (Raw dst) (Raw src)).
Definition Merge (src : list (option Config)) : Config :=
  foldl (fun final c => match c with None => final | Some c => merge final c end) zeroConfig src.

(** *** [Paths], [LoadConfig] and [ConfigScoped] *)
Inductive Scope := LocalScope | GlobalScope | SystemScope.
(** The environment: XDG_CONFIG_HOME, the home directory, and the files of the system. *)
Class Environment := { env_XDG : bytes; UserHomeDir : error + bytes; osfs_Open : bytes -> error + bytes }.

Definition Paths `{Environment} (scope : Scope) : res (list bytes) :=
  match scope with
  | GlobalScope =>
    let files := if bool_decide (env_XDG = []) then [] else [path_Join [env_XDG; bs "git/config"]] in
    match UserHomeDir with
    | inl e => Err e
    | inr home => Ok (files ++ [path_Join [home; bs ".gitconfig"]; path_Join [home; bs ".config/git/config"]])
    end
  | SystemScope => Ok [bs "/etc/gitconfig"]
  | LocalScope => Ok []
  end.

Fixpoint loadFirst `{Environment} (files : list bytes) : res Config :=
  match files with
  | [] => Ok NewConfig
  | file :: files =>
    match osfs_Open file with
    | inl e => if bool_decide (e = ErrNotExist) then loadFirst files else Err e
    | inr b => ReadConfig b
    end
  end.
Definition LoadConfig `{Environment} (scope : Scope) : res Config :=
  match scope with
  | LocalScope => Err ErrLocalScope
  | _ => let* files := Paths scope in loadFirst files
  end.

(** The configuration of the storage is merged with those of the requested scope and below. *)
Definition ConfigScoped `{Environment} (local : res Config) (scope : Scope) : res Config :=
  let* system := match scope with SystemScope => LoadConfig SystemScope | _ => Ok NewConfig end in
  let* global := match scope with LocalScope => Ok NewConfig | _ => LoadConfig GlobalScope end in
  let* local := local in
  Ok (Merge [Some system; Some global; Some local]).

End Configuration.
