(* ===== verification/ConfigProofs.v ===== *)
(** * config: what is marshalled and what is unmarshalled

    The loops that marshal the entities of a map and those that unmarshal them; the raw configuration after [Marshal], and
    what [Unmarshal] reads, as what every section holds. *)
From S2P Require Import Prelude GoStrings Strconv ObjectID Reference RefSpec Packp ConfigFormat ConfigText Config.

(** ** The subsections of all the entities of a map *)
Section Entities.
Context {V : Type} (marshal : V -> V * Subsection).

(** The list has the subsection of every entity, and nothing else, under different names. *)
Definition lists_all (m : gmap bytes V) (l : list Subsection) : Prop :=
  NoDup (map sub_Name l) /\ forall s, s ∈ l <-> exists k v, m !! k = Some v /\ s = (marshal v).2.
Definition named (m : gmap bytes V) : Prop := forall k v, m !! k = Some v -> sub_Name (marshal v).2 = k.

Lemma marshalListed_spec subs : forall m added, NoDup (map sub_Name subs) ->
  let '(l, m', added') := marshalListed marshal subs m added in
  l = omap (fun sub => snd ∘ marshal <$> m !! sub_Name sub) subs /\
  (forall k, k ∈ added' <-> k ∈ added \/ k ∈ map sub_Name subs /\ is_Some (m !! k)) /\
  (forall k, k ∉ map sub_Name subs -> m' !! k = m !! k) /\ dom m' = dom m.
Proof.
  induction subs as [|sub subs IH]; intros m added Hd; cbn [marshalListed map].
  { split_and!; [done| |done|done]. intros k. set_solver. }
  cbn [map] in Hd. apply NoDup_cons in Hd as [Hn Hd]. destruct (m !! sub_Name sub) as [v|] eqn:E.
  - destruct (marshal v) as [v' s] eqn:Em. specialize (IH (<[sub_Name sub := v']> m) ({[sub_Name sub]} ∪ added) Hd).
    destruct (marshalListed _ _ _ _) as [[l m'] added']. destruct IH as (-> & Ha & Hm & Hdom). split_and!.
    + cbn [omap list_omap]. rewrite E. cbn. rewrite Em. f_equal. apply list_omap_ext. apply Forall2_same_length_lookup.
      split; [done|]. intros i x y Hx Hy. rewrite Hx in Hy. injection Hy as <-. f_equal. apply lookup_insert_ne. intros Heq. apply Hn.
      rewrite Heq. apply list_elem_of_fmap_2. by eapply list_elem_of_lookup_2.
    + intros k. rewrite Ha. destruct (decide (k = sub_Name sub)) as [->|Hk].
      * split; [|set_solver]. intros _. right. split; [by left|]. by rewrite E.
      * rewrite lookup_insert_ne by done. set_solver.
    + intros k Hk. rewrite not_elem_of_cons in Hk. rewrite Hm by tauto. apply lookup_insert_ne. naive_solver.
    + rewrite Hdom, dom_insert_L. apply elem_of_dom_2 in E. set_solver.
  - specialize (IH m added Hd). destruct (marshalListed _ _ _ _) as [[l m'] added']. destruct IH as (-> & Ha & Hm & Hdom). split_and!.
    + cbn [omap list_omap]. by rewrite E.
    + intros k. rewrite Ha. destruct (decide (k = sub_Name sub)) as [->|Hk]; [|set_solver]. rewrite E. split; [naive_solver|].
      intros [?|[_ Hs]]; [by left|]. by apply is_Some_None in Hs.
    + intros k Hk. apply Hm. set_solver.
    + done.
Qed.

Lemma marshalOthers_spec names : forall m added, NoDup names ->
  (marshalOthers marshal names m added).1 = omap (fun name => if bool_decide (name ∈ added) then None else snd ∘ marshal <$> m !! name) names.
Proof.
  induction names as [|name names IH]; intros m added Hd; [done|]. apply NoDup_cons in Hd as [Hn Hd]. cbn [marshalOthers omap list_omap].
  case_bool_decide as Ha; [by apply IH|]. destruct (m !! name) as [v|] eqn:E; [|by apply IH].
  destruct (marshal v) as [v' s] eqn:Em. specialize (IH (<[name := v']> m) added Hd). destruct (marshalOthers _ _ _ _) as [l m']. cbn [fst] in *.
  rewrite IH. cbn. rewrite Em. f_equal. apply list_omap_ext, Forall2_same_length_lookup. split; [done|].
  intros i x y Hx Hy. rewrite Hx in Hy. injection Hy as <-. rewrite lookup_insert_ne; [done|]. intros ->. apply Hn. by eapply list_elem_of_lookup_2.
Qed.

Lemma names_omap {A} (keyOf : A -> bytes) (g : A -> option Subsection) l :
  (forall x s, x ∈ l -> g x = Some s -> sub_Name s = keyOf x) -> NoDup (map keyOf l) ->
  NoDup (map sub_Name (omap g l)) /\ forall s, s ∈ omap g l -> sub_Name s ∈ map keyOf l.
Proof.
  intros Hg. induction l as [|x l IH]; intros Hd; [split; [constructor|by intros s ?%not_elem_of_nil]|].
  cbn [map] in Hd. apply NoDup_cons in Hd as [Hx Hd]. destruct IH as [H1 H2]; [intros; apply Hg; [by right|done]|done|].
  cbn [omap list_omap]. destruct (g x) as [s|] eqn:E.
  - specialize (Hg x s (list_elem_of_here _ _) E). split.
    + cbn [map]. apply NoDup_cons. split; [|done]. rewrite Hg. intros Hin. apply Hx. apply list_elem_of_fmap in Hin as (t & -> & Ht). by apply H2.
    + intros t [->|Ht]%elem_of_cons; cbn [map]; [rewrite Hg; by left|]. right. by apply H2.
  - split; [done|]. intros t Ht. right. by apply H2.
Qed.

Context `{MapOrderLaws}.

Lemma mapOrder_NoDup (m : gmap bytes V) : NoDup (map fst (mapOrder V m)).
Proof. rewrite mapOrder_perm. apply NoDup_fst_map_to_list. Qed.
Lemma mapOrder_elem (m : gmap bytes V) k v : (k, v) ∈ mapOrder V m <-> m !! k = Some v.
Proof. rewrite mapOrder_perm. apply elem_of_map_to_list. Qed.

Lemma marshalNamed_all subs m : NoDup (map sub_Name subs) -> named m -> lists_all m (marshalNamed marshal subs (Some m)).1.
Proof.
  intros Hd Hm. unfold marshalNamed. pose proof (marshalListed_spec subs m ∅ Hd) as Hl.
  destruct (marshalListed _ _ _ _) as [[l1 m'] added]. destruct Hl as (-> & Ha & Hm' & Hdom).
  set (names := sortStrings _). assert (NoDup names) as Hnd by (unfold names, sortStrings; rewrite insertionSort_perm; apply mapOrder_NoDup).
  assert (forall k, k ∈ names <-> k ∈ dom m) as Hnames.
  { intros k. unfold names, sortStrings. rewrite insertionSort_perm, <- Hdom, elem_of_dom. rewrite list_elem_of_fmap. split.
    - intros ([k' v] & -> & Hin%mapOrder_elem). by eexists.
    - intros [v Hv]. exists (k, v). split; [done|]. by apply mapOrder_elem. }
  pose proof (marshalOthers_spec names m' added Hnd) as Ho. destruct (marshalOthers _ _ _ _) as [l2 m2]. cbn [fst] in *. subst l2.
  assert (forall k, k ∉ added -> k ∈ dom m -> m' !! k = m !! k) as Hsame.
  { intros k Hk Hkd. apply Hm'. intros Hin. apply Hk, Ha. right. split; [done|]. by apply elem_of_dom. }
  destruct (names_omap sub_Name (fun sub => snd ∘ marshal <$> m !! sub_Name sub) subs) as [H1 H1']; [|done|].
  { intros sub s _ Hs. apply fmap_Some in Hs as (v & Hv & ->). by apply Hm. }
  destruct (names_omap id (fun name => if bool_decide (name ∈ added) then None else snd ∘ marshal <$> m' !! name) names) as [H2 H2'].
  { intros k s Hk Hs. case_bool_decide as Hka; [done|]. rewrite Hsame in Hs by (by rewrite <- ?Hnames). apply fmap_Some in Hs as (v & Hv & ->). by apply Hm. }
  { by rewrite list_fmap_id. }
  split.
  - rewrite map_app. apply NoDup_app. split_and!; [done| |done]. intros x Hx Hx2.
    apply list_elem_of_fmap in Hx as (s & -> & Hs). apply list_elem_of_omap in Hs as (sub & Hsub & Hs). apply fmap_Some in Hs as (v & Hv & ->).
    apply list_elem_of_fmap in Hx2 as (t & Hst & Ht). apply list_elem_of_omap in Ht as (k & Hk & Ht). case_bool_decide as Hka; [done|].
    rewrite Hsame in Ht by (by rewrite <- ?Hnames). apply fmap_Some in Ht as (w & Hw & ->). cbn in Hst.
    rewrite (Hm _ _ Hv), (Hm _ _ Hw) in Hst. subst k. apply Hka, Ha. right. split; [by apply list_elem_of_fmap_2|by eexists].
  - intros s. rewrite elem_of_app, !list_elem_of_omap. split.
    + intros [(sub & _ & Hs)|(k & Hk & Hs)].
      * apply fmap_Some in Hs as (v & Hv & ->). by exists (sub_Name sub), v.
      * case_bool_decide as Hka; [done|]. rewrite Hsame in Hs by (by rewrite <- ?Hnames). apply fmap_Some in Hs as (v & Hv & ->). by exists k, v.
    + intros (k & v & Hv & ->). destruct (decide (k ∈ added)) as [Hka|Hka].
      * apply Ha in Hka as [?|[Hk _]]; [set_solver|]. left. apply list_elem_of_fmap in Hk as (sub & -> & Hsub). exists sub. split; [done|]. by rewrite Hv.
      * right. apply elem_of_dom_2 in Hv as Hkd. exists k. split; [by apply Hnames|]. rewrite bool_decide_eq_false_2 by done. by rewrite Hsame, Hv.
Qed.

Lemma marshalAll_eq l : forall m, (marshalAll marshal l m).1 = map (fun p => (marshal p.2).2) l.
Proof.
  induction l as [|[k v] l IH]; intros m; [done|]. cbn [marshalAll map]. destruct (marshal v) as [v' s] eqn:E. specialize (IH (<[k := v']> m)).
  destruct (marshalAll _ _ _) as [subs m']. cbn [fst snd] in *. by rewrite IH, E.
Qed.
Lemma marshalRange_all m : named m -> lists_all m (marshalRange marshal (Some m)).1.
Proof.
  intros Hm. unfold marshalRange. pose proof (marshalAll_eq (mapOrder V m) m) as Hl. destruct (marshalAll _ _ _) as [l m']. cbn [fst] in *. subst l.
  split.
  - rewrite map_map. rewrite (map_ext_in _ fst); [apply mapOrder_NoDup|]. intros [k v] Hin. apply list_elem_of_In, mapOrder_elem in Hin. by apply Hm.
  - intros s. rewrite list_elem_of_fmap. split.
    + intros ([k v] & -> & Hin%mapOrder_elem). by exists k, v.
    + intros (k & v & Hv & ->). exists (k, v). split; [done|]. by apply mapOrder_elem.
Qed.

Lemma insert_subs_lookup (g : Subsection -> V) k l : forall (m0 : gmap bytes V), NoDup (map sub_Name l) ->
  foldl (fun m s => <[sub_Name s := g s]> m) m0 l !! k =
  match List.find (fun s => bool_decide (sub_Name s = k)) l with Some s => Some (g s) | None => m0 !! k end.
Proof.
  induction l as [|x l IH]; intros m0 Hd; [done|]. cbn [map] in Hd. apply NoDup_cons in Hd as [Hx Hd]. cbn [foldl List.find].
  rewrite IH by done. case_bool_decide as E; [|by rewrite lookup_insert_ne]. subst k. rewrite lookup_insert_eq.
  destruct (List.find _ l) as [y|] eqn:F; [|done]. exfalso. apply find_some in F as [Hy Ey%bool_decide_eq_true].
  apply Hx. rewrite <- Ey. apply (list_elem_of_fmap_2 sub_Name). by apply list_elem_of_In.
Qed.

(** Entities read back from such a list are those of the map, up to what reading them does not give. *)
Lemma rebuild {W} (plain plain' : V -> W) (g : Subsection -> V) m l : named m -> lists_all m l ->
  (forall k v, m !! k = Some v -> plain (g (marshal v).2) = plain' v) ->
  plain <$> foldl (fun m s => <[sub_Name s := g s]> m) ∅ l = plain' <$> m.
Proof.
  intros Hm [Hd Hl] Hg. apply map_eq. intros k. rewrite !lookup_fmap.
  rewrite insert_subs_lookup by done. destruct (List.find _ l) as [s|] eqn:F.
  - apply find_some in F as [Hs%list_elem_of_In Hk%bool_decide_eq_true]. apply Hl in Hs as (k' & v & Hv & ->).
    rewrite (Hm _ _ Hv) in Hk. subst k'. rewrite Hv. cbn. f_equal. by eapply Hg.
  - rewrite lookup_empty. destruct (m !! k) as [v|] eqn:E; [|done]. exfalso.
    assert ((marshal v).2 ∈ l) as Hin%list_elem_of_In by (apply Hl; eauto).
    pose proof (find_none _ _ F _ Hin) as Hn. cbn in Hn. apply bool_decide_eq_false in Hn. apply Hn. by apply Hm.
Qed.

End Entities.

(** ** The unmarshalling loops *)
Section Reading.
Context `{FoldingLaws}.

Lemma remotes_loop g l : forall m, (forall s, s ∈ l -> RemoteConfig_unmarshal s = Ok (g s)) ->
  unmarshalRemotes_loop l (Some m) = Ok (Some (foldl (fun m s => <[sub_Name s := g s]> m) m l)).
Proof.
  induction l as [|s l IH]; intros m Hg; [done|]. cbn [unmarshalRemotes_loop foldl]. pose proof (Hg s (list_elem_of_here _ _)) as Hs.
  assert (rc_Name (g s) = sub_Name s) as Hn. { unfold RemoteConfig_unmarshal in Hs. inv_bind Hs. by injection Hs as <-. }
  rewrite Hs. cbn [res_bind map_set]. rewrite Hn. apply IH. intros t Ht. apply Hg. by right.
Qed.
Lemma branches_loop g l : forall m, (forall s, s ∈ l -> Branch_unmarshal s = Ok (g s)) ->
  unmarshalBranches_loop l (Some m) = Ok (Some (foldl (fun m s => <[sub_Name s := g s]> m) m l)).
Proof.
  induction l as [|s l IH]; intros m Hg; [done|]. cbn [unmarshalBranches_loop foldl]. pose proof (Hg s (list_elem_of_here _ _)) as Hs.
  assert (br_Name (g s) = sub_Name s) as Hn. { unfold Branch_unmarshal in Hs. destruct (Branch_Validate _); [done|]. by injection Hs as <-. }
  rewrite Hs. cbn [res_bind map_set]. rewrite Hn. apply IH. intros t Ht. apply Hg. by right.
Qed.
Lemma urls_loop l : forall m, unmarshalURLs_loop l (Some m) = Ok (Some (foldl (fun m s => <[sub_Name s := URL_unmarshal s]> m) m l)).
Proof. induction l as [|s l IH]; intros m; [done|]. cbn [unmarshalURLs_loop foldl map_set res_bind]. apply IH. Qed.
Lemma submodules_loop l : forall m, (forall s, s ∈ l -> Submodule_Validate (Submodule_unmarshal s) <> Some ErrModuleBadPath) ->
  unmarshalSubmodules_loop l (Some m) = Ok (Some (foldl (fun m s => <[sub_Name s := Submodule_unmarshal s]> m) m l)).
Proof.
  induction l as [|s l IH]; intros m Hg; [done|]. cbn [unmarshalSubmodules_loop foldl].
  rewrite bool_decide_eq_false_2 by (apply Hg; by left). cbn [map_set res_bind]. apply IH. intros t Ht. apply Hg. by right.
Qed.

End Reading.

(** ** Keys that are not the same whatever their case *)
#[global] Instance isAscii_dec s : Decision (isAscii s).
Proof. unfold isAscii. apply _. Defined.
Ltac fold_const := rewrite EqualFold_ascii by by_decision; vm_compute; reflexivity.

(** ** What the subsection of an entity holds *)
Section Marshalled.
Context `{FoldingLaws}.

Lemma Get_without opts k : Options_Get (withoutOption opts k) k = [].
Proof. by rewrite Get_GetAll, GetAll_without, EqualFold_refl. Qed.
Lemma Get_without_other opts k k' : EqualFold k k' = false -> Options_Get (withoutOption opts k) k' = Options_Get opts k'.
Proof. intros Hk. by rewrite !Get_GetAll, GetAll_without, Hk. Qed.
Lemma Get_ext a b k : Options_GetAll a k = Options_GetAll b k -> Options_Get a k = Options_Get b k.
Proof. intros Hab. by rewrite !Get_GetAll, Hab. Qed.

Lemma opt_ok_without opts k : Forall opt_ok opts -> Forall opt_ok (withoutOption opts k).
Proof. induction 1 as [|o opts Ho _ IH]; cbn [withoutOption]; [constructor|]. destruct (IsKey o k); cbn [negb]; [done|]. by constructor. Qed.
Lemma opt_ok_setted opts k vs : Forall opt_ok opts -> ident k -> Forall value_ok vs -> Forall opt_ok (withSettedOption opts k vs).
Proof.
  intros Ho Hk Hvs. rewrite withSetted_eq. apply Forall_app. rewrite Forall_forall in Ho. rewrite Forall_forall in Hvs. split.
  - apply Forall_forall. intros o [_ Hin]%list_elem_of_filter. by apply Ho.
  - apply Forall_forall. intros o (v & -> & [_ Hin]%list_elem_of_filter)%list_elem_of_fmap. split; [done|]. by apply Hvs.
Qed.

(** A list of values that is set, or whose key is removed when there are none. *)
Definition setList (raw : Subsection) (k : bytes) (vs0 vs : list bytes) : Subsection :=
  if len vs0 =? 0 then Subsection_RemoveOption raw k else Subsection_SetOption raw k vs.
Lemma GetAll_setList_other raw k vs0 vs k' : EqualFold k k' = false ->
  Options_GetAll (sub_Options (setList raw k vs0 vs)) k' = Options_GetAll (sub_Options raw) k'.
Proof. intros Hk. unfold setList. case_match; cbn; [by rewrite GetAll_without, Hk|by apply GetAll_setted_other]. Qed.
Lemma GetAll_setList raw k vs0 vs : length vs0 = length vs ->
  Options_GetAll (sub_Options raw) k = [] \/ Options_GetAll (sub_Options raw) k = vs ->
  Options_GetAll (sub_Options (setList raw k vs0 vs)) k = vs.
Proof.
  intros Hlen Hraw. unfold setList. case_match eqn:E; cbn.
  - rewrite GetAll_without, EqualFold_refl. apply Z.eqb_eq in E. unfold len in E. by destruct vs; [|cbn in Hlen; lia].
  - destruct Hraw; [by apply GetAll_setted_new|by apply GetAll_setted_same].
Qed.
Lemma opt_ok_setList raw k vs0 vs : Forall opt_ok (sub_Options raw) -> ident k -> Forall value_ok vs -> Forall opt_ok (sub_Options (setList raw k vs0 vs)).
Proof. intros Ho Hk Hvs. unfold setList. case_match; cbn; [by apply opt_ok_without|by apply opt_ok_setted]. Qed.
Lemma setList_name raw k vs0 vs : sub_Name (setList raw k vs0 vs) = sub_Name raw.
Proof. unfold setList. by case_match. Qed.

Lemma GetAll_setOrRemove_other raw k v t k' : EqualFold k k' = false ->
  Options_GetAll (sub_Options (setOrRemove raw k v t)) k' = Options_GetAll (sub_Options raw) k'.
Proof. intros Hk. unfold setOrRemove. case_match; cbn; [by rewrite GetAll_without, Hk|by apply GetAll_setted_other]. Qed.
Lemma Get_setOrRemove raw k v t : (v = [] -> t = []) -> Options_Get (sub_Options (setOrRemove raw k v t)) k = t.
Proof. intros Hv. unfold setOrRemove. case_bool_decide; cbn; [rewrite Get_without; symmetry; auto|apply Get_setted]. Qed.
Lemma Get_setOrRemove_other raw k v t k' : EqualFold k k' = false ->
  Options_Get (sub_Options (setOrRemove raw k v t)) k' = Options_Get (sub_Options raw) k'.
Proof. intros Hk. apply Get_ext. by apply GetAll_setOrRemove_other. Qed.
Lemma opt_ok_setOrRemove raw k v t : Forall opt_ok (sub_Options raw) -> ident k -> value_ok t -> Forall opt_ok (sub_Options (setOrRemove raw k v t)).
Proof. intros Ho Hk Hv. unfold setOrRemove. case_match; cbn; [by apply opt_ok_without|]. apply opt_ok_setted; [done|done|]. by constructor. Qed.
Lemma setOrRemove_name raw k v t : sub_Name (setOrRemove raw k v t) = sub_Name raw.
Proof. unfold setOrRemove. by case_match. Qed.

(** *** Remotes *)
Definition rawOptions (raw : option Subsection) : Options := sub_Options (default (MkSubsection [] []) raw).
(** The URLs of a remote, before the rules for them. *)
Definition writtenURLs (r : RemoteConfig) : list bytes := if rc_insteadOfRulesApplied r then rc_originalURLs r else rc_URLs r.
Definition plainRemote (r : RemoteConfig) : RemoteConfig := MkRemote (rc_Name r) (writtenURLs r) (rc_Mirror r) false [] (rc_Fetch r) None.

(** The texts of an entity can be written, and its raw options agree with it where they are not replaced. *)
Definition name_ok (k : bytes) : Prop := k <> [] /\ Forall printable k.
Record remote_ok (k : bytes) (r : RemoteConfig) : Prop := {
  remote_name : rc_Name r = k /\ name_ok k;
  remote_raw : Forall opt_ok (rawOptions (rc_raw r));
  remote_texts : Forall value_ok (writtenURLs r) /\ Forall value_ok (rc_Fetch r);
  remote_fetch : validateFetch (rc_Fetch r) = Ok tt;
  remote_lengths : length (rc_URLs r) = length (writtenURLs r);
  remote_urls_raw : Options_GetAll (rawOptions (rc_raw r)) urlKey = [] \/ Options_GetAll (rawOptions (rc_raw r)) urlKey = writtenURLs r;
  remote_push_raw : Options_GetAll (rawOptions (rc_raw r)) pushurlKey = [];
  remote_fetch_raw : Options_GetAll (rawOptions (rc_raw r)) fetchKey = [] \/ Options_GetAll (rawOptions (rc_raw r)) fetchKey = rc_Fetch r;
  remote_mirror_raw : rc_Mirror r = false -> Options_Get (rawOptions (rc_raw r)) mirrorKey <> bs "true" }.

Definition markMirror (r : RemoteConfig) (raw : Subsection) : Subsection :=
  if rc_Mirror r then Subsection_SetOption raw mirrorKey [FormatBool (rc_Mirror r)] else raw.
Lemma remote_marshal_eq r : (RemoteConfig_marshal r).2 =
  markMirror r (setList (setList (MkSubsection (rc_Name r) (rawOptions (rc_raw r))) urlKey (rc_URLs r) (writtenURLs r)) fetchKey (rc_Fetch r) (rc_Fetch r)).
Proof. done. Qed.
Lemma GetAll_markMirror_other r raw k : EqualFold mirrorKey k = false -> Options_GetAll (sub_Options (markMirror r raw)) k = Options_GetAll (sub_Options raw) k.
Proof. intros Hk. unfold markMirror. destruct (rc_Mirror r); [|done]. by apply GetAll_setted_other. Qed.

Lemma remote_marshal_name r : sub_Name (RemoteConfig_marshal r).2 = rc_Name r.
Proof. rewrite remote_marshal_eq. unfold markMirror. destruct (rc_Mirror r); cbn [Subsection_SetOption setSubOptions sub_Name]; by rewrite !setList_name. Qed.

(** Keys that remotes do not use keep their values. *)
Lemma remote_marshal_other r k : EqualFold urlKey k = false -> EqualFold fetchKey k = false -> EqualFold mirrorKey k = false ->
  Options_GetAll (sub_Options (RemoteConfig_marshal r).2) k = Options_GetAll (rawOptions (rc_raw r)) k.
Proof. intros H1 H2 H3. rewrite remote_marshal_eq. by rewrite GetAll_markMirror_other, !GetAll_setList_other. Qed.

Lemma remote_reads k r : remote_ok k r -> exists r', RemoteConfig_unmarshal (RemoteConfig_marshal r).2 = Ok r' /\ plainRemote r' = plainRemote r.
Proof.
  intros [[Hn _] _ _ Hf Hlen Hu Hp Hfr Hm].
  assert (Options_GetAll (sub_Options (RemoteConfig_marshal r).2) urlKey = writtenURLs r) as Eu.
  { rewrite remote_marshal_eq, GetAll_markMirror_other by fold_const. rewrite GetAll_setList_other by fold_const. by apply GetAll_setList. }
  assert (Options_GetAll (sub_Options (RemoteConfig_marshal r).2) fetchKey = rc_Fetch r) as Ef.
  { rewrite remote_marshal_eq, GetAll_markMirror_other by fold_const. apply GetAll_setList; [done|]. by rewrite GetAll_setList_other by fold_const. }
  assert (Options_GetAll (sub_Options (RemoteConfig_marshal r).2) pushurlKey = []) as Ep by (rewrite remote_marshal_other by fold_const; done).
  assert (bool_decide (Options_Get (sub_Options (RemoteConfig_marshal r).2) mirrorKey = bs "true") = rc_Mirror r) as Em.
  { rewrite remote_marshal_eq. unfold markMirror. destruct (rc_Mirror r) eqn:E.
    - cbn [Subsection_SetOption setSubOptions sub_Options]. rewrite Get_setted. done.
    - apply bool_decide_eq_false_2. intros Hb. apply Hm; [done|]. rewrite <- Hb. apply Get_ext. by rewrite !GetAll_setList_other by fold_const. }
  unfold RemoteConfig_unmarshal. rewrite Ef, Hf. cbn [res_bind]. rewrite Eu, Ep, Em, app_nil_r, remote_marshal_name. by eexists.
Qed.

Lemma remote_sub_ok k r : remote_ok k r -> sub_ok (RemoteConfig_marshal r).2.
Proof.
  intros [[Hn [Hk1 Hk2]] Ho [Hu Hf] _ _ _ _ _ _]. split; [rewrite remote_marshal_name, Hn; done|]. rewrite remote_marshal_eq. unfold markMirror.
  assert (Forall opt_ok (sub_Options (setList (setList (MkSubsection (rc_Name r) (rawOptions (rc_raw r))) urlKey (rc_URLs r) (writtenURLs r)) fetchKey (rc_Fetch r) (rc_Fetch r)))) as Hl.
  { apply opt_ok_setList; [|by_decision|done]. apply opt_ok_setList; [done|by_decision|done]. }
  destruct (rc_Mirror r); [|done]. apply opt_ok_setted; [done|by_decision|by_decision].
Qed.
(** *** Branches *)
Definition plainBranch (b : Branch) : Branch := MkBranch (br_Name b) (br_Remote b) (br_Merge b) (br_Rebase b) (br_Description b) None.

Lemma quote_head d c r : quoteDescription d = c :: r -> c <> x5c -> exists d', d = c :: d'.
Proof. destruct d as [|b d]; [done|]. unfold quoteDescription. cbn [flat_map]. case_bool_decide; cbn [app]; intros [= <- _]; [done|]. by eexists. Qed.
(** A description with lines is read back, when it has no backslash before a letter n. *)
Lemma unquote_quote d : Contains d [x5c; x6e] = false -> unquoteDescription (quoteDescription d) = d.
Proof.
  induction d as [|b d IH]; intros Hc; [done|]. cbn [Contains] in Hc. apply orb_false_iff in Hc as [Hp Hc]. specialize (IH Hc).
  change (quoteDescription (b :: d)) with ((if bool_decide (b = x0a) then [x5c; x6e] else [b]) ++ quoteDescription d).
  case_bool_decide as Hb; cbn [app unquoteDescription]; [subst; rewrite (bool_decide_eq_true_2 (x5c = x5c)), (bool_decide_eq_true_2 (x6e = x6e)) by done; cbn [andb]; by rewrite IH|].
  destruct (quoteDescription d) as [|c q] eqn:E; [by rewrite <- IH|].
  destruct (bool_decide (b = x5c) && bool_decide (c = x6e)) eqn:Ebc; [|by rewrite IH].
  apply andb_true_iff in Ebc as [->%bool_decide_eq_true ->%bool_decide_eq_true]. apply quote_head in E as [d' ->]; [|done]. done.
Qed.

Record branch_ok (k : bytes) (b : Branch) : Prop := {
  branch_name : br_Name b = k /\ name_ok k;
  branch_raw : Forall opt_ok (rawOptions (br_raw b));
  branch_texts : value_ok (br_Remote b) /\ value_ok (br_Merge b) /\ value_ok (br_Rebase b) /\ value_ok (quoteDescription (br_Description b));
  branch_lines : Contains (br_Description b) [x5c; x6e] = false;
  branch_valid : Branch_Validate b = None }.

Definition branchSub (b : Branch) : Subsection :=
  setOrRemove (setOrRemove (setOrRemove (setOrRemove (MkSubsection (br_Name b) (rawOptions (br_raw b))) remoteSection (br_Remote b) (br_Remote b))
    mergeKey (br_Merge b) (br_Merge b)) rebaseKey (br_Rebase b) (br_Rebase b)) descriptionKey (br_Description b) (quoteDescription (br_Description b)).
Lemma branch_marshal_eq b : (Branch_marshal b).2 = branchSub b.
Proof. done. Qed.
Lemma branch_marshal_name b : sub_Name (Branch_marshal b).2 = br_Name b.
Proof. rewrite branch_marshal_eq. unfold branchSub. by rewrite !setOrRemove_name. Qed.
Lemma branch_marshal_other b k : EqualFold remoteSection k = false -> EqualFold mergeKey k = false -> EqualFold rebaseKey k = false ->
  EqualFold descriptionKey k = false -> Options_GetAll (sub_Options (Branch_marshal b).2) k = Options_GetAll (rawOptions (br_raw b)) k.
Proof. intros H1 H2 H3 H4. rewrite branch_marshal_eq. unfold branchSub. by rewrite !GetAll_setOrRemove_other. Qed.

Lemma branch_reads k b : branch_ok k b -> exists b', Branch_unmarshal (Branch_marshal b).2 = Ok b' /\ plainBranch b' = plainBranch b.
Proof.
  intros [_ _ _ Hl Hv]. unfold Branch_unmarshal. rewrite branch_marshal_name, branch_marshal_eq. unfold branchSub.
  rewrite (Get_setOrRemove _ descriptionKey) by (by intros ->). rewrite unquote_quote by done.
  rewrite !(Get_setOrRemove_other _ descriptionKey) by fold_const. rewrite (Get_setOrRemove _ rebaseKey) by done.
  rewrite !(Get_setOrRemove_other _ rebaseKey) by fold_const. rewrite (Get_setOrRemove _ mergeKey) by done.
  rewrite !(Get_setOrRemove_other _ mergeKey) by fold_const. rewrite (Get_setOrRemove _ remoteSection) by done.
  unfold Branch_Validate in *. cbn [br_Name br_Merge br_Rebase]. rewrite Hv. by eexists.
Qed.
Lemma branch_sub_ok k b : branch_ok k b -> sub_ok (Branch_marshal b).2.
Proof.
  intros [[Hn [Hk1 Hk2]] Ho (H1 & H2 & H3 & H4) _ _]. split; [rewrite branch_marshal_name, Hn; done|]. rewrite branch_marshal_eq. unfold branchSub.
  apply opt_ok_setOrRemove; [|by_decision|done]. apply opt_ok_setOrRemove; [|by_decision|done]. apply opt_ok_setOrRemove; [|by_decision|done].
  apply opt_ok_setOrRemove; [done|by_decision|done].
Qed.

(** *** Rules for URLs *)
Definition plainURL (u : URL) : URL := MkURL (url_Name u) (url_InsteadOfs u) None.
Record url_ok (k : bytes) (u : URL) : Prop := {
  url_name : url_Name u = k /\ name_ok k;
  url_raw_ok : Forall opt_ok (rawOptions (url_raw u));
  url_texts : Forall value_ok (url_InsteadOfs u);
  url_rules_raw : Options_GetAll (rawOptions (url_raw u)) insteadOfKey = [] \/ Options_GetAll (rawOptions (url_raw u)) insteadOfKey = url_InsteadOfs u }.

Lemma url_reads k u : url_ok k u -> plainURL (URL_unmarshal (URL_marshal u).2) = plainURL u.
Proof.
  intros [_ _ _ Hr]. unfold URL_unmarshal, plainURL, Subsection_OptionAll. cbn [URL_marshal snd url_Name url_InsteadOfs Subsection_SetOption setSubOptions sub_Name sub_Options].
  f_equal. destruct Hr; [by apply GetAll_setted_new|by apply GetAll_setted_same].
Qed.
Lemma url_sub_ok k u : url_ok k u -> sub_ok (URL_marshal u).2.
Proof. intros [[Hn [Hk1 Hk2]] Ho Ht _]. split; cbn; [by rewrite Hn|]. apply opt_ok_setted; [done|by_decision|done]. Qed.

(** *** Submodules: the configuration of a repository does not have their path *)
Definition plainModule (m : Submodule) : Submodule := MkSubmodule (mod_Name m) (mod_Path m) (mod_URL m) (mod_Branch m) None.
Definition plainSubmodule (m : Submodule) : Submodule := MkSubmodule (mod_Name m) [] (mod_URL m) (mod_Branch m) None.
Record submodule_ok (k : bytes) (m : Submodule) : Prop := {
  submodule_name : mod_Name m = k /\ name_ok k;
  submodule_raw : Forall opt_ok (rawOptions (mod_raw m));
  submodule_texts : value_ok (mod_Path m) /\ value_ok (mod_URL m) /\ value_ok (mod_Branch m);
  submodule_branch_raw : mod_Branch m = [] -> Options_Get (rawOptions (mod_raw m)) branchKey = [] }.

Definition branchOption (m : Submodule) (raw : Subsection) : Subsection :=
  if bool_decide (mod_Branch m = []) then raw else Subsection_SetOption raw branchKey [mod_Branch m].
Lemma submodule_marshal_eq k m : submodule_ok k m -> (Submodule_marshal m).2 =
  branchOption m (Subsection_SetOption (Subsection_SetOption (MkSubsection k (rawOptions (mod_raw m))) pathKey [mod_Path m]) urlKey [mod_URL m]).
Proof. intros [[Hn [Hk _]] _ _ _]. unfold Submodule_marshal. rewrite (bool_decide_eq_false_2 (mod_Name m = [])) by (by rewrite Hn). by rewrite Hn. Qed.
Lemma branchOption_other m raw k : EqualFold branchKey k = false -> Options_Get (sub_Options (branchOption m raw)) k = Options_Get (sub_Options raw) k.
Proof. intros Hk. unfold branchOption. case_match; [done|]. by apply Get_setted_other. Qed.
Lemma branchOption_name m raw : sub_Name (branchOption m raw) = sub_Name raw.
Proof. unfold branchOption. by case_match. Qed.

Lemma module_fields k m : submodule_ok k m -> let s := (Submodule_marshal m).2 in
  sub_Name s = k /\ Subsection_Option s pathKey = mod_Path m /\ Subsection_Option s urlKey = mod_URL m /\ Subsection_Option s branchKey = mod_Branch m.
Proof.
  intros Hok. cbv zeta. rewrite (submodule_marshal_eq k) by done. destruct Hok as [_ _ _ Hb]. unfold Subsection_Option. split_and!.
  - by rewrite branchOption_name.
  - rewrite branchOption_other by fold_const. cbn [Subsection_SetOption setSubOptions sub_Options]. rewrite Get_setted_other by fold_const. apply Get_setted.
  - rewrite branchOption_other by fold_const. apply Get_setted.
  - unfold branchOption. case_bool_decide as E; [|apply Get_setted]. cbn [Subsection_SetOption setSubOptions sub_Options].
    rewrite !Get_setted_other by fold_const. rewrite E. by apply Hb.
Qed.
Lemma module_reads k m : submodule_ok k m -> plainModule (Submodule_unmarshal (Submodule_marshal m).2) = plainModule m.
Proof.
  intros Hok. destruct (module_fields k m Hok) as (H1 & H2 & H3 & H4). unfold Submodule_unmarshal, plainModule.
  cbn [mod_Name mod_Path mod_URL mod_Branch]. rewrite H1, H2, H3, H4. destruct Hok as [[<- _] _ _ _]. done.
Qed.

Lemma configSubmodule_eq m : (configSubmodule m).2 = Subsection_RemoveOption (Submodule_marshal m).2 pathKey.
Proof. unfold configSubmodule. by destruct (Submodule_marshal m). Qed.
Lemma submodule_reads k m : submodule_ok k m ->
  plainSubmodule (Submodule_unmarshal (configSubmodule m).2) = plainSubmodule m /\ mod_Path (Submodule_unmarshal (configSubmodule m).2) = [] /\
  sub_Name (configSubmodule m).2 = k.
Proof.
  intros Hok. destruct (module_fields k m Hok) as (H1 & H2 & H3 & H4). rewrite configSubmodule_eq. unfold Subsection_Option in *.
  unfold Submodule_unmarshal, plainSubmodule, Subsection_Option, Subsection_RemoveOption. cbn [mod_Name mod_Path mod_URL mod_Branch setSubOptions sub_Options sub_Name].
  rewrite Get_without. rewrite !Get_without_other by fold_const. rewrite H1, H3, H4. destruct Hok as [[<- _] _ _ _]. done.
Qed.
Lemma module_sub_ok k m : submodule_ok k m -> sub_ok (Submodule_marshal m).2.
Proof.
  intros Hok. pose proof (module_fields k m Hok) as [Hn _]. split; [rewrite Hn; by destruct Hok as [[_ ?] _ _ _]|]. rewrite (submodule_marshal_eq k) by done.
  destruct Hok as [_ Ho (H1 & H2 & H3) _]. assert (Forall opt_ok (sub_Options (Subsection_SetOption (Subsection_SetOption
    (MkSubsection k (rawOptions (mod_raw m))) pathKey [mod_Path m]) urlKey [mod_URL m]))) as Hs.
  { apply opt_ok_setted; [|by_decision|by constructor]. apply opt_ok_setted; [done|by_decision|by constructor]. }
  unfold branchOption. case_match; [done|]. apply opt_ok_setted; [done|by_decision|by constructor].
Qed.
Lemma submodule_sub_ok k m : submodule_ok k m -> sub_ok (configSubmodule m).2.
Proof. intros Hok. pose proof (module_sub_ok k m Hok) as [Hn Ho]. rewrite configSubmodule_eq. split; [done|]. by apply opt_ok_without. Qed.
End Marshalled.
