(* ===== verification/ConfigRoundtrip.v ===== *)
(** * config: a configuration is read back as it was written

    [Marshal] as a list of steps, each on one section of the raw configuration; what [Unmarshal] makes of a raw
    configuration; the round trip between them, and the options that neither of them knows. *)
From S2P Require Import Prelude GoStrings Strconv ObjectID Reference RefSpec Packp ConfigFormat ConfigText Config ConfigProofs.

(** ** Raw configurations that can be written *)
Section Raw.
Context `{FoldingLaws}.

Definition raw_ok (raw : RawConfig) : Prop := Forall sec_ok (raw_Sections raw) /\ distinct_sections (raw_Sections raw).

Lemma distinct_names l : distinct_sections l <-> ForallOrdPairs (fun a b => EqualFold a b = false) (map sec_Name l).
Proof.
  unfold distinct_sections. induction l as [|s l IH]; cbn [map]; [split; constructor|]. split; intros Hd; inversion Hd as [|? ? Hs Hl]; subst.
  - constructor; [|by apply IH]. by apply Forall_fmap.
  - constructor; [|by apply IH]. by apply Forall_fmap in Hs.
Qed.
Lemma map_alter_same {A B} (g : A -> B) f i : forall l, (forall x, g (f x) = g x) -> map g (alter f i l) = map g l.
Proof.
  induction i as [|i IH]; intros [|x l] Hg; try done.
  - change (alter f 0%nat (x :: l)) with (f x :: l). cbn [map]. by rewrite Hg.
  - change (alter f (S i) (x :: l)) with (x :: alter f i l). cbn [map]. by rewrite IH.
Qed.
Lemma distinct_snoc l s : distinct_sections l -> Forall (fun t => Section_IsName t (sec_Name s) = false) l -> distinct_sections (l ++ [s]).
Proof.
  induction l as [|t l IH]; intros Hd Hs; cbn [app]; [repeat constructor|]. inversion Hd as [|? ? Ht Hl]; subst. apply Forall_cons in Hs as [Hts Hs].
  constructor; [|by apply IH]. apply Forall_app. split; [done|]. by constructor.
Qed.

Lemma raw_ok_inSection raw n f : raw_ok raw -> ident n -> (forall s, sec_Name (f s) = sec_Name s) -> (forall s, sec_ok s -> sec_ok (f s)) -> raw_ok (inSection raw n f).
Proof.
  intros [Hs Hd] Hn Hname Hf. unfold raw_ok. rewrite sections_inSection. pose proof (lastMatch_index (raw_Sections raw) n) as Hi.
  destruct (lastIndex _ _) as [i|]; split.
  - apply Forall_alter; [done|]. intros s _. apply Hf.
  - apply distinct_names. rewrite map_alter_same by done. by apply distinct_names.
  - apply Forall_app. split; [done|]. constructor; [|constructor]. apply Hf. split; cbn; [done|constructor..].
  - apply distinct_snoc; [done|]. rewrite Hname. cbn [sec_Name]. by apply lastMatch_none.
Qed.

(** Steps, each on one section. *)
Definition steps : Type := list (bytes * (ConfigSection -> ConfigSection)).
Definition applySteps (raw : RawConfig) (l : steps) : RawConfig := foldl (fun raw p => inSection raw p.1 p.2) raw l.
Definition steps_apart (l : steps) : Prop := ForallOrdPairs (fun a b => EqualFold a b = false) (map fst l).

Lemma held_steps l : forall raw n, Forall (fun p => on_held p.2) l -> steps_apart l ->
  held (secOf (applySteps raw l) n) =
  match List.find (fun p => EqualFold p.1 n) l with Some p => held (p.2 (secOf raw p.1)) | None => held (secOf raw n) end.
Proof.
  induction l as [|p l IH]; intros raw n Hl Ha; [done|]. apply Forall_cons in Hl as [Hp Hl]. inversion Ha as [|? ? Hpl Ha']; subst.
  rewrite Forall_fmap in Hpl. unfold applySteps. cbn [foldl List.find]. fold (applySteps (inSection raw p.1 p.2) l). rewrite IH by done.
  destruct (EqualFold p.1 n) eqn:E.
  - assert (List.find (fun p => EqualFold p.1 n) l = None) as ->; [|by rewrite held_inSection, E].
    destruct (List.find _ l) as [q|] eqn:F; [|done]. exfalso. apply find_some in F as [Hq Hqn]. rewrite Forall_forall in Hpl.
    specialize (Hpl q (proj2 (list_elem_of_In _ _) Hq)). cbn in Hpl. apply not_true_iff_false in Hpl. apply Hpl.
    eapply EqualFold_trans; [exact E|]. by apply EqualFold_sym.
  - destruct (List.find _ l) as [q|] eqn:F; [|by rewrite held_inSection, E]. apply find_some in F as [Hq Hqn].
    rewrite Forall_forall in Hpl. specialize (Hpl q (proj2 (list_elem_of_In _ _) Hq)). cbn in Hpl. rewrite Forall_forall in Hl.
    apply (Hl q); [by apply list_elem_of_In|]. by rewrite held_inSection, Hpl.
Qed.
Lemma raw_ok_steps l : forall raw, raw_ok raw -> Forall (fun p => ident p.1 /\ (forall s, sec_Name (p.2 s) = sec_Name s) /\ (forall s, sec_ok s -> sec_ok (p.2 s))) l ->
  raw_ok (applySteps raw l).
Proof.
  induction l as [|p l IH]; intros raw Hr Hl; [done|]. apply Forall_cons in Hl as [(H1 & H2 & H3) Hl]. apply IH; [|done]. by apply raw_ok_inSection.
Qed.
Lemma steps_apart_ascii l : Forall isAscii (map fst l) -> NoDup (map (map lowerByte) (map fst l)) -> steps_apart l.
Proof.
  unfold steps_apart. induction (map fst l) as [|n ns IH]; intros Ha Hd; [constructor|]. apply Forall_cons in Ha as [Hn Ha]. cbn [map] in Hd.
  apply NoDup_cons in Hd as [Hx Hd]. constructor; [|by apply IH]. apply Forall_forall. intros m Hm. rewrite Forall_forall in Ha.
  rewrite EqualFold_ascii by auto. apply bool_decide_eq_false_2. intros E. apply Hx. rewrite E. by apply (list_elem_of_fmap_2 (map lowerByte)).
Qed.

(** What the steps do to options and to subsections. *)
Lemma on_held_options g : on_held (fun s => setOptions s (g (sec_Options s))).
Proof. split; [done|]. intros s t [= E1 E2]. unfold held. cbn. by rewrite E1, E2. Qed.
Lemma on_held_subsections l : on_held (fun s => setSubsections s l).
Proof. split; [done|]. intros s t [= E1 E2]. unfold held. cbn. by rewrite E1. Qed.
Lemma on_held_comp f g : on_held f -> on_held g -> on_held (fun s => f (g s)).
Proof. intros [F1 F2] [G1 G2]. split; [intros s; by rewrite F1|]. intros s t E. by apply F2, G2. Qed.
Lemma on_held_SetOption k v : on_held (fun s => Section_SetOption s k v).
Proof. apply (on_held_options (fun o => withSettedOption o k [v])). Qed.
Lemma on_held_setWhen b k v : on_held (setWhen b k v).
Proof. destruct b; [apply on_held_SetOption|]. by split. Qed.
Lemma on_held_person p : on_held (writePerson p).
Proof. apply (on_held_comp (setWhen _ _ _) (setWhen _ _ _)); apply on_held_setWhen. Qed.

Lemma sec_ok_SetOption s k v : sec_ok s -> ident k -> value_ok v -> sec_ok (Section_SetOption s k v).
Proof. intros [H1 H2 H3 H4] Hk Hv. split; cbn; [done| |done|done]. apply opt_ok_setted; [done|done|by constructor]. Qed.
Lemma sec_ok_setWhen s b k v : sec_ok s -> ident k -> (b = true -> value_ok v) -> sec_ok (setWhen b k v s).
Proof. intros Hs Hk Hv. destruct b; [|done]. apply sec_ok_SetOption; auto. Qed.
Lemma sec_ok_setSubsections s l : sec_ok s -> Forall sub_ok l -> NoDup (map sub_Name l) -> sec_ok (setSubsections s l).
Proof. intros [H1 H2 H3 H4] Hl Hd. by split. Qed.
End Raw.

(** ** [Marshal] *)
Section Marshalling.
Context `{FoldingLaws} `{MapOrderLaws}.

Definition coreStep (c : Config) (s : ConfigSection) : ConfigSection :=
  setWhen (nonEmpty (core_AutoCRLF (Core c))) autoCRLFKey (core_AutoCRLF (Core c))
    (setWhen (nonEmpty (core_Worktree (Core c))) worktreeKey (core_Worktree (Core c))
      (setWhen (nonEmpty (core_RepositoryFormatVersion (Core c))) repositoryFormatVersionKey (core_RepositoryFormatVersion (Core c))
        (Section_SetOption s bareKey (FormatBool (core_IsBare (Core c)))))).
Definition subsStep (l : list Subsection) (s : ConfigSection) : ConfigSection := setSubsections s l.

(** The subsections that are written. *)
Definition remoteSubs (c : Config) (raw : RawConfig) : list Subsection := (marshalNamed RemoteConfig_marshal (subsOf raw remoteSection) (Remotes c)).1.
Definition branchSubs (c : Config) (raw : RawConfig) : list Subsection := (marshalNamed Branch_marshal (subsOf raw branchSection) (Branches c)).1.
Definition submoduleSubs (c : Config) : list Subsection := (marshalRange configSubmodule (Submodules c)).1.
Definition urlSubs (c : Config) : list Subsection := (marshalRange URL_marshal (URLs c)).1.

Definition steps1 (c : Config) : steps :=
  (coreSection, coreStep c) ::
  (if bool_decide (core_RepositoryFormatVersion (Core c) = Version_1) then
     [(extensionsSection, fun s => Section_SetOption s objectFormat (format_String (Extensions_ObjectFormat c)))] else []) ++
  [(userSection, writePerson (User c)); (authorSection, writePerson (Author c)); (committerSection, writePerson (Committer c));
   (packSection, setWhen (negb (Pack_Window c =? DefaultPackWindow)) windowKey (FormatInt (Pack_Window c)))].
Definition steps2 (c : Config) (raw : RawConfig) : steps :=
  [(remoteSection, subsStep (remoteSubs c raw)); (submoduleSection, subsStep (submoduleSubs c)); (branchSection, subsStep (branchSubs c raw));
   (urlSection, subsStep (urlSubs c))].
Definition steps3 (c : Config) : steps :=
  (if negb (Protocol_Version c =? DefaultProtocolVersion) then
     [(protocolSection, fun s => Section_SetOption s versionKey (Version_String (Protocol_Version c)))] else []) ++
  [(initSection, setWhen (nonEmpty (Init_DefaultBranch c)) defaultBranchKey (Init_DefaultBranch c))].
Definition marshalSteps (c : Config) (raw : RawConfig) : steps := steps1 c ++ steps2 c raw ++ steps3 c.

Lemma marshalSteps_apart c raw : steps_apart (marshalSteps c raw).
Proof.
  apply steps_apart_ascii; unfold marshalSteps, steps1, steps2, steps3;
    destruct (bool_decide (core_RepositoryFormatVersion (Core c) = Version_1)), (negb (Protocol_Version c =? DefaultProtocolVersion));
    cbn [app map fst]; by_decision.
Qed.
Lemma marshalSteps_on_held c raw : Forall (fun p => on_held p.2) (marshalSteps c raw).
Proof.
  unfold marshalSteps, steps1, steps2, steps3. rewrite !Forall_app.
  assert (on_held (coreStep c)).
  { apply (on_held_comp (setWhen _ _ _) (fun s => _)); [apply on_held_setWhen|]. apply (on_held_comp (setWhen _ _ _) (fun s => _)); [apply on_held_setWhen|].
    apply (on_held_comp (setWhen _ _ _) (fun s => _)); [apply on_held_setWhen|]. apply on_held_SetOption. }
  split_and!; repeat first [case_bool_decide | case_match | apply Forall_cons_2 | apply Forall_nil_2]; cbn [snd];
    first [done | apply on_held_SetOption | apply on_held_person | apply on_held_setWhen | apply on_held_subsections].
Qed.

Lemma onRaw_eq c raw n f : Raw c = Some raw -> onRaw c n f = Ok (setRaw c (inSection raw n f)).
Proof. intros E. unfold onRaw. by rewrite E. Qed.
Lemma rawSection_eq c raw n : Raw c = Some raw -> rawSection c n = Ok (secOf raw n, setRaw c (theSection raw n).2).
Proof. intros E. unfold rawSection, secOf. rewrite E. by destruct (theSection raw n). Qed.

(** Two configurations that differ only in their raw configuration and their maps. *)
Lemma marshal1_eq c raw : Raw c = Some raw ->
  (let* c := marshalCore c in let* c := marshalExtensions c in let* c := marshalUser c in marshalPack c) = Ok (setRaw c (applySteps raw (steps1 c))).
Proof.
  intros E. unfold marshalCore. rewrite (onRaw_eq _ raw) by done. cbn [res_bind]. unfold marshalExtensions, steps1. cbn [Core setRaw].
  destruct (bool_decide (core_RepositoryFormatVersion (Core c) = Version_1)).
  - erewrite onRaw_eq by done. cbn [res_bind]. unfold marshalUser. do 3 (erewrite onRaw_eq by done; cbn [res_bind]). unfold marshalPack. by erewrite onRaw_eq by done.
  - cbn [res_bind]. unfold marshalUser. do 3 (erewrite onRaw_eq by done; cbn [res_bind]). unfold marshalPack. by erewrite onRaw_eq by done.
Qed.
Lemma marshal2_eq c raw : Raw c = Some raw -> exists r s b u,
  (let* c := marshalRemotes c in let* c := marshalSubmodules c in let* c := marshalBranches c in marshalURLs c) =
  Ok (setMaps (setRaw c (applySteps raw (steps2 c raw))) r s b u).
Proof.
  intros E. unfold marshalRemotes. rewrite (rawSection_eq _ raw) by done. cbn [res_bind]. unfold steps2, remoteSubs, submoduleSubs, branchSubs, urlSubs. fold (subsOf raw remoteSection).
  cbn [setRaw Remotes]. destruct (marshalNamed RemoteConfig_marshal _ _) as [l1 r]. erewrite onRaw_eq by done. rewrite theSection_inSection. cbn [res_bind fst].
  unfold marshalSubmodules. cbn [setRaw setMaps Submodules]. destruct (marshalRange configSubmodule _) as [l2 s]. erewrite onRaw_eq by done. cbn [res_bind fst].
  unfold marshalBranches. erewrite rawSection_eq by done. cbn [res_bind setRaw setMaps Branches].
  match goal with |- context [sec_Subsections (secOf ?r _)] => set (raw2 := r) end.
  assert (sec_Subsections (secOf raw2 branchSection) = subsOf raw branchSection) as ->.
  { assert (held (secOf raw2 branchSection) = held (secOf raw branchSection)) as Hh; [|by injection Hh].
    unfold raw2. rewrite held_inSection by apply on_held_subsections. replace (EqualFold submoduleSection branchSection) with false by (symmetry; fold_const).
    rewrite held_inSection by apply on_held_subsections. by replace (EqualFold remoteSection branchSection) with false by (symmetry; fold_const). }
  destruct (marshalNamed Branch_marshal _ _) as [l3 b]. erewrite onRaw_eq by done. rewrite theSection_inSection. cbn [res_bind fst].
  unfold marshalURLs. cbn [setRaw setMaps URLs]. destruct (marshalRange URL_marshal _) as [l4 u]. erewrite onRaw_eq by done.
  exists r, s, b, u. done.
Qed.
Lemma marshal3_eq c raw : Raw c = Some raw ->
  (let* c := marshalProtocol c in marshalInit c) = Ok (setRaw c (applySteps raw (steps3 c))).
Proof.
  intros E. unfold marshalProtocol, steps3. destruct (negb (Protocol_Version c =? DefaultProtocolVersion)).
  - rewrite (onRaw_eq _ raw) by done. cbn [res_bind]. unfold marshalInit. by erewrite onRaw_eq by done.
  - cbn [res_bind]. unfold marshalInit. by rewrite (onRaw_eq _ raw).
Qed.

(** The first steps leave the other sections alone. *)
Lemma steps_apart_app a b : steps_apart (a ++ b) -> steps_apart a.
Proof.
  unfold steps_apart. induction a as [|p a IH]; intros Hab; [constructor|]. inversion Hab as [|? ? Hp Hl]; subst.
  constructor; [|by apply IH]. rewrite map_app in Hp. by apply Forall_app in Hp as [? _].
Qed.
Lemma steps1_subs c raw n :
  Forall (fun m => EqualFold m n = false) [coreSection; extensionsSection; userSection; authorSection; committerSection; packSection] ->
  subsOf (applySteps raw (steps1 c)) n = subsOf raw n.
Proof.
  intros Hn. assert (held (secOf (applySteps raw (steps1 c)) n) = held (secOf raw n)) as Hh; [|by injection Hh].
  pose proof (marshalSteps_on_held c raw) as Hon. apply Forall_app in Hon as [Hon _].
  rewrite held_steps; [|done|apply (steps_apart_app _ (steps2 c raw ++ steps3 c)), marshalSteps_apart].
  destruct (List.find _ _) as [p|] eqn:F; [|done]. exfalso. apply find_some in F as [Hp Hpn]. apply list_elem_of_In in Hp.
  assert (Forall (fun p => EqualFold p.1 n = false) (steps1 c)) as Hs.
  { unfold steps1. rewrite !Forall_cons in Hn. destruct Hn as (Hn1 & Hn2 & Hn3 & Hn4 & Hn5 & Hn6 & _).
    destruct (bool_decide _); cbn [app]; repeat apply Forall_cons_2; first [done | apply Forall_nil_2]. }
  rewrite Forall_forall in Hs. specialize (Hs p Hp). cbn in Hs. congruence.
Qed.
Ltac fold_consts := repeat (apply Forall_cons_2; [fold_const|]); apply Forall_nil_2.

Lemma steps2_same c raw raw' : subsOf raw remoteSection = subsOf raw' remoteSection -> subsOf raw branchSection = subsOf raw' branchSection -> steps2 c raw = steps2 c raw'.
Proof. intros E1 E2. unfold steps2, remoteSubs, branchSubs. by rewrite E1, E2. Qed.

Lemma Marshal_eq c raw : Raw c = Some raw -> exists r s b u, let raw' := applySteps raw (marshalSteps c raw) in
  Marshal c = Ok (Encode raw', setMaps (setRaw c raw') r s b u).
Proof.
  intros E. pose proof (marshal1_eq c raw E) as M1. unfold Marshal.
  destruct (marshalCore c) as [c1| | |]; try done. cbn [res_bind] in *. destruct (marshalExtensions c1) as [c2| | |]; try done. cbn [res_bind] in *.
  destruct (marshalUser c2) as [c3| | |]; try done. cbn [res_bind] in *. rewrite M1. cbn [res_bind]. clear M1 c1 c2 c3.
  set (raw1 := applySteps raw (steps1 c)). pose proof (marshal2_eq (setRaw c raw1) raw1 eq_refl) as (r & s & b & u & M2).
  destruct (marshalRemotes _) as [c1| | |]; try done. cbn [res_bind] in *. destruct (marshalSubmodules c1) as [c2| | |]; try done. cbn [res_bind] in *.
  destruct (marshalBranches c2) as [c3| | |]; try done. cbn [res_bind] in *. rewrite M2. cbn [res_bind]. clear M2 c1 c2 c3.
  assert (steps2 (setRaw c raw1) raw1 = steps2 c raw) as ->
    by (apply (steps2_same c raw1 raw); unfold raw1; apply steps1_subs; fold_consts).
  set (c4 := setMaps _ r s b u). pose proof (marshal3_eq c4 (applySteps raw1 (steps2 c raw)) eq_refl) as M3.
  destruct (marshalProtocol c4) as [c5| | |]; try done. cbn [res_bind] in *. rewrite M3. cbn [res_bind setRaw Raw]. exists r, s, b, u.
  unfold marshalSteps, applySteps. rewrite !foldl_app. done.
Qed.
End Marshalling.

(** ** [Unmarshal] *)
Section Unmarshalling.
Context `{FoldingLaws} `{Gcfg} `{MapOrder}.

Definition same_raw (raw' raw : RawConfig) : Prop := forall n, held (secOf raw' n) = held (secOf raw n).

Lemma rawSection_same c raw' raw n : Raw c = Some raw' -> same_raw raw' raw -> exists s raw'',
  rawSection c n = Ok (s, setRaw c raw'') /\ same_raw raw'' raw /\ sec_Options s = optsOf raw n /\ sec_Subsections s = subsOf raw n.
Proof.
  intros E Hs. rewrite (rawSection_eq _ raw') by done. do 2 eexists. split; [done|]. split; [intros m; by rewrite held_theSection|].
  unfold optsOf, subsOf. specialize (Hs n). by injection Hs.
Qed.

Definition readCore (raw : RawConfig) : CoreConfig :=
  MkCore (bool_decide (Options_Get (optsOf raw coreSection) bareKey = bs "true")) (Options_Get (optsOf raw coreSection) worktreeKey)
    (Options_Get (optsOf raw coreSection) commentCharKey) [] (Options_Get (optsOf raw coreSection) autoCRLFKey).
Definition personOf (raw : RawConfig) (n : bytes) : Person := MkPerson (Options_Get (optsOf raw n) nameKey) (Options_Get (optsOf raw n) emailKey).
Definition readWindow (raw : RawConfig) : res Z :=
  let w := Options_Get (optsOf raw packSection) windowKey in if bool_decide (w = []) then Ok DefaultPackWindow else ParseUint w 10 32.
Definition readProtocol (raw : RawConfig) : res Z :=
  let v := Options_Get (optsOf raw protocolSection) versionKey in if bool_decide (v = []) then Ok DefaultProtocolVersion else protocol_Parse v.

Ltac read_section Hsame :=
  match goal with |- context [rawSection ?c ?n] =>
    let s := fresh "s" in let raw' := fresh "raw'" in let E := fresh "E" in let HS := fresh "HS" in let HO := fresh "HO" in let HU := fresh "HU" in
    destruct (rawSection_same c _ _ n eq_refl Hsame) as (s & raw' & E & HS & HO & HU); rewrite E; cbn [res_bind]; rewrite ?HO, ?HU; clear E; clear Hsame; rename HS into Hsame
  end.

Lemma Unmarshal_eq b raw window version ms brs us rs : Decode b format_New = (None, raw) -> readWindow raw = Ok window -> readProtocol raw = Ok version ->
  unmarshalSubmodules_loop (subsOf raw submoduleSection) (Some ∅) = Ok ms ->
  unmarshalBranches_loop (subsOf raw branchSection) (Some ∅) = Ok brs ->
  unmarshalURLs_loop (subsOf raw urlSection) (Some ∅) = Ok us ->
  unmarshalRemotes_loop (subsOf raw remoteSection) (Some ∅) = Ok rs -> optsOf raw remoteSection = [] ->
  exists raw', Unmarshal NewConfig b = Ok (MkConfig (readCore raw) (personOf raw userSection) (personOf raw authorSection) (personOf raw committerSection)
    window (Options_Get (optsOf raw initSection) defaultBranchKey) SHA1 version (option_map (fmap (applyURLRules us)) rs) ms brs us (Some raw')) /\ same_raw raw' raw.
Proof.
  intros Hd Hw Hv Hms Hbs Hus Hrs Hro. assert (same_raw raw raw) as Hsame by done. unfold Unmarshal. rewrite Hd.
  unfold unmarshalCore. read_section Hsame. unfold unmarshalUser. do 3 read_section Hsame. unfold readPerson. rewrite HO0, HO1, HO2.
  unfold unmarshalInit. read_section Hsame. unfold unmarshalPack. read_section Hsame.
  assert (forall c, (if bool_decide (Options_Get (optsOf raw packSection) windowKey = []) then Ok (setWindow c DefaultPackWindow)
    else let* winUint := ParseUint (Options_Get (optsOf raw packSection) windowKey) 10 32 in Ok (setWindow c winUint)) = Ok (setWindow c window)) as ->.
  { intros c. unfold readWindow in Hw. destruct (bool_decide _); [by injection Hw as <-|]. by rewrite Hw. }
  cbn [res_bind]. unfold unmarshalModules, unmarshalSubmodules. cbn [Raw setRaw setWindow setDefaultBranch setPersons setCore Submodules NewConfig].
  match goal with |- context [theSection ?r submoduleSection] => set (raw5 := r) in *; destruct (theSection raw5 submoduleSection) as [s5 raw6] eqn:E5 end.
  assert (sec_Subsections s5 = subsOf raw submoduleSection) as ->.
  { specialize (Hsame submoduleSection). unfold secOf at 1 in Hsame. rewrite E5 in Hsame. by injection Hsame. }
  rewrite Hms. cbn [res_bind]. assert (same_raw raw6 raw) as Hsame6.
  { intros n. change raw6 with (s5, raw6).2. rewrite <- E5, held_theSection. apply Hsame. }
  clear Hsame E5. unfold unmarshalBranches. read_section Hsame6. cbn [Branches setRaw setMaps setWindow setDefaultBranch setPersons setCore NewConfig]. rewrite Hbs. cbn [res_bind].
  unfold unmarshalURLs. read_section Hsame6. cbn [URLs setRaw setMaps setWindow setDefaultBranch setPersons setCore NewConfig]. rewrite Hus. cbn [res_bind].
  unfold unmarshalProtocol. read_section Hsame6.
  assert (forall c, (if bool_decide (Options_Get (optsOf raw protocolSection) versionKey = []) then Ok (setVersion c DefaultProtocolVersion)
    else let* v := protocol_Parse (Options_Get (optsOf raw protocolSection) versionKey) in Ok (setVersion (setVersion c DefaultProtocolVersion) v)) = Ok (setVersion c version)) as ->.
  { intros c. unfold readProtocol in Hv. destruct (bool_decide _); [by injection Hv as <-|]. by rewrite Hv. }
  cbn [res_bind]. unfold unmarshalRemotes. read_section Hsame6. rewrite Hro. cbn [Remotes setRaw setMaps setVersion setWindow setDefaultBranch setPersons setCore NewConfig]. rewrite Hrs. cbn [res_bind].
  change (len (@nil Option) >? 0) with false. cbn [res_bind]. eexists. split; [|exact Hsame6].
  unfold readCore, personOf. destruct (bool_decide (Options_Get (optsOf raw coreSection) bareKey = _)); reflexivity.
Qed.
End Unmarshalling.
