(* ===== verification/ConfigTheorems.v ===== *)
(** * config: theorems

    A configuration is read back as it was written; what is not known is kept; the rules for URLs, the paths of
    submodules and the merge of configurations. *)
From S2P Require Import Prelude GoStrings Strconv ObjectID Reference RefSpec Packp ConfigFormat ConfigText Config ConfigProofs ConfigRoundtrip.

Section Steps.
Context `{FoldingLaws} `{MapOrderLaws}.

(** What a section holds after [Marshal]. *)
Lemma step_held c raw n f : (n, f) ∈ marshalSteps c raw -> held (secOf (applySteps raw (marshalSteps c raw)) n) = held (f (secOf raw n)).
Proof.
  intros Hin. rewrite held_steps by (apply marshalSteps_on_held || apply marshalSteps_apart).
  pose proof (marshalSteps_apart c raw) as Ha. unfold steps_apart in Ha. clear -H0 Hin Ha.
  assert (List.find (fun p => EqualFold p.1 n) (marshalSteps c raw) = Some (n, f)) as ->; [|done].
  revert Hin Ha. generalize (marshalSteps c raw). induction s as [|p l IH]; intros Hin Ha; [by apply not_elem_of_nil in Hin|].
  inversion Ha as [|? ? Hp Hl]; subst. cbn [List.find]. apply elem_of_cons in Hin as [<-|Hin]; [cbn [fst]; by rewrite EqualFold_refl|].
  rewrite Forall_fmap, Forall_forall in Hp. specialize (Hp _ Hin). cbn in Hp. rewrite Hp. by apply IH.
Qed.
Lemma step_none c raw n : Forall (fun p => EqualFold p.1 n = false) (marshalSteps c raw) ->
  held (secOf (applySteps raw (marshalSteps c raw)) n) = held (secOf raw n).
Proof.
  intros Hn. rewrite held_steps by (apply marshalSteps_on_held || apply marshalSteps_apart).
  destruct (List.find _ _) as [p|] eqn:F; [|done]. exfalso. apply find_some in F as [Hp Hpn]. rewrite Forall_forall in Hn.
  specialize (Hn p (proj2 (list_elem_of_In _ _) Hp)). cbn in Hn. congruence.
Qed.
Lemma step_opts c raw n f : (n, f) ∈ marshalSteps c raw -> optsOf (applySteps raw (marshalSteps c raw)) n = sec_Options (f (secOf raw n)).
Proof. intros Hin. apply (f_equal fst (step_held c raw n f Hin)). Qed.
Lemma step_subs c raw n f : (n, f) ∈ marshalSteps c raw -> subsOf (applySteps raw (marshalSteps c raw)) n = sec_Subsections (f (secOf raw n)).
Proof. intros Hin. apply (f_equal snd (step_held c raw n f Hin)). Qed.

Lemma GetAll_setWhen_other b k v s k' : EqualFold k k' = false -> Options_GetAll (sec_Options (setWhen b k v s)) k' = Options_GetAll (sec_Options s) k'.
Proof. intros Hk. destruct b; [|done]. by apply GetAll_setted_other. Qed.
Lemma Get_setWhen_other b k v s k' : EqualFold k k' = false -> Options_Get (sec_Options (setWhen b k v s)) k' = Options_Get (sec_Options s) k'.
Proof. intros Hk. apply Get_ext. by apply GetAll_setWhen_other. Qed.
(** An optional field is read back, when nothing is left of an older value. *)
Lemma Get_setWhen_field k v s : (v = [] -> Options_Get (sec_Options s) k = []) -> Options_Get (sec_Options (setWhen (nonEmpty v) k v s)) k = v.
Proof. intros Hv. unfold nonEmpty. case_bool_decide as E; cbn [negb setWhen]; [rewrite E; by apply Hv|]. apply Get_setted. Qed.
End Steps.

(** ** Configurations that can be written and read back *)
Section Roundtrip.
Context `{FoldingLaws} `{GcfgLaws} `{MapOrderLaws}.

(** The texts can be written; an option whose field is unset has no older value in the raw configuration. *)
Definition unset_ok (raw : RawConfig) (sec key v : bytes) : Prop := v = [] -> Options_Get (optsOf raw sec) key = [].
Record person_ok (raw : RawConfig) (sec : bytes) (p : Person) : Prop := {
  person_texts : value_ok (person_Name p) /\ value_ok (person_Email p);
  person_unset : unset_ok raw sec nameKey (person_Name p) /\ unset_ok raw sec emailKey (person_Email p) }.
Record config_ok (raw : RawConfig) (c : Config) : Prop := {
  config_raw : Raw c = Some raw /\ raw_ok raw /\ optsOf raw remoteSection = [];
  config_core : value_ok (core_RepositoryFormatVersion (Core c)) /\ value_ok (core_Worktree (Core c)) /\ value_ok (core_AutoCRLF (Core c)) /\
    unset_ok raw coreSection worktreeKey (core_Worktree (Core c)) /\ unset_ok raw coreSection autoCRLFKey (core_AutoCRLF (Core c));
  config_persons : person_ok raw userSection (User c) /\ person_ok raw authorSection (Author c) /\ person_ok raw committerSection (Committer c);
  config_window : 0 <= Pack_Window c < 2 ^ 32 /\ (Pack_Window c = DefaultPackWindow -> Options_Get (optsOf raw packSection) windowKey = []);
  config_init : value_ok (Init_DefaultBranch c) /\ unset_ok raw initSection defaultBranchKey (Init_DefaultBranch c);
  config_version : Protocol_Version c ∈ [V0; V1; V2] /\ (Protocol_Version c = DefaultProtocolVersion -> Options_Get (optsOf raw protocolSection) versionKey = []);
  config_remotes : exists m, Remotes c = Some m /\ map_Forall remote_ok m;
  config_submodules : exists m, Submodules c = Some m /\ map_Forall submodule_ok m;
  config_branches : exists m, Branches c = Some m /\ map_Forall branch_ok m;
  config_urls : exists m, URLs c = Some m /\ map_Forall url_ok m }.

(** What [c'] says is what [c] says, with three exceptions.  The character of comments is read but not written: it is that of
    the raw configuration.  The formats of the repository and of its objects are written but not read: they are in the raw
    configuration that was read.  The paths of submodules are not written: they are empty. *)
Record same_config (raw : RawConfig) (c c' : Config) : Prop := {
  same_core : core_IsBare (Core c') = core_IsBare (Core c) /\ core_Worktree (Core c') = core_Worktree (Core c) /\ core_AutoCRLF (Core c') = core_AutoCRLF (Core c);
  same_comment : core_CommentChar (Core c') = Options_Get (optsOf raw coreSection) commentCharKey;
  same_format : core_RepositoryFormatVersion (Core c') = [] /\ Extensions_ObjectFormat c' = SHA1 /\ exists raw', Raw c' = Some raw' /\
    (core_RepositoryFormatVersion (Core c) <> [] -> Options_Get (optsOf raw' coreSection) repositoryFormatVersionKey = core_RepositoryFormatVersion (Core c)) /\
    (core_RepositoryFormatVersion (Core c) = Version_1 -> Options_Get (optsOf raw' extensionsSection) objectFormat = format_String (Extensions_ObjectFormat c));
  same_persons : User c' = User c /\ Author c' = Author c /\ Committer c' = Committer c;
  same_numbers : Pack_Window c' = Pack_Window c /\ Protocol_Version c' = Protocol_Version c;
  same_init : Init_DefaultBranch c' = Init_DefaultBranch c;
  same_remotes : option_map (fmap plainRemote) (Remotes c') = option_map (fmap plainRemote) (Remotes c);
  same_submodules : option_map (fmap plainModule) (Submodules c') = option_map (fmap plainSubmodule) (Submodules c);
  same_branches : option_map (fmap plainBranch) (Branches c') = option_map (fmap plainBranch) (Branches c);
  same_urls : option_map (fmap plainURL) (URLs c') = option_map (fmap plainURL) (URLs c) }.

(** *** The subsections that are written *)
Lemma subs_NoDup raw n : raw_ok raw -> NoDup (map sub_Name (subsOf raw n)).
Proof.
  intros [Hs _]. unfold subsOf. rewrite secOf_match. destruct (lastMatch (raw_Sections raw) n) as [s|] eqn:E; [|constructor]. cbn [default].
  unfold lastMatch in E. destruct (lastIndex _ _) as [i|]; [|done]. rewrite Forall_forall in Hs. by destruct (Hs s (list_elem_of_lookup_2 _ _ _ E)).
Qed.
Lemma lists_all_ok {V} (marshal : V -> V * Subsection) m l (P : bytes -> V -> Prop) : lists_all marshal m l -> map_Forall P m ->
  (forall k v, P k v -> sub_ok (marshal v).2) -> Forall sub_ok l /\ NoDup (map sub_Name l).
Proof.
  intros [Hd Hl] HP Hok. split; [|done]. apply Forall_forall. intros s Hs. apply Hl in Hs as (k & v & Hv & ->). eapply Hok, HP, Hv.
Qed.

Lemma remotes_named m : map_Forall remote_ok m -> named RemoteConfig_marshal m.
Proof. intros Hm k v Hv. rewrite remote_marshal_name. by destruct (Hm _ _ Hv) as [[? _] _ _ _ _ _ _ _ _]. Qed.
Lemma branches_named m : map_Forall branch_ok m -> named Branch_marshal m.
Proof. intros Hm k v Hv. rewrite branch_marshal_name. by destruct (Hm _ _ Hv) as [[? _] _ _ _ _]. Qed.
Lemma urls_named m : map_Forall url_ok m -> named URL_marshal m.
Proof. intros Hm k v Hv. by destruct (Hm _ _ Hv) as [[? _] _ _ _]. Qed.
Lemma submodules_named m : map_Forall submodule_ok m -> named configSubmodule m.
Proof. intros Hm k v Hv. by destruct (submodule_reads _ _ (Hm _ _ Hv)) as (_ & _ & ?). Qed.

Lemma remoteSubs_all c raw m : raw_ok raw -> Remotes c = Some m -> map_Forall remote_ok m -> lists_all RemoteConfig_marshal m (remoteSubs c raw).
Proof. intros Hr E Hm. unfold remoteSubs. rewrite E. exact (marshalNamed_all _ _ _ (subs_NoDup _ _ Hr) (remotes_named _ Hm)). Qed.
Lemma branchSubs_all c raw m : raw_ok raw -> Branches c = Some m -> map_Forall branch_ok m -> lists_all Branch_marshal m (branchSubs c raw).
Proof. intros Hr E Hm. unfold branchSubs. rewrite E. exact (marshalNamed_all _ _ _ (subs_NoDup _ _ Hr) (branches_named _ Hm)). Qed.
Lemma submoduleSubs_all c m : Submodules c = Some m -> map_Forall submodule_ok m -> lists_all configSubmodule m (submoduleSubs c).
Proof. intros E Hm. unfold submoduleSubs. rewrite E. exact (marshalRange_all _ _ (submodules_named _ Hm)). Qed.
Lemma urlSubs_all c m : URLs c = Some m -> map_Forall url_ok m -> lists_all URL_marshal m (urlSubs c).
Proof. intros E Hm. unfold urlSubs. rewrite E. exact (marshalRange_all _ _ (urls_named _ Hm)). Qed.

(** *** The raw configuration that is written can be written *)
Lemma digits_value n : 0 <= n -> value_ok (FormatInt n).
Proof.
  intros Hn. unfold FormatInt. destruct (Z.ltb_spec n 0); [lia|]. pose proof (digits_chars 10 ltac:(lia) n Hn) as Hd. split.
  - eapply Forall_impl; [exact Hd|]. intros b Hb. cbn in Hb. left. unfold printable. lia.
  - left. intros Hin. rewrite Forall_forall in Hd. specialize (Hd _ Hin). change (b2z x08) with 8 in Hd. cbn in Hd. lia.
Qed.
Lemma Version_value v : value_ok (Version_String v).
Proof. unfold Version_String. repeat case_match; by_decision. Qed.
Lemma format_value f : value_ok (format_String f).
Proof. unfold format_String. repeat case_match; by_decision. Qed.
Lemma person_step_ok raw sec p s : person_ok raw sec p -> sec_ok s -> sec_ok (writePerson p s).
Proof. intros [[H1' H2'] _] Hs. apply sec_ok_setWhen; [apply sec_ok_setWhen; [done|by_decision|done]|by_decision|done]. Qed.

Definition step_ok (p : bytes * (ConfigSection -> ConfigSection)) : Prop :=
  ident p.1 /\ (forall s, sec_Name (p.2 s) = sec_Name s) /\ (forall s, sec_ok s -> sec_ok (p.2 s)).
Lemma step_ok_intro n f : ident n -> on_held f -> (forall s, sec_ok s -> sec_ok (f s)) -> step_ok (n, f).
Proof. intros Hn Hf Hs. split; [done|]. split; [apply Hf|done]. Qed.

Lemma coreStep_ok c raw s : config_ok raw c -> sec_ok s -> sec_ok (coreStep c s).
Proof.
  intros Hc Hs. destruct (config_core _ _ Hc) as (Hv & Hw & Ha & _). unfold coreStep.
  do 3 (apply sec_ok_setWhen; [|by_decision|done]). apply sec_ok_SetOption; [done|by_decision|]. by destruct (core_IsBare (Core c)); by_decision.
Qed.
Lemma steps_ok raw c : config_ok raw c -> Forall step_ok (marshalSteps c raw).
Proof.
  intros Hc. pose proof (marshalSteps_on_held c raw) as Hon. destruct (config_raw _ _ Hc) as (_ & Hr & _).
  destruct (config_persons _ _ Hc) as (Hp1 & Hp2 & Hp3). destruct (config_window _ _ Hc) as [Hw _]. destruct (config_init _ _ Hc) as [Hi _].
  destruct (config_remotes _ _ Hc) as (rs & Er & Hrs). destruct (config_submodules _ _ Hc) as (ms & Em & Hms).
  destruct (config_branches _ _ Hc) as (brs & Eb & Hbs). destruct (config_urls _ _ Hc) as (us & Eu & Hus).
  destruct (lists_all_ok _ _ _ _ (remoteSubs_all c raw rs Hr Er Hrs) Hrs remote_sub_ok) as [R1 R2].
  destruct (lists_all_ok _ _ _ _ (branchSubs_all c raw brs Hr Eb Hbs) Hbs branch_sub_ok) as [B1 B2].
  destruct (lists_all_ok _ _ _ _ (submoduleSubs_all c ms Em Hms) Hms submodule_sub_ok) as [M1 M2].
  destruct (lists_all_ok _ _ _ _ (urlSubs_all c us Eu Hus) Hus url_sub_ok) as [U1 U2].
  assert (Forall (fun p => ident p.1 /\ (forall s, sec_ok s -> sec_ok (p.2 s))) (marshalSteps c raw)) as Hok.
  { unfold marshalSteps, steps1, steps2, steps3. rewrite !Forall_app.
    split_and!; repeat first [case_bool_decide | case_match | apply Forall_cons_2 | apply Forall_nil_2]; (split; [by_decision|intros s Hs; cbn [snd]]);
      first [by apply (coreStep_ok c raw) | by eapply person_step_ok | by apply sec_ok_setSubsections
            | apply sec_ok_SetOption; [done|by_decision|first [apply format_value|apply Version_value]]
            | apply sec_ok_setWhen; [done|by_decision|intros _; first [done|apply digits_value; lia]] ]. }
  clear -Hon Hok. induction Hon as [|[n f] l Hf _ IH]; [constructor|]. apply Forall_cons in Hok as [[Hn Hs] Hok]. constructor; [by apply step_ok_intro|by apply IH].
Qed.
(** *** What is read back *)
Lemma decoded raw : raw_ok raw -> exists raw2, Decode (Encode raw) format_New = (None, raw2) /\ same_raw raw2 raw.
Proof.
  intros [Hs Hd]. eexists. split; [by apply Decode_Encode|]. intros n. rewrite held_written by done. by rewrite !secOf_match.
Qed.

Ltac in_steps := unfold marshalSteps, steps1, steps2, steps3; repeat case_match; cbn [app]; rewrite ?elem_of_cons; tauto.

Section Read.
Context (c : Config) (raw raw2 : RawConfig) (Hc : config_ok raw c) (Hsame : same_raw raw2 (applySteps raw (marshalSteps c raw))).

Lemma read_opts n f : (n, f) ∈ marshalSteps c raw -> optsOf raw2 n = sec_Options (f (secOf raw n)).
Proof. intros Hin. rewrite <- (step_opts _ _ _ _ Hin). apply (f_equal fst (Hsame n)). Qed.
Lemma read_subs n f : (n, f) ∈ marshalSteps c raw -> subsOf raw2 n = sec_Subsections (f (secOf raw n)).
Proof. intros Hin. rewrite <- (step_subs _ _ _ _ Hin). apply (f_equal snd (Hsame n)). Qed.

Lemma read_core : core_IsBare (readCore raw2) = core_IsBare (Core c) /\ core_Worktree (readCore raw2) = core_Worktree (Core c) /\
  core_AutoCRLF (readCore raw2) = core_AutoCRLF (Core c).
Proof.
  destruct (config_core _ _ Hc) as (_ & _ & _ & Hw & Ha). unfold readCore. cbn [core_IsBare core_Worktree core_AutoCRLF].
  rewrite (read_opts coreSection (coreStep c)) by in_steps. unfold coreStep. split_and!.
  - rewrite !Get_setWhen_other by fold_const. cbn [Section_SetOption setOptions sec_Options]. rewrite Get_setted. by destruct (core_IsBare (Core c)).
  - rewrite Get_setWhen_other by fold_const. apply Get_setWhen_field. intros E. rewrite Get_setWhen_other by fold_const.
    cbn [Section_SetOption setOptions sec_Options]. rewrite Get_setted_other by fold_const. by apply Hw.
  - apply Get_setWhen_field. intros E. rewrite !Get_setWhen_other by fold_const.
    cbn [Section_SetOption setOptions sec_Options]. rewrite Get_setted_other by fold_const. by apply Ha.
Qed.
Lemma read_comment : core_CommentChar (readCore raw2) = Options_Get (optsOf raw coreSection) commentCharKey.
Proof.
  unfold readCore. cbn [core_CommentChar]. rewrite (read_opts coreSection (coreStep c)) by in_steps. unfold coreStep.
  rewrite !Get_setWhen_other by fold_const. cbn [Section_SetOption setOptions sec_Options]. by rewrite Get_setted_other by fold_const.
Qed.
(** The formats are in the raw configuration that is read. *)
Lemma read_format : (core_RepositoryFormatVersion (Core c) <> [] -> Options_Get (optsOf raw2 coreSection) repositoryFormatVersionKey = core_RepositoryFormatVersion (Core c)) /\
  (core_RepositoryFormatVersion (Core c) = Version_1 -> Options_Get (optsOf raw2 extensionsSection) objectFormat = format_String (Extensions_ObjectFormat c)).
Proof.
  split.
  - intros Hv. rewrite (read_opts coreSection (coreStep c)) by in_steps. unfold coreStep. rewrite !Get_setWhen_other by fold_const.
    by apply Get_setWhen_field.
  - intros Hv. rewrite (read_opts extensionsSection (fun s => Section_SetOption s objectFormat (format_String (Extensions_ObjectFormat c)))).
    + apply Get_setted.
    + unfold marshalSteps, steps1. rewrite bool_decide_eq_true_2 by done. cbn [app]. rewrite !elem_of_cons. tauto.
Qed.
Lemma read_person n p : (n, writePerson p) ∈ marshalSteps c raw -> person_ok raw n p -> personOf raw2 n = p.
Proof.
  intros Hin [_ [Hn He]]. unfold personOf. rewrite (read_opts n _ Hin). unfold writePerson. destruct p as [name email]. cbn [person_Name person_Email] in *. f_equal.
  - rewrite Get_setWhen_other by fold_const. by apply Get_setWhen_field.
  - apply Get_setWhen_field. intros E. rewrite Get_setWhen_other by fold_const. by apply He.
Qed.
Lemma read_window : readWindow raw2 = Ok (Pack_Window c).
Proof.
  destruct (config_window _ _ Hc) as [Hw Hd]. unfold readWindow.
  rewrite (read_opts packSection (setWhen (negb (Pack_Window c =? DefaultPackWindow)) windowKey (FormatInt (Pack_Window c)))) by in_steps.
  destruct (Z.eqb_spec (Pack_Window c) DefaultPackWindow) as [E|E]; cbn [negb setWhen].
  - fold (optsOf raw packSection). rewrite Hd by done. by rewrite bool_decide_eq_true_2, E.
  - cbn [Section_SetOption setOptions sec_Options]. rewrite Get_setted. unfold FormatInt. destruct (Z.ltb_spec (Pack_Window c) 0); [lia|].
    rewrite bool_decide_eq_false_2 by apply digits_nonempty. apply ParseUint_digits; lia.
Qed.
Lemma read_init : Options_Get (optsOf raw2 initSection) defaultBranchKey = Init_DefaultBranch c.
Proof.
  destruct (config_init _ _ Hc) as [_ Hi].
  rewrite (read_opts initSection (setWhen (nonEmpty (Init_DefaultBranch c)) defaultBranchKey (Init_DefaultBranch c))) by in_steps. by apply Get_setWhen_field.
Qed.
Lemma read_version : readProtocol raw2 = Ok (Protocol_Version c).
Proof.
  destruct (config_version _ _ Hc) as [Hv Hd]. unfold readProtocol. destruct (Z.eqb_spec (Protocol_Version c) DefaultProtocolVersion) as [E|E].
  - assert (optsOf raw2 protocolSection = optsOf raw protocolSection) as ->.
    { assert (held (secOf raw2 protocolSection) = held (secOf raw protocolSection)) as Hh; [|by injection Hh]. rewrite Hsame. apply (step_none c raw).
      unfold marshalSteps, steps1, steps2, steps3. rewrite E. cbn [Z.eqb negb app]. change (negb (DefaultProtocolVersion =? DefaultProtocolVersion)) with false.
      destruct (bool_decide _); cbn [app]; repeat (apply Forall_cons_2; [cbn [fst]; fold_const|]); apply Forall_nil_2. }
    rewrite Hd by done. by rewrite bool_decide_eq_true_2, E.
  - rewrite (read_opts protocolSection (fun s => Section_SetOption s versionKey (Version_String (Protocol_Version c)))).
    + cbn [Section_SetOption setOptions sec_Options]. rewrite Get_setted. rewrite !elem_of_cons in Hv.
      destruct Hv as [Hv|[Hv|[Hv|Hv]]]; [by rewrite Hv in *..|by apply not_elem_of_nil in Hv].
    + unfold marshalSteps, steps3. rewrite (proj2 (Z.eqb_neq _ _) E). cbn [negb]. rewrite !elem_of_app, elem_of_cons. tauto.
Qed.
Lemma read_no_remote : optsOf raw2 remoteSection = [].
Proof. destruct (config_raw _ _ Hc) as (_ & _ & Ho). rewrite (read_opts remoteSection (subsStep (remoteSubs c raw))) by in_steps. done. Qed.

(** The entities. *)
Lemma rules_plain urlRules r : rc_insteadOfRulesApplied r = false -> plainRemote (applyURLRules urlRules r) = plainRemote r.
Proof.
  intros Hr. unfold applyURLRules. rewrite Hr.
  assert (forall urls a, let '(urls', applied) := applyRules_loop urlRules urls a in applied = false -> urls' = urls /\ a = false) as Hl.
  { induction urls as [|u urls IH]; intros a; cbn [applyRules_loop]; [done|]. destruct (findLongestInsteadOfMatch u urlRules) as [rule|].
    - specialize (IH true). destruct (applyRules_loop urlRules urls true) as [urls' applied]. intros Ha. by destruct (IH Ha).
    - specialize (IH a). destruct (applyRules_loop urlRules urls a) as [urls' applied]. intros Ha. destruct (IH Ha) as [-> ->]. done. }
  specialize (Hl (rc_URLs r) false). destruct (applyRules_loop _ _ _) as [urls applied]. unfold plainRemote, writtenURLs. cbn. rewrite Hr.
  destruct applied; [done|]. by destruct (Hl eq_refl) as [-> _].
Qed.

Lemma read_remotes us : exists rs, unmarshalRemotes_loop (subsOf raw2 remoteSection) (Some ∅) = Ok (Some rs) /\
  option_map (fmap plainRemote) (Some (applyURLRules us <$> rs)) = option_map (fmap plainRemote) (Remotes c).
Proof.
  destruct (config_remotes _ _ Hc) as (m & Em & Hm). destruct (config_raw _ _ Hc) as (_ & Hr & _). pose proof (remoteSubs_all c raw m Hr Em Hm) as Hl.
  rewrite (read_subs remoteSection (subsStep (remoteSubs c raw))) by in_steps. cbn [subsStep setSubsections sec_Subsections].
  set (g := fun s => match RemoteConfig_unmarshal s with Ok r => r | _ => MkRemote [] [] false false [] [] None end).
  assert (forall s, s ∈ remoteSubs c raw -> RemoteConfig_unmarshal s = Ok (g s)) as Hg.
  { intros s Hs. apply Hl in Hs as (k & r & Hk & ->). destruct (remote_reads k r (Hm _ _ Hk)) as (r' & E & _). unfold g. by rewrite E. }
  eexists. split; [by apply remotes_loop|]. rewrite Em. cbn [option_map]. f_equal. rewrite <- map_fmap_compose.
  rewrite <- (rebuild RemoteConfig_marshal plainRemote plainRemote g m (remoteSubs c raw)); [|by apply remotes_named|done|].
  - apply map_fmap_ext. intros k r Hk. cbn. apply rules_plain.
    rewrite insert_subs_lookup in Hk by apply Hl. destruct (List.find _ _) as [s|] eqn:F; [|by rewrite lookup_empty in Hk]. injection Hk as <-.
    apply find_some in F as [Hs%list_elem_of_In _]. specialize (Hg s Hs). unfold RemoteConfig_unmarshal in Hg. inv_bind Hg. by injection Hg as <-.
  - intros k r Hk. destruct (remote_reads k r (Hm _ _ Hk)) as (r' & E & Hp). unfold g. by rewrite E.
Qed.
Lemma read_branches : exists rs, unmarshalBranches_loop (subsOf raw2 branchSection) (Some ∅) = Ok (Some rs) /\
  option_map (fmap plainBranch) (Some rs) = option_map (fmap plainBranch) (Branches c).
Proof.
  destruct (config_branches _ _ Hc) as (m & Em & Hm). destruct (config_raw _ _ Hc) as (_ & Hr & _). pose proof (branchSubs_all c raw m Hr Em Hm) as Hl.
  rewrite (read_subs branchSection (subsStep (branchSubs c raw))) by in_steps. cbn [subsStep setSubsections sec_Subsections].
  set (g := fun s => match Branch_unmarshal s with Ok r => r | _ => MkBranch [] [] [] [] [] None end).
  eexists. split; [apply (branches_loop g)|].
  - intros s Hs. apply Hl in Hs as (k & r & Hk & ->). destruct (branch_reads k r (Hm _ _ Hk)) as (r' & E & _). unfold g. by rewrite E.
  - rewrite Em. cbn [option_map]. f_equal. apply (rebuild Branch_marshal); [by apply branches_named|done|].
    intros k r Hk. destruct (branch_reads k r (Hm _ _ Hk)) as (r' & E & Hp). unfold g. by rewrite E.
Qed.
Lemma read_urls : exists rs, unmarshalURLs_loop (subsOf raw2 urlSection) (Some ∅) = Ok (Some rs) /\
  option_map (fmap plainURL) (Some rs) = option_map (fmap plainURL) (URLs c).
Proof.
  destruct (config_urls _ _ Hc) as (m & Em & Hm). pose proof (urlSubs_all c m Em Hm) as Hl.
  rewrite (read_subs urlSection (subsStep (urlSubs c))) by in_steps. cbn [subsStep setSubsections sec_Subsections].
  eexists. split; [apply urls_loop|]. rewrite Em. cbn [option_map]. f_equal. apply (rebuild URL_marshal); [by apply urls_named|done|].
  intros k u Hk. by apply (url_reads k), Hm.
Qed.
Lemma read_submodules : exists rs, unmarshalSubmodules_loop (subsOf raw2 submoduleSection) (Some ∅) = Ok (Some rs) /\
  option_map (fmap plainModule) (Some rs) = option_map (fmap plainSubmodule) (Submodules c).
Proof.
  destruct (config_submodules _ _ Hc) as (m & Em & Hm). pose proof (submoduleSubs_all c m Em Hm) as Hl.
  rewrite (read_subs submoduleSection (subsStep (submoduleSubs c))) by in_steps. cbn [subsStep setSubsections sec_Subsections].
  eexists. split; [apply submodules_loop|].
  - intros s Hs. apply Hl in Hs as (k & r & Hk & ->). destruct (submodule_reads k r (Hm _ _ Hk)) as (_ & Hp & _). unfold Submodule_Validate. by rewrite Hp, bool_decide_eq_true_2.
  - rewrite Em. cbn [option_map]. f_equal. apply (rebuild configSubmodule); [by apply submodules_named|done|].
    intros k u Hk. destruct (submodule_reads k u (Hm _ _ Hk)) as (Hp & He & _). rewrite <- Hp. unfold plainModule, plainSubmodule. by rewrite He.
Qed.
End Read.

Lemma Marshal_Unmarshal raw c : config_ok raw c -> exists b c1 c2, Marshal c = Ok (b, c1) /\ ReadConfig b = Ok c2 /\ same_config raw c c2.
Proof.
  intros Hc. destruct (config_raw _ _ Hc) as (Er & Hr & _). destruct (Marshal_eq c raw Er) as (r & s & b & u & HM).
  destruct (decoded (applySteps raw (marshalSteps c raw))) as (raw2 & Hd & Hsame).
  { apply raw_ok_steps; [done|]. by apply steps_ok. }
  destruct (read_submodules c raw raw2 Hc Hsame) as (ms & Hms & Ems). destruct (read_branches c raw raw2 Hc Hsame) as (brs & Hbs & Ebs).
  destruct (read_urls c raw raw2 Hc Hsame) as (us & Hus & Eus). destruct (read_remotes c raw raw2 Hc Hsame (Some us)) as (rs & Hrs & Ers).
  destruct (Unmarshal_eq _ raw2 _ _ _ _ _ _ Hd (read_window c raw raw2 Hc Hsame) (read_version c raw raw2 Hc Hsame) Hms Hbs Hus Hrs (read_no_remote c raw raw2 Hc Hsame)) as (raw3 & HU & Hraw3).
  do 3 eexists. split; [exact HM|]. split; [exact HU|]. destruct (config_persons _ _ Hc) as (Hp1 & Hp2 & Hp3). split; cbn [Core User Author Committer Pack_Window Protocol_Version Init_DefaultBranch Extensions_ObjectFormat Remotes Submodules Branches URLs Raw].
  - by apply (read_core c raw).
  - by apply (read_comment c raw).
  - split; [done|]. split; [done|]. exists raw3. split; [done|]. rewrite !(f_equal fst (Hraw3 _) : optsOf raw3 _ = optsOf raw2 _). by apply (read_format c raw).
  - split_and!; apply (read_person c raw); done || in_steps.
  - done.
  - by apply (read_init c raw).
  - exact Ers.
  - exact Ems.
  - exact Ebs.
  - exact Eus.
Qed.
End Roundtrip.


#[local] Existing Instance asciiFolding.
#[local] Existing Instance asciiFolding_laws.
#[local] Existing Instance lineReader.
#[local] Existing Instance lineReader_laws.
#[local] Instance listOrder : MapOrder := fun V m => map_to_list m.
#[local] Instance listOrder_laws : MapOrderLaws.
Proof. by intros V m. Qed.

Definition demoRemote : RemoteConfig :=
  MkRemote (bs "origin") [bs "git:go-git/go-git"; bs "https://example.org/x;y"] true false [] [bs "+refs/heads/*:refs/remotes/origin/*"] None.
Definition demoBranch : Branch :=
  MkBranch (bs "main") (bs "origin") (bs "refs/heads/main") (bs "interactive") (bs "first" ++ [x0a] ++ bs "second # line") None.
Definition demoRule : URL := MkURL (bs "https://github.com/") [bs "git:"] None.
Definition demoSubmodule : Submodule := MkSubmodule (bs "lib") (bs "vendor/lib") (bs "../lib.git") [] None.
Definition demoSettings : Config :=
  MkConfig (MkCore true (bs "/srv/work tree ") [] (bs "1") (bs "input")) (MkPerson (bs "Ada") (bs "ada@example.org")) emptyPerson emptyPerson 20 (bs "main") SHA256 2
    (Some {[bs "origin" := demoRemote]}) (Some {[bs "lib" := demoSubmodule]}) (Some {[bs "main" := demoBranch]}) (Some {[bs "https://github.com/" := demoRule]})
    (Some format_New).

Lemma demo_remote_ok : remote_ok (bs "origin") demoRemote.
Proof.
  split; [split; [done|split; [done|by_decision]]|constructor|split; by_decision|done|done|by left|done|by left|done].
Qed.
Lemma demo_branch_ok : branch_ok (bs "main") demoBranch.
Proof. split; [split; [done|split; [done|by_decision]]|constructor|split_and!; by_decision|by vm_compute|by vm_compute]. Qed.
Lemma demo_rule_ok : url_ok (bs "https://github.com/") demoRule.
Proof. split; [split; [done|split; [done|by_decision]]|constructor|by_decision|by left]. Qed.
Lemma demo_submodule_ok : submodule_ok (bs "lib") demoSubmodule.
Proof. split; [split; [done|split; [done|by_decision]]|constructor|split_and!; by_decision|done]. Qed.
Lemma demo_config_ok : config_ok format_New demoSettings.
Proof.
  assert (forall sec p, value_ok (person_Name p) /\ value_ok (person_Email p) -> person_ok format_New sec p) as Hp by (intros sec p Hp; by split).
  split.
  - split; [done|]. split; [split; constructor|done].
  - split_and!; by_decision || done.
  - split_and!; apply Hp; split; by_decision.
  - split; [by_decision|done].
  - split; [by_decision|done].
  - split; [by_decision|done].
  - eexists. split; [done|]. apply map_Forall_singleton, demo_remote_ok.
  - eexists. split; [done|]. apply map_Forall_singleton, demo_submodule_ok.
  - eexists. split; [done|]. apply map_Forall_singleton, demo_branch_ok.
  - eexists. split; [done|]. apply map_Forall_singleton, demo_rule_ok.
Qed.


(** ** What is not known is kept *)

(** The options that [Marshal] may set, and the sections whose subsections it replaces. *)
Definition ownOptions : list (bytes * bytes) :=
  [(coreSection, bareKey); (coreSection, repositoryFormatVersionKey); (coreSection, worktreeKey); (coreSection, autoCRLFKey);
   (extensionsSection, objectFormat); (userSection, nameKey); (userSection, emailKey); (authorSection, nameKey); (authorSection, emailKey);
   (committerSection, nameKey); (committerSection, emailKey); (packSection, windowKey); (protocolSection, versionKey); (initSection, defaultBranchKey)].
Definition entitySections : list bytes := [remoteSection; submoduleSection; branchSection; urlSection].

Section Unknown.
Context `{FoldingLaws} `{MapOrderLaws}.

Definition unknown (n k : bytes) : Prop := Forall (fun p => EqualFold p.1 n = true -> EqualFold p.2 k = false) ownOptions.

(** What the steps do to keys that are not their own. *)
Definition keeps_unknown (p : bytes * (ConfigSection -> ConfigSection)) : Prop := forall n k, EqualFold p.1 n = true -> unknown n k ->
  forall s, Options_GetAll (sec_Options (p.2 s)) k = Options_GetAll (sec_Options s) k.
Lemma unknown_own n k sec key : unknown n k -> (sec, key) ∈ ownOptions -> EqualFold sec n = true -> EqualFold key k = false.
Proof. unfold unknown. rewrite Forall_forall. intros Hu Hin Hs. by apply (Hu (sec, key)). Qed.
Lemma SetOption_unknown sec key v : (sec, key) ∈ ownOptions -> keeps_unknown (sec, fun s => Section_SetOption s key v).
Proof. intros Hin n k Hn Hu s. apply GetAll_setted_other. by eapply unknown_own. Qed.
Lemma setWhen_unknown sec key b v : (sec, key) ∈ ownOptions -> keeps_unknown (sec, setWhen b key v).
Proof. intros Hin n k Hn Hu s. apply GetAll_setWhen_other. by eapply unknown_own. Qed.
Lemma comp_unknown sec f g : keeps_unknown (sec, f) -> keeps_unknown (sec, g) -> keeps_unknown (sec, fun s => f (g s)).
Proof. intros Hf Hg n k Hn Hu s. cbn [snd]. etransitivity; [by apply (Hf n k)|]. by apply (Hg n k). Qed.
Lemma person_unknown sec p : (sec, nameKey) ∈ ownOptions -> (sec, emailKey) ∈ ownOptions -> keeps_unknown (sec, writePerson p).
Proof. intros Hn He. apply (comp_unknown sec (setWhen _ _ _) (setWhen _ _ _)); by apply setWhen_unknown. Qed.
Lemma core_unknown c : keeps_unknown (coreSection, coreStep c).
Proof.
  apply (comp_unknown _ (setWhen _ _ _) (fun s => _)); [apply setWhen_unknown; by_decision|].
  apply (comp_unknown _ (setWhen _ _ _) (fun s => _)); [apply setWhen_unknown; by_decision|].
  apply (comp_unknown _ (setWhen _ _ _) (fun s => _)); [apply setWhen_unknown; by_decision|]. apply SetOption_unknown; by_decision.
Qed.
Lemma steps_unknown c raw : Forall keeps_unknown (marshalSteps c raw).
Proof.
  unfold marshalSteps, steps1, steps2, steps3. rewrite !Forall_app.
  split_and!; repeat first [case_bool_decide | case_match | apply Forall_cons_2 | apply Forall_nil_2];
    first [apply core_unknown | apply person_unknown; by_decision | apply SetOption_unknown; by_decision | apply setWhen_unknown; by_decision | done].
Qed.
Lemma steps_keep_subs c raw : Forall (fun p => p.1 ∈ entitySections \/ forall s, sec_Subsections (p.2 s) = sec_Subsections s) (marshalSteps c raw).
Proof.
  assert (forall b k v s, sec_Subsections (setWhen b k v s) = sec_Subsections s) as Hw by (by intros [] k v s).
  unfold marshalSteps, steps1, steps2, steps3. rewrite !Forall_app.
  split_and!; repeat first [case_bool_decide | case_match | apply Forall_cons_2 | apply Forall_nil_2];
    first [left; by_decision | right; intros s; cbn [snd]; unfold coreStep, writePerson; by rewrite ?Hw].
Qed.

Lemma Marshal_unknown c raw : Raw c = Some raw -> exists b c' raw', Marshal c = Ok (b, c') /\ Raw c' = Some raw' /\ b = Encode raw' /\
  (forall n k, unknown n k -> Options_GetAll (optsOf raw' n) k = Options_GetAll (optsOf raw n) k) /\
  (forall n, Forall (fun e => EqualFold e n = false) entitySections -> subsOf raw' n = subsOf raw n) /\
  subsOf raw' remoteSection = remoteSubs c raw /\ subsOf raw' branchSection = branchSubs c raw /\
  subsOf raw' submoduleSection = submoduleSubs c /\ subsOf raw' urlSection = urlSubs c.
Proof.
  intros E. destruct (Marshal_eq c raw E) as (r & s & b & u & HM). do 3 eexists. split; [exact HM|]. split; [done|]. split; [done|].
  pose proof (steps_unknown c raw) as Hu. pose proof (steps_keep_subs c raw) as Hs.
  assert (forall n, match List.find (fun p => EqualFold p.1 n) (marshalSteps c raw) with
    | Some p => p ∈ marshalSteps c raw /\ EqualFold p.1 n = true /\ held (secOf raw n) = held (secOf raw p.1)
    | None => True end) as Hf.
  { intros n. destruct (List.find _ _) as [p|] eqn:F; [|done]. apply find_some in F as [Hp%list_elem_of_In Hpn]. split; [done|]. split; [done|].
    rewrite !secOf_match. unfold lastMatch. rewrite (lastIndex_ext (fun s => Section_IsName s n) (fun s => Section_IsName s p.1)); [by destruct (lastIndex _ _); [destruct (_ !! _)|]|].
    intros x. unfold Section_IsName. symmetry. by apply EqualFold_cong. }
  split_and!.
  - intros n k Hk. change (Options_GetAll (held (secOf (applySteps raw (marshalSteps c raw)) n)).1 k = Options_GetAll (held (secOf raw n)).1 k).
    rewrite held_steps by (apply marshalSteps_on_held || apply marshalSteps_apart). specialize (Hf n). destruct (List.find _ _) as [p|]; [|done].
    destruct Hf as (Hp & Hpn & ->). rewrite Forall_forall in Hu. exact (Hu p Hp n k Hpn Hk _).
  - intros n Hn. change ((held (secOf (applySteps raw (marshalSteps c raw)) n)).2 = (held (secOf raw n)).2).
    rewrite held_steps by (apply marshalSteps_on_held || apply marshalSteps_apart). specialize (Hf n). destruct (List.find _ _) as [p|]; [|done].
    destruct Hf as (Hp & Hpn & ->). rewrite Forall_forall in Hs. rewrite Forall_forall in Hn.
    destruct (Hs p Hp) as [Hin|He]; [|apply He]. specialize (Hn _ Hin). cbn in Hn. congruence.
  - rewrite (step_subs _ _ remoteSection (subsStep (remoteSubs c raw))); [done|]. unfold marshalSteps, steps2. rewrite !elem_of_app, !elem_of_cons. tauto.
  - rewrite (step_subs _ _ branchSection (subsStep (branchSubs c raw))); [done|]. unfold marshalSteps, steps2. rewrite !elem_of_app, !elem_of_cons. tauto.
  - rewrite (step_subs _ _ submoduleSection (subsStep (submoduleSubs c))); [done|]. unfold marshalSteps, steps2. rewrite !elem_of_app, !elem_of_cons. tauto.
  - rewrite (step_subs _ _ urlSection (subsStep (urlSubs c))); [done|]. unfold marshalSteps, steps2. rewrite !elem_of_app, !elem_of_cons. tauto.
Qed.

(** The options of the raw subsection that a rule or a submodule does not know. *)
Lemma url_marshal_other u k : EqualFold insteadOfKey k = false -> Options_GetAll (sub_Options (URL_marshal u).2) k = Options_GetAll (rawOptions (url_raw u)) k.
Proof. intros Hk. cbn [URL_marshal snd Subsection_SetOption setSubOptions sub_Options]. rewrite GetAll_setted_other by done. by destruct (url_raw u). Qed.
Lemma submodule_marshal_other m k : EqualFold pathKey k = false -> EqualFold urlKey k = false -> EqualFold branchKey k = false ->
  Options_GetAll (sub_Options (configSubmodule m).2) k = Options_GetAll (rawOptions (mod_raw m)) k.
Proof.
  intros H1' H2' H3'. rewrite configSubmodule_eq. cbn [Subsection_RemoveOption setSubOptions sub_Options]. rewrite GetAll_without, H1'.
  unfold Submodule_marshal. cbn [snd]. destruct (bool_decide (mod_Branch m = [])); cbn [Subsection_SetOption setSubOptions sub_Options];
    rewrite !GetAll_setted_other by done; by destruct (mod_raw m).
Qed.
End Unknown.

(** C23: [Marshal] keeps the options it does not know, in every section, and the subsections of the sections that are not
    those of remotes, submodules, branches and rules for URLs; a remote, a branch, a submodule and a rule that are under
    their names keep the options of their raw subsection that they do not know. *)
Theorem config_keeps_unknown `{FoldingLaws} `{MapOrderLaws} c raw : Raw c = Some raw ->
  exists b c' raw', Marshal c = Ok (b, c') /\ Raw c' = Some raw' /\ b = Encode raw' /\
  (forall n k, unknown n k -> Options_GetAll (optsOf raw' n) k = Options_GetAll (optsOf raw n) k) /\
  (forall n, Forall (fun e => EqualFold e n = false) entitySections -> subsOf raw' n = subsOf raw n) /\
  (forall m, Remotes c = Some m -> named RemoteConfig_marshal m -> NoDup (map sub_Name (subsOf raw remoteSection)) ->
    forall name r, m !! name = Some r -> exists sub, sub ∈ subsOf raw' remoteSection /\ sub_Name sub = name /\
    forall k, Forall (fun own => EqualFold own k = false) [urlKey; fetchKey; mirrorKey] ->
    Options_GetAll (sub_Options sub) k = Options_GetAll (rawOptions (rc_raw r)) k) /\
  (forall m, Branches c = Some m -> named Branch_marshal m -> NoDup (map sub_Name (subsOf raw branchSection)) ->
    forall name br, m !! name = Some br -> exists sub, sub ∈ subsOf raw' branchSection /\ sub_Name sub = name /\
    forall k, Forall (fun own => EqualFold own k = false) [remoteSection; mergeKey; rebaseKey; descriptionKey] ->
    Options_GetAll (sub_Options sub) k = Options_GetAll (rawOptions (br_raw br)) k) /\
  (forall m, Submodules c = Some m -> named configSubmodule m ->
    forall name sm, m !! name = Some sm -> exists sub, sub ∈ subsOf raw' submoduleSection /\ sub_Name sub = name /\
    forall k, Forall (fun own => EqualFold own k = false) [pathKey; urlKey; branchKey] ->
    Options_GetAll (sub_Options sub) k = Options_GetAll (rawOptions (mod_raw sm)) k) /\
  (forall m, URLs c = Some m -> named URL_marshal m ->
    forall name u, m !! name = Some u -> exists sub, sub ∈ subsOf raw' urlSection /\ sub_Name sub = name /\
    forall k, EqualFold insteadOfKey k = false -> Options_GetAll (sub_Options sub) k = Options_GetAll (rawOptions (url_raw u)) k).
Proof.
  intros E. destruct (Marshal_unknown c raw E) as (b & c' & raw' & HM & Hr' & Hb & Hu & Hs & HR & HB & HS & HL). exists b, c', raw'. split_and!; try done.
  - intros m Em Hn Hd name r Hk. rewrite HR. unfold remoteSubs. rewrite Em. destruct (marshalNamed_all RemoteConfig_marshal _ m Hd Hn) as [_ Hl].
    exists (RemoteConfig_marshal r).2. split; [apply Hl; eauto|]. split; [by apply Hn|]. intros k Hown. rewrite !Forall_cons in Hown.
    destruct Hown as (K1 & K2 & K3 & _). by apply remote_marshal_other.
  - intros m Em Hn Hd name r Hk. rewrite HB. unfold branchSubs. rewrite Em. destruct (marshalNamed_all Branch_marshal _ m Hd Hn) as [_ Hl].
    exists (Branch_marshal r).2. split; [apply Hl; eauto|]. split; [by apply Hn|]. intros k Hown. rewrite !Forall_cons in Hown.
    destruct Hown as (K1 & K2 & K3 & K4 & _). by apply branch_marshal_other.
  - intros m Em Hn name sm Hk. rewrite HS. unfold submoduleSubs. rewrite Em. destruct (marshalRange_all configSubmodule m Hn) as [_ Hl].
    exists (configSubmodule sm).2. split; [apply Hl; eauto|]. split; [by apply Hn|]. intros k Hown. rewrite !Forall_cons in Hown.
    destruct Hown as (K1 & K2 & K3 & _). by apply submodule_marshal_other.
  - intros m Em Hn name u Hk. rewrite HL. unfold urlSubs. rewrite Em. destruct (marshalRange_all URL_marshal m Hn) as [_ Hl].
    exists (URL_marshal u).2. split; [apply Hl; eauto|]. split; [by apply Hn|]. intros k Hown. by apply url_marshal_other.
Qed.

Definition demoRaw : RawConfig := MkRaw None [MkSection (bs "core") [MkOption (bs "editor") (bs "vi"); MkOption (bs "Bare") (bs "true")] []] [].
Lemma config_keeps_unknown_witness : exists b c' raw', Marshal (setRaw NewConfig demoRaw) = Ok (b, c') /\ Raw c' = Some raw' /\
  Options_GetAll (optsOf raw' coreSection) (bs "editor") = [bs "vi"].
Proof.
  destruct (config_keeps_unknown (setRaw NewConfig demoRaw) demoRaw eq_refl) as (b & c' & raw' & HM & Hr & _ & Hu & _).
  exists b, c', raw'. split; [exact HM|]. split; [exact Hr|]. rewrite Hu; [by vm_compute|]. unfold unknown. by_decision.
Defined.

(** ** Paths of submodules *)
Definition slash (b : byte) : byte := if bool_decide (b = x5c) then x2f else b.
Definition pathComponents (p : bytes) : list bytes := Split (map slash p) x2f.

Lemma slash_sep b : bool_decide (slash b = x2f) = pathSep b.
Proof. unfold slash, pathSep. destruct (decide (b = x5c)) as [->|Hb]; [done|]. rewrite (bool_decide_eq_false_2 (b = x5c)) by done. by rewrite orb_false_r. Qed.
Lemma components_cons b p : pathComponents (b :: p) =
  if pathSep b then [] :: pathComponents p else match pathComponents p with q :: qs => (slash b :: q) :: qs | [] => [[slash b]] end.
Proof. unfold pathComponents. cbn [map Split]. by rewrite slash_sep. Qed.
Lemma dotdotHere_components b p q qs : pathSep b = false -> pathComponents p = q :: qs ->
  dotdotHere (b :: p) = bool_decide (slash b :: q = bs "..").
Proof.
  intros Hb Hp. assert (slash b = b) as Hsb. { unfold slash. case_bool_decide; [subst; done|done]. } rewrite Hsb.
  destruct p as [|c p]; [injection Hp as <- <-; cbn; symmetry; by apply bool_decide_eq_false_2|]. rewrite components_cons in Hp. cbn [dotdotHere].
  destruct (pathSep c) eqn:Ec.
  - injection Hp as <- <-. rewrite (bool_decide_eq_false_2 (c = x2e)) by (intros ->; done). rewrite andb_false_r. symmetry. by apply bool_decide_eq_false_2.
  - assert (slash c = c) as Hsc. { unfold slash. case_bool_decide; [subst; done|done]. } rewrite Hsc in Hp.
    assert (match p with [] => true | d :: _ => pathSep d end = bool_decide (head (pathComponents p) = Some [])) as Hend.
    { destruct p as [|d p]; [done|]. rewrite components_cons. destruct (pathSep d); [done|]. by destruct (pathComponents p). }
    rewrite Hend. destruct (pathComponents p) as [|r rs] eqn:Er; [by apply Split_nonempty in Er|]. injection Hp as <- <-.
    change (bs "..") with [x2e; x2e]. rewrite <- bool_decide_and, <- bool_decide_and. apply bool_decide_ext. cbn [head]. split; [intros [[-> ->] E']; by injection E' as ->|].
    intros E'. by injection E' as -> -> ->.
Qed.
Lemma dotdot_loop_spec p : forall q qs, pathComponents p = q :: qs ->
  dotdot_loop true p = bool_decide (bs ".." ∈ q :: qs) /\ dotdot_loop false p = bool_decide (bs ".." ∈ qs).
Proof.
  induction p as [|b p IH]; intros q qs Hp; [injection Hp as <- <-; done|].
  destruct (pathComponents p) as [|r rs] eqn:Er; [by apply Split_nonempty in Er|]. destruct (IH r rs eq_refl) as [IH1 IH2].
  pose proof Hp as Hp'. rewrite components_cons, Er in Hp'. cbn [dotdot_loop andb orb]. destruct (pathSep b) eqn:Eb.
  - injection Hp' as <- <-. assert (dotdotHere (b :: p) = false) as ->.
    { cbn [dotdotHere]. destruct p; [done|]. rewrite (bool_decide_eq_false_2 (b = x2e)) by (intros ->; done). done. }
    rewrite IH1. split; [|done]. apply bool_decide_ext. rewrite !elem_of_cons. split; [naive_solver|]. by intros [?|?].
  - injection Hp' as <- <-. rewrite (dotdotHere_components b p r rs Eb Er), IH2. split; [|done].
    rewrite <- bool_decide_or. apply bool_decide_ext. rewrite elem_of_cons. naive_solver.
Qed.
Lemma dotdotPath_spec p : dotdotPath p = bool_decide (bs ".." ∈ pathComponents p).
Proof.
  unfold dotdotPath. destruct (pathComponents p) as [|q qs] eqn:E; [by apply Split_nonempty in E|]. by apply (dotdot_loop_spec p q qs).
Qed.

Lemma submodules_loop_safe `{Folding} subs : forall m0 m, map_Forall (fun _ s => mod_URL s <> [] -> bs ".." ∉ pathComponents (mod_Path s)) m0 ->
  unmarshalSubmodules_loop subs (Some m0) = Ok (Some m) -> map_Forall (fun _ s => mod_URL s <> [] -> bs ".." ∉ pathComponents (mod_Path s)) m.
Proof.
  induction subs as [|sub subs IH]; intros m0 m H0 Hm; cbn [unmarshalSubmodules_loop] in Hm; [by injection Hm as <-|].
  case_bool_decide as Hv; [by eapply IH|]. cbn [map_set res_bind] in Hm. eapply IH; [|exact Hm]. apply map_Forall_insert_2; [|done].
  intros Hu Hin. apply Hv. unfold Submodule_Validate. rewrite dotdotPath_spec. rewrite (bool_decide_eq_true_2 _ Hin).
  rewrite (bool_decide_eq_false_2 (mod_URL _ = [])) by done. case_bool_decide as Hp; [|done]. rewrite Hp in Hin. exfalso. by vm_compute in Hin; apply elem_of_cons in Hin as [?|?%not_elem_of_nil].
Qed.

(** C24: No submodule that has a URL and is read from a .gitmodules file has a path with a component of two dots, whether its
    components are divided by slashes or by backslashes. *)
Theorem submodule_paths `{Folding} `{Gcfg} b ms m : Modules_Unmarshal NewModules b = Ok ms -> modules_Submodules ms = Some m ->
  forall name s, m !! name = Some s -> mod_URL s <> [] -> bs ".." ∉ pathComponents (mod_Path s).
Proof.
  intros Hb Em. unfold Modules_Unmarshal in Hb. destruct (Decode b format_New) as [[e|] raw]; [done|].
  apply res_bind_ok in Hb as ([subs raw'] & Hb & Hms). injection Hms as <-. cbn in Em. subst subs. unfold unmarshalSubmodules in Hb.
  destruct (theSection raw submoduleSection) as [sec raw2]. apply res_bind_ok in Hb as (subs & Hb & E). injection E as -> <-.
  apply (submodules_loop_safe _ ∅ m) in Hb; [exact Hb|]. apply map_Forall_empty.
Qed.

Definition demoModules : RawConfig :=
  MkRaw None [MkSection (bs "submodule") [] [MkSubsection (bs "a") [MkOption (bs "path") (bs "vendor/a"); MkOption (bs "url") (bs "u")];
                                             MkSubsection (bs "b") [MkOption (bs "path") (bs "x\..\y"); MkOption (bs "url") (bs "u")]]] [].
Lemma submodule_paths_witness : exists ms m s, Modules_Unmarshal NewModules (Encode demoModules) = Ok ms /\ modules_Submodules ms = Some m /\
  m !! bs "a" = Some s /\ m !! bs "b" = None /\ bs ".." ∉ pathComponents (mod_Path s).
Proof.
  do 3 eexists. split; [vm_compute; reflexivity|]. split; [reflexivity|]. split; [vm_compute; reflexivity|]. split; [vm_compute; reflexivity|].
  eapply (submodule_paths (Encode demoModules)) with (name := bs "a"); [vm_compute; reflexivity|reflexivity|vm_compute; reflexivity|done].
Defined.

(** Without a URL the path is not looked at: whatever it is, the submodule is kept. *)
Theorem submodule_path_unchecked `{FoldingLaws} `{GcfgLaws} name path : name_ok name -> value_ok path ->
  exists ms, Modules_Unmarshal NewModules (Encode (MkRaw None [MkSection submoduleSection [] [MkSubsection name [MkOption pathKey path]]] [])) = Ok ms /\
  exists s, map_get (modules_Submodules ms) name = Some s /\ mod_Path s = path.
Proof.
  intros Hn Hp. unfold Modules_Unmarshal. rewrite Decode_Encode.
  - unfold written. cbn [raw_Sections]. rewrite filter_cons, filter_nil. rewrite decide_True by done.
    assert (theSection (setSections format_New [MkSection submoduleSection [] [MkSubsection name [MkOption pathKey path]]]) submoduleSection =
      (MkSection submoduleSection [] [MkSubsection name [MkOption pathKey path]], setSections format_New [MkSection submoduleSection [] [MkSubsection name [MkOption pathKey path]]])) as Hs.
    { unfold theSection, Config_Section. cbn [setSections raw_Sections lastIndex]. unfold Section_IsName. cbn [sec_Name]. by rewrite EqualFold_refl. }
    unfold unmarshalSubmodules. cbn [format_New] in *. rewrite Hs. cbn [sec_Subsections unmarshalSubmodules_loop].
    unfold Submodule_unmarshal, Subsection_Option. cbn [sub_Name sub_Options].
    assert (Options_Get [MkOption pathKey path] urlKey = []) as Hu. { unfold Options_Get, IsKey. cbn [lastIndex opt_Key]. by replace (EqualFold pathKey urlKey) with false by (symmetry; fold_const). }
    assert (Options_Get [MkOption pathKey path] pathKey = path) as Hpk. { unfold Options_Get, IsKey. cbn [lastIndex opt_Key]. by rewrite EqualFold_refl. }
    rewrite Hu, Hpk. unfold Submodule_Validate. cbn [mod_Path mod_URL].
    rewrite bool_decide_eq_false_2; [|by repeat case_bool_decide]. cbn [map_set res_bind modules_Submodules NewModules mod_Name]. eexists. split; [done|].
    cbn [modules_Submodules map_get]. rewrite lookup_insert_eq. by eexists.
  - constructor; [|constructor]. split; cbn; [by_decision|constructor| |by apply NoDup_singleton]. constructor; [|constructor]. split; [done|].
    constructor; [|constructor]. split; [by_decision|done].
  - repeat constructor.
Qed.
Lemma submodule_path_unchecked_witness : exists ms, Modules_Unmarshal NewModules
    (Encode (MkRaw None [MkSection submoduleSection [] [MkSubsection (bs "evil") [MkOption pathKey (bs "../../.git/hooks")]]] [])) = Ok ms /\
  exists s, map_get (modules_Submodules ms) (bs "evil") = Some s /\ mod_Path s = bs "../../.git/hooks".
Proof. apply submodule_path_unchecked; [split; [done|by_decision]|by_decision]. Defined.

(** ** [Merge] *)
Lemma foldl_mergeField {A} (isZero : A -> bool) l : forall d, foldl (mergeField isZero) d l = default d (last (base.filter (fun x => isZero x = false) l)).
Proof.
  induction l as [|x l IH] using rev_ind; intros d; [done|]. rewrite foldl_app, filter_app, filter_cons, filter_nil. cbn [foldl]. rewrite IH. unfold mergeField.
  destruct (isZero x) eqn:E; [rewrite decide_False by done; by rewrite app_nil_r|]. rewrite decide_True by done. by rewrite last_snoc.
Qed.
(** The last configuration that sets a field, by what it is in the zero configuration. *)
Definition lastSet {A} (isZero : A -> bool) (zero : A) (f : Config -> A) (src : list (option Config)) : A :=
  default zero (last (base.filter (fun x => isZero x = false) (map f (omap id src)))).
Lemma Merge_field {A} (isZero : A -> bool) (f : Config -> A) src : (forall c d, f (merge c d) = mergeField isZero (f c) (f d)) ->
  f (Merge src) = lastSet isZero (f zeroConfig) f src.
Proof.
  intros Hf. unfold Merge, lastSet. rewrite <- foldl_mergeField. generalize zeroConfig. induction src as [|[c|] src IH]; intros d; [done| |]; cbn [foldl omap list_omap id map].
  - by rewrite IH, Hf.
  - apply IH.
Qed.
Definition emptyText (s : bytes) : bool := bool_decide (s = []).
Definition nilMap {V} (m : gomap V) : bool := match m with None => true | Some _ => false end.

(** Every field of the merged configuration is that of the last configuration in which it is not zero: not empty, not
    false, or, for a map, not nil. *)
Theorem merge_last_set src :
  core_IsBare (Core (Merge src)) = lastSet negb false (core_IsBare ∘ Core) src /\
  core_Worktree (Core (Merge src)) = lastSet emptyText [] (core_Worktree ∘ Core) src /\
  core_CommentChar (Core (Merge src)) = lastSet emptyText [] (core_CommentChar ∘ Core) src /\
  person_Name (User (Merge src)) = lastSet emptyText [] (person_Name ∘ User) src /\
  person_Email (User (Merge src)) = lastSet emptyText [] (person_Email ∘ User) src /\
  Pack_Window (Merge src) = lastSet (Z.eqb 0) 0 Pack_Window src /\
  Init_DefaultBranch (Merge src) = lastSet emptyText [] Init_DefaultBranch src /\
  Protocol_Version (Merge src) = lastSet (Z.eqb 0) 0 Protocol_Version src /\
  Remotes (Merge src) = lastSet nilMap None Remotes src /\
  Branches (Merge src) = lastSet nilMap None Branches src /\
  URLs (Merge src) = lastSet nilMap None URLs src.
Proof.
  split_and!;
    [apply (Merge_field negb (core_IsBare ∘ Core))|apply (Merge_field emptyText (core_Worktree ∘ Core))|apply (Merge_field emptyText (core_CommentChar ∘ Core))
    |apply (Merge_field emptyText (person_Name ∘ User))|apply (Merge_field emptyText (person_Email ∘ User))|apply (Merge_field (Z.eqb 0) Pack_Window)
    |apply (Merge_field emptyText Init_DefaultBranch)|apply (Merge_field (Z.eqb 0) Protocol_Version)|apply (Merge_field nilMap Remotes)
    |apply (Merge_field nilMap Branches)|apply (Merge_field nilMap URLs)]; done.
Qed.

(** A repository whose own configuration has no window and no rules for URLs is given the default window and no rules,
    whatever the user's and the system's configurations say: a configuration that was read always has a window, and maps. *)
Theorem merge_hides_scopes system global : let c := Merge [system; global; Some NewConfig] in
  Pack_Window c = DefaultPackWindow /\ URLs c = Some ∅ /\ Remotes c = Some ∅ /\ Branches c = Some ∅.
Proof.
  destruct system, global; done.
Qed.

(** The rule with the longest match is found, but the first of its prefixes is replaced, not the longest. *)
Theorem insteadof_not_longest : exists u url, url_InsteadOfs u = [bs "https://"; bs "https://git.example.org/"] /\
  url = bs "https://git.example.org/a" /\ findLongestInsteadOfMatch url (Some {[url_Name u := u]}) = Some u /\ ApplyInsteadOf u url = url_Name u ++ bs "git.example.org/a".
Proof. exists (MkURL (bs "ssh://git@example.org/") [bs "https://"; bs "https://git.example.org/"] None), (bs "https://git.example.org/a"). by vm_compute. Qed.
