(* ===== verification/Objfile.v ===== *)
(** * plumbing/format/objfile: files of loose objects

    The writer and the reader of a compressed object with its header.  The writer keeps what it has given to zlib, whose
    output is the file when the writer is closed; the reader has what zlib decompresses, and the error that ends it. *)
From S2P Require Import Prelude GoStrings Strconv ObjectID Memory PackEncoder.

(** zlib: the compressed form of some bytes, and what a reader of a file gets: an error at once, or bytes and then an
    error, which is [EOF] at the end of a whole stream. *)
Class Zlib := { zlib_deflate : bytes -> bytes; zlib_inflate : bytes -> error + (bytes * error) }.
Class ZlibLaws `{Zlib} := inflate_deflate b : zlib_inflate (zlib_deflate b) = inr (b, EOF).
(** SHA-1, of twenty bytes *)
Class Sha1 := sha1_sum : bytes -> bytes.
Class Sha1Laws `{Sha1} := sha1_size b : len (sha1_sum b) = 20.

(** ** writer.go *)
Record ObjWriter := MkObjWriter {
  ow_plain : bytes;                 (** what was given to zlib *)
  ow_hasher : option bytes;         (** what was given to the hasher; none before the header *)
  ow_closed : bool;
  ow_pending : Z }.

Definition objfile_NewWriter : ObjWriter := MkObjWriter [] None false 0.

Definition prepareForWrite (w : ObjWriter) (t : ObjectType) (size : Z) : ObjWriter :=
  MkObjWriter (ow_plain w) (Some (objectPreamble t size)) (ow_closed w) size.

Definition WriteHeader (w : ObjWriter) (t : ObjectType) (size : Z) : option error * ObjWriter :=
  if negb (ObjectType_Valid t) then (Some ErrInvalidType, w)
  else if size <? 0 then (Some ErrNegativeSize, w)
  else
    let b := ObjectType_String t ++ [x20] ++ FormatInt size ++ [x00] in
    (None, prepareForWrite (MkObjWriter (ow_plain w ++ b) (ow_hasher w) (ow_closed w) (ow_pending w)) t size).

(** [Write]: how many bytes were written, and the error; without a header there is nothing to write to. *)
Definition Writer_Write (w : ObjWriter) (p : bytes) : res (Z * option error * ObjWriter) :=
  if ow_closed w then Ok (0, Some ErrClosed, w)
  else
    let overwrite := len p >? ow_pending w in
    let* p := if overwrite then slice p 0 (ow_pending w) else Ok p in
    match ow_hasher w with
    | None => Panic
    | Some hashed =>
      let w := MkObjWriter (ow_plain w ++ p) (Some (hashed ++ p)) false (ow_pending w - len p) in
      Ok (len p, if overwrite then Some ErrOverflow else None, w)
    end.

Section Hashing.
Context `{Sha1}.
Definition Hasher_sum (hasher : option bytes) : res ObjectID :=
  match hasher with Some b => Ok (ObjectID_Write ZeroHash (sha1_sum b)) | None => Panic end.
Definition Writer_Hash (w : ObjWriter) : res ObjectID := Hasher_sum (ow_hasher w).
End Hashing.

(** [Close]: what the file is then. *)
Definition Writer_Close `{Zlib} (w : ObjWriter) : bytes * ObjWriter :=
  (zlib_deflate (ow_plain w), MkObjWriter (ow_plain w) (ow_hasher w) true (ow_pending w)).

(** ** reader.go *)
Record ObjReader := MkObjReader { or_plain : bytes; or_end : error; or_hasher : option bytes; or_closed : bool }.

Definition objfile_NewReader `{Zlib} (file : bytes) : res ObjReader :=
  match zlib_inflate file with
  | inl _ => Err ErrZLib
  | inr (plain, e) => Ok (MkObjReader plain e None false)
  end.

(** [readUntil], one byte at a time. *)
Fixpoint readUntil_loop (plain : bytes) (e : error) (delim : byte) (value : bytes) : res (bytes * bytes) :=
  match plain with
  | [] => Err (if bool_decide (e = EOF) then ErrHeader else e)
  | b :: plain => if bool_decide (b = delim) then Ok (value, plain) else readUntil_loop plain e delim (value ++ [b])
  end.
Definition objfile_readUntil (r : ObjReader) (delim : byte) : res (bytes * ObjReader) :=
  let* (value, plain) := readUntil_loop (or_plain r) (or_end r) delim [] in
  Ok (value, MkObjReader plain (or_end r) (or_hasher r) (or_closed r)).

Definition prepareForRead (r : ObjReader) (t : ObjectType) (size : Z) : ObjReader :=
  MkObjReader (or_plain r) (or_end r) (Some (objectPreamble t size)) (or_closed r).

Definition objfile_Header (r : ObjReader) : res (ObjectType * Z * ObjReader) :=
  let* (raw, r) := objfile_readUntil r x20 in
  let* t := ParseObjectType raw in
  let* (raw, r) := objfile_readUntil r x00 in
  match ParseInt raw 10 64 with
  | Ok size => Ok (t, size, prepareForRead r t size)
  | _ => Err ErrHeader
  end.

(** [Read] with a buffer of a length; without a header there is nothing to read from. *)
Definition Reader_Read (r : ObjReader) (n : Z) : res (bytes * option error * ObjReader) :=
  match or_hasher r with
  | None => Panic
  | Some hashed =>
    let p := take (Z.to_nat n) (or_plain r) in
    let r' := MkObjReader (drop (Z.to_nat n) (or_plain r)) (or_end r) (Some (hashed ++ p)) (or_closed r) in
    Ok (p, if (len p =? 0) && (n >? 0) then Some (or_end r) else None, r')
  end.
Definition Reader_Hash `{Sha1} (r : ObjReader) : res ObjectID := Hasher_sum (or_hasher r).
Definition Reader_Close (r : ObjReader) : ObjReader := MkObjReader (or_plain r) (or_end r) (or_hasher r) true.

(** [io.Copy] from a reader, with a buffer of a length: the bytes, the error unless it is the end, and the reader then.  Every
    turn that gives no error reads something, so that the fuel is enough when it is more than what is left. *)
Fixpoint copyAll (fuel : nat) (buffer : Z) (r : ObjReader) (acc : bytes) : res (bytes * option error * ObjReader) :=
  match fuel with
  | O => NoFuel
  | S fuel =>
    let* (p, e, r) := Reader_Read r buffer in
    match e with
    | Some e => Ok (acc ++ p, if bool_decide (e = EOF) then None else Some e, r)
    | None => copyAll fuel buffer r (acc ++ p)
    end
  end.
Definition copyBuffer : Z := 32 * 1024.
Definition Reader_Copy (r : ObjReader) : res (bytes * option error * ObjReader) := copyAll (S (length (or_plain r))) copyBuffer r [].

(** [io.Copy] to a writer, of chunks that were read: it stops at the first error. *)
Fixpoint writeChunks (w : ObjWriter) (chunks : list bytes) : res (option error * ObjWriter) :=
  match chunks with
  | [] => Ok (None, w)
  | p :: chunks =>
    let* (_, e, w) := Writer_Write w p in
    match e with Some e => Ok (Some e, w) | None => writeChunks w chunks end
  end.

(** ** What is written is read back *)
Lemma readUntil_app a delim rest e : forall value, delim ∉ a -> readUntil_loop (a ++ delim :: rest) e delim value = Ok (value ++ a, rest).
Proof.
  induction a as [|b a IH]; intros value Ha; cbn [app readUntil_loop]; [by rewrite bool_decide_eq_true_2, app_nil_r|].
  rewrite not_elem_of_cons in Ha. rewrite bool_decide_eq_false_2 by naive_solver. rewrite IH by tauto. by rewrite <- app_assoc.
Qed.

Lemma copyAll_spec buffer : 0 < buffer -> forall fuel plain e hashed closed acc, (length plain < fuel)%nat ->
  copyAll fuel buffer (MkObjReader plain e (Some hashed) closed) acc =
  Ok (acc ++ plain, if bool_decide (e = EOF) then None else Some e, MkObjReader [] e (Some (hashed ++ plain)) closed).
Proof.
  intros Hb. induction fuel as [|fuel IH]; intros plain e hashed closed acc Hf; [lia|]. cbn [copyAll Reader_Read or_hasher or_plain or_end or_closed res_bind].
  destruct plain as [|b plain].
  - rewrite take_nil, drop_nil. change (len (@nil byte) =? 0) with true. rewrite (proj2 (Z.gtb_lt buffer 0) Hb). cbn [andb]. by rewrite !app_nil_r.
  - assert (len (take (Z.to_nat buffer) (b :: plain)) =? 0 = false) as ->. { rewrite len_take, len_cons. pose proof (len_nonneg plain). apply Z.eqb_neq. lia. }
    cbn [andb]. rewrite IH by (rewrite length_drop; cbn [length] in *; lia). by rewrite <- !app_assoc, !take_drop.
Qed.

Definition write_ok (w : ObjWriter) (hashed : bytes) : Prop := ow_closed w = false /\ ow_hasher w = Some hashed /\ 0 <= ow_pending w.
Lemma Write_fits w hashed p : write_ok w hashed -> len p <= ow_pending w ->
  Writer_Write w p = Ok (len p, None, MkObjWriter (ow_plain w ++ p) (Some (hashed ++ p)) false (ow_pending w - len p)).
Proof. intros (Hc & Hh & _) Hp. unfold Writer_Write. rewrite Hc, Hh. destruct (len p >? ow_pending w) eqn:E; [lia|]. done. Qed.

Lemma writeChunks_fits chunks : forall w hashed, write_ok w hashed -> len (concat chunks) <= ow_pending w ->
  writeChunks w chunks = Ok (None, MkObjWriter (ow_plain w ++ concat chunks) (Some (hashed ++ concat chunks)) false (ow_pending w - len (concat chunks))).
Proof.
  induction chunks as [|p chunks IH]; intros w hashed Hw Hl; cbn [writeChunks concat] in *.
  { destruct w as [plain h c n]. destruct Hw as (Hc & Hh & _). cbn in *. subst. by rewrite len_nil, !app_nil_r, Z.sub_0_r. }
  rewrite len_app in *. pose proof (len_nonneg (concat chunks)). rewrite (Write_fits w hashed) by (done || lia). cbn [res_bind].
  rewrite (IH _ (hashed ++ p)); [|split_and!; cbn; [done|done|pose proof (len_nonneg p); lia]|cbn; lia]. cbn [ow_plain ow_pending]. rewrite <- !app_assoc. by rewrite Z.sub_add_distr.
Qed.

(** The types whose names are read. *)
Definition named_types : list ObjectType := [CommitObject; TreeObject; BlobObject; TagObject; OFSDeltaObject; REFDeltaObject].
Lemma named_type_text t : t ∈ named_types -> ParseObjectType (ObjectType_String t) = Ok t /\ x20 ∉ ObjectType_String t /\ ObjectType_Valid t = true.
Proof.
  unfold named_types. rewrite !elem_of_cons, elem_of_nil. intros Ht. destruct_or? Ht; subst t; split_and!; try done; by_decision.
Qed.
Lemma FormatInt_zero n : 0 <= n -> x00 ∉ FormatInt n.
Proof.
  intros Hn. unfold FormatInt. destruct (Z.ltb_spec n 0); [lia|]. intros Hin. pose proof (digits_chars 10 ltac:(lia) n Hn) as Hd. rewrite Forall_forall in Hd.
  specialize (Hd _ Hin). change (b2z x00) with 0 in Hd. cbn in Hd. lia.
Qed.

Lemma Header_ok t size rest e : t ∈ named_types -> 0 <= size < 2 ^ 63 ->
  objfile_Header (MkObjReader (objectPreamble t size ++ rest) e None false) = Ok (t, size, MkObjReader rest e (Some (objectPreamble t size)) false).
Proof.
  intros Ht Hs. destruct (named_type_text t Ht) as (Hp & Hn & _). unfold objfile_Header, objfile_readUntil, objectPreamble. cbn [or_plain or_end or_hasher or_closed].
  change (bs " ") with [x20]. rewrite <- !app_assoc. cbn [app]. rewrite readUntil_app by done. cbn [res_bind app]. rewrite Hp. cbn [res_bind or_plain or_end or_hasher or_closed].
  rewrite readUntil_app by (apply FormatInt_zero; lia). cbn [res_bind app]. by rewrite ParseInt_FormatInt by lia.
Qed.

(** The object that is written in chunks is read back from the file: its type, its size, its content and its hash. *)
Theorem objfile_roundtrip `{ZlibLaws} `{Sha1} t chunks : t ∈ named_types -> len (concat chunks) < 2 ^ 63 ->
  exists w1 w2 r1 r2, WriteHeader objfile_NewWriter t (len (concat chunks)) = (None, w1) /\ writeChunks w1 chunks = Ok (None, w2) /\
  objfile_NewReader (Writer_Close w2).1 = Ok r1 /\ objfile_Header r1 = Ok (t, len (concat chunks), r2) /\
  exists r3, Reader_Copy r2 = Ok (concat chunks, None, r3) /\ Writer_Hash w2 = Reader_Hash r3 /\
    Reader_Hash r3 = Ok (Hasher_Sum sha1_sum t (len (concat chunks)) (concat chunks)).
Proof.
  intros Ht Hl. pose proof (len_nonneg (concat chunks)). destruct (named_type_text t Ht) as (_ & _ & Hv). set (n := len (concat chunks)) in *.
  do 4 eexists. split; [unfold WriteHeader; rewrite Hv; cbn [negb]; by destruct (Z.ltb_spec n 0); [lia|]|].
  split; [apply (writeChunks_fits _ _ (objectPreamble t n)); [done|cbn; lia]|].
  cbn [Writer_Close fst ow_plain prepareForWrite objfile_NewWriter app]. unfold objfile_NewReader. rewrite inflate_deflate. split; [done|].
  split; [apply (Header_ok t n (concat chunks)); [done|lia]|]. eexists. split; [apply copyAll_spec; [done|cbn [or_plain]; lia]|]. done.
Qed.

(** A writer takes no more than the size of its header: what is left of a longer text is refused. *)
Lemma Write_overflow w hashed p : write_ok w hashed -> ow_pending w < len p ->
  exists w', Writer_Write w p = Ok (ow_pending w, Some ErrOverflow, w') /\ ow_pending w' = 0 /\ ow_plain w' = ow_plain w ++ take (Z.to_nat (ow_pending w)) p.
Proof.
  intros (Hc & Hh & Hn) Hp. unfold Writer_Write. rewrite Hc, Hh. destruct (len p >? ow_pending w) eqn:E; [|lia].
  rewrite slice_ok by lia. cbn [res_bind]. unfold seg. rewrite drop_0, Z.sub_0_r. assert (len (take (Z.to_nat (ow_pending w)) p) = ow_pending w) as Hlen by (rewrite len_take; lia).
  rewrite Hlen. eexists. split; [done|]. cbn. split; [lia|done].
Qed.

(** The type five is valid for the writer, and no reader reads its header. *)
Theorem objfile_type_five `{ZlibLaws} : exists w, WriteHeader objfile_NewWriter 5 0 = (None, w) /\
  exists r, objfile_NewReader (Writer_Close w).1 = Ok r /\ objfile_Header r = Err ErrInvalidType.
Proof. eexists. split; [done|]. unfold objfile_NewReader. cbn [Writer_Close fst ow_plain]. rewrite inflate_deflate. eexists. by split. Qed.

(** ** A compression and a hash *)
#[local] Instance storedZlib : Zlib := {| zlib_deflate b := x78 :: b; zlib_inflate b := match b with x78 :: b => inr (b, EOF) | _ => inl ErrSyntax end |}.
#[local] Instance storedZlib_laws : ZlibLaws.
Proof. by intros b. Qed.
#[local] Instance takeSha1 : Sha1 := fun b => take 20 (b ++ replicate 20 x00).
#[local] Instance takeSha1_laws : Sha1Laws.
Proof. intros b. unfold sha1_sum, takeSha1. rewrite len_take, len_app, len_replicate. pose proof (len_nonneg b). lia. Qed.

Lemma objfile_roundtrip_witness :
  exists w1 w2 r1 r2, WriteHeader objfile_NewWriter BlobObject 11 = (None, w1) /\ writeChunks w1 [bs "hello "; bs "world"] = Ok (None, w2) /\
  objfile_NewReader (Writer_Close w2).1 = Ok r1 /\ objfile_Header r1 = Ok (BlobObject, 11, r2) /\
  exists r3, Reader_Copy r2 = Ok (bs "hello world", None, r3) /\ Writer_Hash w2 = Reader_Hash r3 /\
    Reader_Hash r3 = Ok (Hasher_Sum sha1_sum BlobObject 11 (bs "hello world")).
Proof. apply (objfile_roundtrip BlobObject [bs "hello "; bs "world"]); [by_decision|done]. Defined.
