(* ===== verification/LooseObjects.v ===== *)
(** * storage/filesystem: loose objects

    The objects that are files of the directory objects: the object part of dotgit/dotgit.go, the object writer of
    dotgit/writers.go and the operations on loose objects of object.go, over the file system of the references.  The
    index of the packfiles is a parameter: whether it finds an object, or the error that reading it gives.  Locks are not
    modelled. *)
From S2P Require Import Prelude GoStrings GoPath Strconv ObjectID Reference Storer Memory PackEncoder Packp DotGit Objfile.

Definition objectsPath : bytes := bs "objects".
Definition packPath : bytes := bs "pack".

(** ** dotgit.go *)
Definition isNum (b : byte) : bool := (48 <=? b2z b) && (b2z b <=? 57).
Definition isHexAlpha (b : byte) : bool := (97 <=? b2z b) && (b2z b <=? 102) || (65 <=? b2z b) && (b2z b <=? 70).
Fixpoint isHex (s : bytes) : bool :=
  match s with [] => true | b :: s => if isNum b then isHex s else if isHexAlpha b then isHex s else false end.

(** [incBytes], on the bytes from the last one: the bytes, and whether they overflow. *)
Fixpoint incBytes_loop (rev : bytes) : bytes * bool :=
  match rev with
  | [] => ([], true)
  | b :: rev =>
    let b := z2b (b2z b + 1) in
    if negb (bool_decide (b = x00)) then (b :: rev, false) else let (rev, overflow) := incBytes_loop rev in (b :: rev, overflow)
  end.
Definition incBytes (l : bytes) : bytes * bool := let (r, overflow) := incBytes_loop (rev l) in (rev r, overflow).

(** [sort.Search]: the loop halves an interval. *)
Fixpoint Search_loop (fuel : nat) (f : Z -> bool) (i j : Z) : Z :=
  match fuel with
  | O => i
  | S fuel => if i <? j then let h := (i + j) / 2 in if negb (f h) then Search_loop fuel f (h + 1) j else Search_loop fuel f i h else i
  end.
Definition Search (n : Z) (f : Z -> bool) : Z := Search_loop (Z.to_nat n) f 0 n.
(** What [ObjectsWithPrefix] searches for: the hash at an index is not before a prefix. *)
Definition atLeast (l : list ObjectID) (p : bytes) (i : Z) : bool :=
  match l !! Z.to_nat i with Some h => compareBytes (ObjectID_Bytes h) p >=? 0 | None => true end.

Section DotGitObjects.
Context {F : Type} `{Filesystem F}.

(** The fields of a DotGit that objects need; the list of objects is [None] while its map is nil. *)
Record ObjectDir := MkObjectDir { od_fs : F; od_Exclusive : bool; od_list : option (list ObjectID); od_incomingChecked : bool; od_incomingDirName : bytes }.
Definition setFs (d : ObjectDir) (f : F) : ObjectDir := MkObjectDir f (od_Exclusive d) (od_list d) (od_incomingChecked d) (od_incomingDirName d).
Definition setObjectList (d : ObjectDir) (l : option (list ObjectID)) : ObjectDir :=
  MkObjectDir (od_fs d) (od_Exclusive d) l (od_incomingChecked d) (od_incomingDirName d).

Definition hexPath (h : ObjectID) : list bytes :=
  let hex := ObjectID_String h in [take 2 hex; drop 2 (take (Z.to_nat (ObjectID_HexSize h)) hex)].
Definition objectPath (d : ObjectDir) (h : ObjectID) : bytes := fs_Join (od_fs d) (objectsPath :: hexPath h).
Definition incomingObjectPath (d : ObjectDir) (h : ObjectID) : bytes :=
  if bool_decide (od_incomingDirName d = []) then fs_Join (od_fs d) (objectsPath :: hexPath h)
  else fs_Join (od_fs d) (objectsPath :: od_incomingDirName d :: hexPath h).

(** [forEachObjectHash]: the entries of a directory, and the directories. *)
Fixpoint forEachEntry {A} (fun_ : A -> ObjectID -> A * option error) (base : bytes) (l : list (bytes * bool)) (a : A) : A * option error :=
  match l with
  | [] => (a, None)
  | (name, _) :: l =>
    let h := NewHash (base ++ name) in
    if IsZero h then forEachEntry fun_ base l a
    else match fun_ a h with (a, None) => forEachEntry fun_ base l a | r => r end
  end.
Fixpoint forEachDir {A} (f : F) (fun_ : A -> ObjectID -> A * option error) (l : list (bytes * bool)) (a : A) : A * option error :=
  match l with
  | [] => (a, None)
  | (name, isDir) :: l =>
    if isDir && (len name =? 2) && isHex name then
      match fs_ReadDir f (fs_Join f [objectsPath; name]) with
      | inl e => (a, Some e)
      | inr es => match forEachEntry fun_ name es a with (a, None) => forEachDir f fun_ l a | r => r end
      end
    else forEachDir f fun_ l a
  end.
Definition forEachObjectHash {A} (f : F) (fun_ : A -> ObjectID -> A * option error) (a : A) : A * option error :=
  match fs_ReadDir f objectsPath with
  | inl e => (a, if IsNotExist e then None else Some e)
  | inr l => forEachDir f fun_ l a
  end.

Definition cleanObjectList (d : ObjectDir) : ObjectDir := setObjectList d None.
(** The map is made before the objects are listed, and kept when that fails. *)
Definition genObjectList (d : ObjectDir) : option error * ObjectDir :=
  match od_list d with
  | Some _ => (None, d)
  | None =>
    match forEachObjectHash (od_fs d) (fun l h => (l ++ [h], None)) [] with
    | (l, Some e) => (Some e, setObjectList d (Some l))
    | (l, None) => (None, setObjectList d (Some (HashesSort l)))
    end
  end.
Definition hasObject (d : ObjectDir) (h : ObjectID) : option error * ObjectDir :=
  if negb (od_Exclusive d) then (None, d)
  else
    match genObjectList d with
    | (Some e, d) => (Some e, d)
    | (None, d) => (if bool_decide (h ∈ default [] (od_list d)) then None else Some ErrObjectNotFound, d)
    end.

(** [ForEachObjectHash] with a callback that fails; an exclusive list is not read again. *)
Fixpoint callAll {A} (fun_ : A -> ObjectID -> A * option error) (l : list ObjectID) (a : A) : A * option error :=
  match l with
  | [] => (a, None)
  | h :: l => match fun_ a h with (a, None) => callAll fun_ l a | r => r end
  end.
Definition ForEachObjectHash {A} (d : ObjectDir) (fun_ : A -> ObjectID -> A * option error) (a : A) : A * option error * ObjectDir :=
  if negb (od_Exclusive d) then (forEachObjectHash (od_fs d) fun_ a, d)
  else
    match genObjectList d with
    | (Some e, d) => (a, Some e, d)
    | (None, d) => (callAll fun_ (default [] (od_list d)) a, d)
    end.

Definition Objects (d : ObjectDir) : res (list ObjectID) * ObjectDir :=
  if od_Exclusive d then
    match genObjectList d with
    | (Some e, d) => (Err e, d)
    | (None, d) => (Ok (default [] (od_list d)), d)
    end
  else
    match ForEachObjectHash d (fun l h => (l ++ [h], None)) [] with
    | (_, Some e, d) => (Err e, d)
    | (l, None, d) => (Ok l, d)
    end.

Definition ObjectsWithPrefix (d : ObjectDir) (prefix : bytes) : res (list ObjectID) * ObjectDir :=
  if len prefix <? 1 then Objects d
  else if len prefix >? ObjectID_Size ZeroHash then (Ok [], d)
  else if od_Exclusive d then
    match genObjectList d with
    | (Some e, d) => (Err e, d)
    | (None, d) =>
      let l := default [] (od_list d) in
      let first := Search (len l) (atLeast l prefix) in
      let (limPrefix, overflow) := incBytes prefix in
      let lim := if overflow then len l else Search (len l) (atLeast l limPrefix) in
      (slice l first lim, d)
    end
  else
    match ForEachObjectHash d (fun l h => (if HasPrefix (ObjectID_Bytes h) prefix then l ++ [h] else l, None)) [] with
    | (_, Some e, d) => (Err e, d)
    | (l, None, d) => (Ok l, d)
    end.

(** [hasIncomingObjects]: the last directory with such a name. *)
Definition isIncoming (name : bytes) : bool := HasPrefix name (bs "tmp_objdir-incoming-") || HasPrefix name (bs "incoming-").
Definition hasIncomingObjects (d : ObjectDir) : bool * ObjectDir :=
  let d :=
    if od_incomingChecked d then d
    else
      let name :=
        match fs_ReadDir (od_fs d) objectsPath with
        | inl _ => od_incomingDirName d
        | inr l => foldl (fun name p => if p.2 && isIncoming p.1 then p.1 else name) (od_incomingDirName d) l
        end in
      MkObjectDir (od_fs d) (od_Exclusive d) (od_list d) true name in
  (negb (bool_decide (od_incomingDirName d = [])), d).

(** [Object] and [ObjectStat]: the path of the object, or the one of the incoming objects. *)
Definition atObject {A} (d : ObjectDir) (h : ObjectID) (op : F -> bytes -> error + A) : (error + A) * ObjectDir :=
  match op (od_fs d) (objectPath d h) with
  | inl e =>
    if IsNotExist e then
      let (incoming, d) := hasIncomingObjects d in
      if incoming then match op (od_fs d) (incomingObjectPath d h) with inl _ => (inl e, d) | inr a => (inr a, d) end
      else (inl e, d)
    else (inl e, d)
  | inr a => (inr a, d)
  end.
Definition dotgit_Object (d : ObjectDir) (h : ObjectID) : (error + bytes) * ObjectDir :=
  match hasObject d h with
  | (Some e, d) => (inl e, d)
  | (None, d) => atObject d h fs_Open
  end.
Definition ObjectStat (d : ObjectDir) (h : ObjectID) : (error + bool) * ObjectDir :=
  match hasObject d h with
  | (Some e, d) => (inl e, d)
  | (None, d) => atObject d h fs_Stat
  end.
Definition ObjectDelete (d : ObjectDir) (h : ObjectID) : option error * ObjectDir :=
  let d := cleanObjectList d in
  match atObject d h fs_Remove with
  | (inl e, d) => (Some e, d)
  | (inr f, d) => (None, setFs d f)
  end.

(** ** writers.go: an object is written to a file of its own, which is renamed when the writer is closed *)
Record ObjectWriter := MkObjectWriter { objw_Writer : ObjWriter; objw_name : bytes }.
Definition newObjectWriter (f : F) : error + (ObjectWriter * F) :=
  match fs_TempFile f (fs_Join f [objectsPath; packPath]) (bs "tmp_obj_") with
  | inl e => inl e
  | inr (name, f) => inr (MkObjectWriter objfile_NewWriter name, f)
  end.
Definition NewObject (d : ObjectDir) : error + (ObjectWriter * ObjectDir) :=
  let d := cleanObjectList d in
  match newObjectWriter (od_fs d) with inl e => inl e | inr (w, f) => inr (w, setFs d f) end.

Section Writing.
Context `{Zlib} `{Sha1}.

Definition ObjectWriter_save (f : F) (w : ObjectWriter) : res (option error * F) :=
  let* h := Writer_Hash (objw_Writer w) in
  match fs_Rename f (objw_name w) (fs_Join f (objectsPath :: hexPath h)) with
  | inl e => Ok (Some e, f)
  | inr f => Ok (None, f)
  end.
Definition ObjectWriter_Close (f : F) (w : ObjectWriter) : res (option error * F) :=
  let (content, wr) := Writer_Close (objw_Writer w) in
  match fs_Write f (objw_name w) content with
  | inl e => Ok (Some e, f)
  | inr f => ObjectWriter_save f (MkObjectWriter wr (objw_name w))
  end.

(** ** object.go *)
(** [SetEncodedObject], where reading the object gives [chunks] and does not fail: the writer is closed however the function returns; the error of [Close] counts when there is no other. *)
Definition storage_SetEncodedObject (d : ObjectDir) (o : PObj) (chunks : list bytes) : res (ObjectID * option error * ObjectDir) :=
  if (po_Type o =? OFSDeltaObject) || (po_Type o =? REFDeltaObject) then Ok (ZeroHash, Some ErrInvalidType, d)
  else
    match NewObject d with
    | inl e => Ok (ZeroHash, Some e, cleanObjectList d)
    | inr (ow, d) =>
      let finish h err w :=
        let* (cerr, f) := ObjectWriter_Close (od_fs d) (MkObjectWriter w (objw_name ow)) in
        Ok (h, match err with Some e => Some e | None => cerr end, setFs d f) in
      match WriteHeader (objw_Writer ow) (po_Type o) (po_Size o) with
      | (Some e, w) => finish ZeroHash (Some e) w
      | (None, w) =>
        let* (err, w) := writeChunks w chunks in
        match err with
        | Some e => finish ZeroHash (Some e) w
        | None => finish (po_Hash o) None w
        end
      end
    end.

(** [RawObjectWriter] and [LazyWriter] *)
Definition RawObjectWriter (d : ObjectDir) (t : ObjectType) (size : Z) : res (ObjectWriter * ObjectDir) * ObjectDir :=
  match NewObject d with
  | inl e => (Err e, cleanObjectList d)
  | inr (ow, d) =>
    match WriteHeader (objw_Writer ow) t size with
    | (Some e, _) => (Err e, d)
    | (None, w) => (Ok (MkObjectWriter w (objw_name ow), d), d)
    end
  end.

Context (packFind : ObjectID -> error + bool).

Definition storage_HasEncodedObject (d : ObjectDir) (h : ObjectID) : option error * ObjectDir :=
  let packed := match packFind h with inl e => Some e | inr true => None | inr false => Some ErrObjectNotFound end in
  match dotgit_Object d h with
  | (inl e, d) => (if negb (IsNotExist e) then Some e else packed, d)
  | (inr _, d) => (None, d)
  end.

Definition encodedObjectSizeFromUnpacked (d : ObjectDir) (h : ObjectID) : res Z * ObjectDir :=
  match dotgit_Object d h with
  | (inl e, d) => (Err (if IsNotExist e then ErrObjectNotFound else e), d)
  | (inr file, d) => (let* r := objfile_NewReader file in let* (_, size, _) := objfile_Header r in Ok size, d)
  end.

(** An object in memory, or one that stays in its file because it is large. *)
Inductive LooseObject := Loaded (o : PObj) | OnDisk (h : ObjectID) (t : ObjectType) (size : Z).
(** A memory object with a type and a size that its content was then written to. *)
Definition loadedObject (t : ObjectType) (size : Z) (content : bytes) : PObj :=
  mkPObj t (if len content =? 0 then size else len content) (Hasher_Sum sha1_sum t (len content) content) content None.

(** The cache of objects, whose state a search changes too. *)
Context {C : Type} (cacheGet : C -> ObjectID -> option PObj * C) (cachePut : C -> PObj -> C) (LargeObjectThreshold : Z).

Definition getFromUnpacked (c : C) (d : ObjectDir) (h : ObjectID) : res LooseObject * C * ObjectDir :=
  match dotgit_Object d h with
  | (inl e, d) => (Err (if IsNotExist e then ErrObjectNotFound else e), c, d)
  | (inr file, d) =>
    match cacheGet c h with
    | (Some o, c) => (Ok (Loaded o), c, d)
    | (None, c) =>
      let read :=
        let* r := objfile_NewReader file in
        let* (t, size, r) := objfile_Header r in
        if (LargeObjectThreshold >? 0) && (size >? LargeObjectThreshold) then Ok (OnDisk h t size)
        else
          let* (content, err, _) := Reader_Copy r in
          match err with Some e => Err e | None => Ok (Loaded (loadedObject t size content)) end in
      (read, match read with Ok (Loaded o) => cachePut c o | _ => c end, d)
    end
  end.

(** [ForEachObjectHash]: a callback that asks to stop has not failed. *)
Definition storage_ForEachObjectHash {A} (d : ObjectDir) (fun_ : A -> ObjectID -> A * option error) (a : A) : A * option error * ObjectDir :=
  let '(a, err, d) := ForEachObjectHash d fun_ a in (a, if bool_decide (err = Some ErrStop) then None else err, d).
Definition DeleteLooseObject (d : ObjectDir) (h : ObjectID) : option error * ObjectDir := ObjectDelete d h.
End Writing.
End DotGitObjects.
