(* ===== verification/LooseProofs.v ===== *)
(** * storage/filesystem: loose objects, proofs

    Where an object is, what writing one does to the files, and what the listing of the objects has. *)
From S2P Require Import Prelude GoStrings GoPath Strconv ObjectID Reference Storer Memory PackEncoder AdvRefsProofs UlreqProofs Packp DotGit DotGitProofs DotGitTheorems Objfile LooseObjects.

(** ** Where an object is *)
Ltac all_components := repeat (apply Forall_cons_2; [done|]); apply Forall_nil_2.
Definition objPath (h : ObjectID) : list bytes := objectsPath :: hexPath h.

Lemma hex_no_slash b : hexValue b <> None -> b <> x2f /\ b <> x2e.
Proof. intros Hb. split; by intros ->. Qed.
Lemma hex_component c : c <> [] -> Forall (fun b => hexValue b <> None) c -> component c.
Proof.
  intros Hc Hh. split; [done|]. split_and!.
  - intros ->. apply Forall_inv in Hh. by destruct (hex_no_slash _ Hh).
  - intros ->. apply Forall_inv in Hh. by destruct (hex_no_slash _ Hh).
  - intros Hin. rewrite Forall_forall in Hh. by destruct (hex_no_slash _ (Hh _ Hin)).
Qed.

Lemma hex_of_id h : wf_id h -> exists a b, hexPath h = [a; b] /\ a ++ b = ObjectID_String h /\ length a = 2%nat /\ component a /\ component b /\
  Forall (fun c => hexValue c <> None) a.
Proof.
  intros Hw. pose proof (EncodeToString_digits (ObjectID_Bytes h)) as Hd. pose proof (EncodeToString_len (ObjectID_Bytes h)) as Hl.
  destruct (wf_bytes h Hw) as (Hb & _ & Hs). unfold hexPath, ObjectID_String in *.
  assert (ObjectID_HexSize h = len (EncodeToString (ObjectID_Bytes h)) /\ 40 <= ObjectID_HexSize h) as [Hz Hz'].
  { rewrite Hl, Hb, Hs. unfold ObjectID_HexSize. by destruct Hw as [_ [Hf|[Hf _]]]; rewrite Hf. }
  rewrite Hz. replace (Z.to_nat (len (EncodeToString (ObjectID_Bytes h)))) with (length (EncodeToString (ObjectID_Bytes h))) by (unfold len; lia).
  rewrite firstn_all. set (s := EncodeToString (ObjectID_Bytes h)) in *. assert (40 <= length s)%nat as Hlen by (unfold len in Hz; lia).
  exists (take 2 s), (drop 2 s). split; [done|]. split; [apply take_drop|]. split; [rewrite length_take; lia|].
  assert (Forall (fun b => hexValue b <> None) (take 2 s)) by (by apply Forall_take). split_and!; [|  |done].
  - apply hex_component; [|done]. intros E. apply (f_equal length) in E. rewrite length_take in E. cbn [length] in E. lia.
  - apply hex_component; [|by apply Forall_drop]. intros E. apply (f_equal length) in E. rewrite length_drop in E. cbn [length] in E. lia.
Qed.
Lemma objectsPath_component : component objectsPath /\ component packPath.
Proof. split; split_and!; try done; by_decision. Qed.

Lemma objPath_good h : wf_id h -> good_path (objPath h) /\ length (objPath h) = 3%nat.
Proof.
  intros Hw. unfold objPath. destruct (hex_of_id h Hw) as (a & b & -> & _ & _ & Ha & Hb & _). split; [|done]. split; [done|].
  destruct objectsPath_component. all_components.
Qed.
Lemma objPath_inj h h' : wf_id h -> wf_id h' -> objPath h = objPath h' -> h = h'.
Proof.
  intros Hw Hw' E. unfold objPath in E. destruct (hex_of_id h Hw) as (a & b & E1 & E2 & _), (hex_of_id h' Hw') as (a' & b' & E1' & E2' & _).
  rewrite E1, E1' in E. injection E as <- <-. pose proof (FromHex_String h Hw) as F1. pose proof (FromHex_String h' Hw') as F2. rewrite <- E2 in F1. rewrite <- E2', F1 in F2. by injection F2.
Qed.

Lemma Hasher_wf `{Sha1Laws} b : wf_id (ObjectID_Write ZeroHash (sha1_sum b)).
Proof.
  pose proof (sha1_size b) as Hl. assert (length (sha1_sum b) = 20%nat) as Hn by (unfold len in Hl; lia). unfold wf_id, ObjectID_Write, copyBytes. cbn [hash oformat ZeroHash].
  rewrite (take_ge (sha1_sum b)) by (rewrite Hn; vm_compute; lia). rewrite Hn. change (drop 20 emptyHash) with (replicate 12 x00). split.
  - rewrite len_app, Hl. done.
  - right. split; [done|]. change (Z.to_nat SHA1Size) with 20%nat. rewrite drop_app_ge by lia. by rewrite Hn, Nat.sub_diag, drop_0.
Qed.

Lemma short_above p q : q ∈ above p -> (length q < length p)%nat.
Proof. intros (k & Hk & ->)%elem_of_above. rewrite length_take. lia. Qed.

(** ** Writing an object *)
Section Loose.
Context {F : Type} `{FilesystemLaws F} `{ZlibLaws} `{Sha1Laws}.
Notation ObjectDir := (@ObjectDir F).

(** The directories of the objects can be made, and no directory is in the place of an object. *)
Record objects_ok (f : F) : Prop := {
  oo_inv : fs_inv f;
  oo_dirs : files f !! [objectsPath] = None /\ files f !! [objectsPath; packPath] = None;
  oo_free h : wf_id h -> free_path (files f) (dirs f) (objPath h) }.

Lemma join_path (d : ObjectDir) ps : good_path ps -> fs_Join (od_fs d) ps = pathOf ps.
Proof. intros [_ Hc]. rewrite law_join. by apply path_Join_components. Qed.
Lemma objectPath_eq (d : ObjectDir) h : wf_id h -> objectPath d h = pathOf (objPath h).
Proof. intros Hw. apply join_path. by apply objPath_good. Qed.

Lemma NewObject_ok (d : ObjectDir) : objects_ok (od_fs d) -> exists t f, let tmp := [objectsPath; packPath; t] in
  NewObject d = inr (MkObjectWriter objfile_NewWriter (pathOf tmp), setFs (cleanObjectList d) f) /\ objects_ok f /\ files (od_fs d) !! tmp = None /\
  files f = <[tmp := []]> (files (od_fs d)) /\ dirs f = dirs (od_fs d) ∪ above tmp /\ forall h, wf_id h -> tmp <> objPath h.
Proof.
  intros [Hi [Ho Hp] Hfree]. destruct objectsPath_component as [C1 C2].
  assert (forall t, above [objectsPath; packPath; t] = {[ [objectsPath]; [objectsPath; packPath] ]}) as Hab.
  { intros t. unfold above. cbn [length Nat.sub seq map take list_to_set]. set_solver. }
  destruct (law_temp (od_fs d) [objectsPath; packPath] (bs "tmp_obj_") Hi) as (t & f & E & I' & Ct & _ & _ & Hd & Hf & E1 & E2); [split_and!; try done; by_decision|all_components| |].
  { intros q. cbn [app]. rewrite Hab. set_solver. }
  cbn [app] in *. exists t, f. cbv zeta.
  assert (forall h, wf_id h -> [objectsPath; packPath; t] <> objPath h) as Hne.
  { intros h Hw Ee. unfold objPath in Ee. destruct (hex_of_id h Hw) as (a & b & Eh & _ & Hl & _). rewrite Eh in Ee. injection Ee as Ea _. by rewrite <- Ea in Hl. }
  split_and!; try done.
  - unfold NewObject, newObjectWriter, cleanObjectList. cbn [od_fs setObjectList]. rewrite (join_path d [objectsPath; packPath]) by (split; [done|all_components]). by rewrite E.
  - split; [done|rewrite E1; split; by rewrite lookup_insert_ne|]. intros h Hw. destruct (Hfree h Hw) as [F1 F2]. destruct (objPath_good h Hw) as [_ Hl]. rewrite E1, E2. split.
    + rewrite not_elem_of_union. split; [done|]. intros Ha%short_above. cbn in Ha. lia.
    + intros q Hq. rewrite lookup_insert_ne; [by apply F2|]. intros <-. apply short_above in Hq. cbn in Hq. lia.
Qed.

Lemma Close_ok (f : F) w name tmp hashed : let h := ObjectID_Write ZeroHash (sha1_sum hashed) in
  objects_ok f -> name = pathOf tmp -> is_Some (files f !! tmp) -> tmp <> objPath h -> ow_hasher w = Some hashed -> files f !! objPath h = None ->
  exists f', ObjectWriter_Close f (MkObjectWriter w name) = Ok (None, f') /\ objects_ok f' /\
    files f' = <[objPath h := zlib_deflate (ow_plain w)]> (delete tmp (files f)) /\ dirs f' = dirs f ∪ above (objPath h).
Proof.
  cbv zeta. set (h := ObjectID_Write _ _). intros [Hi [Ho Hp] Hfree] -> [b Hb] Hne Hh Hnone. pose proof (Hasher_wf hashed : wf_id h) as Hw.
  unfold ObjectWriter_Close. cbn [Writer_Close objw_Writer objw_name]. destruct (law_write f tmp b (zlib_deflate (ow_plain w)) Hi Hb) as (f1 & -> & I1 & E1 & E2).
  unfold ObjectWriter_save. cbn [objw_Writer objw_name]. unfold Writer_Hash. cbn [ow_hasher]. rewrite Hh. cbn [Hasher_sum res_bind]. fold h.
  destruct (objPath_good h Hw) as [Hg Hlen]. rewrite law_join. change (path_Join (objectsPath :: hexPath h)) with (path_Join (objPath h)).
  rewrite path_Join_components by apply Hg. destruct (Hfree h Hw) as [F1 F2].
  assert (tmp ∉ above (objPath h)) as Htmp by (intros Hin; rewrite (F2 _ Hin) in Hb; done).
  destruct (law_rename_new f1 tmp (objPath h) (zlib_deflate (ow_plain w)) I1) as (f2 & E & I2 & E3 & E4).
  - by rewrite E1, lookup_insert_eq.
  - done.
  - rewrite E1, E2. split; [done|]. intros q Hq. rewrite lookup_insert_ne by (intros ->; done). by apply F2.
  - by rewrite E1, lookup_insert_ne.
  - exists f2. fold (pathOf (objPath h)). rewrite E. rewrite E1, delete_insert_eq in E3. split; [done|]. split; [|split; [done|by rewrite E4, E2]].
    assert (forall q, (length q < 3)%nat -> files f !! q = None -> files f2 !! q = None) as Hshort.
    { intros q Hq Hn. rewrite E3, lookup_insert_ne by (intros <-; lia). apply lookup_delete_None. by right. }
    split; [done|split; apply Hshort; done || (cbn; lia)|]. intros h' Hw'. destruct (Hfree h' Hw') as [G1 G2], (objPath_good h' Hw') as [_ Hl']. split.
    + rewrite E4, E2, not_elem_of_union. split; [done|]. intros Ha%short_above. lia.
    + intros q Hq. apply Hshort; [apply short_above in Hq; lia|by apply G2].
Qed.

(** The file of an object *)
Definition looseFile (t : ObjectType) (content : bytes) : bytes := zlib_deflate (objectPreamble t (len content) ++ content).
Definition contentHash (t : ObjectType) (content : bytes) : ObjectID := Hasher_Sum sha1_sum t (len content) content.

Lemma set_loose_ok (d : ObjectDir) o chunks : objects_ok (od_fs d) -> 1 <= po_Type o <= 4 -> concat chunks = po_Content o -> po_Size o = len (po_Content o) ->
  files (od_fs d) !! objPath (contentHash (po_Type o) (po_Content o)) = None ->
  exists f, storage_SetEncodedObject d o chunks = Ok (po_Hash o, None, setFs (cleanObjectList d) f) /\ objects_ok f /\
    files f = <[objPath (contentHash (po_Type o) (po_Content o)) := looseFile (po_Type o) (po_Content o)]> (files (od_fs d)) /\ dirs (od_fs d) ⊆ dirs f.
Proof.
  intros Hok Ht Hc Hs Hnone. set (h := contentHash _ _) in *. unfold storage_SetEncodedObject.
  assert ((po_Type o =? OFSDeltaObject) || (po_Type o =? REFDeltaObject) = false) as ->. { unfold OFSDeltaObject, REFDeltaObject. lia. }
  destruct (NewObject_ok d Hok) as (t & f1 & E & Hok1 & Hn & E1 & E2 & Hne). cbv zeta in *. rewrite E. cbn [objw_Writer objw_name].
  assert (ObjectType_Valid (po_Type o) = true) as Hv. { unfold ObjectType_Valid, CommitObject, REFDeltaObject. lia. }
  unfold WriteHeader. rewrite Hv. cbn [negb]. pose proof (len_nonneg (po_Content o)). destruct (Z.ltb_spec (po_Size o) 0); [lia|].
  rewrite (writeChunks_fits _ _ (objectPreamble (po_Type o) (po_Size o))); [|unfold write_ok; split_and!; cbn; [done|done|lia]|cbn; rewrite Hc; lia]. cbn [res_bind]. rewrite Hc.
  cbn [prepareForWrite objfile_NewWriter ow_plain ow_pending app]. cbn [od_fs setFs].
  assert (wf_id h) as Hwf by apply Hasher_wf.
  destruct (Close_ok f1 (MkObjWriter ((ObjectType_String (po_Type o) ++ [x20] ++ FormatInt (po_Size o) ++ [x00]) ++ po_Content o)
      (Some (objectPreamble (po_Type o) (po_Size o) ++ po_Content o)) false (po_Size o - len (po_Content o)))
    (pathOf [objectsPath; packPath; t]) [objectsPath; packPath; t] (objectPreamble (po_Type o) (po_Size o) ++ po_Content o)) as (f2 & E3 & Hok2 & E4 & E5); try done.
  - rewrite E1, lookup_insert_eq. by eexists.
  - rewrite Hs. apply (Hne h Hwf).
  - rewrite Hs. fold h. change (ObjectID_Write ZeroHash (sha1_sum (objectPreamble (po_Type o) (len (po_Content o)) ++ po_Content o))) with h.
    rewrite E1, lookup_insert_ne by (by apply Hne). done.
  - cbn [app] in E3. rewrite E3. cbn [res_bind]. exists f2. split; [done|]. split; [done|]. split.
    + rewrite E4, Hs. cbn [ow_plain]. change (ObjectID_Write ZeroHash (sha1_sum (objectPreamble (po_Type o) (len (po_Content o)) ++ po_Content o))) with h.
      by rewrite E1, delete_insert_id by done.
    + rewrite E5, E2. set_solver.
Qed.
(** ** Listing the objects *)
Lemma forEachEntry_list base es : forall l, forEachEntry (fun l h => (l ++ [h], None)) base es l =
  (l ++ base.filter (fun h => IsZero h = false) (map (fun e => NewHash (base ++ e.1)) es), None).
Proof.
  induction es as [|[name dir] es IH]; intros l; cbn [forEachEntry map fst]; [by rewrite filter_nil, app_nil_r|]. rewrite filter_cons.
  destruct (IsZero (NewHash (base ++ name))) eqn:E; [by rewrite decide_False|]. rewrite decide_True by done. by rewrite IH, <- app_assoc.
Qed.

Definition hexDir (name : bytes) (isDir : bool) : bool := isDir && (len name =? 2) && isHex name.
Lemma forEachDir_list (f : F) ds : fs_inv f -> Forall (fun e => e.2 = true -> component e.1 /\ [objectsPath; e.1] ∈ dirs f) ds -> forall l,
  exists l', forEachDir f (fun l h => (l ++ [h], None)) ds l = (l ++ l', None) /\
  forall h, h ∈ l' <-> IsZero h = false /\ exists a b, (a, true) ∈ ds /\ hexDir a true = true /\ h = NewHash (a ++ b) /\ component b /\
    (is_Some (files f !! [objectsPath; a; b]) \/ [objectsPath; a; b] ∈ dirs f).
Proof.
  intros Hi. induction 1 as [|[name dir] ds Hd _ IH]; intros l; cbn [forEachDir].
  { exists []. rewrite app_nil_r. split; [done|]. intros h. split; [by intros ?%not_elem_of_nil|]. by intros (_ & a & b & ?%not_elem_of_nil & _). }
  fold (hexDir name dir). destruct (hexDir name dir) eqn:E.
  - assert (dir = true) as -> by (unfold hexDir in E; by destruct dir). destruct (Hd eq_refl) as [Hc Hin]. cbn [fst] in *. destruct objectsPath_component as [C1 _].
    rewrite law_join, path_Join_components by all_components. destruct (law_readdir f [objectsPath; name] Hi Hin) as (es & Ee & _ & Hes). unfold pathOf in Ee. rewrite Ee.
    rewrite forEachEntry_list. destruct (IH (l ++ base.filter (fun h => IsZero h = false) (map (fun e => NewHash (name ++ e.1)) es))) as (l' & -> & Hl').
    eexists. split; [by rewrite <- app_assoc|]. intros h. rewrite elem_of_app, list_elem_of_filter, list_elem_of_fmap, Hl'. split.
    + intros [[Hz ([b bd] & -> & Hb)]|(Hz & a & b & Ha & Hr)].
      * split; [done|]. exists name, b. apply Hes in Hb as [Hcb Hb]. split; [by left|]. split; [done|]. split; [done|]. split; [done|]. destruct bd; [by right|by left].
      * split; [done|]. exists a, b. split; [by right|done].
    + intros (Hz & a & b & [Ha|Ha]%elem_of_cons & Hh & -> & Hcb & Hb).
      * injection Ha as ->. left. split; [done|]. destruct Hb as [Hb|Hb]; [exists (b, false)|exists (b, true)]; (split; [done|]; by apply Hes).
      * right. split; [done|]. exists a, b. done.
  - destruct (IH l) as (l' & -> & Hl'). exists l'. split; [done|]. intros h. rewrite Hl'. split.
    + intros (Hz & a & b & Ha & Hr). split; [done|]. exists a, b. split; [by right|done].
    + intros (Hz & a & b & [Ha|Ha]%elem_of_cons & Hh & Hr); [injection Ha as -> <-; congruence|]. split; [done|]. by exists a, b.
Qed.

(** The hashes that are listed: those whose text names an entry of a directory with two hexadecimal digits. *)
Definition listed (f : F) (h : ObjectID) : Prop := IsZero h = false /\ exists a b, [objectsPath; a] ∈ dirs f /\ hexDir a true = true /\ component a /\ component b /\
  h = NewHash (a ++ b) /\ (is_Some (files f !! [objectsPath; a; b]) \/ [objectsPath; a; b] ∈ dirs f).
Lemma forEach_list (f : F) : objects_ok f -> exists l, forEachObjectHash f (fun l h => (l ++ [h], None)) [] = (l, None) /\ forall h, h ∈ l <-> listed f h.
Proof.
  intros [Hi [Ho _] _]. unfold forEachObjectHash. destruct objectsPath_component as [C1 _]. change objectsPath with (pathOf [objectsPath]).
  destruct (decide ([objectsPath] ∈ dirs f)) as [Hd|Hd].
  - destruct (law_readdir f [objectsPath] Hi Hd) as (ds & -> & _ & Hds). destruct (forEachDir_list f ds Hi) with (l := @nil ObjectID) as (l' & -> & Hl').
    { apply Forall_forall. intros [n d] Hn Ed. cbn [fst snd] in *. subst d. by apply Hds in Hn as [? ?]. }
    exists l'. split; [done|]. intros h. rewrite Hl'. unfold listed. split; intros [Hz (a & b & Hr)]; (split; [done|]; exists a, b).
    + destruct Hr as (Ha & Hh & -> & Hcb & Hb). apply Hds in Ha as [Hca Ha]. done.
    + destruct Hr as (Ha & Hh & Hca & Hcb & -> & Hb). split_and!; try done. by apply Hds.
  - rewrite law_readdir_none; [|done|split; [done|all_components]|done|done]. exists []. split; [done|]. intros h. split; [by intros ?%not_elem_of_nil|].
    intros (_ & a & b & Ha & _). exfalso. apply Hd. destruct (tree_dir _ _ (law_tree f Hi) _ Ha) as [_ Hab]. apply Hab. apply elem_of_above. exists 1%nat. split; [cbn; lia|done].
Qed.

Lemma hexDir_of_id a : length a = 2%nat -> Forall (fun c => hexValue c <> None) a -> hexDir a true = true.
Proof.
  intros Hl Ha. unfold hexDir. replace (len a) with 2 by (unfold len; lia). change (true && (2 =? 2)) with true. cbn [andb]. clear Hl. induction Ha as [|c a Hc _ IH]; [done|]. cbn [isHex].
  assert (isNum c || isHexAlpha c = true) as Hb by (by destruct c). destruct (isNum c); [done|]. cbn [orb] in Hb. by rewrite Hb.
Qed.
(** An object with a file is listed. *)
Lemma file_listed (f : F) h : objects_ok f -> wf_id h -> IsZero h = false -> is_Some (files f !! objPath h) -> listed f h.
Proof.
  intros [Hi _ _] Hw Hz Hf. split; [done|]. unfold objPath in Hf. destruct (hex_of_id h Hw) as (a & b & Eh & Es & Hl & Ha & Hb & Hd). rewrite Eh in Hf. exists a, b.
  destruct Hf as [x Hx]. destruct (tree_file _ _ (law_tree f Hi) _ _ Hx) as (_ & _ & Hab). split_and!; try done.
  - apply Hab, elem_of_above. exists 2%nat. split; [cbn; lia|done].
  - by apply hexDir_of_id.
  - pose proof (FromHex_String h Hw) as Hh. rewrite Es. unfold NewHash. by rewrite Hh.
  - left. by eexists.
Qed.

(** ** Reading an object *)
Lemma open_file (d : ObjectDir) h b : objects_ok (od_fs d) -> wf_id h -> files (od_fs d) !! objPath h = Some b -> fs_Open (od_fs d) (objectPath d h) = inr b.
Proof.
  intros [Hi _ Hfree] Hw Hb. rewrite objectPath_eq by done. destruct (objPath_good h Hw) as [Hg _]. rewrite law_open; [by rewrite Hb|done|done|]. by destruct (Hfree h Hw).
Qed.
Lemma hasObject_ok (d : ObjectDir) h : objects_ok (od_fs d) -> wf_id h -> IsZero h = false -> is_Some (files (od_fs d) !! objPath h) -> od_list d = None ->
  exists d', hasObject d h = (None, d') /\ od_fs d' = od_fs d.
Proof.
  intros Hok Hw Hz Hf Hl. unfold hasObject. destruct (od_Exclusive d); cbn [negb]; [|by exists d]. unfold genObjectList. rewrite Hl.
  destruct (forEach_list (od_fs d) Hok) as (l & -> & Hin). cbn [setObjectList od_list default]. rewrite bool_decide_eq_true_2; [by eexists|].
  unfold HashesSort. rewrite insertionSort_perm. apply Hin. by apply file_listed.
Qed.
Lemma Object_ok (d : ObjectDir) h b : objects_ok (od_fs d) -> wf_id h -> IsZero h = false -> files (od_fs d) !! objPath h = Some b -> od_list d = None ->
  exists d', dotgit_Object d h = (inr b, d') /\ od_fs d' = od_fs d.
Proof.
  intros Hok Hw Hz Hb Hl. destruct (hasObject_ok d h Hok Hw Hz) as (d' & E & Ef); [by eexists|done|]. unfold dotgit_Object. rewrite E. unfold atObject.
  rewrite (open_file d' h b); rewrite ?Ef; try done. by exists d'.
Qed.

Lemma read_looseFile t content : 1 <= t <= 4 -> len content < 2 ^ 63 ->
  exists r r2 r3, objfile_NewReader (looseFile t content) = Ok r /\ objfile_Header r = Ok (t, len content, r2) /\ Reader_Copy r2 = Ok (content, None, r3).
Proof.
  intros Ht Hl. pose proof (len_nonneg content). unfold objfile_NewReader, looseFile. rewrite inflate_deflate. do 3 eexists. split; [done|].
  assert (t ∈ named_types) as Hn. { unfold named_types, CommitObject, TreeObject, BlobObject, TagObject. rewrite !elem_of_cons. lia. }
  split; [apply (Header_ok t (len content) content); [done|lia]|]. apply copyAll_spec; [done|cbn [or_plain]; lia].
Qed.
End Loose.

(** ** storage/filesystem: loose objects, theorems

    An object that is stored is found and read back, with and without exclusive access; the objects with a prefix are
    found by halving as by looking at all of them. *)
(** C9: Storing an object in a directory that does not have it succeeds, and then the storage has the object, knows its size and
    gives it back, keeping it in its cache, whether or not it keeps a list of its objects; the files of the other objects are as they were. *)
Theorem loose_roundtrip {F} `{FilesystemLaws F} `{ZlibLaws} `{Sha1Laws} {C} (packFind : ObjectID -> error + bool) cacheGet (cachePut : C -> PObj -> C) c c' (d : ObjectDir (F := F)) o chunks :
  cacheGet c (po_Hash o) = (None, c') -> objects_ok (od_fs d) -> 1 <= po_Type o <= 4 -> concat chunks = po_Content o -> po_Size o = len (po_Content o) -> po_Size o < 2 ^ 63 ->
  po_Hash o = contentHash (po_Type o) (po_Content o) -> IsZero (po_Hash o) = false -> files (od_fs d) !! objPath (po_Hash o) = None ->
  exists d', storage_SetEncodedObject d o chunks = Ok (po_Hash o, None, d') /\ objects_ok (od_fs d') /\
  (storage_HasEncodedObject packFind d' (po_Hash o)).1 = None /\
  (encodedObjectSizeFromUnpacked d' (po_Hash o)).1 = Ok (po_Size o) /\
  (let o' := mkPObj (po_Type o) (po_Size o) (po_Hash o) (po_Content o) None in (getFromUnpacked cacheGet cachePut 0 c d' (po_Hash o)).1 = (Ok (Loaded o'), cachePut c' o')) /\
  forall h, wf_id h -> h <> po_Hash o -> files (od_fs d') !! objPath h = files (od_fs d) !! objPath h.
Proof.
  intros Hcache Hok Ht Hc Hs Hl Hh Hz Hnone. rewrite Hh in Hnone. destruct (set_loose_ok d o chunks Hok Ht Hc Hs Hnone) as (f & E & Hok' & Ef & _). rewrite <- Hh in *.
  assert (wf_id (po_Hash o)) as Hw by (rewrite Hh; apply Hasher_wf). set (d' := setFs (cleanObjectList d) f) in *.
  assert (files (od_fs d') !! objPath (po_Hash o) = Some (looseFile (po_Type o) (po_Content o))) as Hf by (cbn; by rewrite Ef, lookup_insert_eq).
  destruct (Object_ok d' (po_Hash o) _ Hok' Hw Hz Hf eq_refl) as (d2 & Eo & _).
  destruct (read_looseFile (po_Type o) (po_Content o)) as (r & r2 & r3 & R1 & R2 & R3); [done|lia|].
  exists d'. split; [done|]. split; [done|]. unfold storage_HasEncodedObject, encodedObjectSizeFromUnpacked, getFromUnpacked. rewrite Eo. cbn [fst]. rewrite Hcache. cbn [fst]. rewrite R1. cbn [res_bind].
  rewrite R2. cbn [res_bind]. split_and!; [done|by rewrite Hs| |].
  - change ((0 >? 0) && _) with false. cbn match. rewrite R3. cbn [res_bind]. unfold loadedObject. rewrite <- Hs. fold (contentHash (po_Type o) (po_Content o)).
    rewrite Hs. fold (contentHash (po_Type o) (po_Content o)). rewrite <- Hh. by destruct (len (po_Content o) =? 0).
  - intros h Hwh Hne. cbn. rewrite Ef. apply lookup_insert_ne. intros Ee. apply Hne. symmetry. by apply objPath_inj.
Qed.

#[local] Existing Instance storedZlib.
#[local] Existing Instance storedZlib_laws.
#[local] Existing Instance takeSha1.
#[local] Existing Instance takeSha1_laws.
Definition emptyTree : memfs := mkMem ∅ ∅.
Definition demoObject : PObj := mkPObj BlobObject 5 (contentHash BlobObject (bs "hello")) (bs "hello") None.
Lemma empty_objects_ok : objects_ok emptyTree.
Proof.
  split; [split; [by intros p b ?|by intros p ?%elem_of_empty]|done|]. intros h _. split; [apply not_elem_of_empty|]. by intros q _.
Qed.
Lemma loose_roundtrip_witness : exists d', storage_SetEncodedObject (MkObjectDir emptyTree true None false []) demoObject [bs "hel"; bs "lo"] = Ok (po_Hash demoObject, None, d') /\
  (getFromUnpacked (fun c _ => (None, c)) (fun c o => o :: c) 0 [] d' (po_Hash demoObject)).1 = (Ok (Loaded demoObject), [demoObject]).
Proof.
  destruct (loose_roundtrip (fun _ => inr false) (fun c _ => (None, c)) (fun c o => o :: c) [] [] (MkObjectDir emptyTree true None false []) demoObject [bs "hel"; bs "lo"]) as (d' & E & _ & _ & _ & G & _);
    [done|exact empty_objects_ok|by_decision|done|done|done|done|by vm_compute|done|]. exists d'. split; [exact E|exact G].
Defined.

(** ** Objects with a prefix *)
Lemma be_decode_cons x l : be_decode (x :: l) = b2z x * 256 ^ len l + be_decode l.
Proof.
  induction l as [|y l IH] using rev_ind; [unfold be_decode, len; cbn [foldl length]; change (256 ^ Z.of_nat 0) with 1; lia|]. rewrite app_comm_cons, !be_decode_snoc, IH, len_app, Z.pow_add_r by (unfold len; cbn [length]; lia).
  change (256 ^ len [y]) with 256. ring.
Qed.
Lemma be_decode_bound l : 0 <= be_decode l < 256 ^ len l.
Proof. pose proof (be_decode_range l). by rewrite Z.pow_mul_r in H by (pose proof (len_nonneg l); lia). Qed.
Lemma compare_decode a : forall b, length a = length b -> compareBytes a b = if be_decode a <? be_decode b then -1 else if be_decode b <? be_decode a then 1 else 0.
Proof.
  induction a as [|x a IH]; intros [|y b] Hl; try done. cbn [length] in Hl. injection Hl as Hl. cbn [compareBytes]. rewrite !be_decode_cons, (IH b Hl).
  assert (len a = len b) as -> by (unfold len; lia). pose proof (be_decode_bound a) as Ha. pose proof (be_decode_bound b) as Hb.
  assert (len a = len b) as El by (unfold len; lia). rewrite El in Ha. set (P := 256 ^ len b) in *.
  destruct (Z.ltb_spec (b2z x) (b2z y)); [destruct (Z.ltb_spec (b2z x * P + be_decode a) (b2z y * P + be_decode b)); [done|nia]|].
  destruct (Z.ltb_spec (b2z y) (b2z x)).
  - destruct (Z.ltb_spec (b2z x * P + be_decode a) (b2z y * P + be_decode b)); [nia|]. destruct (Z.ltb_spec (b2z y * P + be_decode b) (b2z x * P + be_decode a)); [done|nia].
  - assert (b2z x = b2z y) as -> by lia. destruct (Z.ltb_spec (be_decode a) (be_decode b)), (Z.ltb_spec (b2z y * P + be_decode a) (b2z y * P + be_decode b)); try lia.
    destruct (Z.ltb_spec (be_decode b) (be_decode a)), (Z.ltb_spec (b2z y * P + be_decode b) (b2z y * P + be_decode a)); lia.
Qed.
(** A longer text compares with a shorter one as its beginning does, unless that is the shorter one. *)
Lemma compare_prefix p : forall b, (length p <= length b)%nat -> (compareBytes b p <? 0) = (compareBytes (take (length p) b) p <? 0).
Proof.
  induction p as [|x p IH]; intros [|y b] Hl; cbn [length] in *; try lia; try done. cbn [take compareBytes]. destruct (b2z y <? b2z x); [done|].
  destruct (b2z x <? b2z y); [done|]. apply IH. lia.
Qed.

Lemma incBytes_loop_spec r : let '(r', overflow) := incBytes_loop r in length r' = length r /\
  be_decode (rev r') = (if overflow then 0 else be_decode (rev r) + 1) /\ (overflow = true -> be_decode (rev r) + 1 = 256 ^ len r).
Proof.
  induction r as [|b r IH]; cbn [incBytes_loop]; [done|]. pose proof (b2z_range b) as Hb. case_bool_decide as E; cbn [negb].
  - assert (b2z b = 255) as Hff. { apply (f_equal b2z) in E. rewrite b2z_z2b in E. change (b2z x00) with 0 in E. destruct (decide (b2z b = 255)); [done|]. rewrite Z.mod_small in E; lia. }
    destruct (incBytes_loop r) as [r' o]. destruct IH as (H1 & H2 & H3). cbn [rev length]. rewrite E. split; [lia|]. rewrite !be_decode_snoc, H2, Hff. change (b2z x00) with 0. split.
    + destruct o; lia.
    + intros Ho. rewrite len_cons, Z.pow_add_r by (pose proof (len_nonneg r); lia). specialize (H3 Ho). change (256 ^ 1) with 256. lia.
  - split; [done|]. cbn [rev]. rewrite !be_decode_snoc, b2z_z2b, Z.mod_small; [split; [lia|done]|]. split; [lia|].
    destruct (decide (b2z b = 255)) as [E'|]; [|lia]. exfalso. apply E. rewrite E'. done.
Qed.

(** The texts with a prefix are those from the prefix to what follows it. *)
Lemma prefix_between p b : (length p <= length b)%nat -> let '(q, overflow) := incBytes p in
  HasPrefix b p = negb (compareBytes b p <? 0) && (overflow || (compareBytes b q <? 0)).
Proof.
  intros Hl. unfold incBytes. pose proof (incBytes_loop_spec (rev p)) as Hi. destruct (incBytes_loop (rev p)) as [r o]. destruct Hi as (H1 & H2 & H3).
  rewrite rev_involutive in H2, H3. rewrite length_rev in H1. assert (len (rev p) = len p) as Er by (unfold len; by rewrite length_rev). rewrite Er in H3.
  assert (length (rev r) = length p) as Hr by (by rewrite length_rev). rewrite (compare_prefix p), (compare_prefix (rev r)) by lia. rewrite Hr.
  set (t := take (length p) b). assert (length t = length p) as Ht by (unfold t; rewrite length_take; lia). rewrite !compare_decode by lia. rewrite H2.
  unfold HasPrefix. fold t. pose proof (be_decode_bound t) as Hbt. replace (len t) with (len p) in Hbt by (unfold len; lia).
  assert (be_decode t = be_decode p -> t = p) as Hinj. { intros E. rewrite <- (be_encode_decode t), <- (be_encode_decode p). by rewrite Ht, E. }
  destruct (decide (t = p)) as [E|E].
  - rewrite bool_decide_eq_true_2, E by done. rewrite Z.ltb_irrefl. cbn. destruct o; [done|]. by destruct (Z.ltb_spec (be_decode p) (be_decode p + 1)); [|lia].
  - rewrite bool_decide_eq_false_2 by done. assert (be_decode t <> be_decode p) by auto. destruct (Z.ltb_spec (be_decode t) (be_decode p)); [done|].
    destruct (Z.ltb_spec (be_decode p) (be_decode t)); [|lia]. cbn. destruct o; [specialize (H3 eq_refl); lia|]. cbn.
    destruct (Z.ltb_spec (be_decode t) (be_decode p + 1)); [lia|]. by destruct (Z.ltb_spec (be_decode p + 1) (be_decode t)).
Qed.

(** Halving finds where a property begins to hold. *)
Lemma Search_loop_spec f n fuel : forall i j, 0 <= i <= j -> j <= n -> (Z.to_nat (j - i) <= fuel)%nat ->
  (forall a b, 0 <= a <= b -> b < n -> f a = true -> f b = true) -> (forall a, 0 <= a < i -> f a = false) -> (forall a, j <= a < n -> f a = true) ->
  let k := Search_loop fuel f i j in 0 <= k <= n /\ forall a, 0 <= a < n -> f a = bool_decide (k <= a).
Proof.
  induction fuel as [|fuel IH]; intros i j Hij Hj Hf Hm Hlo Hhi; cbn [Search_loop].
  { assert (i = j) as -> by lia. split; [lia|]. intros a Ha. case_bool_decide; [apply Hhi; lia|apply Hlo; lia]. }
  destruct (Z.ltb_spec i j).
  - set (h := (i + j) / 2). assert (i <= h < j) as Hh by (unfold h; split; [apply Z.div_le_lower_bound; lia|apply Z.div_lt_upper_bound; lia]).
    destruct (f h) eqn:E; cbn [negb].
    + apply IH; try done; try lia. intros a Ha. apply (Hm h a); [lia|lia|done].
    + apply IH; try done; try lia. intros a Ha. destruct (f a) eqn:Ea; [|done]. rewrite <- E. symmetry. apply (Hm a h); [lia|lia|done].
  - assert (i = j) as -> by lia. split; [lia|]. intros a Ha. case_bool_decide; [apply Hhi; lia|apply Hlo; lia].
Qed.
Lemma Search_spec n f : 0 <= n -> (forall a b, 0 <= a <= b -> b < n -> f a = true -> f b = true) ->
  0 <= Search n f <= n /\ forall a, 0 <= a < n -> f a = bool_decide (Search n f <= a).
Proof. intros Hn Hm. apply (Search_loop_spec f n); try done; lia. Qed.

Lemma sorted_lookup {A} (R : relation A) l : StronglySorted R l -> forall i j x y, (i < j)%nat -> l !! i = Some x -> l !! j = Some y -> R x y.
Proof.
  induction 1 as [|a l _ IH Ha]; intros i j x y Hij Hx Hy; [done|]. destruct j as [|j]; [lia|]. cbn in Hy. destruct i as [|i]; cbn in Hx.
  - injection Hx as <-. rewrite Forall_forall in Ha. apply Ha. by eapply list_elem_of_lookup_2.
  - apply (IH i j); [lia|done|done].
Qed.
Lemma filter_keeps {A} (P : A -> bool) l b : Forall (fun x => P x = b) l -> base.filter (fun x => P x = true) l = if b then l else [].
Proof.
  induction 1 as [|x l Hx _ IH]; [by destruct b|]. rewrite filter_cons, Hx, IH. by destruct b.
Qed.
Lemma filter_seg {A} (P : A -> bool) l i j : 0 <= i <= j -> j <= len l -> (forall a x, l !! a = Some x -> P x = bool_decide (i <= Z.of_nat a) && bool_decide (Z.of_nat a < j)) ->
  base.filter (fun x => P x = true) l = seg l i j.
Proof.
  intros Hi Hj HP. unfold len in Hj. pose proof (seg_prefix_drop l j ltac:(lia)) as E. rewrite <- (seg_app l 0 i j) in E by lia.
  rewrite <- E at 1. rewrite !filter_app.
  assert (forall a k, (forall n x, l !! (a + n)%nat = Some x -> (n < k)%nat -> P x = false) -> base.filter (fun x => P x = true) (take k (drop a l)) = []) as Hnone.
  { intros a k Hf. apply (filter_keeps P _ false), Forall_lookup. intros n x Hx. apply lookup_take_Some in Hx as [Hx Hn]. rewrite lookup_drop in Hx. by apply (Hf n). }
  assert (base.filter (fun x => P x = true) (seg l 0 i) = []) as ->.
  { unfold seg. apply Hnone. intros n x Hx Hn. rewrite (HP _ _ Hx). rewrite bool_decide_eq_false_2 by lia. done. }
  assert (base.filter (fun x => P x = true) (drop (Z.to_nat j) l) = []) as ->.
  { rewrite <- (take_ge (drop (Z.to_nat j) l) (length l)) by (rewrite length_drop; lia). apply Hnone. intros n x Hx _. rewrite (HP _ _ Hx).
    rewrite (bool_decide_eq_false_2 (_ < j)) by lia. apply andb_false_r. }
  rewrite app_nil_r. cbn [app]. apply (filter_keeps P _ true), Forall_lookup. intros n x Hx. unfold seg in Hx. apply lookup_take_Some in Hx as [Hx Hn].
  rewrite lookup_drop in Hx. rewrite (HP _ _ Hx), !bool_decide_eq_true_2 by lia. done.
Qed.

Lemma NewHash_bytes s : 20 <= len (ObjectID_Bytes (NewHash s)).
Proof.
  unfold NewHash, FromHex. assert (forall i, oformat i = SHA1 \/ oformat i = SHA256 -> len (hash i) = 32 -> 20 <= len (ObjectID_Bytes i)) as Hb.
  { intros [h f] Hf Hh. unfold ObjectID_Bytes, ObjectID_Size. cbn [hash oformat] in *. assert (20 <= format_Size f <= 32) by (by destruct Hf as [-> | ->]).
    unfold seg, len in *. rewrite length_take, length_drop. lia. }
  assert (forall i x, len (hash i) = 32 -> len (hash (ObjectID_Write i x)) = 32) as Hw.
  { intros [h f] x Hh. unfold ObjectID_Write, copyBytes, len in *. cbn [hash] in *. rewrite length_app, length_take, length_drop. lia. }
  destruct (len s =? SHA256HexSize); destruct (DecodeString s); cbn [fst]; apply Hb; try (by apply Hw); try done; by (left + right).
Qed.

(** The slice between the two halvings is the identifiers with the prefix. *)
Lemma atLeast_search l p : StronglySorted leHash l -> let k := Search (len l) (atLeast l p) in 0 <= k <= len l /\
  forall a h, l !! a = Some h -> (compareBytes (ObjectID_Bytes h) p <? 0) = bool_decide (Z.of_nat a < k).
Proof.
  intros Hs. cbv zeta. destruct (Search_spec (len l) (atLeast l p)) as [Hk Hf]; [apply len_nonneg| |].
  - intros a b Hab Hb. unfold atLeast. unfold len in Hb. destruct (lookup_lt_is_Some_2 l (Z.to_nat a)) as [x Hx]; [lia|]. destruct (lookup_lt_is_Some_2 l (Z.to_nat b)) as [y Hy]; [lia|].
    rewrite Hx, Hy. intros Hxp. destruct (decide (a = b)) as [->|]; [congruence|]. pose proof (sorted_lookup _ l Hs (Z.to_nat a) (Z.to_nat b) x y ltac:(lia) Hx Hy) as Hle. unfold leHash in Hle.
    destruct (Z.geb_spec (compareBytes (ObjectID_Bytes y) p) 0); [done|]. destruct (decide (compareBytes (ObjectID_Bytes x) (ObjectID_Bytes y) = 0)) as [E%compareBytes_eq|]; [rewrite E in Hxp; lia|].
    pose proof (compareBytes_lt_trans (ObjectID_Bytes x) (ObjectID_Bytes y) p). lia.
  - split; [done|]. intros a h Ha. pose proof (lookup_lt_Some _ _ _ Ha). specialize (Hf (Z.of_nat a) ltac:(unfold len; lia)). unfold atLeast in Hf at 1. rewrite Nat2Z.id, Ha in Hf.
    case_bool_decide; case_bool_decide; lia.
Qed.
Lemma incBytes_above p q : incBytes p = (q, false) -> compareBytes p q < 0.
Proof.
  unfold incBytes. pose proof (incBytes_loop_spec (rev p)) as Hi. destruct (incBytes_loop (rev p)) as [r o]. destruct Hi as (H1 & H2 & _). intros E. injection E as <- ->.
  rewrite rev_involutive in H2. rewrite length_rev in H1. rewrite compare_decode by (by rewrite length_rev). rewrite H2. destruct (Z.ltb_spec (be_decode p) (be_decode p + 1)); lia.
Qed.

Lemma halving_filter l p : StronglySorted leHash l -> Forall (fun h => len p <= len (ObjectID_Bytes h)) l ->
  (let first := Search (len l) (atLeast l p) in let (q, overflow) := incBytes p in slice l first (if overflow then len l else Search (len l) (atLeast l q))) =
  Ok (base.filter (fun h => HasPrefix (ObjectID_Bytes h) p = true) l).
Proof.
  intros Hs Hl. cbv zeta. destruct (atLeast_search l p Hs) as [Hk Hp]. set (first := Search _ _) in *.
  assert (forall a h, l !! a = Some h -> let '(q, o) := incBytes p in HasPrefix (ObjectID_Bytes h) p = negb (bool_decide (Z.of_nat a < first)) && (o || (compareBytes (ObjectID_Bytes h) q <? 0))) as Hh.
  { intros a h Ha. rewrite Forall_lookup in Hl. specialize (Hl a h Ha). rewrite <- (Hp a h Ha). apply prefix_between. unfold len in Hl. lia. }
  destruct (incBytes p) as [q o] eqn:Ei. set (lim := if o then len l else _).
  assert (first <= lim <= len l /\ forall a h, l !! a = Some h -> o || (compareBytes (ObjectID_Bytes h) q <? 0) = bool_decide (Z.of_nat a < lim)) as [Hlim Hq].
  { unfold lim. destruct o.
    - split; [lia|]. intros a h Ha. apply lookup_lt_Some in Ha. rewrite bool_decide_eq_true_2 by (unfold len; lia). done.
    - destruct (atLeast_search l q Hs) as [Hk' Hq]. split; [|exact Hq]. split; [|lia]. set (k' := Search (len l) (atLeast l q)) in *. destruct (decide (k' < len l)) as [Hlt|]; [|lia].
      unfold len in Hlt. destruct (lookup_lt_is_Some_2 l (Z.to_nat k')) as [h Ha]; [lia|]. pose proof (Hq _ _ Ha) as E1. pose proof (Hp _ _ Ha) as E2. pose proof (incBytes_above p q Ei).
      pose proof (compareBytes_lt_trans (ObjectID_Bytes h) p q). case_bool_decide; case_bool_decide; lia. }
  unfold slice. assert ((0 <=? first) && (first <=? lim) && (lim <=? len l) = true) as -> by lia. f_equal. symmetry. apply filter_seg; [lia|lia|].
  intros a h Ha. rewrite (Hh a h Ha), (Hq a h Ha). f_equal. repeat case_bool_decide; try done; lia.
Qed.

Lemma sorted_filter {A} (R : relation A) (P : A -> Prop) `{forall x, Decision (P x)} l : StronglySorted R l -> StronglySorted R (base.filter P l).
Proof.
  induction 1 as [|x l _ IH Hx]; [constructor|]. rewrite filter_cons. destruct (decide (P x)); [|done]. constructor; [done|].
  rewrite Forall_forall in *. intros y [_ Hy]%list_elem_of_filter. by apply Hx.
Qed.

(** Looking at every object keeps those that satisfy a test. *)
Section Filtering.
Context {F : Type} `{FilesystemLaws F} (P : ObjectID -> bool).
Notation keep := (fun l h => (if P h then l ++ [h] else l, None)).
Notation kept := (base.filter (fun h => P h = true)).
Lemma filter_snoc l h : kept (l ++ [h]) = if P h then kept l ++ [h] else kept l.
Proof. rewrite filter_app, filter_cons, filter_nil. destruct (P h); [done|by rewrite decide_False, app_nil_r]. Qed.
Lemma forEachEntry_filter base_ es : forall l, forEachEntry keep base_ es (kept l) = (kept (forEachEntry (fun l h => (l ++ [h], None)) base_ es l).1, None).
Proof.
  induction es as [|[name dir] es IH]; intros l; cbn [forEachEntry fst]; [done|]. destruct (IsZero _); [done|]. by rewrite <- filter_snoc, IH.
Qed.
Lemma forEachDir_filter (f : F) ds : forall l, forEachDir f keep ds (kept l) =
  let '(l', e) := forEachDir f (fun l h => (l ++ [h], None)) ds l in (kept l', e).
Proof.
  induction ds as [|[name dir] ds IH]; intros l; cbn [forEachDir]; [done|]. destruct (_ && isHex name); [|done].
  destruct (fs_ReadDir f _) as [e|es]; [done|]. by rewrite forEachEntry_filter, forEachEntry_list, IH.
Qed.
Lemma forEach_filter (f : F) : forEachObjectHash f keep [] = let '(l, e) := forEachObjectHash f (fun l h => (l ++ [h], None)) [] in (kept l, e).
Proof. unfold forEachObjectHash. destruct (fs_ReadDir f objectsPath) as [e|ds]; [done|]. apply (forEachDir_filter f ds []). Qed.
End Filtering.

(** C22: With exclusive access the objects with a prefix are a slice of the sorted list, which two halvings find; without it every object
    is looked at.  For a prefix that is not longer than an identifier of SHA-1 both give the objects with the prefix, the first in
    order, however many bytes the prefix has and whether or not what follows it overflows. *)
Theorem prefix_by_halving {F} `{FilesystemLaws F} (f : F) prefix checked incoming : objects_ok f -> len prefix <= 20 ->
  exists l l' d d', ObjectsWithPrefix (MkObjectDir f true None checked incoming) prefix = (Ok l, d) /\
    ObjectsWithPrefix (MkObjectDir f false None checked incoming) prefix = (Ok l', d') /\ l ≡ₚ l' /\ StronglySorted leHash l /\
    (forall h, h ∈ l <-> listed f h /\ HasPrefix (ObjectID_Bytes h) prefix = true) /\ od_fs d = f /\ od_fs d' = f.
Proof.
  intros Hok Hp. destruct (forEach_list f Hok) as (l & El & Hl).
  assert (Forall (fun h => 20 <= len (ObjectID_Bytes h)) l) as Hb.
  { apply Forall_forall. intros h (_ & a & b & _ & _ & _ & _ & -> & _)%Hl. apply NewHash_bytes. }
  assert (HashesSort l ≡ₚ l) as Hperm by apply insertionSort_perm. pose proof (HashesSort_sorted l) as Hs.
  unfold ObjectsWithPrefix, Objects, ForEachObjectHash, genObjectList. cbn [od_Exclusive od_list od_fs negb]. rewrite (forEach_filter (fun h => HasPrefix (ObjectID_Bytes h) prefix)), El.
  cbn [setObjectList od_fs od_Exclusive od_list od_incomingChecked od_incomingDirName default]. change (ObjectID_Size ZeroHash) with 20.
  destruct (Z.ltb_spec (len prefix) 1) as [Hn|Hn].
  - exists (HashesSort l), l. do 2 eexists. split_and!; try done. intros h. rewrite Hperm, Hl. split; [|by intros []]. intros Hh. split; [done|].
    destruct prefix as [|x p]; [by destruct (ObjectID_Bytes h)|]. rewrite len_cons in Hn. pose proof (len_nonneg p). lia.
  - destruct (Z.gtb_spec (len prefix) 20); [lia|]. pose proof (halving_filter (HashesSort l) prefix Hs) as E. cbv zeta in E.
    destruct (incBytes prefix) as [q o]. unfold id. cbv zeta. rewrite E by (rewrite Hperm; eapply Forall_impl; [exact Hb|]; cbn; lia).
    do 4 eexists. split; [reflexivity|]. split; [reflexivity|]. split_and!; try done.
    + by rewrite Hperm.
    + by apply sorted_filter.
    + intros h. rewrite list_elem_of_filter, Hperm, Hl. tauto.
Qed.
(** Three objects, in two directories. *)
Definition hexName (b : byte) : bytes := replicate 37 x30 ++ [b].
Definition threePaths : list (list bytes) := [[objectsPath; bs "fe"; hexName x31]; [objectsPath; bs "ff"; hexName x31]; [objectsPath; bs "ff"; hexName x32]].
Definition threeObjects : memfs := mkMem (list_to_map (map (fun p => (p, bs "zlib")) threePaths)) {[ [objectsPath]; [objectsPath; bs "fe"]; [objectsPath; bs "ff"] ]}.
Definition threeHash (a : bytes) (b : byte) : ObjectID := NewHash (a ++ hexName b).

Lemma three_objects_ok : objects_ok threeObjects.
Proof.
  assert (map_Forall (fun p _ => length p = 3%nat /\ good_path p /\ p ∉ m_dirs threeObjects /\ above p ⊆ m_dirs threeObjects) (m_files threeObjects)) as Hf.
  { unfold good_path, component. by_decision. }
  assert (set_Forall (fun p => (length p < 3)%nat /\ good_path p /\ above p ⊆ m_dirs threeObjects) (m_dirs threeObjects)) as Hd.
  { unfold good_path, component. by_decision. }
  split; [split; [intros p b E; by apply Hf in E as (_ & ? & ? & ?)|intros p Hp; by apply Hd in Hp as (_ & ? & ?)]|split; by_decision|].
  intros h Hw. split.
  - intros Hp. apply Hd in Hp as (Hp & _). cbn in Hp. lia.
  - intros q (k & Hk & ->)%elem_of_above. cbn [length objPath hexPath] in Hk. apply eq_None_not_Some. intros [b E]. apply Hf in E as (E & _).
    rewrite length_take in E. cbn [length objPath hexPath] in E. lia.
Qed.

Lemma prefix_by_halving_witness : exists l l' d d', ObjectsWithPrefix (MkObjectDir threeObjects true None false []) [xff] = (Ok l, d) /\
  ObjectsWithPrefix (MkObjectDir threeObjects false None false []) [xff] = (Ok l', d') /\ l ≡ₚ l' /\ threeHash (bs "ff") x31 ∈ l /\ threeHash (bs "ff") x32 ∈ l /\ threeHash (bs "fe") x31 ∉ l.
Proof.
  destruct (prefix_by_halving threeObjects [xff] false []) as (l & l' & d & d' & E & E' & Hp & _ & Hl & _); [exact three_objects_ok|by_decision|].
  exists l, l', d, d'. split_and!; [exact E|exact E'|exact Hp|..].
  - apply Hl. split; [|by_decision]. split; [by_decision|]. exists (bs "ff"), (hexName x31). split_and!; [by_decision..|left; by_decision].
  - apply Hl. split; [|by_decision]. split; [by_decision|]. exists (bs "ff"), (hexName x32). split_and!; [by_decision..|left; by_decision].
  - intros [_ Hx]%Hl. by vm_compute in Hx.
Defined.

(** ** What the code does not do *)
(** Storing an object whose type is not one panics: the header is refused before the hash is made, and closing the writer asks for
    the hash. *)
Theorem set_invalid_type_panics {F} `{FilesystemLaws F} `{ZlibLaws} `{Sha1Laws} (d : ObjectDir (F := F)) o chunks :
  objects_ok (od_fs d) -> ObjectType_Valid (po_Type o) = false -> storage_SetEncodedObject d o chunks = Panic.
Proof.
  intros Hok Hv. unfold storage_SetEncodedObject.
  assert ((po_Type o =? OFSDeltaObject) || (po_Type o =? REFDeltaObject) = false) as ->.
  { unfold ObjectType_Valid, OFSDeltaObject, REFDeltaObject, CommitObject in *. lia. }
  destruct (NewObject_ok d Hok) as (t & f & E & Hok' & _ & Ef & _). cbv zeta in *. rewrite E. cbn [objw_Writer objw_name]. unfold WriteHeader. rewrite Hv. cbn [negb].
  unfold ObjectWriter_Close. cbn [objw_Writer objw_name Writer_Close od_fs setFs].
  destruct (law_write f [objectsPath; packPath; t] [] (zlib_deflate [])) as (f' & Ew & _); [by destruct Hok'|by rewrite Ef, lookup_insert_eq|]. cbn [objfile_NewWriter ow_plain]. by rewrite Ew.
Qed.
Lemma set_invalid_type_panics_witness : storage_SetEncodedObject (MkObjectDir emptyTree false None false []) (mkPObj 0 0 ZeroHash [] None) [] = Panic.
Proof. apply (set_invalid_type_panics (MkObjectDir emptyTree false None false [])); [exact empty_objects_ok|done]. Defined.

(** With exclusive access the storage says that it has no object that is not a file, whatever the index of the packfiles holds: the
    error for an object that is not in the list is not the one that lets the search go on. *)
Theorem packed_object_not_found {F} `{FilesystemLaws F} (packFind : ObjectID -> error + bool) (d : ObjectDir (F := F)) h :
  objects_ok (od_fs d) -> od_Exclusive d = true -> od_list d = None -> ~ listed (od_fs d) h -> (storage_HasEncodedObject packFind d h).1 = Some ErrObjectNotFound.
Proof.
  intros Hok He Hl Hn. unfold storage_HasEncodedObject, dotgit_Object, hasObject, genObjectList. rewrite He, Hl. cbn [negb].
  destruct (forEach_list (od_fs d) Hok) as (l & -> & Hin). cbn [setObjectList od_list from_option]. unfold id. rewrite bool_decide_eq_false_2; [done|].
  unfold HashesSort. by rewrite insertionSort_perm, Hin.
Qed.
Lemma packed_object_not_found_witness : (storage_HasEncodedObject (fun _ => inr true) (MkObjectDir emptyTree true None false []) (po_Hash demoObject)).1 = Some ErrObjectNotFound.
Proof.
  apply (packed_object_not_found (fun _ => inr true)); [exact empty_objects_ok|done|done|]. intros (_ & a & b & Hd & _). by apply elem_of_empty in Hd.
Defined.
